(* ===== verification/_CoqProject ===== *)
-Q . S2P
Prelude.v
OrdMap.v
Errors.v
Memory.v
Encode.v
Crypto.v
Blake3Core.v
Blake3Tree.v
Blake3Hash.v
Blake3Vector.v
Blake3Rows.v
Blake3Simd.v
Blake3Avx.v
Blake3Dispatch.v
FourQGroup.v
FourQGf.v
FourQField.v
FourQCurve.v
FourQOrder.v
FourQTable.v
FourQFixed.v
FourQSchnorr.v
FizzyLeb128.v
FizzyUtf8.v
FizzyTypes.v
FizzyExpr.v
FizzyExprSafety.v
FizzyParser.v
FizzyParserSafety.v
FizzyNumeric.v
FizzyExecute.v
FizzyCode.v
FizzyExprCode.v
FizzyCertify.v
FizzyStore.v
FizzyExecuteSafety.v
FizzyInstantiate.v
FizzyInstantiateSafety.v
FizzyApi.v
Protocol.v
Backend.v
StateDelta.v
StateNode.v
DeltaIndex.v
ResourceMeter.v
SystemInterface.v
Coin.v
ModuleCache.v
ProgramContext.v
HostApi.v
GuestMemory.v
FizzyNode.v
GuestSafety.v
ExecutionContext.v
Samples.v
ExecutionSafety.v
Transactions.v
SystemCalls.v
CoinSafety.v
NodeSafety.v
Controller.v
Chain.v
History.v
