(* ===== verification/Prelude.v ===== *)
(** * Respublica: a verification library

    Respublica is a blockchain node in C++: a state database that holds a tree
    of state deltas, a controller that applies blocks and transactions to it,
    and a virtual machine in which programs run. This library translates the
    node's own code (under [src/src/respublica] and [src/include/respublica]) and
    three of the libraries it carries (BLAKE3, the WebAssembly interpreter fizzy
    and the signatures of FourQ, under [src/external]) into executable Rocq definitions and proves what makes
    it correct.

    ** The parts and how they interact

    - A block or transaction arrives at [controller::process]
      (controller/controller.cpp). The controller looks up the parent in the
      database, makes a state node for the block, and lets an
      [execution_context] apply it.
    - The [execution_context] (controller/execution_context.{hpp,cpp}) checks
      authority, nonces and resources, applies each transaction in a temporary
      child of the block's node and squashes the child when all operations
      succeed. It runs programs on a bounded stack and is the
      [system_interface] those programs call.
    - Native programs (program/coin.cpp) call the interface directly; user
      programs run in the virtual machine (vm/program_context.cpp), whose host
      functions (controller/host_api.cpp) translate guest addresses and call
      the interface. The virtual machine parses, instantiates and executes a
      program through the C interface of fizzy (fizzy/fizzy.h).
    - The state database (state_db/) keeps the tree of deltas: a delta holds
      what was written and removed in it and points to its parent. The
      [delta_index] finds nodes by identifier and knows the root, the head and
      the fork heads.
    - A [resource_meter] counts what blocks and transactions use.

    ** The files

    - [Prelude]: machine integers, the state monad with exceptions and faults,
      the logics of computations ([preserves], [guarded], [wp_but]), tactics.
    - [OrdMap]: [std::map] and [std::set] of byte strings, as sorted lists.
    - [Errors]: the error enumerations, their messages, [std::error_code].
    - [Memory], [Encode], [Crypto], [Protocol]: memory.hpp, encode/, crypto/,
      protocol/. BLAKE3 and the signature scheme are classes.
    - [Blake3Core], [Blake3Tree], [Blake3Hash]: external/blake3 (blake3.c,
      blake3_portable.c, blake3_dispatch.c) and the thread-local hasher of
      crypto/hash.cpp over it; an instance of the class.
    - [Blake3Vector], [Blake3Rows], [Blake3Simd], [Blake3Avx], [Blake3Dispatch]:
      the versions of the compression for vector registers (blake3_sse2.c,
      blake3_sse41.c, blake3_neon.c; blake3_avx2.c, blake3_avx512.c) and the
      choice among them (blake3_dispatch.c). A register is the list of its 32-bit
      lanes. The round function is written once over the operations on words
      ([word_ops]); the classes [Lanewise] and [RowOps] state what one file's
      operations have to be, and the files' modules are instances of them.
    - [FourQGroup], [FourQGf]: what external/fourq computes with: the group of a
      complete twisted Edwards curve over any field, and the field of
      (2^127 - 1)^2 elements. [FourQField], [FourQCurve], [FourQOrder]: fp_x64.h
      and eccp2_core.c, field elements as 128-bit integers and points in the five
      representations of the code, each related to the group; arithmetic modulo
      the order. [FourQTable], [FourQFixed]: the table of multiples of the
      generator and the multiplication with it. [FourQSchnorr]: keys and
      signatures (schnorrq.c, crypto_util.c).
    - [FizzyLeb128], [FizzyUtf8], [FizzyTypes], [FizzyExpr], [FizzyParser]: the
      parser and validator of the WebAssembly library (external/fizzy:
      leb128.hpp, utf8.cpp, types.hpp, module.hpp, instructions.cpp,
      parser_expr.cpp, parser.cpp); [FizzyExprSafety], [FizzyParserSafety]: that
      it never fails otherwise than by refusing.
    - [FizzyNumeric], [FizzyExecute]: execute.cpp with stack.hpp and
      execution_context.hpp: the arithmetic of WebAssembly on integers and
      floating point numbers (Standard Library [SpecFloat], bit patterns as [Z]),
      the instructions, calls and the loop. A run is a tree of calls to host
      functions ([run]), so that what the host does between them is left open.
    - [FizzyCode], [FizzyExprCode], [FizzyCertify]: what it means for the code of
      a function to be certified (every position, the height of the stack at it
      and the branches between positions), and that the parser emits such code.
    - [FizzyStore], [FizzyExecuteSafety]: the invariant of the store that
      instances share, and that every instruction keeps it. Functions imported
      by an instance are host functions in it, as they are in the node.
    - [FizzyInstantiate], [FizzyInstantiateSafety]: instantiate.cpp and its
      safety; [FizzyApi]: the C interface (capi.cpp, fizzy.h).
    - [Backend], [StateDelta], [StateNode], [DeltaIndex]: state_db/, with the
      shared heap of deltas made explicit ([store]): two holders of one
      [std::shared_ptr] see each other's writes.
    - [ResourceMeter]: resource_meter.cpp, session.cpp, frame_recorder.cpp.
    - [SystemInterface]: program/system_interface.hpp as a record of operations,
      and the class [SystemLaws] of what programs rely on.
    - [Coin]: program/coin.cpp over any system interface.
    - [ModuleCache], [ProgramContext], [HostApi], [GuestMemory]: vm/ and
      controller/host_api.cpp, and the bounds of guest memory accesses. The
      interpreter is the class [Fizzy] there: an execution is a finite tree of
      calls to host functions.
    - [FizzyNode], [GuestSafety]: the class [Fizzy] instantiated by the
      interpreter ([interpreter]) the way program_context.cpp calls it, and the
      safety of a guest program on it, host functions included, over any system
      that respects buffers and whose meter does not rise (the classes
      [BoundedSystem], [Metered], [Spending]).
    - [ExecutionContext], [ExecutionSafety], [Transactions], [SystemCalls]: the
      execution context; what running programs may change; transactions
      and blocks; the context as an instance of [SystemLaws].
    - [CoinSafety], [NodeSafety]: both programs on the execution context itself,
      which runs further programs for them: coins are conserved by whatever is
      run, and with the interpreter of FizzyNode memory is respected and runs
      end. [NodeSafety] makes the context an instance of the classes of
      [GuestSafety].
    - [Controller], [Chain], [History]: the controller, what one call does to
      the chain, and the controller as a state machine over all its calls.
    - [Samples]: concrete instances the witnesses evaluate on.

    ** How the code is modelled

    A function of the C++ program is a computation [M S A] on the state [S] it
    works on: it returns ([Ret]), throws an exception ([Throw], with the state
    it leaves), or stops in a way the language gives no meaning to or that ends
    the process ([Fault]: a failed assertion, a null dereference, an access out
    of bounds, an exception that leaves a [noexcept] function, a use of freed
    memory). A [result< T >] is a sum of a value and an [error_code]. Unsigned
    integers are [Z] with every wrap-around written out ([u64], [u32]). The
    model has one thread: the mutex of the module cache is left out.

    Bounds: recursion that follows parent pointers has the pointer itself as
    fuel, since a parent is allocated before its child ([store_wf]); nested
    programs have one unit of fuel per free frame of the 32-frame stack and one
    more ([program_fuel]). That the fuel suffices is proved: [out_of_fuel] is
    excluded by [sd_refines_map], [run_program_safe] and [transaction_atomic].
    Over an arbitrary interpreter that is all: a module whose execution does not
    come to an end is the fault [endless]. That fizzy's interpreter has no such
    execution, start sections apart, is [execute_safe], and for whole runs of
    the node [guest_stays_in_memory].
    The parser of WebAssembly has the number of bytes left as fuel, as every
    item has at least one byte; [parse_well_formed] excludes [out_of_fuel].
    The interpreter needs two units of fuel per tick and two more, which is what
    [start_execution] gives it; [execute_safe] excludes [out_of_fuel]. A start
    section is not metered and need not end: its steps are bounded by the
    parameter [start_fuel], and a statement that it hangs holds for all bounds.
    The loops of the hasher have the length of their input, or the 64 bits of a
    counter, as fuel; [finalize_updates] is about what they compute. The loops of
    the vector code have the number of inputs or of output blocks as fuel
    ([degree_loop], [xof_loop]); [simd_equals_portable] is about their results.

    ** What the theorems show

    - State database: [map_backend] is a key-value store
      ([map_backend_refines_store]); a delta refines a finite map and a write
      is invisible beside its node ([sd_refines_map]); a child is squashed
      atomically ([child_writes_atomic]), a clone is independent
      ([sd_clone_view]), a commit keeps every view ([sd_commit_view]); nodes are
      found by revision ([di_at_revision_ok]); merkle roots bind contents ([delta_digest_binding],
      [merkle_tree_root]); keys of spaces do not clash
      ([make_compound_key_inj], [program_spaces_isolated]).
    - Transactions: atomicity ([transaction_atomic]), no replay
      ([block_no_replay], [block_nonces_consecutive]), exact receipts
      ([transaction_pays_what_it_uses], [session_accounting]).
    - Programs: running one restores the stack and cannot touch system
      objects ([run_program_safe], [run_program_overflow]); the context
      implements the system interface ([ctx_system_lawful]); whatever is run
      conserves coins ([coin_conservation], [coin_errors_move_nothing]); on the
      interpreter of fizzy programs that do without the three unchecked host
      functions, start sections and parameters of [_start] keep to their memory,
      as does the host on their behalf, and their runs end
      ([guest_stays_in_memory]); the module cache is an
      LRU cache ([get_module_refines], [put_module_refines]).
    - The chain: an accepted block passed every check ([process_block_checks]) and
      extends the tree with the others' views unchanged
      ([process_block_extends]); transactions outside blocks leave the chain
      alone ([process_transaction_leaves_chain]). Opening writes the genesis
      objects and nothing else ([ctl_open_spec]). Over all sequences of calls on a
      database opened without the reset flag (with it the head is lost,
      [reset_loses_head]), exceptions included: the tree of blocks keeps its shape
      ([history_invariant]), final blocks never change and the head never falls
      ([history_immutable]), only the genesis key signs
      ([accepted_blocks_signed]), below height 60 the chain can always be
      extended ([empty_block_accepted]), and at that height the next block
      takes the node down ([chain_stops_above_60]).
    - Hashing: the hasher of blake3.c computes the BLAKE3 tree hash however its
      input is cut and whatever the degree of parallelism ([finalize_updates]),
      within its arrays ([hasher_state_bounds]); the vector code computes what
      the portable code does ([simd_equals_portable]), so the functions of
      crypto/hash.cpp keep the contract the rest relies on
      ([hash_calls_refine]).
    - Signatures: the multiples of the generator are computed right for every
      scalar ([ecc_mul_fixed_right]); a signature satisfies the equation of
      Schnorr ([sign_equation]) and an encoding determines its point
      ([encode_inj]); the check of points is sound ([validate_sound]), and
      complete for reduced coordinates ([validate_complete]).
    - WebAssembly modules: the parser ends on all bytes and a module it returns
      is well formed ([parse_well_formed]); the number and text formats are
      decoded exactly ([leb128_decoders_exact], [utf8_validate_exact]); its code
      is certified ([parse_certified]). Instances made from such modules keep
      the invariant of the store ([instantiate_safe]), their functions run to an
      end without leaving code, stack, tables or memory ([execute_safe]), and the
      interpreter keeps the promises the virtual machine relies on
      ([interpreter_keeps_promise]). Failures reach the caller of the C interface
      with their code and message ([error_reported]).
    - Encodings and data: round trips ([hex_roundtrip], [base58_roundtrip]),
      validity and identifiers ([block_validate_spec],
      [transaction_id_binds_header], [account_kinds], [error_code_message]).
    - Where the code does something else than it means to, the behaviour is a
      theorem as well, for instance [chain_stops_above_60],
      [start_section_takes_node_down],
      [second_nonce_update_refused], [refused_block_reported_applied] and
      [read_program_terminates].

    ** Not modelled

    - The RocksDB backend: it is compiled out (#if 0 in state_delta.cpp).
    - Logging: output only.
    - Of fourq: the multiplications that use the endomorphisms of the curve
      ([ecc_mul], [ecc_mul_double]) and with them [decode] and
      [SchnorrQ_Verify]; hashing to the curve and key exchange, which the node
      does not use; the assembly of the extension field, which the build uses on
      amd64 in place of the C code, and the vector versions of the look-ups. The
      class [Signatures] stands for the scheme in the rest of the model, and for
      libsodium, which the node uses when FAST_CRYPTO is off.
    - The bit patterns of the NaNs that floating point operations produce (class
      [NanPattern]) and which allocations succeed (class [Allocator]): the
      language leaves them open, and the theorems hold for all of them.
    - In fizzy's C interface, the functions that free or clone objects.
    - The assembly versions of the BLAKE3 compression, which the build uses on
      amd64 in place of the x86 intrinsics, are not C; they are taken to compute
      what the intrinsics versions are proved to.
    - Serialization of protocol data (boost archives) and key generation.
    - Tests, benchmarks and tools. *)

From Stdlib Require Import ZArith List Lia String Sorting.Sorted.
From stdpp Require Import base gmap list strings numbers option.

#[global] Open Scope Z_scope.

(** ** Machine integers and bytes

    An unsigned [w]-bit integer is a [Z] in [[0, 2^w)]; every place where the
    C++ code wraps is written with [wrap]. *)

Definition wrap (w z : Z) : Z := z `mod` 2 ^ w.
Abbreviation u8 := (wrap 8).
Abbreviation u32 := (wrap 32).
Abbreviation u64 := (wrap 64).

(** [std::numeric_limits< std::uint64_t >::max()] *)
Definition u64_max : Z := 2 ^ 64 - 1.

(** The two's complement reading of a 64-bit pattern ([std::bit_cast] to
    [std::int64_t]). *)
Definition i64 (z : Z) : Z :=
  let r := u64 z in if r <? 2 ^ 63 then r else r - 2 ^ 64.

Definition u64_ok (z : Z) : Prop := 0 <= z < 2 ^ 64.
Definition u32_ok (z : Z) : Prop := 0 <= z < 2 ^ 32.

(** [std::vector< std::byte >], [std::span< const std::byte >],
    [std::array< std::byte, N >] and [std::string] are lists of byte values. *)
Abbreviation bytes := (list Z).

Definition byte_ok (b : Z) : Prop := 0 <= b < 256.
Abbreviation bytes_ok := (Forall byte_ok).

(** [x.size()] as the [std::size_t] / [std::ssize] the code computes with. *)
Definition zlen {A} (l : list A) : Z := Z.of_nat (length l).

Definition bytes_eqb (a b : bytes) : bool := bool_decide (a = b).

(** [std::array< std::byte, n >{}] *)
Definition zero_bytes (n : nat) : bytes := replicate n 0.

(** A string literal as its bytes. *)
Fixpoint str_bytes (s : string) : bytes :=
  match s with
  | EmptyString => []
  | String.String c s' => Z.of_nat (Ascii.nat_of_ascii c) :: str_bytes s'
  end.

(** ** Effects

    A computation over a state [S] returns a value, throws a C++ exception
    (the state reached so far is kept, as it is in memory), or reaches a point
    where the C++ program has no defined continuation. *)

Inductive exn :=
| runtime_error (what : string)
| bad_access (what : string)
| bad_alloc
| parser_error (what : string)
| validation_error (what : string)
| instantiate_error (what : string).
Arguments runtime_error what%_string_scope.
Arguments bad_access what%_string_scope.
Arguments parser_error what%_string_scope.
Arguments validation_error what%_string_scope.
Arguments instantiate_error what%_string_scope.

Inductive fault :=
| null_dereference
| out_of_bounds
| use_after_free
| assertion_failed
| integer_overflow
| endless
| terminate (e : exn)
| out_of_fuel.

Inductive outcome (S A : Type) : Type :=
| Ret (a : A) (s : S)
| Throw (e : exn) (s : S)
| Fault (f : fault).
Arguments Ret {S A} a s.
Arguments Throw {S A} e s.
Arguments Fault {S A} f.

Definition M (S A : Type) : Type := S -> outcome S A.

Section monad.
Context {S : Type}.

Definition ret {A} (a : A) : M S A := fun s => Ret a s.
Definition throw {A} (e : exn) : M S A := fun s => Throw e s.
Definition fail {A} (f : fault) : M S A := fun _ => Fault f.
Definition gets {A} (f : S -> A) : M S A := fun s => Ret (f s) s.
Definition modify (f : S -> S) : M S unit := fun s => Ret tt (f s).

Definition bind {A B} (m : M S A) (k : A -> M S B) : M S B :=
  fun s => match m s with
           | Ret a s' => k a s'
           | Throw e s' => Throw e s'
           | Fault f => Fault f
           end.

(** A destructor that runs on every exit of a scope. *)
Definition finally {A} (m : M S A) (d : S -> S) : M S A :=
  fun s => match m s with
           | Ret a s' => Ret a (d s')
           | Throw e s' => Throw e (d s')
           | Fault f => Fault f
           end.

(** A [noexcept] function: an exception that would leave it terminates. *)
Definition noexcept {A} (m : M S A) : M S A :=
  fun s => match m s with
           | Throw e _ => Fault (terminate e)
           | o => o
           end.

(** [assert( b )] *)
Definition assert_that (b : bool) : M S unit :=
  if b then ret tt else fail assertion_failed.

(** Dereference of a pointer that may be null. *)
Definition unptr {A} (o : option A) : M S A :=
  match o with Some a => ret a | None => fail null_dereference end.
End monad.

(** Running a computation on a component of a larger state. *)
Definition zoom {S T A} (get : S -> T) (set : T -> S -> S) (m : M T A) : M S A :=
  fun s => match m (get s) with
           | Ret a t => Ret a (set t s)
           | Throw e t => Throw e (set t s)
           | Fault f => Fault f
           end.

Declare Scope cpp_scope.
Delimit Scope cpp_scope with cpp.
Notation "'let*' x ':=' m 'in' k" := (bind m (fun x => k))
  (at level 10, x name, m at level 100, k at level 200) : cpp_scope.
Notation "'let*' ' p ':=' m 'in' k" := (bind m (fun x => match x with p => k end))
  (at level 10, p pattern, m at level 100, k at level 200) : cpp_scope.
Notation "m ;;; k" := (bind m (fun _ => k))
  (at level 100, right associativity) : cpp_scope.
#[global] Open Scope cpp_scope.

(** ** Relational invariants of computations

    [preserves R m]: whatever [m] does, the state it leaves is [R]-related to
    the state it started in. For a preorder [R] the property is closed under
    sequencing, so one lemma per primitive operation is enough. *)

Definition preserves {S A} (R : S -> S -> Prop) (m : M S A) : Prop :=
  forall s, match m s with
            | Ret _ s' | Throw _ s' => R s s'
            | Fault _ => True
            end.

Create HintDb preserve.

Section preserves.
Context {S : Type} (R : S -> S -> Prop) `{!PreOrder R}.

Lemma preserves_ret {A} (a : A) : preserves R (ret a).
Proof. intros s; simpl; reflexivity. Qed.

Lemma preserves_throw {A} e : preserves R (throw (A := A) e).
Proof. intros s; simpl; reflexivity. Qed.

Lemma preserves_fail {A} f : preserves R (fail (A := A) f).
Proof. intros s; exact I. Qed.

Lemma preserves_gets {A} (f : S -> A) : preserves R (gets f).
Proof. intros s; simpl; reflexivity. Qed.

Lemma preserves_modify f : (forall s, R s (f s)) -> preserves R (modify f).
Proof. intros H s; apply H. Qed.

Lemma preserves_bind {A B} (m : M S A) (k : A -> M S B) :
  preserves R m -> (forall a, preserves R (k a)) -> preserves R (bind m k).
Proof.
  intros Hm Hk s. unfold bind. specialize (Hm s). destruct (m s) as [a s'| |]; auto.
  specialize (Hk a s'). destruct (k a s'); auto; etrans; eauto.
Qed.

Lemma preserves_finally {A} (m : M S A) d :
  preserves R m -> (forall s, R s (d s)) -> preserves R (finally m d).
Proof.
  intros Hm Hd s. unfold finally. specialize (Hm s).
  destruct (m s); auto; etrans; eauto.
Qed.

Lemma preserves_noexcept {A} (m : M S A) : preserves R m -> preserves R (noexcept m).
Proof. intros Hm s. unfold noexcept. specialize (Hm s). destruct (m s); auto. Qed.

Lemma preserves_assert b : preserves R (assert_that b).
Proof. destruct b; [apply preserves_ret | apply preserves_fail]. Qed.

Lemma preserves_unptr {A} (o : option A) : preserves R (unptr o).
Proof. destruct o; [apply preserves_ret | apply preserves_fail]. Qed.
End preserves.

Lemma preserves_zoom {S T A} (R : S -> S -> Prop) (Q : T -> T -> Prop) get set (m : M T A) :
  (forall s t, Q (get s) t -> R s (set t s)) ->
  preserves Q m -> preserves R (zoom get set m).
Proof.
  intros Hset Hm s. unfold zoom. specialize (Hm (get s)). destruct (m (get s)); auto.
Qed.

#[export] Hint Resolve preserves_ret preserves_throw preserves_fail preserves_gets
  preserves_bind preserves_noexcept preserves_assert preserves_unptr : preserve.

(** [runs m s a s']: from [s], [m] returns [a] in state [s']. *)
Definition runs {S A} (m : M S A) (s : S) (a : A) (s' : S) : Prop := m s = Ret a s'.

Lemma bind_Ret {S A B} (m : M S A) (k : A -> M S B) s a s' :
  m s = Ret a s' -> bind m k s = k a s'.
Proof. unfold bind. by intros ->. Qed.

Lemma bind_gets {S A B} (f : S -> A) (k : A -> M S B) s : bind (gets f) k s = k (f s) s.
Proof. done. Qed.

Lemma bind_modify {S B} (f : S -> S) (k : unit -> M S B) s : bind (modify f) k s = k tt (f s).
Proof. done. Qed.

Lemma bind_ret {S A B} (a : A) (k : A -> M S B) s : bind (ret a) k s = k a s.
Proof. done. Qed.

Lemma bind_Ret_inv {S A B} (m : M S A) (k : A -> M S B) s b s' :
  bind m k s = Ret b s' -> exists a s1, m s = Ret a s1 /\ k a s1 = Ret b s'.
Proof. unfold bind. destruct (m s); intros; simplify_eq; eauto. Qed.

Lemma bind_assoc {S A B C} (m : M S A) (k : A -> M S B) (h : B -> M S C) s :
  bind (bind m k) h s = bind m (fun a => bind (k a) h) s.
Proof. unfold bind. by destruct (m s). Qed.

(** Break an equation [bind m k s = Ret b s'] down to the runs of its parts. *)
Ltac inv_bind :=
  repeat match goal with
  | H : bind _ _ _ = Ret _ _ |- _ =>
      apply bind_Ret_inv in H; destruct H as (?a & ?s & ?H & ?H); simpl in *
  | H : ret _ _ = Ret _ _ |- _ => unfold ret in H; simplify_eq
  | H : gets _ _ = Ret _ _ |- _ => unfold gets in H; simplify_eq
  | H : modify _ _ = Ret _ _ |- _ => unfold modify in H; simplify_eq
  | H : throw _ _ = Ret _ _ |- _ => discriminate H
  | H : fail _ _ = Ret _ _ |- _ => discriminate H
  end.

(** ** Arithmetic *)

Lemma wrap_range w z : 0 <= w -> 0 <= wrap w z < 2 ^ w.
Proof. intros. unfold wrap. apply Z.mod_pos_bound. lia. Qed.

Lemma wrap_small w z : 0 <= z < 2 ^ w -> wrap w z = z.
Proof. intros. unfold wrap. by apply Z.mod_small. Qed.

Lemma u64_range z : u64_ok (u64 z).
Proof. unfold u64_ok. by apply wrap_range. Qed.

Lemma u64_small z : u64_ok z -> u64 z = z.
Proof. apply wrap_small. Qed.

(** A negative [std::int64_t] converted to [std::uint64_t]. *)
Lemma u64_neg z : - 2 ^ 63 <= z < 0 -> u64 z = z + 2 ^ 64.
Proof.
  intros. unfold wrap. rewrite <- (Z.mod_add z 1) by lia. rewrite Z.mod_small; lia.
Qed.

Lemma i64_u64 z : i64 (u64 z) = i64 z.
Proof. unfold i64, wrap. by rewrite Z.mod_mod by lia. Qed.

Lemma u64_i64 z : u64 (i64 z) = u64 z.
Proof.
  unfold i64. destruct (_ <? _) eqn:E.
  - unfold wrap. by rewrite Z.mod_mod by lia.
  - unfold wrap. rewrite <- (Z.mod_add (_ - _) 1) by lia.
    rewrite Z.mul_1_l, Z.sub_add. by rewrite Z.mod_mod by lia.
Qed.

#[export] Hint Resolve u64_range : core.

(** ** Lists *)

Lemma bytes_eqb_eq a b : bytes_eqb a b = true <-> a = b.
Proof. unfold bytes_eqb. apply bool_decide_eq_true. Qed.

Lemma bytes_eqb_neq a b : bytes_eqb a b = false <-> a <> b.
Proof. unfold bytes_eqb. apply bool_decide_eq_false. Qed.

Lemma bytes_eqb_refl a : bytes_eqb a a = true.
Proof. by apply bytes_eqb_eq. Qed.

Lemma bytes_eqb_sym a b : bytes_eqb a b = bytes_eqb b a.
Proof. unfold bytes_eqb. apply bool_decide_ext. naive_solver. Qed.

Lemma zlen_nonneg {A} (l : list A) : 0 <= zlen l.
Proof. unfold zlen. lia. Qed.

Lemma zlen_app {A} (l l' : list A) : zlen (l ++ l') = zlen l + zlen l'.
Proof. unfold zlen. rewrite length_app. lia. Qed.

Lemma zlen_cons {A} (x : A) l : zlen (x :: l) = 1 + zlen l.
Proof. unfold zlen. simpl. lia. Qed.

Lemma zlen_nil {A} : zlen (@nil A) = 0.
Proof. done. Qed.

Create Rewrite HintDb zlen.
#[export] Hint Rewrite @zlen_app @zlen_cons @zlen_nil : zlen.

Lemma zero_bytes_ok n : bytes_ok (zero_bytes n).
Proof. apply Forall_replicate. unfold byte_ok. lia. Qed.

(** Checking concrete bytes. *)
Lemma bytes_check l : forallb (fun b => (0 <=? b) && (b <? 256)) l = true -> bytes_ok l.
Proof.
  induction l as [|b l IH]; cbn [forallb]; [constructor|].
  intros [[H1 H2]%andb_true_iff H3]%andb_true_iff. constructor; [|auto]. unfold byte_ok. lia.
Qed.

(** Case analysis on the boolean test that blocks the goal or a hypothesis. *)
Ltac case_bool :=
  match goal with
  | |- context [if ?b then _ else _] => destruct b eqn:?
  | H : context [if ?b then _ else _] |- _ => destruct b eqn:?
  end.

(** Turn boolean comparisons into propositions. *)
Ltac bool_to_prop :=
  repeat match goal with
  | H : (_ <? _) = true |- _ => apply Z.ltb_lt in H
  | H : (_ <? _) = false |- _ => apply Z.ltb_ge in H
  | H : (_ <=? _) = true |- _ => apply Z.leb_le in H
  | H : (_ <=? _) = false |- _ => apply Z.leb_gt in H
  | H : (_ =? _) = true |- _ => apply Z.eqb_eq in H
  | H : (_ =? _) = false |- _ => apply Z.eqb_neq in H
  | H : bytes_eqb _ _ = true |- _ => apply bytes_eqb_eq in H
  | H : bytes_eqb _ _ = false |- _ => apply bytes_eqb_neq in H
  | H : (_ && _)%bool = true |- _ => apply andb_true_iff in H as [? ?]
  | H : (_ || _)%bool = false |- _ => apply orb_false_iff in H as [? ?]
  | H : negb _ = true |- _ => apply negb_true_iff in H
  | H : negb _ = false |- _ => apply negb_false_iff in H
  end.

(** ** Guarded computations

    [guarded P R m]: started in a state with [P], [m] leaves a state related by
    [R], or stops with a fault of the C++ program; it never runs out of the fuel
    a model gives it. With [R] a preorder that keeps [P], the property is closed
    under everything programs are built from. *)

Definition guarded {S A} (P : S -> Prop) (R : S -> S -> Prop) (m : M S A) : Prop :=
  forall s, P s -> match m s with
                   | Ret _ s' | Throw _ s' => R s s'
                   | Fault f => f <> out_of_fuel
                   end.

Class Stable {S} (P : S -> Prop) (R : S -> S -> Prop) : Prop :=
  stable : forall s s', P s -> R s s' -> P s'.

Create HintDb guarded.

Section guarded.
Context {S : Type} (P : S -> Prop) (R : S -> S -> Prop) `{!PreOrder R} `{!Stable P R}.

Lemma guarded_ret {A} (a : A) : guarded P R (ret a).
Proof using PreOrder0. intros s _. simpl. reflexivity. Qed.
Lemma guarded_throw {A} e : guarded P R (throw (A := A) e).
Proof using PreOrder0. intros s _. simpl. reflexivity. Qed.
Lemma guarded_fail {A} f : f <> out_of_fuel -> guarded P R (fail (A := A) f).
Proof using Type. by intros HF s _. Qed.
Lemma guarded_gets {A} (f : S -> A) : guarded P R (gets f).
Proof using PreOrder0. intros s _. simpl. reflexivity. Qed.
Lemma guarded_modify f : (forall s, P s -> R s (f s)) -> guarded P R (modify f).
Proof using Type. intros H s Hs. by apply H. Qed.

Lemma guarded_bind {A B} (m : M S A) (k : A -> M S B) :
  guarded P R m -> (forall a, guarded P R (k a)) -> guarded P R (bind m k).
Proof using PreOrder0 Stable0.
  intros Hm Hk s Hs. specialize (Hm s Hs). unfold bind. destruct (m s) as [a s'| |]; auto.
  specialize (Hk a s' (stable _ _ Hs Hm)). destruct (k a s'); auto; by etrans.
Qed.

Lemma guarded_noexcept {A} (m : M S A) : guarded P R m -> guarded P R (noexcept m).
Proof using Type. intros Hm s Hs. specialize (Hm s Hs). unfold noexcept. by destruct (m s). Qed.

Lemma guarded_assert b : guarded P R (assert_that b).
Proof using PreOrder0. destruct b; [apply guarded_ret|by apply guarded_fail]. Qed.
Lemma guarded_unptr {A} (o : option A) : guarded P R (unptr o).
Proof using PreOrder0. destruct o; [apply guarded_ret|by apply guarded_fail]. Qed.
End guarded.

Lemma guarded_zoom {S T A} (P : S -> Prop) (R : S -> S -> Prop)
    (Q : T -> Prop) (Z : T -> T -> Prop) get set (m : M T A) :
  (forall s, P s -> Q (get s)) -> (forall s t, P s -> Z (get s) t -> R s (set t s)) ->
  guarded Q Z m -> guarded P R (zoom get set m).
Proof.
  intros HP HR Hm s Hs. unfold zoom. specialize (Hm (get s) (HP s Hs)). destruct (m (get s)); auto.
Qed.

(** One rule of [guarded], or a case analysis on what the computation branches
    on. *)
Ltac guard_step :=
  match goal with
  | |- guarded _ _ (ret _) => apply guarded_ret; apply _
  | |- guarded _ _ (throw _) => apply guarded_throw; apply _
  | |- guarded _ _ (gets _) => apply guarded_gets; apply _
  | |- guarded _ _ (fail _) => apply guarded_fail; discriminate
  | |- guarded _ _ (assert_that _) => apply guarded_assert; apply _
  | |- guarded _ _ (unptr _) => apply guarded_unptr; apply _
  | |- guarded _ _ (noexcept _) => apply guarded_noexcept
  | |- guarded _ _ (bind _ _) => apply guarded_bind; [apply _|apply _| |intros]
  | |- guarded _ _ (if ?b then _ else _) => destruct b
  | |- guarded _ _ (match ?x with _ => _ end) => destruct x
  | |- guarded _ _ (let _ := _ in _) => intro
  end.
Ltac guarded_auto := repeat (first [assumption | solve [auto with guarded] | guard_step | progress cbv zeta]).

(** ** Weakest preconditions

    [wp_but bad E m Q s]: when [m] returns from [s], its result satisfies [Q];
    when it throws, the state it leaves satisfies [E]; it may stop with a fault
    other than [bad]. With the lack of fuel for [bad], [m] ends. *)

Definition wp_but (bad : fault) {S A} (E : S -> Prop) (m : M S A) (Q : A -> S -> Prop) (s : S) : Prop :=
  match m s with
  | Ret a s' => Q a s'
  | Throw _ s' => E s'
  | Fault f => f <> bad
  end.
Abbreviation wp := (wp_but out_of_fuel).

Section wp.
Context {S : Type} {bad : fault} {E : S -> Prop}.

Lemma wp_bind {A B} (m : M S A) (k : A -> M S B) Q s :
  wp_but bad E m (fun a s' => wp_but bad E (k a) Q s') s -> wp_but bad E (bind m k) Q s.
Proof. unfold wp_but, bind. by destruct (m s). Qed.

Lemma wp_ret {A} (a : A) (Q : A -> S -> Prop) s : Q a s -> wp_but bad E (ret a) Q s.
Proof. done. Qed.

Lemma wp_throw {A} e (Q : A -> S -> Prop) s : E s -> wp_but bad E (throw e) Q s.
Proof. done. Qed.

Lemma wp_gets {A B} (f : S -> A) (k : A -> M S B) Q s :
  wp_but bad E (k (f s)) Q s -> wp_but bad E (bind (gets f) k) Q s.
Proof. done. Qed.

Lemma wp_modify {B} (f : S -> S) (k : unit -> M S B) Q s :
  wp_but bad E (k tt) Q (f s) -> wp_but bad E (bind (modify f) k) Q s.
Proof. done. Qed.

Lemma wp_run {A} (m : M S A) (Q : A -> S -> Prop) s a s' : m s = Ret a s' -> Q a s' -> wp_but bad E m Q s.
Proof. unfold wp_but. by intros ->. Qed.

Lemma wp_finally {A} (m : M S A) d Q s :
  wp_but bad (fun s' => E (d s')) m (fun a s' => Q a (d s')) s -> wp_but bad E (finally m d) Q s.
Proof. unfold wp_but, finally. by destruct (m s). Qed.

Lemma wp_mono {A} (m : M S A) (E' : S -> Prop) (Q Q' : A -> S -> Prop) s :
  (forall a s', Q a s' -> Q' a s') -> (forall s', E s' -> E' s') -> wp_but bad E m Q s -> wp_but bad E' m Q' s.
Proof. unfold wp_but. destruct (m s); auto. Qed.

Lemma wp_post {A} (m : M S A) (Q Q' : A -> S -> Prop) s :
  (forall a s', Q a s' -> Q' a s') -> wp_but bad E m Q s -> wp_but bad E m Q' s.
Proof. unfold wp_but. destruct (m s); auto. Qed.

Lemma wp_Ret {A} (m : M S A) (Q : A -> S -> Prop) s a s' : wp_but bad E m Q s -> m s = Ret a s' -> Q a s'.
Proof. unfold wp_but. by intros H Hm; rewrite Hm in H. Qed.
End wp.

Lemma wp_guarded {S A} (P : S -> Prop) (R : S -> S -> Prop) (E : S -> Prop) (m : M S A) (Q : A -> S -> Prop) s :
  guarded P R m -> P s -> (forall s', R s s' -> E s') -> (forall a s', R s s' -> Q a s') -> wp E m Q s.
Proof. intros Hg Hs HE HQ. specialize (Hg s Hs). unfold wp_but. destruct (m s); auto. Qed.

(** ** Bits of integers *)

Lemma land_above a b n : 0 <= n -> 0 <= a < 2 ^ n -> Z.land a (Z.shiftl b n) = 0.
Proof.
  intros Hn Ha. apply Z.bits_inj'. intros m Hm. rewrite Z.land_spec, Z.bits_0.
  destruct (decide (m < n)); [by rewrite Z.shiftl_spec_low, andb_false_r by done|].
  rewrite <- (Z.mod_small a (2 ^ n)) by done. by rewrite Z.mod_pow2_bits_high by lia.
Qed.

(** Bits above the ones already there. *)
Lemma lor_above a b n : 0 <= n -> 0 <= a < 2 ^ n -> Z.lor a (Z.shiftl b n) = a + b * 2 ^ n.
Proof.
  intros Hn Ha. rewrite <- Z.shiftl_mul_pow2 by done. rewrite <- (Z.add_lor_land a (Z.shiftl b n)), land_above by done. lia.
Qed.

Lemma lxor_above a b n : 0 <= n -> 0 <= a < 2 ^ n -> Z.lxor a (Z.shiftl b n) = a + b * 2 ^ n.
Proof. intros Hn Ha. rewrite <- Z.shiftl_mul_pow2 by done. symmetry. apply Z.add_nocarry_lxor. by apply land_above. Qed.

Lemma bits_range n z : 0 <= n -> (forall m, n <= m -> Z.testbit z m = false) -> 0 <= z < 2 ^ n.
Proof.
  intros Hn H. assert (z = z `mod` 2 ^ n) as ->; [|apply Z.mod_pos_bound; lia].
  apply Z.bits_inj'. intros m Hm. destruct (decide (m < n)); [by rewrite Z.mod_pow2_bits_low by lia|].
  rewrite Z.mod_pow2_bits_high, H by lia. done.
Qed.

Lemma range_bits n z m : 0 <= z < 2 ^ n -> 0 <= n <= m -> Z.testbit z m = false.
Proof. intros Hz Hm. rewrite <- (Z.mod_small z (2 ^ n)) by done. apply Z.mod_pow2_bits_high. lia. Qed.

Lemma lxor_range n a b : 0 <= n -> 0 <= a < 2 ^ n -> 0 <= b < 2 ^ n -> 0 <= Z.lxor a b < 2 ^ n.
Proof. intros Hn Ha Hb. apply bits_range; [done|]. intros m Hm. rewrite Z.lxor_spec, !(range_bits n) by lia. done. Qed.

Lemma lor_range n a b : 0 <= n -> 0 <= a < 2 ^ n -> 0 <= b < 2 ^ n -> 0 <= Z.lor a b < 2 ^ n.
Proof. intros Hn Ha Hb. apply bits_range; [done|]. intros m Hm. rewrite Z.lor_spec, !(range_bits n) by lia. done. Qed.

Lemma shiftr_above a b n : 0 <= n -> 0 <= a < 2 ^ n -> Z.shiftr (a + b * 2 ^ n) n = b.
Proof. intros Hn Ha. rewrite Z.shiftr_div_pow2, Z.div_add by lia. rewrite Z.div_small; lia. Qed.

(** The low [w] bits of a number shifted by less than [w]. *)
Lemma wrap_shiftl w x n : 0 <= n <= w -> wrap w (Z.shiftl x n) = Z.shiftl (x `mod` 2 ^ (w - n)) n.
Proof.
  intros Hn. unfold wrap. rewrite !Z.shiftl_mul_pow2 by lia. replace (2 ^ w) with (2 ^ (w - n) * 2 ^ n).
  - apply Z.mul_mod_distr_r; apply Z.pow_nonzero; lia.
  - rewrite <- Z.pow_add_r by lia. f_equal. lia.
Qed.
