(* ===== verification/OrdMap.v ===== *)
(** * Ordered maps and sets keyed by byte strings

    [std::map< std::vector< std::byte >, V >] and
    [std::set< std::vector< std::byte > >] as association lists in key order.
    The order is the lexicographic one on byte values, which is what
    [operator<] on [std::vector< std::byte >] and
    [std::ranges::lexicographical_compare] compute. Lookup, insertion and
    erasure do not depend on the order, so their lookup laws hold of every
    list; the order matters for iteration, and [om_wf] says it is kept. *)

From stdpp Require Import base list option.
From Stdlib Require Import Sorting.Sorted.
From S2P Require Import Prelude.

(** ** Lexicographic order *)

Fixpoint bytes_cmp (a b : bytes) : comparison :=
  match a, b with
  | [], [] => Eq
  | [], _ :: _ => Lt
  | _ :: _, [] => Gt
  | x :: a', y :: b' =>
      match Z.compare x y with Eq => bytes_cmp a' b' | c => c end
  end.

(** [std::ranges::lexicographical_compare( a, b )] *)
Definition bytes_ltb (a b : bytes) : bool :=
  match bytes_cmp a b with Lt => true | _ => false end.

Definition bytes_lt (a b : bytes) : Prop := bytes_cmp a b = Lt.

Lemma bytes_cmp_eq a b : bytes_cmp a b = Eq <-> a = b.
Proof.
  revert b; induction a as [|x a IH]; intros [|y b]; simpl; try naive_solver.
  destruct (Z.compare_spec x y); split; intros H'; simplify_eq; try lia.
  - f_equal. by apply IH.
  - by apply IH.
Qed.

Lemma bytes_cmp_refl a : bytes_cmp a a = Eq.
Proof. by apply bytes_cmp_eq. Qed.

Lemma bytes_cmp_antisym a b : bytes_cmp b a = CompOpp (bytes_cmp a b).
Proof.
  revert b; induction a as [|x a IH]; intros [|y b]; simpl; try done.
  rewrite (Z.compare_antisym x y). destruct (Z.compare x y); simpl; auto.
Qed.

Lemma bytes_lt_trans a b c : bytes_lt a b -> bytes_lt b c -> bytes_lt a c.
Proof.
  unfold bytes_lt. revert b c; induction a as [|x a IH]; intros [|y b] [|z c]; simpl; try done.
  destruct (Z.compare_spec x y), (Z.compare_spec y z), (Z.compare_spec x z);
    intros; try done; subst; try lia; eauto.
Qed.

Lemma bytes_lt_irrefl a : ~ bytes_lt a a.
Proof. unfold bytes_lt. by rewrite bytes_cmp_refl. Qed.

Lemma bytes_cmp_gt a b : bytes_cmp a b = Gt -> bytes_lt b a.
Proof. unfold bytes_lt. rewrite (bytes_cmp_antisym a b). by intros ->. Qed.

Lemma bytes_lt_ne a b : bytes_lt a b -> a <> b.
Proof. intros H ->. by eapply bytes_lt_irrefl. Qed.

#[export] Instance bytes_lt_strict : StrictOrder bytes_lt.
Proof.
  split; [intros a; apply bytes_lt_irrefl | intros a b c; apply bytes_lt_trans].
Qed.

#[export] Instance bytes_lt_dec a b : Decision (bytes_lt a b).
Proof. unfold bytes_lt. apply _. Defined.

(** ** Maps *)

Section omap.
Context {A : Type}.
Implicit Types (m : list (bytes * A)) (k : bytes) (v : A).

(** [find( k )] *)
Fixpoint om_lookup k m : option A :=
  match m with
  | [] => None
  | (k', v) :: m' => if bytes_eqb k k' then Some v else om_lookup k m'
  end.

(** [insert_or_assign( k, v )] *)
Fixpoint om_insert k v m : list (bytes * A) :=
  match m with
  | [] => [(k, v)]
  | (k', v') :: m' =>
      match bytes_cmp k k' with
      | Lt => (k, v) :: m
      | Eq => (k, v) :: m'
      | Gt => (k', v') :: om_insert k v m'
      end
  end.

(** [erase( k )] *)
Definition om_delete k m : list (bytes * A) :=
  List.filter (fun p => negb (bytes_eqb k p.1)) m.

Definition om_mem k m : bool :=
  match om_lookup k m with Some _ => true | None => false end.

(** The first entry whose key is not before [k], with the entries from it
    on: what [lower_bound( k )] points to. *)
Fixpoint om_lower_bound k m : list (bytes * A) :=
  match m with
  | [] => []
  | (k', v') :: m' => if bytes_ltb k' k then om_lower_bound k m' else m
  end.

(** Keys are strictly increasing. *)
Definition om_wf m : Prop := StronglySorted bytes_lt (m.*1).

Lemma om_lookup_insert_eq k v m : om_lookup k (om_insert k v m) = Some v.
Proof.
  induction m as [|[k' v'] m IH]; simpl; [by rewrite bytes_eqb_refl|].
  destruct (bytes_cmp k k') eqn:E; simpl; try by rewrite bytes_eqb_refl.
  destruct (bytes_eqb k k') eqn:E'; [|done].
  apply bytes_eqb_eq in E' as ->. by rewrite bytes_cmp_refl in E.
Qed.

Lemma om_lookup_insert_ne k k' v m : k <> k' -> om_lookup k' (om_insert k v m) = om_lookup k' m.
Proof.
  intros Hne. assert (bytes_eqb k' k = false) as Hf by (apply bytes_eqb_neq; congruence).
  induction m as [|[k1 v1] m IH]; simpl; [by rewrite Hf|].
  destruct (bytes_cmp k k1) eqn:E; simpl.
  - apply bytes_cmp_eq in E as ->. by rewrite Hf.
  - by rewrite Hf.
  - by rewrite IH.
Qed.

Lemma om_lookup_insert k k' v m :
  om_lookup k' (om_insert k v m) = if bytes_eqb k' k then Some v else om_lookup k' m.
Proof.
  destruct (bytes_eqb k' k) eqn:E.
  - apply bytes_eqb_eq in E as ->. apply om_lookup_insert_eq.
  - apply bytes_eqb_neq in E. by apply om_lookup_insert_ne.
Qed.

Lemma om_lookup_delete k k' m :
  om_lookup k' (om_delete k m) = if bytes_eqb k' k then None else om_lookup k' m.
Proof.
  induction m as [|[k1 v1] m IH]; simpl; [by case_bool|].
  destruct (bytes_eqb k k1) eqn:E; simpl; rewrite IH.
  - apply bytes_eqb_eq in E as ->. by destruct (bytes_eqb k' k1).
  - destruct (bytes_eqb k' k) eqn:E1, (bytes_eqb k' k1) eqn:E2; try done.
    apply bytes_eqb_eq in E1, E2. subst. by rewrite bytes_eqb_refl in E.
Qed.

Lemma om_lookup_delete_eq k m : om_lookup k (om_delete k m) = None.
Proof. by rewrite om_lookup_delete, bytes_eqb_refl. Qed.

Lemma om_lookup_delete_ne k k' m : k <> k' -> om_lookup k' (om_delete k m) = om_lookup k' m.
Proof.
  intros Hne. rewrite om_lookup_delete.
  by rewrite (proj2 (bytes_eqb_neq k' k)) by congruence.
Qed.

Lemma om_delete_None k m : om_lookup k m = None -> om_delete k m = m.
Proof.
  induction m as [|[k1 v1] m IH]; simpl; [done|].
  destruct (bytes_eqb k k1); simpl; [done|]. intros. by rewrite IH.
Qed.

Lemma om_lookup_elem k v m : om_lookup k m = Some v -> (k, v) ∈ m.
Proof.
  induction m as [|[k1 v1] m IH]; simpl; [done|]. case_bool; intros; simplify_eq.
  - bool_to_prop; subst. by left.
  - right. auto.
Qed.

Lemma om_elem_lookup k v m : om_wf m -> (k, v) ∈ m -> om_lookup k m = Some v.
Proof.
  unfold om_wf. induction m as [|[k1 v1] m IH]; simpl; intros Hs Hin.
  { by apply elem_of_nil in Hin. }
  apply StronglySorted_inv in Hs as [Hs Hall]. apply elem_of_cons in Hin as [Heq|Hin].
  - simplify_eq. by rewrite bytes_eqb_refl.
  - case_bool; [|auto]. bool_to_prop; subst.
    rewrite List.Forall_forall in Hall.
    exfalso. apply (bytes_lt_irrefl k1), Hall. apply list_elem_of_In.
    apply list_elem_of_fmap. by exists (k1, v).
Qed.

Lemma om_insert_keys k v m x : x ∈ (om_insert k v m).*1 -> x = k \/ x ∈ m.*1.
Proof.
  induction m as [|[k1 v1] m IH]; simpl.
  - intros ?%list_elem_of_singleton. by left.
  - destruct (bytes_cmp k k1); simpl; rewrite ?elem_of_cons; naive_solver.
Qed.

Lemma om_insert_wf k v m : om_wf m -> om_wf (om_insert k v m).
Proof.
  unfold om_wf. induction m as [|[k1 v1] m IH]; simpl; intros Hs.
  { repeat constructor. }
  apply StronglySorted_inv in Hs as [Hs Hall].
  destruct (bytes_cmp k k1) eqn:E; simpl.
  - apply bytes_cmp_eq in E as ->. by constructor.
  - constructor; [by constructor|]. constructor; [done|].
    eapply List.Forall_impl; [|done]. intros a Ha. by eapply bytes_lt_trans.
  - apply bytes_cmp_gt in E. constructor; [auto|].
    rewrite List.Forall_forall in Hall |- *. intros x [->|Hx]%list_elem_of_In%om_insert_keys;
      [done|]. by apply Hall, list_elem_of_In.
Qed.

Lemma om_delete_wf k m : om_wf m -> om_wf (om_delete k m).
Proof.
  unfold om_wf. induction m as [|[k1 v1] m IH]; simpl; intros Hs; [done|].
  apply StronglySorted_inv in Hs as [Hs Hall]. destruct (bytes_eqb k k1); simpl; [auto|].
  constructor; [auto|]. rewrite List.Forall_forall in Hall |- *. intros x Hx. apply Hall.
  apply list_elem_of_In, list_elem_of_fmap in Hx as ([k2 v2] & -> & Hx).
  apply list_elem_of_In, list_elem_of_fmap. exists (k2, v2). split; [done|].
  apply list_elem_of_In in Hx. unfold om_delete in Hx. apply filter_In in Hx as [Hx _].
  by apply list_elem_of_In.
Qed.

(** Two ordered maps with the same lookups are the same list: iteration order
    is a function of the contents. *)
Lemma om_ext m1 m2 :
  om_wf m1 -> om_wf m2 -> (forall k, om_lookup k m1 = om_lookup k m2) -> m1 = m2.
Proof.
  unfold om_wf. revert m2; induction m1 as [|[k1 v1] m1 IH]; intros [|[k2 v2] m2] H1 H2 Hl.
  - done.
  - specialize (Hl k2). simpl in Hl. by rewrite bytes_eqb_refl in Hl.
  - specialize (Hl k1). simpl in Hl. by rewrite bytes_eqb_refl in Hl.
  - apply StronglySorted_inv in H1 as [S1 A1], H2 as [S2 A2].
    assert (k1 = k2) as ->.
    { destruct (bytes_cmp k1 k2) eqn:E; [by apply bytes_cmp_eq| |].
      - exfalso. specialize (Hl k1). simpl in Hl. rewrite bytes_eqb_refl in Hl.
        rewrite (proj2 (bytes_eqb_neq k1 k2)) in Hl by (by apply bytes_lt_ne).
        symmetry in Hl. apply om_lookup_elem in Hl.
        rewrite List.Forall_forall in A2. apply (bytes_lt_irrefl k1).
        etrans; [exact E|]. apply A2, list_elem_of_In, list_elem_of_fmap. by exists (k1, v1).
      - apply bytes_cmp_gt in E.
        exfalso. specialize (Hl k2). simpl in Hl. rewrite bytes_eqb_refl in Hl.
        rewrite (proj2 (bytes_eqb_neq k2 k1)) in Hl by (by apply bytes_lt_ne).
        apply om_lookup_elem in Hl.
        rewrite List.Forall_forall in A1. apply (bytes_lt_irrefl k2).
        etrans; [exact E|]. apply A1, list_elem_of_In, list_elem_of_fmap. by exists (k2, v2). }
    assert (v1 = v2) as ->.
    { specialize (Hl k2). simpl in Hl. rewrite !bytes_eqb_refl in Hl. congruence. }
    f_equal. apply IH; [done..|]. intros k. specialize (Hl k). simpl in Hl.
    destruct (bytes_eqb k k2) eqn:E; [|done]. apply bytes_eqb_eq in E as ->.
    assert (forall m, Forall (bytes_lt k2) m.*1 -> om_lookup k2 m = None) as Hn.
    { intros m Hm. destruct (om_lookup k2 m) eqn:Ek; [|done].
      apply om_lookup_elem in Ek. rewrite List.Forall_forall in Hm. exfalso.
      apply (bytes_lt_irrefl k2), Hm, list_elem_of_In, list_elem_of_fmap. by exists (k2, a). }
    by rewrite !Hn.
Qed.

Lemma om_lower_bound_lookup k m :
  om_wf m ->
  om_lookup k m = match om_lower_bound k m with
                  | (k', v) :: _ => if bytes_eqb k k' then Some v else None
                  | [] => None
                  end.
Proof.
  unfold om_wf. induction m as [|[k1 v1] m IH]; simpl; intros Hs; [done|].
  apply StronglySorted_inv in Hs as [Hs Hall].
  unfold bytes_ltb. destruct (bytes_cmp k1 k) eqn:E.
  - apply bytes_cmp_eq in E as ->. by rewrite bytes_eqb_refl.
  - rewrite (proj2 (bytes_eqb_neq k k1)); [by apply IH|].
    intros ->. by eapply bytes_lt_irrefl.
  - apply bytes_cmp_gt in E.
    rewrite (proj2 (bytes_eqb_neq k k1)) by (by apply bytes_lt_ne).
    destruct (om_lookup k m) eqn:El; [|done]. apply om_lookup_elem in El.
    rewrite List.Forall_forall in Hall. exfalso. apply (bytes_lt_irrefl k).
    etrans; [exact E|]. apply Hall, list_elem_of_In, list_elem_of_fmap. by exists (k, a).
Qed.

Lemma om_wf_tail p m : om_wf (p :: m) -> om_wf m.
Proof. unfold om_wf. simpl. by intros [? _]%StronglySorted_inv. Qed.

Lemma om_head_not_in k v m : om_wf ((k, v) :: m) -> om_lookup k m = None.
Proof.
  intros Hwf. destruct (om_lookup k m) eqn:E; [|done]. apply om_lookup_elem in E.
  unfold om_wf in Hwf. simpl in Hwf. apply StronglySorted_inv in Hwf as [_ Hall].
  rewrite List.Forall_forall in Hall. exfalso. apply (bytes_lt_irrefl k), Hall.
  apply list_elem_of_In, list_elem_of_fmap. by exists (k, a).
Qed.

Lemma om_delete_length k v m :
  om_wf m -> om_lookup k m = Some v -> length m = S (length (om_delete k m)).
Proof.
  induction m as [|[k1 v1] m IH]; intros Hwf; simpl; [done|].
  case_bool; intros; simpl.
  - bool_to_prop; subst. f_equal. fold (om_delete k1 m).
    rewrite om_delete_None; [done|]. by eapply om_head_not_in.
  - f_equal. apply IH; [by eapply om_wf_tail|done].
Qed.
End omap.

#[export] Hint Resolve om_insert_wf om_delete_wf : core.

Lemma om_wf_nil {A} : om_wf (@nil (bytes * A)).
Proof. constructor. Qed.
#[export] Hint Resolve om_wf_nil : core.

(** ** Sets *)

Abbreviation oset := (list (bytes * unit)).

Definition os_insert (k : bytes) (s : oset) : oset := om_insert k tt s.
