(* ===== verification/Errors.v ===== *)
(** * Error codes

    The error enumerations of the program, their [std::error_category]s and
    [std::error_code]. An enumeration is a module: its constructors in source
    order, [value] (the [static_cast< int >]), [text] (the strings of the
    category's [message]). *)

From stdpp Require Import base list option strings pretty.
From S2P Require Import Prelude.

Module controller_errc.
Inductive t :=
| ok | authorization_failure | invalid_nonce | invalid_signature
| malformed_block | malformed_transaction | insufficient_resources
| unknown_previous_block | unexpected_height | block_state_error
| state_merkle_mismatch | network_id_mismatch | timestamp_out_of_bounds
| network_bandwidth_limit_exceeded | compute_bandwidth_limit_exceeded
| disk_storage_limit_exceeded | pre_irreversibility_block | invalid_program
| invalid_event_name | invalid_account | insufficient_privileges
| unknown_operation | read_only_context | stack_overflow
| bad_file_descriptor | unexpected_object | insufficient_space.

#[export] Instance t_eq_dec : EqDecision t.
Proof. solve_decision. Defined.

Definition all : list t :=
  [ok; authorization_failure; invalid_nonce; invalid_signature;
   malformed_block; malformed_transaction; insufficient_resources;
   unknown_previous_block; unexpected_height; block_state_error;
   state_merkle_mismatch; network_id_mismatch; timestamp_out_of_bounds;
   network_bandwidth_limit_exceeded; compute_bandwidth_limit_exceeded;
   disk_storage_limit_exceeded; pre_irreversibility_block; invalid_program;
   invalid_event_name; invalid_account; insufficient_privileges;
   unknown_operation; read_only_context; stack_overflow; bad_file_descriptor;
   unexpected_object; insufficient_space].

Definition value (e : t) : Z :=
  match e with
  | ok => 0 | authorization_failure => 1 | invalid_nonce => 2
  | invalid_signature => 3 | malformed_block => 4
  | malformed_transaction => 5 | insufficient_resources => 6
  | unknown_previous_block => 7 | unexpected_height => 8
  | block_state_error => 9 | state_merkle_mismatch => 10
  | network_id_mismatch => 11 | timestamp_out_of_bounds => 12
  | network_bandwidth_limit_exceeded => 13
  | compute_bandwidth_limit_exceeded => 14
  | disk_storage_limit_exceeded => 15 | pre_irreversibility_block => 16
  | invalid_program => 17 | invalid_event_name => 18 | invalid_account => 19
  | insufficient_privileges => 20 | unknown_operation => 21
  | read_only_context => 22 | stack_overflow => 23
  | bad_file_descriptor => 24 | unexpected_object => 25
  | insufficient_space => 26
  end.

Definition text (e : t) : string :=
  match e with
  | ok => "ok"
  | authorization_failure => "authorization failure"
  | invalid_nonce => "invalid nonce"
  | invalid_signature => "invalid signature"
  | malformed_block => "malformed block"
  | malformed_transaction => "malformed transaction"
  | insufficient_resources => "insufficient resources"
  | unknown_previous_block => "unknown previous block"
  | unexpected_height => "unexpected height"
  | block_state_error => "block state error"
  | state_merkle_mismatch => "state merkle mismatch"
  | network_id_mismatch => "network id mismatch"
  | timestamp_out_of_bounds => "timestamp out of bounds"
  | network_bandwidth_limit_exceeded => "network bandwidth limit exceeded"
  | compute_bandwidth_limit_exceeded => "compute bandwidth limit exceeded"
  | disk_storage_limit_exceeded => "disk storage limit exceeded"
  | pre_irreversibility_block => "pre-irreversibility block"
  | invalid_program => "invalid program"
  | invalid_event_name => "invalid event name"
  | invalid_account => "invalid account"
  | insufficient_privileges => "insufficient privileges"
  | unknown_operation => "unknown operation"
  | read_only_context => "read only context"
  | stack_overflow => "stack overflow"
  | bad_file_descriptor => "bad file descriptor"
  | unexpected_object => "unexpected object"
  | insufficient_space => "insufficient space"
  end.

(** [switch( static_cast< controller_errc >( condition ) )]: the enumerator a
    condition selects; outside the enumeration control falls through to
    [std::unreachable()]. *)
Definition of_condition (c : Z) : option t :=
  if c <? 0 then None else all !! Z.to_nat c.

Definition message (c : Z) : option string := text <$> of_condition c.
End controller_errc.

Module program_errc.
Inductive t :=
| ok | unauthorized | invalid_instruction | insufficient_balance
| insufficient_supply | invalid_argument | unexpected_object | overflow.

#[export] Instance t_eq_dec : EqDecision t.
Proof. solve_decision. Defined.

Definition all : list t :=
  [ok; unauthorized; invalid_instruction; insufficient_balance;
   insufficient_supply; invalid_argument; unexpected_object; overflow].

Definition value (e : t) : Z :=
  match e with
  | ok => 0 | unauthorized => 1 | invalid_instruction => 2
  | insufficient_balance => 3 | insufficient_supply => 4
  | invalid_argument => 5 | unexpected_object => 6 | overflow => 7
  end.

Definition text (e : t) : string :=
  match e with
  | ok => "ok"
  | unauthorized => "unauthorized"
  | invalid_instruction => "invalid instruction"
  | insufficient_balance => "insufficient balance"
  | insufficient_supply => "insufficient supply"
  | invalid_argument => "invalid_argument"
  | unexpected_object => "unexpected object"
  | overflow => "overflow"
  end.

(** [switch( static_cast< program_errc >( condition ) )]: the enumerator a
    condition selects; outside the enumeration control falls through to
    [std::unreachable()]. *)
Definition of_condition (c : Z) : option t :=
  if c <? 0 then None else all !! Z.to_nat c.

Definition message (c : Z) : option string := text <$> of_condition c.
End program_errc.

Module encode_errc.
Inductive t :=
| ok | invalid_character | invalid_length.

#[export] Instance t_eq_dec : EqDecision t.
Proof. solve_decision. Defined.

Definition all : list t :=
  [ok; invalid_character; invalid_length].

Definition value (e : t) : Z :=
  match e with
  | ok => 0 | invalid_character => 1 | invalid_length => 2
  end.

Definition text (e : t) : string :=
  match e with
  | ok => "ok"
  | invalid_character => "invalid character"
  | invalid_length => "invalid length"
  end.

(** [switch( static_cast< encode_errc >( condition ) )]: the enumerator a
    condition selects; outside the enumeration control falls through to
    [std::unreachable()]. *)
Definition of_condition (c : Z) : option t :=
  if c <? 0 then None else all !! Z.to_nat c.

Definition message (c : Z) : option string := text <$> of_condition c.
End encode_errc.

Module virtual_machine_errc.
Inductive t :=
| ok | trapped | invalid_arguments | execution_environment_failure
| function_lookup_failure | load_failure | instantiate_failure
| invalid_pointer | invalid_module | invalid_context | entry_point_not_found.

#[export] Instance t_eq_dec : EqDecision t.
Proof. solve_decision. Defined.

Definition all : list t :=
  [ok; trapped; invalid_arguments; execution_environment_failure;
   function_lookup_failure; load_failure; instantiate_failure;
   invalid_pointer; invalid_module; invalid_context; entry_point_not_found].

Definition value (e : t) : Z :=
  match e with
  | ok => 0 | trapped => 1 | invalid_arguments => 2
  | execution_environment_failure => 3 | function_lookup_failure => 4
  | load_failure => 5 | instantiate_failure => 6 | invalid_pointer => 7
  | invalid_module => 8 | invalid_context => 9 | entry_point_not_found => 10
  end.

Definition text (e : t) : string :=
  match e with
  | ok => "ok"
  | trapped => "trapped"
  | invalid_arguments => "invalid arguments"
  | execution_environment_failure => "execution environment failure"
  | function_lookup_failure => "function lookup failure"
  | load_failure => "load failure"
  | instantiate_failure => "instantiate failure"
  | invalid_pointer => "invalid pointer"
  | invalid_module => "invalid module"
  | invalid_context => "invalid context"
  | entry_point_not_found => "entry point not found"
  end.

(** [switch( static_cast< virtual_machine_errc >( condition ) )]: the enumerator a
    condition selects; outside the enumeration control falls through to
    [std::unreachable()]. *)
Definition of_condition (c : Z) : option t :=
  if c <? 0 then None else all !! Z.to_nat c.

Definition message (c : Z) : option string := text <$> of_condition c.
End virtual_machine_errc.

Module wasi_errc.
Inductive t :=
| success | e2big | acces | addrinuse | addrnotavail | afnosupport | again
| already | badf | badmsg | busy | canceled | child | connaborted
| connrefused | connreset | deadlk | destaddrreq | dom | dquot | exist
| fault | fbig | hostunreach | idrm | ilseq | inprogress | intr | inval | io
| isconn | isdir | loop | mfile | mlink | msgsize | multihop | nametoolong
| netdown | netreset | netunreach | nfile | nobufs | nodev | noent | noexec
| nolck | nolink | nomem | nomsg | noprotoopt | nospc | nosys | notconn
| notdir | notempty | notrecoverable | notsock | notsup | notty | nxio
| overflow | ownerdead | perm | pipe | proto | protonosupport | prototype
| range | rofs | spipe | srch | stale | timedout | txtbsy | xdev | notcapable.

#[export] Instance t_eq_dec : EqDecision t.
Proof. solve_decision. Defined.

Definition all : list t :=
  [success; e2big; acces; addrinuse; addrnotavail; afnosupport; again;
   already; badf; badmsg; busy; canceled; child; connaborted; connrefused;
   connreset; deadlk; destaddrreq; dom; dquot; exist; fault; fbig;
   hostunreach; idrm; ilseq; inprogress; intr; inval; io; isconn; isdir;
   loop; mfile; mlink; msgsize; multihop; nametoolong; netdown; netreset;
   netunreach; nfile; nobufs; nodev; noent; noexec; nolck; nolink; nomem;
   nomsg; noprotoopt; nospc; nosys; notconn; notdir; notempty;
   notrecoverable; notsock; notsup; notty; nxio; overflow; ownerdead; perm;
   pipe; proto; protonosupport; prototype; range; rofs; spipe; srch; stale;
   timedout; txtbsy; xdev; notcapable].

Definition value (e : t) : Z :=
  match e with
  | success => 0 | e2big => 1 | acces => 2 | addrinuse => 3
  | addrnotavail => 4 | afnosupport => 5 | again => 6 | already => 7
  | badf => 8 | badmsg => 9 | busy => 10 | canceled => 11 | child => 12
  | connaborted => 13 | connrefused => 14 | connreset => 15 | deadlk => 16
  | destaddrreq => 17 | dom => 18 | dquot => 19 | exist => 20 | fault => 21
  | fbig => 22 | hostunreach => 23 | idrm => 24 | ilseq => 25
  | inprogress => 26 | intr => 27 | inval => 28 | io => 29 | isconn => 30
  | isdir => 31 | loop => 32 | mfile => 33 | mlink => 34 | msgsize => 35
  | multihop => 36 | nametoolong => 37 | netdown => 38 | netreset => 39
  | netunreach => 40 | nfile => 41 | nobufs => 42 | nodev => 43 | noent => 44
  | noexec => 45 | nolck => 46 | nolink => 47 | nomem => 48 | nomsg => 49
  | noprotoopt => 50 | nospc => 51 | nosys => 52 | notconn => 53
  | notdir => 54 | notempty => 55 | notrecoverable => 56 | notsock => 57
  | notsup => 58 | notty => 59 | nxio => 60 | overflow => 61
  | ownerdead => 62 | perm => 63 | pipe => 64 | proto => 65
  | protonosupport => 66 | prototype => 67 | range => 68 | rofs => 69
  | spipe => 70 | srch => 71 | stale => 72 | timedout => 73 | txtbsy => 74
  | xdev => 75 | notcapable => 76
  end.

Definition text (e : t) : string :=
  match e with
  | success => "success"
  | e2big => "e2big"
  | acces => "acces"
  | addrinuse => "addrinuse"
  | addrnotavail => "addrnotavail"
  | afnosupport => "afnosupport"
  | again => "again"
  | already => "already"
  | badf => "badf"
  | badmsg => "badmsg"
  | busy => "busy"
  | canceled => "canceled"
  | child => "child"
  | connaborted => "connaborted"
  | connrefused => "connrefused"
  | connreset => "connreset"
  | deadlk => "deadlk"
  | destaddrreq => "destaddrreq"
  | dom => "dom"
  | dquot => "dquot"
  | exist => "exist"
  | fault => "fault"
  | fbig => "fbig"
  | hostunreach => "hostunreach"
  | idrm => "idrm"
  | ilseq => "ilseq"
  | inprogress => "inprogress"
  | intr => "intr"
  | inval => "inval"
  | io => "io"
  | isconn => "isconn"
  | isdir => "isdir"
  | loop => "loop"
  | mfile => "mfile"
  | mlink => "mlink"
  | msgsize => "msgsize"
  | multihop => "multihop"
  | nametoolong => "nametoolong"
  | netdown => "netdown"
  | netreset => "netreset"
  | netunreach => "netunreach"
  | nfile => "nfile"
  | nobufs => "nobufs"
  | nodev => "nodev"
  | noent => "noent"
  | noexec => "noexec"
  | nolck => "nolck"
  | nolink => "nolink"
  | nomem => "nomem"
  | nomsg => "nomsg"
  | noprotoopt => "noprotoopt"
  | nospc => "nospc"
  | nosys => "nosys"
  | notconn => "notconn"
  | notdir => "notdir"
  | notempty => "notempty"
  | notrecoverable => "notrecoverable"
  | notsock => "notsock"
  | notsup => "notsup"
  | notty => "notty"
  | nxio => "nxio"
  | overflow => "overflow"
  | ownerdead => "ownerdead"
  | perm => "perm"
  | pipe => "pipe"
  | proto => "proto"
  | protonosupport => "protonosupport"
  | prototype => "prototype"
  | range => "range"
  | rofs => "rofs"
  | spipe => "spipe"
  | srch => "srch"
  | stale => "stale"
  | timedout => "timedout"
  | txtbsy => "txtbsy"
  | xdev => "xdev"
  | notcapable => "notcapable"
  end.

(** [switch( static_cast< wasi_errc >( condition ) )]: the enumerator a
    condition selects; outside the enumeration control falls through to
    [std::unreachable()]. *)
Definition of_condition (c : Z) : option t :=
  if c <? 0 then None else all !! Z.to_nat c.

Definition message (c : Z) : option string := text <$> of_condition c.
End wasi_errc.

(** ** Error codes *)

Inductive error_category :=
| controller_category
| program_category       (* program::program_category *)
| encode_category
| virtual_machine_category
| vm_program_category    (* vm::program_category *)
| wasi_category.

#[export] Instance error_category_eq_dec : EqDecision error_category.
Proof. solve_decision. Defined.

Definition category_name (c : error_category) : string :=
  match c with
  | controller_category => "controller"
  | program_category => "program"
  | encode_category => "encode"
  | virtual_machine_category => "virtual machine"
  | vm_program_category => "virtual machine program"
  | wasi_category => "wasi"
  end.

Record error_code := ErrorCode { ec_value : Z; ec_category : error_category }.

#[export] Instance error_code_eq_dec : EqDecision error_code.
Proof. solve_decision. Defined.

(** [explicit operator bool] *)
Definition is_error (e : error_code) : bool := negb (ec_value e =? 0).

Definition controller_error (e : controller_errc.t) : error_code :=
  ErrorCode (controller_errc.value e) controller_category.
Definition program_error (e : program_errc.t) : error_code :=
  ErrorCode (program_errc.value e) program_category.
Definition encode_error (e : encode_errc.t) : error_code :=
  ErrorCode (encode_errc.value e) encode_category.
Definition vm_error (e : virtual_machine_errc.t) : error_code :=
  ErrorCode (virtual_machine_errc.value e) virtual_machine_category.
Definition wasi_error (e : wasi_errc.t) : error_code :=
  ErrorCode (wasi_errc.value e) wasi_category.
(** [make_error_code( std::int32_t )]: the exit code of a program. *)
Definition exit_error (code : Z) : error_code := ErrorCode code vm_program_category.

(** [message()] of an error code; [None] where [std::unreachable()] is hit. *)
Definition error_message (e : error_code) : option string :=
  match ec_category e with
  | controller_category => controller_errc.message (ec_value e)
  | program_category => program_errc.message (ec_value e)
  | encode_category => encode_errc.message (ec_value e)
  | virtual_machine_category => virtual_machine_errc.message (ec_value e)
  | vm_program_category => Some (String.append "program exited with code " (pretty (ec_value e)))
  | wasi_category => wasi_errc.message (ec_value e)
  end.

(** [std::expected< A, std::error_code >] *)
Abbreviation result A := (A + error_code)%type.

(** [if( auto x = m; x ) k else return std::unexpected( x.error() )] *)
Notation "'try*' x ':=' m 'in' k" :=
  (bind m (fun r => match r with inl x => k | inr e => ret (inr e) end))
  (at level 10, x name, m at level 100, k at level 200) : cpp_scope.

(** [if( auto error = m; error ) return std::unexpected( error )] *)
Notation "'check*' m 'in' k" :=
  (bind m (fun e => if is_error e then ret (inr e) else k))
  (at level 10, m at level 100, k at level 200) : cpp_scope.

(** [if( auto error = m; error ) return error] *)
Notation "'checkc*' m 'in' k" :=
  (bind m (fun e => if is_error e then ret e else k))
  (at level 10, m at level 100, k at level 200) : cpp_scope.

(** Every enumerator of an error enumeration that an error code is made from. *)
Inductive any_errc :=
| of_controller (e : controller_errc.t)
| of_program (e : program_errc.t)
| of_encode (e : encode_errc.t)
| of_vm (e : virtual_machine_errc.t)
| of_wasi (e : wasi_errc.t).

(** [make_error_code], overloaded on the enumeration. *)
Definition make_error_code (e : any_errc) : error_code :=
  match e with
  | of_controller e => controller_error e
  | of_program e => program_error e
  | of_encode e => encode_error e
  | of_vm e => vm_error e
  | of_wasi e => wasi_error e
  end.

Definition errc_text (e : any_errc) : string :=
  match e with
  | of_controller e => controller_errc.text e
  | of_program e => program_errc.text e
  | of_encode e => encode_errc.text e
  | of_vm e => virtual_machine_errc.text e
  | of_wasi e => wasi_errc.text e
  end.

Lemma make_error_code_inj e1 e2 : make_error_code e1 = make_error_code e2 -> e1 = e2.
Proof.
  destruct e1 as [a|a|a|a|a], e2 as [b|b|b|b|b]; simpl; intros H;
    try (injection H; intros; discriminate); f_equal;
    injection H; intros Hv; clear H.
  - assert (controller_errc.of_condition (controller_errc.value a) = Some a) as Ha by by destruct a.
    rewrite Hv in Ha. destruct b; simpl in Ha; injection Ha; auto.
  - destruct a, b; try done.
  - destruct a, b; try done.
  - destruct a, b; try done.
  - assert (wasi_errc.of_condition (wasi_errc.value a) = Some a) as Ha by by destruct a.
    rewrite Hv in Ha. destruct b; simpl in Ha; injection Ha; auto.
Qed.

(** [make_error_code] never reaches [std::unreachable()] in [message], the text
    is the one of the enumerator, and no two enumerators give the same code. *)
Theorem error_code_message e :
  error_message (make_error_code e) = Some (errc_text e) /\
  (forall e', make_error_code e' = make_error_code e -> e' = e).
Proof.
  split; [|intros; by apply make_error_code_inj].
  destruct e as [e|e|e|e|e]; by destruct e.
Qed.
