(* ===== verification/Memory.v ===== *)
(** * Memory views

    [memory.hpp] and the byte-order helpers of [boost::endian] the code calls:
    the object representation of an integer on the little-endian hosts the
    program runs on, [memory::bit_cast] and the byte views of buffers. *)

From stdpp Require Import base list option numbers strings.
From S2P Require Import Prelude.

(** [memory::as_bytes] of an [n]-byte unsigned integer. *)
Fixpoint le_bytes (n : nat) (z : Z) : bytes :=
  match n with
  | O => []
  | S n' => z mod 256 :: le_bytes n' (z / 256)
  end.

(** The integer an object representation denotes. *)
Fixpoint le_val (l : bytes) : Z :=
  match l with
  | [] => 0
  | b :: l' => b + 256 * le_val l'
  end.

(** [memory::bit_cast< T >( bytes )] for an integer type of [n] bytes. *)
Definition bit_cast {S} (n : nat) (b : bytes) : M S Z :=
  if zlen b <? Z.of_nat n then throw (runtime_error "byte span is too small")
  else ret (le_val (take n b)).

(** Overwrites [buf] from offset [i] with [src] ([std::memcpy],
    [std::ranges::copy]); [None] when the copy would leave the buffer. *)
Definition splice (i : nat) (src buf : bytes) : option bytes :=
  if (i + length src <=? length buf)%nat
  then Some (take i buf ++ src ++ drop (i + length src) buf) else None.

Lemma length_le_bytes n z : length (le_bytes n z) = n.
Proof. revert z; induction n; intros; simpl; auto. Qed.

Lemma le_bytes_ok n z : bytes_ok (le_bytes n z).
Proof.
  revert z; induction n; intros; simpl; constructor; auto.
  apply Z.mod_pos_bound. lia.
Qed.

Lemma le_val_bytes n z : le_val (le_bytes n z) = z `mod` 2 ^ (8 * Z.of_nat n).
Proof.
  revert z; induction n as [|n IH]; intros z; simpl le_val; [by rewrite Z.mod_1_r|].
  rewrite IH. replace (8 * Z.of_nat (S n)) with (8 + 8 * Z.of_nat n) by lia.
  rewrite Z.pow_add_r by lia. change (2 ^ 8) with 256.
  rewrite Z.rem_mul_r by lia. lia.
Qed.

Lemma le_val_range l : bytes_ok l -> 0 <= le_val l < 2 ^ (8 * zlen l).
Proof.
  induction 1 as [|b l Hb _ IH]; [done|]. rewrite zlen_cons.
  replace (8 * (1 + zlen l)) with (8 + 8 * zlen l) by lia.
  pose proof (zlen_nonneg l). rewrite Z.pow_add_r by lia. unfold byte_ok in Hb.
  change (2 ^ 8) with 256. cbn [le_val].
  generalize dependent (2 ^ (8 * zlen l)). intros. lia.
Qed.

Lemma le_bytes_val l : bytes_ok l -> le_bytes (length l) (le_val l) = l.
Proof.
  induction 1 as [|b l Hb _ IH]; [done|]. simpl. unfold byte_ok in Hb. f_equal.
  - rewrite Z.mul_comm, Z.mod_add by lia. by apply Z.mod_small.
  - rewrite Z.mul_comm, Z.div_add, Z.div_small by lia. exact IH.
Qed.

(** A 64-bit value survives its object representation. *)
Lemma bit_cast_le_bytes {S} (s : S) z :
  u64_ok z -> bit_cast 8 (le_bytes 8 z) s = Ret z s.
Proof.
  intros Hz. unfold bit_cast. unfold zlen. rewrite length_le_bytes.
  change (Z.of_nat 8 <? Z.of_nat 8) with false. cbv iota. unfold ret.
  rewrite take_ge by (by rewrite length_le_bytes). rewrite le_val_bytes.
  change (8 * Z.of_nat 8) with 64. by rewrite Z.mod_small.
Qed.

Lemma splice_length i src buf buf' : splice i src buf = Some buf' -> length buf' = length buf.
Proof.
  unfold splice. case_bool; [|done]. intros [= <-]. apply Nat.leb_le in Heqb.
  rewrite !length_app, length_take, length_drop. lia.
Qed.

Lemma splice_bytes_ok i src buf buf' : splice i src buf = Some buf' -> bytes_ok src -> bytes_ok buf -> bytes_ok buf'.
Proof.
  unfold splice. case_bool; [|done]. intros [= <-] Hs Hb. apply Forall_app. split; [by apply Forall_take|].
  apply Forall_app. split; [done|by apply Forall_drop].
Qed.

Lemma splice_Some i src buf :
  (i + length src <= length buf)%nat -> is_Some (splice i src buf).
Proof. intros H. unfold splice. apply Nat.leb_le in H. rewrite H. eauto. Qed.

#[export] Hint Resolve le_bytes_ok : core.
