(* ===== verification/Encode.v ===== *)
(** * Encodings: hex and base58

    [encode/hex.cpp] and [encode/base58.cpp]. A [std::string_view] is the list
    of its characters; the base58 decoder dereferences the position after the
    last character, so it also gets the memory that follows the view. *)

From stdpp Require Import base list option numbers strings.
From S2P Require Import Prelude Errors.

(** ** Hex *)

Module hex.

Definition hex_digit (n : Z) : Z := if n <? 10 then 48 + n else 87 + n.

Definition to_hex (s : bytes) : bytes :=
  str_bytes "0x" ++ flat_map (fun b => [hex_digit (b / 16); hex_digit (b mod 16)]) s.

Definition hex_offset : Z := 10.

Definition hex_to_char (c : Z) : result Z :=
  if (48 <=? c) && (c <=? 57) then inl (c - 48)
  else if (97 <=? c) && (c <=? 102) then inl (c - 97 + hex_offset)
  else if (65 <=? c) && (c <=? 70) then inl (c - 65 + hex_offset)
  else inr (encode_error encode_errc.invalid_character).

(** [sv.at( i )] *)
Definition at_ {S} (sv : bytes) (i : nat) : M S Z :=
  match sv !! i with Some c => ret c | None => throw (bad_access "string_view::at") end.

(** The loop of [from_hex], from the suffix of [sv] at the index reached. *)
Fixpoint from_hex_loop {S} (sv acc : bytes) : M S (result bytes) :=
  match sv with
  | [] => ret (inl acc)
  | c1 :: rest =>
      match hex_to_char c1 with
      | inr e => ret (inr e)
      | inl first =>
          match rest with
          | [] => throw (bad_access "string_view::at")
          | c2 :: rest =>
              match hex_to_char c2 with
              | inr e => ret (inr e)
              | inl second => from_hex_loop rest (acc ++ [Z.lor (Z.shiftl first 4) second])
              end
          end
      end
  end.

Definition from_hex {S} (sv : bytes) : M S (result bytes) :=
  noexcept (
    if negb (zlen sv mod 2 =? 0) then ret (inr (encode_error encode_errc.invalid_length))
    else
      let* c0 := at_ sv 0 in
      let* prefix := (if c0 =? 48 then let* c1 := at_ sv 1 in ret (c1 =? 120) else ret false) in
      from_hex_loop (if prefix then drop 2 sv else sv) []).

Lemma hex_digit_value n : 0 <= n < 16 -> hex_to_char (hex_digit n) = inl n.
Proof.
  intros Hn. unfold hex_digit, hex_to_char, hex_offset.
  destruct (Z.ltb_spec n 10);
    repeat (match goal with |- context [Z.leb ?a ?b] => destruct (Z.leb_spec a b) end; try lia);
    simpl; f_equal; lia.
Qed.

Lemma nibbles_byte b : byte_ok b -> Z.lor (Z.shiftl (b / 16) 4) (b mod 16) = b.
Proof.
  intros Hb. change 16 with (2 ^ 4). rewrite <- Z.shiftr_div_pow2, <- Z.land_ones by lia.
  apply Z.bits_inj'. intros i Hi. rewrite Z.lor_spec, Z.land_spec.
  destruct (Z.ltb_spec i 4).
  - rewrite Z.shiftl_spec_low, Z.ones_spec_low by lia. by rewrite andb_true_r.
  - rewrite Z.shiftl_spec, Z.shiftr_spec, Z.ones_spec_high by lia.
    rewrite andb_false_r, orb_false_r. f_equal. lia.
Qed.

Lemma from_hex_loop_digits {S} (st : S) b acc :
  bytes_ok b ->
  from_hex_loop (flat_map (fun b => [hex_digit (b / 16); hex_digit (b mod 16)]) b) acc st
  = Ret (inl (acc ++ b)) st.
Proof.
  intros Hb; revert acc; induction Hb as [|x b Hx Hb IH]; intros acc; simpl.
  { by rewrite app_nil_r. }
  unfold byte_ok in Hx.
  rewrite hex_digit_value by (split; [apply Z.div_pos; lia | apply Z.div_lt_upper_bound; lia]).
  rewrite hex_digit_value by (apply Z.mod_pos_bound; lia).
  rewrite nibbles_byte by done. rewrite IH. by rewrite <- app_assoc.
Qed.

Lemma to_hex_even b : zlen (to_hex b) mod 2 = 0.
Proof.
  unfold to_hex. rewrite zlen_app. change (zlen (str_bytes "0x")) with 2.
  assert (zlen (flat_map (fun b => [hex_digit (b / 16); hex_digit (b mod 16)]) b)
          = zlen b * 2) as ->.
  { induction b as [|x b IH]; [done|]. cbn [flat_map app].
    rewrite !zlen_cons, IH. lia. }
  replace (2 + zlen b * 2) with ((1 + zlen b) * 2) by lia. apply Z.mod_mul. lia.
Qed.

(** Decoding an encoded byte string gives it back. *)
Theorem hex_roundtrip b :
  bytes_ok b -> from_hex (to_hex b) tt = Ret (inl b) tt.
Proof.
  intros Hb. unfold from_hex, noexcept. rewrite to_hex_even. change (negb (0 =? 0)) with false. cbv iota.
  rewrite (bind_Ret _ _ _ 48 tt) by done. change (48 =? 48) with true. cbv iota.
  rewrite (bind_Ret _ _ _ true tt) by done. cbv iota.
  change (drop 2 (to_hex b)) with (flat_map (fun b => [hex_digit (b / 16); hex_digit (b mod 16)]) b).
  by rewrite from_hex_loop_digits.
Qed.

Lemma hex_roundtrip_witness :
  from_hex (to_hex [0; 10; 171; 255]) tt = Ret (inl [0; 10; 171; 255]) tt.
Proof. apply hex_roundtrip. repeat constructor; unfold byte_ok; lia. Defined.

(** The empty string has an even length, so [sv.at( 0 )] is reached: the
    exception leaves a [noexcept] function. *)
Theorem from_hex_empty :
  from_hex [] tt = Fault (terminate (bad_access "string_view::at")).
Proof. reflexivity. Qed.

End hex.

(** ** Base58 *)

Module base58.

Definition max_array_size : Z := 1024 * 1024 * 10.

Definition pszBase58 : bytes :=
  str_bytes "123456789ABCDEFGHJKLMNPQRSTUVWXYZabcdefghijkmnopqrstuvwxyz".

Definition mapBase58 : list Z :=
  [
   (-1); (-1); (-1); (-1); (-1); (-1); (-1); (-1); (-1); (-1); (-1); (-1); (-1); (-1); (-1); (-1);
   (-1); (-1); (-1); (-1); (-1); (-1); (-1); (-1); (-1); (-1); (-1); (-1); (-1); (-1); (-1); (-1);
   (-1); (-1); (-1); (-1); (-1); (-1); (-1); (-1); (-1); (-1); (-1); (-1); (-1); (-1); (-1); (-1);
   (-1); 0; 1; 2; 3; 4; 5; 6; 7; 8; (-1); (-1); (-1); (-1); (-1); (-1);
   (-1); 9; 10; 11; 12; 13; 14; 15; 16; (-1); 17; 18; 19; 20; 21; (-1);
   22; 23; 24; 25; 26; 27; 28; 29; 30; 31; 32; (-1); (-1); (-1); (-1); (-1);
   (-1); 33; 34; 35; 36; 37; 38; 39; 40; 41; 42; 43; (-1); 44; 45; 46;
   47; 48; 49; 50; 51; 52; 53; 54; 55; 56; 57; (-1); (-1); (-1); (-1); (-1);
   (-1); (-1); (-1); (-1); (-1); (-1); (-1); (-1); (-1); (-1); (-1); (-1); (-1); (-1); (-1); (-1);
   (-1); (-1); (-1); (-1); (-1); (-1); (-1); (-1); (-1); (-1); (-1); (-1); (-1); (-1); (-1); (-1);
   (-1); (-1); (-1); (-1); (-1); (-1); (-1); (-1); (-1); (-1); (-1); (-1); (-1); (-1); (-1); (-1);
   (-1); (-1); (-1); (-1); (-1); (-1); (-1); (-1); (-1); (-1); (-1); (-1); (-1); (-1); (-1); (-1);
   (-1); (-1); (-1); (-1); (-1); (-1); (-1); (-1); (-1); (-1); (-1); (-1); (-1); (-1); (-1); (-1);
   (-1); (-1); (-1); (-1); (-1); (-1); (-1); (-1); (-1); (-1); (-1); (-1); (-1); (-1); (-1); (-1);
   (-1); (-1); (-1); (-1); (-1); (-1); (-1); (-1); (-1); (-1); (-1); (-1); (-1); (-1); (-1); (-1);
   (-1); (-1); (-1); (-1); (-1); (-1); (-1); (-1); (-1); (-1); (-1); (-1); (-1); (-1); (-1); (-1)].

Definition is_space (c : Z) : bool :=
  (c =? 32) || (c =? 12) || (c =? 10) || (c =? 13) || (c =? 9) || (c =? 11).

(** The inner loop of both directions, on the digits from the least significant
    one: [carry += mul * *it; *it = carry % modulus; carry /= modulus] while the
    carry is not zero or fewer than [length] digits were visited. Returns the
    digits, the carry left and the number of digits visited. *)
Fixpoint carry_loop (mul modulus carry i length : Z) (digits : list Z) : list Z * Z * Z :=
  match digits with
  | [] => ([], carry, i)
  | d :: rest =>
      if negb (carry =? 0) || (i <? length) then
        let carry := carry + mul * d in
        let '(rest', c', i') := carry_loop mul modulus (carry / modulus) (i + 1) length rest in
        (carry mod modulus :: rest', c', i')
      else (digits, carry, i)
  end.

(** A cursor: the memory from the position on, and [end - psz]. *)
Record cursor := Cursor { cur_mem : bytes; cur_rem : Z }.

Section loops.
Context {S : Type}.

Definition deref (c : cursor) : M S Z :=
  match cur_mem c with x :: _ => ret x | [] => fail out_of_bounds end.

(** [while( psz != end && is_space( *psz ) ) psz++] *)
Fixpoint skip_spaces (mem : bytes) (rem : Z) : M S cursor :=
  if rem =? 0 then ret (Cursor mem rem)
  else match mem with
       | [] => fail out_of_bounds
       | c :: mem' => if is_space c then skip_spaces mem' (rem - 1) else ret (Cursor mem rem)
       end.

(** [while( *psz == '1' ) ...]: there is no comparison with [end]. *)
Fixpoint count_ones (max_ret_len zeroes : Z) (mem : bytes) (rem : Z) : M S (result (cursor * Z)) :=
  match mem with
  | [] => fail out_of_bounds
  | c :: mem' =>
      if c =? 49 then
        if zeroes + 1 >? max_ret_len then ret (inr (encode_error encode_errc.invalid_length))
        else count_ones max_ret_len (zeroes + 1) mem' (rem - 1)
      else ret (inl (Cursor mem rem, zeroes))
  end.

(** The character loop: [b256] from its least significant byte. *)
Fixpoint decode_chars (max_ret_len zeroes : Z) (b256 : list Z) (length : Z) (mem : bytes) (rem : Z)
  : M S (result (cursor * list Z * Z)) :=
  if rem =? 0 then ret (inl (Cursor mem rem, b256, length))
  else match mem with
       | [] => fail out_of_bounds
       | c :: mem' =>
           if is_space c then ret (inl (Cursor mem rem, b256, length))
           else match mapBase58 !! Z.to_nat c with
                | None => throw (bad_access "array::at")
                | Some carry =>
                    if carry =? -1 then ret (inr (encode_error encode_errc.invalid_character))
                    else
                      let '(b256', carry', i) := carry_loop 58 256 carry 0 length b256 in
                      assert_that (carry' =? 0) ;;;
                      if i + zeroes >? max_ret_len
                      then ret (inr (encode_error encode_errc.invalid_length))
                      else decode_chars max_ret_len zeroes b256' i mem' (rem - 1)
                end
       end.

Definition decode_base58 (psz after : bytes) (max_ret_len : Z) : M S (result bytes) :=
  let size := zlen psz in
  let* c := skip_spaces (psz ++ after) size in
  try* cz := count_ones max_ret_len 0 (cur_mem c) (cur_rem c) in
  let '(c, zeroes) := cz in
  let size := size * 733 / 1000 + 1 in
  let b256 := replicate (Z.to_nat size) 0 in
  try* r := decode_chars max_ret_len zeroes b256 0 (cur_mem c) (cur_rem c) in
  let '(c, b256, length) := r in
  let* c := skip_spaces (cur_mem c) (cur_rem c) in
  if negb (cur_rem c =? 0) then ret (inr (encode_error encode_errc.invalid_length))
  else ret (inl (replicate (Z.to_nat zeroes) 0 ++ rev (take (Z.to_nat length) b256))).

(** [after]: the memory behind the view ([0 :: _] for a [std::string]). *)
Definition from_base58 (sv after : bytes) : M S (result bytes) :=
  noexcept (decode_base58 sv after max_array_size).

(** The byte loop of [encode_base58]: [b58] from its least significant digit. *)
Fixpoint encode_bytes (b58 : list Z) (length : Z) (p : bytes) : M S (list Z * Z) :=
  match p with
  | [] => ret (b58, length)
  | b :: p' =>
      let '(b58', carry, i) := carry_loop 256 58 b 0 length b58 in
      assert_that (carry =? 0) ;;; encode_bytes b58' i p'
  end.

Fixpoint skip_zeroes (p : bytes) : Z * bytes :=
  match p with
  | b :: p' => if b =? 0 then let '(n, r) := skip_zeroes p' in (n + 1, r) else (0, p)
  | [] => (0, [])
  end.

Definition encode_base58 (s : bytes) : M S bytes :=
  let '(zeroes, p) := skip_zeroes s in
  let size := zlen p * 138 / 100 + 1 in
  let* r := encode_bytes (replicate (Z.to_nat size) 0) 0 p in
  let '(b58, length) := r in
  let '(_, digits) := skip_zeroes (rev (take (Z.to_nat length) b58)) in
  ret (replicate (Z.to_nat zeroes) 49 ++
       map (fun d => default 0 (pszBase58 !! Z.to_nat d)) digits).

Definition to_base58 (s : bytes) : M S bytes := noexcept (encode_base58 s).
End loops.

(** *** The value of a digit string *)

Fixpoint lev (B : Z) (l : list Z) : Z :=
  match l with [] => 0 | d :: l' => d + B * lev B l' end.

Definition digit_ok (B d : Z) : Prop := 0 <= d < B.

(** A big-endian digit string, read by repeated [v * m + d]. *)
Definition bev (m : Z) (l : list Z) : Z := fold_left (fun v d => v * m + d) l 0.

(** [l] holds the value [v] without leading zeroes. *)
Definition canonical (B : Z) (l : list Z) : Prop :=
  Forall (digit_ok B) l /\ (l = [] \/ B ^ (zlen l - 1) <= lev B l).

Lemma lev_nonneg B l : 1 < B -> Forall (digit_ok B) l -> 0 <= lev B l.
Proof. intros HB. induction 1 as [|d l [? ?] _ IH]; simpl; nia. Qed.

Lemma lev_zero B l : Forall (eq 0) l -> lev B l = 0.
Proof. induction 1 as [|d l <- _ IH]; simpl; lia. Qed.

Lemma pow_succ_zlen {A} B (x : A) l : B ^ zlen (x :: l) = B * B ^ zlen l.
Proof. rewrite zlen_cons. pose proof (zlen_nonneg l). rewrite Z.pow_add_r by lia. lia. Qed.

Lemma lev_upper B l : 1 < B -> Forall (digit_ok B) l -> lev B l < B ^ zlen l.
Proof.
  intros HB. induction 1 as [|d l [? ?] _ IH]; [done|]. rewrite pow_succ_zlen. simpl. nia.
Qed.

Lemma lev_app B l l' : lev B (l ++ l') = lev B l + B ^ zlen l * lev B l'.
Proof.
  induction l as [|d l IH]; [rewrite (zlen_nil (A := Z)); change (B ^ 0) with 1; simpl; lia|].
  rewrite <- app_comm_cons, pow_succ_zlen. simpl. rewrite IH. lia.
Qed.

Lemma lev_inj B l l' :
  1 < B -> Forall (digit_ok B) l -> Forall (digit_ok B) l' ->
  length l = length l' -> lev B l = lev B l' -> l = l'.
Proof.
  intros HB Hl; revert l'. induction Hl as [|d l [? ?] _ IH]; intros [|d' l'] Hl' Hlen; try done.
  apply Forall_cons in Hl' as [[? ?] Hl']. simpl. intros Hv.
  assert (d = d') as ->.
  { assert (forall a v, 0 <= a < B -> (a + B * v) mod B = a) as Hm.
    { intros a v Ha. rewrite Z.mul_comm, Z.mod_add by lia. by apply Z.mod_small. }
    rewrite <- (Hm d (lev B l)) by lia. rewrite Hv. apply Hm. lia. }
  f_equal. apply IH; auto. nia.
Qed.

Lemma canonical_unique B l l' :
  1 < B -> canonical B l -> canonical B l' -> lev B l = lev B l' -> l = l'.
Proof.
  intros HB [Hl Hc] [Hl' Hc'] Hv.
  apply (lev_inj B); auto.
  assert (forall l l' : list Z, Forall (digit_ok B) l -> Forall (digit_ok B) l' ->
    l = [] \/ B ^ (zlen l - 1) <= lev B l -> lev B l = lev B l' -> (length l <= length l')%nat) as Hle.
  { clear. intros l l' Hl Hl' [->|Hc] Hv; [simpl; lia|].
    destruct (decide (length l <= length l')%nat) as [|Hn]; [done|]. exfalso.
    assert (1 < B \/ B <= 1) as [HB|HB] by lia.
    - pose proof (lev_upper B l' HB Hl'). 
      assert (B ^ zlen l' <= B ^ (zlen l - 1)); [|lia].
      apply Z.pow_le_mono_r; [lia|]. unfold zlen. lia.
    - assert (B = 1) as ->.
      { destruct l as [|d l]; [simpl in *; lia|]. apply Forall_cons in Hl as [[? ?] _]. lia. }
      assert (lev 1 l = 0) as H0.
      { apply lev_zero. eapply Forall_impl; [exact Hl|]. intros x [? ?]. lia. }
      rewrite H0 in Hc. rewrite Z.pow_1_l in Hc; [lia|]. unfold zlen. lia. }
  pose proof (Hle l l' Hl Hl' Hc Hv). pose proof (Hle l' l Hl' Hl Hc' (eq_sym Hv)). lia.
Qed.

Lemma bev_acc m l v : fold_left (fun v d => v * m + d) l v = v * m ^ zlen l + bev m l.
Proof.
  unfold bev. revert v. induction l as [|d l IH]; intros v; simpl fold_left.
  { rewrite (zlen_nil (A := Z)). change (m ^ 0) with 1. lia. }
  rewrite IH, (IH (0 * m + d)), pow_succ_zlen. lia.
Qed.

Lemma bev_snoc m l d : bev m (l ++ [d]) = bev m l * m + d.
Proof. unfold bev. by rewrite fold_left_app. Qed.

Lemma bev_rev m l : bev m (rev l) = lev m l.
Proof.
  induction l as [|d l IH]; [done|]. simpl rev. rewrite bev_snoc, IH. simpl. lia.
Qed.

(** *** The carry loop computes [digits * mul + carry] *)

Section carry.
Context (mul B : Z) (HB : 1 < B) (Hmul : 0 <= mul).

Lemma carry_loop_ok carry i len ds :
  0 <= carry -> Forall (digit_ok B) ds ->
  Forall (eq 0) (drop (Z.to_nat (len - i)) ds) ->
  let '(ds', c', i') := carry_loop mul B carry i len ds in
  length ds' = length ds /\ Forall (digit_ok B) ds' /\
  lev B ds' + c' * B ^ zlen ds = mul * lev B ds + carry /\ 0 <= c' /\
  i <= i' <= i + zlen ds /\ Z.min len (i + zlen ds) <= i' /\
  Forall (eq 0) (drop (Z.to_nat (i' - i)) ds').
Proof.
  intros Hc Hds; revert carry i Hc.
  induction Hds as [|d ds Hd Hds IH]; intros carry i Hc Hz; simpl carry_loop.
  { rewrite (zlen_nil (A := Z)). change (B ^ 0) with 1. simpl.
    rewrite drop_nil. repeat split; auto; lia. }
  pose proof (zlen_nonneg ds). rewrite pow_succ_zlen, zlen_cons.
  destruct (negb (carry =? 0) || (i <? len)) eqn:E.
  - assert (0 <= carry + mul * d) as Hn by (destruct Hd; nia).
    assert (Forall (eq 0) (drop (Z.to_nat (len - (i + 1))) ds)) as Hz'.
    { destruct (Z.to_nat (len - i)) eqn:El.
      - replace (Z.to_nat (len - (i + 1))) with 0%nat by lia. by inversion Hz.
      - replace (Z.to_nat (len - (i + 1))) with n by lia. done. }
    specialize (IH ((carry + mul * d) / B) (i + 1) ltac:(apply Z.div_pos; lia) Hz').
    destruct (carry_loop _ _ _ _ _ _) as [[ds' c'] i'].
    destruct IH as (L & D & V & C & I & I' & Z0). repeat split; try lia.
    + simpl. by rewrite L.
    + constructor; [|done]. apply Z.mod_pos_bound. lia.
    + simpl. pose proof (Z.div_mod (carry + mul * d) B ltac:(lia)). nia.
    + replace (Z.to_nat (i' - i)) with (S (Z.to_nat (i' - (i + 1)))) by lia. done.
  - apply orb_false_iff in E as [E1 E2]. apply negb_false_iff in E1. bool_to_prop. subst carry.
    assert (Forall (eq 0) (d :: ds)) as Hall.
    { by replace (Z.to_nat (len - i)) with 0%nat in Hz by lia. }
    rewrite (lev_zero B (d :: ds)) by done.
    replace (i - i) with 0 by lia. repeat split; try lia; auto.
Qed.

(** When the loop visits digits beyond [len] and leaves no carry, the last
    digit it wrote is not zero. *)
Lemma carry_loop_top carry i len ds ds' i' :
  0 <= carry -> Forall (digit_ok B) ds ->
  Forall (eq 0) (drop (Z.to_nat (len - i)) ds) ->
  carry_loop mul B carry i len ds = (ds', 0, i') ->
  Z.max len i < i' -> B ^ (i' - i - 1) <= lev B ds'.
Proof.
  intros Hc Hds; revert carry i ds' Hc.
  induction Hds as [|d ds Hd Hds IH]; intros carry i ds' Hc Hz; simpl carry_loop.
  { intros; simplify_eq. lia. }
  destruct (negb (carry =? 0) || (i <? len)) eqn:E; [|intros; simplify_eq; lia].
  assert (0 <= carry + mul * d) as Hn by (destruct Hd; nia).
  assert (Forall (eq 0) (drop (Z.to_nat (len - (i + 1))) ds)) as Hz'.
  { destruct (Z.to_nat (len - i)) eqn:El.
    - replace (Z.to_nat (len - (i + 1))) with 0%nat by lia. by inversion Hz.
    - replace (Z.to_nat (len - (i + 1))) with n by lia. done. }
  assert (0 <= (carry + mul * d) / B) as Hq by (apply Z.div_pos; lia).
  pose proof (carry_loop_ok ((carry + mul * d) / B) (i + 1) len ds Hq Hds Hz') as Hok.
  destruct (carry_loop _ _ _ _ _ _) as [[ds1 c1] i1] eqn:Er. intros Heq Hmax. simplify_eq.
  destruct Hok as (L & D & V & C & I & I' & Z0). simpl.
  pose proof (Z.mod_pos_bound (carry + mul * d) B ltac:(lia)).
  destruct (decide (i' = i + 1)) as [->|Hne].
  - replace (i + 1 - i - 1) with 0 by lia. change (B ^ 0) with 1.
    replace (Z.to_nat (len - i)) with 0%nat in Hz by lia. inversion Hz; subst.
    replace (i + 1 - (i + 1)) with 0 in Z0 by lia.
    rewrite (lev_zero B ds) in V by done. rewrite (lev_zero B ds1) in V by done.
    assert (carry <> 0). { intros ->. simpl in E. bool_to_prop. lia. }
    pose proof (Z.div_mod (carry + mul * 0) B ltac:(lia)).
    rewrite (lev_zero B ds1) by done. nia.
  - assert (B ^ (i' - (i + 1) - 1) <= lev B ds1).
    { eapply IH; [exact Hq|exact Hz'|exact Er|lia]. }
    replace (i' - i - 1) with (1 + (i' - (i + 1) - 1)) by lia.
    rewrite Z.pow_add_r by lia. change (B ^ 1) with (B * 1). nia.
Qed.
End carry.

(** The state of a conversion: digits [ds] hold [v], the first [len] of them
    are its canonical representation. *)
Definition conv_inv (B : Z) (size : nat) (ds : list Z) (len v : Z) : Prop :=
  length ds = size /\ Forall (digit_ok B) ds /\ lev B ds = v /\
  0 <= len <= Z.of_nat size /\ Forall (eq 0) (drop (Z.to_nat len) ds) /\
  (v = 0 /\ len = 0 \/ 0 < len /\ B ^ (len - 1) <= v).

Lemma conv_inv_init B size : 1 < B -> conv_inv B size (replicate size 0) 0 0.
Proof.
  intros HB. assert (Forall (eq 0) (replicate size 0)) as Hz by (by apply Forall_replicate).
  repeat split; try lia.
  - by rewrite length_replicate.
  - apply Forall_replicate. split; lia.
  - by apply lev_zero.
  - done.
Qed.

Lemma conv_step mul B size ds len v d :
  1 < B -> 1 <= mul -> 0 <= d -> conv_inv B size ds len v ->
  v * mul + d < B ^ Z.of_nat size ->
  exists ds' len', carry_loop mul B d 0 len ds = (ds', 0, len') /\
                   conv_inv B size ds' len' (v * mul + d).
Proof.
  intros HB Hmul Hd (L & D & V & Hlen & Hz & Hcan) Hfit.
  pose proof (carry_loop_ok mul B HB ltac:(lia) d 0 len ds Hd D) as Hok.
  rewrite Z.sub_0_r in Hok. specialize (Hok Hz).
  pose proof (carry_loop_top mul B HB ltac:(lia) d 0 len ds) as Htop.
  destruct (carry_loop mul B d 0 len ds) as [[ds' c'] i'] eqn:E.
  destruct Hok as (L' & D' & V' & C' & I & I' & Z').
  assert (zlen ds = Z.of_nat size) as Hsz by (unfold zlen; lia). rewrite Hsz in *.
  pose proof (lev_nonneg B ds' HB D').
  assert (c' = 0) as ->. { assert (c' < 1); [|lia]. nia. }
  rewrite !Z.sub_0_r in *.
  exists ds', i'. split; [done|]. repeat split; try lia; auto.
  assert (lev B ds' = v * mul + d) as Hv by lia.
  destruct (decide (len < i')).
  - right. split; [lia|]. rewrite <- Hv.
    specialize (Htop ds' i' Hd D Hz eq_refl ltac:(lia)).
    by replace (i' - 0 - 1) with (i' - 1) in Htop by lia.
  - assert (i' = len) as -> by lia. destruct Hcan as [[-> ->]|[? ?]].
    + left. split; [|done]. rewrite <- Hv. by apply lev_zero.
    + right. split; [done|]. nia.
Qed.

Lemma lev_take_zeroes B n l : Forall (eq 0) (drop n l) -> lev B (take n l) = lev B l.
Proof.
  intros Hz. rewrite <- (take_drop n l) at 2. rewrite lev_app, (lev_zero B (drop n l)) by done. lia.
Qed.

Lemma conv_inv_canonical B size ds len v :
  conv_inv B size ds len v -> canonical B (take (Z.to_nat len) ds) /\
    lev B (take (Z.to_nat len) ds) = v.
Proof.
  intros (L & D & V & Hlen & Hz & Hcan). rewrite lev_take_zeroes by done.
  split; [|done]. split; [by apply Forall_take|]. rewrite lev_take_zeroes by done.
  destruct Hcan as [[-> ->]|[? ?]]; [by left|]. right. rewrite V.
  unfold zlen. rewrite length_take. by replace (Z.of_nat (_ `min` _)) with len by lia.
Qed.

(** *** The alphabet *)

Definition alpha (d : Z) : Z := default 0 (pszBase58 !! Z.to_nat d).

Definition alpha_check (d : Z) : bool :=
  bool_decide (mapBase58 !! Z.to_nat (alpha d) = Some d) && negb (is_space (alpha d)) &&
  Bool.eqb (alpha d =? 49) (d =? 0).

Lemma alpha_ok d :
  digit_ok 58 d ->
  mapBase58 !! Z.to_nat (alpha d) = Some d /\ is_space (alpha d) = false /\
  (alpha d =? 49) = (d =? 0).
Proof.
  intros [? ?]. assert (forallb alpha_check (seqZ 0 58) = true) as Hall by (by vm_compute).
  rewrite forallb_forall in Hall. specialize (Hall d).
  unfold alpha_check in Hall. rewrite !andb_true_iff in Hall.
  destruct Hall as [[H1 H2] H3]; [apply list_elem_of_In, elem_of_seqZ; lia|].
  apply bool_decide_eq_true in H1. apply negb_true_iff in H2. apply eqb_prop in H3. done.
Qed.

(** *** Sizes: [138/100] and [733/1000] over-approximate the ratio of the logs *)

Lemma pow_size_bound a b p q n :
  1 < a -> 1 < b -> 0 < q -> 0 <= p -> 0 <= n -> a ^ q <= b ^ p -> a ^ n <= b ^ (n * p / q + 1).
Proof.
  intros Ha Hb Hq Hp Hn Hab.
  assert (0 <= n * p / q) by (apply Z.div_pos; nia).
  destruct (Z.le_gt_cases (a ^ n) (b ^ (n * p / q + 1))) as [|Hgt]; [done|]. exfalso.
  assert ((b ^ (n * p / q + 1)) ^ q < (a ^ n) ^ q) as Hlt.
  { apply Z.pow_lt_mono_l; [lia|]. split; [|done]. apply Z.pow_nonneg. lia. }
  rewrite <- !Z.pow_mul_r in Hlt by lia.
  assert (a ^ (n * q) <= b ^ (p * n)) as Hle.
  { rewrite (Z.mul_comm n q), !Z.pow_mul_r by lia. apply Z.pow_le_mono_l.
    split; [apply Z.pow_nonneg; lia | done]. }
  assert (b ^ (p * n) <= b ^ ((n * p / q + 1) * q)); [|lia].
  apply Z.pow_le_mono_r; [lia|]. pose proof (Z.mod_pos_bound (n * p) q ltac:(lia)).
  pose proof (Z.div_mod (n * p) q ltac:(lia)). nia.
Qed.

Lemma bev_bound m l : 1 < m -> Forall (digit_ok m) l -> 0 <= bev m l < m ^ zlen l.
Proof.
  intros Hm Hl. rewrite <- (rev_involutive l), bev_rev.
  assert (Forall (digit_ok m) (rev l)) as Hr.
  { apply List.Forall_rev. done. }
  split; [by apply lev_nonneg|]. replace (zlen (rev (rev l))) with (zlen (rev l))
    by (unfold zlen; by rewrite !length_rev).
  by apply lev_upper.
Qed.

(** *** The two directions *)

Section directions.
Context {S : Type} (st : S).

Lemma encode_bytes_ok p size ds len v :
  bytes_ok p -> conv_inv 58 size ds len v -> 0 <= v ->
  v * 256 ^ zlen p + bev 256 p < 58 ^ Z.of_nat size ->
  exists ds' len', encode_bytes ds len p st = Ret (ds', len') st /\
    conv_inv 58 size ds' len' (v * 256 ^ zlen p + bev 256 p).
Proof.
  intros Hp; revert ds len v. induction Hp as [|b p Hb Hp IH]; intros ds len v Hinv Hv Hfit.
  { exists ds, len. split; [done|]. rewrite (zlen_nil (A := Z)).
    change (256 ^ 0) with 1. change (bev 256 []) with 0. by rewrite Z.mul_1_r, Z.add_0_r. }
  assert (bev 256 (b :: p) = b * 256 ^ zlen p + bev 256 p) as Hbev.
  { unfold bev at 1. simpl fold_left. by rewrite bev_acc. }
  rewrite Hbev, pow_succ_zlen in *. unfold byte_ok in Hb.
  pose proof (bev_bound 256 p ltac:(lia) Hp) as [Hb0 _].
  assert (0 < 256 ^ zlen p) by (apply Z.pow_pos_nonneg; [lia|apply zlen_nonneg]).
  destruct (conv_step 256 58 size ds len v b) as (ds' & len' & Hc & Hinv'); try lia; [done|nia|].
  destruct (IH ds' len' (v * 256 + b)) as (ds2 & len2 & H1 & H2); [done|lia|nia|].
  exists ds2, len2. cbn [encode_bytes]. rewrite Hc. split; [exact H1|].
  by replace (v * (256 * 256 ^ zlen p) + (b * 256 ^ zlen p + bev 256 p))
    with ((v * 256 + b) * 256 ^ zlen p + bev 256 p) by lia.
Qed.

Lemma decode_chars_ok l max zeroes n size ds len v after :
  Forall (digit_ok 58) l -> conv_inv 256 size ds len v -> 0 <= v ->
  v * 58 ^ zlen l + bev 58 l < 256 ^ Z.of_nat size ->
  v * 58 ^ zlen l + bev 58 l < 256 ^ n -> 0 <= n -> n + zeroes <= max ->
  exists ds' len', decode_chars max zeroes ds len (map alpha l ++ after) (zlen l) st
      = Ret (inl (Cursor after 0, ds', len')) st /\
    conv_inv 256 size ds' len' (v * 58 ^ zlen l + bev 58 l).
Proof.
  intros Hl; revert ds len v. induction Hl as [|d l Hd Hl IH]; intros ds len v Hinv Hv Hfit Hn Hn0 Hmax.
  { exists ds, len. rewrite (zlen_nil (A := Z)).
    change (58 ^ 0) with 1. change (bev 58 []) with 0. rewrite Z.mul_1_r, Z.add_0_r.
    split; [|done]. by destruct after. }
  assert (bev 58 (d :: l) = d * 58 ^ zlen l + bev 58 l) as Hbev.
  { unfold bev at 1. simpl fold_left. by rewrite bev_acc. }
  rewrite Hbev, pow_succ_zlen in *. pose proof (alpha_ok d Hd) as (Ha & Hs & _).
  pose proof (bev_bound 58 l ltac:(lia) Hl) as [Hb0 _]. destruct Hd as [? ?].
  assert (0 < 58 ^ zlen l) by (apply Z.pow_pos_nonneg; [lia|apply zlen_nonneg]).
  destruct (conv_step 58 256 size ds len v d) as (ds' & len' & Hc & Hinv'); try lia; [done|nia|].
  destruct (IH ds' len' (v * 58 + d)) as (ds2 & len2 & Hd1 & Hd2); [done|lia|nia|nia|lia|lia|].
  exists ds2, len2. rewrite zlen_cons. simpl map. cbn [decode_chars app].
  pose proof (zlen_nonneg l).
  rewrite (proj2 (Z.eqb_neq (1 + zlen l) 0)) by lia. rewrite Hs, Ha.
  rewrite (proj2 (Z.eqb_neq d (-1))) by lia. rewrite Hc.
  unfold bind at 1. simpl assert_that. unfold ret at 1.
  assert (len' <= n) as Hle.
  { destruct Hinv' as (_ & _ & _ & _ & _ & [[_ ->]|[? Hp]]); [done|].
    destruct (Z.le_gt_cases len' n) as [|Hgt]; [done|]. exfalso.
    assert (256 ^ n <= 256 ^ (len' - 1)) by (apply Z.pow_le_mono_r; lia). nia. }
  rewrite Z.gtb_ltb, (proj2 (Z.ltb_ge max (len' + zeroes))) by lia.
  replace (1 + zlen l - 1) with (zlen l) by lia. split; [exact Hd1|].
  by replace (v * (58 * 58 ^ zlen l) + (d * 58 ^ zlen l + bev 58 l))
    with ((v * 58 + d) * 58 ^ zlen l + bev 58 l) by lia.
Qed.

Lemma count_ones_ok max k z rest rem :
  z + Z.of_nat k <= max -> (match rest with c :: _ => c <> 49 | [] => False end) ->
  count_ones max z (replicate k 49 ++ rest) rem st
  = Ret (inl (Cursor rest (rem - Z.of_nat k), z + Z.of_nat k)) st.
Proof.
  revert z rem; induction k as [|k IH]; intros z rem Hmax Hr.
  - destruct rest as [|c rest]; [done|]. simpl. rewrite (proj2 (Z.eqb_neq c 49)) by done.
    unfold ret. rewrite Z.add_0_r, Z.sub_0_r. done.
  - simpl replicate. simpl app. cbn [count_ones]. change (49 =? 49) with true. cbv iota.
    rewrite Z.gtb_ltb, (proj2 (Z.ltb_ge max (z + 1))) by lia.
    rewrite IH by (lia || done).
    replace (rem - 1 - Z.of_nat k) with (rem - Z.of_nat (Datatypes.S k)) by lia.
    by replace (z + 1 + Z.of_nat k) with (z + Z.of_nat (Datatypes.S k)) by lia.
Qed.

Lemma skip_zeroes_spec p :
  p = replicate (Z.to_nat (skip_zeroes p).1) 0 ++ (skip_zeroes p).2 /\
  0 <= (skip_zeroes p).1 /\
  (match (skip_zeroes p).2 with b :: _ => b <> 0 | [] => True end).
Proof.
  induction p as [|b p IH]; simpl; [done|]. destruct (b =? 0) eqn:E.
  - apply Z.eqb_eq in E as ->. destruct (skip_zeroes p) as [n r]. simpl in *.
    destruct IH as (-> & ? & ?). split; [|split; [lia|done]].
    by replace (Z.to_nat (n + 1)) with (Datatypes.S (Z.to_nat n)) by lia.
  - by apply Z.eqb_neq in E.
Qed.

Lemma skip_zeroes_id p : (match p with b :: _ => b <> 0 | [] => True end) -> skip_zeroes p = (0, p).
Proof. destruct p as [|b p]; [done|]. simpl. intros H. by rewrite (proj2 (Z.eqb_neq b 0)). Qed.
End directions.

Definition head_nonzero (l : list Z) : Prop :=
  match l with d :: _ => d <> 0 | [] => True end.

Lemma canonical_rev_head B l : 1 < B -> canonical B l -> head_nonzero (rev l).
Proof.
  intros HB [Hl Hc]. destruct l as [|d l _] using rev_ind; [done|].
  rewrite rev_app_distr. simpl. intros ->. destruct Hc as [Hc|Hc]; [by destruct l|].
  apply Forall_app in Hl as [Hl _]. pose proof (lev_upper B l HB Hl).
  rewrite lev_app, zlen_app, (zlen_cons 0 []), (zlen_nil (A := Z)) in Hc.
  change (lev B [0]) with (0 + B * 0) in Hc.
  replace (zlen l + (1 + 0) - 1) with (zlen l) in Hc by lia. lia.
Qed.

Lemma canonical_of_be B p : 1 < B -> Forall (digit_ok B) p -> head_nonzero p -> canonical B (rev p).
Proof.
  intros HB Hp Hh. split; [by apply List.Forall_rev|].
  destruct p as [|d p]; [by left|right]. simpl in Hh. apply Forall_cons in Hp as [[? ?] Hp].
  simpl rev. rewrite lev_app, zlen_app, (zlen_cons d []), (zlen_nil (A := Z)).
  replace (zlen (rev p) + (1 + 0) - 1) with (zlen (rev p)) by lia.
  pose proof (lev_nonneg B (rev p) HB ltac:(by apply List.Forall_rev)).
  assert (0 < B ^ zlen (rev p)) by (apply Z.pow_pos_nonneg; [lia|apply zlen_nonneg]).
  simpl lev. nia.
Qed.

Lemma skip_spaces_stop {S} (st : S) mem rem :
  rem = 0 \/ (exists c m, mem = c :: m /\ is_space c = false) ->
  skip_spaces mem rem st = Ret (Cursor mem rem) st.
Proof.
  intros [->|(c & m & -> & Hc)]; [by destruct mem|]. simpl. rewrite Hc. by destruct (rem =? 0).
Qed.

(** The text of [z] leading zeroes followed by the digits [l]. *)
Definition text_of (z : Z) (l : list Z) : bytes := replicate (Z.to_nat z) 49 ++ map alpha l.

Lemma encode_base58_ok {S} (st : S) b :
  bytes_ok b ->
  let '(z, p) := skip_zeroes b in
  exists l, encode_base58 b st = Ret (text_of z l) st /\ Forall (digit_ok 58) l /\
            head_nonzero l /\ bev 58 l = bev 256 p.
Proof.
  intros Hb. unfold encode_base58. pose proof (skip_zeroes_spec b) as (Hsplit & Hz & Hhead).
  destruct (skip_zeroes b) as [z p]. simpl in *.
  assert (bytes_ok p) as Hp by (rewrite Hsplit in Hb; by apply Forall_app in Hb as [_ ?]).
  set (size := Z.to_nat (zlen p * 138 / 100 + 1)).
  pose proof (zlen_nonneg p).
  assert (0 <= zlen p * 138 / 100) by (apply Z.div_pos; lia).
  pose proof (bev_bound 256 p ltac:(lia) Hp).
  pose proof (pow_size_bound 256 58 138 100 (zlen p) ltac:(lia) ltac:(lia) ltac:(lia) ltac:(lia)
                ltac:(lia) ltac:(by vm_compute)).
  destruct (encode_bytes_ok st p size (replicate size 0) 0 0) as (ds & len & He & Hinv);
    [done|by apply conv_inv_init|lia| |].
  { unfold size. rewrite Z2Nat.id by lia. lia. }
  rewrite Z.mul_0_l, Z.add_0_l in Hinv.
  destruct (conv_inv_canonical _ _ _ _ _ Hinv) as [Hcan Hlev].
  pose proof (canonical_rev_head 58 _ ltac:(lia) Hcan) as Hh.
  exists (rev (take (Z.to_nat len) ds)). rewrite (bind_Ret _ _ _ _ _ He).
  rewrite skip_zeroes_id by exact Hh. repeat split; auto.
  - apply List.Forall_rev. by destruct Hcan.
  - by rewrite bev_rev.
Qed.

Lemma decode_base58_ok {S} (st : S) z l p after max :
  0 <= z -> Forall (digit_ok 58) l -> head_nonzero l ->
  bytes_ok p -> head_nonzero p -> bev 58 l = bev 256 p -> z + zlen p <= max ->
  decode_base58 (text_of z l) (0 :: after) max st
  = Ret (inl (replicate (Z.to_nat z) 0 ++ p)) st.
Proof.
  intros Hz Hl Hhl Hp Hhp Hv Hmax. pose proof (zlen_nonneg p). pose proof (zlen_nonneg l).
  assert (zlen (text_of z l) = z + zlen l) as Hlen.
  { unfold text_of. rewrite zlen_app. unfold zlen. rewrite length_replicate, length_map. lia. }
  unfold decode_base58. rewrite Hlen. unfold text_of.
  assert (forall l' : list Z, match map alpha l ++ 0 :: l' with c :: _ => c <> 49 | [] => False end)
    as Hnot1.
  { intros l'. destruct l as [|d l]; [done|]. simpl. apply Forall_cons in Hl as [Hd _].
    destruct (alpha_ok d Hd) as (_ & _ & Ha). simpl in Hhl.
    rewrite (proj2 (Z.eqb_neq d 0)) in Ha by done. by apply Z.eqb_neq in Ha. }
  erewrite bind_Ret.
  2: { apply skip_spaces_stop. rewrite <- app_assoc.
       destruct (Z.to_nat z) as [|k] eqn:Ez; [|right; by eexists _, _].
       destruct l as [|d l]; [left; unfold zlen; simpl; lia|right].
       apply Forall_cons in Hl as [Hd _]. destruct (alpha_ok d Hd) as (_ & Hs & _).
       by eexists _, _. }
  cbn [cur_mem cur_rem]. rewrite <- app_assoc.
  rewrite (bind_Ret _ _ _ _ _ (count_ones_ok st max (Z.to_nat z) 0 _ _ ltac:(lia) (Hnot1 after))).
  rewrite Z2Nat.id, Z.add_0_l by lia. replace (z + zlen l - z) with (zlen l) by lia.
  cbn [cur_mem cur_rem].
  set (size := Z.to_nat ((z + zlen l) * 733 / 1000 + 1)).
  assert (0 <= (z + zlen l) * 733 / 1000) by (apply Z.div_pos; lia).
  pose proof (bev_bound 58 l ltac:(lia) Hl). pose proof (bev_bound 256 p ltac:(lia) Hp).
  pose proof (pow_size_bound 58 256 733 1000 (z + zlen l) ltac:(lia) ltac:(lia) ltac:(lia) ltac:(lia)
                ltac:(lia) ltac:(by vm_compute)).
  assert (58 ^ zlen l <= 58 ^ (z + zlen l)) by (apply Z.pow_le_mono_r; lia).
  destruct (decode_chars_ok st l max z (zlen p) size (replicate size 0) 0 0 (0 :: after))
    as (ds & len & Hd & Hinv); try done; try lia; [by apply conv_inv_init| |].
  { unfold size. rewrite Z2Nat.id by lia. lia. }
  rewrite (bind_Ret _ _ _ _ _ Hd). rewrite Z.mul_0_l, Z.add_0_l in Hinv.
  cbn [cur_mem cur_rem]. rewrite (bind_Ret _ _ _ _ _ (skip_spaces_stop st _ 0 (or_introl eq_refl))).
  cbn [cur_mem cur_rem]. change (negb (0 =? 0)) with false. cbv iota. unfold ret. do 3 f_equal.
  destruct (conv_inv_canonical _ _ _ _ _ Hinv) as [Hcan Hlev].
  rewrite <- (rev_involutive p). f_equal. apply (canonical_unique 256); auto; [lia| |].
  - by apply canonical_of_be.
  - by rewrite Hlev, Hv, <- bev_rev, rev_involutive.
Qed.

(** C37. The text of a byte string of at most [max_array_size] bytes, 10 MiB, the
    longest result the decoder gives, stored with a terminating zero as
    [std::string] stores it, decodes to the byte string, whatever follows it in
    memory. *)
Theorem base58_roundtrip b after :
  bytes_ok b -> zlen b <= max_array_size ->
  exists text, to_base58 b tt = Ret text tt /\
               from_base58 text (0 :: after) tt = Ret (inl b) tt.
Proof.
  intros Hb Hlen. pose proof (encode_base58_ok tt b Hb) as Henc.
  pose proof (skip_zeroes_spec b) as (Hsplit & Hz & Hhead).
  destruct (skip_zeroes b) as [z p]. simpl in *.
  destruct Henc as (l & He & Hl & Hh & Hv). exists (text_of z l).
  unfold to_base58, from_base58, noexcept. rewrite He. split; [done|].
  rewrite Hsplit in Hb, Hlen. apply Forall_app in Hb as [_ Hp].
  rewrite (decode_base58_ok tt z l p); auto; [by rewrite Hsplit|].
  rewrite zlen_app in Hlen. unfold zlen at 1 in Hlen. rewrite length_replicate in Hlen. lia.
Qed.

Lemma base58_roundtrip_witness :
  bytes_ok [0; 0; 7; 255] /\
  (exists text, to_base58 [0; 0; 7; 255] tt = Ret text tt /\
                from_base58 text (0 :: [49]) tt = Ret (inl [0; 0; 7; 255]) tt).
Proof.
  assert (bytes_ok [0; 0; 7; 255]) as Hb by (repeat constructor; lia).
  split; [exact Hb|]. apply (base58_roundtrip [0; 0; 7; 255] [49] Hb). by vm_compute.
Defined.

(** The count of leading ['1's] runs on past the end of the view: a view of
    ['1's] followed by another ['1'] in memory does not decode, and with no
    readable memory behind it the decoder reads out of bounds. *)
Theorem from_base58_overrun :
  from_base58 [49; 49] [] tt = Fault out_of_bounds /\
  from_base58 [49; 49] [49; 0] tt
  = Ret (inr (encode_error encode_errc.invalid_character)) tt.
Proof. split; reflexivity. Qed.

End base58.
