(* ===== verification/Crypto.v ===== *)
(** * Hashing and Merkle trees

    [crypto/hash.{hpp,cpp}] and [crypto/merkle_tree.hpp]. BLAKE3 and the
    signature scheme are libraries: they are the classes [Blake3] and
    [Signatures], with the laws their documentation gives. *)

From stdpp Require Import base list sets option numbers.
From S2P Require Import Prelude Memory.

Definition digest_length : nat := 32.
Definition public_key_length : nat := 32.
Definition signature_length : nat := 64.

Abbreviation digest := bytes.

(** [digest{}] *)
Definition zero_digest : digest := zero_bytes digest_length.

(** BLAKE3 over the bytes absorbed since the last reset, with the default
    32-byte output. *)
Class Blake3 := {
  blake3 : bytes -> digest;
  blake3_length : forall m, length (blake3 m) = digest_length;
  blake3_ok : forall m, bytes_ok (blake3 m)
}.

(** The detached signature scheme behind [public_key] and [secret_key]
    (libsodium, or SchnorrQ under FAST_CRYPTO). *)
Class Signatures := {
  secret : Type;
  scheme_public : secret -> bytes;
  scheme_sign : secret -> bytes -> bytes;
  scheme_verify : bytes -> bytes -> bytes -> bool;
  scheme_correct : forall sk d, scheme_verify (scheme_public sk) (scheme_sign sk d) d = true
}.

(** Two different messages with one digest, one of each list. Some messages
    always collide; that two given computations hash such a pair is what a
    collision resistant hash excludes. *)
Definition collision_in `{Blake3} (ms ms' : list bytes) : Prop :=
  exists x y, x ∈ ms /\ y ∈ ms' /\ x <> y /\ blake3 x = blake3 y.

Lemma collision_in_mono `{Blake3} ms ms' ns ns' :
  collision_in ms ms' -> ms ⊆ ns -> ms' ⊆ ns' -> collision_in ns ns'.
Proof. intros (x & y & Hx & Hy & Hne & Heq) H1 H2. exists x, y. auto. Qed.

Lemma collision_in_single `{Blake3} x y :
  blake3 x = blake3 y -> x = y \/ collision_in [x] [y].
Proof.
  intros Heq. destruct (decide (x = y)); [by left|right].
  exists x, y. repeat split; [by apply list_elem_of_singleton..|done|done].
Qed.

(** ** The thread-local hasher: the bytes absorbed so far *)

Definition hasher : Type := bytes.

Section hash.
Context `{Blake3}.

Definition hasher_reset : hasher := [].
Definition hasher_update (h : hasher) (data : bytes) : hasher := h ++ data.
Definition hasher_finalize (h : hasher) : digest := blake3 h.

(** [hash( ptr, len )]: every entry point resets the hasher first. *)
Definition hash (data : bytes) : digest :=
  hasher_finalize (hasher_update hasher_reset data).

(** [public_key::verify] *)
Definition verify `{Signatures} (key sig dig : bytes) : bool := scheme_verify key sig dig.
End hash.

Lemma fold_update_app (l : list bytes) h : fold_left hasher_update l h = h ++ concat l.
Proof.
  revert h; induction l as [|b l IH]; intros h; simpl; [by rewrite app_nil_r|].
  rewrite IH. unfold hasher_update. by rewrite <- app_assoc.
Qed.

(** ** merkle_root: the level-by-level computation in one vector *)

Section merkle_root.
Context `{Blake3}.

Definition hash_pair (l r : digest) : digest :=
  hasher_finalize (hasher_update (hasher_update hasher_reset l) r).

(** [nodes[ i ]] *)
Definition node_at (nodes : list digest) (i : nat) : digest := default [] (nodes !! i).

(** One pass of the [for] loop: the nodes of the next level are written over
    the front of the vector while the current level is being read. *)
Fixpoint merkle_pass (fuel : nat) (nodes : list digest) (count index next_index : nat)
  : list digest * nat :=
  match fuel with
  | O => (nodes, next_index)
  | S fuel =>
      if (index <? count)%nat then
        if (index + 1 <? count)%nat then
          merkle_pass fuel
            (<[next_index := hash_pair (node_at nodes index) (node_at nodes (index + 1))]> nodes)
            count (index + 2) (next_index + 1)
        else
          merkle_pass fuel (<[next_index := node_at nodes index]> nodes)
            count (index + 1) (next_index + 1)
      else (nodes, next_index)
  end.

(** [while( count > 1 )] *)
Fixpoint merkle_levels (fuel : nat) (nodes : list digest) (count : nat) : list digest :=
  match fuel with
  | O => nodes
  | S fuel =>
      if (1 <? count)%nat then
        let '(nodes', next_index) := merkle_pass (S count) nodes count 0 0 in
        merkle_levels fuel nodes' next_index
      else nodes
  end.

(** [hashed]: the values are digests and are taken as they are. *)
Definition merkle_root (hashed : bool) (values : list bytes) : digest :=
  if (length values =? 0)%nat then zero_digest
  else
    let nodes := map (fun v => if hashed then v else hash v) values in
    node_at (merkle_levels (length nodes) nodes (length nodes)) 0.

(** ** merkle_tree: the same computation with nodes kept *)

Inductive merkle_node :=
| MLeaf (h : digest)
| MNode (left right : merkle_node) (h : digest).

Definition mn_hash (n : merkle_node) : digest :=
  match n with MLeaf h => h | MNode _ _ h => h end.

(** [merkle_node( l, r )] *)
Definition make_node (l r : merkle_node) : merkle_node :=
  MNode l r (hash_pair (mn_hash l) (mn_hash r)).

(** [merkle_node()] *)
Definition empty_node : merkle_node := MLeaf zero_digest.

Fixpoint tree_pass (fuel : nat) (nodes : list merkle_node) (count index next_index : nat)
  : list merkle_node * nat :=
  match fuel with
  | O => (nodes, next_index)
  | S fuel =>
      if (index <? count)%nat then
        let left := default empty_node (nodes !! index) in
        if (index + 1 <? count)%nat then
          let right := default empty_node (nodes !! (index + 1)%nat) in
          tree_pass fuel (<[next_index := make_node left right]> nodes)
            count (index + 2) (next_index + 1)
        else
          tree_pass fuel (<[next_index := left]> nodes) count (index + 1) (next_index + 1)
      else (nodes, next_index)
  end.

Fixpoint tree_levels (fuel : nat) (nodes : list merkle_node) (count : nat) : list merkle_node :=
  match fuel with
  | O => nodes
  | S fuel =>
      if (1 <? count)%nat then
        let '(nodes', next_index) := tree_pass (S count) nodes count 0 0 in
        tree_levels fuel nodes' next_index
      else nodes
  end.

(** [merkle_tree::create], returning the root node. *)
Definition merkle_tree_create (hashed : bool) (values : list bytes) : merkle_node :=
  if (length values =? 0)%nat then empty_node
  else
    let nodes := map (fun v => MLeaf (if hashed then v else hash v)) values in
    default empty_node (tree_levels (length nodes) nodes (length nodes) !! 0%nat).

(** ** Reference: pair the level up, until one node is left *)

Fixpoint pair_up (l : list digest) : list digest :=
  match l with
  | a :: b :: l' => hash_pair a b :: pair_up l'
  | _ => l
  end.

Fixpoint reduce (fuel : nat) (l : list digest) : digest :=
  match fuel, l with
  | _, [] => zero_digest
  | _, [a] => a
  | O, a :: _ => a
  | S fuel, _ => reduce fuel (pair_up l)
  end.

Definition merkle_spec (hashed : bool) (values : list bytes) : digest :=
  let leaves := map (fun v => if hashed then v else hash v) values in
  reduce (length leaves) leaves.
End merkle_root.

Section merkle_proofs.
Context `{Blake3}.

Lemma pair_up_ind (P : list digest -> Prop) :
  P [] -> (forall a, P [a]) -> (forall a b l, P l -> P (a :: b :: l)) -> forall l, P l.
Proof.
  intros H0 H1 H2 l. enough (P l /\ forall a, P (a :: l)) by tauto.
  induction l as [|b l [IH1 IH2]]; split; auto.
Qed.

Lemma insert_gap {A} (done gap rest : list A) h x :
  exists gap', <[length done := h]> (done ++ gap ++ x :: rest)
               = (done ++ [h]) ++ gap' ++ rest /\ length gap' = length gap.
Proof.
  replace (length done) with (length done + 0)%nat by lia. rewrite insert_app_r.
  destruct gap as [|g gap].
  - exists []. split; [|done]. by rewrite <- app_assoc.
  - exists (gap ++ [x]). split; [|rewrite length_app; simpl; lia].
    simpl. by rewrite <- !app_assoc.
Qed.

Lemma node_at_app l l' i : node_at (l ++ l') (length l + i) = node_at l' i.
Proof. unfold node_at. rewrite lookup_app_r by lia. do 2 f_equal. lia. Qed.

(** Overwriting the front of the vector does not disturb the nodes still to be
    read: after a pass its front is the level above. *)
Lemma merkle_pass_ok todo : forall fuel done gap tail,
  (length todo < fuel)%nat ->
  exists rest,
    merkle_pass fuel (done ++ gap ++ todo ++ tail) (length done + length gap + length todo)
      (length done + length gap) (length done)
    = (done ++ pair_up todo ++ rest, (length done + length (pair_up todo))%nat).
Proof.
  induction todo as [|a|a b todo IH] using pair_up_ind;
    intros [|fuel] done gap tail Hf; simpl in Hf; try lia; cbn [merkle_pass].
  - rewrite (proj2 (Nat.ltb_ge _ _)) by (simpl; lia). exists (gap ++ tail).
    simpl. by rewrite Nat.add_0_r.
  - rewrite (proj2 (Nat.ltb_lt _ _)) by (simpl; lia).
    rewrite (proj2 (Nat.ltb_ge _ _)) by (simpl; lia).
    assert (node_at (done ++ gap ++ [a] ++ tail) (length done + length gap) = a) as ->.
    { rewrite node_at_app. rewrite <- (Nat.add_0_r (length gap)). by rewrite node_at_app. }
    destruct (insert_gap done gap tail a a) as (gap' & E & _).
    cbn [app]. rewrite E. destruct fuel as [|fuel]; [lia|]. cbn [merkle_pass].
    rewrite (proj2 (Nat.ltb_ge _ _)) by (simpl; lia).
    exists (gap' ++ tail). rewrite <- app_assoc. simpl. done.
  - rewrite (proj2 (Nat.ltb_lt _ _)) by (simpl; lia).
    rewrite (proj2 (Nat.ltb_lt _ _)) by (simpl; lia).
    assert (node_at (done ++ gap ++ (a :: b :: todo) ++ tail) (length done + length gap) = a) as ->.
    { rewrite node_at_app. rewrite <- (Nat.add_0_r (length gap)). by rewrite node_at_app. }
    assert (node_at (done ++ gap ++ (a :: b :: todo) ++ tail) (length done + length gap + 1) = b) as ->.
    { rewrite <- Nat.add_assoc, node_at_app. by rewrite node_at_app. }
    destruct (insert_gap done gap (b :: todo ++ tail) (hash_pair a b) a) as (gap' & E & Hl).
    cbn [app]. rewrite E.
    destruct (IH fuel (done ++ [hash_pair a b]) (gap' ++ [b]) tail ltac:(lia)) as (rest & Hr).
    exists rest. rewrite !length_app in Hr. cbn [length] in Hr |- *.
    rewrite <- !app_assoc in Hr. cbn [app] in Hr. rewrite <- !app_assoc. cbn [app].
    replace (length done + length gap + S (S (length todo)))%nat
      with (length done + 1 + (length gap' + 1) + length todo)%nat by lia.
    replace (length done + length gap + 2)%nat
      with (length done + 1 + (length gap' + 1))%nat by lia.
    rewrite Hr. cbn [pair_up length app]. f_equal. lia.
Qed.

Lemma pair_up_length l : (2 <= length l)%nat -> (0 < length (pair_up l) < length l)%nat.
Proof.
  assert (forall l, (length (pair_up l) <= length l)%nat) as Hle.
  { clear l. intros l. induction l using pair_up_ind; simpl; lia. }
  destruct l as [|a [|b l]]; simpl; [lia..|]. specialize (Hle l). lia.
Qed.

Lemma merkle_levels_ok fuel : forall l tail,
  (length l <= fuel)%nat -> l <> [] ->
  node_at (merkle_levels fuel (l ++ tail) (length l)) 0 = reduce fuel l.
Proof.
  induction fuel as [|fuel IH]; intros l tail Hf Hne.
  { destruct l; [done|simpl in Hf; lia]. }
  cbn [merkle_levels]. destruct l as [|a [|b l]]; [done|done|].
  rewrite (proj2 (Nat.ltb_lt _ _)) by (simpl; lia).
  destruct (merkle_pass_ok (a :: b :: l) (S (length (a :: b :: l))) [] [] tail ltac:(simpl; lia))
    as (rest & Hp).
  rewrite !app_nil_l in Hp. simpl length in Hp. rewrite !Nat.add_0_l in Hp.
  simpl length. rewrite Hp. rewrite IH.
  - done.
  - pose proof (pair_up_length (a :: b :: l) ltac:(simpl; lia)). simpl in *. lia.
  - done.
Qed.

Lemma merkle_root_spec hashed values :
  merkle_root hashed values = merkle_spec hashed values.
Proof.
  unfold merkle_root, merkle_spec. destruct values as [|v vs]; [done|].
  cbn [length Nat.eqb].
  rewrite <- (app_nil_r (map (fun v => if hashed then v else hash v) (v :: vs))) at 2.
  rewrite merkle_levels_ok; [done..|]. done.
Qed.

(** *** The tree *)

Lemma fmap_default (nodes : list merkle_node) i :
  node_at (mn_hash <$> nodes) i = mn_hash (default (MLeaf []) (nodes !! i)).
Proof. unfold node_at. rewrite list_lookup_fmap. by destruct (nodes !! i). Qed.

Lemma default_lt (nodes : list merkle_node) i :
  (i < length nodes)%nat ->
  mn_hash (default empty_node (nodes !! i)) = node_at (mn_hash <$> nodes) i.
Proof.
  intros Hi. rewrite fmap_default. by destruct (lookup_lt_is_Some_2 nodes i Hi) as [x ->].
Qed.

Lemma tree_pass_hash fuel : forall nodes count index next,
  (count <= length nodes)%nat ->
  let '(t, n) := tree_pass fuel nodes count index next in
  merkle_pass fuel (mn_hash <$> nodes) count index next = (mn_hash <$> t, n) /\
  length t = length nodes.
Proof.
  induction fuel as [|fuel IH]; intros nodes count index next Hc; [done|].
  cbn [tree_pass merkle_pass]. destruct (index <? count)%nat eqn:E1; [|done].
  apply Nat.ltb_lt in E1. destruct (index + 1 <? count)%nat eqn:E2.
  - apply Nat.ltb_lt in E2. rewrite <- !default_lt by lia.
    specialize (IH (<[next:=make_node (default empty_node (nodes !! index))
      (default empty_node (nodes !! (index + 1)%nat))]> nodes) count (index + 2)%nat (next + 1)%nat).
    rewrite length_insert in IH. specialize (IH Hc).
    destruct (tree_pass _ _ _ _ _). by rewrite list_fmap_insert in IH.
  - rewrite <- default_lt by lia.
    specialize (IH (<[next:=default empty_node (nodes !! index)]> nodes) count
      (index + 1)%nat (next + 1)%nat).
    rewrite length_insert in IH. specialize (IH Hc).
    destruct (tree_pass _ _ _ _ _). by rewrite list_fmap_insert in IH.
Qed.

Lemma tree_levels_hash fuel : forall l tail : list merkle_node,
  l <> [] ->
  mn_hash <$> tree_levels fuel (l ++ tail) (length l)
  = merkle_levels fuel (mn_hash <$> (l ++ tail)) (length l) /\
  length (tree_levels fuel (l ++ tail) (length l)) = length (l ++ tail).
Proof.
  induction fuel as [|fuel IH]; intros l tail Hne; [done|]. cbn [tree_levels merkle_levels].
  destruct (1 <? length l)%nat eqn:E; [|done]. apply Nat.ltb_lt in E.
  pose proof (tree_pass_hash (S (length l)) (l ++ tail) (length l) 0 0
                ltac:(rewrite length_app; lia)) as Hp.
  destruct (tree_pass _ _ _ _ _) as [t n]. destruct Hp as [Hp Hlen]. rewrite Hp.
  destruct (merkle_pass_ok (mn_hash <$> l) (S (length l)) [] [] (mn_hash <$> tail)
              ltac:(rewrite length_fmap; lia)) as (rest & Hq).
  rewrite !app_nil_l in Hq. simpl length in Hq. rewrite !Nat.add_0_l, length_fmap in Hq.
  rewrite <- fmap_app, Hp in Hq. injection Hq as Ht Hn.
  pose proof (pair_up_length (mn_hash <$> l) ltac:(rewrite length_fmap; lia)) as Hpl.
  rewrite <- Hn in Hpl. rewrite length_fmap in Hpl.
  assert (length t = length (l ++ tail)) as Hlt by done. rewrite length_app in Hlt.
  assert (length (take n t) = n) as Hln by (rewrite length_take; lia).
  specialize (IH (take n t) (drop n t)). rewrite Hln, take_drop in IH.
  rewrite <- Hlen. apply IH. intros Hnil. rewrite Hnil in Hln. simpl in Hln. lia.
Qed.

(** C34. The hash at the root of the tree built by [merkle_tree::create] is the one
    [merkle_root] computes in place, and both are the pairwise reduction of
    the leaves. *)
Theorem merkle_tree_root hashed values :
  mn_hash (merkle_tree_create hashed values) = merkle_root hashed values /\
  merkle_root hashed values = merkle_spec hashed values.
Proof.
  split; [|apply merkle_root_spec].
  unfold merkle_tree_create, merkle_root. destruct values as [|v vs]; [done|].
  cbn [length Nat.eqb]. set (leaves := map _ (v :: vs)).
  assert (map (fun v => if hashed then v else hash v) (v :: vs) = mn_hash <$> leaves) as ->.
  { unfold leaves. rewrite <- list_fmap_compose. done. }
  rewrite length_fmap.
  assert (leaves <> []) as Hne by done.
  pose proof (tree_levels_hash (length leaves) leaves [] Hne) as [Hh Hl].
  rewrite app_nil_r in Hh, Hl. rewrite <- Hh. apply default_lt. rewrite Hl. simpl. lia.
Qed.

(** *** Binding *)

(** The messages hashed above a level: the pairs, level by level. *)
Fixpoint pair_messages (l : list digest) : list bytes :=
  match l with
  | a :: b :: l' => (a ++ b) :: pair_messages l'
  | _ => []
  end.

Fixpoint reduce_messages (fuel : nat) (l : list digest) : list bytes :=
  match fuel with
  | O => []
  | S fuel => pair_messages l ++ reduce_messages fuel (pair_up l)
  end.

(** All messages [merkle_root] hashes: the values, then the pairs. *)
Definition merkle_messages (values : list bytes) : list bytes :=
  values ++ reduce_messages (length values) (map hash values).

Lemma pair_up_inj l : forall l',
  Forall (fun d => length d = digest_length) l -> Forall (fun d => length d = digest_length) l' ->
  length l = length l' -> pair_up l = pair_up l' ->
  l = l' \/ collision_in (pair_messages l) (pair_messages l').
Proof.
  induction l as [|a|a b l IH] using pair_up_ind; intros [|a' [|b' l']] Hl Hl' Hlen Heq;
    try done; simpl in *; simplify_eq; [by left|by left|].
  apply Forall_cons_1 in Hl as [Ha Hl], Hl' as [Ha' Hl'].
  apply Forall_cons_1 in Hl as [Hb Hl], Hl' as [Hb' Hl'].
  destruct (collision_in_single (a ++ b) (a' ++ b')) as [E|Hc]; [done| |].
  2:{ right. eapply collision_in_mono; [exact Hc|set_solver..]. }
  apply app_inj_1 in E as [-> ->]; [|congruence].
  destruct (IH l') as [->|Hc]; [done..|by left|].
  right. eapply collision_in_mono; [exact Hc|set_solver..].
Qed.

Lemma pair_up_digests l :
  Forall (fun d => length d = digest_length) l ->
  Forall (fun d => length d = digest_length) (pair_up l).
Proof.
  induction l as [|a|a b l IH] using pair_up_ind; auto. intros Hl.
  inversion Hl as [|? ? _ Hl1]; subst. inversion Hl1; subst.
  simpl. constructor; [apply blake3_length|auto].
Qed.

Lemma pair_up_length_eq l l' : length l = length l' -> length (pair_up l) = length (pair_up l').
Proof.
  revert l'. induction l as [|a|a b l IH] using pair_up_ind; intros [|a' [|b' l']] Hl; try done.
  simpl in *. f_equal. apply IH. lia.
Qed.

Lemma reduce_inj fuel : forall l l',
  (length l <= fuel)%nat -> length l = length l' ->
  Forall (fun d => length d = digest_length) l -> Forall (fun d => length d = digest_length) l' ->
  reduce fuel l = reduce fuel l' ->
  l = l' \/ collision_in (reduce_messages fuel l) (reduce_messages fuel l').
Proof.
  induction fuel as [|fuel IH]; intros l l' Hf Hlen Hl Hl' Heq.
  { destruct l, l'; simpl in *; try lia. by left. }
  destruct l as [|a [|b l]], l' as [|a' [|b' l']]; simpl in Hlen; try lia.
  - by left.
  - left. simpl in Heq. by subst.
  - change (reduce fuel (pair_up (a :: b :: l)) = reduce fuel (pair_up (a' :: b' :: l'))) in Heq.
    cbn [reduce_messages].
    apply IH in Heq as [Heq|Hc]; [|right; eapply collision_in_mono; [exact Hc|set_solver..]|..];
      auto using pair_up_digests, pair_up_length_eq.
    + apply pair_up_inj in Heq as [Heq|Hc]; auto. right. eapply collision_in_mono; [exact Hc|set_solver..].
    + pose proof (pair_up_length (a :: b :: l) ltac:(simpl; lia)). simpl in *. lia.
Qed.

Lemma map_hash_inj vs : forall vs', map hash vs = map hash vs' -> vs = vs' \/ collision_in vs vs'.
Proof.
  induction vs as [|v vs IH]; intros [|v' vs'] Heq; try done; [by left|]. injection Heq as Hv Hvs.
  destruct (collision_in_single v v' Hv) as [->|Hc]; [|right; eapply collision_in_mono; [exact Hc|set_solver..]].
  destruct (IH vs' Hvs) as [->|Hc]; [by left|]. right. eapply collision_in_mono; [exact Hc|set_solver..].
Qed.

(** The root binds the values: two sequences of the same length with one root
    are equal, or the two computations hash two messages that collide. *)
Lemma merkle_root_binding values values' :
  length values = length values' ->
  merkle_root false values = merkle_root false values' ->
  values = values' \/ collision_in (merkle_messages values) (merkle_messages values').
Proof.
  intros Hlen. rewrite !merkle_root_spec. unfold merkle_spec, merkle_messages. rewrite !length_map, <- Hlen.
  intros Heq. apply reduce_inj in Heq as [Heq|Hc]; rewrite ?length_map; auto.
  - apply map_hash_inj in Heq as [->|Hc]; [by left|]. right. eapply collision_in_mono; [exact Hc|set_solver..].
  - right. eapply collision_in_mono; [exact Hc|set_solver..].
  - apply Forall_map, Forall_true. intros; apply blake3_length.
  - apply Forall_map, Forall_true. intros; apply blake3_length.
Qed.

(** Leaves and inner nodes are hashed alike, so the length is not bound: one
    leaf made of two digests has the root of the two values. *)
Theorem merkle_root_length_not_bound a b :
  merkle_root false [blake3 a ++ blake3 b] = merkle_root false [a; b].
Proof. done. Qed.
End merkle_proofs.

(** A concrete instance of the hash: 32 bytes that count the input. *)
Definition toy_blake3 (m : bytes) : digest :=
  le_bytes 8 (fold_left (fun h b => u64 (31 * h + b + 1)) m 7) ++ zero_bytes 24.

Lemma toy_blake3_ok m : bytes_ok (toy_blake3 m).
Proof. apply Forall_app. split; [apply le_bytes_ok|apply zero_bytes_ok]. Qed.

Definition toy_hash : Blake3 := Build_Blake3 toy_blake3 (fun m => eq_refl) toy_blake3_ok.
