(* ===== verification/Blake3Core.v ===== *)
(** * BLAKE3

    [external/blake3]: the compression function of blake3_portable.c and the
    incremental hasher of blake3.c. Words are 32-bit integers, chaining values
    on the stack are byte strings of 32. The processor decides how many chunks
    are hashed side by side: the degree of parallelism is a parameter. That the
    vector versions of the compression compute what the portable one does is
    shown in [Blake3Dispatch]. *)

From stdpp Require Import base list option numbers.
From S2P Require Import Prelude Memory.

(** ** blake3.h, blake3_impl.h *)

Definition BLAKE3_KEY_LEN : nat := 32.
Definition BLAKE3_OUT_LEN : nat := 32.
Definition BLAKE3_BLOCK_LEN : nat := 64.
Definition BLAKE3_CHUNK_LEN : nat := 1024.
Definition BLAKE3_MAX_DEPTH : nat := 54.

(** [enum blake3_flags] *)
Definition CHUNK_START : Z := 1.
Definition CHUNK_END : Z := 2.
Definition PARENT : Z := 4.
Definition ROOT : Z := 8.
Definition KEYED_HASH : Z := 16.
Definition DERIVE_KEY_CONTEXT : Z := 32.
Definition DERIVE_KEY_MATERIAL : Z := 64.

Definition IV : list Z :=
  [0x6A09E667; 0xBB67AE85; 0x3C6EF372; 0xA54FF53A; 0x510E527F; 0x9B05688C; 0x1F83D9AB; 0x5BE0CD19].

Definition MSG_SCHEDULE : list (list nat) :=
  [[0; 1; 2; 3; 4; 5; 6; 7; 8; 9; 10; 11; 12; 13; 14; 15];
   [2; 6; 3; 10; 7; 0; 4; 13; 1; 11; 12; 5; 9; 14; 15; 8];
   [3; 4; 10; 12; 13; 2; 7; 14; 6; 5; 9; 0; 11; 15; 8; 1];
   [10; 7; 12; 9; 14; 3; 13; 15; 4; 0; 11; 2; 5; 8; 1; 6];
   [12; 13; 9; 11; 15; 10; 14; 8; 7; 2; 5; 3; 0; 1; 6; 4];
   [9; 14; 11; 5; 8; 12; 15; 1; 13; 3; 0; 10; 2; 6; 4; 7];
   [11; 15; 5; 0; 1; 9; 8; 6; 14; 10; 2; 12; 3; 4; 7; 13]]%nat.

(** [highest_one]: the index of the highest bit of a number that is not zero. *)
Definition highest_one (x : Z) : Z := Z.log2 x.

Fixpoint pos_popcount (p : positive) : nat :=
  match p with
  | xH => 1
  | xO p => pos_popcount p
  | xI p => S (pos_popcount p)
  end.
Definition popcnt (x : Z) : nat := match x with Zpos p => pos_popcount p | _ => 0%nat end.

Definition round_down_to_power_of_2 (x : Z) : Z := u64 (Z.shiftl 1 (highest_one (Z.lor x 1))).

Definition counter_low (counter : Z) : Z := u32 counter.
Definition counter_high (counter : Z) : Z := u32 (Z.shiftr counter 32).

(** [load32( &src[ 4 * i ] )], [store32] *)
Definition load32 (src : bytes) (i : nat) : Z := le_val (take 4 (drop (4 * i) src)).
Definition store32 (w : Z) : bytes := le_bytes 4 w.

Definition load_key_words (key : bytes) : list Z := map (load32 key) (seq 0 8).
Definition load_block_words (block : bytes) : list Z := map (load32 block) (seq 0 16).
Definition store_cv_words (cv : list Z) : bytes := concat (map store32 cv).

(** ** blake3_portable.c *)

Definition rotr32 (w c : Z) : Z := Z.lor (Z.shiftr w c) (u32 (Z.shiftl w (32 - c))).

Definition at_word (l : list Z) (i : nat) : Z := default 0 (l !! i).

Definition g (state : list Z) (a b c d : nat) (x y : Z) : list Z :=
  let state := <[a := u32 (at_word state a + at_word state b + x)]> state in
  let state := <[d := rotr32 (Z.lxor (at_word state d) (at_word state a)) 16]> state in
  let state := <[c := u32 (at_word state c + at_word state d)]> state in
  let state := <[b := rotr32 (Z.lxor (at_word state b) (at_word state c)) 12]> state in
  let state := <[a := u32 (at_word state a + at_word state b + y)]> state in
  let state := <[d := rotr32 (Z.lxor (at_word state d) (at_word state a)) 8]> state in
  let state := <[c := u32 (at_word state c + at_word state d)]> state in
  <[b := rotr32 (Z.lxor (at_word state b) (at_word state c)) 7]> state.

Definition round_fn (state msg : list Z) (round : nat) : list Z :=
  let schedule := default [] (MSG_SCHEDULE !! round) in
  let m i := at_word msg (default 0%nat (schedule !! i)) in
  let state := g state 0 4 8 12 (m 0%nat) (m 1%nat) in
  let state := g state 1 5 9 13 (m 2%nat) (m 3%nat) in
  let state := g state 2 6 10 14 (m 4%nat) (m 5%nat) in
  let state := g state 3 7 11 15 (m 6%nat) (m 7%nat) in
  let state := g state 0 5 10 15 (m 8%nat) (m 9%nat) in
  let state := g state 1 6 11 12 (m 10%nat) (m 11%nat) in
  let state := g state 2 7 8 13 (m 12%nat) (m 13%nat) in
  g state 3 4 9 14 (m 14%nat) (m 15%nat).

Definition compress_pre (cv : list Z) (block : bytes) (block_len counter flags : Z) : list Z :=
  let block_words := load_block_words block in
  let state := cv ++ take 4 IV ++ [counter_low counter; counter_high counter; block_len; flags] in
  fold_left (fun state round => round_fn state block_words round) (seq 0 7) state.

Definition blake3_compress_in_place (cv : list Z) (block : bytes) (block_len counter flags : Z) : list Z :=
  let state := compress_pre cv block block_len counter flags in
  map (fun i => Z.lxor (at_word state i) (at_word state (i + 8))) (seq 0 8).

Definition blake3_compress_xof (cv : list Z) (block : bytes) (block_len counter flags : Z) : bytes :=
  let state := compress_pre cv block block_len counter flags in
  concat (map (fun i => store32 (Z.lxor (at_word state i) (at_word state (i + 8)))) (seq 0 8) ++
          map (fun i => store32 (Z.lxor (at_word state (i + 8)) (at_word cv i))) (seq 0 8)).

Definition blake3_xof_many (cv : list Z) (block : bytes) (block_len counter flags : Z) (outblocks : nat) : bytes :=
  concat (map (fun i => blake3_compress_xof cv block block_len (u64 (counter + Z.of_nat i)) flags) (seq 0 outblocks)).

Fixpoint hash_blocks (input : bytes) (blocks : nat) (cv : list Z) (counter flags block_flags flags_end : Z) : list Z :=
  match blocks with
  | O => cv
  | S n =>
      let block_flags := if (n =? 0)%nat then Z.lor block_flags flags_end else block_flags in
      let cv := blake3_compress_in_place cv (take BLAKE3_BLOCK_LEN input) (Z.of_nat BLAKE3_BLOCK_LEN) counter block_flags in
      hash_blocks (drop BLAKE3_BLOCK_LEN input) n cv counter flags flags flags_end
  end.

Definition hash_one (input : bytes) (blocks : nat) (key : list Z) (counter flags flags_start flags_end : Z) : bytes :=
  store_cv_words (hash_blocks input blocks key counter flags (Z.lor flags flags_start) flags_end).

Fixpoint blake3_hash_many (inputs : list bytes) (blocks : nat) (key : list Z) (counter : Z) (increment_counter : bool)
    (flags flags_start flags_end : Z) : list bytes :=
  match inputs with
  | [] => []
  | input :: inputs =>
      hash_one input blocks key counter flags flags_start flags_end ::
      blake3_hash_many inputs blocks key (if increment_counter then u64 (counter + 1) else counter) increment_counter
        flags flags_start flags_end
  end.

(** ** Chunks *)

Record blake3_chunk_state := ChunkState {
  cs_cv : list Z;
  cs_chunk_counter : Z;
  cs_buf : bytes;
  cs_buf_len : nat;
  cs_blocks_compressed : nat;
  cs_flags : Z
}.

Definition chunk_state_init (key : list Z) (flags : Z) : blake3_chunk_state :=
  ChunkState key 0 (zero_bytes BLAKE3_BLOCK_LEN) 0 0 flags.

Definition chunk_state_reset (self : blake3_chunk_state) (key : list Z) (chunk_counter : Z) : blake3_chunk_state :=
  ChunkState key chunk_counter (zero_bytes BLAKE3_BLOCK_LEN) 0 0 (cs_flags self).

Definition with_counter (counter : Z) (self : blake3_chunk_state) : blake3_chunk_state :=
  ChunkState (cs_cv self) counter (cs_buf self) (cs_buf_len self) (cs_blocks_compressed self) (cs_flags self).

Definition chunk_state_len (self : blake3_chunk_state) : nat :=
  BLAKE3_BLOCK_LEN * cs_blocks_compressed self + cs_buf_len self.

Definition chunk_state_fill_buf (self : blake3_chunk_state) (input : bytes) : nat * blake3_chunk_state :=
  let n := (BLAKE3_BLOCK_LEN - cs_buf_len self)%nat in
  let n := if (length input <? n)%nat then length input else n in
  (n, ChunkState (cs_cv self) (cs_chunk_counter self)
        (take (cs_buf_len self) (cs_buf self) ++ take n input ++ drop (cs_buf_len self + n) (cs_buf self))
        (cs_buf_len self + n) (cs_blocks_compressed self) (cs_flags self)).

Definition chunk_state_maybe_start_flag (self : blake3_chunk_state) : Z :=
  if (cs_blocks_compressed self =? 0)%nat then CHUNK_START else 0.

(** One block into the chaining value. *)
Definition chunk_state_compress (self : blake3_chunk_state) (block : bytes) : list Z :=
  blake3_compress_in_place (cs_cv self) block (Z.of_nat BLAKE3_BLOCK_LEN) (cs_chunk_counter self)
    (Z.lor (cs_flags self) (chunk_state_maybe_start_flag self)).

(** [while( input_len > BLAKE3_BLOCK_LEN )] *)
Fixpoint chunk_state_blocks (fuel : nat) (self : blake3_chunk_state) (input : bytes) : blake3_chunk_state * bytes :=
  match fuel with
  | O => (self, input)
  | S fuel =>
      if (BLAKE3_BLOCK_LEN <? length input)%nat then
        chunk_state_blocks fuel
          (ChunkState (chunk_state_compress self (take BLAKE3_BLOCK_LEN input)) (cs_chunk_counter self) (cs_buf self)
             (cs_buf_len self) (S (cs_blocks_compressed self)) (cs_flags self))
          (drop BLAKE3_BLOCK_LEN input)
      else (self, input)
  end.

Definition chunk_state_update (self : blake3_chunk_state) (input : bytes) : blake3_chunk_state :=
  let '(self, input) :=
    if (0 <? cs_buf_len self)%nat then
      let '(n, self) := chunk_state_fill_buf self input in
      let input := drop n input in
      if (0 <? length input)%nat then
        (ChunkState (chunk_state_compress self (cs_buf self)) (cs_chunk_counter self) (zero_bytes BLAKE3_BLOCK_LEN) 0
           (S (cs_blocks_compressed self)) (cs_flags self), input)
      else (self, input)
    else (self, input) in
  let '(self, input) := chunk_state_blocks (length input) self input in
  (chunk_state_fill_buf self input).2.

(** ** Outputs *)

Record output_t := Output {
  o_input_cv : list Z;
  o_counter : Z;
  o_block : bytes;
  o_block_len : Z;
  o_flags : Z
}.

Definition output_chaining_value (self : output_t) : bytes :=
  store_cv_words (blake3_compress_in_place (o_input_cv self) (o_block self) (o_block_len self) (o_counter self) (o_flags self)).

Definition output_root_bytes (self : output_t) (seek : Z) (out_len : nat) : bytes :=
  if (out_len =? 0)%nat then []
  else
    let flags := Z.lor (o_flags self) ROOT in
    let xof counter := blake3_compress_xof (o_input_cv self) (o_block self) (o_block_len self) counter flags in
    let output_block_counter := seek / 64 in
    let offset_within_block := Z.to_nat (seek mod 64) in
    let '(out, out_len, output_block_counter) :=
      if (offset_within_block =? 0)%nat then ([], out_len, output_block_counter)
      else
        let available_bytes := (64 - offset_within_block)%nat in
        let n := if (available_bytes <? out_len)%nat then available_bytes else out_len in
        (take n (drop offset_within_block (xof output_block_counter)), (out_len - n)%nat, u64 (output_block_counter + 1)) in
    let blocks := (out_len / 64)%nat in
    let out := out ++ blake3_xof_many (o_input_cv self) (o_block self) (o_block_len self) output_block_counter flags blocks in
    let output_block_counter := u64 (output_block_counter + Z.of_nat blocks) in
    let out_len := (out_len mod 64)%nat in
    if (out_len =? 0)%nat then out else out ++ take out_len (xof output_block_counter).

Definition chunk_state_output (self : blake3_chunk_state) : output_t :=
  Output (cs_cv self) (cs_chunk_counter self) (cs_buf self) (Z.of_nat (cs_buf_len self))
    (Z.lor (Z.lor (cs_flags self) (chunk_state_maybe_start_flag self)) CHUNK_END).

Definition parent_output (block : bytes) (key : list Z) (flags : Z) : output_t :=
  Output key 0 block (Z.of_nat BLAKE3_BLOCK_LEN) (Z.lor flags PARENT).

(** ** Subtrees *)

Definition left_subtree_len (input_len : nat) : nat :=
  let full_chunks := ((input_len - 1) / BLAKE3_CHUNK_LEN)%nat in
  (Z.to_nat (round_down_to_power_of_2 (Z.of_nat full_chunks)) * BLAKE3_CHUNK_LEN)%nat.

(** The chaining value of one chunk by way of a chunk state. *)
Definition chunk_cv (input : bytes) (key : list Z) (counter flags : Z) : bytes :=
  output_chaining_value (chunk_state_output
    (chunk_state_update (with_counter counter (chunk_state_init key flags)) input)).

(** [chunks_array]: the complete chunks of the input, and the rest. *)
Fixpoint whole_chunks (fuel : nat) (input : bytes) : list bytes * bytes :=
  match fuel with
  | O => ([], input)
  | S fuel =>
      if (BLAKE3_CHUNK_LEN <=? length input)%nat then
        let '(chunks, rest) := whole_chunks fuel (drop BLAKE3_CHUNK_LEN input) in
        (take BLAKE3_CHUNK_LEN input :: chunks, rest)
      else ([], input)
  end.

Definition compress_chunks_parallel (input : bytes) (key : list Z) (chunk_counter flags : Z) : list bytes :=
  let '(chunks_array, rest) := whole_chunks (length input) input in
  let out := blake3_hash_many chunks_array (BLAKE3_CHUNK_LEN / BLAKE3_BLOCK_LEN)%nat key chunk_counter true flags
               CHUNK_START CHUNK_END in
  if (0 <? length rest)%nat
  then out ++ [chunk_cv rest key (u64 (chunk_counter + Z.of_nat (length chunks_array))) flags]
  else out.

(** [parents_array]: the pairs of chaining values, and the odd one. *)
Fixpoint parent_blocks (cvs : list bytes) : list bytes * list bytes :=
  match cvs with
  | l :: r :: cvs => let '(parents, rest) := parent_blocks cvs in ((l ++ r) :: parents, rest)
  | _ => ([], cvs)
  end.

Definition compress_parents_parallel (child_chaining_values : list bytes) (key : list Z) (flags : Z) : list bytes :=
  let '(parents_array, rest) := parent_blocks child_chaining_values in
  blake3_hash_many parents_array 1 key 0 false (Z.lor flags PARENT) 0 0 ++ rest.

(** ** The hasher *)

(** The stack of chaining values, its top first; [cv_stack_len] is its length. *)
Record blake3_hasher := Hasher {
  hs_key : list Z;
  hs_chunk : blake3_chunk_state;
  hs_cv_stack : list bytes
}.

Definition with_chunk (c : blake3_chunk_state) (self : blake3_hasher) : blake3_hasher :=
  Hasher (hs_key self) c (hs_cv_stack self).
Definition with_stack (s : list bytes) (self : blake3_hasher) : blake3_hasher :=
  Hasher (hs_key self) (hs_chunk self) s.

Definition hasher_init_base (key : list Z) (flags : Z) : blake3_hasher :=
  Hasher key (chunk_state_init key flags) [].
Definition blake3_hasher_init : blake3_hasher := hasher_init_base IV 0.
Definition blake3_hasher_init_keyed (key : bytes) : blake3_hasher := hasher_init_base (load_key_words key) KEYED_HASH.

Fixpoint merge_stack (fuel post_merge_stack_len : nat) (key : list Z) (flags : Z) (stack : list bytes) : list bytes :=
  match fuel, stack with
  | S fuel, r :: l :: rest =>
      if (post_merge_stack_len <? length stack)%nat
      then merge_stack fuel post_merge_stack_len key flags (output_chaining_value (parent_output (l ++ r) key flags) :: rest)
      else stack
  | _, _ => stack
  end.

Definition hasher_merge_cv_stack (self : blake3_hasher) (total_len : Z) : blake3_hasher :=
  with_stack (merge_stack (length (hs_cv_stack self)) (popcnt total_len) (hs_key self) (cs_flags (hs_chunk self))
    (hs_cv_stack self)) self.

Definition hasher_push_cv (self : blake3_hasher) (new_cv : bytes) (chunk_counter : Z) : blake3_hasher :=
  let self := hasher_merge_cv_stack self chunk_counter in
  with_stack (new_cv :: hs_cv_stack self) self.

(** [while( ( subtree_len - 1 ) & count_so_far )] *)
Fixpoint shrink_subtree (fuel : nat) (subtree_len count_so_far : Z) : Z :=
  match fuel with
  | O => subtree_len
  | S fuel => if Z.land (subtree_len - 1) count_so_far =? 0 then subtree_len
              else shrink_subtree fuel (subtree_len / 2) count_so_far
  end.

Section hasher.
(** What [blake3_simd_degree] answers, and the bytes of an array before it is
    written. *)
Context (blake3_simd_degree : nat) (uninit : bytes).

(** [right_cvs] lies [degree] chaining values into [cv_array]; the values are
    then read as one array from its beginning. *)
Fixpoint blake3_compress_subtree_wide (fuel : nat) (input : bytes) (key : list Z) (chunk_counter flags : Z) : list bytes :=
  match fuel with
  | O => []
  | S fuel =>
      if (length input <=? blake3_simd_degree * BLAKE3_CHUNK_LEN)%nat
      then compress_chunks_parallel input key chunk_counter flags
      else
        let left_input_len := left_subtree_len (length input) in
        let right_chunk_counter := u64 (chunk_counter + Z.of_nat (left_input_len / BLAKE3_CHUNK_LEN)%nat) in
        let degree := if (BLAKE3_CHUNK_LEN <? left_input_len)%nat && (blake3_simd_degree =? 1)%nat then 2%nat
                      else blake3_simd_degree in
        let left_cvs := blake3_compress_subtree_wide fuel (take left_input_len input) key chunk_counter flags in
        let right_cvs := blake3_compress_subtree_wide fuel (drop left_input_len input) key right_chunk_counter flags in
        let cv_array := left_cvs ++ replicate (degree - length left_cvs) uninit ++ right_cvs in
        if (length left_cvs =? 1)%nat then take 2 cv_array
        else compress_parents_parallel (take (length left_cvs + length right_cvs) cv_array) key flags
  end.

(** [while( num_cvs > 2 )] *)
Fixpoint condense (fuel : nat) (cv_array : list bytes) (key : list Z) (flags : Z) : list bytes :=
  match fuel with
  | O => cv_array
  | S fuel => if (2 <? length cv_array)%nat then condense fuel (compress_parents_parallel cv_array key flags) key flags
              else cv_array
  end.

(** The two chaining values of the parent node. *)
Definition compress_subtree_to_parent_node (input : bytes) (key : list Z) (chunk_counter flags : Z) : bytes * bytes :=
  let cv_array := blake3_compress_subtree_wide (length input) input key chunk_counter flags in
  let cv_array := condense (length cv_array) cv_array key flags in
  (default uninit (cv_array !! 0%nat), default uninit (cv_array !! 1%nat)).

(** The loop over whole subtrees. *)
Fixpoint update_subtrees (fuel : nat) (self : blake3_hasher) (input : bytes) : blake3_hasher * bytes :=
  match fuel with
  | O => (self, input)
  | S fuel =>
      if (BLAKE3_CHUNK_LEN <? length input)%nat then
        let counter := cs_chunk_counter (hs_chunk self) in
        let flags := cs_flags (hs_chunk self) in
        let count_so_far := u64 (counter * Z.of_nat BLAKE3_CHUNK_LEN) in
        let subtree_len := shrink_subtree 64 (round_down_to_power_of_2 (zlen input)) count_so_far in
        let subtree_chunks := subtree_len / Z.of_nat BLAKE3_CHUNK_LEN in
        let subtree := take (Z.to_nat subtree_len) input in
        let self :=
          if subtree_len <=? Z.of_nat BLAKE3_CHUNK_LEN
          then hasher_push_cv self (chunk_cv subtree (hs_key self) counter flags) counter
          else
            let '(l, r) := compress_subtree_to_parent_node subtree (hs_key self) counter flags in
            hasher_push_cv (hasher_push_cv self l counter) r (u64 (counter + subtree_chunks / 2)) in
        update_subtrees fuel (with_chunk (with_counter (u64 (counter + subtree_chunks)) (hs_chunk self)) self)
          (drop (Z.to_nat subtree_len) input)
      else (self, input)
  end.

(** What follows when the chunk state is empty. *)
Definition update_rest (self : blake3_hasher) (input : bytes) : blake3_hasher :=
  let '(self, input) := update_subtrees (length input) self input in
  if (0 <? length input)%nat then
    let self := with_chunk (chunk_state_update (hs_chunk self) input) self in
    hasher_merge_cv_stack self (cs_chunk_counter (hs_chunk self))
  else self.

Definition blake3_hasher_update (self : blake3_hasher) (input : bytes) : blake3_hasher :=
  if (length input =? 0)%nat then self
  else if (0 <? chunk_state_len (hs_chunk self))%nat then
    let n := (BLAKE3_CHUNK_LEN - chunk_state_len (hs_chunk self))%nat in
    let n := if (length input <? n)%nat then length input else n in
    let self := with_chunk (chunk_state_update (hs_chunk self) (take n input)) self in
    let input := drop n input in
    if (0 <? length input)%nat then
      let counter := cs_chunk_counter (hs_chunk self) in
      let self := hasher_push_cv self (output_chaining_value (chunk_state_output (hs_chunk self))) counter in
      update_rest (with_chunk (chunk_state_reset (hs_chunk self) (hs_key self) (u64 (counter + 1))) self) input
    else self
  else update_rest self input.

(** The roll-up merge of [finalize] with the values that remain on the stack. *)
Fixpoint roll_up (output : output_t) (stack : list bytes) (key : list Z) (flags : Z) : output_t :=
  match stack with
  | [] => output
  | cv :: stack => roll_up (parent_output (cv ++ output_chaining_value output) key flags) stack key flags
  end.

Definition root_output (self : blake3_hasher) : output_t :=
  let flags := cs_flags (hs_chunk self) in
  match hs_cv_stack self with
  | [] => chunk_state_output (hs_chunk self)
  | stack =>
      if (0 <? chunk_state_len (hs_chunk self))%nat
      then roll_up (chunk_state_output (hs_chunk self)) stack (hs_key self) flags
      else match stack with
           | r :: l :: rest => roll_up (parent_output (l ++ r) (hs_key self) flags) rest (hs_key self) flags
           | _ => roll_up (parent_output (uninit ++ concat stack) (hs_key self) flags) [] (hs_key self) flags
           end
  end.

Definition blake3_hasher_finalize_seek (self : blake3_hasher) (seek : Z) (out_len : nat) : bytes :=
  if (out_len =? 0)%nat then [] else output_root_bytes (root_output self) seek out_len.
Definition blake3_hasher_finalize (self : blake3_hasher) (out_len : nat) : bytes :=
  blake3_hasher_finalize_seek self 0 out_len.

Definition blake3_hasher_reset (self : blake3_hasher) : blake3_hasher :=
  Hasher (hs_key self) (chunk_state_reset (hs_chunk self) (hs_key self) 0) [].

Definition blake3_hasher_init_derive_key_raw (context : bytes) : blake3_hasher :=
  let context_hasher := blake3_hasher_update (hasher_init_base IV DERIVE_KEY_CONTEXT) context in
  let context_key := blake3_hasher_finalize context_hasher BLAKE3_KEY_LEN in
  hasher_init_base (load_key_words context_key) DERIVE_KEY_MATERIAL.
End hasher.
