(* ===== verification/Blake3Tree.v ===== *)
(** * BLAKE3 is the hash of a tree

    The incremental hasher of blake3.c (buffered chunks, lazily merged stack of
    subtrees, subtrees hashed side by side) against the recursive definition of
    the hash: however the input is cut into updates, and whatever the degree of
    parallelism, the digest is the root of the tree over the whole input. *)

From stdpp Require Import base list option numbers strings.
From Stdlib Require Import Sorting.Sorted.
From S2P Require Import Prelude Memory Encode Crypto Blake3Core.

(** ** The reference *)

Definition pad (m : bytes) : bytes := m ++ zero_bytes (BLAKE3_BLOCK_LEN - length m).

(** A chunk: its blocks chained, the first and the last marked. *)
Fixpoint chunk_tree (fuel : nat) (cv : list Z) (start : bool) (counter flags : Z) (m : bytes) : output_t :=
  let flags' := Z.lor flags (if start then CHUNK_START else 0) in
  match fuel with
  | S fuel =>
      if (BLAKE3_BLOCK_LEN <? length m)%nat
      then chunk_tree fuel
             (blake3_compress_in_place cv (take BLAKE3_BLOCK_LEN m) (Z.of_nat BLAKE3_BLOCK_LEN) counter flags')
             false counter flags (drop BLAKE3_BLOCK_LEN m)
      else Output cv counter (pad m) (Z.of_nat (length m)) (Z.lor flags' CHUNK_END)
  | O => Output cv counter (pad m) (Z.of_nat (length m)) (Z.lor flags' CHUNK_END)
  end.

(** The left subtree has the largest power of two of chunks that leaves
    something for the right one. *)
Definition left_len (n : nat) : nat := (BLAKE3_CHUNK_LEN * 2 ^ Nat.log2 ((n - 1) / BLAKE3_CHUNK_LEN))%nat.

Section tree.
Context (key : list Z) (flags : Z).

Fixpoint tree_output (fuel : nat) (m : bytes) (counter : Z) : output_t :=
  match fuel with
  | S fuel =>
      if (BLAKE3_CHUNK_LEN <? length m)%nat
      then
        let n := left_len (length m) in
        parent_output
          (output_chaining_value (tree_output fuel (take n m) counter) ++
           output_chaining_value (tree_output fuel (drop n m) (counter + Z.of_nat (n / BLAKE3_CHUNK_LEN)%nat))) key flags
      else chunk_tree (length m) key true counter flags m
  | O => chunk_tree (length m) key true counter flags m
  end.

(** The node over [m], whose first chunk has number [counter], and its
    chaining value. *)
Definition node (m : bytes) (counter : Z) : output_t := tree_output (S (length m)) m counter.
Definition node_cv (m : bytes) (counter : Z) : bytes := output_chaining_value (node m counter).
End tree.

(** The digest of the documentation. *)
Definition blake3_digest (m : bytes) : bytes := output_root_bytes (node IV 0 m 0) 0 BLAKE3_OUT_LEN.

(** ** Chunks *)

Lemma chunk_tree_fuel n n' cv start c fl m :
  (length m <= n)%nat -> (length m <= n')%nat -> chunk_tree n cv start c fl m = chunk_tree n' cv start c fl m.
Proof.
  revert n' cv start m. induction n as [|n IH]; intros [|n'] cv start m Hn Hn'; cbn [chunk_tree]; try done.
  - by rewrite (proj2 (Nat.ltb_ge _ _)) by (unfold BLAKE3_BLOCK_LEN; lia).
  - by rewrite (proj2 (Nat.ltb_ge _ _)) by (unfold BLAKE3_BLOCK_LEN; lia).
  - case_bool; [|done]. apply Nat.ltb_lt in Heqb. apply IH; rewrite length_drop; unfold BLAKE3_BLOCK_LEN in *; lia.
Qed.

Lemma chunk_blocks_fuel n n' s m :
  (length m <= n)%nat -> (length m <= n')%nat -> chunk_state_blocks n s m = chunk_state_blocks n' s m.
Proof.
  revert n' s m. induction n as [|n IH]; intros [|n'] s m Hn Hn'; cbn [chunk_state_blocks]; try done.
  - by rewrite (proj2 (Nat.ltb_ge _ _)) by (unfold BLAKE3_BLOCK_LEN; lia).
  - by rewrite (proj2 (Nat.ltb_ge _ _)) by (unfold BLAKE3_BLOCK_LEN; lia).
  - case_bool; [|done]. apply Nat.ltb_lt in Heqb. apply IH; rewrite length_drop; unfold BLAKE3_BLOCK_LEN in *; lia.
Qed.

(** A chunk state with nothing in its buffer. *)
Definition unbuffered (s : blake3_chunk_state) : Prop :=
  cs_buf_len s = 0%nat /\ cs_buf s = zero_bytes BLAKE3_BLOCK_LEN.

Definition with_buf (m : bytes) (s : blake3_chunk_state) : blake3_chunk_state :=
  ChunkState (cs_cv s) (cs_chunk_counter s) (pad m) (length m) (cs_blocks_compressed s) (cs_flags s).

Definition next_chunk_block (s : blake3_chunk_state) (block : bytes) : blake3_chunk_state :=
  ChunkState (chunk_state_compress s block) (cs_chunk_counter s) (zero_bytes BLAKE3_BLOCK_LEN) 0
    (S (cs_blocks_compressed s)) (cs_flags s).

Lemma drop_zero_bytes n k : drop k (zero_bytes n) = zero_bytes (n - k).
Proof. unfold zero_bytes. apply drop_replicate. Qed.

(** What is buffered, and what comes. *)
Lemma fill_buf_eq m x s :
  (length m + length x <= BLAKE3_BLOCK_LEN)%nat ->
  chunk_state_fill_buf (with_buf m s) x = (length x, with_buf (m ++ x) s).
Proof.
  intros Hl. unfold chunk_state_fill_buf, with_buf, pad. cbn [cs_buf_len cs_buf cs_cv cs_chunk_counter cs_blocks_compressed cs_flags].
  assert ((if (length x <? BLAKE3_BLOCK_LEN - length m)%nat then length x else (BLAKE3_BLOCK_LEN - length m)%nat) = length x) as ->.
  { destruct (_ <? _)%nat eqn:E; [done|]. apply Nat.ltb_ge in E. lia. }
  f_equal. f_equal; [|by rewrite length_app].
  rewrite take_app_length, (take_ge x) by lia. rewrite <- app_assoc. f_equal. f_equal.
  rewrite drop_app_ge by lia. rewrite drop_zero_bytes, length_app. f_equal. lia.
Qed.

Lemma unbuffered_with s : unbuffered s -> s = with_buf [] s.
Proof. intros [H1 H2]. destruct s. unfold with_buf, pad. simpl in *. by subst. Qed.

Lemma update_small s m :
  unbuffered s -> (length m <= BLAKE3_BLOCK_LEN)%nat -> chunk_state_update s m = with_buf m s.
Proof.
  intros Hs Hm. pose proof Hs as [Hl _]. unfold chunk_state_update. rewrite Hl. cbn [Nat.ltb Nat.leb].
  assert (chunk_state_blocks (length m) s m = (s, m)) as ->.
  { destruct (length m) eqn:E; [done|]. cbn [chunk_state_blocks]. rewrite (proj2 (Nat.ltb_ge _ _)); [done|lia]. }
  rewrite (unbuffered_with s Hs) at 1. rewrite fill_buf_eq; [done|cbn; lia].
Qed.

Lemma update_step s m :
  unbuffered s -> (BLAKE3_BLOCK_LEN < length m)%nat ->
  chunk_state_update s m = chunk_state_update (next_chunk_block s (take BLAKE3_BLOCK_LEN m)) (drop BLAKE3_BLOCK_LEN m).
Proof.
  intros [Hl Hb] Hm. unfold chunk_state_update. rewrite Hl. cbn [Nat.ltb Nat.leb next_chunk_block cs_buf_len].
  destruct (length m) as [|n] eqn:E; [lia|]. cbn [chunk_state_blocks]. rewrite E, (proj2 (Nat.ltb_lt _ _)) by lia.
  rewrite (chunk_blocks_fuel n (length (drop BLAKE3_BLOCK_LEN m))) by (rewrite length_drop; unfold BLAKE3_BLOCK_LEN; lia).
  by rewrite Hl, Hb.
Qed.

Lemma next_block_unbuffered s b : unbuffered (next_chunk_block s b).
Proof. done. Qed.

(** Feeding a chunk in two parts is feeding it at once. *)
Lemma update_app s m x :
  unbuffered s -> chunk_state_update (chunk_state_update s m) x = chunk_state_update s (m ++ x).
Proof.
  remember (length m) as n eqn:En. revert s m En. induction (lt_wf n) as [n _ IH]. intros s m -> Hs.
  destruct (decide (length m <= BLAKE3_BLOCK_LEN)%nat) as [Hm|Hm].
  - rewrite (update_small s m) by done. destruct (decide (m = [])) as [->|Hne]; [by rewrite <- unbuffered_with|].
    assert (0 < length m)%nat as Hpos by (destruct m; [done|cbn; lia]).
    destruct (decide (length m + length x <= BLAKE3_BLOCK_LEN)%nat) as [Hx|Hx].
    + rewrite (update_small s (m ++ x)) by (rewrite ?length_app; done). unfold chunk_state_update.
      cbn [with_buf cs_buf_len]. rewrite (proj2 (Nat.ltb_lt _ _)) by done. rewrite fill_buf_eq by done.
      rewrite drop_all. cbn [length Nat.ltb Nat.leb chunk_state_blocks].
      rewrite fill_buf_eq; [by rewrite app_nil_r|rewrite length_app; cbn; lia].
    + rewrite (update_step s (m ++ x)) by (rewrite ?length_app; first [done|lia]).
      unfold chunk_state_update at 1. cbn [with_buf cs_buf_len]. rewrite (proj2 (Nat.ltb_lt _ _)) by done.
      set (k := (BLAKE3_BLOCK_LEN - length m)%nat).
      assert (chunk_state_fill_buf (with_buf m s) x = chunk_state_fill_buf (with_buf m s) (take k x)) as Hf.
      { unfold chunk_state_fill_buf. cbn [with_buf cs_buf_len]. fold k. rewrite length_take.
        rewrite (proj2 (Nat.ltb_ge (length x) k)) by lia. rewrite (proj2 (Nat.ltb_ge (k `min` length x) k)) by lia.
        by rewrite take_take, Nat.min_id. }
      fold (with_buf m s). rewrite Hf, fill_buf_eq by (rewrite length_take; lia). rewrite length_take, Nat.min_l by lia.
      rewrite (proj2 (Nat.ltb_lt 0 (length (drop k x)))) by (rewrite length_drop; lia).
      assert (take BLAKE3_BLOCK_LEN (m ++ x) = m ++ take k x) as Ht by (rewrite take_app_ge by done; done).
      assert (drop BLAKE3_BLOCK_LEN (m ++ x) = drop k x) as Hd by (rewrite drop_app_ge by done; done).
      rewrite Ht, Hd. unfold chunk_state_update. cbn [next_chunk_block cs_buf_len Nat.ltb Nat.leb].
      unfold next_chunk_block, chunk_state_compress, chunk_state_maybe_start_flag.
      cbn [with_buf cs_cv cs_chunk_counter cs_blocks_compressed cs_flags cs_buf].
      assert (pad (m ++ take k x) = m ++ take k x) as ->; [|done].
      unfold pad. rewrite length_app, length_take. replace (BLAKE3_BLOCK_LEN - _)%nat with 0%nat by lia. apply app_nil_r.
  - rewrite (update_step s m), (update_step s (m ++ x)) by (rewrite ?length_app; first [done|lia]).
    rewrite (IH (length (drop BLAKE3_BLOCK_LEN m))) by (first [done|rewrite length_drop; unfold BLAKE3_BLOCK_LEN in *; lia]).
    rewrite take_app_le, drop_app_le by lia. done.
Qed.

(** The output of a chunk state is the reference's. *)
Lemma update_output s m :
  unbuffered s ->
  chunk_state_output (chunk_state_update s m) =
    chunk_tree (length m) (cs_cv s) (cs_blocks_compressed s =? 0)%nat (cs_chunk_counter s) (cs_flags s) m.
Proof.
  remember (length m) as n eqn:En. revert s m En. induction (lt_wf n) as [n _ IH]. intros s m -> Hs.
  destruct (decide (length m <= BLAKE3_BLOCK_LEN)%nat) as [Hm|Hm].
  - rewrite update_small by done. destruct (length m) eqn:E; cbn [chunk_tree]; rewrite ?E, ?(proj2 (Nat.ltb_ge _ _)) by lia;
      unfold chunk_state_output, chunk_state_maybe_start_flag, with_buf; cbn; rewrite ?E; by destruct (_ =? _)%nat.
  - rewrite update_step by (first [done|lia]).
    rewrite (IH (length (drop BLAKE3_BLOCK_LEN m))) by (first [done|rewrite length_drop; unfold BLAKE3_BLOCK_LEN in *; lia]).
    destruct (length m) as [|k] eqn:E; [lia|]. cbn [chunk_tree]. rewrite E, (proj2 (Nat.ltb_lt _ _)) by lia.
    cbn [next_chunk_block cs_cv cs_chunk_counter cs_flags cs_blocks_compressed Nat.eqb].
    rewrite (chunk_tree_fuel k (length (drop BLAKE3_BLOCK_LEN m))) by (rewrite length_drop; unfold BLAKE3_BLOCK_LEN; lia).
    done.
Qed.

Lemma update_fields s m :
  unbuffered s ->
  chunk_state_len (chunk_state_update s m) = (BLAKE3_BLOCK_LEN * cs_blocks_compressed s + length m)%nat /\
  cs_flags (chunk_state_update s m) = cs_flags s /\ cs_chunk_counter (chunk_state_update s m) = cs_chunk_counter s.
Proof.
  remember (length m) as n eqn:En. revert s m En. induction (lt_wf n) as [n _ IH]. intros s m -> Hs.
  destruct (decide (length m <= BLAKE3_BLOCK_LEN)%nat) as [Hm|Hm]; [by rewrite update_small by done|].
  rewrite update_step by (first [done|lia]).
  destruct (IH (length (drop BLAKE3_BLOCK_LEN m))) with (s := next_chunk_block s (take BLAKE3_BLOCK_LEN m)) (m := drop BLAKE3_BLOCK_LEN m)
    as (H1 & H2 & H3); [rewrite length_drop; unfold BLAKE3_BLOCK_LEN in *; lia|done|done|].
  split; [|done]. rewrite H1, length_drop. cbn [next_chunk_block cs_blocks_compressed]. lia.
Qed.

(** ** Powers of two *)

Lemma round_down_power n :
  (0 < n)%nat -> Z.of_nat n < 2 ^ 64 -> round_down_to_power_of_2 (Z.of_nat n) = Z.of_nat (2 ^ Nat.log2 n).
Proof.
  intros Hn Hs. unfold round_down_to_power_of_2, highest_one. rewrite Z.log2_lor by lia.
  rewrite Z.max_l by (apply Z.log2_nonneg). rewrite Z.shiftl_1_l.
  assert (Z.log2 (Z.of_nat n) = Z.of_nat (Nat.log2 n)) as ->.
  { apply Z.log2_unique; [lia|]. destruct (Nat.log2_spec n Hn) as [H1 H2].
    rewrite <- Nat2Z.inj_succ. change 2 with (Z.of_nat 2). rewrite <- !Nat2Z.inj_pow. lia. }
  change 2 with (Z.of_nat 2) at 1. rewrite <- Nat2Z.inj_pow. apply u64_small.
  destruct (Nat.log2_spec n Hn) as [H1 _]. unfold u64_ok. lia.
Qed.

Lemma left_subtree_len_eq n :
  (BLAKE3_CHUNK_LEN < n)%nat -> Z.of_nat n < 2 ^ 64 -> left_subtree_len n = left_len n.
Proof.
  intros Hn Hs. unfold left_subtree_len, left_len.
  assert (1 <= (n - 1) / BLAKE3_CHUNK_LEN)%nat as Hq by (apply Nat.div_le_lower_bound; unfold BLAKE3_CHUNK_LEN in *; lia).
  assert ((n - 1) / BLAKE3_CHUNK_LEN <= n)%nat as Hle by (etrans; [apply Nat.Div0.div_le_upper_bound with (q := n); unfold BLAKE3_CHUNK_LEN; lia|lia]).
  rewrite round_down_power by lia. rewrite Nat2Z.id. lia.
Qed.

(** The split of a message into a power of two of chunks and a shorter rest. *)
Lemma left_len_split k r :
  (0 < r)%nat -> (r <= BLAKE3_CHUNK_LEN * 2 ^ k)%nat -> left_len (BLAKE3_CHUNK_LEN * 2 ^ k + r) = (BLAKE3_CHUNK_LEN * 2 ^ k)%nat.
Proof.
  intros Hr Hle. unfold left_len. do 2 f_equal. apply Nat.log2_unique; [lia|].
  replace (BLAKE3_CHUNK_LEN * 2 ^ k + r - 1)%nat with (2 ^ k * BLAKE3_CHUNK_LEN + (r - 1))%nat by lia.
  rewrite Nat.div_add_l by done. assert ((r - 1) / BLAKE3_CHUNK_LEN < 2 ^ k)%nat as Hlt.
  { apply Nat.Div0.div_lt_upper_bound; lia. }
  rewrite Nat.pow_succ_r'. lia.
Qed.

Lemma left_len_bounds n : (BLAKE3_CHUNK_LEN < n)%nat -> (0 < left_len n < n)%nat.
Proof.
  intros Hn. assert (1 <= (n - 1) / BLAKE3_CHUNK_LEN)%nat as Hq by (apply Nat.div_le_lower_bound; unfold BLAKE3_CHUNK_LEN in *; lia).
  destruct (Nat.log2_spec ((n - 1) / BLAKE3_CHUNK_LEN)) as [H1 _]; [lia|].
  pose proof (Nat.Div0.mul_div_le (n - 1) BLAKE3_CHUNK_LEN). unfold left_len.
  assert (0 < 2 ^ Nat.log2 ((n - 1) / BLAKE3_CHUNK_LEN))%nat by (apply Nat.neq_0_lt_0, Nat.pow_nonzero; done).
  unfold BLAKE3_CHUNK_LEN in *. nia.
Qed.

(** ** Nodes *)

Section nodes.
Context (key : list Z) (flags : Z).
Abbreviation nd := (node key flags).
Abbreviation nd_cv := (node_cv key flags).

Lemma tree_fuel n n' m c :
  (length m <= n)%nat -> (length m <= n')%nat -> tree_output key flags n m c = tree_output key flags n' m c.
Proof.
  revert n' m c. induction n as [|n IH]; intros [|n'] m c Hn Hn'; cbn [tree_output]; try done.
  - by rewrite (proj2 (Nat.ltb_ge _ _)) by (unfold BLAKE3_CHUNK_LEN; lia).
  - by rewrite (proj2 (Nat.ltb_ge _ _)) by (unfold BLAKE3_CHUNK_LEN; lia).
  - case_bool; [|done]. apply Nat.ltb_lt in Heqb. destruct (left_len_bounds _ Heqb) as [H1 H2].
    by rewrite (IH n' (take _ m)), (IH n' (drop _ m)) by (rewrite ?length_take, ?length_drop; lia).
Qed.

Lemma node_small m c : (length m <= BLAKE3_CHUNK_LEN)%nat -> nd m c = chunk_tree (length m) key true c flags m.
Proof.
  intros Hm. unfold node. cbn [tree_output]. by rewrite (proj2 (Nat.ltb_ge _ _)) by lia.
Qed.

Lemma node_big m c :
  (BLAKE3_CHUNK_LEN < length m)%nat ->
  nd m c = parent_output (nd_cv (take (left_len (length m)) m) c ++
    nd_cv (drop (left_len (length m)) m) (c + Z.of_nat (left_len (length m) / BLAKE3_CHUNK_LEN)%nat)) key flags.
Proof.
  intros Hm. unfold node at 1. cbn [tree_output]. rewrite (proj2 (Nat.ltb_lt _ _)) by done.
  destruct (left_len_bounds _ Hm) as [H1 H2]. set (n := left_len (length m)) in *.
  rewrite (tree_fuel (length m) (S (length (take n m)))), (tree_fuel (length m) (S (length (drop n m))))
    by (rewrite ?length_take, ?length_drop; lia).
  unfold node_cv, node. reflexivity.
Qed.

(** A power of two of chunks beside something that is not longer. *)
Lemma node_join k p x c :
  length p = (BLAKE3_CHUNK_LEN * 2 ^ k)%nat -> (0 < length x <= BLAKE3_CHUNK_LEN * 2 ^ k)%nat ->
  nd (p ++ x) c = parent_output (nd_cv p c ++ nd_cv x (c + 2 ^ Z.of_nat k)) key flags.
Proof.
  intros Hp Hx. assert (0 < 2 ^ k)%nat as Hk by (apply Nat.neq_0_lt_0, Nat.pow_nonzero; done).
  rewrite node_big by (rewrite length_app; unfold BLAKE3_CHUNK_LEN in *; lia).
  rewrite length_app, Hp, left_len_split by lia. rewrite <- Hp, take_app_length, drop_app_length, Hp.
  rewrite Nat.mul_comm, Nat.div_mul by done. by rewrite Nat2Z.inj_pow.
Qed.

(** The chaining value a chunk state computes. *)
Lemma chunk_cv_node m c : (length m <= BLAKE3_CHUNK_LEN)%nat -> chunk_cv m key c flags = nd_cv m c.
Proof.
  intros Hm. unfold chunk_cv, node_cv. rewrite node_small by done. by rewrite update_output.
Qed.

(** A whole chunk in one go. *)
Lemma hash_blocks_tree n m cv (start : bool) c :
  length m = (BLAKE3_BLOCK_LEN * S n)%nat ->
  store_cv_words (hash_blocks m (S n) cv c flags (Z.lor flags (if start then CHUNK_START else 0)) CHUNK_END) =
  output_chaining_value (chunk_tree (length m) cv start c flags m).
Proof.
  revert m cv start. induction n as [|n IH]; intros m cv start Hm;
    rewrite (chunk_tree_fuel (length m) (S (length m))) by lia; cbn [chunk_tree].
  - cbn [hash_blocks Nat.eqb]. rewrite (proj2 (Nat.ltb_ge _ _)) by lia. unfold output_chaining_value.
    cbn [o_input_cv o_block o_block_len o_counter o_flags]. rewrite take_ge by lia. unfold pad.
    rewrite Hm, Nat.mul_1_r, Nat.sub_diag. by rewrite app_nil_r.
  - remember (S n) as n1 eqn:En1. cbn [hash_blocks]. rewrite (proj2 (Nat.eqb_neq n1 0)) by lia. subst n1.
    set (cv' := blake3_compress_in_place _ _ _ _ _). specialize (IH (drop BLAKE3_BLOCK_LEN m) cv' false).
    rewrite Z.lor_0_r in IH. rewrite IH by (rewrite length_drop; lia).
    rewrite (proj2 (Nat.ltb_lt _ _)) by (unfold BLAKE3_BLOCK_LEN in *; lia). fold cv'.
    by rewrite (chunk_tree_fuel (length m) (length (drop BLAKE3_BLOCK_LEN m))) by (rewrite ?length_drop; lia).
Qed.

Lemma hash_one_chunk m c :
  length m = BLAKE3_CHUNK_LEN ->
  hash_one m (BLAKE3_CHUNK_LEN / BLAKE3_BLOCK_LEN) key c flags CHUNK_START CHUNK_END = nd_cv m c.
Proof.
  intros Hm. unfold hash_one, node_cv. rewrite node_small by lia.
  change (BLAKE3_CHUNK_LEN / BLAKE3_BLOCK_LEN)%nat with 16%nat. by rewrite (hash_blocks_tree 15 m key true).
Qed.

Lemma hash_one_parent l r :
  length (l ++ r) = BLAKE3_BLOCK_LEN ->
  hash_one (l ++ r) 1 key 0 (Z.lor flags PARENT) 0 0 = output_chaining_value (parent_output (l ++ r) key flags).
Proof.
  intros Hl. unfold hash_one, hash_blocks, output_chaining_value, parent_output. cbn [Nat.eqb o_input_cv o_block o_block_len o_counter o_flags].
  rewrite take_ge by lia. by rewrite !Z.lor_0_r.
Qed.

Lemma output_cv_length o : length (output_chaining_value o) = BLAKE3_OUT_LEN.
Proof.
  unfold output_chaining_value, store_cv_words, blake3_compress_in_place. cbn [map seq concat].
  rewrite !length_app. unfold store32. rewrite !length_le_bytes. done.
Qed.

(** ** Subtrees of a power of two of chunks *)

(** The chaining values [j] levels below the root of a tree of [2 ^ k] chunks. *)
Fixpoint level (j k : nat) (m : bytes) (c : Z) : list bytes :=
  match j, k with
  | S j, S k =>
      level j k (take (BLAKE3_CHUNK_LEN * 2 ^ k) m) c ++
      level j k (drop (BLAKE3_CHUNK_LEN * 2 ^ k) m) (c + 2 ^ Z.of_nat k)
  | _, _ => [nd_cv m c]
  end.

Lemma level_length j k m c : (j <= k)%nat -> length (level j k m c) = (2 ^ j)%nat.
Proof.
  revert k m c. induction j as [|j IH]; intros [|k] m c Hj; [done|done|lia|]. cbn [level].
  rewrite length_app, !IH by lia. cbn. lia.
Qed.

Lemma halves k (m : bytes) :
  length m = (BLAKE3_CHUNK_LEN * 2 ^ S k)%nat ->
  length (take (BLAKE3_CHUNK_LEN * 2 ^ k) m) = (BLAKE3_CHUNK_LEN * 2 ^ k)%nat /\
  length (drop (BLAKE3_CHUNK_LEN * 2 ^ k) m) = (BLAKE3_CHUNK_LEN * 2 ^ k)%nat.
Proof. intros Hm. rewrite Nat.pow_succ_r' in Hm. rewrite length_take, length_drop. lia. Qed.

Lemma chunks_pos k : (0 < BLAKE3_CHUNK_LEN * 2 ^ k)%nat.
Proof. apply Nat.mul_pos_pos; [unfold BLAKE3_CHUNK_LEN; lia|]. apply Nat.neq_0_lt_0, Nat.pow_nonzero. done. Qed.

Lemma node_halves k m c :
  length m = (BLAKE3_CHUNK_LEN * 2 ^ S k)%nat ->
  nd m c = parent_output (nd_cv (take (BLAKE3_CHUNK_LEN * 2 ^ k) m) c ++
    nd_cv (drop (BLAKE3_CHUNK_LEN * 2 ^ k) m) (c + 2 ^ Z.of_nat k)) key flags.
Proof.
  intros Hm. destruct (halves k m Hm) as [H1 H2]. pose proof (chunks_pos k).
  rewrite <- (take_drop (BLAKE3_CHUNK_LEN * 2 ^ k) m) at 1. apply node_join; [done|lia].
Qed.

Lemma hash_many_app a b n c fl s e :
  blake3_hash_many (a ++ b) n key c false fl s e = blake3_hash_many a n key c false fl s e ++ blake3_hash_many b n key c false fl s e.
Proof. induction a as [|x a IH]; [done|]. cbn [app blake3_hash_many]. by rewrite IH. Qed.

Lemma parent_blocks_app n a b :
  length a = (2 * n)%nat ->
  parent_blocks (a ++ b) = ((parent_blocks a).1 ++ (parent_blocks b).1, (parent_blocks b).2) /\ (parent_blocks a).2 = [].
Proof.
  revert a. induction n as [|n IH]; intros a Ha.
  - destruct a; [|done]. cbn [app parent_blocks fst snd]. by destruct (parent_blocks b).
  - destruct a as [|x [|y a]]; cbn [length] in Ha; [lia|lia|]. destruct (IH a) as [H1 H2]; [lia|].
    cbn [app parent_blocks]. rewrite H1. destruct (parent_blocks a) as [pa ra] eqn:Ea. cbn [fst snd app] in *. by subst.
Qed.

Lemma parents_app n a b :
  length a = (2 * n)%nat ->
  compress_parents_parallel (a ++ b) key flags = compress_parents_parallel a key flags ++ compress_parents_parallel b key flags.
Proof.
  intros Ha. unfold compress_parents_parallel. destruct (parent_blocks_app n a b Ha) as [H1 H2]. rewrite H1.
  destruct (parent_blocks a) as [pa ra], (parent_blocks b) as [pb rb]. cbn [fst snd] in *. subst ra.
  by rewrite hash_many_app, app_nil_r, app_assoc.
Qed.

(** Hashing the pairs of one level gives the level above. *)
Lemma parents_level j k m c :
  (j <= k)%nat -> length m = (BLAKE3_CHUNK_LEN * 2 ^ S k)%nat ->
  compress_parents_parallel (level (S j) (S k) m c) key flags = level j (S k) m c.
Proof.
  revert k m c. induction j as [|j IH]; intros k m c Hj Hm; destruct (halves k m Hm) as [H1 H2].
  - assert (forall m' c', level 0 k m' c' = [nd_cv m' c']) as Hl by (by intros; destruct k).
    change (level 1 (S k) m c) with (level 0 k (take (BLAKE3_CHUNK_LEN * 2 ^ k) m) c ++
      level 0 k (drop (BLAKE3_CHUNK_LEN * 2 ^ k) m) (c + 2 ^ Z.of_nat k)).
    rewrite !Hl. change (level 0 (S k) m c) with [nd_cv m c]. cbn [app]. unfold compress_parents_parallel. cbn [parent_blocks blake3_hash_many].
    unfold node_cv at 3. rewrite (node_halves k m c Hm), hash_one_parent by (by rewrite length_app; unfold node_cv; rewrite !output_cv_length).
    done.
  - destruct k as [|k]; [lia|]. change (level (S (S j)) (S (S k)) m c) with
      (level (S j) (S k) (take (BLAKE3_CHUNK_LEN * 2 ^ S k) m) c ++
       level (S j) (S k) (drop (BLAKE3_CHUNK_LEN * 2 ^ S k) m) (c + 2 ^ Z.of_nat (S k))).
    rewrite (parents_app (2 ^ j)) by (rewrite level_length by lia; done). rewrite !IH by (first [done|lia]). done.
Qed.

(** The chaining values of consecutive chunks. *)
Fixpoint chunk_cvs (n : nat) (m : bytes) (c : Z) : list bytes :=
  match n with
  | O => []
  | S n => nd_cv (take BLAKE3_CHUNK_LEN m) c :: chunk_cvs n (drop BLAKE3_CHUNK_LEN m) (c + 1)
  end.

Lemma chunk_cvs_app n n' m c :
  length m = (BLAKE3_CHUNK_LEN * (n + n'))%nat ->
  chunk_cvs (n + n') m c = chunk_cvs n (take (BLAKE3_CHUNK_LEN * n) m) c ++ chunk_cvs n' (drop (BLAKE3_CHUNK_LEN * n) m) (c + Z.of_nat n).
Proof.
  revert m c. induction n as [|n IH]; intros m c Hm; cbn [Nat.add chunk_cvs app].
  - by rewrite Nat.mul_0_r, drop_0, Z.add_0_r.
  - replace (BLAKE3_CHUNK_LEN * S n)%nat with (BLAKE3_CHUNK_LEN + BLAKE3_CHUNK_LEN * n)%nat by lia.
    rewrite take_take, Nat.min_l by lia. f_equal.
    rewrite IH by (rewrite length_drop; replace (S n + n')%nat with (1 + (n + n'))%nat in Hm by lia; rewrite Nat.mul_add_distr_l in Hm; lia).
    rewrite drop_drop, skipn_firstn_comm. replace (BLAKE3_CHUNK_LEN + BLAKE3_CHUNK_LEN * n - BLAKE3_CHUNK_LEN)%nat with (BLAKE3_CHUNK_LEN * n)%nat by lia.
    by replace (c + Z.of_nat (S n)) with (c + 1 + Z.of_nat n) by lia.
Qed.

Lemma level_chunks k m c :
  length m = (BLAKE3_CHUNK_LEN * 2 ^ k)%nat -> level k k m c = chunk_cvs (2 ^ k) m c.
Proof.
  revert m c. induction k as [|k IH]; intros m c Hm.
  - change (2 ^ 0)%nat with 1%nat in *. rewrite Nat.mul_1_r in Hm. cbn [level chunk_cvs]. by rewrite take_ge by lia.
  - destruct (halves k m Hm) as [H1 H2]. cbn [level]. rewrite !IH by done. rewrite Nat.pow_succ_r' in *.
    replace (2 * 2 ^ k)%nat with (2 ^ k + 2 ^ k)%nat by lia. rewrite chunk_cvs_app by lia. by rewrite Nat2Z.inj_pow.
Qed.

Lemma whole_chunks_cvs n fuel m c :
  length m = (BLAKE3_CHUNK_LEN * n)%nat -> (n <= fuel)%nat -> 0 <= c -> c + Z.of_nat n <= 2 ^ 64 ->
  (whole_chunks fuel m).2 = [] /\
  blake3_hash_many (whole_chunks fuel m).1 (BLAKE3_CHUNK_LEN / BLAKE3_BLOCK_LEN) key c true flags CHUNK_START CHUNK_END = chunk_cvs n m c.
Proof.
  revert fuel m c. induction n as [|n IH]; intros fuel m c Hm Hf Hc Hle.
  - assert (m = []) as -> by (apply nil_length_inv; lia). by destruct fuel.
  - destruct fuel as [|fuel]; [lia|]. cbn [whole_chunks]. rewrite (proj2 (Nat.leb_le _ _)) by lia.
    assert (n = 0%nat \/ u64 (c + 1) = c + 1) as Hu.
    { destruct n; [by left|right]. apply u64_small. unfold u64_ok. lia. }
    destruct (whole_chunks fuel (drop BLAKE3_CHUNK_LEN m)) as [cs rest] eqn:Ew. cbn [fst snd blake3_hash_many chunk_cvs].
    rewrite hash_one_chunk by (rewrite length_take; lia). destruct Hu as [->|Hu].
    + destruct (IH fuel (drop BLAKE3_CHUNK_LEN m) 0) as [H1 H2]; [rewrite length_drop; lia|lia..|]. rewrite Ew in H1, H2.
      cbn [fst snd chunk_cvs] in H1, H2. split; [done|]. destruct cs; [done|discriminate H2].
    + destruct (IH fuel (drop BLAKE3_CHUNK_LEN m) (c + 1)) as [H1 H2]; [rewrite length_drop; lia|lia..|]. rewrite Ew in H1, H2.
      cbn [fst snd] in H1, H2. split; [done|]. by rewrite Hu, H2.
Qed.

Lemma compress_chunks_level k m c :
  length m = (BLAKE3_CHUNK_LEN * 2 ^ k)%nat -> 0 <= c -> c + 2 ^ Z.of_nat k <= 2 ^ 64 ->
  compress_chunks_parallel m key c flags = level k k m c.
Proof.
  intros Hm Hc Hle. rewrite level_chunks by done. unfold compress_chunks_parallel.
  destruct (whole_chunks_cvs (2 ^ k) (length m) m c) as [H1 H2];
    [done|rewrite Hm; unfold BLAKE3_CHUNK_LEN; lia|done|by rewrite Nat2Z.inj_pow|].
  destruct (whole_chunks (length m) m) as [cs rest]. cbn [fst snd] in *. subst rest. exact H2.
Qed.

(** ** Any degree of parallelism

    The wide function stops at a level that depends on the degree; condensing
    that level gives the two nodes below the root. *)

Section wide.
Context (dj : nat) (uninit : bytes).
Abbreviation degree := (2 ^ dj)%nat.

Definition wide_level (k : nat) : nat := if (k <=? dj)%nat then k else Nat.max dj 1.

Lemma wide_level_le k : (wide_level k <= k)%nat.
Proof. unfold wide_level. destruct (k <=? dj)%nat eqn:E; [done|]. apply Nat.leb_gt in E. lia. Qed.

Lemma wide_small k m c fuel :
  length m = (BLAKE3_CHUNK_LEN * 2 ^ k)%nat -> (k <= dj)%nat -> 0 <= c -> c + 2 ^ Z.of_nat k <= 2 ^ 64 ->
  blake3_compress_subtree_wide degree uninit (S fuel) m key c flags = level k k m c.
Proof.
  intros Hm Hk Hc Hle. cbn [blake3_compress_subtree_wide]. rewrite (proj2 (Nat.leb_le _ _)); [by apply compress_chunks_level|].
  rewrite Hm, (Nat.mul_comm (2 ^ dj)). apply Nat.mul_le_mono_l, Nat.pow_le_mono_r; done.
Qed.

Lemma wide_cvs_length k :
  (dj < S k)%nat ->
  (2 ^ wide_level k)%nat =
  (if (BLAKE3_CHUNK_LEN <? BLAKE3_CHUNK_LEN * 2 ^ k)%nat && (degree =? 1)%nat then 2%nat else degree).
Proof.
  intros Hk. unfold wide_level. destruct (k <=? dj)%nat eqn:E.
  - apply Nat.leb_le in E. assert (k = dj) as -> by lia. destruct dj as [|d].
    + change (2 ^ 0)%nat with 1%nat. rewrite Nat.mul_1_r, Nat.ltb_irrefl. done.
    + rewrite (proj2 (Nat.eqb_neq (2 ^ S d) 1)); [by rewrite andb_false_r|]. rewrite Nat.pow_succ_r'.
      pose proof (Nat.pow_nonzero 2 d ltac:(lia)). lia.
  - apply Nat.leb_gt in E. destruct dj as [|d].
    + rewrite (proj2 (Nat.ltb_lt BLAKE3_CHUNK_LEN _)); [done|]. destruct k as [|k]; [lia|]. rewrite Nat.pow_succ_r'.
      pose proof (Nat.pow_nonzero 2 k ltac:(lia)). unfold BLAKE3_CHUNK_LEN. lia.
    + rewrite (proj2 (Nat.eqb_neq (2 ^ S d) 1)); [by rewrite andb_false_r, Nat.max_l by lia|]. rewrite Nat.pow_succ_r'.
      pose proof (Nat.pow_nonzero 2 d ltac:(lia)). lia.
Qed.

Lemma wide_level_eq fuel k m c :
  length m = (BLAKE3_CHUNK_LEN * 2 ^ k)%nat -> (k < fuel)%nat -> Z.of_nat (length m) < 2 ^ 64 ->
  0 <= c -> c + 2 ^ Z.of_nat k <= 2 ^ 64 ->
  blake3_compress_subtree_wide degree uninit fuel m key c flags = level (wide_level k) k m c.
Proof.
  revert k m c. induction fuel as [|fuel IH]; intros k m c Hm Hf Hs Hc Hle; [lia|].
  destruct (decide (k <= dj)%nat) as [Hk|Hk].
  { rewrite (wide_small k) by done. unfold wide_level. by rewrite (proj2 (Nat.leb_le k dj)). }
  destruct k as [|k]; [lia|]. destruct (halves k m Hm) as [H1 H2]. pose proof (chunks_pos k) as Hpos.
  cbn [blake3_compress_subtree_wide]. rewrite (proj2 (Nat.leb_gt _ _)).
  2:{ rewrite Hm, (Nat.mul_comm (2 ^ dj)). apply Nat.mul_lt_mono_pos_l; [unfold BLAKE3_CHUNK_LEN; lia|]. apply Nat.pow_lt_mono_r; lia. }
  assert (left_subtree_len (length m) = BLAKE3_CHUNK_LEN * 2 ^ k)%nat as Hleft.
  { assert (BLAKE3_CHUNK_LEN < length m)%nat as Hbig.
    { rewrite Hm, Nat.pow_succ_r'. pose proof (Nat.pow_nonzero 2 k ltac:(lia)). unfold BLAKE3_CHUNK_LEN. lia. }
    rewrite left_subtree_len_eq by done. rewrite Hm, Nat.pow_succ_r'.
    replace (BLAKE3_CHUNK_LEN * (2 * 2 ^ k))%nat with (BLAKE3_CHUNK_LEN * 2 ^ k + BLAKE3_CHUNK_LEN * 2 ^ k)%nat by lia.
    apply left_len_split; lia. }
  assert ((BLAKE3_CHUNK_LEN * 2 ^ k) / BLAKE3_CHUNK_LEN = 2 ^ k)%nat as Hdiv by (rewrite Nat.mul_comm; by apply Nat.div_mul).
  cbv zeta. rewrite Hleft, Hdiv.
  rewrite Nat2Z.inj_pow. change (Z.of_nat 2) with 2.
  assert (2 ^ Z.of_nat (S k) = 2 ^ Z.of_nat k + 2 ^ Z.of_nat k) as Hp2 by (rewrite Nat2Z.inj_succ, Z.pow_succ_r by lia; lia).
  assert (0 < 2 ^ Z.of_nat k) as Hpz by (apply Z.pow_pos_nonneg; lia).
  rewrite u64_small by (unfold u64_ok; lia).
  rewrite !(IH k) by (first [exact H1|exact H2|lia|rewrite ?length_take, ?length_drop; lia]).
  set (j := wide_level k). assert (j <= k)%nat as Hj by apply wide_level_le. cbv zeta.
  rewrite !level_length by done. rewrite <- (wide_cvs_length k) by lia. fold j. rewrite Nat.sub_diag. cbn [replicate app].
  change (level j k (take (BLAKE3_CHUNK_LEN * 2 ^ k) m) c ++ level j k (drop (BLAKE3_CHUNK_LEN * 2 ^ k) m) (c + 2 ^ Z.of_nat k))
    with (level (S j) (S k) m c).
  rewrite (take_ge (level (S j) (S k) m c) (2 ^ j + 2 ^ j)) by (rewrite level_length by lia; cbn; lia).
  assert (wide_level (S k) = Nat.max j 1) as ->.
  { unfold wide_level at 1. rewrite (proj2 (Nat.leb_gt (S k) dj)) by lia. unfold j, wide_level.
    destruct (k <=? dj)%nat eqn:E; [|lia]. apply Nat.leb_le in E. lia. }
  destruct (decide (j = 0)%nat) as [Hj0|Hj0].
  - rewrite Hj0. rewrite (proj2 (Nat.eqb_eq _ _)) by done. apply take_ge. by rewrite level_length by lia.
  - rewrite (proj2 (Nat.eqb_neq _ _)), Nat.max_l by (destruct j; [done|rewrite ?Nat.pow_succ_r'; pose proof (Nat.pow_nonzero 2 j ltac:(lia)); lia]).
    by apply parents_level.
Qed.

Lemma condense_level fuel j k m c :
  (j <= fuel)%nat -> (j <= k)%nat -> length m = (BLAKE3_CHUNK_LEN * 2 ^ S k)%nat ->
  condense fuel (level (S j) (S k) m c) key flags = level 1 (S k) m c.
Proof.
  revert fuel. induction j as [|j IH]; intros fuel Hf Hj Hm.
  - destruct fuel; [done|]. cbn [condense]. rewrite (proj2 (Nat.ltb_ge _ _)); [done|]. by rewrite level_length by lia.
  - destruct fuel as [|fuel]; [lia|]. cbn [condense]. rewrite (proj2 (Nat.ltb_lt _ _)).
    2:{ rewrite level_length by lia. rewrite !Nat.pow_succ_r'. pose proof (Nat.pow_nonzero 2 j ltac:(lia)). lia. }
    rewrite parents_level by (first [done|lia]). apply IH; [lia|lia|done].
Qed.

Lemma subtree_to_parent k m c :
  length m = (BLAKE3_CHUNK_LEN * 2 ^ S k)%nat -> Z.of_nat (length m) < 2 ^ 64 -> 0 <= c -> c + 2 ^ Z.of_nat (S k) <= 2 ^ 64 ->
  compress_subtree_to_parent_node degree uninit m key c flags =
  (nd_cv (take (BLAKE3_CHUNK_LEN * 2 ^ k) m) c, nd_cv (drop (BLAKE3_CHUNK_LEN * 2 ^ k) m) (c + 2 ^ Z.of_nat k)).
Proof.
  intros Hm Hs Hc Hle. unfold compress_subtree_to_parent_node.
  rewrite (wide_level_eq (length m) (S k)); [|done| |done|done|done].
  2:{ rewrite Hm. assert (S k < 2 ^ S k)%nat by (apply Nat.pow_gt_lin_r; lia). unfold BLAKE3_CHUNK_LEN. lia. }
  assert (wide_level (S k) <> 0)%nat as Hw by (unfold wide_level; destruct (_ <=? _)%nat; lia).
  pose proof (wide_level_le (S k)) as Hwl. destruct (wide_level (S k)) as [|j]; [done|].
  rewrite condense_level; [|rewrite level_length by lia; pose proof (Nat.pow_gt_lin_r 2 (S j)); lia|lia|done].
  assert (forall m' c', level 0 k m' c' = [nd_cv m' c']) as Hl by (by intros; destruct k).
  change (level 1 (S k) m c) with (level 0 k (take (BLAKE3_CHUNK_LEN * 2 ^ k) m) c ++
    level 0 k (drop (BLAKE3_CHUNK_LEN * 2 ^ k) m) (c + 2 ^ Z.of_nat k)).
  by rewrite !Hl.
Qed.
End wide.

(** ** The stack of subtrees *)

Lemma popcnt_double x : 0 <= x -> popcnt (2 * x) = popcnt x.
Proof. by destruct x. Qed.
Lemma popcnt_odd x : 0 <= x -> popcnt (1 + 2 * x) = S (popcnt x).
Proof. by destruct x. Qed.
Lemma popcnt_shift k x : 0 <= x -> popcnt (2 ^ Z.of_nat k * x) = popcnt x.
Proof.
  intros Hx. induction k as [|k IH]; [by rewrite Z.mul_1_l|].
  rewrite Nat2Z.inj_succ, Z.pow_succ_r, <- Z.mul_assoc by lia. rewrite popcnt_double; [done|].
  apply Z.mul_nonneg_nonneg; [apply Z.pow_nonneg; lia|done].
Qed.

(** The number of chunks under subtrees of [2 ^ k] chunks each. *)
Definition chunks_of (ks : list nat) : Z := foldr (fun k n => 2 ^ Z.of_nat k + n) 0 ks.

Lemma chunks_of_nonneg ks : 0 <= chunks_of ks.
Proof. induction ks as [|k ks IH]; cbn [chunks_of foldr]; [done|]. fold (chunks_of ks). pose proof (Z.pow_nonneg 2 (Z.of_nat k) ltac:(lia)). lia. Qed.

Lemma chunks_of_multiple k ks : Forall (le k) ks -> exists q, 0 <= q /\ chunks_of ks = 2 ^ Z.of_nat k * q.
Proof.
  induction 1 as [|k' ks Hk _ (q & Hq & IH)]; cbn [chunks_of foldr]; [by exists 0; rewrite Z.mul_0_r|].
  exists (2 ^ (Z.of_nat k' - Z.of_nat k) + q). split; [pose proof (Z.pow_nonneg 2 (Z.of_nat k' - Z.of_nat k) ltac:(lia)); lia|].
  fold (chunks_of ks). rewrite IH, Z.mul_add_distr_l, <- Z.pow_add_r by lia. do 2 f_equal. lia.
Qed.

Abbreviation incr := (StronglySorted lt).

(** The subtrees below the top grow; the top one may be as large as the next. *)
Definition loose (ks : list nat) : Prop :=
  match ks with [] => True | k :: ks => incr ks /\ Forall (le k) ks end.

Lemma incr_inv k ks : incr (k :: ks) -> incr ks /\ Forall (le (S k)) ks.
Proof. intros H. apply StronglySorted_inv in H as [H1 H2]. split; [done|]. by apply Forall_forall; rewrite List.Forall_forall in H2; intros x Hx; apply H2, list_elem_of_In. Qed.

Lemma incr_cons k ks : incr ks -> Forall (le (S k)) ks -> incr (k :: ks).
Proof. intros H1 H2. constructor; [done|]. rewrite List.Forall_forall. rewrite Forall_forall in H2. intros x Hx. by apply H2, list_elem_of_In. Qed.

Lemma incr_loose ks : incr ks -> loose ks.
Proof.
  destruct ks as [|k ks]; [done|]. intros [H1 H2]%incr_inv. split; [done|]. eapply Forall_impl; [exact H2|]. intros; lia.
Qed.

Lemma popcnt_incr ks : incr ks -> popcnt (chunks_of ks) = length ks.
Proof.
  induction ks as [|k ks IH]; [done|]. intros [H1 H2]%incr_inv. cbn [chunks_of foldr length]. fold (chunks_of ks).
  destruct (chunks_of_multiple (S k) ks H2) as (q & Hq & Hs). rewrite <- (IH H1), Hs.
  rewrite (popcnt_shift (S k)) by done. rewrite Nat2Z.inj_succ, Z.pow_succ_r by lia.
  replace (2 ^ Z.of_nat k + 2 * 2 ^ Z.of_nat k * q) with (2 ^ Z.of_nat k * (1 + 2 * q)) by ring.
  rewrite popcnt_shift by lia. by apply popcnt_odd.
Qed.

(** Two equal subtrees at the top count as one of twice the size. *)
Lemma chunks_of_merge k ks : chunks_of (k :: k :: ks) = chunks_of (S k :: ks).
Proof. cbn [chunks_of foldr]. rewrite Nat2Z.inj_succ, Z.pow_succ_r by lia. lia. Qed.

Lemma loose_cases k k' ks : loose (k :: k' :: ks) -> incr (k :: k' :: ks) \/ k' = k /\ loose (S k :: ks).
Proof.
  intros [H1 H2]. apply Forall_cons in H2 as [Hk H2]. destruct (decide (k = k')) as [<-|Hne].
  - right. split; [done|]. apply incr_inv in H1. done.
  - left. apply incr_cons; [done|]. constructor; [lia|]. apply incr_inv in H1 as [_ H1]. eapply Forall_impl; [exact H1|]. intros; lia.
Qed.

Lemma popcnt_loose n ks : length ks = n -> loose ks -> (popcnt (chunks_of ks) <= n)%nat.
Proof.
  revert ks. induction n as [|n IH]; intros ks Hn Hl; [by destruct ks|]. destruct ks as [|k [|k' ks]]; [done| |].
  - rewrite popcnt_incr by (by repeat constructor). lia.
  - destruct (loose_cases _ _ _ Hl) as [Hi|[-> Hl']]; [rewrite popcnt_incr by done; lia|].
    rewrite chunks_of_merge. etrans; [apply (IH (S k :: ks)); [by injection Hn as <-|done]|lia].
Qed.

Lemma incr_aligned k ks : incr ks -> (2 ^ Z.of_nat k | chunks_of ks) -> Forall (le k) ks.
Proof.
  intros Hi Hd. destruct ks as [|k0 ks]; [constructor|]. apply incr_inv in Hi as [H1 H2].
  destruct (decide (k <= k0)%nat) as [Hle|Hgt]; [constructor; [done|]; eapply Forall_impl; [exact H2|intros; lia]|].
  exfalso. destruct (chunks_of_multiple (S k0) ks H2) as (q & _ & Hs). cbn [chunks_of foldr] in Hd. fold (chunks_of ks) in Hd.
  assert ((2 * 2 ^ Z.of_nat k0 | 2 ^ Z.of_nat k0 * (1 + 2 * q))) as [z Hz].
  { etrans; [|replace (2 ^ Z.of_nat k0 * (1 + 2 * q)) with (2 ^ Z.of_nat k0 + 2 ^ Z.of_nat (S k0) * q); [rewrite <- Hs; exact Hd|]].
    - exists (2 ^ (Z.of_nat k - Z.of_nat (S k0))). rewrite <- Z.pow_succ_r, <- Z.pow_add_r by lia. f_equal. lia.
    - rewrite Nat2Z.inj_succ, Z.pow_succ_r by lia. ring. }
  assert (2 ^ Z.of_nat k0 <> 0) by (apply Z.pow_nonzero; lia).
  assert (1 + 2 * q = 2 * z) by (apply (Z.mul_reg_l _ _ (2 ^ Z.of_nat k0)); [done|rewrite Hz; ring]). lia.
Qed.

(** The stack holds the chaining values of consecutive subtrees of [P], whose
    chunks number [c]; the top one first. *)
Inductive stacked : list nat -> list bytes -> bytes -> Z -> Prop :=
| stacked_nil : stacked [] [] [] 0
| stacked_push ks vs P c k p :
    stacked ks vs P c -> length p = (BLAKE3_CHUNK_LEN * 2 ^ k)%nat ->
    stacked (k :: ks) (nd_cv p c :: vs) (P ++ p) (c + 2 ^ Z.of_nat k).

Lemma stacked_facts ks vs P c :
  stacked ks vs P c -> c = chunks_of ks /\ length vs = length ks /\ Z.of_nat (length P) = Z.of_nat BLAKE3_CHUNK_LEN * c.
Proof.
  induction 1 as [|ks vs P c k p _ (-> & Hl & HP) Hp]; [done|]. split; [cbn [chunks_of foldr]; fold (chunks_of ks); lia|].
  split; [by cbn; rewrite Hl|]. rewrite length_app, Hp, Nat2Z.inj_add, HP, Nat2Z.inj_mul, Nat2Z.inj_pow. lia.
Qed.

Lemma stacked_merge k ks r l vs P c :
  stacked (k :: k :: ks) (r :: l :: vs) P c ->
  stacked (S k :: ks) (output_chaining_value (parent_output (l ++ r) key flags) :: vs) P c.
Proof.
  intros H. inversion H as [|ks1 vs1 P1 c1 k1 p1 H1 Hp1]; subst. inversion H1 as [|ks2 vs2 P2 c2 k2 p2 H2 Hp2]; subst.
  pose proof (chunks_pos k). rewrite <- (node_join k p2 p1 c2) by (first [done|lia]).
  replace (c2 + 2 ^ Z.of_nat k + 2 ^ Z.of_nat k) with (c2 + 2 ^ Z.of_nat (S k)) by (rewrite Nat2Z.inj_succ, Z.pow_succ_r by lia; lia).
  rewrite <- app_assoc. fold (node_cv key flags (p2 ++ p1) c2).
  apply (stacked_push ks vs P2 c2 (S k) (p2 ++ p1)); [done|]. rewrite length_app, Hp1, Hp2, Nat.pow_succ_r'. lia.
Qed.

Lemma merge_incr fuel ks vs P c : stacked ks vs P c -> incr ks -> merge_stack fuel (popcnt c) key flags vs = vs.
Proof.
  intros Hs Hi. destruct (stacked_facts _ _ _ _ Hs) as (-> & Hl & _). rewrite popcnt_incr by done.
  destruct fuel as [|fuel]; [done|]. destruct vs as [|r [|l vs]]; [done..|]. cbn [merge_stack].
  by rewrite Hl, Nat.ltb_irrefl.
Qed.

(** The merge loop ends in a stack without equal subtrees. *)
Lemma merge_stack_ok fuel ks vs P c :
  (length vs <= fuel)%nat -> stacked ks vs P c -> loose ks ->
  exists ks', stacked ks' (merge_stack fuel (popcnt c) key flags vs) P c /\ incr ks'.
Proof.
  revert ks vs. induction fuel as [|fuel IH]; intros ks vs Hf Hs Hl; destruct (stacked_facts _ _ _ _ Hs) as (Hc & Hlen & _).
  { exists ks. split; [done|]. destruct vs; [|cbn in Hf; lia]. destruct ks; [constructor|done]. }
  destruct vs as [|r [|l vs]].
  - exists ks. split; [done|]. destruct ks; [constructor|done].
  - exists ks. split; [done|]. destruct ks as [|k [|]]; [done| |done]. by repeat constructor.
  - destruct ks as [|k [|k' ks]]; [done..|]. destruct (loose_cases _ _ _ Hl) as [Hi|[-> Hl']].
    { exists (k :: k' :: ks). split; [|done]. by rewrite (merge_incr _ _ _ _ _ Hs Hi). }
    cbn [merge_stack]. rewrite (proj2 (Nat.ltb_lt _ _)).
    + destruct (IH (S k :: ks) (output_chaining_value (parent_output (l ++ r) key flags) :: vs)) as (ks' & H1 & H2);
        [cbn in *; lia|by apply stacked_merge|done|]. by exists ks'.
    + rewrite Hc, chunks_of_merge. pose proof (popcnt_loose _ (S k :: ks) eq_refl Hl'). cbn [length] in *. lia.
Qed.

(** ** The hasher *)

Definition fresh_chunk (c : Z) : blake3_chunk_state := with_counter c (chunk_state_init key flags).

Lemma fresh_unbuffered c : unbuffered (fresh_chunk c).
Proof. done. Qed.

(** Between chunks: the subtrees of [P] are on the stack. *)
Record between (self : blake3_hasher) (ks : list nat) (P : bytes) (c : Z) : Prop := {
  bt_key : hs_key self = key;
  bt_chunk : hs_chunk self = fresh_chunk c;
  bt_stack : stacked ks (hs_cv_stack self) P c;
  bt_loose : loose ks
}.

(** The hasher after the message [M]: whole subtrees on the stack, the rest in
    the chunk state. *)
Definition absorbed (self : blake3_hasher) (M : bytes) : Prop :=
  exists ks P c r, M = P ++ r /\ hs_key self = key /\ stacked ks (hs_cv_stack self) P c /\
    hs_chunk self = chunk_state_update (fresh_chunk c) r /\ (length r <= BLAKE3_CHUNK_LEN)%nat /\
    if decide (r = []) then loose ks /\ (ks = [] \/ (2 <= length ks)%nat) else incr ks.

Lemma absorbed_init : absorbed (hasher_init_base key flags) [].
Proof. exists [], [], 0, []. rewrite decide_True by done. repeat split; [constructor|cbn; lia|by left]. Qed.

Lemma push_ok self ks P c p k :
  hs_key self = key -> cs_flags (hs_chunk self) = flags -> stacked ks (hs_cv_stack self) P c -> loose ks ->
  length p = (BLAKE3_CHUNK_LEN * 2 ^ k)%nat -> (2 ^ Z.of_nat k | c) ->
  exists ks1, incr ks1 /\ Forall (le k) ks1 /\
    stacked (k :: ks1) (hs_cv_stack (hasher_push_cv self (nd_cv p c) c)) (P ++ p) (c + 2 ^ Z.of_nat k) /\
    hs_key (hasher_push_cv self (nd_cv p c) c) = key /\ hs_chunk (hasher_push_cv self (nd_cv p c) c) = hs_chunk self.
Proof.
  intros Hk Hfl Hs Hl Hp Hd. unfold hasher_push_cv, hasher_merge_cv_stack. cbn [with_stack hs_cv_stack hs_key hs_chunk].
  rewrite Hk, Hfl.
  destruct (merge_stack_ok (length (hs_cv_stack self)) ks (hs_cv_stack self) P c) as (ks1 & H1 & Hi); [lia|done|done|].
  exists ks1. split; [done|]. split; [|by split; [apply stacked_push|]].
  apply incr_aligned; [done|]. by destruct (stacked_facts _ _ _ _ H1) as (<- & _ & _).
Qed.

Section updates.
Context (dj : nat) (uninit : bytes).
Abbreviation degree := (2 ^ dj)%nat.
Abbreviation update := (blake3_hasher_update degree uninit).

Lemma shrink_ok fuel e x :
  0 <= x -> (Z.of_nat BLAKE3_CHUNK_LEN | x) -> (10 <= e <= fuel + 10)%nat ->
  exists k, (k + 10 <= e)%nat /\ shrink_subtree fuel (2 ^ Z.of_nat e) x = Z.of_nat BLAKE3_CHUNK_LEN * 2 ^ Z.of_nat k /\
    (Z.of_nat BLAKE3_CHUNK_LEN * 2 ^ Z.of_nat k | x).
Proof.
  intros Hx Hd. change (Z.of_nat BLAKE3_CHUNK_LEN) with (2 ^ 10) in *.
  assert (forall k, 2 ^ 10 * 2 ^ Z.of_nat k = 2 ^ Z.of_nat (k + 10)) as Hpow
    by (intros k; rewrite <- Z.pow_add_r by lia; f_equal; lia).
  revert e. induction fuel as [|fuel IH]; intros e He.
  - assert (e = 10%nat) as -> by lia. exists 0%nat. by rewrite Hpow.
  - cbn [shrink_subtree]. replace (2 ^ Z.of_nat e - 1) with (Z.ones (Z.of_nat e)) by (rewrite Z.ones_equiv; lia).
    rewrite Z.land_comm, Z.land_ones by lia.
    destruct (x mod 2 ^ Z.of_nat e =? 0) eqn:E.
    + apply Z.eqb_eq in E. exists (e - 10)%nat. rewrite Hpow. replace (e - 10 + 10)%nat with e by lia.
      split; [lia|]. split; [done|]. apply Z.mod_divide; [apply Z.pow_nonzero; lia|done].
    + apply Z.eqb_neq in E. destruct (decide (e = 10%nat)) as [->|Hne].
      { destruct E. apply Z.mod_divide; [done|exact Hd]. }
      destruct e as [|e]; [lia|]. destruct (IH e) as (k & H1 & H2 & H3); [lia|]. exists k. split; [lia|]. split; [|done].
      rewrite <- H2. f_equal. rewrite Nat2Z.inj_succ, Z.pow_succ_r, Z.mul_comm by lia. by apply Z.div_mul.
Qed.

(** A pair of subtrees of the same size. *)
Lemma push_pair self ks P c p k :
  hs_key self = key -> cs_flags (hs_chunk self) = flags -> stacked ks (hs_cv_stack self) P c -> loose ks ->
  length p = (BLAKE3_CHUNK_LEN * 2 ^ S k)%nat -> (2 ^ Z.of_nat (S k) | c) ->
  let l := nd_cv (take (BLAKE3_CHUNK_LEN * 2 ^ k) p) c in
  let r := nd_cv (drop (BLAKE3_CHUNK_LEN * 2 ^ k) p) (c + 2 ^ Z.of_nat k) in
  let self' := hasher_push_cv (hasher_push_cv self l c) r (c + 2 ^ Z.of_nat k) in
  exists ks', (2 <= length ks')%nat /\ loose ks' /\ stacked ks' (hs_cv_stack self') (P ++ p) (c + 2 ^ Z.of_nat (S k)) /\
    hs_key self' = key /\ hs_chunk self' = hs_chunk self.
Proof.
  intros Hk Hfl Hs Hl Hp Hd l r self'. destruct (halves k p Hp) as [H1 H2].
  assert (2 ^ Z.of_nat (S k) = 2 * 2 ^ Z.of_nat k) as Hpow by (rewrite Nat2Z.inj_succ, Z.pow_succ_r by lia; lia).
  assert ((2 ^ Z.of_nat k | c)) as Hd1 by (etrans; [|exact Hd]; exists 2; lia).
  assert (0 < 2 ^ Z.of_nat k) as Hpos by (apply Z.pow_pos_nonneg; lia).
  destruct (push_ok self ks P c _ k Hk Hfl Hs Hl H1 Hd1) as (ks1 & Hi1 & _ & Hs1 & Hk1 & Hc1). fold l in Hs1, Hk1, Hc1.
  pose proof (stacked_facts _ _ _ _ Hs1) as (Hsum1 & _ & _). cbn [chunks_of foldr] in Hsum1. fold (chunks_of ks1) in Hsum1.
  assert (Forall (le (S k)) ks1) as Hal by (apply incr_aligned; [done|]; by replace (chunks_of ks1) with c by lia).
  destruct (push_ok (hasher_push_cv self l c) (k :: ks1) (P ++ take (BLAKE3_CHUNK_LEN * 2 ^ k) p) (c + 2 ^ Z.of_nat k)
    (drop (BLAKE3_CHUNK_LEN * 2 ^ k) p) k) as (ks2 & Hi2 & Ha2 & Hs2 & Hk2 & Hc2);
    [done|by rewrite Hc1|done|by apply incr_loose, incr_cons|done|apply Z.divide_add_r; [done|reflexivity]|].
  fold r in Hs2, Hk2, Hc2. fold self' in Hs2, Hk2, Hc2. exists (k :: ks2).
  pose proof (stacked_facts _ _ _ _ Hs2) as (Hsum2 & _ & _). cbn [chunks_of foldr] in Hsum2. fold (chunks_of ks2) in Hsum2.
  split; [|split; [done|split; [|by rewrite Hc2, Hc1]]].
  - destruct ks2 as [|x ks2]; cbn [length]; [|lia]. cbn in Hsum2. destruct (stacked_facts _ _ _ _ Hs) as (Hc0 & _ & _).
    pose proof (chunks_of_nonneg ks). lia.
  - rewrite <- app_assoc, take_drop in Hs2. by replace (c + 2 ^ Z.of_nat (S k)) with (c + 2 ^ Z.of_nat k + 2 ^ Z.of_nat k) by lia.
Qed.

(** One round of the loop over subtrees. *)
Lemma update_subtrees_step fuel self ks P c input :
  between self ks P c -> (BLAKE3_CHUNK_LEN < length input)%nat -> zlen (P ++ input) < 2 ^ 64 ->
  exists self' ks' n c', (BLAKE3_CHUNK_LEN <= n <= length input)%nat /\
    (n = BLAKE3_CHUNK_LEN \/ (2 <= length ks')%nat) /\ between self' ks' (P ++ take n input) c' /\
    update_subtrees degree uninit (S fuel) self input = update_subtrees degree uninit fuel self' (drop n input).
Proof.
  intros [Hk Hc Hs Hl] Hin Hlt. cbn [update_subtrees]. rewrite (proj2 (Nat.ltb_lt _ _)) by done.
  rewrite Hc, Hk. cbn [fresh_chunk with_counter chunk_state_init cs_chunk_counter cs_flags].
  destruct (stacked_facts _ _ _ _ Hs) as (Hsum & _ & HP). pose proof (chunks_of_nonneg ks) as Hc0. rewrite <- Hsum in Hc0.
  unfold zlen in *. rewrite length_app, Nat2Z.inj_add in Hlt.
  rewrite (u64_small (c * _)) by (unfold u64_ok; lia). rewrite round_down_power by lia.
  rewrite Nat2Z.inj_pow. change (Z.of_nat 2) with 2.
  destruct (Nat.log2_spec (length input)) as [Hlog1 Hlog2]; [lia|]. set (e := Nat.log2 (length input)) in *.
  assert (10 <= e)%nat as He.
  { apply Nat.log2_le_pow2; [lia|]. change (2 ^ 10)%nat with BLAKE3_CHUNK_LEN. lia. }
  assert (e < 64)%nat as He64.
  { apply Nat.log2_lt_pow2; [lia|]. apply Nat2Z.inj_lt. rewrite Nat2Z.inj_pow. change (Z.of_nat 2 ^ Z.of_nat 64) with (2 ^ 64). lia. }
  destruct (shrink_ok 64 e (c * Z.of_nat BLAKE3_CHUNK_LEN)) as (k & Hke & -> & Hdiv); [lia|by exists c|lia|].
  change (Z.of_nat BLAKE3_CHUNK_LEN) with (2 ^ 10) in *. set (n := (BLAKE3_CHUNK_LEN * 2 ^ k)%nat).
  assert (2 ^ 10 * 2 ^ Z.of_nat k = Z.of_nat n) as Hn by (unfold n; rewrite Nat2Z.inj_mul, Nat2Z.inj_pow; done).
  assert (2 ^ 10 * 2 ^ Z.of_nat k / 2 ^ 10 = 2 ^ Z.of_nat k) as -> by (rewrite Z.mul_comm; by apply Z.div_mul).
  rewrite Hn, Nat2Z.id.
  assert (n <= length input)%nat as Hnl.
  { etrans; [|exact Hlog1]. unfold n. change BLAKE3_CHUNK_LEN with (2 ^ 10)%nat. rewrite <- Nat.pow_add_r. apply Nat.pow_le_mono_r; lia. }
  assert (length (take n input) = n) as Htk by (rewrite length_take; lia).
  assert (0 < 2 ^ Z.of_nat k) as Hpos by (apply Z.pow_pos_nonneg; lia).
  assert ((2 ^ Z.of_nat k | c)) as Hd by (apply (Z.mul_divide_cancel_r _ _ (2 ^ 10)); [done|by rewrite Z.mul_comm]).
  assert (c + 2 ^ Z.of_nat k < 2 ^ 54) as Hsmall by (apply Nat2Z.inj_le in Hnl; lia).
  destruct k as [|k].
  - assert (n = BLAKE3_CHUNK_LEN) as Hn0 by (unfold n; change (2 ^ 0)%nat with 1%nat; lia).
    destruct (push_ok self ks P c (take n input) 0 Hk) as (ks1 & Hi1 & Ha1 & Hs1 & Hk1 & Hc1); [by rewrite Hc|done|done|done|done|].
    eexists _, (0%nat :: ks1), n, (c + 1). split; [split; [by rewrite Hn0|done]|]. split; [by left|].
    split; [|rewrite (proj2 (Z.leb_le _ _)) by (rewrite <- Hn; lia); rewrite chunk_cv_node by (by rewrite Htk, Hn0);
      rewrite u64_small by (unfold u64_ok; lia); reflexivity].
    constructor; cbn [with_chunk hs_key hs_chunk hs_cv_stack]; [done| |done|done]. by rewrite Hc1, Hc.
  - destruct (push_pair self ks P c (take n input) k Hk) as (ks' & Hl' & Hlo & Hs' & Hk' & Hc'); [by rewrite Hc|done|done|done|done|].
    eexists _, ks', n, (c + 2 ^ Z.of_nat (S k)). pose proof (Nat.pow_nonzero 2 (S k) ltac:(lia)).
    split; [split; [unfold n, BLAKE3_CHUNK_LEN in *; lia|done]|]. split; [by right|].
    assert (2 ^ Z.of_nat (S k) = 2 ^ Z.of_nat k * 2) as Hpow by (rewrite Nat2Z.inj_succ, Z.pow_succ_r by lia; lia).
    split; [|rewrite (proj2 (Z.leb_gt _ _)) by (rewrite <- Hn; lia);
      rewrite (subtree_to_parent dj uninit k (take n input) c) by (rewrite ?Htk; first [done|lia]);
      rewrite Hpow, Z.div_mul by done; rewrite <- Hpow, !u64_small by (unfold u64_ok; lia); reflexivity].
    constructor; cbn [with_chunk hs_key hs_chunk hs_cv_stack]; [done| |done|done]. by rewrite Hc', Hc.
Qed.

Lemma update_subtrees_ok fuel self ks P c input :
  between self ks P c -> (length input <= fuel)%nat -> zlen (P ++ input) < 2 ^ 64 ->
  exists self' ks' P' c' rest, update_subtrees degree uninit fuel self input = (self', rest) /\
    P ++ input = P' ++ rest /\ between self' ks' P' c' /\ (length rest <= BLAKE3_CHUNK_LEN)%nat /\
    (input <> [] \/ (2 <= length ks)%nat -> rest = [] -> (2 <= length ks')%nat).
Proof.
  revert self ks P c input. induction fuel as [|fuel IH]; intros self ks P c input Hb Hf Hlt.
  { assert (input = []) as -> by (apply nil_length_inv; lia). exists self, ks, P, c, []. split; [done|]. split; [done|].
    split; [done|]. split; [cbn; lia|]. intros [H|H]; done. }
  destruct (decide (BLAKE3_CHUNK_LEN < length input)%nat) as [Hin|Hin].
  - destruct (update_subtrees_step fuel self ks P c input Hb Hin Hlt) as (self1 & ks1 & n & c1 & Hn & Hl1 & Hb1 & ->).
    assert ((P ++ take n input) ++ drop n input = P ++ input) as Hcat by (by rewrite <- app_assoc, take_drop).
    destruct (IH self1 ks1 (P ++ take n input) c1 (drop n input)) as (self' & ks' & P' & c' & rest & Hrun & HP & Hb' & Hr & Hl');
      [done|rewrite length_drop; unfold BLAKE3_CHUNK_LEN in *; lia|by rewrite Hcat|].
    exists self', ks', P', c', rest. split; [done|]. split; [by rewrite <- HP, Hcat|]. split; [done|]. split; [done|].
    intros _. apply Hl'. destruct Hl1 as [Hl1|Hl1]; [left|by right]. intros Hd%(f_equal length). rewrite length_drop in Hd. cbn in Hd. lia.
  - exists self, ks, P, c, input. cbn [update_subtrees]. rewrite (proj2 (Nat.ltb_ge _ _)) by lia. split; [done|]. split; [done|].
    split; [done|]. split; [lia|]. intros [H|H]; done.
Qed.

Lemma update_rest_ok self ks P c input :
  between self ks P c -> input <> [] -> zlen (P ++ input) < 2 ^ 64 -> absorbed (update_rest degree uninit self input) (P ++ input).
Proof.
  intros Hb Hne Hlt. unfold update_rest.
  destruct (update_subtrees_ok (length input) self ks P c input Hb (le_n _) Hlt) as (self' & ks' & P' & c' & rest & -> & HP & [Hk Hc Hs Hl] & Hr & Hl').
  rewrite HP. destruct (decide (rest = [])) as [->|Hrest].
  - cbn [length Nat.ltb Nat.leb]. exists ks', P', c', []. rewrite decide_True by done. do 4 (split; [done|]). split; [cbn; lia|]. split; [done|].
    right. apply Hl'; [by left|done].
  - rewrite (proj2 (Nat.ltb_lt 0 _)) by (destruct rest; [done|cbn; lia]).
    destruct (update_fields (fresh_chunk c') rest (fresh_unbuffered _)) as (_ & Hf & Hcc).
    unfold hasher_merge_cv_stack, with_chunk. cbn [hs_key hs_chunk hs_cv_stack]. rewrite Hk, Hc, Hf, Hcc.
    change (cs_flags (fresh_chunk c')) with flags. change (cs_chunk_counter (fresh_chunk c')) with c'.
    destruct (merge_stack_ok (length (hs_cv_stack self')) ks' (hs_cv_stack self') P' c') as (ks1 & H1 & Hi); [lia|done|done|].
    exists ks1, P', c', rest. by rewrite decide_False by done.
Qed.

(** An update absorbs its input. *)
Lemma update_ok self M x : absorbed self M -> zlen (M ++ x) < 2 ^ 64 -> absorbed (update self x) (M ++ x).
Proof.
  intros (ks & P & c & r & -> & Hk & Hs & Hc & Hr & Hks) Hlt. unfold blake3_hasher_update.
  destruct (decide (x = [])) as [->|Hx]; [rewrite app_nil_r; by exists ks, P, c, r|].
  assert (0 < length x)%nat as Hx0 by (destruct x; [done|cbn; lia]). rewrite (proj2 (Nat.eqb_neq (length x) 0)) by lia.
  destruct (update_fields (fresh_chunk c) r (fresh_unbuffered _)) as (Hlen & Hf & Hcc). rewrite Nat.mul_0_r, Nat.add_0_l in Hlen.
  rewrite Hc, Hlen. destruct (decide (r = [])) as [->|Hne].
  { cbn [length Nat.ltb Nat.leb]. rewrite app_nil_r in *. eapply update_rest_ok; [constructor; [done| |exact Hs|apply Hks]|done|done].
    rewrite Hc. by rewrite (update_small _ []) by (first [done|cbn; lia]). }
  assert (0 < length r)%nat as Hr0 by (destruct r; [done|cbn; lia]). rewrite (proj2 (Nat.ltb_lt 0 (length r))) by done.
  set (n := if (length x <? BLAKE3_CHUNK_LEN - length r)%nat then _ else _). cbv zeta.
  assert (n = Nat.min (length x) (BLAKE3_CHUNK_LEN - length r))%nat as Hn.
  { unfold n. destruct (_ <? _)%nat eqn:E; [apply Nat.ltb_lt in E|apply Nat.ltb_ge in E]; lia. }
  rewrite update_app by done. unfold with_chunk. cbn [hs_key hs_chunk hs_cv_stack].
  destruct (decide (length x <= n)%nat) as [Hall|Hmore].
  { rewrite drop_ge, take_ge by done. cbn [length Nat.ltb Nat.leb]. exists ks, P, c, (r ++ x).
    rewrite decide_False by (by destruct r). split; [by rewrite app_assoc|]. do 3 (split; [done|]). split; [rewrite length_app; lia|done]. }
  rewrite (proj2 (Nat.ltb_lt 0 (length (drop n x)))) by (rewrite length_drop; lia).
  set (r' := r ++ take n x). assert (length r' = BLAKE3_CHUNK_LEN) as Hr' by (unfold r'; rewrite length_app, length_take; lia).
  destruct (update_fields (fresh_chunk c) r' (fresh_unbuffered _)) as (_ & Hf' & Hcc'). rewrite Hcc'.
  change (cs_chunk_counter (fresh_chunk c)) with c. set (self1 := Hasher (hs_key self) _ _).
  assert (output_chaining_value (chunk_state_output (chunk_state_update (fresh_chunk c) r')) = nd_cv r' c) as ->.
  { unfold node_cv. rewrite node_small by lia. by rewrite update_output. }
  destruct (push_ok self1 ks P c r' 0) as (ks1 & Hi1 & Ha1 & Hs1 & Hk1 & Hc1);
    [done|done|done|by apply incr_loose|change (2 ^ 0)%nat with 1%nat; lia|by apply Z.divide_1_l|].
  destruct (stacked_facts _ _ _ _ Hs) as (Hsum & _ & HP). pose proof (chunks_of_nonneg ks) as Hc0. rewrite <- Hsum in Hc0.
  assert (c + 1 < 2 ^ 54) as Hsmall.
  { unfold zlen in Hlt. rewrite !length_app, !Nat2Z.inj_add in Hlt. change (Z.of_nat BLAKE3_CHUNK_LEN) with 1024 in *.
    apply (f_equal Z.of_nat) in Hr'. unfold r' in Hr'. rewrite length_app, length_take in Hr'. change (Z.of_nat BLAKE3_CHUNK_LEN) with 1024 in Hr'. lia. }
  assert ((P ++ r) ++ x = (P ++ r') ++ drop n x) as -> by (unfold r'; by rewrite <- !app_assoc, take_drop).
  eapply (update_rest_ok _ (0%nat :: ks1)); [|intros Hd%(f_equal length); rewrite length_drop in Hd; cbn in Hd; lia|].
  - constructor; cbn [hs_key hs_chunk hs_cv_stack]; [done| |exact Hs1|done].
    rewrite Hk1, Hc1. unfold chunk_state_reset, self1. cbn [hs_chunk]. rewrite Hf', u64_small by (unfold u64_ok; lia). done.
  - unfold r'. rewrite <- !app_assoc, take_drop, app_assoc. done.
Qed.
End updates.

(** ** The root *)

Lemma roll_up_ok ks vs P c x :
  stacked ks vs P c -> incr ks -> (0 < length x)%nat ->
  Forall (fun k => length x <= BLAKE3_CHUNK_LEN * 2 ^ k)%nat (take 1 ks) ->
  roll_up (nd x c) vs key flags = nd (P ++ x) 0.
Proof.
  intros Hs. revert x. induction Hs as [|ks vs P c k p Hs IH Hp]; intros x Hi Hx Hle; [done|].
  cbn [take] in Hle. apply Forall_cons in Hle as [Hle _]. apply incr_inv in Hi as [Hi Hk]. cbn [roll_up].
  fold (node_cv key flags x (c + 2 ^ Z.of_nat k)). rewrite <- (node_join k p x c) by (first [done|lia]).
  rewrite <- app_assoc. apply IH; [done|rewrite length_app; lia|]. destruct ks as [|k1 ks]; [constructor|].
  apply Forall_cons in Hk as [Hk _]. constructor; [|constructor]. rewrite length_app, Hp.
  assert (2 ^ S k <= 2 ^ k1)%nat as Hpow by (apply Nat.pow_le_mono_r; lia). rewrite Nat.pow_succ_r' in Hpow.
  transitivity (BLAKE3_CHUNK_LEN * (2 * 2 ^ k))%nat; [lia|by apply Nat.mul_le_mono_l].
Qed.

Lemma root_output_ok uninit self M : absorbed self M -> root_output uninit self = nd M 0.
Proof.
  intros (ks & P & c & r & -> & Hk & Hs & Hc & Hr & Hks). unfold root_output. rewrite Hk.
  destruct (update_fields (fresh_chunk c) r (fresh_unbuffered _)) as (Hlen & Hf & _). rewrite Nat.mul_0_r, Nat.add_0_l in Hlen.
  assert (chunk_state_output (hs_chunk self) = nd r c) as Hout by (rewrite Hc, node_small by done; by rewrite update_output).
  rewrite Hout, Hc, Hlen, Hf. change (cs_flags (fresh_chunk c)) with flags.
  destruct (hs_cv_stack self) as [|v vs] eqn:Ev; [by inversion Hs; subst|].
  destruct (decide (r = [])) as [->|Hne].
  - cbn [length Nat.ltb Nat.leb]. destruct Hks as [Hl [->|H2]]; [by inversion Hs|].
    inversion Hs as [|ks1 vs1 P1 c1 k p Hs1 Hp]; subst. inversion Hs1 as [|ks2 vs2 P2 c2 k2 p2 Hs2 Hp2]; subst; [cbn in H2; lia|].
    destruct Hl as [Hi Ha]. apply Forall_cons in Ha as [Hkk _]. apply incr_inv in Hi as [Hi Hk2]. pose proof (chunks_pos k).
    assert (2 ^ k <= 2 ^ k2)%nat as Hpow by (apply Nat.pow_le_mono_r; lia).
    assert (BLAKE3_CHUNK_LEN * 2 ^ k <= BLAKE3_CHUNK_LEN * 2 ^ k2)%nat as Hpl by (by apply Nat.mul_le_mono_l).
    rewrite <- (node_join k2 p2 p c2) by (first [done|lia]). rewrite app_nil_r, <- app_assoc.
    eapply roll_up_ok; [exact Hs2|done|rewrite length_app; lia|]. destruct ks2 as [|k3 ks2]; [constructor|].
    apply Forall_cons in Hk2 as [Hk3 _]. constructor; [|constructor]. rewrite length_app, Hp, Hp2.
    assert (2 ^ S k2 <= 2 ^ k3)%nat as Hpow3 by (apply Nat.pow_le_mono_r; lia). rewrite Nat.pow_succ_r' in Hpow3.
    transitivity (BLAKE3_CHUNK_LEN * (2 * 2 ^ k2))%nat; [lia|by apply Nat.mul_le_mono_l].
  - rewrite (proj2 (Nat.ltb_lt 0 (length r))) by (destruct r; [done|cbn; lia]).
    eapply roll_up_ok; [exact Hs|done|destruct r; [done|cbn; lia]|]. apply Forall_forall. intros k _.
    transitivity (BLAKE3_CHUNK_LEN * 1)%nat; [lia|]. apply Nat.mul_le_mono_l. apply Nat.neq_0_lt_0, Nat.pow_nonzero. lia.
Qed.

(** ** Bounds *)

(** The buffer and the block count fit in their bytes. *)
Lemma update_buf_len s m : unbuffered s -> (cs_buf_len (chunk_state_update s m) <= BLAKE3_BLOCK_LEN)%nat.
Proof.
  remember (length m) as n eqn:En. revert s m En. induction (lt_wf n) as [n _ IH]. intros s m -> Hs.
  destruct (decide (length m <= BLAKE3_BLOCK_LEN)%nat) as [Hm|Hm]; [by rewrite update_small by done|].
  rewrite update_step by (first [done|lia]). eapply IH; [|done|done]. rewrite length_drop. unfold BLAKE3_BLOCK_LEN in *. lia.
Qed.

Lemma incr_bounded ks n : incr ks -> Forall (fun k => k < n)%nat ks -> (length ks <= n)%nat.
Proof.
  intros Hi Hb. assert (forall ks m, incr ks -> Forall (le m) ks -> Forall (fun k => k < n)%nat ks -> (length ks + m <= Nat.max m n)%nat) as Hgen.
  { clear. intros ks. induction ks as [|k ks IH]; intros m Hi Hm Hn; cbn [length]; [lia|].
    apply incr_inv in Hi as [Hi Hk]. apply Forall_cons in Hm as [Hm _], Hn as [Hn Hns]. specialize (IH (S k) Hi Hk Hns). lia. }
  specialize (Hgen ks 0%nat Hi). assert (Forall (le 0) ks) as H0 by (apply Forall_forall; lia). specialize (Hgen H0 Hb). lia.
Qed.

Lemma stack_bounded ks vs P c :
  stacked ks vs P c -> loose ks -> zlen P < 2 ^ 64 -> (length vs <= BLAKE3_MAX_DEPTH + 1)%nat.
Proof.
  intros Hs Hl HP. destruct (stacked_facts _ _ _ _ Hs) as (Hc & -> & HPl). unfold zlen in HP.
  assert (chunks_of ks < 2 ^ 54) as Hsum by (rewrite HPl, Hc in HP; change (Z.of_nat BLAKE3_CHUNK_LEN) with 1024 in HP; lia).
  assert (Forall (fun k => k < 54)%nat ks) as Hb.
  { clear -Hsum. induction ks as [|k ks IH]; [constructor|]. cbn [chunks_of foldr] in Hsum. fold (chunks_of ks) in Hsum.
    pose proof (chunks_of_nonneg ks). pose proof (Z.pow_nonneg 2 (Z.of_nat k) ltac:(lia)). constructor; [|apply IH; lia].
    assert (2 ^ Z.of_nat k < 2 ^ 54) as Hk by lia. apply Z.pow_lt_mono_r_iff in Hk; lia. }
  destruct ks as [|k ks]; [cbn; lia|]. destruct Hl as [Hi _]. apply Forall_cons in Hb as [_ Hb].
  pose proof (incr_bounded ks 54 Hi Hb). cbn [length]. unfold BLAKE3_MAX_DEPTH. lia.
Qed.

Lemma absorbed_bounds self M :
  absorbed self M -> zlen M < 2 ^ 64 ->
  (length (hs_cv_stack self) <= BLAKE3_MAX_DEPTH + 1)%nat /\ (cs_buf_len (hs_chunk self) <= BLAKE3_BLOCK_LEN)%nat /\
  (cs_blocks_compressed (hs_chunk self) <= BLAKE3_CHUNK_LEN / BLAKE3_BLOCK_LEN)%nat.
Proof.
  intros (ks & P & c & r & -> & Hk & Hs & Hc & Hr & Hks) Hlt.
  destruct (update_fields (fresh_chunk c) r (fresh_unbuffered _)) as (Hlen & _ & _). rewrite <- Hc in Hlen.
  split; [|split].
  - eapply stack_bounded; [exact Hs|by destruct (decide _); [apply Hks|apply incr_loose]|].
    unfold zlen in *. rewrite length_app in Hlt. lia.
  - rewrite Hc. by apply update_buf_len.
  - change (BLAKE3_CHUNK_LEN / BLAKE3_BLOCK_LEN)%nat with 16%nat. unfold chunk_state_len in Hlen. cbn [fresh_chunk with_counter chunk_state_init cs_blocks_compressed] in Hlen.
    unfold BLAKE3_BLOCK_LEN, BLAKE3_CHUNK_LEN in *. lia.
Qed.
End nodes.
