(* ===== verification/Blake3Hash.v ===== *)
(** * The digest of the program is BLAKE3

    [crypto/hash.cpp] over the hasher of [external/blake3]: the thread-local
    hasher and the functions that reset it, feed it and read it. The rest of the
    development sees a hasher as the bytes it has absorbed (Crypto.v); here that
    view is shown to be what the C code implements. *)

From stdpp Require Import base list option numbers strings.
From S2P Require Import Prelude Memory Encode Crypto Blake3Core Blake3Tree.

(** ** blake3_dispatch.c on amd64 *)

(** [enum cpu_feature] *)
Definition SSE2 : Z := 1.
Definition SSSE3 : Z := 2.
Definition SSE41 : Z := 4.
Definition AVX : Z := 8.
Definition AVX2 : Z := 16.
Definition AVX512F : Z := 32.
Definition AVX512VL : Z := 64.
Definition UNDEFINED : Z := Z.shiftl 1 30.

(** What the processor answers: [cpuid( 0 ).eax], [cpuid( 1 ).ecx],
    [xgetbv()], [cpuid( 7, 0 ).ebx]. *)
Record cpu := Cpu { max_id : Z; leaf1_ecx : Z; xcr0 : Z; leaf7_ebx : Z }.

Definition when (b : bool) (flag features : Z) : Z := if b then Z.lor features flag else features.

Definition detect_features (c : cpu) : Z :=
  let features := Z.lor 0 SSE2 in
  let features := when (Z.testbit (leaf1_ecx c) 9) SSSE3 features in
  let features := when (Z.testbit (leaf1_ecx c) 19) SSE41 features in
  if Z.testbit (leaf1_ecx c) 27 && (Z.land (xcr0 c) 6 =? 6) then
    let features := when (Z.testbit (leaf1_ecx c) 28) AVX features in
    if 7 <=? max_id c then
      let features := when (Z.testbit (leaf7_ebx c) 5) AVX2 features in
      if Z.land (xcr0 c) 224 =? 224
      then when (Z.testbit (leaf7_ebx c) 16) AVX512F (when (Z.testbit (leaf7_ebx c) 31) AVX512VL features)
      else features
    else features
  else features.

(** The features, and the value of [g_cpu_features] afterwards. *)
Definition get_cpu_features (c : cpu) (g_cpu_features : Z) : Z * Z :=
  if g_cpu_features =? UNDEFINED then (detect_features c, detect_features c)
  else (g_cpu_features, g_cpu_features).

Definition blake3_simd_degree (features : Z) : nat :=
  if Z.land features (Z.lor AVX512F AVX512VL) =? Z.lor AVX512F AVX512VL then 16
  else if negb (Z.land features AVX2 =? 0) then 8
  else if negb (Z.land features SSE41 =? 0) then 4
  else if negb (Z.land features SSE2 =? 0) then 4
  else 1.

(** ** crypto/hash.cpp *)

Section entry_points.
(** The features of the processor, and the bytes of an array before it is
    written. *)
Context (features : Z) (uninit : bytes).

(** [hasher_reset], [hasher_update( ptr, len )] and [hasher_finalize] on the
    thread-local hasher. *)
Definition tl_reset (h : blake3_hasher) : blake3_hasher := blake3_hasher_reset h.
Definition tl_update (h : blake3_hasher) (data : bytes) : blake3_hasher :=
  blake3_hasher_update (blake3_simd_degree features) uninit h data.
Definition tl_finalize (h : blake3_hasher) : digest := blake3_hasher_finalize uninit h digest_length.

(** [hash( ptr, len )]: the digest, and the hasher it leaves behind. *)
Definition tl_hash (h : blake3_hasher) (data : bytes) : digest * blake3_hasher :=
  let h := tl_update (tl_reset h) data in (tl_finalize h, h).

(** The template over ranges: reset, one update per value, finalize. *)
Definition tl_hash_range (h : blake3_hasher) (values : list bytes) : digest * blake3_hasher :=
  let h := fold_left tl_update values (tl_reset h) in (tl_finalize h, h).

(** A call of one of them; what it returns to the program. *)
Inductive hash_call :=
| CallReset
| CallUpdate (data : bytes)
| CallFinalize
| CallHash (data : bytes)
| CallHashRange (values : list bytes).

Definition tl_call (h : blake3_hasher) (c : hash_call) : option digest * blake3_hasher :=
  match c with
  | CallReset => (None, tl_reset h)
  | CallUpdate data => (None, tl_update h data)
  | CallFinalize => (Some (tl_finalize h), h)
  | CallHash data => let '(d, h) := tl_hash h data in (Some d, h)
  | CallHashRange values => let '(d, h) := tl_hash_range h values in (Some d, h)
  end.

Fixpoint tl_calls (h : blake3_hasher) (cs : list hash_call) : list (option digest) * blake3_hasher :=
  match cs with
  | [] => ([], h)
  | c :: cs => let '(d, h) := tl_call h c in let '(ds, h) := tl_calls h cs in (d :: ds, h)
  end.
End entry_points.

(** ** The contract: a hasher is the bytes it has absorbed *)

Section contract.
Context `{Blake3}.

Definition spec_call (m : hasher) (c : hash_call) : option digest * hasher :=
  match c with
  | CallReset => (None, hasher_reset)
  | CallUpdate data => (None, hasher_update m data)
  | CallFinalize => (Some (hasher_finalize m), m)
  | CallHash data => (Some (hash data), data)
  | CallHashRange values => (Some (hasher_finalize (fold_left hasher_update values hasher_reset)), concat values)
  end.

Fixpoint spec_calls (m : hasher) (cs : list hash_call) : list (option digest) * hasher :=
  match cs with
  | [] => ([], m)
  | c :: cs => let '(d, m) := spec_call m c in let '(ds, m) := spec_calls m cs in (d :: ds, m)
  end.

(** No message of the calls reaches the 2^64 bytes the format allows. *)
Fixpoint messages_fit (m : hasher) (cs : list hash_call) : Prop :=
  match cs with
  | [] => True
  | c :: cs => zlen (spec_call m c).2 < 2 ^ 64 /\ messages_fit (spec_call m c).2 cs
  end.
End contract.

(** ** The bit counts without compiler builtins *)

(** [highest_one] when neither compiler is known: halve the range six times. *)
Definition highest_step (mask k : Z) (xc : Z * Z) : Z * Z :=
  let '(x, c) := xc in if negb (Z.land x mask =? 0) then (Z.shiftr x k, c + k) else (x, c).

Definition highest_one_generic (x : Z) : Z :=
  let xc := highest_step 0xffffffff00000000 32 (x, 0) in
  let xc := highest_step 0x00000000ffff0000 16 xc in
  let xc := highest_step 0x000000000000ff00 8 xc in
  let xc := highest_step 0x00000000000000f0 4 xc in
  let '(x, c) := highest_step 0x000000000000000c 2 xc in
  if negb (Z.land x 0x0000000000000002 =? 0) then c + 1 else c.

(** [while( x != 0 ) x &= x - 1]: one round for each bit that is set. *)
Fixpoint popcnt_generic (fuel : nat) (x : Z) (count : nat) : nat :=
  match fuel with
  | O => count
  | S fuel => if x =? 0 then count else popcnt_generic fuel (Z.land x (x - 1)) (S count)
  end.

Lemma land_high x k : 0 <= k -> 0 < x < 2 ^ (2 * k) -> Z.land x (Z.shiftl (Z.ones k) k) = Z.shiftl (Z.shiftr x k) k.
Proof.
  intros Hk Hx. apply Z.bits_inj'. intros n Hn. rewrite Z.land_spec, !Z.shiftl_spec by done.
  destruct (decide (n < k)) as [Hlt|Hge].
  - rewrite !(Z.testbit_neg_r _ (n - k)) by lia. apply andb_false_r.
  - rewrite Z.shiftr_spec by lia. replace (n - k + k) with n by lia. rewrite Z.testbit_ones_nonneg by lia.
    destruct (decide (n < 2 * k)); [rewrite (proj2 (Z.ltb_lt _ _)) by lia; apply andb_true_r|].
    rewrite (Z.bits_above_log2 x n); [done|lia|]. apply Z.log2_lt_pow2; [lia|].
    eapply Z.lt_le_trans; [apply Hx|apply Z.pow_le_mono_r; lia].
Qed.

(** The number is not zero and fits in [2 * k] bits: one step leaves one that
    fits in [k], with the same highest bit counted from [c]. *)
Lemma highest_step_ok mask k x c :
  0 < k -> mask = Z.shiftl (Z.ones k) k -> 0 < x < 2 ^ (2 * k) ->
  let '(x', c') := highest_step mask k (x, c) in 0 < x' < 2 ^ k /\ c' + Z.log2 x' = c + Z.log2 x.
Proof.
  intros Hk -> Hx. unfold highest_step. rewrite land_high by lia. assert (0 < 2 ^ k) as Hp by (apply Z.pow_pos_nonneg; lia).
  rewrite Z.shiftl_mul_pow2, Z.shiftr_div_pow2 by lia. replace (2 * k) with (k + k) in Hx by lia. rewrite Z.pow_add_r in Hx by lia.
  assert (0 <= x / 2 ^ k < 2 ^ k) as Hq by (split; [apply Z.div_pos; lia|apply Z.div_lt_upper_bound; lia]).
  destruct (x / 2 ^ k * 2 ^ k =? 0) eqn:E; cbn [negb].
  - apply Z.eqb_eq, Z.mul_eq_0_l in E; [|lia]. apply Z.div_small_iff in E; lia.
  - apply Z.eqb_neq in E. assert (0 < x / 2 ^ k) as Hq0 by (destruct (decide (x / 2 ^ k = 0)) as [E0|]; [rewrite E0 in E|]; lia).
    split; [lia|]. rewrite <- Z.shiftr_div_pow2 by lia. rewrite Z.log2_shiftr by lia.
    rewrite <- Z.shiftr_div_pow2 in Hq0 by lia.
    assert (k <= Z.log2 x) by (apply Z.log2_le_pow2; [lia|]; destruct (decide (x < 2 ^ k)); [rewrite Z.shiftr_div_pow2, Z.div_small in Hq0|]; lia).
    lia.
Qed.

Lemma highest_one_generic_ok x : 0 < x < 2 ^ 64 -> highest_one_generic x = highest_one x.
Proof.
  intros Hx. unfold highest_one_generic, highest_one.
  pose proof (highest_step_ok 0xffffffff00000000 32 x 0 ltac:(lia) eq_refl Hx) as H1. destruct (highest_step _ 32 _) as [x1 c1]. destruct H1 as [Hx1 E1].
  pose proof (highest_step_ok 0xffff0000 16 x1 c1 ltac:(lia) eq_refl Hx1) as H2. destruct (highest_step _ 16 _) as [x2 c2]. destruct H2 as [Hx2 E2].
  pose proof (highest_step_ok 0xff00 8 x2 c2 ltac:(lia) eq_refl Hx2) as H3. destruct (highest_step _ 8 _) as [x3 c3]. destruct H3 as [Hx3 E3].
  pose proof (highest_step_ok 0xf0 4 x3 c3 ltac:(lia) eq_refl Hx3) as H4. destruct (highest_step _ 4 _) as [x4 c4]. destruct H4 as [Hx4 E4].
  pose proof (highest_step_ok 0xc 2 x4 c4 ltac:(lia) eq_refl Hx4) as H5. destruct (highest_step _ 2 _) as [x5 c5]. destruct H5 as [Hx5 E5].
  assert (x5 = 1 \/ x5 = 2 \/ x5 = 3) as [->|[->| ->]] by lia.
  all: rewrite E4, E3, E2, E1, Z.add_0_l in E5; rewrite <- E5; cbn.
  all: destruct (negb _) eqn:E; vm_compute in E; try discriminate; lia.
Qed.

Lemma land_pred_popcnt p : Z.land (Zpos p) (Zpos p - 1) = 0 /\ pos_popcount p = 1%nat \/
  0 < Z.land (Zpos p) (Zpos p - 1) /\ pos_popcount p = S (popcnt (Z.land (Zpos p) (Zpos p - 1))).
Proof.
  induction p as [p IH|p IH|]; [| |by left].
  - right. replace (Zpos p~1 - 1) with (Zpos p~0) by lia. assert (Z.land (Zpos p~1) (Zpos p~0) = Zpos p~0) as ->; [|done].
    change (Zpos p~1) with (2 * Zpos p + 1). change (Zpos p~0) with (2 * Zpos p). apply Z.bits_inj'. intros n Hn.
    rewrite Z.land_spec. destruct (decide (n = 0)) as [->|Hn0]; [by rewrite Z.testbit_even_0, andb_false_r|].
    replace n with (Z.succ (n - 1)) by lia. by rewrite Z.testbit_even_succ, Z.testbit_odd_succ, andb_diag by lia.
  - assert (Z.land (Zpos p~0) (Zpos p~0 - 1) = 2 * Z.land (Zpos p) (Zpos p - 1)) as ->.
    { change (Zpos p~0) with (2 * Zpos p). apply Z.bits_inj'. intros n Hn. destruct (decide (n = 0)) as [->|Hn0].
      - by rewrite Z.land_spec, !Z.testbit_even_0.
      - replace n with (Z.succ (n - 1)) by lia. rewrite Z.land_spec, !Z.testbit_even_succ, Z.land_spec by lia.
        replace (2 * Zpos p - 1) with (2 * (Zpos p - 1) + 1) by lia. by rewrite Z.testbit_odd_succ by lia. }
    cbn [pos_popcount]. destruct IH as [[-> IH]|[H IH]]; [by left|right]. split; [lia|]. rewrite IH.
    by destruct (Z.land (Zpos p) (Zpos p - 1)).
Qed.

Lemma popcnt_generic_ok x fuel : 0 <= x -> (popcnt x <= fuel)%nat -> popcnt_generic (S fuel) x 0 = popcnt x.
Proof.
  intros Hx Hf. enough (forall fuel x c, 0 <= x -> (popcnt x <= fuel)%nat -> popcnt_generic (S fuel) x c = (c + popcnt x)%nat) as H
    by (by apply (H fuel x 0%nat)).
  clear. intros fuel. induction fuel as [|fuel IH]; intros x c Hx Hf; destruct x as [|p|p]; try lia; cbn [popcnt] in *;
    try (cbn; lia); destruct (land_pred_popcnt p) as [[H1 H2]|[H1 H2]]; try lia.
  - change (popcnt_generic (S (S fuel)) (Zpos p) c) with (popcnt_generic (S fuel) (Z.land (Zpos p) (Zpos p - 1)) (S c)).
    rewrite H1, H2. cbn. lia.
  - change (popcnt_generic (S (S fuel)) (Zpos p) c) with (popcnt_generic (S fuel) (Z.land (Zpos p) (Zpos p - 1)) (S c)).
    rewrite IH by lia. lia.
Qed.

(** ** Output bytes *)

Lemma length_store32 w : length (store32 w) = 4%nat.
Proof. apply length_le_bytes. Qed.

Lemma length_concat_const {A} n (ls : list (list A)) :
  Forall (fun l => length l = n) ls -> length (concat ls) = (n * length ls)%nat.
Proof. induction 1 as [|l ls Hl _ IH]; cbn [concat length]; [lia|]. rewrite length_app, IH, Hl. lia. Qed.

Lemma length_compress_xof cv block len c fl : length (blake3_compress_xof cv block len c fl) = 64%nat.
Proof.
  unfold blake3_compress_xof. rewrite (length_concat_const 4), length_app, !length_map, !length_seq; [done|].
  apply Forall_app. split; apply Forall_map, Forall_forall; intros; apply length_store32.
Qed.

Lemma store32_ok w : bytes_ok (store32 w).
Proof. apply le_bytes_ok. Qed.

Lemma concat_ok ls : Forall bytes_ok ls -> bytes_ok (concat ls).
Proof. induction 1 as [|l ls Hl _ IH]; cbn [concat]; [constructor|]. by apply Forall_app. Qed.

Lemma compress_xof_ok cv block len c fl : bytes_ok (blake3_compress_xof cv block len c fl).
Proof. apply concat_ok, Forall_app. split; apply Forall_map, Forall_forall; intros; apply store32_ok. Qed.

Lemma root_bytes_32 o :
  output_root_bytes o 0 32 =
  take 32 (blake3_compress_xof (o_input_cv o) (o_block o) (o_block_len o) 0 (Z.lor (o_flags o) ROOT)).
Proof. reflexivity. Qed.

Lemma blake3_digest_length m : length (blake3_digest m) = digest_length.
Proof. unfold blake3_digest, BLAKE3_OUT_LEN. rewrite root_bytes_32, length_take, length_compress_xof. done. Qed.

Lemma blake3_digest_ok m : bytes_ok (blake3_digest m).
Proof. unfold blake3_digest, BLAKE3_OUT_LEN. rewrite root_bytes_32. apply Forall_take, compress_xof_ok. Qed.

(** ** The extended output *)

Section extended_output.
Context (o : output_t).

(** Block [counter] of the output, and byte [i] of it. *)
Definition xof_block (counter : Z) : bytes :=
  blake3_compress_xof (o_input_cv o) (o_block o) (o_block_len o) counter (Z.lor (o_flags o) ROOT).
Definition xof_byte (i : Z) : Z := default 0 (xof_block (i / 64) !! Z.to_nat (i mod 64)).

(** [n] bytes from position [seek]. *)
Fixpoint xof_slice (seek : Z) (n : nat) : bytes :=
  match n with
  | O => []
  | S n => xof_byte seek :: xof_slice (seek + 1) n
  end.

Lemma xof_slice_app seek a b : xof_slice seek (a + b) = xof_slice seek a ++ xof_slice (seek + Z.of_nat a) b.
Proof.
  revert seek. induction a as [|a IH]; intros seek; cbn [Nat.add xof_slice app]; [by rewrite Z.add_0_r|].
  rewrite IH. by replace (seek + 1 + Z.of_nat a) with (seek + Z.of_nat (S a)) by lia.
Qed.

Lemma xof_slice_in_block c off n :
  (off + n <= 64)%nat -> xof_slice (64 * c + Z.of_nat off) n = take n (drop off (xof_block c)).
Proof.
  revert off. induction n as [|n IH]; intros off Hle; [done|]. cbn [xof_slice].
  replace (64 * c + Z.of_nat off + 1) with (64 * c + Z.of_nat (S off)) by lia. rewrite IH by lia. unfold xof_byte.
  replace ((64 * c + Z.of_nat off) / 64) with c by (apply Z.div_unique with (Z.of_nat off); lia).
  replace ((64 * c + Z.of_nat off) mod 64) with (Z.of_nat off) by (apply Z.mod_unique with c; lia). rewrite Nat2Z.id.
  destruct (lookup_lt_is_Some_2 (xof_block c) off) as [b Hb]; [unfold xof_block; rewrite length_compress_xof; lia|].
  rewrite Hb, (drop_S _ b off) by done. done.
Qed.

Lemma xof_slice_blocks c k :
  0 <= c -> c + Z.of_nat k <= 2 ^ 64 ->
  xof_slice (64 * c) (64 * k) =
  blake3_xof_many (o_input_cv o) (o_block o) (o_block_len o) c (Z.lor (o_flags o) ROOT) k.
Proof.
  intros Hc Hk. unfold blake3_xof_many.
  assert (forall j k, c + Z.of_nat (j + k) <= 2 ^ 64 ->
    xof_slice (64 * (c + Z.of_nat j)) (64 * k) = concat (map (fun i => xof_block (u64 (c + Z.of_nat i))) (seq j k))) as Hgen.
  { clear k Hk. intros j k. revert j. induction k as [|k IH]; intros j Hj; [done|]. cbn [seq map concat].
    replace (64 * S k)%nat with (64 + 64 * k)%nat by lia. rewrite xof_slice_app. f_equal.
    - rewrite u64_small by (unfold u64_ok; lia). rewrite <- (Z.add_0_r (64 * _)). change 0 with (Z.of_nat 0) at 1.
      rewrite xof_slice_in_block by lia. rewrite drop_0. apply take_ge. unfold xof_block. by rewrite length_compress_xof.
    - rewrite <- IH by lia. f_equal. lia. }
  specialize (Hgen 0%nat k). rewrite Z.add_0_r in Hgen. by apply Hgen.
Qed.

Lemma xof_slice_tail c n :
  0 <= c -> c + Z.of_nat (n / 64) < 2 ^ 64 ->
  xof_slice (64 * c) n =
  (let out := blake3_xof_many (o_input_cv o) (o_block o) (o_block_len o) c (Z.lor (o_flags o) ROOT) (n / 64) in
   if (n mod 64 =? 0)%nat then out else out ++ take (n mod 64) (xof_block (u64 (c + Z.of_nat (n / 64))))).
Proof.
  intros Hc Hlt. cbv zeta. rewrite <- xof_slice_blocks, u64_small by (unfold u64_ok; lia).
  pose proof (Nat.mod_upper_bound n 64 ltac:(lia)) as Hm. rewrite (Nat.div_mod_eq n 64) at 1. rewrite xof_slice_app.
  replace (64 * c + Z.of_nat (64 * (n / 64))) with (64 * (c + Z.of_nat (n / 64)) + Z.of_nat 0) by lia.
  rewrite xof_slice_in_block, drop_0 by lia. destruct (n mod 64 =? 0)%nat eqn:E; [|done].
  apply Nat.eqb_eq in E. by rewrite E, take_0, app_nil_r.
Qed.

Lemma root_bytes_slice seek n :
  0 <= seek -> seek + Z.of_nat n <= 2 ^ 64 -> output_root_bytes o seek n = xof_slice seek n.
Proof.
  intros Hs Hn. unfold output_root_bytes. fold (xof_block (seek / 64)).
  destruct (n =? 0)%nat eqn:E0; [apply Nat.eqb_eq in E0; by rewrite E0|]. cbv zeta.
  pose proof (Z.div_mod seek 64 ltac:(lia)) as Hdm. pose proof (Z.mod_pos_bound seek 64 ltac:(lia)) as Hmb.
  set (off := Z.to_nat (seek mod 64)) in *. assert (Z.of_nat off = seek mod 64) as Hoff by (unfold off; lia).
  pose proof (Z.div_le_mono (seek + Z.of_nat n) (2 ^ 64) 64 ltac:(lia) Hn) as Hq. change (2 ^ 64 / 64) with (2 ^ 58) in Hq.
  destruct (off =? 0)%nat eqn:E.
  - apply Nat.eqb_eq in E. assert (seek = 64 * (seek / 64)) as Hseek by lia. rewrite Hseek at 4.
    rewrite xof_slice_tail; [done|apply Z.div_pos; lia|]. rewrite Nat2Z.inj_div. change (Z.of_nat 64) with 64.
    pose proof (Z.mul_div_le (Z.of_nat n) 64 ltac:(lia)). lia.
  - apply Nat.eqb_neq in E.
    assert ((if (64 - off <? n)%nat then (64 - off)%nat else n) = Nat.min (64 - off) n) as ->
      by (destruct (_ <? _)%nat eqn:E1; [apply Nat.ltb_lt in E1|apply Nat.ltb_ge in E1]; lia).
    set (a := Nat.min (64 - off) n).
    assert (xof_slice seek n = take a (drop off (xof_block (seek / 64))) ++ xof_slice (64 * (seek / 64 + 1)) (n - a)) as ->.
    { replace n with (a + (n - a))%nat at 1 by lia. rewrite xof_slice_app. f_equal.
      - rewrite <- xof_slice_in_block by lia. f_equal. lia.
      - destruct (decide (n <= 64 - off)%nat); [by replace (n - a)%nat with 0%nat by lia|]. f_equal. lia. }
    assert (0 <= seek / 64) by (apply Z.div_pos; lia). assert (seek / 64 <= 2 ^ 58) by lia.
    rewrite (u64_small (seek / 64 + 1)) by (unfold u64_ok; lia). rewrite xof_slice_tail; [|lia|].
    + cbv zeta.
      destruct ((n - a) mod 64 =? 0)%nat; [reflexivity|symmetry; apply app_assoc].
    + rewrite Nat2Z.inj_div. change (Z.of_nat 64) with 64. pose proof (Z.mul_div_le (Z.of_nat (n - a)) 64 ltac:(lia)). lia.
Qed.
End extended_output.

(** The hash the rest of the development is about. *)
#[export] Instance blake3_tree : Blake3 :=
  { blake3 := blake3_digest; blake3_length := blake3_digest_length; blake3_ok := blake3_digest_ok }.

(** ** Simulation *)

Lemma simd_degree_power features : exists dj, blake3_simd_degree features = (2 ^ dj)%nat /\ (dj <= 4)%nat.
Proof.
  unfold blake3_simd_degree. repeat case_match;
    [exists 4%nat|exists 3%nat|exists 2%nat|exists 2%nat|exists 0%nat]; (split; [done|lia]).
Qed.

Section simulation.
Context (features : Z) (uninit : bytes) (key : list Z) (flags : Z).
Abbreviation update := (blake3_hasher_update (blake3_simd_degree features) uninit).

Lemma features_update_ok self M x :
  absorbed key flags self M -> zlen (M ++ x) < 2 ^ 64 -> absorbed key flags (update self x) (M ++ x).
Proof. destruct (simd_degree_power features) as (dj & -> & _). apply update_ok. Qed.

Lemma updates_ok us self M :
  absorbed key flags self M -> zlen (M ++ concat us) < 2 ^ 64 ->
  absorbed key flags (fold_left update us self) (M ++ concat us).
Proof.
  revert self M. induction us as [|u us IH]; intros self M Ha Hlt; cbn [fold_left concat]; [by rewrite app_nil_r|].
  cbn [concat] in Hlt. rewrite app_assoc in Hlt |- *. apply IH; [|done]. apply features_update_ok; [done|].
  unfold zlen in *. rewrite length_app in Hlt. lia.
Qed.

Lemma absorbed_reset self M : absorbed key flags self M -> absorbed key flags (blake3_hasher_reset self) [].
Proof.
  intros (ks & P & c & r & _ & Hk & _ & Hc & _ & _).
  destruct (update_fields (fresh_chunk key flags c) r (fresh_unbuffered _ _ _)) as (_ & Hf & _).
  assert (blake3_hasher_reset self = hasher_init_base key flags) as ->; [|apply absorbed_init].
  unfold blake3_hasher_reset, chunk_state_reset. by rewrite Hk, Hc, Hf.
Qed.

Lemma absorbed_finalize self M seek n :
  absorbed key flags self M ->
  blake3_hasher_finalize_seek uninit self seek n = output_root_bytes (node key flags M 0) seek n.
Proof.
  intros Ha. unfold blake3_hasher_finalize_seek. rewrite (root_output_ok _ _ uninit _ _ Ha).
  destruct (n =? 0)%nat eqn:E; [|done]. unfold output_root_bytes. by rewrite E.
Qed.
End simulation.

Lemma tl_finalize_ok uninit h m : absorbed IV 0 h m -> tl_finalize uninit h = hasher_finalize m.
Proof. apply absorbed_finalize. Qed.

(** One call on the hasher answers as the contract does, and leaves a hasher
    that has absorbed what the contract says. *)
Lemma call_simulated features uninit h m c :
  absorbed IV 0 h m -> zlen (spec_call m c).2 < 2 ^ 64 ->
  (tl_call features uninit h c).1 = (spec_call m c).1 /\ absorbed IV 0 (tl_call features uninit h c).2 (spec_call m c).2.
Proof.
  intros Ha Hlt. destruct c as [|data| |data|values]; unfold tl_call, tl_hash, tl_hash_range in *; cbn [spec_call fst snd] in *.
  - split; [done|]. eapply absorbed_reset, Ha.
  - split; [done|]. by apply features_update_ok.
  - split; [|done]. f_equal. by apply tl_finalize_ok.
  - assert (absorbed IV 0 (tl_update features uninit (tl_reset h) data) data) as Hd
      by (apply (features_update_ok features uninit IV 0 _ [] data); [eapply absorbed_reset, Ha|done]).
    split; [|done]. unfold hash, hasher_update, hasher_reset. f_equal. by apply tl_finalize_ok.
  - assert (absorbed IV 0 (fold_left (tl_update features uninit) values (tl_reset h)) (concat values)) as Hd
      by (apply (updates_ok features uninit IV 0 values _ []); [eapply absorbed_reset, Ha|done]).
    assert (fold_left hasher_update values hasher_reset = concat values) as Hv by apply fold_update_app.
    split; [|done]. rewrite Hv. f_equal. by apply tl_finalize_ok.
Qed.

Lemma calls_simulated features uninit cs h m :
  absorbed IV 0 h m -> messages_fit m cs ->
  (tl_calls features uninit h cs).1 = (spec_calls m cs).1 /\
  absorbed IV 0 (tl_calls features uninit h cs).2 (spec_calls m cs).2.
Proof.
  revert h m. induction cs as [|c cs IH]; intros h m Ha Hfit; [done|]. destruct Hfit as [Hlt Hfit].
  destruct (call_simulated features uninit h m c Ha Hlt) as [H1 H2].
  cbn [tl_calls spec_calls]. destruct (tl_call features uninit h c) as [d h1], (spec_call m c) as [d' m1]. cbn [fst snd] in *. subst d'.
  destruct (IH h1 m1 H2 Hfit) as [H3 H4]. destruct (tl_calls features uninit h1 cs), (spec_calls m1 cs). cbn [fst snd] in *.
  split; [by rewrite H3|done].
Qed.

(** ** What the program hashes with *)

(** C22. Whatever the processor, any sequence of calls of the functions of
    [crypto/hash.cpp] on the hasher a thread starts with, none of whose messages
    reaches 2^64 bytes, returns what the contract returns: each digest is the
    BLAKE3 tree hash of exactly the bytes fed since the last reset, and nothing
    of earlier calls is left in it. *)
Theorem hash_calls_refine (c : cpu) (g_cpu_features : Z) (uninit : bytes) (cs : list hash_call) :
  messages_fit hasher_reset cs ->
  (tl_calls (get_cpu_features c g_cpu_features).1 uninit blake3_hasher_init cs).1 = (spec_calls hasher_reset cs).1.
Proof. intros Hfit. apply calls_simulated; [apply absorbed_init|done]. Qed.

Definition sample_cpu : cpu := Cpu 22 0xFFFFFFFF 0xFF 0.
Definition sample_calls : list hash_call :=
  [CallUpdate [1; 2]; CallHash [7]; CallReset; CallUpdate [1]; CallUpdate [2; 3]; CallFinalize; CallHashRange [[1]; [2; 3]]].

Lemma hash_calls_refine_witness :
  messages_fit hasher_reset sample_calls /\
  (tl_calls (get_cpu_features sample_cpu UNDEFINED).1 [] blake3_hasher_init sample_calls).1 =
  (spec_calls hasher_reset sample_calls).1.
Proof.
  assert (messages_fit hasher_reset sample_calls) as Hfit by (repeat (split; [reflexivity|]); exact I).
  split; [exact Hfit|]. exact (hash_calls_refine sample_cpu UNDEFINED [] sample_calls Hfit).
Defined.

(** C23. However the input is cut into updates, whatever the degree of parallelism
    and for every key and domain (plain, keyed, derived), [finalize_seek] returns
    [n] bytes, from position [seek], of the extended output of the root of the
    tree over the whole input. *)
Theorem finalize_updates features uninit key flags (us : list bytes) seek n :
  zlen (concat us) < 2 ^ 64 -> 0 <= seek -> seek + Z.of_nat n <= 2 ^ 64 ->
  blake3_hasher_finalize_seek uninit
    (fold_left (blake3_hasher_update (blake3_simd_degree features) uninit) us (hasher_init_base key flags)) seek n =
  xof_slice (node key flags (concat us) 0) seek n.
Proof.
  intros Hlt Hs Hn. rewrite <- root_bytes_slice by done. apply absorbed_finalize.
  apply (updates_ok _ _ _ _ us _ []); [apply absorbed_init|done].
Qed.

Lemma finalize_updates_witness :
  (zlen (concat [[1; 2]; [3]]) < 2 ^ 64 /\ 70 + Z.of_nat 5 <= 2 ^ 64) /\
  blake3_hasher_finalize_seek []
    (fold_left (blake3_hasher_update (blake3_simd_degree SSE2) []) [[1; 2]; [3]] (blake3_hasher_init_keyed (zero_bytes 32))) 70 5 =
  xof_slice (node (load_key_words (zero_bytes 32)) KEYED_HASH [1; 2; 3] 0) 70 5.
Proof.
  split; [split; [reflexivity|discriminate]|].
  apply (finalize_updates SSE2 [] (load_key_words (zero_bytes 32)) KEYED_HASH [[1; 2]; [3]] 70 5%nat);
    [reflexivity|discriminate|discriminate].
Defined.

(** The state of a hasher stays within its arrays and its bytes: at most 55
    chaining values on the stack, 64 bytes in the buffer and 16 blocks counted,
    for every input shorter than 2^64 bytes. *)
Theorem hasher_state_bounds features uninit key flags (us : list bytes) :
  zlen (concat us) < 2 ^ 64 ->
  let h := fold_left (blake3_hasher_update (blake3_simd_degree features) uninit) us (hasher_init_base key flags) in
  (length (hs_cv_stack h) <= BLAKE3_MAX_DEPTH + 1)%nat /\ (cs_buf_len (hs_chunk h) <= BLAKE3_BLOCK_LEN)%nat /\
  (cs_blocks_compressed (hs_chunk h) <= BLAKE3_CHUNK_LEN / BLAKE3_BLOCK_LEN)%nat.
Proof.
  intros Hlt h. eapply (absorbed_bounds key flags h (concat us)); [|done].
  apply (updates_ok _ _ _ _ us _ []); [apply absorbed_init|done].
Qed.

Lemma hasher_state_bounds_witness :
  zlen (concat [zero_bytes 100; [1%Z]]) < 2 ^ 64 /\
  (cs_buf_len (hs_chunk (fold_left (blake3_hasher_update (blake3_simd_degree 0) []) [zero_bytes 100; [1%Z]] blake3_hasher_init))
     <= BLAKE3_BLOCK_LEN)%nat.
Proof.
  split; [reflexivity|].
  exact (proj1 (proj2 (hasher_state_bounds 0 [] IV 0 [zero_bytes 100; [1%Z]] eq_refl))).
Defined.

(** The features are read once: afterwards the stored ones are the detected ones. *)
Lemma features_stable c g :
  let '(f, g') := get_cpu_features c g in g' = f /\ (g' <> UNDEFINED -> get_cpu_features c g' = (f, f)).
Proof.
  unfold get_cpu_features. destruct (g =? UNDEFINED) eqn:E; (split; [done|]); intros Hne;
    by rewrite (proj2 (Z.eqb_neq _ _)).
Qed.

(** ** The vectors of hash.test.cpp *)

Definition text (s : string) : bytes := map (fun c => Z.of_N (Ascii.N_of_ascii c)) (String.list_ascii_of_string s).

(** The values of a range, hashed by a new thread, have the digest that [expected]
    is the base 58 of. *)
Definition hashes_to (values : list bytes) (expected : string) : Prop :=
  base58.from_base58 (text expected) [0] tt =
  Ret (inl (tl_hash_range (get_cpu_features sample_cpu UNDEFINED).1 [] blake3_hasher_init values).1) tt.

Example hash_quick_brown_fox :
  hashes_to [text "A quick brown fox jumps over the lazy dog"] "EzpeBRqqVNxcPGe9caKm9CSHcqnbCftXrc3Efn8R9JmP".
Proof. vm_compute. reflexivity. Qed.

Example hash_words :
  hashes_to (map text ["A"; "quick"; "brown"; "fox"; "jumps"; "over"; "the"; "lazy"; "dog"]%string)
    "4rfJRE9JwBL4vMJMUntTcDF5TRDEmqfU5tfiQFBzt7nV".
Proof. vm_compute. reflexivity. Qed.

Example hash_byte_vectors :
  hashes_to [[1; 2; 3]; [4; 5; 6]] "9naWkD2RN6dS65KiTDogGSPcrDJaBywdEdD1zwrhHxKs".
Proof. vm_compute. reflexivity. Qed.

Example hash_number : hashes_to [le_bytes 8 12345] "HnXg8eU4ELYHMkXCtDRM1paFQnMAGgxrhehAkEgopFh3".
Proof. vm_compute. reflexivity. Qed.
