(* ===== verification/Blake3Vector.v ===== *)
(** * Vector registers and the vector form of the compression

    What blake3_sse2.c, blake3_sse41.c, blake3_avx2.c, blake3_avx512.c and
    blake3_neon.c have in common. A register is the list of its 32-bit words,
    the lowest first; the intrinsics are defined on it as their manuals
    describe them. The compression of several inputs side by side
    ([round_fn], [hash4] and so on) is the same text in the five files over
    different operations, so it is written once, over a record of operations,
    and proved once, against the class [Lanewise] of what the operations do to
    each lane. *)

From stdpp Require Import base list option numbers.
From S2P Require Import Prelude Memory Blake3Core.

(** ** Registers *)

Abbreviation register := (list Z).

(** The 128-bit lanes of a register. *)
Fixpoint quads {A} (v : list A) : list (list A) :=
  match v with
  | a :: b :: c :: d :: v => [a; b; c; d] :: quads v
  | _ => []
  end.

(** The same bits as 8-bit, 16-bit and 64-bit elements. *)
Definition as_bytes (v : register) : bytes := concat (map (le_bytes 4) v).
Definition of_bytes (b : bytes) : register := map le_val (quads b).

Definition as_halves (v : register) : list Z := concat (map (fun w => [w mod 65536; w / 65536]) v).
Fixpoint of_halves (h : list Z) : register :=
  match h with
  | lo :: hi :: h => lo + 65536 * hi :: of_halves h
  | _ => []
  end.

Fixpoint as_longs (v : register) : list Z :=
  match v with
  | lo :: hi :: v => lo + 2 ^ 32 * hi :: as_longs v
  | _ => []
  end.
Definition of_longs (l : list Z) : register := concat (map (fun x => [u32 x; u32 (x / 2 ^ 32)]) l).

(** ** Intrinsics

    One definition for all widths where the manuals have one per width. *)

(** [_mm_loadu_si128( src + off )] and the wider ones; [n] words. *)
Definition loadu (n : nat) (src : bytes) (off : nat) : register := map (load32 (drop off src)) (seq 0 n).
Definition storeu (v : register) : bytes := concat (map store32 v).

Definition set1_epi32 (n : nat) (x : Z) : register := replicate n (u32 x).

(** [_mm_add_epi32], [_mm_sub_epi32], [_mm_xor_si128], [_mm_and_si128],
    [_mm_or_si128], [_mm_andnot_si128] *)
Definition add_epi32 : register -> register -> register := zip_with (fun x y => u32 (x + y)).
Definition sub_epi32 : register -> register -> register := zip_with (fun x y => u32 (x - y)).
Definition xor_si : register -> register -> register := zip_with Z.lxor.
Definition and_si : register -> register -> register := zip_with Z.land.
Definition or_si : register -> register -> register := zip_with Z.lor.
Definition andnot_si : register -> register -> register := zip_with (fun x y => Z.land (u32 (Z.lnot x)) y).

(** [_mm_srli_epi32], [_mm_slli_epi32], [_mm_ror_epi32] *)
Definition srli_epi32 (v : register) (n : Z) : register := map (fun w => Z.shiftr w n) v.
Definition slli_epi32 (v : register) (n : Z) : register := map (fun w => u32 (Z.shiftl w n)) v.
Definition ror_epi32 (v : register) (n : Z) : register := map (fun w => rotr32 w n) v.

(** [_mm_cmpgt_epi32]: signed, all ones where it holds. *)
Definition signed32 (w : Z) : Z := if w <? 2 ^ 31 then w else w - 2 ^ 32.
Definition cmpgt_epi32 : register -> register -> register :=
  zip_with (fun x y => if signed32 y <? signed32 x then 2 ^ 32 - 1 else 0).

(** [_MM_SHUFFLE( z, y, x, w )] *)
Definition MM_SHUFFLE (z y x w : Z) : Z := Z.lor (Z.lor (Z.shiftl z 6) (Z.shiftl y 4)) (Z.lor (Z.shiftl x 2) w).

(** The [k]-th two-bit field of an immediate operand. *)
Definition field (imm : Z) (k : Z) : nat := Z.to_nat (Z.land (Z.shiftr imm (2 * k)) 3).

(** [_mm_shuffle_epi32], [_mm_shuffle_ps] *)
Definition shuffle_epi32 (v : register) (imm : Z) : register := map (fun k => at_word v (field imm k)) [0; 1; 2; 3].
Definition shuffle_ps (a b : register) (imm : Z) : register :=
  [at_word a (field imm 0); at_word a (field imm 1); at_word b (field imm 2); at_word b (field imm 3)].

(** [_mm_unpacklo_epi32], [_mm_unpackhi_epi32], [_mm_unpacklo_epi64],
    [_mm_unpackhi_epi64]: in each 128-bit lane. *)
Definition in_lanes (f : register -> register -> register) (a b : register) : register := concat (zip_with f (quads a) (quads b)).
Definition unpacklo_epi32 : register -> register -> register :=
  in_lanes (fun a b => [at_word a 0; at_word b 0; at_word a 1; at_word b 1]).
Definition unpackhi_epi32 : register -> register -> register :=
  in_lanes (fun a b => [at_word a 2; at_word b 2; at_word a 3; at_word b 3]).
Definition unpacklo_epi64 : register -> register -> register :=
  in_lanes (fun a b => [at_word a 0; at_word a 1; at_word b 0; at_word b 1]).
Definition unpackhi_epi64 : register -> register -> register :=
  in_lanes (fun a b => [at_word a 2; at_word a 3; at_word b 2; at_word b 3]).

(** [_mm_shuffle_epi8]: in each 128-bit lane, a byte by the low four bits of its
    index, zero when the top bit is set. *)
Definition shuffle_epi8 : register -> register -> register :=
  in_lanes (fun v index =>
    of_bytes (map (fun i => if Z.testbit i 7 then 0 else at_word (as_bytes v) (Z.to_nat (Z.land i 15))) (as_bytes index))).

(** [_mm_set_epi8], [_mm_set_epi16], [_mm_set_epi32]: the highest first. *)
Definition set_epi8 (b : list Z) : register := of_bytes (reverse b).
Definition set_epi16 (h : list Z) : register := of_halves (reverse h).
Definition set_epi32 (w : list Z) : register := reverse w.

(** ** The mixing, over any words *)

(** The operations of a file on its registers. *)
Record word_ops (W : Type) := WordOps {
  w_add : W -> W -> W;
  w_xor : W -> W -> W;
  w_rot16 : W -> W;
  w_rot12 : W -> W;
  w_rot8 : W -> W;
  w_rot7 : W -> W
}.
#[global] Arguments WordOps {W} _ _ _ _ _ _.
#[global] Arguments w_add {W} _ _ _.
#[global] Arguments w_xor {W} _ _ _.
#[global] Arguments w_rot16 {W} _ _.
#[global] Arguments w_rot12 {W} _ _.
#[global] Arguments w_rot8 {W} _ _.
#[global] Arguments w_rot7 {W} _ _.

(** The words of the portable code. *)
Definition portable_ops : word_ops Z :=
  WordOps (fun x y => u32 (x + y)) Z.lxor (fun w => rotr32 w 16) (fun w => rotr32 w 12) (fun w => rotr32 w 8) (fun w => rotr32 w 7).

(** [MSG_SCHEDULE[ r ][ j ]] *)
Definition schedule (r j : nat) : nat := default 0%nat (default [] (MSG_SCHEDULE !! r) !! j).

Section mixing.
Context {W : Type} (none : W) (o : word_ops W).

Definition get (v : list W) (i : nat) : W := default none (v !! i).

(** [v[ i ] = addv( v[ i ], m[ MSG_SCHEDULE[ r ][ j ] ] )] for the pairs [( i, j )] *)
Definition add_msgs (m : list W) (r : nat) (l : list (nat * nat)) (v : list W) : list W :=
  fold_left (fun v p => <[p.1 := w_add o (get v p.1) (get m (schedule r p.2))]> v) l v.
(** [v[ i ] = addv( v[ i ], v[ j ] )], [v[ i ] = xorv( v[ i ], v[ j ] )], [v[ i ] = rot( v[ i ] )] *)
Definition adds (l : list (nat * nat)) (v : list W) : list W :=
  fold_left (fun v p => <[p.1 := w_add o (get v p.1) (get v p.2)]> v) l v.
Definition xors (l : list (nat * nat)) (v : list W) : list W :=
  fold_left (fun v p => <[p.1 := w_xor o (get v p.1) (get v p.2)]> v) l v.
Definition rots (rot : W -> W) (l : list nat) (v : list W) : list W :=
  fold_left (fun v i => <[i := rot (get v i)]> v) l v.

(** [round_fn]: columns, then diagonals, four at a time. *)
Definition vec_round_fn (v m : list W) (r : nat) : list W :=
  let v := add_msgs m r [(0, 0); (1, 2); (2, 4); (3, 6)]%nat v in
  let v := adds [(0, 4); (1, 5); (2, 6); (3, 7)]%nat v in
  let v := xors [(12, 0); (13, 1); (14, 2); (15, 3)]%nat v in
  let v := rots (w_rot16 o) [12; 13; 14; 15]%nat v in
  let v := adds [(8, 12); (9, 13); (10, 14); (11, 15)]%nat v in
  let v := xors [(4, 8); (5, 9); (6, 10); (7, 11)]%nat v in
  let v := rots (w_rot12 o) [4; 5; 6; 7]%nat v in
  let v := add_msgs m r [(0, 1); (1, 3); (2, 5); (3, 7)]%nat v in
  let v := adds [(0, 4); (1, 5); (2, 6); (3, 7)]%nat v in
  let v := xors [(12, 0); (13, 1); (14, 2); (15, 3)]%nat v in
  let v := rots (w_rot8 o) [12; 13; 14; 15]%nat v in
  let v := adds [(8, 12); (9, 13); (10, 14); (11, 15)]%nat v in
  let v := xors [(4, 8); (5, 9); (6, 10); (7, 11)]%nat v in
  let v := rots (w_rot7 o) [4; 5; 6; 7]%nat v in

  let v := add_msgs m r [(0, 8); (1, 10); (2, 12); (3, 14)]%nat v in
  let v := adds [(0, 5); (1, 6); (2, 7); (3, 4)]%nat v in
  let v := xors [(15, 0); (12, 1); (13, 2); (14, 3)]%nat v in
  let v := rots (w_rot16 o) [15; 12; 13; 14]%nat v in
  let v := adds [(10, 15); (11, 12); (8, 13); (9, 14)]%nat v in
  let v := xors [(5, 10); (6, 11); (7, 8); (4, 9)]%nat v in
  let v := rots (w_rot12 o) [5; 6; 7; 4]%nat v in
  let v := add_msgs m r [(0, 9); (1, 11); (2, 13); (3, 15)]%nat v in
  let v := adds [(0, 5); (1, 6); (2, 7); (3, 4)]%nat v in
  let v := xors [(15, 0); (12, 1); (13, 2); (14, 3)]%nat v in
  let v := rots (w_rot8 o) [15; 12; 13; 14]%nat v in
  let v := adds [(10, 15); (11, 12); (8, 13); (9, 14)]%nat v in
  let v := xors [(5, 10); (6, 11); (7, 8); (4, 9)]%nat v in
  rots (w_rot7 o) [5; 6; 7; 4]%nat v.

(** ** The mixing, one column after the other

    The same as [g] of blake3_portable.c, with the additions in the order of the
    vector code; [l] is the message in the order of the round. *)

Definition half_mix (rot1 rot2 : W -> W) (x : W) (a b c d : nat) (s : list W) : list W :=
  let s := <[a := w_add o (w_add o (get s a) x) (get s b)]> s in
  let s := <[d := rot1 (w_xor o (get s d) (get s a))]> s in
  let s := <[c := w_add o (get s c) (get s d)]> s in
  <[b := rot2 (w_xor o (get s b) (get s c))]> s.

Definition mix (l : list W) (i : nat) (a b c d : nat) (s : list W) : list W :=
  half_mix (w_rot8 o) (w_rot7 o) (get l (i + 1)) a b c d (half_mix (w_rot16 o) (w_rot12 o) (get l i) a b c d s).

Definition mix_round (l s : list W) : list W :=
  let s := mix l 0 0 4 8 12 s in
  let s := mix l 2 1 5 9 13 s in
  let s := mix l 4 2 6 10 14 s in
  let s := mix l 6 3 7 11 15 s in
  let s := mix l 8 0 5 10 15 s in
  let s := mix l 10 1 6 11 12 s in
  let s := mix l 12 2 7 8 13 s in
  mix l 14 3 4 9 14 s.

(** The message words in the order of round [r]. *)
Definition scheduled (m : list W) (r : nat) : list W := map (fun j => get m (schedule r j)) (seq 0 16).

End mixing.

(** Names the sixteen elements of a list. *)
Ltac sixteen v :=
  let H := fresh in
  intros H;
  do 16 (let x := fresh "x" in destruct v as [|x v]; [discriminate H|]);
  destruct v; [clear H|discriminate H].

Lemma vec_round_fn_mix {W} (none : W) o v m r :
  length v = 16%nat -> vec_round_fn none o v m r = mix_round none o (scheduled none m r) v.
Proof. sixteen v. reflexivity. Qed.

(** ** Two kinds of words side by side *)

Section related.
Context {W W' : Type} (none : W) (none' : W') (o : word_ops W) (o' : word_ops W') (R : W -> W' -> Prop).

(** The operations keep [R]. *)
Record ops_related : Prop := {
  rel_add : forall a a' b b', R a a' -> R b b' -> R (w_add o a b) (w_add o' a' b');
  rel_xor : forall a a' b b', R a a' -> R b b' -> R (w_xor o a b) (w_xor o' a' b');
  rel_rot16 : forall a a', R a a' -> R (w_rot16 o a) (w_rot16 o' a');
  rel_rot12 : forall a a', R a a' -> R (w_rot12 o a) (w_rot12 o' a');
  rel_rot8 : forall a a', R a a' -> R (w_rot8 o a) (w_rot8 o' a');
  rel_rot7 : forall a a', R a a' -> R (w_rot7 o a) (w_rot7 o' a')
}.

Context (HR : ops_related).

Lemma get_rel s s' i : Forall2 R s s' -> (i < length s)%nat -> R (get none s i) (get none' s' i).
Proof using Type.
  intros H Hi. destruct (lookup_lt_is_Some_2 s i Hi) as [x Hx]. destruct (Forall2_lookup_l _ _ _ _ _ H Hx) as (x' & Hx' & Hr).
  unfold get. by rewrite Hx, Hx'.
Qed.

Lemma half_mix_rel rot1 rot1' rot2 rot2' x x' a b c d s s' :
  (forall w w', R w w' -> R (rot1 w) (rot1' w')) -> (forall w w', R w w' -> R (rot2 w) (rot2' w')) -> R x x' ->
  (a < 16)%nat -> (b < 16)%nat -> (c < 16)%nat -> (d < 16)%nat -> Forall2 R s s' -> length s = 16%nat ->
  Forall2 R (half_mix none o rot1 rot2 x a b c d s) (half_mix none' o' rot1' rot2' x' a b c d s').
Proof using HR.
  intros H1 H2 Hx Ha Hb Hc Hd Hs Hl. destruct HR as [Hadd Hxor _ _ _ _]. unfold half_mix.
  repeat match goal with
  | |- Forall2 R (<[_ := _]> _) _ => apply Forall2_insert
  | |- R (w_add o _ _) _ => apply Hadd
  | |- R (w_xor o _ _) _ => apply Hxor
  | |- R (rot1 _) _ => apply H1
  | |- R (rot2 _) _ => apply H2
  | |- R (get _ _ _) _ => apply get_rel
  end; rewrite ?length_insert, ?Hl; done.
Qed.

Lemma length_half_mix rot1 rot2 x a b c d s : length (half_mix none o rot1 rot2 x a b c d s) = length s.
Proof using Type. unfold half_mix. by rewrite !length_insert. Qed.

Lemma mix_rel l l' i a b c d s s' :
  (a < 16)%nat -> (b < 16)%nat -> (c < 16)%nat -> (d < 16)%nat -> (i + 1 < length l)%nat -> Forall2 R l l' ->
  Forall2 R s s' /\ length s = 16%nat ->
  Forall2 R (mix none o l i a b c d s) (mix none' o' l' i a b c d s') /\ length (mix none o l i a b c d s) = 16%nat.
Proof using HR.
  intros Ha Hb Hc Hd Hi Hll [Hs Hl]. unfold mix. rewrite !length_half_mix. split; [|done].
  apply half_mix_rel; rewrite ?length_half_mix; auto using rel_rot8, rel_rot7 with lia; [apply get_rel; [done|lia]|].
  apply half_mix_rel; auto using rel_rot16, rel_rot12. apply get_rel; [done|lia].
Qed.

Lemma mix_round_rel l l' s s' :
  Forall2 R l l' -> length l = 16%nat -> Forall2 R s s' /\ length s = 16%nat ->
  Forall2 R (mix_round none o l s) (mix_round none' o' l' s') /\ length (mix_round none o l s) = 16%nat.
Proof using HR. intros Hll Hl H. unfold mix_round. cbv zeta.
  do 8 (apply mix_rel; [lia|lia|lia|lia|lia|done|]).
  done.
Qed.

Lemma scheduled_rel m m' r : Forall2 R m m' -> length m = 16%nat -> Forall2 R (scheduled none m r) (scheduled none' m' r).
Proof using Type.
  intros Hm Hl. unfold scheduled. apply Forall2_fmap. apply Forall_Forall2_diag, Forall_forall. intros j _. apply get_rel; [done|]. rewrite Hl.
  unfold schedule. destruct (MSG_SCHEDULE !! r) as [row|] eqn:Hr; [|destruct j; cbn; lia]. change (default [] (Some row)) with row.
  assert (Forall (Forall (fun i => i < 16)%nat) MSG_SCHEDULE) as Hall by (repeat constructor).
  pose proof (Forall_lookup_1 _ _ _ _ Hall Hr) as Hrow. destruct (row !! j) as [i|] eqn:Hj; [|cbn; lia]. exact (Forall_lookup_1 _ _ _ _ Hrow Hj).
Qed.
End related.

Lemma length_mix_round {W} (none : W) o l s : length (mix_round none o l s) = length s.
Proof. unfold mix_round. cbv zeta. unfold mix. by rewrite !length_half_mix. Qed.

Lemma length_scheduled {W} (none : W) m r : length (scheduled none m r) = 16%nat.
Proof. reflexivity. Qed.

(** ** The portable round *)

Lemma u32_add_l a b : u32 (u32 a + b) = u32 (a + b).
Proof. unfold wrap. by rewrite Zplus_mod_idemp_l. Qed.

Lemma g_mix s a b c d l i x y :
  get 0 l i = x -> get 0 l (i + 1) = y -> g s a b c d x y = mix 0 portable_ops l i a b c d s.
Proof.
  intros <- <-. unfold g, mix, half_mix. cbn [w_add w_xor w_rot16 w_rot12 w_rot8 w_rot7 portable_ops].
  change (@get Z 0) with at_word. cbv zeta. rewrite !u32_add_l.
  assert (forall p q z, p + q + z = p + z + q) as Hc by (intros; lia). rewrite !(Hc _ (at_word _ b)). done.
Qed.

Lemma round_fn_mix s m r : round_fn s m r = mix_round 0 portable_ops (scheduled 0 m r) s.
Proof. unfold round_fn, mix_round. cbv zeta. by erewrite !g_mix. Qed.

(** ** Rotations of a word *)

Lemma rotr32_split w n : 0 <= n <= 32 -> u32_ok w -> rotr32 w n = w / 2 ^ n + (w `mod` 2 ^ n) * 2 ^ (32 - n).
Proof.
  intros Hn Hw. unfold rotr32. rewrite wrap_shiftl by lia. replace (32 - (32 - n)) with n by lia. rewrite Z.shiftr_div_pow2 by lia.
  apply lor_above; [lia|]. unfold u32_ok in Hw. split; [apply Z.div_pos; lia|]. apply Z.div_lt_upper_bound; [lia|].
  rewrite <- Z.pow_add_r by lia. replace (n + (32 - n)) with 32 by lia. lia.
Qed.

(** The rotation as the exclusive or of two shifts. *)
Lemma rotr32_lxor w n : 0 <= n <= 32 -> u32_ok w -> Z.lxor (Z.shiftr w n) (u32 (Z.shiftl w (32 - n))) = rotr32 w n.
Proof.
  intros Hn Hw. rewrite rotr32_split by done. rewrite wrap_shiftl by lia. replace (32 - (32 - n)) with n by lia. rewrite Z.shiftr_div_pow2 by lia.
  apply lxor_above; [lia|]. unfold u32_ok in Hw. split; [apply Z.div_pos; lia|]. apply Z.div_lt_upper_bound; [lia|].
  rewrite <- Z.pow_add_r by lia. replace (n + (32 - n)) with 32 by lia. lia.
Qed.

Lemma rotr32_ok w n : 0 <= n <= 32 -> u32_ok w -> u32_ok (rotr32 w n).
Proof.
  intros Hn Hw. rewrite rotr32_split by done. unfold u32_ok in *. pose proof (Z.mod_pos_bound w (2 ^ n) ltac:(lia)) as Hm.
  assert (2 ^ n * 2 ^ (32 - n) = 2 ^ 32) as Hp by (rewrite <- Z.pow_add_r by lia; f_equal; lia).
  assert (0 <= w / 2 ^ n) by (apply Z.div_pos; lia). assert (w / 2 ^ n < 2 ^ (32 - n)) by (apply Z.div_lt_upper_bound; lia). nia.
Qed.

(** ** Lanes *)

(** [F] does [f] to every lane of a register of [n] words. *)
Definition lane_op1 (n : nat) (f : Z -> Z) (F : register -> register) : Prop :=
  forall a, length a = n -> length (F a) = n /\ forall i w, a !! i = Some w -> u32_ok w -> F a !! i = Some (f w).
Definition lane_op2 (n : nat) (f : Z -> Z -> Z) (F : register -> register -> register) : Prop :=
  forall a b, length a = n -> length b = n ->
    length (F a b) = n /\ forall i x y, a !! i = Some x -> b !! i = Some y -> F a b !! i = Some (f x y).

(** What a file's operations promise on registers of [n] words. *)
Class Lanewise (n : nat) (o : word_ops register) : Prop := {
  lw_add : lane_op2 n (fun x y => u32 (x + y)) (w_add o);
  lw_xor : lane_op2 n Z.lxor (w_xor o);
  lw_rot16 : lane_op1 n (fun w => rotr32 w 16) (w_rot16 o);
  lw_rot12 : lane_op1 n (fun w => rotr32 w 12) (w_rot12 o);
  lw_rot8 : lane_op1 n (fun w => rotr32 w 8) (w_rot8 o);
  lw_rot7 : lane_op1 n (fun w => rotr32 w 7) (w_rot7 o)
}.

Lemma map_lanewise n f F : (forall a, length a = n -> exists h, F a = map h a /\ forall w, u32_ok w -> h w = f w) -> lane_op1 n f F.
Proof.
  intros HF a Ha. destruct (HF a Ha) as (h & -> & Hh). split; [by rewrite length_map|]. intros i w Hi Hw.
  rewrite list_lookup_fmap, Hi. cbn. by rewrite Hh.
Qed.

Lemma zip_lanewise n f : lane_op2 n f (zip_with f).
Proof.
  intros a b Ha Hb. split; [rewrite length_zip_with; lia|]. intros i x y Hx Hy. by rewrite lookup_zip_with, Hx; cbn; rewrite Hy.
Qed.

(** Lane [i] of [v] is the word [w]. *)
Definition lane (n i : nat) (v : register) (w : Z) : Prop := length v = n /\ v !! i = Some w /\ u32_ok w.

Lemma lane_op1_lane n i f F v w : lane_op1 n f F -> (forall w, u32_ok w -> u32_ok (f w)) -> lane n i v w -> lane n i (F v) (f w).
Proof. intros HF Hf (Hl & Hi & Hw). destruct (HF v Hl) as [Hl' Hi']. split; [done|]. split; [by apply Hi'|by apply Hf]. Qed.

Lemma lane_op2_lane n i f F v v' w w' :
  lane_op2 n f F -> (forall x y, u32_ok x -> u32_ok y -> u32_ok (f x y)) -> lane n i v w -> lane n i v' w' -> lane n i (F v v') (f w w').
Proof.
  intros HF Hf (Hl & Hi & Hw) (Hl' & Hi' & Hw'). destruct (HF v v' Hl Hl') as [H1 H2]. split; [done|]. split; [by apply H2|by apply Hf].
Qed.

Lemma lxor_u32_ok x y : u32_ok x -> u32_ok y -> u32_ok (Z.lxor x y).
Proof. intros Hx Hy. by apply lxor_range. Qed.

Lemma fold_left_rel {A B C} (P : A -> B -> Prop) (f : A -> C -> A) (g : B -> C -> B) l a b :
  (forall a b c, P a b -> P (f a c) (g b c)) -> P a b -> P (fold_left f l a) (fold_left g l b).
Proof. intros Hf. revert a b. induction l as [|c l IH]; intros a b Hab; [done|]. cbn [fold_left]. apply IH. by apply Hf. Qed.

Section lanes.
Context (n : nat) (o : word_ops register) `{Hlw : !Lanewise n o}.

Lemma lane_related i : ops_related o portable_ops (lane n i).
Proof using Hlw.
  assert (forall k w, 0 <= k <= 32 -> u32_ok w -> u32_ok (rotr32 w k)) as Hrot by (intros; by apply rotr32_ok).
  constructor; intros.
  - apply (lane_op2_lane n i _ _ _ _ _ _ lw_add); [intros; apply wrap_range; lia|done|done].
  - apply (lane_op2_lane n i _ _ _ _ _ _ lw_xor); [by intros; apply lxor_u32_ok|done|done].
  - apply (lane_op1_lane n i _ _ _ _ lw_rot16); [intros; apply Hrot; [lia|done]|done].
  - apply (lane_op1_lane n i _ _ _ _ lw_rot12); [intros; apply Hrot; [lia|done]|done].
  - apply (lane_op1_lane n i _ _ _ _ lw_rot8); [intros; apply Hrot; [lia|done]|done].
  - apply (lane_op1_lane n i _ _ _ _ lw_rot7); [intros; apply Hrot; [lia|done]|done].
Qed.

(** A round on registers is the portable round on each lane. *)
Lemma vec_round_fn_lane i v m r s msg :
  Forall2 (lane n i) v s -> length v = 16%nat -> Forall2 (lane n i) m msg -> length m = 16%nat ->
  Forall2 (lane n i) (vec_round_fn [] o v m r) (round_fn s msg r) /\ length (vec_round_fn [] o v m r) = 16%nat.
Proof using Hlw.
  intros Hv Hl Hm Hlm. rewrite vec_round_fn_mix, round_fn_mix by done. apply mix_round_rel; [apply lane_related|by apply scheduled_rel|done|done].
Qed.

(** The seven rounds. *)
Definition vec_rounds (v m : list register) : list register := fold_left (fun v r => vec_round_fn [] o v m r) (seq 0 7) v.

Lemma vec_rounds_lane i v m s msg :
  Forall2 (lane n i) v s -> length v = 16%nat -> Forall2 (lane n i) m msg -> length m = 16%nat ->
  Forall2 (lane n i) (vec_rounds v m) (fold_left (fun s r => round_fn s msg r) (seq 0 7) s) /\ length (vec_rounds v m) = 16%nat.
Proof using Hlw.
  intros Hv Hl Hm Hlm. unfold vec_rounds. apply (fold_left_rel (fun v s => Forall2 (lane n i) v s /\ length v = 16%nat)); [|done].
  intros v' s' r [Hv' Hl']. by apply vec_round_fn_lane.
Qed.
End lanes.

(** ** Matrices of words *)

(** The registers of a matrix: row [i] holds [f i j] in lane [j]. *)
Definition rect (rows cols : nat) (f : nat -> nat -> Z) : list register := map (fun i => map (f i) (seq 0 cols)) (seq 0 rows).

Lemma lane_map n i (f : nat -> Z) : (i < n)%nat -> u32_ok (f i) -> lane n i (map f (seq 0 n)) (f i).
Proof.
  intros Hi Hf. split; [by rewrite length_map, length_seq|]. split; [|done]. rewrite list_lookup_fmap, lookup_seq_lt by done. done.
Qed.

Lemma lane_set1 n i x : (i < n)%nat -> u32_ok x -> lane n i (set1_epi32 n x) x.
Proof.
  intros Hi Hx. unfold set1_epi32. rewrite wrap_small by done. split; [by rewrite length_replicate|]. split; [by apply lookup_replicate_2|done].
Qed.

Lemma lane_rect rows n i f : (i < n)%nat -> (forall w, u32_ok (f w i)) -> Forall2 (lane n i) (rect rows n f) (map (fun w => f w i) (seq 0 rows)).
Proof. intros Hi Hf. apply Forall2_fmap, Forall_Forall2_diag, Forall_forall. intros w _. by apply lane_map. Qed.

(** Registers with known lanes are a matrix. *)
Lemma lanes_rect rows n (h : list register) (cv : nat -> list Z) :
  length h = rows -> (forall i, (i < n)%nat -> Forall2 (lane n i) h (cv i)) -> (0 < n)%nat -> h = rect rows n (fun w i => at_word (cv i) w).
Proof.
  intros Hl Hh Hn. apply list_eq. intros w. unfold rect. rewrite list_lookup_fmap. destruct (decide (w < rows)%nat) as [Hw|Hw].
  - rewrite lookup_seq_lt by done. cbn [fmap option_fmap option_map]. destruct (lookup_lt_is_Some_2 h w ltac:(lia)) as [v Hv]. rewrite Hv. f_equal.
    assert (forall i, (i < n)%nat -> length v = n /\ v !! i = Some (at_word (cv i) w)) as Hlane.
    { intros i Hi. destruct (Forall2_lookup_l _ _ _ _ _ (Hh i Hi) Hv) as (x & Hx & H1 & H2 & _). split; [done|]. unfold at_word. by rewrite Hx. }
    apply list_eq. intros i. rewrite list_lookup_fmap. destruct (decide (i < n)%nat) as [Hi|Hi].
    + rewrite lookup_seq_lt by done. by destruct (Hlane i Hi).
    + rewrite (lookup_ge_None_2 (seq 0 n)) by (rewrite length_seq; lia). apply lookup_ge_None_2. destruct (Hlane 0%nat Hn). lia.
  - rewrite (lookup_ge_None_2 (seq 0 rows)) by (rewrite length_seq; lia). apply lookup_ge_None_2. lia.
Qed.

(** ** Inputs and counters *)

Definition input_at (inputs : list bytes) (i : nat) : bytes := default [] (inputs !! i).

(** The counter of the [i]-th input. *)
Definition counter_at (counter : Z) (increment_counter : bool) (i : nat) : Z :=
  if increment_counter then u64 (counter + Z.of_nat i) else counter.

Lemma counter_at_ok c inc i : u64_ok c -> u64_ok (counter_at c inc i).
Proof. intros Hc. unfold counter_at. destruct inc; [by apply wrap_range|done]. Qed.

Lemma counter_words_ok c : u64_ok c -> u32_ok (counter_low c) /\ u32_ok (counter_high c).
Proof. intros _. split; apply wrap_range; lia. Qed.

Lemma load32_ok src i : bytes_ok src -> u32_ok (load32 src i).
Proof.
  intros Hb. unfold load32. pose proof (le_val_range (take 4 (drop (4 * i) src)) ltac:(by apply Forall_take, Forall_drop)) as Hr.
  assert (zlen (take 4 (drop (4 * i) src)) <= 4) by (unfold zlen; rewrite length_take; lia). unfold u32_ok.
  assert (2 ^ (8 * zlen (take 4 (drop (4 * i) src))) <= 2 ^ 32) by (apply Z.pow_le_mono_r; lia). lia.
Qed.

(** The words of a block do not depend on what follows it. *)
Lemma load32_take src w : (w < 16)%nat -> load32 (take BLAKE3_BLOCK_LEN src) w = load32 src w.
Proof.
  intros Hw. unfold load32, BLAKE3_BLOCK_LEN. rewrite List.skipn_firstn_comm, take_take. f_equal. f_equal. lia.
Qed.

Lemma input_ok inputs i : Forall bytes_ok inputs -> bytes_ok (input_at inputs i).
Proof. intros H. unfold input_at. destruct (inputs !! i) as [b|] eqn:E; [by eapply (Forall_lookup_1 bytes_ok)|by constructor]. Qed.

(** ** Several inputs side by side *)

Section hash_vecs.
Context (n : nat) (o : word_ops register) (transpose_msg_vecs : list bytes -> nat -> list register).

(** [v[ 16 ]] of [blake3_hash4] and the like *)
Definition vec_state (h_vecs : list register) (counter_low_vec counter_high_vec : register) (block_len flags : Z) : list register :=
  h_vecs ++ map (set1_epi32 n) (take 4 IV) ++ [counter_low_vec; counter_high_vec; set1_epi32 n block_len; set1_epi32 n flags].

(** [h_vecs[ i ] = xorv( v[ i ], v[ i + 8 ] )] *)
Definition fold_state (v : list register) : list register := map (fun i => w_xor o (get [] v i) (get [] v (i + 8))) (seq 0 8).

(** The loop over the blocks, [remaining] of them from number [block] on. *)
Fixpoint vec_blocks (inputs : list bytes) (remaining block : nat) (h_vecs : list register) (counter_low_vec counter_high_vec : register)
    (flags block_flags flags_end : Z) : list register :=
  match remaining with
  | O => h_vecs
  | S k =>
      let block_flags := if (k =? 0)%nat then Z.lor block_flags flags_end else block_flags in
      let msg_vecs := transpose_msg_vecs inputs (block * BLAKE3_BLOCK_LEN) in
      let v := vec_rounds o (vec_state h_vecs counter_low_vec counter_high_vec (Z.of_nat BLAKE3_BLOCK_LEN) block_flags) msg_vecs in
      vec_blocks inputs k (S block) (fold_state v) counter_low_vec counter_high_vec flags flags flags_end
  end.

(** [blake3_hash4] and the like up to the transposition of the result. *)
Definition vec_hash (load_counters : Z -> bool -> register * register) (inputs : list bytes) (blocks : nat) (key : list Z) (counter : Z)
    (increment_counter : bool) (flags flags_start flags_end : Z) : list register :=
  let h_vecs := map (fun i => set1_epi32 n (at_word key i)) (seq 0 8) in
  let '(counter_low_vec, counter_high_vec) := load_counters counter increment_counter in
  vec_blocks inputs blocks 0 h_vecs counter_low_vec counter_high_vec flags (Z.lor flags flags_start) flags_end.

(** ** Each lane is the portable code *)

Context `{Hlw : !Lanewise n o}.

(** The message vectors of block at [off]: word [w] of input [i] in lane [i]. *)
Context (Hmsg : forall inputs off, transpose_msg_vecs inputs off = rect 16 n (fun w i => load32 (drop off (input_at inputs i)) w)).

Lemma vec_state_lane i h cv lo hi c len flags :
  (i < n)%nat -> Forall2 (lane n i) h cv -> lane n i lo (counter_low c) -> lane n i hi (counter_high c) -> u32_ok len -> u32_ok flags ->
  Forall2 (lane n i) (vec_state h lo hi len flags) (cv ++ take 4 IV ++ [counter_low c; counter_high c; len; flags]).
Proof using Type.
  intros Hi Hh Hlo Hhi Hlen Hf. unfold vec_state. apply Forall2_app; [done|]. apply Forall2_app.
  - rewrite <- (map_id (take 4 IV)) at 2. apply Forall2_fmap, Forall_Forall2_diag. cbn [take IV]. repeat (apply Forall_cons_2; [by apply lane_set1|]). apply Forall_nil_2.
  - repeat (apply Forall2_cons_2; [first [exact Hlo|exact Hhi|by apply lane_set1]|]). apply Forall2_nil_2.
Qed.

Lemma fold_state_lane i v s :
  Forall2 (lane n i) v s -> length v = 16%nat ->
  Forall2 (lane n i) (fold_state v) (map (fun i => Z.lxor (at_word s i) (at_word s (i + 8))) (seq 0 8)).
Proof using Hlw.
  intros Hv Hl. unfold fold_state. apply Forall2_fmap, Forall_Forall2_diag, Forall_forall. intros j [_ Hj]%in_seq. change at_word with (@get Z 0).
  apply (rel_xor _ _ _ (lane_related n o i)); apply get_rel; try done; lia.
Qed.

Lemma vec_block_lane i h cv lo hi c len flags msg block :
  (i < n)%nat -> Forall2 (lane n i) h cv -> length h = 8%nat -> lane n i lo (counter_low c) -> lane n i hi (counter_high c) ->
  u32_ok len -> u32_ok flags -> Forall2 (lane n i) msg (load_block_words block) -> length msg = 16%nat ->
  Forall2 (lane n i) (fold_state (vec_rounds o (vec_state h lo hi len flags) msg)) (blake3_compress_in_place cv block len c flags).
Proof using Hlw.
  intros Hi Hh Hl Hlo Hhi Hlen Hf Hm Hlm. pose proof (vec_state_lane i h cv lo hi c len flags Hi Hh Hlo Hhi Hlen Hf) as Hs.
  assert (length (vec_state h lo hi len flags) = 16%nat) as Hls by (unfold vec_state; rewrite !length_app, Hl; done).
  destruct (vec_rounds_lane n o i _ _ _ _ Hs Hls Hm Hlm) as [Hv Hlv]. by apply (fold_state_lane i _ _ Hv Hlv).
Qed.

Lemma vec_blocks_lane i inputs c lo hi flags flags_end :
  (i < n)%nat -> Forall bytes_ok inputs -> lane n i lo (counter_low c) -> lane n i hi (counter_high c) ->
  0 <= flags < 256 -> 0 <= flags_end < 256 ->
  forall remaining block h cv block_flags,
    Forall2 (lane n i) h cv -> length h = 8%nat -> 0 <= block_flags < 256 ->
    let h' := vec_blocks inputs remaining block h lo hi flags block_flags flags_end in
    Forall2 (lane n i) h' (hash_blocks (drop (block * BLAKE3_BLOCK_LEN) (input_at inputs i)) remaining cv c flags block_flags flags_end) /\ length h' = 8%nat.
Proof using Hlw Hmsg.
  intros Hi Hin Hlo Hhi Hf Hfe remaining. induction remaining as [|k IH]; intros block h cv bf Hh Hl Hbf; [done|].
  cbn [vec_blocks hash_blocks]. cbv zeta. set (bf' := if (k =? 0)%nat then Z.lor bf flags_end else bf). assert (0 <= bf' < 256) as Hbf'.
  { unfold bf'. destruct (k =? 0)%nat; [|done]. by apply (lor_range 8). }
  rewrite drop_drop. replace (block * BLAKE3_BLOCK_LEN + BLAKE3_BLOCK_LEN)%nat with (S block * BLAKE3_BLOCK_LEN)%nat by lia.
  apply IH; [|unfold fold_state; by rewrite length_map, length_seq|done].
  apply vec_block_lane; [done|done|done|done|done|done|unfold u32_ok; lia| |rewrite Hmsg; by unfold rect; rewrite length_map, length_seq].
  rewrite Hmsg. unfold load_block_words. rewrite (map_ext_in _ (fun w => load32 (drop (block * BLAKE3_BLOCK_LEN) (input_at inputs i)) w)).
  - apply (lane_rect 16 n i (fun w i => load32 (drop (block * BLAKE3_BLOCK_LEN) (input_at inputs i)) w)); [done|]. intros w. apply load32_ok, Forall_drop. by apply input_ok.
  - intros w [_ Hw]%in_seq. by apply load32_take.
Qed.

(** The counters of the lanes. *)
Definition counters_right (load_counters : Z -> bool -> register * register) : Prop :=
  forall counter inc, u64_ok counter ->
    load_counters counter inc = (map (fun i => counter_low (counter_at counter inc i)) (seq 0 n), map (fun i => counter_high (counter_at counter inc i)) (seq 0 n)).

Lemma vec_hash_rect load_counters inputs blocks key counter inc flags flags_start flags_end :
  counters_right load_counters -> (0 < n)%nat -> Forall bytes_ok inputs -> Forall u32_ok key -> length key = 8%nat -> u64_ok counter ->
  0 <= flags < 256 -> 0 <= flags_start < 256 -> 0 <= flags_end < 256 ->
  vec_hash load_counters inputs blocks key counter inc flags flags_start flags_end =
  rect 8 n (fun w i => at_word (hash_blocks (input_at inputs i) blocks key (counter_at counter inc i) flags (Z.lor flags flags_start) flags_end) w).
Proof using Hlw Hmsg.
  intros Hc Hn Hin Hk Hlk Hcounter Hf Hfs Hfe. unfold vec_hash. rewrite Hc by done.
  assert (0 <= Z.lor flags flags_start < 256) as Hbf by (by apply (lor_range 8)).
  assert (forall i, (i < n)%nat -> let h' := vec_blocks inputs blocks 0 (map (fun i => set1_epi32 n (at_word key i)) (seq 0 8))
      (map (fun i => counter_low (counter_at counter inc i)) (seq 0 n)) (map (fun i => counter_high (counter_at counter inc i)) (seq 0 n))
      flags (Z.lor flags flags_start) flags_end in
    Forall2 (lane n i) h' (hash_blocks (input_at inputs i) blocks key (counter_at counter inc i) flags (Z.lor flags flags_start) flags_end) /\ length h' = 8%nat) as Hall.
  { intros i Hi. destruct (counter_words_ok (counter_at counter inc i) (counter_at_ok _ _ _ Hcounter)) as [H1 H2].
    apply (vec_blocks_lane i inputs (counter_at counter inc i)); try done; [by apply (lane_map n i (fun i => counter_low (counter_at counter inc i)))|by apply (lane_map n i (fun i => counter_high (counter_at counter inc i)))|].
    assert (map (at_word key) (seq 0 8) = key) as Hkey by (clear -Hlk; do 8 (destruct key as [|? key]; [done|]); by destruct key).
    refine (eq_ind _ (Forall2 (lane n i) (map (fun j => set1_epi32 n (at_word key j)) (seq 0 8))) _ _ Hkey).
    apply Forall2_fmap, Forall_Forall2_diag, Forall_forall. intros w _. apply lane_set1; [done|].
    unfold at_word. destruct (key !! w) eqn:E; [by eapply (Forall_lookup_1 u32_ok)|by unfold u32_ok; cbn]. }
  apply lanes_rect; [by destruct (Hall 0%nat Hn)|intros i Hi; by destruct (Hall i Hi)|done].
Qed.
End hash_vecs.

(** ** Many inputs *)

(** A loop [while( num_inputs >= n )] of the [hash_many] functions: [hash_n]
    hashes the first [n] inputs, [rest] is what follows the loop. A round
    consumes at least one input, so their number is fuel enough. *)
Fixpoint degree_loop (fuel n : nat) (increment_counter : bool) (hash_n rest : list bytes -> Z -> bytes) (inputs : list bytes) (counter : Z) : bytes :=
  match fuel with
  | O => rest inputs counter
  | S fuel =>
      if (n <=? length inputs)%nat
      then hash_n inputs counter ++
           degree_loop fuel n increment_counter hash_n rest (drop n inputs) (if increment_counter then u64 (counter + Z.of_nat n) else counter)
      else rest inputs counter
  end.

(** [hash_one] of a file over its [compress_in_place]. *)
Fixpoint hash_blocks_with (compress : list Z -> bytes -> Z -> Z -> Z -> list Z) (input : bytes) (blocks : nat) (cv : list Z)
    (counter flags block_flags flags_end : Z) : list Z :=
  match blocks with
  | O => cv
  | S k =>
      let block_flags := if (k =? 0)%nat then Z.lor block_flags flags_end else block_flags in
      let cv := compress cv (take BLAKE3_BLOCK_LEN input) (Z.of_nat BLAKE3_BLOCK_LEN) counter block_flags in
      hash_blocks_with compress (drop BLAKE3_BLOCK_LEN input) k cv counter flags flags flags_end
  end.

Section many.
Context (blocks : nat) (key : list Z) (increment_counter : bool) (flags flags_start flags_end : Z).

(** The contract: the outputs of the portable code one after the other. *)
Definition portable_many (inputs : list bytes) (counter : Z) : bytes :=
  concat (blake3_hash_many inputs blocks key counter increment_counter flags flags_start flags_end).

Lemma counter_at_add c i j : counter_at (counter_at c increment_counter i) increment_counter j = counter_at c increment_counter (i + j).
Proof. unfold counter_at. destruct increment_counter; [|done]. unfold wrap. rewrite Zplus_mod_idemp_l. f_equal. lia. Qed.

Lemma portable_many_app inputs inputs' c :
  u64_ok c ->
  blake3_hash_many (inputs ++ inputs') blocks key c increment_counter flags flags_start flags_end =
  blake3_hash_many inputs blocks key c increment_counter flags flags_start flags_end ++
  blake3_hash_many inputs' blocks key (counter_at c increment_counter (length inputs)) increment_counter flags flags_start flags_end.
Proof.
  revert c. induction inputs as [|x inputs IH]; intros c Hc.
  - cbn [app blake3_hash_many length]. f_equal. unfold counter_at. destruct increment_counter; [|done]. by rewrite Z.add_0_r, wrap_small.
  - cbn [app blake3_hash_many length]. f_equal. change (if increment_counter then u64 (c + 1) else c) with (counter_at c increment_counter 1).
    rewrite IH by (by apply counter_at_ok). f_equal. f_equal. by rewrite counter_at_add.
Qed.

Lemma portable_many_split n inputs c :
  u64_ok c -> (n <= length inputs)%nat ->
  portable_many inputs c = portable_many (take n inputs) c ++ portable_many (drop n inputs) (counter_at c increment_counter n).
Proof.
  intros Hc Hn. unfold portable_many. rewrite <- (take_drop n inputs) at 1. rewrite portable_many_app by done. rewrite concat_app, length_take, Nat.min_l by done. done.
Qed.

(** The outputs of the first [n] inputs, by index. *)
Lemma portable_many_seq inputs c n :
  u64_ok c -> n = length inputs ->
  portable_many inputs c =
  concat (map (fun i => hash_one (input_at inputs i) blocks key (counter_at c increment_counter i) flags flags_start flags_end) (seq 0 n)).
Proof.
  intros Hc ->. revert c Hc. induction inputs as [|x inputs IH] using rev_ind; intros c Hc; [done|]. unfold portable_many in *. rewrite portable_many_app by done.
  rewrite length_app. cbn [length]. rewrite Nat.add_1_r, seq_S, map_app, !concat_app, IH by done. f_equal.
  - f_equal. apply map_ext_in. intros i [_ Hi]%in_seq. f_equal. unfold input_at. by rewrite lookup_app_l.
  - cbn [blake3_hash_many map concat]. f_equal. f_equal. unfold input_at. rewrite Nat.add_0_l. by rewrite list_lookup_middle.
Qed.

Lemma degree_loop_portable fuel n hash_n rest inputs c :
  (0 < n)%nat -> u64_ok c -> Forall bytes_ok inputs ->
  (forall inputs c, u64_ok c -> Forall bytes_ok inputs -> (n <= length inputs)%nat -> hash_n inputs c = portable_many (take n inputs) c) ->
  (forall inputs c, u64_ok c -> Forall bytes_ok inputs -> rest inputs c = portable_many inputs c) ->
  degree_loop fuel n increment_counter hash_n rest inputs c = portable_many inputs c.
Proof.
  intros Hn Hc Hin Hhash Hrest. revert inputs c Hc Hin. induction fuel as [|fuel IH]; intros inputs c Hc Hin; [by apply Hrest|]. cbn [degree_loop].
  destruct (n <=? length inputs)%nat eqn:E; [|by apply Hrest]. apply Nat.leb_le in E. rewrite (portable_many_split n) by done.
  change (if increment_counter then u64 (c + Z.of_nat n) else c) with (counter_at c increment_counter n).
  by rewrite Hhash, IH by (try apply counter_at_ok; try apply Forall_drop; done).
Qed.

(** A loop [while( num_inputs > 0 )] over single inputs. *)
Lemma single_loop_portable hash_1 inputs c :
  u64_ok c -> Forall bytes_ok inputs ->
  (forall input c, u64_ok c -> bytes_ok input -> hash_1 [input] c = hash_one input blocks key c flags flags_start flags_end) ->
  (forall inputs c, hash_1 inputs c = hash_1 [input_at inputs 0] c) ->
  degree_loop (length inputs) 1 increment_counter hash_1 (fun _ _ => []) inputs c = portable_many inputs c.
Proof.
  intros Hc Hin H1 Hfirst. revert c Hc Hin. induction inputs as [|x inputs IH]; intros c Hc Hin; [done|]. apply Forall_cons_1 in Hin as [Hx Hin].
  cbn [length degree_loop Nat.leb drop]. change (if increment_counter then u64 (c + Z.of_nat 1) else c) with (counter_at c increment_counter 1).
  rewrite IH by (try apply counter_at_ok; done). rewrite Hfirst. unfold input_at. cbn [lookup list_lookup default from_option id]. by rewrite H1.
Qed.
End many.

(** Registers that hold the chaining values, stored one input after the other. *)
Definition stores_lanes (n : nat) (store : list register -> bytes) : Prop :=
  forall f, store (rect 8 n f) = concat (map (fun i => storeu (map (fun w => f w i) (seq 0 8))) (seq 0 n)).

Lemma length_compress cv block len c flags : length (blake3_compress_in_place cv block len c flags) = 8%nat.
Proof. unfold blake3_compress_in_place. by rewrite length_map, length_seq. Qed.

Lemma length_hash_blocks input blocks key c flags bf fe : length key = 8%nat -> length (hash_blocks input blocks key c flags bf fe) = 8%nat.
Proof. revert input key bf. induction blocks as [|k IH]; intros input key bf Hk; [done|]. cbn [hash_blocks]. apply IH, length_compress. Qed.

Lemma at_words (l : list Z) n : length l = n -> map (at_word l) (seq 0 n) = l.
Proof.
  intros <-. apply list_eq. intros i. rewrite list_lookup_fmap. destruct (decide (i < length l)%nat) as [Hi|Hi].
  - rewrite lookup_seq_lt by done. destruct (lookup_lt_is_Some_2 l i Hi) as [x Hx]. cbn. unfold at_word. by rewrite Hx.
  - rewrite !lookup_ge_None_2; [done|lia|rewrite length_seq; lia].
Qed.

(** Hashing [n] inputs side by side is hashing each. *)
Theorem vec_hash_portable n o msgs load_counters store blocks key inc flags flags_start flags_end inputs c :
  Lanewise n o -> (forall inputs off, msgs inputs off = rect 16 n (fun w i => load32 (drop off (input_at inputs i)) w)) ->
  counters_right n load_counters -> stores_lanes n store -> (0 < n)%nat ->
  Forall u32_ok key -> length key = 8%nat -> 0 <= flags < 256 -> 0 <= flags_start < 256 -> 0 <= flags_end < 256 ->
  u64_ok c -> Forall bytes_ok inputs -> (n <= length inputs)%nat ->
  store (vec_hash n o msgs load_counters inputs blocks key c inc flags flags_start flags_end) =
  portable_many blocks key inc flags flags_start flags_end (take n inputs) c.
Proof.
  intros Hlw Hmsg Hc Hst Hn Hk Hlk Hf Hfs Hfe Hcounter Hin Hlen. rewrite (vec_hash_rect n o msgs Hmsg) by done. rewrite Hst.
  rewrite (portable_many_seq _ _ _ _ _ _ _ _ n) by (rewrite ?length_take; lia || done). f_equal. apply map_ext_in. intros i [_ Hi]%in_seq.
  unfold hash_one, store_cv_words, storeu. rewrite at_words by (by apply length_hash_blocks).
  do 3 f_equal. unfold input_at. by rewrite lookup_take_lt by lia.
Qed.
