(* ===== verification/Blake3Rows.v ===== *)
(** * The compression of one block in four registers

    [compress_pre] of blake3_sse2.c, blake3_sse41.c and blake3_avx512.c, which
    have the same text over different operations: the sixteen words of the
    state are the rows of a matrix in four registers, the columns are mixed side
    by side, and the rows are rotated so that the diagonals become columns. The
    message words are shuffled from the order of one round into that of the
    next. *)

From stdpp Require Import base list option numbers.
From S2P Require Import Prelude Memory Blake3Core Blake3Vector.

Record rows4 := Rows { row0 : register; row1 : register; row2 : register; row3 : register }.

Section rows.
Context (o : word_ops register) (blend_epi16 : register -> register -> Z -> register).

Definition g1 (s : rows4) (m : register) : rows4 :=
  let r0 := w_add o (w_add o (row0 s) m) (row1 s) in
  let r3 := w_xor o (row3 s) r0 in
  let r3 := w_rot16 o r3 in
  let r2 := w_add o (row2 s) r3 in
  let r1 := w_xor o (row1 s) r2 in
  let r1 := w_rot12 o r1 in
  Rows r0 r1 r2 r3.

Definition g2 (s : rows4) (m : register) : rows4 :=
  let r0 := w_add o (w_add o (row0 s) m) (row1 s) in
  let r3 := w_xor o (row3 s) r0 in
  let r3 := w_rot8 o r3 in
  let r2 := w_add o (row2 s) r3 in
  let r1 := w_xor o (row1 s) r2 in
  let r1 := w_rot7 o r1 in
  Rows r0 r1 r2 r3.

Definition diagonalize (s : rows4) : rows4 :=
  Rows (shuffle_epi32 (row0 s) (MM_SHUFFLE 2 1 0 3)) (row1 s) (shuffle_epi32 (row2 s) (MM_SHUFFLE 0 3 2 1))
    (shuffle_epi32 (row3 s) (MM_SHUFFLE 1 0 3 2)).

Definition undiagonalize (s : rows4) : rows4 :=
  Rows (shuffle_epi32 (row0 s) (MM_SHUFFLE 0 3 2 1)) (row1 s) (shuffle_epi32 (row2 s) (MM_SHUFFLE 2 1 0 3))
    (shuffle_epi32 (row3 s) (MM_SHUFFLE 1 0 3 2)).

(** Round 1; the message words are in the order of the block. *)
Definition first_round (s : rows4) (m : rows4) : rows4 * rows4 :=
  let t0 := shuffle_ps (row0 m) (row1 m) (MM_SHUFFLE 2 0 2 0) in
  let s := g1 s t0 in
  let t1 := shuffle_ps (row0 m) (row1 m) (MM_SHUFFLE 3 1 3 1) in
  let s := g2 s t1 in
  let s := diagonalize s in
  let t2 := shuffle_ps (row2 m) (row3 m) (MM_SHUFFLE 2 0 2 0) in
  let t2 := shuffle_epi32 t2 (MM_SHUFFLE 2 1 0 3) in
  let s := g1 s t2 in
  let t3 := shuffle_ps (row2 m) (row3 m) (MM_SHUFFLE 3 1 3 1) in
  let t3 := shuffle_epi32 t3 (MM_SHUFFLE 2 1 0 3) in
  let s := g2 s t3 in
  let s := undiagonalize s in
  (s, Rows t0 t1 t2 t3).

(** Rounds 2 to 7; the message words are as the round before left them. *)
Definition later_round (s : rows4) (m : rows4) : rows4 * rows4 :=
  let t0 := shuffle_ps (row0 m) (row1 m) (MM_SHUFFLE 3 1 1 2) in
  let t0 := shuffle_epi32 t0 (MM_SHUFFLE 0 3 2 1) in
  let s := g1 s t0 in
  let t1 := shuffle_ps (row2 m) (row3 m) (MM_SHUFFLE 3 3 2 2) in
  let tt := shuffle_epi32 (row0 m) (MM_SHUFFLE 0 0 3 3) in
  let t1 := blend_epi16 tt t1 0xCC in
  let s := g2 s t1 in
  let s := diagonalize s in
  let t2 := unpacklo_epi64 (row3 m) (row1 m) in
  let tt := blend_epi16 t2 (row2 m) 0xC0 in
  let t2 := shuffle_epi32 tt (MM_SHUFFLE 1 3 2 0) in
  let s := g1 s t2 in
  let t3 := unpackhi_epi32 (row1 m) (row3 m) in
  let tt := unpacklo_epi32 (row2 m) t3 in
  let t3 := shuffle_epi32 tt (MM_SHUFFLE 0 1 3 2) in
  let s := g2 s t3 in
  let s := undiagonalize s in
  (s, Rows t0 t1 t2 t3).

(** The initial rows; [counter] and the lengths are set as four words. *)
Definition initial_rows (cv : list Z) (block_len counter flags : Z) : rows4 :=
  Rows (take 4 cv) (take 4 (drop 4 cv)) (take 4 IV) [counter_low counter; counter_high counter; u32 block_len; u32 flags].

(** The six later rounds are written out one after the other in the source. *)
Definition row_compress_pre (cv : list Z) (block : bytes) (block_len counter flags : Z) : rows4 :=
  let s := initial_rows cv block_len counter flags in
  let m := Rows (loadu 4 block 0) (loadu 4 block 16) (loadu 4 block 32) (loadu 4 block 48) in
  (Nat.iter 6 (fun p => later_round p.1 p.2) (first_round s m)).1.

(** [blake3_compress_in_place], the words of [cv] after it. *)
Definition row_compress_in_place (cv : list Z) (block : bytes) (block_len counter flags : Z) : list Z :=
  let s := row_compress_pre cv block block_len counter flags in
  w_xor o (row0 s) (row2 s) ++ w_xor o (row1 s) (row3 s).

(** [blake3_compress_xof] *)
Definition row_compress_xof (cv : list Z) (block : bytes) (block_len counter flags : Z) : bytes :=
  let s := row_compress_pre cv block block_len counter flags in
  storeu (w_xor o (row0 s) (row2 s)) ++ storeu (w_xor o (row1 s) (row3 s)) ++
  storeu (w_xor o (row2 s) (take 4 cv)) ++ storeu (w_xor o (row3 s) (take 4 (drop 4 cv))).
End rows.

(** ** One lane operation after the other *)

(** Registers whose lanes are words of a scalar code. *)
Definition map_ops (p : word_ops Z) : word_ops register :=
  WordOps (zip_with (w_add p)) (zip_with (w_xor p)) (map (w_rot16 p)) (map (w_rot12 p)) (map (w_rot8 p)) (map (w_rot7 p)).

(** The two blends of [compress_pre], on whole words. *)
Definition word_blend (a b : register) (imm : Z) : register :=
  if imm =? 0xCC then [at_word a 0; at_word b 1; at_word a 2; at_word b 3] else [at_word a 0; at_word a 1; at_word a 2; at_word b 3].

Definition rows_of (s : list Z) : rows4 := Rows (take 4 s) (take 4 (drop 4 s)) (take 4 (drop 8 s)) (take 4 (drop 12 s)).

(** The message in the order of a round, as the registers hold it. *)
Definition msgs_of (l : list Z) : rows4 :=
  let m := at_word l in
  Rows [m 0; m 2; m 4; m 6]%nat [m 1; m 3; m 5; m 7]%nat [m 14; m 8; m 10; m 12]%nat [m 15; m 9; m 11; m 13]%nat.

(** The permutation from one round to the next. *)
Definition permuted (l : list Z) : list Z := map (at_word l) [2; 6; 3; 10; 7; 0; 4; 13; 1; 11; 12; 5; 9; 14; 15; 8]%nat.

Lemma first_round_mix p s l :
  length s = 16%nat -> length l = 16%nat ->
  first_round (map_ops p) (rows_of s) (rows_of l) = (rows_of (mix_round 0 p l s), msgs_of l).
Proof. sixteen s. sixteen l. reflexivity. Qed.

Lemma later_round_mix p s l :
  length s = 16%nat -> length l = 16%nat ->
  later_round (map_ops p) word_blend (rows_of s) (msgs_of l) = (rows_of (mix_round 0 p (permuted l) s), msgs_of (permuted l)).
Proof. sixteen s. sixteen l. reflexivity. Qed.

(** ** Operations that agree on words *)

(** A register of four 32-bit words. *)
Definition ok4 (v : register) : Prop := length v = 4%nat /\ Forall u32_ok v.
Definition rows_ok (s : rows4) : Prop := ok4 (row0 s) /\ ok4 (row1 s) /\ ok4 (row2 s) /\ ok4 (row3 s).

(** What [compress_pre] relies on: the operations work in lanes, and the blends
    take whole words. *)
Class RowOps (o : word_ops register) (blend : register -> register -> Z -> register) : Prop := {
  ro_lanes : Lanewise 4 o;
  ro_blend : forall a b imm, ok4 a -> ok4 b -> imm = 0xCC \/ imm = 0xC0 -> blend a b imm = word_blend a b imm
}.

Lemma at_word_ok v i : Forall u32_ok v -> u32_ok (at_word v i).
Proof. intros Hv. unfold at_word. destruct (v !! i) eqn:E; [by eapply (Forall_lookup_1 u32_ok)|by unfold u32_ok; cbn]. Qed.

(** Four words picked from registers. *)
Lemma ok4_picks a b c d : u32_ok a -> u32_ok b -> u32_ok c -> u32_ok d -> ok4 [a; b; c; d].
Proof. intros. split; [done|]. repeat (apply Forall_cons_2; [done|]). apply Forall_nil_2. Qed.

Lemma four v : ok4 v -> exists a b c d, v = [a; b; c; d] /\ u32_ok a /\ u32_ok b /\ u32_ok c /\ u32_ok d.
Proof.
  intros [Hl Hv]. do 4 (destruct v as [|? v]; [done|]). destruct v; [|done]. apply Forall_cons_1 in Hv as [H1 Hv]. apply Forall_cons_1 in Hv as [H2 Hv].
  apply Forall_cons_1 in Hv as [H3 Hv]. apply Forall_cons_1 in Hv as [H4 _]. by eexists _, _, _, _.
Qed.

Lemma ok4_shuffle_epi32 v imm : ok4 v -> ok4 (shuffle_epi32 v imm).
Proof. intros [_ Hv]. apply ok4_picks; by apply at_word_ok. Qed.
Lemma ok4_shuffle_ps a b imm : ok4 a -> ok4 b -> ok4 (shuffle_ps a b imm).
Proof. intros [_ Ha] [_ Hb]. apply ok4_picks; by apply at_word_ok. Qed.
Lemma ok4_word_blend a b imm : ok4 a -> ok4 b -> ok4 (word_blend a b imm).
Proof. intros [_ Ha] [_ Hb]. unfold word_blend. destruct (imm =? 0xCC); apply ok4_picks; by apply at_word_ok. Qed.
Lemma ok4_unpack F a b : In F [unpacklo_epi32; unpackhi_epi32; unpacklo_epi64] -> ok4 a -> ok4 b -> ok4 (F a b).
Proof.
  intros HF (a0 & a1 & a2 & a3 & -> & ? & ? & ? & ?)%four (b0 & b1 & b2 & b3 & -> & ? & ? & ? & ?)%four.
  destruct HF as [<-|[<-|[<-|[]]]]; by apply ok4_picks.
Qed.
Lemma ok4_loadu src off : bytes_ok src -> ok4 (loadu 4 src off).
Proof. intros Hb. apply ok4_picks; by apply load32_ok, Forall_drop. Qed.

Lemma lane_op1_map f F v : lane_op1 4 f F -> ok4 v -> F v = map f v.
Proof.
  intros HF [Hl Hv]. destruct (HF v Hl) as [Hl' Hi]. apply list_eq. intros i. rewrite list_lookup_fmap. destruct (v !! i) as [w|] eqn:E.
  - rewrite (Hi i w E (Forall_lookup_1 _ _ _ _ Hv E)). done.
  - apply lookup_ge_None in E. rewrite lookup_ge_None_2 by lia. done.
Qed.

Lemma lane_op2_zip f F a b : lane_op2 4 f F -> ok4 a -> ok4 b -> F a b = zip_with f a b.
Proof.
  intros HF [Hla _] [Hlb _]. destruct (HF a b Hla Hlb) as [Hl' Hi]. apply list_eq. intros i. rewrite lookup_zip_with. destruct (a !! i) as [x|] eqn:Ex.
  - destruct (lookup_lt_is_Some_2 b i) as [y Ey]; [apply lookup_lt_Some in Ex; lia|]. rewrite (Hi i x y Ex Ey). cbn. by rewrite Ey.
  - apply lookup_ge_None in Ex. rewrite lookup_ge_None_2 by lia. done.
Qed.

Lemma ok4_map f v : (forall w, u32_ok w -> u32_ok (f w)) -> ok4 v -> ok4 (map f v).
Proof. intros Hf (a & b & c & d & -> & ? & ? & ? & ?)%four. cbn. by apply ok4_picks; apply Hf. Qed.
Lemma ok4_zip f v v' : (forall x y, u32_ok x -> u32_ok y -> u32_ok (f x y)) -> ok4 v -> ok4 v' -> ok4 (zip_with f v v').
Proof.
  intros Hf (a & b & c & d & -> & ? & ? & ? & ?)%four (a' & b' & c' & d' & -> & ? & ? & ? & ?)%four. cbn. by apply ok4_picks; apply Hf.
Qed.

Section ext.
Context (o : word_ops register) (blend : register -> register -> Z -> register) `{Hro : !RowOps o blend}.
Abbreviation mo := (map_ops portable_ops).

Lemma ext_add a b : ok4 a -> ok4 b -> w_add o a b = w_add mo a b /\ ok4 (w_add mo a b).
Proof using Hro. intros Ha Hb. destruct Hro as [[H _ _ _ _ _] _]. split; [by apply (lane_op2_zip _ _ _ _ H)|]. apply ok4_zip; [intros; apply wrap_range; lia|done..]. Qed.
Lemma ext_xor a b : ok4 a -> ok4 b -> w_xor o a b = w_xor mo a b /\ ok4 (w_xor mo a b).
Proof using Hro. intros Ha Hb. destruct Hro as [[_ H _ _ _ _] _]. split; [by apply (lane_op2_zip _ _ _ _ H)|]. apply ok4_zip; [by intros; apply lxor_u32_ok|done..]. Qed.

Lemma ext_rot k F a : 0 <= k <= 32 -> lane_op1 4 (fun w => rotr32 w k) F -> ok4 a -> F a = map (fun w => rotr32 w k) a /\ ok4 (map (fun w => rotr32 w k) a).
Proof using Type. intros Hk HF Ha. split; [by apply (lane_op1_map _ _ _ HF)|]. apply ok4_map; [intros; by apply rotr32_ok|done]. Qed.

(** Replaces an operation by the one on words, and remembers that it gives
    words. *)
Ltac ext_step :=
  match goal with
  | |- context [w_add o ?a ?b] => destruct (ext_add a b) as [-> ?]; [assumption|assumption|]
  | |- context [w_xor o ?a ?b] => destruct (ext_xor a b) as [-> ?]; [assumption|assumption|]
  | |- context [w_rot16 o ?a] => destruct (ext_rot 16 (w_rot16 o) a) as [-> ?]; [lia|apply (@lw_rot16 4 o ro_lanes)|assumption|]
  | |- context [w_rot12 o ?a] => destruct (ext_rot 12 (w_rot12 o) a) as [-> ?]; [lia|apply (@lw_rot12 4 o ro_lanes)|assumption|]
  | |- context [w_rot8 o ?a] => destruct (ext_rot 8 (w_rot8 o) a) as [-> ?]; [lia|apply (@lw_rot8 4 o ro_lanes)|assumption|]
  | |- context [w_rot7 o ?a] => destruct (ext_rot 7 (w_rot7 o) a) as [-> ?]; [lia|apply (@lw_rot7 4 o ro_lanes)|assumption|]
  end.

Lemma g1_ext s m : rows_ok s -> ok4 m -> g1 o s m = g1 mo s m /\ rows_ok (g1 mo s m).
Proof using Hro. destruct s as [r0 r1 r2 r3]. intros (H0 & H1 & H2 & H3) Hm. cbn [row0 row1 row2 row3] in *. unfold g1. cbn [row0 row1 row2 row3]. repeat ext_step. done. Qed.

Lemma g2_ext s m : rows_ok s -> ok4 m -> g2 o s m = g2 mo s m /\ rows_ok (g2 mo s m).
Proof using Hro. destruct s as [r0 r1 r2 r3]. intros (H0 & H1 & H2 & H3) Hm. cbn [row0 row1 row2 row3] in *. unfold g2. cbn [row0 row1 row2 row3]. repeat ext_step. done. Qed.

Lemma diagonalize_ok s : rows_ok s -> rows_ok (diagonalize s).
Proof using Type. intros (H0 & H1 & H2 & H3). by repeat split; try apply ok4_shuffle_epi32; try apply H1. Qed.
Lemma undiagonalize_ok s : rows_ok s -> rows_ok (undiagonalize s).
Proof using Type. intros (H0 & H1 & H2 & H3). by repeat split; try apply ok4_shuffle_epi32; try apply H1. Qed.

Lemma first_round_ext s m : rows_ok s -> rows_ok m ->
  first_round o s m = first_round mo s m /\ rows_ok (first_round mo s m).1 /\ rows_ok (first_round mo s m).2.
Proof using Hro.
  intros Hs (H0 & H1 & H2 & H3). unfold first_round. cbv zeta.
  assert (forall imm, ok4 (shuffle_ps (row0 m) (row1 m) imm)) as Ha by (intros; by apply ok4_shuffle_ps).
  assert (forall imm imm', ok4 (shuffle_epi32 (shuffle_ps (row2 m) (row3 m) imm) imm')) as Hb by (intros; by apply ok4_shuffle_epi32, ok4_shuffle_ps).
  destruct (g1_ext s _ Hs (Ha (MM_SHUFFLE 2 0 2 0))) as [-> K1]. destruct (g2_ext _ _ K1 (Ha (MM_SHUFFLE 3 1 3 1))) as [-> K2].
  apply diagonalize_ok in K2. destruct (g1_ext _ _ K2 (Hb (MM_SHUFFLE 2 0 2 0) (MM_SHUFFLE 2 1 0 3))) as [-> K3].
  destruct (g2_ext _ _ K3 (Hb (MM_SHUFFLE 3 1 3 1) (MM_SHUFFLE 2 1 0 3))) as [-> K4]. apply undiagonalize_ok in K4. split; [done|]. split; [exact K4|].
  split; [apply Ha|]. split; [apply Ha|]. split; apply Hb.
Qed.

Lemma later_round_ext s m : rows_ok s -> rows_ok m ->
  later_round o blend s m = later_round mo word_blend s m /\
  rows_ok (later_round mo word_blend s m).1 /\ rows_ok (later_round mo word_blend s m).2.
Proof using Hro.
  intros Hs (H0 & H1 & H2 & H3). unfold later_round. cbv zeta.
  set (t0 := shuffle_epi32 (shuffle_ps (row0 m) (row1 m) (MM_SHUFFLE 3 1 1 2)) (MM_SHUFFLE 0 3 2 1)).
  assert (ok4 t0) as T0 by (by apply ok4_shuffle_epi32, ok4_shuffle_ps).
  assert (ok4 (shuffle_epi32 (row0 m) (MM_SHUFFLE 0 0 3 3))) as Htt by (by apply ok4_shuffle_epi32).
  assert (ok4 (shuffle_ps (row2 m) (row3 m) (MM_SHUFFLE 3 3 2 2))) as Ht1 by (by apply ok4_shuffle_ps).
  assert (ok4 (unpacklo_epi64 (row3 m) (row1 m))) as Ht2 by (by apply ok4_unpack; [cbn; auto| |]).
  assert (ok4 (unpackhi_epi32 (row1 m) (row3 m))) as Ht3 by (by apply ok4_unpack; [cbn; auto| |]).
  rewrite (ro_blend _ _ 0xCC Htt Ht1) by auto. rewrite (ro_blend _ _ 0xC0 Ht2 H2) by auto.
  pose proof (ok4_word_blend _ _ 0xCC Htt Ht1) as T1. pose proof (ok4_shuffle_epi32 _ (MM_SHUFFLE 1 3 2 0) (ok4_word_blend _ _ 0xC0 Ht2 H2)) as T2.
  assert (ok4 (shuffle_epi32 (unpacklo_epi32 (row2 m) (unpackhi_epi32 (row1 m) (row3 m))) (MM_SHUFFLE 0 1 3 2))) as T3
    by (apply ok4_shuffle_epi32, ok4_unpack; [cbn; auto|done|done]).
  destruct (g1_ext s _ Hs T0) as [-> K1]. destruct (g2_ext _ _ K1 T1) as [-> K2]. apply diagonalize_ok in K2.
  destruct (g1_ext _ _ K2 T2) as [-> K3]. destruct (g2_ext _ _ K3 T3) as [-> K4]. apply undiagonalize_ok in K4. done.
Qed.

(** A later round on rows that hold a state of the portable code. *)
Lemma later_round_step s l r m :
  length s = 16%nat -> rows_ok (rows_of s) -> rows_ok (msgs_of (scheduled 0 m r)) -> l = scheduled 0 m r -> permuted l = scheduled 0 m (S r) ->
  later_round o blend (rows_of s) (msgs_of l) = (rows_of (round_fn s m (S r)), msgs_of (scheduled 0 m (S r))) /\
  rows_ok (rows_of (round_fn s m (S r))) /\ rows_ok (msgs_of (scheduled 0 m (S r))) /\ length (round_fn s m (S r)) = 16%nat.
Proof using Hro.
  intros Hl Hs Hm -> Hp. destruct (later_round_ext _ _ Hs Hm) as (-> & K1 & K2). rewrite later_round_mix in K1, K2 |- * by done.
  rewrite Hp in *. rewrite round_fn_mix. cbn [fst snd] in *. split; [done|]. split; [done|]. split; [done|].
  by rewrite length_mix_round.
Qed.
End ext.

(** ** The rows hold what the portable code computes *)

Lemma scheduled_0 m : length m = 16%nat -> scheduled 0 m 0 = m.
Proof. sixteen m. reflexivity. Qed.

Lemma permuted_schedule m r : (r < 6)%nat -> permuted (scheduled 0 m r) = scheduled 0 m (S r).
Proof. intros Hr. do 6 (destruct r as [|r]; [reflexivity|]). lia. Qed.

Lemma msgs_rows_ok l : Forall u32_ok l -> rows_ok (msgs_of l).
Proof. intros Hl. repeat split; try done; cbn; repeat (apply Forall_cons_2; [by apply at_word_ok|]); apply Forall_nil_2. Qed.

Lemma take_ok4 l i : Forall u32_ok l -> (i + 4 <= length l)%nat -> ok4 (take 4 (drop i l)).
Proof. intros Hl Hi. split; [rewrite length_take, length_drop; lia|by apply Forall_take, Forall_drop]. Qed.

Lemma rows_of_ok s : length s = 16%nat -> Forall u32_ok s -> rows_ok (rows_of s).
Proof. intros Hl Hs. split; [apply (take_ok4 s 0); [done|lia]|]. split; [apply take_ok4; [done|lia]|]. split; apply take_ok4; done || lia. Qed.

Lemma loadu_words block k : (4 * k <= 12)%nat -> loadu 4 block (16 * k) = take 4 (drop (4 * k) (load_block_words block)).
Proof.
  intros Hk. unfold loadu, load_block_words, load32. do 4 (destruct k as [|k]; [cbn [take drop seq map Nat.mul Nat.add]; by rewrite ?drop_drop|]). lia.
Qed.

Section portable.
Context (o : word_ops register) (blend : register -> register -> Z -> register) `{Hro : !RowOps o blend}.

(** What the arguments of a compression have to be. *)
Record compress_args (cv : list Z) (block : bytes) (block_len flags : Z) : Prop := {
  ca_length : length cv = 8%nat;
  ca_words : Forall u32_ok cv;
  ca_block : bytes_ok block;
  ca_len : u32_ok block_len;
  ca_flags : u32_ok flags
}.

Lemma rounds_portable s m :
  length s = 16%nat -> Forall u32_ok s -> length m = 16%nat -> Forall u32_ok m ->
  forall k, (k <= 6)%nat -> let s' := fold_left (fun s r => round_fn s m r) (seq 0 (S k)) s in
    Nat.iter k (fun p => later_round o blend p.1 p.2) (first_round o (rows_of s) (rows_of m)) = (rows_of s', msgs_of (scheduled 0 m k)) /\
    length s' = 16%nat /\ rows_ok (rows_of s').
Proof using Hro.
  intros Hls Hs Hlm Hm k. pose proof (rows_of_ok s Hls Hs) as R0. pose proof (rows_of_ok m Hlm Hm) as M.
  assert (forall r, Forall u32_ok (scheduled 0 m r)) as Hsch by (intros r; apply Forall_map, Forall_forall; intros; by apply at_word_ok).
  induction k as [|k IH]; intros Hk.
  - cbn [Nat.iter nat_rect seq fold_left]. destruct (first_round_ext o blend _ _ R0 M) as (-> & K & _). rewrite first_round_mix in K |- * by done.
    rewrite round_fn_mix, (scheduled_0 m Hlm), length_mix_round. done.
  - destruct (IH ltac:(lia)) as (Hi & Hl & Hok). rewrite seq_S, fold_left_app. cbn [fold_left Nat.add]. cbn [Nat.iter nat_rect]. unfold Nat.iter in Hi. rewrite Hi. cbn [fst snd].
    destruct (later_round_step o blend _ _ k m Hl Hok (msgs_rows_ok _ (Hsch k)) eq_refl (permuted_schedule m k ltac:(lia))) as (-> & K & _ & L). done.
Qed.

Lemma row_compress_pre_portable cv block block_len counter flags :
  compress_args cv block block_len flags ->
  row_compress_pre o blend cv block block_len counter flags = rows_of (compress_pre cv block block_len counter flags) /\
  length (compress_pre cv block block_len counter flags) = 16%nat /\ rows_ok (rows_of (compress_pre cv block block_len counter flags)).
Proof using Hro.
  intros [Hl Hw Hb Hlen Hf]. unfold row_compress_pre, compress_pre. cbv zeta. set (m := load_block_words block).
  set (s := cv ++ take 4 IV ++ [counter_low counter; counter_high counter; block_len; flags]).
  assert (Forall u32_ok m) as Hm by (apply Forall_map, Forall_forall; intros; by apply load32_ok).
  assert (length m = 16%nat) as Hlm by done. assert (length s = 16%nat) as Hls by (unfold s; rewrite !length_app, Hl; done).
  assert (Forall u32_ok s) as Hs.
  { apply Forall_app. split; [done|]. apply Forall_app. split; [apply Forall_take; unfold IV; repeat (apply Forall_cons_2; [done|]); apply Forall_nil_2|].
    repeat (apply Forall_cons_2; [try done; apply wrap_range; lia|]). apply Forall_nil_2. }
  assert (initial_rows cv block_len counter flags = rows_of s) as ->.
  { unfold initial_rows, s. rewrite !wrap_small by done. clear -Hl. do 8 (destruct cv as [|? cv]; [done|]). by destruct cv. }
  assert (Rows (loadu 4 block 0) (loadu 4 block 16) (loadu 4 block 32) (loadu 4 block 48) = rows_of m) as ->.
  { unfold rows_of. f_equal; [apply (loadu_words block 1)|apply (loadu_words block 2)|apply (loadu_words block 3)]; lia. }
  destruct (rounds_portable s m Hls Hs Hlm Hm 6 ltac:(lia)) as (-> & H1 & H2). done.
Qed.

(** The two compressions give what the portable ones give. *)
Lemma row_compress_in_place_portable cv block block_len counter flags :
  compress_args cv block block_len flags ->
  row_compress_in_place o blend cv block block_len counter flags = blake3_compress_in_place cv block block_len counter flags.
Proof using Hro.
  intros Ha. destruct (row_compress_pre_portable cv block block_len counter flags Ha) as (Hp & Hl & H0 & H1 & H2 & H3).
  unfold row_compress_in_place, blake3_compress_in_place. rewrite Hp. cbv zeta. revert Hl H0 H1 H2 H3. generalize (compress_pre cv block block_len counter flags) as s.
  intros s Hl H0 H1 H2 H3. destruct (ext_xor o blend _ _ H0 H2) as [-> _]. destruct (ext_xor o blend _ _ H1 H3) as [-> _].
  clear -Hl. revert Hl. sixteen s. reflexivity.
Qed.

Lemma row_compress_xof_portable cv block block_len counter flags :
  compress_args cv block block_len flags ->
  row_compress_xof o blend cv block block_len counter flags = blake3_compress_xof cv block block_len counter flags.
Proof using Hro.
  intros Ha. destruct (row_compress_pre_portable cv block block_len counter flags Ha) as (Hp & Hl & H0 & H1 & H2 & H3).
  unfold row_compress_xof, blake3_compress_xof. rewrite Hp. cbv zeta. revert Hl H0 H1 H2 H3. generalize (compress_pre cv block block_len counter flags) as s.
  destruct Ha as [Hlc Hw _ _ _]. intros s Hl H0 H1 H2 H3. assert (ok4 (take 4 cv)) as C0 by (apply (take_ok4 cv 0); [done|lia]).
  assert (ok4 (take 4 (drop 4 cv))) as C1 by (apply take_ok4; [done|lia]).
  destruct (ext_xor o blend _ _ H0 H2) as [-> _]. destruct (ext_xor o blend _ _ H1 H3) as [-> _].
  destruct (ext_xor o blend _ _ H2 C0) as [-> _]. destruct (ext_xor o blend _ _ H3 C1) as [-> _]. clear -Hl Hlc. revert Hl. sixteen s.
  do 8 (destruct cv as [|? cv]; [done|]). destruct cv; [|done]. reflexivity.
Qed.

(** So does hashing the blocks of an input one after the other. *)
Lemma hash_blocks_with_portable input blocks cv counter flags block_flags flags_end :
  bytes_ok input -> length cv = 8%nat -> Forall u32_ok cv -> 0 <= flags < 256 -> 0 <= block_flags < 256 -> 0 <= flags_end < 256 ->
  hash_blocks_with (row_compress_in_place o blend) input blocks cv counter flags block_flags flags_end = hash_blocks input blocks cv counter flags block_flags flags_end.
Proof using Hro.
  intros Hb Hl Hw Hf Hbf Hfe. revert input cv block_flags Hb Hl Hw Hbf. induction blocks as [|k IH]; intros input cv bf Hb Hl Hw Hbf; [done|].
  cbn [hash_blocks_with hash_blocks]. cbv zeta. set (bf' := if (k =? 0)%nat then Z.lor bf flags_end else bf).
  assert (0 <= bf' < 256) as Hbf' by (unfold bf'; destruct (k =? 0)%nat; [by apply (lor_range 8)|done]).
  assert (compress_args cv (take BLAKE3_BLOCK_LEN input) (Z.of_nat BLAKE3_BLOCK_LEN) bf') as Ha
    by (constructor; [done|done|by apply Forall_take|done|unfold u32_ok; lia]).
  rewrite row_compress_in_place_portable by done. apply IH; [by apply Forall_drop|apply length_compress| |done].
  rewrite <- row_compress_in_place_portable by done. destruct (row_compress_pre_portable cv _ (Z.of_nat BLAKE3_BLOCK_LEN) counter bf' Ha) as (Hp & _ & H0 & H1 & H2 & H3).
  unfold row_compress_in_place. rewrite Hp. cbv zeta. destruct (ext_xor o blend _ _ H0 H2) as [-> [_ K1]]. destruct (ext_xor o blend _ _ H1 H3) as [-> [_ K2]].
  by apply Forall_app.
Qed.
End portable.
