(* ===== verification/Blake3Simd.v ===== *)
(** * BLAKE3 on 128-bit registers

    blake3_sse2.c, blake3_sse41.c and blake3_neon.c: the rotations, transpositions
    and counters of each, four inputs side by side, and one block in four
    registers (on x86). Each file is shown to compute what blake3_portable.c
    computes. *)

From stdpp Require Import base list option numbers.
From S2P Require Import Prelude Memory Blake3Core Blake3Vector Blake3Rows.

(** ** Intrinsics on 16-bit elements *)

(** [_mm_shufflelo_epi16], [_mm_shufflehi_epi16] *)
Definition shufflelo_epi16 (v : register) (imm : Z) : register :=
  let h := as_halves v in of_halves (map (fun k => at_word h (field imm k)) [0; 1; 2; 3] ++ drop 4 h).
Definition shufflehi_epi16 (v : register) (imm : Z) : register :=
  let h := as_halves v in of_halves (take 4 h ++ map (fun k => at_word (drop 4 h) (field imm k)) [0; 1; 2; 3]).

(** [_mm_blend_epi16]: from [b] where the bit of the operand is set. *)
Definition mm_blend_epi16 (a b : register) (imm : Z) : register :=
  of_halves (map (fun k => if Z.testbit imm (Z.of_nat k) then at_word (as_halves b) k else at_word (as_halves a) k) (seq 0 8)).

(** [_mm_set1_epi16], [_mm_cmpeq_epi16] *)
Definition set1_epi16 (n : nat) (x : Z) : register := of_halves (replicate (2 * n) (x mod 2 ^ 16)).
Definition cmpeq_epi16 (a b : register) : register :=
  of_halves (zip_with (fun x y => if x =? y then 0xFFFF else 0) (as_halves a) (as_halves b)).

(** ** Words from their parts *)

Lemma halves_word w : w mod 65536 + 65536 * (w / 65536) = w.
Proof. pose proof (Z.div_mod w 65536 ltac:(lia)). lia. Qed.

Definition swap_halves (w : Z) : Z := w / 65536 + 65536 * (w mod 65536).

Lemma swap_halves_right w : u32_ok w -> swap_halves w = rotr32 w 16.
Proof. intros Hw. rewrite rotr32_split by (done || lia). change (2 ^ (32 - 16)) with 65536. change (2 ^ 16) with 65536. unfold swap_halves. lia. Qed.

(** The bytes of a word, rotated by two and by one. *)
Definition bytes_rot16 (w : Z) : Z := let b := le_bytes 4 w in le_val [at_word b 2; at_word b 3; at_word b 0; at_word b 1].
Definition bytes_rot8 (w : Z) : Z := let b := le_bytes 4 w in le_val [at_word b 1; at_word b 2; at_word b 3; at_word b 0].

Lemma bytes_rot16_right w : u32_ok w -> bytes_rot16 w = rotr32 w 16.
Proof.
  intros Hw. rewrite rotr32_split by (done || lia). unfold bytes_rot16, u32_ok in *. cbn [le_bytes at_word lookup list_lookup default le_val from_option id].
  change (2 ^ (32 - 16)) with 65536. change (2 ^ 16) with 65536. change (2 ^ 32) with 4294967296 in Hw. cbn. Z.to_euclidean_division_equations. lia.
Qed.

Lemma bytes_rot8_right w : u32_ok w -> bytes_rot8 w = rotr32 w 8.
Proof.
  intros Hw. rewrite rotr32_split by (done || lia). unfold bytes_rot8, u32_ok in *. cbn [le_bytes at_word lookup list_lookup default le_val from_option id].
  change (2 ^ (32 - 8)) with 16777216. change (2 ^ 8) with 256. change (2 ^ 32) with 4294967296 in Hw. cbn. Z.to_euclidean_division_equations. lia.
Qed.

(** ** Transpositions *)

(** [T] transposes an [n] by [n] matrix. *)
Definition transposes (n : nat) (T : list register -> list register) : Prop := forall f, T (rect n n f) = rect n n (fun i j => f j i).

(** [transpose_msg_vecs] of the files with four lanes, over their
    [transpose_vecs]; the prefetches have no effect. *)
Definition msg_vecs4 (transpose_vecs : list register -> list register) (inputs : list bytes) (block_offset : nat) : list register :=
  let out := concat (map (fun k => map (fun i => loadu 4 (input_at inputs i) (block_offset + k * 16)) (seq 0 4)) (seq 0 4)) in
  transpose_vecs (take 4 out) ++ transpose_vecs (take 4 (drop 4 out)) ++ transpose_vecs (take 4 (drop 8 out)) ++ transpose_vecs (take 4 (drop 12 out)).

(** The stores at the end of [blake3_hash4]. *)
Definition store_hashes4 (transpose_vecs : list register -> list register) (h_vecs : list register) : bytes :=
  let a := transpose_vecs (take 4 h_vecs) in
  let b := transpose_vecs (take 4 (drop 4 h_vecs)) in
  let h k v := storeu (get [] v k) in
  h 0%nat a ++ h 0%nat b ++ h 1%nat a ++ h 1%nat b ++ h 2%nat a ++ h 2%nat b ++ h 3%nat a ++ h 3%nat b.

(** A load further on in a block. *)
Lemma loadu_at n src off k : loadu n src (off + k * 4) = map (fun j => load32 (drop off src) (k + j)) (seq 0 n).
Proof. unfold loadu. apply map_ext. intros j. unfold load32. rewrite !drop_drop. do 3 f_equal. lia. Qed.

Lemma msg_vecs4_right T inputs off : transposes 4 T -> msg_vecs4 T inputs off = rect 16 4 (fun w i => load32 (drop off (input_at inputs i)) w).
Proof.
  intros HT. unfold msg_vecs4. set (g := fun i w => load32 (drop off (input_at inputs i)) w).
  assert (forall k i, loadu 4 (input_at inputs i) (off + k * 16) = map (fun j => g i (4 * k + j)%nat) (seq 0 4)) as Hload.
  { intros k i. replace (k * 16)%nat with (4 * k * 4)%nat by lia. apply loadu_at. }
  rewrite (map_ext _ (fun k => rect 4 4 (fun i j => g i (4 * k + j)%nat))) by (intros k; unfold rect; apply map_ext; intros i; apply Hload).
  cbv zeta. cbn [seq map concat]. rewrite app_nil_r.
  change (take 4 (rect 4 4 (fun i j => g i (4 * 0 + j)%nat) ++ _)) with (rect 4 4 (fun i j => g i (0 + j)%nat)).
  change (take 4 (drop 4 _)) with (rect 4 4 (fun i j => g i (4 + j)%nat)). change (take 4 (drop 8 _)) with (rect 4 4 (fun i j => g i (8 + j)%nat)).
  change (take 4 (drop 12 _)) with (rect 4 4 (fun i j => g i (12 + j)%nat)). rewrite !HT. reflexivity.
Qed.

Lemma storeu_app a b : storeu a ++ storeu b = storeu (a ++ b).
Proof. unfold storeu. by rewrite map_app, concat_app. Qed.

Lemma concat_storeu {A} (f : A -> register) l : concat (map (fun i => storeu (f i)) l) = storeu (concat (map f l)).
Proof. induction l as [|x l IH]; [done|]. cbn [map concat]. by rewrite IH, storeu_app. Qed.

Lemma store_hashes4_right T : transposes 4 T -> stores_lanes 4 (store_hashes4 T).
Proof.
  intros HT f. unfold store_hashes4. cbv zeta. change (take 4 (rect 8 4 f)) with (rect 4 4 f). change (take 4 (drop 4 (rect 8 4 f))) with (rect 4 4 (fun i j => f (4 + i)%nat j)).
  rewrite !HT, concat_storeu, !storeu_app. reflexivity.
Qed.

(** ** Counters *)

Lemma counter_at_wrap c inc i : u64_ok c -> counter_at c inc i = u64 (c + (if inc then Z.of_nat i else 0)).
Proof. intros Hc. unfold counter_at. destruct inc; [done|]. by rewrite Z.add_0_r, wrap_small. Qed.

Lemma counter_low_add c d : counter_low (u64 (c + d)) = u32 (u32 c + d).
Proof.
  unfold counter_low, wrap. rewrite Zplus_mod_idemp_l. change (2 ^ 64) with (2 ^ 32 * 2 ^ 32).
  rewrite Z.rem_mul_r by lia. rewrite (Z.mul_comm (2 ^ 32)), Z.mod_add by lia. by rewrite Z.mod_mod by lia.
Qed.

Lemma counter_high_add c d :
  u64_ok c -> 0 <= d < 2 ^ 31 -> counter_high (u64 (c + d)) = u32 (counter_high c + (if u32 (u32 c + d) <? d then 1 else 0)).
Proof.
  intros Hc Hd. unfold counter_high, wrap, u64_ok in *. rewrite !Z.shiftr_div_pow2 by lia. set (lo := c `mod` 2 ^ 32). set (hi := c / 2 ^ 32).
  assert (c = 2 ^ 32 * hi + lo) as Ec by (apply Z.div_mod; lia). pose proof (Z.mod_pos_bound c (2 ^ 32) ltac:(lia)) as Hlo. fold lo in Hlo.
  assert ((c + d) / 2 ^ 32 = hi + (if (lo + d) `mod` 2 ^ 32 <? d then 1 else 0)) as Eq.
  { rewrite Ec. replace (2 ^ 32 * hi + lo + d) with (lo + d + hi * 2 ^ 32) by lia. rewrite Z.div_add by lia. rewrite Z.add_comm. f_equal.
    destruct (decide (lo + d < 2 ^ 32)) as [Hs|Hs].
    - rewrite Z.div_small, Z.mod_small by lia. by rewrite (proj2 (Z.ltb_ge _ _)) by lia.
    - replace (lo + d) with (lo + d - 2 ^ 32 + 1 * 2 ^ 32) by lia. rewrite Z.div_add, Z.mod_add by lia. rewrite Z.div_small, Z.mod_small by lia.
      by rewrite (proj2 (Z.ltb_lt _ _)) by lia. }
  change (2 ^ 64) with (2 ^ 32 * 2 ^ 32). rewrite Z.rem_mul_r by lia. rewrite Z.add_comm, Z.mul_comm, Z.div_add_l by lia.
  rewrite (Z.div_small ((c + d) `mod` 2 ^ 32)) by (apply Z.mod_pos_bound; lia). rewrite Z.add_0_r, Eq, !Z.mod_mod by lia.
  by rewrite Zplus_mod_idemp_l.
Qed.

(** The unsigned comparison that the code makes out of a signed one. *)
Lemma signed32_flip x : u32_ok x -> signed32 (Z.lxor x 0x80000000) = x - 2 ^ 31.
Proof.
  intros Hx. unfold u32_ok, signed32 in *. destruct (decide (x < 2 ^ 31)) as [Hs|Hs].
  - change 0x80000000 with (Z.shiftl 1 31). rewrite lxor_above by lia. rewrite (proj2 (Z.ltb_ge _ _)) by lia. lia.
  - assert (Z.lxor (x - 2 ^ 31) (Z.shiftl 1 31) = x) as E by (rewrite lxor_above by lia; lia). change 0x80000000 with (Z.shiftl 1 31).
    assert (Z.lxor x (Z.shiftl 1 31) = x - 2 ^ 31) as -> by (rewrite <- E at 1; by rewrite Z.lxor_assoc, Z.lxor_nilpotent, Z.lxor_0_r).
    by rewrite (proj2 (Z.ltb_lt _ _)) by lia.
Qed.

(** Registers given lane by lane. *)
Lemma zip_map_seq {A} (f : Z -> Z -> Z) (g h : A -> Z) l : zip_with f (map g l) (map h l) = map (fun i => f (g i) (h i)) l.
Proof. induction l as [|x l IH]; [done|]. cbn. by rewrite IH. Qed.
Lemma set1_map n x : set1_epi32 n x = map (fun _ => u32 x) (seq 0 n).
Proof. unfold set1_epi32. generalize 0%nat. induction n as [|n IH]; intros s; [done|]. cbn. by rewrite <- (IH (S s)). Qed.

(** [load_counters] of blake3_sse2.c, blake3_sse41.c and blake3_avx2.c. *)
Definition load_counters_cmp (n : nat) (add0 : register) (counter : Z) (increment_counter : bool) : register * register :=
  let mask := set1_epi32 n (- Z.b2z increment_counter) in
  let add1 := and_si mask add0 in
  let l := add_epi32 (set1_epi32 n counter) add1 in
  let carry := cmpgt_epi32 (xor_si add1 (set1_epi32 n 0x80000000)) (xor_si l (set1_epi32 n 0x80000000)) in
  let h := sub_epi32 (set1_epi32 n (Z.shiftr counter 32)) carry in
  (l, h).

(** A lane of the mask over the increments. *)
Lemma masked_delta inc d : 0 <= d < 2 ^ 32 -> Z.land (u32 (- Z.b2z inc)) d = if inc then d else 0.
Proof. intros Hd. destruct inc; [|done]. change (u32 (- Z.b2z true)) with (Z.ones 32). rewrite Z.land_comm, Z.land_ones by lia. by apply Z.mod_small. Qed.

Lemma load_counters_cmp_right n : (n <= 16)%nat -> counters_right n (load_counters_cmp n (map Z.of_nat (seq 0 n))).
Proof.
  intros Hn c inc Hc. unfold load_counters_cmp. cbv zeta. unfold and_si, add_epi32, cmpgt_epi32, xor_si, sub_epi32. rewrite !set1_map, !zip_map_seq.
  f_equal; apply map_ext_in; intros i [_ Hi]%in_seq; rewrite counter_at_wrap by done; rewrite masked_delta by lia; set (d := if inc then Z.of_nat i else 0);
    assert (0 <= d < 16) as Hd by (unfold d; destruct inc; lia).
  - by rewrite counter_low_add.
  - rewrite counter_high_add by (done || lia). change (u32 0x80000000) with 0x80000000. rewrite !signed32_flip by (unfold u32_ok; lia || (apply wrap_range; lia)).
    replace (u32 (u32 c + d) - 2 ^ 31 <? d - 2 ^ 31) with (u32 (u32 c + d) <? d) by (destruct (u32 (u32 c + d) <? d) eqn:E; symmetry; bool_to_prop; lia).
    change (u32 (Z.shiftr c 32)) with (counter_high c). destruct (_ <? d); [|f_equal; lia].
    unfold wrap. rewrite <- (Z.mod_add (counter_high c - (2 ^ 32 - 1)) 1) by lia. f_equal. lia.
Qed.

(** The arguments of the functions that hash many inputs. *)
Record many_args (inputs : list bytes) (key : list Z) (counter flags flags_start flags_end : Z) : Prop := {
  ma_inputs : Forall bytes_ok inputs;
  ma_length : length key = 8%nat;
  ma_words : Forall u32_ok key;
  ma_counter : u64_ok counter;
  ma_flags : 0 <= flags < 256;
  ma_start : 0 <= flags_start < 256;
  ma_end : 0 <= flags_end < 256
}.

(** ** blake3_sse2.c *)

Module Sse2.
Definition DEGREE : nat := 4.

Definition rot16 (x : register) : register := shufflehi_epi16 (shufflelo_epi16 x 0xB1) 0xB1.
Definition rot12 (x : register) : register := xor_si (srli_epi32 x 12) (slli_epi32 x (32 - 12)).
Definition rot8 (x : register) : register := xor_si (srli_epi32 x 8) (slli_epi32 x (32 - 8)).
Definition rot7 (x : register) : register := xor_si (srli_epi32 x 7) (slli_epi32 x (32 - 7)).
Definition ops : word_ops register := WordOps add_epi32 xor_si rot16 rot12 rot8 rot7.

Definition blend_epi16 (a b : register) (imm8 : Z) : register :=
  let bits := set_epi16 [0x80; 0x40; 0x20; 0x10; 0x08; 0x04; 0x02; 0x01] in
  let mask := set1_epi16 4 imm8 in
  let mask := and_si mask bits in
  let mask := cmpeq_epi16 mask bits in
  or_si (and_si mask b) (andnot_si mask a).

Definition compress_pre : list Z -> bytes -> Z -> Z -> Z -> rows4 := row_compress_pre ops blend_epi16.
Definition blake3_compress_in_place_sse2 : list Z -> bytes -> Z -> Z -> Z -> list Z := row_compress_in_place ops blend_epi16.
Definition blake3_compress_xof_sse2 : list Z -> bytes -> Z -> Z -> Z -> bytes := row_compress_xof ops blend_epi16.

Definition round_fn : list register -> list register -> nat -> list register := vec_round_fn [] ops.

Definition transpose_vecs (vecs : list register) : list register :=
  let v := get [] vecs in
  let ab_01 := unpacklo_epi32 (v 0%nat) (v 1%nat) in
  let ab_23 := unpackhi_epi32 (v 0%nat) (v 1%nat) in
  let cd_01 := unpacklo_epi32 (v 2%nat) (v 3%nat) in
  let cd_23 := unpackhi_epi32 (v 2%nat) (v 3%nat) in
  let abcd_0 := unpacklo_epi64 ab_01 cd_01 in
  let abcd_1 := unpackhi_epi64 ab_01 cd_01 in
  let abcd_2 := unpacklo_epi64 ab_23 cd_23 in
  let abcd_3 := unpackhi_epi64 ab_23 cd_23 in
  [abcd_0; abcd_1; abcd_2; abcd_3].

Definition transpose_msg_vecs : list bytes -> nat -> list register := msg_vecs4 transpose_vecs.

Definition load_counters : Z -> bool -> register * register := load_counters_cmp DEGREE (set_epi32 [3; 2; 1; 0]).

Definition blake3_hash4_sse2 (inputs : list bytes) (blocks : nat) (key : list Z) (counter : Z) (increment_counter : bool)
    (flags flags_start flags_end : Z) : bytes :=
  store_hashes4 transpose_vecs
    (vec_hash DEGREE ops transpose_msg_vecs load_counters inputs blocks key counter increment_counter flags flags_start flags_end).

Definition hash_one_sse2 (input : bytes) (blocks : nat) (key : list Z) (counter flags flags_start flags_end : Z) : bytes :=
  store_cv_words (hash_blocks_with blake3_compress_in_place_sse2 input blocks key counter flags (Z.lor flags flags_start) flags_end).

Definition blake3_hash_many_sse2 (inputs : list bytes) (blocks : nat) (key : list Z) (counter : Z) (increment_counter : bool)
    (flags flags_start flags_end : Z) : bytes :=
  degree_loop (length inputs) DEGREE increment_counter
    (fun inputs counter => blake3_hash4_sse2 inputs blocks key counter increment_counter flags flags_start flags_end)
    (fun inputs counter =>
       degree_loop (length inputs) 1 increment_counter
         (fun inputs counter => hash_one_sse2 (input_at inputs 0) blocks key counter flags flags_start flags_end) (fun _ _ => []) inputs counter)
    inputs counter.
End Sse2.

(** ** blake3_sse41.c *)

Module Sse41.
Definition DEGREE : nat := 4.

Definition rot16 (x : register) : register := shuffle_epi8 x (set_epi8 [13; 12; 15; 14; 9; 8; 11; 10; 5; 4; 7; 6; 1; 0; 3; 2]).
Definition rot12 (x : register) : register := xor_si (srli_epi32 x 12) (slli_epi32 x (32 - 12)).
Definition rot8 (x : register) : register := shuffle_epi8 x (set_epi8 [12; 15; 14; 13; 8; 11; 10; 9; 4; 7; 6; 5; 0; 3; 2; 1]).
Definition rot7 (x : register) : register := xor_si (srli_epi32 x 7) (slli_epi32 x (32 - 7)).
Definition ops : word_ops register := WordOps add_epi32 xor_si rot16 rot12 rot8 rot7.

Definition compress_pre : list Z -> bytes -> Z -> Z -> Z -> rows4 := row_compress_pre ops mm_blend_epi16.
Definition blake3_compress_in_place_sse41 : list Z -> bytes -> Z -> Z -> Z -> list Z := row_compress_in_place ops mm_blend_epi16.
Definition blake3_compress_xof_sse41 : list Z -> bytes -> Z -> Z -> Z -> bytes := row_compress_xof ops mm_blend_epi16.

Definition round_fn : list register -> list register -> nat -> list register := vec_round_fn [] ops.

(** The same text as in blake3_sse2.c. *)
Definition transpose_vecs : list register -> list register := Sse2.transpose_vecs.
Definition transpose_msg_vecs : list bytes -> nat -> list register := msg_vecs4 transpose_vecs.
Definition load_counters : Z -> bool -> register * register := load_counters_cmp DEGREE (set_epi32 [3; 2; 1; 0]).

Definition blake3_hash4_sse41 (inputs : list bytes) (blocks : nat) (key : list Z) (counter : Z) (increment_counter : bool)
    (flags flags_start flags_end : Z) : bytes :=
  store_hashes4 transpose_vecs
    (vec_hash DEGREE ops transpose_msg_vecs load_counters inputs blocks key counter increment_counter flags flags_start flags_end).

Definition hash_one_sse41 (input : bytes) (blocks : nat) (key : list Z) (counter flags flags_start flags_end : Z) : bytes :=
  store_cv_words (hash_blocks_with blake3_compress_in_place_sse41 input blocks key counter flags (Z.lor flags flags_start) flags_end).

Definition blake3_hash_many_sse41 (inputs : list bytes) (blocks : nat) (key : list Z) (counter : Z) (increment_counter : bool)
    (flags flags_start flags_end : Z) : bytes :=
  degree_loop (length inputs) DEGREE increment_counter
    (fun inputs counter => blake3_hash4_sse41 inputs blocks key counter increment_counter flags flags_start flags_end)
    (fun inputs counter =>
       degree_loop (length inputs) 1 increment_counter
         (fun inputs counter => hash_one_sse41 (input_at inputs 0) blocks key counter flags flags_start flags_end) (fun _ _ => []) inputs counter)
    inputs counter.
End Sse41.

(** ** blake3_neon.c *)

(** [vrev32q_u16], [vsriq_n_u32] (the [n] high bits of the first operand stay),
    [vtrnq_u32], [vget_low_u32], [vget_high_u32], [vcombine_u32] *)
Definition vrev32q_u16 (v : register) : register := map swap_halves v.
Definition vsriq_n_u32 (a b : register) (n : Z) : register :=
  zip_with (fun x y => Z.lor (Z.shiftl (Z.shiftr x (32 - n)) (32 - n)) (Z.shiftr y n)) a b.
Definition vtrnq_u32 (a b : register) : register * register :=
  ([at_word a 0; at_word b 0; at_word a 2; at_word b 2], [at_word a 1; at_word b 1; at_word a 3; at_word b 3]).
Definition vget_low_u32 (v : register) : register := take 2 v.
Definition vget_high_u32 (v : register) : register := drop 2 v.
Definition vcombine_u32 (lo hi : register) : register := lo ++ hi.

Module Neon.
Definition rot16_128 (x : register) : register := vrev32q_u16 x.
Definition rot12_128 (x : register) : register := vsriq_n_u32 (slli_epi32 x (32 - 12)) x 12.
Definition rot8_128 (x : register) : register :=
  of_bytes (map (at_word (as_bytes x)) [1; 2; 3; 0; 5; 6; 7; 4; 9; 10; 11; 8; 13; 14; 15; 12]%nat).
Definition rot7_128 (x : register) : register := vsriq_n_u32 (slli_epi32 x (32 - 7)) x 7.
Definition ops : word_ops register := WordOps add_epi32 xor_si rot16_128 rot12_128 rot8_128 rot7_128.

Definition round_fn4 : list register -> list register -> nat -> list register := vec_round_fn [] ops.

Definition transpose_vecs_128 (vecs : list register) : list register :=
  let v := get [] vecs in
  let rows01 := vtrnq_u32 (v 0%nat) (v 1%nat) in
  let rows23 := vtrnq_u32 (v 2%nat) (v 3%nat) in
  [vcombine_u32 (vget_low_u32 rows01.1) (vget_low_u32 rows23.1);
   vcombine_u32 (vget_low_u32 rows01.2) (vget_low_u32 rows23.2);
   vcombine_u32 (vget_high_u32 rows01.1) (vget_high_u32 rows23.1);
   vcombine_u32 (vget_high_u32 rows01.2) (vget_high_u32 rows23.2)].

Definition transpose_msg_vecs4 : list bytes -> nat -> list register := msg_vecs4 transpose_vecs_128.

Definition load_counters4 (counter : Z) (increment_counter : bool) : register * register :=
  let mask := if increment_counter then u64 (Z.lnot 0) else 0 in
  (map (fun k => counter_low (u64 (counter + Z.land mask k))) [0; 1; 2; 3],
   map (fun k => counter_high (u64 (counter + Z.land mask k))) [0; 1; 2; 3]).

Definition blake3_hash4_neon (inputs : list bytes) (blocks : nat) (key : list Z) (counter : Z) (increment_counter : bool)
    (flags flags_start flags_end : Z) : bytes :=
  store_hashes4 transpose_vecs_128
    (vec_hash 4 ops transpose_msg_vecs4 load_counters4 inputs blocks key counter increment_counter flags flags_start flags_end).

(** One input is hashed by the portable compression. *)
Definition hash_one_neon (input : bytes) (blocks : nat) (key : list Z) (counter flags flags_start flags_end : Z) : bytes :=
  store_cv_words (hash_blocks_with blake3_compress_in_place input blocks key counter flags (Z.lor flags flags_start) flags_end).

Definition blake3_hash_many_neon (inputs : list bytes) (blocks : nat) (key : list Z) (counter : Z) (increment_counter : bool)
    (flags flags_start flags_end : Z) : bytes :=
  degree_loop (length inputs) 4 increment_counter
    (fun inputs counter => blake3_hash4_neon inputs blocks key counter increment_counter flags flags_start flags_end)
    (fun inputs counter =>
       degree_loop (length inputs) 1 increment_counter
         (fun inputs counter => hash_one_neon (input_at inputs 0) blocks key counter flags flags_start flags_end) (fun _ _ => []) inputs counter)
    inputs counter.
End Neon.

(** ** The operations work in lanes *)

Lemma shifts_rot n k : 0 <= k <= 32 -> lane_op1 n (fun w => rotr32 w k) (fun x => xor_si (srli_epi32 x k) (slli_epi32 x (32 - k))).
Proof.
  intros Hk. apply map_lanewise. intros a _. exists (fun w => Z.lxor (Z.shiftr w k) (u32 (Z.shiftl w (32 - k)))). split; [exact (zip_map_seq Z.lxor (fun w => Z.shiftr w k) (fun w => u32 (Z.shiftl w (32 - k))) a)|].
  intros w Hw. by apply rotr32_lxor.
Qed.

Lemma sri_rot n k : 0 <= k <= 32 -> lane_op1 n (fun w => rotr32 w k) (fun x => vsriq_n_u32 (slli_epi32 x (32 - k)) x k).
Proof.
  intros Hk. apply map_lanewise. intros a _.
  exists (fun w => Z.lor (Z.shiftl (Z.shiftr (u32 (Z.shiftl w (32 - k))) (32 - k)) (32 - k)) (Z.shiftr w k)).
  split; [unfold vsriq_n_u32, slli_epi32; rewrite <- (map_id a) at 2; by rewrite zip_map_seq|]. intros w Hw. rewrite wrap_shiftl by lia.
  rewrite Z.shiftr_shiftl_l, Z.sub_diag, Z.shiftl_0_r by lia. rewrite Z.lor_comm. unfold rotr32. by rewrite wrap_shiftl by lia.
Qed.

(** Names the four elements of a register. *)
Ltac four_lanes a H := do 4 (destruct a as [|? a]; [discriminate H|]); destruct a; [clear H|discriminate H].

#[export] Instance sse2_lanes : Lanewise 4 Sse2.ops.
Proof.
  constructor; [apply zip_lanewise|apply zip_lanewise| |by apply shifts_rot|by apply shifts_rot|by apply shifts_rot].
  apply map_lanewise. intros a Ha. exists swap_halves. split; [four_lanes a Ha; cbn; by rewrite !halves_word|]. apply swap_halves_right.
Qed.

Lemma byte_rots_lanes F16 F8 :
  (forall a b c d, F16 [a; b; c; d] = map bytes_rot16 [a; b; c; d]) -> (forall a b c d, F8 [a; b; c; d] = map bytes_rot8 [a; b; c; d]) ->
  lane_op1 4 (fun w => rotr32 w 16) F16 /\ lane_op1 4 (fun w => rotr32 w 8) F8.
Proof.
  intros H16 H8. split; apply map_lanewise; intros a Ha.
  - exists bytes_rot16. split; [four_lanes a Ha; apply H16|apply bytes_rot16_right].
  - exists bytes_rot8. split; [four_lanes a Ha; apply H8|apply bytes_rot8_right].
Qed.

#[export] Instance sse41_lanes : Lanewise 4 Sse41.ops.
Proof.
  destruct (byte_rots_lanes Sse41.rot16 Sse41.rot8) as [H16 H8]; [reflexivity|reflexivity|].
  constructor; [apply zip_lanewise|apply zip_lanewise|exact H16|by apply shifts_rot|exact H8|by apply shifts_rot].
Qed.

#[export] Instance neon_lanes : Lanewise 4 Neon.ops.
Proof.
  destruct (byte_rots_lanes Sse41.rot16 Neon.rot8_128) as [_ H8]; [reflexivity|reflexivity|].
  constructor; [apply zip_lanewise|apply zip_lanewise| |by apply sri_rot|exact H8|by apply sri_rot].
  apply map_lanewise. intros a _. exists swap_halves. split; [done|]. apply swap_halves_right.
Qed.

Lemma mm_blend_words a b imm : ok4 a -> ok4 b -> imm = 0xCC \/ imm = 0xC0 -> mm_blend_epi16 a b imm = word_blend a b imm.
Proof.
  intros (a0 & a1 & a2 & a3 & -> & _)%four (b0 & b1 & b2 & b3 & -> & _)%four [-> | ->]; unfold word_blend; cbn [Z.eqb Pos.eqb];
    cbv -[Z.add Z.mul Z.modulo Z.div]; by rewrite !halves_word.
Qed.

Lemma select_word (m x y : Z) : u32_ok x -> u32_ok y -> m = 0 \/ m = 0xFFFFFFFF ->
  Z.lor (Z.land m y) (Z.land (u32 (Z.lnot m)) x) = if m =? 0 then x else y.
Proof.
  intros Hx Hy [-> | ->].
  - change (u32 (Z.lnot 0)) with (Z.ones 32). rewrite Z.land_0_l, Z.lor_0_l, Z.land_comm, Z.land_ones by lia. by apply Z.mod_small.
  - change (u32 (Z.lnot 0xFFFFFFFF)) with 0. change 0xFFFFFFFF with (Z.ones 32). rewrite Z.land_0_l, Z.lor_0_r, Z.land_comm, Z.land_ones by lia.
    by apply Z.mod_small.
Qed.

(** The masks that [blend_epi16] of blake3_sse2.c computes for its two operands. *)
Lemma sse2_blend_words a b imm : ok4 a -> ok4 b -> imm = 0xCC \/ imm = 0xC0 -> Sse2.blend_epi16 a b imm = word_blend a b imm.
Proof.
  intros (a0 & a1 & a2 & a3 & -> & ? & ? & ? & ?)%four (b0 & b1 & b2 & b3 & -> & ? & ? & ? & ?)%four Himm. unfold Sse2.blend_epi16. cbv zeta.
  set (mask := cmpeq_epi16 _ _). assert (mask = if imm =? 0xCC then [0; 0xFFFFFFFF; 0; 0xFFFFFFFF] else [0; 0; 0; 0xFFFFFFFF]) as -> by (destruct Himm as [-> | ->]; by vm_compute).
  unfold word_blend, or_si, and_si, andnot_si. destruct (imm =? 0xCC); cbn [zip_with]; rewrite !select_word by auto; done.
Qed.

#[export] Instance sse2_rows : RowOps Sse2.ops Sse2.blend_epi16.
Proof. constructor; [apply _|apply sse2_blend_words]. Qed.

#[export] Instance sse41_rows : RowOps Sse41.ops mm_blend_epi16.
Proof. constructor; [apply _|apply mm_blend_words]. Qed.

(** ** The transpositions and the counters *)

Lemma sse2_transposes : transposes 4 Sse2.transpose_vecs.
Proof. intros f. reflexivity. Qed.

Lemma neon_transposes : transposes 4 Neon.transpose_vecs_128.
Proof. intros f. reflexivity. Qed.

Lemma sse2_counters : counters_right 4 Sse2.load_counters.
Proof. apply (load_counters_cmp_right 4). lia. Qed.

Lemma neon_counters : counters_right 4 Neon.load_counters4.
Proof.
  intros c inc Hc. unfold Neon.load_counters4. cbv zeta. cbn [seq map]. rewrite !counter_at_wrap by done. by destruct inc.
Qed.

(** ** Many inputs, four at a time *)

Lemma many4_portable T o load_counters h1 inputs blocks key c inc flags flags_start flags_end :
  Lanewise 4 o -> transposes 4 T -> counters_right 4 load_counters -> many_args inputs key c flags flags_start flags_end ->
  (forall input c, bytes_ok input -> u64_ok c -> h1 input c = hash_one input blocks key c flags flags_start flags_end) ->
  degree_loop (length inputs) 4 inc
    (fun inputs c => store_hashes4 T (vec_hash 4 o (msg_vecs4 T) load_counters inputs blocks key c inc flags flags_start flags_end))
    (fun inputs c => degree_loop (length inputs) 1 inc (fun inputs c => h1 (input_at inputs 0) c) (fun _ _ => []) inputs c) inputs c =
  portable_many blocks key inc flags flags_start flags_end inputs c.
Proof.
  intros Ho HT Hc [Hin Hlk Hk Hcounter Hf Hfs Hfe] H1. apply degree_loop_portable; [lia|done|done| |].
  - intros l d Hd Hl Hn. apply vec_hash_portable; try done; [intros; by apply msg_vecs4_right|by apply store_hashes4_right|lia].
  - intros l d Hd Hl. apply single_loop_portable; [done|done| |done]. intros input e He Hi. by apply H1.
Qed.

Lemma hash_one_rows o blend input blocks key c flags flags_start flags_end :
  RowOps o blend -> bytes_ok input -> length key = 8%nat -> Forall u32_ok key -> 0 <= flags < 256 -> 0 <= flags_start < 256 -> 0 <= flags_end < 256 ->
  store_cv_words (hash_blocks_with (row_compress_in_place o blend) input blocks key c flags (Z.lor flags flags_start) flags_end) =
  hash_one input blocks key c flags flags_start flags_end.
Proof.
  intros Ho Hb Hl Hk Hf Hfs Hfe. unfold hash_one. rewrite hash_blocks_with_portable by (done || by apply (lor_range 8)). done.
Qed.

Lemma sse2_many inputs blocks key c inc flags flags_start flags_end :
  many_args inputs key c flags flags_start flags_end ->
  Sse2.blake3_hash_many_sse2 inputs blocks key c inc flags flags_start flags_end = portable_many blocks key inc flags flags_start flags_end inputs c.
Proof.
  intros Ha. pose proof Ha as [Hin Hlk Hk Hcounter Hf Hfs Hfe]. apply (many4_portable Sse2.transpose_vecs Sse2.ops Sse2.load_counters (fun input c => Sse2.hash_one_sse2 input blocks key c flags flags_start flags_end)); [apply _|apply sse2_transposes|apply sse2_counters|done|].
  intros input d Hb _. apply (hash_one_rows Sse2.ops Sse2.blend_epi16); [apply _|done..].
Qed.

Lemma sse41_many inputs blocks key c inc flags flags_start flags_end :
  many_args inputs key c flags flags_start flags_end ->
  Sse41.blake3_hash_many_sse41 inputs blocks key c inc flags flags_start flags_end = portable_many blocks key inc flags flags_start flags_end inputs c.
Proof.
  intros Ha. pose proof Ha as [Hin Hlk Hk Hcounter Hf Hfs Hfe]. apply (many4_portable Sse41.transpose_vecs Sse41.ops Sse41.load_counters (fun input c => Sse41.hash_one_sse41 input blocks key c flags flags_start flags_end)); [apply _|apply sse2_transposes|apply sse2_counters|done|].
  intros input d Hb _. apply (hash_one_rows Sse41.ops mm_blend_epi16); [apply _|done..].
Qed.

Lemma hash_blocks_with_same input blocks cv c flags bf fe :
  hash_blocks_with blake3_compress_in_place input blocks cv c flags bf fe = hash_blocks input blocks cv c flags bf fe.
Proof. revert input cv bf. induction blocks as [|k IH]; intros input cv bf; [done|]. apply IH. Qed.

Lemma neon_many inputs blocks key c inc flags flags_start flags_end :
  many_args inputs key c flags flags_start flags_end ->
  Neon.blake3_hash_many_neon inputs blocks key c inc flags flags_start flags_end = portable_many blocks key inc flags flags_start flags_end inputs c.
Proof.
  intros Ha. apply (many4_portable Neon.transpose_vecs_128 Neon.ops Neon.load_counters4 (fun input c => Neon.hash_one_neon input blocks key c flags flags_start flags_end)); [apply _|apply neon_transposes|apply neon_counters|done|].
  intros input d Hb _. unfold Neon.hash_one_neon. by rewrite hash_blocks_with_same.
Qed.
