(* ===== verification/Blake3Avx.v ===== *)
(** * BLAKE3 on 256-bit and 512-bit registers

    blake3_avx2.c and blake3_avx512.c: eight and sixteen inputs side by side, and
    on AVX-512 several blocks of extended output at once. Each file is shown to
    compute what blake3_portable.c computes. *)

From stdpp Require Import base list option numbers.
From S2P Require Import Prelude Memory Blake3Core Blake3Vector Blake3Rows Blake3Simd.

(** ** Intrinsics *)

(** [_mm256_permute2x128_si256]: each half of the result is one of the four
    halves of the operands, or zero. *)
Definition permute2x128 (a b : register) (imm : Z) : register :=
  let halves := quads a ++ quads b in
  let pick k := if Z.testbit imm (4 * k + 3) then [0; 0; 0; 0] else default [] (halves !! field imm (2 * k)) in
  pick 0 ++ pick 1.

(** [_mm512_shuffle_i32x4]: two 128-bit lanes of each operand. *)
Definition shuffle_i32x4 (a b : register) (imm : Z) : register :=
  let pick v k := default [] (quads v !! field imm k) in
  pick a 0 ++ pick a 1 ++ pick b 2 ++ pick b 3.

(** [_mm256_set1_epi64x], [_mm256_setr_epi64x], [_mm256_add_epi64],
    [_mm256_srli_epi64], [_mm256_cvtepi64_epi32] *)
Definition set1_epi64x (n : nat) (x : Z) : register := of_longs (replicate n (u64 x)).
Definition setr_epi64x (l : list Z) : register := of_longs l.
Definition add_epi64 (a b : register) : register := of_longs (zip_with (fun x y => u64 (x + y)) (as_longs a) (as_longs b)).
Definition srli_epi64 (v : register) (n : Z) : register := of_longs (map (fun x => Z.shiftr x n) (as_longs v)).
Definition cvtepi64_epi32 (v : register) : register := map u32 (as_longs v).

(** ** Messages and results *)

(** [transpose_msg_vecs] of blake3_avx2.c, [transpose_msg_vecs8] and
    [transpose_msg_vecs16] of blake3_avx512.c *)
Definition msg_vecs8 (transpose_vecs : list register -> list register) (inputs : list bytes) (block_offset : nat) : list register :=
  let out := concat (map (fun k => map (fun i => loadu 8 (input_at inputs i) (block_offset + k * 32)) (seq 0 8)) (seq 0 2)) in
  transpose_vecs (take 8 out) ++ transpose_vecs (take 8 (drop 8 out)).
Definition msg_vecs16 (transpose_vecs : list register -> list register) (inputs : list bytes) (block_offset : nat) : list register :=
  transpose_vecs (map (fun i => loadu 16 (input_at inputs i) block_offset) (seq 0 16)).

(** The stores at the end of [blake3_hash8] and [blake3_hash16]; sixteen state
    vectors are needed for the latter, and the low halves are stored. *)
Definition store_hashes8 (transpose_vecs : list register -> list register) (h_vecs : list register) : bytes :=
  let h := transpose_vecs h_vecs in concat (map (fun i => storeu (get [] h i)) (seq 0 8)).
Definition store_hashes16 (transpose_vecs : list register -> list register) (h_vecs : list register) : bytes :=
  let padded := transpose_vecs (h_vecs ++ replicate 8 (set1_epi32 16 0)) in
  concat (map (fun i => storeu (take 8 (get [] padded i))) (seq 0 16)).

(** ** blake3_avx2.c *)

Module Avx2.
Definition DEGREE : nat := 8.

Definition rot16 (x : register) : register :=
  shuffle_epi8 x (set_epi8 [13; 12; 15; 14; 9; 8; 11; 10; 5; 4; 7; 6; 1; 0; 3; 2; 13; 12; 15; 14; 9; 8; 11; 10; 5; 4; 7; 6; 1; 0; 3; 2]).
Definition rot12 (x : register) : register := or_si (srli_epi32 x 12) (slli_epi32 x (32 - 12)).
Definition rot8 (x : register) : register :=
  shuffle_epi8 x (set_epi8 [12; 15; 14; 13; 8; 11; 10; 9; 4; 7; 6; 5; 0; 3; 2; 1; 12; 15; 14; 13; 8; 11; 10; 9; 4; 7; 6; 5; 0; 3; 2; 1]).
Definition rot7 (x : register) : register := or_si (srli_epi32 x 7) (slli_epi32 x (32 - 7)).
Definition ops : word_ops register := WordOps add_epi32 xor_si rot16 rot12 rot8 rot7.

Definition round_fn : list register -> list register -> nat -> list register := vec_round_fn [] ops.

Definition transpose_vecs (vecs : list register) : list register :=
  let v := get [] vecs in
  let ab_0145 := unpacklo_epi32 (v 0%nat) (v 1%nat) in
  let ab_2367 := unpackhi_epi32 (v 0%nat) (v 1%nat) in
  let cd_0145 := unpacklo_epi32 (v 2%nat) (v 3%nat) in
  let cd_2367 := unpackhi_epi32 (v 2%nat) (v 3%nat) in
  let ef_0145 := unpacklo_epi32 (v 4%nat) (v 5%nat) in
  let ef_2367 := unpackhi_epi32 (v 4%nat) (v 5%nat) in
  let gh_0145 := unpacklo_epi32 (v 6%nat) (v 7%nat) in
  let gh_2367 := unpackhi_epi32 (v 6%nat) (v 7%nat) in
  let abcd_04 := unpacklo_epi64 ab_0145 cd_0145 in
  let abcd_15 := unpackhi_epi64 ab_0145 cd_0145 in
  let abcd_26 := unpacklo_epi64 ab_2367 cd_2367 in
  let abcd_37 := unpackhi_epi64 ab_2367 cd_2367 in
  let efgh_04 := unpacklo_epi64 ef_0145 gh_0145 in
  let efgh_15 := unpackhi_epi64 ef_0145 gh_0145 in
  let efgh_26 := unpacklo_epi64 ef_2367 gh_2367 in
  let efgh_37 := unpackhi_epi64 ef_2367 gh_2367 in
  [permute2x128 abcd_04 efgh_04 0x20; permute2x128 abcd_15 efgh_15 0x20;
   permute2x128 abcd_26 efgh_26 0x20; permute2x128 abcd_37 efgh_37 0x20;
   permute2x128 abcd_04 efgh_04 0x31; permute2x128 abcd_15 efgh_15 0x31;
   permute2x128 abcd_26 efgh_26 0x31; permute2x128 abcd_37 efgh_37 0x31].

Definition transpose_msg_vecs : list bytes -> nat -> list register := msg_vecs8 transpose_vecs.
Definition load_counters : Z -> bool -> register * register := load_counters_cmp DEGREE (set_epi32 [7; 6; 5; 4; 3; 2; 1; 0]).

Definition blake3_hash8_avx2 (inputs : list bytes) (blocks : nat) (key : list Z) (counter : Z) (increment_counter : bool)
    (flags flags_start flags_end : Z) : bytes :=
  store_hashes8 transpose_vecs
    (vec_hash DEGREE ops transpose_msg_vecs load_counters inputs blocks key counter increment_counter flags flags_start flags_end).

Definition blake3_hash_many_avx2 (inputs : list bytes) (blocks : nat) (key : list Z) (counter : Z) (increment_counter : bool)
    (flags flags_start flags_end : Z) : bytes :=
  degree_loop (length inputs) DEGREE increment_counter
    (fun inputs counter => blake3_hash8_avx2 inputs blocks key counter increment_counter flags flags_start flags_end)
    (fun inputs counter => Sse41.blake3_hash_many_sse41 inputs blocks key counter increment_counter flags flags_start flags_end)
    inputs counter.
End Avx2.

(** ** blake3_avx512.c *)

(** The end of [blake3_xof4] and the like: [v[ i ] = xor( v[ i ], v[ i + 8 ] )]
    and [v[ i + 8 ] = xor( v[ i + 8 ], h_vecs[ i ] )] for each [i] below eight. *)
Definition xof_state (o : word_ops register) (h_vecs v : list register) : list register :=
  fold_left (fun v i => let v := <[i := w_xor o (get [] v i) (get [] v (i + 8))]> v in
                        <[(i + 8)%nat := w_xor o (get [] v (i + 8)) (get [] h_vecs i)]> v) (seq 0 8) v.

(** [blake3_xof4], [blake3_xof8] and [blake3_xof16] up to the transposition. *)
Definition vec_xof (n : nat) (o : word_ops register) (load_counters : Z -> bool -> register * register) (cv : list Z) (block : bytes)
    (block_len counter flags : Z) : list register :=
  let h_vecs := map (fun i => set1_epi32 n (at_word cv i)) (seq 0 8) in
  let block_words := load_block_words block in
  let msg_vecs := map (fun i => set1_epi32 n (at_word block_words i)) (seq 0 16) in
  let '(counter_low_vec, counter_high_vec) := load_counters counter true in
  xof_state o h_vecs (vec_rounds o (vec_state n h_vecs counter_low_vec counter_high_vec block_len flags) msg_vecs).

(** The loops of [blake3_xof_many]: [xof_n] gives [n] blocks of output. *)
Fixpoint xof_loop (fuel n : nat) (xof_n : Z -> bytes) (rest : nat -> Z -> bytes) (outblocks : nat) (counter : Z) : bytes :=
  match fuel with
  | O => rest outblocks counter
  | S fuel =>
      if (n <=? outblocks)%nat then xof_n counter ++ xof_loop fuel n xof_n rest (outblocks - n) (u64 (counter + Z.of_nat n))
      else rest outblocks counter
  end.

Module Avx512.
(** [add_128], [xor_128], [rot16_128] and so on, and the wider ones. *)
Definition ops : word_ops register :=
  WordOps add_epi32 xor_si (fun x => ror_epi32 x 16) (fun x => ror_epi32 x 12) (fun x => ror_epi32 x 8) (fun x => ror_epi32 x 7).

Definition compress_pre : list Z -> bytes -> Z -> Z -> Z -> rows4 := row_compress_pre ops mm_blend_epi16.
Definition blake3_compress_xof_avx512 : list Z -> bytes -> Z -> Z -> Z -> bytes := row_compress_xof ops mm_blend_epi16.
Definition blake3_compress_in_place_avx512 : list Z -> bytes -> Z -> Z -> Z -> list Z := row_compress_in_place ops mm_blend_epi16.

(** Four lanes; the same texts as in blake3_sse2.c and blake3_avx2.c. *)
Definition round_fn4 : list register -> list register -> nat -> list register := vec_round_fn [] ops.
Definition transpose_vecs_128 : list register -> list register := Sse2.transpose_vecs.
Definition transpose_msg_vecs4 : list bytes -> nat -> list register := msg_vecs4 transpose_vecs_128.

Definition load_counters4 (counter : Z) (increment_counter : bool) : register * register :=
  let mask := if increment_counter then u64 (Z.lnot 0) else 0 in
  let mask_vec := set1_epi64x 4 mask in
  let deltas := setr_epi64x [0; 1; 2; 3] in
  let deltas := and_si mask_vec deltas in
  let counters := add_epi64 (set1_epi64x 4 counter) deltas in
  (cvtepi64_epi32 counters, cvtepi64_epi32 (srli_epi64 counters 32)).

Definition blake3_hash4_avx512 (inputs : list bytes) (blocks : nat) (key : list Z) (counter : Z) (increment_counter : bool)
    (flags flags_start flags_end : Z) : bytes :=
  store_hashes4 transpose_vecs_128
    (vec_hash 4 ops transpose_msg_vecs4 load_counters4 inputs blocks key counter increment_counter flags flags_start flags_end).

Definition blake3_xof4_avx512 (cv : list Z) (block : bytes) (block_len counter flags : Z) : bytes :=
  let v := vec_xof 4 ops load_counters4 cv block block_len counter flags in
  let a := transpose_vecs_128 (take 4 v) in
  let b := transpose_vecs_128 (take 4 (drop 4 v)) in
  let c := transpose_vecs_128 (take 4 (drop 8 v)) in
  let d := transpose_vecs_128 (take 4 (drop 12 v)) in
  concat (map (fun i => storeu (get [] a i) ++ storeu (get [] b i) ++ storeu (get [] c i) ++ storeu (get [] d i)) (seq 0 4)).

(** Eight lanes. *)
Definition round_fn8 : list register -> list register -> nat -> list register := vec_round_fn [] ops.
Definition transpose_vecs_256 : list register -> list register := Avx2.transpose_vecs.
Definition transpose_msg_vecs8 : list bytes -> nat -> list register := msg_vecs8 transpose_vecs_256.

Definition load_counters8 (counter : Z) (increment_counter : bool) : register * register :=
  let mask := if increment_counter then u64 (Z.lnot 0) else 0 in
  let mask_vec := set1_epi64x 8 mask in
  let deltas := setr_epi64x [0; 1; 2; 3; 4; 5; 6; 7] in
  let deltas := and_si mask_vec deltas in
  let counters := add_epi64 (set1_epi64x 8 counter) deltas in
  (cvtepi64_epi32 counters, cvtepi64_epi32 (srli_epi64 counters 32)).

Definition blake3_hash8_avx512 (inputs : list bytes) (blocks : nat) (key : list Z) (counter : Z) (increment_counter : bool)
    (flags flags_start flags_end : Z) : bytes :=
  store_hashes8 transpose_vecs_256
    (vec_hash 8 ops transpose_msg_vecs8 load_counters8 inputs blocks key counter increment_counter flags flags_start flags_end).

Definition blake3_xof8_avx512 (cv : list Z) (block : bytes) (block_len counter flags : Z) : bytes :=
  let v := vec_xof 8 ops load_counters8 cv block block_len counter flags in
  let a := transpose_vecs_256 (take 8 v) in
  let b := transpose_vecs_256 (take 8 (drop 8 v)) in
  concat (map (fun i => storeu (get [] a i) ++ storeu (get [] b i)) (seq 0 8)).

(** Sixteen lanes. *)
Definition round_fn16 : list register -> list register -> nat -> list register := vec_round_fn [] ops.

Definition unpack_lo_128 (a b : register) : register := shuffle_i32x4 a b 0x88.
Definition unpack_hi_128 (a b : register) : register := shuffle_i32x4 a b 0xdd.

Definition transpose_vecs_512 (vecs : list register) : list register :=
  let v := get [] vecs in
  let ab_0 := unpacklo_epi32 (v 0%nat) (v 1%nat) in
  let ab_2 := unpackhi_epi32 (v 0%nat) (v 1%nat) in
  let cd_0 := unpacklo_epi32 (v 2%nat) (v 3%nat) in
  let cd_2 := unpackhi_epi32 (v 2%nat) (v 3%nat) in
  let ef_0 := unpacklo_epi32 (v 4%nat) (v 5%nat) in
  let ef_2 := unpackhi_epi32 (v 4%nat) (v 5%nat) in
  let gh_0 := unpacklo_epi32 (v 6%nat) (v 7%nat) in
  let gh_2 := unpackhi_epi32 (v 6%nat) (v 7%nat) in
  let ij_0 := unpacklo_epi32 (v 8%nat) (v 9%nat) in
  let ij_2 := unpackhi_epi32 (v 8%nat) (v 9%nat) in
  let kl_0 := unpacklo_epi32 (v 10%nat) (v 11%nat) in
  let kl_2 := unpackhi_epi32 (v 10%nat) (v 11%nat) in
  let mn_0 := unpacklo_epi32 (v 12%nat) (v 13%nat) in
  let mn_2 := unpackhi_epi32 (v 12%nat) (v 13%nat) in
  let op_0 := unpacklo_epi32 (v 14%nat) (v 15%nat) in
  let op_2 := unpackhi_epi32 (v 14%nat) (v 15%nat) in
  let abcd_0 := unpacklo_epi64 ab_0 cd_0 in
  let abcd_1 := unpackhi_epi64 ab_0 cd_0 in
  let abcd_2 := unpacklo_epi64 ab_2 cd_2 in
  let abcd_3 := unpackhi_epi64 ab_2 cd_2 in
  let efgh_0 := unpacklo_epi64 ef_0 gh_0 in
  let efgh_1 := unpackhi_epi64 ef_0 gh_0 in
  let efgh_2 := unpacklo_epi64 ef_2 gh_2 in
  let efgh_3 := unpackhi_epi64 ef_2 gh_2 in
  let ijkl_0 := unpacklo_epi64 ij_0 kl_0 in
  let ijkl_1 := unpackhi_epi64 ij_0 kl_0 in
  let ijkl_2 := unpacklo_epi64 ij_2 kl_2 in
  let ijkl_3 := unpackhi_epi64 ij_2 kl_2 in
  let mnop_0 := unpacklo_epi64 mn_0 op_0 in
  let mnop_1 := unpackhi_epi64 mn_0 op_0 in
  let mnop_2 := unpacklo_epi64 mn_2 op_2 in
  let mnop_3 := unpackhi_epi64 mn_2 op_2 in
  let abcdefgh_0 := unpack_lo_128 abcd_0 efgh_0 in
  let abcdefgh_1 := unpack_lo_128 abcd_1 efgh_1 in
  let abcdefgh_2 := unpack_lo_128 abcd_2 efgh_2 in
  let abcdefgh_3 := unpack_lo_128 abcd_3 efgh_3 in
  let abcdefgh_4 := unpack_hi_128 abcd_0 efgh_0 in
  let abcdefgh_5 := unpack_hi_128 abcd_1 efgh_1 in
  let abcdefgh_6 := unpack_hi_128 abcd_2 efgh_2 in
  let abcdefgh_7 := unpack_hi_128 abcd_3 efgh_3 in
  let ijklmnop_0 := unpack_lo_128 ijkl_0 mnop_0 in
  let ijklmnop_1 := unpack_lo_128 ijkl_1 mnop_1 in
  let ijklmnop_2 := unpack_lo_128 ijkl_2 mnop_2 in
  let ijklmnop_3 := unpack_lo_128 ijkl_3 mnop_3 in
  let ijklmnop_4 := unpack_hi_128 ijkl_0 mnop_0 in
  let ijklmnop_5 := unpack_hi_128 ijkl_1 mnop_1 in
  let ijklmnop_6 := unpack_hi_128 ijkl_2 mnop_2 in
  let ijklmnop_7 := unpack_hi_128 ijkl_3 mnop_3 in
  [unpack_lo_128 abcdefgh_0 ijklmnop_0; unpack_lo_128 abcdefgh_1 ijklmnop_1;
   unpack_lo_128 abcdefgh_2 ijklmnop_2; unpack_lo_128 abcdefgh_3 ijklmnop_3;
   unpack_lo_128 abcdefgh_4 ijklmnop_4; unpack_lo_128 abcdefgh_5 ijklmnop_5;
   unpack_lo_128 abcdefgh_6 ijklmnop_6; unpack_lo_128 abcdefgh_7 ijklmnop_7;
   unpack_hi_128 abcdefgh_0 ijklmnop_0; unpack_hi_128 abcdefgh_1 ijklmnop_1;
   unpack_hi_128 abcdefgh_2 ijklmnop_2; unpack_hi_128 abcdefgh_3 ijklmnop_3;
   unpack_hi_128 abcdefgh_4 ijklmnop_4; unpack_hi_128 abcdefgh_5 ijklmnop_5;
   unpack_hi_128 abcdefgh_6 ijklmnop_6; unpack_hi_128 abcdefgh_7 ijklmnop_7].

Definition transpose_msg_vecs16 : list bytes -> nat -> list register := msg_vecs16 transpose_vecs_512.

(** The carry is set where the top bit of the low word was one before the
    addition and is zero after it. *)
Definition load_counters16 (counter : Z) (increment_counter : bool) : register * register :=
  let mask := set1_epi32 16 (- Z.b2z increment_counter) in
  let deltas := set_epi32 [15; 14; 13; 12; 11; 10; 9; 8; 7; 6; 5; 4; 3; 2; 1; 0] in
  let masked_deltas := and_si deltas mask in
  let low_words := add_epi32 (set1_epi32 16 counter) masked_deltas in
  let carries := srli_epi32 (andnot_si low_words (set1_epi32 16 counter)) 31 in
  let high_words := add_epi32 (set1_epi32 16 (Z.shiftr counter 32)) carries in
  (low_words, high_words).

Definition blake3_hash16_avx512 (inputs : list bytes) (blocks : nat) (key : list Z) (counter : Z) (increment_counter : bool)
    (flags flags_start flags_end : Z) : bytes :=
  store_hashes16 transpose_vecs_512
    (vec_hash 16 ops transpose_msg_vecs16 load_counters16 inputs blocks key counter increment_counter flags flags_start flags_end).

Definition blake3_xof16_avx512 (cv : list Z) (block : bytes) (block_len counter flags : Z) : bytes :=
  let v := transpose_vecs_512 (vec_xof 16 ops load_counters16 cv block block_len counter flags) in
  concat (map (fun i => storeu (get [] v i)) (seq 0 16)).

(** Any number of inputs and of output blocks. *)
Definition hash_one_avx512 (input : bytes) (blocks : nat) (key : list Z) (counter flags flags_start flags_end : Z) : bytes :=
  store_cv_words (hash_blocks_with blake3_compress_in_place_avx512 input blocks key counter flags (Z.lor flags flags_start) flags_end).

Definition blake3_hash_many_avx512 (inputs : list bytes) (blocks : nat) (key : list Z) (counter : Z) (increment_counter : bool)
    (flags flags_start flags_end : Z) : bytes :=
  degree_loop (length inputs) 16 increment_counter
    (fun inputs counter => blake3_hash16_avx512 inputs blocks key counter increment_counter flags flags_start flags_end)
    (fun inputs counter =>
       degree_loop (length inputs) 8 increment_counter
         (fun inputs counter => blake3_hash8_avx512 inputs blocks key counter increment_counter flags flags_start flags_end)
         (fun inputs counter =>
            degree_loop (length inputs) 4 increment_counter
              (fun inputs counter => blake3_hash4_avx512 inputs blocks key counter increment_counter flags flags_start flags_end)
              (fun inputs counter =>
                 degree_loop (length inputs) 1 increment_counter
                   (fun inputs counter => hash_one_avx512 (input_at inputs 0) blocks key counter flags flags_start flags_end)
                   (fun _ _ => []) inputs counter)
              inputs counter)
         inputs counter)
    inputs counter.

Definition blake3_xof_many_avx512 (cv : list Z) (block : bytes) (block_len counter flags : Z) (outblocks : nat) : bytes :=
  xof_loop outblocks 16 (fun counter => blake3_xof16_avx512 cv block block_len counter flags)
    (fun outblocks counter =>
       xof_loop outblocks 8 (fun counter => blake3_xof8_avx512 cv block block_len counter flags)
         (fun outblocks counter =>
            xof_loop outblocks 4 (fun counter => blake3_xof4_avx512 cv block block_len counter flags)
              (fun outblocks counter =>
                 xof_loop outblocks 1 (fun counter => blake3_compress_xof_avx512 cv block block_len counter flags) (fun _ _ => [])
                   outblocks counter)
              outblocks counter)
         outblocks counter)
    outblocks counter.
End Avx512.

(** ** The transpositions *)

Lemma avx2_transposes : transposes 8 Avx2.transpose_vecs.
Proof. intros f. reflexivity. Qed.

Lemma avx512_transposes : transposes 16 Avx512.transpose_vecs_512.
Proof. intros f. reflexivity. Qed.

(** ** The operations work in lanes *)

Lemma or_rot n k : 0 <= k <= 32 -> lane_op1 n (fun w => rotr32 w k) (fun x => or_si (srli_epi32 x k) (slli_epi32 x (32 - k))).
Proof.
  intros Hk. apply map_lanewise. intros a _. exists (fun w => rotr32 w k). split; [|done].
  exact (zip_map_seq Z.lor (fun w => Z.shiftr w k) (fun w => u32 (Z.shiftl w (32 - k))) a).
Qed.

#[export] Instance avx2_lanes : Lanewise 8 Avx2.ops.
Proof.
  constructor; [apply zip_lanewise|apply zip_lanewise| |by apply or_rot| |by apply or_rot]; apply map_lanewise; intros a Ha.
  - exists bytes_rot16. split; [|apply bytes_rot16_right]. do 8 (destruct a as [|? a]; [discriminate Ha|]). destruct a; [reflexivity|discriminate Ha].
  - exists bytes_rot8. split; [|apply bytes_rot8_right]. do 8 (destruct a as [|? a]; [discriminate Ha|]). destruct a; [reflexivity|discriminate Ha].
Qed.

#[export] Instance avx512_lanes n : Lanewise n Avx512.ops.
Proof.
  constructor; [apply zip_lanewise|apply zip_lanewise|..]; apply map_lanewise; intros a _; (eexists; split; [reflexivity|]); done.
Qed.

#[export] Instance avx512_rows : RowOps Avx512.ops mm_blend_epi16.
Proof. constructor; [apply _|apply mm_blend_words]. Qed.

(** ** Messages and results *)

Lemma msg_vecs8_right T inputs off : transposes 8 T -> msg_vecs8 T inputs off = rect 16 8 (fun w i => load32 (drop off (input_at inputs i)) w).
Proof.
  intros HT. unfold msg_vecs8. set (g := fun i w => load32 (drop off (input_at inputs i)) w).
  assert (forall k i, loadu 8 (input_at inputs i) (off + k * 32) = map (fun j => g i (8 * k + j)%nat) (seq 0 8)) as Hload.
  { intros k i. replace (k * 32)%nat with (8 * k * 4)%nat by lia. apply loadu_at. }
  rewrite (map_ext _ (fun k => rect 8 8 (fun i j => g i (8 * k + j)%nat))) by (intros k; unfold rect; apply map_ext; intros i; apply Hload).
  cbv zeta. cbn [seq map concat]. rewrite app_nil_r.
  change (take 8 (rect 8 8 (fun i j => g i (8 * 0 + j)%nat) ++ _)) with (rect 8 8 (fun i j => g i (0 + j)%nat)).
  change (take 8 (drop 8 _)) with (rect 8 8 (fun i j => g i (8 + j)%nat)). rewrite !HT. reflexivity.
Qed.

Lemma msg_vecs16_right T inputs off : transposes 16 T -> msg_vecs16 T inputs off = rect 16 16 (fun w i => load32 (drop off (input_at inputs i)) w).
Proof.
  intros HT. unfold msg_vecs16. set (g := fun i w => load32 (drop off (input_at inputs i)) w).
  change (map _ (seq 0 16)) with (rect 16 16 (fun i j => g i j)). by rewrite HT.
Qed.

Lemma store_hashes8_right T : transposes 8 T -> stores_lanes 8 (store_hashes8 T).
Proof. intros HT f. unfold store_hashes8. cbv zeta. rewrite HT, !concat_storeu. reflexivity. Qed.

Lemma store_hashes16_right T : transposes 16 T -> stores_lanes 16 (store_hashes16 T).
Proof.
  intros HT f. unfold store_hashes16. cbv zeta.
  change (rect 8 16 f ++ replicate 8 (set1_epi32 16 0)) with (rect 16 16 (fun i j => if (i <? 8)%nat then f i j else 0)).
  rewrite HT, !concat_storeu. reflexivity.
Qed.

(** ** Counters *)

Lemma as_of_longs l : Forall u64_ok l -> as_longs (of_longs l) = l.
Proof.
  induction 1 as [|x l Hx Hl IH]; [done|]. unfold of_longs in *. cbn [map concat app as_longs]. rewrite IH. f_equal. unfold wrap, u64_ok in *.
  rewrite (Z.mod_small (x / 2 ^ 32)) by (split; [apply Z.div_pos; lia|apply Z.div_lt_upper_bound; lia]).
  pose proof (Z.div_mod x (2 ^ 32) ltac:(lia)). lia.
Qed.

(** The counters of [load_counters4] and [load_counters8]. *)
Lemma long_counters n c inc deltas :
  u64_ok c -> as_longs deltas = map (fun i => if (inc : bool) then Z.of_nat i else 0) (seq 0 n) ->
  let counters := add_epi64 (set1_epi64x n c) deltas in
  (cvtepi64_epi32 counters, cvtepi64_epi32 (srli_epi64 counters 32)) =
  (map (fun i => counter_low (counter_at c inc i)) (seq 0 n), map (fun i => counter_high (counter_at c inc i)) (seq 0 n)).
Proof.
  intros Hc Hd. cbv zeta.
  assert (as_longs (add_epi64 (set1_epi64x n c) deltas) = map (counter_at c inc) (seq 0 n)) as Ha.
  { unfold add_epi64, set1_epi64x. rewrite Hd. rewrite (as_of_longs (replicate n (u64 c))) by (apply Forall_replicate, wrap_range; lia).
    rewrite as_of_longs.
    - rewrite (wrap_small 64 c) by done. clear Hd. generalize 0%nat. induction n as [|n IH]; intros s; [done|]. cbn [replicate seq map zip_with].
      rewrite (counter_at_wrap c inc s) by done. f_equal. apply IH.
    - apply Forall_forall. intros x Hx. apply list_elem_of_In, elem_of_zip_with in Hx as (? & ? & -> & _). apply wrap_range. lia. }
  unfold cvtepi64_epi32, srli_epi64. rewrite Ha. f_equal; [by rewrite map_map|]. rewrite as_of_longs; [by rewrite !map_map|].
  rewrite map_map. apply Forall_map, Forall_forall. intros i _. pose proof (counter_at_ok c inc i Hc) as Hi. unfold u64_ok in *.
  rewrite Z.shiftr_div_pow2 by lia. split; [apply Z.div_pos; lia|]. apply Z.div_lt_upper_bound; lia.
Qed.

Lemma avx512_counters4 : counters_right 4 Avx512.load_counters4.
Proof. intros c inc Hc. apply (long_counters 4 c inc); [done|]. by destruct inc. Qed.

Lemma avx512_counters8 : counters_right 8 Avx512.load_counters8.
Proof. intros c inc Hc. apply (long_counters 8 c inc); [done|]. by destruct inc. Qed.

(** The carry out of the low word, from its top bits. *)
Lemma carry_bit lo d :
  u32_ok lo -> 0 <= d < 2 ^ 31 -> Z.shiftr (Z.land (u32 (Z.lnot (u32 (lo + d)))) lo) 31 = if u32 (lo + d) <? d then 1 else 0.
Proof.
  intros Hlo Hd. unfold u32_ok in *. pose proof (wrap_range 32 (lo + d) ltac:(lia)) as Hs. set (s := u32 (lo + d)) in *.
  assert (u32 (Z.lnot s) = 2 ^ 32 - 1 - s) as -> by (unfold wrap, Z.lnot; rewrite <- (Z.mod_add _ 1) by lia; rewrite Z.mod_small by lia; lia).
  rewrite Z.shiftr_land, !Z.shiftr_div_pow2 by lia.
  assert (forall x, 0 <= x < 2 ^ 32 -> x / 2 ^ 31 = if x <? 2 ^ 31 then 0 else 1) as Htop.
  { intros x Hx. destruct (x <? 2 ^ 31) eqn:E; bool_to_prop; [apply Z.div_small; lia|]. symmetry. apply Z.div_unique with (x - 2 ^ 31); lia. }
  rewrite !Htop by lia. assert (s = if lo + d <? 2 ^ 32 then lo + d else lo + d - 2 ^ 32) as Es.
  { unfold s, wrap. destruct (lo + d <? 2 ^ 32) eqn:E; bool_to_prop; [apply Z.mod_small; lia|]. symmetry. apply Z.mod_unique with 1; lia. }
  destruct (s <? d) eqn:E1; destruct (lo + d <? 2 ^ 32) eqn:E2; destruct (2 ^ 32 - 1 - s <? 2 ^ 31) eqn:E3; destruct (lo <? 2 ^ 31) eqn:E4; bool_to_prop; try lia; done.
Qed.

Lemma avx512_counters16 : counters_right 16 Avx512.load_counters16.
Proof.
  intros c inc Hc. unfold Avx512.load_counters16. cbv zeta. change (set_epi32 _) with (map Z.of_nat (seq 0 16)).
  unfold and_si, add_epi32, andnot_si, srli_epi32. rewrite !set1_map, !zip_map_seq, map_map, zip_map_seq.
  f_equal; apply map_ext_in; intros i [_ Hi]%in_seq; rewrite counter_at_wrap by done; rewrite (Z.land_comm (Z.of_nat i)), masked_delta by lia; set (d := if inc then Z.of_nat i else 0);
    assert (0 <= d < 16) as Hd by (unfold d; destruct inc; lia).
  - by rewrite counter_low_add.
  - rewrite counter_high_add by (done || lia). rewrite carry_bit by (lia || (apply wrap_range; lia)). done.
Qed.

(** ** Many inputs *)

Lemma avx2_many inputs blocks key c inc flags flags_start flags_end :
  many_args inputs key c flags flags_start flags_end ->
  Avx2.blake3_hash_many_avx2 inputs blocks key c inc flags flags_start flags_end = portable_many blocks key inc flags flags_start flags_end inputs c.
Proof.
  intros [Hin Hlk Hk Hcounter Hf Hfs Hfe]. apply degree_loop_portable; [unfold Avx2.DEGREE; lia|done|done| |].
  - intros l d Hd Hl Hn. apply (vec_hash_portable 8);
      [apply avx2_lanes|intros; apply msg_vecs8_right, avx2_transposes|apply (load_counters_cmp_right 8); lia|apply store_hashes8_right, avx2_transposes|lia|done..].
  - intros l d Hd Hl. by apply sse41_many.
Qed.

Lemma avx512_many inputs blocks key c inc flags flags_start flags_end :
  many_args inputs key c flags flags_start flags_end ->
  Avx512.blake3_hash_many_avx512 inputs blocks key c inc flags flags_start flags_end = portable_many blocks key inc flags flags_start flags_end inputs c.
Proof.
  intros [Hin Hlk Hk Hcounter Hf Hfs Hfe]. apply degree_loop_portable; [lia|done|done| |].
  { intros l d Hd Hl Hn. apply (vec_hash_portable 16);
      [apply _|intros; apply msg_vecs16_right, avx512_transposes|apply avx512_counters16|apply store_hashes16_right, avx512_transposes|lia|done..]. }
  intros l d Hd Hl. apply degree_loop_portable; [lia|done|done| |].
  { clear l d Hd Hl. intros l d Hd Hl Hn. apply (vec_hash_portable 8);
      [apply _|intros; apply msg_vecs8_right, avx2_transposes|apply avx512_counters8|apply store_hashes8_right, avx2_transposes|lia|done..]. }
  clear l d Hd Hl. intros l d Hd Hl.
  apply (many4_portable Sse2.transpose_vecs Avx512.ops Avx512.load_counters4 (fun input c => Avx512.hash_one_avx512 input blocks key c flags flags_start flags_end));
    [apply _|apply sse2_transposes|apply avx512_counters4|done|].
  intros input e Hb _. apply (hash_one_rows Avx512.ops mm_blend_epi16); [apply _|done..].
Qed.

(** ** Extended output *)

(** The words of a block of extended output. *)
Definition xof_words (cv s : list Z) : list Z :=
  map (fun i => Z.lxor (at_word s i) (at_word s (i + 8))) (seq 0 8) ++ map (fun i => Z.lxor (at_word s (i + 8)) (at_word cv i)) (seq 0 8).

Lemma compress_xof_words cv block len c flags : blake3_compress_xof cv block len c flags = storeu (xof_words cv (compress_pre cv block len c flags)).
Proof. unfold blake3_compress_xof, storeu, xof_words. by rewrite map_app, !map_map. Qed.

Lemma xof_state_halves o h v :
  length v = 16%nat ->
  xof_state o h v = map (fun i => w_xor o (get [] v i) (get [] v (i + 8))) (seq 0 8) ++ map (fun i => w_xor o (get [] v (i + 8)) (get [] h i)) (seq 0 8).
Proof. sixteen v. reflexivity. Qed.

Section xof.
Context (n : nat) (o : word_ops register) `{Hlw : !Lanewise n o} (load_counters : Z -> bool -> register * register).
Context (Hn : (0 < n)%nat) (Hcounters : counters_right n load_counters).
Context (cv : list Z) (block : bytes) (block_len flags : Z) (Hargs : compress_args cv block block_len flags).

(** A word in all lanes. *)
Lemma set1_lanes i (l : list Z) k : (i < n)%nat -> length l = k -> Forall u32_ok l -> Forall2 (lane n i) (map (fun j => set1_epi32 n (at_word l j)) (seq 0 k)) l.
Proof using Type.
  intros Hi Hl Hw. refine (eq_ind _ (Forall2 (lane n i) (map (fun j => set1_epi32 n (at_word l j)) (seq 0 k))) _ _ (at_words l k Hl)).
  apply Forall2_fmap, Forall_Forall2_diag, Forall_forall. intros w _. apply lane_set1; [done|by apply at_word_ok].
Qed.

Lemma xof_state_lane i v s h k :
  Forall2 (lane n i) v s -> length v = 16%nat -> Forall2 (lane n i) h k -> length h = 8%nat ->
  Forall2 (lane n i) (xof_state o h v) (xof_words k s) /\ length (xof_state o h v) = 16%nat.
Proof using Hlw Hn.
  intros Hv Hl Hh Hlh. rewrite xof_state_halves by done. split; [|done].
  apply Forall2_app; apply Forall2_fmap, Forall_Forall2_diag, Forall_forall; intros j [_ Hj]%in_seq; change at_word with (@get Z 0);
    apply (rel_xor _ _ _ (lane_related n o i)); apply get_rel; done || lia.
Qed.

Lemma vec_xof_rect c :
  u64_ok c -> vec_xof n o load_counters cv block block_len c flags =
    rect 16 n (fun w i => at_word (xof_words cv (compress_pre cv block block_len (u64 (c + Z.of_nat i)) flags)) w).
Proof using Hlw Hn Hcounters Hargs.
  intros Hc. destruct Hargs as [Hl Hw Hb Hlen Hf]. unfold vec_xof. rewrite Hcounters by done. cbv zeta.
  set (h := map (fun i => set1_epi32 n (at_word cv i)) (seq 0 8)). set (m := map (fun i => set1_epi32 n (at_word (load_block_words block) i)) (seq 0 16)).
  set (lo := map _ (seq 0 n)). set (hi := map _ (seq 0 n)).
  assert (forall i, (i < n)%nat -> let v := vec_rounds o (vec_state n h lo hi block_len flags) m in
    Forall2 (lane n i) v (compress_pre cv block block_len (u64 (c + Z.of_nat i)) flags) /\ length v = 16%nat /\ Forall2 (lane n i) h cv) as Hv.
  { intros i Hi. cbv zeta. destruct (counter_words_ok (u64 (c + Z.of_nat i)) (wrap_range 64 _ ltac:(lia))) as [H1 H2].
    assert (Forall2 (lane n i) h cv) as Hh by (by apply set1_lanes). assert (Forall2 (lane n i) m (load_block_words block)) as Hm
      by (apply set1_lanes; [done|done|]; apply Forall_map, Forall_forall; intros; by apply load32_ok).
    assert (length (vec_state n h lo hi block_len flags) = 16%nat) as Hls by done.
    destruct (vec_rounds_lane n o i _ m _ _ (vec_state_lane n i h cv lo hi (u64 (c + Z.of_nat i)) block_len flags Hi Hh
      (lane_map n i (fun i => counter_low (counter_at c true i)) Hi H1) (lane_map n i (fun i => counter_high (counter_at c true i)) Hi H2) Hlen Hf) Hls Hm eq_refl) as [K1 K2].
    split; [exact K1|]. by split. }
  apply lanes_rect; [|intros i Hi|done].
  - destruct (Hv 0%nat Hn) as (K1 & K2 & K3). by destruct (xof_state_lane 0 _ _ h cv K1 K2 K3 eq_refl).
  - destruct (Hv i Hi) as (K1 & K2 & K3). by destruct (xof_state_lane i _ _ h cv K1 K2 K3 eq_refl).
Qed.

(** The registers stored one block of output after the other. *)
Definition stores_blocks (store : list register -> bytes) : Prop :=
  forall f, store (rect 16 n f) = concat (map (fun i => storeu (map (fun w => f w i) (seq 0 16))) (seq 0 n)).

Lemma vec_xof_portable store c :
  stores_blocks store -> u64_ok c ->
  store (vec_xof n o load_counters cv block block_len c flags) = blake3_xof_many cv block block_len c flags n.
Proof using Hlw Hn Hcounters Hargs.
  intros Hst Hc. rewrite vec_xof_rect by done. rewrite Hst. unfold blake3_xof_many. apply (f_equal (@concat Z)), map_ext. intros i. rewrite compress_xof_words. by rewrite at_words.
Qed.
End xof.

(** The loops. *)
Section xof_many.
Context (cv : list Z) (block : bytes) (block_len flags : Z).

Lemma xof_many_split n k c :
  u64_ok c -> (n <= k)%nat ->
  blake3_xof_many cv block block_len c flags k =
  blake3_xof_many cv block block_len c flags n ++ blake3_xof_many cv block block_len (u64 (c + Z.of_nat n)) flags (k - n).
Proof.
  intros Hc Hn. unfold blake3_xof_many. replace k with (n + (k - n))%nat at 1 by lia. rewrite seq_app, map_app, concat_app. apply (f_equal (app _)), (f_equal (@concat Z)).
  replace (seq (0 + n) (k - n)) with (map (Nat.add n) (seq 0 (k - n))) by (rewrite Nat.add_comm; exact (fmap_add_seq n 0 (k - n))). rewrite map_map. apply map_ext. intros i.
  assert (u64 (c + Z.of_nat (n + i)) = u64 (u64 (c + Z.of_nat n) + Z.of_nat i)) as ->; [|done].
  unfold wrap. rewrite Zplus_mod_idemp_l. f_equal. lia.
Qed.

Lemma xof_loop_portable fuel n xof_n rest k c :
  (0 < n)%nat -> u64_ok c -> (forall c, u64_ok c -> xof_n c = blake3_xof_many cv block block_len c flags n) ->
  (forall k c, u64_ok c -> rest k c = blake3_xof_many cv block block_len c flags k) ->
  xof_loop fuel n xof_n rest k c = blake3_xof_many cv block block_len c flags k.
Proof.
  intros Hn Hc Hx Hr. revert k c Hc. induction fuel as [|fuel IH]; intros k c Hc; [by apply Hr|]. cbn [xof_loop].
  destruct (n <=? k)%nat eqn:E; [|by apply Hr]. apply Nat.leb_le in E. rewrite (xof_many_split n k) by done.
  by rewrite Hx, IH by (try apply wrap_range; done || lia).
Qed.

Lemma xof_single_loop xof_1 k c :
  u64_ok c -> (forall c, u64_ok c -> xof_1 c = blake3_xof_many cv block block_len c flags 1) ->
  xof_loop k 1 xof_1 (fun _ _ => []) k c = blake3_xof_many cv block block_len c flags k.
Proof.
  intros Hc Hx. revert c Hc. induction k as [|k IH]; intros c Hc; [done|]. cbn [xof_loop Nat.leb]. rewrite (xof_many_split 1 (S k)) by (done || lia).
  replace (S k - 1)%nat with k by lia. by rewrite Hx, IH by (try apply wrap_range; done || lia).
Qed.
End xof_many.

Lemma avx512_xof_many cv block block_len c flags outblocks :
  compress_args cv block block_len flags -> u64_ok c ->
  Avx512.blake3_xof_many_avx512 cv block block_len c flags outblocks = blake3_xof_many cv block block_len c flags outblocks.
Proof.
  intros Ha Hc. apply xof_loop_portable; [lia|done| |].
  { clear c Hc. intros c Hc. apply (vec_xof_portable 16 Avx512.ops Avx512.load_counters16 ltac:(lia) avx512_counters16 cv block block_len flags Ha
      (fun v => concat (map (fun i => storeu (get [] (Avx512.transpose_vecs_512 v) i)) (seq 0 16)))); [|done].
    intros f. rewrite avx512_transposes, !concat_storeu. reflexivity. }
  clear c Hc. intros k c Hc. apply xof_loop_portable; [lia|done| |].
  { clear c Hc. intros c Hc. apply (vec_xof_portable 8 Avx512.ops Avx512.load_counters8 ltac:(lia) avx512_counters8 cv block block_len flags Ha
      (fun v => concat (map (fun i => storeu (get [] (Avx512.transpose_vecs_256 (take 8 v)) i) ++ storeu (get [] (Avx512.transpose_vecs_256 (take 8 (drop 8 v))) i)) (seq 0 8)))); [|done].
    intros f. change (take 8 (rect 16 8 f)) with (rect 8 8 f). change (take 8 (drop 8 (rect 16 8 f))) with (rect 8 8 (fun i j => f (8 + i)%nat j)).
    rewrite !(avx2_transposes : transposes 8 Avx512.transpose_vecs_256). setoid_rewrite storeu_app. rewrite !concat_storeu. reflexivity. }
  clear k c Hc. intros k c Hc. apply xof_loop_portable; [lia|done| |].
  { clear c Hc. intros c Hc. apply (vec_xof_portable 4 Avx512.ops Avx512.load_counters4 ltac:(lia) avx512_counters4 cv block block_len flags Ha
      (fun v => concat (map (fun i => storeu (get [] (Avx512.transpose_vecs_128 (take 4 v)) i) ++ storeu (get [] (Avx512.transpose_vecs_128 (take 4 (drop 4 v))) i) ++
        storeu (get [] (Avx512.transpose_vecs_128 (take 4 (drop 8 v))) i) ++ storeu (get [] (Avx512.transpose_vecs_128 (take 4 (drop 12 v))) i)) (seq 0 4)))); [|done].
    intros f. change (take 4 (rect 16 4 f)) with (rect 4 4 f). change (take 4 (drop 4 (rect 16 4 f))) with (rect 4 4 (fun i j => f (4 + i)%nat j)).
    change (take 4 (drop 8 (rect 16 4 f))) with (rect 4 4 (fun i j => f (8 + i)%nat j)). change (take 4 (drop 12 (rect 16 4 f))) with (rect 4 4 (fun i j => f (12 + i)%nat j)).
    rewrite !(sse2_transposes : transposes 4 Avx512.transpose_vecs_128). setoid_rewrite storeu_app. setoid_rewrite storeu_app. setoid_rewrite storeu_app. rewrite !concat_storeu. reflexivity. }
  clear k c Hc. intros k c Hc. apply xof_single_loop; [done|]. intros d Hd.
  unfold Avx512.blake3_compress_xof_avx512. rewrite (row_compress_xof_portable Avx512.ops mm_blend_epi16) by exact Ha. unfold blake3_xof_many. cbn [seq map concat]. rewrite app_nil_r.
  by rewrite Z.add_0_r, wrap_small.
Qed.
