(* ===== verification/Blake3Dispatch.v ===== *)
(** * The choice among the implementations

    blake3_dispatch.c over blake3_sse2.c, blake3_sse41.c, blake3_avx2.c,
    blake3_avx512.c, blake3_neon.c and blake3_portable.c: whatever features the
    processor has, the functions that the hasher calls compute what the portable
    ones compute. This is for the C versions, which builds without assembly use
    (x86-intrinsics and neon-intrinsics in CMakeLists.txt). *)

From stdpp Require Import base list option numbers.
From S2P Require Import Prelude Memory Blake3Core Blake3Vector Blake3Rows Blake3Simd Blake3Avx Blake3Hash.

Module Dispatch.
Section dispatch.
(** [IS_X86], [BLAKE3_USE_NEON] and what [get_cpu_features] returns. *)
Context (is_x86 use_neon : bool) (features : Z).

(** [is_x86 && features & flag] *)
Definition has (flag : Z) : bool := is_x86 && negb (Z.land features flag =? 0).

Definition blake3_compress_in_place (cv : list Z) (block : bytes) (block_len counter flags : Z) : list Z :=
  if has AVX512VL then Avx512.blake3_compress_in_place_avx512 cv block block_len counter flags
  else if has SSE41 then Sse41.blake3_compress_in_place_sse41 cv block block_len counter flags
  else if has SSE2 then Sse2.blake3_compress_in_place_sse2 cv block block_len counter flags
  else Blake3Core.blake3_compress_in_place cv block block_len counter flags.

Definition blake3_compress_xof (cv : list Z) (block : bytes) (block_len counter flags : Z) : bytes :=
  if has AVX512VL then Avx512.blake3_compress_xof_avx512 cv block block_len counter flags
  else if has SSE41 then Sse41.blake3_compress_xof_sse41 cv block block_len counter flags
  else if has SSE2 then Sse2.blake3_compress_xof_sse2 cv block block_len counter flags
  else Blake3Core.blake3_compress_xof cv block block_len counter flags.

Definition blake3_xof_many (cv : list Z) (block : bytes) (block_len counter flags : Z) (outblocks : nat) : bytes :=
  if (outblocks =? 0)%nat then []
  else if has AVX512VL then Avx512.blake3_xof_many_avx512 cv block block_len counter flags outblocks
  else concat (map (fun i => blake3_compress_xof cv block block_len (u64 (counter + Z.of_nat i)) flags) (seq 0 outblocks)).

Definition blake3_hash_many (inputs : list bytes) (blocks : nat) (key : list Z) (counter : Z) (increment_counter : bool)
    (flags flags_start flags_end : Z) : bytes :=
  if is_x86 && (Z.land features (Z.lor AVX512F AVX512VL) =? Z.lor AVX512F AVX512VL) then
    Avx512.blake3_hash_many_avx512 inputs blocks key counter increment_counter flags flags_start flags_end
  else if has AVX2 then Avx2.blake3_hash_many_avx2 inputs blocks key counter increment_counter flags flags_start flags_end
  else if has SSE41 then Sse41.blake3_hash_many_sse41 inputs blocks key counter increment_counter flags flags_start flags_end
  else if has SSE2 then Sse2.blake3_hash_many_sse2 inputs blocks key counter increment_counter flags flags_start flags_end
  else if use_neon then Neon.blake3_hash_many_neon inputs blocks key counter increment_counter flags flags_start flags_end
  else concat (Blake3Core.blake3_hash_many inputs blocks key counter increment_counter flags flags_start flags_end).
End dispatch.
End Dispatch.

Section right.
Context (is_x86 use_neon : bool) (features : Z).

Lemma dispatch_compress cv block len c flags :
  compress_args cv block len flags -> Dispatch.blake3_compress_in_place is_x86 features cv block len c flags = blake3_compress_in_place cv block len c flags.
Proof.
  intros Ha. unfold Dispatch.blake3_compress_in_place. destruct (Dispatch.has _ _ AVX512VL); [exact (row_compress_in_place_portable Avx512.ops mm_blend_epi16 _ _ _ _ _ Ha)|].
  destruct (Dispatch.has _ _ SSE41); [exact (row_compress_in_place_portable Sse41.ops mm_blend_epi16 _ _ _ _ _ Ha)|].
  destruct (Dispatch.has _ _ SSE2); [exact (row_compress_in_place_portable Sse2.ops Sse2.blend_epi16 _ _ _ _ _ Ha)|]. reflexivity.
Qed.

Lemma dispatch_xof cv block len c flags :
  compress_args cv block len flags -> Dispatch.blake3_compress_xof is_x86 features cv block len c flags = blake3_compress_xof cv block len c flags.
Proof.
  intros Ha. unfold Dispatch.blake3_compress_xof. destruct (Dispatch.has _ _ AVX512VL); [exact (row_compress_xof_portable Avx512.ops mm_blend_epi16 _ _ _ _ _ Ha)|].
  destruct (Dispatch.has _ _ SSE41); [exact (row_compress_xof_portable Sse41.ops mm_blend_epi16 _ _ _ _ _ Ha)|].
  destruct (Dispatch.has _ _ SSE2); [exact (row_compress_xof_portable Sse2.ops Sse2.blend_epi16 _ _ _ _ _ Ha)|]. reflexivity.
Qed.

Lemma dispatch_xof_many cv block len c flags outblocks :
  compress_args cv block len flags -> u64_ok c ->
  Dispatch.blake3_xof_many is_x86 features cv block len c flags outblocks = blake3_xof_many cv block len c flags outblocks.
Proof.
  intros Ha Hc. unfold Dispatch.blake3_xof_many. destruct (outblocks =? 0)%nat eqn:E; [apply Nat.eqb_eq in E as ->; reflexivity|].
  destruct (Dispatch.has _ _ AVX512VL); [by apply avx512_xof_many|]. unfold blake3_xof_many. apply (f_equal (@concat Z)), map_ext. intros i. by apply dispatch_xof.
Qed.

Lemma dispatch_hash_many inputs blocks key c inc flags flags_start flags_end :
  many_args inputs key c flags flags_start flags_end ->
  Dispatch.blake3_hash_many is_x86 use_neon features inputs blocks key c inc flags flags_start flags_end =
  concat (blake3_hash_many inputs blocks key c inc flags flags_start flags_end).
Proof.
  intros Ha. unfold Dispatch.blake3_hash_many. destruct (_ && _); [by apply avx512_many|].
  destruct (Dispatch.has _ _ AVX2); [by apply avx2_many|]. destruct (Dispatch.has _ _ SSE41); [by apply sse41_many|].
  destruct (Dispatch.has _ _ SSE2); [by apply sse2_many|]. destruct use_neon; [by apply neon_many|]. reflexivity.
Qed.
End right.

(** C24. The vector code is right: whatever the target and the features of the
    processor, compressing a block, producing extended output and hashing any
    number of inputs side by side (four, eight or sixteen at a time, the rest one
    by one, with counters that wrap) give what the portable code gives. *)
Theorem simd_equals_portable is_x86 use_neon features inputs blocks key c inc flags flags_start flags_end block block_len outblocks :
  many_args inputs key c flags flags_start flags_end -> bytes_ok block -> u32_ok block_len ->
  Dispatch.blake3_compress_in_place is_x86 features key block block_len c flags = blake3_compress_in_place key block block_len c flags /\
  Dispatch.blake3_compress_xof is_x86 features key block block_len c flags = blake3_compress_xof key block block_len c flags /\
  Dispatch.blake3_xof_many is_x86 features key block block_len c flags outblocks = blake3_xof_many key block block_len c flags outblocks /\
  Dispatch.blake3_hash_many is_x86 use_neon features inputs blocks key c inc flags flags_start flags_end =
  concat (blake3_hash_many inputs blocks key c inc flags flags_start flags_end).
Proof.
  intros Ha Hb Hlen. pose proof Ha as [Hin Hlk Hk Hc Hf Hfs Hfe].
  assert (compress_args key block block_len flags) as Hargs by (constructor; [done|done|done|done|unfold u32_ok; lia]).
  split; [by apply dispatch_compress|]. split; [by apply dispatch_xof|]. split; [by apply dispatch_xof_many|]. by apply dispatch_hash_many.
Qed.

(** Twenty-nine inputs at the end of the range of the counter: sixteen, eight
    and four of them side by side and one alone. *)
Lemma simd_equals_portable_witness :
  many_args (map (fun i => replicate 64 (Z.of_nat i)) (seq 0 29)) IV (2 ^ 64 - 20) 0 1 2 /\
  Dispatch.blake3_hash_many true false (AVX512F + AVX512VL) (map (fun i => replicate 64 (Z.of_nat i)) (seq 0 29)) 1 IV (2 ^ 64 - 20) true 0 1 2 =
  concat (blake3_hash_many (map (fun i => replicate 64 (Z.of_nat i)) (seq 0 29)) 1 IV (2 ^ 64 - 20) true 0 1 2).
Proof.
  assert (many_args (map (fun i => replicate 64 (Z.of_nat i)) (seq 0 29)) IV (2 ^ 64 - 20) 0 1 2) as Ha.
  { constructor; [|reflexivity| |done|done|done|done].
    - apply Forall_map, Forall_forall. intros i [_ Hi]%in_seq. apply Forall_replicate. unfold byte_ok. lia.
    - unfold IV. repeat (apply Forall_cons_2; [done|]). apply Forall_nil_2. }
  split; [exact Ha|].
  destruct (simd_equals_portable true false (AVX512F + AVX512VL) _ 1 IV (2 ^ 64 - 20) true 0 1 2 [] 0 0 Ha) as (_ & _ & _ & H); [by apply Forall_nil_2|done|exact H].
Defined.

(** The intrinsics at work: a block of AVX2 code against the portable code. *)
Example avx2_runs :
  let inputs := map (fun i => map (fun j => Z.of_nat (i * 17 + j) mod 256) (seq 0 128)) (seq 0 8) in
  Avx2.blake3_hash8_avx2 inputs 2 IV (2 ^ 32 - 3) true 0 1 2 = concat (blake3_hash_many inputs 2 IV (2 ^ 32 - 3) true 0 1 2).
Proof. vm_compute. reflexivity. Qed.
