(* ===== verification/FourQGroup.v ===== *)
(** * The group of a twisted Edwards curve

    What external/fourq computes with: a field, the points of the curve
    -x^2 + y^2 = 1 + d x^2 y^2 with their addition, which is complete and makes
    them an abelian group, and multiples of a point by integers. *)

From Stdlib Require Import Field Eqdep_dec.
From stdpp Require Import base option list numbers.
From S2P Require Import Prelude.

(** ** Fields *)

Class FieldOps (F : Type) := {
  f_zero : F; f_one : F;
  f_add : F -> F -> F; f_mul : F -> F -> F; f_sub : F -> F -> F; f_opp : F -> F;
  f_div : F -> F -> F; f_inv : F -> F;
  f_theory : field_theory f_zero f_one f_add f_mul f_sub f_opp f_div f_inv eq;
  f_eq_dec :: EqDecision F;
}.

Declare Scope field_scope.
Delimit Scope field_scope with F.
Notation "0" := f_zero : field_scope.
Notation "1" := f_one : field_scope.
Infix "+" := f_add : field_scope.
Infix "*" := f_mul : field_scope.
Infix "-" := f_sub : field_scope.
Infix "/" := f_div : field_scope.
Notation "- x" := (f_opp x) : field_scope.
Notation "/ x" := (f_inv x) : field_scope.

(** ** The group of a complete twisted Edwards curve *)

Section curve.
Context {F : Type} `{Fld : FieldOps F}.
Local Open Scope field_scope.
Add Field edwards_field : f_theory.

(** -x^2 + y^2 = 1 + d x^2 y^2, where -1 is the square of [i] and [d] no square. *)
Class EdwardsCurve (d i : F) : Prop := {
  two_nonzero : (1 + 1 <> 0)%F;
  i_square : (i * i = - (1))%F;
  d_nonsquare : forall x, (x * x <> d)%F;
}.

Context (d i : F) {Ed : EdwardsCurve d i}.

Lemma mul_zero x y : x * y = 0 -> x = 0 \/ y = 0.
Proof.
  intros H. destruct (decide (x = 0)) as [|Hx]; [by left|]. right. transitivity (x * y / x); [by field|]. rewrite H. by field.
Qed.

Lemma mul_nonzero x y : x <> 0 -> y <> 0 -> x * y <> 0.
Proof. intros Hx Hy [?|?]%mul_zero; contradiction. Qed.

Lemma sub_zero x y : x - y = 0 -> x = y.
Proof. intros H. transitivity (x - y + y); [ring|]. rewrite H. ring. Qed.

Lemma cancel_l x y z : x <> 0 -> x * y = x * z -> y = z.
Proof. intros Hx H. transitivity (x * y / x); [by field|]. rewrite H. by field. Qed.

Lemma one_nonzero : 1 <> 0.
Proof. apply (F_1_neq_0 f_theory). Qed.

Lemma d_nonzero : d <> 0.
Proof. intros E. apply (d_nonsquare (d := d) (i := i) 0). rewrite E. ring. Qed.

Definition on_curve (x y : F) : Prop := y * y - x * x = 1 + d * (x * x) * (y * y).

(** The product of the denominators of the addition law is never zero. *)
Lemma square_ratio t x1 y1 s : t * t = d * (x1 * x1) * (y1 * y1) * (s * s) -> s <> 0 -> x1 * y1 <> 0 -> False.
Proof.
  intros H Hs Hxy. apply (d_nonsquare (d := d) (i := i) (t / (x1 * y1 * s))).
  assert (x1 <> 0) by (intros ->; apply Hxy; ring). assert (y1 <> 0) by (intros ->; apply Hxy; ring).
  transitivity (t * t / ((x1 * y1 * s) * (x1 * y1 * s))); [by field|]. rewrite H. by field.
Qed.

Lemma denominators x1 y1 x2 y2 : on_curve x1 y1 -> on_curve x2 y2 ->
  let t := d * x1 * x2 * y1 * y2 in t * t <> 1.
Proof.
  intros H1 H2 t Ht. unfold on_curve in *. pose proof (i_square (d := d) (i := i)) as Hi.
  assert (x1 * y1 <> 0) as Hxy.
  { intros E. apply one_nonzero. rewrite <- Ht. transitivity (d * d * x2 * x2 * y2 * y2 * ((x1 * y1) * (x1 * y1))); [subst t; ring|]. rewrite E. ring. }
  assert (forall e, e * e = 1 -> (i * x1 + e * t * y1) * (i * x1 + e * t * y1) = d * (x1 * x1) * (y1 * y1) * ((i * x2 + e * y2) * (i * x2 + e * y2))) as Hsq.
  { intros e He. transitivity (i * i * (x1 * x1) + t * t * (e * e) * (y1 * y1) + (1 + 1) * e * i * x1 * y1 * t); [ring|].
    rewrite Hi, Ht, He. transitivity (1 + d * (x1 * x1) * (y1 * y1) + (1 + 1) * e * i * x1 * y1 * t); [rewrite <- H1; ring|].
    transitivity (d * (x1 * x1) * (y1 * y1) * (y2 * y2 - x2 * x2) + (1 + 1) * e * i * x1 * y1 * t).
    - rewrite H2. f_equal. transitivity (t * t + d * (x1 * x1) * (y1 * y1)); [by rewrite Ht|subst t; ring].
    - transitivity (d * (x1 * x1) * (y1 * y1) * (e * e * (y2 * y2) + i * i * (x2 * x2) + (1 + 1) * e * i * x2 * y2)); [|ring].
      rewrite He, Hi. subst t. ring. }
  destruct (decide (i * x2 + 1 * y2 = 0)) as [E1|E1]; [|by eapply square_ratio; [apply (Hsq 1); ring|..]].
  destruct (decide (i * x2 + - (1) * y2 = 0)) as [E2|E2]; [|by eapply square_ratio; [apply (Hsq (- (1))); ring|..]].
  assert (y2 = 0) as ->.
  { apply (cancel_l (1 + 1)); [apply (two_nonzero (d := d) (i := i))|]. transitivity ((i * x2 + 1 * y2) - (i * x2 + - (1) * y2)); [ring|]. rewrite E1, E2. ring. }
  apply one_nonzero. rewrite <- Ht. subst t. ring.
Qed.

Lemma denominator_plus x1 y1 x2 y2 : on_curve x1 y1 -> on_curve x2 y2 -> 1 + d * x1 * x2 * y1 * y2 <> 0.
Proof.
  intros H1 H2 E. apply (denominators x1 y1 x2 y2 H1 H2). cbv zeta.
  transitivity (1 + (1 + d * x1 * x2 * y1 * y2) * (d * x1 * x2 * y1 * y2 - 1)); [ring|]. rewrite E. ring.
Qed.

Lemma denominator_minus x1 y1 x2 y2 : on_curve x1 y1 -> on_curve x2 y2 -> 1 - d * x1 * x2 * y1 * y2 <> 0.
Proof.
  intros H1 H2 E. apply (denominators x1 y1 x2 y2 H1 H2). cbv zeta.
  transitivity (1 - (1 - d * x1 * x2 * y1 * y2) * (1 + d * x1 * x2 * y1 * y2)); [ring|]. rewrite E. ring.
Qed.

Lemma y_denominator y : 1 + d * (y * y) <> 0.
Proof.
  intros E. pose proof (i_square (d := d) (i := i)) as Hi. assert (y <> 0) as Hy.
  { intros ->. apply one_nonzero. rewrite <- E. ring. }
  apply (d_nonsquare (d := d) (i := i) (i / y)). transitivity (i * i / (y * y)); [by field|]. rewrite Hi.
  transitivity ((d * (y * y) - (1 + d * (y * y))) / (y * y)); [by field|]. rewrite E. by field.
Qed.

(** y determines x up to its sign. *)
Lemma same_y_coordinate x x' y : on_curve x y -> on_curve x' y -> x' = x \/ x' = - x.
Proof.
  unfold on_curve. intros H H'. assert ((x' - x) * (x' + x) = 0) as E.
  { apply (cancel_l (1 + d * (y * y))); [apply y_denominator|].
    transitivity ((y * y - x * x) - (1 + d * (x * x) * (y * y)) - ((y * y - x' * x') - (1 + d * (x' * x') * (y * y)))); [ring|]. rewrite H, H'. ring. }
  apply mul_zero in E as [E|E]; [left; by apply sub_zero|right]. apply sub_zero. rewrite <- E. ring.
Qed.

(** The addition law. *)
Definition add_coordinates (P Q : F * F) : F * F :=
  let '(x1, y1) := P in
  let '(x2, y2) := Q in
  let t := d * x1 * x2 * y1 * y2 in
  ((x1 * y2 + y1 * x2) / (1 + t), (y1 * y2 + x1 * x2) / (1 - t)).

(** The curve equation as a rule that lowers degrees. *)
Lemma curve_rule x y : on_curve x y -> x * x * y * y = / d * (y * y - x * x - 1).
Proof. intros H. unfold on_curve in H. rewrite H. pose proof d_nonzero. by field. Qed.

Lemma inv_d : / d * d = 1.
Proof. pose proof d_nonzero. by field. Qed.

Lemma add_on_curve x1 y1 x2 y2 : on_curve x1 y1 -> on_curve x2 y2 ->
  on_curve (add_coordinates (x1, y1) (x2, y2)).1 (add_coordinates (x1, y1) (x2, y2)).2.
Proof.
  intros H1 H2. cbn [add_coordinates fst snd]. unfold on_curve.
  pose proof (denominator_plus _ _ _ _ H1 H2) as HA. pose proof (denominator_minus _ _ _ _ H1 H2) as HB.
  apply curve_rule in H1, H2. pose proof inv_d as Hd.
  set (X := x1 * y2 + y1 * x2). set (Y := y1 * y2 + x1 * x2). set (A := 1 + _) in *. set (B := 1 - _) in *.
  apply (cancel_l (A * A * B * B)); [by repeat apply mul_nonzero|].
  transitivity (Y * Y * A * A - X * X * B * B); [by field|].
  transitivity (A * A * B * B + d * (X * X) * (Y * Y)); [|by field]. subst X Y A B. ring [H1 H2 Hd].
Qed.

(** The points. *)
Record point := Point { px : F; py : F; p_on : on_curve px py }.

Lemma point_eq (P Q : point) : px P = px Q -> py P = py Q -> P = Q.
Proof.
  destruct P as [x y H], Q as [x' y' H']. cbn. intros -> ->. f_equal. unfold on_curve in *. apply UIP_dec. apply f_eq_dec.
Qed.

Lemma zero_on_curve : on_curve 0 1.
Proof. unfold on_curve. ring. Qed.

Lemma opp_on_curve x y : on_curve x y -> on_curve (- x) y.
Proof. unfold on_curve. intros H. transitivity (y * y - x * x); [ring|]. rewrite H. ring. Qed.

Definition pzero : point := Point 0 1 zero_on_curve.
Definition popp (P : point) : point := Point (- px P) (py P) (opp_on_curve _ _ (p_on P)).
Definition coordinates (P : point) : F * F := (px P, py P).
Definition padd (P Q : point) : point :=
  Point (add_coordinates (coordinates P) (coordinates Q)).1 (add_coordinates (coordinates P) (coordinates Q)).2
    (add_on_curve (px P) (py P) (px Q) (py Q) (p_on P) (p_on Q)).

Lemma padd_coordinates P Q : coordinates (padd P Q) = add_coordinates (coordinates P) (coordinates Q).
Proof. symmetry. apply surjective_pairing. Qed.

Lemma padd_comm P Q : padd P Q = padd Q P.
Proof. destruct P as [x1 y1 H1], Q as [x2 y2 H2]. apply point_eq; cbn; f_equal; ring. Qed.

Lemma padd_zero_l P : padd pzero P = P.
Proof.
  destruct P as [x y H]. apply point_eq; cbn [px py padd pzero coordinates add_coordinates fst snd].
  - replace (1 + d * 0 * x * 1 * y) with 1 by ring. field. apply one_nonzero.
  - replace (1 - d * 0 * x * 1 * y) with 1 by ring. field. apply one_nonzero.
Qed.

Lemma padd_opp_r P : padd P (popp P) = pzero.
Proof.
  destruct P as [x y H]. pose proof (denominator_plus _ _ _ _ H (opp_on_curve _ _ H)) as HA.
  pose proof (denominator_minus _ _ _ _ H (opp_on_curve _ _ H)) as HB.
  apply point_eq; cbn [px py padd popp pzero coordinates add_coordinates fst snd].
  - by field.
  - apply (cancel_l (1 - d * x * - x * y * y)); [done|]. unfold on_curve in H.
    transitivity (y * y - x * x); [by field|]. rewrite H. ring.
Qed.

(** Both ways to add three points give the same fraction. *)
Lemma add_coordinates_l x1 y1 x2 y2 x3 y3 : on_curve x1 y1 -> on_curve x2 y2 -> on_curve x3 y3 ->
  let A := 1 + d * x1 * x2 * y1 * y2 in let B := 1 - d * x1 * x2 * y1 * y2 in
  let X := x1 * y2 + y1 * x2 in let Y := y1 * y2 + x1 * x2 in
  A * B + d * X * Y * x3 * y3 <> 0 /\ A * B - d * X * Y * x3 * y3 <> 0 /\
  add_coordinates (add_coordinates (x1, y1) (x2, y2)) (x3, y3) =
  ((X * B * y3 + Y * A * x3) / (A * B + d * X * Y * x3 * y3), (Y * A * y3 + X * B * x3) / (A * B - d * X * Y * x3 * y3)).
Proof.
  intros H1 H2 H3 A B X Y. pose proof (denominator_plus _ _ _ _ H1 H2) as HA. pose proof (denominator_minus _ _ _ _ H1 H2) as HB.
  pose proof (add_on_curve _ _ _ _ H1 H2) as H12. cbn [add_coordinates fst snd] in *. fold A B X Y in HA, HB, H12.
  pose proof (denominator_plus _ _ _ _ H12 H3) as HD. pose proof (denominator_minus _ _ _ _ H12 H3) as HE.
  assert (A * B + d * X * Y * x3 * y3 <> 0) as HD'.
  { intros E. apply HD. transitivity ((A * B + d * X * Y * x3 * y3) / (A * B)); [by field|]. rewrite E. by field. }
  assert (A * B - d * X * Y * x3 * y3 <> 0) as HE'.
  { intros E. apply HE. transitivity ((A * B - d * X * Y * x3 * y3) / (A * B)); [by field|]. rewrite E. by field. }
  split; [done|]. split; [done|]. fold A B X Y. f_equal; by field.
Qed.

Lemma padd_assoc P Q R : padd P (padd Q R) = padd (padd P Q) R.
Proof.
  rewrite (padd_comm P). destruct P as [x1 y1 H1], Q as [x2 y2 H2], R as [x3 y3 H3].
  destruct (add_coordinates_l x1 y1 x2 y2 x3 y3 H1 H2 H3) as (HD & HE & E).
  destruct (add_coordinates_l x2 y2 x3 y3 x1 y1 H2 H3 H1) as (HD' & HE' & E').
  apply curve_rule in H1 as R1, H2 as R2, H3 as R3. pose proof inv_d as Rd.
  assert (add_coordinates (add_coordinates (x2, y2) (x3, y3)) (x1, y1) = add_coordinates (add_coordinates (x1, y1) (x2, y2)) (x3, y3)) as Heq.
  { rewrite E, E'. f_equal.
    - apply (cancel_l _ _ _ (mul_nonzero _ _ HD HD')).
      match goal with |- (?D * ?D') * (?n / _) = (_ * _) * (?m / _) => transitivity (D * n); [by field|]; transitivity (D' * m); [|by field] end.
      ring [R1 R2 R3 Rd].
    - apply (cancel_l _ _ _ (mul_nonzero _ _ HE HE')).
      match goal with |- (?D * ?D') * (?n / _) = (_ * _) * (?m / _) => transitivity (D * n); [by field|]; transitivity (D' * m); [|by field] end.
      ring [R1 R2 R3 Rd]. }
  apply point_eq; [apply (f_equal fst) in Heq|apply (f_equal snd) in Heq]; exact Heq.
Qed.

(** ** Multiples of a point *)

Definition smul (k : Z) (P : point) : point :=
  match k with
  | Z0 => pzero
  | Zpos n => Pos.iter_op padd n P
  | Zneg n => popp (Pos.iter_op padd n P)
  end.

Lemma popp_eq P Q : padd P Q = pzero -> Q = popp P.
Proof.
  intros H. rewrite <- (padd_zero_l Q), <- (padd_opp_r P), (padd_comm P), <- padd_assoc, H. by rewrite padd_comm, padd_zero_l.
Qed.

Lemma popp_add P Q : popp (padd P Q) = padd (popp P) (popp Q).
Proof.
  symmetry. apply popp_eq. rewrite (padd_comm (popp P)), padd_assoc, <- (padd_assoc P Q), padd_opp_r.
  by rewrite (padd_comm P), padd_zero_l, padd_opp_r.
Qed.

Lemma popp_opp P : popp (popp P) = P.
Proof. symmetry. apply popp_eq. rewrite padd_comm. apply padd_opp_r. Qed.

Lemma popp_zero : popp pzero = pzero.
Proof. symmetry. apply popp_eq, padd_zero_l. Qed.

Lemma pos_mul_succ n P : Pos.iter_op padd (Pos.succ n) P = padd P (Pos.iter_op padd n P).
Proof. apply Pos.iter_op_succ. intros; apply padd_assoc. Qed.

Lemma smul_succ k P : smul (Z.succ k) P = padd P (smul k P).
Proof.
  destruct k as [|n|n]; cbn [smul].
  - by rewrite padd_comm, padd_zero_l.
  - change (Z.succ (Zpos n)) with (Zpos (n + 1)). by rewrite Pos.add_1_r, <- pos_mul_succ.
  - destruct (Pos.succ_pred_or n) as [->|<-].
    + cbn. by rewrite padd_opp_r.
    + rewrite pos_mul_succ, popp_add, padd_assoc, padd_opp_r, padd_zero_l.
      replace (Z.succ (Zneg (Pos.succ (Pos.pred n)))) with (Zneg (Pos.pred n)) by lia. done.
Qed.

Lemma smul_add a b P : smul (a + b) P = padd (smul a P) (smul b P).
Proof.
  revert a. apply Z.bi_induction.
  - by intros ? ? ->.
  - by rewrite padd_zero_l.
  - intros a. rewrite Z.add_succ_l, !smul_succ, <- padd_assoc. split; [by intros ->|].
    intros H. apply (f_equal (padd (popp P))) in H. rewrite !padd_assoc, (padd_comm (popp P)), padd_opp_r, !padd_zero_l in H. done.
Qed.

Lemma smul_0 P : smul 0 P = pzero.
Proof. done. Qed.

Lemma smul_1 P : smul 1 P = P.
Proof. done. Qed.

Lemma smul_zero k : smul k pzero = pzero.
Proof.
  revert k. apply Z.bi_induction; [by intros ? ? ->|done|]. intros a. by rewrite smul_succ, padd_zero_l.
Qed.

Lemma smul_opp a P : smul (- a) P = popp (smul a P).
Proof. apply popp_eq. rewrite <- smul_add. by rewrite Z.add_opp_diag_r. Qed.

Lemma smul_popp a P : smul a (popp P) = popp (smul a P).
Proof.
  revert a. apply Z.bi_induction; [by intros ? ? ->|by rewrite !smul_0, popp_zero|]. intros a. rewrite !smul_succ, popp_add. split; [by intros ->|].
  intros H. apply (f_equal (padd P)) in H. by rewrite !padd_assoc, padd_opp_r, !padd_zero_l in H.
Qed.

Lemma smul_mul a b P : smul (a * b) P = smul a (smul b P).
Proof.
  revert a. apply Z.bi_induction; [by intros ? ? ->|done|]. intros a. rewrite Z.mul_succ_l, smul_add, smul_succ, (padd_comm (smul b P)).
  split; [by intros ->|]. intros H. apply (f_equal (padd (popp (smul b P)))) in H.
  by rewrite !(padd_comm _ (smul b P)), !padd_assoc, !(padd_comm (popp _)), !padd_opp_r, !padd_zero_l in H.
Qed.

(** Multiples of a point of finite order. *)
Lemma smul_mod k r P : 0 < r -> smul r P = pzero -> smul (k mod r) P = smul k P.
Proof.
  intros Hr H. rewrite (Z.div_mod k r) at 2 by lia. rewrite smul_add, Z.mul_comm, smul_mul, H, smul_zero, padd_zero_l. done.
Qed.
End curve.
