(* ===== verification/FourQGf.v ===== *)
(** * The fields GF(2^127 - 1) and GF((2^127 - 1)^2) and the curve FourQ

    The prime of FourQ_params.h is one: by Lucas's test, whose proof counts the
    powers of 2 + sqrt 3 modulo a divisor. The field is [Zmod] of the Standard
    Library, its quadratic extension adds a square root of -1, and the
    coordinate field of the curve meets the conditions of [EdwardsCurve]. *)

From Stdlib Require Import Zmod Field.
From stdpp Require Import base list numbers.
From S2P Require Import Prelude FourQGroup.

(** ** 2^127 - 1 is prime *)

Section lucas.
Context (q : Z).
Add Ring zmod_ring : (Zmod.ring_theory q).

(** The ring Z/q with a square root of 3. *)
Definition root3 : Type := Zmod q * Zmod q.
Definition r3_one : root3 := (Zmod.one, Zmod.zero).
Definition r3_mul (x y : root3) : root3 :=
  (Zmod.add (Zmod.mul x.1 y.1) (Zmod.mul (Zmod.of_Z q 3) (Zmod.mul x.2 y.2)), Zmod.add (Zmod.mul x.1 y.2) (Zmod.mul x.2 y.1)).
Fixpoint r3_pow (x : root3) (n : nat) : root3 := match n with O => r3_one | S n => r3_mul x (r3_pow x n) end.
Definition omega : root3 := (Zmod.of_Z q 2, Zmod.one).
Definition omega_bar : root3 := (Zmod.of_Z q 2, Zmod.opp Zmod.one).
Definition r3_minus_one : root3 := (Zmod.opp Zmod.one, Zmod.zero).

Lemma r3_mul_comm x y : r3_mul x y = r3_mul y x.
Proof. unfold r3_mul. f_equal; ring. Qed.

Lemma r3_mul_assoc x y z : r3_mul x (r3_mul y z) = r3_mul (r3_mul x y) z.
Proof. unfold r3_mul. cbn [fst snd]. f_equal; ring. Qed.

Lemma r3_one_l x : r3_mul r3_one x = x.
Proof. destruct x. unfold r3_mul, r3_one. cbn [fst snd]. f_equal; ring. Qed.

Lemma r3_pow_add x m n : r3_pow x (m + n) = r3_mul (r3_pow x m) (r3_pow x n).
Proof. induction m as [|m IH]; cbn [r3_pow Nat.add]; [by rewrite r3_one_l|]. by rewrite IH, r3_mul_assoc. Qed.

Lemma r3_pow_mul x m n : r3_pow x (m * n) = r3_pow (r3_pow x m) n.
Proof.
  rewrite Nat.mul_comm. induction n as [|n IH]; [done|]. cbn [Nat.mul]. rewrite r3_pow_add, IH. done.
Qed.

Lemma r3_pow_one n : r3_pow r3_one n = r3_one.
Proof. induction n as [|n IH]; [done|]. cbn [r3_pow]. by rewrite r3_one_l. Qed.

Lemma omega_unit : r3_mul omega_bar omega = r3_one.
Proof.
  unfold r3_mul, omega, omega_bar, r3_one. cbn [fst snd]. f_equal; [|ring].
  transitivity (Zmod.sub (Zmod.mul (Zmod.of_Z q 2) (Zmod.of_Z q 2)) (Zmod.of_Z q 3)); [ring|].
  by rewrite <- Zmod.of_Z_mul, <- Zmod.of_Z_sub, Zmod.of_Z_1.
Qed.

Lemma r3_minus_one_odd n : Nat.Odd n -> r3_pow r3_minus_one n = r3_minus_one.
Proof.
  intros [m ->]. rewrite r3_pow_add, r3_pow_mul.
  assert (r3_pow r3_minus_one 2 = r3_one) as ->.
  { unfold r3_minus_one. cbn [r3_pow]. unfold r3_one, r3_mul. cbn [fst snd]. f_equal; ring. }
  rewrite r3_pow_one, r3_one_l. unfold r3_minus_one. cbn [r3_pow]. unfold r3_one, r3_mul. cbn [fst snd]. f_equal; ring.
Qed.

Lemma r3_cancel i m : r3_pow omega i = r3_pow omega (i + m) -> r3_pow omega m = r3_one.
Proof.
  intros H. rewrite r3_pow_add in H. apply (f_equal (r3_mul (r3_pow omega_bar i))) in H. rewrite r3_mul_assoc in H.
  assert (r3_mul (r3_pow omega_bar i) (r3_pow omega i) = r3_one) as E.
  { clear H. induction i as [|i IH]; cbn [r3_pow]; [apply r3_one_l|].
    rewrite <- r3_mul_assoc, (r3_mul_comm omega), (r3_mul_assoc (r3_pow _ i)), IH, r3_one_l. apply omega_unit. }
  by rewrite E, r3_one_l in H.
Qed.

(** A number is a power of two times an odd number. *)
Lemma odd_part m : (0 < m)%nat -> exists s t, m = (2 ^ s * t)%nat /\ Nat.Odd t.
Proof.
  induction m as [m IH] using lt_wf_ind. intros Hm. destruct (Nat.Even_or_Odd m) as [[k ->]|Ho].
  - destruct (IH k ltac:(lia) ltac:(lia)) as (s & t & -> & Ht). exists (S s), t. split; [|done]. cbn [Nat.pow]. lia.
  - exists 0%nat, m. cbn. split; [lia|done].
Qed.

(** If the power 2^(n-1) of omega is -1, the first 2^n powers differ. *)
Lemma omega_powers_differ n : 3 <= q ->
  r3_pow omega (2 ^ n) = r3_minus_one -> forall i j, (i < 2 ^ S n)%nat -> (j < 2 ^ S n)%nat -> r3_pow omega i = r3_pow omega j -> i = j.
Proof.
  intros Hq Hn. assert (forall i j, (i < j)%nat -> (j < 2 ^ S n)%nat -> r3_pow omega i = r3_pow omega j -> False) as H.
  { intros i j Hij Hj H. replace j with (i + (j - i))%nat in H by lia. apply r3_cancel in H.
    destruct (odd_part (j - i) ltac:(lia)) as (s & t & E & Ht). rewrite E in H.
    assert (s <= n)%nat as Hs.
    { destruct (Nat.le_gt_cases s n) as [|Hs]; [done|]. exfalso. assert (2 ^ S n <= 2 ^ s)%nat by (apply Nat.pow_le_mono_r; lia).
      destruct t; [destruct Ht; lia|]. nia. }
    assert (r3_pow omega (2 ^ n * t) = r3_one) as H1.
    { replace (2 ^ n * t)%nat with (2 ^ s * t * 2 ^ (n - s))%nat; [by rewrite r3_pow_mul, H, r3_pow_one|].
      replace (2 ^ n)%nat with (2 ^ s * 2 ^ (n - s))%nat by (rewrite <- Nat.pow_add_r; f_equal; lia). lia. }
    rewrite r3_pow_mul, Hn, r3_minus_one_odd in H1 by done. unfold r3_minus_one, r3_one in H1.
    apply (f_equal fst) in H1. cbn [fst] in H1. apply (f_equal (@Zmod.to_Z q)) in H1.
    rewrite <- Zmod.of_Z_m1, Zmod.to_Z_of_Z, Zmod.to_Z_1_pos in H1 by lia.
    rewrite <- (Z.mod_unique (-1) q (-1) (q - 1)) in H1 by lia. lia. }
  intros i j Hi Hj E. destruct (Nat.lt_trichotomy i j) as [?|[?|?]]; [by exfalso; eapply H|done|exfalso; by eapply (H j i)].
Qed.

(** There are only q^2 elements. *)
Lemma root3_pigeonhole (n : nat) (f : nat -> root3) :
  0 < q -> (forall i j, (i < n)%nat -> (j < n)%nat -> f i = f j -> i = j) -> Z.of_nat n <= q * q.
Proof.
  intros Hq Hinj. set (all := list_prod (Zmod.elements q) (Zmod.elements q)).
  assert (length (map f (seq 0 n)) <= length all)%nat as H.
  { apply NoDup_incl_length.
    - apply List.NoDup_map_NoDup_ForallPairs; [|apply List.seq_NoDup].
      intros i j Hi%in_seq Hj%in_seq. apply Hinj; lia.
    - intros [u v] _. apply in_prod; apply Zmod.in_elements; lia. }
  unfold all in H. rewrite length_prod, length_map, length_seq, Zmod.length_elements in H. lia.
Qed.
End lucas.

Definition prime1271 : Z := 2 ^ 127 - 1.

(** The square of u + v sqrt 3 modulo 2^127 - 1, on integers. *)
Definition lucas_step (x : Z * Z) : Z * Z :=
  let '(u, v) := x in ((u * u + 3 * (v * v)) mod prime1271, (2 * (u * v)) mod prime1271).

Lemma lucas_step_right q n : (q | prime1271) ->
  r3_pow q (omega q) (2 ^ n) = let '(u, v) := Nat.iter n lucas_step (2, 1) in (Zmod.of_Z q u, Zmod.of_Z q v).
Proof.
  intros Hd. assert (forall x, Zmod.of_Z q (x mod prime1271) = Zmod.of_Z q x) as Hm.
  { intros x. apply Zmod.of_Z_inj. by apply Z.mod_mod_divide. }
  induction n as [|n IH].
  - cbn [Nat.pow Nat.iter]. unfold omega. cbn [r3_pow]. by rewrite r3_mul_comm, r3_one_l.
  - replace (2 ^ S n)%nat with (2 ^ n + 2 ^ n)%nat by (cbn [Nat.pow]; lia). rewrite r3_pow_add, IH. change (Nat.iter (S n) lucas_step (2, 1)) with (lucas_step (Nat.iter n lucas_step (2, 1))).
    destruct (Nat.iter n lucas_step (2, 1)) as [u v]. cbv beta iota zeta delta [lucas_step r3_mul fst snd]. rewrite !Hm.
    rewrite Zmod.of_Z_add, !Zmod.of_Z_mul. f_equal. pose proof (Zmod.ring_theory q) as R.
    rewrite (Rmul_comm R (Zmod.of_Z q v)). rewrite <- !Zmod.of_Z_mul, <- Zmod.of_Z_add. f_equal. lia.
Qed.

Lemma lucas_residue : Nat.iter 126 lucas_step (2, 1) = (prime1271 - 1, 0).
Proof. vm_compute. reflexivity. Qed.

Lemma omega_order q : (q | prime1271) -> r3_pow q (omega q) (2 ^ 126) = r3_minus_one q.
Proof.
  intros Hd. rewrite lucas_step_right by done. rewrite lucas_residue. unfold r3_minus_one. f_equal.
  rewrite <- Zmod.of_Z_m1. apply Zmod.of_Z_inj. replace (prime1271 - 1) with (-1 + prime1271) by lia.
  destruct Hd as [k ->]. apply Z_mod_plus_full.
Qed.

(** No divisor is at most the square root. *)
Lemma prime1271_no_divisor q : 1 < q -> (q | prime1271) -> prime1271 < q * q.
Proof.
  intros Hq Hd. assert (3 <= q) as Hq3.
  { destruct (decide (q = 2)) as [->|]; [|lia]. exfalso. destruct Hd as [k Hk]. unfold prime1271 in Hk. lia. }
  pose proof (root3_pigeonhole q (2 ^ 127) (r3_pow q (omega q)) ltac:(lia) (omega_powers_differ q 126 Hq3 (omega_order q Hd))) as H.
  rewrite Nat2Z.inj_pow in H. change (Z.of_nat 127) with 127 in H. change (Z.of_nat 2) with 2 in H. unfold prime1271. lia.
Qed.

Theorem prime1271_prime : Z.prime prime1271.
Proof.
  split; [done|]. intros q Hq Hd. pose proof (prime1271_no_divisor q ltac:(lia) Hd) as H1. destruct Hd as [k Hk].
  assert (1 < k) by nia. pose proof (prime1271_no_divisor k ltac:(lia) ltac:(exists q; lia)) as H2. nia.
Qed.

(** ** The fields *)

Abbreviation gf := (Zmod prime1271).

Add Field gf_field : (Zmod.field_theory prime1271 prime1271_prime).

#[export] Program Instance gf_ops : FieldOps gf := {|
  f_zero := Zmod.zero; f_one := Zmod.one; f_add := Zmod.add; f_mul := Zmod.mul; f_sub := Zmod.sub; f_opp := Zmod.opp;
  f_div := Zmod.mdiv; f_inv := Zmod.inv; f_theory := Zmod.field_theory prime1271 prime1271_prime;
|}.
Next Obligation. intros x y. destruct (Zmod.eqb x y) eqn:E; [left; by apply Zmod.eqb_eq|right; intros ->; by rewrite Zmod.eqb_refl in E]. Defined.

(** Squares have the power (p - 1) / 2 one. *)
Lemma gf_square_power (x : gf) : x <> Zmod.zero -> Zmod.pow (Zmod.mul x x) (2 ^ 126 - 1) = Zmod.one.
Proof.
  intros Hx. rewrite <- Zmod.pow_2_r, <- Zmod.pow_mul_r_nonneg by done.
  change (2 * (2 ^ 126 - 1)) with (Z.pred prime1271). apply Zmod.fermat_nz; [done|apply prime1271_prime].
Qed.

Lemma gf_minus_one_power : Zmod.pow (Zmod.opp Zmod.one : gf) (2 ^ 126 - 1) = Zmod.opp Zmod.one.
Proof. vm_compute. reflexivity. Qed.

Lemma gf_one_not_minus_one : (Zmod.one : gf) <> Zmod.opp Zmod.one.
Proof. intros H%(f_equal Zmod.to_Z). vm_compute in H. discriminate. Qed.

Lemma gf_no_root (x : gf) : Zmod.mul x x <> Zmod.opp Zmod.one.
Proof.
  intros H. assert (x <> Zmod.zero) as Hx.
  { intros ->. apply (f_equal Zmod.to_Z) in H. vm_compute in H. discriminate. }
  apply gf_square_power in Hx. rewrite H, gf_minus_one_power in Hx. by apply gf_one_not_minus_one.
Qed.

Definition gf2 : Type := gf * gf.
Definition gf2_norm (a : gf2) : gf := Zmod.add (Zmod.mul a.1 a.1) (Zmod.mul a.2 a.2).
Definition gf2_zero : gf2 := (Zmod.zero, Zmod.zero).
Definition gf2_one : gf2 := (Zmod.one, Zmod.zero).
Definition gf2_add (a b : gf2) : gf2 := (Zmod.add a.1 b.1, Zmod.add a.2 b.2).
Definition gf2_sub (a b : gf2) : gf2 := (Zmod.sub a.1 b.1, Zmod.sub a.2 b.2).
Definition gf2_opp (a : gf2) : gf2 := (Zmod.opp a.1, Zmod.opp a.2).
Definition gf2_mul (a b : gf2) : gf2 :=
  (Zmod.sub (Zmod.mul a.1 b.1) (Zmod.mul a.2 b.2), Zmod.add (Zmod.mul a.1 b.2) (Zmod.mul a.2 b.1)).
Definition gf2_inv (a : gf2) : gf2 :=
  (Zmod.mul a.1 (Zmod.inv (gf2_norm a)), Zmod.mul (Zmod.opp a.2) (Zmod.inv (gf2_norm a))).
Definition gf2_div (a b : gf2) : gf2 := gf2_mul a (gf2_inv b).

Lemma gf2_norm_mul a b : gf2_norm (gf2_mul a b) = Zmod.mul (gf2_norm a) (gf2_norm b).
Proof. unfold gf2_norm, gf2_mul. cbn [fst snd]. ring. Qed.

Lemma gf2_norm_nonzero a : a <> gf2_zero -> gf2_norm a <> Zmod.zero.
Proof.
  intros Ha H. destruct a as [a0 a1]. unfold gf2_norm in H. cbn [fst snd] in H.
  destruct (decide (a1 = Zmod.zero)) as [->|H1].
  - assert (Zmod.mul a0 a0 = Zmod.zero) as H0 by (rewrite <- H; ring).
    apply (Zmod.mul_0_iff_prime prime1271_prime) in H0. apply Ha. unfold gf2_zero. by destruct H0 as [->| ->].
  - apply (gf_no_root (Zmod.mdiv a0 a1)). transitivity (Zmod.mdiv (Zmod.mul a0 a0) (Zmod.mul a1 a1)); [by field|].
    replace (Zmod.mul a0 a0) with (Zmod.opp (Zmod.mul a1 a1)); [by field|].
    transitivity (Zmod.sub (Zmod.mul a0 a0) (Zmod.add (Zmod.mul a0 a0) (Zmod.mul a1 a1))); [ring|]. rewrite H. ring.
Qed.

Lemma gf2_ring : ring_theory gf2_zero gf2_one gf2_add gf2_mul gf2_sub gf2_opp eq.
Proof.
  constructor; intros; unfold gf2_zero, gf2_one, gf2_add, gf2_mul, gf2_sub, gf2_opp;
    repeat match goal with a : gf2 |- _ => destruct a end; cbn [fst snd]; f_equal; ring.
Qed.

Lemma gf2_field_theory : field_theory gf2_zero gf2_one gf2_add gf2_mul gf2_sub gf2_opp gf2_div gf2_inv eq.
Proof.
  constructor; [apply gf2_ring| |done|].
  - intros H%(f_equal fst)%(f_equal Zmod.to_Z). vm_compute in H. discriminate.
  - intros a Ha%gf2_norm_nonzero. destruct a as [a0 a1]. unfold gf2_inv, gf2_mul, gf2_one, gf2_norm in *. cbn [fst snd] in *. f_equal; by field.
Qed.

#[export] Program Instance gf2_ops : FieldOps gf2 := {|
  f_zero := gf2_zero; f_one := gf2_one; f_add := gf2_add; f_mul := gf2_mul; f_sub := gf2_sub; f_opp := gf2_opp;
  f_div := gf2_div; f_inv := gf2_inv; f_theory := gf2_field_theory;
|}.

(** A number whose norm is no square of the prime field is no square. *)
Lemma gf2_nonsquare a : Zmod.pow (gf2_norm a) (2 ^ 126 - 1) = Zmod.opp Zmod.one -> a <> gf2_zero -> forall x, gf2_mul x x <> a.
Proof.
  intros H Ha x E. assert (x <> gf2_zero) as Hx.
  { intros ->. apply Ha. rewrite <- E. unfold gf2_mul, gf2_zero. cbn [fst snd]. f_equal; ring. }
  apply gf2_norm_nonzero, gf_square_power in Hx. rewrite <- gf2_norm_mul, E, H in Hx. by apply gf_one_not_minus_one.
Qed.
