(* ===== verification/FourQField.v ===== *)
(** * Field arithmetic of FourQ

    amd64/fp_x64.h and arm64/fp_arm64.h of external/fourq, the versions that
    compute with [uint128_t], and the quadratic extension at the top of
    eccp2_core.c. A [felm_t] is two 64-bit digits; the code reads it as one
    128-bit integer through a pointer, so it is the integer here and the digits
    are its halves. Functions that write their result through a pointer return
    it. *)

From Stdlib Require Import Zmod Field.
From stdpp Require Import base list numbers.
From S2P Require Import Prelude FourQGroup FourQGf.

Definition u128 (x : Z) : Z := wrap 128 x.

(** ** Field elements *)

Abbreviation felm := Z.

Definition digit0 (a : felm) : Z := u64 a.
Definition digit1 (a : felm) : Z := Z.shiftr a 64.
Definition mask63 : Z := 0x7FFFFFFFFFFFFFFF.

Definition mod1271 (a : felm) : felm :=
  let r := u128 (a - prime1271) in
  u128 (r + Z.land (u128 (0 - Z.shiftr r 127)) prime1271).

Definition fpadd1271 (a b : felm) : felm :=
  let t := u128 (a + b) in
  let t := u128 (t + Z.shiftr t 127) in
  Z.land t prime1271.

Definition fpsub1271 (a b : felm) : felm :=
  let t := u128 (a - b) in
  let t := u128 (t - Z.shiftr t 127) in
  Z.land t prime1271.

Definition fpneg1271 (a : felm) : felm := u128 (prime1271 - a).

(** The last steps of a product: [tt1] and [tt3] are added modulo the prime. *)
Definition fold_product (tt1 tt2 tt3 : Z) : felm :=
  let tt1 := Z.lor (u64 tt1) (Z.shiftl (Z.land (u64 tt2) mask63) 64) in
  let tt1 := u128 (tt1 + tt3) in
  u128 (Z.shiftr tt1 127 + Z.land tt1 prime1271).

Definition fpmul1271 (a b : felm) : felm :=
  let tt1 := digit0 a * digit0 b in
  let tt2 := u128 (digit0 a * digit1 b + digit1 a * digit0 b + u64 (Z.shiftr tt1 64)) in
  let tt3 := u128 (digit1 a * u64 (digit1 b * 2) + Z.shiftr tt2 63) in
  fold_product tt1 tt2 tt3.

Definition fpsqr1271 (a : felm) : felm :=
  let tt1 := digit0 a * digit0 a in
  let tt2 := u128 (digit0 a * u64 (digit1 a * 2) + u64 (Z.shiftr tt1 64)) in
  let tt3 := u128 (digit1 a * u64 (digit1 a * 2) + Z.shiftr tt2 63) in
  fold_product tt1 tt2 tt3.

(** [for (i = 0; i < n; i++) fpsqr1271(t, t);] *)
Definition fpsqr_times (n : nat) (t : felm) : felm := Nat.iter n fpsqr1271 t.

Definition fpexp1251 (a : felm) : felm :=
  let t2 := fpsqr1271 a in
  let t2 := fpmul1271 a t2 in
  let t3 := fpsqr1271 t2 in
  let t3 := fpsqr1271 t3 in
  let t3 := fpmul1271 t2 t3 in
  let t4 := fpsqr1271 t3 in
  let t4 := fpsqr1271 t4 in
  let t4 := fpsqr1271 t4 in
  let t4 := fpsqr1271 t4 in
  let t4 := fpmul1271 t3 t4 in
  let t5 := fpsqr1271 t4 in
  let t5 := fpsqr_times 7 t5 in
  let t5 := fpmul1271 t4 t5 in
  let t2 := fpsqr1271 t5 in
  let t2 := fpsqr_times 15 t2 in
  let t2 := fpmul1271 t5 t2 in
  let t1 := fpsqr1271 t2 in
  let t1 := fpsqr_times 31 t1 in
  let t1 := fpmul1271 t2 t1 in
  let t1 := fpsqr_times 32 t1 in
  let t1 := fpmul1271 t1 t2 in
  let t1 := fpsqr_times 16 t1 in
  let t1 := fpmul1271 t5 t1 in
  let t1 := fpsqr_times 8 t1 in
  let t1 := fpmul1271 t4 t1 in
  let t1 := fpsqr_times 4 t1 in
  let t1 := fpmul1271 t3 t1 in
  let t1 := fpsqr1271 t1 in
  fpmul1271 a t1.

Definition fpinv1271 (a : felm) : felm :=
  let t := fpexp1251 a in
  let t := fpsqr1271 t in
  let t := fpsqr1271 t in
  fpmul1271 a t.

(** [ADDC] of FourQ_internal.h: carry and sum. *)
Definition ADDC (carry_in addend1 addend2 : Z) : Z * Z :=
  let temp := u128 (addend1 + addend2 + carry_in) in
  (u64 (Z.shiftr temp 64), u64 temp).

(** [SUBC]: borrow and difference. *)
Definition SUBC (borrow_in minuend subtrahend : Z) : Z * Z :=
  let temp := u128 (minuend - subtrahend - borrow_in) in
  (u64 (Z.shiftr temp 127), u64 temp).

(** [SHIFTR] *)
Definition SHIFTR (high low shift : Z) : Z := Z.lxor (Z.shiftr low shift) (u64 (Z.shiftl high (64 - shift))).

Definition fpdiv1271 (a : felm) : felm :=
  let mask := u64 (0 - Z.land 1 (digit0 a)) in
  let '(carry, temp0) := ADDC 0 (digit0 a) mask in
  let '(carry, temp1) := ADDC carry (digit1 a) (Z.shiftr mask 1) in
  SHIFTR temp1 temp0 1 + 2 ^ 64 * Z.shiftr temp1 1.

(** ** What the field operations compute *)

(** The elements in use are below 2^127: the prime itself stands for zero. *)
Definition felm_ok (a : felm) : Prop := 0 <= a < 2 ^ 127.

Definition fe (a : felm) : gf := Zmod.of_Z prime1271 a.

Lemma fe_eq x y k : x = y + k * prime1271 -> fe x = fe y.
Proof. intros ->. apply Zmod.of_Z_inj. apply Z_mod_plus_full. Qed.

Lemma land_prime x : Z.land x prime1271 = x mod 2 ^ 127.
Proof. change prime1271 with (Z.ones 127). by rewrite Z.land_ones. Qed.

Lemma land_mask63 x : Z.land x mask63 = x mod 2 ^ 63.
Proof. change mask63 with (Z.ones 63). by rewrite Z.land_ones. Qed.

(** Shifts, masks and conversions as division and remainder. *)
Ltac to_arith :=
  unfold u128, wrap in *; rewrite ?land_prime, ?land_mask63, ?Z.shiftr_div_pow2 in * by done;
  try change prime1271 with (2 ^ 127 - 1) in *.

Lemma fpadd_eq a b : felm_ok a -> felm_ok b -> fpadd1271 a b = a + b - (if 2 ^ 127 <=? a + b then 2 ^ 127 - 1 else 0).
Proof.
  unfold felm_ok, fpadd1271. intros Ha Hb. to_arith. destruct (Z.leb_spec (2 ^ 127) (a + b)); Z.div_mod_to_equations; lia.
Qed.

Lemma fpsub_eq a b : felm_ok a -> felm_ok b -> fpsub1271 a b = a - b + (if a <? b then 2 ^ 127 - 1 else 0).
Proof.
  unfold felm_ok, fpsub1271. intros Ha Hb. to_arith. destruct (Z.ltb_spec a b); Z.div_mod_to_equations; lia.
Qed.

Lemma fpadd_spec a b : felm_ok a -> felm_ok b -> felm_ok (fpadd1271 a b) /\ fe (fpadd1271 a b) = Zmod.add (fe a) (fe b).
Proof.
  intros Ha Hb. rewrite fpadd_eq by done. unfold felm_ok in *.
  unfold fe. rewrite <- Zmod.of_Z_add. destruct (Z.leb_spec (2 ^ 127) (a + b)).
  - split; [lia|]. apply (fe_eq _ _ (-1)). unfold prime1271. lia.
  - split; [lia|]. f_equal. lia.
Qed.

Lemma fpsub_spec a b : felm_ok a -> felm_ok b -> felm_ok (fpsub1271 a b) /\ fe (fpsub1271 a b) = Zmod.sub (fe a) (fe b).
Proof.
  intros Ha Hb. rewrite fpsub_eq by done. unfold felm_ok in *.
  unfold fe. rewrite <- Zmod.of_Z_sub. destruct (Z.ltb_spec a b).
  - split; [lia|]. apply (fe_eq _ _ 1). unfold prime1271. lia.
  - split; [lia|]. f_equal. lia.
Qed.

Lemma fpneg_spec a : felm_ok a -> felm_ok (fpneg1271 a) /\ fe (fpneg1271 a) = Zmod.opp (fe a).
Proof.
  unfold felm_ok. intros Ha. assert (fpneg1271 a = 2 ^ 127 - 1 - a) as ->.
  { unfold fpneg1271. to_arith. rewrite Z.mod_small; lia. }
  split; [lia|]. unfold fe. rewrite <- Zmod.of_Z_opp. apply (fe_eq _ _ 1). unfold prime1271. lia.
Qed.

Lemma mod1271_spec a : felm_ok a -> mod1271 a = a mod prime1271.
Proof.
  unfold felm_ok. intros Ha. unfold mod1271. destruct (decide (a = prime1271)) as [->|Hne]; [done|].
  assert (0 <= a < prime1271) as Ha' by (unfold prime1271 in *; lia). rewrite (Z.mod_small a) by done. to_arith.
  rewrite <- (Z_mod_plus_full (a - (2 ^ 127 - 1)) 1), (Z.mod_small (_ + 1 * _)) by lia.
  assert ((a - (2 ^ 127 - 1) + 1 * 2 ^ 128) / 2 ^ 127 = 1) as -> by (Z.div_mod_to_equations; lia).
  change ((0 - 1) mod 2 ^ 128 mod 2 ^ 127) with (2 ^ 127 - 1). Z.div_mod_to_equations; lia.
Qed.

(** A product of two elements, from its low 127 bits and the rest. *)
Lemma mersenne_fold n tt1 tt3 : n = tt1 + 2 ^ 127 * tt3 -> 0 <= n <= (2 ^ 127 - 1) * (2 ^ 127 - 1) -> 0 <= tt1 < 2 ^ 127 ->
  let s := u128 (tt1 + tt3) in
  felm_ok (u128 (Z.shiftr s 127 + Z.land s prime1271)) /\ fe (u128 (Z.shiftr s 127 + Z.land s prime1271)) = fe n.
Proof.
  intros -> Hn Ht s. subst s. unfold felm_ok. assert (0 <= tt3 <= 2 ^ 127 - 2) as Ht3 by lia.
  assert (exists c, 0 <= c /\ u128 (Z.shiftr (u128 (tt1 + tt3)) 127 + Z.land (u128 (tt1 + tt3)) prime1271) = tt1 + tt3 - c * (2 ^ 127 - 1)
    /\ 0 <= tt1 + tt3 - c * (2 ^ 127 - 1) < 2 ^ 127) as (c & Hc & -> & Hr).
  { exists ((tt1 + tt3) / 2 ^ 127). to_arith. rewrite (Z.mod_small (tt1 + tt3) (2 ^ 128)) by lia.
    split; [|split]; Z.div_mod_to_equations; lia. }
  split; [done|]. apply (fe_eq _ _ (- c - tt3)). unfold prime1271. lia.
Qed.

(** The digits and their ranges. *)
Lemma digits a : felm_ok a -> a = digit0 a + 2 ^ 64 * digit1 a /\ 0 <= digit0 a < 2 ^ 64 /\ 0 <= digit1 a < 2 ^ 63.
Proof. unfold felm_ok, digit0, digit1. intros Ha. to_arith. Z.div_mod_to_equations. lia. Qed.

(** [tt1] and [tt2] hold the product of the low digits and the middle terms. *)
Lemma fold_product_spec a b tt1 mid :
  felm_ok a -> felm_ok b -> tt1 = digit0 a * digit0 b -> mid = digit0 a * digit1 b + digit1 a * digit0 b ->
  let tt2 := u128 (mid + u64 (Z.shiftr tt1 64)) in
  let tt3 := u128 (digit1 a * u64 (digit1 b * 2) + Z.shiftr tt2 63) in
  felm_ok (fold_product tt1 tt2 tt3) /\ fe (fold_product tt1 tt2 tt3) = Zmod.mul (fe a) (fe b).
Proof.
  intros Ha Hb -> ->. cbv zeta. destruct (digits a Ha) as (Ea & Ha0 & Ha1), (digits b Hb) as (Eb & Hb0 & Hb1). revert Ea Eb.
  generalize dependent (digit0 a). generalize dependent (digit1 a). generalize dependent (digit0 b). generalize dependent (digit1 b).
  intros b1 Hb1 b0 Hb0 a1 Ha1 a0 Ha0 Ea Eb. unfold felm_ok in *. unfold fe at 2 3. rewrite <- Zmod.of_Z_mul. fold (fe (a * b)).
  set (n := a0 * b0). assert (0 <= n <= (2 ^ 64 - 1) * (2 ^ 64 - 1)) as Hn by (subst n; nia).
  set (mid := a0 * b1 + a1 * b0). assert (0 <= mid <= 2 * ((2 ^ 64 - 1) * (2 ^ 63 - 1))) as Hmid by (subst mid; nia).
  set (top := a1 * b1). assert (0 <= top <= (2 ^ 63 - 1) * (2 ^ 63 - 1)) as Htop by (subst top; nia).
  assert (a * b = n + 2 ^ 64 * mid + 2 ^ 128 * top) as E by (subst n mid top; lia).
  assert (0 <= a * b <= (2 ^ 127 - 1) * (2 ^ 127 - 1)) as Hab by nia.
  replace (a1 * u64 (b1 * 2)) with (2 * top) by (rewrite (wrap_small 64) by lia; subst top; lia).
  clearbody n mid top. rewrite E in Hab |- *. clear E Ea Eb Ha Hb Ha0 Ha1 Hb0 Hb1 a b a0 a1 b0 b1.
  unfold fold_product. rewrite (lor_above (wrap 64 n)) by first [done|apply u64_range].
  apply mersenne_fold; [|done|].
  - to_arith. rewrite (Z.mod_small (n / 2 ^ 64)) by (Z.div_mod_to_equations; lia).
    rewrite (Z.mod_small (mid + _)) by (Z.div_mod_to_equations; lia).
    rewrite (Z.mod_small (2 * top + _)) by (Z.div_mod_to_equations; lia). Z.div_mod_to_equations. lia.
  - to_arith. Z.div_mod_to_equations. lia.
Qed.

Lemma fpmul_spec a b : felm_ok a -> felm_ok b -> felm_ok (fpmul1271 a b) /\ fe (fpmul1271 a b) = Zmod.mul (fe a) (fe b).
Proof. intros Ha Hb. exact (fold_product_spec a b _ _ Ha Hb eq_refl eq_refl). Qed.

Lemma fpsqr_spec a : felm_ok a -> felm_ok (fpsqr1271 a) /\ fe (fpsqr1271 a) = Zmod.mul (fe a) (fe a).
Proof.
  intros Ha. apply (fold_product_spec a a _ (digit0 a * u64 (digit1 a * 2)) Ha Ha eq_refl). destruct (digits a Ha) as (_ & _ & H1).
  rewrite (wrap_small 64 (digit1 a * 2)) by lia. lia.
Qed.

(** An element that holds a power of another. *)
Record holds_power (a : gf) (n : Z) (x : felm) : Prop := { hp_nonneg : 0 <= n; hp_ok : felm_ok x; hp_power : fe x = Zmod.pow a n }.

Lemma power_mul a m n x y : holds_power a m x -> holds_power a n y -> holds_power a (m + n) (fpmul1271 x y).
Proof.
  intros [Hm Hx Ex] [Hn Hy Ey]. destruct (fpmul_spec x y Hx Hy) as [H E]. split; [lia|done|].
  by rewrite E, Ex, Ey, Zmod.pow_add_r_nonneg.
Qed.

Lemma power_sqr a n x : holds_power a n x -> holds_power a (n + n) (fpsqr1271 x).
Proof.
  intros [Hn Hx Ex]. destruct (fpsqr_spec x Hx) as [H E]. split; [lia|done|]. by rewrite E, Ex, Zmod.pow_add_r_nonneg.
Qed.

Lemma power_sqr_times a n x k : holds_power a n x -> holds_power a (2 ^ Z.of_nat k * n) (fpsqr_times k x).
Proof.
  intros H. unfold fpsqr_times. induction k as [|k IH]; [by rewrite Z.mul_1_l|].
  change (Nat.iter (S k) fpsqr1271 x) with (fpsqr1271 (Nat.iter k fpsqr1271 x)).
  replace (2 ^ Z.of_nat (S k) * n) with (2 ^ Z.of_nat k * n + 2 ^ Z.of_nat k * n); [by apply power_sqr|].
  rewrite Nat2Z.inj_succ, Z.pow_succ_r by lia. lia.
Qed.

Lemma fpexp_power a : felm_ok a -> holds_power (fe a) (2 ^ 125 - 1) (fpexp1251 a).
Proof.
  intros Ha. assert (holds_power (fe a) 1 a) as H1 by (split; [done|done|by rewrite Zmod.pow_1_r]).
  pose proof (power_mul _ _ _ _ _ H1 (power_sqr _ _ _ H1)) as H2.
  pose proof (power_mul _ _ _ _ _ H2 (power_sqr _ _ _ (power_sqr _ _ _ H2))) as H3.
  pose proof (power_mul _ _ _ _ _ H3 (power_sqr _ _ _ (power_sqr _ _ _ (power_sqr _ _ _ (power_sqr _ _ _ H3))))) as H4.
  pose proof (power_mul _ _ _ _ _ H4 (power_sqr_times _ _ _ 7 (power_sqr _ _ _ H4))) as H5.
  pose proof (power_mul _ _ _ _ _ H5 (power_sqr_times _ _ _ 15 (power_sqr _ _ _ H5))) as H6.
  pose proof (power_mul _ _ _ _ _ H6 (power_sqr_times _ _ _ 31 (power_sqr _ _ _ H6))) as H7.
  pose proof (power_mul _ _ _ _ _ (power_sqr_times _ _ _ 32 H7) H6) as H8.
  pose proof (power_mul _ _ _ _ _ H5 (power_sqr_times _ _ _ 16 H8)) as H9.
  pose proof (power_mul _ _ _ _ _ H4 (power_sqr_times _ _ _ 8 H9)) as H10.
  pose proof (power_mul _ _ _ _ _ H3 (power_sqr_times _ _ _ 4 H10)) as H11.
  exact (power_mul _ _ _ _ _ H1 (power_sqr _ _ _ H11)).
Qed.

Lemma fpinv_spec a : felm_ok a -> felm_ok (fpinv1271 a) /\ fe (fpinv1271 a) = Zmod.inv (fe a).
Proof.
  intros Ha. assert (holds_power (fe a) 1 a) as H1 by (split; [done|done|by rewrite Zmod.pow_1_r]).
  destruct (power_mul _ _ _ _ _ H1 (power_sqr _ _ _ (power_sqr _ _ _ (fpexp_power a Ha)))) as [_ Hok Hp].
  split; [exact Hok|]. etransitivity; [exact Hp|]. change (1 + _) with (prime1271 - 2).
  destruct (decide (fe a = Zmod.zero)) as [->|Hne]; [vm_compute; reflexivity|]. apply Zmod.fermat_inv; [done|apply prime1271_prime].
Qed.

(** ** Halving *)

Lemma ADDC_spec c x y : 0 <= c <= 1 -> u64_ok x -> u64_ok y ->
  let '(carry, sum) := ADDC c x y in x + y + c = sum + 2 ^ 64 * carry /\ u64_ok sum /\ 0 <= carry <= 1.
Proof.
  unfold u64_ok, ADDC. intros Hc Hx Hy. to_arith. rewrite (Z.mod_small (x + y + c)) by lia.
  split; [|split]; Z.div_mod_to_equations; lia.
Qed.

Lemma SUBC_spec c x y : 0 <= c <= 1 -> u64_ok x -> u64_ok y ->
  let '(borrow, diff) := SUBC c x y in x - y - c = diff - 2 ^ 64 * borrow /\ u64_ok diff /\ 0 <= borrow <= 1.
Proof.
  unfold u64_ok, SUBC. intros Hc Hx Hy. to_arith. destruct (Z.leb_spec 0 (x - y - c)).
  - rewrite (Z.mod_small (x - y - c)) by lia. split; [|split]; Z.div_mod_to_equations; lia.
  - rewrite <- (Z_mod_plus_full (x - y - c) 1), (Z.mod_small (_ + 1 * _)) by lia. split; [|split]; Z.div_mod_to_equations; lia.
Qed.

Lemma SHIFTR_spec high low n : 0 < n < 64 -> u64_ok high -> u64_ok low ->
  SHIFTR high low n = ((low + 2 ^ 64 * high) / 2 ^ n) mod 2 ^ 64.
Proof.
  unfold u64_ok, SHIFTR. intros Hn Hh Hl. rewrite wrap_shiftl by lia. replace (64 - (64 - n)) with n by lia.
  rewrite Z.shiftr_div_pow2 by lia. rewrite lxor_above.
  - replace (low + 2 ^ 64 * high) with (low + (2 ^ (64 - n) * high) * 2 ^ n).
    + rewrite Z.div_add by lia. rewrite (Z.div_mod high (2 ^ n)) at 2 by lia.
      replace (low / 2 ^ n + 2 ^ (64 - n) * (2 ^ n * (high / 2 ^ n) + high mod 2 ^ n))
        with (low / 2 ^ n + (high mod 2 ^ n) * 2 ^ (64 - n) + high / 2 ^ n * 2 ^ 64).
      * rewrite Z_mod_plus_full. symmetry. apply Z.mod_small.
        assert (0 <= low / 2 ^ n < 2 ^ (64 - n)).
        { split; [apply Z.div_pos; lia|]. apply Z.div_lt_upper_bound; [lia|]. rewrite <- Z.pow_add_r by lia. replace (n + (64 - n)) with 64 by lia. lia. }
        assert (0 <= high mod 2 ^ n < 2 ^ n) by (apply Z.mod_pos_bound; lia).
        assert (2 ^ 64 = 2 ^ n * 2 ^ (64 - n)) by (rewrite <- Z.pow_add_r by lia; f_equal; lia). nia.
      * assert (2 ^ 64 = 2 ^ (64 - n) * 2 ^ n) as -> by (rewrite <- Z.pow_add_r by lia; f_equal; lia). lia.
    + assert (2 ^ 64 = 2 ^ (64 - n) * 2 ^ n) as -> by (rewrite <- Z.pow_add_r by lia; f_equal; lia). lia.
  - lia.
  - split; [apply Z.div_pos; lia|]. apply Z.div_lt_upper_bound; [lia|]. rewrite <- Z.pow_add_r by lia. replace (n + (64 - n)) with 64 by lia. lia.
Qed.

Lemma fpdiv_spec a : felm_ok a -> felm_ok (fpdiv1271 a) /\ Zmod.add (fe (fpdiv1271 a)) (fe (fpdiv1271 a)) = fe a.
Proof.
  intros Ha. destruct (digits a Ha) as (E & H0 & H1). unfold felm_ok in Ha.
  assert (fpdiv1271 a = (a + (a mod 2) * prime1271) / 2) as ->.
  { unfold fpdiv1271. assert (Z.land 1 (digit0 a) = a mod 2) as ->.
    { rewrite Z.land_comm. change 1 with (Z.ones 1). rewrite Z.land_ones by done. unfold digit0. to_arith. Z.div_mod_to_equations. lia. }
    set (m := a mod 2). assert (m = 0 \/ m = 1) as Hm by (subst m; Z.div_mod_to_equations; lia).
    assert (u64 (0 - m) = m * (2 ^ 64 - 1)) as -> by (destruct Hm as [-> | ->]; done).
    assert (Z.shiftr (m * (2 ^ 64 - 1)) 1 = m * (2 ^ 63 - 1)) as -> by (destruct Hm as [-> | ->]; done).
    pose proof (ADDC_spec 0 (digit0 a) (m * (2 ^ 64 - 1)) ltac:(lia) H0 ltac:(unfold u64_ok; lia)) as S0.
    destruct (ADDC 0 _ _) as [c0 t0]. destruct S0 as (S0 & T0 & C0).
    pose proof (ADDC_spec c0 (digit1 a) (m * (2 ^ 63 - 1)) C0 ltac:(unfold u64_ok; lia) ltac:(unfold u64_ok; lia)) as S1.
    destruct (ADDC c0 _ _) as [c1 t1]. destruct S1 as (S1 & T1 & C1). rewrite SHIFTR_spec by (done || lia).
    assert (c1 = 0) as -> by (unfold u64_ok in *; lia). unfold u64_ok in *.
    assert (t0 + 2 ^ 64 * t1 = a + m * prime1271) as -> by (unfold prime1271; lia).
    assert (t1 = (a + m * prime1271) / 2 ^ 64) as -> by (apply (Z.div_unique _ _ _ t0); unfold prime1271; lia).
    rewrite Z.shiftr_div_pow2 by done. unfold prime1271. Z.div_mod_to_equations. lia. }
  split.
  - unfold felm_ok, prime1271. Z.div_mod_to_equations. lia.
  - unfold fe. rewrite <- Zmod.of_Z_add. apply (fe_eq _ _ (a mod 2)). unfold prime1271. Z.div_mod_to_equations. lia.
Qed.

(** ** Elements that stand for a number of the field *)

Record rep1 (a : felm) (v : gf) : Prop := { rep1_ok : felm_ok a; rep1_fe : fe a = v }.

Create HintDb fourq discriminated.
#[export] Hint Constants Opaque : fourq.

Lemma rep1_add a b v w : rep1 a v -> rep1 b w -> rep1 (fpadd1271 a b) (Zmod.add v w).
Proof. intros [Ha <-] [Hb <-]. destruct (fpadd_spec a b Ha Hb). by split. Qed.

Lemma rep1_sub a b v w : rep1 a v -> rep1 b w -> rep1 (fpsub1271 a b) (Zmod.sub v w).
Proof. intros [Ha <-] [Hb <-]. destruct (fpsub_spec a b Ha Hb). by split. Qed.

Lemma rep1_mul a b v w : rep1 a v -> rep1 b w -> rep1 (fpmul1271 a b) (Zmod.mul v w).
Proof. intros [Ha <-] [Hb <-]. destruct (fpmul_spec a b Ha Hb). by split. Qed.

Lemma rep1_sqr a v : rep1 a v -> rep1 (fpsqr1271 a) (Zmod.mul v v).
Proof. intros [Ha <-]. destruct (fpsqr_spec a Ha). by split. Qed.

Lemma rep1_neg a v : rep1 a v -> rep1 (fpneg1271 a) (Zmod.opp v).
Proof. intros [Ha <-]. destruct (fpneg_spec a Ha). by split. Qed.

Lemma rep1_inv a v : rep1 a v -> rep1 (fpinv1271 a) (Zmod.inv v).
Proof. intros [Ha <-]. destruct (fpinv_spec a Ha). by split. Qed.

#[export] Hint Resolve rep1_add rep1_sub rep1_mul rep1_sqr rep1_neg rep1_inv : fourq.

Lemma rep1_eq a v w : rep1 a v -> v = w -> rep1 a w.
Proof. by intros H <-. Qed.

(** The canonical element of a number. *)
Lemma rep1_mod a v : rep1 a v -> mod1271 a = Zmod.to_Z v.
Proof. intros [Ha <-]. unfold fe. by rewrite mod1271_spec, Zmod.to_Z_of_Z. Qed.

Lemma rep1_of_Z a : felm_ok a -> rep1 a (fe a).
Proof. by split. Qed.
