(* ===== verification/FourQCurve.v ===== *)
(** * Curve operations of FourQ

    eccp2_core.c of external/fourq: arithmetic of the quadratic extension, the
    representations of points and the operations on them, each related to the
    group of the curve. *)

From Stdlib Require Import Zmod Field.
From stdpp Require Import base list numbers.
From S2P Require Import Prelude FourQGroup FourQGf FourQField.

(** ** The quadratic extension *)

(** [a[0]] and [a[1]]. *)
Definition f2elm : Type := felm * felm.

Definition fp2zero1271 : f2elm := (0, 0).
Definition fp2neg1271 (a : f2elm) : f2elm := (fpneg1271 a.1, fpneg1271 a.2).

Definition fp2sqr1271 (a : f2elm) : f2elm :=
  let t1 := fpadd1271 a.1 a.2 in
  let t2 := fpsub1271 a.1 a.2 in
  let t3 := fpmul1271 a.1 a.2 in
  (fpmul1271 t1 t2, fpadd1271 t3 t3).

Definition fp2mul1271 (a b : f2elm) : f2elm :=
  let t1 := fpmul1271 a.1 b.1 in
  let t2 := fpmul1271 a.2 b.2 in
  let t3 := fpadd1271 a.1 a.2 in
  let t4 := fpadd1271 b.1 b.2 in
  let c0 := fpsub1271 t1 t2 in
  let t3 := fpmul1271 t3 t4 in
  let t3 := fpsub1271 t3 t1 in
  (c0, fpsub1271 t3 t2).

Definition fp2add1271 (a b : f2elm) : f2elm := (fpadd1271 a.1 b.1, fpadd1271 a.2 b.2).
Definition fp2sub1271 (a b : f2elm) : f2elm := (fpsub1271 a.1 b.1, fpsub1271 a.2 b.2).

(** 2a - b *)
Definition fp2addsub1271 (a b : f2elm) : f2elm :=
  let a := fp2add1271 a a in
  fp2sub1271 a b.

Definition fp2inv1271 (a : f2elm) : f2elm :=
  let t10 := fpsqr1271 a.1 in
  let t11 := fpsqr1271 a.2 in
  let t10 := fpadd1271 t10 t11 in
  let t10 := fpinv1271 t10 in
  let a1 := fpneg1271 a.2 in
  (fpmul1271 a.1 t10, fpmul1271 a1 t10).

Definition fp2div1271 (a : f2elm) : f2elm := (fpdiv1271 a.1, fpdiv1271 a.2).

(** ** Points and constants *)

(** (X, Y, Z, Ta, Tb) *)
Record point_extproj := R1 { e_x : f2elm; e_y : f2elm; e_z : f2elm; e_ta : f2elm; e_tb : f2elm }.

(** (X+Y, Y-X, 2Z, 2dT), or (X+Y, Y-X, Z, T) *)
Record point_extproj_precomp := R2 { e_xy : f2elm; e_yx : f2elm; e_z2 : f2elm; e_t2 : f2elm }.

(** (x+y, y-x, 2dt) *)
Record point_precomp := R5 { s_xy : f2elm; s_yx : f2elm; s_t2 : f2elm }.

Record point_affine := Affine { a_x : f2elm; a_y : f2elm }.

(** An element given by its four 64-bit digits. *)
Definition f2_words (w0 w1 w2 w3 : Z) : f2elm := (w0 + 2 ^ 64 * w1, w2 + 2 ^ 64 * w3).

Definition PARAMETER_d : f2elm := f2_words 0x0000000000000142 0x00000000000000E4 0xB3821488F1FC0C8D 0x5E472F846657E0FC.
Definition GENERATOR_x : f2elm := f2_words 0x286592AD7B3833AA 0x1A3472237C2FB305 0x96869FB360AC77F6 0x1E1F553F2878AA9C.
Definition GENERATOR_y : f2elm := f2_words 0xB924A2462BCBB287 0x0E3FEE9BA120785A 0x49A7C344844C8B5C 0x6E1C4AF8630E0242.

Definition fp2one : f2elm := (1, 0).

Definition eccset : point_affine := Affine GENERATOR_x GENERATOR_y.

(** ** Operations *)

Definition eccnorm (P : point_extproj) : point_affine :=
  let z := fp2inv1271 (e_z P) in
  let x := fp2mul1271 (e_x P) z in
  let y := fp2mul1271 (e_y P) z in
  Affine (mod1271 x.1, mod1271 x.2) (mod1271 y.1, mod1271 y.2).

Definition R1_to_R2 (P : point_extproj) : point_extproj_precomp :=
  let t2 := fp2add1271 (e_ta P) (e_ta P) in
  let xy := fp2add1271 (e_x P) (e_y P) in
  let yx := fp2sub1271 (e_y P) (e_x P) in
  let t2 := fp2mul1271 t2 (e_tb P) in
  let z2 := fp2add1271 (e_z P) (e_z P) in
  let t2 := fp2mul1271 t2 PARAMETER_d in
  R2 xy yx z2 t2.

Definition R1_to_R3 (P : point_extproj) : point_extproj_precomp :=
  let xy := fp2add1271 (e_x P) (e_y P) in
  let yx := fp2sub1271 (e_y P) (e_x P) in
  let t2 := fp2mul1271 (e_ta P) (e_tb P) in
  R2 xy yx (e_z P) t2.

(** The fields ta and tb of the result keep what they were in [Q]. *)
Definition R2_to_R4 (P : point_extproj_precomp) (Q : point_extproj) : point_extproj :=
  R1 (fp2sub1271 (e_xy P) (e_yx P)) (fp2add1271 (e_xy P) (e_yx P)) (e_z2 P) (e_ta Q) (e_tb Q).

Definition eccdouble (P : point_extproj) : point_extproj :=
  let t1 := fp2sqr1271 (e_x P) in
  let t2 := fp2sqr1271 (e_y P) in
  let x := fp2add1271 (e_x P) (e_y P) in
  let tb := fp2add1271 t1 t2 in
  let t1 := fp2sub1271 t2 t1 in
  let ta := fp2sqr1271 x in
  let t2 := fp2sqr1271 (e_z P) in
  let ta := fp2sub1271 ta tb in
  let t2 := fp2addsub1271 t2 t1 in
  let y := fp2mul1271 t1 tb in
  let x := fp2mul1271 t2 ta in
  let z := fp2mul1271 t1 t2 in
  R1 x y z ta tb.

Definition eccadd_core (P Q : point_extproj_precomp) : point_extproj :=
  let z := fp2mul1271 (e_t2 P) (e_t2 Q) in
  let t1 := fp2mul1271 (e_z2 P) (e_z2 Q) in
  let x := fp2mul1271 (e_xy P) (e_xy Q) in
  let y := fp2mul1271 (e_yx P) (e_yx Q) in
  let t2 := fp2sub1271 t1 z in
  let t1 := fp2add1271 t1 z in
  let tb := fp2sub1271 x y in
  let ta := fp2add1271 x y in
  let x := fp2mul1271 tb t2 in
  let z := fp2mul1271 t1 t2 in
  let y := fp2mul1271 ta t1 in
  R1 x y z ta tb.

Definition eccadd (Q : point_extproj_precomp) (P : point_extproj) : point_extproj :=
  let R := R1_to_R3 P in
  eccadd_core Q R.

Definition point_setup (P : point_affine) : point_extproj := R1 (a_x P) (a_y P) fp2one (a_x P) (a_y P).

Definition is_digit_nonzero_ct (x : Z) : Z := Z.shiftr (Z.lor x (u64 (0 - x))) 63.
Definition is_digit_zero_ct (x : Z) : Z := Z.lxor 1 (is_digit_nonzero_ct x).

(** The test of one half of the residue: both digits zero, or both digits one
    below a power of 2^64. *)
Definition half_zero (t : felm) : bool :=
  negb (is_digit_zero_ct (Z.lor (digit0 t) (digit1 t)) =? 0) ||
  negb (is_digit_zero_ct (Z.lor (u64 (digit0 t + 1)) (u64 (digit1 t + 1))) =? 0).

Definition ecc_point_validate (P : point_extproj) : bool :=
  let t1 := fp2sqr1271 (e_y P) in
  let t2 := fp2sqr1271 (e_x P) in
  let t3 := fp2sub1271 t1 t2 in
  let t1 := fp2mul1271 t1 t2 in
  let t2 := fp2mul1271 PARAMETER_d t1 in
  let t2 := fp2add1271 t2 fp2one in
  let t1 := fp2sub1271 t3 t2 in
  half_zero t1.1 && half_zero t1.2.

Definition R5_to_R1 (P : point_precomp) : point_extproj :=
  let x := fp2sub1271 (s_xy P) (s_yx P) in
  let y := fp2add1271 (s_xy P) (s_yx P) in
  let x := fp2div1271 x in
  let y := fp2div1271 y in
  R1 x y fp2one x y.

Definition eccmadd (Q : point_precomp) (P : point_extproj) : point_extproj :=
  let ta := fp2mul1271 (e_ta P) (e_tb P) in
  let t1 := fp2add1271 (e_z P) (e_z P) in
  let ta := fp2mul1271 ta (s_t2 Q) in
  let z := fp2add1271 (e_x P) (e_y P) in
  let tb := fp2sub1271 (e_y P) (e_x P) in
  let t2 := fp2sub1271 t1 ta in
  let t1 := fp2add1271 t1 ta in
  let ta := fp2mul1271 (s_xy Q) z in
  let x := fp2mul1271 (s_yx Q) tb in
  let z := fp2mul1271 t1 t2 in
  let tb := fp2sub1271 ta x in
  let ta := fp2add1271 ta x in
  let x := fp2mul1271 tb t2 in
  let y := fp2mul1271 ta t1 in
  R1 x y z ta tb.

Definition eccneg_extproj_precomp (P : point_extproj_precomp) : point_extproj_precomp :=
  R2 (e_yx P) (e_xy P) (e_z2 P) (fp2neg1271 (e_t2 P)).

Definition eccneg_precomp (P : point_precomp) : point_precomp := R5 (s_yx P) (s_xy P) (fp2neg1271 (s_t2 P)).

(** ** The extension computes in GF(p^2) *)

Definition f2 (a : f2elm) : gf2 := (fe a.1, fe a.2).

Add Field gf_field : (Zmod.field_theory prime1271 prime1271_prime).
Add Field gf2_field : gf2_field_theory.

(** [a] stands for [v]. *)
Record rep (a : f2elm) (v : gf2) : Prop := { rep_0 : rep1 a.1 v.1; rep_1 : rep1 a.2 v.2 }.

Lemma rep_eq a v w : rep a v -> v = w -> rep a w.
Proof. by intros H <-. Qed.

Lemma rep_unique a v w : rep a v -> rep a w -> v = w.
Proof. destruct v, w. intros [[_ H0] [_ H1]] [[_ K0] [_ K1]]. cbn [fst snd] in *. congruence. Qed.

(** Both halves, by the specifications of the calls and an identity of the
    prime field. *)
Ltac halves :=
  unfold fp2add1271, fp2sub1271, fp2mul1271, fp2sqr1271, fp2neg1271, fp2inv1271; split; cbn [fst snd];
  (eapply rep1_eq; [eauto 12 with fourq|cbn; first [done|ring]]).

Lemma rep_add a b v w : rep a v -> rep b w -> rep (fp2add1271 a b) (gf2_add v w).
Proof. intros [] []. halves. Qed.

Lemma rep_sub a b v w : rep a v -> rep b w -> rep (fp2sub1271 a b) (gf2_sub v w).
Proof. intros [] []. halves. Qed.

Lemma rep_mul a b v w : rep a v -> rep b w -> rep (fp2mul1271 a b) (gf2_mul v w).
Proof. intros [] []. halves. Qed.

Lemma rep_sqr a v : rep a v -> rep (fp2sqr1271 a) (gf2_mul v v).
Proof. intros []. halves. Qed.

Lemma rep_neg a v : rep a v -> rep (fp2neg1271 a) (gf2_opp v).
Proof. intros []. halves. Qed.

Lemma rep_inv a v : rep a v -> rep (fp2inv1271 a) (gf2_inv v).
Proof. intros []. halves. Qed.

Lemma rep_addsub a b v w : rep a v -> rep b w -> rep (fp2addsub1271 a b) (gf2_sub (gf2_add v v) w).
Proof. intros Ha Hb. apply rep_sub; [by apply rep_add|done]. Qed.

#[export] Hint Resolve rep_add rep_sub rep_mul rep_sqr rep_neg rep_inv rep_addsub : fourq.

Lemma rep_zero : rep fp2zero1271 gf2_zero.
Proof. split; split; done. Qed.

Lemma rep_one : rep fp2one gf2_one.
Proof. split; split; done. Qed.

#[export] Hint Resolve rep_zero rep_one : fourq.

Lemma gf2_two : gf2_add gf2_one gf2_one <> gf2_zero.
Proof. intros H%(f_equal fst)%(f_equal Zmod.to_Z). vm_compute in H. discriminate. Qed.

Lemma gf2_halve (h v : gf2) : gf2_add h h = gf2_add v v -> h = v.
Proof.
  intros E. pose proof gf2_two. transitivity (gf2_div (gf2_add h h) (gf2_add gf2_one gf2_one)); [by field|]. rewrite E. by field.
Qed.

Lemma rep_div a v : rep a (gf2_add v v) -> rep (fp2div1271 a) v.
Proof.
  destruct a as [a0 a1]. intros [[H0 E0] [H1 E1]]. cbn [fst snd] in *.
  destruct (fpdiv_spec a0 H0) as [K0 F0], (fpdiv_spec a1 H1) as [K1 F1].
  apply (rep_eq _ (fe (fpdiv1271 a0), fe (fpdiv1271 a1))); [split; by split|].
  apply gf2_halve. destruct v. unfold gf2_add in *. cbn [fst snd] in *. congruence.
Qed.

(** ** The group *)

Definition curve_d : gf2 := f2 PARAMETER_d.
Definition curve_i : gf2 := (Zmod.zero, Zmod.one).

Lemma rep_d : rep PARAMETER_d curve_d.
Proof. split; split; done. Qed.

#[export] Hint Resolve rep_d : fourq.

#[export] Instance fourq_curve : EdwardsCurve curve_d curve_i.
Proof.
  constructor; [exact gf2_two|vm_compute; reflexivity|]. apply gf2_nonsquare; [vm_compute; reflexivity|].
  intros H%(f_equal fst)%(f_equal Zmod.to_Z). vm_compute in H. discriminate.
Qed.

Abbreviation fq_point := (point curve_d).
Abbreviation fq_add := (padd curve_d curve_i).
Abbreviation fq_opp := (popp curve_d).
Abbreviation fq_zero := (pzero curve_d).
Abbreviation fq_mul := (smul curve_d curve_i).

Local Infix "+" := gf2_add.
Local Infix "*" := gf2_mul.
Local Infix "-" := gf2_sub.
Local Infix "/" := gf2_div.
Local Notation "1" := gf2_one.
Local Notation "0" := gf2_zero.

(** The law of the group in terms of the operations of the field. *)
Section law.
Context (p q : fq_point).
Let x1 := px _ p.
Let y1 := py _ p.
Let x2 := px _ q.
Let y2 := py _ q.
Let t := curve_d * x1 * x2 * y1 * y2.

Lemma fq_on_curve : y1 * y1 - x1 * x1 = 1 + curve_d * (x1 * x1) * (y1 * y1).
Proof. exact (p_on _ p). Qed.

Lemma fq_plus : 1 + t <> 0.
Proof. exact (denominator_plus curve_d curve_i _ _ _ _ (p_on _ p) (p_on _ q)). Qed.

Lemma fq_minus : 1 - t <> 0.
Proof. exact (denominator_minus curve_d curve_i _ _ _ _ (p_on _ p) (p_on _ q)). Qed.

Lemma fq_add_x : px _ (fq_add p q) = (x1 * y2 + y1 * x2) / (1 + t).
Proof. done. Qed.

Lemma fq_add_y : py _ (fq_add p q) = (y1 * y2 + x1 * x2) / (1 - t).
Proof. done. Qed.
End law.

#[local] Opaque gf2_add gf2_mul gf2_sub gf2_div gf2_opp gf2_inv gf2_zero gf2_one.

(** ** Representations of points *)

(** (X : Y : Z) *)
Definition is_xyz (P : point_extproj) (p : fq_point) : Prop :=
  exists z, z <> 0 /\ rep (e_x P) (px _ p * z) /\ rep (e_y P) (py _ p * z) /\ rep (e_z P) z.

(** (X, Y, Z, Ta, Tb) with Ta Tb = X Y / Z *)
Definition is_r1 (P : point_extproj) (p : fq_point) : Prop :=
  exists z ta tb, z <> 0 /\ rep (e_x P) (px _ p * z) /\ rep (e_y P) (py _ p * z) /\ rep (e_z P) z /\
    rep (e_ta P) ta /\ rep (e_tb P) tb /\ ta * tb = px _ p * py _ p * z.

(** (X+Y, Y-X, 2Z, 2dT) *)
Definition is_r2 (P : point_extproj_precomp) (p : fq_point) : Prop :=
  exists z, z <> 0 /\ rep (e_xy P) ((px _ p + py _ p) * z) /\ rep (e_yx P) ((py _ p - px _ p) * z) /\ rep (e_z2 P) (z + z) /\
    rep (e_t2 P) ((1 + 1) * curve_d * px _ p * py _ p * z).

(** (X+Y, Y-X, Z, T) *)
Definition is_r3 (P : point_extproj_precomp) (p : fq_point) : Prop :=
  exists z, z <> 0 /\ rep (e_xy P) ((px _ p + py _ p) * z) /\ rep (e_yx P) ((py _ p - px _ p) * z) /\ rep (e_z2 P) z /\
    rep (e_t2 P) (px _ p * py _ p * z).

(** (x+y, y-x, 2dt) *)
Definition is_r5 (P : point_precomp) (p : fq_point) : Prop :=
  rep (s_xy P) (px _ p + py _ p) /\ rep (s_yx P) (py _ p - px _ p) /\ rep (s_t2 P) ((1 + 1) * curve_d * px _ p * py _ p).

Lemma is_r1_xyz P p : is_r1 P p -> is_xyz P p.
Proof. intros (z & ta & tb & Hz & Hx & Hy & HZ & _). by exists z. Qed.

Lemma gf2_one_nonzero : 1 <> 0.
Proof. exact (one_nonzero (F := gf2) (Fld := gf2_ops)). Qed.

Lemma gf2_mul_nonzero (a b : gf2) : a <> 0 -> b <> 0 -> a * b <> 0.
Proof. exact (mul_nonzero (F := gf2) (Fld := gf2_ops) a b). Qed.

(** A coordinate, by the specifications of the calls and an identity. *)
Ltac coordinate tac := eapply rep_eq; [eauto 20 with fourq|tac].

Ltac nonzero := repeat first [assumption|apply gf2_mul_nonzero].

Lemma eccdouble_spec P p : is_xyz P p -> is_r1 (eccdouble P) (fq_add p p).
Proof.
  intros (z & Hz & Hx & Hy & HZ). pose proof (fq_plus p p) as Hp. pose proof (fq_minus p p) as Hm. pose proof (fq_on_curve p) as Hc.
  unfold is_r1. rewrite fq_add_x, fq_add_y. revert Hx Hy Hp Hm Hc. generalize (px _ p) (py _ p). intros x y Hx Hy Hp Hm Hc.
  replace (1 + curve_d * x * x * y * y) with (y * y - x * x) in * by (rewrite Hc; ring).
  replace (1 - curve_d * x * x * y * y) with (1 + 1 - (y * y - x * x)) in * by (rewrite Hc; ring).
  exists ((y * y - x * x) * (1 + 1 - (y * y - x * x)) * (z * z * (z * z))), ((x * y + y * x) * (z * z)), ((x * x + y * y) * (z * z)).
  unfold eccdouble. cbn [e_x e_y e_z e_ta e_tb].
  split; [nonzero|]. repeat split_and!; first [coordinate ltac:(ring)|coordinate ltac:(by field)|by field].
Qed.

Lemma R1_to_R2_spec P p : is_r1 P p -> is_r2 (R1_to_R2 P) p.
Proof.
  intros (z & ta & tb & Hz & Hx & Hy & HZ & Ha & Hb & HT). exists z. unfold R1_to_R2. cbn [e_xy e_yx e_z2 e_t2].
  split; [done|]. split_and!; [coordinate ltac:(ring)..|]. coordinate idtac.
  transitivity ((1 + 1) * curve_d * (ta * tb)); [ring|]. rewrite HT. ring.
Qed.

Lemma R1_to_R3_spec P p : is_r1 P p -> is_r3 (R1_to_R3 P) p.
Proof.
  intros (z & ta & tb & Hz & Hx & Hy & HZ & Ha & Hb & HT). exists z. unfold R1_to_R3. cbn [e_xy e_yx e_z2 e_t2].
  split; [done|]. split_and!; [coordinate ltac:(ring)..|done|]. rewrite <- HT. eauto with fourq.
Qed.

Lemma R2_to_R4_spec P Q p : is_r2 P p -> is_xyz (R2_to_R4 P Q) p.
Proof.
  intros (z & Hz & Hxy & Hyx & Hz2 & _). exists (z + z). unfold R2_to_R4. cbn [e_x e_y e_z]. split.
  - replace (z + z) with ((1 + 1) * z) by ring. apply gf2_mul_nonzero; [apply gf2_two|done].
  - split_and!; [coordinate ltac:(ring)..|done].
Qed.

Lemma eccadd_core_spec P Q p q : is_r2 P p -> is_r3 Q q -> is_r1 (eccadd_core P Q) (fq_add p q).
Proof.
  intros (z & Hz & Hxy & Hyx & Hz2 & Ht2) (w & Hw & Kxy & Kyx & Kz2 & Kt2).
  pose proof (fq_plus p q) as Hp. pose proof (fq_minus p q) as Hm. pose proof gf2_two as H2.
  unfold is_r1. rewrite fq_add_x, fq_add_y. revert Hxy Hyx Ht2 Kxy Kyx Kt2 Hp Hm. generalize (px _ p) (py _ p) (px _ q) (py _ q).
  intros x1 y1 x2 y2 Hxy Hyx Ht2 Kxy Kyx Kt2 Hp Hm.
  exists ((1 + 1) * (1 + 1) * ((1 + curve_d * x1 * x2 * y1 * y2) * (1 - curve_d * x1 * x2 * y1 * y2)) * (z * w * (z * w))),
    ((1 + 1) * (y1 * y2 + x1 * x2) * (z * w)), ((1 + 1) * (x1 * y2 + y1 * x2) * (z * w)).
  unfold eccadd_core. cbn [e_x e_y e_z e_ta e_tb]. split; [nonzero|].
  split_and!; first [coordinate ltac:(ring)|coordinate ltac:(by field)|by field].
Qed.

Lemma eccadd_spec P Q p q : is_r2 Q q -> is_r1 P p -> is_r1 (eccadd Q P) (fq_add q p).
Proof. intros HQ HP. apply eccadd_core_spec; [done|by apply R1_to_R3_spec]. Qed.

Lemma eccmadd_spec P Q p q : is_r5 Q q -> is_r1 P p -> is_r1 (eccmadd Q P) (fq_add p q).
Proof.
  intros (Kxy & Kyx & Kt2) (z & ta & tb & Hz & Hx & Hy & HZ & Ha & Hb & HT).
  pose proof (fq_plus p q) as Hp. pose proof (fq_minus p q) as Hm. pose proof gf2_two as H2.
  unfold is_r1. rewrite fq_add_x, fq_add_y. revert Hx Hy HT Kxy Kyx Kt2 Hp Hm. generalize (px _ p) (py _ p) (px _ q) (py _ q).
  intros x1 y1 x2 y2 Hx Hy HT Kxy Kyx Kt2 Hp Hm.
  assert (rep (fp2mul1271 (e_ta P) (e_tb P)) (x1 * y1 * z)) as HT1 by (rewrite <- HT; eauto with fourq).
  exists ((1 + 1) * (1 + 1) * ((1 + curve_d * x1 * x2 * y1 * y2) * (1 - curve_d * x1 * x2 * y1 * y2)) * (z * z)),
    ((1 + 1) * (y1 * y2 + x1 * x2) * z), ((1 + 1) * (x1 * y2 + y1 * x2) * z).
  unfold eccmadd. cbn [e_x e_y e_z e_ta e_tb]. cbv zeta. generalize dependent (fp2mul1271 (e_ta P) (e_tb P)). intros T HT1.
  split; [nonzero|]. split_and!; first [coordinate ltac:(ring)|coordinate ltac:(by field)|by field].
Qed.

Lemma R5_to_R1_spec P p : is_r5 P p -> is_r1 (R5_to_R1 P) p.
Proof.
  intros (Kxy & Kyx & _). exists 1, (px _ p), (py _ p). unfold R5_to_R1. cbn [e_x e_y e_z e_ta e_tb].
  assert (rep (fp2div1271 (fp2sub1271 (s_xy P) (s_yx P))) (px _ p)) by (apply rep_div; coordinate ltac:(ring)).
  assert (rep (fp2div1271 (fp2add1271 (s_xy P) (s_yx P))) (py _ p)) by (apply rep_div; coordinate ltac:(ring)).
  split; [apply gf2_one_nonzero|]. split_and!; first [done|coordinate ltac:(ring)|ring].
Qed.

Lemma eccneg_precomp_spec P p : is_r5 P p -> is_r5 (eccneg_precomp P) (fq_opp p).
Proof.
  intros (Kxy & Kyx & Kt). unfold eccneg_precomp, is_r5. cbn [s_xy s_yx s_t2]. change (px _ (fq_opp p)) with (gf2_opp (px _ p)).
  change (py _ (fq_opp p)) with (py _ p). split_and!; coordinate ltac:(ring).
Qed.

Lemma eccneg_extproj_spec P p : is_r2 P p -> is_r2 (eccneg_extproj_precomp P) (fq_opp p).
Proof.
  intros (z & Hz & Kxy & Kyx & Kz & Kt). exists z. unfold eccneg_extproj_precomp. cbn [e_xy e_yx e_z2 e_t2].
  change (px _ (fq_opp p)) with (gf2_opp (px _ p)). change (py _ (fq_opp p)) with (py _ p). split; [done|]. split_and!; coordinate ltac:(ring).
Qed.

(** ** Affine points *)

(** The coordinates as the numbers below the prime. *)
Definition affine_of (p : fq_point) : point_affine :=
  Affine (Zmod.to_Z (px _ p).1, Zmod.to_Z (px _ p).2) (Zmod.to_Z (py _ p).1, Zmod.to_Z (py _ p).2).

Lemma eccnorm_spec P p : is_xyz P p -> eccnorm P = affine_of p.
Proof.
  intros (z & Hz & Hx & Hy & HZ). unfold eccnorm, affine_of.
  assert (rep (fp2mul1271 (e_x P) (fp2inv1271 (e_z P))) (px _ p)) as [Hx0 Hx1] by (coordinate ltac:(by field)).
  assert (rep (fp2mul1271 (e_y P) (fp2inv1271 (e_z P))) (py _ p)) as [Hy0 Hy1] by (coordinate ltac:(by field)).
  by rewrite (rep1_mod _ _ Hx0), (rep1_mod _ _ Hx1), (rep1_mod _ _ Hy0), (rep1_mod _ _ Hy1).
Qed.

Definition is_affine (A : point_affine) (p : fq_point) : Prop := rep (a_x A) (px _ p) /\ rep (a_y A) (py _ p).

Lemma rep_to_Z (v : gf2) : rep (Zmod.to_Z v.1, Zmod.to_Z v.2) v.
Proof.
  assert (forall w : gf, rep1 (Zmod.to_Z w) w) as H; [|split; apply H]. intros w. split.
  - unfold felm_ok. pose proof (Zmod.unsigned_pos_bound w eq_refl) as Hw. assert (prime1271 = 2 ^ 127 - 1)%Z by done. lia.
  - apply Zmod.of_Z_to_Z.
Qed.

Lemma affine_of_is p : is_affine (affine_of p) p.
Proof. split; apply rep_to_Z. Qed.

Lemma affine_of_inj p q : affine_of p = affine_of q -> p = q.
Proof.
  unfold affine_of. intros [= E1 E2 E3 E4]. apply Zmod.to_Z_inj in E1, E2, E3, E4.
  apply point_eq; apply injective_projections; done.
Qed.

Lemma point_setup_spec A p : is_affine A p -> is_r1 (point_setup A) p.
Proof.
  intros [Hx Hy]. exists 1, (px _ p), (py _ p). unfold point_setup. cbn [e_x e_y e_z e_ta e_tb].
  split; [apply gf2_one_nonzero|]. split_and!; first [done|apply rep_one|eapply rep_eq; [eassumption|ring]|ring].
Qed.

(** ** Validation of points *)

Lemma is_digit_zero_spec x : u64_ok x -> is_digit_zero_ct x = if Z.eqb x 0 then 1%Z else 0%Z.
Proof.
  unfold u64_ok. intros Hx. unfold is_digit_zero_ct, is_digit_nonzero_ct. destruct (Z.eqb_spec x 0) as [->|Hne]; [done|].
  assert (u64 (0 - x) = 2 ^ 64 - x)%Z as ->.
  { unfold wrap. rewrite <- (Z_mod_plus_full (0 - x) 1), Z.mod_small; lia. }
  rewrite Z.shiftr_lor, !Z.shiftr_div_pow2 by done.
  assert (x / 2 ^ 63 = 0 /\ (2 ^ 64 - x) / 2 ^ 63 = 1 \/ x / 2 ^ 63 = 1 /\ ((2 ^ 64 - x) / 2 ^ 63 = 0 \/ (2 ^ 64 - x) / 2 ^ 63 = 1))%Z
    as [[-> ->]|[-> [-> | ->]]]; [Z.div_mod_to_equations; lia|done..].
Qed.

Lemma half_zero_spec t : felm_ok t -> half_zero t = Z.eqb t 0.
Proof.
  intros Ht. destruct (digits t Ht) as (E & H0 & H1). unfold half_zero.
  assert (forall a b, u64_ok a -> u64_ok b -> negb (Z.eqb (is_digit_zero_ct (Z.lor a b)) 0) = Z.eqb a 0 && Z.eqb b 0) as H.
  { intros a b Ha Hb. rewrite is_digit_zero_spec by (apply (lor_range 64); done).
    destruct (Z.eqb_spec (Z.lor a b) 0) as [E'|E'].
    - apply Z.lor_eq_0_iff in E' as [-> ->]. done.
    - destruct (Z.eqb_spec a 0) as [->|], (Z.eqb_spec b 0) as [->|]; done. }
  rewrite !H by (done || apply u64_range || (unfold u64_ok; lia)).
  assert (Z.eqb (u64 (digit1 t + 1)) 0 = false) as ->.
  { apply Z.eqb_neq. rewrite (wrap_small 64 (digit1 t + 1)) by lia. lia. }
  rewrite andb_false_r, orb_false_r. destruct (Z.eqb_spec (digit0 t) 0), (Z.eqb_spec (digit1 t) 0), (Z.eqb_spec t 0); (done || lia).
Qed.

(** The residue of the curve equation. *)
Definition residue (P : point_extproj) : f2elm :=
  fp2sub1271 (fp2sub1271 (fp2sqr1271 (e_y P)) (fp2sqr1271 (e_x P)))
    (fp2add1271 (fp2mul1271 PARAMETER_d (fp2mul1271 (fp2sqr1271 (e_y P)) (fp2sqr1271 (e_x P)))) fp2one).

Lemma residue_rep P x y : rep (e_x P) x -> rep (e_y P) y -> rep (residue P) (y * y - x * x - (1 + curve_d * (x * x) * (y * y))).
Proof. intros Hx Hy. unfold residue. coordinate ltac:(ring). Qed.

Lemma validate_residue P x y : rep (e_x P) x -> rep (e_y P) y -> ecc_point_validate P = true <-> residue P = (0, 0)%Z.
Proof.
  intros Hx Hy. destruct (residue_rep P x y Hx Hy) as [[H0 _] [H1 _]].
  change (ecc_point_validate P) with (half_zero (residue P).1 && half_zero (residue P).2).
  rewrite !half_zero_spec by done. destruct (residue P) as [r0 r1]. cbn [fst snd]. rewrite andb_true_iff, !Z.eqb_eq. naive_solver.
Qed.

Lemma validate_sound P x y : rep (e_x P) x -> rep (e_y P) y -> ecc_point_validate P = true -> on_curve curve_d x y.
Proof.
  intros Hx Hy H%(validate_residue P x y Hx Hy). pose proof (residue_rep P x y Hx Hy) as Hr. rewrite H in Hr.
  apply (rep_unique _ _ _ rep_zero) in Hr. unfold on_curve. symmetry in Hr. by apply (sub_zero (F := gf2) (Fld := gf2_ops)) in Hr.
Qed.

(** No result of the operations is the prime instead of zero here. *)
Definition canonical (a : f2elm) : Prop := (0 <= a.1 < prime1271 /\ 0 <= a.2 < prime1271)%Z.

(** A difference is the prime only as the difference of the prime and zero. *)
Lemma fpsub_not_prime a b : felm_ok a -> felm_ok b -> (a <> prime1271 \/ b <> 0)%Z -> fpsub1271 a b <> prime1271.
Proof.
  unfold felm_ok. intros Ha Hb. rewrite fpsub_eq by done. change prime1271 with (2 ^ 127 - 1)%Z. destruct (Z.ltb_spec a b); lia.
Qed.

Lemma fpadd_one m : felm_ok m -> fpadd1271 m 1 <> 0%Z.
Proof. unfold felm_ok. intros Hm. rewrite fpadd_eq by done. destruct (Z.leb_spec (2 ^ 127) (m + 1)); lia. Qed.

Lemma rep_ok a v : rep a v -> felm_ok a.1 /\ felm_ok a.2.
Proof. by intros [[H0 _] [H1 _]]. Qed.

Lemma fpmul_zero a b : (a = 0 \/ b = 0)%Z -> fpmul1271 a b = 0%Z.
Proof.
  unfold fpmul1271. change (digit0 0) with 0%Z. change (digit1 0) with 0%Z.
  intros [-> | ->]; change (digit0 0) with 0%Z; change (digit1 0) with 0%Z; rewrite ?Z.mul_0_r; done.
Qed.

(** Twice an element is the prime only when the element is. *)
Lemma square_imaginary a : canonical a -> (fp2sqr1271 a).2 <> prime1271.
Proof.
  destruct a as [a0 a1]. intros [H0 H1]. cbn [fst snd] in *. unfold fp2sqr1271. cbn [fst snd].
  assert (prime1271 = 2 ^ 127 - 1)%Z as Hp by done.
  assert (felm_ok a0 /\ felm_ok a1) as [Ha0 Ha1] by (unfold felm_ok; lia). destruct (fpmul_spec a0 a1 Ha0 Ha1) as [Hok Hfe].
  rewrite fpadd_eq by done. unfold felm_ok in Hok. intros E.
  assert (fpmul1271 a0 a1 = prime1271) as Em by (destruct (Z.leb_spec (2 ^ 127) (fpmul1271 a0 a1 + fpmul1271 a0 a1)); lia).
  assert (Zmod.mul (fe a0) (fe a1) = Zmod.zero) as Hz by (rewrite <- Hfe, Em; vm_compute; reflexivity).
  apply (Zmod.mul_0_iff_prime prime1271_prime) in Hz. rewrite fpmul_zero in Em; [done|].
  assert (forall a, (0 <= a < prime1271)%Z -> fe a = Zmod.zero -> a = 0%Z) as Hc.
  { intros a Ha Hf%(f_equal Zmod.to_Z). unfold fe in Hf. rewrite Zmod.to_Z_of_Z, Zmod.to_Z_0, Z.mod_small in Hf; done. }
  destruct Hz as [Hz|Hz]; [left|right]; by apply Hc.
Qed.

Lemma residue_not_prime P x y : rep (e_x P) x -> rep (e_y P) y -> canonical (e_y P) ->
  (residue P).1 <> prime1271 /\ (residue P).2 <> prime1271.
Proof.
  intros Rx Ry Hy. destruct (rep_ok _ _ (rep_sqr _ _ Ry)) as [Y0 Y1]. destruct (rep_ok _ _ (rep_sqr _ _ Rx)) as [X0 X1].
  destruct (rep_ok _ _ (rep_sub _ _ _ _ (rep_sqr _ _ Ry) (rep_sqr _ _ Rx))) as [D0 D1].
  pose proof (rep_mul _ _ _ _ rep_d (rep_mul _ _ _ _ (rep_sqr _ _ Ry) (rep_sqr _ _ Rx))) as HM.
  destruct (rep_ok _ _ HM) as [M0 M1]. destruct (rep_ok _ _ (rep_add _ _ _ _ HM rep_one)) as [A0 A1]. split.
  - exact (fpsub_not_prime _ _ D0 A0 (or_intror (fpadd_one _ M0))).
  - exact (fpsub_not_prime _ _ D1 A1 (or_introl (fpsub_not_prime _ _ Y1 X1 (or_introl (square_imaginary _ Hy))))).
Qed.

Lemma validate_complete P x y : rep (e_x P) x -> rep (e_y P) y -> canonical (e_y P) ->
  on_curve curve_d x y -> ecc_point_validate P = true.
Proof.
  intros Rx Ry Cy H. apply (validate_residue P x y Rx Ry). destruct (residue_not_prime P x y Rx Ry Cy) as [N0 N1].
  pose proof (residue_rep P x y Rx Ry) as [[R0 E0] [R1 E1]].
  assert (y * y - x * x - (1 + curve_d * (x * x) * (y * y)) = 0) as Hz.
  { unfold on_curve in H. change (y * y - x * x = 1 + curve_d * (x * x) * (y * y)) in H. rewrite H. ring. }
  rewrite Hz in E0, E1. assert (forall r, felm_ok r -> r <> prime1271 -> fe r = Zmod.zero -> r = 0%Z) as Hc.
  { unfold felm_ok. intros r Hr Hn Hf%(f_equal Zmod.to_Z). assert (prime1271 = 2 ^ 127 - 1)%Z by done. unfold fe in Hf.
    rewrite Zmod.to_Z_of_Z, Zmod.to_Z_0, Z.mod_small in Hf; [done|lia]. }
  destruct (residue P) as [r0 r1]. cbn [fst snd] in *. f_equal; by apply Hc.
Qed.

(** A coordinate written as the prime instead of zero makes the neutral point
    invalid. *)
Example validate_rejects_neutral :
  is_affine (Affine (0, 0)%Z (1, prime1271)%Z) fq_zero /\ ecc_point_validate (point_setup (Affine (0, 0)%Z (1, prime1271)%Z)) = false.
Proof. split; [split; split; split; (done || (vm_compute; reflexivity))|vm_compute; reflexivity]. Qed.
