(* ===== verification/FourQOrder.v ===== *)
(** * Arithmetic modulo the order of the group

    The multiprecision part of amd64/fp_x64.h (arm64/fp_arm64.h is the same
    text) and the conversions of crypto_util.c. A number of n digits is the list
    of its digits, the lowest first; loops that write through a pointer return
    the list they leave. *)

From stdpp Require Import base list numbers.
From S2P Require Import Prelude FourQField.

Abbreviation digits_t := (list Z).

Definition NWORDS_ORDER : nat := 4.

Definition curve_order : digits_t := [0x2FB2540EC7768CE7; 0xDFBD004DFE0F7999; 0xF05397829CBC14E5; 0x0029CBC14E5E0A72].
Definition Montgomery_Rprime : digits_t := [0xC81DB8795FF3D621; 0x173EA5AAEA6B387D; 0x3D01B7C72136F61C; 0x0006A5F16AC8F9D3].
Definition Montgomery_rprime : digits_t := [0xE12FE5F079BC3929; 0xD75E78B8D1FCDCF3; 0xBCE409ED76B5DB21; 0xF32702FDAFC1C074].

(** The digit an index reads. *)
Definition dg (a : digits_t) (i : nat) : Z := default 0 (a !! i).

(** [MUL]: the high and the low digit of a product. *)
Definition MUL (a b : Z) : Z * Z := let temp := u128 (a * b) in (u64 (Z.shiftr temp 64), u64 temp).

(** [for (j = 0; j < n; j++)] of the row [i] of [multiply]. *)
Fixpoint multiply_row (n : nat) (ai : Z) (b : digits_t) (i j : nat) (u : Z) (c : digits_t) : Z * digits_t :=
  match n with
  | O => (u, c)
  | S n =>
      let '(hi, lo) := MUL ai (dg b j) in
      let '(carry, v) := ADDC 0 lo u in
      let u := u64 (hi + carry) in
      let '(carry, v) := ADDC 0 (dg c (i + j)) v in
      let u := u64 (u + carry) in
      multiply_row n ai b i (S j) u (<[(i + j)%nat := v]> c)
  end.

(** [for (i = 0; i < n; i++)] *)
Fixpoint multiply_rows (n : nat) (a b : digits_t) (i : nat) (c : digits_t) : digits_t :=
  match n with
  | O => c
  | S n =>
      let '(u, c) := multiply_row NWORDS_ORDER (dg a i) b i 0 0 c in
      multiply_rows n a b (S i) (<[(NWORDS_ORDER + i)%nat := u]> c)
  end.

Definition multiply (a b : digits_t) : digits_t := multiply_rows NWORDS_ORDER a b 0 (replicate (2 * NWORDS_ORDER) 0).

(** The carry and the digits of a sum. *)
Fixpoint add_loop (n : nat) (carry : Z) (a b : digits_t) (i : nat) : Z * digits_t :=
  match n with
  | O => (carry, [])
  | S n =>
      let '(carry, s) := ADDC carry (dg a i) (dg b i) in
      let '(carry, c) := add_loop n carry a b (S i) in
      (carry, s :: c)
  end.

Definition add (a b : digits_t) (nwords : nat) : Z * digits_t := add_loop nwords 0 a b 0.

(** The borrow and the digits of a difference. *)
Fixpoint subtract_loop (n : nat) (borrow : Z) (a b : digits_t) (i : nat) : Z * digits_t :=
  match n with
  | O => (borrow, [])
  | S n =>
      let '(borrow, s) := SUBC borrow (dg a i) (dg b i) in
      let '(borrow, c) := subtract_loop n borrow a b (S i) in
      (borrow, s :: c)
  end.

Definition subtract (a b : digits_t) (nwords : nat) : Z * digits_t := subtract_loop nwords 0 a b 0.

(** The order, or zero. *)
Definition masked_order (mask : Z) : digits_t := map (Z.land mask) curve_order.

Definition subtract_mod_order (a b : digits_t) : digits_t :=
  let '(bout, c) := subtract a b NWORDS_ORDER in
  let mask := u64 (0 - bout) in
  (add c (masked_order mask) NWORDS_ORDER).2.

Definition add_mod_order (a b : digits_t) : digits_t :=
  let c := (add a b NWORDS_ORDER).2 in
  subtract_mod_order c curve_order.

Definition Montgomery_multiply_mod_order (ma mb : digits_t) : digits_t :=
  let P := multiply ma mb in
  let Q := multiply P Montgomery_rprime in
  let temp := multiply Q curve_order in
  let '(cout, temp) := add P temp (2 * NWORDS_ORDER) in
  let mc := drop NWORDS_ORDER temp in
  let '(bout, mc) := subtract mc curve_order NWORDS_ORDER in
  let mask := u64 (cout - bout) in
  (add mc (masked_order mask) NWORDS_ORDER).2.

Definition one_digits : digits_t := [1; 0; 0; 0].

Definition modulo_order (a : digits_t) : digits_t :=
  let ma := Montgomery_multiply_mod_order a Montgomery_Rprime in
  Montgomery_multiply_mod_order ma one_digits.

Definition to_Montgomery (ma : digits_t) : digits_t := Montgomery_multiply_mod_order ma Montgomery_Rprime.
Definition from_Montgomery (a : digits_t) : digits_t := Montgomery_multiply_mod_order a one_digits.

Definition conversion_to_odd (k : digits_t) : digits_t :=
  let mask := u64 (Z.lnot (u64 (0 - Z.land (dg k 0) 1))) in
  (add (masked_order mask) k NWORDS_ORDER).2.

(** ** Numbers *)

Fixpoint nval (a : digits_t) : Z := match a with [] => 0 | x :: a => x + 2 ^ 64 * nval a end.

Definition digits_ok (n : nat) (a : digits_t) : Prop := length a = n /\ Forall u64_ok a.

Definition order : Z := nval curve_order.

Lemma nval_range n a : digits_ok n a -> 0 <= nval a < 2 ^ (64 * Z.of_nat n).
Proof.
  intros [<- H]. induction H as [|x a Hx H IH]; [done|]. cbn [nval length]. unfold u64_ok in Hx.
  replace (64 * Z.of_nat (S (length a))) with (64 + 64 * Z.of_nat (length a)) by lia. rewrite Z.pow_add_r by lia. nia.
Qed.

Lemma dg_ok n a i : digits_ok n a -> u64_ok (dg a i).
Proof.
  intros [_ H]. unfold dg. destruct (a !! i) as [x|] eqn:E; cbn; [|done]. by eapply Forall_lookup_1 in H.
Qed.

Lemma nval_drop_dg a i : (i < length a)%nat -> nval (drop i a) = dg a i + 2 ^ 64 * nval (drop (S i) a).
Proof.
  intros Hi. destruct (lookup_lt_is_Some_2 a i Hi) as [x Hx]. rewrite (drop_S a x i Hx). unfold dg. by rewrite Hx.
Qed.

Lemma nval_app a b : nval (a ++ b) = nval a + 2 ^ (64 * Z.of_nat (length a)) * nval b.
Proof.
  induction a as [|x a IH]; cbn [nval app length]; [lia|]. rewrite IH.
  replace (64 * Z.of_nat (S (length a))) with (64 + 64 * Z.of_nat (length a)) by lia. rewrite Z.pow_add_r by lia. lia.
Qed.

Lemma nval_insert a i x : (i < length a)%nat -> nval (<[i := x]> a) = nval a + 2 ^ (64 * Z.of_nat i) * (x - dg a i).
Proof.
  revert i. induction a as [|y a IH]; intros i Hi; cbn [length] in Hi; [lia|]. destruct i as [|i].
  { change (2 ^ (64 * Z.of_nat 0)) with 1. change (dg (y :: a) 0) with y. change (<[0%nat := x]> (y :: a)) with (x :: a). cbn [nval]. lia. }
  change (<[S i := x]> (y :: a)) with (y :: <[i := x]> a). change (dg (y :: a) (S i)) with (dg a i). cbn [nval]. rewrite IH by lia. replace (64 * Z.of_nat (S i)) with (64 + 64 * Z.of_nat i) by lia.
  rewrite Z.pow_add_r by lia. lia.
Qed.

Lemma digits_ok_insert n a i x : digits_ok n a -> u64_ok x -> digits_ok n (<[i := x]> a).
Proof. intros [H1 H2] Hx. split; [by rewrite length_insert|by apply Forall_insert]. Qed.

Lemma digits_ok_4 a : digits_ok 4 a -> exists a0 a1 a2 a3, a = [a0; a1; a2; a3] /\ u64_ok a0 /\ u64_ok a1 /\ u64_ok a2 /\ u64_ok a3.
Proof.
  intros [Hl Ha]. destruct a as [|a0 [|a1 [|a2 [|a3 [|]]]]]; try discriminate Hl.
  apply Forall_cons_1 in Ha as [H0 Ha]. apply Forall_cons_1 in Ha as [H1 Ha]. apply Forall_cons_1 in Ha as [H2 Ha]. apply Forall_cons_1 in Ha as [H3 _].
  by exists a0, a1, a2, a3.
Qed.

(** ** Sums and differences *)

Lemma add_loop_spec m c a b i : 0 <= c <= 1 -> digits_ok (i + m) a -> digits_ok (i + m) b ->
  let '(carry, s) := add_loop m c a b i in
  0 <= carry <= 1 /\ digits_ok m s /\ nval (drop i a) + nval (drop i b) + c = nval s + 2 ^ (64 * Z.of_nat m) * carry.
Proof.
  revert c i. induction m as [|m IH]; intros c i Hc Ha Hb; cbn [add_loop].
  - destruct Ha as [Ha _], Hb as [Hb _]. rewrite !drop_ge by lia. split; [done|]. split; [done|]. cbn. lia.
  - pose proof (ADDC_spec c (dg a i) (dg b i) Hc (dg_ok _ _ _ Ha) (dg_ok _ _ _ Hb)) as H. destruct (ADDC _ _ _) as [c1 s].
    destruct H as (E & Hs & Hc1). rewrite Nat.add_succ_r in *. specialize (IH c1 (S i) Hc1 Ha Hb).
    destruct (add_loop m c1 a b (S i)) as [c2 r]. destruct IH as (Hc2 & [Hl Hr] & E2). split; [done|].
    split; [by split; [cbn; rewrite Hl|constructor]|]. destruct Ha as [Ha _], Hb as [Hb _]. rewrite (nval_drop_dg a i), (nval_drop_dg b i) by lia. cbn [nval].
    replace (64 * Z.of_nat (S m)) with (64 + 64 * Z.of_nat m) by lia. rewrite Z.pow_add_r by lia. lia.
Qed.

Lemma add_spec n a b : digits_ok n a -> digits_ok n b ->
  0 <= (add a b n).1 <= 1 /\ digits_ok n (add a b n).2 /\ nval a + nval b = nval (add a b n).2 + 2 ^ (64 * Z.of_nat n) * (add a b n).1.
Proof.
  intros Ha Hb. pose proof (add_loop_spec n 0 a b 0 ltac:(lia) Ha Hb) as H. unfold add. destruct (add_loop _ _ _ _ _). rewrite !drop_0, Z.add_0_r in H. done.
Qed.

Lemma subtract_loop_spec m c a b i : 0 <= c <= 1 -> digits_ok (i + m) a -> digits_ok (i + m) b ->
  let '(borrow, s) := subtract_loop m c a b i in
  0 <= borrow <= 1 /\ digits_ok m s /\ nval (drop i a) - nval (drop i b) - c = nval s - 2 ^ (64 * Z.of_nat m) * borrow.
Proof.
  revert c i. induction m as [|m IH]; intros c i Hc Ha Hb; cbn [subtract_loop].
  - destruct Ha as [Ha _], Hb as [Hb _]. rewrite !drop_ge by lia. split; [done|]. split; [done|]. cbn. lia.
  - pose proof (SUBC_spec c (dg a i) (dg b i) Hc (dg_ok _ _ _ Ha) (dg_ok _ _ _ Hb)) as H. destruct (SUBC _ _ _) as [c1 s].
    destruct H as (E & Hs & Hc1). rewrite Nat.add_succ_r in *. specialize (IH c1 (S i) Hc1 Ha Hb).
    destruct (subtract_loop m c1 a b (S i)) as [c2 r]. destruct IH as (Hc2 & [Hl Hr] & E2). split; [done|].
    split; [by split; [cbn; rewrite Hl|constructor]|]. destruct Ha as [Ha _], Hb as [Hb _]. rewrite (nval_drop_dg a i), (nval_drop_dg b i) by lia. cbn [nval].
    replace (64 * Z.of_nat (S m)) with (64 + 64 * Z.of_nat m) by lia. rewrite Z.pow_add_r by lia. lia.
Qed.

Lemma subtract_spec n a b : digits_ok n a -> digits_ok n b ->
  0 <= (subtract a b n).1 <= 1 /\ digits_ok n (subtract a b n).2 /\ nval a - nval b = nval (subtract a b n).2 - 2 ^ (64 * Z.of_nat n) * (subtract a b n).1.
Proof.
  intros Ha Hb. pose proof (subtract_loop_spec n 0 a b 0 ltac:(lia) Ha Hb) as H. unfold subtract. destruct (subtract_loop _ _ _ _ _). rewrite !drop_0, Z.sub_0_r in H. done.
Qed.

(** ** Products *)

Lemma MUL_spec a b : u64_ok a -> u64_ok b -> a * b = (MUL a b).2 + 2 ^ 64 * (MUL a b).1 /\ u64_ok (MUL a b).2 /\ 0 <= (MUL a b).1 <= 2 ^ 64 - 2.
Proof.
  unfold u64_ok, MUL. intros Ha Hb. cbn [fst snd]. assert (0 <= a * b <= (2 ^ 64 - 1) * (2 ^ 64 - 1)) as H by nia.
  revert H. generalize (a * b). intros n Hn. to_arith. split; [|split]; Z.div_mod_to_equations; lia.
Qed.

(** One step: the product and the two additions do not overflow two digits. *)
Lemma multiply_step ai bj u cij : u64_ok ai -> u64_ok bj -> u64_ok u -> u64_ok cij ->
  let '(hi, lo) := MUL ai bj in
  let '(carry, v) := ADDC 0 lo u in
  let u1 := u64 (hi + carry) in
  let '(carry', v') := ADDC 0 cij v in
  let u2 := u64 (u1 + carry') in
  u64_ok u2 /\ u64_ok v' /\ ai * bj + u + cij = v' + 2 ^ 64 * u2.
Proof.
  intros Ha Hb Hu Hc. destruct (MUL_spec ai bj Ha Hb) as (E & Hlo & Hhi). destruct (MUL ai bj) as [hi lo]. cbn [fst snd] in *.
  pose proof (ADDC_spec 0 lo u ltac:(lia) Hlo Hu) as H1. destruct (ADDC 0 lo u) as [c1 v]. destruct H1 as (E1 & Hv & Hc1).
  pose proof (ADDC_spec 0 cij v ltac:(lia) Hc Hv) as H2. destruct (ADDC 0 cij v) as [c2 v']. destruct H2 as (E2 & Hv' & Hc2). cbv zeta.
  unfold u64_ok in *. rewrite (wrap_small 64 (hi + c1)) by lia. assert (ai * bj <= (2 ^ 64 - 1) * (2 ^ 64 - 1)) by nia.
  rewrite wrap_small by lia. split; [lia|]. split; [done|lia].
Qed.

Lemma multiply_row_spec n ai b m i j u c k : u64_ok ai -> digits_ok m b -> u64_ok u -> digits_ok k c -> (i + j + n <= k)%nat -> (j + n <= m)%nat ->
  let '(u', c') := multiply_row n ai b i j u c in
  u64_ok u' /\ digits_ok k c' /\ (forall l, (i + j + n <= l)%nat -> dg c' l = dg c l) /\
  nval c' + 2 ^ (64 * Z.of_nat (i + j + n)) * u' = nval c + 2 ^ (64 * Z.of_nat (i + j)) * (u + ai * nval (take n (drop j b))).
Proof.
  intros Ha Hb. revert j u c. induction n as [|n IH]; intros j u c Hu Hc Hi Hj; cbn [multiply_row].
  - split; [done|]. split; [done|]. split; [done|]. rewrite take_0, Nat.add_0_r. cbn [nval]. lia.
  - pose proof (multiply_step ai (dg b j) u (dg c (i + j)) Ha (dg_ok _ _ _ Hb) Hu (dg_ok _ _ _ Hc)) as Hs.
    destruct (MUL _ _) as [hi lo], (ADDC 0 lo u) as [c1 v], (ADDC 0 _ v) as [c2 v']. destruct Hs as (Hu2 & Hv & E).
    specialize (IH (S j) (u64 (u64 (hi + c1) + c2)) (<[(i + j)%nat := v']> c) Hu2 (digits_ok_insert _ _ _ _ Hc Hv) ltac:(lia) ltac:(lia)).
    destruct (multiply_row n ai b i (S j) _ _) as [u' c']. destruct IH as (Hu' & Hc' & Hrest & E'). split; [done|]. split; [done|]. split.
    + intros l Hl. rewrite Hrest by lia. unfold dg. by rewrite list_lookup_insert_ne by lia.
    + rewrite nval_insert in E' by (destruct Hc as [-> _]; lia). replace (i + j + S n)%nat with (i + S j + n)%nat by lia.
      destruct (lookup_lt_is_Some_2 b j ltac:(destruct Hb as [-> _]; lia)) as [x Hx]. rewrite (drop_S b x j Hx). cbn [take nval].
      unfold dg at 1 in E. rewrite Hx in E. cbn [default] in E. replace (64 * Z.of_nat (i + S j)) with (64 + 64 * Z.of_nat (i + j)) in E' by lia.
      rewrite Z.pow_add_r in E' by lia. change (id x) with x in E. lia.
Qed.

Lemma nval_take_S a i : (i < length a)%nat -> nval (take (S i) a) = nval (take i a) + 2 ^ (64 * Z.of_nat i) * dg a i.
Proof.
  intros Hi. destruct (lookup_lt_is_Some_2 a i Hi) as [x Hx]. rewrite (take_S_r a i x Hx), nval_app, length_take, Nat.min_l by lia.
  unfold dg. rewrite Hx. cbn. lia.
Qed.

Lemma multiply_rows_spec n a b m i c : digits_ok m a -> digits_ok 4 b -> digits_ok 8 c -> (i + n = 4)%nat -> (4 <= m)%nat ->
  (forall l, (4 + i <= l)%nat -> dg c l = 0) -> nval c = nval (take i a) * nval b ->
  digits_ok 8 (multiply_rows n a b i c) /\ nval (multiply_rows n a b i c) = nval (take 4 a) * nval b.
Proof.
  intros Ha Hb. revert i c. induction n as [|n IH]; intros i c Hc Hi Hm Hz E; cbn [multiply_rows]; change NWORDS_ORDER with 4%nat.
  - replace i with 4%nat in E by lia. done.
  - pose proof (multiply_row_spec 4 (dg a i) b 4 i 0 0 c 8 (dg_ok _ _ _ Ha) Hb ltac:(done) Hc ltac:(lia) ltac:(lia)) as H.
    destruct (multiply_row _ _ _ _ _ _ _) as [u c']. destruct H as (Hu & Hc' & Hrest & E'). apply IH; [|lia|done| |].
    + by apply digits_ok_insert.
    + intros l Hl. unfold dg. rewrite list_lookup_insert_ne by lia. fold (dg c' l). rewrite Hrest by lia. apply Hz. lia.
    + assert (dg c' (4 + i) = 0) as Hd by (rewrite Hrest by lia; apply Hz; lia).
      rewrite nval_insert, Hd by (destruct Hc' as [-> _]; lia). rewrite nval_take_S by (destruct Ha as [-> _]; lia).
      rewrite drop_0, take_ge in E' by (destruct Hb as [-> _]; lia). rewrite !Nat.add_0_r in E'.
      replace (4 + i)%nat with (i + 4)%nat by lia. rewrite E in E'. lia.
Qed.

Lemma multiply_spec m a b : digits_ok m a -> (4 <= m)%nat -> digits_ok 4 b ->
  digits_ok 8 (multiply a b) /\ nval (multiply a b) = nval (take 4 a) * nval b.
Proof.
  intros Ha Hm Hb. apply (multiply_rows_spec _ _ _ m); [done|done| |done|done| |done].
  - split; [done|]. by apply Forall_replicate.
  - intros l _. unfold dg. destruct (replicate _ _ !! l) as [x|] eqn:E; [|done]. by apply lookup_replicate_1 in E as [-> _].
Qed.

Lemma nval_split n a : nval a = nval (take n a) + 2 ^ (64 * Z.of_nat (length (take n a))) * nval (drop n a).
Proof. rewrite <- nval_app, take_drop. done. Qed.

Lemma digits_ok_take n m a : digits_ok m a -> (n <= m)%nat -> digits_ok n (take n a).
Proof. intros [H1 H2] Hn. split; [rewrite length_take; lia|by apply Forall_take]. Qed.

Lemma digits_ok_drop n m a : digits_ok (n + m) a -> digits_ok m (drop n a).
Proof. intros [H1 H2]. split; [rewrite length_drop; lia|by apply Forall_drop]. Qed.

(** The low and the high half of eight digits. *)
Lemma nval_halves a : digits_ok 8 a -> nval (take 4 a) = nval a mod 2 ^ 256 /\ nval (drop 4 a) = nval a / 2 ^ 256.
Proof.
  intros Ha. pose proof (nval_range _ _ (digits_ok_take 4 _ _ Ha ltac:(lia))) as H. pose proof (nval_split 4 a) as E.
  destruct (digits_ok_take 4 _ _ Ha ltac:(lia)) as [Hl _]. rewrite Hl in E. change (64 * Z.of_nat 4) with 256 in *. split.
  - apply (Z.mod_unique _ _ (nval (drop 4 a))); lia.
  - apply (Z.div_unique _ _ _ (nval (take 4 a))); lia.
Qed.

(** ** Modular arithmetic *)

Lemma order_ok : digits_ok 4 curve_order.
Proof. split; [done|]. repeat (apply Forall_cons_2; [done|]). apply Forall_nil_2. Qed.

Lemma Rprime_ok : digits_ok 4 Montgomery_Rprime.
Proof. split; [done|]. repeat (apply Forall_cons_2; [done|]). apply Forall_nil_2. Qed.

Lemma rprime_ok : digits_ok 4 Montgomery_rprime.
Proof. split; [done|]. repeat (apply Forall_cons_2; [done|]). apply Forall_nil_2. Qed.

Lemma one_ok : digits_ok 4 one_digits.
Proof. split; [done|]. repeat (apply Forall_cons_2; [done|]). apply Forall_nil_2. Qed.

Lemma order_range : 2 ^ 245 < order < 2 ^ 246.
Proof. done. Qed.

(** The order is added back when there was a borrow. *)
Lemma add_back c bout : digits_ok 4 c -> bout = 0 \/ bout = 1 -> 0 <= nval c - 2 ^ 256 * bout + order * bout < 2 ^ 256 ->
  digits_ok 4 (add c (masked_order (u64 (0 - bout))) 4).2 /\
  nval (add c (masked_order (u64 (0 - bout))) 4).2 = nval c - 2 ^ 256 * bout + order * bout.
Proof.
  intros Hc Hb Hr. assert (digits_ok 4 (masked_order (u64 (0 - bout))) /\ nval (masked_order (u64 (0 - bout))) = order * bout) as [Hm Em].
  { destruct Hb as [-> | ->]; split; try done; split; try done; repeat (apply Forall_cons_2; [done|]); apply Forall_nil_2. }
  destruct (add_spec 4 c _ Hc Hm) as (H1 & H2 & H3). split; [done|]. rewrite Em in H3. change (2 ^ (64 * Z.of_nat 4)) with (2 ^ 256) in H3.
  pose proof (nval_range _ _ H2) as Hn. change (2 ^ (64 * Z.of_nat 4)) with (2 ^ 256) in Hn. pose proof order_range. lia.
Qed.

Lemma subtract_mod_order_spec a b : digits_ok 4 a -> digits_ok 4 b -> - order <= nval a - nval b ->
  digits_ok 4 (subtract_mod_order a b) /\
  nval (subtract_mod_order a b) = nval a - nval b + (if nval a <? nval b then order else 0).
Proof.
  intros Ha Hb Hr. unfold subtract_mod_order. destruct (subtract_spec 4 a b Ha Hb) as (H1 & H2 & H3).
  change NWORDS_ORDER with 4%nat. destruct (subtract a b 4) as [bout c]. cbn [fst snd] in *. change (2 ^ (64 * Z.of_nat 4)) with (2 ^ 256) in H3.
  pose proof (nval_range _ _ H2) as Hn. change (2 ^ (64 * Z.of_nat 4)) with (2 ^ 256) in Hn. pose proof order_range.
  pose proof (nval_range _ _ Ha) as HA. pose proof (nval_range _ _ Hb) as HB. change (2 ^ (64 * Z.of_nat 4)) with (2 ^ 256) in HA, HB.
  assert (bout = 0 \/ bout = 1) as Hbout by lia.
  assert (0 <= nval c - 2 ^ 256 * bout + order * bout < 2 ^ 256) as Hrange by (destruct Hbout as [-> | ->]; lia).
  destruct (add_back c bout H2 Hbout Hrange) as [Hok E]. split; [exact Hok|]. rewrite E.
  destruct Hbout as [-> | ->], (Z.ltb_spec (nval a) (nval b)); lia.
Qed.

Lemma add_mod_order_spec a b : digits_ok 4 a -> digits_ok 4 b -> nval a < order -> nval b < order ->
  digits_ok 4 (add_mod_order a b) /\ nval (add_mod_order a b) = (nval a + nval b) mod order.
Proof.
  intros Ha Hb La Lb. unfold add_mod_order. change NWORDS_ORDER with 4%nat. destruct (add_spec 4 a b Ha Hb) as (H1 & H2 & H3).
  pose proof (nval_range _ _ Ha) as HA. pose proof (nval_range _ _ Hb) as HB. pose proof (nval_range _ _ H2) as HC.
  change (2 ^ (64 * Z.of_nat 4)) with (2 ^ 256) in *. pose proof order_range.
  destruct (subtract_mod_order_spec (add a b 4).2 curve_order H2 order_ok ltac:(change (nval curve_order) with order; lia)) as [Hok E]. split; [exact Hok|].
  rewrite E. change (nval curve_order) with order. replace (nval (add a b 4).2) with (nval a + nval b) by lia. destruct (Z.ltb_spec (nval a + nval b) order).
  - rewrite Z.mod_small by lia. lia.
  - apply (Z.mod_unique _ _ 1); lia.
Qed.

(** The constants of the reduction. *)
Lemma rprime_spec : (1 + nval Montgomery_rprime * order) mod 2 ^ 256 = 0.
Proof. vm_compute. reflexivity. Qed.

Lemma Rprime_spec : nval Montgomery_Rprime = 2 ^ 512 mod order.
Proof. vm_compute. reflexivity. Qed.

(** The sum is a multiple of 2^256. *)
Lemma montgomery_exact a b : 0 <= a < 2 ^ 256 -> 0 <= b < order ->
  exists t, a * b + (a * b) mod 2 ^ 256 * nval Montgomery_rprime mod 2 ^ 256 * order = t * 2 ^ 256 /\ 0 <= t < 2 * order.
Proof.
  intros Ha Hb. pose proof order_range. set (m := (a * b) mod 2 ^ 256 * nval Montgomery_rprime mod 2 ^ 256).
  assert (0 <= m < 2 ^ 256) as Hm by (apply Z.mod_pos_bound; lia).
  assert (exists t, a * b + m * order = t * 2 ^ 256) as [t Et].
  { pose proof rprime_spec as Hw. apply Z.mod_divide in Hw as [w Hw]; [|done]. subst m. revert Hw. generalize (nval Montgomery_rprime). intros r Hw.
    pose proof (Z.div_mod (a * b) (2 ^ 256) ltac:(lia)) as E1. set (lo := (a * b) mod 2 ^ 256) in *. set (q := a * b / 2 ^ 256) in *.
    pose proof (Z.div_mod (lo * r) (2 ^ 256) ltac:(lia)) as E2. exists (q + lo * w - (lo * r / 2 ^ 256) * order). rewrite E1.
    replace ((lo * r) mod 2 ^ 256) with (lo * r - 2 ^ 256 * (lo * r / 2 ^ 256)) by lia.
    transitivity (2 ^ 256 * q + lo * (1 + r * order) - 2 ^ 256 * (lo * r / 2 ^ 256) * order); [ring|]. rewrite Hw. ring. }
  exists t. split; [exact Et|]. assert (0 <= a * b < 2 ^ 256 * order) by nia. assert (0 <= m * order <= 2 ^ 256 * order) by nia. lia.
Qed.

Lemma montgomery_residue n m t k x : n + m * order = t * 2 ^ 256 -> x = t + k * order -> (x * 2 ^ 256) mod order = n mod order.
Proof.
  intros E ->. replace ((t + k * order) * 2 ^ 256) with (n + (m + k * 2 ^ 256) * order) by lia. apply Z_mod_plus_full.
Qed.

(** The product divided by 2^256 modulo the order, for a first factor of any
    size. *)
Lemma Montgomery_spec a b : digits_ok 4 a -> digits_ok 4 b -> nval b < order ->
  digits_ok 4 (Montgomery_multiply_mod_order a b) /\ nval (Montgomery_multiply_mod_order a b) < order /\
  (nval (Montgomery_multiply_mod_order a b) * 2 ^ 256) mod order = (nval a * nval b) mod order.
Proof.
  intros Ha Hb Lb. unfold Montgomery_multiply_mod_order. change NWORDS_ORDER with 4%nat. cbn [Nat.mul Nat.add].
  destruct (multiply_spec 4 a b Ha ltac:(lia) Hb) as [HP EP]. rewrite take_ge in EP by (destruct Ha as [-> _]; lia).
  destruct (multiply_spec 8 _ _ HP ltac:(lia) rprime_ok) as [HQ EQ]. destruct (multiply_spec 8 _ _ HQ ltac:(lia) order_ok) as [HT ET].
  rewrite (proj1 (nval_halves _ HP)) in EQ. rewrite (proj1 (nval_halves _ HQ)), EQ in ET. change (nval curve_order) with order in ET.
  destruct (add_spec 8 _ _ HP HT) as (H1 & H2 & H3). destruct (add _ _ 8) as [cout temp]. cbn [fst snd] in *.
  rewrite ET, EP in H3. change (2 ^ (64 * Z.of_nat 8)) with (2 ^ 512) in H3. destruct (nval_halves _ H2) as [_ Ehi].
  pose proof (nval_range _ _ Ha) as Ra. pose proof (nval_range _ _ Hb) as Rb. change (2 ^ (64 * Z.of_nat 4)) with (2 ^ 256) in *.
  pose proof order_range as Ro. destruct (montgomery_exact (nval a) (nval b) Ra ltac:(lia)) as (t & Et & Ht).
  assert (0 <= t * 2 ^ 256 < 2 ^ 512) as Ht2 by lia. rewrite Et in H3. pose proof (nval_range _ _ H2) as Rt. assert (cout = 0) as -> by lia.
  rewrite Z.mul_0_r, Z.add_0_r in H3. rewrite <- H3, Z.div_mul in Ehi by done.
  pose proof (digits_ok_drop 4 4 _ H2) as Hd. destruct (subtract_spec 4 _ _ Hd order_ok) as (K1 & K2 & K3).
  destruct (subtract _ _ 4) as [bout mc]. cbn [fst snd] in *. rewrite Ehi in K3. change (nval curve_order) with order in K3.
  change (2 ^ (64 * Z.of_nat 4)) with (2 ^ 256) in K3. pose proof (nval_range _ _ K2) as Rm. change (2 ^ (64 * Z.of_nat 4)) with (2 ^ 256) in Rm.
  assert (bout = 0 \/ bout = 1) as Hbout by lia.
  assert (0 <= nval mc - 2 ^ 256 * bout + order * bout < 2 ^ 256) as Hrange by (destruct Hbout as [-> | ->]; lia).
  destruct (add_back mc bout K2 Hbout Hrange) as [Hok E]. split; [exact Hok|]. rewrite E. split; [destruct Hbout as [-> | ->]; lia|].
  destruct Hbout as [-> | ->]; [apply (montgomery_residue _ _ t (-1) _ Et)|apply (montgomery_residue _ _ t 0 _ Et)]; lia.
Qed.

(** 2^256 can be cancelled. *)
Lemma cancel_R x y : (x * 2 ^ 256) mod order = (y * 2 ^ 256) mod order -> x mod order = y mod order.
Proof.
  intros H. pose proof rprime_spec as Hw. apply Z.mod_divide in Hw as [w Hw]; [|done].
  assert (forall z, z mod order = (z * 2 ^ 256 mod order * w) mod order) as Hz.
  { intros z. rewrite Z.mul_mod_idemp_l by done. replace (z * 2 ^ 256 * w) with (z + (z * nval Montgomery_rprime) * order); [by rewrite Z_mod_plus_full|].
    transitivity (z * (1 + nval Montgomery_rprime * order)); [ring|]. rewrite Hw. ring. }
  by rewrite (Hz x), (Hz y), H.
Qed.

Lemma to_Montgomery_spec a : digits_ok 4 a ->
  digits_ok 4 (to_Montgomery a) /\ nval (to_Montgomery a) < order /\ nval (to_Montgomery a) mod order = (nval a * 2 ^ 256) mod order.
Proof.
  intros Ha. destruct (Montgomery_spec a Montgomery_Rprime Ha Rprime_ok ltac:(done)) as (H1 & H2 & H3). split; [exact H1|]. split; [exact H2|].
  apply cancel_R. unfold to_Montgomery. rewrite H3, Rprime_spec, Z.mul_mod_idemp_r by done. f_equal. lia.
Qed.

Lemma from_Montgomery_spec a : digits_ok 4 a ->
  digits_ok 4 (from_Montgomery a) /\ nval (from_Montgomery a) < order /\ (nval (from_Montgomery a) * 2 ^ 256) mod order = nval a mod order.
Proof.
  intros Ha. destruct (Montgomery_spec a one_digits Ha one_ok ltac:(done)) as (H1 & H2 & H3). split; [exact H1|]. split; [exact H2|].
  unfold from_Montgomery. rewrite H3. f_equal. change (nval one_digits) with 1. lia.
Qed.

Lemma modulo_order_spec a : digits_ok 4 a -> digits_ok 4 (modulo_order a) /\ nval (modulo_order a) = nval a mod order.
Proof.
  intros Ha. destruct (to_Montgomery_spec a Ha) as (H1 & H2 & H3). destruct (from_Montgomery_spec _ H1) as (K1 & K2 & K3).
  unfold modulo_order. fold (to_Montgomery a). fold (from_Montgomery (to_Montgomery a)). split; [exact K1|]. rewrite H3 in K3. apply cancel_R in K3.
  pose proof (nval_range _ _ K1). by rewrite Z.mod_small in K3 by lia.
Qed.

(** The product of two numbers, through the Montgomery representation. *)
Lemma Montgomery_product a b : digits_ok 4 a -> digits_ok 4 b ->
  let s := from_Montgomery (Montgomery_multiply_mod_order (to_Montgomery a) (to_Montgomery b)) in
  digits_ok 4 s /\ nval s = (nval a * nval b) mod order.
Proof.
  intros Ha Hb. destruct (to_Montgomery_spec a Ha) as (A1 & A2 & A3). destruct (to_Montgomery_spec b Hb) as (B1 & B2 & B3).
  destruct (Montgomery_spec _ _ A1 B1 B2) as (M1 & M2 & M3). destruct (from_Montgomery_spec _ M1) as (S1 & S2 & S3). cbv zeta. split; [exact S1|].
  pose proof (nval_range _ _ S1). rewrite <- (Z.mod_small (nval (from_Montgomery _)) order) by lia. apply cancel_R, cancel_R.
  rewrite <- Z.mul_mod_idemp_l, S3, Z.mul_mod_idemp_l, M3 by done. rewrite Z.mul_mod, A3, B3, <- Z.mul_mod by done. f_equal. lia.
Qed.

(** ** Odd scalars *)

Lemma dg_0_odd n k : digits_ok (S n) k -> Z.land (dg k 0) 1 = nval k mod 2.
Proof.
  intros [Hl _]. destruct k as [|x k]; [done|]. change (dg (x :: k) 0) with x. change 1 with (Z.ones 1). rewrite Z.land_ones by done. cbn [nval].
  change (2 ^ 1) with 2. Z.div_mod_to_equations. lia.
Qed.

Lemma conversion_to_odd_spec k : digits_ok 4 k -> nval k < order ->
  digits_ok 4 (conversion_to_odd k) /\ nval (conversion_to_odd k) = nval k + (if Z.odd (nval k) then 0 else order) /\
  Z.odd (nval (conversion_to_odd k)) = true.
Proof.
  intros Hk Lk. unfold conversion_to_odd. rewrite (dg_0_odd 3 k Hk). pose proof (nval_range _ _ Hk) as Rk. rewrite Zmod_odd.
  set (mask := u64 _). pose proof order_range as Ro.
  assert (digits_ok 4 (masked_order mask) /\ nval (masked_order mask) = if Z.odd (nval k) then 0 else order) as [Hm Em].
  { subst mask. destruct (Z.odd (nval k)); split; try done; split; try done; repeat (apply Forall_cons_2; [done|]); apply Forall_nil_2. }
  destruct (add_spec 4 _ _ Hm Hk) as (H1 & H2 & H3). pose proof (nval_range _ _ H2) as R2. change (2 ^ (64 * Z.of_nat 4)) with (2 ^ 256) in *.
  rewrite Em in H3. change NWORDS_ORDER with 4%nat. destruct (add _ _ 4) as [c s]. cbn [fst snd] in *.
  assert (nval s = nval k + (if Z.odd (nval k) then 0 else order)) as -> by (destruct (Z.odd (nval k)); lia).
  split; [done|]. split; [done|]. destruct (Z.odd (nval k)) eqn:E; [by rewrite Z.add_0_r|]. rewrite Z.odd_add, E. done.
Qed.
