(* ===== verification/FourQTable.v ===== *)
(** * The table of multiples of the generator

    FourQ_tables.h of external/fourq, and that each of its entries is the
    multiple of the generator that [ecc_mul_fixed] takes it for. The check runs
    over a projective point of plain integers; its soundness is proved here. *)

From Stdlib Require Import Zmod Field.
From stdpp Require Import base list numbers.
From S2P Require Import Prelude FourQGroup FourQGf FourQField FourQCurve FourQOrder.

(** ** The table *)

Definition FIXED_BASE_TABLE : list point_precomp := [
  R5 (f2_words 0xe18a34f3a703e631 0x287460bf1d502b5f 0xe02e62f7e4f90353 0x0c3ba0378b86acde) (f2_words 0x90bf0f98b0937edc 0x740b7c7824f0c555 0xb321239123a01366 0x4ffcf5b93a9557a5)
     (f2_words 0x297afccbabda42bb 0x5948d137556c97c6 0xa8189a393330684c 0x0caf2b720a341f27);
  R5 (f2_words 0x3a8ba018fd188787 0x5546128188dd12a8 0xb0b3cc33c09f9b77 0x1baeeaf8b84d2049) (f2_words 0x006425a611faf900 0x18f7cd12e1a6f789 0x6dccf09a12556066 0x448e05eeace7b6eb)
     (f2_words 0xbf2f33689d2829b0 0x6d911dcb2957bdb4 0x9f2353dbdc3c03ee 0x06c54305babee501);
  R5 (f2_words 0x2eaf45713dafa125 0x72963058648a364d 0x61b7771f9d313ef2 0x4f41c7f8bfe2b069) (f2_words 0x408623ae599790ac 0x4d33858644330a42 0xfc5696649cdd7487 0x74df72e0e598e114)
     (f2_words 0xc9a06325913c110b 0x076bd4115fe4b0d8 0x76619e65d6bff3d9 0x249240147cee3a08);
  R5 (f2_words 0xd695b96148965a73 0x28aac8a28829f706 0x41f1c05329f7a57b 0x441ca9e89f03e00e) (f2_words 0xe1aa38ab8bf7241e 0x58f28cafc832b7f4 0xcadaf8b8fa5400c6 0x34b6d106284e863e)
     (f2_words 0xf5498cab3af15097 0x6dbe7790017d9c49 0x63bf76a81448e8bc 0x6371925bf23ae006);
  R5 (f2_words 0xc5e2c721bded81fa 0x4ede70eed68056ab 0x8f3cd9b5b4975810 0x4752fd192f0a9aa8) (f2_words 0x318794eb1f734414 0x11ddf7d2c8468662 0x2613b06f72b1a34e 0x465575b37ab06770)
     (f2_words 0x40b9845f82638d2b 0x48894050790298ce 0xbedb93a501b4f131 0x04f3560d2889b2fb);
  R5 (f2_words 0x457dd875115b278b 0x56f25ee54d92858a 0x92d4c1cdce0c977e 0x078fca4187d74996) (f2_words 0x3bbb2ded76cc22a1 0x117b28853ddc2bf6 0x43f3767cb9c2baa2 0x73079e25e0ea8a8f)
     (f2_words 0x0177992b5a15796d 0x2e77721480d9ef92 0xbe09883567372916 0x258f176b7af7576d);
  R5 (f2_words 0x308338fd6168391b 0x7285925f9a7353a4 0x862c0fd04fe85114 0x53259ee7423aeb51) (f2_words 0xfe0031a84b3b1a68 0x1a4f1d661fa071fc 0x2ddd54168dc928a7 0x60185c1adf196a6a)
     (f2_words 0x49809717dc6da9b4 0x6062094b4dcffc03 0xa41ea6fa05fa7e8d 0x4a4fe06f277148a0);
  R5 (f2_words 0x7bb253a9ee9e80f0 0x419a928bccb11733 0x84323be66a9a039e 0x01b2d1ae972814bb) (f2_words 0xa7588584d3051231 0x54df1e20cc979dd7 0x91d906fe3e2f22dd 0x4e36e9975fdf1a0f)
     (f2_words 0xd81871746b747634 0x3e5e31baeee13433 0xe4da80979573baa3 0x4b852ad97cfe77c6);
  R5 (f2_words 0xe08b346714418b9e 0x283d719b2fe6ef88 0xb7339d2de45c180b 0x75acfcef11d2d5c8) (f2_words 0x8f40777a8c561876 0x0c54ac40a7134c4b 0xb92e287d66baee08 0x6f357e5006a188bf)
     (f2_words 0xc5903319ed1e6971 0x747c45ef91dafd40 0xde4086a91d2f816e 0x5dcb27edb3b3ef7d);
  R5 (f2_words 0x43fdc46cfa1dd2ee 0x51551f9f70966498 0xb54534f761ed9bdc 0x453455b3073fb07f) (f2_words 0xf24773e383cab70b 0x679be25e758cf4df 0xda17edf2943eee29 0x3dc9e5b8d6dc0f66)
     (f2_words 0x56a50cba413fb75b 0x1e65315bc5a8537f 0x5ff90242802c7213 0x73c9d8c8f425252e);
  R5 (f2_words 0x3c637b8633198c8f 0x534f84b3ed414f33 0xad313e72dedd6902 0x5ed57e941cdf33af) (f2_words 0x5a6fe01d2a57306e 0x73b63dea344713f9 0x39cb70570f1c2bf3 0x2df8c6e49f1a18db)
     (f2_words 0x661bc349677797e4 0x501ae7cbbebe9062 0x5b52a88de8959643 0x0372752811c01d51);
  R5 (f2_words 0x010c57a2301bb928 0x378b317155554fc6 0xf883fa4229a02cf1 0x5f0047b850d7db29) (f2_words 0x4d247ae328402daa 0x0d030627a850a2bc 0xb4e65d9a88a443f5 0x6ec9686b2d6db089)
     (f2_words 0xde202e08fea1d987 0x5c64e1d3f28d7600 0x157d17bef661bfb7 0x56392d36dd75334c);
  R5 (f2_words 0xe25478d8bd19155c 0x146d4f2d3d336afd 0x9bfbe00bf94e15e8 0x2b185a9a6adf10c0) (f2_words 0x926527b3ed52ab7b 0x67997e1473101e80 0xb58f4ff4947cc541 0x36f800c7fac99a7a)
     (f2_words 0xd0302e32400456d9 0x4372e43640bc697b 0x9144cabb4750d898 0x75d25afac9a23cbf);
  R5 (f2_words 0x794591767655cbfe 0x74db216617fc4b07 0x7057b2242566d0c9 0x1d543b5908417b23) (f2_words 0x19c280b444428783 0x352309fd8b6cc3ef 0x37833d6ac068ae72 0x4ec0671a23c019f4)
     (f2_words 0x9d9836e1a3d05bb5 0x44fe1adff224efe3 0xa296bc3ce57efb4a 0x2efec86835a14150);
  R5 (f2_words 0x2fe19c09fb194bca 0x18cc07d3953cd206 0x5bdff217c9c0b9e0 0x671aa756581abcee) (f2_words 0xe1cc33ae28f7d1a2 0x1b6f254937a0a3fe 0x51503d1665babb83 0x74b95636d5889211)
     (f2_words 0xbdb97ae4ea96f869 0x1507ce189e2510bd 0x796e4d54fab93b13 0x6a81765f05960929);
  R5 (f2_words 0x2e940521e5a833ed 0x3bdea532b245f644 0xbea76975ffd52693 0x64b94848ba6d4ed6) (f2_words 0x9db52d0194e33ec7 0x71cf65da55639f25 0xede73b1fdb5a8138 0x12e4d13b6c62dc22)
     (f2_words 0x9d19b0c265185517 0x77a011d257b5fdd0 0x1fedc5caaecd84e4 0x46844e151e3492d1);
  R5 (f2_words 0x7a423a31904220df 0x5b3165c747e8f099 0x1c665eeadf35e22e 0x7802b556fc45595b) (f2_words 0x85a2def4015bd2de 0x17f2ab87957166ad 0x19cf6d352060c1e5 0x122a7ad1be408e6a)
     (f2_words 0x5b79bbc8645bf766 0x20fb009d4d0adacf 0x97526a272ba28538 0x7041b4e90d420bde);
  R5 (f2_words 0x3b30113358dab057 0x3d398b66f0d24243 0x91a5999a03cd4708 0x1eae2409cd938096) (f2_words 0x66dd6b604c36108c 0x1713083789081968 0x57cad6917125dcfd 0x34b06cb89704f1ca)
     (f2_words 0xdcafe8e71f35abf2 0x698331198d544db9 0x6287676643af075b 0x200950e5559d2b6d);
  R5 (f2_words 0xd4f63fc3ecdd9074 0x7473317142ac13a2 0x96b0030805319356 0x2c20ffe0244378ba) (f2_words 0x4889511ad26ac01a 0x4ee327219997fcf6 0x15ffe6e70f0bf8ea 0x6b617fb4a6d0a6d7)
     (f2_words 0x4916dca1c52f7324 0x3c8269f086468277 0xc24210c4c837e04b 0x4e480b4f915a542c);
  R5 (f2_words 0xc5fef3b09a7fe35e 0x31a501de44fd84b2 0x79f29e4940a407b9 0x0ba7e03ca5cce5ab) (f2_words 0xa7a8b2058a74d8ea 0x46f4c7810e26dadc 0x46171ace94a1128a 0x44db55025495a811)
     (f2_words 0x7f889e1a4bf18d5c 0x4d4f172a43f306b2 0x33a99766bb1cffad 0x6254775924d39aca);
  R5 (f2_words 0xd855230ec225136e 0x1c544dd078d9211d 0x12fe9969f63f63ba 0x069af1dc949dd382) (f2_words 0x305bcf40cfe5c256 0x63ae90924bbbb595 0xe451097793b7de06 0x09780cf39fc0043e)
     (f2_words 0x827af8e7eb798871 0x3ace8a6c77577a37 0x79df061332e055ba 0x561dc07aaacea92b);
  R5 (f2_words 0x7e4422d9820d2673 0x6b85df83e0af5348 0x1f151ac1ded8526b 0x35ead8e5157142bd) (f2_words 0x6da6ef6c33c79dd4 0x5f2ea04d2594fde4 0x91037d0cc027d5fa 0x53b5401007b0331b)
     (f2_words 0x810f198a3d4ba5a3 0x4463bd259ba94195 0x32b894acec2acf9e 0x78711761d64349ce);
  R5 (f2_words 0x253ae1b3f51fe211 0x409e4b3f535b6463 0x3a236d10da5e49de 0x19d2b1029c21336a) (f2_words 0x2835f40436aadd90 0x0942a31505190b19 0xc189131876828279 0x3afe96c3ca8e1f9c)
     (f2_words 0x9f1801b491230693 0x39e28db8625fd091 0x9fab50355dd44c8e 0x145155da729b280d);
  R5 (f2_words 0xd3ccf8101d4d76d5 0x5a0faa1a8c2b6c68 0x3cc66c84cb54ea8a 0x51052ce3f566c773) (f2_words 0x3bee14de65ae9ff5 0x7586118a01ccf024 0x089e791c896bf15e 0x35ff022d261d93d6)
     (f2_words 0xcd3ce13d8f7d1cf9 0x4f1de98f95b7b8f6 0x51e68a2462dc41b4 0x61ad9e3c23f6dd29);
  R5 (f2_words 0x584fea6480ebdb51 0x5d52fe073f9decf3 0x9afe483eadf336d5 0x1dfa03c980b1696a) (f2_words 0x55f73d47ff819a19 0x697bf55d361100ed 0xded4804446399419 0x618c94467fce259f)
     (f2_words 0xf2597ff1f08ef50c 0x07c935b98dd933c0 0xbb758cbc78ded5f6 0x1e9a0d06af13148f);
  R5 (f2_words 0x879ce1457f4cd4db 0x28396ca1962d4994 0xf5095a3dc57605c3 0x1e570f3da4c527b1) (f2_words 0x2af69a3904935787 0x591ee376fdd01cce 0xf77b58df88bc8633 0x5464d651b2f395d1)
     (f2_words 0xafbc096b1e9a86ae 0x6ce2df4bf65b6b28 0x3b3a828d2e9d3e08 0x6382011d8d2d66d0);
  R5 (f2_words 0x94987ca64d3d193d 0x50ddf70d3b6d56af 0x8d5df67cc8ad15a9 0x39208098bc5b1f92) (f2_words 0xce99f520dfd5a4fb 0x323bbc87b86a7ba9 0xe13f88a8d803c789 0x56ffdcbdf2200055)
     (f2_words 0x3aff0da31b24c72d 0x70011566460c0c16 0x76f7b7f53ac46a13 0x1c069bfeb7077bc2);
  R5 (f2_words 0x8f47193ca14a3c36 0x6d73e34af088de3d 0x634b2bd9317d6634 0x5b404738b77f1ec8) (f2_words 0xf34fabb71ca1cb1d 0x054abbcaca546a46 0xe8cdcadd08eda660 0x6971abbf958bdef1)
     (f2_words 0x41338557dddb4eaf 0x1e158585b079b67c 0xd2270474cfa26068 0x53b36d32b3cea469);
  R5 (f2_words 0x011523c16c543d08 0x4668e92c5f73314e 0xbaef3ebe4117acd1 0x04037d1aa713931a) (f2_words 0x68e118e4e390c68d 0x6b80cd55a44c1575 0x7307ea8a5729c032 0x5cc5475feee99ab2)
     (f2_words 0x34450e424c14ac75 0x3f09157e5db3dcd8 0x62ce2b1b50588052 0x27a899c54e652f8f);
  R5 (f2_words 0x0acd039f2fc2a5ed 0x4b4044ddd5813eec 0xc04d189e90a75958 0x242551bce71d33a1) (f2_words 0xd95af96b51f87f05 0x02988820f809d815 0xb27f65f73b9483c5 0x2ef60745f4364b43)
     (f2_words 0xcb66bdc93f4fb8b9 0x2b86c9b48756bb8a 0xf8ebdae09b9867a1 0x441e70184e6fe9aa);
  R5 (f2_words 0xfdc2530330cc1289 0x47d8d65a8b4d6992 0x8c03b6fa30ae74be 0x1ca8693cc3bd99d5) (f2_words 0x699eb1511018f2a6 0x3da04764d9f4fff5 0x361720433d3aab59 0x2fa911612cb857ff)
     (f2_words 0xa4057da10c2f1cac 0x48a219b933a5c619 0x42341020d15f0bc5 0x73f8895046a09dad);
  R5 (f2_words 0x1bad5312c67421b8 0x4194771b368e622e 0x8cc71a79e44e0dff 0x4b4564e45467f1c2) (f2_words 0x7759f16aafe52093 0x391b71dcd75fbea9 0x2a1c0694ab4ef798 0x023087545444130d)
     (f2_words 0x4b7ae1ffcfaa1aa1 0x64e26f32d73361e7 0x8da47038bd0b54b9 0x148cfa6feaecee15);
  R5 (f2_words 0x3756d4d479c2cc3d 0x25d44ea8d31543de 0xd82c8bef26bb2c43 0x2c2047033d27f37f) (f2_words 0x5bd33d9837dad260 0x77943117a3383b7d 0x12071d697ea583f2 0x3c7c41272a225bf2)
     (f2_words 0x92ebbdfaf1f03ad3 0x5d61030c68b63704 0xca6e2853baee75d1 0x12404b34771a3636);
  R5 (f2_words 0xbe13c46326667e4f 0x2bd261916f9be3b0 0x86e3f8cbadc80f89 0x74520d8a1794cb48) (f2_words 0x1e15c745024cf97e 0x5cee741e1e53eb02 0x8d088de0af99cda1 0x625812961cc0862c)
     (f2_words 0x4313437321c0e934 0x60bbc768c424f7a4 0xaba71fbf3c10e143 0x37b8ea9f14a915b8);
  R5 (f2_words 0x8d96ec65c40213ff 0x74a08828ff77845c 0xbedb7194daf607a3 0x17e86671161c8706) (f2_words 0xaceb98e0524059cf 0x68552ac494916f09 0x4cd2971baf1b3c47 0x68442ebcdde21b70)
     (f2_words 0x19629b8c0e867595 0x6a6955d3635fa47a 0x6fab45e0f2e393ad 0x66dd3ef4fcf050c4);
  R5 (f2_words 0xbb0b7abcfddc7df1 0x14eb5b751b0bcf9c 0x1cf79f9ca2fd411d 0x5c496f73fff0600a) (f2_words 0x49648d8555426d70 0x46c1016a2322d8a9 0xb57fdb870d9b6d4f 0x609eb65209ddb633)
     (f2_words 0xe70f9166bedc82c5 0x772fb5b5c8afaf27 0x79a294d9b0227a20 0x7f75b141112dbc8d);
  R5 (f2_words 0x98d1c7f88e070020 0x5953d0aac48217b1 0xe28253ebe15f33ff 0x267d1dc11e614c45) (f2_words 0xbe64f50ab99e2246 0x4eaaab5c82fe5495 0x927d5ac07e60bed0 0x67d3786de6aa1b4d)
     (f2_words 0xa71962bf0f6e2945 0x63d93844a35eea9b 0xb34228c7d26640ac 0x169c38d2eb28f5a1);
  R5 (f2_words 0x4b7972b33439dc22 0x71478457cdaa1e14 0x5226e125ec1d58c7 0x669d8796e78fd4f1) (f2_words 0x750dd1aaaa44a07f 0x327c62b55aebbecf 0x006b8e95b54fbd25 0x2ab3f95d01eb364e)
     (f2_words 0xfcbe5080c0d5e196 0x2a1b9bd75a57e725 0x1d2b2b6758139b5d 0x751cf4af849b7a73);
  R5 (f2_words 0x164a7d2e337d00a5 0x00cee3a4cb83a4bc 0x3498e0366dbe28f9 0x053d899148d28502) (f2_words 0x01665d64cab0fb69 0x4a99132208d68e74 0xba44bbd4bd3f915d 0x1d34b0f9172122bb)
     (f2_words 0x5d114dc729e8a9f3 0x08e7a43dd5334b60 0x28db8e9232f0f3e8 0x5cb7be1b80264f62);
  R5 (f2_words 0x9af2c78782508f23 0x336ae7ccf7e3a1b2 0x7fe2d4ee2dd194be 0x573d2e1b2b8a6872) (f2_words 0x3332ea3363b2ea36 0x200bc1375b1f4243 0x65c47c8c06b3260d 0x42021fca53995c5e)
     (f2_words 0x2f7e6cf49bb19946 0x311fba6a23196d2c 0xc30c13b62be0d70d 0x61eeac142711b0dc);
  R5 (f2_words 0x88526996597d35d4 0x70169bcbe6bd21d7 0xa0f1b2d0ad29a510 0x2ade531472c1b94d) (f2_words 0x11e320dc189873e7 0x2d2a1794e85cdb38 0xa0a8c453a6f621e3 0x4b06d5b54525f6f7)
     (f2_words 0xf42916691848ec1c 0x1d4216555d578730 0xf8c60da7290a5b4e 0x66dd9f39a1f3565f);
  R5 (f2_words 0x55ac29d937b474a0 0x4291967a4a369ee4 0x918dacaa12e6bc89 0x3d46e8900651c310) (f2_words 0xaf055430a00e90b1 0x16f62bf56da5ca39 0x1a021c33488c51e6 0x0d64dadf63fbbcd5)
     (f2_words 0x0918ece59dbfea7c 0x3b3319d7dd74203a 0x1d88545b8b9fa90c 0x13b792dc908c59e6);
  R5 (f2_words 0x0a2d939a9c3d0979 0x321a5dbeb74bf127 0x5e5947fff66d8470 0x22ec9ecafd26bc99) (f2_words 0xde17ca8293b10536 0x593f56c0559dd846 0x1148373375485023 0x23c6b0fdf7448b1c)
     (f2_words 0x377904458a27804f 0x573e91962726ea70 0x35e1b24f3235ac70 0x51ba082049f4f85e);
  R5 (f2_words 0x4bc4918160d47194 0x5d29a21e3308e1dd 0x7e15894b3e6e4e33 0x50dbbd2f4f31d0fb) (f2_words 0xef248bd235a9c9de 0x3418add21b634710 0x96c7233a52363bd2 0x7c8414ad9a08c99f)
     (f2_words 0xbc6acb4a54e6c05c 0x5729021a1193579a 0x0627c3e00b08fa1c 0x3d0b4ff9e17c2a73);
  R5 (f2_words 0xd507e8755990317f 0x75b27bb3bc7bfe48 0x44a80f2c6ce651f5 0x7b9795fc1b706e46) (f2_words 0x9de75bdefdf9a640 0x75ade50ababffaa8 0xce0ab116870889a0 0x6f3ddcfcdd59ec6c)
     (f2_words 0x6e36833588de0674 0x291d1129ea28a073 0xf8b8e53864884d61 0x706ef8f1ae854d76);
  R5 (f2_words 0x137a8c6583753069 0x01e45f1cc620f966 0xe28e1ff82f76c7ba 0x36d29eace3e89c54) (f2_words 0x83379f157f0b49cb 0x65e9c39e2bacb937 0x9b323c45070cda3e 0x16e02f31ab7e2de5)
     (f2_words 0x53bcf346635122b7 0x1fd7e207d6c2de09 0x3a5f5f94ea1e57ac 0x0cba06e8d0f0b4df);
  R5 (f2_words 0x70b440c387a9c392 0x1e7dc143dee1d800 0x5498ba6d7239912b 0x332870a017182d14) (f2_words 0x6be306fc672d794c 0x2c2ce211245b2b4e 0x109b722c8d2ba79f 0x268520fa9c5f727a)
     (f2_words 0x515b300524fe78ee 0x736201eccbaea698 0x4608ac113210bf78 0x32d8fd919c441843);
  R5 (f2_words 0xc9557e1b04b8f2d8 0x775437f798dc7459 0x1200f5585ba417f5 0x2e00ec5f3e7ad304) (f2_words 0xfc873d5f2b446288 0x32270a93624876e4 0xc646a47c08789b22 0x2370d9fe925616be)
     (f2_words 0x430afa3619e671c4 0x156468ceac1f5fb2 0x3b84dec2f2417635 0x31140e9017c0e58f);
  R5 (f2_words 0x5c85f88ccb7443fa 0x0da75f5d64d864ac 0x295ff44871b0fb84 0x1b79e10bad3336c3) (f2_words 0xffdf9942dd2977b3 0x4c1b198d0f9a1a23 0xba778a24c112864e 0x74f66897f26d48d0)
     (f2_words 0x3fd5c06e867ab611 0x4b98ce33ff7878b9 0xf7db4dce75cb9165 0x11665aa099ec5163);
  R5 (f2_words 0x2a498f16ae7118b9 0x265ec3dbb4eb509a 0x3da4230668ce2c86 0x36e62baab2e33385) (f2_words 0x99507d4a79ab4478 0x25bfb2fc411e8875 0xd7ac1ec933022ce1 0x23d341ae033d0466)
     (f2_words 0xd295b465e962bc00 0x23d0211ba2d73180 0xa03ccd7aff922d4d 0x1e767148de301514);
  R5 (f2_words 0xc241ab36a894efab 0x1c9fc2f343fc1e58 0xca3b96562bd27a87 0x53623e2285dd7015) (f2_words 0x557411f01c219420 0x19265577096b42f9 0xd3312d941b23592f 0x30a9a9a1c3c51c06)
     (f2_words 0x3d89b0b3ea6e8f79 0x7eab751dc5c77cb2 0xc0a9b186e6df6e36 0x4f844d583f155694);
  R5 (f2_words 0x419018232793dffa 0x2add440b6bd3854d 0xd55480f131df6e32 0x318ce3846ae3e417) (f2_words 0x0565062d1a0984f4 0x6ebaec63d2bff9f6 0x77075fe729e79790 0x0dd9434624c8a4e7)
     (f2_words 0xbf8f11e2dfa9b062 0x1b17d8255ee8b364 0x62c2150cf72c6344 0x28106880d081e8dc);
  R5 (f2_words 0xf4a4af0ddfec91c1 0x1a8f0e6c977e1f2e 0x72a7a3a738b9316f 0x323716728c4e22ec) (f2_words 0xc14069065ba4af3b 0x081514248911d367 0x51bd4afaa8b6c337 0x50e77a9b513400e7)
     (f2_words 0x46c0051b2a822548 0x024886e41a5edcfc 0xa06b0efa41cac17f 0x336a30b01b9c5675);
  R5 (f2_words 0x74fb2c10ca097626 0x2b204caa48e90981 0x6902c952b9a17b74 0x39c2e9b6b922303b) (f2_words 0xb9216b9b3c597419 0x6d92930264f15f76 0x7b1297d5eeae1427 0x0f0744adfe1bd307)
     (f2_words 0x33b57e265be6a89d 0x282fa2e533356c10 0x3a03995c61dc772c 0x4f5d8f5e893dcff5);
  R5 (f2_words 0x4bfc927efc48023f 0x596f2241d6a685ae 0x3cb3e0afec29b8a2 0x31018e0d10653842) (f2_words 0x2fd00fe944575626 0x1241d8704982e011 0x970d56664e6781a7 0x1b05f49d0f3de2ce)
     (f2_words 0xa994ffdf63717e66 0x416374a76ba88e98 0x8b082ced53f1579a 0x56781dfab5d2aa4b);
  R5 (f2_words 0x8151defd1865b318 0x64669b840d6081f7 0xe436f4bb5f38e14e 0x43d438410a974b40) (f2_words 0x5832ceb3d666be02 0x06347d9e1ae1828e 0x6979471b39e3ea86 0x2cf2cf61cb4b5ae4)
     (f2_words 0xb7ab29eada5a6ee4 0x12e75cb29aca5768 0xe65b1109d30d1ffc 0x71f9becd6b320e5a);
  R5 (f2_words 0xdc8289026647eed9 0x31d62d050ca5458f 0xea2bbf523a54c1e5 0x602bf0b9e3ee5491) (f2_words 0x25aa73622380ad4b 0x2b6b1e3271df5f58 0xdbc5efd86aa0470d 0x05353c24b8c4354b)
     (f2_words 0xa3c7db3cf5e06bca 0x288a1c8f2b4ea5f7 0xd6152f5e12ce7ca1 0x59d4c1b436673c7d);
  R5 (f2_words 0x1e02554e521fcb95 0x66d3980f240ad440 0xabf16f6b39a4d9d1 0x7fea351ca94c2f62) (f2_words 0x3d62b6f3389163ba 0x0fc6b44f2e7895ea 0xd5c64403cda7c669 0x2e4099090e603193)
     (f2_words 0x9b5c0faf15fa4c2f 0x46295c9d8e12b639 0x5ce4add63a5b331b 0x5fa7bd736c4c5879);
  R5 (f2_words 0x47b3471447d1aef2 0x28004c1c22325739 0xd588437d9a3c5299 0x2ab19c1812cd27e8) (f2_words 0x3ae700f680037802 0x1ad163800b422b36 0x45b7ef36fabc2139 0x44bcdeff21dcbd1d)
     (f2_words 0x41c6da2171e11c7b 0x2c35ee79f7c4cc14 0x4852942759c13849 0x6492d26f10be050a);
  R5 (f2_words 0xa6f54e988c50f0d9 0x6a2db2b6dd62181b 0xf7d9806b2a5e57a3 0x57526bdb3ba53d20) (f2_words 0x17ce6cb1f500e650 0x05d841b042f8f345 0xaa800a6c698de970 0x04f4b559abe2cb8e)
     (f2_words 0xc050dfd7259ce49d 0x213839bdf94db935 0xb371258655306204 0x7d323b8b19f9705a);
  R5 (f2_words 0x26d4502b16b6c618 0x79717069aa89595b 0xf867c0e36db41872 0x13d601d86c76e1d0) (f2_words 0x2dfc8b0d331b7383 0x185472f3e42e8075 0x05bd13e72b10eba0 0x519a387490f79b95)
     (f2_words 0x8d09c1b2d3ad2500 0x045da45d2cf0f733 0x640181956862426c 0x728d57f59bfe1b09);
  R5 (f2_words 0xf9a99f878da2c585 0x4fc4831e61dc4e10 0x6dc602cc54394fe0 0x0484566b67e9e8ae) (f2_words 0xc5fcf0474a93809b 0x71c0c23a58f3e2bb 0xb400fabe36fe6c43 0x614c2f3eaee4c0a7)
     (f2_words 0x7610a980d0e1c6c1 0x1ce8197c88885dcc 0xeade1c9f3ac2cb2b 0x471ad07baf2f341e);
  R5 (f2_words 0xd67a837c6b01121b 0x2a8e64281f59cb59 0x52e701e42f3262ca 0x19e0a27dece50580) (f2_words 0xb5691c17a7bda6ac 0x43484c311b9df1f2 0xa68155549bae49ea 0x43a2c5dda225fae5)
     (f2_words 0xfa5e992aed700eef 0x58911f5623918856 0x648b81a1e48c4da9 0x66e6e30cbdd0c3bd);
  R5 (f2_words 0xf3ba209c169d266b 0x20f7a86230447685 0xd1bb5aaa1a0c3d2e 0x366c29843d1111f1) (f2_words 0x06c78b642dcc9013 0x27484a64e109e3fb 0x8f8eacbca4677464 0x0b6cb31b1dc24cc1)
     (f2_words 0xdf69c84f898f0fa0 0x2dd426744920f2a2 0xc0912a197d4c5c69 0x489ade7f6a98d8d6);
  R5 (f2_words 0x458769f47f203e28 0x124f4123fc05ac97 0x3bb936f4ad6d7d67 0x330954fed4f00ff8) (f2_words 0xc2ce650046f90eaf 0x7bf94762d4f9debd 0x2e93172a586dfb83 0x3c7a6062b4113d96)
     (f2_words 0x5ddb0397147f0d93 0x08e3596fc6839034 0x374e67ff67639bfa 0x19021c2119888232);
  R5 (f2_words 0x002f5d04fdd55efa 0x05b4c6e079e1baa3 0xe5678ea3ad74c84c 0x1c42f7826a58a77d) (f2_words 0xe054668bd2cafacd 0x237668d3ede4261c 0xedf46a6374aebb32 0x31ec8c5931cf0ef4)
     (f2_words 0x955c2e95c35b5825 0x27d8b0ea68259603 0xb7a8976e427d1ec0 0x6b6cc5c07152bd13);
  R5 (f2_words 0x03d88f0ca0b244cd 0x001cae9a8cfed897 0xa844b3a1f693a7fd 0x676c9acb7abdec96) (f2_words 0x631b6bd5e0cdbd33 0x29f289dc0cddd9b8 0x0947d57536fb2eff 0x1eb2ce650e3eb059)
     (f2_words 0x2139b3a40e8bf405 0x4165edfb39f4ae8d 0xe061eda67a70d6a6 0x2e3cc0328c9084f6);
  R5 (f2_words 0x1ef8329ed056063f 0x6d4d01ce49e8b3d5 0x0110c92f1656d34b 0x6dad1c4e170829e0) (f2_words 0x584c56c590b477be 0x597e5f0ad525e935 0x6008264d8eb7d36d 0x3f586754999c829e)
     (f2_words 0x3d7ea89df5546a1d 0x41754f7d9a3f4364 0x3b0796822ef879a7 0x1ab2779598262872);
  R5 (f2_words 0xdc37c9f0bbef7923 0x256ec818ec35a097 0x4a72da5c09dd5846 0x51df6c61edcad45c) (f2_words 0xaef24fcdcf5ce819 0x0ba6bb959ae689f1 0xe667bd65a57b3a9e 0x71ffd591a28a8e4a)
     (f2_words 0x06c325fa53a7fadf 0x6667f2986b2dcf13 0x3ef751a6d52a09e4 0x517a104240b8c74a);
  R5 (f2_words 0xd08cddfd8c8183f5 0x59237cc71b8147f1 0xfff94fd188395933 0x538acc592d10ef67) (f2_words 0xac51ce386ff0eb1d 0x69d42b8114c5fe65 0xa17eda3995bfe8b9 0x5dc6d98fdf05a341)
     (f2_words 0xf2304d375ce8be78 0x31b58521ecc483ca 0x04d2d8140780222a 0x3dc18b2be3ed95c9);
  R5 (f2_words 0xa48e1639f2d70d2b 0x4ffd54a6bc0f38d0 0x8ae3c65ba6b7143b 0x482eb41f9178fa9d) (f2_words 0x240b8b4e87ad4f1d 0x6d8532420059eb40 0xc135f77e44275132 0x6261076a0daae349)
     (f2_words 0x35316bdb3842765c 0x246165ba3a8bfd92 0x1c2d774bd5177a75 0x045a2f991647e3b6);
  R5 (f2_words 0xed3b5923594671a8 0x0514fada5acd4db5 0xe8297fc358a0f50f 0x7cd2badcf2952a91) (f2_words 0x0da45130ea9ac266 0x26a0d43c1e14c979 0xbb62b729fe93a390 0x360357aff7f67ccb)
     (f2_words 0x3ad4835d1c7c59e8 0x570daffd86fa470b 0xd7c4be698fa3bd96 0x17e4bdec2ad76ffc);
  R5 (f2_words 0x43ce4ea9ead7dc51 0x58ba7ae0d64a518e 0xe014cc7e64680555 0x03abc953ce2630b8) (f2_words 0xa318620c7799be57 0x2b258fa2e84da952 0xdd88fdc5063b2ffd 0x17371dd79a3aa556)
     (f2_words 0x927b837578981299 0x554552101d90ab2d 0xb45306218ce54bd0 0x59109b65ffdb6235);
  R5 (f2_words 0x8663e0c4a180a515 0x41467fe41c6604f4 0xae2c1aa4dcb73878 0x19d3cb02c6c07517) (f2_words 0xaa147c97ea6745f1 0x70dac71a31cac43c 0xb9213ec26af87dfa 0x67f228e9f60e7b25)
     (f2_words 0xbfb59b8cf78df3df 0x36687792a4256fa3 0xe1be5c1f23177544 0x786a9e1b644b1c90);
  R5 (f2_words 0x4172f47393ca7f5b 0x62ae5bb4b8aaeb59 0xbcd9c431fa631b6f 0x1fbe20b2edc9cc6d) (f2_words 0x5fdd829fbc0ee085 0x241dd315adc5dd59 0xb4b688d625f7dbb6 0x595a82fee5bed2d4)
     (f2_words 0x69653ae0cc11880d 0x2b9e85fefc402f76 0xbb2495b507770a81 0x05d20c575fb34731);
  R5 (f2_words 0x9d9e623436485ab2 0x27012a9665f3febb 0x586cfef484c04ff7 0x44a5860cc0eabfbe) (f2_words 0x6fbfe6e2f3532e80 0x05abeabaaf3220fe 0x1bed21f2cb809678 0x2aa62112b7eafed2)
     (f2_words 0xe298837cf610190b 0x1ec8fbbcef9158f8 0x1efe9b3aa4f96f6b 0x6a3b842a068b0ef3);
  R5 (f2_words 0x92dd4b7cd7f827f7 0x605175bbf3fd1c97 0x139bb6419c1f6d98 0x3a3ab2e9978db310) (f2_words 0xc5c95941c9d5dd0b 0x34c6c76025b2bce0 0x0d44115a49bb8126 0x7622cbeb11daf619)
     (f2_words 0x785bff93164ef5ad 0x7191647d355cb45d 0x117f255c4cce6e5c 0x581b448b0e9aae3e);
  R5 (f2_words 0x54a4f3cb36225414 0x790180c539bc4685 0x47064043b7c6b96f 0x43cccf5b3a2c010b) (f2_words 0x1dfbf3afc14c3731 0x1c368f3195572574 0x00bc2ed3b5070b5a 0x0332d8dd63b37f60)
     (f2_words 0x0744b1908c9bd8f0 0x2d258e628dacb9ce 0xbba5b4bdb9c61e14 0x0bca12295a34e996);
  R5 (f2_words 0x059c84c66f2175d4 0x1a3bed438790be78 0xdf394f577dabb5b0 0x304777e63b3c33e4) (f2_words 0x59a29d4fe82c5a6a 0x72e421d1e88e77a4 0x69e6230313312959 0x2da03aad8cf2bbb8)
     (f2_words 0x2858d8608fecb0b6 0x343099e7a40243a6 0xba29b675d29a8f63 0x3d2028a4f6f15886);
  R5 (f2_words 0xf068e2d286047d0a 0x14999b5d6c770e20 0xd1874a592385da79 0x78aeb552c15a1cd9) (f2_words 0x482dcccc23e9c06e 0x7b18a19fb54b5745 0x036c896efe9a7a06 0x2f2c2ce0d1871c13)
     (f2_words 0x3b2d9b9ed65492c7 0x0649c7e50819d077 0xcdab66ea7b65e3cb 0x49b15b40c4aaf03f)
].
Definition no_point : point_precomp := R5 fp2zero1271 fp2zero1271 fp2zero1271.

(** ** The generator *)

Lemma generator_on_curve : on_curve curve_d (f2 GENERATOR_x) (f2 GENERATOR_y).
Proof. vm_compute. reflexivity. Qed.

Definition fq_G : fq_point := Point curve_d (f2 GENERATOR_x) (f2 GENERATOR_y) generator_on_curve.

(** ** Checking the table

    With integers reduced by folding, on projective coordinates. *)

Definition red (x : Z) : Z :=
  let y := Z.land x prime1271 + Z.shiftr x 127 in
  Z.land y prime1271 + Z.shiftr y 127.

Definition c_add (a b : f2elm) : f2elm := (a.1 + b.1, a.2 + b.2).
Definition c_sub (a b : f2elm) : f2elm := (a.1 - b.1, a.2 - b.2).
Definition c_mul (a b : f2elm) : f2elm :=
  let m0 := a.1 * b.1 in
  let m1 := a.2 * b.2 in
  (red (m0 - m1), red ((a.1 + a.2) * (b.1 + b.2) - m0 - m1)).
Definition c_sqr (a : f2elm) : f2elm := (red ((a.1 + a.2) * (a.1 - a.2)), red (2 * (a.1 * a.2))).
Definition c_eq (a b : f2elm) : bool :=
  let r0 := red (a.1 - b.1) in
  let r1 := red (a.2 - b.2) in
  ((r0 =? 0) || (r0 =? prime1271)) && ((r1 =? 0) || (r1 =? prime1271)).

Definition c_double (D : f2elm * f2elm * f2elm) : f2elm * f2elm * f2elm :=
  let '(X, Y, Z) := D in
  let xx := c_sqr X in
  let yy := c_sqr Y in
  let t1 := c_sub yy xx in
  let tb := c_add yy xx in
  let ta := c_sub (c_sqr (c_add X Y)) tb in
  let zz := c_sqr Z in
  let t2 := c_sub (c_add zz zz) t1 in
  (c_mul ta t2, c_mul tb t1, c_mul t1 t2).

(** The sum of an entry and a projective point. *)
Definition c_madd (S : point_precomp) (D : f2elm * f2elm * f2elm) : f2elm * f2elm * f2elm :=
  let '(X, Y, Z) := D in
  let u := c_mul (s_xy S) (c_add X Y) in
  let v := c_mul (s_yx S) (c_sub Y X) in
  let zz := c_mul Z Z in
  let t := c_mul (c_mul X Y) (s_t2 S) in
  let g := c_add (c_add zz zz) t in
  let f := c_sub (c_add zz zz) t in
  (c_mul (c_mul (c_sub u v) f) Z, c_mul (c_mul (c_add u v) g) Z, c_mul f g).

Definition felm_okb (a : felm) : bool := (0 <=? a) && (a <? 2 ^ 127).
Definition f2_okb (a : f2elm) : bool := felm_okb a.1 && felm_okb a.2.

(** An entry against a projective point. *)
Definition c_entry (S : point_precomp) (D : f2elm * f2elm * f2elm) : bool :=
  let '(X, Y, Z) := D in
  f2_okb (s_xy S) && f2_okb (s_yx S) && f2_okb (s_t2 S) &&
  c_eq (c_mul (s_xy S) Z) (c_add X Y) && c_eq (c_mul (s_yx S) Z) (c_sub Y X) &&
  c_eq (c_add (s_t2 S) (s_t2 S)) (c_mul PARAMETER_d (c_sub (c_sqr (s_xy S)) (c_sqr (s_yx S)))).

(** The points 2^0 G, ..., 2^(n-1) G. *)
Fixpoint doublings (n : nat) (D : f2elm * f2elm * f2elm) : list (f2elm * f2elm * f2elm) :=
  match n with O => [] | S n => D :: doublings n (c_double D) end.

Definition entry_at (n : nat) : point_precomp := nth n FIXED_BASE_TABLE no_point.

(** Entry [16 j] is 2^(10 j) G; entry [16 j + u] is entry [16 j + u - 2^b], for
    the highest bit b of u, and 2^(50 (b + 1) + 10 j) G. *)
Definition table_step_b (d : nat -> f2elm * f2elm * f2elm) (j u : nat) : bool :=
  match u with
  | O => c_entry (entry_at (16 * j)) (d (10 * j)%nat)
  | S _ =>
      let b := Nat.log2 u in
      c_entry (entry_at (16 * j + u)) (c_madd (entry_at (16 * j + (u - 2 ^ b))) (d (50 * S b + 10 * j)%nat))
  end.

Definition grid_b (f : nat -> nat -> bool) : bool := forallb (fun j => forallb (f j) (seq 0 16)) (seq 0 5).

Definition generator_c : f2elm * f2elm * f2elm := (GENERATOR_x, GENERATOR_y, fp2one).

Definition table_b : bool :=
  let ds := doublings 241 generator_c in
  grid_b (table_step_b (fun n => nth n ds generator_c)).

Lemma table_b_true : table_b = true.
Proof. vm_compute. reflexivity. Qed.

(** ** The check is sound *)

Lemma red_fe x : fe (red x) = fe x.
Proof.
  assert (forall y, fe (Z.land y prime1271 + Z.shiftr y 127) = fe y) as H; [|unfold red; cbv zeta; by rewrite !H].
  intros y. rewrite land_prime, Z.shiftr_div_pow2 by done. apply (fe_eq _ _ (- (y / 2 ^ 127))). rewrite (Z.div_mod y (2 ^ 127)) at 3 by lia.
  assert (prime1271 = 2 ^ 127 - 1) by done. lia.
Qed.

Add Field gf_field_table : (Zmod.field_theory prime1271 prime1271_prime).

Lemma fe_mul a b : fe (a * b) = Zmod.mul (fe a) (fe b).
Proof. apply Zmod.of_Z_mul. Qed.
Lemma fe_add a b : fe (a + b) = Zmod.add (fe a) (fe b).
Proof. apply Zmod.of_Z_add. Qed.
Lemma fe_sub a b : fe (a - b) = Zmod.sub (fe a) (fe b).
Proof. apply Zmod.of_Z_sub. Qed.

Lemma f2_add a b : f2 (c_add a b) = gf2_add (f2 a) (f2 b).
Proof. unfold f2, c_add, gf2_add. cbn [fst snd]. by rewrite !fe_add. Qed.
Lemma f2_sub a b : f2 (c_sub a b) = gf2_sub (f2 a) (f2 b).
Proof. unfold f2, c_sub, gf2_sub. cbn [fst snd]. by rewrite !fe_sub. Qed.
Lemma f2_mul a b : f2 (c_mul a b) = gf2_mul (f2 a) (f2 b).
Proof.
  unfold f2, c_mul, gf2_mul. cbv zeta. cbn [fst snd]. rewrite !red_fe, !fe_sub, !fe_mul, !fe_add. f_equal. ring.
Qed.
Lemma f2_sqr a : f2 (c_sqr a) = gf2_mul (f2 a) (f2 a).
Proof.
  unfold f2, c_sqr, gf2_mul. cbn [fst snd]. rewrite !red_fe. replace (2 * (a.1 * a.2)) with (a.1 * a.2 + a.1 * a.2) by lia.
  rewrite !fe_add, !fe_mul, fe_add, fe_sub. f_equal; ring.
Qed.
Lemma f2_eq a b : c_eq a b = true -> f2 a = f2 b.
Proof.
  assert (forall x y, ((red (x - y) =? 0) || (red (x - y) =? prime1271)) = true -> fe x = fe y) as H.
  { intros x y E. transitivity (Zmod.add (fe (x - y)) (fe y)); [rewrite fe_sub; ring|]. rewrite <- (red_fe (x - y)).
    apply orb_true_iff in E as [->%Z.eqb_eq | ->%Z.eqb_eq]; rewrite <- fe_add; [done|]. apply (fe_eq _ _ 1). lia. }
  unfold c_eq, f2. cbv zeta. intros [H0 H1]%andb_true_iff. f_equal; by apply H.
Qed.

Lemma f2_okb_rep a : f2_okb a = true -> rep a (f2 a).
Proof.
  assert (forall x, felm_okb x = true -> rep1 x (fe x)) as H.
  { intros x [H0%Z.leb_le H1%Z.ltb_lt]%andb_true_iff. apply rep1_of_Z. unfold felm_ok. lia. }
  intros [H0 H1]%andb_true_iff. split; by apply H.
Qed.

Lemma rep_f2 a v : rep a v -> f2 a = v.
Proof. intros [[_ H0] [_ H1]]. by apply injective_projections. Qed.

#[local] Opaque gf2_add gf2_mul gf2_sub gf2_div gf2_opp gf2_inv gf2_zero gf2_one.
Add Field gf2_field_table : gf2_field_theory.

Section formulas.
Local Infix "+" := gf2_add.
Local Infix "*" := gf2_mul.
Local Infix "-" := gf2_sub.
Local Notation "1" := gf2_one.

(** A projective point stands for a point of the curve. *)
Definition is_c (D : f2elm * f2elm * f2elm) (p : fq_point) : Prop :=
  let '(X, Y, Z) := D in
  f2 Z <> gf2_zero /\ f2 X = gf2_mul (px _ p) (f2 Z) /\ f2 Y = gf2_mul (py _ p) (f2 Z).

Lemma c_double_spec D p : is_c D p -> is_c (c_double D) (fq_add p p).
Proof.
  destruct D as [[X Y] Z]. intros (Hz & Hx & Hy). pose proof (fq_plus p p) as Hp. pose proof (fq_minus p p) as Hm. pose proof (fq_on_curve p) as Hc.
  unfold is_c, c_double. rewrite fq_add_x, fq_add_y. rewrite !f2_mul, !f2_sub, !f2_add, !f2_sqr, !f2_add, Hx, Hy.
  clear Hx Hy. revert Hz Hp Hm Hc. generalize (px _ p) (py _ p) (f2 Z). intros x y z Hz Hp Hm Hc.
  replace (1 + curve_d * x * x * y * y) with (y * y - x * x) in * by (rewrite Hc; ring).
  replace (1 - curve_d * x * x * y * y) with (1 + 1 - (y * y - x * x)) in * by (rewrite Hc; ring).
  replace ((y * z * (y * z) - x * z * (x * z)) * (z * z + z * z - (y * z * (y * z) - x * z * (x * z))))
    with ((y * y - x * x) * (1 + 1 - (y * y - x * x)) * (z * z * (z * z))) by ring.
  split; [nonzero|]. split; by field.
Qed.

Lemma c_madd_spec S D p q : is_r5 S q -> is_c D p -> is_c (c_madd S D) (fq_add p q).
Proof.
  destruct D as [[X Y] Z]. intros (Kxy%rep_f2 & Kyx%rep_f2 & Kt%rep_f2) (Hz & Hx & Hy).
  pose proof (fq_plus p q) as Hp. pose proof (fq_minus p q) as Hm. pose proof gf2_two as H2.
  unfold is_c, c_madd. rewrite fq_add_x, fq_add_y. rewrite !f2_mul, !f2_sub, !f2_add, !f2_mul, !f2_sub, !f2_add, Hx, Hy, Kxy, Kyx, Kt.
  clear Hx Hy Kxy Kyx Kt. revert Hz Hp Hm. generalize (px _ p) (py _ p) (px _ q) (py _ q) (f2 Z). intros x1 y1 x2 y2 z Hz Hp Hm.
  match goal with |- ?f <> _ /\ _ =>
    replace f with ((1 + 1) * (1 + 1) * ((1 + curve_d * x1 * x2 * y1 * y2) * (1 - curve_d * x1 * x2 * y1 * y2)) * (z * z * (z * z))) by ring end.
  split; [nonzero|]. split; by field.
Qed.

Lemma c_entry_spec S D p : c_entry S D = true -> is_c D p -> is_r5 S p.
Proof.
  destruct D as [[X Y] Z]. unfold c_entry. rewrite !andb_true_iff. intros (((((O1 & O2) & O3) & E1) & E2) & E3) (Hz & Hx & Hy).
  apply f2_okb_rep in O1, O2, O3. apply f2_eq in E1, E2, E3. rewrite f2_mul, f2_add, Hx, Hy in E1. rewrite f2_mul, f2_sub, Hx, Hy in E2.
  assert (f2 (s_xy S) = px _ p + py _ p) as K1.
  { apply (cancel_l (F := gf2) (Fld := gf2_ops) (f2 Z)); [done|]. transitivity (f2 (s_xy S) * f2 Z); [cbn [f_mul gf2_ops]; ring|]. rewrite E1. cbn [f_mul gf2_ops]. ring. }
  assert (f2 (s_yx S) = py _ p - px _ p) as K2.
  { apply (cancel_l (F := gf2) (Fld := gf2_ops) (f2 Z)); [done|]. transitivity (f2 (s_yx S) * f2 Z); [cbn [f_mul gf2_ops]; ring|]. rewrite E2. cbn [f_mul gf2_ops]. ring. }
  rewrite f2_add, f2_mul, f2_sub, !f2_sqr, K1, K2 in E3. change (f2 PARAMETER_d) with curve_d in E3.
  split; [by rewrite <- K1|]. split; [by rewrite <- K2|]. eapply rep_eq; [exact O3|]. apply gf2_halve. rewrite E3. ring.
Qed.

End formulas.

#[local] Opaque c_double c_entry c_madd entry_at.

Lemma is_c_iter n : is_c (Nat.iter n c_double generator_c) (fq_mul (2 ^ Z.of_nat n)%Z fq_G).
Proof.
  induction n as [|n IH].
  - split; [exact gf2_one_nonzero|]. change (f2 fp2one) with gf2_one. rewrite (smul_1 curve_d curve_i). cbn [px py fq_G]. split; ring.
  - apply c_double_spec in IH. rewrite <- (smul_add curve_d curve_i) in IH.
    replace (2 ^ Z.of_nat (S n))%Z with (2 ^ Z.of_nat n + 2 ^ Z.of_nat n)%Z; [exact IH|]. rewrite Nat2Z.inj_succ, Z.pow_succ_r by lia. lia.
Qed.

Lemma doublings_nth n m D D0 : (n < m)%nat -> nth n (doublings m D) D0 = Nat.iter n c_double D.
Proof.
  revert n D. induction m as [|m IH]; intros n D Hn; [lia|]. destruct n as [|n]; [done|]. cbn [doublings nth].
  rewrite IH by lia. symmetry. apply Nat.iter_succ_r.
Qed.

(** The multiple an entry of the first sub-table stands for: one and the powers
    2^50, ..., 2^200 of the bits of its index. *)
Definition comb_weight (u : nat) : Z :=
  1 + fold_right (fun b s => Z.b2z (Nat.testbit u b) * 2 ^ (50 * Z.of_nat (S b)) + s)%Z 0%Z (seq 0 4).

Lemma comb_weight_step u : (0 < u < 16)%nat -> comb_weight u = (comb_weight (u - 2 ^ Nat.log2 u) + 2 ^ (50 * Z.of_nat (S (Nat.log2 u))))%Z.
Proof. intros Hu. do 16 (destruct u as [|u]; [first [lia | vm_compute; reflexivity]|]). lia. Qed.

Lemma grid_b_spec f j u : grid_b f = true -> (j < 5)%nat -> (u < 16)%nat -> f j u = true.
Proof.
  unfold grid_b. rewrite forallb_forall. intros H Hj Hu. specialize (H j ltac:(apply in_seq; lia)). rewrite forallb_forall in H.
  apply H, in_seq. lia.
Qed.

Lemma table_step_ext d d' j u : (j < 5)%nat -> (u < 16)%nat -> (forall n, (n < 241)%nat -> d n = d' n) -> table_step_b d j u = table_step_b d' j u.
Proof.
  intros Hj Hu Hd. destruct u as [|u]; cbn [table_step_b]; [by rewrite Hd by lia|].
  assert (Nat.log2 (S u) < 4)%nat by (apply Nat.log2_lt_pow2; cbn [Nat.pow]; lia). cbv zeta. by rewrite Hd by lia.
Qed.

Lemma table_b_step j u : (j < 5)%nat -> (u < 16)%nat -> table_step_b (fun n => Nat.iter n c_double generator_c) j u = true.
Proof.
  intros Hj Hu. rewrite <- (table_step_ext (fun n => nth n (doublings 241 generator_c) generator_c)) by (auto using doublings_nth).
  exact (grid_b_spec _ j u table_b_true Hj Hu).
Qed.

(** Every entry of the table. *)
Theorem table_entry j u : (j < 5)%nat -> (u < 16)%nat -> is_r5 (entry_at (16 * j + u)) (fq_mul (2 ^ (10 * Z.of_nat j) * comb_weight u)%Z fq_G).
Proof.
  intros Hj. induction u as [u IH] using lt_wf_ind. intros Hu. pose proof (table_b_step j u Hj Hu) as H. destruct u as [|v].
  - cbn [table_step_b] in H. rewrite Nat.add_0_r. eapply c_entry_spec; [exact H|]. change (comb_weight 0) with 1%Z. rewrite Z.mul_1_r.
    replace (10 * Z.of_nat j)%Z with (Z.of_nat (10 * j)) by lia. apply is_c_iter.
  - cbn [table_step_b] in H. cbv zeta in H. set (u := S v) in *. assert (0 < u)%nat by lia. clearbody u. assert (2 ^ Nat.log2 u <= u)%nat by (apply Nat.log2_spec; lia). assert (0 < 2 ^ Nat.log2 u)%nat by (apply Nat.neq_0_lt_0, Nat.pow_nonzero; lia).
    pose proof (c_entry_spec _ _ _ H (c_madd_spec _ _ _ _ (IH (u - 2 ^ Nat.log2 u)%nat ltac:(lia) ltac:(lia)) (is_c_iter _))) as K.
    rewrite <- (smul_add curve_d curve_i) in K. rewrite comb_weight_step by lia. rewrite Z.mul_add_distr_l, <- Z.pow_add_r, Z.add_comm by lia.
    replace (10 * Z.of_nat j + 50 * Z.of_nat (S (Nat.log2 u)))%Z with (Z.of_nat (50 * S (Nat.log2 u) + 10 * j)) by lia. exact K.
Qed.

Lemma table_length : length FIXED_BASE_TABLE = 80%nat.
Proof. reflexivity. Qed.

(** ** The order of the generator

    Its multiple by the order, in signed digits for the table: for each power of
    two from 2^9 down, (sub-table, sign, index of the entry). *)

Definition order_rows : list (list (nat * bool * nat)) := [
  [(4, true, 4); (3, false, 3); (2, true, 7); (1, true, 1); (0, true, 12)];
  [(4, true, 0); (3, false, 4); (2, false, 4); (1, false, 15); (0, false, 0)];
  [(4, false, 1); (3, false, 10); (2, false, 0); (1, true, 13); (0, false, 1)];
  [(4, false, 6); (3, false, 10); (2, false, 7); (1, true, 9); (0, true, 5)];
  [(4, true, 12); (3, false, 10); (2, true, 7); (1, false, 9); (0, true, 5)];
  [(4, false, 4); (3, true, 11); (2, true, 8); (1, true, 4); (0, true, 15)];
  [(4, true, 8); (3, true, 2); (2, true, 13); (1, false, 15); (0, false, 10)];
  [(4, false, 4); (3, true, 4); (2, false, 13); (1, false, 7); (0, false, 3)];
  [(4, true, 10); (3, false, 9); (2, true, 5); (1, false, 13); (0, true, 12)];
  [(4, false, 0); (3, true, 15); (2, true, 8); (1, true, 9); (0, true, 6)]]%nat.

Definition signed_entry (d : nat * bool * nat) : point_precomp :=
  let '(j, s, u) := d in
  if s then entry_at (16 * j + u) else eccneg_precomp (entry_at (16 * j + u)).

Definition signed_weight (d : nat * bool * nat) : Z :=
  let '(j, s, u) := d in
  (if s then 1 else -1) * (2 ^ (10 * Z.of_nat j) * comb_weight u).

Definition c_rows (rows : list (list (nat * bool * nat))) (D : f2elm * f2elm * f2elm) : f2elm * f2elm * f2elm :=
  fold_left (fun D row => fold_left (fun D d => c_madd (signed_entry d) D) row (c_double D)) rows D.

Definition z_rows (rows : list (list (nat * bool * nat))) (n : Z) : Z :=
  fold_left (fun n row => fold_left (fun n d => n + signed_weight d) row (n + n)) rows n.

Definition in_table_b (d : nat * bool * nat) : bool := let '(j, _, u) := d in (j <? 5)%nat && (u <? 16)%nat.

Lemma signed_entry_spec d : in_table_b d = true -> is_r5 (signed_entry d) (fq_mul (signed_weight d) fq_G).
Proof.
  destruct d as [[j s] u]. intros [Hj%Nat.ltb_lt Hu%Nat.ltb_lt]%andb_true_iff. pose proof (table_entry j u Hj Hu) as H.
  unfold signed_entry, signed_weight. destruct s.
  - rewrite Z.mul_1_l. exact H.
  - replace (-1 * (2 ^ (10 * Z.of_nat j) * comb_weight u)) with (- (2 ^ (10 * Z.of_nat j) * comb_weight u)) by lia.
    rewrite (smul_opp curve_d curve_i). exact (eccneg_precomp_spec _ _ H).
Qed.

Lemma c_row_spec row D n : forallb in_table_b row = true -> is_c D (fq_mul n fq_G) ->
  is_c (fold_left (fun D d => c_madd (signed_entry d) D) row D) (fq_mul (fold_left (fun n d => n + signed_weight d) row n) fq_G).
Proof.
  revert D n. induction row as [|d row IH]; intros D n; [done|]. cbn [forallb fold_left]. intros [Hd Hrow]%andb_true_iff HD.
  apply IH; [done|]. rewrite (smul_add curve_d curve_i). exact (c_madd_spec _ _ _ _ (signed_entry_spec d Hd) HD).
Qed.

Lemma c_rows_spec rows D n : forallb (forallb in_table_b) rows = true -> is_c D (fq_mul n fq_G) -> is_c (c_rows rows D) (fq_mul (z_rows rows n) fq_G).
Proof.
  unfold c_rows, z_rows. revert D n. induction rows as [|row rows IH]; intros D n; [done|]. cbn [forallb fold_left]. intros [Hr Hrows]%andb_true_iff HD.
  apply IH; [done|]. apply c_row_spec; [done|]. rewrite (smul_add curve_d curve_i). exact (c_double_spec _ _ HD).
Qed.

Definition zero_c : f2elm * f2elm * f2elm := (fp2zero1271, fp2one, fp2one).

Lemma zero_c_spec : is_c zero_c (fq_mul 0 fq_G).
Proof.
  rewrite (smul_0 curve_d). unfold is_c, zero_c. change (f2 fp2one) with gf2_one. change (f2 fp2zero1271) with gf2_zero.
  change (px curve_d fq_zero) with gf2_zero. change (py curve_d fq_zero) with gf2_one. split; [exact gf2_one_nonzero|]. split; ring.
Qed.

Definition is_zero_b (D : f2elm * f2elm * f2elm) : bool := let '(X, Y, Z) := D in c_eq X fp2zero1271 && c_eq Y Z.

Lemma is_zero_spec D p : is_zero_b D = true -> is_c D p -> p = fq_zero.
Proof.
  destruct D as [[X Y] Z]. intros [E1%f2_eq E2%f2_eq]%andb_true_iff (Hz & Hx & Hy). rewrite E1 in Hx. rewrite E2 in Hy.
  change (f2 fp2zero1271) with gf2_zero in Hx.
  apply point_eq.
  - change (px curve_d fq_zero) with gf2_zero. apply (cancel_l (F := gf2) (Fld := gf2_ops) (f2 Z)); [done|].
    transitivity (gf2_mul (px _ p) (f2 Z)); [cbn [f_mul gf2_ops]; ring|]. rewrite <- Hx. cbn [f_mul gf2_ops]. ring.
  - change (py curve_d fq_zero) with gf2_one. apply (cancel_l (F := gf2) (Fld := gf2_ops) (f2 Z)); [done|].
    transitivity (gf2_mul (py _ p) (f2 Z)); [cbn [f_mul gf2_ops]; ring|]. rewrite <- Hy. cbn [f_mul gf2_ops]. ring.
Qed.

Lemma order_rows_zero : is_zero_b (c_rows order_rows zero_c) = true.
Proof. vm_compute. reflexivity. Qed.

Lemma order_rows_value : z_rows order_rows 0 = order.
Proof. vm_compute. reflexivity. Qed.

Lemma generator_order : fq_mul order fq_G = fq_zero.
Proof.
  rewrite <- order_rows_value. apply (is_zero_spec (c_rows order_rows zero_c)); [exact order_rows_zero|].
  apply c_rows_spec; [vm_compute; reflexivity|exact zero_c_spec].
Qed.
