(* ===== verification/FourQFixed.v ===== *)
(** * Multiples of the generator

    [ecc_mul_fixed] of eccp2_core.c with [mLSB_set_recode], the look-up of
    table_lookup.h without vector instructions and the table of FourQ_tables.h:
    it computes the multiple of the generator for every 256-bit scalar. *)

From Stdlib Require Import Zmod.
From stdpp Require Import base list numbers.
From S2P Require Import Prelude FourQGroup FourQGf FourQField FourQCurve FourQOrder FourQTable.

(** ** Parameters *)

Definition W_FIXEDBASE : nat := 5.
Definition V_FIXEDBASE : nat := 5.
Definition E_FIXEDBASE : nat := 10.
Definition D_FIXEDBASE : nat := 50.
Definition L_FIXEDBASE : nat := 250.
Definition VPOINTS_FIXEDBASE : nat := 16.

(** ** Recoding *)

(** A shift of the scalar to the right by one bit. *)
Definition shift_right (scalar : digits_t) : digits_t :=
  map (fun j => SHIFTR (dg scalar (S j)) (dg scalar j) 1) (seq 0 3) ++ [Z.shiftr (dg scalar 3) 1].

(** [for (j = 1; ...)] of the addition of a carry to the scalar. *)
Fixpoint carry_loop (n j : nat) (carry : Z) (scalar : digits_t) : digits_t :=
  match n with
  | O => scalar
  | S n =>
      let s := u64 (dg scalar j + carry) in
      carry_loop n (S j) (Z.land carry (is_digit_zero_ct s)) (<[j := s]> scalar)
  end.

Definition add_carry (temp : Z) (scalar : digits_t) : digits_t :=
  let s := u64 (dg scalar 0 + temp) in
  carry_loop 3 1 (Z.land temp (is_digit_zero_ct s)) (<[0%nat := s]> scalar).

(** The first loop, for the row of signs. *)
Fixpoint sign_loop (n i : nat) (scalar digits : digits_t) : digits_t * digits_t :=
  match n with
  | O => (scalar, digits)
  | S n => sign_loop n (S i) (shift_right scalar) (<[i := u32 (Z.land (dg scalar 0) 1 - 1)]> digits)
  end.

(** The second loop, for the other rows. *)
Fixpoint digit_loop (n i : nat) (scalar digits : digits_t) : digits_t :=
  match n with
  | O => digits
  | S n =>
      let bit := u32 (Z.land (dg scalar 0) 1) in
      let digits := <[i := bit]> digits in
      let scalar := shift_right scalar in
      let temp := Z.land (u32 (0 - dg digits (i - (i / D_FIXEDBASE) * D_FIXEDBASE))) bit in
      digit_loop n (S i) (add_carry temp scalar) digits
  end.

Definition mLSB_set_recode (scalar digits : digits_t) : digits_t :=
  let digits := <[(D_FIXEDBASE - 1)%nat := 0]> digits in
  let scalar := shift_right scalar in
  let '(scalar, digits) := sign_loop (D_FIXEDBASE - 1) 0 scalar digits in
  digit_loop (L_FIXEDBASE - D_FIXEDBASE) D_FIXEDBASE scalar digits.

(** ** Look-up *)

(** [(mask & (a ^ b)) ^ a], digit by digit. *)
Definition ct_digit (mask a b : Z) : Z := Z.lxor (Z.land mask (Z.lxor a b)) a.
Definition ct_select (mask : Z) (a b : felm) : felm :=
  ct_digit mask (digit0 a) (digit0 b) + 2 ^ 64 * ct_digit mask (digit1 a) (digit1 b).
Definition ct_select2 (mask : Z) (a b : f2elm) : f2elm := (ct_select mask a.1 b.1, ct_select mask a.2 b.2).
Definition ct_point (mask : Z) (P Q : point_precomp) : point_precomp :=
  R5 (ct_select2 mask (s_xy P) (s_xy Q)) (ct_select2 mask (s_yx P) (s_yx Q)) (ct_select2 mask (s_t2 P) (s_t2 Q)).

Fixpoint lookup_loop (entries : list point_precomp) (digit : Z) (point : point_precomp) : point_precomp :=
  match entries with
  | [] => point
  | temp_point :: entries =>
      let digit := u32 (digit - 1) in
      let mask := u64 (Z.shiftr digit 31 - 1) in
      lookup_loop entries digit (ct_point mask point temp_point)
  end.

(** The conversion of an [unsigned int] to [int] and on to [digit_t]. *)
Definition sign_extend (x : Z) : Z := if x <? 2 ^ 31 then x else u64 (x - 2 ^ 32).

Definition table_lookup_fixed_base (table : list point_precomp) (digit sign : Z) : point_precomp :=
  let point := default no_point (table !! 0%nat) in
  let point := lookup_loop (take (VPOINTS_FIXEDBASE - 1) (drop 1 table)) digit point in
  let temp_point := R5 (s_yx point) (s_xy point) (fpneg1271 (s_t2 point).1, fpneg1271 (s_t2 point).2) in
  ct_point (sign_extend sign) point temp_point.

(** ** The multiple *)

(** The digit of a column of the comb: row [w - 1] first, down to row 1. *)
Definition column_digit (digits : digits_t) (col : nat) : Z :=
  fold_left (fun digit i => u32 (2 * digit + dg digits i))
    (map (fun k => ((W_FIXEDBASE - 2 - k) * D_FIXEDBASE + col)%nat) (seq 0 (W_FIXEDBASE - 2)))
    (dg digits ((W_FIXEDBASE - 1) * D_FIXEDBASE + col)).

(** The entry of sub-table [sub] for the column, with its sign. *)
Definition column_entry (digits : digits_t) (sub col : nat) : point_precomp :=
  table_lookup_fixed_base (drop (sub * VPOINTS_FIXEDBASE) FIXED_BASE_TABLE) (column_digit digits col) (dg digits col).

(** The mixed additions of the columns [ii], one per sub-table. *)
Definition add_columns (digits : digits_t) (ii : nat) (R : point_extproj) : point_extproj :=
  fold_left (fun R j => eccmadd (column_entry digits (V_FIXEDBASE - j - 1) (D_FIXEDBASE - j * E_FIXEDBASE + ii - E_FIXEDBASE)) R)
    (seq 0 V_FIXEDBASE) R.

Definition comb (digits : digits_t) : point_extproj :=
  let R := R5_to_R1 (column_entry digits (V_FIXEDBASE - 1) (D_FIXEDBASE - 1)) in
  let R := fold_left (fun R j => eccmadd (column_entry digits (V_FIXEDBASE - j - 2) (D_FIXEDBASE - (j + 1) * E_FIXEDBASE - 1)) R)
             (seq 0 (V_FIXEDBASE - 1)) R in
  fold_left (fun R ii => add_columns digits ii (eccdouble R)) (rev (seq 0 (E_FIXEDBASE - 1))) R.

Definition ecc_mul_fixed (k : digits_t) : point_affine :=
  let temp := modulo_order k in
  let temp := conversion_to_odd temp in
  let digits := mLSB_set_recode temp (replicate 271 0) in
  eccnorm (comb digits).


(** ** What the recoding computes *)

Fixpoint sumz (f : nat -> Z) (n : nat) : Z := match n with O => 0 | S n => sumz f n + f n end.

Lemma sumz_S f n : sumz f (S n) = sumz f n + f n.
Proof. done. Qed.

Lemma sumz_ext f g n : (forall i, (i < n)%nat -> f i = g i) -> sumz f n = sumz g n.
Proof. induction n as [|n IH]; intros H; [done|]. cbn. rewrite IH by (intros; apply H; lia). f_equal. apply H. lia. Qed.

Lemma sumz_add f g n : sumz (fun i => f i + g i) n = sumz f n + sumz g n.
Proof. induction n as [|n IH]; cbn; lia. Qed.

Lemma sumz_scale c f n : sumz (fun i => c * f i) n = c * sumz f n.
Proof. induction n as [|n IH]; cbn; lia. Qed.

Lemma sumz_app f m n : sumz f (m + n) = sumz f m + sumz (fun i => f (m + i)%nat) n.
Proof. induction n as [|n IH]; [rewrite Nat.add_0_r; cbn; lia|]. rewrite Nat.add_succ_r. cbn. lia. Qed.

Lemma sumz_S_l f n : sumz f (S n) = f 0%nat + sumz (fun i => f (S i)) n.
Proof. change (S n) with (1 + n)%nat. rewrite sumz_app. cbn. lia. Qed.

Lemma shift_right_spec s : digits_ok 4 s -> digits_ok 4 (shift_right s) /\ nval (shift_right s) = nval s / 2.
Proof.
  intros Hs. destruct (digits_ok_4 s Hs) as (s0 & s1 & s2 & s3 & -> & H0 & H1 & H2 & H3).
  unfold shift_right. cbn [map seq app].
  change (dg [s0; s1; s2; s3] 0) with s0. change (dg [s0; s1; s2; s3] 1) with s1. change (dg [s0; s1; s2; s3] 2) with s2. change (dg [s0; s1; s2; s3] 3) with s3.
  rewrite !SHIFTR_spec by (done || lia). rewrite Z.shiftr_div_pow2 by done. unfold u64_ok in *. change (2 ^ 1) with 2. split.
  - split; [done|]. repeat (apply Forall_cons_2; [unfold u64_ok; Z.div_mod_to_equations; lia|]). apply Forall_nil_2.
  - cbn [nval]. Z.div_mod_to_equations. lia.
Qed.

Lemma carry_step x c : u64_ok x -> 0 <= c <= 1 ->
  let s := u64 (x + c) in let c' := Z.land c (is_digit_zero_ct s) in u64_ok s /\ 0 <= c' <= 1 /\ x + c = s + 2 ^ 64 * c'.
Proof.
  intros Hx Hc. cbv zeta. pose proof (u64_range (x + c)) as Hs. rewrite is_digit_zero_spec by done. unfold u64_ok in *. unfold wrap in *.
  assert (c = 0 \/ c = 1) as [-> | ->] by lia.
  - rewrite Z.land_0_l. split; [done|]. split; [done|]. rewrite Z.mod_small; lia.
  - destruct (Z.eqb_spec ((x + 1) mod 2 ^ 64) 0) as [E|E]; [change (Z.land 1 1) with 1|change (Z.land 1 0) with 0];
      (split; [done|]; split; [done|]; Z.div_mod_to_equations; lia).
Qed.

Lemma add_carry_spec t s : digits_ok 4 s -> 0 <= t <= 1 -> nval s + t < 2 ^ 256 ->
  digits_ok 4 (add_carry t s) /\ nval (add_carry t s) = nval s + t.
Proof.
  intros Hs Ht Hr. destruct (digits_ok_4 s Hs) as (s0 & s1 & s2 & s3 & -> & H0 & H1 & H2 & H3).
  unfold add_carry. change (dg [s0; s1; s2; s3] 0) with s0. destruct (carry_step s0 t H0 Ht) as (K0 & C0 & E0). cbv zeta in *.
  set (r0 := u64 (s0 + t)) in *. set (c0 := Z.land t _) in *. cbn [carry_loop insert list_insert].
  change (dg [r0; s1; s2; s3] 1) with s1. destruct (carry_step s1 c0 H1 C0) as (K1 & C1 & E1). cbv zeta in *. set (r1 := u64 (s1 + c0)) in *. set (c1 := Z.land c0 _) in *.
  change (dg [r0; r1; s2; s3] 2) with s2. destruct (carry_step s2 c1 H2 C1) as (K2 & C2 & E2). cbv zeta in *. set (r2 := u64 (s2 + c1)) in *. set (c2 := Z.land c1 _) in *.
  change (dg [r0; r1; r2; s3] 3) with s3. destruct (carry_step s3 c2 H3 C2) as (K3 & C3 & E3). cbv zeta in *. set (r3 := u64 (s3 + c2)) in *. set (c3 := Z.land c2 _) in *.
  split; [split; [done|]; repeat (apply Forall_cons_2; [done|]); apply Forall_nil_2|]. cbn [nval] in *. unfold u64_ok in *. lia.
Qed.

(** The sign a digit of the first row stands for. *)
Definition sgn (x : Z) : Z := if x =? 0 then 1 else -1.

Definition sign_ok (x : Z) : Prop := x = 0 \/ x = 2 ^ 32 - 1.

Lemma sign_loop_spec n i s ds : digits_ok 4 s -> (i + n <= length ds)%nat ->
  let '(s', ds') := sign_loop n i s ds in
  digits_ok 4 s' /\ nval s' = nval s / 2 ^ Z.of_nat n /\ length ds' = length ds /\
  (forall j, (j < i \/ i + n <= j)%nat -> dg ds' j = dg ds j) /\ (forall j, (j < n)%nat -> sign_ok (dg ds' (i + j))) /\
  sumz (fun j => sgn (dg ds' (i + j)) * 2 ^ Z.of_nat j) n = 2 * (nval s mod 2 ^ Z.of_nat n) - (2 ^ Z.of_nat n - 1).
Proof.
  revert i s ds. induction n as [|n IH]; intros i s ds Hs Hi; cbn [sign_loop].
  - split; [done|]. split; [by rewrite Z.div_1_r|]. split; [done|]. split; [done|]. split; [intros; lia|]. change (2 ^ Z.of_nat 0) with 1. by rewrite Z.mod_1_r.
  - destruct (shift_right_spec s Hs) as [Hs1 Es1]. rewrite (dg_0_odd 3 s Hs). set (x := u32 (nval s mod 2 - 1)).
    assert (sign_ok x /\ sgn x = 2 * (nval s mod 2) - 1) as [Hx Ex].
    { subst x. assert (nval s mod 2 = 0 \/ nval s mod 2 = 1) as [-> | ->] by (Z.div_mod_to_equations; lia); (split; [|done]); [by right|by left]. }
    specialize (IH (S i) (shift_right s) (<[i := x]> ds) Hs1 ltac:(rewrite length_insert; lia)).
    destruct (sign_loop n (S i) _ _) as [s' ds']. destruct IH as (H1 & H2 & H3 & H4 & H5 & H6). rewrite length_insert in H3.
    pose proof (nval_range _ _ Hs) as Hr. assert (2 ^ Z.of_nat (S n) = 2 * 2 ^ Z.of_nat n) as Ep by (rewrite Nat2Z.inj_succ, Z.pow_succ_r by lia; done).
    assert (0 < 2 ^ Z.of_nat n) as Hp by lia. assert (dg ds' i = x) as Edg.
    { rewrite H4 by lia. unfold dg. by rewrite list_lookup_insert_eq by lia. }
    split; [done|]. split; [rewrite H2, Es1, Z.div_div, Ep by lia; done|]. split; [done|]. split; [|split].
    + intros j Hj. rewrite H4 by lia. unfold dg. by rewrite list_lookup_insert_ne by lia.
    + intros j Hj. destruct j as [|j]; [by rewrite Nat.add_0_r, Edg|]. replace (i + S j)%nat with (S i + j)%nat by lia. apply H5. lia.
    + rewrite sumz_S_l, Nat.add_0_r, Edg, Ex. rewrite (sumz_ext _ (fun j => 2 * (sgn (dg ds' (S i + j)) * 2 ^ Z.of_nat j))).
      * rewrite sumz_scale, H6, Es1, Ep. rewrite Z.rem_mul_r by lia. change (2 ^ Z.of_nat 0) with 1. lia.
      * intros j _. replace (i + S j)%nat with (S i + j)%nat by lia. rewrite Nat2Z.inj_succ, Z.pow_succ_r by lia. lia.
Qed.

(** The signed digit at a position: the sign of its column times the digit, which
    is one in the first row. *)
Definition bval (ds : digits_t) (i : nat) : Z := sgn (dg ds (i mod 50)) * (if (i <? 50)%nat then 1 else dg ds i).

Lemma digit_loop_spec n i s ds : digits_ok 4 s -> (50 <= i)%nat -> (i + n = 250)%nat -> length ds = 271%nat ->
  (forall j, (j < 50)%nat -> sign_ok (dg ds j)) -> dg ds 49 = 0 -> 0 <= nval s -> (if (n =? 0)%nat then nval s = 0 else nval s <= 2 ^ (Z.of_nat n - 1)) ->
  let ds' := digit_loop n i s ds in
  length ds' = 271%nat /\ (forall j, (j < i)%nat -> dg ds' j = dg ds j) /\ (forall j, (j < n)%nat -> 0 <= dg ds' (i + j) <= 1) /\
  sumz (fun j => bval ds' (i + j) * 2 ^ Z.of_nat j) n = nval s.
Proof.
  revert i s ds. induction n as [|n IH]; intros i s ds Hs Hi Hn Hl Hsign Hlast H0 Hb; cbn [digit_loop]; cbv zeta.
  - split; [done|]. split; [done|]. split; [intros; lia|]. by rewrite Hb.
  - destruct (shift_right_spec s Hs) as [Hs1 Es1]. rewrite (dg_0_odd 3 s Hs). set (bit := u32 (nval s mod 2)).
    assert (bit = nval s mod 2 /\ (bit = 0 \/ bit = 1)) as [Ebit Hbit].
    { subst bit. assert (nval s mod 2 = 0 \/ nval s mod 2 = 1) as [-> | ->] by (Z.div_mod_to_equations; lia); (split; [done|]); [left; done|right; done]. }
    assert ((i - i / D_FIXEDBASE * D_FIXEDBASE)%nat = (i mod 50)%nat) as Ei by (rewrite (Nat.div_mod_eq i 50) at 1; change D_FIXEDBASE with 50%nat; lia).
    assert ((i mod 50 < 50)%nat) as Him by (apply Nat.mod_upper_bound; lia).
    rewrite Ei. set (ds1 := <[i := bit]> ds). assert (dg ds1 (i mod 50) = dg ds (i mod 50)) as Edg.
    { subst ds1. unfold dg. by rewrite list_lookup_insert_ne by lia. }
    rewrite Edg. set (t := Z.land _ _).
    assert (0 <= t <= 1 /\ sgn (dg ds (i mod 50)) * bit = bit - 2 * t) as [Ht Et].
    { subst t. destruct (Hsign (i mod 50)%nat Him) as [-> | ->], Hbit as [-> | ->]; done. }
    assert (nval s / 2 + t = (nval s - sgn (dg ds (i mod 50)) * bit) / 2) as Ec by (rewrite Et; Z.div_mod_to_equations; lia).
    pose proof (nval_range _ _ Hs) as Hr. change (2 ^ (64 * Z.of_nat 4)) with (2 ^ 256) in Hr.
    destruct (add_carry_spec t (shift_right s) Hs1 Ht ltac:(rewrite Es1; Z.div_mod_to_equations; lia)) as [Hs2 Es2]. rewrite Es1 in Es2.
    specialize (IH (S i) (add_carry t (shift_right s)) ds1 Hs2 ltac:(lia) ltac:(lia) ltac:(subst ds1; by rewrite length_insert)).
    cbv zeta in IH. destruct IH as (H1 & H2 & H3 & H4).
    + intros j Hj. subst ds1. unfold dg. rewrite list_lookup_insert_ne by lia. by apply Hsign.
    + subst ds1. unfold dg. by rewrite list_lookup_insert_ne by lia.
    + pose proof (nval_range _ _ Hs2). lia.
    + rewrite Es2. cbn [Nat.eqb] in Hb. destruct n as [|n]; cbn [Nat.eqb].
      * assert (i = 249%nat) as -> by lia. change (249 mod 50)%nat with 49%nat in *. rewrite Hlast in Et. change (sgn 0) with 1 in Et.
        change (Z.of_nat 1 - 1) with 0 in Hb. assert (t = 0) as -> by lia. Z.div_mod_to_equations. lia.
      * replace (Z.of_nat (S (S n)) - 1) with (1 + (Z.of_nat (S n) - 1)) in Hb by lia. rewrite Z.pow_add_r in Hb by lia.
        assert (t <= bit) by (destruct Hbit as [-> | ->]; destruct (Hsign (i mod 50)%nat Him) as [Es | Es]; rewrite Es in Et; cbv [sgn Z.eqb] in Et; lia).
        Z.div_mod_to_equations. lia.
    + assert (dg (digit_loop n (S i) (add_carry t (shift_right s)) ds1) i = bit) as Edi.
      { rewrite H2 by lia. subst ds1. unfold dg. by rewrite list_lookup_insert_eq by lia. }
      assert (forall j, (j < i)%nat -> dg (digit_loop n (S i) (add_carry t (shift_right s)) ds1) j = dg ds j) as Hlow.
      { intros j Hj. rewrite H2 by lia. subst ds1. unfold dg. by rewrite list_lookup_insert_ne by lia. }
      split; [done|]. split; [done|]. split.
      * intros j Hj. destruct j as [|j]; [rewrite Nat.add_0_r, Edi; lia|]. replace (i + S j)%nat with (S i + j)%nat by lia. apply H3. lia.
      * rewrite sumz_S_l, Nat.add_0_r. unfold bval at 1. rewrite Edi, Hlow by lia. destruct (Nat.ltb_spec i 50); [lia|].
        rewrite (sumz_ext _ (fun j => 2 * (bval (digit_loop n (S i) (add_carry t (shift_right s)) ds1) (S i + j) * 2 ^ Z.of_nat j))).
        -- rewrite sumz_scale, H4, Es2, Et. change (2 ^ Z.of_nat 0) with 1. Z.div_mod_to_equations. lia.
        -- intros j _. replace (i + S j)%nat with (S i + j)%nat by lia. rewrite Nat2Z.inj_succ, Z.pow_succ_r by lia. lia.
Qed.

(** The recoding represents an odd scalar by signed digits of 250 positions. *)
Lemma mLSB_set_recode_spec s : digits_ok 4 s -> Z.odd (nval s) = true -> nval s < 2 ^ 247 ->
  let ds := mLSB_set_recode s (replicate 271 0) in
  length ds = 271%nat /\ (forall j, (j < 50)%nat -> sign_ok (dg ds j)) /\ (forall j, (50 <= j < 250)%nat -> 0 <= dg ds j <= 1) /\
  sumz (fun j => bval ds j * 2 ^ Z.of_nat j) 250 = nval s.
Proof.
  intros Hs Hodd Hlt. unfold mLSB_set_recode. change (D_FIXEDBASE - 1)%nat with 49%nat. change (L_FIXEDBASE - D_FIXEDBASE)%nat with 200%nat.
  change D_FIXEDBASE with 50%nat. destruct (shift_right_spec s Hs) as [Hs1 Es1]. set (ds0 := <[49%nat := 0]> (replicate 271 0)).
  assert (length ds0 = 271%nat) as Hl0 by (subst ds0; by rewrite length_insert, length_replicate).
  assert (dg ds0 49 = 0) as Hlast by (subst ds0; unfold dg; by rewrite list_lookup_insert_eq by (rewrite length_replicate; lia)).
  pose proof (sign_loop_spec 49 0 (shift_right s) ds0 Hs1 ltac:(lia)) as H. destruct (sign_loop 49 0 _ _) as [s1 ds1].
  destruct H as (Hs2 & Es2 & Hl1 & Hrest & Hsig & Hsum). cbn [Nat.add] in *. pose proof (nval_range _ _ Hs) as Hr0.
  rewrite Hl0 in Hl1. assert (dg ds1 49 = 0) as Hlast1 by (rewrite Hrest by lia; done).
  assert (forall j, (j < 50)%nat -> sign_ok (dg ds1 j)) as Hsign.
  { intros j Hj. destruct (decide (j = 49%nat)) as [->|]; [by left|]. apply Hsig. lia. }
  change (Z.of_nat 49) with 49 in *.
  assert (0 <= nval s1 <= 2 ^ (Z.of_nat 200 - 1)) as Hb1 by (rewrite Es2, Es1; change (Z.of_nat 200 - 1) with 199; Z.div_mod_to_equations; lia).
  pose proof (digit_loop_spec 200 50 s1 ds1 Hs2 ltac:(lia) ltac:(lia) Hl1 Hsign Hlast1 ltac:(lia) ltac:(cbn [Nat.eqb]; lia)) as H. cbv zeta in *.
  set (ds := digit_loop 200 50 s1 ds1) in *. destruct H as (H1 & H2 & H3 & H4). split; [done|]. split; [|split].
  - intros j Hj. rewrite H2 by lia. by apply Hsign.
  - intros j Hj. replace j with (50 + (j - 50))%nat by lia. apply H3. lia.
  - change 250%nat with (50 + 200)%nat. rewrite sumz_app. rewrite (sumz_ext (fun i => bval ds (50 + i) * 2 ^ Z.of_nat (50 + i)) (fun i => 2 ^ 50 * (bval ds (50 + i) * 2 ^ Z.of_nat i))).
    + rewrite sumz_scale, H4. rewrite (sumz_ext _ (fun j => sgn (dg ds1 j) * 2 ^ Z.of_nat j)).
      * change 50%nat with (S 49). rewrite sumz_S, Hsum, Hlast1. change (sgn 0) with 1. change (Z.of_nat 49) with 49. rewrite Es2, Es1.
        apply Z.odd_spec in Hodd as [m Hm]. rewrite Hm. change (2 ^ Z.of_nat 49) with (2 ^ 49). Z.div_mod_to_equations. lia.
      * intros j Hj. unfold bval. rewrite Nat.mod_small by lia. destruct (Nat.ltb_spec j 50); [|lia]. rewrite H2 by lia. lia.
    + intros j _. rewrite Nat2Z.inj_add, Z.pow_add_r by lia. change (Z.of_nat 50) with 50. lia.
Qed.

(** ** What the look-up returns *)

Definition precomp_ok (P : point_precomp) : Prop :=
  (felm_ok (s_xy P).1 /\ felm_ok (s_xy P).2) /\ (felm_ok (s_yx P).1 /\ felm_ok (s_yx P).2) /\ (felm_ok (s_t2 P).1 /\ felm_ok (s_t2 P).2).

Lemma ct_select_0 a b : ct_select 0 a b = a.
Proof.
  unfold ct_select, ct_digit, digit0, digit1. rewrite !Z.land_0_l, !Z.lxor_0_l. to_arith. rewrite (Z.div_mod a (2 ^ 64)) at 3 by lia. lia.
Qed.

Lemma ct_digit_ones a b : u64_ok a -> u64_ok b -> ct_digit (2 ^ 64 - 1) a b = b.
Proof.
  intros Ha Hb. unfold ct_digit. rewrite Z.land_comm. change (2 ^ 64 - 1) with (Z.ones 64). rewrite Z.land_ones by done.
  rewrite Z.mod_small by (apply (lxor_range 64); done). by rewrite Z.lxor_comm, <- Z.lxor_assoc, Z.lxor_nilpotent, Z.lxor_0_l.
Qed.

Lemma ct_select_ones a b : felm_ok a -> felm_ok b -> ct_select (2 ^ 64 - 1) a b = b.
Proof.
  intros Ha Hb. destruct (digits a Ha) as (_ & A0 & A1), (digits b Hb) as (Eb & B0 & B1). unfold ct_select.
  rewrite !ct_digit_ones by (unfold u64_ok; lia). done.
Qed.

Lemma ct_point_0 P Q : ct_point 0 P Q = P.
Proof. destruct P as [[] [] []]. unfold ct_point, ct_select2. cbn [s_xy s_yx s_t2 fst snd]. by rewrite !ct_select_0. Qed.

Lemma ct_point_ones P Q : precomp_ok P -> precomp_ok Q -> ct_point (2 ^ 64 - 1) P Q = Q.
Proof.
  destruct P as [[] [] []], Q as [[] [] []]. intros ([] & [] & []) ([] & [] & []). unfold ct_point, ct_select2. cbn [s_xy s_yx s_t2 fst snd] in *.
  by rewrite !ct_select_ones.
Qed.

(** Once the digit has passed zero the point stays. *)
Lemma lookup_loop_past es k p : 0 < k -> k + Z.of_nat (length es) <= 2 ^ 31 -> lookup_loop es (2 ^ 32 - k) p = p.
Proof.
  revert k p. induction es as [|e es IH]; intros k p Hk Hl; [done|]. cbn [lookup_loop length] in *.
  assert (u32 (2 ^ 32 - k - 1) = 2 ^ 32 - (k + 1)) as -> by (rewrite wrap_small; lia).
  assert (u64 (Z.shiftr (2 ^ 32 - (k + 1)) 31 - 1) = 0) as ->.
  { rewrite Z.shiftr_div_pow2 by done. replace ((2 ^ 32 - (k + 1)) / 2 ^ 31) with 1; [done|]. apply (Z.div_unique _ _ _ (2 ^ 31 - (k + 1))); lia. }
  rewrite ct_point_0. apply IH; lia.
Qed.

Lemma lookup_loop_spec es u p : (u <= length es)%nat -> Z.of_nat (length es) < 2 ^ 31 - 1 -> precomp_ok p -> Forall precomp_ok es ->
  lookup_loop es (Z.of_nat u) p = nth u (p :: es) no_point.
Proof.
  revert u p. induction es as [|e es IH]; intros u p Hu Hl Hp Hes; cbn [length] in *.
  - by replace u with 0%nat by lia.
  - apply Forall_cons_1 in Hes as [He Hes]. cbn [lookup_loop]. destruct u as [|u].
    + change (u32 (Z.of_nat 0 - 1)) with (2 ^ 32 - 1). change (u64 (Z.shiftr (2 ^ 32 - 1) 31 - 1)) with 0. rewrite ct_point_0.
      apply (lookup_loop_past es 1); lia.
    + assert (u32 (Z.of_nat (S u) - 1) = Z.of_nat u) as -> by (rewrite wrap_small; lia).
      assert (u64 (Z.shiftr (Z.of_nat u) 31 - 1) = 2 ^ 64 - 1) as ->.
      { rewrite Z.shiftr_div_pow2, Z.div_small by lia. done. }
      rewrite ct_point_ones by done. rewrite IH by (done || lia). done.
Qed.

(** The entry, or its negative. *)
Lemma table_lookup_spec table u sign : (u < 16)%nat -> (16 <= length table)%nat -> Forall precomp_ok table -> sign_ok sign ->
  table_lookup_fixed_base table (Z.of_nat u) sign = if sign =? 0 then nth u table no_point else eccneg_precomp (nth u table no_point).
Proof.
  intros Hu Hl Ht Hs. unfold table_lookup_fixed_base. destruct table as [|p es]; [cbn in Hl; lia|]. apply Forall_cons_1 in Ht as [Hp Hes].
  change (default no_point ((p :: es) !! 0%nat)) with p. change (drop 1 (p :: es)) with es. change (VPOINTS_FIXEDBASE - 1)%nat with 15%nat. cbn [length] in Hl.
  rewrite lookup_loop_spec; [|rewrite length_take; lia..|done|by apply Forall_take].
  assert (nth u (p :: take 15 es) no_point = nth u (p :: es) no_point) as ->.
  { change (p :: take 15 es) with (take 16 (p :: es)). rewrite <- (take_drop 16 (p :: es)) at 2. rewrite app_nth1; [done|]. rewrite length_take. cbn [length]. lia. }
  assert (precomp_ok (nth u (p :: es) no_point)) as Hq by (apply List.Forall_nth; [by constructor|cbn [length]; lia]).
  destruct Hs as [-> | ->]; [apply ct_point_0|]. change (sign_extend (2 ^ 32 - 1)) with (2 ^ 64 - 1). apply ct_point_ones; [done|].
  destruct (nth u (p :: es) no_point) as [[] [] []]. destruct Hq as ((H1 & H2) & (H3 & H4) & (H5 & H6)). unfold precomp_ok. cbn [s_xy s_yx s_t2 fst snd] in *.
  split; [done|]. split; [done|]. split; by apply fpneg_spec.
Qed.

(** ** What the comb computes *)

Definition precomp_okb (P : point_precomp) : bool := f2_okb (s_xy P) && f2_okb (s_yx P) && f2_okb (s_t2 P).

Lemma table_ok : Forall precomp_ok FIXED_BASE_TABLE.
Proof.
  assert (forallb precomp_okb FIXED_BASE_TABLE = true) as H by (vm_compute; reflexivity).
  apply Forall_forall. intros P HP. rewrite forallb_forall in H. specialize (H P HP).
  apply andb_true_iff in H as [[H1 H2]%andb_true_iff H3]. unfold precomp_ok.
  split; [exact (rep_ok _ _ (f2_okb_rep _ H1))|]. split; [exact (rep_ok _ _ (f2_okb_rep _ H2))|exact (rep_ok _ _ (f2_okb_rep _ H3))].
Qed.

(** What holds of recoded digits. *)
Record recoded (ds : digits_t) : Prop := {
  rec_sign : forall j, (j < 50)%nat -> sign_ok (dg ds j);
  rec_bit : forall j, (50 <= j < 250)%nat -> 0 <= dg ds j <= 1;
}.

(** The signed digits of a column. *)
Definition column_value (ds : digits_t) (col : nat) : Z := sumz (fun w => 2 ^ Z.of_nat (50 * w) * bval ds (50 * w + col)) 5.

Lemma bval_row ds w col : (col < 50)%nat -> bval ds (50 * w + col) = sgn (dg ds col) * (if (w =? 0)%nat then 1 else dg ds (50 * w + col)).
Proof.
  intros Hc. unfold bval. rewrite Nat.add_comm, (Nat.mul_comm 50), Nat.Div0.mod_add, Nat.mod_small by done.
  destruct (Nat.ltb_spec (col + w * 50) 50), (Nat.eqb_spec w 0); (done || lia).
Qed.

Lemma comb_weight_bits b1 b2 b3 b4 : 0 <= b1 <= 1 -> 0 <= b2 <= 1 -> 0 <= b3 <= 1 -> 0 <= b4 <= 1 ->
  let u := Z.to_nat (b1 + 2 * b2 + 4 * b3 + 8 * b4) in
  (u < 16)%nat /\ comb_weight u = 1 + 2 ^ 50 * b1 + 2 ^ 100 * b2 + 2 ^ 150 * b3 + 2 ^ 200 * b4.
Proof.
  intros H1 H2 H3 H4. assert (forall b, 0 <= b <= 1 -> b = 0 \/ b = 1) as H by lia.
  destruct (H _ H1) as [-> | ->], (H _ H2) as [-> | ->], (H _ H3) as [-> | ->], (H _ H4) as [-> | ->]; (split; [vm_compute; lia|vm_compute; reflexivity]).
Qed.

Lemma column_digit_spec ds col : recoded ds -> (col < 50)%nat ->
  exists u, (u < 16)%nat /\ column_digit ds col = Z.of_nat u /\ column_value ds col = sgn (dg ds col) * comb_weight u.
Proof.
  intros [_ Hb] Hc. pose proof (Hb (50 + col)%nat ltac:(lia)) as B1. pose proof (Hb (100 + col)%nat ltac:(lia)) as B2.
  pose proof (Hb (150 + col)%nat ltac:(lia)) as B3. pose proof (Hb (200 + col)%nat ltac:(lia)) as B4.
  destruct (comb_weight_bits _ _ _ _ B1 B2 B3 B4) as [Hu Ew]. eexists. split; [exact Hu|]. split.
  - change (column_digit ds col) with (u32 (2 * u32 (2 * u32 (2 * dg ds (200 + col) + dg ds (150 + col)) + dg ds (100 + col)) + dg ds (50 + col))).
    rewrite Z2Nat.id by lia. rewrite (wrap_small 32 (2 * dg ds (200 + col) + _)) by lia.
    rewrite (wrap_small 32 (2 * (2 * _ + _) + _)) by lia. rewrite wrap_small by lia. lia.
  - rewrite Ew. unfold column_value. rewrite !sumz_S. change (sumz _ 0) with 0. rewrite !bval_row by done. cbn [Nat.eqb].
    change (50 * 1)%nat with 50%nat. change (50 * 2)%nat with 100%nat. change (50 * 3)%nat with 150%nat. change (50 * 4)%nat with 200%nat. change (50 * 0)%nat with 0%nat. lia.
Qed.

(** An entry of the comb, with its sign. *)
Lemma column_entry_spec ds sub col : recoded ds -> (sub < 5)%nat -> (col < 50)%nat ->
  is_r5 (column_entry ds sub col) (fq_mul (2 ^ Z.of_nat (10 * sub) * column_value ds col) fq_G).
Proof.
  intros Hds Hsub Hcol. destruct (column_digit_spec ds col Hds Hcol) as (u & Hu & Ed & ->). unfold column_entry. rewrite Ed.
  change VPOINTS_FIXEDBASE with 16%nat. assert (length (drop (sub * 16) FIXED_BASE_TABLE) = (80 - sub * 16)%nat) as Hl by (by rewrite length_drop, table_length).
  pose proof (rec_sign ds Hds col Hcol) as Hsign.
  rewrite table_lookup_spec by (first [done|rewrite Hl; lia|apply Forall_drop, table_ok]).
  assert (nth u (drop (sub * 16) FIXED_BASE_TABLE) no_point = entry_at (16 * sub + u)) as ->.
  { unfold entry_at. rewrite !nth_lookup, lookup_drop. do 2 f_equal. lia. }
  pose proof (table_entry sub u Hsub Hu) as Ht. replace (10 * Z.of_nat sub) with (Z.of_nat (10 * sub)) in Ht by lia.
  destruct Hsign as [-> | ->]; cbn [Z.eqb Z.sub Z.pow sgn].
  - change (sgn 0) with 1. rewrite Z.mul_1_l. exact Ht.
  - change (2 ^ 32 - 1 =? 0) with false. cbv iota. change (sgn (2 ^ 32 - 1)) with (-1).
    replace (2 ^ Z.of_nat (10 * sub) * (-1 * comb_weight u)) with (- (2 ^ Z.of_nat (10 * sub) * comb_weight u)) by lia.
    rewrite (smul_opp curve_d curve_i). exact (eccneg_precomp_spec _ _ Ht).
Qed.

(** The sum of the columns [ii] of the sub-tables. *)
Definition columns (ds : digits_t) (ii : nat) : Z := sumz (fun v => 2 ^ Z.of_nat (10 * v) * column_value ds (10 * v + ii)) 5.

Lemma add_column ds sub col R n : recoded ds -> (sub < 5)%nat -> (col < 50)%nat -> is_r1 R (fq_mul n fq_G) ->
  is_r1 (eccmadd (column_entry ds sub col) R) (fq_mul (n + 2 ^ Z.of_nat (10 * sub) * column_value ds col) fq_G).
Proof.
  intros Hds Hs Hc HR. rewrite (smul_add curve_d curve_i). exact (eccmadd_spec _ _ _ _ (column_entry_spec ds sub col Hds Hs Hc) HR).
Qed.

#[local] Opaque eccmadd eccdouble column_entry.

Lemma add_columns_spec ds ii R n : recoded ds -> (ii < 10)%nat -> is_r1 R (fq_mul n fq_G) ->
  is_r1 (add_columns ds ii R) (fq_mul (n + columns ds ii) fq_G).
Proof.
  intros Hds Hi HR.
  change (add_columns ds ii R) with (eccmadd (column_entry ds 0 (10 + ii - 10)) (eccmadd (column_entry ds 1 (10 + ii)) (eccmadd (column_entry ds 2 (20 + ii))
    (eccmadd (column_entry ds 3 (30 + ii)) (eccmadd (column_entry ds 4 (40 + ii)) R))))).
  replace (10 + ii - 10)%nat with ii by lia.
  replace (n + columns ds ii) with (n + 2 ^ Z.of_nat (10 * 4) * column_value ds (40 + ii) + 2 ^ Z.of_nat (10 * 3) * column_value ds (30 + ii) +
    2 ^ Z.of_nat (10 * 2) * column_value ds (20 + ii) + 2 ^ Z.of_nat (10 * 1) * column_value ds (10 + ii) + 2 ^ Z.of_nat (10 * 0) * column_value ds ii).
  - do 5 (apply add_column; [done|lia|lia|]). exact HR.
  - unfold columns. rewrite !sumz_S. change (sumz _ 0) with 0. change (10 * 4 + ii)%nat with (40 + ii)%nat. change (10 * 3 + ii)%nat with (30 + ii)%nat.
    change (10 * 2 + ii)%nat with (20 + ii)%nat. change (10 * 1 + ii)%nat with (10 + ii)%nat. change (10 * 0 + ii)%nat with ii. lia.
Qed.

(** Horner's rule over the columns. *)
Lemma comb_loop ds k R n : recoded ds -> (k <= 10)%nat -> is_r1 R (fq_mul n fq_G) ->
  is_r1 (fold_left (fun R ii => add_columns ds ii (eccdouble R)) (rev (seq 0 k)) R)
    (fq_mul (2 ^ Z.of_nat k * n + sumz (fun ii => 2 ^ Z.of_nat ii * columns ds ii) k) fq_G).
Proof.
  intros Hds. revert R n. induction k as [|k IH]; intros R n Hk HR.
  - change (2 ^ Z.of_nat 0 * n + _) with (1 * n + 0). by rewrite Z.mul_1_l, Z.add_0_r.
  - rewrite seq_S, rev_app_distr. cbn [rev app fold_left Nat.add].
    pose proof (eccdouble_spec _ _ (is_r1_xyz _ _ HR)) as HD. rewrite <- (smul_add curve_d curve_i) in HD.
    pose proof (IH _ _ ltac:(lia) (add_columns_spec ds k _ _ Hds ltac:(lia) HD)) as H.
    rewrite sumz_S, Nat2Z.inj_succ, Z.pow_succ_r by lia.
    replace (2 * 2 ^ Z.of_nat k * n + _) with (2 ^ Z.of_nat k * (n + n + columns ds k) + sumz (fun ii => 2 ^ Z.of_nat ii * columns ds ii) k) by lia.
    exact H.
Qed.

Lemma sumz_grid f m n : sumz (fun i => sumz (fun v => f (m * v + i)%nat) n) m = sumz f (m * n).
Proof.
  induction n as [|n IH].
  - rewrite Nat.mul_0_r. change (sumz f 0) with 0. rewrite (sumz_ext _ (fun _ => 0 * 0)) by done. by rewrite sumz_scale.
  - rewrite Nat.mul_succ_r, sumz_app, <- IH, <- sumz_add. apply sumz_ext. intros i _. exact (sumz_S (fun v => f (m * v + i)%nat) n).
Qed.

Lemma columns_sum ds : sumz (fun ii => 2 ^ Z.of_nat ii * columns ds ii) 10 = sumz (fun j => bval ds j * 2 ^ Z.of_nat j) 250.
Proof.
  transitivity (sumz (fun c => 2 ^ Z.of_nat c * column_value ds c) 50).
  - change 50%nat with (10 * 5)%nat. rewrite <- (sumz_grid (fun c => 2 ^ Z.of_nat c * column_value ds c) 10 5). apply sumz_ext. intros i _.
    unfold columns. rewrite <- sumz_scale. apply sumz_ext. intros v _. rewrite Nat2Z.inj_add, Z.pow_add_r by lia. lia.
  - change 250%nat with (50 * 5)%nat. rewrite <- (sumz_grid (fun j => bval ds j * 2 ^ Z.of_nat j) 50 5). apply sumz_ext. intros i _.
    unfold column_value. rewrite <- sumz_scale. apply sumz_ext. intros v _. rewrite Nat2Z.inj_add, Z.pow_add_r by lia. lia.
Qed.

Lemma comb_spec ds : recoded ds -> is_r1 (comb ds) (fq_mul (sumz (fun j => bval ds j * 2 ^ Z.of_nat j) 250) fq_G).
Proof.
  intros Hds. unfold comb. cbv zeta.
  change (seq 0 (V_FIXEDBASE - 1)) with (seq 0 4).
  assert (is_r1 (fold_left (fun R j => eccmadd (column_entry ds (V_FIXEDBASE - j - 2) (D_FIXEDBASE - (j + 1) * E_FIXEDBASE - 1)) R) (seq 0 4)
    (R5_to_R1 (column_entry ds (V_FIXEDBASE - 1) (D_FIXEDBASE - 1)))) (fq_mul (columns ds 9) fq_G)) as H0.
  { change (fold_left _ (seq 0 4) _) with (eccmadd (column_entry ds 0 9) (eccmadd (column_entry ds 1 19) (eccmadd (column_entry ds 2 29)
      (eccmadd (column_entry ds 3 39) (R5_to_R1 (column_entry ds 4 49)))))).
    replace (columns ds 9) with (2 ^ Z.of_nat (10 * 4) * column_value ds 49 + 2 ^ Z.of_nat (10 * 3) * column_value ds 39 +
      2 ^ Z.of_nat (10 * 2) * column_value ds 29 + 2 ^ Z.of_nat (10 * 1) * column_value ds 19 + 2 ^ Z.of_nat (10 * 0) * column_value ds 9).
    - do 4 (apply add_column; [done|lia|lia|]). apply R5_to_R1_spec, column_entry_spec; (done || lia).
    - unfold columns. rewrite !sumz_S. change (sumz _ 0) with 0. change (10 * 4 + 9)%nat with 49%nat. change (10 * 3 + 9)%nat with 39%nat.
      change (10 * 2 + 9)%nat with 29%nat. change (10 * 1 + 9)%nat with 19%nat. change (10 * 0 + 9)%nat with 9%nat. lia. }
  pose proof (comb_loop ds 9 _ _ Hds ltac:(lia) H0) as H. rewrite <- columns_sum. change 10%nat with (S 9). rewrite sumz_S, Z.add_comm. exact H.
Qed.

(** The comb over the recoding of an odd scalar. *)
Lemma comb_recode s : digits_ok 4 s -> Z.odd (nval s) = true -> nval s < 2 ^ 247 ->
  eccnorm (comb (mLSB_set_recode s (replicate 271 0))) = affine_of (fq_mul (nval s) fq_G).
Proof.
  intros Hs Ho Hr. destruct (mLSB_set_recode_spec s Hs Ho Hr) as (_ & H1 & H2 & H3).
  pose proof (comb_spec _ (Build_recoded _ H1 H2)) as H. rewrite H3 in H. exact (eccnorm_spec _ _ (is_r1_xyz _ _ H)).
Qed.

(** ** The multiple of the generator by any 256-bit scalar *)

Lemma ecc_mul_fixed_spec k : digits_ok 4 k -> ecc_mul_fixed k = affine_of (fq_mul (nval k) fq_G).
Proof.
  intros Hk. unfold ecc_mul_fixed. destruct (modulo_order_spec k Hk) as [Hm Em]. pose proof order_range as Ro.
  assert (nval (modulo_order k) < order) as Lm by (rewrite Em; apply Z.mod_pos_bound; lia).
  destruct (conversion_to_odd_spec _ Hm Lm) as (Hc & Ec & Oc). cbv zeta.
  assert (nval (conversion_to_odd (modulo_order k)) < 2 ^ 247) as Lc by (rewrite Ec; destruct (Z.odd _); lia).
  rewrite (comb_recode _ Hc Oc Lc). f_equal. rewrite Ec, Em, (smul_add curve_d curve_i), (smul_mod curve_d curve_i _ order fq_G ltac:(lia) generator_order).
  destruct (Z.odd (_ mod order)); [change (fq_mul 0 fq_G) with fq_zero|rewrite generator_order]; rewrite (padd_comm curve_d curve_i); exact (padd_zero_l curve_d curve_i _).
Qed.

(** C19. [ecc_mul_fixed] returns the affine coordinates, reduced below the prime, of
    the multiple of the generator by every 256-bit scalar: the reduction modulo the
    order, the odd recoding, the constant-time look-ups, the table and the point
    formulas together compute the group's multiple. *)
Theorem ecc_mul_fixed_right k : digits_ok 4 k -> ecc_mul_fixed k = affine_of (fq_mul (nval k) fq_G).
Proof. apply ecc_mul_fixed_spec. Qed.

Example ecc_mul_fixed_right_witness :
  let k := [2 ^ 64 - 1; 0; 0; 2 ^ 63] in
  digits_ok 4 k /\ ecc_mul_fixed k = affine_of (fq_mul (nval k) fq_G).
Proof.
  assert (digits_ok 4 [2 ^ 64 - 1; 0; 0; 2 ^ 63]) as H.
  { split; [done|]. repeat (apply Forall_cons_2; [done|]). apply Forall_nil_2. }
  split; [exact H|exact (ecc_mul_fixed_right _ H)].
Defined.
