(* ===== verification/FourQSchnorr.v ===== *)
(** * Keys and signatures of FourQ

    [encode] of crypto_util.c, blake3.c and schnorrq.c of external/fourq up to
    [SchnorrQ_Sign]: what a key and a signature are in the group of the curve. *)

From Stdlib Require Import Zmod Field.
From stdpp Require Import base list numbers option.
From S2P Require Import Prelude Memory Crypto Blake3Core Blake3Tree Blake3Hash.
From S2P Require Import FourQGroup FourQGf FourQField FourQCurve FourQOrder FourQTable FourQFixed.

Inductive ECCRYPTO_STATUS :=
| ECCRYPTO_ERROR
| ECCRYPTO_SUCCESS
| ECCRYPTO_ERROR_DURING_TEST
| ECCRYPTO_ERROR_UNKNOWN
| ECCRYPTO_ERROR_NOT_IMPLEMENTED
| ECCRYPTO_ERROR_NO_MEMORY
| ECCRYPTO_ERROR_INVALID_PARAMETER
| ECCRYPTO_ERROR_SHARED_KEY
| ECCRYPTO_ERROR_SIGNATURE_VERIFICATION
| ECCRYPTO_ERROR_HASH_TO_CURVE
| ECCRYPTO_ERROR_END_OF_LIST.

(** ** Bytes and digits *)

(** [(digit_t* )b]: the digits of a buffer of 32 bytes. *)
Definition to_digits (b : bytes) : digits_t := map (fun i => le_val (take 8 (drop (8 * i) b))) (seq 0 NWORDS_ORDER).
Definition of_digits (a : digits_t) : bytes := concat (map (le_bytes 8) a).

(** ** Encoding of points *)

Definition mask4000 : Z := 2 ^ 62.

Definition is_zero_ct (a : digits_t) : bool :=
  let x := fold_left Z.lor (drop 1 a) (dg a 0) in
  negb (Z.lxor 1 (Z.shiftr (Z.lor x (u64 (0 - x))) 63) =? 0).

(** The bits that stand for the sign of x. *)
Definition x_sign_bit (x : felm) : Z := u64 (Z.shiftl (Z.land (digit1 x) mask4000) 1).

(** The 32 bytes of [P->y], and the last digit of the buffer with a bit added. *)
Definition encode_y (y : f2elm) (temp : Z) : bytes :=
  of_digits [digit0 y.1; digit1 y.1; digit0 y.2; Z.lor (digit1 y.2) temp].

Definition encode (P : point_affine) : bytes :=
  let temp1 := x_sign_bit (a_x P).2 in
  let temp2 := x_sign_bit (a_x P).1 in
  if is_zero_ct [digit0 (a_x P).1; digit1 (a_x P).1] then encode_y (a_y P) temp1 else encode_y (a_y P) temp2.

(** [encode(A, (unsigned char* )A)]: the copy of y lands on x, which is read
    afterwards. *)
Definition encode_in_place (P : point_affine) : bytes :=
  let temp1 := x_sign_bit (a_x P).2 in
  let temp2 := x_sign_bit (a_x P).1 in
  if is_zero_ct [digit0 (a_y P).1; digit1 (a_y P).1] then encode_y (a_y P) temp1 else encode_y (a_y P) temp2.

(** ** Keys and signatures *)

Section schnorr.
(** The features of the processor, and the bytes of an array before it is
    written. *)
Context (features : Z) (uninit : bytes).

Definition crypto_blake3 (input : bytes) : bytes :=
  let hasher := blake3_hasher_init in
  let hasher := blake3_hasher_update (blake3_simd_degree features) uninit hasher input in
  blake3_hasher_finalize uninit hasher 64.

Definition SchnorrQ_KeyGeneration (SecretKey : bytes) : ECCRYPTO_STATUS * bytes :=
  let k := crypto_blake3 (take 32 SecretKey) in
  let P := ecc_mul_fixed (to_digits k) in
  (ECCRYPTO_SUCCESS, encode P).

(** [random] is what [random_bytes] leaves in the key; it always returns true. *)
Definition SchnorrQ_FullKeyGeneration (random : bytes) : ECCRYPTO_STATUS * bytes * bytes :=
  let SecretKey := random in
  let '(Status, PublicKey) := SchnorrQ_KeyGeneration SecretKey in
  match Status with
  | ECCRYPTO_SUCCESS => (ECCRYPTO_SUCCESS, SecretKey, PublicKey)
  | _ => (Status, zero_bytes 32, zero_bytes 32)
  end.

(** [alloc]: whether [calloc] returns memory. [None] when a copy leaves the
    buffer, whose size is computed in 32 bits. *)
Definition SchnorrQ_Sign (alloc : bool) (SecretKey PublicKey Message Signature : bytes) : option (ECCRYPTO_STATUS * bytes) :=
  let SizeMessage := u32 (zlen Message) in
  let k := crypto_blake3 (take 32 SecretKey) in
  if negb alloc then Some (ECCRYPTO_ERROR_NO_MEMORY, Signature) else
  let temp := zero_bytes (Z.to_nat (u32 (SizeMessage + 64))) in
  temp ← splice 32 (drop 32 k) temp;
  temp ← splice 64 Message temp;
  let r := crypto_blake3 (take (Z.to_nat (u32 (SizeMessage + 32))) (drop 32 temp)) in
  let R := ecc_mul_fixed (to_digits r) in
  Signature ← splice 0 (encode R) Signature;
  temp ← splice 0 (take 32 Signature) temp;
  temp ← splice 32 (take 32 PublicKey) temp;
  let h := crypto_blake3 (take (Z.to_nat (u32 (SizeMessage + 64))) temp) in
  let r := modulo_order (to_digits r) in
  let H := modulo_order (to_digits h) in
  let S := to_Montgomery (to_digits k) in
  let H := to_Montgomery H in
  let S := Montgomery_multiply_mod_order S H in
  let S := from_Montgomery S in
  let S := subtract_mod_order r S in
  Signature ← splice 32 (of_digits S) Signature;
  Some (ECCRYPTO_SUCCESS, Signature).
End schnorr.

(** ** Bytes and digits, as numbers *)

Lemma le_val_app a b : le_val (a ++ b) = le_val a + 2 ^ (8 * zlen a) * le_val b.
Proof.
  induction a as [|x a IH]; [cbn [app le_val]; change (2 ^ (8 * zlen [])) with 1; lia|]. cbn [app le_val]. rewrite IH, zlen_cons.
  replace (8 * (1 + zlen a)) with (8 + 8 * zlen a) by lia. rewrite Z.pow_add_r by (pose proof (zlen_nonneg a); lia). change (2 ^ 8) with 256. lia.
Qed.

Lemma to_digits_spec b : bytes_ok b -> (32 <= length b)%nat -> digits_ok 4 (to_digits b) /\ nval (to_digits b) = le_val (take 32 b).
Proof.
  intros Hb Hl. assert (forall i, (i < 4)%nat -> u64_ok (le_val (take 8 (drop (8 * i) b)))) as H.
  { intros i Hi. pose proof (le_val_range (take 8 (drop (8 * i) b)) ltac:(by apply Forall_take, Forall_drop)) as H.
    unfold zlen in H. rewrite length_take, length_drop in H. replace (8 `min` (length b - 8 * i))%nat with 8%nat in H by lia. exact H. }
  split.
  - split; [done|]. unfold to_digits. cbn [map seq NWORDS_ORDER]. repeat (apply Forall_cons_2; [apply H; lia|]). apply Forall_nil_2.
  - replace (take 32 b) with (take 8 (drop (8 * 0) b) ++ take 8 (drop (8 * 1) b) ++ take 8 (drop (8 * 2) b) ++ take 8 (drop (8 * 3) b)).
    + rewrite !le_val_app. unfold zlen. rewrite !length_take, !length_drop. unfold to_digits. cbn [map seq NWORDS_ORDER nval].
      replace (8 `min` (length b - 8 * 0))%nat with 8%nat by lia. replace (8 `min` (length b - 8 * 1))%nat with 8%nat by lia.
      replace (8 `min` (length b - 8 * 2))%nat with 8%nat by lia. change (8 * Z.of_nat 8) with 64. lia.
    + change 32%nat with (8 + (8 + (8 + 8)))%nat. by rewrite <- !take_take_drop, !drop_drop.
Qed.

Lemma of_digits_spec a : digits_ok 4 a -> length (of_digits a) = 32%nat /\ bytes_ok (of_digits a) /\ le_val (of_digits a) = nval a.
Proof.
  intros Ha. destruct (digits_ok_4 a Ha) as (a0 & a1 & a2 & a3 & -> & H0 & H1 & H2 & H3). unfold of_digits. cbn [map concat].
  rewrite app_nil_r. split; [done|]. split; [repeat (apply Forall_app; split); apply le_bytes_ok|].
  rewrite !le_val_app. unfold zlen. rewrite !length_le_bytes, !le_val_bytes. change (2 ^ (8 * Z.of_nat 8)) with (2 ^ 64). unfold u64_ok in *.
  rewrite !Z.mod_small by lia. cbn [nval]. change (8 * Z.of_nat 8) with 64. lia.
Qed.

(** ** Hashes *)

Lemma xof_slice_spec o seek n : length (xof_slice o seek n) = n /\ bytes_ok (xof_slice o seek n).
Proof.
  revert seek. induction n as [|n IH]; intros seek; cbn [xof_slice length]; [split; [done|apply Forall_nil_2]|].
  destruct (IH (seek + 1)) as [Hl Hb]. split; [lia|]. apply Forall_cons_2; [|exact Hb]. unfold xof_byte.
  destruct (xof_block o (seek / 64) !! Z.to_nat (seek mod 64)) as [b|] eqn:E; [|done]. cbn [default].
  pose proof (compress_xof_ok (o_input_cv o) (o_block o) (o_block_len o) (seek / 64) (Z.lor (o_flags o) ROOT)) as H.
  rewrite Forall_lookup in H. exact (H _ _ E).
Qed.

Lemma crypto_blake3_spec features uninit m : zlen m < 2 ^ 64 ->
  length (crypto_blake3 features uninit m) = 64%nat /\ bytes_ok (crypto_blake3 features uninit m).
Proof.
  intros Hm. assert (crypto_blake3 features uninit m = xof_slice (node IV 0 m 0) 0 64) as ->; [|apply xof_slice_spec].
  rewrite <- root_bytes_slice by done. apply (absorbed_finalize uninit IV 0).
  exact (features_update_ok features uninit IV 0 _ [] m (absorbed_init IV 0) Hm).
Qed.

(** ** What the encoding of a point determines *)

Lemma is_zero_felm x : felm_ok x -> is_zero_ct [digit0 x; digit1 x] = (x =? 0).
Proof.
  intros Hx. destruct (digits x Hx) as (E & H0 & H1).
  change (is_zero_ct [digit0 x; digit1 x]) with (negb (is_digit_zero_ct (Z.lor (digit0 x) (digit1 x)) =? 0)).
  rewrite is_digit_zero_spec by (apply (lor_range 64); lia). destruct (Z.eqb_spec (Z.lor (digit0 x) (digit1 x)) 0) as [E'|E'].
  - apply Z.lor_eq_0_iff in E' as [E0 E1]. destruct (Z.eqb_spec x 0); [done|lia].
  - destruct (Z.eqb_spec x 0) as [->|]; [|done]. by change (Z.lor (digit0 0) (digit1 0)) with 0 in E'.
Qed.

(** The highest bit of an element, its sign. *)
Definition top (x : felm) : Z := x / 2 ^ 126.

Lemma x_sign_bit_spec x : felm_ok x -> x_sign_bit x = 2 ^ 63 * top x.
Proof.
  intros Hx. destruct (digits x Hx) as (E & H0 & H1). unfold x_sign_bit, top, mask4000. change (2 ^ 62) with (Z.shiftl (Z.ones 1) 62).
  assert (Z.land (digit1 x) (Z.shiftl (Z.ones 1) 62) = 2 ^ 62 * (digit1 x / 2 ^ 62)) as ->.
  { apply Z.bits_inj'. intros n Hn.
    rewrite Z.land_spec, Z.shiftl_spec, Z.mul_comm, <- Z.shiftl_mul_pow2, <- Z.shiftr_div_pow2, Z.shiftl_spec by lia.
    destruct (Z.ltb_spec n 62); [by rewrite !(Z.testbit_neg_r _ (n - 62)), andb_false_r by lia|].
    rewrite Z.shiftr_spec by lia. replace (n - 62 + 62) with n by lia. destruct (Z.ltb_spec n 63).
    - replace (n - 62) with 0 by lia. change (Z.testbit (Z.ones 1) 0) with true. by rewrite andb_true_r.
    - rewrite (range_bits 63 (digit1 x)) by lia. done. }
  assert (digit1 x / 2 ^ 62 = x / 2 ^ 126) as ->.
  { unfold digit1. rewrite Z.shiftr_div_pow2, Z.div_div by lia. done. }
  unfold felm_ok in Hx. assert (0 <= x / 2 ^ 126 <= 1) by (Z.div_mod_to_equations; lia). rewrite Z.shiftl_mul_pow2 by done. rewrite wrap_small by lia. lia.
Qed.

Definition f2_ok (a : f2elm) : Prop := felm_ok a.1 /\ felm_ok a.2.

Lemma encode_y_spec y t : f2_ok y -> 0 <= t <= 1 ->
  length (encode_y y (2 ^ 63 * t)) = 32%nat /\ bytes_ok (encode_y y (2 ^ 63 * t)) /\ le_val (encode_y y (2 ^ 63 * t)) = y.1 + 2 ^ 128 * y.2 + 2 ^ 255 * t.
Proof.
  intros [H1 H2] Ht. destruct (digits _ H1) as (E1 & A1 & B1), (digits _ H2) as (E2 & A2 & B2).
  assert (Z.lor (digit1 y.2) (2 ^ 63 * t) = digit1 y.2 + t * 2 ^ 63) as E.
  { replace (2 ^ 63 * t) with (Z.shiftl t 63) by (rewrite Z.shiftl_mul_pow2 by done; lia). apply lor_above; lia. }
  assert (digits_ok 4 [digit0 y.1; digit1 y.1; digit0 y.2; Z.lor (digit1 y.2) (2 ^ 63 * t)]) as Hok.
  { split; [done|]. rewrite E. unfold u64_ok. repeat (apply Forall_cons_2; [lia|]). apply Forall_nil_2. }
  destruct (of_digits_spec _ Hok) as (Hl & Hb & Hv). split; [exact Hl|]. split; [exact Hb|]. unfold encode_y. rewrite Hv. cbn [nval]. lia.
Qed.

Definition affine_ok (P : point_affine) : Prop := f2_ok (a_x P) /\ f2_ok (a_y P).

Lemma encode_spec P : affine_ok P ->
  length (encode P) = 32%nat /\ bytes_ok (encode P) /\
  le_val (encode P) = (a_y P).1 + 2 ^ 128 * (a_y P).2 + 2 ^ 255 * top (if (a_x P).1 =? 0 then (a_x P).2 else (a_x P).1).
Proof.
  intros [[H1 H2] Hy]. unfold encode. rewrite is_zero_felm, !x_sign_bit_spec by done. unfold top, felm_ok in *.
  destruct (_ =? 0); apply encode_y_spec; (done || (Z.div_mod_to_equations; lia)).
Qed.

Lemma affine_of_ok p : affine_ok (affine_of p).
Proof. destruct (affine_of_is p) as [Hx Hy]. split; [exact (rep_ok _ _ Hx)|exact (rep_ok _ _ Hy)]. Qed.

(** The two roots of an element have different signs. *)
Lemma top_opp (v : gf) : v <> Zmod.zero -> top (Zmod.to_Z (Zmod.opp v)) <> top (Zmod.to_Z v).
Proof.
  intros Hv. pose proof (Zmod.unsigned_pos_bound v eq_refl) as Hr. assert (Zmod.to_Z v <> 0) as H0.
  { intros E. apply Hv. apply Zmod.to_Z_inj. by rewrite E, Zmod.to_Z_0. }
  assert (Zmod.to_Z (Zmod.opp v) = prime1271 - Zmod.to_Z v) as ->.
  { rewrite Zmod.to_Z_opp. symmetry. apply (Z.mod_unique _ _ (-1)); lia. }
  assert (prime1271 = 2 ^ 127 - 1) as Hp by done. unfold top. generalize dependent (Zmod.to_Z v). intros z Hr H0. Z.div_mod_to_equations. lia.
Qed.

Lemma to_Z_eqb_0 (v : gf) : (Zmod.to_Z v =? 0) = bool_decide (v = Zmod.zero).
Proof.
  destruct (Z.eqb_spec (Zmod.to_Z v) 0) as [E|E]; symmetry; [apply bool_decide_eq_true_2|apply bool_decide_eq_false_2].
  - apply Zmod.to_Z_inj. by rewrite E, Zmod.to_Z_0.
  - intros ->. by rewrite Zmod.to_Z_0 in E.
Qed.

Lemma encode_determines p q : encode (affine_of p) = encode (affine_of q) -> p = q.
Proof.
  intros E. destruct (encode_spec _ (affine_of_ok p)) as (_ & _ & Ep). destruct (encode_spec _ (affine_of_ok q)) as (_ & _ & Eq). rewrite E, Eq in Ep. clear E Eq.
  assert (forall v : gf, 0 <= Zmod.to_Z v < 2 ^ 127 - 1) as Hr by (intros v; exact (Zmod.unsigned_pos_bound v eq_refl)).
  assert (forall v : gf, 0 <= top (Zmod.to_Z v) <= 1) as Ht by (intros v; specialize (Hr v); unfold top; Z.div_mod_to_equations; lia).
  unfold affine_of in Ep. cbn [a_x a_y fst snd] in Ep.
  assert (Zmod.to_Z (py _ q).1 = Zmod.to_Z (py _ p).1 /\ Zmod.to_Z (py _ q).2 = Zmod.to_Z (py _ p).2 /\
    top (if Zmod.to_Z (px _ q).1 =? 0 then Zmod.to_Z (px _ q).2 else Zmod.to_Z (px _ q).1) =
    top (if Zmod.to_Z (px _ p).1 =? 0 then Zmod.to_Z (px _ p).2 else Zmod.to_Z (px _ p).1)) as (E1 & E2 & E3).
  { pose proof (Hr (py _ p).1). pose proof (Hr (py _ p).2). pose proof (Hr (py _ q).1). pose proof (Hr (py _ q).2).
    pose proof (Ht (px _ p).1). pose proof (Ht (px _ p).2). pose proof (Ht (px _ q).1). pose proof (Ht (px _ q).2).
    destruct (_ =? 0), (_ =? 0); lia. }
  apply Zmod.to_Z_inj in E1, E2. assert (py _ p = py _ q) as Ey by (apply injective_projections; done).
  pose proof (p_on _ p) as Hp. pose proof (p_on _ q) as Hq. rewrite <- Ey in Hq.
  destruct (same_y_coordinate curve_d curve_i _ _ _ Hp Hq) as [Ex|Ex]; [by apply point_eq|].
  change (px _ q = gf2_opp (px _ p)) in Ex. apply point_eq; [|done]. rewrite Ex in *. revert E3. generalize (px curve_d p). clear. intros [x0 x1].
  unfold gf2_opp. cbn [fst snd]. rewrite !to_Z_eqb_0. assert (Zmod.opp (Zmod.zero : gf) = Zmod.zero) as Hz by (apply Zmod.opp_0).
  destruct (decide (x0 = Zmod.zero)) as [->|Hne].
  - rewrite Hz, bool_decide_eq_true_2 by done. intros E. destruct (decide (x1 = Zmod.zero)) as [->|Hne]; [by rewrite Hz|]. by apply top_opp in Hne.
  - assert (Zmod.opp x0 <> Zmod.zero) as Hn by (intros E; apply Hne; rewrite <- (Zmod.opp_opp x0), E; exact Hz).
    rewrite !bool_decide_eq_false_2 by done. intros E. by apply top_opp in Hne.
Qed.

(** C21. The 32-byte encoding of a point of the curve determines the point: it
    holds y, and the highest bit of x tells x from -x. *)
Theorem encode_inj p q : encode (affine_of p) = encode (affine_of q) -> p = q.
Proof. apply encode_determines. Qed.

Example encode_inj_witness : encode (affine_of (fq_mul order fq_G)) = encode (affine_of fq_zero) /\ fq_mul order fq_G = fq_zero.
Proof.
  assert (encode (affine_of (fq_mul order fq_G)) = encode (affine_of fq_zero)) as H by (rewrite generator_order; reflexivity).
  split; [exact H|exact (encode_inj _ _ H)].
Defined.

(** A copy into a buffer cut at the place of the copy. *)
Lemma splice_parts a b c x i : i = length a -> length x = length b -> splice i x (a ++ b ++ c) = Some (a ++ x ++ c).
Proof.
  intros -> Hx. unfold splice. rewrite !length_app. destruct (Nat.leb_spec (length a + length x) (length a + (length b + length c))); [|lia].
  rewrite take_app_length, <- drop_drop, drop_app_length, Hx, drop_app_length. done.
Qed.

(** The flow of bytes of a signature, whatever is computed from them. *)
Section buffers.
Context (hash : bytes -> bytes) (nonce_point : bytes -> bytes) (scalar : bytes -> bytes -> bytes -> bytes).

Definition sign_flow (SecretKey PublicKey Message Signature : bytes) : option (ECCRYPTO_STATUS * bytes) :=
  let SizeMessage := u32 (zlen Message) in
  let k := hash (take 32 SecretKey) in
  let temp := zero_bytes (Z.to_nat (u32 (SizeMessage + 64))) in
  temp ← splice 32 (drop 32 k) temp;
  temp ← splice 64 Message temp;
  let r := hash (take (Z.to_nat (u32 (SizeMessage + 32))) (drop 32 temp)) in
  Signature ← splice 0 (nonce_point r) Signature;
  temp ← splice 0 (take 32 Signature) temp;
  temp ← splice 32 (take 32 PublicKey) temp;
  let h := hash (take (Z.to_nat (u32 (SizeMessage + 64))) temp) in
  Signature ← splice 32 (scalar k r h) Signature;
  Some (ECCRYPTO_SUCCESS, Signature).

Lemma sign_buffers SecretKey PublicKey Message Signature :
  length PublicKey = 32%nat -> length Signature = 64%nat -> zlen Message + 64 < 2 ^ 32 -> length (hash (take 32 SecretKey)) = 64%nat ->
  let k := hash (take 32 SecretKey) in
  let r := hash (drop 32 k ++ Message) in
  let R := nonce_point r in
  let h := hash (R ++ PublicKey ++ Message) in
  length R = 32%nat -> length (scalar k r h) = 32%nat ->
  sign_flow SecretKey PublicKey Message Signature = Some (ECCRYPTO_SUCCESS, R ++ scalar k r h).
Proof.
  intros Hpk Hsig Hm Kl k r R h HR Hs. unfold sign_flow. pose proof (zlen_nonneg Message) as Hnn. rewrite (wrap_small 32 (zlen Message)) by lia. cbv zeta.
  rewrite (wrap_small 32 (zlen Message + 64)), (wrap_small 32 (zlen Message + 32)) by lia. fold k in Kl |- *.
  assert (zero_bytes (Z.to_nat (zlen Message + 64)) = zero_bytes 32 ++ zero_bytes 32 ++ zero_bytes (length Message)) as ->.
  { unfold zero_bytes. rewrite <- !replicate_add. f_equal. unfold zlen. lia. }
  rewrite (splice_parts (zero_bytes 32) (zero_bytes 32)) by (rewrite ?length_drop, ?Kl; reflexivity). cbn [mbind option_bind].
  replace (zero_bytes 32 ++ drop 32 k ++ zero_bytes (length Message)) with ((zero_bytes 32 ++ drop 32 k) ++ zero_bytes (length Message) ++ []) by (by rewrite app_nil_r, app_assoc).
  rewrite (splice_parts (zero_bytes 32 ++ drop 32 k)) by (unfold zero_bytes; rewrite ?length_app, ?length_drop, ?Kl, ?length_replicate; reflexivity). cbn [mbind option_bind].
  rewrite app_nil_r, <- app_assoc. rewrite (drop_app_length' (zero_bytes 32)) by reflexivity.
  rewrite (take_ge (drop 32 k ++ Message)) by (rewrite length_app, length_drop, Kl; unfold zlen; lia). fold r. fold R.
  rewrite <- (take_drop 32 Signature) at 1. rewrite <- (app_nil_l (take 32 Signature ++ _)).
  rewrite (splice_parts []) by (rewrite ?length_take, ?Hsig, ?HR; reflexivity). cbn [mbind option_bind app].
  rewrite (take_app_length' R) by exact (eq_sym HR). rewrite <- (app_nil_l (zero_bytes 32 ++ _)). rewrite (splice_parts []) by (rewrite ?HR; reflexivity). cbn [mbind option_bind app].
  rewrite (splice_parts R (drop 32 k)) by (rewrite ?length_take, ?length_drop, ?Hpk, ?Kl, ?HR; reflexivity). cbn [mbind option_bind].
  rewrite (take_ge PublicKey) by lia. rewrite (take_ge (R ++ PublicKey ++ Message)) by (rewrite !length_app, HR, Hpk; unfold zlen; lia). fold h.
  rewrite <- (app_nil_r (drop 32 Signature)).
  rewrite (splice_parts R) by (rewrite ?length_drop, ?Hsig, ?HR, ?Hs; reflexivity). cbn [mbind option_bind]. by rewrite app_nil_r.
Qed.
End buffers.

(** ** Keys and signatures, as numbers *)

Section scheme.
Context (features : Z) (uninit : bytes).

(** The first 32 bytes of a hash as a number, and the challenge of a message. *)
Definition hash_number (m : bytes) : Z := le_val (take 32 (crypto_blake3 features uninit m)).
Definition secret_scalar (SecretKey : bytes) : Z := hash_number (take 32 SecretKey).
Definition public_point (SecretKey : bytes) : fq_point := fq_mul (secret_scalar SecretKey) fq_G.
Definition challenge (R PublicKey Message : bytes) : Z := hash_number (R ++ PublicKey ++ Message).

Lemma hash_digits m : zlen m < 2 ^ 64 ->
  digits_ok 4 (to_digits (crypto_blake3 features uninit m)) /\ nval (to_digits (crypto_blake3 features uninit m)) = hash_number m.
Proof.
  intros Hm. destruct (crypto_blake3_spec features uninit m Hm) as [Hl Hb]. apply to_digits_spec; [exact Hb|lia].
Qed.

Lemma zlen_take {A} n (l : list A) : zlen (take n l) <= Z.of_nat n.
Proof. unfold zlen. rewrite length_take. lia. Qed.

Lemma key_generation SecretKey : SchnorrQ_KeyGeneration features uninit SecretKey = (ECCRYPTO_SUCCESS, encode (affine_of (public_point SecretKey))).
Proof.
  unfold SchnorrQ_KeyGeneration. pose proof (zlen_take 32 SecretKey) as Hl. destruct (hash_digits (take 32 SecretKey) ltac:(lia)) as [Hd Hv].
  cbv zeta. rewrite (ecc_mul_fixed_spec _ Hd), Hv. unfold public_point, secret_scalar. reflexivity.
Qed.

(** The scalar of a signature. *)
Definition scalar_of (k r h : digits_t) : digits_t :=
  subtract_mod_order (modulo_order r) (from_Montgomery (Montgomery_multiply_mod_order (to_Montgomery k) (to_Montgomery (modulo_order h)))).

Lemma scalar_spec k r h : digits_ok 4 k -> digits_ok 4 r -> digits_ok 4 h ->
  digits_ok 4 (scalar_of k r h) /\ nval (scalar_of k r h) = (nval r - nval k * nval h) mod order.
Proof.
  intros Hk Hr Hh. destruct (modulo_order_spec r Hr) as [Rok Er]. destruct (modulo_order_spec h Hh) as [Hok Eh].
  destruct (Montgomery_product k _ Hk Hok) as [Sok Es]. cbv zeta in *. pose proof order_range as Ho.
  assert (0 < order) as Hpos by lia. pose proof (Z.mod_pos_bound (nval r) order Hpos). pose proof (Z.mod_pos_bound (nval k * nval (modulo_order h)) order Hpos).
  destruct (subtract_mod_order_spec _ _ Rok Sok ltac:(lia)) as [Dok Ed]. split; [exact Dok|]. unfold scalar_of. rewrite Ed, Er, Es, Eh in *.
  rewrite Z.mul_mod_idemp_r in * by lia. rewrite Zminus_mod. set (a := nval r mod order) in *. set (b := (nval k * nval h) mod order) in *.
  destruct (Z.ltb_spec a b); [|symmetry; rewrite Z.add_0_r; apply Z.mod_small; lia]. apply (Z.mod_unique _ _ (-1)); lia.
Qed.

#[local] Opaque crypto_blake3 ecc_mul_fixed encode to_digits of_digits modulo_order to_Montgomery from_Montgomery Montgomery_multiply_mod_order subtract_mod_order affine_of.

(** The buffers of a signature: what is hashed and what is written. *)
Definition nonce_input (SecretKey Message : bytes) : bytes := drop 32 (crypto_blake3 features uninit (take 32 SecretKey)) ++ Message.
Definition nonce (SecretKey Message : bytes) : Z := hash_number (nonce_input SecretKey Message).

Lemma sign_eq SecretKey PublicKey Message Signature :
  length PublicKey = 32%nat -> length Signature = 64%nat -> zlen Message + 64 < 2 ^ 32 ->
  let k := crypto_blake3 features uninit (take 32 SecretKey) in
  let r := crypto_blake3 features uninit (nonce_input SecretKey Message) in
  let R := encode (ecc_mul_fixed (to_digits r)) in
  let h := crypto_blake3 features uninit (R ++ PublicKey ++ Message) in
  length R = 32%nat -> length (of_digits (scalar_of (to_digits k) (to_digits r) (to_digits h))) = 32%nat ->
  SchnorrQ_Sign features uninit true SecretKey PublicKey Message Signature =
  Some (ECCRYPTO_SUCCESS, R ++ of_digits (scalar_of (to_digits k) (to_digits r) (to_digits h))).
Proof.
  intros Hpk Hsig Hm. pose proof (zlen_take 32 SecretKey) as Hsk. destruct (crypto_blake3_spec features uninit (take 32 SecretKey) ltac:(lia)) as [Kl _].
  exact (sign_buffers (crypto_blake3 features uninit) (fun r => encode (ecc_mul_fixed (to_digits r)))
    (fun k r h => of_digits (scalar_of (to_digits k) (to_digits r) (to_digits h))) SecretKey PublicKey Message Signature Hpk Hsig Hm Kl).
Qed.

(** The equation of a Schnorr signature, with the challenge the verifier computes
    from the signature, the key and the message. *)
Lemma sign_spec SecretKey PublicKey Message Signature :
  length PublicKey = 32%nat -> length Signature = 64%nat -> zlen Message + 64 < 2 ^ 32 ->
  exists R s, SchnorrQ_Sign features uninit true SecretKey PublicKey Message Signature = Some (ECCRYPTO_SUCCESS, R ++ s) /\
    length R = 32%nat /\ length s = 32%nat /\ bytes_ok (R ++ s) /\ le_val s < order /\
    R = encode (affine_of (fq_add (fq_mul (le_val s) fq_G) (fq_mul (challenge R PublicKey Message) (public_point SecretKey)))).
Proof.
  intros Hpk Hsig Hm. pose proof (sign_eq SecretKey PublicKey Message Signature Hpk Hsig Hm) as E. cbv zeta in E.
  pose proof (zlen_take 32 SecretKey) as Hsk. destruct (hash_digits (take 32 SecretKey) ltac:(lia)) as [Kok Ek]. fold (secret_scalar SecretKey) in Ek.
  destruct (crypto_blake3_spec features uninit (take 32 SecretKey) ltac:(lia)) as [Kl _].
  assert (zlen (nonce_input SecretKey Message) < 2 ^ 64) as Hn.
  { unfold nonce_input, zlen. rewrite length_app, length_drop, Kl. unfold zlen in Hm. lia. }
  destruct (hash_digits _ Hn) as [Rok Er]. rewrite (ecc_mul_fixed_spec _ Rok), Er in E.
  set (R := encode (affine_of (fq_mul (hash_number (nonce_input SecretKey Message)) fq_G))) in *.
  destruct (encode_spec _ (affine_of_ok (fq_mul (hash_number (nonce_input SecretKey Message)) fq_G))) as (RL & RB & _). fold R in RL, RB.
  destruct (hash_digits (R ++ PublicKey ++ Message)) as [Hok Eh].
  { unfold zlen in *. rewrite !length_app, RL, Hpk. lia. }
  destruct (scalar_spec _ _ _ Kok Rok Hok) as [Sok Es]. destruct (of_digits_spec _ Sok) as (SL & SB & SV).
  specialize (E RL SL). exists R. eexists. split; [exact E|]. split; [exact RL|]. split; [exact SL|]. split; [apply Forall_app; split; [exact RB|exact SB]|].
  rewrite SV, Es, Ek, Er, Eh. fold (challenge R PublicKey Message). pose proof order_range as Ho. split; [apply Z.mod_pos_bound; lia|].
  unfold R at 1. f_equal. f_equal. rewrite (smul_mod curve_d curve_i _ order fq_G ltac:(lia) generator_order). unfold public_point.
  rewrite <- (smul_mul curve_d curve_i), <- (smul_add curve_d curve_i). f_equal. lia.
Qed.
End scheme.

(** C20. Signing with a key pair of [SchnorrQ_KeyGeneration] a message of less than
    2^32 - 64 bytes, into a buffer of 64. When [calloc] returns no memory,
    [SchnorrQ_Sign] says so and leaves the buffer alone. When it does, it
    succeeds and leaves a Schnorr signature: 32 bytes that encode the point R,
    and a scalar s below the order with R = s G + h A, where A is the point that
    the public key encodes and h the hash of R, the public key and the
    message. *)
Theorem sign_equation features uninit SecretKey PublicKey Message Signature :
  SchnorrQ_KeyGeneration features uninit SecretKey = (ECCRYPTO_SUCCESS, PublicKey) ->
  length Signature = 64%nat -> zlen Message + 64 < 2 ^ 32 ->
  SchnorrQ_Sign features uninit false SecretKey PublicKey Message Signature = Some (ECCRYPTO_ERROR_NO_MEMORY, Signature) /\
  exists A R s, PublicKey = encode (affine_of A) /\
    SchnorrQ_Sign features uninit true SecretKey PublicKey Message Signature = Some (ECCRYPTO_SUCCESS, encode (affine_of R) ++ s) /\
    length s = 32%nat /\ bytes_ok s /\ le_val s < order /\
    R = fq_add (fq_mul (le_val s) fq_G)
          (fq_mul (le_val (take 32 (crypto_blake3 features uninit (encode (affine_of R) ++ PublicKey ++ Message)))) A).
Proof.
  intros Hk Hsig Hm. split; [reflexivity|]. rewrite key_generation in Hk. apply pair_equal_spec in Hk as [_ Hk]. exists (public_point features uninit SecretKey).
  assert (length PublicKey = 32%nat) as Hpk.
  { rewrite <- Hk. exact (proj1 (encode_spec _ (affine_of_ok _))). }
  destruct (sign_spec features uninit SecretKey PublicKey Message Signature Hpk Hsig Hm) as (R & s & E & HR & Hs & Hb & Hlt & ER).
  eexists _, s. split; [exact (eq_sym Hk)|]. split; [rewrite E, <- ER; reflexivity|]. split; [exact Hs|].
  apply Forall_app in Hb as [_ Hb]. split; [exact Hb|]. split; [exact Hlt|]. rewrite <- ER at 1. reflexivity.
Qed.

Example sign_equation_witness :
  let sk := zero_bytes 32 in
  exists pk sig R s, SchnorrQ_KeyGeneration 0 [] sk = (ECCRYPTO_SUCCESS, pk) /\
    SchnorrQ_Sign 0 [] true sk pk [1; 2; 3] (zero_bytes 64) = Some (ECCRYPTO_SUCCESS, sig) /\ sig = encode (affine_of R) ++ s /\ le_val s < order.
Proof.
  cbv zeta. eexists. destruct (sign_equation 0 [] (zero_bytes 32) _ [1; 2; 3] (zero_bytes 64) (key_generation 0 [] (zero_bytes 32)) eq_refl eq_refl)
    as (_ & A & R & s & _ & E & _ & _ & Hlt & _).
  eexists _, R, s. split; [exact (key_generation 0 [] (zero_bytes 32))|]. split; [exact E|]. split; [reflexivity|exact Hlt].
Defined.

(** A point of the curve on which the encoding in place loses the sign: x has
    only an imaginary part. *)
Definition imaginary_x : point_affine :=
  Affine (0, 0x40000000000000000000000000000004) (0x60ca6e5bc7ca8078340ef0f1144d545e, 0x0d88e49d51fe3d79a52cda8caf0ebfee).

Lemma encode_in_place_differs :
  ecc_point_validate (point_setup imaginary_x) = true /\ encode_in_place imaginary_x <> encode imaginary_x.
Proof. split; [vm_compute; reflexivity|]. intros H. vm_compute in H. discriminate. Qed.

(** Elsewhere it is the encoding. *)
Lemma encode_in_place_same P : affine_ok P -> (a_x P).1 <> 0 -> (a_y P).1 <> 0 -> encode_in_place P = encode P.
Proof.
  intros [[Hx _] [Hy _]] Nx Ny. unfold encode_in_place, encode. rewrite !is_zero_felm by done. apply Z.eqb_neq in Nx, Ny. by rewrite Nx, Ny.
Qed.
