(* ===== verification/FizzyLeb128.v ===== *)
(** * LEB128 integers of WebAssembly modules

    [external/fizzy/lib/fizzy/leb128.hpp] and the byte readers of parser.hpp. A
    parser is a computation on the bytes between [pos] and [end]. The decoders
    are characterised exactly: they accept the encodings of the numbers of their
    width and nothing else. *)

From stdpp Require Import base list option numbers strings.
From S2P Require Import Prelude Memory.

Abbreviation parser := (M bytes).

Definition unexpected_eof : exn := parser_error "unexpected EOF".

(** ** parser.hpp *)

Definition parse_byte : parser Z := fun input =>
  match input with
  | [] => Throw unexpected_eof input
  | b :: rest => Ret b rest
  end.

(** [parse_value< T >] for an unsigned [T] of [size] bytes. *)
Definition parse_value (size : nat) : parser Z := fun input =>
  if (length input <? size)%nat then Throw unexpected_eof input
  else Ret (le_val (take size input)) (drop size input).

(** ** leb128.hpp *)

Section leb128.
(** [std::numeric_limits< T >::digits] of the unsigned type. *)
Context (digits : Z).

Fixpoint leb128u_loop (result result_shift : Z) (input : bytes) : outcome bytes Z :=
  if result_shift <? digits then
    match input with
    | [] => Throw unexpected_eof input
    | b :: rest =>
        let result := Z.lor result (wrap digits (Z.shiftl (Z.land b 0x7F) result_shift)) in
        if Z.land b 0x80 =? 0 then
          if negb (b =? Z.shiftr result result_shift)
          then Throw (parser_error "invalid LEB128 encoding: unused bits set") input
          else Ret result rest
        else leb128u_loop result (result_shift + 7) rest
    end
  else Throw (parser_error "invalid LEB128 encoding: too many bytes") input.

Definition leb128u_decode : parser Z := leb128u_loop 0 0.

(** [static_cast< T >] of the unsigned pattern. *)
Definition signed (z : Z) : Z := if z <? 2 ^ (digits - 1) then z else z - 2 ^ digits.

Fixpoint leb128s_loop (result result_shift : Z) (input : bytes) : outcome bytes Z :=
  if result_shift <? digits then
    match input with
    | [] => Throw unexpected_eof input
    | b :: rest =>
        let result := Z.lor result (wrap digits (Z.shiftl (Z.land b 0x7F) result_shift)) in
        if Z.land b 0x80 =? 0 then
          if result_shift + 7 <? digits then
            if negb (Z.land b 0x40 =? 0)
            then Ret (signed (Z.lor result (wrap digits (Z.shiftl (2 ^ digits - 1) (result_shift + 7))))) rest
            else Ret (signed result) rest
          else if negb (b =? Z.land (u8 (Z.shiftr (signed result) result_shift)) 0x7F)
          then Throw (parser_error "invalid LEB128 encoding: unused bits not equal to sign bit") input
          else Ret (signed result) rest
        else leb128s_loop result (result_shift + 7) rest
    end
  else Throw (parser_error "invalid LEB128 encoding: too many bytes") input.

Definition leb128s_decode : parser Z := leb128s_loop 0 0.
End leb128.

(** ** The encoding *)

(** Groups of seven bits, the least significant first; the high bit of a byte
    says whether another one follows. *)
Inductive leb128 : bytes -> Prop :=
| leb_last b : 0 <= b < 128 -> leb128 [b]
| leb_more b l : 128 <= b < 256 -> leb128 l -> leb128 (b :: l).

Fixpoint leb_value (l : bytes) : Z :=
  match l with
  | [] => 0
  | b :: l => Z.land b 127 + 128 * leb_value l
  end.

(** The number read as two's complement of all its groups. *)
Definition leb_svalue (l : bytes) : Z :=
  let v := leb_value l in let w := 7 * zlen l in if v <? 2 ^ (w - 1) then v else v - 2 ^ w.

(** The shortest encoding of a natural number. *)
Fixpoint leb128u_encode (fuel : nat) (v : Z) : bytes :=
  match fuel with
  | O => [Z.land v 127]
  | S fuel => if v <? 128 then [v] else (Z.land v 127 + 128) :: leb128u_encode fuel (v / 128)
  end.

(** ** Arithmetic of the bit operations *)

Lemma land_127 b : Z.land b 127 = b `mod` 128.
Proof. change 127 with (Z.ones 7). by rewrite Z.land_ones by lia. Qed.

Lemma land_bit b n : 0 <= n -> (Z.land b (2 ^ n) =? 0) = negb (Z.testbit b n).
Proof.
  intros Hn. destruct (Z.testbit b n) eqn:E; cbn [negb].
  - apply Z.eqb_neq. intros Hz. apply (f_equal (fun z => Z.testbit z n)) in Hz.
    rewrite Z.land_spec, E, Z.pow2_bits_true, Z.bits_0 in Hz by done. done.
  - apply Z.eqb_eq, Z.bits_inj'. intros m Hm. rewrite Z.land_spec, Z.bits_0.
    destruct (decide (m = n)) as [->|Hne]; [by rewrite E|]. by rewrite Z.pow2_bits_false, andb_false_r.
Qed.

Lemma high_bit b : 0 <= b < 256 -> (Z.land b 0x80 =? 0) = (b <? 128).
Proof.
  intros Hb. change 0x80 with (2 ^ 7). rewrite land_bit by lia.
  rewrite Z.testbit_eqb by lia. change (2 ^ 7) with 128.
  destruct (b <? 128) eqn:E; [apply Z.ltb_lt in E; by rewrite Z.div_small by lia|apply Z.ltb_ge in E].
  replace (b / 128) with 1 by (apply Z.div_unique with (b - 128); lia). done.
Qed.

Lemma absorb_byte w result n b :
  0 <= n <= w -> 0 <= result < 2 ^ n ->
  Z.lor result (wrap w (Z.shiftl (Z.land b 127) n)) = result + (b `mod` 128) `mod` 2 ^ (w - n) * 2 ^ n.
Proof. intros Hn Hr. rewrite land_127, wrap_shiftl, lor_above by lia. done. Qed.

Lemma leb128_pos l : leb128 l -> 1 <= zlen l.
Proof. unfold zlen. destruct 1; cbn [length]; lia. Qed.

Lemma pow_split w n : 0 <= n <= w -> 2 ^ w = 2 ^ (w - n) * 2 ^ n.
Proof. intros Hn. rewrite <- Z.pow_add_r by lia. f_equal. lia. Qed.

(** ** Exactness of the decoders *)

Section exact.
Context (digits : Z).

(** The loop, from what it has absorbed. *)
Lemma u_loop_spec input result n v rest :
  0 <= n -> 0 <= result < 2 ^ n -> bytes_ok input ->
  leb128u_loop digits result n input = Ret v rest <->
  exists l, leb128 l /\ input = l ++ rest /\ n + 7 * (zlen l - 1) < digits /\
    v = result + leb_value l * 2 ^ n /\ v < 2 ^ digits.
Proof.
  revert result n. induction input as [|b input IH]; intros result n Hn Hr Hok; cbn [leb128u_loop].
  { split; [by destruct (n <? digits)|]. intros (l & Hl & Hin & _). symmetry in Hin. apply app_eq_nil in Hin as [-> _]. inversion Hl. }
  apply Forall_cons in Hok as [Hb Hok]. destruct (n <? digits) eqn:En; cycle 1.
  { apply Z.ltb_ge in En. split; [done|]. intros (l & Hl & _ & Hlt & _). pose proof (leb128_pos _ Hl). lia. }
  apply Z.ltb_lt in En. assert (0 < 2 ^ n) as Hpn by (apply Z.pow_pos_nonneg; lia).
  assert (0 < 2 ^ (digits - n)) as Hpd by (apply Z.pow_pos_nonneg; lia).
  pose proof (pow_split digits n ltac:(lia)) as Hpow.
  change 0x7F with 127. rewrite absorb_byte by lia. rewrite high_bit by done.
  destruct (b <? 128) eqn:Eb.
  - apply Z.ltb_lt in Eb. unfold byte_ok in Hb. rewrite (Z.mod_small b 128) by lia. rewrite shiftr_above by lia.
    destruct (b =? b `mod` 2 ^ (digits - n)) eqn:Em; cbn [negb].
    + apply Z.eqb_eq in Em. pose proof (Z.mod_pos_bound b (2 ^ (digits - n)) Hpd). rewrite <- Em. split.
      * intros [= <- <-]. exists [b]. split; [apply leb_last; lia|]. split; [done|]. split; [unfold zlen; cbn [length]; lia|].
        cbn [leb_value]. rewrite land_127, Z.mod_small by lia. split; [lia|]. rewrite Hpow. nia.
      * intros (l & Hl & Hin & _ & Hv & _). inversion Hl as [b' Hb' E|b' l' Hb' Hl' E]; subst l; simplify_eq/=; [|lia].
        rewrite land_127, Z.mod_small by lia. f_equal. lia.
    + apply Z.eqb_neq in Em. split; [done|]. intros (l & Hl & Hin & _ & Hv & Hlt). destruct Em. symmetry. apply Z.mod_small.
      inversion Hl as [b' Hb' E|b' l' Hb' Hl' E]; subst l; simplify_eq/=; [|lia].
      rewrite land_127, Z.mod_small in Hlt by lia. split; [lia|]. rewrite Hpow in Hlt. nia.
  - apply Z.ltb_ge in Eb. unfold byte_ok in Hb. replace (b `mod` 128) with (b - 128) by (apply Z.mod_unique with 1; lia).
    set (t := (b - 128) `mod` 2 ^ (digits - n)).
    assert (0 <= t < 2 ^ (digits - n) /\ t <= b - 128) as [Ht Htb]
      by (split; [by apply Z.mod_pos_bound|apply Z.mod_le; lia]).
    rewrite IH; [|lia| |done]; cycle 1.
    { rewrite Z.pow_add_r by lia. change (2 ^ 7) with 128. nia. }
    split.
    + intros (l & Hl & -> & Hlt & Hv & Hv2). exists (b :: l). pose proof (leb128_pos _ Hl).
      assert (t = b - 128) as Et.
      { apply Z.mod_small. split; [lia|]. assert (2 ^ 7 <= 2 ^ (digits - n)) by (apply Z.pow_le_mono_r; lia). lia. }
      split; [apply leb_more; [lia|done]|]. split; [done|]. split; [unfold zlen in *; cbn [length]; lia|]. split; [|done].
      cbn [leb_value]. rewrite land_127. replace (b `mod` 128) with (b - 128) by (apply Z.mod_unique with 1; lia).
      rewrite Hv, Et, Z.pow_add_r by lia. change (2 ^ 7) with 128. ring.
    + intros (l & Hl & Hin & Hlt & Hv & Hv2). inversion Hl as [b' Hb' E|b' l' Hb' Hl' E]; subst l; simplify_eq/=; [lia|].
      pose proof (leb128_pos _ Hl'). exists l'. split; [done|]. split; [done|]. unfold zlen in Hlt, H. cbn [length] in Hlt.
      split; [unfold zlen; lia|]. split; [|done].
      assert (t = b' - 128) as Et.
      { apply Z.mod_small. split; [lia|]. assert (2 ^ 7 <= 2 ^ (digits - n)) by (apply Z.pow_le_mono_r; lia). lia. }
      rewrite land_127. replace (b' `mod` 128) with (b' - 128) by (apply Z.mod_unique with 1; lia).
      rewrite Et, Z.pow_add_r by lia. change (2 ^ 7) with 128. ring.
Qed.

(** The last byte of a signed number, when it crosses the width: [k] of its
    bits belong to the number. *)
Definition last_byte_ok (k b : Z) : bool :=
  let t := b `mod` 2 ^ k in
  if b =? Z.land (u8 (if t <? 2 ^ (k - 1) then t else t - 2 ^ k)) 127
  then if t <? 2 ^ (k - 1) then (b =? t) && (b <? 64) && (b <? 2 ^ (k - 1))
       else (b - 128 =? t - 2 ^ k) && (64 <=? b) && (- 2 ^ (k - 1) <=? b - 128)
  else if b <? 64 then 2 ^ (k - 1) <=? b else b - 128 <? - 2 ^ (k - 1).

Lemma last_byte k b : 1 <= k <= 7 -> 0 <= b < 128 -> last_byte_ok k b = true.
Proof.
  intros Hk Hb.
  assert (forallb (fun k => forallb (fun b => last_byte_ok (Z.of_nat k) (Z.of_nat b)) (seq 0 128)) (seq 1 7) = true) as H by (vm_compute; done).
  rewrite forallb_forall in H. specialize (H (Z.to_nat k)). rewrite forallb_forall in H.
  specialize (fun H1 => H H1 (Z.to_nat b)). rewrite !Z2Nat.id in H by lia. apply H; apply in_seq; lia.
Qed.

Lemma half_pow w : 1 <= w -> 2 ^ w = 2 * 2 ^ (w - 1).
Proof. intros. rewrite <- Z.pow_succ_r by lia. f_equal. lia. Qed.

(** The sign of a number of [n] low bits and a byte above them. *)
Lemma sign_of_last n result b :
  0 <= n -> 0 <= result < 2 ^ n -> 0 <= b < 128 ->
  (result + b * 2 ^ n <? 2 ^ (n + 7 - 1)) = (b <? 64).
Proof.
  intros Hn Hr Hb. replace (n + 7 - 1) with (6 + n) by lia. rewrite Z.pow_add_r by lia. change (2 ^ 6) with 64.
  destruct (b <? 64) eqn:E; [apply Z.ltb_lt in E; apply Z.ltb_lt|apply Z.ltb_ge in E; apply Z.ltb_ge]; nia.
Qed.

(** A signed number that ends before the last group of the width. *)
Lemma s_last_inside n result b :
  0 <= n -> n + 7 < digits -> 0 <= result < 2 ^ n -> 0 <= b < 128 ->
  let u := result + b * 2 ^ n in
  (if negb (Z.land b 0x40 =? 0) then signed digits (Z.lor u (wrap digits (Z.shiftl (2 ^ digits - 1) (n + 7)))) else signed digits u) =
  (if b <? 64 then u else u - 2 ^ (n + 7)) /\
  - 2 ^ (digits - 1) <= (if b <? 64 then u else u - 2 ^ (n + 7)) < 2 ^ (digits - 1).
Proof.
  intros Hn Hd Hr Hb u. assert (2 ^ (n + 7) = 128 * 2 ^ n) as Hp by (rewrite Z.pow_add_r by lia; change (2 ^ 7) with 128; lia).
  assert (2 ^ (n + 7) <= 2 ^ (digits - 1)) as Hle by (apply Z.pow_le_mono_r; lia). pose proof (half_pow digits ltac:(lia)) as Hh.
  assert (0 <= u < 2 ^ (n + 7)) as Hu by (unfold u; nia). change 0x40 with (2 ^ 6). rewrite land_bit, negb_involutive by lia.
  rewrite Z.testbit_eqb by lia. change (2 ^ 6) with 64. destruct (b <? 64) eqn:E.
  - apply Z.ltb_lt in E. rewrite Z.div_small by lia. change (0 `mod` 2 =? 1) with false. cbv iota.
    unfold signed. rewrite (proj2 (Z.ltb_lt u _)) by lia. lia.
  - apply Z.ltb_ge in E. replace (b / 64) with 1 by (apply Z.div_unique with (b - 64); lia). cbn [Z.eqb].
    change (1 `mod` 2 =? 1) with true. cbv iota. rewrite wrap_shiftl, lor_above by lia.
    assert ((2 ^ digits - 1) `mod` 2 ^ (digits - (n + 7)) = 2 ^ (digits - (n + 7)) - 1) as ->.
    { symmetry. apply Z.mod_unique with (2 ^ (n + 7) - 1).
      - assert (0 < 2 ^ (digits - (n + 7))) by (apply Z.pow_pos_nonneg; lia). lia.
      - rewrite (pow_split digits (n + 7)) at 1 by lia. lia. }
    pose proof (pow_split digits (n + 7) ltac:(lia)) as Hs. unfold signed. rewrite (proj2 (Z.ltb_ge _ _)) by (unfold u in *; nia).
    unfold u in *. nia.
Qed.

(** A signed number whose last group crosses the width. *)
Lemma s_last_crossing n result b :
  0 <= n < digits -> digits <= n + 7 -> 0 <= result < 2 ^ n -> 0 <= b < 128 ->
  let u := result + b `mod` 2 ^ (digits - n) * 2 ^ n in
  let v := result + (if b <? 64 then b else b - 128) * 2 ^ n in
  if b =? Z.land (u8 (Z.shiftr (signed digits u) n)) 127
  then signed digits u = v /\ - 2 ^ (digits - 1) <= v < 2 ^ (digits - 1)
  else ~ (- 2 ^ (digits - 1) <= v < 2 ^ (digits - 1)).
Proof.
  intros Hn Hd Hr Hb u v. set (k := digits - n). pose proof (last_byte k b ltac:(lia) Hb) as Hlast. unfold last_byte_ok in Hlast.
  fold k in u. set (t := b `mod` 2 ^ k) in *. assert (0 < 2 ^ n) as Hpn by (apply Z.pow_pos_nonneg; lia).
  assert (2 ^ digits = 2 ^ k * 2 ^ n) as Hpow by (apply pow_split; lia).
  assert (2 ^ (digits - 1) = 2 ^ (k - 1) * 2 ^ n) as Hpow1 by (rewrite <- Z.pow_add_r by lia; f_equal; lia).
  assert (0 <= t < 2 ^ k) as Ht by (apply Z.mod_pos_bound, Z.pow_pos_nonneg; lia).
  pose proof (half_pow k ltac:(lia)) as Hh.
  assert (signed digits u = result + (if t <? 2 ^ (k - 1) then t else t - 2 ^ k) * 2 ^ n) as Hsig.
  { unfold signed, u. rewrite Hpow1, Hpow. destruct (t <? 2 ^ (k - 1)) eqn:E.
    - apply Z.ltb_lt in E. rewrite (proj2 (Z.ltb_lt _ _)) by nia. done.
    - apply Z.ltb_ge in E. rewrite (proj2 (Z.ltb_ge _ _)) by nia. ring. }
  rewrite Hsig, shiftr_above by lia. destruct (b =? Z.land _ 127) eqn:Eb.
  - destruct (t <? 2 ^ (k - 1)); rewrite !andb_true_iff in Hlast; destruct Hlast as [[H1 H2] H3]; unfold v; rewrite Hpow1.
    + rewrite H2. apply Z.eqb_eq in H1. apply Z.ltb_lt in H3. rewrite <- H1. nia.
    + apply Z.leb_le in H2, H3. apply Z.eqb_eq in H1. rewrite (proj2 (Z.ltb_ge _ _)) by done. rewrite <- H1. nia.
  - unfold v. rewrite Hpow1. destruct (b <? 64).
    + apply Z.leb_le in Hlast. nia.
    + apply Z.ltb_lt in Hlast. nia.
Qed.

Definition sval (result n : Z) (l : bytes) : Z :=
  let u := result + leb_value l * 2 ^ n in let w := n + 7 * zlen l in if u <? 2 ^ (w - 1) then u else u - 2 ^ w.

Lemma sval_last result n b :
  0 <= n -> 0 <= result < 2 ^ n -> 0 <= b < 128 ->
  sval result n [b] = (if b <? 64 then result + b * 2 ^ n else result + b * 2 ^ n - 2 ^ (n + 7)).
Proof.
  intros Hn Hr Hb. unfold sval, zlen. cbn [leb_value length]. rewrite land_127, Z.mod_small by lia.
  change (7 * Z.of_nat 1) with 7. rewrite Z.mul_0_r, Z.add_0_r. by rewrite sign_of_last.
Qed.

Lemma sval_more result n b l :
  0 <= n -> 128 <= b < 256 -> sval result n (b :: l) = sval (result + (b - 128) * 2 ^ n) (n + 7) l.
Proof.
  intros Hn Hb. unfold sval, zlen. cbn [leb_value length]. rewrite land_127.
  replace (b `mod` 128) with (b - 128) by (apply Z.mod_unique with 1; lia).
  replace (result + (b - 128 + 128 * leb_value l) * 2 ^ n) with (result + (b - 128) * 2 ^ n + leb_value l * 2 ^ (n + 7))
    by (rewrite Z.pow_add_r by lia; change (2 ^ 7) with 128; ring).
  by replace (n + 7 * Z.of_nat (S (length l))) with (n + 7 + 7 * Z.of_nat (length l)) by lia.
Qed.

Lemma s_loop_spec input result n v rest :
  0 <= n -> 0 <= result < 2 ^ n -> bytes_ok input ->
  leb128s_loop digits result n input = Ret v rest <->
  exists l, leb128 l /\ input = l ++ rest /\ n + 7 * (zlen l - 1) < digits /\
    v = sval result n l /\ - 2 ^ (digits - 1) <= v < 2 ^ (digits - 1).
Proof.
  revert result n. induction input as [|b input IH]; intros result n Hn Hr Hok; cbn [leb128s_loop].
  { split; [by destruct (n <? digits)|]. intros (l & Hl & Hin & _). symmetry in Hin. apply app_eq_nil in Hin as [-> _]. inversion Hl. }
  apply Forall_cons in Hok as [Hb Hok]. unfold byte_ok in Hb. destruct (n <? digits) eqn:En; cycle 1.
  { apply Z.ltb_ge in En. split; [done|]. intros (l & Hl & _ & Hlt & _). pose proof (leb128_pos _ Hl). lia. }
  apply Z.ltb_lt in En. assert (0 < 2 ^ n) as Hpn by (apply Z.pow_pos_nonneg; lia).
  change 0x7F with 127. rewrite absorb_byte by lia. rewrite high_bit by done.
  destruct (b <? 128) eqn:Eb.
  - apply Z.ltb_lt in Eb. rewrite (Z.mod_small b 128) by lia.
    assert ((exists l, leb128 l /\ b :: input = l ++ rest /\ n + 7 * (zlen l - 1) < digits /\ v = sval result n l /\
      - 2 ^ (digits - 1) <= v < 2 ^ (digits - 1)) <->
      input = rest /\ v = sval result n [b] /\ - 2 ^ (digits - 1) <= v < 2 ^ (digits - 1)) as ->.
    { split.
      - intros (l & Hl & Hin & _ & Hv & Hr2). inversion Hl as [b' Hb' E|b' l' Hb' Hl' E]; subst l; simplify_eq/=; [done|lia].
      - intros (-> & -> & Hr2). exists [b]. split; [apply leb_last; lia|]. split; [done|]. unfold zlen. cbn [length]. split; [lia|done]. }
    rewrite sval_last by lia. destruct (n + 7 <? digits) eqn:Ed.
    + apply Z.ltb_lt in Ed. rewrite (Z.mod_small b (2 ^ (digits - n)))
        by (split; [lia|]; apply Z.lt_le_trans with (2 ^ 7); [lia|apply Z.pow_le_mono_r; lia]).
      destruct (s_last_inside n result b ltac:(lia) Ed Hr ltac:(lia)) as [He Hrange]. cbv zeta in He, Hrange. rewrite <- He in Hrange |- *.
      destruct (negb _); split; [intros [= <- <-]; done|intros (-> & -> & _); done|intros [= <- <-]; done|intros (-> & -> & _); done].
    + apply Z.ltb_ge in Ed. pose proof (s_last_crossing n result b ltac:(lia) ltac:(lia) Hr ltac:(lia)) as Hx. cbv zeta in Hx.
      assert ((if b <? 64 then result + b * 2 ^ n else result + b * 2 ^ n - 2 ^ (n + 7)) =
              result + (if b <? 64 then b else b - 128) * 2 ^ n) as ->
        by (rewrite Z.pow_add_r by lia; change (2 ^ 7) with 128; destruct (b <? 64); ring).
      destruct (b =? Z.land _ 127); cbn [negb].
      * destruct Hx as [-> Hx]. split; [intros [= <- <-]; done|intros (-> & -> & _); done].
      * split; [done|]. intros (_ & -> & Hr2). done.
  - apply Z.ltb_ge in Eb. replace (b `mod` 128) with (b - 128) by (apply Z.mod_unique with 1; lia).
    assert (0 < 2 ^ (digits - n)) as Hpd by (apply Z.pow_pos_nonneg; lia).
    set (t := (b - 128) `mod` 2 ^ (digits - n)).
    assert (0 <= t < 2 ^ (digits - n) /\ t <= b - 128) as [Ht Htb]
      by (split; [by apply Z.mod_pos_bound|apply Z.mod_le; lia]).
    assert (n + 7 < digits -> t = b - 128) as Et.
    { intros. apply Z.mod_small. split; [lia|]. assert (2 ^ 7 <= 2 ^ (digits - n)) by (apply Z.pow_le_mono_r; lia). lia. }
    rewrite IH; [|lia| |done]; cycle 1.
    { rewrite Z.pow_add_r by lia. change (2 ^ 7) with 128. nia. }
    split.
    + intros (l & Hl & -> & Hlt & Hv & Hv2). exists (b :: l). pose proof (leb128_pos _ Hl). rewrite Et in Hv by lia.
      split; [apply leb_more; [lia|done]|]. split; [done|]. split; [unfold zlen in *; cbn [length]; lia|].
      by rewrite sval_more by lia.
    + intros (l & Hl & Hin & Hlt & Hv & Hv2). inversion Hl as [b' Hb' E|b' l' Hb' Hl' E]; subst l; simplify_eq/=; [lia|].
      pose proof (leb128_pos _ Hl') as Hp. unfold zlen in Hlt, Hp. cbn [length] in Hlt. exists l'. split; [done|]. split; [done|].
      split; [unfold zlen; lia|]. rewrite sval_more in Hv2 |- * by lia. by rewrite Et by lia.
Qed.
End exact.

(** C27. For every width, on every input: the decoders return a number and the rest
    of the input exactly when the input starts with an encoding of that number,
    no longer than the width needs, and the number is in the range of the type;
    otherwise they throw. *)
Theorem leb128_decoders_exact (digits : Z) (input : bytes) :
  bytes_ok input ->
  (forall v rest, leb128u_decode digits input = Ret v rest <->
     exists l, leb128 l /\ input = l ++ rest /\ 7 * (zlen l - 1) < digits /\ v = leb_value l /\ v < 2 ^ digits) /\
  (forall v rest, leb128s_decode digits input = Ret v rest <->
     exists l, leb128 l /\ input = l ++ rest /\ 7 * (zlen l - 1) < digits /\ v = leb_svalue l /\
       - 2 ^ (digits - 1) <= v < 2 ^ (digits - 1)).
Proof.
  intros Hok. split; intros v rest.
  - unfold leb128u_decode. rewrite (u_loop_spec digits) by (first [done|lia]).
    split; intros (l & Hl & Hin & Hlt & Hv & Hr); exists l; rewrite Z.pow_0_r, Z.mul_1_r, ?Z.add_0_l in *; done.
  - unfold leb128s_decode. rewrite (s_loop_spec digits) by (first [done|lia]). unfold sval, leb_svalue.
    split; intros (l & Hl & Hin & Hlt & Hv & Hr); exists l; rewrite Z.pow_0_r, Z.mul_1_r, ?Z.add_0_l in *; done.
Qed.

Lemma leb128_decoders_exact_witness :
  bytes_ok [0xe5; 0x8e; 0x26; 7] /\ leb128u_decode 32 [0xe5; 0x8e; 0x26; 7] = Ret 624485 [7].
Proof.
  assert (bytes_ok [0xe5; 0x8e; 0x26; 7]) as Hok by (apply bytes_check; reflexivity). split; [exact Hok|].
  apply (proj1 (leb128_decoders_exact 32 _ Hok)). exists [0xe5; 0x8e; 0x26].
  split; [apply leb_more; [lia|]; apply leb_more; [lia|]; apply leb_last; lia|].
  split; [reflexivity|]. split; [reflexivity|]. split; reflexivity.
Defined.

(** The decoders never reach a fault and throw only [parser_error]. *)
Definition throws_parser_error {A} (o : outcome bytes A) : Prop :=
  match o with
  | Ret _ _ => True
  | Throw e _ => exists what, e = parser_error what
  | Fault _ => False
  end.

Lemma leb128u_total digits input : throws_parser_error (leb128u_decode digits input).
Proof.
  unfold leb128u_decode. generalize 0 at 1. intros r. generalize 0. revert r.
  induction input as [|b input IH]; intros r n; cbn [leb128u_loop]; destruct (n <? digits); try (by eexists).
  destruct (Z.land b 0x80 =? 0); [|apply IH]. destruct (negb _); [by eexists|done].
Qed.

Lemma leb128s_total digits input : throws_parser_error (leb128s_decode digits input).
Proof.
  unfold leb128s_decode. generalize 0 at 1. intros r. generalize 0. revert r.
  induction input as [|b input IH]; intros r n; cbn [leb128s_loop]; destruct (n <? digits); try (by eexists).
  destruct (Z.land b 0x80 =? 0); [|apply IH]. destruct (n + 7 <? digits); [by destruct (negb _)|].
  destruct (negb _); [by eexists|done].
Qed.

(** ** The shortest encoding is decoded *)

Lemma encode_leb fuel v :
  0 <= v < 2 ^ (7 * Z.of_nat (S fuel)) ->
  leb128 (leb128u_encode fuel v) /\ leb_value (leb128u_encode fuel v) = v /\
  (1 < zlen (leb128u_encode fuel v) -> 2 ^ (7 * (zlen (leb128u_encode fuel v) - 1)) <= v).
Proof.
  revert v. induction fuel as [|fuel IH]; intros v Hv; cbn [leb128u_encode].
  - change (2 ^ (7 * Z.of_nat 1)) with 128 in Hv. rewrite land_127, Z.mod_small by lia.
    split; [by constructor|]. cbn [leb_value]. rewrite land_127, Z.mod_small by lia. unfold zlen. cbn [length]. lia.
  - destruct (v <? 128) eqn:E.
    { apply Z.ltb_lt in E. split; [constructor; lia|]. cbn [leb_value]. rewrite land_127, Z.mod_small by lia. unfold zlen. cbn [length]. lia. }
    apply Z.ltb_ge in E. assert (0 <= v / 128 < 2 ^ (7 * Z.of_nat (S fuel))) as Hd.
    { split; [apply Z.div_pos; lia|]. apply Z.div_lt_upper_bound; [lia|]. change 128 with (2 ^ 7). rewrite <- Z.pow_add_r by lia.
      replace (7 + 7 * Z.of_nat (S fuel)) with (7 * Z.of_nat (S (S fuel))) by lia. apply Hv. }
    destruct (IH (v / 128) Hd) as (H1 & H2 & H3). pose proof (Z.div_mod v 128 ltac:(lia)) as Hdm.
    pose proof (Z.mod_pos_bound v 128 ltac:(lia)) as Hm. rewrite land_127. split; [apply leb_more; [lia|done]|]. split.
    + cbn [leb_value]. rewrite H2, land_127.
      replace ((v `mod` 128 + 128) `mod` 128) with (v `mod` 128) by (apply Z.mod_unique with 1; lia). lia.
    + intros _. pose proof (leb128_pos _ H1) as Hp. unfold zlen in *. cbn [length].
      replace (7 * (Z.of_nat (S (length (leb128u_encode fuel (v / 128)))) - 1)) with (7 + 7 * (Z.of_nat (length (leb128u_encode fuel (v / 128))) - 1)) by lia.
      rewrite Z.pow_add_r by lia. change (2 ^ 7) with 128.
      destruct (decide (1 < Z.of_nat (length (leb128u_encode fuel (v / 128))))) as [Hlt|Hge]; [specialize (H3 Hlt); lia|].
      replace (Z.of_nat (length (leb128u_encode fuel (v / 128))) - 1) with 0 by lia. cbn. lia.
Qed.

Lemma leb128_ok l : leb128 l -> bytes_ok l.
Proof. induction 1; repeat constructor; unfold byte_ok; try lia; done. Qed.

(** Every number of the width survives encoding and decoding. *)
Lemma leb128u_roundtrip fuel digits v rest :
  0 <= v < 2 ^ digits -> 0 < digits <= 7 * Z.of_nat (S fuel) -> bytes_ok rest ->
  leb128u_decode digits (leb128u_encode fuel v ++ rest) = Ret v rest.
Proof.
  intros Hv Hd Hok. destruct (encode_leb fuel v) as (H1 & H2 & H3).
  { split; [lia|]. eapply Z.lt_le_trans; [apply Hv|]. apply Z.pow_le_mono_r; lia. }
  unfold leb128u_decode. apply u_loop_spec; [lia|lia|apply Forall_app; split; [by apply leb128_ok|done]|].
  exists (leb128u_encode fuel v). split; [done|]. split; [done|]. rewrite H2. split; [|cbn; lia].
  destruct (decide (1 < zlen (leb128u_encode fuel v))) as [Hlt|]; [|lia].
  specialize (H3 Hlt). assert (2 ^ (7 * (zlen (leb128u_encode fuel v) - 1)) < 2 ^ digits) as Hp by lia.
  apply Z.pow_lt_mono_r_iff in Hp; lia.
Qed.
