(* ===== verification/FizzyUtf8.v ===== *)
(** * UTF-8

    [external/fizzy/lib/fizzy/utf8.cpp]: the validation of the names of a module.
    It accepts exactly the encodings of sequences of Unicode scalar values. *)

From stdpp Require Import base list option numbers.
From S2P Require Import Prelude.

(** ** utf8.cpp *)

(** The range of the second byte. *)
Inductive Rule := Range80BF | RangeA0BF | Range809F | Range90BF | Range808F.

(** [required_bytes] and [byte2_rule], for a first byte of at least 0xC2. *)
Definition requirements (byte1 : Z) : option (Z * Rule) :=
  if byte1 <=? 0xDF then Some (2, Range80BF)
  else if byte1 =? 0xE0 then Some (3, RangeA0BF)
  else if byte1 <=? 0xEC then Some (3, Range80BF)
  else if byte1 =? 0xED then Some (3, Range809F)
  else if byte1 <=? 0xEF then Some (3, Range80BF)
  else if byte1 =? 0xF0 then Some (4, Range90BF)
  else if byte1 <=? 0xF3 then Some (4, Range80BF)
  else if byte1 =? 0xF4 then Some (4, Range808F)
  else None.

Definition outside (lo hi b : Z) : bool := (b <? lo) || (hi <? b).

Definition byte2_bad (rule : Rule) (byte2 : Z) : bool :=
  match rule with
  | Range80BF => outside 0x80 0xBF byte2
  | RangeA0BF => outside 0xA0 0xBF byte2
  | Range809F => outside 0x80 0x9F byte2
  | Range90BF => outside 0x90 0xBF byte2
  | Range808F => outside 0x80 0x8F byte2
  end.

(** The bytes are read after the test that enough of them are left. *)
Fixpoint utf8_validate (input : bytes) : bool :=
  match input with
  | [] => true
  | byte1 :: pos =>
      if byte1 <=? 0x7F then utf8_validate pos
      else if byte1 <? 0xC2 then false
      else
        match requirements byte1 with
        | None => false
        | Some (required_bytes, byte2_rule) =>
            if zlen pos <? required_bytes - 1 then false
            else
              match pos with
              | [] => false
              | byte2 :: pos =>
                  if byte2_bad byte2_rule byte2 then false
                  else if 2 <? required_bytes then
                    match pos with
                    | [] => false
                    | byte3 :: pos =>
                        if outside 0x80 0xBF byte3 then false
                        else if 3 <? required_bytes then
                          match pos with
                          | [] => false
                          | byte4 :: pos => if outside 0x80 0xBF byte4 then false else utf8_validate pos
                          end
                        else utf8_validate pos
                    end
                  else utf8_validate pos
              end
        end
  end.

(** ** The encoding *)

(** A code point that is not a surrogate. *)
Definition scalar (c : Z) : Prop := 0 <= c < 0xD800 \/ 0xE000 <= c < 0x110000.

Definition utf8_encode (c : Z) : bytes :=
  if c <? 0x80 then [c]
  else if c <? 0x800 then [0xC0 + c / 64; 0x80 + c `mod` 64]
  else if c <? 0x10000 then [0xE0 + c / 4096; 0x80 + (c / 64) `mod` 64; 0x80 + c `mod` 64]
  else [0xF0 + c / 262144; 0x80 + (c / 4096) `mod` 64; 0x80 + (c / 64) `mod` 64; 0x80 + c `mod` 64].

(** ** Validation accepts exactly the encodings *)

Lemma outside_false lo hi b : outside lo hi b = false <-> lo <= b <= hi.
Proof. unfold outside. rewrite orb_false_iff, !Z.ltb_ge. lia. Qed.

(** The table of well-formed sequences: first byte, range of the second one,
    and how many follow it. *)
Inductive lead : Z -> Z -> Z -> Z -> Prop :=
| lead2 b : 0xC2 <= b <= 0xDF -> lead b 0x80 0xBF 0
| lead3_first : lead 0xE0 0xA0 0xBF 1
| lead3 b : 0xE1 <= b <= 0xEC \/ 0xEE <= b <= 0xEF -> lead b 0x80 0xBF 1
| lead3_surrogates : lead 0xED 0x80 0x9F 1
| lead4_first : lead 0xF0 0x90 0xBF 2
| lead4 b : 0xF1 <= b <= 0xF3 -> lead b 0x80 0xBF 2
| lead4_last : lead 0xF4 0x80 0x8F 2.

Definition rule_range (r : Rule) : Z * Z :=
  match r with
  | Range80BF => (0x80, 0xBF)
  | RangeA0BF => (0xA0, 0xBF)
  | Range809F => (0x80, 0x9F)
  | Range90BF => (0x90, 0xBF)
  | Range808F => (0x80, 0x8F)
  end.

Lemma requirements_lead b n r :
  0xC2 <= b -> requirements b = Some (n, r) -> lead b (rule_range r).1 (rule_range r).2 (n - 2).
Proof.
  intros Hb. unfold requirements.
  repeat match goal with |- context [if ?c then _ else _] => destruct c eqn:?E end; intros [= <- <-]; cbn;
    rewrite ?Z.eqb_eq, ?Z.leb_le, ?Z.eqb_neq, ?Z.leb_gt in *; subst; econstructor; lia.
Qed.

Lemma lead_requirements b lo hi k :
  lead b lo hi k -> exists r, requirements b = Some (k + 2, r) /\ rule_range r = (lo, hi).
Proof.
  destruct 1 as [b Hb| |b Hb| | |b Hb|]; try (by eexists); unfold requirements;
    repeat match goal with |- context [if ?c then _ else _] => destruct c eqn:?E end;
    rewrite ?Z.eqb_eq, ?Z.leb_le, ?Z.eqb_neq, ?Z.leb_gt in *; try lia; by eexists.
Qed.

Lemma byte2_bad_range r b : byte2_bad r b = outside (rule_range r).1 (rule_range r).2 b.
Proof. by destruct r. Qed.

(** What one round of the loop accepts. *)
Lemma validate_cons b s :
  utf8_validate (b :: s) = true <->
  (b <= 0x7F /\ utf8_validate s = true) \/
  exists lo hi k b2 rest, 0x80 <= b /\ lead b lo hi k /\ s = b2 :: rest /\ lo <= b2 <= hi /\
    ((k = 0 /\ utf8_validate rest = true) \/
     (exists b3 rest3, rest = b3 :: rest3 /\ 0x80 <= b3 <= 0xBF /\
       ((k = 1 /\ utf8_validate rest3 = true) \/
        exists b4 rest4, rest3 = b4 :: rest4 /\ 0x80 <= b4 <= 0xBF /\ k = 2 /\ utf8_validate rest4 = true))).
Proof.
  cbn [utf8_validate]. destruct (b <=? 0x7F) eqn:E1.
  { apply Z.leb_le in E1. split; [by left|]. intros [[_ H]|(lo & hi & k & b2 & rest & Hb & _)]; [done|lia]. }
  apply Z.leb_gt in E1. destruct (b <? 0xC2) eqn:E2.
  { apply Z.ltb_lt in E2. split; [done|]. intros [[H _]|(lo & hi & k & b2 & rest & Hb & Hl & _)]; [lia|]. destruct Hl; lia. }
  apply Z.ltb_ge in E2. split.
  - intros H. right. destruct (requirements b) as [[n r]|] eqn:Er; [|done].
    pose proof (requirements_lead b n r E2 Er) as Hl. destruct (zlen s <? n - 1); [done|].
    destruct s as [|b2 rest]; [done|]. rewrite byte2_bad_range in H. destruct (outside _ _ b2) eqn:E3; [done|]. apply outside_false in E3.
    exists (rule_range r).1, (rule_range r).2, (n - 2), b2, rest. split; [lia|]. split; [done|]. split; [done|]. split; [done|].
    destruct (2 <? n) eqn:En; [apply Z.ltb_lt in En|apply Z.ltb_ge in En; left; split; [remember (n - 2) as k; destruct Hl; lia|done]]. right.
    destruct rest as [|b3 rest3]; [done|]. destruct (outside 0x80 0xBF b3) eqn:E4; [done|]. apply outside_false in E4.
    exists b3, rest3. split; [done|]. split; [done|].
    destruct (3 <? n) eqn:En3; [apply Z.ltb_lt in En3|apply Z.ltb_ge in En3; left; split; [lia|done]]. right.
    destruct rest3 as [|b4 rest4]; [done|]. destruct (outside 0x80 0xBF b4) eqn:E5; [done|]. apply outside_false in E5.
    exists b4, rest4. split; [done|]. split; [done|]. split; [|done]. remember (n - 2) as k. destruct Hl; lia.
  - intros [[H _]|(lo & hi & k & b2 & rest & _ & Hl & -> & Hb2 & H)]; [lia|].
    destruct (lead_requirements b lo hi k Hl) as (r & -> & Hr).
    assert (byte2_bad r b2 = false) as Hbad by (rewrite byte2_bad_range, Hr; by apply outside_false).
    destruct H as [[-> H]|(b3 & rest3 & -> & Hb3 & H)].
    { rewrite (proj2 (Z.ltb_ge _ _)) by (unfold zlen; cbn [length]; lia). by rewrite Hbad. }
    apply outside_false in Hb3. destruct H as [[-> H]|(b4 & rest4 & -> & Hb4 & -> & H)].
    { rewrite (proj2 (Z.ltb_ge _ _)) by (unfold zlen; cbn [length]; lia). rewrite Hbad. change (2 <? 1 + 2) with true. change (3 <? 1 + 2) with false. cbv iota. by rewrite Hb3. }
    apply outside_false in Hb4. rewrite (proj2 (Z.ltb_ge _ _)) by (unfold zlen; cbn [length]; lia). rewrite Hbad.
    change (2 <? 2 + 2) with true. change (3 <? 2 + 2) with true. cbv iota. by rewrite Hb3, Hb4.
Qed.

Ltac div_lia := Z.to_euclidean_division_equations; lia.

Lemma validate_encode c s : scalar c -> utf8_validate s = true -> utf8_validate (utf8_encode c ++ s) = true.
Proof.
  intros Hc Hs. unfold scalar in Hc. unfold utf8_encode.
  destruct (c <? 0x80) eqn:E1; [apply Z.ltb_lt in E1|apply Z.ltb_ge in E1].
  { apply validate_cons. left. split; [lia|done]. }
  destruct (c <? 0x800) eqn:E2; [apply Z.ltb_lt in E2|apply Z.ltb_ge in E2].
  { apply validate_cons. right. exists 0x80, 0xBF, 0, (0x80 + c `mod` 64), s. split; [div_lia|]. split; [apply lead2; div_lia|].
    split; [done|]. split; [div_lia|]. by left. }
  destruct (c <? 0x10000) eqn:E3; [apply Z.ltb_lt in E3|apply Z.ltb_ge in E3].
  - apply validate_cons. right.
    assert (exists lo hi, lead (0xE0 + c / 4096) lo hi 1 /\ lo <= 0x80 + (c / 64) `mod` 64 <= hi) as (lo & hi & Hl & Hr).
    { destruct (decide (c < 0x1000)).
      - replace (0xE0 + c / 4096) with 0xE0 by div_lia. exists 0xA0, 0xBF. split; [apply lead3_first|div_lia].
      - destruct (decide (0xD000 <= c < 0xD800)).
        + replace (0xE0 + c / 4096) with 0xED by div_lia. exists 0x80, 0x9F. split; [apply lead3_surrogates|div_lia].
        + exists 0x80, 0xBF. split; [apply lead3; div_lia|div_lia]. }
    eexists lo, hi, 1, _, _. split; [div_lia|]. split; [done|]. split; [done|]. split; [done|]. right.
    eexists _, _. split; [done|]. split; [div_lia|]. by left.
  - apply validate_cons. right.
    assert (exists lo hi, lead (0xF0 + c / 262144) lo hi 2 /\ lo <= 0x80 + (c / 4096) `mod` 64 <= hi) as (lo & hi & Hl & Hr).
    { destruct (decide (c < 0x40000)).
      - replace (0xF0 + c / 262144) with 0xF0 by div_lia. exists 0x90, 0xBF. split; [apply lead4_first|div_lia].
      - destruct (decide (0x100000 <= c)).
        + replace (0xF0 + c / 262144) with 0xF4 by div_lia. exists 0x80, 0x8F. split; [apply lead4_last|div_lia].
        + exists 0x80, 0xBF. split; [apply lead4; div_lia|div_lia]. }
    eexists lo, hi, 2, _, _. split; [div_lia|]. split; [done|]. split; [done|]. split; [done|]. right.
    eexists _, _. split; [done|]. split; [div_lia|]. right. eexists _, _. split; [done|]. split; [div_lia|]. done.
Qed.

(** A well-formed sequence is the encoding of the code point it spells. *)
Lemma spelled2 b1 b2 : lead b1 0x80 0xBF 0 -> 0x80 <= b2 <= 0xBF ->
  exists c, scalar c /\ utf8_encode c = [b1; b2].
Proof.
  intros Hl Hb2. inversion Hl as [? Hb| | | | | |]; subst. exists ((b1 - 0xC0) * 64 + (b2 - 0x80)). split; [left; lia|].
  unfold utf8_encode. rewrite (proj2 (Z.ltb_ge _ 0x80)), (proj2 (Z.ltb_lt _ 0x800)) by lia. repeat f_equal; div_lia.
Qed.

Lemma spelled3 b1 lo hi b2 b3 : lead b1 lo hi 1 -> lo <= b2 <= hi -> 0x80 <= b3 <= 0xBF ->
  exists c, scalar c /\ utf8_encode c = [b1; b2; b3].
Proof.
  intros Hl Hb2 Hb3. exists ((b1 - 0xE0) * 4096 + (b2 - 0x80) * 64 + (b3 - 0x80)).
  split; [unfold scalar; inversion Hl; subst; lia|]. unfold utf8_encode.
  assert (0xE0 <= b1 <= 0xEF /\ 0x80 <= b2 <= 0xBF /\ (b1 = 0xE0 -> 0xA0 <= b2)) as (H1 & H2 & H3) by (inversion Hl; subst; lia).
  rewrite (proj2 (Z.ltb_ge _ 0x80)), (proj2 (Z.ltb_ge _ 0x800)), (proj2 (Z.ltb_lt _ 0x10000)) by lia. repeat f_equal; div_lia.
Qed.

Lemma spelled4 b1 lo hi b2 b3 b4 : lead b1 lo hi 2 -> lo <= b2 <= hi -> 0x80 <= b3 <= 0xBF -> 0x80 <= b4 <= 0xBF ->
  exists c, scalar c /\ utf8_encode c = [b1; b2; b3; b4].
Proof.
  intros Hl Hb2 Hb3 Hb4. exists ((b1 - 0xF0) * 262144 + (b2 - 0x80) * 4096 + (b3 - 0x80) * 64 + (b4 - 0x80)).
  split; [unfold scalar; inversion Hl; subst; lia|]. unfold utf8_encode.
  assert (0xF0 <= b1 <= 0xF4 /\ 0x80 <= b2 <= 0xBF /\ (b1 = 0xF0 -> 0x90 <= b2)) as (H1 & H2 & H3) by (inversion Hl; subst; lia).
  rewrite (proj2 (Z.ltb_ge _ 0x80)), (proj2 (Z.ltb_ge _ 0x800)), (proj2 (Z.ltb_ge _ 0x10000)) by lia. repeat f_equal; div_lia.
Qed.

Lemma validate_spelled s :
  utf8_validate s = true -> bytes_ok s -> exists cs, Forall scalar cs /\ s = concat (map utf8_encode cs).
Proof.
  remember (length s) as n eqn:En. revert s En. induction (lt_wf n) as [n _ IH]. intros s -> Hv Hok.
  destruct s as [|b s]; [by exists []|].
  assert (forall c rest, scalar c -> b :: s = utf8_encode c ++ rest -> utf8_encode c <> [] -> utf8_validate rest = true ->
    exists cs, Forall scalar cs /\ b :: s = concat (map utf8_encode cs)) as Hstep.
  { intros c rest Hc Heq Hne Hr. rewrite Heq in Hok. apply Forall_app in Hok as [_ Hok].
    assert (length rest < length (b :: s))%nat as Hlt by (rewrite Heq, length_app; destruct (utf8_encode c); [done|cbn; lia]).
    destruct (IH (length rest) Hlt rest eq_refl Hr Hok) as (cs & Hcs & ->). exists (c :: cs). split; [by constructor|]. by rewrite Heq. }
  apply validate_cons in Hv as [[Hb Hv]|(lo & hi & k & b2 & rest & Hb & Hl & -> & Hb2 & Hv)].
  - apply Forall_cons_1 in Hok as [Hb0 _]. unfold byte_ok in Hb0.
    assert (utf8_encode b = [b]) as E by (unfold utf8_encode; by rewrite (proj2 (Z.ltb_lt _ _)) by lia).
    apply (Hstep b s); rewrite ?E; [left; lia|done|done|done].
  - destruct Hv as [[-> Hv]|(b3 & rest3 & -> & Hb3 & [[-> Hv]|(b4 & rest4 & -> & Hb4 & -> & Hv)])].
    + assert (lo = 0x80 /\ hi = 0xBF) as [-> ->] by (by inversion Hl). destruct (spelled2 b b2 Hl Hb2) as (c & Hc & E).
      apply (Hstep c rest); rewrite ?E; done.
    + destruct (spelled3 b lo hi b2 b3 Hl Hb2 Hb3) as (c & Hc & E). apply (Hstep c rest3); rewrite ?E; done.
    + destruct (spelled4 b lo hi b2 b3 b4 Hl Hb2 Hb3 Hb4) as (c & Hc & E). apply (Hstep c rest4); rewrite ?E; done.
Qed.

(** C28. A byte string is accepted exactly when it is the concatenation of the UTF-8
    encodings of Unicode scalar values: no overlong form, no surrogate, nothing
    above U+10FFFF and no truncated sequence. *)
Theorem utf8_validate_exact (s : bytes) :
  bytes_ok s -> utf8_validate s = true <-> exists cs, Forall scalar cs /\ s = concat (map utf8_encode cs).
Proof.
  intros Hok. split; [by intros; apply validate_spelled|]. intros (cs & Hcs & ->). clear Hok.
  induction Hcs as [|c cs Hc _ IH]; [done|]. by apply validate_encode.
Qed.

Lemma utf8_validate_exact_witness :
  bytes_ok [0x41; 0xE2; 0x82; 0xAC] /\ utf8_validate [0x41; 0xE2; 0x82; 0xAC] = true.
Proof.
  assert (bytes_ok [0x41; 0xE2; 0x82; 0xAC]) as Hok by (apply bytes_check; reflexivity). split; [exact Hok|].
  apply (proj2 (utf8_validate_exact _ Hok)). exists [0x41; 0x20AC]. split; [|reflexivity].
  repeat constructor; unfold scalar; lia.
Defined.
