(* ===== verification/FizzyTypes.v ===== *)
(** * WebAssembly modules

    [external/fizzy/lib/fizzy]: the data of types.hpp and module.hpp, the
    instructions and their tables (instructions.cpp), and the limits. *)

From stdpp Require Import base list option numbers strings.
From S2P Require Import Prelude Memory.

(** ** types.hpp *)

Inductive ValType := Ti32 | Ti64 | Tf32 | Tf64.

#[export] Instance ValType_eq_dec : EqDecision ValType.
Proof. solve_decision. Defined.

(** The value of the enumerator. *)
Definition valtype_byte (t : ValType) : Z :=
  match t with Ti32 => 0x7F | Ti64 => 0x7E | Tf32 => 0x7D | Tf64 => 0x7C end.

Definition FuncRef : Z := 0x70.

Record FuncType := MkFuncType { inputs : list ValType; outputs : list ValType }.

#[export] Instance FuncType_eq_dec : EqDecision FuncType.
Proof. solve_decision. Defined.

Record Limits := MkLimits { lim_min : Z; lim_max : option Z }.

Record Locals := MkLocals { l_count : Z; l_type : ValType }.

Record Table := MkTable { tab_limits : Limits }.
Record Memory := MkMemory { mem_limits : Limits }.

(** The union of a [Value] and the index of a global; a value is the pattern of
    its bits, those of a 32-bit one followed by zeros. *)
Inductive ConstantExpression :=
| Constant (constant : Z)
| GlobalGet (global_index : Z).

Record GlobalType := MkGlobalType { value_type : ValType; is_mutable : bool }.
Record Global := MkGlobal { g_type : GlobalType; g_expression : ConstantExpression }.

Inductive ExternalKind := EFunction | ETable | EMemory | EGlobal.

(** The kind of an import and the member of the union that goes with it. *)
Inductive ImportDesc :=
| ImportFunction (function_type_index : Z)
| ImportTable (table : Table)
| ImportMemory (memory : Memory)
| ImportGlobal (global : GlobalType).

Record Import_ := MkImport { imp_module : bytes; imp_name : bytes; imp_desc : ImportDesc }.
Record Export_ := MkExport { exp_name : bytes; exp_kind : ExternalKind; exp_index : Z }.
Record Element := MkElement { el_offset : ConstantExpression; el_init : list Z }.
Record Code := MkCode { max_stack_height : Z; local_count : Z; instructions : bytes }.
Record Data := MkData { d_offset : ConstantExpression; d_init : bytes }.

(** ** Instructions *)

Module Instr.
Inductive t :=
  | unreachable | nop | block | loop | if_ | else_ | end_ | br | br_if | br_table | return_ | call
  | call_indirect | drop | select | local_get | local_set | local_tee | global_get | global_set | i32_load
  | i64_load | f32_load | f64_load | i32_load8_s | i32_load8_u | i32_load16_s | i32_load16_u | i64_load8_s
  | i64_load8_u | i64_load16_s | i64_load16_u | i64_load32_s | i64_load32_u | i32_store | i64_store
  | f32_store | f64_store | i32_store8 | i32_store16 | i64_store8 | i64_store16 | i64_store32 | memory_size
  | memory_grow | i32_const | i64_const | f32_const | f64_const | i32_eqz | i32_eq | i32_ne | i32_lt_s
  | i32_lt_u | i32_gt_s | i32_gt_u | i32_le_s | i32_le_u | i32_ge_s | i32_ge_u | i64_eqz | i64_eq | i64_ne
  | i64_lt_s | i64_lt_u | i64_gt_s | i64_gt_u | i64_le_s | i64_le_u | i64_ge_s | i64_ge_u | f32_eq | f32_ne
  | f32_lt | f32_gt | f32_le | f32_ge | f64_eq | f64_ne | f64_lt | f64_gt | f64_le | f64_ge | i32_clz
  | i32_ctz | i32_popcnt | i32_add | i32_sub | i32_mul | i32_div_s | i32_div_u | i32_rem_s | i32_rem_u
  | i32_and | i32_or | i32_xor | i32_shl | i32_shr_s | i32_shr_u | i32_rotl | i32_rotr | i64_clz | i64_ctz
  | i64_popcnt | i64_add | i64_sub | i64_mul | i64_div_s | i64_div_u | i64_rem_s | i64_rem_u | i64_and
  | i64_or | i64_xor | i64_shl | i64_shr_s | i64_shr_u | i64_rotl | i64_rotr | f32_abs | f32_neg | f32_ceil
  | f32_floor | f32_trunc | f32_nearest | f32_sqrt | f32_add | f32_sub | f32_mul | f32_div | f32_min | f32_max
  | f32_copysign | f64_abs | f64_neg | f64_ceil | f64_floor | f64_trunc | f64_nearest | f64_sqrt | f64_add
  | f64_sub | f64_mul | f64_div | f64_min | f64_max | f64_copysign | i32_wrap_i64 | i32_trunc_f32_s
  | i32_trunc_f32_u | i32_trunc_f64_s | i32_trunc_f64_u | i64_extend_i32_s | i64_extend_i32_u
  | i64_trunc_f32_s | i64_trunc_f32_u | i64_trunc_f64_s | i64_trunc_f64_u | f32_convert_i32_s
  | f32_convert_i32_u | f32_convert_i64_s | f32_convert_i64_u | f32_demote_f64 | f64_convert_i32_s
  | f64_convert_i32_u | f64_convert_i64_s | f64_convert_i64_u | f64_promote_f32 | i32_reinterpret_f32
  | i64_reinterpret_f64 | f32_reinterpret_i32 | f64_reinterpret_i64.

(** The value of the enumerator. *)
Definition opcode (i : t) : Z :=
  match i with
  | unreachable => 0x00 | nop => 0x01 | block => 0x02 | loop => 0x03 | if_ => 0x04 | else_ => 0x05
  | end_ => 0x0b | br => 0x0c | br_if => 0x0d | br_table => 0x0e | return_ => 0x0f | call => 0x10
  | call_indirect => 0x11 | drop => 0x1a | select => 0x1b | local_get => 0x20 | local_set => 0x21
  | local_tee => 0x22 | global_get => 0x23 | global_set => 0x24 | i32_load => 0x28 | i64_load => 0x29
  | f32_load => 0x2a | f64_load => 0x2b | i32_load8_s => 0x2c | i32_load8_u => 0x2d | i32_load16_s => 0x2e
  | i32_load16_u => 0x2f | i64_load8_s => 0x30 | i64_load8_u => 0x31 | i64_load16_s => 0x32
  | i64_load16_u => 0x33 | i64_load32_s => 0x34 | i64_load32_u => 0x35 | i32_store => 0x36 | i64_store => 0x37
  | f32_store => 0x38 | f64_store => 0x39 | i32_store8 => 0x3a | i32_store16 => 0x3b | i64_store8 => 0x3c
  | i64_store16 => 0x3d | i64_store32 => 0x3e | memory_size => 0x3f | memory_grow => 0x40 | i32_const => 0x41
  | i64_const => 0x42 | f32_const => 0x43 | f64_const => 0x44 | i32_eqz => 0x45 | i32_eq => 0x46
  | i32_ne => 0x47 | i32_lt_s => 0x48 | i32_lt_u => 0x49 | i32_gt_s => 0x4a | i32_gt_u => 0x4b
  | i32_le_s => 0x4c | i32_le_u => 0x4d | i32_ge_s => 0x4e | i32_ge_u => 0x4f | i64_eqz => 0x50
  | i64_eq => 0x51 | i64_ne => 0x52 | i64_lt_s => 0x53 | i64_lt_u => 0x54 | i64_gt_s => 0x55 | i64_gt_u => 0x56
  | i64_le_s => 0x57 | i64_le_u => 0x58 | i64_ge_s => 0x59 | i64_ge_u => 0x5a | f32_eq => 0x5b | f32_ne => 0x5c
  | f32_lt => 0x5d | f32_gt => 0x5e | f32_le => 0x5f | f32_ge => 0x60 | f64_eq => 0x61 | f64_ne => 0x62
  | f64_lt => 0x63 | f64_gt => 0x64 | f64_le => 0x65 | f64_ge => 0x66 | i32_clz => 0x67 | i32_ctz => 0x68
  | i32_popcnt => 0x69 | i32_add => 0x6a | i32_sub => 0x6b | i32_mul => 0x6c | i32_div_s => 0x6d
  | i32_div_u => 0x6e | i32_rem_s => 0x6f | i32_rem_u => 0x70 | i32_and => 0x71 | i32_or => 0x72
  | i32_xor => 0x73 | i32_shl => 0x74 | i32_shr_s => 0x75 | i32_shr_u => 0x76 | i32_rotl => 0x77
  | i32_rotr => 0x78 | i64_clz => 0x79 | i64_ctz => 0x7a | i64_popcnt => 0x7b | i64_add => 0x7c
  | i64_sub => 0x7d | i64_mul => 0x7e | i64_div_s => 0x7f | i64_div_u => 0x80 | i64_rem_s => 0x81
  | i64_rem_u => 0x82 | i64_and => 0x83 | i64_or => 0x84 | i64_xor => 0x85 | i64_shl => 0x86
  | i64_shr_s => 0x87 | i64_shr_u => 0x88 | i64_rotl => 0x89 | i64_rotr => 0x8a | f32_abs => 0x8b
  | f32_neg => 0x8c | f32_ceil => 0x8d | f32_floor => 0x8e | f32_trunc => 0x8f | f32_nearest => 0x90
  | f32_sqrt => 0x91 | f32_add => 0x92 | f32_sub => 0x93 | f32_mul => 0x94 | f32_div => 0x95 | f32_min => 0x96
  | f32_max => 0x97 | f32_copysign => 0x98 | f64_abs => 0x99 | f64_neg => 0x9a | f64_ceil => 0x9b
  | f64_floor => 0x9c | f64_trunc => 0x9d | f64_nearest => 0x9e | f64_sqrt => 0x9f | f64_add => 0xa0
  | f64_sub => 0xa1 | f64_mul => 0xa2 | f64_div => 0xa3 | f64_min => 0xa4 | f64_max => 0xa5
  | f64_copysign => 0xa6 | i32_wrap_i64 => 0xa7 | i32_trunc_f32_s => 0xa8 | i32_trunc_f32_u => 0xa9
  | i32_trunc_f64_s => 0xaa | i32_trunc_f64_u => 0xab | i64_extend_i32_s => 0xac | i64_extend_i32_u => 0xad
  | i64_trunc_f32_s => 0xae | i64_trunc_f32_u => 0xaf | i64_trunc_f64_s => 0xb0 | i64_trunc_f64_u => 0xb1
  | f32_convert_i32_s => 0xb2 | f32_convert_i32_u => 0xb3 | f32_convert_i64_s => 0xb4
  | f32_convert_i64_u => 0xb5 | f32_demote_f64 => 0xb6 | f64_convert_i32_s => 0xb7 | f64_convert_i32_u => 0xb8
  | f64_convert_i64_s => 0xb9 | f64_convert_i64_u => 0xba | f64_promote_f32 => 0xbb
  | i32_reinterpret_f32 => 0xbc | i64_reinterpret_f64 => 0xbd | f32_reinterpret_i32 => 0xbe
  | f64_reinterpret_i64 => 0xbf
  end.

(** [static_cast< Instr >( opcode )], for the values the enumeration names. *)
Definition of_byte (b : Z) : option t :=
  match b with
  | 0x00 => Some unreachable | 0x01 => Some nop | 0x02 => Some block | 0x03 => Some loop | 0x04 => Some if_
  | 0x05 => Some else_ | 0x0b => Some end_ | 0x0c => Some br | 0x0d => Some br_if | 0x0e => Some br_table
  | 0x0f => Some return_ | 0x10 => Some call | 0x11 => Some call_indirect | 0x1a => Some drop
  | 0x1b => Some select | 0x20 => Some local_get | 0x21 => Some local_set | 0x22 => Some local_tee
  | 0x23 => Some global_get | 0x24 => Some global_set | 0x28 => Some i32_load | 0x29 => Some i64_load
  | 0x2a => Some f32_load | 0x2b => Some f64_load | 0x2c => Some i32_load8_s | 0x2d => Some i32_load8_u
  | 0x2e => Some i32_load16_s | 0x2f => Some i32_load16_u | 0x30 => Some i64_load8_s | 0x31 => Some i64_load8_u
  | 0x32 => Some i64_load16_s | 0x33 => Some i64_load16_u | 0x34 => Some i64_load32_s
  | 0x35 => Some i64_load32_u | 0x36 => Some i32_store | 0x37 => Some i64_store | 0x38 => Some f32_store
  | 0x39 => Some f64_store | 0x3a => Some i32_store8 | 0x3b => Some i32_store16 | 0x3c => Some i64_store8
  | 0x3d => Some i64_store16 | 0x3e => Some i64_store32 | 0x3f => Some memory_size | 0x40 => Some memory_grow
  | 0x41 => Some i32_const | 0x42 => Some i64_const | 0x43 => Some f32_const | 0x44 => Some f64_const
  | 0x45 => Some i32_eqz | 0x46 => Some i32_eq | 0x47 => Some i32_ne | 0x48 => Some i32_lt_s
  | 0x49 => Some i32_lt_u | 0x4a => Some i32_gt_s | 0x4b => Some i32_gt_u | 0x4c => Some i32_le_s
  | 0x4d => Some i32_le_u | 0x4e => Some i32_ge_s | 0x4f => Some i32_ge_u | 0x50 => Some i64_eqz
  | 0x51 => Some i64_eq | 0x52 => Some i64_ne | 0x53 => Some i64_lt_s | 0x54 => Some i64_lt_u
  | 0x55 => Some i64_gt_s | 0x56 => Some i64_gt_u | 0x57 => Some i64_le_s | 0x58 => Some i64_le_u
  | 0x59 => Some i64_ge_s | 0x5a => Some i64_ge_u | 0x5b => Some f32_eq | 0x5c => Some f32_ne
  | 0x5d => Some f32_lt | 0x5e => Some f32_gt | 0x5f => Some f32_le | 0x60 => Some f32_ge | 0x61 => Some f64_eq
  | 0x62 => Some f64_ne | 0x63 => Some f64_lt | 0x64 => Some f64_gt | 0x65 => Some f64_le | 0x66 => Some f64_ge
  | 0x67 => Some i32_clz | 0x68 => Some i32_ctz | 0x69 => Some i32_popcnt | 0x6a => Some i32_add
  | 0x6b => Some i32_sub | 0x6c => Some i32_mul | 0x6d => Some i32_div_s | 0x6e => Some i32_div_u
  | 0x6f => Some i32_rem_s | 0x70 => Some i32_rem_u | 0x71 => Some i32_and | 0x72 => Some i32_or
  | 0x73 => Some i32_xor | 0x74 => Some i32_shl | 0x75 => Some i32_shr_s | 0x76 => Some i32_shr_u
  | 0x77 => Some i32_rotl | 0x78 => Some i32_rotr | 0x79 => Some i64_clz | 0x7a => Some i64_ctz
  | 0x7b => Some i64_popcnt | 0x7c => Some i64_add | 0x7d => Some i64_sub | 0x7e => Some i64_mul
  | 0x7f => Some i64_div_s | 0x80 => Some i64_div_u | 0x81 => Some i64_rem_s | 0x82 => Some i64_rem_u
  | 0x83 => Some i64_and | 0x84 => Some i64_or | 0x85 => Some i64_xor | 0x86 => Some i64_shl
  | 0x87 => Some i64_shr_s | 0x88 => Some i64_shr_u | 0x89 => Some i64_rotl | 0x8a => Some i64_rotr
  | 0x8b => Some f32_abs | 0x8c => Some f32_neg | 0x8d => Some f32_ceil | 0x8e => Some f32_floor
  | 0x8f => Some f32_trunc | 0x90 => Some f32_nearest | 0x91 => Some f32_sqrt | 0x92 => Some f32_add
  | 0x93 => Some f32_sub | 0x94 => Some f32_mul | 0x95 => Some f32_div | 0x96 => Some f32_min
  | 0x97 => Some f32_max | 0x98 => Some f32_copysign | 0x99 => Some f64_abs | 0x9a => Some f64_neg
  | 0x9b => Some f64_ceil | 0x9c => Some f64_floor | 0x9d => Some f64_trunc | 0x9e => Some f64_nearest
  | 0x9f => Some f64_sqrt | 0xa0 => Some f64_add | 0xa1 => Some f64_sub | 0xa2 => Some f64_mul
  | 0xa3 => Some f64_div | 0xa4 => Some f64_min | 0xa5 => Some f64_max | 0xa6 => Some f64_copysign
  | 0xa7 => Some i32_wrap_i64 | 0xa8 => Some i32_trunc_f32_s | 0xa9 => Some i32_trunc_f32_u
  | 0xaa => Some i32_trunc_f64_s | 0xab => Some i32_trunc_f64_u | 0xac => Some i64_extend_i32_s
  | 0xad => Some i64_extend_i32_u | 0xae => Some i64_trunc_f32_s | 0xaf => Some i64_trunc_f32_u
  | 0xb0 => Some i64_trunc_f64_s | 0xb1 => Some i64_trunc_f64_u | 0xb2 => Some f32_convert_i32_s
  | 0xb3 => Some f32_convert_i32_u | 0xb4 => Some f32_convert_i64_s | 0xb5 => Some f32_convert_i64_u
  | 0xb6 => Some f32_demote_f64 | 0xb7 => Some f64_convert_i32_s | 0xb8 => Some f64_convert_i32_u
  | 0xb9 => Some f64_convert_i64_s | 0xba => Some f64_convert_i64_u | 0xbb => Some f64_promote_f32
  | 0xbc => Some i32_reinterpret_f32 | 0xbd => Some i64_reinterpret_f64 | 0xbe => Some f32_reinterpret_i32
  | 0xbf => Some f64_reinterpret_i64
  | _ => None
  end.

#[global] Instance t_eq_dec : EqDecision t.
Proof. solve_decision. Defined.

Lemma of_byte_opcode i : of_byte (opcode i) = Some i.
Proof. by destruct i. Qed.

Lemma opcode_ok i : byte_ok (opcode i).
Proof. unfold byte_ok. destruct i; cbn; lia. Qed.
End Instr.

(** ** module.hpp *)

Record Module_ := MkModule {
  typesec : list FuncType;
  importsec : list Import_;
  funcsec : list Z;
  tablesec : list Table;
  memorysec : list Memory;
  globalsec : list Global;
  exportsec : list Export_;
  startfunc : option Z;
  elementsec : list Element;
  codesec : list Code;
  datasec : list Data;
  imported_function_types : list FuncType;
  imported_table_types : list Table;
  imported_memory_types : list Memory;
  imported_global_types : list GlobalType
}.

Definition empty_module : Module_ := MkModule [] [] [] [] [] [] [] None [] [] [] [] [] [] [].

(** [v[ i ]] of a vector with an unsigned index. *)
Definition at_idx {A} (l : list A) (i : Z) : option A := if i <? 0 then None else l !! Z.to_nat i.

Definition get_function_count (m : Module_) : Z := zlen (imported_function_types m) + zlen (funcsec m).
Definition get_global_count (m : Module_) : Z := zlen (imported_global_types m) + zlen (globalsec m).
Definition has_table (m : Module_) : bool :=
  negb (length (tablesec m) =? 0)%nat || negb (length (imported_table_types m) =? 0)%nat.
Definition has_memory (m : Module_) : bool :=
  negb (length (memorysec m) =? 0)%nat || negb (length (imported_memory_types m) =? 0)%nat.

Section module.
Context {S : Type}.

(** An element of a vector; past its end there is none. *)
Definition elem {A} (l : list A) (i : Z) : M S A :=
  match at_idx l i with Some a => ret a | None => fail out_of_bounds end.

Definition get_function_type (m : Module_) (idx : Z) : M S FuncType :=
  assert_that (idx <? get_function_count m) ;;;
  if idx <? zlen (imported_function_types m) then elem (imported_function_types m) idx
  else
    let* type_idx := elem (funcsec m) (idx - zlen (imported_function_types m)) in
    assert_that (type_idx <? zlen (typesec m)) ;;;
    elem (typesec m) type_idx.

Definition get_global_type (m : Module_) (idx : Z) : M S GlobalType :=
  assert_that (idx <? get_global_count m) ;;;
  if idx <? zlen (imported_global_types m) then elem (imported_global_types m) idx
  else let* g := elem (globalsec m) (idx - zlen (imported_global_types m)) in ret (g_type g).

Definition get_code (m : Module_) (func_idx : Z) : M S Code :=
  assert_that (zlen (imported_function_types m) <=? func_idx) ;;;
  let code_idx := func_idx - zlen (imported_function_types m) in
  assert_that (code_idx <? zlen (codesec m)) ;;;
  elem (codesec m) code_idx.
End module.

(** The types the getters return, where there is one. *)
Definition function_type_at (m : Module_) (i : Z) : option FuncType :=
  if i <? zlen (imported_function_types m) then at_idx (imported_function_types m) i
  else at_idx (funcsec m) (i - zlen (imported_function_types m)) ≫= at_idx (typesec m).

Definition global_type_at (m : Module_) (i : Z) : option GlobalType :=
  if i <? zlen (imported_global_types m) then at_idx (imported_global_types m) i
  else g_type <$> at_idx (globalsec m) (i - zlen (imported_global_types m)).

(** ** instructions.cpp *)

(** What an instruction takes from the stack and puts on it. *)
Definition InstructionType : Type := list ValType * list ValType.

Definition instruction_type_table : list InstructionType :=
  [([], []); ([], []); ([], []); ([], []); ([Ti32], []); ([], []); ([], []); ([], []); ([], []); ([], []); ([], []);
   ([], []); ([], []); ([Ti32], []); ([Ti32], []); ([], []); ([], []); ([Ti32], []); ([], []); ([], []); ([], []);
   ([], []); ([], []); ([], []); ([], []); ([], []); ([], []); ([Ti32], []); ([], []); ([], []); ([], []); ([], []);
   ([], []); ([], []); ([], []); ([], []); ([], []); ([], []); ([], []); ([], []); ([Ti32], [Ti32]);
   ([Ti32], [Ti64]); ([Ti32], [Tf32]); ([Ti32], [Tf64]); ([Ti32], [Ti32]); ([Ti32], [Ti32]); ([Ti32], [Ti32]);
   ([Ti32], [Ti32]); ([Ti32], [Ti64]); ([Ti32], [Ti64]); ([Ti32], [Ti64]); ([Ti32], [Ti64]); ([Ti32], [Ti64]);
   ([Ti32], [Ti64]); ([Ti32; Ti32], []); ([Ti32; Ti64], []); ([Ti32; Tf32], []); ([Ti32; Tf64], []);
   ([Ti32; Ti32], []); ([Ti32; Ti32], []); ([Ti32; Ti64], []); ([Ti32; Ti64], []); ([Ti32; Ti64], []); ([], [Ti32]);
   ([Ti32], [Ti32]); ([], [Ti32]); ([], [Ti64]); ([], [Tf32]); ([], [Tf64]); ([Ti32], [Ti32]);
   ([Ti32; Ti32], [Ti32]); ([Ti32; Ti32], [Ti32]); ([Ti32; Ti32], [Ti32]); ([Ti32; Ti32], [Ti32]);
   ([Ti32; Ti32], [Ti32]); ([Ti32; Ti32], [Ti32]); ([Ti32; Ti32], [Ti32]); ([Ti32; Ti32], [Ti32]);
   ([Ti32; Ti32], [Ti32]); ([Ti32; Ti32], [Ti32]); ([Ti64], [Ti32]); ([Ti64; Ti64], [Ti32]); ([Ti64; Ti64], [Ti32]);
   ([Ti64; Ti64], [Ti32]); ([Ti64; Ti64], [Ti32]); ([Ti64; Ti64], [Ti32]); ([Ti64; Ti64], [Ti32]);
   ([Ti64; Ti64], [Ti32]); ([Ti64; Ti64], [Ti32]); ([Ti64; Ti64], [Ti32]); ([Ti64; Ti64], [Ti32]);
   ([Tf32; Tf32], [Ti32]); ([Tf32; Tf32], [Ti32]); ([Tf32; Tf32], [Ti32]); ([Tf32; Tf32], [Ti32]);
   ([Tf32; Tf32], [Ti32]); ([Tf32; Tf32], [Ti32]); ([Tf64; Tf64], [Ti32]); ([Tf64; Tf64], [Ti32]);
   ([Tf64; Tf64], [Ti32]); ([Tf64; Tf64], [Ti32]); ([Tf64; Tf64], [Ti32]); ([Tf64; Tf64], [Ti32]); ([Ti32], [Ti32]);
   ([Ti32], [Ti32]); ([Ti32], [Ti32]); ([Ti32; Ti32], [Ti32]); ([Ti32; Ti32], [Ti32]); ([Ti32; Ti32], [Ti32]);
   ([Ti32; Ti32], [Ti32]); ([Ti32; Ti32], [Ti32]); ([Ti32; Ti32], [Ti32]); ([Ti32; Ti32], [Ti32]);
   ([Ti32; Ti32], [Ti32]); ([Ti32; Ti32], [Ti32]); ([Ti32; Ti32], [Ti32]); ([Ti32; Ti32], [Ti32]);
   ([Ti32; Ti32], [Ti32]); ([Ti32; Ti32], [Ti32]); ([Ti32; Ti32], [Ti32]); ([Ti32; Ti32], [Ti32]); ([Ti64], [Ti64]);
   ([Ti64], [Ti64]); ([Ti64], [Ti64]); ([Ti64; Ti64], [Ti64]); ([Ti64; Ti64], [Ti64]); ([Ti64; Ti64], [Ti64]);
   ([Ti64; Ti64], [Ti64]); ([Ti64; Ti64], [Ti64]); ([Ti64; Ti64], [Ti64]); ([Ti64; Ti64], [Ti64]);
   ([Ti64; Ti64], [Ti64]); ([Ti64; Ti64], [Ti64]); ([Ti64; Ti64], [Ti64]); ([Ti64; Ti64], [Ti64]);
   ([Ti64; Ti64], [Ti64]); ([Ti64; Ti64], [Ti64]); ([Ti64; Ti64], [Ti64]); ([Ti64; Ti64], [Ti64]); ([Tf32], [Tf32]);
   ([Tf32], [Tf32]); ([Tf32], [Tf32]); ([Tf32], [Tf32]); ([Tf32], [Tf32]); ([Tf32], [Tf32]); ([Tf32], [Tf32]);
   ([Tf32; Tf32], [Tf32]); ([Tf32; Tf32], [Tf32]); ([Tf32; Tf32], [Tf32]); ([Tf32; Tf32], [Tf32]);
   ([Tf32; Tf32], [Tf32]); ([Tf32; Tf32], [Tf32]); ([Tf32; Tf32], [Tf32]); ([Tf64], [Tf64]); ([Tf64], [Tf64]);
   ([Tf64], [Tf64]); ([Tf64], [Tf64]); ([Tf64], [Tf64]); ([Tf64], [Tf64]); ([Tf64], [Tf64]); ([Tf64; Tf64], [Tf64]);
   ([Tf64; Tf64], [Tf64]); ([Tf64; Tf64], [Tf64]); ([Tf64; Tf64], [Tf64]); ([Tf64; Tf64], [Tf64]);
   ([Tf64; Tf64], [Tf64]); ([Tf64; Tf64], [Tf64]); ([Ti64], [Ti32]); ([Tf32], [Ti32]); ([Tf32], [Ti32]);
   ([Tf64], [Ti32]); ([Tf64], [Ti32]); ([Ti32], [Ti64]); ([Ti32], [Ti64]); ([Tf32], [Ti64]); ([Tf32], [Ti64]);
   ([Tf64], [Ti64]); ([Tf64], [Ti64]); ([Ti32], [Tf32]); ([Ti32], [Tf32]); ([Ti64], [Tf32]); ([Ti64], [Tf32]);
   ([Tf64], [Tf32]); ([Ti32], [Tf64]); ([Ti32], [Tf64]); ([Ti64], [Tf64]); ([Ti64], [Tf64]); ([Tf32], [Tf64]);
   ([Tf32], [Ti32]); ([Tf64], [Ti64]); ([Ti32], [Tf32]); ([Ti64], [Tf64])].

Definition instruction_max_align_table : list Z :=
  [0; 0; 0; 0; 0; 0; 0; 0; 0; 0; 0; 0; 0; 0; 0; 0; 0; 0; 0; 0; 0; 0; 0; 0; 0; 0; 0; 0; 0; 0; 0; 0; 0; 0; 0; 0; 0; 0;
   0; 0; 2; 3; 2; 3; 0; 0; 1; 1; 0; 0; 1; 1; 2; 2; 2; 3; 2; 3; 0; 1; 0; 1; 2; 0; 0; 0; 0; 0; 0; 0; 0; 0; 0; 0; 0; 0;
   0; 0; 0; 0; 0; 0; 0; 0; 0; 0; 0; 0; 0; 0; 0; 0; 0; 0; 0; 0; 0; 0; 0; 0; 0; 0; 0; 0; 0; 0; 0; 0; 0; 0; 0; 0; 0; 0;
   0; 0; 0; 0; 0; 0; 0; 0; 0; 0; 0; 0; 0; 0; 0; 0; 0; 0; 0; 0; 0; 0; 0; 0; 0; 0; 0; 0; 0; 0; 0; 0; 0; 0; 0; 0; 0; 0;
   0; 0; 0; 0; 0; 0; 0; 0; 0; 0; 0; 0; 0; 0; 0; 0; 0; 0; 0; 0; 0; 0; 0; 0; 0; 0; 0; 0; 0; 0; 0; 0; 0; 0; 0; 0; 0; 0;
   0; 0].

Definition instruction_cost_table : list Z :=
  [1; 1; 1; 1; 1; 1; 1; 1; 1; 1; 1; 1; 1; 1; 1; 1; 1; 1; 1; 1; 1; 1; 1; 1; 1; 1; 1; 1; 1; 1; 1; 1; 1; 1; 1; 1; 1; 1;
   1; 1; 1; 1; 1; 1; 1; 1; 1; 1; 1; 1; 1; 1; 1; 1; 1; 1; 1; 1; 1; 1; 1; 1; 1; 1; 1; 1; 1; 1; 1; 1; 1; 1; 1; 1; 1; 1;
   1; 1; 1; 1; 1; 1; 1; 1; 1; 1; 1; 1; 1; 1; 1; 1; 1; 1; 1; 1; 1; 1; 1; 1; 1; 1; 1; 1; 1; 1; 1; 1; 1; 1; 1; 1; 1; 1;
   1; 1; 1; 1; 1; 1; 1; 1; 1; 1; 1; 1; 1; 1; 1; 1; 1; 1; 1; 1; 1; 1; 1; 1; 1; 1; 1; 1; 1; 1; 1; 1; 1; 1; 1; 1; 1; 1;
   1; 1; 1; 1; 1; 1; 1; 1; 1; 1; 1; 1; 1; 1; 1; 1; 1; 1; 1; 1; 1; 1; 1; 1; 1; 1; 1; 1; 1; 1; 1; 1; 1; 1; 1; 1; 1; 1;
   1; 1].

(** The tables have 256 entries; those past the last instruction are empty. *)
Definition type_of_opcode (b : Z) : InstructionType := default ([], []) (at_idx instruction_type_table b).
Definition max_align_of_opcode (b : Z) : Z := default 0 (at_idx instruction_max_align_table b).
Definition cost_of_opcode (b : Z) : Z := default 0 (at_idx instruction_cost_table b).

Definition get_grow_memory_cost (delta_pages : Z) : Z := u32 (delta_pages * 65536).

(** ** limits.hpp *)

Definition PageSize : Z := 65536.
Definition memory_pages_to_bytes (pages : Z) : Z := u64 (pages * PageSize).
Definition MaxMemoryPagesLimit : Z := 4 * 1024 * 1024 * 1024 / PageSize.
Definition DefaultMemoryPagesLimit : Z := 256 * 1024 * 1024 / PageSize.
Definition CallStackLimit : Z := 2048.

(** ** Indexing *)

Lemma at_idx_lt {A} (l : list A) i : 0 <= i < zlen l -> exists a, at_idx l i = Some a /\ a ∈ l.
Proof.
  intros Hi. unfold at_idx, zlen in *. rewrite (proj2 (Z.ltb_ge _ _)) by lia.
  destruct (lookup_lt_is_Some_2 l (Z.to_nat i)) as [a Ha]; [lia|]. exists a. split; [done|]. by eapply list_elem_of_lookup_2.
Qed.

Lemma elem_lt {S A} (l : list A) i (s : S) : 0 <= i < zlen l -> exists a, elem l i s = Ret a s /\ a ∈ l.
Proof. intros Hi. destruct (at_idx_lt l i Hi) as (a & Ha & Hin). exists a. unfold elem. by rewrite Ha. Qed.
