(* ===== verification/FizzyExpr.v ===== *)
(** * Function bodies

    [external/fizzy/lib/fizzy/parser_expr.cpp]: one pass over the instructions of
    a function that validates them and translates them to the code the
    interpreter runs, with the targets of branches filled in. Stacks are lists
    with their top first. The number of operands and frames is at most the
    number of bytes read, so the casts of these counts to [int] keep them. *)

From stdpp Require Import base list option numbers strings pretty.
From S2P Require Import Prelude Memory FizzyLeb128 FizzyTypes.

(** ** parser.cpp: value types and vectors *)

Definition validate_valtype {S} (byte : Z) : M S ValType :=
  match byte with
  | 0x7F => ret Ti32
  | 0x7E => ret Ti64
  | 0x7D => ret Tf32
  | 0x7C => ret Tf64
  | _ => throw (parser_error ("invalid valtype " +:+ pretty byte))
  end.

Definition parse_valtype : parser ValType := let* byte := parse_byte in validate_valtype byte.

Section parse_vec.
Context {A : Type} (parse : parser A).

(** The loop; an element has at least one byte, so it ends with the input. *)
Fixpoint parse_items (fuel : nat) (count : Z) : parser (list A) :=
  if count <=? 0 then ret []
  else
    match fuel with
    | O => fail out_of_fuel
    | S fuel => let* x := parse in let* xs := parse_items fuel (count - 1) in ret (x :: xs)
    end.

Definition parse_vec : parser (list A) :=
  let* size := leb128u_decode 32 in fun input => parse_items (S (length input)) size input.
End parse_vec.

(** ** parser_expr.cpp: frames and operands *)

Record ControlFrame := MkFrame {
  cf_instruction : Instr.t;
  cf_type : option ValType;
  cf_code_offset : nat;
  cf_parent_stack_height : Z;
  cf_unreachable : bool;
  cf_br_immediate_offsets : list nat
}.

Definition new_frame (i : Instr.t) (type : option ValType) (parent_stack_height : Z) (code_offset : nat) : ControlFrame :=
  MkFrame i type code_offset parent_stack_height false [].
Definition frame_unreachable (f : ControlFrame) : ControlFrame :=
  MkFrame (cf_instruction f) (cf_type f) (cf_code_offset f) (cf_parent_stack_height f) true (cf_br_immediate_offsets f).
Definition frame_add_branch (off : nat) (f : ControlFrame) : ControlFrame :=
  MkFrame (cf_instruction f) (cf_type f) (cf_code_offset f) (cf_parent_stack_height f) (cf_unreachable f)
    (cf_br_immediate_offsets f ++ [off]).

Inductive OperandStackType := Unknown | Known (t : ValType).

#[export] Instance OperandStackType_eq_dec : EqDecision OperandStackType.
Proof. solve_decision. Defined.

Definition type_matches (actual_type expected_type : OperandStackType) : bool :=
  match expected_type, actual_type with
  | Unknown, _ | _, Unknown => true
  | Known e, Known a => bool_decide (e = a)
  end.

(** What the function works on: the input that is left, the code so far, its
    largest stack height and the two stacks. *)
Record expr_state := ExprState {
  x_input : bytes;
  x_code : bytes;
  x_max : Z;
  x_operands : list OperandStackType;
  x_control : list ControlFrame
}.

Definition set_input (i : bytes) (s : expr_state) : expr_state :=
  ExprState i (x_code s) (x_max s) (x_operands s) (x_control s).
Definition set_code (c : bytes) (s : expr_state) : expr_state :=
  ExprState (x_input s) c (x_max s) (x_operands s) (x_control s).
Definition set_max (m : Z) (s : expr_state) : expr_state :=
  ExprState (x_input s) (x_code s) m (x_operands s) (x_control s).
Definition set_operands (o : list OperandStackType) (s : expr_state) : expr_state :=
  ExprState (x_input s) (x_code s) (x_max s) o (x_control s).
Definition set_control (c : list ControlFrame) (s : expr_state) : expr_state :=
  ExprState (x_input s) (x_code s) (x_max s) (x_operands s) c.

Abbreviation E := (M expr_state).

Definition on_input {A} (p : parser A) : E A := zoom x_input set_input p.

(** [control_stack[ index ]], counted from the top; [top()] is index 0. *)
Definition frame_at (index : Z) : E ControlFrame := let* fs := gets x_control in elem fs index.
Definition top_frame : E ControlFrame := frame_at 0.

Definition update_frame (index : Z) (f : ControlFrame -> ControlFrame) : E unit :=
  modify (fun s => set_control (alter f (Z.to_nat index) (x_control s)) s).

Definition push_operand (t : OperandStackType) : E unit := modify (fun s => set_operands (t :: x_operands s) s).

(** [Stack::pop] *)
Definition pop_operand : E OperandStackType :=
  let* ops := gets x_operands in
  match ops with
  | [] => fail assertion_failed
  | t :: ops => modify (set_operands ops) ;;; ret t
  end.

(** [Stack::shrink] *)
Definition shrink_operands (new_size : Z) : E unit :=
  let* ops := gets x_operands in
  assert_that (new_size <=? zlen ops) ;;;
  modify (set_operands (drop (length ops - Z.to_nat new_size) ops)).

Definition push_control (f : ControlFrame) : E unit := modify (fun s => set_control (f :: x_control s) s).
Definition pop_control : E unit :=
  let* fs := gets x_control in
  match fs with
  | [] => fail assertion_failed
  | _ :: fs => modify (set_control fs)
  end.

(** [code.instructions.push_back], [push( code.instructions, value )] *)
Definition emit (bs : bytes) : E unit := modify (fun s => set_code (x_code s ++ bs) s).
Definition emit32 (v : Z) : E unit := emit (le_bytes 4 v).

(** [store( code.instructions.data() + offset, value )] of four bytes. *)
Definition store32_at (offset : nat) (v : Z) : E unit :=
  let* code := gets x_code in
  if (offset + 4 <=? length code)%nat
  then modify (set_code (take offset code ++ le_bytes 4 v ++ drop (offset + 4) code))
  else fail out_of_bounds.

Definition stack_underflow : exn := validation_error "stack underflow".
Definition type_mismatch : exn := validation_error "type mismatch".

Fixpoint pop_inputs (frame : ControlFrame) (rev_inputs : list ValType) : E unit :=
  match rev_inputs with
  | [] => ret tt
  | expected_type :: rest =>
      let* ops := gets x_operands in
      if cf_unreachable frame && (zlen ops =? cf_parent_stack_height frame) then ret tt
      else
        let* actual_type := pop_operand in
        if negb (type_matches actual_type (Known expected_type)) then throw type_mismatch
        else pop_inputs frame rest
  end.

Fixpoint push_outputs (outs : list ValType) : E unit :=
  match outs with
  | [] => ret tt
  | t :: outs => push_operand (Known t) ;;; push_outputs outs
  end.

Definition update_operand_stack (frame : ControlFrame) (ins outs : list ValType) : E unit :=
  let* ops := gets x_operands in
  if negb (cf_unreachable frame) && (zlen ops <? cf_parent_stack_height frame + zlen ins) then throw stack_underflow
  else pop_inputs frame (rev ins) ;;; push_outputs outs.

Definition drop_operand (frame : ControlFrame) (expected_type : OperandStackType) : E unit :=
  let* ops := gets x_operands in
  if negb (cf_unreachable frame) && (zlen ops <? cf_parent_stack_height frame + 1) then throw stack_underflow
  else if zlen ops =? cf_parent_stack_height frame then assert_that (cf_unreachable frame)
  else
    let* actual_type := pop_operand in
    if negb (type_matches actual_type expected_type) then throw type_mismatch else ret tt.

Definition is_some_type (t : option ValType) : bool := match t with Some _ => true | None => false end.

Definition update_result_stack (frame : ControlFrame) : E unit :=
  let* ops := gets x_operands in
  assert_that (cf_parent_stack_height frame <=? zlen ops) ;;;
  let arity := if is_some_type (cf_type frame) then 1 else 0 in
  if cf_parent_stack_height frame + arity <? zlen ops then throw (validation_error "too many results")
  else match cf_type frame with Some t => drop_operand frame (Known t) | None => ret tt end.

(** Branches to a loop go to its top and keep nothing. *)
Definition get_branch_frame_type (frame : ControlFrame) : option ValType :=
  if bool_decide (cf_instruction frame = Instr.loop) then None else cf_type frame.
Definition get_branch_arity (frame : ControlFrame) : Z := if is_some_type (get_branch_frame_type frame) then 1 else 0.

Definition update_branch_stack (current_frame branch_frame : ControlFrame) : E unit :=
  let* ops := gets x_operands in
  assert_that (cf_parent_stack_height current_frame <=? zlen ops) ;;;
  match get_branch_frame_type branch_frame with Some t => drop_operand current_frame (Known t) | None => ret tt end.

Definition push_branch_immediates (branch_frame : ControlFrame) (stack_height : Z) : E unit :=
  emit32 (Z.of_nat (cf_code_offset branch_frame)) ;;;
  emit32 (stack_height - cf_parent_stack_height branch_frame).

(** The offset of the immediates that follow is remembered in the frame. *)
Definition branch_immediates (label_idx : Z) : E unit :=
  let* branch_frame := frame_at label_idx in
  let* code := gets x_code in
  update_frame label_idx (frame_add_branch (length code)) ;;;
  let* ops := gets x_operands in
  push_branch_immediates branch_frame (zlen ops).

Definition mark_frame_unreachable : E unit :=
  let* frame := top_frame in
  update_frame 0 frame_unreachable ;;; shrink_operands (cf_parent_stack_height frame).

Fixpoint find_local (locals : list Locals) (local_idx local_count : Z) : option ValType :=
  match locals with
  | [] => None
  | l :: locals =>
      if (local_count <=? local_idx) && (local_idx <? local_count + l_count l) then Some (l_type l)
      else find_local locals local_idx (u64 (local_count + l_count l))
  end.

Definition find_local_type (params : list ValType) (locals : list Locals) (idx : Z) : E ValType :=
  if idx <? zlen params then elem params idx
  else match find_local locals (idx - zlen params) 0 with
       | Some t => ret t
       | None => throw (validation_error "invalid local index")
       end.

Definition parse_blocktype : parser (option ValType) :=
  let* type := parse_byte in
  if type =? 0x40 then ret None else let* t := validate_valtype type in ret (Some t).

(** ** parse_expr: the handlers of the instructions *)

Section handlers.
Context (module : Module_) (func_inputs : list ValType) (locals : list Locals).

Definition u32_imm : E Z := on_input (leb128u_decode 32).

(** What is common to [br], [br_if] and [return]. *)
Definition take_branch (opcode label_idx : Z) : E unit :=
  let* frame := top_frame in
  let* branch_frame := frame_at label_idx in
  update_branch_stack frame branch_frame ;;;
  emit [opcode] ;;;
  emit32 (get_branch_arity branch_frame) ;;;
  branch_immediates label_idx.

Definition invalid_label : exn := validation_error "invalid label index".

Definition handle_br (i : Instr.t) : E unit :=
  let* label_idx := u32_imm in
  let* control := gets x_control in
  if zlen control <=? label_idx then throw invalid_label
  else
    take_branch (Instr.opcode i) label_idx ;;;
    if bool_decide (i = Instr.br) then mark_frame_unreachable
    else
      let* branch_frame := frame_at label_idx in
      match get_branch_frame_type branch_frame with
      | Some t => push_operand (Known t)
      | None => ret tt
      end.

Fixpoint table_branches (default_type : option ValType) (label_indices : list Z) : E unit :=
  match label_indices with
  | [] => ret tt
  | idx :: rest =>
      let* branch_frame := frame_at idx in
      if negb (bool_decide (get_branch_frame_type branch_frame = default_type))
      then throw (validation_error "br_table labels have inconsistent types")
      else branch_immediates idx ;;; table_branches default_type rest
  end.

Definition handle_br_table : E unit :=
  let* label_indices := on_input (parse_vec (leb128u_decode 32)) in
  let* default_label_idx := u32_imm in
  let* control := gets x_control in
  if existsb (fun idx => zlen control <=? idx) label_indices then throw invalid_label
  else if zlen control <=? default_label_idx then throw invalid_label
  else
    emit [Instr.opcode Instr.br_table] ;;;
    emit32 (zlen label_indices) ;;;
    let* frame := top_frame in
    let* default_branch_frame := frame_at default_label_idx in
    update_branch_stack frame default_branch_frame ;;;
    emit32 (get_branch_arity default_branch_frame) ;;;
    table_branches (get_branch_frame_type default_branch_frame) label_indices ;;;
    branch_immediates default_label_idx ;;;
    mark_frame_unreachable.

Definition handle_return : E unit :=
  let* control := gets x_control in
  assert_that (negb (length control =? 0)%nat) ;;;
  take_branch (Instr.opcode Instr.return_) (zlen control - 1) ;;;
  mark_frame_unreachable.

Definition handle_select : E unit :=
  let* frame := top_frame in
  let* ops := gets x_operands in
  if negb (cf_unreachable frame) && (zlen ops <? cf_parent_stack_height frame + 2) then throw stack_underflow
  else
    let* operand_type := if cf_parent_stack_height frame <? zlen ops then elem ops 0 else ret Unknown in
    drop_operand frame operand_type ;;;
    drop_operand frame operand_type ;;;
    push_operand operand_type ;;;
    emit [Instr.opcode Instr.select].

(** [block] and [loop] *)
Definition handle_block (i : Instr.t) : E unit :=
  let* type := on_input parse_blocktype in
  let* s := gets id in
  push_control (new_frame i type (zlen (x_operands s)) (length (x_code s))) ;;;
  emit [Instr.opcode i].

Definition handle_if : E unit :=
  let* type := on_input parse_blocktype in
  let* s := gets id in
  push_control (new_frame Instr.if_ type (zlen (x_operands s)) (length (x_code s))) ;;;
  emit [Instr.opcode Instr.if_] ;;;
  emit32 0.

Definition handle_else : E unit :=
  let* frame := top_frame in
  if negb (bool_decide (cf_instruction frame = Instr.if_))
  then throw (parser_error "unexpected else instruction (if instruction missing)")
  else
    update_result_stack frame ;;;
    pop_control ;;;
    let* s := gets id in
    push_control (MkFrame Instr.else_ (cf_type frame) (length (x_code s)) (zlen (x_operands s)) false
                  (cf_br_immediate_offsets frame)) ;;;
    emit [Instr.opcode Instr.else_] ;;;
    emit32 0 ;;;
    let* code := gets x_code in
    store32_at (cf_code_offset frame + 1) (Z.of_nat (length code)).

Fixpoint fill_branches (offsets : list nat) (target_pc : Z) : E unit :=
  match offsets with
  | [] => ret tt
  | off :: offsets => store32_at off target_pc ;;; fill_branches offsets target_pc
  end.

(** The answer is [continue_parsing]. *)
Definition handle_end : E bool :=
  let* frame := top_frame in
  update_result_stack frame ;;;
  if is_some_type (cf_type frame) && bool_decide (cf_instruction frame = Instr.if_)
  then throw (validation_error "missing result in else branch")
  else
    let* s := gets id in
    let size := Z.of_nat (length (x_code s)) in
    let target_pc := if (length (x_control s) =? 1)%nat then size else size + 1 in
    (if bool_decide (cf_instruction frame = Instr.loop) then ret tt
     else
       (if bool_decide (cf_instruction frame = Instr.if_) || bool_decide (cf_instruction frame = Instr.else_)
        then store32_at (cf_code_offset frame + 1) target_pc else ret tt) ;;;
       fill_branches (cf_br_immediate_offsets frame) target_pc) ;;;
    shrink_operands (cf_parent_stack_height frame) ;;;
    pop_control ;;;
    let* control := gets x_control in
    (match control, cf_type frame with
     | _ :: _, Some t => push_operand (Known t)
     | _, _ => ret tt
     end) ;;;
    emit [Instr.opcode Instr.end_] ;;;
    ret (negb (length control =? 0)%nat).

Definition handle_call : E unit :=
  let* callee_func_idx := u32_imm in
  if zlen (imported_function_types module) + zlen (funcsec module) <=? callee_func_idx
  then throw (validation_error "invalid funcidx encountered with call")
  else
    let* callee := get_function_type module callee_func_idx in
    let* frame := top_frame in
    update_operand_stack frame (inputs callee) (outputs callee) ;;;
    emit [Instr.opcode Instr.call] ;;;
    emit32 callee_func_idx.

Definition handle_call_indirect : E unit :=
  if negb (has_table module) then throw (validation_error "call_indirect without defined table")
  else
    let* callee_type_idx := u32_imm in
    if zlen (typesec module) <=? callee_type_idx then throw (validation_error "invalid type index with call_indirect")
    else
      let* callee := elem (typesec module) callee_type_idx in
      let* frame := top_frame in
      update_operand_stack frame (inputs callee) (outputs callee) ;;;
      let* table_idx := on_input parse_byte in
      if negb (table_idx =? 0) then throw (parser_error "invalid tableidx encountered with call_indirect")
      else emit [Instr.opcode Instr.call_indirect] ;;; emit32 callee_type_idx.

(** [local.get], [local.set] and [local.tee] *)
Definition handle_local (i : Instr.t) : E unit :=
  let* local_idx := u32_imm in
  let* local_type := find_local_type func_inputs locals local_idx in
  let* frame := top_frame in
  (if bool_decide (i = Instr.local_get) then push_operand (Known local_type)
   else if bool_decide (i = Instr.local_set) then drop_operand frame (Known local_type)
   else drop_operand frame (Known local_type) ;;; push_operand (Known local_type)) ;;;
  emit [Instr.opcode i] ;;;
  emit32 local_idx.

Definition handle_global (i : Instr.t) : E unit :=
  let* global_idx := u32_imm in
  if get_global_count module <=? global_idx then throw (validation_error "accessing global with invalid index")
  else
    let* type := get_global_type module global_idx in
    let* frame := top_frame in
    (if bool_decide (i = Instr.global_get) then push_operand (Known (value_type type))
     else if negb (is_mutable type) then throw (validation_error "trying to mutate immutable global")
     else drop_operand frame (Known (value_type type))) ;;;
    emit [Instr.opcode i] ;;;
    emit32 global_idx.

(** A constant is decoded and stored in its full width. *)
Definition handle_const (i : Instr.t) : E unit :=
  let* v := on_input match i with
                     | Instr.i32_const => leb128s_decode 32
                     | Instr.i64_const => leb128s_decode 64
                     | Instr.f32_const => parse_value 4
                     | _ => parse_value 8
                     end in
  emit [Instr.opcode i] ;;;
  emit (le_bytes (match i with Instr.i32_const | Instr.f32_const => 4 | _ => 8 end)%nat v).

Definition no_memory : exn := validation_error "memory instructions require imported or defined memory".

Definition handle_memory_access (i : Instr.t) : E unit :=
  let* align := u32_imm in
  if max_align_of_opcode (Instr.opcode i) <? align then throw (validation_error "alignment cannot exceed operand size")
  else
    let* offset := u32_imm in
    emit [Instr.opcode i] ;;;
    emit32 offset ;;;
    if negb (has_memory module) then throw no_memory else ret tt.

Definition handle_memory_size (i : Instr.t) : E unit :=
  let* memory_idx := on_input parse_byte in
  if negb (memory_idx =? 0) then throw (parser_error "invalid memory index encountered")
  else if negb (has_memory module) then throw no_memory
  else emit [Instr.opcode i].

(** The loads and stores, [0x28] to [0x3e]. *)
Definition is_memory_access (i : Instr.t) : bool := (0x28 <=? Instr.opcode i) && (Instr.opcode i <=? 0x3e).

Definition handle (i : Instr.t) : E bool :=
  match i with
  | Instr.end_ => handle_end
  | _ =>
      match i with
      | Instr.unreachable => mark_frame_unreachable ;;; emit [Instr.opcode i]
      | Instr.drop => let* frame := top_frame in drop_operand frame Unknown ;;; emit [Instr.opcode i]
      | Instr.select => handle_select
      | Instr.block | Instr.loop => handle_block i
      | Instr.if_ => handle_if
      | Instr.else_ => handle_else
      | Instr.br | Instr.br_if => handle_br i
      | Instr.br_table => handle_br_table
      | Instr.return_ => handle_return
      | Instr.call => handle_call
      | Instr.call_indirect => handle_call_indirect
      | Instr.local_get | Instr.local_set | Instr.local_tee => handle_local i
      | Instr.global_get | Instr.global_set => handle_global i
      | Instr.i32_const | Instr.i64_const | Instr.f32_const | Instr.f64_const => handle_const i
      | Instr.memory_size | Instr.memory_grow => handle_memory_size i
      | _ => if is_memory_access i then handle_memory_access i else emit [Instr.opcode i]
      end ;;; ret true
  end.

(** One round of the loop: fetch, largest height, operands of the type table,
    and the handler. *)
Definition parse_instr : E bool :=
  let* opcode := on_input parse_byte in
  let* frame := top_frame in
  (if cf_unreachable frame then ret tt
   else modify (fun s => set_max (Z.max (x_max s) (zlen (x_operands s))) s)) ;;;
  update_operand_stack frame (type_of_opcode opcode).1 (type_of_opcode opcode).2 ;;;
  match Instr.of_byte opcode with
  | None => throw (parser_error ("invalid instruction " +:+ pretty opcode))
  | Some i => handle i
  end.

Fixpoint parse_instrs (fuel : nat) : E unit :=
  match fuel with
  | O => fail out_of_fuel
  | S fuel => let* continue_parsing := parse_instr in if continue_parsing then parse_instrs fuel else ret tt
  end.
End handlers.

Definition parse_expr (func_idx : Z) (locals : list Locals) (module : Module_) : parser Code :=
  let* func_type_idx := elem (funcsec module) func_idx in
  assert_that (func_type_idx <? zlen (typesec module)) ;;;
  let* func_type := elem (typesec module) func_type_idx in
  let frame := new_frame Instr.block (head (outputs func_type)) 0 0 in
  fun input =>
    match parse_instrs module (inputs func_type) locals (S (length input)) (ExprState input [] 0 [] [frame]) with
    | Ret _ s => (assert_that (length (x_control s) =? 0)%nat ;;; ret (MkCode (x_max s) 0 (x_code s))) (x_input s)
    | Throw e s => Throw e (x_input s)
    | Fault f => Fault f
    end.
