(* ===== verification/FizzyExprSafety.v ===== *)
(** * Validation of function bodies is safe

    Whatever bytes a function body consists of, [parse_expr] returns code or
    refuses with a parser or validation error: it never pops an empty stack,
    addresses a frame or a byte of code that is not there, fails an assertion or
    runs on without reading input. *)

From stdpp Require Import base list option numbers strings.
From S2P Require Import Prelude Memory FizzyLeb128 FizzyTypes FizzyExpr.

(** ** Computations that return or refuse *)

Definition is_refusal (e : exn) : Prop :=
  match e with parser_error _ | validation_error _ => True | _ => False end.

(** [m] returns with [Q], or throws a refusal. *)
Definition accepts {S A} (m : M S A) (Q : A -> S -> Prop) (s : S) : Prop :=
  match m s with
  | Ret a s' => Q a s'
  | Throw e _ => is_refusal e
  | Fault _ => False
  end.

Section accepts.
Context {S : Type}.

Lemma accepts_bind {A B} (m : M S A) (k : A -> M S B) Q s :
  accepts m (fun a s' => accepts (k a) Q s') s -> accepts (bind m k) Q s.
Proof. unfold accepts, bind. by destruct (m s). Qed.

Lemma accepts_seq {A B} (m : M S A) (k : A -> M S B) P Q s :
  accepts m P s -> (forall a s', P a s' -> accepts (k a) Q s') -> accepts (bind m k) Q s.
Proof. unfold accepts, bind. intros Hm Hk. destruct (m s) as [a s'| |]; [exact (Hk a s' Hm)|done|done]. Qed.

Lemma accepts_mono {A} (m : M S A) (P Q : A -> S -> Prop) s :
  accepts m P s -> (forall a s', P a s' -> Q a s') -> accepts m Q s.
Proof. unfold accepts. destruct (m s); auto. Qed.

Lemma accepts_gets {A B} (f : S -> A) (k : A -> M S B) Q s : accepts (k (f s)) Q s -> accepts (bind (gets f) k) Q s.
Proof. done. Qed.

Lemma accepts_modify {B} (f : S -> S) (k : unit -> M S B) Q s : accepts (k tt) Q (f s) -> accepts (bind (modify f) k) Q s.
Proof. done. Qed.

Lemma accepts_ret {A} (a : A) (Q : A -> S -> Prop) s : Q a s -> accepts (ret a) Q s.
Proof. done. Qed.

Lemma accepts_run {A} (m : M S A) (Q : A -> S -> Prop) s a s' : m s = Ret a s' -> Q a s' -> accepts m Q s.
Proof. unfold accepts. by intros ->. Qed.

Lemma accepts_elem {A B} (l : list A) i (k : A -> M S B) Q s :
  0 <= i < zlen l -> (forall a, at_idx l i = Some a -> a ∈ l -> accepts (k a) Q s) -> accepts (bind (elem l i) k) Q s.
Proof.
  intros Hi Hk. destruct (at_idx_lt l i Hi) as (a & Ha & Hin). unfold elem. rewrite Ha. by apply Hk.
Qed.

Lemma accepts_assert {B} b (k : unit -> M S B) Q s : b = true -> accepts (k tt) Q s -> accepts (bind (assert_that b) k) Q s.
Proof. by intros ->. Qed.
End accepts.

(** ** Readers: they take at least one byte from the front of the input *)

Definition reader {A} (p : parser A) (Q : A -> Prop) : Prop :=
  forall input, bytes_ok input ->
  accepts p (fun a rest => Q a /\ exists l, l <> [] /\ input = l ++ rest) input.

Lemma suffix_ok (l l' : bytes) : l' `suffix_of` l -> bytes_ok l -> bytes_ok l'.
Proof. intros [k ->] H. by apply Forall_app in H as [_ H]. Qed.

Section readers.
Lemma reader_byte : reader parse_byte byte_ok.
Proof.
  intros [|b input] Hok; [done|]. apply Forall_cons_1 in Hok as [Hb _]. split; [done|]. exists [b]. done.
Qed.

Lemma reader_u digits : reader (leb128u_decode digits) (fun v => 0 <= v < 2 ^ digits).
Proof.
  intros input Hok. pose proof (leb128u_total digits input) as Ht. unfold accepts.
  destruct (leb128u_decode digits input) as [v rest|e rest|] eqn:E; [|by destruct Ht as [w ->]|done].
  unfold leb128u_decode in E. apply u_loop_spec in E as (l & Hl & -> & _ & -> & Hlt); [|lia|lia|done].
  split; [|exists l; split; [by inversion Hl|done]]. split; [|done].
  enough (0 <= leb_value l) by (rewrite Z.pow_0_r; lia). clear. induction l as [|b l IH]; cbn [leb_value]; [lia|].
  rewrite land_127. pose proof (Z.mod_pos_bound b 128). lia.
Qed.

Lemma reader_s digits : reader (leb128s_decode digits) (fun v => - 2 ^ (digits - 1) <= v < 2 ^ (digits - 1)).
Proof.
  intros input Hok. pose proof (leb128s_total digits input) as Ht. unfold accepts.
  destruct (leb128s_decode digits input) as [v rest|e rest|] eqn:E; [|by destruct Ht as [w ->]|done].
  unfold leb128s_decode in E. apply s_loop_spec in E as (l & Hl & -> & _ & -> & Hlt); [|lia|lia|done].
  split; [done|]. exists l. split; [by inversion Hl|done].
Qed.

Lemma reader_value n : (0 < n)%nat -> reader (parse_value n) (fun _ => True).
Proof.
  intros Hn input Hok. unfold accepts, parse_value. destruct (length input <? n)%nat eqn:E; [done|]. apply Nat.ltb_ge in E.
  split; [done|]. exists (take n input). split; [|by rewrite take_drop]. intros H%(f_equal length). rewrite length_take in H. cbn in H. lia.
Qed.

Lemma reader_bind {A B} (p : parser A) (k : A -> parser B) P Q :
  reader p P -> (forall a, P a -> forall input, bytes_ok input -> accepts (k a) (fun b rest => Q b /\ rest `suffix_of` input) input) ->
  reader (bind p k) Q.
Proof.
  intros Hp Hk input Hok. eapply accepts_seq; [by apply Hp|]. intros a rest (Ha & l & Hl & ->).
  apply Forall_app in Hok as [_ Hok]. eapply accepts_mono; [by apply Hk|]. intros b rest' (Hb & l' & ->).
  split; [done|]. exists (l ++ l'). split; [by destruct l|]. by rewrite app_assoc.
Qed.

Lemma reader_suffix {A} (p : parser A) Q input :
  reader p Q -> bytes_ok input -> accepts p (fun a rest => Q a /\ rest `suffix_of` input) input.
Proof. intros Hp Hok. eapply accepts_mono; [by apply Hp|]. intros a rest (Ha & l & _ & ->). split; [done|by exists l]. Qed.

Lemma reader_ret {A} (a : A) (Q : A -> Prop) (input : bytes) : Q a -> accepts (ret a) (fun b rest => Q b /\ rest `suffix_of` input) input.
Proof. intros H. split; [done|]. by exists []. Qed.

Lemma validate_valtype_accepts {S} b (s : S) : accepts (validate_valtype b) (fun _ s' => s' = s) s.
Proof. unfold validate_valtype. repeat case_match; done. Qed.

Lemma reader_valtype : reader parse_valtype (fun _ => True).
Proof.
  eapply reader_bind; [apply reader_byte|]. intros b _ input _. eapply accepts_mono; [apply validate_valtype_accepts|].
  intros t rest ->. split; [done|by exists []].
Qed.

Lemma reader_blocktype : reader parse_blocktype (fun _ => True).
Proof.
  eapply reader_bind; [apply reader_byte|]. intros b _ input _. destruct (b =? 0x40); [by apply reader_ret|].
  eapply accepts_seq; [apply validate_valtype_accepts|]. intros t rest ->. by apply reader_ret.
Qed.

Lemma items_accepts {A} (p : parser A) (Q : A -> Prop) fuel count input :
  reader p Q -> bytes_ok input -> (length input < fuel)%nat ->
  accepts (parse_items p fuel count)
    (fun xs rest => (Forall Q xs /\ zlen xs = Z.max 0 count) /\ rest `suffix_of` input) input.
Proof.
  intros Hp. revert count input. induction fuel as [|fuel IH]; intros count input Hok Hf; [lia|]. cbn [parse_items].
  destruct (count <=? 0) eqn:E; bool_to_prop; [apply reader_ret; rewrite zlen_nil; split; [constructor|lia]|].
  eapply accepts_seq; [by apply Hp|]. intros a rest (Ha & l & Hl & ->). apply Forall_app in Hok as [_ Hok].
  assert (0 < length l)%nat by (destruct l; [done|cbn; lia]). rewrite length_app in Hf.
  eapply accepts_seq; [apply IH; [done|lia]|]. intros xs rest' ((Hxs & Hlen) & l' & ->). split.
  - split; [by constructor|]. rewrite zlen_cons, Hlen. lia.
  - exists (l ++ l'). by rewrite app_assoc.
Qed.

Lemma reader_vec {A} (p : parser A) (Q : A -> Prop) :
  reader p Q -> reader (parse_vec p) (fun xs => Forall Q xs /\ zlen xs < 2 ^ 32).
Proof.
  intros Hp. eapply reader_bind; [apply reader_u|]. intros n [Hn1 Hn2] input Hok. eapply accepts_mono.
  - apply (items_accepts p Q); [done|done|lia].
  - intros xs rest ((Hxs & Hlen) & Hs). split; [|done]. split; [done|lia].
Qed.
End readers.

(** ** The invariant of the two stacks *)

(** The immediates a frame still has to fill in lie within the code. *)
Definition frame_ok (n : nat) (f : ControlFrame) : Prop :=
  (cf_instruction f = Instr.if_ \/ cf_instruction f = Instr.else_ -> cf_code_offset f + 5 <= n)%nat /\
  Forall (fun o => o + 4 <= n)%nat (cf_br_immediate_offsets f).

(** Each frame starts at a height that is there below it. *)
Fixpoint frames_ok (height : Z) (n : nat) (fs : list ControlFrame) : Prop :=
  match fs with
  | [] => True
  | f :: fs => 0 <= cf_parent_stack_height f <= height /\ frame_ok n f /\ frames_ok (cf_parent_stack_height f) n fs
  end.

(** The state while the input [inp] is being read. *)
Record inv (inp : bytes) (s : expr_state) : Prop := {
  inv_ok : bytes_ok inp;
  inv_input : x_input s `suffix_of` inp;
  inv_frames : frames_ok (zlen (x_operands s)) (length (x_code s)) (x_control s)
}.

Lemma frame_ok_mono n n' f : (n <= n')%nat -> frame_ok n f -> frame_ok n' f.
Proof. intros Hn [H1 H2]. split; [intros H; specialize (H1 H); lia|]. eapply Forall_impl; [exact H2|]. cbn. intros; lia. Qed.

Lemma frames_ok_mono h h' n n' fs : h <= h' -> (n <= n')%nat -> frames_ok h n fs -> frames_ok h' n' fs.
Proof.
  revert h h'. induction fs as [|f fs IH]; intros h h' Hh Hn; [done|]. cbn [frames_ok]. intros (H1 & H2 & H3).
  split; [lia|]. split; [by eapply frame_ok_mono|]. by eapply IH.
Qed.

Lemma frames_ok_nth h n fs i f : frames_ok h n fs -> fs !! i = Some f -> frame_ok n f /\ 0 <= cf_parent_stack_height f <= h.
Proof.
  revert h i. induction fs as [|g fs IH]; intros h i; [done|]. cbn [frames_ok]. intros (H1 & H2 & H3). destruct i as [|i]; cbn.
  - intros [= ->]. done.
  - intros Hi. destruct (IH _ _ H3 Hi) as [H4 H5]. split; [done|lia].
Qed.

(** Changing a frame but neither its height nor its place. *)
Lemma frames_ok_alter h n fs g i :
  (forall f, cf_parent_stack_height (g f) = cf_parent_stack_height f) -> (forall f, frame_ok n f -> frame_ok n (g f)) ->
  frames_ok h n fs -> frames_ok h n (alter g i fs).
Proof.
  intros Hg1 Hg2. revert h i. induction fs as [|f fs IH]; intros h i; [done|]. cbn [frames_ok]. intros (H1 & H2 & H3).
  destruct i as [|i]; cbn; rewrite ?Hg1; (split; [done|]); split; auto. 
Qed.

Section expr.
Context (inp : bytes).
Abbreviation I := (inv inp).

(** Only the operands changed, and not below [h]. *)
Definition only_ops (h : Z) (s s' : expr_state) : Prop := exists o, s' = set_operands o s /\ h <= zlen o.

Lemma inv_ops s s' f fs : I s -> x_control s = f :: fs -> only_ops (cf_parent_stack_height f) s s' -> I s'.
Proof.
  intros [H1 H2 H3] Hc (o & -> & Ho). constructor; [done|done|]. cbn [set_operands x_operands x_code x_control] in *.
  rewrite Hc in H3 |- *. destruct H3 as (H4 & H5 & H6). split; [lia|done].
Qed.

Lemma only_ops_control h s s' : only_ops h s s' -> x_control s' = x_control s.
Proof. by intros (o & -> & _). Qed.

Lemma only_ops_trans h s s' s'' : only_ops h s s' -> only_ops h s' s'' -> only_ops h s s''.
Proof. intros (o & -> & _) (o' & -> & H). by exists o'. Qed.

Lemma inv_code s c : I s -> (length (x_code s) <= length c)%nat -> I (set_code c s).
Proof. intros [H1 H2 H3] Hl. constructor; [done|done|]. cbn. eapply frames_ok_mono; [|exact Hl|exact H3]. lia. Qed.

Lemma emit_I s bs : I s -> accepts (emit bs) (fun _ s' => I s' /\ x_control s' = x_control s) s.
Proof. intros H. split; [|done]. apply inv_code; [done|]. rewrite length_app. lia. Qed.

Lemma inv_push s t : I s -> I (set_operands (t :: x_operands s) s).
Proof.
  intros [H1 H2 H3]. constructor; [done|done|]. cbn. eapply frames_ok_mono; [|reflexivity|exact H3]. rewrite zlen_cons. lia.
Qed.

Lemma read_I {A} (p : parser A) Q s :
  reader p Q -> I s -> accepts (on_input p) (fun a s' => Q a /\ I s' /\ x_control s' = x_control s) s.
Proof.
  intros Hp [H1 H2 H3]. pose proof (Hp (x_input s) (suffix_ok _ _ H2 H1)) as H. unfold accepts, on_input, zoom in *.
  destruct (p (x_input s)) as [a rest|e rest|]; [|done|done]. destruct H as (Ha & l & _ & Hin). split; [done|]. split; [|done].
  constructor; [done| |done]. cbn. etrans; [exists l; exact Hin|exact H2].
Qed.

(** *** Operands *)

Lemma pop_inputs_spec f l s :
  0 <= cf_parent_stack_height f <= zlen (x_operands s) ->
  (cf_unreachable f = true \/ cf_parent_stack_height f + zlen l <= zlen (x_operands s)) ->
  accepts (pop_inputs f l) (fun _ => only_ops (cf_parent_stack_height f) s) s.
Proof.
  revert s. induction l as [|t l IH]; intros s Hp Hu; cbn [pop_inputs].
  { exists (x_operands s). split; [by destruct s|lia]. }
  apply accepts_gets. destruct (cf_unreachable f && _) eqn:E.
  { exists (x_operands s). split; [by destruct s|lia]. }
  unfold pop_operand. apply accepts_bind, accepts_gets. destruct (x_operands s) as [|o ops] eqn:Eo.
  - exfalso. rewrite ?zlen_nil, ?zlen_cons in *. apply andb_false_iff in E as [E|E]; bool_to_prop; [|lia].
    destruct Hu as [Hu|Hu]; [congruence|]. pose proof (zlen_nonneg l). lia.
  - apply accepts_modify, accepts_ret. destruct (negb _); [done|]. rewrite ?zlen_cons in *.
    assert (cf_parent_stack_height f <= zlen ops) as Hle.
    { apply andb_false_iff in E as [E|E]; bool_to_prop; [|lia]. destruct Hu as [Hu|Hu]; [congruence|]. pose proof (zlen_nonneg l). lia. }
    eapply accepts_mono; [apply IH; cbn [set_operands x_operands]; [lia|destruct Hu; [by left|right; lia]]|].
    intros _ s' (o' & -> & Ho). by exists o'.
Qed.

Lemma push_outputs_spec outs s : accepts (push_outputs outs) (fun _ => only_ops (zlen (x_operands s)) s) s.
Proof.
  revert s. induction outs as [|t outs IH]; intros s; cbn [push_outputs].
  { exists (x_operands s). split; [by destruct s|lia]. }
  apply accepts_modify. eapply accepts_mono; [apply IH|]. cbn [set_operands x_operands]. rewrite zlen_cons.
  intros _ s' (o & -> & Ho). exists o. split; [done|lia].
Qed.

Lemma update_operand_stack_spec f ins outs s :
  0 <= cf_parent_stack_height f <= zlen (x_operands s) ->
  accepts (update_operand_stack f ins outs) (fun _ => only_ops (cf_parent_stack_height f) s) s.
Proof.
  intros Hp. unfold update_operand_stack. apply accepts_gets. destruct (negb _ && _) eqn:E; [done|].
  eapply accepts_seq; [apply pop_inputs_spec; [done|]|].
  - unfold zlen. rewrite length_rev. apply andb_false_iff in E as [E|E]; bool_to_prop; [by left|by right].
  - intros _ s' (o & -> & Ho). eapply accepts_mono; [apply push_outputs_spec|]. intros _ s' (o' & -> & Ho'). cbn [set_operands x_operands] in Ho'.
    exists o'. split; [done|lia].
Qed.

Lemma drop_operand_spec f t s :
  0 <= cf_parent_stack_height f <= zlen (x_operands s) ->
  accepts (drop_operand f t) (fun _ s' => exists o, s' = set_operands o s /\
    zlen o = Z.max (cf_parent_stack_height f) (zlen (x_operands s) - 1)) s.
Proof.
  intros Hp. unfold drop_operand. apply accepts_gets. destruct (negb _ && _) eqn:E; [done|].
  destruct (zlen (x_operands s) =? cf_parent_stack_height f) eqn:E2; bool_to_prop.
  - unfold assert_that. apply andb_false_iff in E as [E|E]; bool_to_prop; [rewrite E|lia].
    exists (x_operands s). split; [by destruct s|lia].
  - unfold pop_operand. apply accepts_bind, accepts_gets. destruct (x_operands s) as [|o ops]; [rewrite zlen_nil in *; lia|].
    apply accepts_modify, accepts_ret. destruct (negb (type_matches o t)); [done|]. rewrite zlen_cons in *. exists ops. split; [done|lia].
Qed.

Lemma drop_operand_ops f t s :
  0 <= cf_parent_stack_height f <= zlen (x_operands s) ->
  accepts (drop_operand f t) (fun _ => only_ops (cf_parent_stack_height f) s) s.
Proof. intros Hp. eapply accepts_mono; [by apply drop_operand_spec|]. intros _ s' (o & -> & Ho). exists o. split; [done|lia]. Qed.

Lemma update_result_stack_spec f s :
  0 <= cf_parent_stack_height f <= zlen (x_operands s) ->
  accepts (update_result_stack f) (fun _ s' => exists o, s' = set_operands o s /\ zlen o = cf_parent_stack_height f) s.
Proof.
  intros Hp. unfold update_result_stack. apply accepts_gets, accepts_assert; [apply Z.leb_le; lia|]. cbv zeta.
  destruct (_ <? _) eqn:E; [done|]. bool_to_prop. destruct (cf_type f) as [t|]; cbn [is_some_type] in E.
  - eapply accepts_mono; [by apply drop_operand_spec|]. intros _ s' (o & -> & Ho). exists o. split; [done|lia].
  - exists (x_operands s). split; [by destruct s|lia].
Qed.

Lemma update_branch_stack_spec f g s :
  0 <= cf_parent_stack_height f <= zlen (x_operands s) ->
  accepts (update_branch_stack f g) (fun _ => only_ops (cf_parent_stack_height f) s) s.
Proof.
  intros Hp. unfold update_branch_stack. apply accepts_gets, accepts_assert; [apply Z.leb_le; lia|].
  destruct (get_branch_frame_type g); [by apply drop_operand_ops|]. exists (x_operands s). split; [by destruct s|lia].
Qed.
(** *** Frames *)

(** A state with a frame to work in. *)
Definition J (s : expr_state) : Prop := I s /\ x_control s <> [].

Lemma with_top {B} (k : ControlFrame -> E B) Q s :
  J s ->
  (forall f fs, x_control s = f :: fs -> 0 <= cf_parent_stack_height f <= zlen (x_operands s) -> accepts (k f) Q s) ->
  accepts (bind top_frame k) Q s.
Proof.
  intros [[_ _ H3] Hne] Hk. destruct (x_control s) as [|f fs] eqn:Ec; [done|].
  apply accepts_bind. unfold top_frame, frame_at. apply accepts_gets. rewrite Ec. eapply accepts_run; [done|].
  apply (Hk f fs); [done|apply H3].
Qed.

Lemma with_frame {B} i (k : ControlFrame -> E B) Q s :
  I s -> 0 <= i < zlen (x_control s) ->
  (forall f, x_control s !! Z.to_nat i = Some f -> accepts (k f) Q s) -> accepts (bind (frame_at i) k) Q s.
Proof.
  intros HI Hi Hk. apply accepts_bind. unfold frame_at. apply accepts_gets.
  destruct (at_idx_lt (x_control s) i Hi) as (f & Hf & _). eapply accepts_run; [unfold elem; by rewrite Hf|].
  apply Hk. unfold at_idx in Hf. by rewrite (proj2 (Z.ltb_ge _ _)) in Hf by lia.
Qed.

Lemma after_ops {B} (m : E unit) (k : unit -> E B) f fs Q s :
  J s -> x_control s = f :: fs -> accepts m (fun _ => only_ops (cf_parent_stack_height f) s) s ->
  (forall s', J s' -> x_control s' = f :: fs -> accepts (k tt) Q s') -> accepts (bind m k) Q s.
Proof.
  intros [HI Hne] Hc Hm Hk. eapply accepts_seq; [exact Hm|]. intros [] s' Ho. pose proof (only_ops_control _ _ _ Ho) as Hc'.
  apply Hk; [|congruence]. split; [by eapply inv_ops|congruence].
Qed.

Lemma after_emit {B} bs (k : unit -> E B) Q s :
  J s -> (forall s', J s' -> x_control s' = x_control s -> accepts (k tt) Q s') -> accepts (bind (emit bs) k) Q s.
Proof.
  intros [HI Hne] Hk. eapply accepts_seq; [by apply emit_I|]. intros [] s' [HI' Hc]. apply Hk; [|done]. split; [done|congruence].
Qed.

Lemma last_emit bs s : J s -> accepts (emit bs) (fun _ => J) s.
Proof. intros [HI Hne]. eapply accepts_mono; [by apply emit_I|]. intros _ s' [HI' Hc]. split; [done|congruence]. Qed.

Lemma after_read {A B} (p : parser A) (k : A -> E B) P Q s :
  reader p P -> J s -> (forall a s', P a -> J s' -> x_control s' = x_control s -> accepts (k a) Q s') ->
  accepts (bind (on_input p) k) Q s.
Proof.
  intros Hp [HI Hne] Hk. eapply accepts_seq; [by apply read_I|]. intros a s' (Ha & HI' & Hc). apply Hk; [done| |done].
  split; [done|congruence].
Qed.

Lemma push_J t s : J s -> J (set_operands (t :: x_operands s) s).
Proof. intros [HI Hne]. split; [by apply inv_push|done]. Qed.

Lemma mark_unreachable_J s : J s -> accepts mark_frame_unreachable (fun _ => J) s.
Proof.
  intros HJ. unfold mark_frame_unreachable. apply with_top; [done|]. intros f fs Hc Hp. destruct HJ as [[H1 H2 H3] Hne].
  apply accepts_modify. unfold shrink_operands. apply accepts_gets, accepts_assert; [apply Z.leb_le; cbn; lia|].
  cbn [set_control x_operands set_operands x_control modify]. split; [|cbn; rewrite Hc; done]. constructor; [done|done|].
  cbn [set_control set_operands x_operands x_code x_control]. rewrite Hc in H3 |- *. destruct H3 as (H4 & H5 & H6).
  change (Z.to_nat 0) with 0%nat. cbn. split; [|done]. unfold zlen in *. rewrite length_drop. lia.
Qed.

(** The immediates of a branch: the frame remembers where they are. *)
Lemma branch_immediates_J i s :
  J s -> 0 <= i < zlen (x_control s) ->
  accepts (branch_immediates i) (fun _ s' => J s' /\ length (x_control s') = length (x_control s)) s.
Proof.
  intros [HI Hne] Hi. unfold branch_immediates. apply with_frame; [done|done|]. intros f Hf.
  apply accepts_gets, accepts_modify, accepts_gets. unfold push_branch_immediates, emit32, emit.
  apply accepts_modify. unfold modify, accepts. destruct HI as [H1 H2 H3].
  cbn [set_control set_code x_control x_code x_operands x_input]. split; [split|].
  - constructor; [done|done|]. cbn [set_control set_code x_control x_code x_operands x_input].
    rewrite !length_app, !length_le_bytes. apply frames_ok_alter; [done| |].
    + intros g [Hg1 Hg2]. split; [exact Hg1|]. cbn. apply Forall_app. split; [done|]. constructor; [lia|constructor].
    + eapply frames_ok_mono; [reflexivity| |exact H3]. lia.
  - intros E. apply (f_equal length) in E. cbn in E. rewrite length_alter in E. by destruct (x_control s).
  - by rewrite length_alter.
Qed.

Lemma take_branch_J opcode i s :
  J s -> 0 <= i < zlen (x_control s) ->
  accepts (take_branch opcode i) (fun _ s' => J s' /\ length (x_control s') = length (x_control s)) s.
Proof.
  intros HJ Hi. unfold take_branch. apply with_top; [done|]. intros f fs Hc Hp. apply with_frame; [apply HJ|done|]. intros g _.
  eapply after_ops; [done|done|by apply update_branch_stack_spec|]. intros s1 HJ1 Hc1.
  apply after_emit; [done|]. intros s2 HJ2 Hc2. apply after_emit; [done|]. intros s3 HJ3 Hc3.
  assert (x_control s3 = x_control s) as Hc' by congruence. rewrite <- Hc'. apply branch_immediates_J; [done|by rewrite Hc'].
Qed.

Lemma table_branches_J type labels s :
  J s -> Forall (fun i => 0 <= i < zlen (x_control s)) labels ->
  accepts (table_branches type labels) (fun _ s' => J s' /\ length (x_control s') = length (x_control s)) s.
Proof.
  revert s. induction labels as [|i labels IH]; intros s HJ Hl; cbn [table_branches]; [done|].
  apply Forall_cons_1 in Hl as [Hi Hl]. apply with_frame; [apply HJ|done|]. intros g _. destruct (negb _); [done|].
  eapply accepts_seq; [by apply branch_immediates_J|]. intros _ s' [HJ' Hlen].
  eapply accepts_mono; [apply IH; [done|unfold zlen in *; by rewrite Hlen]|]. intros _ s'' [HJ'' Hlen']. split; [done|congruence].
Qed.

Lemma store32_at_spec off v s :
  (off + 4 <= length (x_code s))%nat ->
  accepts (store32_at off v) (fun _ s' => exists c, s' = set_code c s /\ length c = length (x_code s)) s.
Proof.
  intros Ho. unfold store32_at. apply accepts_gets. rewrite (proj2 (Nat.leb_le _ _)) by done. eexists. split; [done|].
  rewrite !length_app, length_take, length_drop, length_le_bytes. lia.
Qed.

Lemma fill_branches_spec offs v s :
  Forall (fun o => o + 4 <= length (x_code s))%nat offs ->
  accepts (fill_branches offs v) (fun _ s' => exists c, s' = set_code c s /\ length c = length (x_code s)) s.
Proof.
  revert s. induction offs as [|o offs IH]; intros s Ho; cbn [fill_branches]; [exists (x_code s); by destruct s|].
  apply Forall_cons_1 in Ho as [Ho1 Ho]. eapply accepts_seq; [by apply store32_at_spec|]. intros _ s' (c & -> & Hc).
  eapply accepts_mono; [apply IH; cbn; by rewrite Hc|]. cbn. intros _ s' (c' & -> & Hc'). exists c'. split; [done|congruence].
Qed.
End expr.

(** ** The handlers *)

(** The functions of the module have types. *)
Definition types_ok (m : Module_) : Prop := Forall (fun t => 0 <= t < zlen (typesec m)) (funcsec m).

Lemma get_function_type_accepts {S} m idx (s : S) :
  types_ok m -> 0 <= idx < get_function_count m -> accepts (get_function_type m idx) (fun _ s' => s' = s) s.
Proof.
  intros Hm Hi. unfold get_function_type. apply accepts_assert; [apply Z.ltb_lt; lia|]. unfold get_function_count in Hi.
  destruct (idx <? _) eqn:E; bool_to_prop.
  - destruct (elem_lt (imported_function_types m) idx s) as (t & Ht & _); [lia|]. by eapply accepts_run.
  - apply accepts_elem; [lia|]. intros t _ Ht. unfold types_ok in Hm. rewrite Forall_forall in Hm. specialize (Hm t Ht).
    apply accepts_assert; [apply Z.ltb_lt; lia|]. destruct (elem_lt (typesec m) t s Hm) as (ft & Hft & _). by eapply accepts_run.
Qed.

Lemma get_global_type_accepts {S} m idx (s : S) :
  0 <= idx < get_global_count m -> accepts (get_global_type m idx) (fun _ s' => s' = s) s.
Proof.
  intros Hi. unfold get_global_type. apply accepts_assert; [apply Z.ltb_lt; lia|]. unfold get_global_count in Hi.
  destruct (idx <? _) eqn:E; bool_to_prop.
  - destruct (elem_lt (imported_global_types m) idx s) as (t & Ht & _); [lia|]. by eapply accepts_run.
  - by apply accepts_elem; [lia|].
Qed.

Section handlers.
Context (inp : bytes) (m : Module_) (func_inputs : list ValType) (locals : list Locals) (Hm : types_ok m).
Abbreviation J := (J inp).
Abbreviation safe h := (forall s, J s -> accepts h (fun _ => J) s).

Lemma u32_imm_J {B} (k : Z -> E B) Q s :
  J s -> (forall v s', 0 <= v < 2 ^ 32 -> J s' -> x_control s' = x_control s -> accepts (k v) Q s') ->
  accepts (bind u32_imm k) Q s.
Proof. intros HJ Hk. eapply after_read; [apply reader_u|done|]. intros v s' Hv. by apply Hk. Qed.

Lemma handle_br_J i : safe (handle_br i).
Proof.
  intros s HJ. unfold handle_br. apply u32_imm_J; [done|]. intros l s1 Hl HJ1 Hc1. apply accepts_gets.
  destruct (zlen (x_control s1) <=? l) eqn:E; [done|]. bool_to_prop. eapply accepts_seq; [apply (take_branch_J inp); [done|lia]|].
  intros _ s2 [HJ2 Hlen]. destruct (bool_decide (i = Instr.br)); [by apply mark_unreachable_J|].
  eapply with_frame; [apply HJ2|unfold zlen in *; lia|]. intros g _. destruct (get_branch_frame_type g); [by apply push_J|done].
Qed.

Lemma handle_br_table_J : safe handle_br_table.
Proof.
  intros s HJ. unfold handle_br_table. eapply after_read; [apply reader_vec, reader_u|done|]. intros ls s1 [Hls _] HJ1 Hc1.
  apply u32_imm_J; [done|]. intros d s2 Hd HJ2 Hc2. apply accepts_gets. destruct (existsb _ ls) eqn:E; [done|].
  destruct (zlen (x_control s2) <=? d) eqn:Ed; [done|]. bool_to_prop.
  assert (Forall (fun i => 0 <= i < zlen (x_control s2)) ls) as Hall.
  { rewrite Forall_forall in Hls |- *. intros i Hi. specialize (Hls i Hi). split; [lia|].
    destruct (decide (zlen (x_control s2) <= i)) as [Hge|]; [|lia]. exfalso.
    assert (existsb (fun idx => zlen (x_control s2) <=? idx) ls = true) as Ht; [|congruence].
    apply existsb_exists. exists i. split; [by apply list_elem_of_In|by apply Z.leb_le]. }
  apply (after_emit inp); [done|]. intros s3 HJ3 Hc3. apply (after_emit inp); [done|]. intros s4 HJ4 Hc4.
  apply (with_top inp); [done|]. intros f fs Hf Hp. assert (x_control s4 = x_control s2) as Hc by congruence.
  apply (with_frame inp); [apply HJ4|rewrite Hc; lia|]. intros g _.
  eapply (after_ops inp); [done|done|by apply update_branch_stack_spec|]. intros s5 HJ5 Hc5.
  apply (after_emit inp); [done|]. intros s6 HJ6 Hc6. assert (x_control s6 = x_control s2) as Hc' by congruence.
  eapply accepts_seq; [apply (table_branches_J inp); [done|by rewrite Hc']|]. intros _ s7 [HJ7 Hl7].
  eapply accepts_seq; [apply (branch_immediates_J inp); [done|unfold zlen in *; rewrite Hl7, Hc'; lia]|].
  intros _ s8 [HJ8 _]. by apply mark_unreachable_J.
Qed.

Lemma handle_return_J : safe handle_return.
Proof.
  intros s HJ. pose proof HJ as [_ Hne]. unfold handle_return.
  assert (0 < zlen (x_control s)) as Hpos by (destruct (x_control s); [done|rewrite zlen_cons; pose proof (zlen_nonneg l); lia]).
  apply accepts_gets, accepts_assert; [by destruct (x_control s)|]. eapply accepts_seq; [apply (take_branch_J inp); [done|lia]|].
  intros _ s1 [HJ1 _]. by apply mark_unreachable_J.
Qed.

Lemma handle_select_J : safe handle_select.
Proof.
  intros s HJ. unfold handle_select. apply (with_top inp); [done|]. intros f fs Hc Hp. apply accepts_gets. destruct (negb _ && _); [done|].
  assert (forall t, accepts (drop_operand f t;;; drop_operand f t;;; push_operand t;;; emit [Instr.opcode Instr.select]) (fun _ => J) s) as Hgo.
  { intros t. eapply (after_ops inp); [done|done|by apply drop_operand_ops|]. intros s1 HJ1 Hc1.
    assert (0 <= cf_parent_stack_height f <= zlen (x_operands s1)) as Hp1 by (destruct HJ1 as [[_ _ H3] _]; rewrite Hc1 in H3; apply H3).
    eapply (after_ops inp); [done|done|by apply drop_operand_ops|]. intros s2 HJ2 Hc2.
    apply accepts_modify. apply last_emit. by apply push_J. }
  destruct (_ <? _) eqn:E; [|apply Hgo]. bool_to_prop. apply accepts_elem; [pose proof (zlen_nonneg (x_operands s)); lia|].
  intros t _ _. apply Hgo.
Qed.

(** A new frame at the current height, and code after it. *)
Lemma inv_new_frame s f bs :
  inv inp s -> cf_parent_stack_height f = zlen (x_operands s) -> frame_ok (length (x_code s ++ bs)) f ->
  J (set_code (x_code s ++ bs) (set_control (f :: x_control s) s)).
Proof.
  intros [H1 H2 H3] Hp Hf. split; [|done]. constructor; [done|done|].
  cbn [set_control set_code x_control x_code x_operands x_input frames_ok]. rewrite Hp. pose proof (zlen_nonneg (x_operands s)).
  split; [lia|]. split; [done|]. rewrite length_app. eapply frames_ok_mono; [| |exact H3]; lia.
Qed.

Lemma handle_block_J i : i <> Instr.if_ -> i <> Instr.else_ -> safe (handle_block i).
Proof.
  intros Hi1 Hi2 s HJ. unfold handle_block. eapply after_read; [apply reader_blocktype|done|]. intros t s1 _ [HI1 Hne1] Hc1.
  apply accepts_gets, accepts_modify.
  refine (inv_new_frame s1 (new_frame i t (zlen (x_operands s1)) (length (x_code s1))) [Instr.opcode i] _ _ _); [done|done|].
  split; [|constructor]. cbn. intros [?|?]; congruence.
Qed.

Lemma handle_if_J : safe handle_if.
Proof.
  intros s HJ. unfold handle_if. eapply after_read; [apply reader_blocktype|done|]. intros t s1 _ [HI1 Hne1] Hc1.
  apply accepts_gets, accepts_modify, accepts_modify. unfold accepts, emit32, emit, modify. cbn [set_code x_code id].
  change (J (set_code ((x_code s1 ++ [Instr.opcode Instr.if_]) ++ le_bytes 4 0)
    (set_control (new_frame Instr.if_ t (zlen (x_operands s1)) (length (x_code s1)) :: x_control s1) s1))).
  rewrite <- app_assoc. apply inv_new_frame; [done|done|]. split; [|constructor]. intros _. rewrite !length_app, length_le_bytes. cbn. lia.
Qed.

Lemma handle_else_J : safe handle_else.
Proof.
  intros s HJ. unfold handle_else. apply (with_top inp); [done|]. intros f fs Hc Hp. destruct (bool_decide _) eqn:Ei; [|done].
  apply bool_decide_eq_true in Ei. cbn [negb]. eapply accepts_seq; [by apply update_result_stack_spec|]. intros _ s' (o & -> & Ho).
  unfold pop_control. apply accepts_bind, accepts_gets. cbn [set_operands x_control]. rewrite Hc. destruct HJ as [[H1 H2 H3] _].
  rewrite Hc in H3. destruct H3 as (H4 & [H5 H6] & H7). unfold accepts at 1, modify. apply accepts_gets, accepts_modify, accepts_modify.
  unfold emit32 at 1. apply accepts_modify, accepts_gets. cbn [set_operands set_control set_code x_control x_code x_operands x_input id].
  set (s4 := set_code _ _). assert (J s4) as HJ4.
  { unfold s4. cbn [set_operands set_control set_code x_control x_code x_operands x_input id]. rewrite <- app_assoc.
    refine (inv_new_frame (set_control fs (set_operands o s)) (MkFrame _ _ _ _ _ _) _ _ _ _); [|done|].
    - constructor; [done|done|]. cbn. by rewrite Ho.
    - unfold frame_ok. cbn [cf_instruction cf_code_offset cf_br_immediate_offsets set_control set_operands x_code].
      rewrite !length_app, length_le_bytes. cbn [length]. split; [lia|]. eapply Forall_impl; [exact H6|]. cbn. intros; lia. }
  eapply accepts_mono; [apply store32_at_spec|].
  - unfold s4. cbn [set_code x_code]. rewrite !length_app, length_le_bytes. specialize (H5 (or_introl Ei)). lia.
  - intros _ s' (c & -> & Hlen). destruct HJ4 as [HI4 Hne4]. split; [|done]. apply inv_code; [done|lia].
Qed.

Lemma handle_end_J s :
  J s -> accepts handle_end (fun b s' => inv inp s' /\ b = negb (length (x_control s') =? 0)%nat) s.
Proof.
  intros HJ. unfold handle_end. apply (with_top inp); [done|]. intros f fs Hc Hp.
  eapply accepts_seq; [by apply update_result_stack_spec|]. intros _ s' (o & -> & Ho). destruct HJ as [[H1 H2 H3] _].
  rewrite Hc in H3. destruct H3 as (H4 & [H5 H6] & H7). destruct (_ && bool_decide _); [done|]. apply accepts_gets. cbv zeta.
  match goal with |- context [fill_branches _ ?t] => set (target := t) end. eapply (accepts_seq _ _ (fun (_ : unit) s' => exists c, s' = set_code c (set_operands o s) /\ length c = length (x_code s))).
  { destruct (bool_decide (cf_instruction f = Instr.loop)); [exists (x_code s); by destruct s|].
    eapply (accepts_seq _ _ (fun (_ : unit) s' => exists c, s' = set_code c (set_operands o s) /\ length c = length (x_code s))).
    - destruct (_ || _) eqn:Ei; [|exists (x_code s); by destruct s]. refine (store32_at_spec _ _ (set_operands o s) _). cbn.
      apply orb_true_iff in Ei as [Ei|Ei]; apply bool_decide_eq_true in Ei; [specialize (H5 (or_introl Ei))|specialize (H5 (or_intror Ei))]; lia.
    - intros _ s' (c & -> & Hlen). eapply accepts_mono; [apply fill_branches_spec; cbn; by rewrite Hlen|].
      intros _ s' (c' & -> & Hlen'). exists c'. cbn in *. split; [done|congruence]. }
  intros _ s' (c & -> & Hlen). unfold shrink_operands. apply accepts_bind, accepts_gets.
  cbn [set_operands set_control set_code x_control x_code x_operands x_input].
  apply accepts_assert; [apply Z.leb_le; lia|]. unfold accepts at 1, modify. unfold pop_control. apply accepts_bind, accepts_gets.
  cbn [set_operands set_control set_code x_control x_code x_operands x_input]. rewrite Hc. unfold accepts at 1, modify.
  apply accepts_gets. cbn [set_operands set_control set_code x_control x_code x_operands x_input].
  set (s1 := set_control fs _). assert (inv inp s1) as HI1.
  { constructor; [done|done|]. unfold s1. cbn. rewrite Hlen. eapply frames_ok_mono; [| |exact H7]; [|lia]. unfold zlen in *. rewrite length_drop. lia. }
  eapply (accepts_seq _ _ (fun (_ : unit) s' => inv inp s' /\ x_control s' = fs)).
  { destruct fs; [done|]. destruct (cf_type f); [|done]. split; [by apply inv_push|done]. }
  intros _ s2 [HI2 Hc2]. eapply accepts_seq; [by apply emit_I|]. intros _ s3 [HI3 Hc3]. split; [done|]. by rewrite Hc3, Hc2.
Qed.

Lemma handle_call_J : safe (handle_call m).
Proof.
  intros s HJ. unfold handle_call. apply u32_imm_J; [done|]. intros i s1 Hi HJ1 Hc1. destruct (_ <=? i) eqn:E; [done|]. bool_to_prop.
  eapply accepts_seq; [apply get_function_type_accepts; [done|unfold get_function_count; lia]|]. intros t s2 ->.
  apply (with_top inp); [done|]. intros f fs Hf Hp. eapply (after_ops inp); [done|done|by apply update_operand_stack_spec|]. intros s3 HJ3 Hc3.
  apply (after_emit inp); [done|]. intros s4 HJ4 _. by apply last_emit.
Qed.

Lemma handle_call_indirect_J : safe (handle_call_indirect m).
Proof.
  intros s HJ. unfold handle_call_indirect. destruct (negb _); [done|]. apply u32_imm_J; [done|]. intros i s1 Hi HJ1 Hc1.
  destruct (_ <=? i) eqn:E; [done|]. bool_to_prop. apply accepts_elem; [lia|]. intros t _ _.
  apply (with_top inp); [done|]. intros f fs Hf Hp. eapply (after_ops inp); [done|done|by apply update_operand_stack_spec|]. intros s3 HJ3 Hc3.
  eapply after_read; [apply reader_byte|done|]. intros b s4 _ HJ4 _. destruct (negb _); [done|].
  apply (after_emit inp); [done|]. intros s5 HJ5 _. by apply last_emit.
Qed.

Lemma find_local_type_accepts idx s : 0 <= idx -> accepts (find_local_type func_inputs locals idx) (fun _ s' => s' = s) s.
Proof.
  intros Hi. unfold find_local_type. destruct (idx <? _) eqn:E; bool_to_prop.
  - destruct (elem_lt func_inputs idx s) as (t & Ht & _); [lia|]. by eapply accepts_run.
  - by destruct (find_local _ _ _).
Qed.

Lemma handle_local_J i : safe (handle_local func_inputs locals i).
Proof.
  intros s HJ. unfold handle_local. apply u32_imm_J; [done|]. intros l s1 Hl HJ1 _.
  eapply accepts_seq; [apply find_local_type_accepts; lia|]. intros t s2 ->. apply (with_top inp); [done|]. intros f fs Hc Hp.
  assert (forall s', J s' -> accepts (emit [Instr.opcode i];;; emit32 l) (fun _ => J) s') as Hlast
    by (intros s' HJ'; apply (after_emit inp); [done|]; intros s'' HJ'' _; by apply last_emit).
  destruct (bool_decide (i = Instr.local_get)); [by apply accepts_modify, Hlast, push_J|].
  destruct (bool_decide (i = Instr.local_set)).
  - eapply (after_ops inp); [done|done|by apply drop_operand_ops|]. intros s3 HJ3 _. by apply Hlast.
  - apply accepts_bind. eapply (after_ops inp); [done|done|by apply drop_operand_ops|]. intros s3 HJ3 _. apply Hlast. by apply push_J.
Qed.

Lemma handle_global_J i : safe (handle_global m i).
Proof.
  intros s HJ. unfold handle_global. apply u32_imm_J; [done|]. intros l s1 Hl HJ1 _. destruct (_ <=? l) eqn:E; [done|]. bool_to_prop.
  eapply accepts_seq; [apply get_global_type_accepts; lia|]. intros t s2 ->. apply (with_top inp); [done|]. intros f fs Hc Hp.
  assert (forall s', J s' -> accepts (emit [Instr.opcode i];;; emit32 l) (fun _ => J) s') as Hlast
    by (intros s' HJ'; apply (after_emit inp); [done|]; intros s'' HJ'' _; by apply last_emit).
  destruct (bool_decide (i = Instr.global_get)); [by apply accepts_modify, Hlast, push_J|].
  destruct (negb _); [done|]. eapply (after_ops inp); [done|done|by apply drop_operand_ops|]. intros s3 HJ3 _. by apply Hlast.
Qed.

Lemma handle_const_J i : safe (handle_const i).
Proof.
  intros s HJ. unfold handle_const. eapply (after_read inp _ _ (fun _ => True)); [|done|].
  - assert (forall w, reader (leb128s_decode w) (fun _ => True)) as Hs
      by (intros w input Hok; eapply accepts_mono; [by apply reader_s|]; intros v rest [_ H]; done).
    destruct i; first [apply Hs|apply reader_value; lia].
  - intros v s1 _ HJ1 _. apply (after_emit inp); [done|]. intros s2 HJ2 _. by apply last_emit.
Qed.

Lemma handle_memory_access_J i : safe (handle_memory_access m i).
Proof.
  intros s HJ. unfold handle_memory_access. apply u32_imm_J; [done|]. intros a s1 _ HJ1 _. destruct (_ <? a); [done|].
  apply u32_imm_J; [done|]. intros o s2 _ HJ2 _. apply (after_emit inp); [done|]. intros s3 HJ3 _.
  apply (after_emit inp); [done|]. intros s4 HJ4 _. by destruct (negb _).
Qed.

Lemma handle_memory_size_J i : safe (handle_memory_size m i).
Proof.
  intros s HJ. unfold handle_memory_size. eapply after_read; [apply reader_byte|done|]. intros b s1 _ HJ1 _.
  destruct (negb _); [done|]. destruct (negb _); [done|]. by apply last_emit.
Qed.

Lemma handle_J i s :
  J s -> accepts (handle m func_inputs locals i)
    (fun b s' => inv inp s' /\ b = negb (length (x_control s') =? 0)%nat) s.
Proof.
  intros HJ. assert (forall (h : E unit), safe h -> accepts (h ;;; ret true) (fun b s' => inv inp s' /\ b = negb (length (x_control s') =? 0)%nat) s) as Hh.
  { intros h Hh. eapply accepts_seq; [by apply Hh|]. intros _ s' [HI Hne]. split; [done|]. by destruct (x_control s'). }
  destruct i; cbn [handle]; first [by apply handle_end_J|apply Hh]; try (by apply last_emit);
    first [apply handle_br_J|apply handle_br_table_J|apply handle_return_J|apply handle_select_J|apply handle_if_J
          |apply handle_else_J|apply handle_call_J|apply handle_call_indirect_J|apply handle_local_J|apply handle_global_J
          |apply handle_const_J|apply handle_memory_size_J|(apply handle_block_J; discriminate)
          |(cbn [is_memory_access]; apply handle_memory_access_J)|idtac].
  - intros s1 HJ1. eapply (accepts_seq _ _ (fun _ => J)); [by apply mark_unreachable_J|]. intros _ s2 HJ2. by apply last_emit.
  - intros s1 HJ1. apply (with_top inp); [done|]. intros f fs Hc Hp.
    eapply (after_ops inp); [done|done|by apply drop_operand_ops|]. intros s2 HJ2 _. by apply last_emit.
Qed.
End handlers.

Lemma parse_instr_safe m ins locals s :
  types_ok m -> bytes_ok (x_input s) -> inv (x_input s) s -> x_control s <> [] ->
  accepts (parse_instr m ins locals) (fun b s' => (length (x_input s') < length (x_input s))%nat /\
    x_input s' `suffix_of` x_input s /\ inv (x_input s') s' /\ b = negb (length (x_control s') =? 0)%nat) s.
Proof.
  intros Hm Hok HI Hne. unfold parse_instr, on_input. apply accepts_bind.
  unfold accepts at 1, zoom. destruct (x_input s) as [|b rest] eqn:Ein; [done|]. cbn [parse_byte].
  set (s1 := set_input rest s). apply Forall_cons_1 in Hok as [Hb Hok].
  assert (J rest s1) as HJ1 by (destruct HI as [H1 H2 H3]; split; [constructor; [done|by exists []|done]|done]).
  apply (with_top rest); [done|]. intros f fs Hc Hp. eapply (accepts_seq _ _ (fun _ s' => J rest s' /\ x_control s' = f :: fs /\
    0 <= cf_parent_stack_height f <= zlen (x_operands s'))).
  { destruct (cf_unreachable f); [done|]. destruct HJ1 as [[H1 H2 H3] H4]. split; [split; [by constructor|done]|done]. }
  intros _ s2 (HJ2 & Hc2 & Hp2). eapply (after_ops rest); [done|done|by apply update_operand_stack_spec|]. intros s3 HJ3 Hc3.
  destruct (Instr.of_byte b) as [i|]; [|done]. eapply accepts_mono; [by apply (handle_J rest)|]. intros c s4 [HI4 ->].
  destruct HI4 as [H1 H2 H3]. split; [apply suffix_length in H2; cbn; lia|]. split; [etrans; [exact H2|by exists [b]]|].
  split; [|done]. constructor; [by eapply suffix_ok|by exists []|done].
Qed.

Lemma parse_instrs_safe m ins locals fuel s :
  types_ok m -> inv (x_input s) s -> x_control s <> [] -> (length (x_input s) < fuel)%nat ->
  accepts (parse_instrs m ins locals fuel) (fun _ s' => x_control s' = [] /\ exists l, l <> [] /\ x_input s = l ++ x_input s') s.
Proof.
  intros Hm. revert s. induction fuel as [|fuel IH]; intros s HI Hne Hf; [lia|]. cbn [parse_instrs].
  eapply accepts_seq; [by apply parse_instr_safe; [done|apply HI| |]|]. intros b s1 (Hlt & [l Hs] & HI1 & ->).
  assert (l <> []) as Hl by (intros ->; rewrite Hs in Hlt; cbn in Hlt; lia).
  destruct (length (x_control s1)) as [|n] eqn:El; cbn [Nat.eqb negb].
  - split; [by apply nil_length_inv|]. by exists l.
  - eapply accepts_mono; [apply IH; [done|by intros E; rewrite E in El|lia]|]. intros _ s2 (Hc & l' & _ & Hs').
    split; [done|]. exists (l ++ l'). split; [by destruct l|]. by rewrite Hs, Hs', app_assoc.
Qed.

(** Whatever the bytes, the validation of a function body of a module whose
    functions have types ends: it returns code and has read at least one byte,
    or throws a parser or validation error. No assertion of the parser fails, no
    stack is popped when empty, and every immediate it fills in lies within the
    code. *)
Lemma parse_expr_safe func_idx locals m (input : bytes) :
  types_ok m -> 0 <= func_idx < zlen (funcsec m) -> bytes_ok input ->
  match parse_expr func_idx locals m input with
  | Ret _ rest => exists l, l <> [] /\ input = l ++ rest
  | Throw e _ => is_refusal e
  | Fault _ => False
  end.
Proof.
  intros Hm Hi Hok.
  change (accepts (parse_expr func_idx locals m) (fun _ rest => exists l, l <> [] /\ input = l ++ rest) input).
  unfold parse_expr. apply accepts_elem; [done|]. intros t _ Ht. pose proof Hm as Hm'. unfold types_ok in Hm'.
  rewrite Forall_forall in Hm'. specialize (Hm' t Ht). apply accepts_assert; [apply Z.ltb_lt; lia|].
  apply accepts_elem; [done|]. intros ft _ _. unfold accepts. cbv zeta beta.
  set (s0 := ExprState input _ _ _ _).
  assert (inv (x_input s0) s0) as HI.
  { constructor; [done|by exists []|]. split; [by split|]. split; [|done].
    split; [|constructor]. intros [?|?]; done. }
  pose proof (parse_instrs_safe m (inputs ft) locals (S (length input)) s0 Hm HI) as H.
  assert (x_control s0 <> []) as Hne by done. assert (length (x_input s0) < S (length input))%nat as Hf by (cbn; lia).
  specialize (H Hne Hf). unfold accepts in H. destruct (parse_instrs _ _ _ _ s0) as [[] s1|e s1|]; [|done|done].
  destruct H as (Hc & l & Hl & Hin). rewrite Hc. cbn. by exists l.
Qed.

Definition sample_module : Module_ :=
  MkModule [MkFuncType [Ti32] [Ti32]] [] [0] [] [] [] [] None [] [] [] [] [] [] [].

(** [local.get 0; if i32; local.get 0; else; i32.const 1; br 1; end; end] *)
Definition sample_body : bytes := [0x20; 0; 0x04; 0x7f; 0x20; 0; 0x05; 0x41; 1; 0x0c; 1; 0x0b; 0x0b].

Example sample_body_code : parse_expr 0 [] sample_module sample_body =
  Ret (MkCode 1 0 ([0x20; 0; 0; 0; 0] ++ [0x04; 20; 0; 0; 0] ++ [0x20; 0; 0; 0; 0] ++ [0x05; 39; 0; 0; 0] ++
    [0x41; 1; 0; 0; 0] ++ [0x0c; 1; 0; 0; 0; 39; 0; 0; 0; 0; 0; 0; 0] ++ [0x0b; 0x0b])) [].
Proof. vm_compute. reflexivity. Qed.
