(* ===== verification/FizzyParser.v ===== *)
(** * The module parser

    [external/fizzy/lib/fizzy/parser.cpp]: the sections of a WebAssembly binary,
    and the validation of the module they make up. *)

From stdpp Require Import base list option numbers strings pretty.
From S2P Require Import Prelude Memory FizzyLeb128 FizzyUtf8 FizzyTypes FizzyExpr FizzyExprSafety.

(** ** Entries of sections *)

Definition parse_functype : parser FuncType :=
  let* kind := parse_byte in
  if negb (kind =? 0x60)
  then throw (parser_error ("unexpected byte value " +:+ pretty kind +:+ ", expected 0x60 for functype"))
  else
    let* ins := parse_vec parse_valtype in
    let* outs := parse_vec parse_valtype in
    if (1 <? length outs)%nat then throw (validation_error "function has more than one result")
    else ret (MkFuncType ins outs).

Definition parse_global_type : parser GlobalType :=
  let* type := parse_valtype in
  let* mutability := parse_byte in
  if negb (mutability =? 0x00) && negb (mutability =? 0x01)
  then throw (parser_error ("unexpected byte value " +:+ pretty mutability +:+
                            ", expected 0x00 or 0x01 for global mutability"))
  else ret (MkGlobalType type (mutability =? 0x01)).

(** The instruction of a constant expression, and the type of a constant. *)
Definition parse_constant : parser (ConstantExpression * option ValType) :=
  let* opcode := parse_byte in
  match Instr.of_byte opcode with
  | Some Instr.end_ => throw (validation_error "constant expression is empty")
  | Some Instr.global_get => let* i := leb128u_decode 32 in ret (GlobalGet i, None)
  | Some Instr.i32_const => let* v := leb128s_decode 32 in ret (Constant (u32 v), Some Ti32)
  | Some Instr.i64_const => let* v := leb128s_decode 64 in ret (Constant (u64 v), Some Ti64)
  | Some Instr.f32_const => let* v := parse_value 4 in ret (Constant v, Some Tf32)
  | Some Instr.f64_const => let* v := parse_value 8 in ret (Constant v, Some Tf64)
  | _ => throw (validation_error ("unexpected instruction in the constant expression: " +:+ pretty opcode))
  end.

Definition const_mismatch : exn := validation_error "constant expression type mismatch".

Definition parse_constant_expression (expected_type : ValType) : parser ConstantExpression :=
  let* '(result, constant_actual_type) := parse_constant in
  let* end_opcode := parse_byte in
  if negb (end_opcode =? Instr.opcode Instr.end_)
  then throw (validation_error "constant expression has multiple instructions")
  else
    match constant_actual_type with
    | Some t => if bool_decide (t = expected_type) then ret result else throw const_mismatch
    | None => ret result
    end.

Definition parse_global : parser Global :=
  let* type := parse_global_type in
  let* expression := parse_constant_expression (value_type type) in
  ret (MkGlobal type expression).

Definition parse_limits : parser Limits :=
  let* kind := parse_byte in
  match kind with
  | 0x00 => let* min := leb128u_decode 32 in ret (MkLimits min None)
  | 0x01 =>
      let* min := leb128u_decode 32 in
      let* max := leb128u_decode 32 in
      if max <? min then throw (validation_error "malformed limits (minimum is larger than maximum)")
      else ret (MkLimits min (Some max))
  | _ => throw (parser_error ("invalid limits " +:+ pretty kind))
  end.

Definition parse_table : parser Table :=
  let* elemtype := parse_byte in
  if negb (elemtype =? FuncRef) then throw (parser_error ("unexpected table elemtype: " +:+ pretty elemtype))
  else let* limits := parse_limits in ret (MkTable limits).

Definition parse_memory : parser Memory :=
  let* limits := parse_limits in
  if (MaxMemoryPagesLimit <? lim_min limits) ||
     match lim_max limits with Some max => MaxMemoryPagesLimit <? max | None => false end
  then throw (validation_error "maximum memory page limit exceeded")
  else ret (MkMemory limits).

(** The next [size] bytes. *)
Definition parse_bytes (size : Z) : parser bytes := fun input =>
  if zlen input <? size then Throw unexpected_eof input
  else Ret (take (Z.to_nat size) input) (drop (Z.to_nat size) input).

Definition parse_string : parser bytes :=
  let* size := leb128u_decode 32 in
  let* s := parse_bytes size in
  if negb (utf8_validate s) then throw (parser_error "invalid UTF-8") else ret s.

Definition parse_import : parser Import_ :=
  let* module := parse_string in
  let* name := parse_string in
  let* kind := parse_byte in
  let* desc :=
    match kind with
    | 0x00 => let* i := leb128u_decode 32 in ret (ImportFunction i)
    | 0x01 => let* t := parse_table in ret (ImportTable t)
    | 0x02 => let* m := parse_memory in ret (ImportMemory m)
    | 0x03 => let* g := parse_global_type in ret (ImportGlobal g)
    | _ => throw (parser_error ("unexpected import kind value " +:+ pretty kind))
    end in
  ret (MkImport module name desc).

Definition parse_export : parser Export_ :=
  let* name := parse_string in
  let* kind := parse_byte in
  let* k :=
    match kind with
    | 0x00 => ret EFunction
    | 0x01 => ret ETable
    | 0x02 => ret EMemory
    | 0x03 => ret EGlobal
    | _ => throw (parser_error ("unexpected export kind value " +:+ pretty kind))
    end in
  let* index := leb128u_decode 32 in
  ret (MkExport name k index).

Definition parse_element : parser Element :=
  let* table_index := leb128u_decode 32 in
  if negb (table_index =? 0)
  then throw (validation_error ("invalid table index " +:+ pretty table_index +:+ " (only table 0 is allowed)"))
  else
    let* offset := parse_constant_expression Ti32 in
    let* init := parse_vec (leb128u_decode 32) in
    ret (MkElement offset init).

Definition parse_locals : parser Locals :=
  let* count := leb128u_decode 32 in
  let* type := parse_valtype in
  ret (MkLocals count type).

(** [code_view]: the bytes of a function, to be parsed later. *)
Definition parse_code_view : parser bytes := let* code_size := leb128u_decode 32 in parse_bytes code_size.

Definition parse_data : parser Data :=
  let* memory_index := leb128u_decode 32 in
  if negb (memory_index =? 0)
  then throw (validation_error ("invalid memory index " +:+ pretty memory_index +:+ " (only memory 0 is allowed)"))
  else
    let* offset := parse_constant_expression Ti32 in
    let* size := leb128u_decode 32 in
    let* init := parse_bytes size in
    ret (MkData offset init).

Fixpoint count_locals (locals : list Locals) (local_count : Z) : parser Z :=
  match locals with
  | [] => ret local_count
  | l :: locals =>
      let local_count := u64 (local_count + l_count l) in
      if 2 ^ 32 - 1 <? local_count then throw (parser_error "too many local variables")
      else count_locals locals local_count
  end.

(** The locals and the body of a function, on the bytes of the function. *)
Definition parse_code_bytes (func_idx : Z) (module : Module_) : parser Code :=
  let* locals_vec := parse_vec parse_locals in
  let* local_count := count_locals locals_vec 0 in
  let* type_idx := elem (funcsec module) func_idx in
  let* func_type := elem (typesec module) type_idx in
  assert_that (local_count + zlen (inputs func_type) <=? 2 ^ 32 - 1) ;;;
  let* code := parse_expr func_idx locals_vec module in
  fun rest =>
    if negb (length rest =? 0)%nat then Throw (parser_error "malformed size field for function") rest
    else Ret (MkCode (max_stack_height code) local_count (instructions code)) rest.

(** On its own input. *)
Definition parse_code (code_binary : bytes) (func_idx : Z) (module : Module_) : parser Code := fun input =>
  match parse_code_bytes func_idx module code_binary with
  | Ret code _ => Ret code input
  | Throw e _ => Throw e input
  | Fault f => Fault f
  end.

(** ** Sections *)

Definition set_typesec (x : list FuncType) (m : Module_) : Module_ :=
  MkModule x (importsec m) (funcsec m) (tablesec m) (memorysec m) (globalsec m) (exportsec m) (startfunc m) (elementsec m)
    (codesec m) (datasec m) (imported_function_types m) (imported_table_types m) (imported_memory_types m) (imported_global_types m).
Definition set_importsec (x : list Import_) (m : Module_) : Module_ :=
  MkModule (typesec m) x (funcsec m) (tablesec m) (memorysec m) (globalsec m) (exportsec m) (startfunc m) (elementsec m)
    (codesec m) (datasec m) (imported_function_types m) (imported_table_types m) (imported_memory_types m) (imported_global_types m).
Definition set_funcsec (x : list Z) (m : Module_) : Module_ :=
  MkModule (typesec m) (importsec m) x (tablesec m) (memorysec m) (globalsec m) (exportsec m) (startfunc m) (elementsec m)
    (codesec m) (datasec m) (imported_function_types m) (imported_table_types m) (imported_memory_types m) (imported_global_types m).
Definition set_tablesec (x : list Table) (m : Module_) : Module_ :=
  MkModule (typesec m) (importsec m) (funcsec m) x (memorysec m) (globalsec m) (exportsec m) (startfunc m) (elementsec m)
    (codesec m) (datasec m) (imported_function_types m) (imported_table_types m) (imported_memory_types m) (imported_global_types m).
Definition set_memorysec (x : list Memory) (m : Module_) : Module_ :=
  MkModule (typesec m) (importsec m) (funcsec m) (tablesec m) x (globalsec m) (exportsec m) (startfunc m) (elementsec m)
    (codesec m) (datasec m) (imported_function_types m) (imported_table_types m) (imported_memory_types m) (imported_global_types m).
Definition set_globalsec (x : list Global) (m : Module_) : Module_ :=
  MkModule (typesec m) (importsec m) (funcsec m) (tablesec m) (memorysec m) x (exportsec m) (startfunc m) (elementsec m)
    (codesec m) (datasec m) (imported_function_types m) (imported_table_types m) (imported_memory_types m) (imported_global_types m).
Definition set_exportsec (x : list Export_) (m : Module_) : Module_ :=
  MkModule (typesec m) (importsec m) (funcsec m) (tablesec m) (memorysec m) (globalsec m) x (startfunc m) (elementsec m)
    (codesec m) (datasec m) (imported_function_types m) (imported_table_types m) (imported_memory_types m) (imported_global_types m).
Definition set_startfunc (x : option Z) (m : Module_) : Module_ :=
  MkModule (typesec m) (importsec m) (funcsec m) (tablesec m) (memorysec m) (globalsec m) (exportsec m) x (elementsec m)
    (codesec m) (datasec m) (imported_function_types m) (imported_table_types m) (imported_memory_types m) (imported_global_types m).
Definition set_elementsec (x : list Element) (m : Module_) : Module_ :=
  MkModule (typesec m) (importsec m) (funcsec m) (tablesec m) (memorysec m) (globalsec m) (exportsec m) (startfunc m) x
    (codesec m) (datasec m) (imported_function_types m) (imported_table_types m) (imported_memory_types m) (imported_global_types m).
Definition set_codesec (x : list Code) (m : Module_) : Module_ :=
  MkModule (typesec m) (importsec m) (funcsec m) (tablesec m) (memorysec m) (globalsec m) (exportsec m) (startfunc m) (elementsec m)
    x (datasec m) (imported_function_types m) (imported_table_types m) (imported_memory_types m) (imported_global_types m).
Definition set_datasec (x : list Data) (m : Module_) : Module_ :=
  MkModule (typesec m) (importsec m) (funcsec m) (tablesec m) (memorysec m) (globalsec m) (exportsec m) (startfunc m) (elementsec m)
    (codesec m) x (imported_function_types m) (imported_table_types m) (imported_memory_types m) (imported_global_types m).
Definition set_imported (f : list FuncType) (t : list Table) (y : list Memory) (g : list GlobalType) (m : Module_) : Module_ :=
  MkModule (typesec m) (importsec m) (funcsec m) (tablesec m) (memorysec m) (globalsec m) (exportsec m) (startfunc m) (elementsec m)
    (codesec m) (datasec m) f t y g.

(** The contents of section [id], of [size] bytes; the module and the code
    binaries so far. *)
Definition parse_section (id size : Z) (module : Module_) (code_binaries : list bytes) : parser (Module_ * list bytes) :=
  match id with
  | 0 => let* view := parse_bytes size in
         fun input => match parse_string view with
                      | Ret _ _ => Ret (module, code_binaries) input
                      | Throw e _ => Throw e input
                      | Fault f => Fault f
                      end
  | 1 => let* x := parse_vec parse_functype in ret (set_typesec x module, code_binaries)
  | 2 => let* x := parse_vec parse_import in ret (set_importsec x module, code_binaries)
  | 3 => let* x := parse_vec (leb128u_decode 32) in ret (set_funcsec x module, code_binaries)
  | 4 => let* x := parse_vec parse_table in ret (set_tablesec x module, code_binaries)
  | 5 => let* x := parse_vec parse_memory in ret (set_memorysec x module, code_binaries)
  | 6 => let* x := parse_vec parse_global in ret (set_globalsec x module, code_binaries)
  | 7 => let* x := parse_vec parse_export in ret (set_exportsec x module, code_binaries)
  | 8 => let* x := leb128u_decode 32 in ret (set_startfunc (Some x) module, code_binaries)
  | 9 => let* x := parse_vec parse_element in ret (set_elementsec x module, code_binaries)
  | 10 => let* x := parse_vec parse_code_view in ret (module, x)
  | 11 => let* x := parse_vec parse_data in ret (set_datasec x module, code_binaries)
  | _ => throw (parser_error ("unknown section encountered " +:+ pretty id))
  end.

(** The loop over sections. *)
Fixpoint parse_sections (fuel : nat) (last_id : Z) (module : Module_) (code_binaries : list bytes)
  : parser (Module_ * list bytes) := fun input =>
  match input with
  | [] => Ret (module, code_binaries) []
  | id :: _ =>
      match fuel with
      | O => Fault out_of_fuel
      | S fuel =>
          (let* id := parse_byte in
           if negb (id =? 0) && (id <=? last_id) then throw (parser_error "unexpected out-of-order section type")
           else
             let last_id := if id =? 0 then last_id else id in
             let* size := leb128u_decode 32 in
             let* here := gets (fun rest : bytes => zlen rest) in
             if here <? size then throw unexpected_eof
             else
               let* '(module, code_binaries) := parse_section id size module code_binaries in
               let* there := gets (fun rest : bytes => zlen rest) in
               if negb (there =? here - size)
               then throw (parser_error ("incorrect section " +:+ pretty id +:+ " size, difference: " +:+
                                         pretty (here - size - there)))
               else parse_sections fuel last_id module code_binaries) input
      end
  end.

(** ** Validation *)

Section validate.
Context {S : Type}.

Fixpoint for_each {A} (f : A -> M S unit) (l : list A) : M S unit :=
  match l with
  | [] => ret tt
  | a :: l => f a ;;; for_each f l
  end.

Definition require (b : bool) (what : string) : M S unit := if b then ret tt else throw (validation_error what).

Definition validate_constant_expression (module : Module_) (expected_type : ValType) (e : ConstantExpression) : M S unit :=
  match e with
  | Constant _ => ret tt
  | GlobalGet global_idx =>
      if get_global_count module <=? global_idx
      then throw (validation_error "invalid global index in constant expression")
      else
        let* global_type := get_global_type module global_idx in
        if is_mutable global_type
        then throw (validation_error "constant expression can use global.get only for const globals")
        else if negb (bool_decide (value_type global_type = expected_type)) then throw const_mismatch
        else ret tt
  end.

(** Split imports by kind. *)
Fixpoint split_imports (imports : list Import_) (module : Module_) : M S Module_ :=
  match imports with
  | [] => ret module
  | i :: imports =>
      let f := imported_function_types module in
      let t := imported_table_types module in
      let y := imported_memory_types module in
      let g := imported_global_types module in
      match imp_desc i with
      | ImportFunction idx =>
          if zlen (typesec module) <=? idx then throw (validation_error "invalid type index of an imported function")
          else let* type := elem (typesec module) idx in split_imports imports (set_imported (f ++ [type]) t y g module)
      | ImportTable table => split_imports imports (set_imported f (t ++ [table]) y g module)
      | ImportMemory memory => split_imports imports (set_imported f t (y ++ [memory]) g module)
      | ImportGlobal global => split_imports imports (set_imported f t y (g ++ [global]) module)
      end
  end.

Definition empty {A} (l : list A) : bool := (length l =? 0)%nat.

Definition validate_element (module : Module_) (element : Element) : M S unit :=
  validate_constant_expression module Ti32 (el_offset element) ;;;
  for_each (fun func_idx => require (func_idx <? get_function_count module) "invalid function index in element section")
    (el_init element).

Definition validate_global (module : Module_) (global : Global) : M S unit :=
  validate_constant_expression module (value_type (g_type global)) (g_expression global) ;;;
  match g_expression global with
  | GlobalGet i => require (i <? zlen (imported_global_types module))
                     "global can be initialized by another const global only if it's imported"
  | Constant _ => ret tt
  end.

(** A byte string as the text of a message. *)
Definition bytes_text (b : bytes) : string :=
  String.string_of_list_ascii (map (fun c => Ascii.ascii_of_nat (Z.to_nat c)) b).

(** [export_names]: the names seen so far. *)
Fixpoint validate_exports (module : Module_) (exports : list Export_) (export_names : list bytes) : M S unit :=
  match exports with
  | [] => ret tt
  | e :: exports =>
      match exp_kind e with
      | EFunction => require (exp_index e <? get_function_count module) "invalid index of an exported function"
      | ETable => require ((exp_index e =? 0) && has_table module) "invalid index of an exported table"
      | EMemory => require ((exp_index e =? 0) && has_memory module) "invalid index of an exported memory"
      | EGlobal => require (exp_index e <? get_global_count module) "invalid index of an exported global"
      end ;;;
      if existsb (bytes_eqb (exp_name e)) export_names
      then throw (validation_error ("duplicate export name " +:+ bytes_text (exp_name e)))
      else validate_exports module exports (exp_name e :: export_names)
  end.

Definition validate_start (module : Module_) : M S unit :=
  match startfunc module with
  | None => ret tt
  | Some i =>
      if get_function_count module <=? i then throw (validation_error "invalid start function index")
      else
        let* func_type := get_function_type module i in
        require (empty (inputs func_type) && empty (outputs func_type)) "invalid start function type"
  end.

(** The checks between the sections and the code. *)
Definition validate_module (module : Module_) (code_binaries : list bytes) : M S Module_ :=
  let* module := split_imports (importsec module) module in
  for_each (fun type_idx => require (type_idx <? zlen (typesec module)) "invalid function type index") (funcsec module) ;;;
  require (length (tablesec module) <=? 1)%nat "too many table sections (at most one is allowed)" ;;;
  require (length (memorysec module) <=? 1)%nat "too many memory sections (at most one is allowed)" ;;;
  require (length (imported_memory_types module) <=? 1)%nat "too many imported memories (at most one is allowed)" ;;;
  require (empty (memorysec module) || empty (imported_memory_types module))
    "both module memory and imported memory are defined (at most one of them is allowed)" ;;;
  require (empty (datasec module) || has_memory module)
    "invalid memory index 0 (data section encountered without a memory section)" ;;;
  for_each (fun d => validate_constant_expression module Ti32 (d_offset d)) (datasec module) ;;;
  require (length (imported_table_types module) <=? 1)%nat "too many imported tables (at most one is allowed)" ;;;
  require (empty (tablesec module) || empty (imported_table_types module))
    "both module table and imported table are defined (at most one of them is allowed)" ;;;
  require (empty (elementsec module) || has_table module)
    "invalid table index 0 (element section encountered without a table section)" ;;;
  for_each (validate_element module) (elementsec module) ;;;
  for_each (validate_global module) (globalsec module) ;;;
  (if (length (funcsec module) =? length code_binaries)%nat then ret tt
   else throw (parser_error "malformed binary: number of function and code entries must match")) ;;;
  validate_exports module (exportsec module) [] ;;;
  validate_start module ;;;
  ret module.
End validate.

(** [codesec] grows function by function; only its other sections are used to
    parse the next one. *)
Fixpoint parse_codes (code_binaries : list bytes) (i : Z) (module : Module_) : parser (list Code) :=
  match code_binaries with
  | [] => ret []
  | b :: rest => let* code := parse_code b i module in let* codes := parse_codes rest (i + 1) module in ret (code :: codes)
  end.

Definition wasm_prefix : bytes := [0x00; 0x61; 0x73; 0x6d; 0x01; 0x00; 0x00; 0x00].

Definition parse : parser Module_ := fun input =>
  if negb (bytes_eqb (take 8 input) wasm_prefix) then Throw (parser_error "invalid wasm module prefix") input
  else
    let input := drop 8 input in
    (let* '(module, code_binaries) := parse_sections (length input) 0 empty_module [] in
     let* module := validate_module module code_binaries in
     let* codes := parse_codes code_binaries 0 module in
     ret (set_codesec codes module)) input.
