(* ===== verification/FizzyParserSafety.v ===== *)
(** * Parsed modules are well formed

    Whatever the bytes, [parse] ends: it returns a module all of whose indices
    and limits are in range, or refuses with a parser or validation error. The
    one assertion a module can make fail is the one on the number of parameters
    and locals of a function. *)

From stdpp Require Import base list option numbers strings.
From S2P Require Import Prelude Memory FizzyLeb128 FizzyUtf8 FizzyTypes FizzyExpr FizzyExprSafety FizzyParser.

(** ** Parsers that follow a reader: they may read nothing *)

Definition follows {A} (p : parser A) (Q : A -> Prop) : Prop :=
  forall input, bytes_ok input -> accepts p (fun a rest => Q a /\ rest `suffix_of` input) input.

Create HintDb parse.

Section follows.
Context {A : Type}.

Lemma reader_follows (p : parser A) Q : reader p Q -> follows p Q.
Proof. intros Hp input Hok. by apply reader_suffix. Qed.

Lemma follows_bind {B} (p : parser A) (k : A -> parser B) P Q :
  follows p P -> (forall a, P a -> follows (k a) Q) -> follows (bind p k) Q.
Proof.
  intros Hp Hk input Hok. eapply accepts_seq; [by apply Hp|]. intros a rest [Ha Hs].
  eapply accepts_mono; [apply (Hk a Ha rest); by eapply suffix_ok|]. intros b rest' [Hb Hs']. split; [done|by etrans].
Qed.

Lemma reader_then {B} (p : parser A) (k : A -> parser B) P Q :
  reader p P -> (forall a, P a -> follows (k a) Q) -> reader (bind p k) Q.
Proof. intros Hp Hk. eapply reader_bind; [exact Hp|]. intros a Ha input Hok. by apply Hk. Qed.

Lemma follows_ret (a : A) (Q : A -> Prop) : Q a -> follows (ret a) Q.
Proof. intros H input Hok. by apply reader_ret. Qed.

Lemma follows_throw (e : exn) (Q : A -> Prop) : is_refusal e -> follows (throw e) Q.
Proof. by intros H input Hok. Qed.

Lemma reader_weaken (p : parser A) (P Q : A -> Prop) : reader p P -> (forall a, P a -> Q a) -> reader p Q.
Proof. intros Hp H input Hok. eapply accepts_mono; [by apply Hp|]. intros a rest [Ha Hs]. auto. Qed.
End follows.

Lemma follows_bytes n : 0 <= n -> follows (parse_bytes n) (fun b => bytes_ok b /\ zlen b = n).
Proof.
  intros Hn input Hok. unfold accepts, parse_bytes. destruct (zlen input <? n) eqn:E; [done|]. bool_to_prop. split.
  - split; [by apply Forall_take|]. unfold zlen in *. rewrite length_take. lia.
  - exists (take (Z.to_nat n) input). by rewrite take_drop.
Qed.

Ltac parse_step :=
  match goal with
  | |- reader (bind _ _) _ => eapply reader_then; [solve [eauto with parse]|intros; cbv beta in *]
  | |- follows (bind _ _) _ => eapply follows_bind; [solve [eauto using reader_follows with parse]|intros; cbv beta in *]
  | |- follows (ret _) _ => apply follows_ret
  | |- follows (throw _) _ => by apply follows_throw
  | |- follows (if ?b then _ else _) _ => destruct b eqn:?
  | |- follows (match ?x with _ => _ end) _ => destruct x eqn:?
  | |- follows (let _ := _ in _) _ => cbv zeta
  end.

#[export] Hint Resolve reader_byte reader_u reader_s reader_valtype : parse.
#[export] Hint Resolve reader_vec | 2 : parse.

(** ** What the entries of sections satisfy *)

Definition limits_ok (l : Limits) : Prop :=
  0 <= lim_min l < 2 ^ 32 /\ match lim_max l with Some max => lim_min l <= max < 2 ^ 32 | None => True end.
Definition memory_ok (y : Memory) : Prop :=
  limits_ok (mem_limits y) /\ lim_min (mem_limits y) <= MaxMemoryPagesLimit /\
  match lim_max (mem_limits y) with Some max => max <= MaxMemoryPagesLimit | None => True end.
Definition table_ok (t : Table) : Prop := limits_ok (tab_limits t).
Definition functype_ok (t : FuncType) : Prop := (length (outputs t) <= 1)%nat.
Definition expression_ok (e : ConstantExpression) : Prop :=
  match e with GlobalGet i => 0 <= i < 2 ^ 32 | Constant _ => True end.
Definition import_ok (i : Import_) : Prop :=
  match imp_desc i with
  | ImportFunction idx => 0 <= idx < 2 ^ 32
  | ImportTable t => table_ok t
  | ImportMemory y => memory_ok y
  | ImportGlobal _ => True
  end.
Definition index_ok (i : Z) : Prop := 0 <= i < 2 ^ 32.
Definition element_ok (e : Element) : Prop := expression_ok (el_offset e) /\ Forall index_ok (el_init e).
Definition data_ok (d : Data) : Prop := expression_ok (d_offset d) /\ bytes_ok (d_init d).

Lemma reader_functype : reader parse_functype functype_ok.
Proof.
  unfold parse_functype. parse_step. parse_step; [parse_step|]. repeat parse_step. bool_to_prop. unfold functype_ok. cbn.
  by apply Nat.ltb_ge.
Qed.

Lemma reader_global_type : reader parse_global_type (fun _ => True).
Proof. unfold parse_global_type. by repeat parse_step. Qed.

Lemma reader_value4 : reader (parse_value 4) (fun _ => True).
Proof. apply reader_value. lia. Qed.
Lemma reader_value8 : reader (parse_value 8) (fun _ => True).
Proof. apply reader_value. lia. Qed.
#[local] Hint Resolve reader_functype reader_global_type reader_value4 reader_value8 : parse.

Lemma reader_constant : reader parse_constant (fun r => expression_ok r.1).
Proof.
  unfold parse_constant. parse_step. destruct (Instr.of_byte a) as [i|]; [|by apply follows_throw].
  destruct i; try (by apply follows_throw); by repeat parse_step.
Qed.
#[local] Hint Resolve reader_constant : parse.

Lemma reader_constant_expression t : reader (parse_constant_expression t) expression_ok.
Proof. unfold parse_constant_expression. parse_step. destruct a as [e ty]. cbn in *. by repeat parse_step. Qed.
#[local] Hint Resolve reader_constant_expression : parse.

Lemma reader_global : reader parse_global (fun g => expression_ok (g_expression g)).
Proof. unfold parse_global. by repeat parse_step. Qed.

Lemma reader_limits : reader parse_limits limits_ok.
Proof.
  unfold parse_limits. parse_step. repeat parse_step; unfold limits_ok; cbn; bool_to_prop; cbv beta in *; repeat split; lia.
Qed.
#[local] Hint Resolve reader_global reader_limits : parse.

Lemma reader_table : reader parse_table table_ok.
Proof. unfold parse_table. by repeat parse_step. Qed.

Lemma reader_memory : reader parse_memory memory_ok.
Proof.
  unfold parse_memory. parse_step. destruct (_ || _) eqn:E; [by apply follows_throw|]. parse_step. bool_to_prop.
  split; [done|]. cbn. split; [done|]. destruct (lim_max a); [by bool_to_prop|done].
Qed.
#[local] Hint Resolve reader_table reader_memory follows_bytes : parse.

Lemma reader_string : reader parse_string bytes_ok.
Proof.
  unfold parse_string. parse_step. eapply follows_bind; [apply follows_bytes; lia|]. intros s [Hs _]. by repeat parse_step.
Qed.
#[local] Hint Resolve reader_string : parse.

Lemma reader_import : reader parse_import import_ok.
Proof.
  unfold parse_import. parse_step. parse_step. parse_step.
  eapply (follows_bind _ _ (fun d => import_ok (MkImport [] [] d))); [|by intros; parse_step].
  repeat parse_step; done.
Qed.

Lemma reader_export : reader parse_export (fun e => index_ok (exp_index e)).
Proof.
  unfold parse_export. parse_step. parse_step. eapply (follows_bind _ _ (fun _ => True)); [by repeat parse_step|].
  intros k _. by repeat parse_step.
Qed.

Lemma reader_index : reader (leb128u_decode 32) index_ok.
Proof. apply reader_u. Qed.
#[local] Hint Resolve reader_index : parse.

Lemma reader_element : reader parse_element element_ok.
Proof.
  unfold parse_element. parse_step. parse_step; [parse_step|]. parse_step. eapply follows_bind; [apply reader_follows, reader_vec, reader_index|].
  intros l [Hl _]. by parse_step.
Qed.

Lemma reader_locals : reader parse_locals (fun l => 0 <= l_count l < 2 ^ 32).
Proof. unfold parse_locals. by repeat parse_step. Qed.

Lemma reader_code_view : reader parse_code_view bytes_ok.
Proof.
  unfold parse_code_view. parse_step. intros input Hok. eapply accepts_mono; [apply follows_bytes; [unfold index_ok in *; lia|done]|].
  by intros b rest [[Hb _] Hs].
Qed.

Lemma reader_data : reader parse_data data_ok.
Proof.
  unfold parse_data. parse_step. parse_step; [parse_step|]. parse_step. parse_step.
  eapply follows_bind; [apply follows_bytes; unfold index_ok in *; lia|]. intros s [Hs _]. by parse_step.
Qed.

(** ** Sections *)

Record sections_ok (m : Module_) (codes : list bytes) : Prop := {
  so_types : Forall functype_ok (typesec m);
  so_imports : Forall import_ok (importsec m);
  so_funcs : Forall index_ok (funcsec m);
  so_tables : Forall table_ok (tablesec m);
  so_memories : Forall memory_ok (memorysec m);
  so_globals : Forall (fun g => expression_ok (g_expression g)) (globalsec m);
  so_exports : Forall (fun e => index_ok (exp_index e)) (exportsec m);
  so_start : forall i, startfunc m = Some i -> index_ok i;
  so_elements : Forall element_ok (elementsec m);
  so_data : Forall data_ok (datasec m);
  so_codes : Forall bytes_ok codes;
  so_imported : imported_function_types m = [] /\ imported_table_types m = [] /\ imported_memory_types m = [] /\
    imported_global_types m = []
}.

Lemma empty_sections_ok : sections_ok empty_module [].
Proof. by constructor; try constructor. Qed.

Lemma section_vec {A B} (p : parser A) Q (f : list A -> B) (R : B -> Prop) :
  reader p Q -> (forall l, Forall Q l -> R (f l)) -> follows (let* x := parse_vec p in ret (f x)) R.
Proof.
  intros Hp HR. eapply follows_bind; [apply reader_follows, reader_vec, Hp|]. intros l [Hl _]. apply follows_ret. by apply HR.
Qed.

Lemma parse_section_ok id size m codes :
  0 <= size -> sections_ok m codes -> follows (parse_section id size m codes) (fun r => sections_ok r.1 r.2).
Proof.
  intros Hs Hok. unfold parse_section.
  assert (follows (throw (A := Module_ * list bytes) (parser_error ("unknown section encountered " +:+ pretty.pretty id)))
    (fun r => sections_ok r.1 r.2)) as Hbad by (by apply follows_throw).
  destruct Hok. destruct id as [|p|p]; [| |exact Hbad].
  { eapply follows_bind; [by apply follows_bytes|]. intros view [Hv _] input Hin. unfold accepts.
    pose proof (reader_string view Hv) as Hstr. unfold accepts in Hstr. destruct (parse_string view); [|done|done].
    split; [by constructor|by exists []]. }
  do 4 (try (destruct p as [p|p|]; try exact Hbad)); try exact Hbad.
  all: try (eapply section_vec; [|intros; constructor; cbn; done]; eauto with parse; fail).
  all: try (eapply section_vec; [first [apply reader_import|apply reader_export|apply reader_element|apply reader_code_view|apply reader_data]
           |intros; constructor; cbn; done]).
  eapply follows_bind; [apply reader_follows, reader_u|]. intros i Hi. apply follows_ret. constructor; cbn; try done. by intros j [= <-].
Qed.

Lemma parse_sections_ok fuel last m codes input :
  (length input <= fuel)%nat -> bytes_ok input -> sections_ok m codes ->
  accepts (parse_sections fuel last m codes) (fun r rest => sections_ok r.1 r.2 /\ rest = []) input.
Proof.
  revert last m codes input. induction fuel as [|fuel IH]; intros last m codes input Hf Hok Hs.
  { destruct input; [done|cbn in Hf; lia]. }
  unfold accepts. cbn [parse_sections]. destruct input as [|b input]; [done|].
  match goal with |- match ?m _ with _ => _ end => change (accepts m (fun r rest => sections_ok r.1 r.2 /\ rest = []) (b :: input)) end.
  apply Forall_cons_1 in Hok as [Hb Hok]. eapply (accepts_seq _ _ (fun a rest => a = b /\ rest = input)); [done|]. intros _ _ [-> ->].
  destruct (negb _ && _); [done|]. cbv zeta. eapply accepts_seq; [by apply (reader_suffix _ _ _ (reader_u 32))|].
  intros size rest [Hsize Hsuf]. apply accepts_gets. destruct (zlen rest <? size); [done|].
  eapply accepts_seq; [apply (parse_section_ok b size m codes); [lia|done|by eapply suffix_ok]|]. intros [m' codes'] rest' [Hs' Hsuf'].
  apply accepts_gets. destruct (negb _); [done|].
  assert (rest' `suffix_of` input) as Hsuf2 by (by etrans). apply IH; [|by eapply suffix_ok|done].
  apply suffix_length in Hsuf2. cbn in Hf. lia.
Qed.

(** ** Well-formed modules *)

(** A constant, or an immutable global of the type. *)
Definition constant_of (m : Module_) (t : ValType) (e : ConstantExpression) : Prop :=
  match e with
  | Constant _ => True
  | GlobalGet i => exists g, global_type_at m i = Some g /\ is_mutable g = false /\ value_type g = t
  end.

(** The imports of one kind. *)
Definition import_function (m : Module_) (i : Import_) : option FuncType :=
  match imp_desc i with ImportFunction idx => at_idx (typesec m) idx | _ => None end.
Definition import_table (i : Import_) : option Table := match imp_desc i with ImportTable t => Some t | _ => None end.
Definition import_memory (i : Import_) : option Memory := match imp_desc i with ImportMemory y => Some y | _ => None end.
Definition import_global (i : Import_) : option GlobalType := match imp_desc i with ImportGlobal g => Some g | _ => None end.

Definition export_valid (m : Module_) (e : Export_) : Prop :=
  match exp_kind e with
  | EFunction => 0 <= exp_index e < get_function_count m
  | ETable => exp_index e = 0 /\ has_table m = true
  | EMemory => exp_index e = 0 /\ has_memory m = true
  | EGlobal => 0 <= exp_index e < get_global_count m
  end.

Record module_wf (m : Module_) : Prop := {
  wf_types : Forall functype_ok (typesec m);
  wf_functions : types_ok m;
  wf_imports : forall i idx, i ∈ importsec m -> imp_desc i = ImportFunction idx -> 0 <= idx < zlen (typesec m);
  wf_imported : imported_function_types m = omap (import_function m) (importsec m) /\
    imported_table_types m = omap import_table (importsec m) /\
    imported_memory_types m = omap import_memory (importsec m) /\
    imported_global_types m = omap import_global (importsec m);
  wf_tables : (length (tablesec m) + length (imported_table_types m) <= 1)%nat /\
    Forall table_ok (tablesec m ++ imported_table_types m);
  wf_memories : (length (memorysec m) + length (imported_memory_types m) <= 1)%nat /\
    Forall memory_ok (memorysec m ++ imported_memory_types m);
  wf_globals : Forall (fun g => constant_of m (value_type (g_type g)) (g_expression g) /\
    match g_expression g with GlobalGet i => 0 <= i < zlen (imported_global_types m) | Constant _ => True end) (globalsec m);
  wf_elements : Forall (fun e => constant_of m Ti32 (el_offset e) /\
    Forall (fun i => 0 <= i < get_function_count m) (el_init e)) (elementsec m) /\ (elementsec m <> [] -> has_table m = true);
  wf_data : Forall (fun d => constant_of m Ti32 (d_offset d) /\ bytes_ok (d_init d)) (datasec m) /\
    (datasec m <> [] -> has_memory m = true);
  wf_exports : NoDup (map exp_name (exportsec m)) /\ Forall (export_valid m) (exportsec m);
  wf_start : forall i, startfunc m = Some i -> function_type_at m i = Some (MkFuncType [] [])
}.

(** ** Validation establishes it *)

Section validation.
Context {S : Type} (s : S).

(** A check: it passes with [P] and changes nothing, or refuses. *)
Definition checks {A} (m : M S A) (P : A -> Prop) : Prop := accepts m (fun a s' => s' = s /\ P a) s.

Lemma checks_bind {A B} (m : M S A) (k : A -> M S B) P Q :
  checks m P -> (forall a, P a -> checks (k a) Q) -> checks (bind m k) Q.
Proof. intros Hm Hk. eapply accepts_seq; [exact Hm|]. intros a s' [-> Ha]. by apply Hk. Qed.

Lemma checks_ret {A} (a : A) (P : A -> Prop) : P a -> checks (ret a) P.
Proof. done. Qed.

Lemma checks_require b what : checks (require b what) (fun _ => b = true).
Proof. unfold require. by destruct b. Qed.

Lemma checks_for_each {A} (f : A -> M S unit) l (P : A -> Prop) :
  (forall a, a ∈ l -> checks (f a) (fun _ => P a)) -> checks (for_each f l) (fun _ => Forall P l).
Proof.
  induction l as [|a l IH]; intros Hf; cbn [for_each]; [by apply checks_ret|].
  eapply checks_bind; [apply Hf, list_elem_of_here|]. intros [] Ha. eapply accepts_mono; [apply IH; intros; by apply Hf, list_elem_of_further|].
  intros _ s' [-> H]. split; [done|by constructor].
Qed.

Lemma checks_global_type m i :
  0 <= i < get_global_count m -> checks (get_global_type m i) (fun g => global_type_at m i = Some g).
Proof.
  intros Hi. unfold get_global_type, global_type_at, get_global_count in *. apply accepts_assert; [apply Z.ltb_lt; unfold get_global_count; lia|].
  destruct (i <? _) eqn:E; bool_to_prop.
  - destruct (at_idx_lt (imported_global_types m) i) as (g & Hg & _); [lia|]. unfold checks, elem. by rewrite Hg.
  - destruct (at_idx_lt (globalsec m) (i - zlen (imported_global_types m))) as (g & Hg & _); [lia|]. unfold checks, elem. by rewrite Hg.
Qed.

Lemma checks_function_type m i :
  types_ok m -> 0 <= i < get_function_count m -> checks (get_function_type m i) (fun t => function_type_at m i = Some t).
Proof.
  intros Hm Hi. unfold get_function_type, function_type_at, get_function_count in *.
  apply accepts_assert; [apply Z.ltb_lt; unfold get_function_count; lia|]. destruct (i <? _) eqn:E; bool_to_prop.
  - destruct (at_idx_lt (imported_function_types m) i) as (t & Ht & _); [lia|]. unfold checks, elem. by rewrite Ht.
  - apply accepts_elem; [lia|]. intros t Ht Hin. rewrite Ht. cbn. unfold types_ok in Hm. rewrite Forall_forall in Hm. specialize (Hm t Hin).
    apply accepts_assert; [apply Z.ltb_lt; lia|]. destruct (at_idx_lt (typesec m) t Hm) as (ft & Hft & _). unfold elem. by rewrite Hft.
Qed.

Lemma checks_constant m t e :
  expression_ok e -> checks (validate_constant_expression m t e) (fun _ => constant_of m t e).
Proof.
  intros He. destruct e as [v|i]; [by apply checks_ret|]. cbn [validate_constant_expression constant_of]. cbn in He.
  destruct (_ <=? i) eqn:E; [done|]. bool_to_prop. eapply checks_bind; [apply checks_global_type; lia|]. intros g Hg.
  destruct (is_mutable g) eqn:Em; [done|]. destruct (bool_decide _) eqn:Et; [|done]. apply bool_decide_eq_true in Et.
  apply checks_ret. by exists g.
Qed.

Lemma checks_element m e :
  element_ok e -> checks (validate_element m e) (fun _ => constant_of m Ti32 (el_offset e) /\
    Forall (fun i => 0 <= i < get_function_count m) (el_init e)).
Proof.
  intros [He Hi]. eapply checks_bind; [by apply checks_constant|]. intros [] Hc. eapply accepts_mono.
  - apply (checks_for_each _ _ (fun i => 0 <= i < get_function_count m)). intros i Hin. rewrite Forall_forall in Hi. specialize (Hi i Hin).
    eapply accepts_mono; [apply checks_require|]. intros _ s' [-> H]. unfold index_ok in Hi. bool_to_prop. split; [done|lia].
  - by intros _ s' [-> H].
Qed.

Lemma checks_global m g :
  expression_ok (g_expression g) -> checks (validate_global m g) (fun _ => constant_of m (value_type (g_type g)) (g_expression g) /\
    match g_expression g with GlobalGet i => 0 <= i < zlen (imported_global_types m) | Constant _ => True end).
Proof.
  intros He. eapply checks_bind; [by apply checks_constant|]. intros [] Hc. destruct (g_expression g) as [v|i]; [by apply checks_ret|].
  eapply accepts_mono; [apply checks_require|]. intros _ s' [-> H]. bool_to_prop. cbn in He. split; [done|]. split; [done|lia].
Qed.

Lemma checks_exports m es names :
  Forall (fun e => index_ok (exp_index e)) es ->
  checks (validate_exports m es names) (fun _ => Forall (export_valid m) es /\ NoDup (map exp_name es) /\
    Forall (fun n => n ∉ names) (map exp_name es)).
Proof.
  revert names. induction es as [|e es IH]; intros names Hes; cbn [validate_exports]; [apply checks_ret; repeat split; constructor|].
  apply Forall_cons_1 in Hes as [He Hes]. unfold index_ok in He. eapply (checks_bind _ _ (fun _ => export_valid m e)).
  { unfold export_valid. destruct (exp_kind e); (eapply accepts_mono; [apply checks_require|]; intros _ s' [-> H]; bool_to_prop; split; [done|]);
      first [lia|done|split; [lia|done]]. }
  intros [] Hv. destruct (existsb _ _) eqn:E; [done|]. eapply accepts_mono; [by apply IH|]. intros _ s' [-> (H1 & H2 & H3)]. split; [done|].
  assert (exp_name e ∉ names) as Hn.
  { intros Hin. assert (existsb (bytes_eqb (exp_name e)) names = true); [|congruence]. apply existsb_exists.
    exists (exp_name e). split; [by apply list_elem_of_In|by apply bytes_eqb_eq]. }
  rewrite Forall_forall in H3. cbn. split; [by constructor|]. split.
  - constructor; [|done]. intros Hin. apply (H3 _ Hin). apply list_elem_of_here.
  - constructor; [done|]. apply Forall_forall. intros n Hin Hn'. apply (H3 _ Hin). by apply list_elem_of_further.
Qed.

Lemma checks_start m :
  types_ok m -> (forall i, startfunc m = Some i -> index_ok i) ->
  checks (validate_start m) (fun _ => forall i, startfunc m = Some i -> function_type_at m i = Some (MkFuncType [] [])).
Proof.
  intros Hm Hi. unfold validate_start. destruct (startfunc m) as [i|]; [|by apply checks_ret]. specialize (Hi i eq_refl). unfold index_ok in Hi.
  destruct (_ <=? i) eqn:E; [done|]. bool_to_prop. eapply checks_bind; [apply checks_function_type; [done|lia]|]. intros t Ht.
  eapply accepts_mono; [apply checks_require|]. intros _ s' [-> H]. split; [done|]. intros j [= <-]. rewrite Ht. f_equal.
  unfold empty in H. bool_to_prop. destruct t as [[] []]; done.
Qed.
End validation.

Section module.
Context {S : Type} (s : S).

Lemma checks_split ims m :
  Forall import_ok ims ->
  checks s (split_imports ims m) (fun m' =>
    m' = set_imported (imported_function_types m ++ omap (import_function m) ims) (imported_table_types m ++ omap import_table ims)
           (imported_memory_types m ++ omap import_memory ims) (imported_global_types m ++ omap import_global ims) m /\
    forall i idx, i ∈ ims -> imp_desc i = ImportFunction idx -> 0 <= idx < zlen (typesec m)).
Proof.
  revert m. induction ims as [|i ims IH]; intros m His; cbn [split_imports omap list_omap].
  { apply checks_ret. rewrite !app_nil_r. split; [by destruct m|]. intros i idx Hin. by apply not_elem_of_nil in Hin. }
  apply Forall_cons_1 in His as [Hi His]. unfold import_ok in Hi. cbv zeta. unfold import_function, import_table, import_memory, import_global.
  destruct (imp_desc i) as [idx|t|y|g] eqn:Ed.
  - destruct (_ <=? idx) eqn:E; [done|]. bool_to_prop. apply accepts_elem; [lia|]. intros ft Hft _. rewrite Hft.
    eapply accepts_mono; [by apply IH|]. intros m' s' (-> & -> & Hall). split; [done|]. cbn. rewrite <- app_assoc. split; [done|].
    intros i' idx' [->|Hin]%elem_of_cons; [rewrite Ed; intros [= <-]; lia|by apply Hall].
  - eapply accepts_mono; [by apply IH|]. intros m' s' (-> & -> & Hall). split; [done|]. cbn. rewrite <- app_assoc. split; [done|].
    intros i' idx' [->|Hin]%elem_of_cons; [by rewrite Ed|by apply Hall].
  - eapply accepts_mono; [by apply IH|]. intros m' s' (-> & -> & Hall). split; [done|]. cbn. rewrite <- app_assoc. split; [done|].
    intros i' idx' [->|Hin]%elem_of_cons; [by rewrite Ed|by apply Hall].
  - eapply accepts_mono; [by apply IH|]. intros m' s' (-> & -> & Hall). split; [done|]. cbn. rewrite <- app_assoc. split; [done|].
    intros i' idx' [->|Hin]%elem_of_cons; [by rewrite Ed|by apply Hall].
Qed.

Lemma imported_ok {A} (f : Import_ -> option A) (Q : A -> Prop) ims :
  Forall import_ok ims -> (forall i a, import_ok i -> f i = Some a -> Q a) -> Forall Q (omap f ims).
Proof.
  intros His Hf. induction His as [|i ims Hi _ IH]; cbn; [constructor|]. destruct (f i) eqn:E; [|done]. constructor; [by eapply Hf|done].
Qed.

Lemma empty_or {A} (l : list A) b : empty l || b = true -> l <> [] -> b = true.
Proof. by destruct l. Qed.

Lemma one_of {A} (l l' : list A) : (length l <=? 1)%nat = true -> (length l' <=? 1)%nat = true -> empty l || empty l' = true ->
  (length l + length l' <= 1)%nat.
Proof. destruct l as [|? [|]], l' as [|? [|]]; cbn; try done; lia. Qed.

Lemma checks_module m codes :
  sections_ok m codes ->
  checks s (validate_module m codes) (fun m' => module_wf m' /\ length (funcsec m') = length codes).
Proof.
  intros Hok. pose proof (so_imported _ _ Hok) as (Hi1 & Hi2 & Hi3 & Hi4). unfold validate_module.
  eapply checks_bind; [apply checks_split, Hok|]. intros m' [-> Himp]. rewrite Hi1, Hi2, Hi3, Hi4, !app_nil_l.
  set (m' := set_imported _ _ _ _ m). pose proof Hok as [].
  assert (forall (h : M S unit) P Q (k : unit -> M S Module_), checks s h P -> (P tt -> checks s (k tt) Q) -> checks s (bind h k) Q) as Hseq
    by (intros h P Q k Hh Hk; eapply checks_bind; [exact Hh|]; by intros []).
  apply (Hseq _ (fun _ => types_ok m')).
  { apply checks_for_each. intros t Ht. rewrite Forall_forall in so_funcs0. specialize (so_funcs0 t Ht). unfold index_ok in so_funcs0.
    eapply accepts_mono; [apply checks_require|]. intros _ s' [-> H]. bool_to_prop. split; [done|lia]. }
  intros Htypes. eapply Hseq; [apply checks_require|]. intros Ht1. eapply Hseq; [apply checks_require|]. intros Hy1.
  eapply Hseq; [apply checks_require|]. intros Hy2. eapply Hseq; [apply checks_require|]. intros Hy3.
  eapply Hseq; [apply checks_require|]. intros Hd1.
  apply (Hseq _ (fun _ => Forall (fun d => constant_of m' Ti32 (d_offset d)) (datasec m'))).
  { apply checks_for_each. intros d Hd. apply checks_constant. rewrite Forall_forall in so_data0. by apply so_data0. }
  intros Hd2. eapply Hseq; [apply checks_require|]. intros Ht2. eapply Hseq; [apply checks_require|]. intros Ht3.
  eapply Hseq; [apply checks_require|]. intros He1.
  eapply Hseq; [apply checks_for_each; intros e He; apply checks_element; rewrite Forall_forall in so_elements0; by apply so_elements0|].
  intros He2. eapply Hseq; [apply checks_for_each; intros g Hg; apply checks_global; rewrite Forall_forall in so_globals0; by apply so_globals0|].
  intros Hg. apply (Hseq _ (fun _ => length (funcsec m') = length codes)).
  { destruct (_ =? _)%nat eqn:E; [|done]. apply Nat.eqb_eq in E. by apply checks_ret. }
  intros Hlen. eapply Hseq; [by apply checks_exports|]. intros (Hx1 & Hx2 & _). eapply Hseq; [by apply checks_start|]. intros Hst.
  apply checks_ret. split; [|done]. cbv beta in *. constructor; try done.
  - split; [by apply one_of|]. apply Forall_app. split; [done|]. apply imported_ok; [done|]. unfold import_ok, import_table.
    intros i a Hi. destruct (imp_desc i); intros [= <-]. done.
  - split; [by apply one_of|]. apply Forall_app. split; [done|]. apply imported_ok; [done|]. unfold import_ok, import_memory.
    intros i a Hi. destruct (imp_desc i); intros [= <-]. done.
  - split; [done|]. by apply empty_or.
  - split; [|by apply empty_or]. apply Forall_forall. intros d Hd. rewrite Forall_forall in Hd2, so_data0. split; [by apply Hd2|by apply so_data0].
Qed.
End module.

(** ** Code *)

(** The parameters and locals of the function whose bytes are [b] do not fit
    in 32 bits: the one assertion of the parser that depends on its input. *)
Definition locals_overflow (m : Module_) (i : Z) (b : bytes) : Prop :=
  exists ls rest t, parse_vec parse_locals b = Ret ls rest /\ function_type_at m (zlen (imported_function_types m) + i) = Some t /\
    2 ^ 32 - 1 < foldr (fun l n => l_count l + n) 0 ls + zlen (inputs t).

Lemma count_locals_ok ls n rest :
  Forall (fun l => 0 <= l_count l < 2 ^ 32) ls -> 0 <= n < 2 ^ 32 ->
  accepts (count_locals ls n) (fun c s' => s' = rest /\ c = n + foldr (fun l n => l_count l + n) 0 ls) rest.
Proof.
  intros Hls. revert n. induction Hls as [|l ls Hl _ IH]; intros n Hn; cbn [count_locals foldr]; [split; [done|lia]|].
  rewrite u64_small by (unfold u64_ok; lia). cbv zeta. destruct (_ <? _) eqn:E; [done|]. bool_to_prop.
  eapply accepts_mono; [apply IH; lia|]. intros c s' [-> ->]. split; [done|lia].
Qed.

Lemma parse_code_ok m i b input :
  types_ok m -> 0 <= i < zlen (funcsec m) -> bytes_ok b ->
  match parse_code b i m input with
  | Ret c rest => rest = input
  | Throw e _ => is_refusal e
  | Fault f => f = assertion_failed /\ locals_overflow m i b
  end.
Proof.
  intros Hm Hi Hok. unfold parse_code.
  enough (match parse_code_bytes i m b with Ret _ _ => True | Throw e _ => is_refusal e
    | Fault f => f = assertion_failed /\ locals_overflow m i b end) as H by (by destruct (parse_code_bytes i m b)).
  unfold parse_code_bytes. unfold bind at 1. pose proof (reader_vec _ _ reader_locals b Hok) as Hv. unfold accepts in Hv.
  destruct (parse_vec parse_locals b) as [ls rest|e rest|] eqn:Els; [|done|done]. destruct Hv as ([Hls _] & l & _ & ->).
  apply Forall_app in Hok as [_ Hok]. unfold bind at 1. pose proof (count_locals_ok ls 0 rest Hls ltac:(lia)) as Hc. unfold accepts in Hc.
  destruct (count_locals ls 0 rest) as [c s'|e s'|]; [|done|done]. destruct Hc as [-> ->].
  destruct (at_idx_lt (funcsec m) i Hi) as (t & Ht & Hin). pose proof Hm as Hm'. unfold types_ok in Hm'. rewrite Forall_forall in Hm'.
  specialize (Hm' t Hin). destruct (at_idx_lt (typesec m) t Hm') as (ft & Hft & _).
  unfold bind at 1, elem at 1. rewrite Ht. cbn [ret]. unfold bind at 1, elem at 1. rewrite Hft. cbn [ret].
  unfold bind at 1, assert_that. destruct (_ <=? 2 ^ 32 - 1) eqn:E; cbn [ret fail].
  - unfold bind. pose proof (parse_expr_safe i ls m rest Hm Hi Hok) as Hx. destruct (parse_expr i ls m rest) as [code r|e r|]; [|done|done].
    by destruct (negb _).
  - bool_to_prop. split; [done|]. exists ls, rest, ft. split; [done|]. split; [|lia]. unfold function_type_at.
    pose proof (zlen_nonneg (imported_function_types m)). rewrite (proj2 (Z.ltb_ge _ _)) by lia.
    replace (zlen (imported_function_types m) + i - zlen (imported_function_types m)) with i by lia. by rewrite Ht.
Qed.

Lemma parse_codes_ok m codes i input :
  types_ok m -> Forall bytes_ok codes -> 0 <= i -> i + zlen codes <= zlen (funcsec m) ->
  match parse_codes codes i m input with
  | Ret cs rest => rest = input /\ length cs = length codes
  | Throw e _ => is_refusal e
  | Fault f => f = assertion_failed /\ exists j b, codes !! j = Some b /\ locals_overflow m (i + Z.of_nat j) b
  end.
Proof.
  intros Hm Hcodes. revert i. induction Hcodes as [|b codes Hb _ IH]; intros i Hi Hle; cbn [parse_codes]; [done|].
  rewrite zlen_cons in Hle. pose proof (zlen_nonneg codes). pose proof (parse_code_ok m i b input Hm ltac:(lia) Hb) as Hc. unfold bind at 1.
  destruct (parse_code b i m input) as [c rest|e rest|f]; [|done|destruct Hc as [-> Ho]; split; [done|]; exists 0%nat, b; split; [done|]; by rewrite Z.add_0_r].
  subst rest. specialize (IH (i + 1) ltac:(lia) ltac:(lia)). unfold bind. destruct (parse_codes codes (i + 1) m input) as [cs rest|e rest|f]; [|done|].
  - destruct IH as [-> Hl]. cbn. by rewrite Hl.
  - destruct IH as [-> (j & b' & Hj & Ho)]. split; [done|]. exists (S j), b'. split; [done|]. by replace (i + Z.of_nat (S j)) with (i + 1 + Z.of_nat j) by lia.
Qed.

Lemma wf_set_codesec cs m : module_wf m -> module_wf (set_codesec cs m).
Proof. by intros []; constructor. Qed.

(** The input holds the sections of [m], whose functions have the bodies
    [codes]: what [parse] has read and validated before it parses the bodies. *)
Definition sections_of (input : bytes) (m : Module_) (codes : list bytes) : Prop :=
  take 8 input = wasm_prefix /\
  exists m0 rest, parse_sections (length (drop 8 input)) 0 empty_module [] (drop 8 input) = Ret (m0, codes) rest /\
    validate_module m0 codes rest = Ret m rest.

Lemma parse_well_formed_lemma (input : bytes) :
  bytes_ok input ->
  match parse input with
  | Ret m _ => module_wf m /\ length (codesec m) = length (funcsec m)
  | Throw e _ => is_refusal e
  | Fault f => f = assertion_failed /\ exists m codes i b, sections_of input m codes /\ codes !! i = Some b /\ locals_overflow m (Z.of_nat i) b
  end.
Proof.
  intros Hok. unfold parse. destruct (bytes_eqb (take 8 input) wasm_prefix) eqn:Hpre; [|done]. apply bytes_eqb_eq in Hpre. cbn [negb]. cbv zeta. set (inp := drop 8 input).
  assert (bytes_ok inp) as Hok' by (by apply Forall_drop). unfold bind at 1.
  pose proof (parse_sections_ok (length inp) 0 empty_module [] inp (le_n _) Hok' empty_sections_ok) as Hs. unfold accepts in Hs.
  destruct (parse_sections _ _ _ _ inp) as [[m codes] rest|e rest|] eqn:Eps; [|done|done]. destruct Hs as [Hs ->]. cbn in Hs.
  unfold bind at 1. pose proof (checks_module ([] : bytes) m codes Hs) as Hv. unfold checks, accepts in Hv.
  destruct (validate_module m codes []) as [m' rest|e rest|] eqn:Evm; [|done|done]. destruct Hv as (-> & Hwf & Hlen).
  pose proof (parse_codes_ok m' codes 0 [] (wf_functions _ Hwf) (so_codes _ _ Hs) ltac:(lia) ltac:(unfold zlen; lia)) as Hc.
  unfold bind. destruct (parse_codes codes 0 m' []) as [cs rest|e rest|f]; [|done|].
  - destruct Hc as [-> Hl]. cbn [ret]. split; [by apply wf_set_codesec|]. cbn. congruence.
  - destruct Hc as [-> (j & b & Hj & Ho)]. split; [done|]. exists m', codes, j, b. split; [|done]. split; [exact Hpre|]. by exists m, [].
Qed.

(** C26. Whatever bytes are given to it, [parse] ends. A module it returns is well
    formed: every index in it (types, functions, globals, tables, memories,
    exports, start, elements, initialisers) refers to something of the right
    kind and type, export names are distinct, there is at most one table and one
    memory, limits are ordered and memory limits at most 65536 pages, and there
    is code for every function. Otherwise the bytes are refused with a parser or
    validation error; the only assertion that can fail is the one on the number
    of parameters and locals, and then the input has a function whose body
    declares so many locals that there are more than 2^32 - 1 of them. *)
Theorem parse_well_formed (input : bytes) :
  bytes_ok input ->
  match parse input with
  | Ret m _ => module_wf m /\ length (codesec m) = length (funcsec m)
  | Throw e _ => is_refusal e
  | Fault f => f = assertion_failed /\ exists m codes i b, sections_of input m codes /\ codes !! i = Some b /\ locals_overflow m (Z.of_nat i) b
  end.
Proof. exact (parse_well_formed_lemma input). Qed.

(** A module with a function type, a function, a memory, an export and a body
    ([local.get 0; i32.const 1; i32.add]). *)
Definition sample_binary : bytes :=
  wasm_prefix ++ [1; 6; 1; 0x60; 1; 0x7f; 1; 0x7f] ++ [3; 2; 1; 0] ++ [5; 4; 1; 1; 1; 2] ++
  [7; 5; 1; 1; 0x66; 0; 0] ++ [0x0a; 9; 1; 7; 0; 0x20; 0; 0x41; 1; 0x6a; 0x0b].

Lemma parse_well_formed_witness :
  bytes_ok sample_binary /\
  match parse sample_binary with
  | Ret m _ => module_wf m /\ length (codesec m) = length (funcsec m)
  | Throw e _ => is_refusal e
  | Fault f => f = assertion_failed /\ exists m codes i b, sections_of sample_binary m codes /\ codes !! i = Some b /\ locals_overflow m (Z.of_nat i) b
  end.
Proof.
  assert (bytes_ok sample_binary) as Hok by (apply bytes_check; reflexivity). split; [exact Hok|].
  exact (parse_well_formed sample_binary Hok).
Defined.

Example sample_binary_parses : exists m, parse sample_binary = Ret m [] /\ length (codesec m) = 1%nat.
Proof. eexists. split; vm_compute; reflexivity. Qed.

(** The assertion of [parse_code] on the number of parameters and locals can
    be made to fail by 31 bytes: a function of one parameter that declares
    [2^32 - 1] locals. *)
Definition overflowing_binary : bytes :=
  wasm_prefix ++ [1; 5; 1; 0x60; 1; 0x7f; 0] ++ [3; 2; 1; 0] ++ [0x0a; 10; 1; 8; 1; 0xff; 0xff; 0xff; 0xff; 0x0f; 0x7f; 0x0b].

Example too_many_locals_assert : parse overflowing_binary = Fault assertion_failed.
Proof. vm_compute. reflexivity. Qed.
