(* ===== verification/FizzyNumeric.v ===== *)
(** * Numeric instructions

    [external/fizzy/lib/fizzy]: the union of value.hpp, and the arithmetic of
    execute.cpp with trunc_boundaries.hpp and cxx20/bit.hpp. A [Value] is the
    pattern of its 64 bits; writing a 32-bit member leaves zeros above it.

    Floating-point numbers are patterns too: operators of C++ decode them, work
    on [spec_float] (IEEE 754, rounding to nearest) and encode the result. C++
    does not say which pattern a NaN result has, so it is a parameter. *)

From stdpp Require Import base list option numbers.
From Stdlib Require Import Floats.SpecFloat.
From S2P Require Import Prelude FizzyLeb128 FizzyTypes.

(** ** Formats *)

Record format := Format { f_bits : Z; f_prec : Z; f_emax : Z }.
Definition binary32 : format := Format 32 24 128.
Definition binary64 : format := Format 64 53 1024.

Section format.
Context (f : format).

Definition f_emin : Z := emin (f_prec f) (f_emax f).
Definition sign_bit (s : bool) : Z := if s then 2 ^ (f_bits f - 1) else 0.

(** The number a pattern stands for. *)
Definition decode (x : Z) : spec_float :=
  let s := Z.testbit x (f_bits f - 1) in
  let m := x `mod` 2 ^ (f_prec f - 1) in
  let e := (x / 2 ^ (f_prec f - 1)) `mod` 2 ^ (f_bits f - f_prec f) in
  if e =? 2 ^ (f_bits f - f_prec f) - 1 then if m =? 0 then S754_infinity s else S754_nan
  else if e =? 0 then if m =? 0 then S754_zero s else S754_finite s (Z.to_pos m) f_emin
  else S754_finite s (Z.to_pos (m + 2 ^ (f_prec f - 1))) (e - 1 + f_emin).

(** [std::numeric_limits< T >::quiet_NaN()]: the positive canonical NaN. *)
Definition quiet_NaN : Z := (2 ^ (f_bits f - f_prec f) - 1) * 2 ^ (f_prec f - 1) + 2 ^ (f_prec f - 2).

Definition encode (x : spec_float) : Z :=
  match x with
  | S754_zero s => sign_bit s
  | S754_infinity s => sign_bit s + (2 ^ (f_bits f - f_prec f) - 1) * 2 ^ (f_prec f - 1)
  | S754_nan => quiet_NaN
  | S754_finite s m e =>
      if Zpos m <? 2 ^ (f_prec f - 1) then sign_bit s + Zpos m
      else sign_bit s + (e - f_emin + 1) * 2 ^ (f_prec f - 1) + (Zpos m - 2 ^ (f_prec f - 1))
  end.

Definition is_nan_float (x : spec_float) : bool := match x with S754_nan => true | _ => false end.
Definition isnan (x : Z) : bool := is_nan_float (decode x).
End format.

(** The pattern of a NaN that an operator gives for its operands. *)
Class NanPattern := {
  nan_pattern : format -> list Z -> Z;
  nan_pattern_range f l : f = binary32 \/ f = binary64 -> 0 <= nan_pattern f l < 2 ^ f_bits f;
  nan_pattern_nan f l : f = binary32 \/ f = binary64 -> isnan f (nan_pattern f l) = true
}.

(** One that answers the canonical NaN whatever the operands are. *)
#[export, refine] Instance canonical_nan : NanPattern := {| nan_pattern f _ := quiet_NaN f |}.
Proof. - intros f _ [-> | ->]; by vm_compute. - intros f _ [-> | ->]; by vm_compute. Defined.
#[export] Remove Hints canonical_nan : typeclass_instances.

(** ** The C++ operators and the functions of <cmath> on numbers *)

Section spec.
Context (f : format).

(** An integer times a power of two, rounded to the format. *)
Definition round_at (s : bool) (m e : Z) : spec_float :=
  match m with Zpos p => binary_round (f_prec f) (f_emax f) s p e | _ => S754_zero s end.

(** [std::trunc], [std::floor] and [std::ceil]: [up] says whether a magnitude
    with a fraction is rounded up. *)
Definition sf_integral (up : bool -> bool) (x : spec_float) : spec_float :=
  match x with
  | S754_finite s m e =>
      if 0 <=? e then x
      else
        let q := Zpos m / 2 ^ (- e) in
        let r := Zpos m `mod` 2 ^ (- e) in
        round_at s (if up s && negb (r =? 0) then q + 1 else q) 0
  | _ => x
  end.
Definition sf_trunc : spec_float -> spec_float := sf_integral (fun _ => false).
Definition sf_floor : spec_float -> spec_float := sf_integral (fun s => s).
Definition sf_ceil : spec_float -> spec_float := sf_integral negb.

(** [std::fmod] *)
Definition sf_fmod (x y : spec_float) : spec_float :=
  match x, y with
  | S754_nan, _ | _, S754_nan | S754_infinity _, _ | _, S754_zero _ => S754_nan
  | _, S754_infinity _ | S754_zero _, _ => x
  | S754_finite s m e, S754_finite _ n g =>
      let k := Z.min e g in
      round_at s ((Zpos m * 2 ^ (e - k)) `mod` (Zpos n * 2 ^ (g - k))) k
  end.

(** [static_cast< T >] of a number to an integer type drops the fraction. *)
Definition sf_to_Z (x : spec_float) : Z :=
  match x with
  | S754_finite s m e =>
      let a := if 0 <=? e then Zpos m * 2 ^ e else Zpos m / 2 ^ (- e) in
      if s then - a else a
  | _ => 0
  end.

Definition sf_of_Z (z : Z) : spec_float := binary_normalize (f_prec f) (f_emax f) z 0 false.

(** [static_cast] between the floating-point types. *)
Definition sf_convert (x : spec_float) : spec_float :=
  match x with S754_finite s m e => binary_round (f_prec f) (f_emax f) s m e | _ => x end.
End spec.

(** ** execute.cpp: integers of [bits] bits *)

Module Num.
Section integers.
Context (bits : Z).

Definition add (a b : Z) : Z := wrap bits (a + b).
Definition sub (a b : Z) : Z := wrap bits (a - b).
Definition mul (a b : Z) : Z := wrap bits (a * b).

(** [/] and [%] of C++ round towards zero; both operands have the type [T]. *)
Definition div (a b : Z) : Z := wrap bits (Z.quot a b).
Definition rem (a b : Z) : Z := wrap bits (Z.rem a b).

(** The shift count is taken modulo the width. *)
Definition shift_left (lhs rhs : Z) : Z := wrap bits (Z.shiftl lhs (Z.land rhs (bits - 1))).
Definition shift_right (lhs rhs : Z) : Z := wrap bits (Z.shiftr lhs (Z.land rhs (bits - 1))).

Definition rotl (lhs rhs : Z) : Z :=
  let k := Z.land rhs (bits - 1) in
  if k =? 0 then lhs else Z.lor (wrap bits (Z.shiftl lhs k)) (Z.shiftr lhs (bits - k)).
Definition rotr (lhs rhs : Z) : Z :=
  let k := Z.land rhs (bits - 1) in
  if k =? 0 then lhs else Z.lor (Z.shiftr lhs k) (wrap bits (Z.shiftl lhs (bits - k))).

(** [countl_zero], [countr_zero], [popcount] *)
Definition clz (value : Z) : Z := if value =? 0 then bits else bits - 1 - Z.log2 value.
Definition ctz (value : Z) : Z := if value =? 0 then bits else Z.log2 (Z.land value (- value)).
Fixpoint count_ones (p : positive) : Z :=
  match p with xH => 1 | xO p => count_ones p | xI p => 1 + count_ones p end.
Definition popcnt (value : Z) : Z := match value with Zpos p => count_ones p | _ => 0 end.

(** The signed reading of a pattern. *)
Definition as_signed (v : Z) : Z := signed bits (wrap bits v).

(** [INT_MIN], at which negation overflows. *)
Definition int_min : Z := - 2 ^ (bits - 1).

(** The cases of [div_s], [div_u], [rem_s] and [rem_u]; [None] is a trap. *)
Definition div_s (lhs rhs : Z) : option Z :=
  let lhs := as_signed lhs in
  let rhs := as_signed rhs in
  if (rhs =? 0) || ((lhs =? int_min) && (rhs =? -1)) then None else Some (div lhs rhs).
Definition div_u (lhs rhs : Z) : option Z := if rhs =? 0 then None else Some (div lhs rhs).
Definition rem_s (lhs rhs : Z) : option Z :=
  let lhs := as_signed lhs in
  let rhs := as_signed rhs in
  if rhs =? 0 then None
  else if (lhs =? int_min) && (rhs =? -1) then Some 0 else Some (rem lhs rhs).
Definition rem_u (lhs rhs : Z) : option Z := if rhs =? 0 then None else Some (rem lhs rhs).
End integers.

(** ** execute.cpp: floating-point numbers *)

Section floats.
Context `{NanPattern} (f : format).

(** The result of an operator of C++ on patterns. *)
Definition result (args : list Z) (r : spec_float) : Z :=
  if is_nan_float r then nan_pattern f args else encode f r.
Definition op1 (o : spec_float -> spec_float) (a : Z) : Z := result [a] (o (decode f a)).
Definition op2 (o : spec_float -> spec_float -> spec_float) (a b : Z) : Z :=
  result [a; b] (o (decode f a) (decode f b)).
Definition fadd : Z -> Z -> Z := op2 (SFadd (f_prec f) (f_emax f)).
Definition fsub : Z -> Z -> Z := op2 (SFsub (f_prec f) (f_emax f)).
Definition fmul : Z -> Z -> Z := op2 (SFmul (f_prec f) (f_emax f)).
Definition fdiv : Z -> Z -> Z := op2 (SFdiv (f_prec f) (f_emax f)).
Definition fsqrt : Z -> Z := op1 (SFsqrt (f_prec f) (f_emax f)).

(** [==], [<] and [<=] *)
Definition feq (a b : Z) : bool := SFeqb (decode f a) (decode f b).
Definition flt (a b : Z) : bool := SFltb (decode f a) (decode f b).
Definition fle (a b : Z) : bool := SFleb (decode f a) (decode f b).

(** The masks of the sign and of the rest. *)
Definition AbsMask : Z := 2 ^ (f_bits f - 1) - 1.
Definition SignMask : Z := 2 ^ (f_bits f - 1).

Definition signbit (value : Z) : bool := negb (Z.land value SignMask =? 0).
Definition fabs (value : Z) : Z := Z.land value AbsMask.
Definition fneg (value : Z) : Z := Z.lxor value SignMask.
Definition copysign (a b : Z) : Z := Z.lor (Z.land a AbsMask) (Z.land b SignMask).

Definition fceil (value : Z) : Z := if isnan f value then quiet_NaN f else op1 (sf_ceil f) value.
Definition ffloor (value : Z) : Z :=
  if isnan f value then quiet_NaN f else copysign (op1 (sf_floor f) value) value.
Definition ftrunc (value : Z) : Z := if isnan f value then quiet_NaN f else op1 (sf_trunc f) value.

(** The literals [T{z}] and [T{0.5}]. *)
Definition lit (z : Z) : Z := encode f (sf_of_Z f z).
Definition half : Z := encode f (round_at f false 1 (-1)).

Definition fnearest (value : Z) : Z :=
  if isnan f value then quiet_NaN f
  else
    let is_even i := feq (op2 (sf_fmod f) i (lit 2)) (lit 0) in
    let t := op1 (sf_trunc f) value in
    let diff := fabs (fsub value t) in
    if flt half diff || (feq diff half && negb (is_even t)) then fadd t (copysign (lit 1) value) else t.

Definition fmin (a b : Z) : Z :=
  if isnan f a || isnan f b then quiet_NaN f
  else if feq a (lit 0) && feq b (lit 0) && (signbit a || signbit b) then fneg (lit 0)
  else if flt b a then b else a.
Definition fmax (a b : Z) : Z :=
  if isnan f a || isnan f b then quiet_NaN f
  else if feq a (lit 0) && feq b (lit 0) && (negb (signbit a) || negb (signbit b)) then lit 0
  else if flt a b then b else a.

(** [trunc< SrcT, DstT >] with the exclusive boundaries of the two types; [None]
    is a trap. [dst] is the width of the integer type. *)
Definition trunc_to (lower upper dst : Z) (input : Z) : option Z :=
  if flt (lit lower) input && flt input (lit upper) then Some (wrap dst (sf_to_Z (decode f input))) else None.

(** [convert< SrcT, DstT >] *)
Definition convert (z : Z) : Z := lit z.
End floats.

(** [demote] and [double{...}] *)
Definition demote `{NanPattern} (value : Z) : Z := result binary32 [value] (sf_convert binary32 (decode binary64 value)).
Definition promote `{NanPattern} (value : Z) : Z := result binary64 [value] (sf_convert binary64 (decode binary32 value)).
End Num.

(** ** The numeric cases of the interpreter

    An instruction takes one or two operands from the stack and puts a result
    in their place, or traps ([None]). [Value::as< T >] is a reading of the
    pattern, the constructor of [Value] the pattern of the result. *)

Inductive numop :=
| NumUnary (op : Z -> option Z)
| NumBinary (op : Z -> Z -> option Z).

Definition of_bool (b : bool) : Z := if b then 1 else 0.

(** [unary_op], [binary_op] and [comparison_op] on an unsigned type of [w] bits,
    or a floating-point one of that width. *)
Definition unary_op (w : Z) (op : Z -> Z) : numop := NumUnary (fun v => Some (op (wrap w v))).
Definition binary_op (w : Z) (op : Z -> Z -> Z) : numop := NumBinary (fun v1 v2 => Some (op (wrap w v1) (wrap w v2))).
Definition comparison_op (w : Z) (op : Z -> Z -> bool) : numop :=
  binary_op w (fun a b => of_bool (op a b)).
Definition signed_comparison (w : Z) (op : Z -> Z -> bool) : numop :=
  binary_op w (fun a b => of_bool (op (signed w a) (signed w b))).
Definition partial_op (w : Z) (op : Z -> Z -> option Z) : numop := NumBinary (fun v1 v2 => op (wrap w v1) (wrap w v2)).
Definition trunc_op (w : Z) (op : Z -> option Z) : numop := NumUnary (fun v => op (wrap w v)).

Section numeric.
Context `{NanPattern}.

Definition compare_i32 (i : Instr.t) : option numop :=
  match i with
  | Instr.i32_eqz => Some (unary_op 32 (fun a => of_bool (a =? 0)))
  | Instr.i32_eq => Some (comparison_op 32 Z.eqb)
  | Instr.i32_ne => Some (comparison_op 32 (fun a b => negb (a =? b)))
  | Instr.i32_lt_s => Some (signed_comparison 32 Z.ltb)
  | Instr.i32_lt_u => Some (comparison_op 32 Z.ltb)
  | Instr.i32_gt_s => Some (signed_comparison 32 Z.gtb)
  | Instr.i32_gt_u => Some (comparison_op 32 Z.gtb)
  | Instr.i32_le_s => Some (signed_comparison 32 Z.leb)
  | Instr.i32_le_u => Some (comparison_op 32 Z.leb)
  | Instr.i32_ge_s => Some (signed_comparison 32 Z.geb)
  | Instr.i32_ge_u => Some (comparison_op 32 Z.geb)
  | _ => None
  end.

Definition numeric_i32 (i : Instr.t) : option numop :=
  match i with
  | Instr.i32_clz => Some (unary_op 32 (Num.clz 32))
  | Instr.i32_ctz => Some (unary_op 32 (Num.ctz 32))
  | Instr.i32_popcnt => Some (unary_op 32 Num.popcnt)
  | Instr.i32_add => Some (binary_op 32 (Num.add 32))
  | Instr.i32_sub => Some (binary_op 32 (Num.sub 32))
  | Instr.i32_mul => Some (binary_op 32 (Num.mul 32))
  | Instr.i32_div_s => Some (partial_op 32 (Num.div_s 32))
  | Instr.i32_div_u => Some (partial_op 32 (Num.div_u 32))
  | Instr.i32_rem_s => Some (partial_op 32 (Num.rem_s 32))
  | Instr.i32_rem_u => Some (partial_op 32 (Num.rem_u 32))
  | Instr.i32_and => Some (binary_op 32 Z.land)
  | Instr.i32_or => Some (binary_op 32 Z.lor)
  | Instr.i32_xor => Some (binary_op 32 Z.lxor)
  | Instr.i32_shl => Some (binary_op 32 (Num.shift_left 32))
  | Instr.i32_shr_s => Some (binary_op 32 (fun a b => Num.shift_right 32 (signed 32 a) b))
  | Instr.i32_shr_u => Some (binary_op 32 (Num.shift_right 32))
  | Instr.i32_rotl => Some (binary_op 32 (Num.rotl 32))
  | Instr.i32_rotr => Some (binary_op 32 (Num.rotr 32))
  | _ => None
  end.

Definition compare_i64 (i : Instr.t) : option numop :=
  match i with
  | Instr.i64_eqz => Some (unary_op 64 (fun a => of_bool (a =? 0)))
  | Instr.i64_eq => Some (comparison_op 64 Z.eqb)
  | Instr.i64_ne => Some (comparison_op 64 (fun a b => negb (a =? b)))
  | Instr.i64_lt_s => Some (signed_comparison 64 Z.ltb)
  | Instr.i64_lt_u => Some (comparison_op 64 Z.ltb)
  | Instr.i64_gt_s => Some (signed_comparison 64 Z.gtb)
  | Instr.i64_gt_u => Some (comparison_op 64 Z.gtb)
  | Instr.i64_le_s => Some (signed_comparison 64 Z.leb)
  | Instr.i64_le_u => Some (comparison_op 64 Z.leb)
  | Instr.i64_ge_s => Some (signed_comparison 64 Z.geb)
  | Instr.i64_ge_u => Some (comparison_op 64 Z.geb)
  | _ => None
  end.

Definition numeric_i64 (i : Instr.t) : option numop :=
  match i with
  | Instr.i64_clz => Some (unary_op 64 (Num.clz 64))
  | Instr.i64_ctz => Some (unary_op 64 (Num.ctz 64))
  | Instr.i64_popcnt => Some (unary_op 64 Num.popcnt)
  | Instr.i64_add => Some (binary_op 64 (Num.add 64))
  | Instr.i64_sub => Some (binary_op 64 (Num.sub 64))
  | Instr.i64_mul => Some (binary_op 64 (Num.mul 64))
  | Instr.i64_div_s => Some (partial_op 64 (Num.div_s 64))
  | Instr.i64_div_u => Some (partial_op 64 (Num.div_u 64))
  | Instr.i64_rem_s => Some (partial_op 64 (Num.rem_s 64))
  | Instr.i64_rem_u => Some (partial_op 64 (Num.rem_u 64))
  | Instr.i64_and => Some (binary_op 64 Z.land)
  | Instr.i64_or => Some (binary_op 64 Z.lor)
  | Instr.i64_xor => Some (binary_op 64 Z.lxor)
  | Instr.i64_shl => Some (binary_op 64 (Num.shift_left 64))
  | Instr.i64_shr_s => Some (binary_op 64 (fun a b => Num.shift_right 64 (signed 64 a) b))
  | Instr.i64_shr_u => Some (binary_op 64 (Num.shift_right 64))
  | Instr.i64_rotl => Some (binary_op 64 (Num.rotl 64))
  | Instr.i64_rotr => Some (binary_op 64 (Num.rotr 64))
  | _ => None
  end.

Definition compare_f32 (i : Instr.t) : option numop :=
  let f := binary32 in
  match i with
  | Instr.f32_eq => Some (comparison_op 32 (Num.feq f))
  | Instr.f32_ne => Some (comparison_op 32 (fun a b => negb (Num.feq f a b)))
  | Instr.f32_lt => Some (comparison_op 32 (Num.flt f))
  | Instr.f32_gt => Some (comparison_op 32 (fun a b => Num.flt f b a))
  | Instr.f32_le => Some (comparison_op 32 (Num.fle f))
  | Instr.f32_ge => Some (comparison_op 32 (fun a b => Num.fle f b a))
  | _ => None
  end.

Definition numeric_f32 (i : Instr.t) : option numop :=
  let f := binary32 in
  match i with
  | Instr.f32_abs => Some (unary_op 32 (Num.fabs f))
  | Instr.f32_neg => Some (unary_op 32 (Num.fneg f))
  | Instr.f32_ceil => Some (unary_op 32 (Num.fceil f))
  | Instr.f32_floor => Some (unary_op 32 (Num.ffloor f))
  | Instr.f32_trunc => Some (unary_op 32 (Num.ftrunc f))
  | Instr.f32_nearest => Some (unary_op 32 (Num.fnearest f))
  | Instr.f32_sqrt => Some (unary_op 32 (Num.fsqrt f))
  | Instr.f32_add => Some (binary_op 32 (Num.fadd f))
  | Instr.f32_sub => Some (binary_op 32 (Num.fsub f))
  | Instr.f32_mul => Some (binary_op 32 (Num.fmul f))
  | Instr.f32_div => Some (binary_op 32 (Num.fdiv f))
  | Instr.f32_min => Some (binary_op 32 (Num.fmin f))
  | Instr.f32_max => Some (binary_op 32 (Num.fmax f))
  | Instr.f32_copysign => Some (binary_op 32 (Num.copysign f))
  | _ => None
  end.

Definition compare_f64 (i : Instr.t) : option numop :=
  let f := binary64 in
  match i with
  | Instr.f64_eq => Some (comparison_op 64 (Num.feq f))
  | Instr.f64_ne => Some (comparison_op 64 (fun a b => negb (Num.feq f a b)))
  | Instr.f64_lt => Some (comparison_op 64 (Num.flt f))
  | Instr.f64_gt => Some (comparison_op 64 (fun a b => Num.flt f b a))
  | Instr.f64_le => Some (comparison_op 64 (Num.fle f))
  | Instr.f64_ge => Some (comparison_op 64 (fun a b => Num.fle f b a))
  | _ => None
  end.

Definition numeric_f64 (i : Instr.t) : option numop :=
  let f := binary64 in
  match i with
  | Instr.f64_abs => Some (unary_op 64 (Num.fabs f))
  | Instr.f64_neg => Some (unary_op 64 (Num.fneg f))
  | Instr.f64_ceil => Some (unary_op 64 (Num.fceil f))
  | Instr.f64_floor => Some (unary_op 64 (Num.ffloor f))
  | Instr.f64_trunc => Some (unary_op 64 (Num.ftrunc f))
  | Instr.f64_nearest => Some (unary_op 64 (Num.fnearest f))
  | Instr.f64_sqrt => Some (unary_op 64 (Num.fsqrt f))
  | Instr.f64_add => Some (binary_op 64 (Num.fadd f))
  | Instr.f64_sub => Some (binary_op 64 (Num.fsub f))
  | Instr.f64_mul => Some (binary_op 64 (Num.fmul f))
  | Instr.f64_div => Some (binary_op 64 (Num.fdiv f))
  | Instr.f64_min => Some (binary_op 64 (Num.fmin f))
  | Instr.f64_max => Some (binary_op 64 (Num.fmax f))
  | Instr.f64_copysign => Some (binary_op 64 (Num.copysign f))
  | _ => None
  end.

(** The boundaries are those of trunc_boundaries.hpp. *)
Definition numeric_conversion (i : Instr.t) : option numop :=
  match i with
  | Instr.i32_wrap_i64 => Some (unary_op 64 (wrap 32))
  | Instr.i32_trunc_f32_s => Some (trunc_op 32 (Num.trunc_to binary32 (-2147483904) 2147483648 32))
  | Instr.i32_trunc_f32_u => Some (trunc_op 32 (Num.trunc_to binary32 (-1) 4294967296 32))
  | Instr.i32_trunc_f64_s => Some (trunc_op 64 (Num.trunc_to binary64 (-2147483649) 2147483648 32))
  | Instr.i32_trunc_f64_u => Some (trunc_op 64 (Num.trunc_to binary64 (-1) 4294967296 32))
  | Instr.i64_extend_i32_s => Some (unary_op 32 (fun a => wrap 64 (signed 32 a)))
  | Instr.i64_extend_i32_u => Some (unary_op 32 (fun a => a))
  | Instr.i64_trunc_f32_s => Some (trunc_op 32 (Num.trunc_to binary32 (-9223373136366403584) 9223372036854775808 64))
  | Instr.i64_trunc_f32_u => Some (trunc_op 32 (Num.trunc_to binary32 (-1) 18446744073709551616 64))
  | Instr.i64_trunc_f64_s => Some (trunc_op 64 (Num.trunc_to binary64 (-9223372036854777856) 9223372036854775808 64))
  | Instr.i64_trunc_f64_u => Some (trunc_op 64 (Num.trunc_to binary64 (-1) 18446744073709551616 64))
  | Instr.f32_convert_i32_s => Some (unary_op 32 (fun a => Num.convert binary32 (signed 32 a)))
  | Instr.f32_convert_i32_u => Some (unary_op 32 (Num.convert binary32))
  | Instr.f32_convert_i64_s => Some (unary_op 64 (fun a => Num.convert binary32 (signed 64 a)))
  | Instr.f32_convert_i64_u => Some (unary_op 64 (Num.convert binary32))
  | Instr.f32_demote_f64 => Some (unary_op 64 Num.demote)
  | Instr.f64_convert_i32_s => Some (unary_op 32 (fun a => Num.convert binary64 (signed 32 a)))
  | Instr.f64_convert_i32_u => Some (unary_op 32 (Num.convert binary64))
  | Instr.f64_convert_i64_s => Some (unary_op 64 (fun a => Num.convert binary64 (signed 64 a)))
  | Instr.f64_convert_i64_u => Some (unary_op 64 (Num.convert binary64))
  | Instr.f64_promote_f32 => Some (unary_op 32 Num.promote)
  | Instr.i32_reinterpret_f32 | Instr.f32_reinterpret_i32 => Some (unary_op 32 (fun a => a))
  | Instr.i64_reinterpret_f64 | Instr.f64_reinterpret_i64 => Some (unary_op 64 (fun a => a))
  | _ => None
  end.

Definition first_of {A} (l : list (option A)) : option A := foldr (fun o r => match o with Some _ => o | None => r end) None l.

Definition numeric (i : Instr.t) : option numop :=
  first_of [compare_i32 i; compare_i64 i; compare_f32 i; compare_f64 i;
            numeric_i32 i; numeric_i64 i; numeric_f32 i; numeric_f64 i; numeric_conversion i].
End numeric.
