(* ===== verification/FizzyExecute.v ===== *)
(** * The interpreter

    [external/fizzy/lib/fizzy]: the instances of instantiate.hpp, the operand
    stack of stack.hpp, the context of execution_context.hpp and the loop of
    execute.cpp. Instances, memories, tables and the cells of globals live in a
    store and refer to each other by address, as they do by pointer in C++. A
    call of a host function is a node of a tree whose branches are the host's
    answers, so that one definition serves every host. *)

From stdpp Require Import base list option numbers.
From S2P Require Import Prelude Memory FizzyLeb128 FizzyTypes FizzyNumeric.

(** Whether an allocation of so many bytes succeeds. *)
Class Allocator := { can_allocate : Z -> bool }.

(** [ExecutionResult]: its constructors make a trap, a success without a value
    and a value. *)
Inductive ExecutionResult := Trap | Void | Result (value : Z).

(** ** execution_context.hpp *)

Record ExecutionContext := MkExecutionContext {
  ctx_depth : Z;
  ctx_ticks : Z;
  ctx_metering_enabled : bool
}.

Definition default_context : ExecutionContext := MkExecutionContext 0 (2 ^ 63 - 1) false.
Definition add_depth (d : Z) (c : ExecutionContext) : ExecutionContext :=
  MkExecutionContext (ctx_depth c + d) (ctx_ticks c) (ctx_metering_enabled c).
Definition set_context_ticks (t : Z) (c : ExecutionContext) : ExecutionContext :=
  MkExecutionContext (ctx_depth c) t (ctx_metering_enabled c).

(** ** stack.hpp: the locals and operands of a call

    [os_items] has the top of the stack first; [os_storage] is the size of the
    storage the locals, the bottom and the items share. *)

Record OperandStack := MkOperandStack {
  os_locals : list Z;
  os_items : list Z;
  os_storage : Z
}.

Definition small_storage_size : Z := 128 / 8.

(** There is one unused item when there are no locals. *)
Definition num_locals_adjusted (num_locals : Z) : Z := if num_locals =? 0 then 1 else num_locals.
Definition os_capacity (s : OperandStack) : Z := os_storage s - num_locals_adjusted (zlen (os_locals s)).
Definition os_size (s : OperandStack) : Z := zlen (os_items s).

(** ** instantiate.hpp *)

Section instances.
Context {hostfn : Type}.

Inductive ExecuteFunction :=
| WasmFunction (instance : nat) (func_idx : Z)
| HostFunction (host_function : hostfn).

Record ExternalFunction := MkExternalFunction {
  ef_function : ExecuteFunction;
  ef_input_types : list ValType;
  ef_output_types : list ValType
}.

(** [shared_instance] only keeps an instance alive. *)
Record TableElement := MkTableElement { te_instance : option nat; te_func_idx : Z }.

Record ExternalTable := MkExternalTable { xt_table : option nat; xt_limits : Limits }.
Record ExternalMemory := MkExternalMemory { xm_data : option nat; xm_limits : Limits }.
Record ExternalGlobal := MkExternalGlobal { xg_value : option nat; xg_type : GlobalType }.

Record Instance_ := MkInstance {
  i_module : Module_;
  i_memory : option nat;
  i_memory_limits : Limits;
  i_memory_pages_limit : Z;
  i_table : option nat;
  i_table_limits : Limits;
  i_globals : list nat;
  i_imported_functions : list ExternalFunction;
  i_imported_globals : list ExternalGlobal
}.

(** Everything the pointers point to. *)
Record Store := MkStore {
  s_instances : list Instance_;
  s_memories : list bytes;
  s_tables : list (list TableElement);
  s_values : list Z
}.

Record World := MkWorld { w_store : Store; w_ctx : ExecutionContext }.

Definition set_ctx (f : ExecutionContext -> ExecutionContext) (w : World) : World := MkWorld (w_store w) (f (w_ctx w)).

(** A computation that may call the host. *)
Inductive run (A : Type) :=
| Done (a : A) (w : World)
| Crash (f : fault)
| CallHost (h : hostfn) (instance : nat) (args : option (list Z)) (w : World) (k : ExecutionResult -> World -> run A).

Fixpoint run_bind {A B} (m : run A) (k : A -> World -> run B) : run B :=
  match m with
  | Done _ a w => k a w
  | Crash _ f => Crash _ f
  | CallHost _ h i args w c => CallHost _ h i args w (fun r w => run_bind (c r w) k)
  end.

(** ** The state of a call *)

Record frame := MkFrameState { fr_world : World; fr_stack : OperandStack; fr_pc : nat }.

Definition set_world (w : World) (f : frame) : frame := MkFrameState w (fr_stack f) (fr_pc f).
Definition set_stack (s : OperandStack) (f : frame) : frame := MkFrameState (fr_world f) s (fr_pc f).
Definition set_pc (pc : nat) (f : frame) : frame := MkFrameState (fr_world f) (fr_stack f) pc.
Definition set_items (l : list Z) (f : frame) : frame :=
  set_stack (MkOperandStack (os_locals (fr_stack f)) l (os_storage (fr_stack f))) f.
Definition set_locals (l : list Z) (f : frame) : frame :=
  set_stack (MkOperandStack l (os_items (fr_stack f)) (os_storage (fr_stack f))) f.
Definition set_store (s : Store) (f : frame) : frame := set_world (MkWorld s (w_ctx (fr_world f))) f.

Definition items (f : frame) : list Z := os_items (fr_stack f).
Definition locals (f : frame) : list Z := os_locals (fr_stack f).
Definition store_of (f : frame) : Store := w_store (fr_world f).

Definition stack_top : M frame Z :=
  let* l := gets items in match l with [] => fail assertion_failed | v :: _ => ret v end.
Definition stack_set_top (v : Z) : M frame unit :=
  let* l := gets items in match l with [] => fail assertion_failed | _ :: l => modify (set_items (v :: l)) end.
Definition stack_pop : M frame Z :=
  let* l := gets items in match l with [] => fail assertion_failed | v :: l => modify (set_items l) ;;; ret v end.

(** The height is not checked by the code. *)
Definition stack_push (v : Z) : M frame unit :=
  let* s := gets fr_stack in
  if os_size s <? os_capacity s then modify (set_items (v :: os_items s)) else fail out_of_bounds.

Definition stack_drop (num : Z) : M frame unit :=
  let* l := gets items in
  assert_that (num <=? zlen l) ;;; modify (set_items (drop (Z.to_nat num) l)).

(** [local( index )], read and written. *)
Definition check_local (index : Z) : M frame unit :=
  let* l := gets locals in assert_that (index <? num_locals_adjusted (zlen l)).
Definition local_read (index : Z) : M frame Z :=
  check_local index ;;; let* l := gets locals in elem l index.
Definition local_write (index v : Z) : M frame unit :=
  check_local index ;;;
  let* l := gets locals in
  let* _ := elem l index in
  modify (set_locals (<[Z.to_nat index := v]> l)).

(** The constructor copies the arguments behind the pointer and zeroes the other
    locals. [execute] is [noexcept]: a failed allocation terminates. *)
Definition copy_args {S} (args : option (list Z)) (num_args : Z) : M S (list Z) :=
  if num_args =? 0 then ret []
  else
    let* l := unptr args in
    if num_args <=? zlen l then ret (take (Z.to_nat num_args) l) else fail out_of_bounds.

Definition new_stack `{Allocator} {S} (args : option (list Z)) (num_args num_local_variables max_stack_height : Z) : M S OperandStack :=
  let num_locals := num_args + num_local_variables in
  let required := num_locals_adjusted num_locals + max_stack_height in
  (if required <=? small_storage_size then ret tt
   else if can_allocate (8 * required) then ret tt else fail (terminate bad_alloc)) ;;;
  let* copied := copy_args args num_args in
  ret (MkOperandStack (copied ++ replicate (Z.to_nat num_local_variables) 0) []
         (if required <=? small_storage_size then small_storage_size else required)).
End instances.
Arguments ExecuteFunction : clear implicits.
Arguments ExternalFunction : clear implicits.
Arguments Instance_ : clear implicits.
Arguments Store : clear implicits.
Arguments World : clear implicits.
Arguments run : clear implicits.
Arguments frame : clear implicits.
Arguments Done {hostfn A} a w.
Arguments Crash {hostfn A} f.
Arguments CallHost {hostfn A} h instance args w k.

(** ** execute.cpp: reading code and memory *)

Section execute.
Context {hostfn : Type} `{Allocator} `{NanPattern}.
Abbreviation F := (M (frame hostfn)).

(** What the loop does after an instruction. *)
Inductive next :=
| Continue
| DoTrap
| Finish
| Invoke (func_type : FuncType) (instance : nat) (func_idx : Z).

(** Trap when [b] is false. *)
Definition or_trap (b : bool) : F next := ret (if b then Continue else DoTrap).

Section instruction.
Context (metering : bool) (self : nat) (instance : Instance_ hostfn) (code : Code).

(** [read< T >( pc )] of [n] bytes. *)
Definition read (n : nat) : F Z :=
  let* pc := gets fr_pc in
  if (pc + n <=? length (instructions code))%nat
  then modify (set_pc (pc + n)) ;;; ret (le_val (take n (drop pc (instructions code))))
  else fail out_of_bounds.
Definition jump (target_pc : Z) : F unit := modify (set_pc (Z.to_nat target_pc)).
Definition skip (n : Z) : F unit := modify (fun f => set_pc (Z.to_nat (Z.of_nat (fr_pc f) + n)) f).

(** [( ctx.ticks -= cost ) < 0] *)
Definition charge (cost : Z) : F bool :=
  let* w := gets fr_world in
  let ticks := ctx_ticks (w_ctx w) - cost in
  if ticks <? - 2 ^ 63 then fail integer_overflow
  else modify (set_world (set_ctx (set_context_ticks ticks) w)) ;;; ret (0 <=? ticks).

Definition the_memory : F bytes :=
  let* a := unptr (i_memory instance) in
  let* s := gets store_of in
  unptr (s_memories s !! a).
Definition put_memory (m : bytes) : F unit :=
  let* a := unptr (i_memory instance) in
  modify (fun f => let s := store_of f in
                   set_store (MkStore (s_instances s) (<[a := m]> (s_memories s)) (s_tables s) (s_values s)) f).

(** [load< T >] and [store< T >]; the offset is added in 32 bits. *)
Definition load (memory : bytes) (n : nat) (offset : Z) : F Z :=
  if u32 offset + Z.of_nat n <=? zlen memory then ret (le_val (take n (drop (Z.to_nat (u32 offset)) memory)))
  else fail out_of_bounds.
Definition store (memory : bytes) (n : nat) (offset value : Z) : F unit :=
  match splice (Z.to_nat (u32 offset)) (le_bytes n value) memory with
  | Some m => put_memory m
  | None => fail out_of_bounds
  end.

(** [load_from_memory< DstT, SrcT >]: [n] bytes, the signedness of [SrcT] and the
    width of [DstT]. *)
Definition load_from_memory (n : nat) (is_signed : bool) (dst : Z) : F next :=
  let* memory := the_memory in
  let* top := stack_top in
  let address := u32 top in
  let* offset := read 4 in
  if zlen memory <? address + offset + Z.of_nat n then ret DoTrap
  else
    let* v := load memory n (address + offset) in
    stack_set_top (if is_signed then wrap dst (signed (8 * Z.of_nat n) v) else v) ;;;
    ret Continue.

(** [store_into_memory< DstT >] with [shrink]: the low bytes of the value. *)
Definition store_into_memory (n : nat) : F next :=
  let* memory := the_memory in
  let* value := stack_pop in
  let* a := stack_pop in
  let address := u32 a in
  let* offset := read 4 in
  if zlen memory <? address + offset + Z.of_nat n then ret DoTrap
  else store memory n (address + offset) value ;;; ret Continue.

(** [static_cast< uint32_t >( -1 )] *)
Definition grow_failed : Z := 2 ^ 32 - 1.

Definition grow_memory (delta_pages : Z) : F Z :=
  let* memory := the_memory in
  let cur_pages := zlen memory / PageSize in
  let limit := i_memory_pages_limit instance in
  assert_that (zlen memory `mod` PageSize =? 0) ;;;
  assert_that (limit <=? MaxMemoryPagesLimit) ;;;
  assert_that (cur_pages <=? limit) ;;;
  let new_pages := cur_pages + delta_pages in
  if limit <? new_pages then ret grow_failed
  else
    let new_bytes := memory_pages_to_bytes (u32 new_pages) in
    if can_allocate new_bytes
    then put_memory (memory ++ replicate (Z.to_nat (new_bytes - zlen memory)) 0) ;;; ret (u32 cur_pages)
    else ret grow_failed.

(** [branch] *)
Definition branch (arity : Z) : F unit :=
  let* code_offset := read 4 in
  let* drop_count := read 4 in
  jump code_offset ;;;
  let* l := gets items in
  assert_that (drop_count <? 2 ^ 31) ;;;
  assert_that (u32 (drop_count + arity) <=? zlen l) ;;;
  if arity =? 0 then stack_drop drop_count
  else
    assert_that (arity =? 1) ;;;
    let* result := stack_top in
    stack_drop drop_count ;;;
    stack_set_top result.

(** [code_offset + stack_drop] *)
Definition BranchImmediateSize : Z := 2 * 4.

Definition do_if : F next :=
  let* c := stack_pop in
  if negb (u32 c =? 0) then skip 4 ;;; ret Continue
  else let* target_pc := read 4 in jump target_pc ;;; ret Continue.
Definition do_else : F next := let* target_pc := read 4 in jump target_pc ;;; ret Continue.

Definition do_end : F next :=
  let* pc := gets fr_pc in
  ret (if (pc =? length (instructions code))%nat then Finish else Continue).

Definition do_br (i : Instr.t) : F next :=
  let* arity := read 4 in
  let* not_taken := if bool_decide (i = Instr.br_if) then let* c := stack_pop in ret (u32 c =? 0) else ret false in
  if not_taken then skip BranchImmediateSize ;;; ret Continue
  else branch arity ;;; ret Continue.

Definition do_br_table : F next :=
  let* br_table_size := read 4 in
  let* arity := read 4 in
  let* v := stack_pop in
  let br_table_idx := u32 v in
  skip (if br_table_idx <? br_table_size then br_table_idx * BranchImmediateSize
        else br_table_size * BranchImmediateSize) ;;;
  branch arity ;;;
  ret Continue.

Definition do_call : F next :=
  let* called_func_idx := read 4 in
  let* type := get_function_type (i_module instance) called_func_idx in
  ret (Invoke type self called_func_idx).

Definition do_call_indirect : F next :=
  let* s := gets store_of in
  assert_that (match i_table instance with Some _ => true | None => false end) ;;;
  let* expected_type_idx := read 4 in
  assert_that (expected_type_idx <? zlen (typesec (i_module instance))) ;;;
  let* v := stack_pop in
  let elem_idx := u32 v in
  let* a := unptr (i_table instance) in
  let* table := unptr (s_tables s !! a) in
  if zlen table <=? elem_idx then ret DoTrap
  else
    let* called_func := elem table elem_idx in
    match te_instance called_func with
    | None => ret DoTrap
    | Some j =>
        let* callee := unptr (s_instances s !! j) in
        let* actual_type := get_function_type (i_module callee) (te_func_idx called_func) in
        let* expected_type := elem (typesec (i_module instance)) expected_type_idx in
        if negb (bool_decide (expected_type = actual_type)) then ret DoTrap
        else ret (Invoke actual_type j (te_func_idx called_func))
    end.

Definition do_select : F next :=
  let* condition := stack_pop in
  let* val2 := stack_pop in
  let* val1 := stack_pop in
  stack_push (if u32 condition =? 0 then val2 else val1) ;;;
  ret Continue.

Definition do_local (i : Instr.t) : F next :=
  let* idx := read 4 in
  (if bool_decide (i = Instr.local_get) then let* v := local_read idx in stack_push v
   else if bool_decide (i = Instr.local_set) then let* v := stack_pop in local_write idx v
   else let* v := stack_top in local_write idx v) ;;;
  ret Continue.

(** The cell of a global. *)
Definition read_cell (a : option nat) : F Z :=
  let* a := unptr a in let* s := gets store_of in unptr (s_values s !! a).
Definition write_cell (a : option nat) (v : Z) : F unit :=
  let* a := unptr a in
  modify (fun f => let s := store_of f in
                   set_store (MkStore (s_instances s) (s_memories s) (s_tables s) (<[a := v]> (s_values s))) f).

Definition do_global_get : F next :=
  let* idx := read 4 in
  let imported := i_imported_globals instance in
  assert_that (idx <? zlen imported + zlen (i_globals instance)) ;;;
  (if idx <? zlen imported
   then let* g := elem imported idx in let* v := read_cell (xg_value g) in stack_push v
   else
     let module_global_idx := idx - zlen imported in
     assert_that (module_global_idx <? zlen (globalsec (i_module instance))) ;;;
     let* a := elem (i_globals instance) module_global_idx in
     let* v := read_cell (Some a) in
     stack_push v) ;;;
  ret Continue.

Definition do_global_set : F next :=
  let* idx := read 4 in
  let imported := i_imported_globals instance in
  (if idx <? zlen imported
   then
     let* g := elem imported idx in
     assert_that (is_mutable (xg_type g)) ;;;
     let* v := stack_pop in
     write_cell (xg_value g) v
   else
     let module_global_idx := idx - zlen imported in
     assert_that (module_global_idx <? zlen (globalsec (i_module instance))) ;;;
     let* g := elem (globalsec (i_module instance)) module_global_idx in
     assert_that (is_mutable (g_type g)) ;;;
     let* v := stack_pop in
     let* a := elem (i_globals instance) module_global_idx in
     write_cell (Some a) v) ;;;
  ret Continue.

Definition do_memory_size : F next :=
  let* memory := the_memory in
  assert_that (zlen memory `mod` PageSize =? 0) ;;;
  stack_push (u32 (zlen memory / PageSize)) ;;;
  ret Continue.

Definition do_memory_grow : F next :=
  let* top := stack_top in
  let delta_pages := u32 top in
  let* paid := if metering then charge (get_grow_memory_cost delta_pages) else ret true in
  if negb paid then ret DoTrap
  else let* pages := grow_memory delta_pages in stack_set_top pages ;;; ret Continue.

Definition do_const (n : nat) : F next := let* v := read n in stack_push v ;;; ret Continue.

Definition do_numeric (o : numop) : F next :=
  match o with
  | NumUnary op =>
      let* v := stack_top in
      match op v with Some r => stack_set_top r ;;; ret Continue | None => ret DoTrap end
  | NumBinary op =>
      let* v2 := stack_pop in
      let* v1 := stack_top in
      match op v1 v2 with Some r => stack_set_top r ;;; ret Continue | None => ret DoTrap end
  end.

(** The size and signedness of what a load reads and the width of its result. *)
Definition load_shape (i : Instr.t) : option (nat * bool * Z) :=
  match i with
  | Instr.i32_load | Instr.f32_load => Some (4%nat, false, 32)
  | Instr.i64_load | Instr.f64_load => Some (8%nat, false, 64)
  | Instr.i32_load8_s => Some (1%nat, true, 32)
  | Instr.i32_load8_u => Some (1%nat, false, 32)
  | Instr.i32_load16_s => Some (2%nat, true, 32)
  | Instr.i32_load16_u => Some (2%nat, false, 32)
  | Instr.i64_load8_s => Some (1%nat, true, 64)
  | Instr.i64_load8_u => Some (1%nat, false, 64)
  | Instr.i64_load16_s => Some (2%nat, true, 64)
  | Instr.i64_load16_u => Some (2%nat, false, 64)
  | Instr.i64_load32_s => Some (4%nat, true, 64)
  | Instr.i64_load32_u => Some (4%nat, false, 64)
  | _ => None
  end.

Definition store_size (i : Instr.t) : option nat :=
  match i with
  | Instr.i32_store | Instr.f32_store | Instr.i64_store32 => Some 4%nat
  | Instr.i64_store | Instr.f64_store => Some 8%nat
  | Instr.i32_store8 | Instr.i64_store8 => Some 1%nat
  | Instr.i32_store16 | Instr.i64_store16 => Some 2%nat
  | _ => None
  end.

(** The switch. *)
Definition do_instr (i : Instr.t) : F next :=
  match i with
  | Instr.unreachable => ret DoTrap
  | Instr.nop | Instr.block | Instr.loop => ret Continue
  | Instr.if_ => do_if
  | Instr.else_ => do_else
  | Instr.end_ => do_end
  | Instr.br | Instr.br_if | Instr.return_ => do_br i
  | Instr.br_table => do_br_table
  | Instr.call => do_call
  | Instr.call_indirect => do_call_indirect
  | Instr.drop => let* _ := stack_pop in ret Continue
  | Instr.select => do_select
  | Instr.local_get | Instr.local_set | Instr.local_tee => do_local i
  | Instr.global_get => do_global_get
  | Instr.global_set => do_global_set
  | Instr.memory_size => do_memory_size
  | Instr.memory_grow => do_memory_grow
  | Instr.i32_const | Instr.f32_const => do_const 4
  | Instr.i64_const | Instr.f64_const => do_const 8
  | _ =>
      match load_shape i, store_size i, numeric i with
      | Some (n, is_signed, dst), _, _ => load_from_memory n is_signed dst
      | _, Some n, _ => store_into_memory n
      | _, _, Some o => do_numeric o
      | _, _, _ => fail assertion_failed
      end
  end.

(** One round of the loop: fetch, metering, switch. *)
Definition step : F next :=
  let* opcode := read 1 in
  let* paid := if metering then charge (cost_of_opcode opcode) else ret true in
  if negb paid then ret DoTrap
  else match Instr.of_byte opcode with Some i => do_instr i | None => fail assertion_failed end.
End instruction.

(** ** execute.cpp: calls *)

Definition leave (w : World hostfn) : World hostfn := set_ctx (add_depth (-1)) w.

(** The arguments of a call: the top items, the last one on top. *)
Definition call_args (type : FuncType) (f : frame hostfn) : list Z := rev (take (length (inputs type)) (items f)).

(** What [invoke_function] does with the result of a call that did not trap. *)
Definition after_invoke (type : FuncType) (r : ExecutionResult) : F unit :=
  stack_drop (zlen (inputs type)) ;;;
  assert_that (length (outputs type) <=? 1)%nat ;;;
  match r with
  | Result v => assert_that (length (outputs type) =? 1)%nat ;;; stack_push v
  | _ => assert_that (length (outputs type) =? 0)%nat
  end.

(** The label [end] of [execute]. *)
Definition finish_call (instance : Instance_ hostfn) (func_idx : Z) : F ExecutionResult :=
  let* l := gets items in
  let* type := get_function_type (i_module instance) func_idx in
  assert_that (length l =? length (outputs type))%nat ;;;
  ret (match l with [] => Void | v :: _ => Result v end).

(** The beginning of a call: the trap on depth, the imported function, or the
    frame of the function's code. *)
Inductive entry :=
| TooDeep
| Imported (f : ExecuteFunction hostfn)
| Enter (instance : Instance_ hostfn) (code : Code) (f : frame hostfn).

Definition enter (self : nat) (func_idx : Z) (args : option (list Z)) : M (World hostfn) entry :=
  let* w := gets id in
  assert_that (0 <=? ctx_depth (w_ctx w)) ;;;
  if CallStackLimit <=? ctx_depth (w_ctx w) then ret TooDeep
  else
    let* instance := unptr (s_instances (w_store w) !! self) in
    let m := i_module instance in
    let* type := get_function_type m func_idx in
    assert_that (length (imported_function_types m) =? length (i_imported_functions instance))%nat ;;;
    if func_idx <? zlen (i_imported_functions instance)
    then let* f := elem (i_imported_functions instance) func_idx in ret (Imported (ef_function f))
    else
      let* code := get_code m func_idx in
      let* stack := new_stack args (zlen (inputs type)) (local_count code) (max_stack_height code) in
      ret (Enter instance code (MkFrameState (set_ctx (add_depth 1) w) stack 0)).

(** A [noexcept] computation in the middle of a run. *)
Definition run_step {S A B} (m : M S A) (s : S) (k : A -> S -> run hostfn B) : run hostfn B :=
  match m s with
  | Ret a s => k a s
  | Throw e _ => Crash (terminate e)
  | Fault f => Crash f
  end.

(** The loop and the calls in it: one unit of fuel for an instruction and one
    for a call. *)
Fixpoint loop (fuel : nat) (metering : bool) (self : nat) (instance : Instance_ hostfn) (func_idx : Z) (code : Code)
    (f : frame hostfn) : run hostfn ExecutionResult :=
  match fuel with
  | O => Crash out_of_fuel
  | S fuel =>
      run_step (step metering self instance code) f (fun n f =>
        match n with
        | Continue => loop fuel metering self instance func_idx code f
        | DoTrap => Done Trap (leave (fr_world f))
        | Finish => run_step (finish_call instance func_idx) f (fun r f => Done r (leave (fr_world f)))
        | Invoke type callee callee_idx =>
            if zlen (items f) <? zlen (inputs type) then Crash assertion_failed
            else
              run_bind (execute fuel metering callee callee_idx (Some (call_args type f)) (fr_world f)) (fun r w =>
                match r with
                | Trap => Done Trap (leave w)
                | _ => run_step (after_invoke type r) (set_world w f) (fun _ f =>
                         loop fuel metering self instance func_idx code f)
                end)
        end)
  end
with execute (fuel : nat) (metering : bool) (self : nat) (func_idx : Z) (args : option (list Z)) (w : World hostfn)
    : run hostfn ExecutionResult :=
  match fuel with
  | O => Crash out_of_fuel
  | S fuel =>
      run_step (enter self func_idx args) w (fun e w =>
        match e with
        | TooDeep => Done Trap w
        | Imported (HostFunction h) => CallHost h self args w Done
        | Imported (WasmFunction j idx) => execute fuel (ctx_metering_enabled (w_ctx w)) j idx args w
        | Enter instance code f => loop fuel metering self instance func_idx code f
        end)
  end.

(** The two entry points: with a context, and with a fresh one and no
    metering. *)
Definition execute_in (fuel : nat) (self : nat) (func_idx : Z) (args : option (list Z)) (w : World hostfn) : run hostfn ExecutionResult :=
  execute fuel (ctx_metering_enabled (w_ctx w)) self func_idx args w.
Definition execute_plain (fuel : nat) (self : nat) (func_idx : Z) (args : option (list Z)) (w : World hostfn)
    : run hostfn ExecutionResult :=
  run_bind (execute fuel false self func_idx args (MkWorld (w_store w) default_context)) (fun r w' =>
    Done r (MkWorld (w_store w') (w_ctx w))).
End execute.
