(* ===== verification/FizzyCode.v ===== *)
(** * Certified code

    What the interpreter relies on in the code of a function: a division of the
    bytes into instructions, with the height of the operand stack before each
    instruction that can be reached. [FizzyExprCode] shows that validation
    leaves such a division, [FizzyExecuteSafety] that code with one runs
    safely. *)

From stdpp Require Import base list option numbers.
From S2P Require Import Prelude Memory FizzyLeb128 FizzyTypes FizzyExpr.

Lemma at_idx_nat {A} (l : list A) i a : at_idx l i = Some a -> exists k, i = Z.of_nat k /\ l !! k = Some a.
Proof. unfold at_idx. destruct (i <? 0) eqn:E; [done|]. bool_to_prop. intros H. exists (Z.to_nat i). split; [lia|done]. Qed.

(** Only the opcode of an instruction denotes it. *)
Lemma of_byte_Some b i : Instr.of_byte b = Some i -> b = Instr.opcode i.
Proof.
  destruct b as [|p|p]; cbn [Instr.of_byte]; [by intros [= <-]| |done].
  do 8 (destruct p as [p|p|]; cbn [Instr.of_byte]; [| |first [done|by intros [= <-]]]); done.
Qed.

(** ** Instructions with their immediates

    The targets of jumps are kept apart, as a function from the offset of the
    immediate that holds the target: they are filled in after the instruction
    is emitted. *)

Inductive item :=
| Plain (i : Instr.t) (imm : bytes)
| Jump (i : Instr.t)
| Branch (i : Instr.t) (arity stack_drop : Z)
| Switch (arity : Z) (stack_drops : list Z).

Definition targets : Type := nat -> Z.
Definition retarget (off : nat) (v : Z) (T : targets) : targets := fun o => if (o =? off)%nat then v else T o.

Definition item_size (it : item) : nat :=
  match it with
  | Plain _ imm => 1 + length imm
  | Jump _ => 5
  | Branch _ _ _ => 13
  | Switch _ ds => 9 + 8 * length ds
  end%nat.

Section encode.
Context (T : targets).

Fixpoint enc_slots (pos : nat) (ds : list Z) : bytes :=
  match ds with
  | [] => []
  | d :: ds => le_bytes 4 (T pos) ++ le_bytes 4 d ++ enc_slots (pos + 8)%nat ds
  end.

Definition enc_item (pos : nat) (it : item) : bytes :=
  match it with
  | Plain i imm => Instr.opcode i :: imm
  | Jump i => Instr.opcode i :: le_bytes 4 (T (pos + 1)%nat)
  | Branch i a d => Instr.opcode i :: le_bytes 4 a ++ le_bytes 4 (T (pos + 5)%nat) ++ le_bytes 4 d
  | Switch a ds => Instr.opcode Instr.br_table :: le_bytes 4 (zlen ds - 1) ++ le_bytes 4 a ++ enc_slots (pos + 9)%nat ds
  end.

(** An instruction with the height before it, when it can be reached. *)
Fixpoint enc (pos : nat) (L : list (option Z * item)) : bytes :=
  match L with
  | [] => []
  | (_, it) :: L => enc_item pos it ++ enc (pos + item_size it)%nat L
  end.
End encode.

Fixpoint size (L : list (option Z * item)) : nat :=
  match L with [] => 0%nat | (_, it) :: L => (item_size it + size L)%nat end.

(** The height at a position; [c] is the height at the end. *)
Fixpoint height_at (L : list (option Z * item)) (c : option Z) (p : nat) : option Z :=
  match L with
  | [] => if (p =? 0)%nat then c else None
  | (h, it) :: L =>
      if (p =? 0)%nat then h else if (p <? item_size it)%nat then None else height_at L c (p - item_size it)%nat
  end.

(** ** What an instruction needs and where it leads *)

Section item_ok.
Context (m : Module_) (num_locals : Z).

(** The operands an instruction takes and gives beside those of the type table,
    with what its immediates must be. *)
Definition plain_ok (i : Instr.t) (imm : bytes) (takes gives : Z) : Prop :=
  match i with
  | Instr.if_ | Instr.else_ | Instr.br | Instr.br_if | Instr.br_table | Instr.return_ => False
  | Instr.drop => imm = [] /\ takes = 1 /\ gives = 0
  | Instr.select => imm = [] /\ takes = 2 /\ gives = 1
  | Instr.call => exists idx type, imm = le_bytes 4 idx /\ 0 <= idx < 2 ^ 32 /\ idx < get_function_count m /\
      function_type_at m idx = Some type /\ takes = zlen (inputs type) /\ gives = zlen (outputs type)
  | Instr.call_indirect => exists idx type, imm = le_bytes 4 idx /\ 0 <= idx < 2 ^ 32 /\ has_table m = true /\
      at_idx (typesec m) idx = Some type /\ takes = zlen (inputs type) /\ gives = zlen (outputs type)
  | Instr.local_get => exists idx, imm = le_bytes 4 idx /\ 0 <= idx < 2 ^ 32 /\ idx < num_locals /\ takes = 0 /\ gives = 1
  | Instr.local_set => exists idx, imm = le_bytes 4 idx /\ 0 <= idx < 2 ^ 32 /\ idx < num_locals /\ takes = 1 /\ gives = 0
  | Instr.local_tee => exists idx, imm = le_bytes 4 idx /\ 0 <= idx < 2 ^ 32 /\ idx < num_locals /\ takes = 1 /\ gives = 1
  | Instr.global_get => exists idx, imm = le_bytes 4 idx /\ 0 <= idx < 2 ^ 32 /\ idx < get_global_count m /\ takes = 0 /\ gives = 1
  | Instr.global_set => exists idx type, imm = le_bytes 4 idx /\ 0 <= idx < 2 ^ 32 /\ global_type_at m idx = Some type /\
      is_mutable type = true /\ takes = 1 /\ gives = 0
  | Instr.i32_const | Instr.f32_const => length imm = 4%nat /\ takes = 0 /\ gives = 0
  | Instr.i64_const | Instr.f64_const => length imm = 8%nat /\ takes = 0 /\ gives = 0
  | Instr.memory_size | Instr.memory_grow => imm = [] /\ has_memory m = true /\ takes = 0 /\ gives = 0
  | _ => takes = 0 /\ gives = 0 /\
         if is_memory_access i then length imm = 4%nat /\ has_memory m = true else imm = []
  end.

(** At height [h] the instruction can be executed; [next] is the height after
    it when the next one follows. *)
Definition item_ok (h : Z) (it : item) (next : option Z) : Prop :=
  match it with
  | Plain i imm => exists takes gives,
      plain_ok i imm takes gives /\ bytes_ok imm /\ zlen (type_of_opcode (Instr.opcode i)).1 + takes <= h /\
      next = if bool_decide (i = Instr.unreachable) then None
             else Some (h - zlen (type_of_opcode (Instr.opcode i)).1 + zlen (type_of_opcode (Instr.opcode i)).2 - takes + gives)
  | Jump i => i = Instr.if_ /\ 1 <= h /\ next = Some (h - 1) \/ i = Instr.else_ /\ next = None
  | Branch i a d =>
      (i = Instr.br \/ i = Instr.return_ \/ i = Instr.br_if) /\ 0 <= a <= 1 /\ 0 <= d /\
      let taken := if bool_decide (i = Instr.br_if) then h - 1 else h in
      d + a <= taken /\ next = if bool_decide (i = Instr.br_if) then Some taken else None
  | Switch a ds => 1 <= h /\ 0 <= a <= 1 /\ 1 <= zlen ds <= 2 ^ 32 /\ Forall (fun d => 0 <= d /\ d + a <= h - 1) ds /\ next = None
  end.

(** The height expected at the targets of an instruction. *)
Definition slots_of (pos : nat) (h : option Z) (it : item) : list (nat * option Z) :=
  match it with
  | Plain _ _ => []
  | Jump i => [((pos + 1)%nat, if bool_decide (i = Instr.if_) then (fun z => z - 1) <$> h else h)]
  | Branch i a d => [((pos + 5)%nat, (fun z => (if bool_decide (i = Instr.br_if) then z - 1 else z) - d) <$> h)]
  | Switch a ds => imap (fun k d => ((pos + 9 + 8 * k)%nat, (fun z => z - 1 - d) <$> h)) ds
  end.

Fixpoint slots (pos : nat) (L : list (option Z * item)) : list (nat * option Z) :=
  match L with [] => [] | (h, it) :: L => slots_of pos h it ++ slots (pos + item_size it)%nat L end.

Definition next_height (L : list (option Z * item)) (c : option Z) : option Z :=
  match L with [] => c | (h, _) :: _ => h end.

(** Every instruction that can be reached is executable and leads on. *)
Fixpoint chain (L : list (option Z * item)) (c : option Z) : Prop :=
  match L with
  | [] => True
  | (h, it) :: L =>
      (forall z, h = Some z -> exists next, item_ok z it next /\ forall z', next = Some z' -> next_height L c = Some z') /\
      chain L c
  end.

(** The code of a function with [arity] results: it ends with [end], which is
    reached, if at all, with the results on the stack. *)
Definition with_end (c : option Z) (L : list (option Z * item)) : list (option Z * item) := L ++ [(c, Plain Instr.end_ [])].

Record certified (arity max : Z) (code : bytes) (T : targets) (L : list (option Z * item)) (c : option Z) : Prop := {
  cert_code : code = enc T 0 (with_end c L);
  cert_chain : chain L c;
  cert_arity : forall z, c = Some z -> z = arity;
  cert_max : forall h it, (Some h, it) ∈ with_end c L -> 0 <= h <= max;
  cert_slots : forall off e, (off, Some e) ∈ slots 0 L -> 0 <= T off /\ height_at L c (Z.to_nat (T off)) = Some e;
  cert_entry : height_at L c 0 = Some 0
}.
End item_ok.

Definition code_ok (m : Module_) (num_locals arity : Z) (max : Z) (code : bytes) : Prop :=
  exists T L c, certified m num_locals arity max code T L c.

(** ** Positions *)

Lemma length_enc_slots T pos ds : length (enc_slots T pos ds) = (8 * length ds)%nat.
Proof. revert pos. induction ds as [|d ds IH]; intros pos; cbn [enc_slots length]; [done|]. rewrite !length_app, !length_le_bytes, IH. lia. Qed.

Lemma length_enc_item T pos it : length (enc_item T pos it) = item_size it.
Proof.
  destruct it as [i imm|i|i a d|a ds]; cbn [enc_item item_size length]; rewrite ?length_app, ?length_le_bytes, ?length_enc_slots; lia.
Qed.

Lemma item_size_pos it : (0 < item_size it)%nat.
Proof. destruct it; cbn; lia. Qed.

Lemma length_enc T pos L : length (enc T pos L) = size L.
Proof. revert pos. induction L as [|[h it] L IH]; intros pos; cbn [enc size]; [done|]. by rewrite length_app, length_enc_item, IH. Qed.

Lemma size_app L L' : size (L ++ L') = (size L + size L')%nat.
Proof. induction L as [|[h it] L IH]; cbn [app size]; [done|]. rewrite IH. lia. Qed.

Lemma enc_app T pos L L' : enc T pos (L ++ L') = enc T pos L ++ enc T (pos + size L) L'.
Proof.
  revert pos. induction L as [|[h it] L IH]; intros pos; cbn [enc app size]; [by rewrite Nat.add_0_r|].
  by rewrite IH, <- app_assoc, Nat.add_assoc.
Qed.

Lemma slots_app pos L L' : slots pos (L ++ L') = slots pos L ++ slots (pos + size L) L'.
Proof.
  revert pos. induction L as [|[h it] L IH]; intros pos; cbn [slots app size]; [by rewrite Nat.add_0_r|].
  by rewrite IH, <- app_assoc, Nat.add_assoc.
Qed.

Lemma slots_of_range pos h it o e : (o, e) ∈ slots_of pos h it -> (pos < o /\ o + 4 <= pos + item_size it)%nat.
Proof.
  destruct it as [i imm|i|i a d|a ds]; cbn [slots_of item_size].
  - by intros ?%not_elem_of_nil.
  - intros [= -> _]%list_elem_of_singleton. lia.
  - intros [= -> _]%list_elem_of_singleton. lia.
  - intros (k & d & [= -> _] & Hk%lookup_lt_Some)%elem_of_lookup_imap_1. lia.
Qed.

Lemma slots_range pos L o e : (o, e) ∈ slots pos L -> (pos < o /\ o + 4 <= pos + size L)%nat.
Proof.
  revert pos. induction L as [|[h it] L IH]; intros pos; cbn [slots size]; [by intros ?%not_elem_of_nil|].
  intros [H%slots_of_range|H%IH]%elem_of_app; lia.
Qed.

(** ** Targets *)

Lemma enc_slots_ext T T' pos ds :
  (forall o, (pos <= o < pos + 8 * length ds)%nat -> T' o = T o) -> enc_slots T' pos ds = enc_slots T pos ds.
Proof.
  revert pos. induction ds as [|d ds IH]; intros pos HT; cbn [enc_slots length] in *; [done|].
  rewrite HT by lia. by rewrite IH by (intros; apply HT; lia).
Qed.

Lemma enc_item_ext T T' pos it :
  (forall o, (pos <= o < pos + item_size it)%nat -> T' o = T o) -> enc_item T' pos it = enc_item T pos it.
Proof.
  destruct it as [i imm|i|i a d|a ds]; cbn [enc_item item_size]; intros HT; [done|by rewrite HT by lia|by rewrite HT by lia|].
  by rewrite (enc_slots_ext T T') by (intros; apply HT; lia).
Qed.

Lemma enc_ext T T' pos L :
  (forall o, (pos <= o < pos + size L)%nat -> T' o = T o) -> enc T' pos L = enc T pos L.
Proof.
  revert pos. induction L as [|[h it] L IH]; intros pos HT; cbn [enc size] in *; [done|].
  rewrite (enc_item_ext T T') by (intros; apply HT; lia). by rewrite IH by (intros; apply HT; lia).
Qed.

(** Overwriting four bytes. *)
Definition overwrite (off : nat) (v : Z) (code : bytes) : bytes := take off code ++ le_bytes 4 v ++ drop (off + 4) code.

Lemma overwrite_app_l off v l l' : (off + 4 <= length l)%nat -> overwrite off v (l ++ l') = overwrite off v l ++ l'.
Proof. intros H. unfold overwrite. by rewrite take_app_le, drop_app_le, <- !app_assoc by lia. Qed.

Lemma overwrite_app_r off v l l' : (length l <= off)%nat -> overwrite off v (l ++ l') = l ++ overwrite (off - length l) v l'.
Proof.
  intros H. unfold overwrite. rewrite take_app_ge, drop_app_ge, <- app_assoc by lia. repeat f_equal. lia.
Qed.

Lemma overwrite_here v l l' : length l = 4%nat -> overwrite 0 v (l ++ l') = le_bytes 4 v ++ l'.
Proof. intros H. unfold overwrite. cbn [take app Nat.add]. by rewrite <- H, drop_app_length. Qed.

Lemma retarget_same off v T : retarget off v T off = v.
Proof. unfold retarget. by rewrite Nat.eqb_refl. Qed.

Lemma retarget_other off v T o : o <> off -> retarget off v T o = T o.
Proof. unfold retarget. intros H. by rewrite (proj2 (Nat.eqb_neq _ _)). Qed.

Lemma enc_slots_retarget T pos ds k v :
  (k < length ds)%nat -> enc_slots (retarget (pos + 8 * k) v T) pos ds = overwrite (8 * k) v (enc_slots T pos ds).
Proof.
  revert pos k. induction ds as [|d ds IH]; intros pos k Hk; cbn [length] in Hk; [lia|]. cbn [enc_slots]. destruct k as [|k].
  - rewrite Nat.mul_0_r, Nat.add_0_r, retarget_same, overwrite_here by apply length_le_bytes. f_equal. f_equal.
    apply enc_slots_ext. intros o Ho. apply retarget_other. lia.
  - rewrite retarget_other by lia. replace (pos + 8 * S k)%nat with (pos + 8 + 8 * k)%nat by lia. rewrite IH by lia.
    rewrite overwrite_app_r by (rewrite length_le_bytes; lia). rewrite overwrite_app_r by (rewrite !length_le_bytes; lia).
    rewrite !length_le_bytes. repeat f_equal. lia.
Qed.

Lemma overwrite_cons off v b l : (0 < off)%nat -> overwrite off v (b :: l) = b :: overwrite (off - 1) v l.
Proof. intros H. apply (overwrite_app_r off v [b] l). cbn. lia. Qed.

Lemma enc_item_retarget T pos h it o e v :
  (o, e) ∈ slots_of pos h it -> enc_item (retarget o v T) pos it = overwrite (o - pos) v (enc_item T pos it).
Proof.
  destruct it as [i imm|i|i a d|a ds]; cbn [slots_of enc_item].
  - by intros ?%not_elem_of_nil.
  - intros [= -> _]%list_elem_of_singleton. rewrite retarget_same, overwrite_cons by lia.
    replace (pos + 1 - pos - 1)%nat with 0%nat by lia. by rewrite <- (app_nil_r (le_bytes 4 (T _))), overwrite_here, app_nil_r by apply length_le_bytes.
  - intros [= -> _]%list_elem_of_singleton. rewrite retarget_same, overwrite_cons by lia.
    rewrite overwrite_app_r by (rewrite length_le_bytes; lia). rewrite length_le_bytes.
    replace (pos + 5 - pos - 1 - 4)%nat with 0%nat by lia. by rewrite overwrite_here by apply length_le_bytes.
  - intros (k & d & [= -> _] & Hk%lookup_lt_Some)%elem_of_lookup_imap_1. rewrite overwrite_cons by lia.
    rewrite overwrite_app_r by (rewrite length_le_bytes; lia). rewrite overwrite_app_r by (rewrite !length_le_bytes; lia).
    rewrite !length_le_bytes. f_equal. f_equal. f_equal.
    etrans; [by apply (enc_slots_retarget T (pos + 9) ds k v)|]. f_equal. lia.
Qed.

(** Filling in a target overwrites its immediate. *)
Lemma enc_retarget T pos L o e v :
  (o, e) ∈ slots pos L -> enc (retarget o v T) pos L = overwrite (o - pos) v (enc T pos L).
Proof.
  revert pos. induction L as [|[h it] L IH]; intros pos; cbn [slots enc]; [by intros ?%not_elem_of_nil|].
  intros [H|H]%elem_of_app.
  - pose proof (slots_of_range _ _ _ _ _ H). rewrite (enc_item_retarget _ _ _ _ _ _ _ H).
    rewrite overwrite_app_l by (rewrite length_enc_item; lia). f_equal. apply enc_ext. intros o' Ho'. apply retarget_other. lia.
  - pose proof (slots_range _ _ _ _ H). rewrite overwrite_app_r by (rewrite length_enc_item; lia).
    rewrite (enc_item_ext T) by (intros; apply retarget_other; lia). rewrite IH by done. rewrite length_enc_item. f_equal. f_equal. lia.
Qed.

(** ** Heights *)

Lemma height_at_end L c : height_at L c (size L) = c.
Proof.
  induction L as [|[h it] L IH]; cbn [height_at size]; [done|]. pose proof (item_size_pos it).
  rewrite (proj2 (Nat.eqb_neq _ _)), (proj2 (Nat.ltb_ge _ _)) by lia. by replace (item_size it + size L - item_size it)%nat with (size L) by lia.
Qed.

Lemma height_at_range L c p e : height_at L c p = Some e -> (p <= size L)%nat.
Proof.
  revert p. induction L as [|[h it] L IH]; intros p; cbn [height_at size].
  - destruct (p =? 0)%nat eqn:E; [|done]. apply Nat.eqb_eq in E. lia.
  - destruct (p =? 0)%nat eqn:E; [apply Nat.eqb_eq in E; lia|]. destruct (p <? item_size it)%nat eqn:E2; [done|].
    intros H%IH. lia.
Qed.

(** What was known stays known when an instruction follows. *)
Lemma height_at_snoc L c it c' p e : height_at L c p = Some e -> height_at (L ++ [(c, it)]) c' p = Some e.
Proof.
  revert p. induction L as [|[h it'] L IH]; intros p; cbn [height_at app].
  - destruct (p =? 0)%nat; [done|done].
  - destruct (p =? 0)%nat; [done|]. destruct (p <? item_size it')%nat; [done|]. apply IH.
Qed.

Lemma next_height_snoc L c it c' : next_height (L ++ [(c, it)]) c' = next_height L c.
Proof. by destruct L as [|[h i] L]. Qed.

Section chain.
Context (m : Module_) (num_locals : Z).

Lemma chain_snoc L c it c' :
  chain m num_locals L c ->
  (forall z, c = Some z -> exists next, item_ok m num_locals z it next /\ forall z', next = Some z' -> c' = Some z') ->
  chain m num_locals (L ++ [(c, it)]) c'.
Proof.
  intros H Hit. induction L as [|[h i] L IH]; cbn [chain app]; [done|]. destruct H as [H1 H2]. split; [|by apply IH].
  intros z Hz. destruct (H1 z Hz) as (next & Hok & Hn). exists next. split; [done|]. intros z' Hz'. rewrite next_height_snoc. by apply Hn.
Qed.

(** The height at a target is at most that of the instruction. *)
Lemma item_slot_bound pos z it next off e :
  item_ok m num_locals z it next -> 0 <= z -> (off, Some e) ∈ slots_of pos (Some z) it -> 0 <= e <= z.
Proof.
  destruct it as [i imm|i|i a d|a ds]; cbn [item_ok slots_of fmap option_fmap option_map].
  - by intros _ _ ?%not_elem_of_nil.
  - intros [(-> & Hh & _)|(-> & _)] Hz Hin%list_elem_of_singleton.
    + rewrite bool_decide_true in Hin by done. simplify_eq. lia.
    + rewrite bool_decide_false in Hin by done. simplify_eq. lia.
  - intros (_ & Ha & Hd & Hle & _) Hz [= _ ->]%list_elem_of_singleton. destruct (bool_decide _); lia.
  - intros (Hh & Ha & _ & Hds & _) Hz (k & d & [= _ ->] & Hk)%elem_of_lookup_imap_1.
    rewrite Forall_lookup in Hds. specialize (Hds k d Hk). lia.
Qed.

Lemma slot_bound max pos L c off e :
  chain m num_locals L c -> (forall h it, (Some h, it) ∈ L -> 0 <= h <= max) -> (off, Some e) ∈ slots pos L -> 0 <= e <= max.
Proof.
  revert pos. induction L as [|[h it] L IH]; intros pos; cbn [chain slots]; [by intros _ _ ?%not_elem_of_nil|].
  intros [H1 H2] Hmax [Hin|Hin]%elem_of_app; [|by eapply IH; [done|intros; eapply Hmax; by right|]].
  destruct h as [z|].
  - destruct (H1 z eq_refl) as (next & Hok & _). assert (0 <= z <= max) by (eapply Hmax; left).
    destruct (item_slot_bound _ _ _ _ _ _ Hok ltac:(lia) Hin). lia.
  - exfalso. destruct it as [i imm|i|i a d|a ds]; cbn in Hin.
    + by apply not_elem_of_nil in Hin.
    + apply list_elem_of_singleton in Hin. by destruct (bool_decide _).
    + by apply list_elem_of_singleton in Hin.
    + by apply elem_of_lookup_imap_1 in Hin as (k & d & [=] & _).
Qed.

(** A position that is not reached from before may be reached from elsewhere. *)
Lemma chain_weaken L c : chain m num_locals L None -> chain m num_locals L c.
Proof.
  induction L as [|[h it] L IH]; cbn [chain]; [done|]. intros [H1 H2]. split; [|by apply IH]. intros z Hz.
  destruct (H1 z Hz) as (next & Hok & Hn). exists next. split; [done|]. intros z' Hz'. specialize (Hn z' Hz'). by destruct L as [|[]].
Qed.
End chain.

Lemma height_at_weaken L c p e : height_at L None p = Some e -> height_at L c p = Some e.
Proof.
  revert p. induction L as [|[h it] L IH]; intros p; cbn [height_at]; [by destruct (p =? 0)%nat|].
  destruct (p =? 0)%nat; [done|]. destruct (p <? item_size it)%nat; [done|]. apply IH.
Qed.
