(* ===== verification/FizzyExprCode.v ===== *)
(** * Validation certifies code

    The code [parse_expr] emits is certified ([FizzyCode.code_ok]): while a body
    is being read, the code so far is a chain of instructions with known
    heights, except for the targets that an open control frame still has to
    fill in. *)

From stdpp Require Import base list option numbers strings.
From S2P Require Import Prelude Memory FizzyLeb128 FizzyTypes FizzyExpr FizzyExprSafety FizzyCode.

(** ** Open frames *)

Definition liveb (fs : list ControlFrame) : bool := forallb (fun f => negb (cf_unreachable f)) fs.

(** The height at the current position, when it can be reached. *)
Definition current (fs : list ControlFrame) (n : Z) : option Z := if liveb fs then Some n else None.

Definition arity_of (f : ControlFrame) : Z := if is_some_type (cf_type f) then 1 else 0.

(** The immediates a frame fills in: those of branches to its end, and that of
    its own [if] or [else]. *)
Definition own_slot (f : ControlFrame) (off : nat) : Prop :=
  (cf_instruction f = Instr.if_ \/ cf_instruction f = Instr.else_) /\ off = (cf_code_offset f + 1)%nat.
Definition fills (f : ControlFrame) (off : nat) : Prop :=
  cf_instruction f <> Instr.loop /\ off ∈ cf_br_immediate_offsets f \/ own_slot f off.

(** The height that must hold where the frame will let them point. *)
Definition expects (f : ControlFrame) (off : nat) (e : Z) : Prop :=
  (cf_instruction f <> Instr.loop -> off ∈ cf_br_immediate_offsets f -> e = cf_parent_stack_height f + arity_of f) /\
  (own_slot f off -> e = cf_parent_stack_height f + if bool_decide (cf_instruction f = Instr.if_) then 0 else arity_of f).

Fixpoint agrees (fs : list ControlFrame) (off : nat) (e : Z) : Prop :=
  match fs with
  | [] => True
  | f :: fs => (fills f off -> expects f off e /\ liveb fs = true) /\ agrees fs off e
  end.

Definition pending (fs : list ControlFrame) (off : nat) : Prop := Exists (fun f => fills f off) fs.

(** Where loops start, the height is that of their frame. *)
Fixpoint loops (K : nat -> Z -> Prop) (fs : list ControlFrame) : Prop :=
  match fs with
  | [] => True
  | f :: fs =>
      (cf_instruction f = Instr.loop -> liveb fs = true -> K (cf_code_offset f) (cf_parent_stack_height f)) /\ loops K fs
  end.

(** The frame of the function itself is at the bottom. *)
Fixpoint bottom (arity : Z) (fs : list ControlFrame) : Prop :=
  match fs with
  | [] => False
  | [f] => cf_instruction f = Instr.block /\ cf_parent_stack_height f = 0 /\ arity_of f = arity
  | _ :: fs => bottom arity fs
  end.

(** *** Frames that differ in the branches to them, and the top one in whether
    its rest is reachable *)

Definition same_frame (offs : list nat) (f f' : ControlFrame) : Prop :=
  cf_instruction f' = cf_instruction f /\ cf_type f' = cf_type f /\ cf_code_offset f' = cf_code_offset f /\
  cf_parent_stack_height f' = cf_parent_stack_height f /\
  exists ex, cf_br_immediate_offsets f' = cf_br_immediate_offsets f ++ ex /\ ex ⊆ offs.

Definition same_inner (offs : list nat) (f f' : ControlFrame) : Prop :=
  same_frame offs f f' /\ cf_unreachable f' = cf_unreachable f.

Definition extends (offs : list nat) (fs fs' : list ControlFrame) : Prop :=
  match fs, fs' with
  | [], [] => True
  | f :: fs, f' :: fs' => same_frame offs f f' /\ Forall2 (same_inner offs) fs fs'
  | _, _ => False
  end.

Section extends.
Context (offs : list nat).

Lemma inner_live fs fs' : Forall2 (same_inner offs) fs fs' -> liveb fs' = liveb fs.
Proof. induction 1 as [|f f' fs fs' [_ H] _ IH]; [done|]. unfold liveb in *. cbn. by rewrite H, IH. Qed.

Lemma same_own f f' off : same_frame offs f f' -> own_slot f' off <-> own_slot f off.
Proof. intros (H1 & _ & H3 & _). unfold own_slot. by rewrite H1, H3. Qed.

Lemma same_fills f f' off : same_frame offs f f' -> fills f' off -> fills f off \/ off ∈ offs.
Proof.
  intros Hs. pose proof Hs as (H1 & _ & _ & _ & ex & H5 & H6). unfold fills. rewrite (same_own f f') by done. rewrite H1, H5.
  intros [[Hn [H|H]%elem_of_app]|H]; [by left; left|by right; apply H6|by left; right].
Qed.

Lemma fills_same f f' off : same_frame offs f f' -> fills f off -> fills f' off.
Proof.
  intros Hs. pose proof Hs as (H1 & _ & _ & _ & ex & H5 & H6). unfold fills. rewrite (same_own f f') by done. rewrite H1, H5.
  intros [[Hn H]|H]; [left; split; [done|]; apply elem_of_app; by left|by right].
Qed.

Lemma same_expects f f' off e : same_frame offs f f' -> off ∉ offs -> expects f off e -> expects f' off e.
Proof.
  intros Hs Hoff. pose proof Hs as (H1 & H2 & _ & H4 & ex & H5 & H6). unfold expects, arity_of. rewrite (same_own f f') by done.
  rewrite H1, H2, H4, H5. intros [Ha Hb]. split; [|done]. intros Hn [H|H]%elem_of_app; [by apply Ha|by apply H6 in H].
Qed.

Lemma inner_agrees fs fs' off e : Forall2 (same_inner offs) fs fs' -> off ∉ offs -> agrees fs off e -> agrees fs' off e.
Proof.
  intros H Hoff. induction H as [|f f' fs fs' [Hs _] HF IH]; [done|]. cbn [agrees]. intros [Ha Hb]. split; [|by apply IH].
  intros Hf. rewrite (inner_live fs fs') by done. destruct (same_fills _ _ _ Hs Hf) as [Hf'|]; [|done].
  destruct (Ha Hf') as [He Hl]. split; [by eapply same_expects|done].
Qed.

Lemma extends_agrees fs fs' off e : extends offs fs fs' -> off ∉ offs -> agrees fs off e -> agrees fs' off e.
Proof.
  destruct fs as [|f fs], fs' as [|f' fs']; try done. intros [Hs HF] Hoff. cbn [agrees]. intros [Ha Hb]. split; [|by eapply inner_agrees].
  intros Hf. rewrite (inner_live fs fs') by done. destruct (same_fills _ _ _ Hs Hf) as [Hf'|]; [|done].
  destruct (Ha Hf') as [He Hl]. split; [by eapply same_expects|done].
Qed.

Lemma extends_pending fs fs' off : extends offs fs fs' -> pending fs off -> pending fs' off.
Proof.
  unfold pending. destruct fs as [|f fs], fs' as [|f' fs']; try done. intros [Hs HF] [H|H]%Exists_cons; apply Exists_cons.
  - left. by eapply fills_same.
  - right. induction HF as [|g g' fs fs' [Hg _] HF IH]; [by inversion H|]. apply Exists_cons in H as [H|H]; apply Exists_cons;
    [left; by eapply fills_same|right; by apply IH].
Qed.

Lemma extends_fills fs fs' f' off : extends offs fs fs' -> f' ∈ fs' -> fills f' off -> off ∈ offs \/ exists f, f ∈ fs /\ fills f off.
Proof.
  destruct fs as [|f fs], fs' as [|g fs']; try done; [by intros _ ?%not_elem_of_nil|]. intros [Hs HF] [->|Hin]%elem_of_cons Hf.
  - destruct (same_fills _ _ _ Hs Hf) as [H|H]; [right; exists f; split; [left|done]|by left].
  - apply list_elem_of_lookup in Hin as [i Hi]. destruct (Forall2_lookup_r _ _ _ _ _ HF Hi) as (g' & Hg' & Hs' & _).
    destruct (same_fills _ _ _ Hs' Hf) as [H|H]; [right; exists g'; split; [right; by eapply list_elem_of_lookup_2|done]|by left].
Qed.

Lemma inner_loops (K K' : nat -> Z -> Prop) fs fs' :
  Forall2 (same_inner offs) fs fs' -> (forall p h, K p h -> K' p h) -> loops K fs -> loops K' fs'.
Proof.
  intros H HK. induction H as [|f f' fs fs' [(H1 & _ & H3 & H4 & _) _] HF IH]; [done|]. cbn [loops]. intros [Ha Hb]. split; [|by apply IH].
  rewrite H1, H3, H4, (inner_live fs fs') by done. auto.
Qed.

Lemma extends_loops (K K' : nat -> Z -> Prop) fs fs' :
  extends offs fs fs' -> (forall p h, K p h -> K' p h) -> loops K fs -> loops K' fs'.
Proof.
  destruct fs as [|f fs], fs' as [|f' fs']; try done. intros [(H1 & _ & H3 & H4 & _) HF] HK. cbn [loops]. intros [Ha Hb].
  split; [|by eapply inner_loops]. rewrite H1, H3, H4, (inner_live fs fs') by done. auto.
Qed.

Lemma extends_bottom arity fs fs' : extends offs fs fs' -> bottom arity fs -> bottom arity fs'.
Proof.
  assert (forall f f', same_frame offs f f' -> bottom arity [f] -> bottom arity [f']) as Hsame.
  { intros f f' (H1 & H2 & _ & H4 & _). cbn. unfold arity_of. by rewrite H1, H2, H4. }
  destruct fs as [|f fs], fs' as [|f' fs']; try done. intros [Hs HF]. revert f f' Hs.
  induction HF as [|g g' fs fs' [Hg _] HF IH]; intros f f' Hs; [by apply Hsame|]. exact (IH g g' Hg).
Qed.

Lemma same_frame_refl f : same_frame offs f f.
Proof. repeat (split; [done|]). exists []. rewrite app_nil_r. split; [done|]. by intros ? ?%not_elem_of_nil. Qed.

Lemma same_inner_refl fs : Forall2 (same_inner offs) fs fs.
Proof. induction fs; constructor; [split; [apply same_frame_refl|done]|done]. Qed.

Lemma extends_refl fs : extends offs fs fs.
Proof. destruct fs; [done|]. split; [apply same_frame_refl|apply same_inner_refl]. Qed.

Lemma same_frame_trans f g h : same_frame offs f g -> same_frame offs g h -> same_frame offs f h.
Proof.
  intros (H1 & H2 & H3 & H4 & ex & H5 & H6) (G1 & G2 & G3 & G4 & ex' & G5 & G6). repeat (split; [congruence|]).
  exists (ex ++ ex'). rewrite G5, H5, app_assoc. split; [done|]. intros o [H|H]%elem_of_app; auto.
Qed.

Lemma extends_trans fs fs' fs'' : extends offs fs fs' -> extends offs fs' fs'' -> extends offs fs fs''.
Proof.
  destruct fs as [|f fs], fs' as [|f' fs'], fs'' as [|f'' fs'']; try done. intros [H1 H2] [H3 H4]. split; [by eapply same_frame_trans|].
  eapply Forall2_trans; [|exact H2|exact H4]. intros a b c [Ha Hb] [Hc Hd]. split; [by eapply same_frame_trans|congruence].
Qed.

Lemma extends_mark f fs : extends offs (f :: fs) (frame_unreachable f :: fs).
Proof. split; [|apply same_inner_refl]. repeat (split; [done|]). exists []. rewrite app_nil_r. split; [done|]. by intros ? ?%not_elem_of_nil. Qed.

Lemma same_frame_add f off : off ∈ offs -> same_frame offs f (frame_add_branch off f).
Proof. intros H. repeat (split; [done|]). exists [off]. split; [done|]. by intros o ->%list_elem_of_singleton. Qed.

Lemma inner_add fs k off : off ∈ offs -> Forall2 (same_inner offs) fs (alter (frame_add_branch off) k fs).
Proof.
  intros H. revert k. induction fs as [|f fs IH]; intros k; [constructor|]. destruct k as [|k]; cbn.
  - constructor; [split; [by apply same_frame_add|done]|apply same_inner_refl].
  - constructor; [split; [apply same_frame_refl|done]|apply IH].
Qed.

Lemma extends_add fs k off : off ∈ offs -> extends offs fs (alter (frame_add_branch off) k fs).
Proof.
  intros H. destruct fs as [|f fs]; [done|]. destruct k as [|k]; cbn; (split; [|by first [apply same_inner_refl|apply inner_add]]);
    [by apply same_frame_add|apply same_frame_refl].
Qed.
End extends.

(** A branch to frame [k]: the new immediate is one that the frame fills in. *)
Lemma agrees_new fs k f off e :
  ~ pending fs off -> fs !! k = Some f -> liveb (drop (S k) fs) = true ->
  (cf_instruction f <> Instr.loop -> e = cf_parent_stack_height f + arity_of f) ->
  agrees (alter (frame_add_branch off) k fs) off e.
Proof.
  revert k. induction fs as [|g fs IH]; intros k Hp Hk Hl He; [done|]. unfold pending in Hp. rewrite Exists_cons in Hp.
  destruct k as [|k]; cbn in Hk, Hl |- *.
  - injection Hk as ->. split.
    + intros _. split; [|by rewrite drop_0 in Hl]. split; [intros Hn _; cbn; by apply He|]. intros Ho. exfalso. apply Hp. left. by right.
    + assert (~ pending fs off) as Hp' by (intros H; apply Hp; by right). clear -Hp'. induction fs as [|g fs IH]; [done|].
      unfold pending in *. rewrite Exists_cons in Hp'. split; [intros H; exfalso; apply Hp'; by left|apply IH; intros H; apply Hp'; by right].
  - split; [intros H; exfalso; apply Hp; by left|]. apply IH; [intros H; apply Hp; by right|done|done|done].
Qed.

Lemma pending_new fs k f off : fs !! k = Some f -> cf_instruction f <> Instr.loop -> pending (alter (frame_add_branch off) k fs) off.
Proof.
  intros Hk Hn. unfold pending. apply Exists_exists. exists (frame_add_branch off f). split.
  - apply list_elem_of_lookup. exists k. by rewrite list_lookup_alter_eq, Hk.
  - left. split; [done|]. apply elem_of_app. right. by apply list_elem_of_singleton.
Qed.

(** What a frame fills in, as a list. *)
Definition is_conditional (f : ControlFrame) : bool :=
  bool_decide (cf_instruction f = Instr.if_) || bool_decide (cf_instruction f = Instr.else_).
Definition filled (f : ControlFrame) : list nat :=
  if bool_decide (cf_instruction f = Instr.loop) then []
  else (if is_conditional f then [(cf_code_offset f + 1)%nat] else []) ++ cf_br_immediate_offsets f.

Lemma conditional_spec f : is_conditional f = true <-> cf_instruction f = Instr.if_ \/ cf_instruction f = Instr.else_.
Proof. unfold is_conditional. by rewrite orb_true_iff, !bool_decide_eq_true. Qed.

Lemma fills_filled f off : fills f off <-> off ∈ filled f.
Proof.
  unfold fills, filled, own_slot. rewrite <- conditional_spec. destruct (bool_decide_reflect (cf_instruction f = Instr.loop)) as [Hl|Hl].
  - split; [|by intros ?%not_elem_of_nil]. intros [[? _]|[H%conditional_spec _]]; [done|]. rewrite Hl in H. by destruct H.
  - rewrite elem_of_app. destruct (is_conditional f).
    + rewrite list_elem_of_singleton. naive_solver.
    + rewrite elem_of_nil. naive_solver.
Qed.

Definition fill (offs : list nat) (v : Z) (T : targets) : targets := fun o => if bool_decide (o ∈ offs) then v else T o.

Lemma enc_fill T L offs v :
  (forall o, o ∈ offs -> o ∈ (slots 0 L).*1) ->
  enc (fill offs v T) 0 L = foldl (fun c o => overwrite o v c) (enc T 0 L) offs.
Proof.
  revert T. induction offs as [|o offs IH]; intros T Ho; cbn [foldl]; [by apply enc_ext|].
  assert (o ∈ (slots 0 L).*1) as ([o' e] & -> & Hin)%list_elem_of_fmap by (apply Ho; left). cbn [fst] in *.
  pose proof (enc_retarget T 0 L o' e v Hin) as Hr. rewrite Nat.sub_0_r in Hr. rewrite <- Hr. rewrite <- IH by (intros; apply Ho; by right).
  apply enc_ext. intros o _. unfold fill, retarget. destruct (bool_decide_reflect (o ∈ offs)) as [H|H].
  - rewrite bool_decide_true; [done|by right].
  - destruct (o =? o')%nat eqn:E.
    + apply Nat.eqb_eq in E as ->. rewrite bool_decide_true; [done|left].
    + apply Nat.eqb_neq in E. rewrite bool_decide_false; [done|]. by intros [?|?]%elem_of_cons.
Qed.

(** ** Several branches at once *)

Definition add_branches (bs : list (nat * nat)) (fs : list ControlFrame) : list ControlFrame :=
  foldl (fun fs b => alter (frame_add_branch b.1) b.2 fs) fs bs.

Lemma add_branches_app bs bs' fs : add_branches (bs ++ bs') fs = add_branches bs' (add_branches bs fs).
Proof. apply foldl_app. Qed.

Lemma extends_mono offs offs' fs fs' : offs ⊆ offs' -> extends offs fs fs' -> extends offs' fs fs'.
Proof.
  intros Hsub. assert (forall f f', same_frame offs f f' -> same_frame offs' f f') as Hs.
  { intros f f' (H1 & H2 & H3 & H4 & ex & H5 & H6). repeat (split; [done|]). exists ex. split; [done|]. by etrans. }
  destruct fs as [|f fs], fs' as [|f' fs']; try done. intros [H1 H2]. split; [by apply Hs|].
  eapply Forall2_impl; [exact H2|]. intros g g' [Hg1 Hg2]. split; [by apply Hs|done].
Qed.

Lemma extends_branches bs fs : extends bs.*1 fs (add_branches bs fs).
Proof.
  revert fs. induction bs as [|[off k] bs IH]; intros fs; [apply extends_refl|]. cbn [add_branches foldl fmap list_fmap fst snd].
  eapply extends_trans; [apply (extends_add _ fs k off); left|]. eapply extends_mono; [|apply IH]. intros o Ho. by right.
Qed.

Lemma live_add off k fs : liveb (alter (frame_add_branch off) k fs) = liveb fs.
Proof. revert k. induction fs as [|f fs IH]; intros [|k]; [done|done|done|]. unfold liveb in *. cbn. f_equal. apply IH. Qed.

Lemma live_branches bs fs : liveb (add_branches bs fs) = liveb fs.
Proof. revert fs. induction bs as [|b bs IH]; intros fs; [done|]. cbn [add_branches foldl]. etrans; [apply IH|apply live_add]. Qed.

Lemma live_drop k fs : liveb fs = true -> liveb (drop k fs) = true.
Proof.
  revert k. induction fs as [|f fs IH]; intros [|k]; try done. cbn [drop]. unfold liveb in *. cbn. intros [_ H]%andb_true_iff. by apply IH.
Qed.

Lemma extends_lookup offs fs fs' k f : extends offs fs fs' -> fs !! k = Some f -> exists f', fs' !! k = Some f' /\ same_frame offs f f'.
Proof.
  destruct fs as [|g fs], fs' as [|g' fs']; try done. intros [Hs HF]. destruct k as [|k]; cbn.
  - intros [= <-]. by exists g'.
  - intros Hk. destruct (Forall2_lookup_l _ _ _ _ _ HF Hk) as (f' & Hk' & Hf & _). by exists f'.
Qed.

Lemma branch_arity_of f : cf_instruction f <> Instr.loop -> get_branch_arity f = arity_of f.
Proof. intros H. unfold get_branch_arity, get_branch_frame_type, arity_of. by rewrite bool_decide_false. Qed.

Lemma loop_arity f : cf_instruction f = Instr.loop -> get_branch_arity f = 0.
Proof. intros H. unfold get_branch_arity, get_branch_frame_type. by rewrite bool_decide_true. Qed.

Lemma loops_lookup K fs k f : loops K fs -> fs !! k = Some f -> cf_instruction f = Instr.loop -> liveb fs = true -> K (cf_code_offset f) (cf_parent_stack_height f).
Proof.
  revert k. induction fs as [|g fs IH]; intros k; [done|]. cbn [loops]. intros [H1 H2] Hk Hi Hl.
  assert (liveb fs = true) as Hl' by (unfold liveb in *; cbn in Hl; by apply andb_true_iff in Hl as [_ Hl]).
  destruct k as [|k]; [injection Hk as ->; by apply H1|]. by eapply IH.
Qed.

(** Each new immediate is filled in by the frame it branches to. *)
Lemma branches_new bs fs off k f e :
  (off, k) ∈ bs -> NoDup bs.*1 -> (forall g, g ∈ fs -> ~ fills g off) -> fs !! k = Some f -> liveb fs = true ->
  e = cf_parent_stack_height f + get_branch_arity f ->
  agrees (add_branches bs fs) off e /\ (cf_instruction f <> Instr.loop -> pending (add_branches bs fs) off).
Proof.
  intros (bs1 & bs2 & ->)%list_elem_of_split Hnd Hfresh Hk Hl He. rewrite fmap_app, fmap_cons in Hnd.
  apply NoDup_app in Hnd as (Hnd1 & Hnd2 & Hnd3). apply NoDup_cons in Hnd3 as [Hnd3 _].
  assert (off ∉ bs1.*1) as Hn1 by (intros Hin; by eapply Hnd2; [exact Hin|left]).
  rewrite add_branches_app. set (fs1 := add_branches bs1 fs). cbn [add_branches foldl fst snd]. fold (add_branches bs2).
  pose proof (extends_branches bs1 fs) as He1. fold fs1 in He1.
  destruct (extends_lookup _ _ _ _ _ He1 Hk) as (f1 & Hk1 & H1 & H2 & _ & H4 & _).
  assert (~ pending fs1 off) as Hp.
  { intros (g & Hg & Hfill)%Exists_exists. destruct (extends_fills _ _ _ _ _ He1 Hg Hfill) as [H|(g' & Hg' & H)]; [done|by eapply Hfresh]. }
  set (fs2 := alter (frame_add_branch off) k fs1). assert (extends bs2.*1 fs2 (add_branches bs2 fs2)) as He2 by apply extends_branches. split.
  - eapply extends_agrees; [exact He2|done|]. eapply agrees_new; [done|exact Hk1|apply live_drop; unfold fs1; by rewrite live_branches|].
    intros Hn. rewrite H4. unfold arity_of. rewrite H2. fold (arity_of f). rewrite <- branch_arity_of; [done|congruence].
  - intros Hn. eapply extends_pending; [exact He2|]. eapply pending_new; [exact Hk1|congruence].
Qed.

Section good.
Context (m : Module_) (num_locals arity : Z).

(** Every target is known, waits for a frame, or is one of [X]. *)
Record good (X : list nat) (T : targets) (L : list (option Z * item)) (fs : list ControlFrame) (c : option Z) : Prop := {
  g_chain : chain m num_locals L c;
  g_slots : forall off e, (off, Some e) ∈ slots 0 L ->
    agrees fs off e /\ (off ∈ X \/ pending fs off \/ 0 <= T off /\ height_at L c (Z.to_nat (T off)) = Some e);
  g_fills : forall f off, f ∈ fs -> fills f off -> off ∈ (slots 0 L).*1;
  g_loops : loops (fun p h => height_at L c p = Some h) fs;
  g_entry : height_at L c 0 = Some 0;
  g_bottom : bottom arity fs
}.

Lemma slot_below L o : o ∈ (slots 0 L).*1 -> (o < size L)%nat.
Proof. intros ([o' e] & -> & H%slots_range)%list_elem_of_fmap. cbn. lia. Qed.

(** The next instruction, with branches to the open frames. *)
Lemma good_snoc X offs T T' L fs fs' c it c' :
  good [] T L fs c -> extends offs fs fs' ->
  (forall o, o ∈ offs -> o ∈ (slots_of (size L) c it).*1) ->
  (forall o, (o < size L)%nat -> T' o = T o) ->
  (forall z, c = Some z -> exists next, item_ok m num_locals z it next /\ forall z', next = Some z' -> c' = Some z') ->
  (forall off e, (off, Some e) ∈ slots_of (size L) c it -> agrees fs' off e /\
     (off ∈ X \/ pending fs' off \/ 0 <= T' off /\ height_at (L ++ [(c, it)]) c' (Z.to_nat (T' off)) = Some e)) ->
  good X T' (L ++ [(c, it)]) fs' c'.
Proof.
  intros [H1 H2 H3 H4 H5 H6] He Hoffs HT Hit Hnew.
  assert (forall o, o ∈ (slots 0 L).*1 -> o ∉ offs) as Hfresh.
  { intros o Ho%slot_below Hin%Hoffs. apply list_elem_of_fmap in Hin as ([o' e] & -> & Hin%slots_of_range). cbn in Ho. lia. }
  assert (slots 0 (L ++ [(c, it)]) = slots 0 L ++ slots_of (size L) c it) as Hslots.
  { rewrite slots_app. cbn [slots Nat.add]. by rewrite app_nil_r. }
  constructor.
  - by apply chain_snoc.
  - intros off e. rewrite Hslots. intros [Hin|Hin]%elem_of_app; [|by apply Hnew].
    assert (off ∈ (slots 0 L).*1) as Hin' by (apply list_elem_of_fmap; by exists (off, Some e)).
    destruct (H2 off e Hin) as [Ha Hb]. split; [by eapply extends_agrees; [|by apply Hfresh|]|]. destruct Hb as [Hb|[Hb|[Hb1 Hb2]]].
    + by apply not_elem_of_nil in Hb.
    + right. left. by eapply extends_pending.
    + right. right. rewrite HT by (by apply slot_below). split; [done|]. by apply height_at_snoc.
  - intros f off Hf Hfill. rewrite Hslots, fmap_app. apply elem_of_app. destruct (extends_fills _ _ _ _ _ He Hf Hfill) as [H|(g & Hg & H)];
      [right; by apply Hoffs|left; by eapply H3].
  - eapply extends_loops; [exact He| |exact H4]. intros p h. apply height_at_snoc.
  - by apply height_at_snoc.
  - by eapply extends_bottom.
Qed.

(** An instruction with branches to open frames. *)
Lemma good_branches T T' L fs fs' c it c' bs :
  good [] T L fs c -> extends [] (add_branches bs fs) fs' ->
  NoDup bs.*1 -> bs.*1 = (slots_of (size L) c it).*1 ->
  (forall o, (o < size L)%nat -> T' o = T o) ->
  (forall off k, (off, k) ∈ bs -> exists g, fs !! k = Some g /\ T' off = Z.of_nat (cf_code_offset g)) ->
  (forall off k g e, (off, k) ∈ bs -> (off, Some e) ∈ slots_of (size L) c it -> fs !! k = Some g ->
     liveb fs = true /\ e = cf_parent_stack_height g + get_branch_arity g) ->
  (forall z, c = Some z -> exists next, item_ok m num_locals z it next /\ forall z', next = Some z' -> c' = Some z') ->
  good [] T' (L ++ [(c, it)]) fs' c'.
Proof.
  intros Hg He Hnd Hbs HT Htarget Hslot Hit. eapply (good_snoc _ bs.*1); [exact Hg| |by rewrite Hbs|done|done|].
  { eapply extends_trans; [apply extends_branches|]. eapply extends_mono; [|exact He]. by intros o ?%not_elem_of_nil. }
  intros off e Hin. assert (off ∈ bs.*1) as ([off' k] & Hoff & Hin')%list_elem_of_fmap by (rewrite Hbs; apply list_elem_of_fmap; by exists (off, Some e)).
  cbn in Hoff. subst off'. destruct (Htarget off k Hin') as (g & Hk & HT'). destruct (Hslot off k g e Hin' Hin Hk) as [Hl ->].
  assert (forall f, f ∈ fs -> ~ fills f off) as Hfresh.
  { intros f Hf Hfill. pose proof (slot_below _ _ (g_fills _ _ _ _ _ Hg f off Hf Hfill)). apply slots_of_range in Hin. lia. }
  destruct (branches_new bs fs off k g _ Hin' Hnd Hfresh Hk Hl eq_refl) as [Ha Hp].
  split; [eapply extends_agrees; [exact He|by apply not_elem_of_nil|exact Ha]|]. right.
  destruct (decide (cf_instruction g = Instr.loop)) as [Hi|Hi].
  - right. rewrite HT', Nat2Z.id. split; [lia|]. rewrite loop_arity, Z.add_0_r by done. apply height_at_snoc.
    by eapply (loops_lookup _ _ _ _ (g_loops _ _ _ _ _ Hg)).
  - left. eapply extends_pending; [exact He|]. by apply Hp.
Qed.

(** An instruction without targets. *)
Lemma good_plain T L fs fs' c it c' :
  good [] T L fs c -> extends [] fs fs' -> slots_of (size L) c it = [] ->
  (forall z, c = Some z -> exists next, item_ok m num_locals z it next /\ forall z', next = Some z' -> c' = Some z') ->
  good [] T (L ++ [(c, it)]) fs' c'.
Proof.
  intros Hg He Hs Hit. eapply good_snoc; [exact Hg|exact He| |done|done|].
  - by intros o ?%not_elem_of_nil.
  - rewrite Hs. by intros off e ?%not_elem_of_nil.
Qed.

(** A frame is opened. *)
Lemma good_push X T L fs c f :
  good X T L fs c -> cf_br_immediate_offsets f = [] ->
  (forall o, own_slot f o -> o ∈ (slots 0 L).*1) ->
  (forall o e, own_slot f o -> (o, Some e) ∈ slots 0 L -> expects f o e /\ liveb fs = true) ->
  (forall o, o ∈ X -> own_slot f o) ->
  (cf_instruction f = Instr.loop -> liveb fs = true -> height_at L c (cf_code_offset f) = Some (cf_parent_stack_height f)) ->
  good [] T L (f :: fs) c.
Proof.
  intros [H1 H2 H3 H4 H5 H6] Hb Hown Hexp HX Hloop. 
  assert (forall o, fills f o -> own_slot f o) as Hf by (intros o [[_ H]|H]; [rewrite Hb in H; by apply not_elem_of_nil in H|done]).
  constructor; [done| | |by split|done|by destruct fs].
  - intros off e Hin. destruct (H2 off e Hin) as [Ha Hd]. split.
    + split; [|done]. intros Hfill. by apply Hexp; [apply Hf|].
    + right. destruct Hd as [Hd|[Hd|Hd]]; [left; apply Exists_cons; left; right; by apply HX|left; apply Exists_cons; by right|by right].
  - intros g off [->|Hg]%elem_of_cons Hfill; [by apply Hown, Hf|by eapply H3].
Qed.

(** A frame is closed: what it fills in points to [v], where the height is what
    it expects. *)
Lemma good_close T L f fs c it c' v :
  good [] T L (f :: fs) c -> fs <> [] ->
  slots_of (size L) c it = [] ->
  (forall z, c = Some z -> exists next, item_ok m num_locals z it next /\ forall z', next = Some z' -> c' = Some z') ->
  0 <= v -> (forall off e, fills f off -> expects f off e -> liveb fs = true -> height_at (L ++ [(c, it)]) c' (Z.to_nat v) = Some e) ->
  good [] (fill (filled f) v T) (L ++ [(c, it)]) fs c'.
Proof.
  intros [H1 H2 H3 H4 H5 H6] Hne Hs Hit Hv Hv2.
  assert (slots 0 (L ++ [(c, it)]) = slots 0 L) as Hslots by (rewrite slots_app; cbn [slots Nat.add]; by rewrite Hs, !app_nil_r).
  constructor; [by apply chain_snoc| | | |by apply height_at_snoc|by destruct fs].
  - intros off e. rewrite Hslots. intros Hin. destruct (H2 off e Hin) as [[Ha Ha'] Hb]. split; [done|]. right. unfold fill.
    destruct (bool_decide_reflect (off ∈ filled f)) as [Hf|Hf].
    + right. split; [done|]. apply fills_filled in Hf. destruct (Ha Hf) as [He Hl]. by eapply Hv2.
    + rewrite <- fills_filled in Hf. destruct Hb as [Hb|[Hb|[Hb1 Hb2]]]; [by apply not_elem_of_nil in Hb| |right; split; [done|by apply height_at_snoc]].
      left. apply Exists_cons in Hb as [Hb|Hb]; done.
  - intros g off Hg Hfill. rewrite Hslots. eapply H3; [by right|done].
  - destruct H4 as [_ H4]. eapply (extends_loops []); [apply extends_refl| |exact H4]. intros p h. apply height_at_snoc.
Qed.

(** The second part of a conditional begins: the [if] points to it, and the
    [else] waits for the end, as do the branches. *)
Lemma good_else T L f fs c :
  good [] T L (f :: fs) c -> cf_instruction f = Instr.if_ ->
  (forall z, c = Some z -> z = cf_parent_stack_height f + arity_of f /\ liveb fs = true) ->
  good [] (retarget (cf_code_offset f + 1) (Z.of_nat (size L + 5)) (retarget (size L + 1) 0 T)) (L ++ [(c, Jump Instr.else_)])
    (MkFrame Instr.else_ (cf_type f) (size L) (cf_parent_stack_height f) false (cf_br_immediate_offsets f) :: fs)
    (current fs (cf_parent_stack_height f)).
Proof.
  intros [H1 H2 H3 [_ H4] H5 H6] Hi Hc. set (f' := MkFrame _ _ _ _ _ _). set (c' := current _ _). set (own := (cf_code_offset f + 1)%nat).
  assert (own_slot f own) as Hown by (split; [by left|done]).
  assert (own < size L)%nat as Hlt by (apply slot_below; eapply H3; [left|by right]).
  assert (slots 0 (L ++ [(c, Jump Instr.else_)]) = slots 0 L ++ [((size L + 1)%nat, c)]) as Hslots.
  { rewrite slots_app. cbn [slots Nat.add slots_of]. rewrite bool_decide_false by done. done. }
  assert (forall o, (o < size L)%nat -> fills f' o -> o ∈ cf_br_immediate_offsets f) as Hf' by (intros o Ho [[_ H]|[_ ->]]; [done|cbn in Ho; lia]).
  assert (forall g o, g ∈ fs -> fills g o -> (o < size L)%nat) as Hbelow by (intros g o Hg Hfill; apply slot_below; eapply H3; [by right|done]).
  constructor.
  - apply chain_snoc; [done|]. intros z Hz. exists None. split; [by right|done].
  - intros off e. rewrite Hslots. intros [Hin|[= -> <-]%list_elem_of_singleton]%elem_of_app.
    + destruct (H2 off e Hin) as [[Ha Ha'] Hb]. assert (off < size L)%nat as Ho by (apply slots_range in Hin; lia). split.
      * split; [|done]. intros Hfill%Hf'; [|done]. destruct Ha as [[He _] Hl]; [left; by rewrite Hi|]. rewrite Hi in He. split; [|done].
        split; [intros _ _; by apply He|]. intros [_ ->]. cbn in Ho. lia.
      * right. destruct (decide (off = own)) as [->|Hne].
        -- right. rewrite retarget_same. destruct (Ha (or_intror Hown)) as [[_ He] Hl]. rewrite Nat2Z.id. split; [lia|].
           specialize (He Hown). rewrite bool_decide_true in He by done. replace (size L + 5)%nat with (size (L ++ [(c, Jump Instr.else_)]))
             by (rewrite size_app; cbn; lia). rewrite height_at_end. unfold c', current. rewrite Hl. f_equal. lia.
        -- rewrite retarget_other, retarget_other by lia. destruct Hb as [Hb|[Hb|[Hb1 Hb2]]];
             [by apply not_elem_of_nil in Hb| |right; split; [done|by apply height_at_snoc]].
           left. apply Exists_cons in Hb as [Hb|Hb]; apply Exists_cons; [left|by right]. destruct Hb as [[_ Hb]|[_ ->]]; [by left|done].
    + assert (forall g, g ∈ fs -> ~ fills g (size L + 1)%nat) as Hno by (intros g Hg Hfill; specialize (Hbelow _ _ Hg Hfill); lia).
      destruct (Hc e eq_refl) as [-> Hl]. split.
      * split.
        -- intros _. split; [|done]. split; [|intros _; done]. cbn. intros _ Hin. exfalso.
           assert ((size L + 1)%nat ∈ (slots 0 L).*1) as Hlt'%slot_below by (eapply H3; [left|left; by rewrite Hi]). lia.
        -- clear -Hno. induction fs as [|g fs IH]; [done|]. split; [intros H; exfalso; by eapply Hno; [left|]|apply IH; intros; apply Hno; by right].
      * right. left. apply Exists_cons. left. right. split; [by right|]. done.
  - intros g off [->|Hg]%elem_of_cons Hfill; rewrite Hslots, fmap_app; apply elem_of_app.
    + destruct Hfill as [[_ Hin]|[_ ->]]; [left|right; cbn; left]. eapply H3; [left|left; split; [by rewrite Hi|done]].
    + left. eapply H3; [by right|done].
  - split; [done|]. eapply (extends_loops []); [apply extends_refl| |exact H4]. intros p h. apply height_at_snoc.
  - by apply height_at_snoc.
  - destruct fs; [|done]. destruct H6 as [H6 _]. congruence.
Qed.

(** The end of the body is reached from before it or by a branch. *)
Lemma good_final T L f c max :
  good [] T L [f] c ->
  (forall z, c = Some z -> z = arity /\ 0 <= z <= max) -> (forall h it, (Some h, it) ∈ L -> 0 <= h <= max) ->
  exists c', let T' := fill (filled f) (Z.of_nat (size L)) T in
    certified m num_locals arity max (enc T' 0 (with_end c' L)) T' L c'.
Proof.
  intros [H1 H2 H3 H4 H5 (Hi & Hp & Ha')] Hc Hmax. assert (cf_parent_stack_height f + arity_of f = arity) as Ha by lia.
  set (to_end := Exists (fun s => is_Some s.2 /\ fills f s.1) (slots 0 L)).
  assert (exists c', (c = Some arity \/ to_end -> c' = Some arity) /\ (forall z, c' = Some z -> z = arity /\ 0 <= z <= max) /\
    (forall p e, height_at L c p = Some e -> height_at L c' p = Some e) /\ chain m num_locals L c') as (c' & Hc1 & Hc2 & Hh & Hch).
  { destruct c as [z|]; [exists (Some z); split; [intros _; f_equal; by apply Hc|done]|].
    assert (Decision to_end) as [Ht|Ht].
    { unfold to_end. apply Exists_dec. intros [o [e|]]; cbn; [|right; by intros [[? [=]] _]]. destruct (decide (o ∈ filled f)) as [H|H];
        rewrite <- fills_filled in H; [left; split; [by eexists|done]|right; by intros [_ ?]]. }
    - exists (Some arity). split; [done|]. split; [|split; [intros p e; apply height_at_weaken|by apply chain_weaken]].
      intros z [= <-]. split; [done|]. apply Exists_exists in Ht as ([o e] & Hin & [e' He'] & Hfill). cbn in He', Hfill. subst e.
      destruct (H2 o e' Hin) as [[Ha1 _] _]. destruct (Ha1 Hfill) as [[He _] _].
      destruct Hfill as [[Hn Hf]|[[Hf|Hf] _]]; [|congruence|congruence]. rewrite <- Ha, <- (He Hn Hf). by eapply slot_bound.
    - exists None. split; [by intros [?|?]|done]. }
  exists c'. cbv zeta. constructor; [done|done|intros z Hz; by apply Hc2| | |by apply Hh].
  - intros h it [Hin|[= <- _]%list_elem_of_singleton]%elem_of_app; [by eapply Hmax|by apply Hc2].
  - intros off e Hin. destruct (H2 off e Hin) as [[Ha1 _] Hb]. unfold fill. destruct (bool_decide_reflect (off ∈ filled f)) as [Hf|Hf].
    + apply fills_filled in Hf. destruct (Ha1 Hf) as [[He _] _]. rewrite Nat2Z.id, height_at_end. split; [lia|].
      rewrite Hc1; [|right; apply Exists_exists; by exists (off, Some e)].
      destruct Hf as [[Hn Hf]|[[Hf|Hf] _]]; [|congruence|congruence]. specialize (He Hn Hf). congruence.
    + rewrite <- fills_filled in Hf. destruct Hb as [Hb|[Hb|[Hb1 Hb2]]]; [by apply not_elem_of_nil in Hb| |split; [done|by apply Hh]].
      apply Exists_cons in Hb as [Hb|Hb]; [done|by inversion Hb].
Qed.
End good.

(** ** What the steps of the parser do to the stacks when they return *)

Definition yields {S A} (p : M S A) (Q : A -> S -> Prop) (s : S) : Prop := forall a s', p s = Ret a s' -> Q a s'.

Section yields.
Context {S : Type}.

Lemma yields_bind {A B} (p : M S A) (k : A -> M S B) Q s :
  yields p (fun a s' => yields (k a) Q s') s -> yields (bind p k) Q s.
Proof. intros H b s' Hb. apply bind_Ret_inv in Hb as (a & s1 & Ha & Hk). exact (H a s1 Ha b s' Hk). Qed.

Lemma yields_seq {A B} (p : M S A) (k : A -> M S B) (P : A -> S -> Prop) Q s :
  yields p P s -> (forall a s', P a s' -> yields (k a) Q s') -> yields (bind p k) Q s.
Proof. intros H Hk. apply yields_bind. intros a s' Ha. by apply Hk, H. Qed.

Lemma yields_mono {A} (p : M S A) (P Q : A -> S -> Prop) s : yields p P s -> (forall a s', P a s' -> Q a s') -> yields p Q s.
Proof. intros H HPQ a s' Ha. by apply HPQ, H. Qed.

Lemma yields_assoc {A B C} (p : M S A) (k : A -> M S B) (h : B -> M S C) Q s :
  yields (bind (bind p k) h) Q s -> yields (bind p (fun a => bind (k a) h)) Q s.
Proof. unfold yields, bind. by destruct (p s). Qed.

Lemma yields_gets {A B} (f : S -> A) (k : A -> M S B) Q s : yields (k (f s)) Q s -> yields (bind (gets f) k) Q s.
Proof. done. Qed.

Lemma yields_modify {B} (f : S -> S) (k : unit -> M S B) Q s : yields (k tt) Q (f s) -> yields (bind (modify f) k) Q s.
Proof. done. Qed.

Lemma yields_ret {A} (a : A) (Q : A -> S -> Prop) s : Q a s -> yields (ret a) Q s.
Proof. intros H ? ? [= <- <-]. done. Qed.

Lemma yields_throw {A} e (Q : A -> S -> Prop) s : yields (throw e) Q s.
Proof. done. Qed.

Lemma yields_fail {A} e (Q : A -> S -> Prop) s : yields (fail e) Q s.
Proof. done. Qed.

Lemma yields_assert {B} b (k : unit -> M S B) Q s : (b = true -> yields (k tt) Q s) -> yields (bind (assert_that b) k) Q s.
Proof. destruct b; [intros H; by apply H|done]. Qed.

Lemma yields_elem {A B} (l : list A) i (k : A -> M S B) Q s :
  (forall a, at_idx l i = Some a -> yields (k a) Q s) -> yields (bind (elem l i) k) Q s.
Proof. intros H. unfold elem. destruct (at_idx l i); [by apply H|done]. Qed.
End yields.

Lemma yields_input {A B} (p : parser A) (k : A -> E B) Q (s : expr_state) :
  (forall a rest, p (x_input s) = Ret a rest -> yields (k a) Q (set_input rest s)) -> yields (bind (on_input p) k) Q s.
Proof.
  intros H. apply yields_bind. intros a s' Ha. unfold on_input, zoom in Ha. destruct (p (x_input s)) eqn:E; simplify_eq. by apply H.
Qed.

(** Only the operands change. *)
Definition operands_to (P : list OperandStackType -> Prop) (s s' : expr_state) : Prop := exists o, s' = set_operands o s /\ P o.

Lemma pop_inputs_yields f l s :
  yields (pop_inputs f l) (fun _ => operands_to (fun o => cf_unreachable f = false -> zlen o = zlen (x_operands s) - zlen l) s) s.
Proof.
  revert s. induction l as [|t l IH]; intros s; cbn [pop_inputs].
  { apply yields_ret. exists (x_operands s). split; [by destruct s|]. rewrite zlen_nil. lia. }
  apply yields_gets. destruct (cf_unreachable f && _) eqn:E.
  { apply yields_ret. exists (x_operands s). split; [by destruct s|]. intros Hf. by rewrite Hf in E. }
  unfold pop_operand. apply yields_bind, yields_gets. destruct (x_operands s) as [|o ops]; [done|]. apply yields_modify, yields_ret.
  destruct (negb _); [done|]. eapply yields_mono; [apply IH|]. intros _ s' (o' & -> & Ho). exists o'. split; [done|].
  intros Hf. rewrite Ho by done. cbn. rewrite !zlen_cons. lia.
Qed.

Lemma push_outputs_yields outs s :
  yields (push_outputs outs) (fun _ => operands_to (fun o => zlen o = zlen (x_operands s) + zlen outs) s) s.
Proof.
  revert s. induction outs as [|t outs IH]; intros s; cbn [push_outputs].
  { apply yields_ret. exists (x_operands s). split; [by destruct s|]. rewrite zlen_nil. lia. }
  apply yields_modify. eapply yields_mono; [apply IH|]. intros _ s' (o' & -> & Ho). exists o'. split; [done|].
  rewrite Ho. cbn. rewrite !zlen_cons. lia.
Qed.

Lemma update_operand_stack_yields f ins outs s :
  yields (update_operand_stack f ins outs) (fun _ => operands_to (fun o => cf_unreachable f = false ->
    cf_parent_stack_height f + zlen ins <= zlen (x_operands s) /\ zlen o = zlen (x_operands s) - zlen ins + zlen outs) s) s.
Proof.
  unfold update_operand_stack. apply yields_gets. destruct (negb _ && _) eqn:E; [done|].
  eapply yields_seq; [apply pop_inputs_yields|]. intros _ s' (o & -> & Ho). eapply yields_mono; [apply push_outputs_yields|].
  intros _ s' (o' & -> & Ho'). exists o'. split; [done|]. intros Hf. rewrite Hf in E. cbn [negb andb] in E. bool_to_prop.
  split; [lia|]. rewrite Ho'. cbn. rewrite Ho by done. unfold zlen. rewrite length_rev. lia.
Qed.

Lemma drop_operand_yields f t s :
  yields (drop_operand f t) (fun _ => operands_to (fun o => cf_unreachable f = false ->
    cf_parent_stack_height f + 1 <= zlen (x_operands s) /\ zlen o = zlen (x_operands s) - 1) s) s.
Proof.
  unfold drop_operand. apply yields_gets. destruct (negb _ && _) eqn:E; [done|]. destruct (_ =? _) eqn:E2.
  - unfold assert_that. destruct (cf_unreachable f) eqn:Hf; [|done]. apply yields_ret. exists (x_operands s). split; [by destruct s|done].
  - unfold pop_operand. apply yields_bind, yields_gets. destruct (x_operands s) as [|o ops]; [done|]. apply yields_modify, yields_ret.
    destruct (negb (type_matches o t)); [done|]. apply yields_ret. exists ops. split; [done|]. intros Hf. rewrite Hf in E.
    cbn [negb andb] in E. bool_to_prop. rewrite zlen_cons in *. lia.
Qed.

Lemma update_branch_stack_yields f g s :
  yields (update_branch_stack f g) (fun _ => operands_to (fun o => cf_unreachable f = false ->
    cf_parent_stack_height f <= zlen o /\ zlen o = zlen (x_operands s) - get_branch_arity g) s) s.
Proof.
  unfold update_branch_stack, get_branch_arity. apply yields_gets, yields_assert. intros H. bool_to_prop.
  destruct (get_branch_frame_type g); cbn [is_some_type].
  - eapply yields_mono; [apply drop_operand_yields|]. intros _ s' (o & -> & Ho). exists o. split; [done|]. intros Hf. destruct (Ho Hf). lia.
  - apply yields_ret. exists (x_operands s). split; [by destruct s|lia].
Qed.

Lemma update_result_stack_yields f s :
  0 <= cf_parent_stack_height f ->
  yields (update_result_stack f) (fun _ => operands_to (fun o => zlen o = cf_parent_stack_height f /\
    (cf_unreachable f = false -> zlen (x_operands s) = cf_parent_stack_height f + arity_of f)) s) s.
Proof.
  intros Hp. unfold update_result_stack, arity_of. apply yields_gets, yields_assert. intros H. bool_to_prop. cbv zeta.
  destruct (_ <? _) eqn:E; [done|]. bool_to_prop. destruct (cf_type f) as [t|]; cbn [is_some_type] in *; intros a s'.
  - intros Hd. pose proof (drop_operand_spec f (Known t) s ltac:(lia)) as Hs. unfold accepts in Hs. rewrite Hd in Hs.
    destruct Hs as (o & -> & Ho). apply drop_operand_yields in Hd as (o' & Ho' & Hd). exists o. split; [done|]. split; [lia|].
    intros Hf. destruct (Hd Hf). lia.
  - intros [= _ <-]. exists (x_operands s). split; [by destruct s|]. split; lia.
Qed.

Lemma store32_yields off v s : yields (store32_at off v) (fun _ s' => s' = set_code (overwrite off v (x_code s)) s) s.
Proof. unfold store32_at. apply yields_gets. destruct (_ <=? _)%nat; [|done]. by intros a s' [= <- <-]. Qed.

Lemma fill_branches_yields offs v s :
  yields (fill_branches offs v) (fun _ s' => s' = set_code (foldl (fun c o => overwrite o v c) (x_code s) offs) s) s.
Proof.
  revert s. induction offs as [|o offs IH]; intros s; cbn [fill_branches foldl]; [apply yields_ret; by destruct s|].
  eapply yields_seq; [apply store32_yields|]. intros _ s' ->. eapply yields_mono; [apply IH|]. by intros _ s' ->.
Qed.

Lemma mark_yields s f fs :
  x_control s = f :: fs ->
  yields mark_frame_unreachable (fun _ s' => exists o, s' = set_operands o (set_control (frame_unreachable f :: fs) s)) s.
Proof.
  intros Hc. unfold mark_frame_unreachable, top_frame, frame_at. apply yields_bind, yields_gets. rewrite Hc. apply yields_ret.
  unfold update_frame. apply yields_modify. unfold shrink_operands. apply yields_gets, yields_assert. intros _ a s' [= <- <-].
  eexists. rewrite Hc. done.
Qed.

Lemma top_yields {B} (k : ControlFrame -> E B) Q s f fs : x_control s = f :: fs -> yields (k f) Q s -> yields (bind top_frame k) Q s.
Proof. intros Hc H. unfold top_frame, frame_at. apply yields_bind, yields_gets. rewrite Hc. by apply yields_ret. Qed.

Lemma frame_yields {B} i (k : ControlFrame -> E B) Q s :
  (forall f, at_idx (x_control s) i = Some f -> yields (k f) Q s) -> yields (bind (frame_at i) k) Q s.
Proof. intros H. unfold frame_at. apply yields_bind, yields_gets. unfold elem. destruct (at_idx (x_control s) i); [apply yields_ret; by apply H|done]. Qed.

(** ** Handlers *)

(** The sizes of the type table's entries for known instructions. *)
Ltac type_sizes :=
  repeat match goal with
  | |- context [zlen (type_of_opcode (Instr.opcode ?i)).1] =>
      let z := eval vm_compute in (zlen (type_of_opcode (Instr.opcode i)).1) in
      change (zlen (type_of_opcode (Instr.opcode i)).1) with z
  | |- context [zlen (type_of_opcode (Instr.opcode ?i)).2] =>
      let z := eval vm_compute in (zlen (type_of_opcode (Instr.opcode i)).2) in
      change (zlen (type_of_opcode (Instr.opcode i)).2) with z
  end.

Definition total_locals (locals : list Locals) : Z := foldr (fun l n => l_count l + n) 0 locals.

Lemma total_locals_nonneg ls : Forall (fun l => 0 <= l_count l) ls -> 0 <= total_locals ls.
Proof. unfold total_locals. induction 1; cbn; lia. Qed.

Section handlers.
Context (m : Module_) (func_inputs : list ValType) (locals : list Locals) (arity : Z).
Context (Hlocals : Forall (fun l => 0 <= l_count l) locals) (Htotal : total_locals locals < 2 ^ 32).

Let num_locals : Z := zlen func_inputs + total_locals locals.

(** Between two instructions. *)
Definition certifiable (s : expr_state) : Prop :=
  exists T L, x_code s = enc T 0 L /\ good m num_locals arity [] T L (x_control s) (current (x_control s) (zlen (x_operands s))) /\
    forall h it, (Some h, it) ∈ L -> 0 <= h <= x_max s.

(** Within instruction [i], before it is emitted: [n] is the height at its
    start; the operands of the type table are already exchanged. *)
Record at_instr (i : Instr.t) (n : Z) (T : targets) (L : list (option Z * item)) (s : expr_state) : Prop := {
  ai_code : x_code s = enc T 0 L;
  ai_good : good m num_locals arity [] T L (x_control s) (current (x_control s) n);
  ai_max : forall h it, (Some h, it) ∈ L -> 0 <= h <= x_max s;
  ai_height : liveb (x_control s) = true -> 0 <= n <= x_max s;
  ai_ops : liveb (x_control s) = true -> zlen (type_of_opcode (Instr.opcode i)).1 <= n /\
    zlen (x_operands s) = n - zlen (type_of_opcode (Instr.opcode i)).1 + zlen (type_of_opcode (Instr.opcode i)).2;
  ai_frames : frames_ok (zlen (x_operands s)) (length (x_code s)) (x_control s);
  ai_input : bytes_ok (x_input s)
}.

Lemma current_Some fs n z : current fs n = Some z -> liveb fs = true /\ z = n.
Proof. unfold current. destruct (liveb fs); [by intros [= ->]|done]. Qed.

Lemma live_cons f fs : liveb (f :: fs) = true <-> cf_unreachable f = false /\ liveb fs = true.
Proof. unfold liveb. cbn. by rewrite andb_true_iff, negb_true_iff. Qed.

Lemma length_code i n T L s : at_instr i n T L s -> length (x_code s) = size L.
Proof. intros H. by rewrite (ai_code _ _ _ _ _ H), length_enc. Qed.

(** The heights after an instruction is emitted. *)
Lemma max_snoc i n T L s it x :
  at_instr i n T L s -> x = x_max s -> forall h it', (Some h, it') ∈ L ++ [(current (x_control s) n, it)] -> 0 <= h <= x.
Proof.
  intros Hs -> h it' [Hin|[= Hh _]%list_elem_of_singleton]%elem_of_app; [by eapply ai_max|].
  symmetry in Hh. apply current_Some in Hh as [Hl ->]. by apply Hs.
Qed.

Lemma emit_plain i n T L s s' imm takes gives :
  at_instr i n T L s -> plain_ok m num_locals i imm takes gives -> bytes_ok imm -> i <> Instr.unreachable ->
  x_control s' = x_control s -> x_max s' = x_max s -> x_code s' = x_code s ++ Instr.opcode i :: imm ->
  (liveb (x_control s) = true -> zlen (type_of_opcode (Instr.opcode i)).2 + takes <= zlen (x_operands s) /\
    zlen (x_operands s') = zlen (x_operands s) - takes + gives) ->
  certifiable s'.
Proof.
  intros Hs Hp Hok Hi Hc Hm Hcode Hops. exists T, (L ++ [(current (x_control s) n, Plain i imm)]). split; [|split].
  - rewrite Hcode, (ai_code _ _ _ _ _ Hs), enc_app. cbn [enc enc_item]. by rewrite app_nil_r.
  - rewrite Hc. eapply good_plain; [apply Hs|apply extends_refl|done|].
    intros z [Hl ->]%current_Some. destruct (Hops Hl) as [H1 H2], (ai_ops _ _ _ _ _ Hs Hl) as [H3 H4]. eexists. split.
    + exists takes, gives. split; [done|]. split; [done|]. split; [lia|]. rewrite bool_decide_false by done. done.
    + intros z' [= <-]. unfold current. rewrite Hl. f_equal. lia.
  - by eapply max_snoc.
Qed.

(** Instructions that emit their opcode and nothing else. *)
Lemma emit_opcode i n T L s takes gives :
  at_instr i n T L s -> plain_ok m num_locals i [] takes gives -> i <> Instr.unreachable -> takes = 0 -> gives = 0 ->
  yields (emit [Instr.opcode i]) (fun _ => certifiable) s.
Proof.
  intros Hs Hp Hi -> -> a s' [= <- <-]. eapply (emit_plain i n T L s); [done|done|constructor|done|done|done|done|].
  intros Hl. cbn. destruct (ai_ops _ _ _ _ _ Hs Hl). lia.
Qed.

Lemma read_u32 {B} (k : Z -> E B) Q s :
  bytes_ok (x_input s) ->
  (forall v rest, 0 <= v < 2 ^ 32 -> bytes_ok rest -> yields (k v) Q (set_input rest s)) -> yields (bind u32_imm k) Q s.
Proof.
  intros Hok H. unfold u32_imm. apply yields_input. intros v rest Hv. pose proof (reader_suffix _ _ _ (reader_u 32) Hok) as Hr.
  unfold accepts in Hr. rewrite Hv in Hr. destruct Hr as [Hr Hs]. apply H; [done|by eapply suffix_ok].
Qed.

(** The state after reading an immediate. *)
Lemma at_input i n T L s rest : at_instr i n T L s -> bytes_ok rest -> at_instr i n T L (set_input rest s).
Proof. intros [] Hok. by constructor. Qed.

Lemma handle_drop_code n T L s :
  at_instr Instr.drop n T L s -> x_control s <> [] ->
  yields (let* frame := top_frame in drop_operand frame Unknown ;;; emit [Instr.opcode Instr.drop]) (fun _ => certifiable) s.
Proof.
  intros Hs Hne. destruct (x_control s) as [|f fs] eqn:Hc; [done|]. eapply top_yields; [done|].
  pose proof (ai_frames _ _ _ _ _ Hs) as Hf. rewrite Hc in Hf. destruct Hf as (Hf & _).
  eapply yields_seq; [apply drop_operand_yields|]. intros _ s1 (o & -> & Ho) a s' [= <- <-].
  eapply (emit_plain Instr.drop n T L s _ [] 1 0); [done|done|constructor|done|done|done|done|]. rewrite Hc. intros [Hu _]%live_cons.
  destruct (Ho Hu). type_sizes. cbn in *. lia.
Qed.

Lemma handle_select_code n T L s :
  at_instr Instr.select n T L s -> x_control s <> [] -> yields handle_select (fun _ => certifiable) s.
Proof.
  intros Hs Hne. destruct (x_control s) as [|f fs] eqn:Hc; [done|]. unfold handle_select. eapply top_yields; [done|].
  pose proof (ai_frames _ _ _ _ _ Hs) as Hf. rewrite Hc in Hf. destruct Hf as (Hf & _).
  apply yields_gets. destruct (negb _ && _) eqn:E; [done|]. apply yields_bind.
  eapply (yields_mono _ (fun _ s' => s' = s)); [destruct (cf_parent_stack_height f <? zlen (x_operands s)); [unfold elem; destruct (at_idx _ _); [by apply yields_ret|done]|by apply yields_ret]|].
  intros t s1 ->. eapply yields_seq; [apply drop_operand_yields|]. intros _ s1 (o & -> & Ho).
  eapply yields_seq; [apply drop_operand_yields|]. intros _ s2 (o' & -> & Ho'). unfold push_operand. apply yields_modify. intros a s' [= <- <-].
  eapply (emit_plain Instr.select n T L s _ [] 2 1); [done|done|constructor|done|done|done|done|]. rewrite Hc. intros [Hu _]%live_cons.
  destruct (Ho Hu), (Ho' Hu). type_sizes. cbn in *. rewrite zlen_cons. lia.
Qed.

Lemma handle_const_code i n T L s :
  at_instr i n T L s -> i = Instr.i32_const \/ i = Instr.i64_const \/ i = Instr.f32_const \/ i = Instr.f64_const ->
  yields (handle_const i) (fun _ => certifiable) s.
Proof.
  intros Hs Hi. unfold handle_const. apply yields_input. intros v rest _. apply yields_modify. intros a s' [= <- <-].
  set (w := match i with Instr.i32_const | Instr.f32_const => 4%nat | _ => 8%nat end).
  eapply (emit_plain i n T L s _ (le_bytes w v) 0 0); [done| |apply le_bytes_ok|destruct Hi as [-> | [-> | [-> | ->]]]; done|done|done| |].
  - unfold w. destruct Hi as [-> | [-> | [-> | ->]]]; cbn [plain_ok]; by rewrite length_le_bytes.
  - cbn. by rewrite <- app_assoc.
  - intros Hl. destruct (ai_ops _ _ _ _ _ Hs Hl). cbn. lia.
Qed.

Lemma handle_memory_access_code i n T L s :
  at_instr i n T L s -> is_memory_access i = true -> yields (handle_memory_access m i) (fun _ => certifiable) s.
Proof.
  intros Hs Hi. unfold handle_memory_access. apply read_u32; [apply Hs|]. intros al rest _ Hok. destruct (_ <? al); [done|].
  apply read_u32; [done|]. intros off rest' _ _. unfold emit32, emit. apply yields_modify, yields_modify. destruct (negb _) eqn:Hm; [done|]. apply negb_false_iff in Hm.
  intros a s' [= <- <-]. eapply (emit_plain i n T L s _ (le_bytes 4 off) 0 0); [done| |apply le_bytes_ok| |done|done| |].
  - destruct i; try done; cbn [plain_ok is_memory_access]; rewrite ?Hi, length_le_bytes; done.
  - by intros ->.
  - cbn. by rewrite <- app_assoc.
  - intros Hl. destruct (ai_ops _ _ _ _ _ Hs Hl). cbn. lia.
Qed.

Lemma handle_memory_size_code i n T L s :
  at_instr i n T L s -> i = Instr.memory_size \/ i = Instr.memory_grow -> yields (handle_memory_size m i) (fun _ => certifiable) s.
Proof.
  intros Hs Hi. unfold handle_memory_size. apply yields_input. intros b rest _. destruct (negb _); [done|].
  destruct (negb _) eqn:Hm; [done|]. apply negb_false_iff in Hm. intros a s' [= <- <-].
  eapply (emit_plain i n T L s _ [] 0 0); [done| |constructor| |done|done|done|].
  - destruct Hi as [->| ->]; done.
  - by destruct Hi as [->| ->].
  - intros Hl. destruct (ai_ops _ _ _ _ _ Hs Hl). cbn. lia.
Qed.

(** An instruction whose immediate is a 32-bit index. *)
Lemma emit_index i n T L s s' idx takes gives :
  at_instr i n T L s -> plain_ok m num_locals i (le_bytes 4 idx) takes gives -> i <> Instr.unreachable ->
  x_control s' = x_control s -> x_max s' = x_max s -> x_code s' = x_code s ->
  (liveb (x_control s) = true -> zlen (type_of_opcode (Instr.opcode i)).2 + takes <= zlen (x_operands s) /\
    zlen (x_operands s') = zlen (x_operands s) - takes + gives) ->
  yields (emit [Instr.opcode i] ;;; emit32 idx) (fun _ => certifiable) s'.
Proof.
  intros Hs Hp Hi Hc Hm Hcode Hops a s1 [= <- <-].
  eapply (emit_plain i n T L s _ (le_bytes 4 idx) takes gives); [done|done|apply le_bytes_ok|done|done|done| |done].
  cbn. by rewrite Hcode, <- app_assoc.
Qed.

Lemma get_function_type_yields {S} idx (s : S) :
  yields (get_function_type m idx) (fun t s' => s' = s /\ function_type_at m idx = Some t) s.
Proof.
  unfold get_function_type, function_type_at. apply yields_assert. intros _. destruct (idx <? _).
  - unfold elem. destruct (at_idx _ _) eqn:E; [|done]. by apply yields_ret.
  - apply yields_elem. intros t Ht. apply yields_assert. intros _. rewrite Ht. cbn. unfold elem. destruct (at_idx (typesec m) t); [by apply yields_ret|done].
Qed.

Lemma get_global_type_yields {S} idx (s : S) :
  yields (get_global_type m idx) (fun t s' => s' = s /\ global_type_at m idx = Some t) s.
Proof.
  unfold get_global_type, global_type_at. apply yields_assert. intros _. destruct (idx <? _).
  - unfold elem. destruct (at_idx _ _) eqn:E; [|done]. by apply yields_ret.
  - apply yields_elem. intros g ->. by apply yields_ret.
Qed.

Lemma handle_call_code n T L s :
  at_instr Instr.call n T L s -> x_control s <> [] -> yields (handle_call m) (fun _ => certifiable) s.
Proof.
  intros Hs Hne. destruct (x_control s) as [|f fs] eqn:Hc; [done|]. unfold handle_call. apply read_u32; [apply Hs|].
  intros idx rest Hidx _. destruct (_ <=? idx) eqn:E; [done|]. bool_to_prop. eapply yields_seq; [apply get_function_type_yields|].
  intros t s1 [-> Ht]. eapply top_yields; [exact Hc|]. eapply yields_seq; [apply update_operand_stack_yields|]. intros _ s2 (o & -> & Ho).
  eapply (emit_index _ n T L s); [done| |done|done|done|done|].
  - exists idx, t. unfold get_function_count. done.
  - rewrite Hc. intros [Hu _]%live_cons. pose proof (ai_frames _ _ _ _ _ Hs) as Hf. rewrite Hc in Hf. destruct Hf as (Hf & _).
    destruct (Ho Hu) as [Ho1 Ho2]. type_sizes. cbn [set_operands set_input x_operands] in *. lia.
Qed.

Lemma handle_call_indirect_code n T L s :
  at_instr Instr.call_indirect n T L s -> x_control s <> [] -> yields (handle_call_indirect m) (fun _ => certifiable) s.
Proof.
  intros Hs Hne. destruct (x_control s) as [|f fs] eqn:Hc; [done|]. unfold handle_call_indirect. destruct (negb _) eqn:Ht; [done|].
  apply negb_false_iff in Ht. apply read_u32; [apply Hs|]. intros idx rest Hidx Hok. destruct (_ <=? idx) eqn:E; [done|].
  apply yields_elem. intros t Hty. eapply top_yields; [exact Hc|]. eapply yields_seq; [apply update_operand_stack_yields|].
  intros _ s2 (o & -> & Ho). apply yields_input. intros b rest' _. destruct (negb _); [done|].
  eapply (emit_index _ n T L s); [done| |done|done|done|done|].
  - by exists idx, t.
  - rewrite Hc. intros [Hu _]%live_cons. pose proof (ai_frames _ _ _ _ _ Hs) as Hf. rewrite Hc in Hf. destruct Hf as (Hf & _).
    destruct (Ho Hu) as [Ho1 Ho2]. type_sizes. cbn [set_operands set_input x_operands] in *. lia.
Qed.

Lemma find_local_lt ls i k t :
  Forall (fun l => 0 <= l_count l) ls -> 0 <= k -> k + total_locals ls < 2 ^ 64 -> find_local ls i k = Some t -> i < k + total_locals ls.
Proof.
  intros Hls. revert k. induction Hls as [|l ls Hl Hls IH]; intros k Hk Hlt; cbn [find_local total_locals foldr] in *; [done|].
  fold (total_locals ls) in *. pose proof (total_locals_nonneg ls Hls).
  destruct (_ && _) eqn:E; [intros _; bool_to_prop; lia|]. rewrite u64_small by (unfold u64_ok; lia). intros H1%IH; lia.
Qed.

Lemma find_local_type_yields idx s :
  yields (find_local_type func_inputs locals idx) (fun _ s' => s' = s /\ idx < num_locals) s.
Proof.
  unfold find_local_type, num_locals. pose proof (total_locals_nonneg locals Hlocals).
  destruct (idx <? _) eqn:E; bool_to_prop.
  - unfold elem. destruct (at_idx _ _); [|done]. apply yields_ret. split; [done|lia].
  - destruct (find_local _ _ _) eqn:E2; [|done]. apply yields_ret. split; [done|]. apply find_local_lt in E2; [lia|done|lia|lia].
Qed.

Lemma handle_local_code i n T L s :
  at_instr i n T L s -> x_control s <> [] -> i = Instr.local_get \/ i = Instr.local_set \/ i = Instr.local_tee ->
  yields (handle_local func_inputs locals i) (fun _ => certifiable) s.
Proof.
  intros Hs Hne Hi. destruct (x_control s) as [|f fs] eqn:Hc; [done|]. unfold handle_local. apply read_u32; [apply Hs|].
  intros idx rest Hidx _. eapply yields_seq; [apply find_local_type_yields|]. intros t s1 [-> Hlt]. eapply top_yields; [exact Hc|].
  pose proof (ai_frames _ _ _ _ _ Hs) as Hf. rewrite Hc in Hf. destruct Hf as (Hf & _). destruct Hi as [-> | [-> | ->]].
  - rewrite bool_decide_true by done. apply yields_modify. eapply (emit_index _ n T L s _ idx 0 1); [done| |done|done|done|done|].
    + by exists idx.
    + intros _. type_sizes. cbn. rewrite zlen_cons. lia.
  - rewrite (bool_decide_false (_ = Instr.local_get)), bool_decide_true by done. eapply yields_seq; [apply drop_operand_yields|].
    intros _ s2 (o & -> & Ho). eapply (emit_index _ n T L s _ idx 1 0); [done| |done|done|done|done|].
    + by exists idx.
    + rewrite Hc. intros [Hu _]%live_cons. destruct (Ho Hu). type_sizes. cbn in *. lia.
  - rewrite !bool_decide_false by done. apply yields_bind. eapply yields_seq; [apply drop_operand_yields|].
    intros _ s2 (o & -> & Ho) a s3 [= <- <-]. eapply (emit_index _ n T L s _ idx 1 1); [done| |done|done|done|done|].
    + by exists idx.
    + rewrite Hc. intros [Hu _]%live_cons. destruct (Ho Hu). type_sizes. cbn in *. rewrite zlen_cons. lia.
Qed.

Lemma handle_global_code i n T L s :
  at_instr i n T L s -> x_control s <> [] -> i = Instr.global_get \/ i = Instr.global_set ->
  yields (handle_global m i) (fun _ => certifiable) s.
Proof.
  intros Hs Hne Hi. destruct (x_control s) as [|f fs] eqn:Hc; [done|]. unfold handle_global. apply read_u32; [apply Hs|].
  intros idx rest Hidx _. destruct (_ <=? idx) eqn:E; [done|]. bool_to_prop. eapply yields_seq; [apply get_global_type_yields|].
  intros t s1 [-> Ht]. eapply top_yields; [exact Hc|].
  pose proof (ai_frames _ _ _ _ _ Hs) as Hf. rewrite Hc in Hf. destruct Hf as (Hf & _). destruct Hi as [-> | ->].
  - rewrite bool_decide_true by done. apply yields_modify. eapply (emit_index _ n T L s _ idx 0 1); [done| |done|done|done|done|].
    + by exists idx.
    + intros _. type_sizes. cbn. rewrite zlen_cons. lia.
  - rewrite bool_decide_false by done. destruct (negb (is_mutable t)) eqn:Hm; [done|]. apply negb_false_iff in Hm.
    eapply yields_seq; [apply drop_operand_yields|]. intros _ s2 (o & -> & Ho).
    eapply (emit_index _ n T L s _ idx 1 0); [done| |done|done|done|done|].
    + by exists idx, t.
    + rewrite Hc. intros [Hu _]%live_cons. destruct (Ho Hu). type_sizes. cbn in *. lia.
Qed.

(** *** Frames *)

Lemma agrees_fresh fs off e : (forall f, f ∈ fs -> ~ fills f off) -> agrees fs off e.
Proof.
  induction fs as [|f fs IH]; intros H; [done|]. split; [intros Hf; exfalso; eapply H; [left|done]|]. apply IH. intros g Hg. apply H. by right.
Qed.

(** No frame fills in what is yet to be emitted. *)
Lemma fresh X T L fs c off : good m num_locals arity X T L fs c -> (size L <= off)%nat -> forall f, f ∈ fs -> ~ fills f off.
Proof. intros Hg Ho f Hf Hfill. pose proof (slot_below _ _ (g_fills _ _ _ _ _ _ _ _ Hg f off Hf Hfill)). lia. Qed.

Lemma current_reachable f fs n : cf_unreachable f = false -> current (f :: fs) n = current fs n.
Proof. unfold current, liveb. cbn. by intros ->. Qed.

Lemma height_here L c it c' e : c = Some e -> height_at (L ++ [(c, it)]) c' (size L) = Some e.
Proof. intros H. apply height_at_snoc. by rewrite height_at_end. Qed.

Lemma handle_unreachable_code n T L s :
  at_instr Instr.unreachable n T L s -> x_control s <> [] ->
  yields (mark_frame_unreachable ;;; emit [Instr.opcode Instr.unreachable]) (fun _ => certifiable) s.
Proof.
  intros Hs Hne. destruct (x_control s) as [|f fs] eqn:Hc; [done|]. eapply yields_seq; [by apply mark_yields|].
  intros _ s1 [o ->] a s' [= <- <-]. exists T, (L ++ [(current (x_control s) n, Plain Instr.unreachable [])]). split; [|split].
  - cbn. rewrite (ai_code _ _ _ _ _ Hs), enc_app. done.
  - cbn [set_operands set_control set_code x_control x_operands].
    replace (current (frame_unreachable f :: fs) _) with (@None Z) by done.
    eapply good_plain; [apply Hs|rewrite Hc; apply extends_mark|done|].
    intros z [Hl ->]%current_Some. exists None. split; [|done]. exists 0, 0. split; [done|]. split; [constructor|].
    rewrite bool_decide_true by done. split; [|done]. destruct (ai_ops _ _ _ _ _ Hs Hl). lia.
  - by eapply max_snoc.
Qed.

Lemma handle_block_code i n T L s :
  at_instr i n T L s -> i = Instr.block \/ i = Instr.loop -> yields (handle_block i) (fun _ => certifiable) s.
Proof.
  intros Hs Hi. unfold handle_block. apply yields_input. intros t rest _. apply yields_gets. unfold push_control. apply yields_modify.
  intros a s' [= <- <-]. set (f := new_frame _ _ _ _). exists T, (L ++ [(current (x_control s) n, Plain i [])]). split; [|split].
  - cbn. rewrite (ai_code _ _ _ _ _ Hs), enc_app. done.
  - cbn. rewrite current_reachable by done. assert (zlen (type_of_opcode (Instr.opcode i)).1 = 0 /\ zlen (type_of_opcode (Instr.opcode i)).2 = 0) as [E1 E2]
      by (by destruct Hi as [-> | ->]).
    eapply (good_push _ _ _ []); [eapply good_plain; [apply Hs|apply extends_refl|done|]|done| | |by intros o ?%not_elem_of_nil|].
    + intros z [Hl ->]%current_Some. destruct (ai_ops _ _ _ _ _ Hs Hl) as [H1 H2]. eexists. split.
      * exists 0, 0. split; [by destruct Hi as [-> | ->]|]. split; [constructor|]. split; [lia|]. done.
      * rewrite bool_decide_false by (by destruct Hi as [-> | ->]). intros z' [= <-]. unfold current. rewrite Hl. f_equal. cbn. lia.
    + by intros o [[H|H] _]; destruct Hi as [-> | ->].
    + by intros o e [[H|H] _]; destruct Hi as [-> | ->].
    + intros _ Hl. cbn. rewrite (length_code _ _ _ _ _ Hs). apply height_here. unfold current. rewrite Hl.
      destruct (ai_ops _ _ _ _ _ Hs Hl). f_equal. cbn. lia.
  - by eapply max_snoc.
Qed.

Lemma handle_if_code n T L s : at_instr Instr.if_ n T L s -> yields handle_if (fun _ => certifiable) s.
Proof.
  intros Hs. unfold handle_if. apply yields_input. intros t rest _. apply yields_gets. unfold push_control. apply yields_modify.
  intros a s' [= <- <-]. set (f := new_frame _ _ _ _). set (it := Jump Instr.if_). set (c := current (x_control s) n).
  exists (retarget (size L + 1) 0 T), (L ++ [(c, it)]).
  pose proof (length_code _ _ _ _ _ Hs) as Hlen. split; [|split].
  - cbn [set_code set_control set_input x_code]. rewrite (ai_code _ _ _ _ _ Hs), enc_app, <- app_assoc. cbn [enc enc_item it].
    rewrite app_nil_r, Nat.add_0_l, retarget_same. f_equal. apply enc_ext. intros o Ho. symmetry. apply retarget_other. lia.
  - cbn [set_code set_control set_input x_control x_operands]. rewrite current_reachable by done.
    assert (forall z, c = Some z -> liveb (x_control s) = true /\ z = n /\ zlen (x_operands s) = n - 1 /\ 1 <= n) as Hc.
    { intros z [Hl ->]%current_Some. destruct (ai_ops _ _ _ _ _ Hs Hl) as [H1 H2]. revert H1 H2. type_sizes. intros. repeat (split; [done|]). lia. }
    assert (slots 0 (L ++ [(c, it)]) = slots 0 L ++ [((size L + 1)%nat, (fun z => z - 1) <$> c)]) as Hslots.
    { rewrite slots_app. cbn [slots Nat.add slots_of it]. rewrite bool_decide_true by done. done. }
    assert (forall o, own_slot f o <-> o = (size L + 1)%nat) as Hown.
    { intros o. unfold own_slot, f. cbn. rewrite Hlen. split; [by intros [_ ->]|]. intros ->. split; [by left|done]. }
    eapply (good_push _ _ _ [(size L + 1)%nat]); [eapply good_snoc; [apply Hs|apply (extends_refl [])|..]|done|..].
    + by intros o ?%not_elem_of_nil.
    + intros o Ho. apply retarget_other. lia.
    + intros z Hz. destruct (Hc z Hz) as (Hl & -> & H2 & H3). exists (Some (n - 1)). split; [by left|].
      intros z' [= <-]. unfold current. rewrite Hl. f_equal. lia.
    + cbn [it slots_of]. rewrite bool_decide_true by done. intros off e [= -> _]%list_elem_of_singleton.
      split; [|by left; apply list_elem_of_singleton]. apply agrees_fresh. eapply fresh; [apply Hs|lia].
    + intros o ->%Hown. rewrite Hslots, fmap_app. apply elem_of_app. right. cbn. apply list_elem_of_singleton. done.
    + intros o e ->%Hown. rewrite Hslots. intros [Hin%slots_range|[= He]%list_elem_of_singleton]%elem_of_app; [lia|].
      destruct c as [z|] eqn:Ec; [|done]. cbn in He. injection He as ->. destruct (Hc z eq_refl) as (Hl & -> & H2 & H3).
      split; [|done]. split; [by intros _ ?%not_elem_of_nil|]. intros _. rewrite bool_decide_true by done. cbn. lia.
    + intros o ->%list_elem_of_singleton. by apply Hown.
    + done.
  - by eapply max_snoc.
Qed.

(** The code with one more instruction whose targets are already in [T']. *)
Lemma enc_snoc T T' L c it : (forall o, (o < size L)%nat -> T' o = T o) -> enc T' 0 (L ++ [(c, it)]) = enc T 0 L ++ enc_item T' (size L) it.
Proof.
  intros HT. rewrite enc_app. cbn [enc]. rewrite app_nil_r, Nat.add_0_l. f_equal. apply enc_ext. intros o Ho. apply HT. lia.
Qed.

Lemma handle_else_code n T L s : at_instr Instr.else_ n T L s -> x_control s <> [] -> yields handle_else (fun _ => certifiable) s.
Proof.
  intros Hs Hne. destruct (x_control s) as [|f fs] eqn:Hc; [done|]. unfold handle_else. eapply top_yields; [done|].
  destruct (bool_decide_reflect (cf_instruction f = Instr.if_)) as [Hi|]; [cbn [negb]|done].
  pose proof (ai_frames _ _ _ _ _ Hs) as Hf. rewrite Hc in Hf. destruct Hf as (Hf & _).
  eapply yields_seq; [apply update_result_stack_yields; lia|]. intros _ s1 (o & -> & Ho & Hlive).
  unfold pop_control. apply yields_bind, yields_gets. cbn [set_operands x_control]. rewrite Hc. intros [] s1 [= <-]. apply yields_gets.
  apply yields_modify, yields_modify. unfold emit32 at 1. apply yields_modify, yields_gets.
  cbn [set_operands set_control set_code x_control x_code x_operands x_input id]. rewrite Ho.
  set (c := current (f :: fs) n). pose proof (ai_good _ _ _ _ _ Hs) as Hg. rewrite Hc in Hg. fold c in Hg.
  eapply yields_mono; [apply store32_yields|]. intros _ s' ->. cbn [set_operands set_control set_code x_control x_code x_operands x_input].
  set (T1 := retarget (size L + 1) 0 T). set (L1 := L ++ [(c, Jump Instr.else_)]).
  assert (forall z, c = Some z -> z = cf_parent_stack_height f + arity_of f /\ liveb fs = true) as Hn.
  { intros z [Hl ->]%current_Some. pose proof (ai_ops _ _ _ _ _ Hs) as Hops. rewrite Hc in Hops. specialize (Hops Hl).
    revert Hops. type_sizes. apply live_cons in Hl as [Hu Hl]. specialize (Hlive Hu). intros []. split; [lia|done]. }
  assert ((x_code s ++ [Instr.opcode Instr.else_]) ++ le_bytes 4 0 = enc T1 0 L1) as Hcode.
  { unfold L1. rewrite (enc_snoc T) by (intros o' Ho'; apply retarget_other; lia). cbn [enc_item]. unfold T1. rewrite retarget_same.
    by rewrite (ai_code _ _ _ _ _ Hs), <- app_assoc. }
  assert ((cf_code_offset f + 1)%nat ∈ (slots 0 L1).*1) as ([o' e] & Ho' & Hin)%list_elem_of_fmap.
  { unfold L1. rewrite slots_app, fmap_app. apply elem_of_app. left. eapply (g_fills _ _ _ _ _ _ _ _ Hg); [left|]. right. split; [by left|done]. }
  rewrite Hcode, length_enc. replace (size L1) with (size L + 5)%nat by (unfold L1; rewrite size_app; cbn; lia).
  exists (retarget (cf_code_offset f + 1) (Z.of_nat (size L + 5)) T1), L1. cbn [x_code x_control x_operands x_max set_code set_control set_operands]. split; [|split].
  - cbn [fst] in Ho'. rewrite Ho', (enc_retarget T1 0 L1 _ _ _ Hin), Nat.sub_0_r. done.
  - rewrite current_reachable by done. rewrite Ho. rewrite (length_code _ _ _ _ _ Hs). by apply good_else.
  - unfold L1, c. rewrite <- Hc. by eapply max_snoc.
Qed.

(** What an [end] fills in. *)
Lemma fill_yields f v s :
  yields (if bool_decide (cf_instruction f = Instr.loop) then ret tt
          else (if bool_decide (cf_instruction f = Instr.if_) || bool_decide (cf_instruction f = Instr.else_)
                then store32_at (cf_code_offset f + 1) v else ret tt) ;;;
               fill_branches (cf_br_immediate_offsets f) v)
    (fun _ s' => s' = set_code (foldl (fun c o => overwrite o v c) (x_code s) (filled f)) s) s.
Proof.
  unfold filled. fold (is_conditional f). destruct (bool_decide _); [apply yields_ret; by destruct s|]. rewrite foldl_app.
  destruct (is_conditional f); cbn [foldl].
  - eapply yields_seq; [apply store32_yields|]. intros _ s' ->. eapply yields_mono; [apply fill_branches_yields|]. by intros _ s' ->.
  - apply yields_bind, yields_ret, fill_branches_yields.
Qed.

Lemma shrink_same o s : x_operands s = o -> yields (shrink_operands (zlen o)) (fun _ s' => s' = s) s.
Proof.
  intros Ho. unfold shrink_operands. apply yields_gets. rewrite Ho. apply yields_assert. intros _ a s' [= _ <-].
  unfold zlen. rewrite Nat2Z.id, Nat.sub_diag, drop_0, <- Ho. by destruct s.
Qed.

(** An [end] that closes an inner frame. *)
Lemma close_code n T L s f fs :
  at_instr Instr.end_ n T L s -> x_control s = f :: fs -> fs <> [] ->
  (cf_unreachable f = false -> zlen (x_operands s) = cf_parent_stack_height f + arity_of f) ->
  (cf_instruction f = Instr.if_ -> arity_of f = 0) ->
  let c := current (f :: fs) n in
  good m num_locals arity [] (fill (filled f) (Z.of_nat (size L) + 1) T) (L ++ [(c, Plain Instr.end_ [])]) fs
    (current fs (cf_parent_stack_height f + arity_of f)).
Proof.
  intros Hs Hc Hne Hlive Hif c. pose proof (ai_good _ _ _ _ _ Hs) as Hg. rewrite Hc in Hg.
  apply good_close; [exact Hg|done|done| |lia|].
  - intros z [Hl ->]%current_Some. pose proof (ai_ops _ _ _ _ _ Hs) as Hops. rewrite Hc in Hops. specialize (Hops Hl).
    revert Hops. type_sizes. apply live_cons in Hl as [Hu Hl]. specialize (Hlive Hu). intros [H1 H2]. eexists. split.
    + exists 0, 0. split; [done|]. split; [constructor|]. type_sizes. split; [lia|]. rewrite bool_decide_false by done. done.
    + type_sizes. intros z' [= <-]. unfold current. rewrite Hl. f_equal. lia.
  - intros off e Hfill [He1 He2] Hl. replace (Z.to_nat (Z.of_nat (size L) + 1)) with (size (L ++ [(c, Plain Instr.end_ [])]))
      by (rewrite size_app; cbn; lia). unfold c at 1. rewrite height_at_end. unfold current. rewrite Hl. f_equal.
    destruct Hfill as [[Hn Hin]|Hown]; [by rewrite He1|]. rewrite (He2 Hown). case_bool_decide as Hi; [rewrite Hif by done; lia|done].
Qed.

Lemma handle_end_code n T L s :
  at_instr Instr.end_ n T L s ->
  yields handle_end (fun b s' => if b then certifiable s' else x_control s' = [] -> code_ok m num_locals arity (x_max s') (x_code s')) s.
Proof.
  intros Hs. pose proof (g_bottom _ _ _ _ _ _ _ _ (ai_good _ _ _ _ _ Hs)) as Hb. destruct (x_control s) as [|f fs] eqn:Hc; [done|]. clear Hb.
  unfold handle_end. eapply top_yields; [done|]. pose proof (ai_frames _ _ _ _ _ Hs) as Hf. rewrite Hc in Hf. destruct Hf as (Hf & _).
  eapply yields_seq; [apply update_result_stack_yields; lia|]. intros _ s1 (o & -> & Ho & Hlive).
  destruct (is_some_type (cf_type f) && _) eqn:Eif; [done|].
  assert (cf_instruction f = Instr.if_ -> arity_of f = 0) as Hif.
  { intros Hi. rewrite bool_decide_true, andb_true_r in Eif by done. unfold arity_of. by rewrite Eif. }
  apply yields_gets. cbv zeta. eapply yields_seq; [apply fill_yields|]. intros _ s1 ->.
  cbn [set_operands set_control set_code x_control x_code x_operands x_input id]. rewrite Hc, (length_code _ _ _ _ _ Hs). set (v := if (length (f :: fs) =? 1)%nat then Z.of_nat (size L) else Z.of_nat (size L) + 1).
  rewrite <- Ho. eapply yields_seq; [by apply shrink_same|]. intros _ s1 ->.
  unfold pop_control. apply yields_bind, yields_gets. cbn [set_operands set_code x_control]. rewrite Hc. intros [] s1 [= <-]. apply yields_gets.
  cbn [set_operands set_control set_code x_control x_code x_operands x_input id].
  assert (enc (fill (filled f) v T) 0 L = foldl (fun c o => overwrite o v c) (x_code s) (filled f)) as Hcode.
  { rewrite (ai_code _ _ _ _ _ Hs). apply enc_fill. intros o' Ho'%fills_filled. eapply (g_fills _ _ _ _ _ _ _ _ (ai_good _ _ _ _ _ Hs)); [|done].
    rewrite Hc. left. }
  rewrite <- Hcode. destruct fs as [|g fs].
  - apply yields_bind, yields_ret. intros b s' [= <- <-] _. cbn [set_operands set_control set_code x_control x_code x_operands x_input x_max].
    pose proof (ai_good _ _ _ _ _ Hs) as Hg. rewrite Hc in Hg. pose proof (g_bottom _ _ _ _ _ _ _ _ Hg) as (_ & Hb1 & Hb2).
    destruct (good_final _ _ _ _ _ _ _ (x_max s) Hg) as (c' & Hcert).
    + intros z [Hl ->]%current_Some. rewrite <- Hc in Hl. destruct (ai_ops _ _ _ _ _ Hs Hl) as [_ H2]. revert H2. type_sizes. intros H2.
      rewrite Hc in Hl. pose proof (proj1 (live_cons _ _) Hl) as [Hu _]. specialize (Hlive Hu). rewrite <- Hc in Hl.
      split; [lia|by apply Hs].
    + apply Hs.
    + exists (fill (filled f) v T), L, c'. unfold v. cbn [length Nat.eqb]. replace (_ ++ _) with (enc (fill (filled f) (Z.of_nat (size L)) T) 0 (with_end c' L)); [exact Hcert|].
      unfold with_end. by rewrite (enc_snoc (fill (filled f) (Z.of_nat (size L)) T)).
  - pose proof (close_code n T L s f (g :: fs) Hs Hc ltac:(done) Hlive Hif) as Hgood. cbv zeta in Hgood.
    assert (v = Z.of_nat (size L) + 1) as Hv by done. rewrite <- Hv in Hgood.
    apply yields_bind. eapply (yields_mono _ (fun _ s' => operands_to (fun o' => zlen o' = cf_parent_stack_height f + arity_of f)
      (set_control (g :: fs) (set_code (enc (fill (filled f) v T) 0 L) s)) s')).
    { unfold arity_of. destruct (cf_type f) as [t|]; cbn [is_some_type]; intros a s' [= <- <-].
      - exists (Known t :: o). split; [done|]. rewrite zlen_cons. lia.
      - exists o. split; [done|]. lia. }
    intros _ s1 (o' & -> & Ho') b s' [= <- <-]. exists (fill (filled f) v T), (L ++ [(current (x_control s) n, Plain Instr.end_ [])]).
    cbn [set_operands set_control set_code x_control x_code x_operands x_input x_max]. split; [|split].
    + by rewrite (enc_snoc (fill (filled f) v T)).
    + rewrite Ho', Hc. exact Hgood.
    + by eapply max_snoc.
Qed.

(** *** Branches *)

Lemma frames_below h n f fs k g : frames_ok h n (f :: fs) -> (f :: fs) !! k = Some g -> 0 <= cf_parent_stack_height g <= cf_parent_stack_height f.
Proof.
  cbn [frames_ok]. intros (H1 & _ & H3). destruct k as [|k]; cbn; [intros [= <-]; lia|]. intros Hk.
  by destruct (frames_ok_nth _ _ _ _ _ H3 Hk) as [_ ?].
Qed.

Lemma branch_immediates_yields k g s :
  x_control s !! k = Some g ->
  yields (branch_immediates (Z.of_nat k)) (fun _ s' =>
    s' = set_code (x_code s ++ le_bytes 4 (Z.of_nat (cf_code_offset g)) ++ le_bytes 4 (zlen (x_operands s) - cf_parent_stack_height g))
           (set_control (alter (frame_add_branch (length (x_code s))) k (x_control s)) s)) s.
Proof.
  intros Hk. unfold branch_immediates. apply frame_yields. unfold at_idx. rewrite (proj2 (Z.ltb_ge _ _)), Nat2Z.id, Hk by lia.
  intros f [= <-]. apply yields_gets. unfold update_frame. apply yields_modify, yields_gets. rewrite Nat2Z.id.
  intros a s' [= _ <-]. cbn. by rewrite <- app_assoc.
Qed.

(** After [br], [br_if] or [return] took frame [k] for its target. *)
Definition branched (i : Instr.t) (n : Z) (T : targets) (L : list (option Z * item)) (s : expr_state) (k : nat) (g : ControlFrame) (s' : expr_state) : Prop :=
  exists o, (liveb (x_control s) = true -> cf_parent_stack_height g <= zlen o /\ zlen o = zlen (x_operands s) - get_branch_arity g) /\
  let it := Branch i (get_branch_arity g) (zlen o - cf_parent_stack_height g) in
  s' = set_code (enc (retarget (size L + 5) (Z.of_nat (cf_code_offset g)) T) 0 (L ++ [(current (x_control s) n, it)]))
         (set_control (add_branches [((size L + 5)%nat, k)] (x_control s)) (set_operands o s)).

Lemma take_branch_yields i n T L s idx k g :
  at_instr i n T L s -> x_control s !! k = Some g -> idx = Z.of_nat k ->
  yields (take_branch (Instr.opcode i) idx) (fun _ => branched i n T L s k g) s.
Proof.
  intros Hs Hk ->. destruct (x_control s) as [|f fs] eqn:Hc; [done|]. rewrite <- Hc in Hk. unfold take_branch. eapply top_yields; [done|].
  apply frame_yields. unfold at_idx. rewrite (proj2 (Z.ltb_ge _ _)), Nat2Z.id, Hk by lia. intros g' [= <-].
  eapply yields_seq; [apply update_branch_stack_yields|]. intros _ s1 (o & -> & Ho). apply yields_modify. unfold emit32 at 1. apply yields_modify.
  eapply yields_mono; [by apply branch_immediates_yields|]. intros _ s' ->. cbn [set_operands set_control set_code x_control x_code x_operands x_input].
  rewrite !length_app, length_le_bytes, (length_code _ _ _ _ _ Hs). cbn [length]. exists o. split.
  - rewrite Hc. intros [Hu Hl]%live_cons. destruct (Ho Hu) as [Ho1 Ho2]. split; [|done].
    pose proof (ai_frames _ _ _ _ _ Hs) as Hf. rewrite Hc in Hf. rewrite Hc in Hk. pose proof (frames_below _ _ _ _ _ _ Hf Hk). lia.
  - cbv zeta. unfold add_branches. cbn [foldl fst snd]. rewrite Hc, <- Nat.add_assoc. change (1 + 4)%nat with 5%nat. 
    rewrite (enc_snoc T) by (intros o' Ho'; apply retarget_other; lia). cbn [enc_item]. rewrite retarget_same, (ai_code _ _ _ _ _ Hs).
    unfold set_code. cbn. by rewrite <- !app_assoc.
Qed.

Lemma branched_good i n T L s k g s1 fs' c' :
  at_instr i n T L s -> x_control s !! k = Some g -> branched i n T L s k g s1 -> extends [] (x_control s1) fs' ->
  i = Instr.br \/ i = Instr.return_ \/ i = Instr.br_if ->
  (i = Instr.br_if -> liveb (x_control s) = true -> c' = Some (zlen (x_operands s1) + get_branch_arity g)) ->
  exists T' L', x_code s1 = enc T' 0 L' /\ good m num_locals arity [] T' L' fs' c' /\ forall h it, (Some h, it) ∈ L' -> 0 <= h <= x_max s1.
Proof.
  intros Hs Hk (o & Ho & ->) He Hi Hc'. cbv zeta in *. cbn [set_operands set_control set_code x_control x_code x_operands x_max] in *.
  do 2 eexists. split; [done|]. split; [|by eapply max_snoc].
  assert (forall z, current (x_control s) n = Some z -> z = n /\ liveb (x_control s) = true /\ 0 <= get_branch_arity g <= 1 /\ 0 <= cf_parent_stack_height g /\
    cf_parent_stack_height g <= zlen o /\ zlen o = (if bool_decide (i = Instr.br_if) then n - 1 else n) - get_branch_arity g) as Hz.
  { intros z [Hl ->]%current_Some. destruct (Ho Hl) as [Ho1 Ho2], (ai_ops _ _ _ _ _ Hs Hl) as [_ H2].
    destruct (frames_ok_nth _ _ _ _ _ (ai_frames _ _ _ _ _ Hs) Hk) as [_ [Hp _]].
    split; [done|]. split; [done|]. split; [unfold get_branch_arity; destruct (is_some_type _); lia|]. split; [done|]. split; [done|].
    rewrite Ho2, H2. destruct Hi as [-> | [-> | ->]]; type_sizes; [rewrite bool_decide_false by done|rewrite bool_decide_false by done|rewrite bool_decide_true by done]; lia. }
  eapply good_branches; [apply Hs|exact He| | | | | |].
  - cbn. repeat constructor. by intros ?%not_elem_of_nil.
  - done.
  - intros o' Ho'. apply retarget_other. lia.
  - intros off k' [= -> ->]%list_elem_of_singleton. exists g. by rewrite retarget_same.
  - intros off k' g' e [= -> ->]%list_elem_of_singleton Hin Hk'. rewrite Hk in Hk'. injection Hk' as <-.
    cbn [slots_of] in Hin. apply list_elem_of_singleton in Hin as [= He']. destruct (current (x_control s) n) as [z|] eqn:Ez; [|done].
    cbn in He'. injection He' as ->. destruct (Hz z eq_refl) as (-> & Hl & H1 & H2 & H3 & H4). split; [done|]. destruct (bool_decide _); lia.
  - intros z Ez. destruct (Hz z Ez) as (-> & Hl & H1 & H2 & H3 & H4). eexists. split.
    + cbn [item_ok]. split; [tauto|]. split; [done|]. split; [lia|]. split; [|done]. destruct (bool_decide _); lia.
    + case_bool_decide as Hb; [|done]. intros z' [= <-]. rewrite (Hc' Hb Hl). f_equal. lia.
Qed.

(** After a branch that is always taken. *)
Lemma branched_mark i n T L s k g s1 :
  at_instr i n T L s -> x_control s !! k = Some g -> branched i n T L s k g s1 -> i = Instr.br \/ i = Instr.return_ ->
  yields mark_frame_unreachable (fun _ => certifiable) s1.
Proof.
  intros Hs Hk Hb Hi. destruct (x_control s1) as [|f fs] eqn:Hc; [intros a s'; unfold mark_frame_unreachable, top_frame, frame_at, bind, gets, elem; by rewrite Hc|].
  eapply yields_mono; [by apply mark_yields|]. intros _ s' (o & ->).
  destruct (branched_good i n T L s k g s1 (frame_unreachable f :: fs) None Hs Hk Hb) as (T' & L' & Hcode & Hg & Hmax);
    [rewrite Hc; apply extends_mark|tauto|by destruct Hi as [-> | ->]|]. by exists T', L'.
Qed.

Lemma handle_br_code i n T L s :
  at_instr i n T L s -> i = Instr.br \/ i = Instr.br_if -> yields (handle_br i) (fun _ => certifiable) s.
Proof.
  intros Hs Hi. unfold handle_br. apply read_u32; [apply Hs|]. intros idx rest Hidx Hok. apply yields_gets.
  destruct (_ <=? idx) eqn:E; [done|]. bool_to_prop. pose proof (at_input _ _ _ _ _ _ Hs Hok) as Hs'.
  destruct (at_idx_lt (x_control (set_input rest s)) idx) as (g & Hg & _); [lia|]. apply at_idx_nat in Hg as (k & Hk & Hg).
  eapply yields_seq; [by eapply (take_branch_yields i n T L)|]. cbv beta. intros _ s1 Hb. case_bool_decide as Hbr.
  - eapply branched_mark; [exact Hs'|done|done|by left].
  - assert (i = Instr.br_if) as -> by tauto. pose proof Hb as (o & Ho & Hs1). cbv zeta in Hs1.
    assert (x_control s1 = add_branches [((size L + 5)%nat, k)] (x_control (set_input rest s))) as Hc1 by (by rewrite Hs1). clear Hs1.
    destruct (extends_lookup _ _ _ _ _ (extends_branches [((size L + 5)%nat, k)] _) Hg) as (g' & Hg' & Hi1 & Ht & _).
    apply frame_yields. rewrite Hk. unfold at_idx. rewrite (proj2 (Z.ltb_ge _ _)), Nat2Z.id, Hc1, Hg' by lia.
    intros g'' [= <-].
    assert (get_branch_frame_type g' = get_branch_frame_type g) as -> by (unfold get_branch_frame_type; by rewrite Hi1, Ht).
    set (o2 := match get_branch_frame_type g with Some t => Known t :: x_operands s1 | None => x_operands s1 end).
    eapply (yields_mono _ (fun _ s2 => s2 = set_operands o2 s1)).
    { unfold o2. destruct (get_branch_frame_type g); intros a s2 H2; injection H2 as _ H2; rewrite <- H2; [done|by destruct (s1)]. }
    assert (zlen o2 = zlen (x_operands s1) + get_branch_arity g) as Ho2.
    { unfold o2, get_branch_arity. destruct (get_branch_frame_type g); cbn [is_some_type]; rewrite ?zlen_cons; lia. }
    intros _ s2 ->. cbv beta. destruct (branched_good Instr.br_if n T L (set_input rest s) k g s1 (x_control s1) (current (x_control s1) (zlen o2)))
      as (T' & L' & Hcode & Hgood & Hmax); [exact Hs'|done|done|apply extends_refl|tauto| |by exists T', L'].
    intros _ Hl. unfold current. rewrite Hc1, live_branches, Hl. by rewrite Ho2.
Qed.

Lemma handle_return_code n T L s : at_instr Instr.return_ n T L s -> yields handle_return (fun _ => certifiable) s.
Proof.
  intros Hs. unfold handle_return. apply yields_gets, yields_assert. intros Hne. set (k := (length (x_control s) - 1)%nat).
  destruct (lookup_lt_is_Some_2 (x_control s) k) as [g Hg]; [unfold k; destruct (x_control s); [done|cbn; lia]|].
  eapply yields_seq; [eapply (take_branch_yields _ _ _ _ _ _ k); [exact Hs|exact Hg|]|].
  - unfold zlen, k. destruct (x_control s); [done|cbn; lia].
  - cbv beta. intros _ s1 Hb. eapply branched_mark; [exact Hs|done|done|by right].
Qed.

(** The frames a table of branches leads to: where they start and how much is
    dropped. *)
Definition label_frame (fs : list ControlFrame) (idx : Z) : ControlFrame :=
  default (new_frame Instr.block None 0 0) (at_idx fs idx).
Definition label_target (fs : list ControlFrame) (idx : Z) : Z := Z.of_nat (cf_code_offset (label_frame fs idx)).
Definition label_drop (fs : list ControlFrame) (height idx : Z) : Z := height - cf_parent_stack_height (label_frame fs idx).
Definition label_slots (pos : nat) (labels : list Z) : list (nat * nat) :=
  imap (fun j idx => ((pos + 8 * j)%nat, Z.to_nat idx)) labels.

Lemma label_frame_add fs k off idx :
  label_target (alter (frame_add_branch off) k fs) idx = label_target fs idx /\
  (forall h, label_drop (alter (frame_add_branch off) k fs) h idx = label_drop fs h idx) /\
  get_branch_frame_type (label_frame (alter (frame_add_branch off) k fs) idx) = get_branch_frame_type (label_frame fs idx).
Proof.
  unfold label_target, label_drop, label_frame, at_idx. destruct (idx <? 0); [done|].
  destruct (decide (k = Z.to_nat idx)) as [->|Hne].
  - rewrite list_lookup_alter_eq. by destruct (fs !! Z.to_nat idx).
  - by rewrite list_lookup_alter_ne.
Qed.

Lemma label_slots_cons pos idx labels : label_slots pos (idx :: labels) = (pos, Z.to_nat idx) :: label_slots (pos + 8) labels.
Proof.
  unfold label_slots. cbn [imap]. f_equal; [f_equal; lia|]. apply imap_ext. intros j x _. cbn. f_equal. lia.
Qed.

Lemma table_branches_yields type labels T' s :
  (forall j idx, labels !! j = Some idx -> T' (length (x_code s) + 8 * j)%nat = label_target (x_control s) idx) ->
  yields (table_branches type labels) (fun _ s' =>
    s' = set_code (x_code s ++ enc_slots T' (length (x_code s)) (label_drop (x_control s) (zlen (x_operands s)) <$> labels))
           (set_control (add_branches (label_slots (length (x_code s)) labels) (x_control s)) s) /\
    Forall (fun idx => is_Some (at_idx (x_control s) idx) /\ get_branch_frame_type (label_frame (x_control s) idx) = type) labels) s.
Proof.
  revert s. induction labels as [|idx labels IH]; intros s HT; cbn [table_branches].
  { apply yields_ret. split; [|constructor]. cbn. rewrite app_nil_r. by destruct s. }
  apply frame_yields. intros f Hf. assert (label_frame (x_control s) idx = f) as Hlf by (unfold label_frame; by rewrite Hf).
  case_bool_decide as Ht; [cbn [negb]|done]. pose proof Hf as Hf'. apply at_idx_nat in Hf' as (k & -> & Hk).
  eapply yields_seq; [by apply branch_immediates_yields|]. cbv beta. intros _ s1 Hs1.
  assert (length (x_code s1) = (length (x_code s) + 8)%nat) as Hlen.
  { rewrite Hs1. cbn [set_code x_code]. rewrite !length_app, !length_le_bytes. lia. }
  assert (forall idx, _) as Hadd by (intros idx; exact (label_frame_add (x_control s) k (length (x_code s)) idx)).
  eapply yields_mono; [apply (IH s1)|].
  - intros j idx Hj. rewrite Hlen, Hs1. cbn [set_code set_control x_control]. rewrite (proj1 (Hadd idx)).
    rewrite <- (HT (S j) idx Hj). f_equal. lia.
  - intros _ s' [-> Hall]. rewrite Hlen. rewrite Hs1 in Hall |- *. cbn [set_code set_control x_control x_code x_operands] in *. split.
    + rewrite label_slots_cons. cbn [add_branches foldl fst snd fmap list_fmap enc_slots]. rewrite Nat2Z.id, <- !app_assoc.
      specialize (HT 0%nat (Z.of_nat k) eq_refl). rewrite Nat.mul_0_r, Nat.add_0_r in HT. rewrite HT. unfold label_target at 1.
      assert (forall h, label_drop (x_control s) h (Z.of_nat k) = h - cf_parent_stack_height f) as Hd by (intros h; unfold label_drop; by rewrite Hlf).
      rewrite Hd, Hlf, (list_fmap_ext _ (label_drop (x_control s) (zlen (x_operands s))) labels) by (intros _ x _; apply Hadd). done.
    + constructor; [split; [by eexists|by rewrite Hlf]|]. eapply Forall_impl; [exact Hall|]. intros x [[g Hg] Hx].
      rewrite (proj2 (proj2 (Hadd x))) in Hx. split; [|done]. unfold at_idx in *. destruct (x <? 0); [done|].
      apply lookup_lt_Some in Hg. rewrite length_alter in Hg. by apply lookup_lt_is_Some_2.
Qed.

Lemma label_slots_app pos l l' : label_slots pos (l ++ l') = label_slots pos l ++ label_slots (pos + 8 * length l) l'.
Proof.
  unfold label_slots. rewrite imap_app. f_equal. apply imap_ext. intros j x _. cbn. f_equal. lia.
Qed.

Lemma label_slots_offsets pos labels : (label_slots pos labels).*1 = imap (fun j _ => (pos + 8 * j)%nat) labels.
Proof. unfold label_slots. by rewrite fmap_imap. Qed.

Lemma label_slots_nodup pos labels : NoDup (label_slots pos labels).*1.
Proof.
  rewrite label_slots_offsets. apply NoDup_alt. intros i j x. rewrite !list_lookup_imap.
  destruct (labels !! i), (labels !! j); cbn; try done. intros [= <-] [=]. lia.
Qed.

Lemma label_slots_elem pos labels off k :
  (off, k) ∈ label_slots pos labels -> exists j idx, labels !! j = Some idx /\ off = (pos + 8 * j)%nat /\ k = Z.to_nat idx.
Proof. intros (j & idx & [= -> ->] & Hj)%elem_of_lookup_imap_1. by exists j, idx. Qed.

Lemma enc_slots_app T' pos ds ds' : enc_slots T' pos (ds ++ ds') = enc_slots T' pos ds ++ enc_slots T' (pos + 8 * length ds) ds'.
Proof.
  revert pos. induction ds as [|d ds IH]; intros pos; cbn [enc_slots app length]; [by rewrite Nat.mul_0_r, Nat.add_0_r|].
  rewrite IH, <- !app_assoc. by replace (pos + 8 + 8 * length ds)%nat with (pos + 8 * S (length ds))%nat by lia.
Qed.

(** The targets of a table at [pos]. *)
Definition table_targets (T : targets) (fs : list ControlFrame) (pos : nat) (labels : list Z) : targets := fun o =>
  if (o <? pos)%nat then T o else match labels !! ((o - pos) / 8)%nat with Some idx => label_target fs idx | None => T o end.

Lemma table_target T fs pos labels j idx : labels !! j = Some idx -> table_targets T fs pos labels (pos + 8 * j)%nat = label_target fs idx.
Proof.
  intros Hj. unfold table_targets. rewrite (proj2 (Nat.ltb_ge _ _)) by lia. replace (pos + 8 * j - pos)%nat with (j * 8)%nat by lia.
  by rewrite Nat.div_mul, Hj by lia.
Qed.

Lemma table_target_below T fs pos labels o : (o < pos)%nat -> table_targets T fs pos labels o = T o.
Proof. intros Ho. unfold table_targets. by rewrite (proj2 (Nat.ltb_lt _ _)). Qed.

(** A table of branches to frames that expect the same. *)
Lemma table_good n T L s a h labels fs' :
  at_instr Instr.br_table n T L s -> 1 <= zlen labels <= 2 ^ 32 ->
  Forall (fun idx => is_Some (at_idx (x_control s) idx)) labels ->
  let it := Switch a (label_drop (x_control s) h <$> labels) in
  (liveb (x_control s) = true -> h = zlen (x_operands s) - a /\ Forall (fun idx => get_branch_arity (label_frame (x_control s) idx) = a /\
     cf_parent_stack_height (label_frame (x_control s) idx) <= h) labels) ->
  0 <= a <= 1 ->
  extends [] (add_branches (label_slots (size L + 9) labels) (x_control s)) fs' ->
  good m num_locals arity [] (table_targets T (x_control s) (size L + 9) labels) (L ++ [(current (x_control s) n, it)]) fs' None.
Proof.
  intros Hs Hlen Hsome it Hlive Ho He.
  assert (forall idx, idx ∈ labels -> x_control s !! Z.to_nat idx = Some (label_frame (x_control s) idx)) as Hframe.
  { intros idx Hin. rewrite Forall_forall in Hsome. destruct (Hsome idx Hin) as [g Hg]. unfold label_frame. rewrite Hg.
    apply at_idx_nat in Hg as (k & -> & Hg). by rewrite Nat2Z.id. }
  eapply good_branches; [apply Hs|exact He|apply label_slots_nodup| | | | |].
  - rewrite label_slots_offsets. unfold it. cbn [slots_of]. rewrite fmap_imap, imap_fmap. by apply imap_ext.
  - intros o' Ho'. apply table_target_below. lia.
  - intros off k (j & idx & Hj & -> & ->)%label_slots_elem. eexists. split; [apply Hframe; by eapply list_elem_of_lookup_2|]. by apply table_target.
  - intros off k g e (j & idx & Hj & -> & ->)%label_slots_elem Hin Hk. rewrite Hframe in Hk by (by eapply list_elem_of_lookup_2). injection Hk as <-.
    unfold it in Hin. cbn [slots_of] in Hin. apply elem_of_lookup_imap_1 in Hin as (j' & d & [= Hj' He'] & Hd). assert (j' = j) as -> by lia.
    rewrite list_lookup_fmap, Hj in Hd. injection Hd as <-. destruct (current (x_control s) n) as [z|] eqn:Ez; [|done]. cbn in He'. injection He' as ->.
    apply current_Some in Ez as [Hl ->]. split; [done|]. destruct (Hlive Hl) as [-> Hall]. rewrite Forall_lookup in Hall. destruct (Hall j idx Hj) as [-> _].
    destruct (ai_ops _ _ _ _ _ Hs Hl) as [_ H2]. revert H2. type_sizes. unfold label_drop. lia.
  - intros z [Hl ->]%current_Some. exists None. split; [|done]. destruct (ai_ops _ _ _ _ _ Hs Hl) as [H1 H2]. revert H1 H2. type_sizes. intros H1 H2.
    cbn [item_ok it]. split; [lia|]. split; [done|]. unfold zlen in *. rewrite length_fmap. split; [done|]. split; [|done]. destruct (Hlive Hl) as [-> Hall].
    apply Forall_fmap, Forall_forall. intros idx Hin. rewrite Forall_forall in Hall. destruct (Hall idx Hin) as [_ Hle]. cbn. unfold label_drop.
    destruct (frames_ok_nth _ _ _ _ _ (ai_frames _ _ _ _ _ Hs) (Hframe idx Hin)) as [_ [Hp _]]. unfold zlen in *. lia.
Qed.

(** The default label follows the others. *)
Lemma table_yields T' type labels d s :
  (forall j idx, (labels ++ [d]) !! j = Some idx -> T' (length (x_code s) + 8 * j)%nat = label_target (x_control s) idx) ->
  is_Some (at_idx (x_control s) d) -> get_branch_frame_type (label_frame (x_control s) d) = type ->
  yields (table_branches type labels ;;; branch_immediates d) (fun _ s' => let all := labels ++ [d] in
    s' = set_code (x_code s ++ enc_slots T' (length (x_code s)) (label_drop (x_control s) (zlen (x_operands s)) <$> all))
           (set_control (add_branches (label_slots (length (x_code s)) all) (x_control s)) s) /\
    Forall (fun idx => is_Some (at_idx (x_control s) idx) /\ get_branch_frame_type (label_frame (x_control s) idx) = type) all) s.
Proof.
  intros HT Hd Htype. eapply yields_seq; [apply (table_branches_yields _ _ T')|].
  { intros j idx Hj. apply HT. apply lookup_app_Some. by left. }
  cbv beta. intros _ s1 [Hs1 Hall]. pose proof Hd as [g Hg]. assert (label_frame (x_control s) d = g) as Hlf by (unfold label_frame; by rewrite Hg).
  apply at_idx_nat in Hg as (k & -> & Hk). set (bs := label_slots (length (x_code s)) labels) in *.
  destruct (extends_lookup _ _ _ _ _ (extends_branches bs (x_control s)) Hk) as (g' & Hk' & _ & _ & H3 & H4 & _).
  assert (x_control s1 = add_branches bs (x_control s)) as Hc1 by (by rewrite Hs1). rewrite <- Hc1 in Hk'.
  assert (length (x_code s1) = (length (x_code s) + 8 * length labels)%nat) as Hlen.
  { rewrite Hs1. cbn [set_code x_code]. by rewrite length_app, length_enc_slots, length_fmap. }
  eapply yields_mono; [by apply branch_immediates_yields|]. intros _ s' ->. cbv zeta. split.
  - rewrite Hlen, Hs1. cbn [set_code set_control x_control x_code x_operands]. rewrite label_slots_app, add_branches_app. fold bs.
    rewrite fmap_app, enc_slots_app, length_fmap. cbn [fmap list_fmap enc_slots label_slots imap add_branches foldl fst snd].
    rewrite (HT (length labels) (Z.of_nat k)) by (rewrite lookup_app_r, Nat.sub_diag by lia; done).
    rewrite Nat.mul_0_r, Nat.add_0_r, app_nil_r, Nat2Z.id. unfold label_target. rewrite H3, H4, <- Hlf, <- !app_assoc. done.
  - apply Forall_app. split; [done|]. constructor; [done|constructor].
Qed.

Lemma handle_br_table_code n T L s : at_instr Instr.br_table n T L s -> yields handle_br_table (fun _ => certifiable) s.
Proof.
  intros Hs0. unfold handle_br_table. apply yields_input. intros labels rest Hl.
  pose proof (reader_suffix _ _ _ (reader_vec _ _ (reader_u 32)) (ai_input _ _ _ _ _ Hs0)) as Hr. unfold accepts in Hr. rewrite Hl in Hr.
  destruct Hr as ([Hlb Hlen] & Hsuf). pose proof (suffix_ok _ _ Hsuf (ai_input _ _ _ _ _ Hs0)) as Hok.
  apply read_u32; [done|]. intros d rest' Hd Hok'. apply yields_gets. destruct (existsb _ _); [done|]. destruct (_ <=? d) eqn:Ed; [done|]. bool_to_prop.
  pose proof (at_input _ _ _ _ _ _ Hs0 Hok') as Hs. change (set_input rest' (set_input rest s)) with (set_input rest' s).
  change (x_control (set_input rest' (set_input rest s))) with (x_control (set_input rest' s)) in *. set (s0 := set_input rest' s) in *. clearbody s0. clear Hs0 Hl.
  apply yields_modify. unfold emit32 at 1. apply yields_modify. destruct (x_control s0) as [|f fs] eqn:Hc; [rewrite zlen_nil in Ed; lia|]. rewrite <- Hc in Ed.
  eapply top_yields; [done|]. destruct (at_idx_lt (x_control s0) d) as (g & Hg & _); [lia|].
  assert (label_frame (x_control s0) d = g) as Hlf by (unfold label_frame; by rewrite Hg).
  apply frame_yields. cbn [set_code x_control]. rewrite Hg. intros g' [= <-]. eapply yields_seq; [apply update_branch_stack_yields|].
  intros _ s1 (o & -> & Ho). unfold emit32 at 1. apply yields_modify. cbn [set_operands set_control set_code x_control x_code x_operands x_input].
  set (s2 := set_code _ _). set (all := labels ++ [d]). set (T' := table_targets T (x_control s0) (size L + 9) all).
  assert (length (x_code s2) = (size L + 9)%nat) as Hlen2.
  { unfold s2. cbn [set_code x_code]. rewrite !length_app, !length_le_bytes, (length_code _ _ _ _ _ Hs). cbn [length]. lia. }
  assert (x_control s2 = x_control s0 /\ x_operands s2 = o) as [Hc2 Ho2] by done.
  assert (get_branch_arity g = get_branch_arity (label_frame (x_control s0) d)) as Hga by (by rewrite Hlf).
  apply yields_assoc. eapply yields_seq; [apply (table_yields T')|].
  - rewrite Hlen2, Hc2. intros j idx Hj. by apply table_target.
  - rewrite Hc2, Hg. by eexists.
  - by rewrite Hc2, Hlf.
  - cbv beta zeta. fold all. rewrite Hlen2, Hc2, Ho2. intros _ s3 [Hs3 Hall].
    assert (x_control s3 = add_branches (label_slots (size L + 9) all) (x_control s0)) as Hc3 by (by rewrite Hs3).
    destruct (x_control s3) as [|f3 fs3] eqn:Ec3;
      [intros a s'; unfold mark_frame_unreachable, top_frame, frame_at, bind, gets, elem; by rewrite Ec3|].
    eapply yields_mono; [by apply mark_yields|]. intros _ s' (o' & ->).
    set (it := Switch (get_branch_arity g) (label_drop (x_control s0) (zlen o) <$> all)).
    exists T', (L ++ [(current (x_control s0) n, it)]). cbn [set_operands set_control x_code x_control x_operands x_max].
    replace (current (frame_unreachable f3 :: fs3) _) with (@None Z) by done. split; [|split].
    + rewrite Hs3. cbn [set_code x_code]. unfold s2. cbn [set_code set_operands x_code].
      rewrite (enc_snoc T) by (intros o1 Ho1; apply table_target_below; lia). rewrite (ai_code _ _ _ _ _ Hs), <- !app_assoc. unfold it. cbn [enc_item app].
      replace (zlen (_ <$> all) - 1) with (zlen labels); [done|]. unfold zlen, all. rewrite length_fmap, length_app. cbn [length]. lia.
    + eapply table_good; [exact Hs| | | | |rewrite <- Hc3; apply extends_mark].
      * unfold all, zlen in *. rewrite length_app. cbn [length]. lia.
      * eapply Forall_impl; [exact Hall|]. by intros idx [? _].
      * rewrite Hc. intros [Hu Hlv]%live_cons. destruct (Ho Hu) as [Ho1 Ho2']. cbn [set_code x_operands] in Ho2'. split; [done|].
        rewrite <- Hc. eapply Forall_impl; [exact Hall|]. intros idx [[g' Hg'] Ht]. split; [unfold get_branch_arity; by rewrite Ht|].
        unfold label_frame. rewrite Hg'. apply at_idx_nat in Hg' as (k & -> & Hk). pose proof (ai_frames _ _ _ _ _ Hs) as Hf. rewrite Hc in Hf, Hk.
        pose proof (frames_below _ _ _ _ _ _ Hf Hk). cbn. lia.
      * unfold get_branch_arity. destruct (is_some_type _); lia.
    + rewrite Hs3. eapply max_snoc; [exact Hs|done].
Qed.

(** *** The switch *)

(** After an instruction: the code so far is certifiable, and once the last
    frame is closed it is certified. *)
Definition certifies (b : bool) (s : expr_state) : Prop :=
  if b then certifiable s else x_control s = [] -> code_ok m num_locals arity (x_max s) (x_code s).

Lemma goes_on (h : E unit) s : yields h (fun _ => certifiable) s -> yields (h ;;; ret true) certifies s.
Proof. intros H. eapply yields_seq; [exact H|]. cbv beta. intros _ s' Hs'. by apply yields_ret. Qed.

Lemma handle_code i n T L s : at_instr i n T L s -> yields (handle m func_inputs locals i) certifies s.
Proof.
  intros Hs. assert (x_control s <> []) as Hne.
  { intros Hc. pose proof (g_bottom _ _ _ _ _ _ _ _ (ai_good _ _ _ _ _ Hs)) as Hb. by rewrite Hc in Hb. }
  destruct i; cbn [handle]; try exact (handle_end_code _ _ _ _ Hs); apply goes_on;
    first
    [ exact (handle_unreachable_code _ _ _ _ Hs Hne) | exact (handle_drop_code _ _ _ _ Hs Hne) | exact (handle_select_code _ _ _ _ Hs Hne)
    | exact (handle_if_code _ _ _ _ Hs) | exact (handle_else_code _ _ _ _ Hs Hne) | exact (handle_br_table_code _ _ _ _ Hs)
    | exact (handle_return_code _ _ _ _ Hs) | exact (handle_call_code _ _ _ _ Hs Hne) | exact (handle_call_indirect_code _ _ _ _ Hs Hne)
    | by eapply handle_block_code; [exact Hs|auto] | by eapply handle_br_code; [exact Hs|auto]
    | by eapply handle_local_code; [exact Hs|done|auto] | by eapply handle_global_code; [exact Hs|done|auto]
    | by eapply handle_const_code; [exact Hs|auto] | by eapply handle_memory_size_code; [exact Hs|auto]
    | by eapply handle_memory_access_code; [exact Hs|]
    | by eapply (emit_opcode _ n T L s 0 0); [exact Hs| | | |] ].
Qed.
End handlers.
