(* ===== verification/FizzyCertify.v ===== *)
(** * Every code of a parsed module is certified

    The size of the code [parse_expr] emits is at most fourteen times that of
    what it reads, and so is the height of the stack; with [FizzyExprCode], the
    modules [parse] returns have certified code, whose offsets and heights fit
    in the fields that hold them. *)

From stdpp Require Import base list option numbers strings.
From S2P Require Import Prelude Memory FizzyLeb128 FizzyTypes FizzyExpr FizzyExprSafety FizzyCode FizzyExprCode FizzyParser FizzyParserSafety.

(** ** Sizes

    The code, the operands, and fourteen for a byte that is still to be read. *)

Definition weight (s : expr_state) : Z := zlen (x_code s) + zlen (x_operands s) + 14 * zlen (x_input s).

(** [p] adds at most [k] to the weight, and does not change the largest height. *)
Definition adds {A} (k : Z) (p : E A) : Prop :=
  forall s, bytes_ok (x_input s) -> yields p (fun _ s' => weight s' <= weight s + k /\ x_max s' = x_max s /\ bytes_ok (x_input s')) s.

Section adds.

Lemma adds_bind {A B} a b k (p : E A) (h : A -> E B) : adds a p -> (forall x, adds b (h x)) -> a + b <= k -> adds k (bind p h).
Proof.
  intros Hp Hh Hk s Hok. eapply yields_seq; [by apply Hp|]. intros x s1 (H1 & H2 & H3). eapply yields_mono; [by apply Hh|].
  intros _ s2 (H4 & H5 & H6). split; [lia|]. split; [congruence|done].
Qed.

Lemma adds_then {A B} a k (p : E A) (h : A -> E B) : adds a p -> (forall x, adds (k - a) (h x)) -> adds k (bind p h).
Proof. intros Hp Hh. eapply adds_bind; [exact Hp|exact Hh|lia]. Qed.

Lemma adds_mono {A} a k (p : E A) : adds a p -> a <= k -> adds k p.
Proof. intros Hp Hk s Hok. eapply yields_mono; [by apply Hp|]. intros _ s2 (H4 & H5 & H6). split; [lia|done]. Qed.

Lemma adds_ret {A} (a : A) : adds 0 (ret a).
Proof. intros s Hok a' s' [= <- <-]. split; [lia|done]. Qed.

Lemma adds_throw {A} e k : adds k (throw e : E A).
Proof. by intros s. Qed.

Lemma adds_fail {A} e k : adds k (fail e : E A).
Proof. by intros s. Qed.

Lemma adds_gets {A} (f : expr_state -> A) : adds 0 (gets f).
Proof. intros s Hok a' s' [= <- <-]. split; [lia|done]. Qed.

Lemma adds_assert b : adds 0 (assert_that b).
Proof. destruct b; [apply adds_ret|apply adds_fail]. Qed.

Lemma adds_elem {A} (l : list A) i : adds 0 (elem l i).
Proof. unfold elem. destruct (at_idx l i); [apply adds_ret|apply adds_fail]. Qed.

Lemma adds_emit bs : adds (zlen bs) (emit bs).
Proof. intros s Hok a s' [= <- <-]. unfold weight. cbn. unfold zlen in *. rewrite length_app. split; [lia|done]. Qed.

Lemma adds_emit32 v : adds 4 (emit32 v).
Proof. apply (adds_emit (le_bytes 4 v)). Qed.

Lemma adds_read {A} (p : parser A) Q : reader p Q -> adds (-14) (on_input p).
Proof.
  intros Hp s Hok a s' Ha. unfold on_input, zoom in Ha. specialize (Hp (x_input s) Hok). unfold accepts in Hp.
  destruct (p (x_input s)) as [a' rest| |] eqn:E; simplify_eq. destruct Hp as (_ & l & Hl & Hin). unfold weight. cbn. rewrite Hin.
  unfold zlen. rewrite length_app. split; [destruct l; [done|cbn; lia]|]. split; [done|]. rewrite Hin in Hok. by apply Forall_app in Hok as [_ ?].
Qed.

Lemma adds_push t : adds 1 (push_operand t).
Proof. intros s Hok a s' [= <- <-]. unfold weight. cbn. rewrite zlen_cons. split; [lia|done]. Qed.

Lemma adds_pop : adds 0 pop_operand.
Proof.
  intros s Hok a s'. unfold pop_operand, bind, gets. destruct (x_operands s) as [|t ops] eqn:E; [done|]. intros [= <- <-].
  unfold weight. cbn. rewrite E, zlen_cons. split; [lia|done].
Qed.

Lemma adds_control (f : expr_state -> list ControlFrame) : adds 0 (modify (fun s => set_control (f s) s)).
Proof. intros s Hok a s' [= <- <-]. unfold weight. cbn. split; [lia|done]. Qed.

Lemma adds_pop_control : adds 0 pop_control.
Proof.
  intros s Hok a s'. unfold pop_control, bind, gets. destruct (x_control s); [done|]. intros [= <- <-]. unfold weight. cbn. split; [lia|done].
Qed.

Lemma adds_shrink n : adds 0 (shrink_operands n).
Proof.
  unfold shrink_operands. intros s Hok. apply yields_gets, yields_assert. intros _ a s' [= <- <-]. unfold weight. cbn.
  unfold zlen. rewrite length_drop. split; [lia|done].
Qed.

Lemma adds_store off v : adds 0 (store32_at off v).
Proof.
  intros s Hok a s' Heq. pose proof (store32_yields off v s a s' Heq) as Hs'. cbv beta in Hs'. unfold store32_at, bind, gets in Heq.
  destruct (_ <=? _)%nat eqn:E; [|done]. apply Nat.leb_le in E. clear Heq. rewrite Hs'. unfold weight, overwrite.
  cbn [set_code x_code x_operands x_input x_max]. unfold zlen. rewrite !length_app, length_take, length_drop, length_le_bytes. split; [lia|done].
Qed.
End adds.

Create HintDb adds.
#[local] Hint Resolve adds_ret adds_gets adds_assert adds_elem adds_pop adds_control adds_pop_control adds_shrink adds_store
  adds_emit adds_emit32 adds_push : adds.

(** Walks through a handler, with what is left of its budget. *)
Ltac weigh :=
  cbv zeta;
  lazymatch goal with
  | |- adds _ (throw _) => apply adds_throw
  | |- adds _ (fail _) => apply adds_fail
  | |- adds _ (bind _ _) => first [eapply adds_then; [solve [eauto with adds]|intros ?; weigh] | idtac]
  | |- adds _ (match ?x with _ => _ end) => destruct x; weigh
  | |- adds _ _ => first [eapply adds_mono; [solve [eauto with adds]|unfold zlen; cbn [length]; lia] | idtac]
  end.

Section handlers.
Context (m : Module_) (func_inputs : list ValType) (locals : list Locals).
Context (Htypes : Forall functype_ok (typesec m)) (Himported : Forall functype_ok (imported_function_types m)).

Lemma adds_frame i : adds 0 (frame_at i).
Proof. unfold frame_at. weigh. Qed.

Lemma adds_top : adds 0 top_frame.
Proof. apply adds_frame. Qed.

Lemma adds_u32 : adds (-14) u32_imm.
Proof. eapply adds_read, reader_u. Qed.

Lemma adds_update_frame i f : adds 0 (update_frame i f).
Proof. unfold update_frame. apply (adds_control (fun s => alter f (Z.to_nat i) (x_control s))). Qed.

Lemma adds_push_control f : adds 0 (push_control f).
Proof. unfold push_control. apply (adds_control (fun s => f :: x_control s)). Qed.

#[local] Hint Resolve adds_frame adds_top adds_u32 adds_update_frame adds_push_control : adds.

Lemma adds_pop_inputs f l : adds 0 (pop_inputs f l).
Proof. induction l as [|t l IH]; cbn [pop_inputs]; weigh. Qed.

Lemma adds_push_outputs outs : adds (zlen outs) (push_outputs outs).
Proof.
  induction outs as [|t outs IH]; cbn [push_outputs]; [apply adds_ret|]. rewrite zlen_cons.
  eapply adds_then; [apply adds_push|]. intros _. eapply adds_mono; [exact IH|lia].
Qed.

#[local] Hint Resolve adds_pop_inputs adds_push_outputs : adds.

Lemma adds_update f ins outs : adds (zlen outs) (update_operand_stack f ins outs).
Proof. unfold update_operand_stack. weigh. Qed.

Lemma adds_drop f t : adds 0 (drop_operand f t).
Proof. unfold drop_operand. weigh. Qed.

#[local] Hint Resolve adds_update adds_drop : adds.

Lemma adds_result f : adds 0 (update_result_stack f).
Proof. unfold update_result_stack. weigh. Qed.

Lemma adds_branch_stack f g : adds 0 (update_branch_stack f g).
Proof. unfold update_branch_stack. weigh. Qed.

Lemma adds_mark : adds 0 mark_frame_unreachable.
Proof. unfold mark_frame_unreachable. weigh. Qed.

Lemma adds_push_immediates f h : adds 8 (push_branch_immediates f h).
Proof. unfold push_branch_immediates. weigh. Qed.

#[local] Hint Resolve adds_result adds_branch_stack adds_mark adds_push_immediates : adds.

Lemma adds_immediates i : adds 8 (branch_immediates i).
Proof. unfold branch_immediates. weigh. Qed.

#[local] Hint Resolve adds_immediates : adds.

Lemma adds_take i l : adds 13 (take_branch i l).
Proof. unfold take_branch. weigh.
Qed.

Lemma adds_table t labels : adds (8 * zlen labels) (table_branches t labels).
Proof. induction labels as [|l labels IH]; cbn [table_branches]; [apply adds_ret|]. rewrite zlen_cons. weigh. Qed.

Lemma adds_fill offs v : adds 0 (fill_branches offs v).
Proof. induction offs as [|o offs IH]; cbn [fill_branches]; weigh. Qed.

Lemma adds_blocktype : adds (-14) (on_input parse_blocktype).
Proof. eapply adds_read, reader_blocktype. Qed.

Lemma adds_byte : adds (-14) (on_input parse_byte).
Proof. eapply adds_read, reader_byte. Qed.

Lemma adds_function_type idx : adds 0 (get_function_type m idx).
Proof. unfold get_function_type. weigh. Qed.

Lemma adds_global_type idx : adds 0 (get_global_type m idx).
Proof. unfold get_global_type. weigh. Qed.

Lemma adds_local_type idx : adds 0 (find_local_type func_inputs locals idx).
Proof. unfold find_local_type. weigh. Qed.

#[local] Hint Resolve adds_take adds_table adds_fill adds_blocktype adds_byte adds_function_type adds_global_type adds_local_type : adds.

Lemma adds_br i : adds 1 (handle_br i).
Proof. unfold handle_br. weigh. Qed.

Lemma items_size {A} (p : parser A) Q fuel count input xs rest :
  reader p Q -> bytes_ok input -> parse_items p fuel count input = Ret xs rest -> (length rest + length xs <= length input)%nat.
Proof.
  intros Hp. revert count input xs rest. induction fuel as [|fuel IH]; intros count input xs rest Hok; cbn [parse_items];
    (destruct (count <=? 0); [intros [= <- <-]; cbn; lia|]); [done|].
  intros H. apply bind_Ret_inv in H as (x & r1 & Hx & H). apply bind_Ret_inv in H as (xs' & r2 & Hxs & [= <- <-]).
  specialize (Hp input Hok). unfold accepts in Hp. rewrite Hx in Hp. destruct Hp as (_ & l & Hl & ->).
  apply Forall_app in Hok as [_ Hok]. apply IH in Hxs; [|done]. rewrite length_app. cbn. destruct l; [done|cbn; lia].
Qed.

Lemma adds_labels s :
  bytes_ok (x_input s) ->
  yields (on_input (parse_vec (leb128u_decode 32)))
    (fun xs s' => weight s' <= weight s - 14 - 14 * zlen xs /\ x_max s' = x_max s /\ bytes_ok (x_input s')) s.
Proof.
  intros Hok xs s' Ha. pose proof (adds_read _ _ (reader_vec _ _ (reader_u 32)) s Hok xs s' Ha) as (_ & Hm & Hok').
  split; [|done]. unfold on_input, zoom in Ha. destruct (parse_vec _ _) as [xs' rest| |] eqn:E; simplify_eq.
  unfold parse_vec in E. apply bind_Ret_inv in E as (n & r1 & Hn & E). pose proof (reader_u 32 (x_input s) Hok) as Hr. unfold accepts in Hr.
  rewrite Hn in Hr. destruct Hr as (_ & l & Hl & Hin). assert (bytes_ok r1) as Hok1 by (rewrite Hin in Hok; by apply Forall_app in Hok as [_ ?]).
  apply (items_size _ _ _ _ _ _ _ (reader_u 32)) in E; [|done]. unfold weight. cbn. rewrite Hin. unfold zlen. rewrite length_app.
  destruct l; [done|cbn [length]; lia].
Qed.

Lemma adds_br_table : adds 0 handle_br_table.
Proof.
  intros s Hok. unfold handle_br_table. eapply yields_seq; [by apply adds_labels|]. cbv beta. intros labels s1 (Hw & Hm & Hok1).
  match goal with |- yields ?p _ _ => assert (adds (8 * zlen labels + 14) p) as Hp by weigh end.
  eapply yields_mono; [by apply Hp|]. cbv beta. intros _ s2 (H1 & H2 & H3). pose proof (zlen_nonneg labels). split; [lia|]. split; [congruence|done].
Qed.

Lemma adds_return : adds 13 handle_return.
Proof. unfold handle_return. weigh. Qed.

Lemma adds_select : adds 2 handle_select.
Proof.
  unfold handle_select. eapply adds_then; [apply adds_top|intros f]. eapply adds_then; [apply adds_gets|intros ops]. destruct (_ && _); [apply adds_throw|].
  eapply (adds_then 0); [destruct (_ <? _); [apply adds_elem|apply adds_ret]|intros t]. weigh.
Qed.

Lemma adds_block i : adds 0 (handle_block i).
Proof. unfold handle_block. weigh. Qed.

Lemma adds_if : adds 0 handle_if.
Proof. unfold handle_if. weigh. Qed.

Lemma adds_else : adds 5 handle_else.
Proof. unfold handle_else. weigh. Qed.

Lemma adds_end : adds 2 handle_end.
Proof.
  unfold handle_end. eapply adds_then; [apply adds_top|intros f]. eapply adds_then; [apply adds_result|intros _]. destruct (_ && _); [apply adds_throw|].
  eapply adds_then; [apply adds_gets|intros s]. cbv zeta. eapply (adds_then 0).
  - destruct (bool_decide _); [apply adds_ret|]. eapply (adds_then 0); [destruct (_ || _); [apply adds_store|apply adds_ret]|intros _; apply adds_fill].
  - intros _. eapply adds_then; [apply adds_shrink|intros _]. eapply adds_then; [apply adds_pop_control|intros _].
    eapply adds_then; [apply adds_gets|intros control]. eapply (adds_then 1); [|intros _; weigh]. destruct control; [by eapply adds_mono; [apply adds_ret|]|].
    destruct (cf_type f); [apply adds_push|by eapply adds_mono; [apply adds_ret|]].
Qed.

Lemma outputs_at idx t : function_type_at m idx = Some t -> zlen (outputs t) <= 1.
Proof.
  unfold function_type_at, at_idx, functype_ok in *. rewrite !Forall_forall in *. unfold zlen. destruct (idx <? _).
  - destruct (idx <? 0); [done|]. intros H%list_elem_of_lookup_2. specialize (Himported t H). lia.
  - destruct (_ <? 0); [done|]. destruct (funcsec m !! _) as [i|]; [|done]. cbn. destruct (i <? 0); [done|].
    intros H%list_elem_of_lookup_2. specialize (Htypes t H). lia.
Qed.

Lemma adds_call : adds 0 (handle_call m).
Proof.
  unfold handle_call. eapply adds_then; [apply adds_u32|intros idx]. destruct (_ <=? idx); [apply adds_throw|].
  intros s Hok. eapply yields_seq; [intros t s' Ht; exact (conj (get_function_type_yields m _ s t s' Ht) (adds_function_type idx s Hok t s' Ht))|].
  intros t s' [[-> Ht%outputs_at] _]. revert Hok. generalize s. change (adds (0 - -14)
    (let* frame := top_frame in update_operand_stack frame (inputs t) (outputs t);;; emit [Instr.opcode Instr.call];;; emit32 idx)).
  eapply adds_then; [apply adds_top|intros f]. eapply adds_then; [apply adds_update|intros _]. unfold zlen in *. weigh.
Qed.

Lemma adds_call_indirect : adds 0 (handle_call_indirect m).
Proof.
  unfold handle_call_indirect. destruct (negb _); [apply adds_throw|]. eapply adds_then; [apply adds_u32|intros idx]. destruct (_ <=? idx); [apply adds_throw|].
  intros s Hok. apply yields_elem. intros t Ht. assert (zlen (outputs t) <= 1) as Hout.
  { unfold at_idx in Ht. destruct (idx <? 0); [done|]. apply list_elem_of_lookup_2 in Ht. rewrite Forall_forall in Htypes. specialize (Htypes t Ht).
    unfold functype_ok, zlen in *. lia. }
  match goal with |- yields ?p _ _ => enough (adds (0 - -14) p) as Hp by (by apply Hp) end.
  eapply adds_then; [apply adds_top|intros f]. eapply adds_then; [apply adds_update|intros _]. unfold zlen in *. weigh.
Qed.

Lemma adds_local i : adds 0 (handle_local func_inputs locals i).
Proof.
  unfold handle_local. eapply adds_then; [apply adds_u32|intros idx]. eapply adds_then; [apply adds_local_type|intros t].
  eapply adds_then; [apply adds_top|intros f]. eapply (adds_then 1); [|intros _; weigh]. weigh.
Qed.

Lemma adds_global i : adds 0 (handle_global m i).
Proof.
  unfold handle_global. eapply adds_then; [apply adds_u32|intros idx]. destruct (_ <=? idx); [apply adds_throw|]. eapply adds_then; [apply adds_global_type|intros t].
  eapply adds_then; [apply adds_top|intros f]. eapply (adds_then 1); [|intros _; weigh]. weigh.
Qed.

Lemma adds_const i : adds 0 (handle_const i).
Proof.
  unfold handle_const. eapply (adds_then (-14)).
  - destruct i; first [eapply adds_read, reader_s | (eapply adds_read, reader_value; lia)].
  - intros v. eapply adds_then; [apply adds_emit|intros _]. eapply adds_mono; [apply adds_emit|]. unfold zlen. rewrite length_le_bytes. destruct i; cbn; lia.
Qed.

Lemma adds_memory_access i : adds 0 (handle_memory_access m i).
Proof. unfold handle_memory_access. weigh. Qed.

Lemma adds_memory_size i : adds 0 (handle_memory_size m i).
Proof. unfold handle_memory_size. weigh. Qed.

#[local] Hint Resolve adds_br adds_br_table adds_return adds_select adds_block adds_if adds_else adds_call adds_call_indirect adds_local
  adds_global adds_const adds_memory_access adds_memory_size : adds.

Lemma adds_handle i : adds (14 - zlen (type_of_opcode (Instr.opcode i)).2) (handle m func_inputs locals i).
Proof.
  destruct i; cbn [handle is_memory_access]; type_sizes;
    first [ (eapply adds_mono; [apply adds_end|lia])
          | (eapply adds_then; [solve [eauto with adds]|intros _; weigh])
          | (eapply (adds_then 1); [weigh|intros _; weigh]) ].
Qed.

(** One instruction keeps the weight and the largest height below a bound. *)
Lemma parse_instr_size B s :
  bytes_ok (x_input s) -> weight s <= B -> x_max s <= B ->
  yields (parse_instr m func_inputs locals) (fun _ s' => weight s' <= B /\ x_max s' <= B /\ bytes_ok (x_input s')) s.
Proof.
  intros Hok Hw Hm. unfold parse_instr. eapply yields_seq; [by apply adds_byte|]. intros b s1 (Hw1 & Hm1 & Hok1).
  eapply yields_seq; [by apply adds_top|]. intros f s2 (Hw2 & Hm2 & Hok2).
  eapply (yields_seq _ _ (fun _ s3 => weight s3 = weight s2 /\ x_max s3 <= B /\ bytes_ok (x_input s3))).
  { destruct (cf_unreachable f); [apply yields_ret; split; [done|]; split; [lia|done]|]. intros a s3 [= _ <-]. cbn. split; [done|]. split; [|done].
    assert (zlen (x_operands s2) <= weight s2) by (unfold weight, zlen; lia). lia. }
  intros _ s3 (Hw3 & Hm3 & Hok3). eapply yields_seq; [by apply adds_update|]. intros _ s4 (Hw4 & Hm4 & Hok4).
  destruct (Instr.of_byte b) as [i|] eqn:Eb; [|done]. apply of_byte_Some in Eb as ->. eapply yields_mono; [by apply adds_handle|].
  intros c s5 (Hw5 & Hm5 & Hok5). split; [lia|]. split; [lia|done].
Qed.
End handlers.

(** ** The loop *)

Section certify.
Context (m : Module_) (func_inputs : list ValType) (locals : list Locals) (arity : Z).
Context (Hlocals : Forall (fun l => 0 <= l_count l) locals) (Htotal : total_locals locals < 2 ^ 32).
Context (Hm : types_ok m) (Htypes : Forall functype_ok (typesec m)) (Himported : Forall functype_ok (imported_function_types m)).

Abbreviation certifiable := (certifiable m func_inputs locals arity).
Abbreviation certifies := (certifies m func_inputs locals arity).

Lemma parse_instr_code s :
  certifiable s -> frames_ok (zlen (x_operands s)) (length (x_code s)) (x_control s) -> bytes_ok (x_input s) ->
  yields (parse_instr m func_inputs locals) certifies s.
Proof.
  intros (T & L & Hcode & Hg & Hmax) Hf Hok. unfold parse_instr. apply yields_input. intros b rest Hb.
  pose proof (reader_suffix _ _ _ reader_byte Hok) as Hr. unfold accepts in Hr. rewrite Hb in Hr. destruct Hr as [_ Hsuf].
  pose proof (suffix_ok _ _ Hsuf Hok) as Hok1. destruct (x_control s) as [|f fs] eqn:Hc; [by destruct (g_bottom _ _ _ _ _ _ _ _ Hg)|].
  eapply top_yields; [done|]. set (n := zlen (x_operands s)) in *. set (x := if cf_unreachable f then x_max s else Z.max (x_max s) n).
  eapply (yields_seq _ _ (fun _ s1 => s1 = set_max x (set_input rest s))).
  { unfold x. destruct (cf_unreachable f); intros a s1 [= _ <-]; [by destruct s|done]. }
  cbv beta. intros _ s1 ->. apply yields_bind. intros a s2 Hs2.
  pose proof (update_operand_stack_spec f (type_of_opcode b).1 (type_of_opcode b).2 (set_max x (set_input rest s)) (proj1 Hf)) as Hspec.
  unfold accepts in Hspec. rewrite Hs2 in Hspec. destruct Hspec as (o & -> & Hle).
  apply update_operand_stack_yields in Hs2 as (o' & Heq & Ho). assert (o' = o) as -> by (by injection Heq). clear Heq.
  destruct (Instr.of_byte b) as [i|] eqn:Eb; [|done]. apply of_byte_Some in Eb as ->.
  apply (handle_code m func_inputs locals arity Hlocals Htotal i n T L). constructor; cbn [set_operands set_max set_input x_control x_operands x_code x_input x_max].
  - done.
  - by rewrite Hc.
  - intros h it Hin. specialize (Hmax h it Hin). unfold x. destruct (cf_unreachable f); lia.
  - rewrite Hc. intros [Hu _]%live_cons. unfold x. rewrite Hu. unfold n, zlen. lia.
  - rewrite Hc. intros [Hu _]%live_cons. destruct (Ho Hu) as [H1 H2]. cbn in H1, H2. fold n in H1, H2. destruct Hf as (H3 & _). lia.
  - rewrite Hc. destruct Hf as (H3 & H4 & H5). split; [lia|done].
  - done.
Qed.

Lemma parse_instrs_code B fuel s :
  inv (x_input s) s -> certifiable s -> weight s <= B -> x_max s <= B ->
  yields (parse_instrs m func_inputs locals fuel) (fun _ s' =>
    code_ok m (zlen func_inputs + total_locals locals) arity (x_max s') (x_code s') /\ zlen (x_code s') <= B /\ x_max s' <= B) s.
Proof.
  revert s. induction fuel as [|fuel IH]; intros s HI Hcert Hw Hx; cbn [parse_instrs]; [done|]. apply yields_bind. intros b s1 Hs1.
  assert (x_control s <> []) as Hne.
  { destruct Hcert as (T & L & _ & Hg & _). intros Hc. pose proof (g_bottom _ _ _ _ _ _ _ _ Hg) as Hb. by rewrite Hc in Hb. }
  pose proof (parse_instr_safe m func_inputs locals s Hm (inv_ok _ _ HI) HI Hne) as Hsafe. unfold accepts in Hsafe. rewrite Hs1 in Hsafe.
  destruct Hsafe as (_ & _ & HI1 & Hb).
  destruct (parse_instr_size m func_inputs locals Htypes Himported B s (inv_ok _ _ HI) Hw Hx b s1 Hs1) as (Hw1 & Hx1 & _).
  pose proof (parse_instr_code s Hcert (inv_frames _ _ HI) (inv_ok _ _ HI) b s1 Hs1) as Hc1. unfold FizzyExprCode.certifies in Hc1.
  destruct b; [by apply IH|]. apply yields_ret. split; [|split; [|done]].
  - apply Hc1. by destruct (x_control s1).
  - unfold weight, zlen in *. lia.
Qed.
End certify.

Lemma parse_expr_certified func_idx locals m t ft input c rest :
  types_ok m -> Forall functype_ok (typesec m) -> Forall functype_ok (imported_function_types m) -> bytes_ok input ->
  Forall (fun l => 0 <= l_count l) locals -> total_locals locals < 2 ^ 32 ->
  at_idx (funcsec m) func_idx = Some t -> at_idx (typesec m) t = Some ft ->
  parse_expr func_idx locals m input = Ret c rest ->
  code_ok m (zlen (inputs ft) + total_locals locals) (zlen (outputs ft)) (max_stack_height c) (instructions c) /\
  zlen (instructions c) <= 14 * zlen input /\ max_stack_height c <= 14 * zlen input.
Proof.
  intros Hm Htypes Himported Hok Hl1 Hl2 Ht Hft. unfold parse_expr. unfold bind at 1, elem at 1. rewrite Ht. cbn [ret].
  unfold bind at 1. unfold assert_that at 1. destruct (t <? _); [cbn [ret]|done]. unfold bind at 1, elem at 1. rewrite Hft. cbn [ret]. cbv zeta.
  set (f := new_frame _ _ _ _). set (s0 := ExprState input _ _ _ _). destruct (parse_instrs _ _ _ _ s0) as [[] s1| |] eqn:E; [|done|done].
  intros H. apply bind_Ret_inv in H as ([] & r & Ha & [= <- <-]). cbn [max_stack_height instructions].
  assert (zlen (outputs ft) <= 1) as Hout.
  { unfold at_idx in Hft. destruct (t <? 0); [done|]. apply list_elem_of_lookup_2 in Hft. rewrite Forall_forall in Htypes. specialize (Htypes ft Hft).
    unfold functype_ok, zlen in *. lia. }
  eapply (parse_instrs_code m (inputs ft) locals (zlen (outputs ft)) Hl1 Hl2 Hm Htypes Himported _ _ s0 _ _ _ _ tt s1 E).
  Unshelve.
  - constructor; [done|by exists []|]. split; [by split|]. split; [|done]. split; [|constructor]. intros [?|?]; done.
  - exists (fun _ => 0), []. split; [done|]. split; [|by intros h it ?%not_elem_of_nil]. constructor; [done|by intros off e ?%not_elem_of_nil| |by split|done|].
    + intros g off ->%list_elem_of_singleton [[_ H]|[[H|H] _]]; [by apply not_elem_of_nil in H|done|done].
    + split; [done|]. split; [done|]. unfold arity_of, f. cbn. destruct (outputs ft) as [|o [|o' l]]; [done|done|]. rewrite !zlen_cons in Hout. pose proof (zlen_nonneg l). lia.
  - unfold weight. unfold zlen. cbn. lia.
  - cbn. unfold zlen. lia.
Qed.

(** ** Modules *)

Lemma code_views_size N fuel count input xs rest :
  bytes_ok input -> (length input <= N)%nat -> parse_items parse_code_view fuel count input = Ret xs rest -> Forall (fun b : bytes => length b <= N)%nat xs.
Proof.
  revert count input xs rest. induction fuel as [|fuel IH]; intros count input xs rest Hok HN; cbn [parse_items];
    (destruct (count <=? 0); [intros [= <- <-]; constructor|]); [done|].
  intros H. apply bind_Ret_inv in H as (x & r1 & Hx & H). apply bind_Ret_inv in H as (xs' & r2 & Hxs & [= <- <-]).
  pose proof (reader_code_view input Hok) as Hr. unfold accepts in Hr. rewrite Hx in Hr. destruct Hr as (_ & l & _ & Hin).
  assert (length r1 <= length input)%nat as Hr1 by (rewrite Hin, length_app; lia).
  assert (bytes_ok r1) as Hok1 by (rewrite Hin in Hok; by apply Forall_app in Hok as [_ ?]).
  constructor; [|eapply IH; [exact Hok1|lia|exact Hxs]]. unfold parse_code_view in Hx. apply bind_Ret_inv in Hx as (n & r & Hn & Hx).
  pose proof (reader_u 32 input Hok) as Hr. unfold accepts in Hr. rewrite Hn in Hr. destruct Hr as (_ & l' & _ & Hin').
  unfold parse_bytes in Hx. destruct (zlen r <? n); [done|]. injection Hx as <- _. rewrite length_take. rewrite Hin', length_app in HN. lia.
Qed.

Lemma parse_section_size N id size m codes input m' codes' rest :
  bytes_ok input -> (length input <= N)%nat -> Forall (fun b : bytes => length b <= N)%nat codes ->
  parse_section id size m codes input = Ret (m', codes') rest -> Forall (fun b : bytes => length b <= N)%nat codes'.
Proof.
  intros Hok HN Hc. unfold parse_section. destruct id as [|p|p]; [| |done].
  { intros H. apply bind_Ret_inv in H as (v & r & _ & H). destruct (parse_string v); [|done|done]. by injection H as _ <- _. }
  do 4 (try (destruct p as [p|p|]; try done)); try done; intros H; apply bind_Ret_inv in H as (v & r & Hv & H); try (by injection H as _ <- _).
  injection H as _ <- _. unfold parse_vec in Hv. apply bind_Ret_inv in Hv as (n & r1 & Hn & Hv).
  pose proof (reader_u 32 input Hok) as Hr. unfold accepts in Hr. rewrite Hn in Hr. destruct Hr as (_ & l & _ & Hin).
  eapply code_views_size; [| |exact Hv]; [rewrite Hin in Hok; by apply Forall_app in Hok as [_ ?]|rewrite Hin, length_app in HN; lia].
Qed.

Lemma parse_sections_size N fuel last m codes input m' codes' rest :
  bytes_ok input -> (length input <= N)%nat -> sections_ok m codes -> Forall (fun b : bytes => length b <= N)%nat codes ->
  parse_sections fuel last m codes input = Ret (m', codes') rest -> Forall (fun b : bytes => length b <= N)%nat codes'.
Proof.
  revert last m codes input. induction fuel as [|fuel IH]; intros last m codes input Hok HN Hs Hc; cbn [parse_sections];
    (destruct input as [|b input]; [by intros [= _ <- _]|]); [done|].
  intros H. apply bind_Ret_inv in H as (id & r & Hid & H). injection Hid as <- <-. apply Forall_cons_1 in Hok as [_ Hok]. cbn [length] in HN.
  destruct (negb _ && _); [done|]. cbv zeta in H. apply bind_Ret_inv in H as (size & r & Hsize & H).
  pose proof (reader_suffix _ _ _ (reader_u 32) Hok) as Hr. unfold accepts in Hr. rewrite Hsize in Hr. destruct Hr as [Hsz Hsuf].
  apply bind_Ret_inv in H as (here & r' & Hh & H). injection Hh as <- <-. destruct (_ <? size); [done|].
  apply bind_Ret_inv in H as ([m1 codes1] & r' & Hsec & H). pose proof (suffix_ok _ _ Hsuf Hok) as Hok1.
  pose proof (parse_section_ok b size m codes ltac:(lia) Hs r Hok1) as Hf. unfold accepts in Hf. rewrite Hsec in Hf. destruct Hf as [Hs1 Hsuf1].
  apply bind_Ret_inv in H as (there & r2 & Hh & H). injection Hh as <- <-. destruct (negb _); [done|].
  apply suffix_length in Hsuf. pose proof (suffix_length _ _ Hsuf1).
  eapply IH; [| | | |exact H]; [by eapply suffix_ok|lia|done|]. eapply parse_section_size; [exact Hok1| |exact Hc|exact Hsec]. lia.
Qed.

(** The code of a function of type [ft], with the sizes the interpreter relies
    on. *)
Record function_certified (m : Module_) (ft : FuncType) (c : Code) : Prop := {
  fc_code : code_ok m (zlen (inputs ft) + local_count c) (zlen (outputs ft)) (max_stack_height c) (instructions c);
  fc_size : zlen (instructions c) < 2 ^ 31;
  fc_height : max_stack_height c < 2 ^ 31;
  fc_locals : 0 <= local_count c /\ zlen (inputs ft) + local_count c < 2 ^ 32
}.

Definition codes_certified (m : Module_) : Prop :=
  forall i c, at_idx (codesec m) i = Some c ->
    exists ft, function_type_at m (zlen (imported_function_types m) + i) = Some ft /\ function_certified m ft c.

Lemma imported_types_ok m : module_wf m -> Forall functype_ok (imported_function_types m).
Proof.
  intros Hm. destruct (wf_imported _ Hm) as (-> & _). apply Forall_forall. intros t (i & Hi & Ht)%list_elem_of_omap.
  unfold import_function in Ht. destruct (imp_desc i) as [idx| | |]; [|done|done|done]. unfold at_idx in Ht. destruct (idx <? 0); [done|].
  pose proof (wf_types _ Hm) as Hall. rewrite Forall_forall in Hall. by eapply Hall, list_elem_of_lookup_2.
Qed.

Lemma code_at m i : 0 <= i -> function_type_at m (zlen (imported_function_types m) + i) = at_idx (funcsec m) i ≫= at_idx (typesec m).
Proof.
  intros Hi. unfold function_type_at. rewrite (proj2 (Z.ltb_ge _ _)) by lia. by replace (_ + i - _) with i by lia.
Qed.

Lemma parse_code_certified m i b input c rest :
  module_wf m -> 0 <= i -> bytes_ok b -> zlen b < 2 ^ 27 -> parse_code b i m input = Ret c rest ->
  exists ft, function_type_at m (zlen (imported_function_types m) + i) = Some ft /\ function_certified m ft c.
Proof.
  intros Hm Hi Hok Hb. unfold parse_code. destruct (parse_code_bytes i m b) as [c' r| |] eqn:E; [|done|done]. intros [= <- _].
  unfold parse_code_bytes in E. apply bind_Ret_inv in E as (ls & r1 & Hls & E).
  pose proof (reader_vec _ _ reader_locals b Hok) as Hr. unfold accepts in Hr. rewrite Hls in Hr. destruct Hr as ([Hls1 _] & l & _ & Hin).
  assert (bytes_ok r1) as Hok1 by (rewrite Hin in Hok; by apply Forall_app in Hok as [_ ?]).
  apply bind_Ret_inv in E as (n & r2 & Hn & E). pose proof (count_locals_ok ls 0 r1 Hls1 ltac:(lia)) as Hc. unfold accepts in Hc. rewrite Hn in Hc.
  destruct Hc as [-> ->]. fold (total_locals ls) in E. apply bind_Ret_inv in E as (t & r3 & Ht & E). unfold elem in Ht.
  destruct (at_idx (funcsec m) i) as [t'|] eqn:Et; [|done]. injection Ht as -> <-.
  apply bind_Ret_inv in E as (ft & r3 & Hft & E). unfold elem in Hft. destruct (at_idx (typesec m) t) as [ft'|] eqn:Eft; [|done]. injection Hft as -> <-.
  apply bind_Ret_inv in E as ([] & r3 & Ha & E). unfold assert_that in Ha. destruct (_ <=? 2 ^ 32 - 1) eqn:El; [|done]. injection Ha as <-. bool_to_prop.
  apply bind_Ret_inv in E as (code & r3 & Hcode & E). destruct (negb _); [done|]. injection E as <- _. rewrite !Z.add_0_l in *.
  assert (Forall (fun l => 0 <= l_count l) ls) as Hls2 by (eapply Forall_impl; [exact Hls1|]; cbn; lia).
  pose proof (total_locals_nonneg ls Hls2). pose proof (zlen_nonneg (inputs ft)).
  destruct (parse_expr_certified i ls m t ft r1 code r3 (wf_functions _ Hm) (wf_types _ Hm) (imported_types_ok _ Hm) Hok1 Hls2 ltac:(lia) Et Eft Hcode)
    as (H1 & H2 & H3).
  assert (zlen r1 <= zlen b) by (rewrite Hin; unfold zlen; rewrite length_app; lia).
  exists ft. split; [rewrite code_at, Et by done; exact Eft|]. constructor; cbn; [done|lia|lia|lia].
Qed.

Lemma parse_codes_certified m codes i input cs rest :
  module_wf m -> 0 <= i -> Forall bytes_ok codes -> Forall (fun b => zlen b < 2 ^ 27) codes -> parse_codes codes i m input = Ret cs rest ->
  forall j c, cs !! j = Some c ->
    exists ft, function_type_at m (zlen (imported_function_types m) + (i + Z.of_nat j)) = Some ft /\ function_certified m ft c.
Proof.
  intros Hm. revert i input cs rest. induction codes as [|b codes IH]; intros i input cs rest Hi Hok Hb; cbn [parse_codes]; [by intros [= <- _]|].
  apply Forall_cons_1 in Hok as [Hok1 Hok]. apply Forall_cons_1 in Hb as [Hb1 Hb]. intros H. apply bind_Ret_inv in H as (c0 & r & Hc & H).
  apply bind_Ret_inv in H as (cs' & r' & Hcs & [= <- _]). intros [|j] c; cbn.
  - intros [= <-]. rewrite Z.add_0_r. by eapply parse_code_certified.
  - intros Hj. destruct (IH (i + 1) _ _ _ ltac:(lia) Hok Hb Hcs j c Hj) as (ft & Hft & Hfc). exists ft. split; [|done]. rewrite <- Hft. f_equal. lia.
Qed.

Lemma code_ok_set cs m nl a x code : code_ok m nl a x code -> code_ok (set_codesec cs m) nl a x code.
Proof. intros (T & L & c & [H1 H2 H3 H4 H5 H6]). exists T, L, c. by constructor. Qed.

(** What validation guarantees to execution. *)
Lemma parse_certified_lemma input m rest :
  bytes_ok input -> zlen input < 2 ^ 27 -> parse input = Ret m rest ->
  module_wf m /\ length (codesec m) = length (funcsec m) /\ codes_certified m.
Proof.
  intros Hok Hlen H. unfold parse in H. destruct (negb _); [done|]. cbv zeta in H. set (inp := drop 8 input) in *.
  assert (bytes_ok inp) as Hok' by (by apply Forall_drop). assert (length inp <= length input)%nat as Hl by (unfold inp; rewrite length_drop; lia).
  apply bind_Ret_inv in H as ([m1 codes] & r1 & Hsec & H).
  pose proof (parse_sections_ok (length inp) 0 empty_module [] inp (le_n _) Hok' empty_sections_ok) as Hs. unfold accepts in Hs. rewrite Hsec in Hs.
  destruct Hs as [Hs ->]. cbn in Hs. pose proof (parse_sections_size (length input) _ _ _ _ _ _ _ _ Hok' Hl empty_sections_ok ltac:(constructor) Hsec) as Hsize.
  apply bind_Ret_inv in H as (m2 & r2 & Hv & H). pose proof (checks_module ([] : bytes) m1 codes Hs) as Hc. unfold checks, accepts in Hc. rewrite Hv in Hc.
  destruct Hc as (-> & Hwf & Hfl). apply bind_Ret_inv in H as (cs & r3 & Hcs & [= <- _]).
  pose proof (parse_codes_ok m2 codes 0 [] (wf_functions _ Hwf) (so_codes _ _ Hs) ltac:(lia) ltac:(unfold zlen; lia)) as Hc. rewrite Hcs in Hc.
  destruct Hc as [_ Hcl]. split; [by apply wf_set_codesec|]. split; [cbn; congruence|]. intros i c Hi. apply at_idx_nat in Hi as (j & -> & Hj).
  assert (Forall (fun b : bytes => zlen b < 2 ^ 27) codes) as Hb by (eapply Forall_impl; [exact Hsize|]; cbn; unfold zlen in *; intros; lia).
  destruct (parse_codes_certified m2 codes 0 [] cs r3 Hwf ltac:(lia) (so_codes _ _ Hs) Hb Hcs j c Hj) as (ft & Hft & [H1 H2 H3 H4]).
  exists ft. split; [exact Hft|]. constructor; [by apply code_ok_set|done|done|done].
Qed.

(** C6. Validation is sound for execution: in every module that the parser returns
    for an input below 2^27 bytes, each function's code decodes, as a whole and
    from every branch target, to instructions whose operands are there on every
    path, whose branches lead to the beginning of an instruction with the stack
    height it expects, whose local, global, function and type indices exist and
    which never exceed the announced stack height; code offsets and stack heights
    fit in their 32-bit fields. *)
Theorem parse_certified input m rest :
  bytes_ok input -> zlen input < 2 ^ 27 -> parse input = Ret m rest ->
  module_wf m /\ length (codesec m) = length (funcsec m) /\ codes_certified m.
Proof. apply parse_certified_lemma. Qed.

Lemma parse_certified_witness :
  bytes_ok sample_binary /\ zlen sample_binary < 2 ^ 27 /\
  exists m, parse sample_binary = Ret m [] /\ module_wf m /\ length (codesec m) = length (funcsec m) /\ codes_certified m.
Proof.
  assert (bytes_ok sample_binary) as Hok by (apply bytes_check; reflexivity). assert (zlen sample_binary < 2 ^ 27) as Hl by reflexivity.
  split; [exact Hok|]. split; [exact Hl|]. destruct (parse sample_binary) as [m rest| |] eqn:E; [|by vm_compute in E..].
  assert (rest = []) as -> by (vm_compute in E; congruence). exists m. split; [reflexivity|]. exact (parse_certified sample_binary m [] Hok Hl E).
Defined.
