(* ===== verification/FizzyStore.v ===== *)
(** * What the interpreter relies on

    The invariant of everything instances point to, and how the code of a
    certified function reads at a position. *)

From stdpp Require Import base list option numbers.
From S2P Require Import Prelude Memory FizzyLeb128 FizzyTypes FizzyExpr FizzyExprSafety FizzyCode FizzyExprCode FizzyParser FizzyParserSafety FizzyCertify FizzyNumeric FizzyExecute.

(** ** The store *)

Section store.
(** The host functions an instance may import, with their types. *)
Context {hostfn : Type} (host_type : hostfn -> option FuncType).

(** An instance of a validated module: its imports are host functions of the
    imported types, and what the module declares is there. *)
Record instance_ok (s : Store hostfn) (inst : Instance_ hostfn) : Prop := {
  io_module : module_wf (i_module inst);
  io_codes : length (codesec (i_module inst)) = length (funcsec (i_module inst));
  io_certified : codes_certified (i_module inst);
  io_functions : length (i_imported_functions inst) = length (imported_function_types (i_module inst));
  io_hosts : forall i f t, i_imported_functions inst !! i = Some f -> imported_function_types (i_module inst) !! i = Some t ->
    exists h, ef_function f = HostFunction h /\ host_type h = Some t;
  io_imported_globals : length (i_imported_globals inst) = length (imported_global_types (i_module inst));
  io_cells : forall i g t, i_imported_globals inst !! i = Some g -> imported_global_types (i_module inst) !! i = Some t ->
    xg_type g = t /\ exists a, xg_value g = Some a /\ is_Some (s_values s !! a);
  io_globals : length (i_globals inst) = length (globalsec (i_module inst));
  io_global_cells : forall a, a ∈ i_globals inst -> is_Some (s_values s !! a);
  io_memory : has_memory (i_module inst) = true -> exists a mem, i_memory inst = Some a /\ s_memories s !! a = Some mem;
  io_there : forall a, i_memory inst = Some a -> is_Some (s_memories s !! a);
  io_size : forall a mem, i_memory inst = Some a -> s_memories s !! a = Some mem ->
    exists pages, zlen mem = pages * PageSize /\ pages <= i_memory_pages_limit inst;
  io_limit : i_memory_pages_limit inst <= MaxMemoryPagesLimit;
  io_table : has_table (i_module inst) = true -> exists a t, i_table inst = Some a /\ s_tables s !! a = Some t
}.

(** What a table refers to is there. *)
Definition element_valid (s : Store hostfn) (e : TableElement) : Prop :=
  forall j, te_instance e = Some j ->
    exists inst, s_instances s !! j = Some inst /\ is_Some (function_type_at (i_module inst) (te_func_idx e)).

Record store_ok (s : Store hostfn) : Prop := {
  st_instances : forall j inst, s_instances s !! j = Some inst -> instance_ok s inst;
  st_shared : forall j k inst inst' a, s_instances s !! j = Some inst -> s_instances s !! k = Some inst' ->
    i_memory inst = Some a -> i_memory inst' = Some a -> i_memory_pages_limit inst = i_memory_pages_limit inst';
  st_bytes : forall a mem, s_memories s !! a = Some mem -> bytes_ok mem;
  st_elements : forall t e, t ∈ s_tables s -> e ∈ t -> element_valid s e
}.

(** A memory is replaced by one of a size that its instances allow. *)
Lemma store_set_memory s j inst a mem pages :
  store_ok s -> s_instances s !! j = Some inst -> i_memory inst = Some a -> zlen mem = pages * PageSize -> pages <= i_memory_pages_limit inst ->
  bytes_ok mem -> store_ok (MkStore (s_instances s) (<[a := mem]> (s_memories s)) (s_tables s) (s_values s)).
Proof.
  intros [H1 H2 Hok H3] Hj Ha Hlen Hle Hmem. constructor; [|done| |done]; cbn.
  2: { intros b m Hm. rewrite list_lookup_insert in Hm. destruct (decide _); [by simplify_eq|by eapply Hok]. }
  intros k i Hk. destruct (H1 k i Hk) as []. constructor; cbn; try done.
  - intros Hm. destruct (io_memory0 Hm) as (b & m & Hb & Hm'). exists b. destruct (decide (a = b)) as [<-|Hne].
    + eexists. rewrite list_lookup_insert_eq; [done|by eapply lookup_lt_Some].
    + exists m. by rewrite list_lookup_insert_ne.
  - intros b Hb. apply lookup_lt_is_Some. rewrite length_insert. by apply lookup_lt_is_Some, io_there0.
  - intros b m Hb Hm. destruct (decide (a = b)) as [<-|Hne].
    + rewrite list_lookup_insert in Hm. destruct (decide _) as [[_ Hlt]|]; [|naive_solver]. injection Hm as <-. exists pages. split; [done|].
      by rewrite <- (H2 j k inst i a).
    + rewrite list_lookup_insert_ne in Hm by done. eauto.
Qed.

(** A global is written. *)
Lemma store_set_value s a v :
  store_ok s -> store_ok (MkStore (s_instances s) (s_memories s) (s_tables s) (<[a := v]> (s_values s))).
Proof.
  intros [H1 H2 Hok H3]. assert (forall b, is_Some (s_values s !! b) -> is_Some (<[a := v]> (s_values s) !! b)) as Hv.
  { intros b Hb%lookup_lt_is_Some_1. apply lookup_lt_is_Some_2. by rewrite length_insert. }
  constructor; [|done|done|done]. cbn. intros k i Hk. destruct (H1 k i Hk) as []. constructor; cbn; try done.
  - intros n g t Hg Ht. destruct (io_cells0 n g t Hg Ht) as (He & b & Hb & Hs). split; [done|]. exists b. auto.
  - auto.
Qed.
End store.

(** ** Computations that return *)

Definition does {S A} (p : M S A) (Q : A -> S -> Prop) (s : S) : Prop :=
  match p s with Ret a s' => Q a s' | _ => False end.

Section does.
Context {S : Type}.

Lemma does_bind {A B} (p : M S A) (k : A -> M S B) Q s : does p (fun a s' => does (k a) Q s') s -> does (bind p k) Q s.
Proof. unfold does, bind. by destruct (p s). Qed.

Lemma does_seq {A B} (p : M S A) (k : A -> M S B) (P : A -> S -> Prop) Q s :
  does p P s -> (forall a s', P a s' -> does (k a) Q s') -> does (bind p k) Q s.
Proof. unfold does, bind. intros H Hk. destruct (p s); [by apply Hk|done|done]. Qed.

Lemma does_mono {A} (p : M S A) (P Q : A -> S -> Prop) s : does p P s -> (forall a s', P a s' -> Q a s') -> does p Q s.
Proof. unfold does. intros H HPQ. destruct (p s); [by apply HPQ|done|done]. Qed.

Lemma does_run {A} (p : M S A) (Q : A -> S -> Prop) s a s' : p s = Ret a s' -> Q a s' -> does p Q s.
Proof. unfold does. by intros ->. Qed.

Lemma does_gets {A B} (f : S -> A) (k : A -> M S B) Q s : does (k (f s)) Q s -> does (bind (gets f) k) Q s.
Proof. done. Qed.

Lemma does_modify {B} (f : S -> S) (k : unit -> M S B) Q s : does (k tt) Q (f s) -> does (bind (modify f) k) Q s.
Proof. done. Qed.

Lemma does_ret {A} (a : A) (Q : A -> S -> Prop) s : Q a s -> does (ret a) Q s.
Proof. done. Qed.

Lemma bind_ret_does {A B} (a : A) (k : A -> M S B) Q s : does (bind (ret a) k) Q s = does (k a) Q s.
Proof. done. Qed.

Lemma does_assert {B} b (k : unit -> M S B) Q s : b = true -> does (k tt) Q s -> does (bind (assert_that b) k) Q s.
Proof. by intros ->. Qed.

Lemma does_unptr {A B} (o : option A) a (k : A -> M S B) Q s : o = Some a -> does (k a) Q s -> does (bind (unptr o) k) Q s.
Proof. by intros ->. Qed.

Lemma does_elem {A B} (l : list A) i a (k : A -> M S B) Q s : at_idx l i = Some a -> does (k a) Q s -> does (bind (elem l i) k) Q s.
Proof. unfold elem. by intros ->. Qed.

Lemma does_function_type {B} m idx t (k : FuncType -> M S B) Q s :
  function_type_at m idx = Some t -> does (k t) Q s -> does (bind (get_function_type m idx) k) Q s.
Proof.
  intros Ht Hk. apply does_bind. unfold get_function_type, function_type_at, get_function_count in *. destruct (idx <? _) eqn:E; bool_to_prop.
  - pose proof (zlen_nonneg (funcsec m)). apply does_assert; [apply Z.ltb_lt; lia|]. unfold elem. by rewrite Ht.
  - destruct (at_idx (funcsec m) _) as [i|] eqn:Ei; [|done]. cbn in Ht. pose proof Ei as Ei'. apply at_idx_nat in Ei' as (j & Hj & Hl%lookup_lt_Some).
    apply does_assert; [apply Z.ltb_lt; unfold zlen in *; lia|]. eapply does_elem; [exact Ei|]. apply at_idx_nat in Ht as (n & -> & Hn).
    apply does_assert; [apply Z.ltb_lt; apply lookup_lt_Some in Hn; unfold zlen; lia|]. unfold elem, at_idx. rewrite (proj2 (Z.ltb_ge _ _)), Nat2Z.id, Hn by lia. done.
Qed.
End does.

(** ** Positions in certified code *)

Lemma next_height_app L1 L2 c : next_height (L1 ++ L2) c = next_height L1 (next_height L2 c).
Proof. by destruct L1 as [|[]]. Qed.

Lemma height_at_split L1 L2 c : height_at (L1 ++ L2) c (size L1) = next_height L2 c.
Proof.
  induction L1 as [|[h it] L1 IH]; cbn [size app height_at].
  - by destruct L2 as [|[]].
  - pose proof (item_size_pos it). rewrite (proj2 (Nat.eqb_neq _ _)), (proj2 (Nat.ltb_ge _ _)) by lia.
    by replace (item_size it + size L1 - item_size it)%nat with (size L1) by lia.
Qed.

(** A position with a height is that of an instruction or the end. *)
Lemma item_here L c p h : height_at L c p = Some h ->
  p = size L /\ c = Some h \/ exists L1 it L2, L = L1 ++ (Some h, it) :: L2 /\ p = size L1.
Proof.
  revert p. induction L as [|[h' it] L IH]; intros p; cbn [height_at].
  - destruct (p =? 0)%nat eqn:E; [|done]. apply Nat.eqb_eq in E as ->. by left.
  - destruct (p =? 0)%nat eqn:E; [apply Nat.eqb_eq in E as ->; intros ->; right; by exists [], it, L|].
    destruct (p <? item_size it)%nat eqn:E2; [done|]. apply Nat.ltb_ge in E2. intros [[Hp Hc]|(L1 & it' & L2 & -> & Hp)]%IH.
    + left. cbn. split; [lia|done].
    + right. exists ((h', it) :: L1), it', L2. cbn. split; [done|lia].
Qed.

Section certified.
Context (m : Module_) (num_locals arity max : Z) (code : bytes) (T : targets) (L : list (option Z * item)) (c : option Z).
Context (Hcert : certified m num_locals arity max code T L c).

Lemma chain_app L1 L2 c' : chain m num_locals (L1 ++ L2) c' -> chain m num_locals L2 c'.
Proof. induction L1 as [|[h it] L1 IH]; [done|]. intros [_ H]. by apply IH. Qed.

Lemma length_certified : length code = (size L + 1)%nat.
Proof. rewrite (cert_code _ _ _ _ _ _ _ _ Hcert), length_enc. unfold with_end. rewrite size_app. cbn. lia. Qed.

Lemma height_bound p h : height_at L c p = Some h -> 0 <= h <= max.
Proof.
  intros [[_ Hc]|(L1 & it & L2 & HL & _)]%item_here; eapply (cert_max _ _ _ _ _ _ _ _ Hcert); unfold with_end; apply elem_of_app.
  - right. rewrite Hc. apply list_elem_of_singleton. done.
  - left. rewrite HL. apply elem_of_app. right. left.
Qed.

(** The bytes at a position, what the instruction needs, where it leads and
    where its targets are. *)
Record here (p : nat) (h : Z) (it : item) : Prop := {
  h_bytes : exists rest, drop p code = enc_item T p it ++ rest;
  h_next : exists next, item_ok m num_locals h it next /\
    forall z, next = Some z -> height_at L c (p + item_size it)%nat = Some z;
  h_targets : forall off e, (off, Some e) ∈ slots_of p (Some h) it ->
    0 <= T off < 2 ^ 32 /\ height_at L c (Z.to_nat (T off)) = Some e
}.

Context (Hsize : zlen code < 2 ^ 31).

Lemma position p h :
  height_at L c p = Some h ->
  p = size L /\ h = arity /\ drop p code = [Instr.opcode Instr.end_] \/ exists it, here p h it.
Proof.
  intros Hh. destruct (item_here _ _ _ _ Hh) as [[-> Hc]|(L1 & it & L2 & HL & ->)].
  - left. split; [done|]. split; [by eapply (cert_arity _ _ _ _ _ _ _ _ Hcert)|].
    rewrite (cert_code _ _ _ _ _ _ _ _ Hcert). unfold with_end. rewrite enc_app, drop_app_length' by (by rewrite length_enc). done.
  - right. exists it. constructor.
    + rewrite (cert_code _ _ _ _ _ _ _ _ Hcert). unfold with_end. rewrite HL, <- app_assoc, enc_app, drop_app_length' by (by rewrite length_enc).
      cbn [enc app]. by eexists.
    + pose proof (cert_chain _ _ _ _ _ _ _ _ Hcert) as Hch. rewrite HL in Hch. apply chain_app in Hch as [Hit _].
      destruct (Hit h eq_refl) as (next & Hok & Hn). exists next. split; [done|]. intros z Hz. rewrite <- (Hn z Hz), HL.
      change ((Some h, it) :: L2) with ([(Some h, it)] ++ L2). rewrite app_assoc.
      replace (size L1 + item_size it)%nat with (size (L1 ++ [(Some h, it)])) by (rewrite size_app; cbn; lia). apply height_at_split.
    + intros off e Hin. assert ((off, Some e) ∈ slots 0 L) as Hin'.
      { rewrite HL, slots_app. apply elem_of_app. right. cbn [slots Nat.add]. apply elem_of_app. by left. }
      destruct (cert_slots _ _ _ _ _ _ _ _ Hcert off e Hin') as [H0 He]. split; [|done]. split; [done|].
      pose proof (height_at_range _ _ _ _ He). pose proof length_certified. unfold zlen in Hsize. lia.
Qed.
End certified.
