(* ===== verification/FizzyExecuteSafety.v ===== *)
(** * Validated code runs safely

    The interpreter of FizzyExecute, on an instance of a validated module: no
    assertion fails, nothing is read or written outside the code, the operand
    stack, the locals, the globals, the tables and the memory, and with metering
    the execution ends. What the host does in between is arbitrary, within what
    it owes to the interpreter. *)

From stdpp Require Import base list option numbers.
From S2P Require Import Prelude Memory FizzyLeb128 FizzyTypes FizzyExpr FizzyExprSafety FizzyCode FizzyExprCode FizzyParser FizzyParserSafety FizzyCertify FizzyNumeric FizzyExecute FizzyStore.

Section safety.
Context {hostfn : Type} (host_type : hostfn -> option FuncType) `{Allocator} `{NanPattern}.
Abbreviation F := (M (frame hostfn)).

Definition ticks_of (w : World hostfn) : Z := ctx_ticks (w_ctx w).
Definition depth_of (w : World hostfn) : Z := ctx_depth (w_ctx w).

(** Whatever happens to the world: instances stay and the invariant holds. *)
Definition keeps (w w' : World hostfn) : Prop :=
  store_ok host_type (w_store w') /\ s_instances (w_store w) `prefix_of` s_instances (w_store w') /\ depth_of w' = depth_of w.

Lemma keeps_refl w : store_ok host_type (w_store w) -> keeps w w.
Proof. done. Qed.

Lemma keeps_trans w w' w'' : keeps w w' -> keeps w' w'' -> keeps w w''.
Proof. intros (_ & H1 & H2) (H3 & H4 & H5). split; [done|]. split; [by etrans|congruence]. Qed.

(** ** Primitive steps *)

Lemma does_top {B} v l (k : Z -> F B) Q f : items f = v :: l -> does (k v) Q f -> does (bind stack_top k) Q f.
Proof. intros Hi Hk. apply does_bind. unfold stack_top. apply does_gets. by rewrite Hi. Qed.

Lemma does_pop {B} v l (k : Z -> F B) Q f : items f = v :: l -> does (k v) Q (set_items l f) -> does (bind stack_pop k) Q f.
Proof. intros Hi Hk. apply does_bind. unfold stack_pop. apply does_gets. by rewrite Hi. Qed.

Lemma does_set_top {B} v v' l (k : unit -> F B) Q f : items f = v :: l -> does (k tt) Q (set_items (v' :: l) f) -> does (bind (stack_set_top v') k) Q f.
Proof. intros Hi Hk. apply does_bind. unfold stack_set_top. apply does_gets. by rewrite Hi. Qed.

Lemma push_run v (f : frame hostfn) : os_size (fr_stack f) < os_capacity (fr_stack f) -> stack_push v f = Ret tt (set_items (v :: items f) f).
Proof. intros Hlt. unfold stack_push, bind, gets. by rewrite (proj2 (Z.ltb_lt _ _)). Qed.

Lemma does_push {B} v (k : unit -> F B) Q f :
  os_size (fr_stack f) < os_capacity (fr_stack f) -> does (k tt) Q (set_items (v :: items f) f) -> does (bind (stack_push v) k) Q f.
Proof. intros Hi Hk. apply does_bind. unfold stack_push. apply does_gets. by rewrite (proj2 (Z.ltb_lt _ _)). Qed.

Lemma does_drop {B} n (k : unit -> F B) Q f :
  n <= zlen (items f) -> does (k tt) Q (set_items (drop (Z.to_nat n) (items f)) f) -> does (bind (stack_drop n) k) Q f.
Proof. intros Hi Hk. apply does_bind. unfold stack_drop. apply does_gets. by apply does_assert; [apply Z.leb_le|]. Qed.

(** The items below a number of known ones. *)
Lemma items_1 {A} (l : list A) : 1 <= zlen l -> exists v l', l = v :: l' /\ zlen l' = zlen l - 1.
Proof. destruct l as [|v l]; [rewrite zlen_nil; lia|]. intros _. exists v, l. rewrite zlen_cons. split; [done|lia]. Qed.

Section instruction.
Context (metering : bool) (self : nat) (instance : Instance_ hostfn) (code : Code).
Context (num_locals arity : Z) (T : targets) (L : list (option Z * item)) (c : option Z).
Context (Hcert : certified (i_module instance) num_locals arity (max_stack_height code) (instructions code) T L c).
Context (Hsize : zlen (instructions code) < 2 ^ 31) (Hheight : max_stack_height code < 2 ^ 31).

Abbreviation read := (read code).
Abbreviation do_instr := (do_instr metering self instance code).

Lemma does_read {B} n bs rest (k : Z -> F B) Q f :
  drop (fr_pc f) (instructions code) = bs ++ rest -> length bs = n -> (0 < n)%nat ->
  does (k (le_val bs)) Q (set_pc (fr_pc f + n) f) -> does (bind (read n) k) Q f.
Proof.
  intros Hd Hn Hpos Hk. apply does_bind. unfold FizzyExecute.read. apply does_gets. pose proof (f_equal length Hd) as Hlen.
  rewrite length_drop, length_app in Hlen. rewrite Hd, take_app_length', (proj2 (Nat.leb_le _ _)) by (done || lia). done.
Qed.

Lemma does_read32 {B} v rest (k : Z -> F B) Q f :
  drop (fr_pc f) (instructions code) = le_bytes 4 v ++ rest -> 0 <= v < 2 ^ 32 ->
  does (k v) Q (set_pc (fr_pc f + 4) f) -> does (bind (read 4) k) Q f.
Proof.
  intros Hd Hv Hk. eapply does_read; [exact Hd|by rewrite length_le_bytes|lia|]. rewrite le_val_bytes, Z.mod_small; [done|]. by change (8 * Z.of_nat 4) with 32.
Qed.

Lemma drop_more p n bs rest : drop p (instructions code) = bs ++ rest -> length bs = n -> drop (p + n) (instructions code) = rest.
Proof. intros Hd Hn. by rewrite <- drop_drop, Hd, drop_app_length'. Qed.

(** ** The state of a call *)

(** What holds throughout: the world, the locals and the room for operands. *)
Record ready (f : frame hostfn) : Prop := {
  rd_store : store_ok host_type (store_of f);
  rd_self : s_instances (store_of f) !! self = Some instance;
  rd_locals : zlen (locals f) = num_locals;
  rd_room : num_locals_adjusted num_locals + max_stack_height code <= os_storage (fr_stack f)
}.

(** Between two instructions. *)
Definition placed (f : frame hostfn) (h : Z) : Prop := ready f /\ height_at L c (fr_pc f) = Some h.

Definition pays (w w' : World hostfn) : Prop := metering = true -> 0 <= ticks_of w -> 0 <= ticks_of w' <= ticks_of w.

(** What an instruction does. *)
Definition instr_post (f : frame hostfn) (n : next) (f' : frame hostfn) : Prop :=
  keeps (fr_world f) (fr_world f') /\
  match n with
  | DoTrap => True
  | Continue => pays (fr_world f) (fr_world f') /\ placed f' (zlen (items f'))
  | Finish => pays (fr_world f) (fr_world f') /\ zlen (items f') = arity
  | Invoke t j idx => pays (fr_world f) (fr_world f') /\
      (exists inst, s_instances (store_of f') !! j = Some inst /\ function_type_at (i_module inst) idx = Some t) /\
      zlen (inputs t) <= zlen (items f') /\ placed f' (zlen (items f') - zlen (inputs t) + zlen (outputs t))
  end.

Lemma pays_refl w : pays w w.
Proof. intros _ ?. lia. Qed.

(** The rest of a frame after only the operands and the position changed. *)
Lemma ready_items f l pc : ready f -> ready (set_items l (set_pc pc f)).
Proof. by intros []. Qed.

Lemma ready_pc f pc : ready f -> ready (set_pc pc f).
Proof. by intros []. Qed.

Lemma ready_pop f l : ready f -> ready (set_items l f).
Proof. by intros []. Qed.

Lemma post_trap f l pc : ready f -> instr_post f DoTrap (set_items l (set_pc pc f)).
Proof. intros Hf. split; [apply keeps_refl, Hf|done]. Qed.

Lemma post_continue f l pc : ready f -> height_at L c pc = Some (zlen l) -> instr_post f Continue (set_items l (set_pc pc f)).
Proof. intros Hf Hh. split; [apply keeps_refl, Hf|]. split; [apply pays_refl|]. split; [by apply ready_items|done]. Qed.

Lemma push_room f h pc : ready f -> height_at L c pc = Some h -> zlen (items f) + 1 <= h -> os_size (fr_stack f) < os_capacity (fr_stack f).
Proof.
  intros Hf Hh Hle. pose proof (height_bound _ _ _ _ _ _ _ _ Hcert _ _ Hh). unfold os_size, os_capacity. fold (items f). fold (locals f).
  rewrite (rd_locals _ Hf). pose proof (rd_room _ Hf). lia.
Qed.

Lemma post_same f f' :
  ready f -> fr_world f' = fr_world f -> zlen (locals f') = zlen (locals f) -> os_storage (fr_stack f') = os_storage (fr_stack f) ->
  height_at L c (fr_pc f') = Some (zlen (items f')) -> instr_post f Continue f'.
Proof.
  intros Hf Hw Hl Hs Hh. destruct Hf as [H1 H2 H3 H4]. assert (store_of f' = store_of f) as Hst by (unfold store_of; by rewrite Hw).
  split; [rewrite Hw; by apply keeps_refl|]. split; [rewrite Hw; apply pays_refl|]. split; [|done].
  constructor; [by rewrite Hst|by rewrite Hst|congruence|by rewrite Hs].
Qed.

Lemma post_trapped f f' : ready f -> fr_world f' = fr_world f -> instr_post f DoTrap f'.
Proof. intros Hf Hw. split; [|done]. rewrite Hw. apply keeps_refl, Hf. Qed.

(** ** Parametric instructions and variables *)

Lemma run_drop f :
  ready f -> 1 <= zlen (items f) -> height_at L c (fr_pc f) = Some (zlen (items f) - 1) -> does (do_instr Instr.drop) (instr_post f) f.
Proof.
  intros Hf Hh Hn. cbn [FizzyExecute.do_instr]. destruct (items_1 _ Hh) as (v & l & Hi & Hl). eapply does_pop; [exact Hi|]. apply does_ret.
  apply post_same; [done..|]. cbn. by rewrite Hn, Hl.
Qed.

Lemma run_select f :
  ready f -> 3 <= zlen (items f) -> height_at L c (fr_pc f) = Some (zlen (items f) - 2) -> does (do_instr Instr.select) (instr_post f) f.
Proof.
  intros Hf Hh Hn. cbn [FizzyExecute.do_instr]. unfold do_select. destruct (items_1 (items f)) as (v1 & l1 & Hi1 & Hl1); [lia|].
  destruct (items_1 l1) as (v2 & l2 & -> & Hl2); [lia|]. destruct (items_1 l2) as (v3 & l3 & -> & Hl3); [lia|].
  eapply does_pop; [exact Hi1|]. eapply does_pop; [done|]. eapply does_pop; [done|]. apply does_push.
  - eapply (push_room _ (zlen (items f) - 2)); [by apply (ready_pop f l3)|exact Hn|]. cbn. lia.
  - apply does_ret. apply post_same; [done..|]. cbn. rewrite Hn, zlen_cons. f_equal. lia.
Qed.

Lemma at_idx_in {A} (l : list A) i : 0 <= i < zlen l -> exists a, at_idx l i = Some a.
Proof. intros Hi. destruct (at_idx_lt l i Hi) as (a & Ha & _). by exists a. Qed.

Lemma does_check_local {B} idx (k : unit -> F B) Q f :
  ready f -> idx < num_locals -> does (k tt) Q f -> does (bind (check_local idx) k) Q f.
Proof.
  intros Hf Hi Hk. apply does_bind. unfold check_local. apply does_gets. rewrite (rd_locals _ Hf). unfold assert_that.
  rewrite (proj2 (Z.ltb_lt _ _)); [done|]. unfold num_locals_adjusted. destruct (num_locals =? 0) eqn:E; bool_to_prop; lia.
Qed.

Lemma does_local_write idx v f :
  ready f -> 0 <= idx < num_locals ->
  does (local_write idx v) (fun _ f' => fr_world f' = fr_world f /\ fr_pc f' = fr_pc f /\ items f' = items f /\ zlen (locals f') = zlen (locals f) /\
    os_storage (fr_stack f') = os_storage (fr_stack f)) f.
Proof.
  intros Hf Hi. unfold local_write. apply does_check_local; [done|lia|]. apply does_gets.
  destruct (at_idx_in (locals f) idx) as (x & Hx); [by rewrite (rd_locals _ Hf)|]. eapply does_elem; [exact Hx|]. unfold does, modify.
  repeat (split; [done|]). split; [|done]. unfold zlen. cbn. by rewrite length_insert.
Qed.

Lemma run_local i f idx rest h' :
  ready f -> i = Instr.local_get \/ i = Instr.local_set \/ i = Instr.local_tee ->
  drop (fr_pc f) (instructions code) = le_bytes 4 idx ++ rest -> 0 <= idx < 2 ^ 32 -> idx < num_locals ->
  (i = Instr.local_get \/ 1 <= zlen (items f)) -> height_at L c (fr_pc f + 4) = Some h' ->
  h' = (if bool_decide (i = Instr.local_get) then zlen (items f) + 1 else if bool_decide (i = Instr.local_set) then zlen (items f) - 1 else zlen (items f)) ->
  does (do_instr i) (instr_post f) f.
Proof.
  intros Hf Hi Hd Hidx Hlt Hh Hn Hh'. assert (do_instr i = do_local code i) as -> by (by destruct Hi as [-> | [-> | ->]]).
  unfold do_local. eapply does_read32; [exact Hd|done|]. set (f1 := set_pc _ f). assert (ready f1) as Hf1 by (by apply ready_pc).
  destruct Hi as [-> | [-> | ->]].
  - rewrite bool_decide_true in Hh' |- * by done. apply does_bind, does_bind. unfold local_read. apply does_check_local; [done|lia|]. apply does_gets.
    destruct (at_idx_in (locals f1) idx) as (x & Hx); [rewrite (rd_locals _ Hf1); lia|]. eapply (does_run _ _ _ x f1); [unfold elem; by rewrite Hx|].
    eapply does_run; [apply push_run; eapply (push_room f1 h'); [done|exact Hn|change (items f1) with (items f); lia]|]. apply does_ret. apply post_same; [done..|].
    change (height_at L c (fr_pc f + 4) = Some (zlen (x :: items f))). rewrite Hn, zlen_cons. f_equal. lia.
  - rewrite (bool_decide_false (Instr.local_set = Instr.local_get)), bool_decide_true in Hh' |- * by done. destruct Hh as [|Hh]; [done|].
    destruct (items_1 (items f1) Hh) as (v & l & Hv & Hl). apply does_bind. eapply does_pop; [exact Hv|].
    eapply does_mono; [apply does_local_write; [by apply ready_pop|lia]|]. intros _ f' (H1 & H2 & H3 & H4 & H5). apply does_ret.
    apply post_same; [done..|]. rewrite H2, H3.
    change (height_at L c (fr_pc f + 4) = Some (zlen l)). rewrite Hn. f_equal. change (items f1) with (items f) in Hl. lia.
  - rewrite !bool_decide_false in Hh' |- * by done. destruct Hh as [|Hh]; [done|]. destruct (items_1 (items f1) Hh) as (v & l & Hv & Hl).
    apply does_bind. eapply does_top; [exact Hv|]. eapply does_mono; [apply does_local_write; [done|lia]|].
    intros _ f' (H1 & H2 & H3 & H4 & H5). apply does_ret. apply post_same; [done..|]. rewrite H2, H3.
    change (height_at L c (fr_pc f + 4) = Some (zlen (items f))). by rewrite Hn, Hh'.
Qed.

Lemma run_const i n bs f rest :
  ready f -> (i = Instr.i32_const \/ i = Instr.f32_const) /\ n = 4%nat \/ (i = Instr.i64_const \/ i = Instr.f64_const) /\ n = 8%nat ->
  drop (fr_pc f) (instructions code) = bs ++ rest -> length bs = n ->
  height_at L c (fr_pc f + n) = Some (zlen (items f) + 1) -> does (do_instr i) (instr_post f) f.
Proof.
  intros Hf Hi Hd Hlen Hn. assert (do_instr i = do_const code n) as -> by (by destruct Hi as [[[-> | ->] ->]|[[-> | ->] ->]]).
  unfold do_const. eapply does_read; [exact Hd|done|lia|]. set (f1 := set_pc _ f). assert (ready f1) as Hf1 by (by apply ready_pc).
  apply does_push; [eapply (push_room f1); [done|exact Hn|change (items f1) with (items f); lia]|].
  apply does_ret. apply post_same; [done..|]. change (height_at L c (fr_pc f + n) = Some (zlen (le_val bs :: items f))).
  rewrite Hn, zlen_cons. f_equal. lia.
Qed.

(** *** Globals *)

Lemma self_ok f : ready f -> instance_ok host_type (store_of f) instance.
Proof. intros Hf. eapply (st_instances _ _ (rd_store _ Hf)), Hf. Qed.

Lemma run_global_get f idx rest :
  ready f -> drop (fr_pc f) (instructions code) = le_bytes 4 idx ++ rest -> 0 <= idx < 2 ^ 32 -> idx < get_global_count (i_module instance) ->
  height_at L c (fr_pc f + 4) = Some (zlen (items f) + 1) -> does (do_instr Instr.global_get) (instr_post f) f.
Proof.
  intros Hf Hd Hidx Hlt Hn. cbn [FizzyExecute.do_instr]. unfold do_global_get. eapply does_read32; [exact Hd|done|]. cbv zeta.
  set (f1 := set_pc _ f). assert (ready f1) as Hf1 by (by apply ready_pc). pose proof (self_ok f1 Hf1) as [].
  unfold get_global_count in Hlt. assert (zlen (i_imported_globals instance) = zlen (imported_global_types (i_module instance))) as Hg by (unfold zlen; by f_equal).
  assert (zlen (i_globals instance) = zlen (globalsec (i_module instance))) as Hg' by (unfold zlen; by f_equal).
  apply does_assert; [apply Z.ltb_lt; lia|]. apply does_bind.
  assert (forall v, does (stack_push v) (fun a s' => does (ret Continue) (instr_post f) s') f1) as Hpush.
  { intros v. eapply does_run; [apply push_run; eapply (push_room f1); [done|exact Hn|change (items f1) with (items f); lia]|]. apply does_ret.
    apply post_same; [done..|]. change (height_at L c (fr_pc f + 4) = Some (zlen (v :: items f))). rewrite Hn, zlen_cons. f_equal. lia. }
  destruct (idx <? _) eqn:E; bool_to_prop.
  - destruct (at_idx_in (i_imported_globals instance) idx) as (g & Hg1); [lia|]. eapply does_elem; [exact Hg1|].
    destruct (at_idx_in (imported_global_types (i_module instance)) idx) as (t & Ht); [lia|]. apply at_idx_nat in Hg1 as (k & -> & Hg1).
    unfold at_idx in Ht. rewrite (proj2 (Z.ltb_ge _ _)), Nat2Z.id in Ht by lia.
    destruct (io_cells k g t Hg1 Ht) as (_ & a & Ha & [v Hv]). apply does_bind. unfold read_cell. eapply does_unptr; [exact Ha|]. apply does_gets.
    eapply does_run; [unfold unptr; rewrite Hv; done|]. apply Hpush.
  - apply does_assert; [apply Z.ltb_lt; lia|]. destruct (at_idx_in (i_globals instance) (idx - zlen (i_imported_globals instance))) as (a & Ha); [lia|].
    eapply does_elem; [exact Ha|]. apply at_idx_nat in Ha as (k & _ & Ha). destruct (io_global_cells a) as [v Hv]; [by eapply list_elem_of_lookup_2|].
    apply does_bind. unfold read_cell. eapply does_unptr; [done|]. apply does_gets. eapply does_run; [unfold unptr; rewrite Hv; done|]. apply Hpush.
Qed.

(** After a write of the store. *)
Lemma post_store f f' s :
  ready f -> store_ok host_type s -> s_instances s = s_instances (store_of f) -> fr_world f' = MkWorld s (w_ctx (fr_world f)) ->
  zlen (locals f') = zlen (locals f) -> os_storage (fr_stack f') = os_storage (fr_stack f) ->
  height_at L c (fr_pc f') = Some (zlen (items f')) -> instr_post f Continue f'.
Proof.
  intros [H1 H2 H3 H4] Hs Hi Hw Hl Hst Hh. assert (store_of f' = s) as Hst' by (unfold store_of; by rewrite Hw).
  split; [rewrite Hw; split; [done|]; split; [cbn; by rewrite Hi|done]|]. split; [rewrite Hw; unfold pays, ticks_of; cbn; intros _ ?; lia|].
  split; [|done]. constructor; [by rewrite Hst'|by rewrite Hst', Hi|congruence|by rewrite Hst].
Qed.

Lemma run_global_set f idx rest t :
  ready f -> drop (fr_pc f) (instructions code) = le_bytes 4 idx ++ rest -> 0 <= idx < 2 ^ 32 ->
  global_type_at (i_module instance) idx = Some t -> is_mutable t = true -> 1 <= zlen (items f) ->
  height_at L c (fr_pc f + 4) = Some (zlen (items f) - 1) -> does (do_instr Instr.global_set) (instr_post f) f.
Proof.
  intros Hf Hd Hidx Ht Hmut Hh Hn. cbn [FizzyExecute.do_instr]. unfold do_global_set. eapply does_read32; [exact Hd|done|]. cbv zeta.
  set (f1 := set_pc _ f). assert (ready f1) as Hf1 by (by apply ready_pc). pose proof (self_ok f1 Hf1) as [].
  assert (zlen (i_imported_globals instance) = zlen (imported_global_types (i_module instance))) as Hg by (unfold zlen; by f_equal).
  assert (zlen (i_globals instance) = zlen (globalsec (i_module instance))) as Hg' by (unfold zlen; by f_equal).
  destruct (items_1 (items f1) Hh) as (v & l & Hv & Hl). change (items f1) with (items f) in Hl. apply does_bind.
  assert (forall a, does (write_cell (Some a) v) (fun _ s' => does (ret Continue) (instr_post f) s') (set_items l f1)) as Hwrite.
  { intros a. unfold write_cell. eapply does_unptr; [done|]. unfold does, modify. cbv zeta.
    eapply post_store; [exact Hf|apply (store_set_value host_type (store_of f) a v), Hf|done|done|done|done|]. change (height_at L c (fr_pc f + 4) = Some (zlen l)). by rewrite Hn, Hl. }
  unfold global_type_at in Ht. rewrite <- Hg in Ht. destruct (idx <? _) eqn:E; bool_to_prop.
  - destruct (at_idx_in (i_imported_globals instance) idx) as (g & Hg1); [lia|]. eapply does_elem; [exact Hg1|]. apply at_idx_nat in Hg1 as (k & -> & Hg1).
    unfold at_idx in Ht. rewrite (proj2 (Z.ltb_ge _ _)), Nat2Z.id in Ht by lia. destruct (io_cells k g t Hg1 Ht) as (Heq & a & Ha & _).
    apply does_assert; [by rewrite Heq|]. eapply does_pop; [exact Hv|]. rewrite Ha. apply Hwrite.
  - destruct (at_idx (globalsec (i_module instance)) _) as [g|] eqn:Eg; [|done]. cbn in Ht. injection Ht as <-. pose proof Eg as Eg'.
    apply at_idx_nat in Eg' as (k & Hk & Hk'%lookup_lt_Some). apply does_assert; [apply Z.ltb_lt; unfold zlen in *; lia|]. eapply does_elem; [exact Eg|].
    apply does_assert; [done|]. eapply does_pop; [exact Hv|]. destruct (at_idx_in (i_globals instance) (idx - zlen (i_imported_globals instance))) as (a & Ha); [unfold zlen in *; lia|].
    eapply does_elem; [exact Ha|]. apply Hwrite.
Qed.

(** *** Memory *)

Lemma memory_here f :
  ready f -> has_memory (i_module instance) = true -> exists a mem pages, i_memory instance = Some a /\ s_memories (store_of f) !! a = Some mem /\
    zlen mem = pages * PageSize /\ pages <= i_memory_pages_limit instance /\ i_memory_pages_limit instance <= 65536.
Proof.
  intros Hf Hm. destruct (self_ok f Hf) as []. destruct (io_memory Hm) as (a & mem & Ha & Hmem). destruct (io_size a mem Ha Hmem) as (pages & Hp & Hle).
  exists a, mem, pages. by change MaxMemoryPagesLimit with 65536 in io_limit.
Qed.

Lemma does_memory {B} a mem (k : bytes -> F B) Q f :
  i_memory instance = Some a -> s_memories (store_of f) !! a = Some mem -> does (k mem) Q f -> does (bind (the_memory instance) k) Q f.
Proof. intros Ha Hm Hk. apply does_bind. unfold the_memory. eapply does_unptr; [exact Ha|]. apply does_gets. rewrite Hm. done. Qed.

Lemma run_memory_size f :
  ready f -> has_memory (i_module instance) = true -> height_at L c (fr_pc f) = Some (zlen (items f) + 1) ->
  does (do_instr Instr.memory_size) (instr_post f) f.
Proof.
  intros Hf Hm Hn. cbn [FizzyExecute.do_instr]. unfold do_memory_size. destruct (memory_here f Hf Hm) as (a & mem & pages & Ha & Hmem & Hlen & _).
  eapply does_memory; [exact Ha|exact Hmem|]. apply does_assert; [rewrite Hlen; apply Z.eqb_eq, Z_mod_mult|].
  apply does_push; [eapply (push_room f); [done|exact Hn|lia]|]. apply does_ret. apply post_same; [done..|].
  change (height_at L c (fr_pc f) = Some (zlen (u32 (zlen mem / PageSize) :: items f))). rewrite Hn, zlen_cons. f_equal. lia.
Qed.

(** The effect of a write to memory. *)
Lemma does_put_memory a mem pages f :
  ready f -> i_memory instance = Some a -> zlen mem = pages * PageSize -> pages <= i_memory_pages_limit instance -> bytes_ok mem ->
  does (put_memory instance mem) (fun _ f' => exists s, store_ok host_type s /\ s_instances s = s_instances (store_of f) /\ f' = set_store s f) f.
Proof.
  intros Hf Ha Hlen Hle Hb. unfold put_memory. eapply does_unptr; [exact Ha|]. unfold does, modify. cbv zeta. eexists. split; [|split; [|done]]; [|done].
  eapply store_set_memory; [apply Hf|apply Hf|done|done|done|done].
Qed.

Lemma grow_memory_does f delta :
  ready f -> has_memory (i_module instance) = true -> 0 <= delta < 2 ^ 32 ->
  does (grow_memory instance delta) (fun _ f' => exists s, store_ok host_type s /\ s_instances s = s_instances (store_of f) /\ f' = set_store s f) f.
Proof.
  intros Hf Hm Hd. unfold grow_memory. destruct (memory_here f Hf Hm) as (a & mem & pages & Ha & Hmem & Hlen & Hle & Hlim).
  assert (zlen mem / PageSize = pages) as Hdiv by (rewrite Hlen; apply Z_div_mult; done).
  eapply does_memory; [exact Ha|exact Hmem|]. cbv zeta. rewrite Hdiv. apply does_assert; [rewrite Hlen; apply Z.eqb_eq, Z_mod_mult|].
  apply does_assert; [apply Z.leb_le; exact Hlim|]. apply does_assert; [by apply Z.leb_le|].
  assert (exists s, store_ok host_type s /\ s_instances s = s_instances (store_of f) /\ f = set_store s f) as Hsame.
  { exists (store_of f). split; [apply Hf|]. split; [done|]. by destruct f as [[? ?] [] ?]. }
  destruct (_ <? pages + delta) eqn:E; [by apply does_ret|]. destruct (can_allocate _); [|by apply does_ret]. bool_to_prop.
  assert (0 <= pages) as Hpos by (pose proof (zlen_nonneg mem); unfold PageSize in *; lia).
  eapply does_seq; [eapply (does_put_memory a _ (pages + delta)); [done|done| |done|]|].
  - unfold zlen at 1. rewrite length_app, length_replicate. unfold memory_pages_to_bytes. rewrite (wrap_small 32), u64_small by (unfold u64_ok, PageSize; lia).
    rewrite Hlen. unfold zlen in Hlen. unfold PageSize in *. lia.
  - apply Forall_app. split; [by eapply (st_bytes _ _ (rd_store _ Hf))|]. by apply Forall_replicate.
  - cbv beta. intros _ f' Hf'. by apply does_ret.
Qed.

Lemma charge_run cost (f : frame hostfn) :
  0 <= cost < 2 ^ 62 -> - 2 ^ 62 <= ticks_of (fr_world f) ->
  charge cost f = Ret (0 <=? ticks_of (fr_world f) - cost) (set_world (set_ctx (set_context_ticks (ticks_of (fr_world f) - cost)) (fr_world f)) f).
Proof. intros Hc Ht. unfold charge, bind, gets. unfold ticks_of in *. cbv zeta. rewrite (proj2 (Z.ltb_ge _ _)) by lia. done. Qed.

Lemma ready_ticks t f : ready f -> ready (set_world (set_ctx (set_context_ticks t) (fr_world f)) f).
Proof. by intros []. Qed.

Lemma keeps_ticks t w : store_ok host_type (w_store w) -> keeps w (set_ctx (set_context_ticks t) w).
Proof. done. Qed.

Lemma run_memory_grow f :
  ready f -> has_memory (i_module instance) = true -> 1 <= zlen (items f) -> height_at L c (fr_pc f) = Some (zlen (items f)) ->
  (metering = true -> 0 <= ticks_of (fr_world f)) -> does (do_instr Instr.memory_grow) (instr_post f) f.
Proof.
  intros Hf Hm Hh Hn Ht. cbn [FizzyExecute.do_instr]. unfold do_memory_grow. destruct (items_1 _ Hh) as (v & l & Hv & Hl). eapply does_top; [exact Hv|].
  cbv zeta. pose proof (wrap_range 32 v ltac:(lia)) as Hr. apply does_bind.
  eapply (does_mono _ (fun paid f1 => items f1 = items f /\ fr_pc f1 = fr_pc f /\ ready f1 /\ keeps (fr_world f) (fr_world f1) /\ os_storage (fr_stack f1) = os_storage (fr_stack f) /\
    (paid = true -> pays (fr_world f) (fr_world f1)))).
  { destruct metering eqn:Em; [|apply does_ret; repeat (split; [done|]); split; [apply keeps_refl, Hf|split; [done|intros _; apply pays_refl]]].
    specialize (Ht eq_refl). unfold get_grow_memory_cost. pose proof (wrap_range 32 (u32 v * 65536) ltac:(lia)).
    eapply does_run; [apply charge_run; lia|]. split; [done|]. split; [done|]. split; [by apply ready_ticks|]. split; [apply keeps_ticks, Hf|]. split; [done|].
    intros Hp _ _. bool_to_prop. unfold ticks_of in *. cbn. lia. }
  intros paid f1 (Hi1 & Hp1 & Hf1 & Hk1 & Hs1 & Hpay). destruct paid; cbn [negb]; [|by apply does_ret]. eapply does_seq; [by apply grow_memory_does|].
  intros pages f2 (s & Hs & Hinst & ->). eapply (does_set_top v _ l); [change (items f1 = v :: l); congruence|]. apply does_ret.
  assert (instr_post f1 Continue (set_items (pages :: l) (set_store s f1))) as (Hk2 & Hpay2 & Hpl).
  { eapply post_store; [exact Hf1|exact Hs|exact Hinst|done|done|done|]. change (height_at L c (fr_pc f1) = Some (zlen (pages :: l))). rewrite Hp1, Hn, Hv, !zlen_cons. done. }
  split; [by eapply keeps_trans|]. split; [|done]. intros Hmt Ht0. specialize (Hpay eq_refl Hmt Ht0). specialize (Hpay2 Hmt ltac:(lia)). lia.
Qed.

Lemma run_load i n sgn dst f off rest :
  ready f -> do_instr i = load_from_memory instance code n sgn dst -> (0 < n)%nat -> has_memory (i_module instance) = true ->
  drop (fr_pc f) (instructions code) = le_bytes 4 off ++ rest -> 0 <= off < 2 ^ 32 -> 1 <= zlen (items f) ->
  height_at L c (fr_pc f + 4) = Some (zlen (items f)) -> does (do_instr i) (instr_post f) f.
Proof.
  intros Hf -> Hpos Hm Hd Hoff Hh Hn. unfold load_from_memory. destruct (memory_here f Hf Hm) as (a & mem & pages & Ha & Hmem & Hlen & Hle & Hlim).
  eapply does_memory; [exact Ha|exact Hmem|]. destruct (items_1 _ Hh) as (v & l & Hv & Hl). eapply does_top; [exact Hv|]. cbv zeta.
  eapply does_read32; [exact Hd|done|]. pose proof (wrap_range 32 v ltac:(lia)) as Hr.
  destruct (zlen mem <? _) eqn:E; [by apply does_ret, post_trapped|]. bool_to_prop. assert (zlen mem <= 2 ^ 32) by (unfold PageSize in *; lia).
  unfold load at 1. rewrite (wrap_small 32 (u32 v + off)) by lia. rewrite (proj2 (Z.leb_le _ _)) by lia. rewrite bind_ret_does. eapply (does_set_top v _ l); [exact Hv|].
  apply does_ret. apply post_same; [done..|]. match goal with |- _ = Some (zlen (items (set_items ?l' _))) => change (height_at L c (fr_pc f + 4) = Some (zlen l')) end.
  rewrite Hn, Hv, !zlen_cons. done.
Qed.

Lemma run_store i n f off rest :
  ready f -> do_instr i = store_into_memory instance code n -> (0 < n)%nat -> has_memory (i_module instance) = true ->
  drop (fr_pc f) (instructions code) = le_bytes 4 off ++ rest -> 0 <= off < 2 ^ 32 -> 2 <= zlen (items f) ->
  height_at L c (fr_pc f + 4) = Some (zlen (items f) - 2) -> does (do_instr i) (instr_post f) f.
Proof.
  intros Hf -> Hpos Hm Hd Hoff Hh Hn. unfold store_into_memory. destruct (memory_here f Hf Hm) as (a & mem & pages & Ha & Hmem & Hlen & Hle & Hlim).
  eapply does_memory; [exact Ha|exact Hmem|]. destruct (items_1 (items f)) as (v & l & Hv & Hl); [lia|]. destruct (items_1 l) as (v' & l' & -> & Hl'); [lia|].
  eapply does_pop; [exact Hv|]. eapply does_pop; [done|]. cbv zeta. eapply does_read32; [exact Hd|done|]. pose proof (wrap_range 32 v' ltac:(lia)) as Hr.
  destruct (zlen mem <? _) eqn:E; [by apply does_ret, post_trapped|]. bool_to_prop. assert (zlen mem <= 2 ^ 32) by (unfold PageSize in *; lia).
  unfold store at 1. rewrite (wrap_small 32 (u32 v' + off)) by lia.
  destruct (splice_Some (Z.to_nat (u32 v' + off)) (le_bytes n v) mem) as [mem' Hmem']; [rewrite length_le_bytes; unfold zlen in *; lia|]. rewrite Hmem'.
  assert (bytes_ok mem') as Hb by (eapply splice_bytes_ok; [exact Hmem'|apply le_bytes_ok|by eapply (st_bytes _ _ (rd_store _ Hf))]).
  apply splice_length in Hmem'. eapply does_seq; [eapply (does_put_memory a mem' pages); [by apply ready_pc, ready_pop, ready_pop|done|unfold zlen in *; congruence|done|done]|].
  cbv beta. intros _ f' (s & Hs & Hi & ->). apply does_ret. eapply post_store; [exact Hf|exact Hs|exact Hi|done|done|done|].
  change (height_at L c (fr_pc f + 4) = Some (zlen l')). rewrite Hn. f_equal. lia.
Qed.

Lemma run_numeric i o f :
  ready f -> do_instr i = do_numeric o -> (match o with NumUnary _ => 1 | NumBinary _ => 2 end) <= zlen (items f) ->
  height_at L c (fr_pc f) = Some (zlen (items f) - match o with NumUnary _ => 0 | NumBinary _ => 1 end) -> does (do_instr i) (instr_post f) f.
Proof.
  intros Hf -> Hh Hn. destruct o as [op|op]; cbn [do_numeric].
  - destruct (items_1 _ Hh) as (v & l & Hv & Hl). eapply does_top; [exact Hv|]. destruct (op v) as [r|]; [|by apply does_ret, post_trapped].
    eapply (does_set_top v r l); [exact Hv|]. apply does_ret. apply post_same; [done..|]. change (height_at L c (fr_pc f) = Some (zlen (r :: l))).
    rewrite Hn, zlen_cons. f_equal. lia.
  - destruct (items_1 (items f)) as (v2 & l & Hv & Hl); [lia|]. destruct (items_1 l) as (v1 & l' & -> & Hl'); [lia|]. eapply does_pop; [exact Hv|].
    eapply does_top; [done|]. destruct (op v1 v2) as [r|]; [|by apply does_ret, post_trapped]. eapply (does_set_top v1 r l'); [done|]. apply does_ret.
    apply post_same; [done..|]. change (height_at L c (fr_pc f) = Some (zlen (r :: l'))). rewrite Hn, zlen_cons. f_equal. lia.
Qed.

(** *** Calls *)

Lemma post_invoke f f' t j idx inst :
  ready f -> fr_world f' = fr_world f -> zlen (locals f') = zlen (locals f) -> os_storage (fr_stack f') = os_storage (fr_stack f) ->
  s_instances (store_of f) !! j = Some inst -> function_type_at (i_module inst) idx = Some t -> zlen (inputs t) <= zlen (items f') ->
  height_at L c (fr_pc f') = Some (zlen (items f') - zlen (inputs t) + zlen (outputs t)) -> instr_post f (Invoke t j idx) f'.
Proof.
  intros Hf Hw Hl Hs Hj Ht Hin Hh. destruct Hf as [H1 H2 H3 H4]. assert (store_of f' = store_of f) as Hst by (unfold store_of; by rewrite Hw).
  split; [rewrite Hw; by apply keeps_refl|]. split; [rewrite Hw; apply pays_refl|]. split; [exists inst; by rewrite Hst|]. split; [done|]. split; [|done].
  constructor; [by rewrite Hst|by rewrite Hst|congruence|by rewrite Hs].
Qed.

Lemma run_call f idx t rest :
  ready f -> drop (fr_pc f) (instructions code) = le_bytes 4 idx ++ rest -> 0 <= idx < 2 ^ 32 -> function_type_at (i_module instance) idx = Some t ->
  zlen (inputs t) <= zlen (items f) -> height_at L c (fr_pc f + 4) = Some (zlen (items f) - zlen (inputs t) + zlen (outputs t)) ->
  does (do_instr Instr.call) (instr_post f) f.
Proof.
  intros Hf Hd Hidx Ht Hh Hn. cbn [FizzyExecute.do_instr]. unfold do_call. eapply does_read32; [exact Hd|done|]. eapply does_function_type; [exact Ht|].
  apply does_ret. by eapply post_invoke; [done| | | |apply Hf|..].
Qed.

Lemma run_call_indirect f idx t rest :
  ready f -> drop (fr_pc f) (instructions code) = le_bytes 4 idx ++ rest -> 0 <= idx < 2 ^ 32 -> has_table (i_module instance) = true ->
  at_idx (typesec (i_module instance)) idx = Some t ->
  1 + zlen (inputs t) <= zlen (items f) -> height_at L c (fr_pc f + 4) = Some (zlen (items f) - 1 - zlen (inputs t) + zlen (outputs t)) ->
  does (do_instr Instr.call_indirect) (instr_post f) f.
Proof.
  intros Hf Hd Hidx Htab Ht Hh Hn. cbn [FizzyExecute.do_instr]. unfold do_call_indirect. apply does_gets. destruct (self_ok f Hf) as [].
  destruct (io_table Htab) as (a & tab & Ha & Hta). rewrite Ha. apply does_assert; [done|]. eapply does_read32; [exact Hd|done|].
  pose proof Ht as Ht'. apply at_idx_nat in Ht' as (k & -> & Hk%lookup_lt_Some). apply does_assert; [apply Z.ltb_lt; unfold zlen; lia|].
  pose proof (zlen_nonneg (inputs t)). destruct (items_1 (items f)) as (v & l & Hv & Hl); [lia|]. eapply does_pop; [exact Hv|]. cbv zeta.
  eapply does_unptr; [done|]. eapply does_unptr; [exact Hta|]. destruct (_ <=? _) eqn:E; [by apply does_ret, post_trapped|]. bool_to_prop.
  destruct (at_idx_lt tab (u32 v)) as (e & He & Hin); [pose proof (wrap_range 32 v ltac:(lia)); lia|]. eapply does_elem; [exact He|].
  pose proof (st_elements _ _ (rd_store _ Hf) tab e ltac:(by eapply list_elem_of_lookup_2) Hin) as Hval. unfold element_valid in Hval.
  destruct (te_instance e) as [j|]; [|by apply does_ret, post_trapped]. destruct (Hval j eq_refl) as (inst & Hj & [t' Ht']).
  eapply does_unptr; [exact Hj|]. eapply does_function_type; [exact Ht'|]. eapply does_elem; [exact Ht|].
  case_bool_decide as Heq; cbn [negb]; [|by apply does_ret, post_trapped]. subst t'. apply does_ret.
  eapply post_invoke; [done|done|done|done|exact Hj|done|change (zlen (inputs t) <= zlen l); lia|].
  change (height_at L c (fr_pc f + 4) = Some (zlen l - zlen (inputs t) + zlen (outputs t))). rewrite Hn. f_equal. lia.
Qed.

(** ** Control *)

Lemma post_jump f f' : ready f -> fr_world f' = fr_world f -> zlen (locals f') = zlen (locals f) -> os_storage (fr_stack f') = os_storage (fr_stack f) ->
  height_at L c (fr_pc f') = Some (zlen (items f')) -> does (ret Continue) (instr_post f) f'.
Proof. intros. by apply does_ret, post_same. Qed.

Lemma branch_does (f : frame hostfn) target a d rest :
  drop (fr_pc f) (instructions code) = le_bytes 4 target ++ le_bytes 4 d ++ rest -> 0 <= target < 2 ^ 32 ->
  0 <= a <= 1 -> 0 <= d -> d + a <= zlen (items f) -> zlen (items f) < 2 ^ 31 ->
  does (branch code a) (fun _ f' => exists l, f' = set_items l (set_pc (Z.to_nat target) f) /\ zlen l = zlen (items f) - d) f.
Proof.
  intros Hd Ht Ha Hd0 Hle Hlt. unfold branch. eapply does_read32; [exact Hd|done|]. eapply does_read32; [cbn [set_pc fr_pc]; by eapply drop_more|lia|].
  apply does_modify, does_gets. match goal with |- does _ _ ?g => set (f1 := g) end. change (items f1) with (items f).
  apply does_assert; [apply Z.ltb_lt; lia|]. apply does_assert; [rewrite wrap_small by lia; apply Z.leb_le; lia|].
  assert (forall n, n <= zlen (items f) -> 0 <= n -> zlen (drop (Z.to_nat n) (items f)) = zlen (items f) - n) as Hdrop.
  { intros n Hn Hn0. unfold zlen in *. rewrite length_drop. lia. }
  destruct (a =? 0) eqn:E; bool_to_prop.
  - unfold stack_drop. apply does_gets. change (items f1) with (items f). apply does_assert; [apply Z.leb_le; lia|]. eexists. split; [done|]. apply Hdrop; lia.
  - apply does_assert; [apply Z.eqb_eq; lia|]. destruct (items_1 (items f)) as (v & l & Hv & _); [lia|]. eapply (does_top v l); [done|].
    apply does_drop; [change (items f1) with (items f); lia|]. change (items f1) with (items f). specialize (Hdrop d ltac:(lia) Hd0).
    destruct (items_1 (drop (Z.to_nat d) (items f))) as (v' & l' & Hv' & Hl'); [lia|]. unfold stack_set_top. apply does_gets. rewrite Hv'. cbn [items set_items set_stack fr_stack os_items].
    eexists. split; [done|]. rewrite zlen_cons. lia.
Qed.

Lemma run_br i f a d target rest :
  ready f -> i = Instr.br \/ i = Instr.return_ \/ i = Instr.br_if ->
  drop (fr_pc f) (instructions code) = le_bytes 4 a ++ le_bytes 4 target ++ le_bytes 4 d ++ rest -> 0 <= target < 2 ^ 32 -> 0 <= a <= 1 -> 0 <= d ->
  zlen (items f) <= max_stack_height code -> 0 <= zlen (items f) - (if bool_decide (i = Instr.br_if) then 1 else 0) - a - d ->
  height_at L c (Z.to_nat target) = Some (zlen (items f) - (if bool_decide (i = Instr.br_if) then 1 else 0) - d) ->
  (i = Instr.br_if -> height_at L c (fr_pc f + 12) = Some (zlen (items f) - 1)) -> does (do_instr i) (instr_post f) f.
Proof.
  intros Hf Hi Hd Ht Ha Hd0 Hmax Hle Htarget Hnext. assert (do_instr i = do_br code i) as -> by (by destruct Hi as [-> | [-> | ->]]).
  unfold do_br. eapply does_read32; [exact Hd|lia|]. pose proof (drop_more _ 4 _ _ Hd (length_le_bytes 4 a)) as Hd1.
  set (f1 := set_pc _ f). assert (forall l, zlen l = zlen (items f) - (if bool_decide (i = Instr.br_if) then 1 else 0) ->
    does (branch code a;;; ret Continue) (instr_post f) (set_items l f1)) as Htaken.
  { intros l Hl. eapply does_seq; [apply (branch_does (set_items l f1) target a d rest); [exact Hd1|done|done|done|change (items (set_items l f1)) with l; lia|]|].
    - change (items (set_items l f1)) with l. pose proof (zlen_nonneg (items f)). destruct (bool_decide _); lia.
    - cbv beta. intros _ f' (l' & -> & Hl'). apply post_jump; [done..|]. change (height_at L c (Z.to_nat target) = Some (zlen l')).
      change (items (set_items l f1)) with l in Hl'. rewrite Htarget, Hl', Hl. done. }
  case_bool_decide as Hbr; [|assert (f1 = set_items (items f) f1) as Hf1 by (by destruct f as [? [] ?]); rewrite Hf1; apply Htaken; lia].
  subst i. specialize (Hnext eq_refl). destruct (items_1 (items f)) as (v & l & Hv & Hl); [lia|]. apply does_bind. eapply (does_pop v l); [exact Hv|].
  apply does_ret. destruct (u32 v =? 0); [|apply Htaken; lia]. unfold skip. apply does_modify. apply post_jump; [done..|].
  change (height_at L c (Z.to_nat (Z.of_nat (fr_pc f + 4) + BranchImmediateSize)) = Some (zlen l)). unfold BranchImmediateSize.
  replace (Z.to_nat _) with (fr_pc f + 12)%nat by lia. by rewrite Hnext, Hl.
Qed.

Lemma run_if f target rest :
  ready f -> drop (fr_pc f) (instructions code) = le_bytes 4 target ++ rest -> 0 <= target < 2 ^ 32 -> 1 <= zlen (items f) ->
  height_at L c (Z.to_nat target) = Some (zlen (items f) - 1) -> height_at L c (fr_pc f + 4) = Some (zlen (items f) - 1) ->
  does (do_instr Instr.if_) (instr_post f) f.
Proof.
  intros Hf Hd Ht Hh Htarget Hn. cbn [FizzyExecute.do_instr]. unfold do_if. destruct (items_1 _ Hh) as (v & l & Hv & Hl). eapply does_pop; [exact Hv|].
  destruct (negb _).
  - unfold skip. apply does_modify. apply post_jump; [done..|]. change (height_at L c (Z.to_nat (Z.of_nat (fr_pc f) + 4)) = Some (zlen l)).
    replace (Z.to_nat _) with (fr_pc f + 4)%nat by lia. by rewrite Hn, Hl.
  - eapply does_read32; [exact Hd|done|]. unfold jump. apply does_modify. apply post_jump; [done..|]. change (height_at L c (Z.to_nat target) = Some (zlen l)). by rewrite Htarget, Hl.
Qed.

Lemma run_else f target rest :
  ready f -> drop (fr_pc f) (instructions code) = le_bytes 4 target ++ rest -> 0 <= target < 2 ^ 32 ->
  height_at L c (Z.to_nat target) = Some (zlen (items f)) -> does (do_instr Instr.else_) (instr_post f) f.
Proof.
  intros Hf Hd Ht Htarget. cbn [FizzyExecute.do_instr]. unfold do_else. eapply does_read32; [exact Hd|done|]. unfold jump. apply does_modify. by apply post_jump.
Qed.

Lemma enc_slots_drop pos ds j d : ds !! j = Some d ->
  exists rest, drop (8 * j) (enc_slots T pos ds) = le_bytes 4 (T (pos + 8 * j)%nat) ++ le_bytes 4 d ++ rest.
Proof.
  revert pos j. induction ds as [|d' ds IH]; intros pos [|j]; cbn [lookup list_lookup]; [done|done|intros [= ->]|intros Hj].
  - exists (enc_slots T (pos + 8) ds). cbn [enc_slots]. by rewrite Nat.mul_0_r, Nat.add_0_r, drop_0.
  - destruct (IH (pos + 8)%nat j Hj) as [rest Hrest]. exists rest. cbn [enc_slots]. rewrite app_assoc.
    replace (pos + 8 * S j)%nat with (pos + 8 + 8 * j)%nat by lia. rewrite <- Hrest.
    replace (8 * S j)%nat with (length (le_bytes 4 (T pos) ++ le_bytes 4 d') + 8 * j)%nat by (rewrite length_app, !length_le_bytes; lia).
    by rewrite <- drop_drop, drop_app_length.
Qed.

Lemma run_br_table f a ds rest :
  ready f -> drop (fr_pc f) (instructions code) = le_bytes 4 (zlen ds - 1) ++ le_bytes 4 a ++ enc_slots T (fr_pc f + 8) ds ++ rest ->
  0 <= a <= 1 -> 1 <= zlen ds <= 2 ^ 32 -> 1 <= zlen (items f) <= max_stack_height code ->
  Forall (fun d => 0 <= d /\ d + a <= zlen (items f) - 1) ds ->
  (forall j d, ds !! j = Some d -> 0 <= T (fr_pc f + 8 + 8 * j)%nat < 2 ^ 32 /\
     height_at L c (Z.to_nat (T (fr_pc f + 8 + 8 * j)%nat)) = Some (zlen (items f) - 1 - d)) ->
  does (do_instr Instr.br_table) (instr_post f) f.
Proof.
  intros Hf Hd Ha Hlen Hh Hds HT. cbn [FizzyExecute.do_instr]. unfold do_br_table. eapply does_read32; [exact Hd|lia|].
  pose proof (drop_more _ 4 _ _ Hd (length_le_bytes 4 _)) as Hd1. eapply does_read32; [exact Hd1|lia|].
  pose proof (drop_more _ 4 _ _ Hd1 (length_le_bytes 4 _)) as Hd2. destruct (items_1 (items f)) as (v & l & Hv & Hl); [lia|]. eapply does_pop; [exact Hv|].
  cbv zeta. pose proof (wrap_range 32 v ltac:(lia)) as Hr. set (j := if u32 v <? zlen ds - 1 then u32 v else zlen ds - 1).
  replace (if u32 v <? zlen ds - 1 then u32 v * BranchImmediateSize else (zlen ds - 1) * BranchImmediateSize) with (8 * j) by (unfold j, BranchImmediateSize; destruct (_ <? _); lia).
  assert (0 <= j < zlen ds) as Hj by (unfold j; destruct (_ <? _) eqn:E; bool_to_prop; lia). clearbody j.
  destruct (lookup_lt_is_Some_2 ds (Z.to_nat j)) as [d Hdj]; [unfold zlen in Hj; lia|]. destruct (HT _ _ Hdj) as [Ht1 Ht2].
  rewrite Forall_lookup in Hds. destruct (Hds _ _ Hdj) as [Hd3 Hd4]. destruct (enc_slots_drop (fr_pc f + 8) ds _ _ Hdj) as [rest' Hrest].
  unfold skip. apply does_modify. cbn [fr_pc set_pc set_items set_stack]. match goal with |- does _ _ ?g => set (f1 := g) end.
  assert (drop (fr_pc f1) (instructions code) = le_bytes 4 (T (fr_pc f + 8 + 8 * Z.to_nat j)%nat) ++ le_bytes 4 d ++ rest' ++ rest) as Hd5.
  { unfold f1. cbn [fr_pc set_pc set_items set_stack]. replace (Z.to_nat _) with (fr_pc f + 4 + 4 + 8 * Z.to_nat j)%nat by lia.
    rewrite <- drop_drop, Hd2, drop_app_le, Hrest, <- !app_assoc; [done|]. rewrite length_enc_slots. unfold zlen in Hj. lia. }
  eapply does_seq; [eapply branch_does; [exact Hd5|done|done|done|change (items f1) with l; lia|change (items f1) with l; lia]|].
  cbv beta. intros _ f' (l' & -> & Hl'). apply post_jump; [done..|].
  change (height_at L c (Z.to_nat (T (fr_pc f + 8 + 8 * Z.to_nat j)%nat)) = Some (zlen l')). change (items f1) with l in Hl'. rewrite Ht2, Hl', Hl. done.
Qed.

(** ** One instruction *)

Lemma imm_offset imm : bytes_ok imm -> length imm = 4%nat -> exists off, imm = le_bytes 4 off /\ 0 <= off < 2 ^ 32.
Proof.
  intros Hok Hlen. exists (le_val imm). pose proof (le_bytes_val imm Hok) as Hb. rewrite Hlen in Hb. split; [done|].
  pose proof (le_val_range imm Hok) as Hr. unfold zlen in Hr. by rewrite Hlen in Hr.
Qed.

Lemma post_here f : ready f -> height_at L c (fr_pc f) = Some (zlen (items f)) -> does (ret Continue) (instr_post f) f.
Proof. intros Hf Hh. by apply post_jump. Qed.

Ltac numeric_shape := cbv beta iota delta [unary_op binary_op comparison_op signed_comparison partial_op trunc_op].

Lemma run_plain i imm takes gives f rest :
  ready f -> drop (fr_pc f) (instructions code) = imm ++ rest -> plain_ok (i_module instance) num_locals i imm takes gives -> bytes_ok imm ->
  zlen (type_of_opcode (Instr.opcode i)).1 + takes <= zlen (items f) ->
  (i <> Instr.unreachable -> height_at L c (fr_pc f + length imm) = Some (zlen (items f) - zlen (type_of_opcode (Instr.opcode i)).1 +
     zlen (type_of_opcode (Instr.opcode i)).2 - takes + gives)) ->
  (metering = true -> 0 <= ticks_of (fr_world f)) -> does (do_instr i) (instr_post f) f.
Proof.
  intros Hf Hd Hp Hok Hh Hn Ht. destruct (decide (i = Instr.unreachable)) as [->|Hu]; [by apply does_ret, post_trapped|]. specialize (Hn Hu).
  destruct (is_memory_access i) eqn:Ema.
  - assert (length imm = 4%nat /\ has_memory (i_module instance) = true /\ takes = 0 /\ gives = 0) as (Hlen & Hm & -> & ->)
      by (destruct i; try done; cbn [plain_ok is_memory_access] in Hp; rewrite ?Ema in Hp; tauto).
    destruct (imm_offset imm Hok Hlen) as (off & -> & Hoff). rewrite Hlen in Hn. clear Hp Hok Hlen Hu Ht.
    destruct i; try done; clear Ema; revert Hh Hn; type_sizes; intros Hh Hn;
      first [ (eapply run_load; [exact Hf|reflexivity|lia|exact Hm|exact Hd|exact Hoff|lia|rewrite Hn; f_equal; lia])
            | (eapply run_store; [exact Hf|reflexivity|lia|exact Hm|exact Hd|exact Hoff|lia|rewrite Hn; f_equal; lia]) ].
  - destruct i; cbn [plain_ok] in Hp; try done; rewrite ?Ema in Hp; revert Hh Hn; type_sizes; intros Hh Hn;
      try (destruct Hp as (-> & -> & ->); cbn [length] in Hn; rewrite Nat.add_0_r in Hn;
           first [ (eapply run_numeric; [exact Hf|reflexivity|numeric_shape; lia|rewrite Hn; f_equal; numeric_shape; lia])
                 | (eapply post_here; [exact Hf|rewrite Hn; f_equal; lia]) ]).
    + destruct Hp as (-> & -> & ->). cbn [length] in Hn. rewrite Nat.add_0_r in Hn. cbn [FizzyExecute.do_instr]. unfold do_end. apply does_gets.
      pose proof (height_at_range _ _ _ _ Hn). pose proof (length_certified _ _ _ _ _ _ _ _ Hcert). rewrite (proj2 (Nat.eqb_neq _ _)) by lia.
      apply post_here; [done|]. rewrite Hn. f_equal. lia.
    + destruct Hp as (idx & t & -> & Hidx & _ & Ht' & -> & ->). rewrite length_le_bytes in Hn.
      eapply run_call; [exact Hf|exact Hd|done|exact Ht'|lia|rewrite Hn; f_equal; lia].
    + destruct Hp as (idx & t & -> & Hidx & Htab & Ht' & -> & ->). rewrite length_le_bytes in Hn.
      eapply run_call_indirect; [exact Hf|exact Hd|done|exact Htab|exact Ht'|lia|rewrite Hn; f_equal; lia].
    + destruct Hp as (-> & -> & ->). cbn [length] in Hn. rewrite Nat.add_0_r in Hn. apply run_drop; [done|lia|rewrite Hn; f_equal; lia].
    + destruct Hp as (-> & -> & ->). cbn [length] in Hn. rewrite Nat.add_0_r in Hn. apply run_select; [done|lia|rewrite Hn; f_equal; lia].
    + destruct Hp as (idx & -> & Hidx & Hlt & -> & ->). rewrite length_le_bytes in Hn.
      eapply run_local; [exact Hf|by left|exact Hd|done|done|by left|exact Hn|rewrite bool_decide_true by done; lia].
    + destruct Hp as (idx & -> & Hidx & Hlt & -> & ->). rewrite length_le_bytes in Hn.
      eapply run_local; [exact Hf|by right; left|exact Hd|done|done|right; lia|exact Hn|rewrite (bool_decide_false (_ = Instr.local_get)), bool_decide_true by done; lia].
    + destruct Hp as (idx & -> & Hidx & Hlt & -> & ->). rewrite length_le_bytes in Hn.
      eapply run_local; [exact Hf|by right; right|exact Hd|done|done|right; lia|exact Hn|rewrite !bool_decide_false by done; lia].
    + destruct Hp as (idx & -> & Hidx & Hlt & -> & ->). rewrite length_le_bytes in Hn.
      eapply run_global_get; [exact Hf|exact Hd|done|done|rewrite Hn; f_equal; lia].
    + destruct Hp as (idx & t & -> & Hidx & Ht' & Hmut & -> & ->). rewrite length_le_bytes in Hn.
      eapply run_global_set; [exact Hf|exact Hd|done|exact Ht'|done|lia|rewrite Hn; f_equal; lia].
    + destruct Hp as (-> & Hm & -> & ->). cbn [length] in Hn. rewrite Nat.add_0_r in Hn. apply run_memory_size; [done|done|rewrite Hn; f_equal; lia].
    + destruct Hp as (-> & Hm & -> & ->). cbn [length] in Hn. rewrite Nat.add_0_r in Hn. apply run_memory_grow; [done|done|lia|rewrite Hn; f_equal; lia|done].
    + destruct Hp as (Hlen & -> & ->). rewrite Hlen in Hn. eapply (run_const _ 4); [exact Hf|left; split; [by left|done]|exact Hd|done|rewrite Hn; f_equal; lia].
    + destruct Hp as (Hlen & -> & ->). rewrite Hlen in Hn. eapply (run_const _ 8); [exact Hf|right; split; [by left|done]|exact Hd|done|rewrite Hn; f_equal; lia].
    + destruct Hp as (Hlen & -> & ->). rewrite Hlen in Hn. eapply (run_const _ 4); [exact Hf|left; split; [by right|done]|exact Hd|done|rewrite Hn; f_equal; lia].
    + destruct Hp as (Hlen & -> & ->). rewrite Hlen in Hn. eapply (run_const _ 8); [exact Hf|right; split; [by right|done]|exact Hd|done|rewrite Hn; f_equal; lia].
Qed.

Definition op_of (it : item) : Instr.t :=
  match it with Plain i _ | Jump i | Branch i _ _ => i | Switch _ _ => Instr.br_table end.

Lemma item_opcode p it : exists bs, enc_item T p it = Instr.opcode (op_of it) :: bs.
Proof. destruct it; eexists; done. Qed.

Lemma run_item p it f :
  here (i_module instance) num_locals (instructions code) T L c p (zlen (items f)) it -> ready f -> fr_pc f = (p + 1)%nat ->
  zlen (items f) <= max_stack_height code -> (metering = true -> 0 <= ticks_of (fr_world f)) -> does (do_instr (op_of it)) (instr_post f) f.
Proof.
  intros [(rest & Hb) (next & Hok & Hn) HT] Hf Hpc Hmax Ht. pose proof (drop_more p 1 [Instr.opcode (op_of it)]) as Hd.
  destruct it as [i imm|i|i a d|a ds]; cbn [op_of enc_item item_ok item_size slots_of] in *.
  - destruct Hok as (takes & gives & Hp & Hok & Hh & ->). eapply run_plain; [exact Hf|rewrite Hpc; by apply Hd; [exact Hb|]|exact Hp|done|done| |done].
    intros Hu. rewrite Hpc, <- Nat.add_assoc. apply Hn. by rewrite bool_decide_false.
  - assert (drop (fr_pc f) (instructions code) = le_bytes 4 (T (p + 1)%nat) ++ rest) as Hd' by (rewrite Hpc; by apply Hd; [exact Hb|]).
    destruct Hok as [(-> & Hh & ->)|(-> & ->)].
    + destruct (HT (p + 1)%nat (zlen (items f) - 1)) as [Ht1 Ht2]; [by apply list_elem_of_singleton|]. eapply run_if; [exact Hf|exact Hd'|done|done|exact Ht2|]. rewrite Hpc, <- Nat.add_assoc. by apply Hn.
    + destruct (HT (p + 1)%nat (zlen (items f))) as [Ht1 Ht2]; [by apply list_elem_of_singleton|]. eapply run_else; [exact Hf|exact Hd'|done|exact Ht2].
  - assert (drop (fr_pc f) (instructions code) = le_bytes 4 a ++ le_bytes 4 (T (p + 5)%nat) ++ le_bytes 4 d ++ rest) as Hd'.
    { rewrite Hpc. rewrite !app_assoc. rewrite <- (app_assoc (le_bytes 4 a)). apply Hd; [rewrite Hb|done]. cbn. by rewrite <- ?app_assoc. }
    destruct (HT (p + 5)%nat ((if bool_decide (i = Instr.br_if) then zlen (items f) - 1 else zlen (items f)) - d)) as [Ht1 Ht2];
      [by apply list_elem_of_singleton|]. destruct Hok as (Hi & Ha & Hd0 & Hle & Hnext).
    eapply run_br; [exact Hf|tauto|exact Hd'|done|done|done|done|destruct (bool_decide _); lia|rewrite Ht2; f_equal; destruct (bool_decide _); lia|].
    intros ->. rewrite bool_decide_true in Hnext by done. rewrite Hpc, <- Nat.add_assoc. by apply Hn.
  - destruct Hok as (Hh & Ha & Hlen & Hds & _).
    eapply (run_br_table f a ds rest); [exact Hf| |done|done|lia|done|].
    + rewrite Hpc. replace (p + 1 + 8)%nat with (p + 9)%nat by lia. rewrite !app_assoc. apply Hd; [|done]. rewrite Hb. cbn [app]. f_equal.
    + intros j d Hj. rewrite Hpc. replace (p + 1 + 8 + 8 * j)%nat with (p + 9 + 8 * j)%nat by lia. apply HT.
      exact (elem_of_lookup_imap_2 (fun k d => ((p + 9 + 8 * k)%nat, Some (zlen (items f) - 1 - d))) ds d j Hj).
Qed.

Lemma cost_one i : cost_of_opcode (Instr.opcode i) = 1.
Proof. by destruct i. Qed.

(** What one round of the loop does: an instruction, one tick less. *)
Definition step_post (f : frame hostfn) (n : next) (f' : frame hostfn) : Prop :=
  exists f1, keeps (fr_world f) (fr_world f1) /\ instr_post f1 n f' /\
    (n <> DoTrap -> metering = true -> 0 <= ticks_of (fr_world f1) <= ticks_of (fr_world f) - 1).


Lemma step_does f :
  placed f (zlen (items f)) -> (metering = true -> 0 <= ticks_of (fr_world f)) -> does (step metering self instance code) (step_post f) f.
Proof.
  intros [Hf Hh] Ht. unfold step. set (p := fr_pc f) in *.
  assert (exists i rest, drop p (instructions code) = Instr.opcode i :: rest /\
    forall f1, ready f1 -> fr_pc f1 = (p + 1)%nat -> items f1 = items f -> (metering = true -> 0 <= ticks_of (fr_world f1)) ->
      does (do_instr i) (instr_post f1) f1) as (i & rest & Hd & Hrun).
  { destruct (position _ _ _ _ _ _ _ _ Hcert Hsize p _ Hh) as [(Hp & Ha & Hd)|(it & Hit)].
    - exists Instr.end_, []. split; [done|]. intros f1 Hf1 Hpc Hi _. cbn [FizzyExecute.do_instr]. unfold do_end. apply does_gets.
      rewrite Hpc, (length_certified _ _ _ _ _ _ _ _ Hcert), Hp, Nat.eqb_refl. apply does_ret. split; [apply keeps_refl, Hf1|]. split; [apply pays_refl|]. by rewrite Hi.
    - destruct (h_bytes _ _ _ _ _ _ _ _ _ Hit) as [rest Hb]. destruct (item_opcode p it) as [bs Hbs]. exists (op_of it), (bs ++ rest).
      split; [by rewrite Hb, Hbs|]. intros f1 Hf1 Hpc Hi Ht1. eapply run_item; [rewrite Hi; exact Hit|done|done| |done].
      rewrite Hi. by eapply (height_bound _ _ _ _ _ _ _ _ Hcert). }
  eapply (does_read 1 [Instr.opcode i] rest); [exact Hd|done|lia|]. replace (le_val [Instr.opcode i]) with (Instr.opcode i) by (cbn [le_val]; lia).
  rewrite cost_one, Instr.of_byte_opcode. fold p. set (f1 := set_pc (p + 1) f). assert (ready f1) as Hf1 by (by apply ready_pc).
  apply does_bind. destruct metering eqn:Em.
  - specialize (Ht eq_refl). eapply does_run; [apply charge_run; [lia|change (ticks_of (fr_world f1)) with (ticks_of (fr_world f)); lia]|].
    change (ticks_of (fr_world f1)) with (ticks_of (fr_world f)). set (f2 := set_world _ f1). assert (ready f2) as Hf2 by (by apply ready_ticks).
    assert (keeps (fr_world f) (fr_world f2)) as Hk by (apply (keeps_ticks _ (fr_world f)), Hf).
    destruct (0 <=? _) eqn:E; cbn [negb]; bool_to_prop.
    + eapply does_mono; [apply Hrun; [done|done|done|intros _; unfold ticks_of in *; cbn; lia]|]. intros n f' Hpost. exists f2. split; [done|]. split; [done|].
      intros _ _. unfold ticks_of in *. cbn. lia.
    + apply does_ret. exists f2. split; [done|]. split; [by apply post_trapped|]. done.
  - apply does_ret. cbn [negb]. eapply does_mono; [by apply Hrun|]. intros n f' Hpost. exists f1. split; [apply keeps_refl, Hf|]. split; [done|]. intros _ Hmt. congruence.
Qed.
End instruction.

(** ** Runs *)

Definition result_fits (t : FuncType) (r : ExecutionResult) : Prop :=
  match r with
  | Trap => True
  | Void => length (outputs t) = 0%nat
  | Result _ => length (outputs t) = 1%nat
  end.

Definition args_ok (t : FuncType) (args : option (list Z)) : Prop :=
  match args with Some l => (length (inputs t) <= length l)%nat | None => inputs t = [] end.

(** How a call leaves the world: it keeps the invariant, returns what its type
    says and, unless it traps, has not gained ticks. *)
Definition returns (metering : bool) (t : FuncType) (w : World hostfn) (r : ExecutionResult) (w' : World hostfn) : Prop :=
  keeps w w' /\ result_fits t r /\ (r <> Trap -> pays metering w w').

(** Whatever the host answers in this way, the run ends with [Q] or a crash in
    [P]. The host is called with arguments of the type it is imported with, and
    the instances [base] are there. *)
Fixpoint run_ok {A} (metering : bool) (base : list (Instance_ hostfn)) (P : fault -> Prop) (Q : A -> World hostfn -> Prop) (m : run hostfn A) : Prop :=
  match m with
  | Done a w => Q a w
  | Crash f => P f
  | CallHost h j args w k =>
      store_ok host_type (w_store w) /\ base `prefix_of` s_instances (w_store w) /\ is_Some (s_instances (w_store w) !! j) /\
      (metering = true -> 0 <= ticks_of w) /\
      exists t, host_type h = Some t /\ args_ok t args /\ forall r w', returns metering t w r w' -> run_ok metering base P Q (k r w')
  end.

Lemma run_ok_mono {A} metering base (P P' : fault -> Prop) (Q Q' : A -> World hostfn -> Prop) m :
  (forall f, P f -> P' f) -> (forall a w, Q a w -> Q' a w) -> run_ok metering base P Q m -> run_ok metering base P' Q' m.
Proof.
  intros HP HQ. induction m as [a w|f|h j args w k IH]; cbn; [apply HQ|apply HP|]. intros (H1 & H2 & H3 & H4 & t & H5 & H6 & H7). repeat (split; [done|]).
  exists t. repeat (split; [done|]). intros r w' Hr. by apply IH, H7.
Qed.

Lemma run_ok_bind {A B} metering base P (Q : A -> World hostfn -> Prop) (Q' : B -> World hostfn -> Prop) m k :
  run_ok metering base P Q m -> (forall a w, Q a w -> run_ok metering base P Q' (k a w)) -> run_ok metering base P Q' (run_bind m k).
Proof.
  intros Hm Hk. induction m as [a w|f|h j args w c IH]; cbn in *; [by apply Hk|done|]. destruct Hm as (H1 & H2 & H3 & H4 & t & H5 & H6 & H7). repeat (split; [done|]).
  exists t. repeat (split; [done|]). intros r w' Hr. by apply IH, H7.
Qed.

Lemma run_step_ok {S A B} metering base P (Q : B -> World hostfn -> Prop) (m : M S A) (R : A -> S -> Prop) s k :
  does m R s -> (forall a s', R a s' -> run_ok metering base P Q (k a s')) -> run_ok metering base P Q (run_step m s k).
Proof. unfold does, run_step. destruct (m s); [auto|done|done]. Qed.

Lemma keeps_leave w w' : keeps w w' -> keeps (leave w) (leave w').
Proof. intros (H1 & H2 & H3). split; [done|]. split; [done|]. unfold depth_of in *. cbn. lia. Qed.

(** *** The beginning of a call *)

Lemma copy_args_does {S} t args (s : S) : args_ok t args -> does (copy_args args (zlen (inputs t))) (fun l s' => s' = s /\ zlen l = zlen (inputs t)) s.
Proof.
  intros Ha. unfold copy_args. destruct (zlen (inputs t) =? 0) eqn:E; bool_to_prop; [apply does_ret; split; [done|by rewrite E]|].
  destruct args as [l|]; cbn in Ha; [|by rewrite Ha in E]. apply (does_unptr _ l); [done|]. rewrite (proj2 (Z.leb_le _ _)) by (unfold zlen; lia).
  apply does_ret. split; [done|]. unfold zlen in *. rewrite length_take. lia.
Qed.

Lemma new_stack_spec {S} t args n max (s : S) :
  args_ok t args -> 0 <= n ->
  match new_stack args (zlen (inputs t)) n max s with
  | Ret st s' => s' = s /\ os_items st = [] /\ zlen (os_locals st) = zlen (inputs t) + n /\ num_locals_adjusted (zlen (inputs t) + n) + max <= os_storage st
  | Throw _ _ => False
  | Fault f => f = terminate bad_alloc
  end.
Proof.
  intros Ha Hn. unfold new_stack. cbv zeta. set (required := num_locals_adjusted _ + max).
  assert (does (let* copied := copy_args args (zlen (inputs t)) in
    ret (MkOperandStack (copied ++ replicate (Z.to_nat n) 0) [] (if required <=? small_storage_size then small_storage_size else required)))
    (fun st s' => s' = s /\ os_items st = [] /\ zlen (os_locals st) = zlen (inputs t) + n /\ required <= os_storage st) s) as Hd.
  { eapply does_seq; [by apply copy_args_does|]. cbv beta. intros l s' [-> Hl]. apply does_ret. split; [done|]. split; [done|]. split.
    - cbn. unfold zlen in *. rewrite length_app, length_replicate. lia.
    - cbn. destruct (required <=? _) eqn:E; bool_to_prop; lia. }
  unfold does in Hd. unfold bind at 1. destruct (required <=? small_storage_size) eqn:E; cbn [ret].
  - destruct (bind _ _ s); done.
  - destruct (can_allocate _); cbn [ret]; [|done]. destruct (bind _ _ s); done.
Qed.

(** Where a call starts, for a function of the store. *)
Lemma enter_spec self inst func_idx t args w :
  store_ok host_type (w_store w) -> s_instances (w_store w) !! self = Some inst -> function_type_at (i_module inst) func_idx = Some t -> 0 <= func_idx ->
  args_ok t args -> 0 <= depth_of w ->
  match enter self func_idx args w with
  | Ret TooDeep w' => w' = w
  | Ret (Imported fn) w' => w' = w /\ exists h, fn = HostFunction h /\ host_type h = Some t
  | Ret (Enter inst' code f) w' => w' = w /\ inst' = inst /\ function_certified (i_module inst) t code /\ fr_world f = set_ctx (add_depth 1) w /\ fr_pc f = 0%nat /\
      items f = [] /\ zlen (locals f) = zlen (inputs t) + local_count code /\
      num_locals_adjusted (zlen (inputs t) + local_count code) + max_stack_height code <= os_storage (fr_stack f)
  | Throw _ _ => False
  | Fault f => f = terminate bad_alloc
  end.
Proof.
  intros Hs Hself Ht Hpos Ha Hd. unfold enter. rewrite bind_gets. unfold depth_of in Hd. rewrite (bind_Ret (assert_that _) _ _ tt w); [|unfold assert_that; by rewrite (proj2 (Z.leb_le _ _))].
  cbn [id]. destruct (CallStackLimit <=? _); [done|]. rewrite (bind_Ret (unptr _) _ _ inst w); [|by rewrite Hself]. cbv zeta.
  rewrite (bind_Ret (get_function_type _ _) _ _ t w).
  2: { pose proof (does_function_type (i_module inst) func_idx t (fun x => ret x) (fun a s' => a = t /\ s' = w) w Ht (conj eq_refl eq_refl)) as Hf.
       unfold does, bind in Hf. destruct (get_function_type (i_module inst) func_idx w) as [a s'| |]; [|done|done]. cbn in Hf. by destruct Hf as [-> ->]. }
  destruct (st_instances _ _ Hs _ _ Hself) as [].
  rewrite (bind_Ret (assert_that _) _ _ tt w); [|unfold assert_that; by rewrite (proj2 (Nat.eqb_eq _ _))].
  assert (zlen (i_imported_functions inst) = zlen (imported_function_types (i_module inst))) as Hlen by (unfold zlen; by f_equal).
  unfold function_type_at in Ht. rewrite <- Hlen in Ht. destruct (func_idx <? _) eqn:E; bool_to_prop.
  - destruct (at_idx_in (i_imported_functions inst) func_idx ltac:(lia)) as (fn & Hfn). unfold bind, elem. rewrite Hfn. cbn. split; [done|].
    apply at_idx_nat in Hfn as (k & -> & Hk). unfold at_idx in Ht. rewrite (proj2 (Z.ltb_ge _ _)), Nat2Z.id in Ht by lia. by apply (io_hosts k fn t).
  - destruct (at_idx (funcsec (i_module inst)) _) as [ti|] eqn:Eti; [|done]. cbn in Ht. pose proof Eti as Eti'. apply at_idx_nat in Eti' as (k & Hk & Hk'%lookup_lt_Some).
    destruct (at_idx_in (codesec (i_module inst)) (func_idx - zlen (i_imported_functions inst))) as (code & Hcode); [unfold zlen in *; lia|].
    rewrite (bind_Ret (get_code _ _) _ _ code w).
    2: { unfold get_code. unfold bind, assert_that. rewrite <- Hlen, (proj2 (Z.leb_le _ _)) by lia. cbn [ret]. rewrite (proj2 (Z.ltb_lt _ _)) by (unfold zlen in *; lia).
         cbn [ret]. unfold elem. by rewrite Hcode. }
    destruct (io_certified _ _ Hcode) as (t' & Ht' & Hfc). assert (t' = t) as ->.
    { rewrite code_at, Eti in Ht' by (apply at_idx_nat in Hcode as (k' & -> & _); lia). cbn in Ht'. congruence. }
    pose proof (new_stack_spec t args (local_count code) (max_stack_height code) w Ha (proj1 (fc_locals _ _ _ Hfc))) as Hn. unfold bind.
    destruct (new_stack _ _ _ _ w) as [st w'| |]; [|done|done]. destruct Hn as (-> & Hi & Hl & Hst). cbn. done.
Qed.

Lemma function_type_pos m idx t : function_type_at m idx = Some t -> 0 <= idx.
Proof.
  unfold function_type_at, at_idx. destruct (idx <? zlen _) eqn:E.
  - destruct (idx <? 0) eqn:E2; [done|]. bool_to_prop. lia.
  - bool_to_prop. pose proof (zlen_nonneg (imported_function_types m)). lia.
Qed.

Lemma outputs_le m idx t : module_wf m -> function_type_at m idx = Some t -> (length (outputs t) <= 1)%nat.
Proof. intros Hm Ht. pose proof (outputs_at m (wf_types _ Hm) (imported_types_ok _ Hm) idx t Ht). unfold zlen in *. lia. Qed.

(** *** The end of a call *)

Lemma finish_call_does (inst : Instance_ hostfn) func_idx t f :
  function_type_at (i_module inst) func_idx = Some t -> (length (outputs t) <= 1)%nat -> zlen (items f) = zlen (outputs t) ->
  does (finish_call inst func_idx) (fun r f' => f' = f /\ result_fits t r) f.
Proof.
  intros Ht Hout Hi. unfold finish_call. apply does_gets. eapply does_function_type; [exact Ht|]. assert (length (items f) = length (outputs t)) as Hlen by (unfold zlen in Hi; lia).
  apply does_assert; [by apply Nat.eqb_eq|]. apply does_ret. split; [done|]. destruct (items f) as [|v l]; cbn in *; lia.
Qed.

Section certified.
Context (metering : bool) (self : nat) (inst : Instance_ hostfn) (code : Code) (num_locals arity : Z) (T : targets) (L : list (option Z * item)) (c : option Z).
Context (Hcert : certified (i_module inst) num_locals arity (max_stack_height code) (instructions code) T L c).

(** The caller's frame after the host or another function ran. *)
Lemma ready_world f w :
  ready self inst code num_locals f -> keeps (fr_world f) w -> ready self inst code num_locals (set_world w f).
Proof. intros [H1 H2 H3 H4] (K1 & K2 & _). constructor; [done|by eapply prefix_lookup_Some|done|done]. Qed.

Lemma after_invoke_does t r f :
  placed self inst code num_locals L c f (zlen (items f) - zlen (inputs t) + zlen (outputs t)) -> zlen (inputs t) <= zlen (items f) ->
  (length (outputs t) <= 1)%nat -> result_fits t r -> r <> Trap ->
  does (after_invoke t r) (fun _ f' => fr_world f' = fr_world f /\ placed self inst code num_locals L c f' (zlen (items f'))) f.
Proof.
  intros [Hf Hh] Hin Hout Hr Hnt. unfold after_invoke. apply does_drop; [done|]. set (l := drop _ _).
  assert (zlen l = zlen (items f) - zlen (inputs t)) as Hl by (unfold l, zlen in *; rewrite length_drop; lia).
  apply does_assert; [by apply Nat.leb_le|]. destruct r as [| |v]; cbn in Hr; [done| |].
  - unfold assert_that. rewrite (proj2 (Nat.eqb_eq _ _)) by done. split; [done|]. split; [by apply ready_pop|].
    change (height_at L c (fr_pc f) = Some (zlen l)). rewrite Hh, Hl. unfold zlen. rewrite Hr. f_equal. lia.
  - apply does_assert; [by apply Nat.eqb_eq|]. assert (zlen (outputs t) = 1) as Ho by (unfold zlen; lia). rewrite Ho in Hh.
    eapply does_run; [apply push_run; eapply (push_room self inst code num_locals arity T L c Hcert (set_items l f)); [by apply ready_pop|exact Hh|change (items (set_items l f)) with l; lia]|].
    split; [done|]. split; [by apply ready_pop, ready_pop|]. change (height_at L c (fr_pc f) = Some (zlen (v :: l))). rewrite Hh, zlen_cons, Hl. f_equal. lia.
Qed.
End certified.

(** *** All calls *)

Section runs.
Context (metering : bool) (endless : Prop).

(** The only crash is a refused allocation, or the lack of fuel of a run that
    may be endless. *)
Definition may_crash (f : fault) : Prop := f = terminate bad_alloc \/ f = out_of_fuel /\ endless.

Definition fueled (fuel : nat) (spare : Z) (w : World hostfn) : Prop :=
  (metering = true -> 0 <= ticks_of w) /\ (endless \/ metering = true /\ 2 * ticks_of w + spare <= Z.of_nat fuel).

Lemma loop_execute_ok base fuel :
  (forall self inst func_idx t code num_locals T L c f,
     function_type_at (i_module inst) func_idx = Some t ->
     certified (i_module inst) num_locals (zlen (outputs t)) (max_stack_height code) (instructions code) T L c ->
     zlen (instructions code) < 2 ^ 31 -> max_stack_height code < 2 ^ 31 ->
     placed self inst code num_locals L c f (zlen (items f)) -> base `prefix_of` s_instances (store_of f) ->
     0 <= depth_of (fr_world f) -> fueled fuel 1 (fr_world f) ->
     run_ok metering base may_crash (fun r w' => keeps (leave (fr_world f)) w' /\ result_fits t r /\ (r <> Trap -> pays metering (fr_world f) w'))
       (loop fuel metering self inst func_idx code f)) /\
  (forall self inst func_idx t args w,
     store_ok host_type (w_store w) -> s_instances (w_store w) !! self = Some inst -> function_type_at (i_module inst) func_idx = Some t ->
     args_ok t args -> base `prefix_of` s_instances (w_store w) -> 0 <= depth_of w -> fueled fuel 2 w ->
     run_ok metering base may_crash (returns metering t w) (execute fuel metering self func_idx args w)).
Proof.
  induction fuel as [|fuel [IHl IHe]].
  { split; intros; cbn; right; (split; [done|]); unfold fueled in *; destruct metering; naive_solver lia. }
  split.
  - intros self inst func_idx t code num_locals T L c f Ht Hcert Hsize Hheight Hpl Hbase Hdepth [Hticks Hfuel]. cbn [loop].
    eapply run_step_ok; [by eapply step_does|]. intros n f' (f1 & Hk1 & (Hk2 & Hpost) & Hpaid).
    assert (keeps (fr_world f) (fr_world f')) as Hk by (by eapply keeps_trans).
    assert (base `prefix_of` s_instances (store_of f')) as Hbase' by (etrans; [exact Hbase|apply Hk]).
    assert (depth_of (fr_world f') = depth_of (fr_world f)) as Hd by apply Hk.
    assert (module_wf (i_module inst)) as Hm by (destruct Hpl as [Hr _]; apply (st_instances _ _ (rd_store _ _ _ _ _ Hr) _ _ (rd_self _ _ _ _ _ Hr))).
    assert (n <> DoTrap -> pays metering (fr_world f1) (fr_world f') ->
      pays metering (fr_world f) (fr_world f') /\ fueled fuel 2 (fr_world f')) as Hfl.
    { intros Hn Hp1. unfold pays, fueled in *. destruct metering; [|split; [done|split; [done|by left; destruct Hfuel as [?|[? _]]]]].
      specialize (Hpaid Hn eq_refl). specialize (Hp1 eq_refl ltac:(lia)). split; [intros; lia|]. split; [intros; lia|].
      destruct Hfuel as [?|[_ ?]]; [by left|right; split; [done|lia]]. }
    destruct n as [| | |t' j idx]; cbn in Hpost.
    + destruct Hpost as [Hp1 Hpl']. destruct (Hfl ltac:(done) Hp1) as [Hp [Hf1 Hf2]]. eapply run_ok_mono; [done| |eapply IHl; [exact Ht|exact Hcert|done|done|exact Hpl'|done|lia|]].
      * intros r w' (K1 & K2 & K3). split; [eapply keeps_trans; [by apply keeps_leave|done]|]. split; [done|]. intros Hr Hmt H1. specialize (Hp Hmt H1). specialize (K3 Hr Hmt ltac:(lia)). lia.
      * split; [done|]. destruct Hf2 as [?|[? ?]]; [by left|right; split; [done|lia]].
    + split; [by apply keeps_leave|]. done.
    + destruct Hpost as [Hp1 Hi]. destruct (Hfl ltac:(done) Hp1) as [Hp _]. eapply run_step_ok; [eapply finish_call_does; [exact Ht|by eapply outputs_le|exact Hi]|].
      cbv beta. intros r f2 [-> Hr]. split; [by apply keeps_leave|]. done.
    + destruct Hpost as (Hp1 & (inst' & Hj & Ht') & Hin & Hpl'). destruct (Hfl ltac:(done) Hp1) as [Hp Hf2].
      rewrite (proj2 (Z.ltb_ge _ _)) by done. eapply run_ok_bind; [eapply IHe; [apply Hpl'|exact Hj|exact Ht'| |exact Hbase'|lia|exact Hf2]|].
      { cbn. unfold call_args. rewrite length_rev, length_take. unfold zlen in Hin. lia. }
      intros r w2 (K1 & K2 & K3). assert (module_wf (i_module inst')) as Hm'
        by (eapply (io_module _ (store_of f')); apply (st_instances _ _ (rd_store _ _ _ _ _ (proj1 Hpl')) _ _ Hj)).
      assert (r <> Trap -> run_ok metering base may_crash (fun r0 w' => keeps (leave (fr_world f)) w' /\ result_fits t r0 /\ (r0 <> Trap -> pays metering (fr_world f) w'))
        (run_step (after_invoke t' r) (set_world w2 f') (fun _ f0 => loop fuel metering self inst func_idx code f0))) as Hgo.
      { intros Hnt. eapply run_step_ok; [eapply (after_invoke_does self inst code num_locals); [exact Hcert| |exact Hin|by eapply outputs_le|exact K2|done]|].
        { destruct Hpl' as [Hr' Hh']. split; [by apply ready_world|exact Hh']. }
        cbv beta. intros _ f3 [Hw3 Hpl3]. change (fr_world (set_world w2 f')) with w2 in Hw3. specialize (K3 Hnt).
        eapply run_ok_mono; [done| |eapply IHl; [exact Ht|exact Hcert|done|done|exact Hpl3| | |]].
        - rewrite Hw3. intros r' w' (J1 & J2 & J3). split; [eapply keeps_trans; [apply keeps_leave; by eapply keeps_trans|done]|]. split; [done|].
          intros Hr Hmt H1. specialize (Hp Hmt H1). specialize (K3 Hmt ltac:(lia)). specialize (J3 Hr Hmt ltac:(lia)). lia.
        - unfold store_of in *. rewrite Hw3. etrans; [exact Hbase'|apply K1].
        - rewrite Hw3. destruct K1 as (_ & _ & ->). lia.
        - rewrite Hw3. destruct Hf2 as [Hf2 Hf3]. split; [intros Hmt; specialize (Hf2 Hmt); specialize (K3 Hmt ltac:(lia)); lia|].
          destruct Hf3 as [?|[Hmt ?]]; [by left|right; split; [done|]]. specialize (Hf2 Hmt). specialize (K3 Hmt ltac:(lia)). lia. }
      destruct r as [| |v]; [|by apply Hgo|by apply Hgo]. split; [eapply keeps_leave; by eapply keeps_trans|]. done.
  - intros self inst func_idx t args w Hs Hself Ht Ha Hbase Hd [Hticks Hfuel]. cbn [execute].
    pose proof (enter_spec self inst func_idx t args w Hs Hself Ht (function_type_pos _ _ _ Ht) Ha Hd) as He. unfold run_step.
    destruct (enter self func_idx args w) as [[|fn|inst' code f] w'| |fl]; [| | |done|by left].
    + subst w'. split; [by apply keeps_refl|]. done.
    + destruct He as (-> & h & -> & Hh). cbn. split; [exact Hs|]. split; [exact Hbase|]. split; [by exists inst|]. split; [exact Hticks|]. exists t. done.
    + destruct He as (-> & -> & [Hcode Hsz Hmx _] & Hw & Hpc & Hi & Hl & Hst). destruct Hcode as (T & L & c & Hcert).
      eapply run_ok_mono; [done| |eapply (IHl self inst func_idx t code _ T L c f); [exact Ht|exact Hcert|done|done| | | |]].
      * rewrite Hw. intros r w' (K1 & K2 & K3). split; [|by split]. destruct K1 as (K4 & K5 & K6). split; [done|]. split; [done|].
        unfold depth_of in *. cbn in K6. lia.
      * split; [constructor; [unfold store_of; by rewrite Hw|unfold store_of; by rewrite Hw|done|done]|].
        rewrite Hpc, Hi. exact (cert_entry _ _ _ _ _ _ _ _ Hcert).
      * unfold store_of. by rewrite Hw.
      * rewrite Hw. unfold depth_of in *. cbn. lia.
      * rewrite Hw. split; [exact Hticks|]. unfold ticks_of in *. cbn. destruct Hfuel as [?|[? ?]]; [by left|right; split; [done|lia]].
Qed.
End runs.
End safety.
