(* ===== verification/FizzyInstantiate.v ===== *)
(** * Instances

    [external/fizzy/lib/fizzy/instantiate.cpp]: the imports of a module are
    resolved and matched, its globals, table and memory are made and filled in,
    and its start function runs. What is allocated is added to the store; the
    failure of an allocation whose size the module chooses is an exception. *)

From stdpp Require Import base list option numbers strings pretty.
From S2P Require Import Prelude Memory FizzyLeb128 FizzyTypes FizzyNumeric FizzyExecute.

Section instantiate.
Context {hostfn : Type} `{Allocator} `{NanPattern}.
Abbreviation store := (Store hostfn).
Abbreviation I := (M store).

(** ** Matching the imports *)

Definition equal_types (valtypes1 valtypes2 : list ValType) : bool := bool_decide (valtypes1 = valtypes2).

Fixpoint match_function_types (i : Z) (types : list FuncType) (functions : list (ExternalFunction hostfn)) : I unit :=
  match types, functions with
  | t :: types, f :: functions =>
      if negb (equal_types (inputs t) (ef_input_types f)) || negb (equal_types (outputs t) (ef_output_types f))
      then throw (instantiate_error ("function " +:+ pretty i +:+ " type doesn't match module's imported function type"))
      else match_function_types (i + 1) types functions
  | _, _ => ret tt
  end.

Definition match_imported_functions (module_imported_types : list FuncType) (imported_functions : list (ExternalFunction hostfn)) : I unit :=
  if negb (length module_imported_types =? length imported_functions)%nat
  then throw (instantiate_error ("module requires " +:+ pretty (zlen module_imported_types) +:+ " imported functions, " +:+
                                 pretty (zlen imported_functions) +:+ " provided"))
  else match_function_types 0 module_imported_types imported_functions.

Definition match_limits (external_limits module_limits : Limits) : I unit :=
  if match lim_max external_limits with Some max => max <? lim_min external_limits | None => false end
  then throw (instantiate_error "provided import's min limit is above import's max limit")
  else if lim_min external_limits <? lim_min module_limits
  then throw (instantiate_error "provided import's min is below import's min defined in module")
  else match lim_max module_limits with
       | None => ret tt
       | Some max =>
           if match lim_max external_limits with Some m => m <=? max | None => false end then ret tt
           else throw (instantiate_error "provided import's max is above import's max defined in module")
       end.

Definition at_most_one {A} (l : list A) : bool := (length l <=? 1)%nat.

Definition match_imported_tables (module_imported_tables : list Table) (imported_tables : list ExternalTable) : I unit :=
  assert_that (at_most_one module_imported_tables) ;;;
  if negb (at_most_one imported_tables) then throw (instantiate_error "only 1 imported table is allowed")
  else match module_imported_tables, imported_tables with
       | [], [] => ret tt
       | [], _ => throw (instantiate_error "trying to provide imported table to a module that doesn't define one")
       | _ :: _, [] => throw (instantiate_error "module defines an imported table but none was provided")
       | t :: _, x :: _ =>
           match_limits (xt_limits x) (tab_limits t) ;;;
           match xt_table x with
           | None => throw (instantiate_error "provided imported table has a null pointer to data")
           | Some a =>
               let* s := gets s_tables in
               let* table := unptr (s !! a) in
               let size := zlen table in
               if (size <? lim_min (xt_limits x)) || match lim_max (xt_limits x) with Some max => max <? size | None => false end
               then throw (instantiate_error "provided imported table doesn't fit provided limits")
               else ret tt
           end
       end.

Definition match_imported_memories (module_imported_memories : list Memory) (imported_memories : list ExternalMemory) : I unit :=
  assert_that (at_most_one module_imported_memories) ;;;
  if negb (at_most_one imported_memories) then throw (instantiate_error "only 1 imported memory is allowed")
  else match module_imported_memories, imported_memories with
       | [], [] => ret tt
       | [], _ => throw (instantiate_error "trying to provide imported memory to a module that doesn't define one")
       | _ :: _, [] => throw (instantiate_error "module defines an imported memory but none was provided")
       | y :: _, x :: _ =>
           match_limits (xm_limits x) (mem_limits y) ;;;
           match xm_data x with
           | None => throw (instantiate_error "provided imported memory has a null pointer to data")
           | Some a =>
               let* s := gets s_memories in
               let* data := unptr (s !! a) in
               let size := zlen data in
               if negb (size `mod` PageSize =? 0)
               then throw (instantiate_error "provided imported memory size must be multiple of page size")
               else if negb (size =? memory_pages_to_bytes (lim_min (xm_limits x))) ||
                       match lim_max (xm_limits x) with Some max => memory_pages_to_bytes max <? size | None => false end
               then throw (instantiate_error "provided imported memory size must be equal to its min limit")
               else ret tt
           end
       end.

Fixpoint match_global_types (i : Z) (types : list GlobalType) (globals : list ExternalGlobal) : I unit :=
  match types, globals with
  | t :: types, g :: globals =>
      if negb (bool_decide (value_type (xg_type g) = value_type t))
      then throw (instantiate_error ("global " +:+ pretty i +:+ " value type doesn't match module's global type"))
      else if negb (eqb (is_mutable (xg_type g)) (is_mutable t))
      then throw (instantiate_error ("global " +:+ pretty i +:+ " mutability doesn't match module's global mutability"))
      else match xg_value g with
           | None => throw (instantiate_error ("global " +:+ pretty i +:+ " has a null pointer to value"))
           | Some _ => match_global_types (i + 1) types globals
           end
  | _, _ => ret tt
  end.

Definition match_imported_globals (module_imported_globals : list GlobalType) (imported_globals : list ExternalGlobal) : I unit :=
  if negb (length module_imported_globals =? length imported_globals)%nat
  then throw (instantiate_error ("module requires " +:+ pretty (zlen module_imported_globals) +:+ " imported globals, " +:+
                                 pretty (zlen imported_globals) +:+ " provided"))
  else match_global_types 0 module_imported_globals imported_globals.

(** ** Tables, memories and globals *)

(** [sizeof( TableElement )]: two pointers, a reference count and an index. *)
Definition table_element_size : Z := 32.
Definition null_element : TableElement := MkTableElement None 0.
Definition no_limits : Limits := MkLimits 0 None.

(** [new T( n )] of [n] times [size] bytes. *)
Definition allocate (bytes : Z) : I unit := if can_allocate bytes then ret tt else throw bad_alloc.

Definition allocate_table (module_tables : list Table) (imported_tables : list ExternalTable) : I (option nat * Limits) :=
  assert_that (length module_tables + length imported_tables <=? 1)%nat ;;;
  match module_tables, imported_tables with
  | [t], _ =>
      let min := lim_min (tab_limits t) in
      allocate (table_element_size * min) ;;;
      let* s := gets id in
      modify (fun s => MkStore (s_instances s) (s_memories s) (s_tables s ++ [replicate (Z.to_nat min) null_element]) (s_values s)) ;;;
      ret (Some (length (s_tables s)), tab_limits t)
  | _, [x] => ret (xt_table x, xt_limits x)
  | _, _ => ret (None, no_limits)
  end.

(** The limits of a memory stay below the hard limit. *)
Definition above_limit (limits : Limits) (memory_pages_limit : Z) : bool :=
  (memory_pages_limit <? lim_min limits) || match lim_max limits with Some max => memory_pages_limit <? max | None => false end.

Definition allocate_memory (module_memories : list Memory) (imported_memories : list ExternalMemory) (memory_pages_limit : Z)
  : I (option nat * Limits) :=
  if MaxMemoryPagesLimit <? memory_pages_limit
  then throw (instantiate_error ("hard memory limit cannot exceed " +:+ pretty (memory_pages_to_bytes MaxMemoryPagesLimit) +:+ " bytes"))
  else
    assert_that (length module_memories + length imported_memories <=? 1)%nat ;;;
    match module_memories, imported_memories with
    | [y], _ =>
        if above_limit (mem_limits y) memory_pages_limit
        then throw (instantiate_error ("cannot exceed hard memory limit of " +:+ pretty (memory_pages_to_bytes memory_pages_limit) +:+ " bytes"))
        else
          let memory_min_bytes := memory_pages_to_bytes (lim_min (mem_limits y)) in
          allocate memory_min_bytes ;;;
          let* s := gets id in
          modify (fun s => MkStore (s_instances s) (s_memories s ++ [replicate (Z.to_nat memory_min_bytes) 0]) (s_tables s) (s_values s)) ;;;
          ret (Some (length (s_memories s)), mem_limits y)
    | _, [x] =>
        if above_limit (xm_limits x) memory_pages_limit
        then throw (instantiate_error ("imported memory limits cannot exceed hard memory limit of " +:+
                                       pretty (memory_pages_to_bytes memory_pages_limit) +:+ " bytes"))
        else ret (xm_data x, xm_limits x)
    | _, _ => ret (None, no_limits)
    end.

Definition eval_constant_expression (expr : ConstantExpression) (imported_globals : list ExternalGlobal) (globals : list Z) : I Z :=
  match expr with
  | Constant v => ret v
  | GlobalGet global_idx =>
      assert_that (global_idx <? zlen imported_globals + zlen globals) ;;;
      if global_idx <? zlen imported_globals
      then
        let* g := elem imported_globals global_idx in
        let* a := unptr (xg_value g) in
        let* s := gets s_values in
        unptr (s !! a)
      else elem globals (global_idx - zlen imported_globals)
  end.

Fixpoint init_globals (imported_globals : list ExternalGlobal) (globalsec : list Global) (globals : list Z) : I (list Z) :=
  match globalsec with
  | [] => ret globals
  | g :: globalsec =>
      assert_that (match g_expression g with GlobalGet i => i <? zlen imported_globals | Constant _ => true end) ;;;
      let* value := eval_constant_expression (g_expression g) imported_globals globals in
      init_globals imported_globals globalsec (globals ++ [value])
  end.

(** ** Segments *)

Fixpoint data_offsets (memory : option nat) (imported_globals : list ExternalGlobal) (globals : list Z) (datasec : list Data) : I (list Z) :=
  match datasec with
  | [] => ret []
  | d :: datasec =>
      let* v := eval_constant_expression (d_offset d) imported_globals globals in
      let offset := u32 v in
      let* a := unptr memory in
      let* s := gets s_memories in
      let* m := unptr (s !! a) in
      if zlen m <? offset + zlen (d_init d) then throw (instantiate_error "data segment is out of memory bounds")
      else let* offsets := data_offsets memory imported_globals globals datasec in ret (offset :: offsets)
  end.

Fixpoint element_offsets (table : option nat) (imported_globals : list ExternalGlobal) (globals : list Z) (elementsec : list Element)
  : I (list Z) :=
  match elementsec with
  | [] => ret []
  | e :: elementsec =>
      let* v := eval_constant_expression (el_offset e) imported_globals globals in
      let offset := u32 v in
      let* a := unptr table in
      let* s := gets s_tables in
      let* t := unptr (s !! a) in
      if zlen t <? offset + zlen (el_init e) then throw (instantiate_error "element segment is out of table bounds")
      else let* offsets := element_offsets table imported_globals globals elementsec in ret (offset :: offsets)
  end.

Fixpoint fill_memory (memory : option nat) (datasec : list Data) (offsets : list Z) : I unit :=
  match datasec, offsets with
  | d :: datasec, offset :: offsets =>
      let* a := unptr memory in
      let* s := gets s_memories in
      let* m := unptr (s !! a) in
      match splice (Z.to_nat offset) (d_init d) m with
      | Some m => modify (fun s => MkStore (s_instances s) (<[a := m]> (s_memories s)) (s_tables s) (s_values s))
      | None => fail out_of_bounds
      end ;;;
      fill_memory memory datasec offsets
  | _, _ => ret tt
  end.

(** Table elements from an offset on refer to functions of an instance. *)
Fixpoint fill_elements (self : nat) (offset : nat) (init : list Z) (t : list TableElement) : option (list TableElement) :=
  match init with
  | [] => Some t
  | idx :: init =>
      if (offset <? length t)%nat then fill_elements self (S offset) init (<[offset := MkTableElement (Some self) idx]> t) else None
  end.

Fixpoint fill_table (self : nat) (table : option nat) (elementsec : list Element) (offsets : list Z) : I unit :=
  match elementsec, offsets with
  | e :: elementsec, offset :: offsets =>
      let* a := unptr table in
      let* s := gets s_tables in
      let* t := unptr (s !! a) in
      match fill_elements self (Z.to_nat offset) (el_init e) t with
      | Some t => modify (fun s => MkStore (s_instances s) (s_memories s) (<[a := t]> (s_tables s)) (s_values s))
      | None => fail out_of_bounds
      end ;;;
      fill_table self table elementsec offsets
  | _, _ => ret tt
  end.

(** ** instantiate *)

(** Everything but the start function; the answer is the new instance. *)
Definition make_instance (module : Module_) (imported_functions : list (ExternalFunction hostfn)) (imported_tables : list ExternalTable)
    (imported_memories : list ExternalMemory) (imported_globals : list ExternalGlobal) (memory_pages_limit : Z) : I nat :=
  assert_that (length (funcsec module) =? length (codesec module))%nat ;;;
  match_imported_functions (imported_function_types module) imported_functions ;;;
  match_imported_tables (imported_table_types module) imported_tables ;;;
  match_imported_memories (imported_memory_types module) imported_memories ;;;
  match_imported_globals (imported_global_types module) imported_globals ;;;
  let* globals := init_globals imported_globals (globalsec module) [] in
  let* '(table, table_limits) := allocate_table (tablesec module) imported_tables in
  let* '(memory, memory_limits) := allocate_memory (memorysec module) imported_memories memory_pages_limit in
  assert_that (match lim_max memory_limits with Some max => max <=? memory_pages_limit | None => true end) ;;;
  let memory_pages_limit := default memory_pages_limit (lim_max memory_limits) in
  let* datasec_offsets := data_offsets memory imported_globals globals (datasec module) in
  assert_that (match elementsec module, table with _ :: _, None => false | _, _ => true end) ;;;
  let* elementsec_offsets := element_offsets table imported_globals globals (elementsec module) in
  fill_memory memory (datasec module) datasec_offsets ;;;
  let* s := gets id in
  let self := length (s_instances s) in
  let cells := seq (length (s_values s)) (length globals) in
  let instance := MkInstance module memory memory_limits memory_pages_limit table table_limits cells imported_functions imported_globals in
  modify (fun s => MkStore (s_instances s ++ [instance]) (s_memories s) (s_tables s) (s_values s ++ globals)) ;;;
  fill_table self table (elementsec module) elementsec_offsets ;;;
  ret self.

(** The start function runs without metering, in a context of its own. When it
    traps the instance is not returned; [shared_instance] keeps it alive for
    the tables that refer to it. *)
Definition instantiate (fuel : nat) (module : Module_) (imported_functions : list (ExternalFunction hostfn))
    (imported_tables : list ExternalTable) (imported_memories : list ExternalMemory) (imported_globals : list ExternalGlobal)
    (memory_pages_limit : Z) (w : World hostfn) : run hostfn (exn + nat) :=
  match make_instance module imported_functions imported_tables imported_memories imported_globals memory_pages_limit (w_store w) with
  | Fault f => Crash f
  | Throw e s => Done (inl e) (MkWorld s (w_ctx w))
  | Ret self s =>
      let w := MkWorld s (w_ctx w) in
      match startfunc module with
      | None => Done (inr self) w
      | Some funcidx =>
          if funcidx <? zlen imported_functions + zlen (funcsec module)
          then run_bind (execute_plain fuel self funcidx None w) (fun r w =>
                 match r with
                 | Trap => Done (inl (instantiate_error "start function failed to execute")) w
                 | _ => Done (inr self) w
                 end)
          else Crash assertion_failed
      end
  end.

(** ** Imports by name *)

Record ImportedFunction := MkImportedFunction {
  if_module : bytes;
  if_name : bytes;
  if_inputs : list ValType;
  if_output : option ValType;
  if_function : ExecuteFunction hostfn
}.

Record ImportedGlobal := MkImportedGlobal {
  ig_module : bytes;
  ig_name : bytes;
  ig_value : option nat;
  ig_type : ValType;
  ig_is_mutable : bool
}.

(** [module + "." + name] of a message; names are UTF-8. *)
Fixpoint text (b : bytes) : string :=
  match b with [] => EmptyString | c :: b => String.String (Ascii.ascii_of_N (Z.to_N c)) (text b) end.
Definition qualified (module name : bytes) : string := text module +:+ "." +:+ text name.

Definition find_imported_function (module name : bytes) (module_func_type : FuncType) (imported_functions : list ImportedFunction)
  : I (ExternalFunction hostfn) :=
  match find (fun f => bytes_eqb module (if_module f) && bytes_eqb name (if_name f)) imported_functions with
  | None => throw (instantiate_error ("imported function " +:+ qualified module name +:+ " is required"))
  | Some it =>
      if negb (equal_types (inputs module_func_type) (if_inputs it))
      then throw (instantiate_error ("function " +:+ qualified module name +:+ " input types don't match imported function in module"))
      else match outputs module_func_type, if_output it with
           | [], Some _ => throw (instantiate_error ("function " +:+ qualified module name +:+ " has output but is defined void in module"))
           | [], None => ret (MkExternalFunction (if_function it) (inputs module_func_type) (outputs module_func_type))
           | o :: _, output =>
               if bool_decide (output = Some o)
               then ret (MkExternalFunction (if_function it) (inputs module_func_type) (outputs module_func_type))
               else throw (instantiate_error ("function " +:+ qualified module name +:+ " output type doesn't match imported function in module"))
           end
  end.

Definition find_imported_global (module name : bytes) (module_global_type : GlobalType) (imported_globals : list ImportedGlobal)
  : I ExternalGlobal :=
  match find (fun g => bytes_eqb module (ig_module g) && bytes_eqb name (ig_name g)) imported_globals with
  | None => throw (instantiate_error ("imported global " +:+ qualified module name +:+ " is required"))
  | Some it =>
      if negb (bool_decide (value_type module_global_type = ig_type it))
      then throw (instantiate_error ("global " +:+ qualified module name +:+ " value type doesn't match imported global in module"))
      else if negb (eqb (is_mutable module_global_type) (ig_is_mutable it))
      then throw (instantiate_error ("global " +:+ qualified module name +:+ " mutability doesn't match imported global in module"))
      else ret (MkExternalGlobal (ig_value it) module_global_type)
  end.

Fixpoint resolve_functions (module : Module_) (importsec : list Import_) (imported_functions : list ImportedFunction)
  : I (list (ExternalFunction hostfn)) :=
  match importsec with
  | [] => ret []
  | import :: importsec =>
      match imp_desc import with
      | ImportFunction function_type_index =>
          assert_that (function_type_index <? zlen (typesec module)) ;;;
          let* module_func_type := elem (typesec module) function_type_index in
          let* f := find_imported_function (imp_module import) (imp_name import) module_func_type imported_functions in
          let* fs := resolve_functions module importsec imported_functions in
          ret (f :: fs)
      | _ => resolve_functions module importsec imported_functions
      end
  end.
Definition resolve_imported_functions (module : Module_) (imported_functions : list ImportedFunction) : I (list (ExternalFunction hostfn)) :=
  resolve_functions module (importsec module) imported_functions.

Fixpoint resolve_globals (importsec : list Import_) (imported_globals : list ImportedGlobal) : I (list ExternalGlobal) :=
  match importsec with
  | [] => ret []
  | import :: importsec =>
      match imp_desc import with
      | ImportGlobal global =>
          let* g := find_imported_global (imp_module import) (imp_name import) global imported_globals in
          let* gs := resolve_globals importsec imported_globals in
          ret (g :: gs)
      | _ => resolve_globals importsec imported_globals
      end
  end.
Definition resolve_imported_globals (module : Module_) (imported_globals : list ImportedGlobal) : I (list ExternalGlobal) :=
  resolve_globals (importsec module) imported_globals.

(** ** Exports *)

#[local] Instance ExternalKind_eq_dec : EqDecision ExternalKind.
Proof. solve_decision. Defined.

Definition find_export (module : Module_) (kind : ExternalKind) (name : bytes) : option Z :=
  exp_index <$> find (fun e => bool_decide (exp_kind e = kind) && bytes_eqb (exp_name e) name) (exportsec module).

Definition find_exported_function_index (module : Module_) (name : bytes) : option Z := find_export module EFunction name.

Section exported.
Context (self : nat) (instance : Instance_ hostfn).

Definition find_exported_function (name : bytes) : I (option (ExternalFunction hostfn)) :=
  match find_export (i_module instance) EFunction name with
  | None => ret None
  | Some idx =>
      let* type := get_function_type (i_module instance) idx in
      ret (Some (MkExternalFunction (WasmFunction self idx) (inputs type) (outputs type)))
  end.

Definition find_exported_global (name : bytes) : I (option ExternalGlobal) :=
  match find_export (i_module instance) EGlobal name with
  | None => ret None
  | Some global_idx =>
      if global_idx <? zlen (i_imported_globals instance)
      then let* g := elem (i_imported_globals instance) global_idx in ret (Some (MkExternalGlobal (xg_value g) (xg_type g)))
      else
        let module_global_idx := global_idx - zlen (i_imported_globals instance) in
        let* a := elem (i_globals instance) module_global_idx in
        let* g := elem (globalsec (i_module instance)) module_global_idx in
        ret (Some (MkExternalGlobal (Some a) (g_type g)))
  end.

Definition find_exported_table (name : bytes) : option ExternalTable :=
  match find_export (i_module instance) ETable name with
  | None => None
  | Some _ => Some (MkExternalTable (i_table instance) (i_table_limits instance))
  end.

(** The lower limit is the size the memory has grown to. *)
Definition find_exported_memory (name : bytes) : I (option ExternalMemory) :=
  match find_export (i_module instance) EMemory name with
  | None => ret None
  | Some _ =>
      let* a := unptr (i_memory instance) in
      let* s := gets s_memories in
      let* m := unptr (s !! a) in
      ret (Some (MkExternalMemory (i_memory instance) (MkLimits (u32 (zlen m / PageSize)) (lim_max (i_memory_limits instance)))))
  end.
End exported.
End instantiate.
Arguments ImportedFunction : clear implicits.
