(* ===== verification/FizzyInstantiateSafety.v ===== *)
(** * Instantiation of validated modules

    Whatever a validated module asks for, making an instance of it either
    refuses with an exception and leaves the other instances as they were, or
    adds an instance that satisfies the invariant of the store. *)

From stdpp Require Import base list option numbers strings.
From S2P Require Import Prelude Memory FizzyLeb128 FizzyTypes FizzyExpr FizzyExprSafety FizzyCode FizzyExprCode FizzyParser FizzyParserSafety FizzyCertify FizzyNumeric FizzyExecute FizzyStore FizzyExecuteSafety FizzyInstantiate.

(** ** Stores that grow *)

Section grow.
Context {hostfn : Type} (host_type : hostfn -> option FuncType).

Lemma instance_ok_grow s s' inst :
  instance_ok host_type s inst ->
  (forall a m, s_memories s !! a = Some m -> exists m', s_memories s' !! a = Some m' /\ zlen m' = zlen m) ->
  (forall a, is_Some (s_tables s !! a) -> is_Some (s_tables s' !! a)) ->
  (forall a, is_Some (s_values s !! a) -> is_Some (s_values s' !! a)) ->
  instance_ok host_type s' inst.
Proof.
  intros [] Hm Ht Hv. constructor; try done.
  - intros i g t Hg Hty. destruct (io_cells _ _ _ Hg Hty) as (He & a & Ha & Hs). split; [done|]. exists a. auto.
  - intros a Ha. auto.
  - intros Hmem. destruct (io_memory Hmem) as (a & m & Ha & Hs). destruct (Hm a m Hs) as (m' & Hs' & _). by exists a, m'.
  - intros a Ha. destruct (io_there a Ha) as [m Hs]. destruct (Hm a m Hs) as (m' & Hs' & _). by exists m'.
  - intros a m' Ha Hs'. destruct (io_there a Ha) as [m Hs]. destruct (Hm a m Hs) as (m2 & Hs2 & Hlen). assert (m2 = m') as -> by congruence.
    rewrite Hlen. by apply (io_size a).
  - intros Htab. destruct (io_table Htab) as (a & t & Ha & Hs). destruct (Ht a ltac:(by eexists)) as [t' Hs']. by exists a, t'.
Qed.

Lemma is_Some_app {A} (l l' : list A) a : is_Some (l !! a) -> is_Some ((l ++ l') !! a).
Proof. intros [x Hx]. exists x. by apply lookup_app_l_Some. Qed.

Lemma is_Some_insert {A} (l : list A) a x b : is_Some (l !! b) -> is_Some (<[a := x]> l !! b).
Proof. intros Hb. apply lookup_lt_is_Some. rewrite length_insert. by apply lookup_lt_is_Some. Qed.

(** The same instances over memories of the same sizes, possibly more of them,
    and tables whose elements are valid. *)
Lemma store_ok_grow s s' :
  store_ok host_type s -> s_instances s' = s_instances s ->
  (forall a m, s_memories s !! a = Some m -> exists m', s_memories s' !! a = Some m' /\ zlen m' = zlen m) ->
  (forall a, is_Some (s_tables s !! a) -> is_Some (s_tables s' !! a)) ->
  (forall a, is_Some (s_values s !! a) -> is_Some (s_values s' !! a)) ->
  (forall a m, s_memories s' !! a = Some m -> bytes_ok m) ->
  (forall t e, t ∈ s_tables s' -> e ∈ t -> element_valid s' e) -> store_ok host_type s'.
Proof.
  intros [H1 H2 Hb H3] Hi Hm Ht Hv Hok He. constructor; rewrite ?Hi; [|done|done|done]. intros j inst Hj. eapply instance_ok_grow; eauto.
Qed.

Lemma element_valid_grow (s s' : Store hostfn) e : s_instances s `prefix_of` s_instances s' -> element_valid s e -> element_valid s' e.
Proof. intros Hp He j Hj. destruct (He j Hj) as (inst & Hi & Ht). exists inst. split; [by eapply prefix_lookup_Some|done]. Qed.
End grow.

(** ** Computations that return or refuse *)

Section tries.
Context {hostfn : Type} (host_type : hostfn -> option FuncType) (s0 : Store hostfn).

Definition refusal (e : exn) : Prop := e = bad_alloc \/ exists what, e = instantiate_error what.

(** The instances are those of before. *)
Definition unchanged (s : Store hostfn) : Prop :=
  store_ok host_type s /\ s_instances s = s_instances s0.

Definition tries {A} (p : M (Store hostfn) A) (Q : A -> Store hostfn -> Prop) (s : Store hostfn) : Prop :=
  match p s with Ret a s' => Q a s' | Throw e s' => refusal e /\ unchanged s' | Fault _ => False end.

Lemma tries_seq {A B} (p : M (Store hostfn) A) (k : A -> M (Store hostfn) B) P Q s :
  tries p P s -> (forall a s', P a s' -> tries (k a) Q s') -> tries (bind p k) Q s.
Proof. unfold tries, bind. intros Hp Hk. destruct (p s); [by apply Hk|done|done]. Qed.

Lemma tries_mono {A} (p : M (Store hostfn) A) (P Q : A -> Store hostfn -> Prop) s : tries p P s -> (forall a s', P a s' -> Q a s') -> tries p Q s.
Proof. unfold tries. intros Hp HPQ. destruct (p s); [by apply HPQ|done|done]. Qed.

Lemma tries_throw {A} what (Q : A -> Store hostfn -> Prop) s : unchanged s -> tries (throw (instantiate_error what)) Q s.
Proof. intros Hs. split; [right; by eexists|done]. Qed.

Lemma tries_does {A} (p : M (Store hostfn) A) Q s : does p Q s -> tries p Q s.
Proof. unfold does, tries. by destruct (p s). Qed.

Lemma tries_does_seq {A B} (p : M (Store hostfn) A) (k : A -> M (Store hostfn) B) P Q s :
  does p P s -> (forall a s', P a s' -> tries (k a) Q s') -> tries (bind p k) Q s.
Proof. intros Hp. by apply tries_seq, tries_does. Qed.

Lemma tries_gets {A B} (f : Store hostfn -> A) (k : A -> M (Store hostfn) B) Q s : tries (k (f s)) Q s -> tries (bind (gets f) k) Q s.
Proof. done. Qed.

Lemma tries_modify {B} (f : Store hostfn -> Store hostfn) (k : unit -> M (Store hostfn) B) Q s : tries (k tt) Q (f s) -> tries (bind (modify f) k) Q s.
Proof. done. Qed.

Lemma tries_assert {B} b (k : unit -> M (Store hostfn) B) Q s : b = true -> tries (k tt) Q s -> tries (bind (assert_that b) k) Q s.
Proof. by intros ->. Qed.

Lemma tries_unptr {A B} (o : option A) a (k : A -> M (Store hostfn) B) Q s : o = Some a -> tries (k a) Q s -> tries (bind (unptr o) k) Q s.
Proof. by intros ->. Qed.
End tries.

(** ** The phases of [make_instance] *)

Section instantiation.
Context {hostfn : Type} (host_type : hostfn -> option FuncType) `{Allocator} `{NanPattern} (s0 : Store hostfn).
Abbreviation store_ok := (store_ok host_type).
Abbreviation unchanged := (unchanged host_type s0).
Abbreviation tries := (tries host_type s0).

(** What is given to [instantiate]: host functions with their types, and what
    the pointers that are not null point to. A memory keeps one hard limit. *)
Record imports_ok (fs : list (ExternalFunction hostfn)) (ts : list ExternalTable) (ms : list ExternalMemory)
    (gs : list ExternalGlobal) (limit : Z) : Prop := {
  im_functions : forall f, f ∈ fs -> exists h, ef_function f = HostFunction h /\ host_type h = Some (MkFuncType (ef_input_types f) (ef_output_types f));
  im_tables : forall x a, x ∈ ts -> xt_table x = Some a -> is_Some (s_tables s0 !! a);
  im_memories : forall x a, x ∈ ms -> xm_data x = Some a -> is_Some (s_memories s0 !! a) /\ 0 <= lim_min (xm_limits x) /\
    forall j inst, s_instances s0 !! j = Some inst -> i_memory inst = Some a -> i_memory_pages_limit inst = default limit (lim_max (xm_limits x));
  im_globals : forall g a, g ∈ gs -> xg_value g = Some a -> is_Some (s_values s0 !! a);
  im_limit : 0 <= limit
}.

Context (m : Module_) (fs : list (ExternalFunction hostfn)) (ts : list ExternalTable) (ms : list ExternalMemory) (gs : list ExternalGlobal).
Context (limit : Z) (Hwf : module_wf m) (Himports : imports_ok fs ts ms gs limit) (Hs0 : store_ok s0).

Lemma unchanged_s0 : unchanged s0.
Proof using Hs0. done. Qed.
#[local] Hint Resolve unchanged_s0 tries_throw : core.

(** *** Matching *)

Lemma equal_types_spec a b : negb (equal_types a b) = false -> a = b.
Proof. unfold equal_types. rewrite negb_false_iff, bool_decide_eq_true. done. Qed.

Lemma match_function_types_ok i types (fns : list (ExternalFunction hostfn)) :
  tries (match_function_types i types fns) (fun _ s => s = s0 /\
    forall k f t, fns !! k = Some f -> types !! k = Some t -> t = MkFuncType (ef_input_types f) (ef_output_types f)) s0.
Proof.
  revert i fns. induction types as [|t types IH]; intros i [|f fns]; cbn [match_function_types]; try (split; [done|by intros []]).
  destruct (negb _ || negb _) eqn:E; [auto|]. apply orb_false_iff in E as [E1%equal_types_spec E2%equal_types_spec].
  specialize (IH (i + 1) fns). unfold FizzyInstantiateSafety.tries in *. destruct (match_function_types _ _ _ _); [|done|done]. destruct IH as [-> IH].
  split; [done|]. intros [|k] f' t'; cbn; [|by apply IH]. intros [= <-] [= <-]. destruct t. cbn in *. congruence.
Qed.

Lemma match_imported_functions_ok :
  tries (match_imported_functions (imported_function_types m) fs) (fun _ s => s = s0 /\ length fs = length (imported_function_types m) /\
    forall k f t, fs !! k = Some f -> imported_function_types m !! k = Some t -> exists h, ef_function f = HostFunction h /\ host_type h = Some t) s0.
Proof.
  unfold match_imported_functions. destruct (negb _) eqn:E; [auto|]. apply negb_false_iff, Nat.eqb_eq in E.
  pose proof (match_function_types_ok 0 (imported_function_types m) fs) as Hm. unfold FizzyInstantiateSafety.tries in *.
  destruct (match_function_types _ _ _ _); [|done|done]. destruct Hm as [-> Hm]. split; [done|]. split; [done|]. intros k f t Hf Ht.
  rewrite (Hm k f t Hf Ht). eapply (im_functions _ _ _ _ _ Himports). by eapply list_elem_of_lookup_2.
Qed.

Lemma match_limits_ok external module (Q : unit -> Store hostfn -> Prop) :
  ((forall max, lim_max external = Some max -> lim_min external <= max) -> Q tt s0) -> tries (match_limits external module) Q s0.
Proof.
  intros HQ. unfold match_limits. destruct (match lim_max external with Some max => _ | None => _ end) eqn:E; [auto|].
  assert (Q tt s0) as Hq by (apply HQ; intros max Hmax; rewrite Hmax in E; bool_to_prop; lia). repeat case_match; try (by apply tries_throw); exact Hq.
Qed.

(** The table a module uses is declared by it or given to it. *)
Lemma match_imported_tables_ok :
  tries (match_imported_tables (imported_table_types m) ts) (fun _ s => s = s0 /\
    (imported_table_types m = [] /\ ts = [] \/ tablesec m = [] /\ exists x a, ts = [x] /\ xt_table x = Some a)) s0.
Proof.
  destruct (wf_tables _ Hwf) as [Hone _]. unfold match_imported_tables. apply tries_assert; [apply Nat.leb_le; lia|].
  destruct (negb (at_most_one ts)) eqn:E; [auto|]. apply negb_false_iff, Nat.leb_le in E.
  destruct (imported_table_types m) as [|t [|? ?]], ts as [|x [|? ?]]; cbn in Hone, E; try lia; auto; [apply tries_does; split; [done|by left]|].
  eapply tries_seq; [apply (match_limits_ok _ _ (fun _ s => s = s0)); done|]. cbv beta. intros _ s' ->. destruct (xt_table x) as [a|] eqn:Ea; [|auto].
  apply tries_gets. destruct (im_tables _ _ _ _ _ Himports x a) as [tab Htab]; [left|done|]. eapply tries_unptr; [exact Htab|].
  destruct (_ || _); [auto|]. apply tries_does. split; [done|]. right. split; [by destruct (tablesec m); cbn in Hone; [|lia]|]. by exists x, a.
Qed.

Lemma match_imported_memories_ok :
  tries (match_imported_memories (imported_memory_types m) ms) (fun _ s => s = s0 /\
    (imported_memory_types m = [] /\ ms = [] \/ memorysec m = [] /\ exists x a mem, ms = [x] /\ xm_data x = Some a /\ s_memories s0 !! a = Some mem /\
       zlen mem = memory_pages_to_bytes (lim_min (xm_limits x)) /\ forall max, lim_max (xm_limits x) = Some max -> lim_min (xm_limits x) <= max)) s0.
Proof.
  destruct (wf_memories _ Hwf) as [Hone _]. unfold match_imported_memories. apply tries_assert; [apply Nat.leb_le; lia|].
  destruct (negb (at_most_one ms)) eqn:E; [auto|]. apply negb_false_iff, Nat.leb_le in E.
  destruct (imported_memory_types m) as [|t [|? ?]], ms as [|x [|? ?]]; cbn in Hone, E; try lia; auto; [apply tries_does; split; [done|by left]|].
  eapply tries_seq; [apply (match_limits_ok _ _ (fun _ s => s = s0 /\ forall max, lim_max (xm_limits x) = Some max -> lim_min (xm_limits x) <= max)); done|]. cbv beta. intros _ s' [-> Hmax].
  destruct (xm_data x) as [a|] eqn:Ea; [|auto]. apply tries_gets. destruct (im_memories _ _ _ _ _ Himports x a) as [[mem Hmem] _]; [left|done|].
  eapply tries_unptr; [exact Hmem|]. cbv zeta. destruct (negb (_ =? 0)); [auto|]. destruct (negb _ || _) eqn:E2; [auto|].
  apply orb_false_iff in E2 as [E2%negb_false_iff%Z.eqb_eq _]. apply tries_does. split; [done|]. right.
  split; [by destruct (memorysec m); cbn in Hone; [|lia]|]. by exists x, a, mem.
Qed.

Lemma match_global_types_ok i types globals :
  tries (match_global_types i types globals) (fun _ s => s = s0 /\
    forall k g t, globals !! k = Some g -> types !! k = Some t -> xg_type g = t /\ is_Some (xg_value g)) s0.
Proof.
  revert i globals. induction types as [|t types IH]; intros i [|g globals]; cbn [match_global_types]; try (split; [done|by intros []]).
  destruct (negb (bool_decide _)) eqn:E; [auto|]. destruct (negb (eqb _ _)) eqn:E2; [auto|]. destruct (xg_value g) as [b|] eqn:E3; [|auto].
  apply negb_false_iff, bool_decide_eq_true in E. apply negb_false_iff, eqb_prop in E2.
  specialize (IH (i + 1) globals). unfold FizzyInstantiateSafety.tries in *. destruct (match_global_types _ _ _ _); [|done|done]. destruct IH as [-> IH].
  split; [done|]. intros [|k] g' t'; cbn; [|by apply IH]. intros [= <-] [= <-]. split; [|by rewrite E3; eexists].
  destruct t, (xg_type g). cbn in *. congruence.
Qed.

Lemma match_imported_globals_ok :
  tries (match_imported_globals (imported_global_types m) gs) (fun _ s => s = s0 /\ length gs = length (imported_global_types m) /\
    forall k g t, gs !! k = Some g -> imported_global_types m !! k = Some t -> xg_type g = t /\ exists a, xg_value g = Some a /\ is_Some (s_values s0 !! a)) s0.
Proof.
  unfold match_imported_globals. destruct (negb _) eqn:E; [auto|]. apply negb_false_iff, Nat.eqb_eq in E.
  pose proof (match_global_types_ok 0 (imported_global_types m) gs) as Hm. unfold FizzyInstantiateSafety.tries in *.
  destruct (match_global_types _ _ _ _); [|done|done]. destruct Hm as [-> Hm]. split; [done|]. split; [done|]. intros k g t Hg Ht.
  destruct (Hm k g t Hg Ht) as [He [b Ha]]. split; [done|]. exists b. split; [done|]. eapply (im_globals _ _ _ _ _ Himports); [|exact Ha].
  by eapply list_elem_of_lookup_2.
Qed.
(** *** Globals *)

Context (Hlen : length gs = length (imported_global_types m)).
Context (Hcells : forall k g t, gs !! k = Some g -> imported_global_types m !! k = Some t ->
  xg_type g = t /\ exists a, xg_value g = Some a /\ is_Some (s_values s0 !! a)).

Lemma eval_constant_ok e globals s (Q : Z -> Store hostfn -> Prop) :
  (forall i, e = GlobalGet i -> 0 <= i < zlen gs + zlen globals) -> s_values s = s_values s0 -> (forall v, Q v s) ->
  does (eval_constant_expression e gs globals) Q s.
Proof.
  intros He Hv HQ. destruct e as [v|i]; cbn [eval_constant_expression]; [apply HQ|]. specialize (He i eq_refl).
  apply does_assert; [apply Z.ltb_lt; lia|]. destruct (i <? zlen gs) eqn:E; bool_to_prop.
  - destruct (at_idx_lt gs i ltac:(lia)) as (g & Hg & _). eapply does_elem; [exact Hg|]. apply at_idx_nat in Hg as (k & -> & Hk).
    destruct (lookup_lt_is_Some_2 (imported_global_types m) k) as [t Ht]; [rewrite <- Hlen; by eapply lookup_lt_Some|].
    destruct (Hcells k g t Hk Ht) as (_ & a & Ha & v & Hval). eapply does_unptr; [exact Ha|]. apply does_gets. rewrite Hv, Hval. apply HQ.
  - destruct (at_idx_lt globals (i - zlen gs) ltac:(lia)) as (v & Hval & _). unfold does, elem. rewrite Hval. apply HQ.
Qed.

Lemma init_globals_ok section globals (s : Store hostfn) :
  Forall (fun g => match g_expression g with GlobalGet i => 0 <= i < zlen (imported_global_types m) | Constant _ => True end) section ->
  s_values s = s_values s0 ->
  does (init_globals gs section globals) (fun l s' => s' = s /\ length l = (length globals + length section)%nat) s.
Proof.
  intros Hok Hv. assert (zlen gs = zlen (imported_global_types m)) as Hz by (unfold zlen; by rewrite Hlen).
  revert globals. induction Hok as [|g section Hg Hok IH]; intros globals; cbn [init_globals]; [split; [done|cbn; lia]|].
  apply does_assert; [destruct (g_expression g); [done|apply Z.ltb_lt; lia]|].
  eapply does_seq; [eapply (eval_constant_ok _ _ s (fun _ s' => s' = s)); [|done|done]|].
  - intros i Hi. rewrite Hi in Hg. pose proof (zlen_nonneg globals). lia.
  - cbv beta. intros v s' ->. eapply does_mono; [apply IH|]. cbv beta. intros l s' [-> Hl]. split; [done|]. rewrite Hl, length_app. cbn. lia.
Qed.

(** *** The table *)

Lemma unchanged_tables l :
  Forall (fun t => forall e, e ∈ t -> te_instance e = None) l -> unchanged (MkStore (s_instances s0) (s_memories s0) (s_tables s0 ++ l) (s_values s0)).
Proof.
  intros Hl. split; [|done]. apply (store_ok_grow host_type s0); cbn; try done; eauto using is_Some_app; [exact (st_bytes _ _ Hs0)|].
  intros t e [Ht|Ht]%elem_of_app He.
  - by eapply (st_elements _ _ Hs0).
  - intros j Hj. rewrite Forall_forall in Hl. by rewrite (Hl t Ht e He) in Hj.
Qed.

(** What the table phase leaves. *)
Definition after_table (table : option nat) (s : Store hostfn) : Prop :=
  unchanged s /\ s_memories s = s_memories s0 /\ s_values s = s_values s0 /\
  (has_table m = true -> exists a, table = Some a /\ is_Some (s_tables s !! a)).

Lemma allocate_table_ok :
  imported_table_types m = [] /\ ts = [] \/ tablesec m = [] /\ (exists x a, ts = [x] /\ xt_table x = Some a) ->
  tries (allocate_table (tablesec m) ts) (fun r s => after_table r.1 s) s0.
Proof.
  intros Hts. destruct (wf_tables _ Hwf) as [Hone _]. unfold allocate_table.
  apply tries_assert; [apply Nat.leb_le; destruct Hts as [[_ ->]|(-> & x & a & -> & _)]; cbn; lia|].
  destruct Hts as [[Hi ->]|(Hd & x & a & -> & Ha)].
  - destruct (tablesec m) as [|t [|? ?]] eqn:Et; cbn in Hone; [| |lia].
    + apply tries_does. repeat (split; [done|]). unfold has_table. by rewrite Et, Hi.
    + cbv zeta. unfold allocate. destruct (can_allocate _); [|split; [by left|done]]. cbn. split; [|repeat split].
      * apply unchanged_tables. constructor; [|done]. intros e [-> _]%elem_of_replicate. done.
      * intros _. eexists. split; [done|]. cbn [s_tables]. rewrite lookup_app_r, Nat.sub_diag by lia. by eexists.
  - rewrite Hd. apply tries_does. repeat (split; [done|]). intros _. exists a. split; [done|].
    eapply (im_tables _ _ _ _ _ Himports); [left|done].
Qed.

(** *** The memory *)

(** What an instance may use as its memory. *)
Definition memory_fits (s : Store hostfn) (b : nat) (pages_limit : Z) : Prop :=
  exists mem, s_memories s !! b = Some mem /\ (exists pages, zlen mem = pages * PageSize /\ pages <= pages_limit) /\
    forall j inst, s_instances s !! j = Some inst -> i_memory inst = Some b -> i_memory_pages_limit inst = pages_limit.

Definition after_memory (table memory : option nat) (limits : Limits) (s : Store hostfn) : Prop :=
  unchanged s /\ s_values s = s_values s0 /\ (has_table m = true -> exists a, table = Some a /\ is_Some (s_tables s !! a)) /\
  limit <= MaxMemoryPagesLimit /\ (forall max, lim_max limits = Some max -> max <= limit) /\
  (has_memory m = true -> is_Some memory) /\ (forall b, memory = Some b -> memory_fits s b (default limit (lim_max limits))).

Lemma above_limit_false l : above_limit l limit = false -> lim_min l <= limit /\ forall max, lim_max l = Some max -> max <= limit.
Proof.
  unfold above_limit. intros [E1 E2]%orb_false_iff. bool_to_prop. split; [lia|]. intros max Hmax. rewrite Hmax in E2. bool_to_prop. lia.
Qed.

Lemma pages_to_bytes p : 0 <= p <= MaxMemoryPagesLimit -> memory_pages_to_bytes p = p * PageSize.
Proof. intros Hp. change MaxMemoryPagesLimit with 65536 in Hp. unfold memory_pages_to_bytes, PageSize. apply Z.mod_small. lia. Qed.

Lemma unchanged_memories table s mem :
  after_table table s -> bytes_ok mem -> unchanged (MkStore (s_instances s) (s_memories s ++ [mem]) (s_tables s) (s_values s)).
Proof.
  intros ([Hs Hi] & _) Hok. split; [|done]. apply (store_ok_grow host_type s); cbn; try done.
  - intros a x Hx. exists x. split; [by apply lookup_app_l_Some|done].
  - intros a x [Hx|[_ Hx]]%lookup_app_Some; [by eapply (st_bytes _ _ Hs)|]. destruct (a - _)%nat; cbn in Hx; [by simplify_eq|done].
  - intros t e Ht He. eapply element_valid_grow; [|by eapply (st_elements _ _ Hs)]. done.
Qed.
Lemma allocate_memory_ok table s :
  after_table table s ->
  imported_memory_types m = [] /\ ms = [] \/ memorysec m = [] /\ (exists x a mem, ms = [x] /\ xm_data x = Some a /\ s_memories s0 !! a = Some mem /\
    zlen mem = memory_pages_to_bytes (lim_min (xm_limits x)) /\ forall max, lim_max (xm_limits x) = Some max -> lim_min (xm_limits x) <= max) ->
  tries (allocate_memory (memorysec m) ms limit) (fun r s' => after_memory table r.1 r.2 s') s.
Proof.
  intros Ht Hms. destruct (wf_memories _ Hwf) as [Hone Hok]. pose proof Ht as (Hun & Hsm & Hsv & Htab). unfold allocate_memory.
  destruct (MaxMemoryPagesLimit <? limit) eqn:El; [by apply tries_throw|]. bool_to_prop.
  apply tries_assert; [apply Nat.leb_le; destruct Hms as [[_ ->]|(-> & x & a & mem & -> & _)]; cbn; lia|].
  destruct Hms as [[Hi ->]|(Hd & x & a & mem & -> & Ha & Hmem & Hsize & Hmax)].
  - destruct (memorysec m) as [|y [|? ?]] eqn:Ey; cbn in Hone; [| |lia].
    + apply tries_does. split; [done|]. repeat (split; [done|]). split; [|done]. unfold has_memory. by rewrite Ey, Hi.
    + destruct (above_limit _ _) eqn:Ea; [by apply tries_throw|]. apply above_limit_false in Ea as [Hmin Hmax].
      cbv zeta. unfold allocate. destruct (can_allocate _); [|split; [by left|done]].
      apply tries_modify. apply tries_does. cbn. split; [eapply unchanged_memories; [done|by apply Forall_replicate]|]. repeat (split; [done|]). intros b [= <-].
      eexists. cbn [s_memories s_instances]. rewrite lookup_app_r, Nat.sub_diag by lia. split; [done|]. rewrite Hi, app_nil_r in Hok.
      apply Forall_cons_1 in Hok as [[[Hl1 Hl2] _] _]. split.
      * exists (lim_min (mem_limits y)). unfold zlen. rewrite length_replicate, pages_to_bytes by (pose proof (im_limit _ _ _ _ _ Himports); lia).
        split; [unfold PageSize; lia|]. destruct (lim_max (mem_limits y)); cbn; lia.
      * intros j inst Hj Hm. destruct Hun as [Hst _]. apply (st_instances _ _ Hst) in Hj. apply (io_there _ _ _ Hj) in Hm.
        apply lookup_lt_is_Some in Hm. lia.
  - rewrite Hd. destruct (above_limit _ _) eqn:Ea; [by apply tries_throw|]. apply above_limit_false in Ea as [Hmin Hmax'].
    destruct (im_memories _ _ _ _ _ Himports x a) as (_ & Hpos & Hlims); [left|done|]. destruct Hun as [Hst Hinst].
    apply tries_does. split; [done|]. split; [done|]. split; [done|]. split; [done|]. split; [done|]. split; [by rewrite Ha; eexists|].
    intros b Hb. assert (b = a) as -> by (cbn in Hb; congruence). exists mem. rewrite Hsm, Hinst. split; [done|]. split; [|done].
    exists (lim_min (xm_limits x)). rewrite Hsize, pages_to_bytes by lia. split; [done|]. cbn. destruct (lim_max (xm_limits x)) eqn:E; cbn; [|done].
    by apply Hmax.
Qed.
(** *** Segments *)

(** Offsets at which entries of the given lengths fit. *)
Definition fit (size : Z) (lengths offsets : list Z) : Prop := Forall2 (fun n o => 0 <= o /\ o + n <= size) lengths offsets.

Lemma constant_bound t e globals : constant_of m t e -> length globals = length (globalsec m) -> forall i, e = GlobalGet i -> 0 <= i < zlen gs + zlen (A := Z) globals.
Proof.
  intros He Hg i ->. destruct He as (g & Hi & _). unfold global_type_at in Hi. assert (zlen gs = zlen (imported_global_types m)) as Hz by (unfold zlen; by rewrite Hlen).
  pose proof (zlen_nonneg globals). destruct (i <? _) eqn:E; bool_to_prop.
  - apply at_idx_nat in Hi as (k & -> & Hk%lookup_lt_Some). unfold zlen in *. lia.
  - apply fmap_Some in Hi as (x & Hx & _). apply at_idx_nat in Hx as (k & Hk & Hk'%lookup_lt_Some). unfold zlen in *. lia.
Qed.

Lemma u32_nonneg v : 0 <= u32 v.
Proof. unfold u32, wrap. apply Z.mod_pos_bound. lia. Qed.

Lemma data_offsets_ok memory a mem globals section s :
  unchanged s -> s_values s = s_values s0 -> length globals = length (globalsec m) -> Forall (fun d => constant_of m Ti32 (d_offset d)) section ->
  memory = Some a -> s_memories s !! a = Some mem ->
  tries (data_offsets memory gs globals section) (fun l s' => s' = s /\ fit (zlen mem) (map (fun d => zlen (d_init d)) section) l) s.
Proof.
  intros Hun Hv Hg Hok -> Hm. induction Hok as [|d section Hd Hok IH]; cbn [data_offsets]; [split; [done|constructor]|].
  eapply tries_does_seq; [eapply (eval_constant_ok _ _ s (fun _ s' => s' = s)); [by eapply constant_bound|done|done]|].
  cbv beta zeta. intros v s' ->. eapply tries_unptr; [done|]. apply tries_gets. eapply tries_unptr; [exact Hm|].
  destruct (_ <? _) eqn:E; [by apply tries_throw|]. bool_to_prop. eapply tries_seq; [exact IH|]. cbv beta. intros l s' [-> Hl].
  apply tries_does. split; [done|]. constructor; [|done]. pose proof (u32_nonneg v). lia.
Qed.

Lemma element_offsets_ok table a tab globals section s :
  unchanged s -> s_values s = s_values s0 -> length globals = length (globalsec m) -> Forall (fun e => constant_of m Ti32 (el_offset e)) section ->
  table = Some a -> s_tables s !! a = Some tab ->
  tries (element_offsets table gs globals section) (fun l s' => s' = s /\ fit (zlen tab) (map (fun e => zlen (el_init e)) section) l) s.
Proof.
  intros Hun Hv Hg Hok -> Hm. induction Hok as [|d section Hd Hok IH]; cbn [element_offsets]; [split; [done|constructor]|].
  eapply tries_does_seq; [eapply (eval_constant_ok _ _ s (fun _ s' => s' = s)); [by eapply constant_bound|done|done]|].
  cbv beta zeta. intros v s' ->. eapply tries_unptr; [done|]. apply tries_gets. eapply tries_unptr; [exact Hm|].
  destruct (_ <? _) eqn:E; [by apply tries_throw|]. bool_to_prop. eapply tries_seq; [exact IH|]. cbv beta. intros l s' [-> Hl].
  apply tries_does. split; [done|]. constructor; [|done]. pose proof (u32_nonneg v). lia.
Qed.
End instantiation.

(** *** Filling in *)

Section fill.
Context {hostfn : Type}.

Lemma fill_memory_ok memory a mem section offsets (s : Store hostfn) :
  memory = Some a -> s_memories s !! a = Some mem -> fit (zlen mem) (map (fun d => zlen (d_init d)) section) offsets ->
  bytes_ok mem -> Forall (fun d => bytes_ok (d_init d)) section ->
  does (fill_memory memory section offsets) (fun _ s' => exists mem', zlen mem' = zlen mem /\ bytes_ok mem' /\
    s' = MkStore (s_instances s) (<[a := mem']> (s_memories s)) (s_tables s) (s_values s)) s.
Proof.
  intros ->. revert mem offsets s. induction section as [|d section IH]; intros mem offsets s Hm Hfit Hok Hds; inversion Hfit as [|? o ? offsets' Ho Hrest]; subst; cbn [fill_memory].
  { exists mem. split; [done|]. split; [done|]. rewrite list_insert_id by done. by destruct s. }
  eapply does_unptr; [done|]. apply does_gets. eapply does_unptr; [exact Hm|].
  destruct (splice_Some (Z.to_nat o) (d_init d) mem) as [mem' Hs']; [unfold zlen in Ho; lia|]. rewrite Hs'. apply splice_length in Hs' as Hlen. apply Forall_cons_1 in Hds as [Hd Hds].
  apply does_modify. assert (zlen mem' = zlen mem) as Hz by (unfold zlen; by rewrite Hlen). eapply does_mono; [apply (IH mem')|].
  - cbn. apply list_lookup_insert_eq. by eapply lookup_lt_Some.
  - by rewrite Hz.
  - by eapply splice_bytes_ok.
  - done.
  - cbv beta. intros _ s' (mem2 & Hz2 & Hok2 & ->). exists mem2. split; [congruence|]. split; [done|]. cbn. by rewrite list_insert_insert_eq.
Qed.

Lemma elem_of_insert_cases {A} (l : list A) k x e : e ∈ <[k := x]> l -> e = x \/ e ∈ l.
Proof.
  intros [i Hi]%list_elem_of_lookup. rewrite list_lookup_insert in Hi. destruct (decide _); [left; congruence|right].
  by eapply list_elem_of_lookup_2.
Qed.

(** Elements of a table after a segment: those of before, or functions of the
    instance. *)
Lemma fill_elements_ok self init offset t :
  (offset + length init <= length t)%nat ->
  exists t', fill_elements self offset init t = Some t' /\ length t' = length t /\
    forall e, e ∈ t' -> e ∈ t \/ exists i, i ∈ init /\ e = MkTableElement (Some self) i.
Proof.
  revert offset t. induction init as [|i init IH]; intros offset t Hle; cbn [fill_elements].
  { exists t. split; [done|]. split; [done|]. auto. }
  cbn in Hle. rewrite (proj2 (Nat.ltb_lt _ _)) by lia. destruct (IH (S offset) (<[offset := MkTableElement (Some self) i]> t)) as (t' & Ht' & Hl & He).
  { rewrite length_insert. lia. }
  exists t'. split; [done|]. rewrite length_insert in Hl. split; [done|]. intros e [He1|(k & Hk & ->)]%He.
  - apply elem_of_insert_cases in He1 as [->|He1]; [right; exists i; split; [left|done]|by left].
  - right. exists k. split; [by right|done].
Qed.

Lemma fill_table_ok self table a tab section offsets (s : Store hostfn) :
  table = Some a -> s_tables s !! a = Some tab -> fit (zlen tab) (map (fun e => zlen (el_init e)) section) offsets ->
  does (fill_table self table section offsets) (fun _ s' => exists tab', length tab' = length tab /\
    s' = MkStore (s_instances s) (s_memories s) (<[a := tab']> (s_tables s)) (s_values s) /\
    forall e, e ∈ tab' -> e ∈ tab \/ exists x i, x ∈ section /\ i ∈ el_init x /\ e = MkTableElement (Some self) i) s.
Proof.
  intros ->. revert tab offsets s. induction section as [|x section IH]; intros tab offsets s Hm Hfit; inversion Hfit as [|? o ? offsets' Ho Hrest]; subst; cbn [fill_table].
  { exists tab. split; [done|]. rewrite list_insert_id by done. split; [by destruct s|]. auto. }
  eapply does_unptr; [done|]. apply does_gets. eapply does_unptr; [exact Hm|].
  destruct (fill_elements_ok self (el_init x) (Z.to_nat o) tab) as (tab' & -> & Hlen & He); [unfold zlen in Ho; lia|].
  apply does_modify. assert (zlen tab' = zlen tab) as Hz by (unfold zlen; by rewrite Hlen). eapply does_mono; [apply (IH tab')|].
  - cbn. apply list_lookup_insert_eq. by eapply lookup_lt_Some.
  - by rewrite Hz.
  - cbv beta. intros _ s' (tab2 & Hz2 & -> & He2). exists tab2. split; [congruence|]. cbn. rewrite list_insert_insert_eq. split; [done|].
    intros e [[Hin|(i & Hi & ->)]%He|(y & i & Hy & Hi & ->)]%He2; [by left| |]; right; [exists x, i|exists y, i]; (split; [|done]); [left|by right].
Qed.
End fill.

(** ** Making an instance *)

Section make_instance.
Context {hostfn : Type} (host_type : hostfn -> option FuncType) `{Allocator} `{NanPattern}.

(** A module of [parse]. *)
Record validated (m : Module_) : Prop := {
  v_module : module_wf m;
  v_codes : length (codesec m) = length (funcsec m);
  v_certified : codes_certified m
}.

(** The instance is the last one of a good store. *)
Definition made (s0 : Store hostfn) (m : Module_) (fs : list (ExternalFunction hostfn)) (limit : Z) (self : nat) (s : Store hostfn) : Prop :=
  store_ok host_type s /\ s_instances s0 `prefix_of` s_instances s /\
  exists inst, s_instances s !! self = Some inst /\ i_module inst = m /\ i_imported_functions inst = fs /\ i_memory_pages_limit inst <= limit.

(** The new instance in the store, before its table is filled. *)
Lemma add_instance_ok s inst values :
  store_ok host_type s -> instance_ok host_type (MkStore (s_instances s ++ [inst]) (s_memories s) (s_tables s) (s_values s ++ values)) inst ->
  (forall b, i_memory inst = Some b -> memory_fits s b (i_memory_pages_limit inst)) ->
  store_ok host_type (MkStore (s_instances s ++ [inst]) (s_memories s) (s_tables s) (s_values s ++ values)).
Proof.
  intros Hs Hi Hfit. constructor; cbn [s_instances s_tables]; [| |exact (st_bytes _ _ Hs)|].
  - intros j i [Hj|[_ Hj]]%lookup_app_Some.
    + eapply instance_ok_grow; [by apply (st_instances _ _ Hs j)| | |]; cbn; eauto using is_Some_app.
    + destruct (j - length _)%nat; cbn in Hj; [congruence|done].
  - assert (forall j i a, s_instances s !! j = Some i -> i_memory i = Some a -> i_memory inst = Some a -> i_memory_pages_limit i = i_memory_pages_limit inst) as Hsh.
    { intros j i a Hj Ha Hb. destruct (Hfit a Hb) as (_ & _ & _ & Hl). eauto. }
    intros j k i i' a [Hj|[_ Hj]]%lookup_app_Some [Hk|[_ Hk]]%lookup_app_Some Ha Ha'.
    + by apply (st_shared _ _ Hs j k i i' a).
    + destruct (k - length _)%nat; cbn in Hk; [injection Hk as <-|done]. eauto.
    + destruct (j - length _)%nat; cbn in Hj; [injection Hj as <-|done]. symmetry. eauto.
    + destruct (j - length _)%nat; cbn in Hj; [injection Hj as <-|done]. destruct (k - length _)%nat; cbn in Hk; [congruence|done].
  - intros t e Ht He. eapply element_valid_grow; [|by eapply (st_elements _ _ Hs)]. by eexists.
Qed.
(** Data and elements go to a memory and a table that are there, whatever the
    module declares. *)
Section phases.
Context (s0 : Store hostfn) (m : Module_) (gs : list ExternalGlobal) (limit : Z) (Hwf : module_wf m).
Context (Hlen : length gs = length (imported_global_types m)).
Context (Hcells : forall k g t, gs !! k = Some g -> imported_global_types m !! k = Some t ->
  xg_type g = t /\ exists a, xg_value g = Some a /\ is_Some (s_values s0 !! a)).
Context (table memory : option nat) (limits : Limits) (globals : list Z) (Hglobals : length globals = length (globalsec m)).

Definition memory_filled (l : list Z) (s : Store hostfn) : Prop :=
  does (fill_memory memory (datasec m) l) (fun _ s' => exists mems, s' = MkStore (s_instances s) mems (s_tables s) (s_values s) /\
    (forall a x, s_memories s !! a = Some x -> exists x', mems !! a = Some x' /\ zlen x' = zlen x) /\
    forall a x, mems !! a = Some x -> bytes_ok x) s.

Lemma data_phase s :
  after_memory host_type s0 m limit table memory limits s ->
  tries host_type s0 (data_offsets memory gs globals (datasec m)) (fun l s' => s' = s /\ memory_filled l s) s.
Proof.
  intros (Hun & Hv & _ & _ & _ & Hmem & Hfit). destruct (wf_data _ Hwf) as [Hok Hhas]. unfold memory_filled.
  destruct (datasec m) as [|d section] eqn:Ed.
  { split; [done|]. exists (s_memories s). split; [by destruct s|]. split; [eauto|]. exact (st_bytes _ _ (proj1 Hun)). }
  destruct (Hmem (Hhas ltac:(done))) as [a Ha]. destruct (Hfit a Ha) as (mem & Hm & _).
  eapply tries_mono; [eapply (data_offsets_ok host_type s0 m gs Hlen Hcells memory a mem globals (d :: section) s); try done|].
  { eapply Forall_impl; [exact Hok|]. by intros ? [? _]. }
  cbv beta. intros l s' [-> Hl]. split; [done|]. eapply does_mono; [eapply fill_memory_ok; [exact Ha|exact Hm|exact Hl| |]|].
  { by eapply (st_bytes _ _ (proj1 Hun)). }
  { eapply Forall_impl; [exact Hok|]. by intros ? [_ ?]. }
  cbv beta. intros _ s' (mem' & Hz & Hok' & ->). eexists. split; [done|]. split; intros b x Hx; destruct (decide (a = b)) as [<-|Hne].
  - exists mem'. rewrite list_lookup_insert_eq by (by eapply lookup_lt_Some). split; [done|]. congruence.
  - exists x. by rewrite list_lookup_insert_ne.
  - rewrite list_lookup_insert_eq in Hx by (by eapply lookup_lt_Some). by simplify_eq.
  - rewrite list_lookup_insert_ne in Hx by done. by eapply (st_bytes _ _ (proj1 Hun)).
Qed.

Definition table_filled (l : list Z) (tables : list (list TableElement)) : Prop :=
  forall self (s : Store hostfn), s_tables s = tables ->
  does (fill_table self table (elementsec m) l) (fun _ s' => exists tabs, s' = MkStore (s_instances s) (s_memories s) tabs (s_values s) /\
    length tabs = length tables /\
    forall t e, t ∈ tabs -> e ∈ t -> (exists t', t' ∈ tables /\ e ∈ t') \/ exists i, 0 <= i < get_function_count m /\ e = MkTableElement (Some self) i) s.

Lemma element_phase s :
  after_memory host_type s0 m limit table memory limits s ->
  tries host_type s0 (element_offsets table gs globals (elementsec m)) (fun l s' => s' = s /\ table_filled l (s_tables s)) s.
Proof.
  intros (Hun & Hv & Htab & _). destruct (wf_elements _ Hwf) as [Hok Hhas]. unfold table_filled. destruct (elementsec m) as [|x section] eqn:Ed.
  { split; [done|]. intros self s1 Hs1. exists (s_tables s1). split; [by destruct s1|]. rewrite Hs1. split; [done|]. eauto. }
  destruct (Htab (Hhas ltac:(done))) as (a & Ha & tab & Ht).
  eapply tries_mono; [eapply (element_offsets_ok host_type s0 m gs Hlen Hcells table a tab globals (x :: section) s); try done|].
  { eapply Forall_impl; [exact Hok|]. by intros ? [? _]. }
  cbv beta. intros l s' [-> Hl]. split; [done|]. intros self s1 Hs1. eapply does_mono; [eapply fill_table_ok; [exact Ha|by rewrite Hs1|exact Hl]|].
  cbv beta. intros _ s' (tab' & Hz & -> & He). eexists. split; [done|]. rewrite Hs1, length_insert. split; [done|].
  intros t e [->|Hin]%elem_of_insert_cases Hte; [|left; by exists t]. destruct (He e Hte) as [Hin|(y & i & Hy & Hi & ->)].
  - left. exists tab. split; [by eapply list_elem_of_lookup_2|done].
  - right. exists i. split; [|done]. rewrite Forall_forall in Hok. destruct (Hok y Hy) as [_ Hidx]. rewrite Forall_forall in Hidx. by apply Hidx.
Qed.
End phases.

Lemma has_function_type m i : module_wf m -> 0 <= i < get_function_count m -> is_Some (function_type_at m i).
Proof.
  intros Hwf Hi. unfold function_type_at, get_function_count in *. destruct (i <? _) eqn:E; bool_to_prop.
  - destruct (at_idx_lt (imported_function_types m) i ltac:(lia)) as (t & -> & _). by eexists.
  - destruct (at_idx_lt (funcsec m) (i - zlen (imported_function_types m)) ltac:(lia)) as (k & -> & Hin). cbn.
    pose proof (wf_functions _ Hwf) as Hf. apply (proj1 (Forall_forall _ _) Hf) in Hin.
    destruct (at_idx_lt (typesec m) k Hin) as (t & -> & _). by eexists.
Qed.

(** The elements of the new instance's segments refer to its functions. *)
Lemma store_ok_tables s self inst tabs :
  store_ok host_type s -> s_instances s !! self = Some inst -> length tabs = length (s_tables s) ->
  (forall t e, t ∈ tabs -> e ∈ t -> (exists t', t' ∈ s_tables s /\ e ∈ t') \/
     exists i, 0 <= i < get_function_count (i_module inst) /\ e = MkTableElement (Some self) i) ->
  store_ok host_type (MkStore (s_instances s) (s_memories s) tabs (s_values s)).
Proof.
  intros Hs Hself Hlen He. pose proof (st_bytes _ _ Hs) as Hok. apply (store_ok_grow host_type s); cbn; try done; eauto.
  - intros a Ha%lookup_lt_is_Some. apply lookup_lt_is_Some. lia.
  - intros t e Ht Hin. destruct (He t e Ht Hin) as [(t' & Ht' & Hin')|(i & Hi & ->)].
    + intros j Hj. by apply (st_elements _ _ Hs t' e).
    + intros j [= <-]. exists inst. split; [done|]. apply has_function_type; [|done]. by apply (io_module _ _ _ (st_instances _ _ Hs _ _ Hself)).
Qed.

Lemma after_memory_filled s0 m limit table memory limits s mems :
  after_memory host_type s0 m limit table memory limits s ->
  (forall a x, s_memories s !! a = Some x -> exists x', mems !! a = Some x' /\ zlen x' = zlen x) -> (forall a x, mems !! a = Some x -> bytes_ok x) ->
  after_memory host_type s0 m limit table memory limits (MkStore (s_instances s) mems (s_tables s) (s_values s)).
Proof.
  intros ([Hs Hi] & Hv & Htab & Hlim & Hmax & Hmem & Hfit) Hmems Hok. split; [split; [|done]|].
  - apply (store_ok_grow host_type s); cbn; try done; eauto. intros t e Ht He. by apply (st_elements _ _ Hs t e).
  - repeat (split; [done|]). intros b Hb. destruct (Hfit b Hb) as (mem & Hm & (pages & Hz & Hp) & Hl). destruct (Hmems b mem Hm) as (mem' & Hm' & Hz').
    exists mem'. split; [done|]. split; [|done]. exists pages. rewrite Hz'. done.
Qed.

Lemma new_instance_ok s0 m fs gs limit table table_limits memory limits globals s instances :
  validated m -> length fs = length (imported_function_types m) ->
  (forall k f t, fs !! k = Some f -> imported_function_types m !! k = Some t -> exists h, ef_function f = HostFunction h /\ host_type h = Some t) ->
  length gs = length (imported_global_types m) ->
  (forall k g t, gs !! k = Some g -> imported_global_types m !! k = Some t -> xg_type g = t /\ exists a, xg_value g = Some a /\ is_Some (s_values s0 !! a)) ->
  length globals = length (globalsec m) -> after_memory host_type s0 m limit table memory limits s ->
  instance_ok host_type (MkStore instances (s_memories s) (s_tables s) (s_values s ++ globals))
    (MkInstance m memory limits (default limit (lim_max limits)) table table_limits (seq (length (s_values s)) (length globals)) fs gs).
Proof.
  intros [Hwf Hcodes Hcert] Hfl Hft Hgl Hcells Hglobals (Hun & Hv & Htab & Hlim & Hmax & Hmem & Hfit). constructor; cbn; try done.
  - intros i g t Hg Ht. destruct (Hcells i g t Hg Ht) as (He & a & Ha & Hs). split; [done|]. exists a. split; [done|]. rewrite Hv. by apply is_Some_app.
  - by rewrite length_seq.
  - intros a Ha%elem_of_seq. apply lookup_lt_is_Some. rewrite length_app. lia.
  - intros Hm. destruct (Hmem Hm) as [a Ha]. destruct (Hfit a Ha) as (mem & Hmem' & _). by exists a, mem.
  - intros a Ha. destruct (Hfit a Ha) as (mem & Hmem' & _). by exists mem.
  - intros a mem' Ha Hm'. destruct (Hfit a Ha) as (mem & Hm & Hp & _). by simplify_eq.
  - destruct (lim_max limits) eqn:E; cbn; [specialize (Hmax _ eq_refl)|]; lia.
  - intros Ht. destruct (Htab Ht) as (a & Ha & tab & Hs). by exists a, tab.
Qed.

Lemma make_instance_spec s m fs ts ms gs limit :
  store_ok host_type s -> validated m -> imports_ok host_type s fs ts ms gs limit ->
  tries host_type s (make_instance m fs ts ms gs limit) (made s m fs limit) s.
Proof.
  intros Hs [Hwf Hcodes Hcert] Him. unfold make_instance. apply tries_assert; [by apply Nat.eqb_eq|].
  eapply tries_seq; [by eapply match_imported_functions_ok|]. cbv beta. intros _ _ (-> & Hfl & Hft).
  eapply tries_seq; [by eapply match_imported_tables_ok|]. cbv beta. intros _ _ (-> & Hts).
  eapply tries_seq; [by eapply match_imported_memories_ok|]. cbv beta. intros _ _ (-> & Hms).
  eapply tries_seq; [by eapply match_imported_globals_ok|]. cbv beta. intros _ _ (-> & Hgl & Hcells).
  eapply tries_does_seq; [eapply (init_globals_ok s m gs Hgl Hcells _ [] s); [|done]|].
  { eapply Forall_impl; [exact (wf_globals _ Hwf)|]. by intros g [_ Hg]. }
  cbv beta. intros globals _ (-> & Hglobals). cbn in Hglobals.
  eapply tries_seq; [by eapply allocate_table_ok|]. cbv beta. intros [table table_limits] s1 Htab. cbn in Htab.
  eapply tries_seq; [by eapply allocate_memory_ok|]. cbv beta. intros [memory limits] s2 Hmem. cbn in Hmem.
  pose proof Hmem as ([Hs2 Hi2] & Hv2 & Htab2 & Hlim & Hmax & Hmem2 & Hfit).
  apply tries_assert; [destruct (lim_max limits) eqn:E; [apply Z.leb_le; by apply Hmax|done]|]. cbv zeta.
  eapply tries_seq; [by eapply data_phase|]. cbv beta. intros offsets _ (-> & Hfill).
  apply tries_assert.
  { destruct (elementsec m) eqn:E; [done|]. destruct (Htab2 (proj2 (wf_elements _ Hwf) ltac:(by rewrite E))) as (a & -> & _). done. }
  eapply tries_seq; [by eapply element_phase|]. cbv beta. intros offsets2 _ (-> & Hfill2).
  eapply tries_does_seq; [exact Hfill|]. cbv beta. intros _ _ (mems & -> & Hmems & Hmok). apply tries_gets. cbn [s_instances s_values id].
  apply tries_modify. cbn [s_instances s_memories s_tables s_values].
  set (inst := MkInstance _ _ _ _ _ _ _ _ _). set (s3 := MkStore (s_instances s2) mems (s_tables s2) (s_values s2)).
  assert (after_memory host_type s m limit table memory limits s3) as Hmem3 by (by apply after_memory_filled).
  assert (store_ok host_type (MkStore (s_instances s3 ++ [inst]) (s_memories s3) (s_tables s3) (s_values s3 ++ globals))) as Hs4.
  { apply add_instance_ok; [apply Hmem3| |apply Hmem3]. by apply (new_instance_ok s m fs gs limit table table_limits memory limits globals s3). }
  eapply tries_does_seq; [by apply Hfill2|]. cbv beta. intros _ _ (tabs & -> & Htl & Hte). apply tries_does. cbn [s_instances s_memories s_values].
  assert ((s_instances s3 ++ [inst]) !! length (s_instances s2) = Some inst) as Hself by (by rewrite lookup_app_r, Nat.sub_diag by done).
  split; [|split; [rewrite <- Hi2; by eexists|exists inst; repeat (split; [done|])]]; last first.
  { cbn. destruct (lim_max limits) eqn:E; cbn; [by apply Hmax|done]. }
  by apply (store_ok_tables _ (length (s_instances s2)) inst tabs Hs4).
Qed.
(** ** The start function *)

(** What [instantiate] leaves: the caller's context, and a new instance or a
    refusal. *)
Definition instantiated (m : Module_) (fs : list (ExternalFunction hostfn)) (limit : Z) (w : World hostfn) (r : exn + nat) (w' : World hostfn) : Prop :=
  w_ctx w' = w_ctx w /\
  match r with
  | inr self => made (w_store w) m fs limit self (w_store w')
  | inl e => refusal e /\ store_ok host_type (w_store w') /\ s_instances (w_store w) `prefix_of` s_instances (w_store w')
  end.

(** The start function may not end, and its frames may not fit into memory;
    without one there is no crash. *)
Definition start_crash (m : Module_) (f : fault) : Prop := is_Some (startfunc m) /\ may_crash True f.

Lemma function_type_bound m idx t : function_type_at m idx = Some t -> idx < get_function_count m.
Proof.
  unfold function_type_at, get_function_count. pose proof (zlen_nonneg (funcsec m)). destruct (idx <? _) eqn:E; bool_to_prop; [lia|].
  intros (k & Hk & _)%bind_Some. apply at_idx_nat in Hk as (j & Hj & Hlt%lookup_lt_Some). unfold zlen in *. lia.
Qed.

Lemma instantiate_spec fuel m fs ts ms gs limit w :
  store_ok host_type (w_store w) -> validated m -> imports_ok host_type (w_store w) fs ts ms gs limit ->
  run_ok host_type false (s_instances (w_store w)) (start_crash m) (instantiated m fs limit w) (instantiate fuel m fs ts ms gs limit w).
Proof.
  intros Hs Hv Him. unfold instantiate. pose proof (make_instance_spec _ _ _ _ _ _ _ Hs Hv Him) as Hm. unfold tries in Hm.
  destruct (make_instance _ _ _ _ _ _ _) as [self s'|e s'|f].
  2: { destruct Hm as (Hr & Hst & Hi). split; [done|]. split; [done|]. split; [done|]. cbn. by rewrite Hi. }
  2: done.
  destruct (startfunc m) as [idx|] eqn:Est; [|by split]. pose proof Hm as (Hs' & Hpre & inst & Hself & Hmod & Hfs & Hlim).
  pose proof (wf_start _ (v_module _ Hv) idx Est) as Hidx. pose proof (function_type_bound _ _ _ Hidx) as Hb.
  pose proof (io_functions _ _ _ (st_instances _ _ Hs' _ _ Hself)) as Hfl. rewrite Hfs, Hmod in Hfl.
  rewrite (proj2 (Z.ltb_lt _ _)) by (unfold get_function_count, zlen in *; lia). unfold execute_plain. rewrite <- Hmod in Hidx.
  eapply run_ok_bind; [eapply run_ok_bind|].
  - eapply run_ok_mono; [|done|apply (proj2 (loop_execute_ok host_type false True (s_instances (w_store w)) fuel) self inst idx (MkFuncType [] []) None); try done].
    + intros f Hf. split; [by rewrite Est|exact Hf].
    + split; [done|by left].
  - cbv beta. intros r w' (Hk & _). instantiate (1 := fun r w' => keeps host_type (MkWorld s' default_context) (MkWorld (w_store w') default_context) /\ w_ctx w' = w_ctx w).
    split; [|done]. destruct Hk as (K1 & K2 & K3). split; [done|]. split; [done|done].
  - cbv beta. intros r w' ((K1 & K2 & _) & Hc). cbn in K1, K2.
    assert (instantiated m fs limit w (inr self) w') as Hok.
    { split; [done|]. split; [done|]. split; [by etrans|]. exists inst. split; [by eapply prefix_lookup_Some|done]. }
    assert (instantiated m fs limit w (inl (instantiate_error "start function failed to execute")) w') as Htr.
    { split; [done|]. split; [right; by eexists|]. split; [done|by etrans]. }
    by destruct r.
Qed.
End make_instance.

(** ** The theorems *)

Section theorems.
Context {hostfn : Type} (host_type : hostfn -> option FuncType) `{Allocator} `{NanPattern}.

(** C5. A metered call of a function of an instance, made from a validated
    module, with the arguments its type asks for: whatever the host functions
    answer within their types, the interpreter needs no more than two steps per
    tick, never reads or writes outside its code, stack, locals, globals, table
    and memory, passes none of its assertions by, never overflows the tick
    counter, returns a value exactly when the type says so, and leaves the
    store as well-formed as it was and the depth where it was. The one crash
    left is the failed allocation of a frame. *)
Theorem execute_safe self inst func_idx t args w fuel :
  store_ok host_type (w_store w) -> s_instances (w_store w) !! self = Some inst ->
  function_type_at (i_module inst) func_idx = Some t -> args_ok t args ->
  0 <= depth_of w -> ctx_metering_enabled (w_ctx w) = true -> 0 <= ticks_of w -> 2 * ticks_of w + 2 <= Z.of_nat fuel ->
  run_ok host_type true (s_instances (w_store w)) (fun f => f = terminate bad_alloc) (returns host_type true t w) (execute_in fuel self func_idx args w).
Proof.
  intros Hs Hself Ht Ha Hd Hm Hticks Hfuel. unfold execute_in. rewrite Hm.
  eapply run_ok_mono; [|done|eapply (proj2 (loop_execute_ok host_type true False _ fuel)); try done; split; [done|by right]].
  by intros f [->|[_ []]].
Qed.

(** C7. Making an instance of a validated module from imports whose non-null
    pointers are good: an instance that satisfies the invariant of the store is
    added, or an exception of the two kinds [fizzy_instantiate] reports is
    thrown and the instances of before are still there. Only a start function
    can crash or not end. *)
Theorem instantiate_safe fuel m fs ts ms gs limit w :
  store_ok host_type (w_store w) -> validated m -> imports_ok host_type (w_store w) fs ts ms gs limit ->
  run_ok host_type false (s_instances (w_store w)) (start_crash m) (instantiated host_type m fs limit w) (instantiate fuel m fs ts ms gs limit w).
Proof. apply instantiate_spec. Qed.
End theorems.

(** ** A small instance *)

Definition roomy : Allocator := {| can_allocate _ := true |}.

Definition sample_module : Module_ := match parse sample_binary with Ret m _ => m | _ => empty_module end.

Lemma sample_validated : validated sample_module.
Proof.
  destruct (parse sample_binary) as [m rest| |] eqn:E; [|by vm_compute in E..]. unfold sample_module. rewrite E.
  destruct (parse_certified_lemma sample_binary m rest) as (H1 & H2 & H3); [apply bytes_check; reflexivity|reflexivity|exact E|done].
Qed.

Definition empty_store : Store Empty_set := MkStore [] [] [] [].
Definition no_host (h : Empty_set) : option FuncType := match h with end.

Lemma empty_store_ok : store_ok no_host empty_store.
Proof. constructor; cbn; try done. intros t e H. by apply not_elem_of_nil in H. Qed.

Lemma no_imports_ok limit : 0 <= limit -> imports_ok no_host empty_store [] [] [] [] limit.
Proof. intros Hl. by constructor; try (intros ? H; by apply not_elem_of_nil in H); try (intros ? ? H; by apply not_elem_of_nil in H). Qed.

(** The store after [sample_module] has been instantiated. *)
Definition sample_store : Store Empty_set :=
  match make_instance (H := roomy) sample_module [] [] [] [] 512 empty_store with Ret _ s => s | _ => empty_store end.

Lemma sample_made : made no_host empty_store sample_module [] 512 0 sample_store.
Proof.
  pose proof (make_instance_spec (H := roomy) no_host empty_store sample_module [] [] [] [] 512 empty_store_ok sample_validated (no_imports_ok 512 ltac:(lia))) as H.
  assert (match make_instance (H := roomy) sample_module [] [] [] [] 512 empty_store with Ret self _ => Some self | _ => None end = Some 0%nat) as E by (by vm_compute).
  unfold tries, sample_store in *. destruct (make_instance _ _ _ _ _ _ _) as [self s| |]; [|done..]. by injection E as ->.
Qed.

Definition sample_world : World Empty_set := MkWorld sample_store (MkExecutionContext 0 100 true).

(** The function of the sample adds one. *)
Example sample_runs :
  match execute_in (H := roomy) (H0 := canonical_nan) 202 0 0 (Some [41]) sample_world with
  | Done r w => (r, ticks_of w)
  | _ => (Trap, 0)
  end = (Result 42, 96).
Proof. by vm_compute. Qed.

Lemma execute_safe_witness :
  store_ok no_host (w_store sample_world) /\ args_ok (MkFuncType [Ti32] [Ti32]) (Some [41]) /\
  run_ok no_host true (s_instances (w_store sample_world)) (fun f => f = terminate bad_alloc) (returns no_host true (MkFuncType [Ti32] [Ti32]) sample_world)
    (execute_in (H := roomy) (H0 := canonical_nan) 202 0 0 (Some [41]) sample_world).
Proof.
  destruct sample_made as (Hs & _ & inst & Hi & Hm & _). split; [exact Hs|]. split; [cbn; lia|].
  apply (execute_safe (H := roomy) (H0 := canonical_nan) no_host 0 inst 0); [exact Hs|exact Hi|rewrite Hm; by vm_compute|cbn; lia|done|done|done|done].
Defined.

Lemma instantiate_safe_witness :
  validated sample_module /\
  run_ok no_host false (s_instances empty_store) (start_crash sample_module) (instantiated no_host sample_module [] 512 (MkWorld empty_store default_context))
    (instantiate (H := roomy) (H0 := canonical_nan) 0 sample_module [] [] [] [] 512 (MkWorld empty_store default_context)).
Proof.
  split; [exact sample_validated|].
  exact (instantiate_safe (H := roomy) (H0 := canonical_nan) no_host 0 sample_module [] [] [] [] 512 (MkWorld empty_store default_context)
    empty_store_ok sample_validated (no_imports_ok 512 ltac:(lia))).
Defined.
