(* ===== verification/FizzyApi.v ===== *)
(** * The C interface of the interpreter

    [external/fizzy/lib/fizzy/capi.cpp] and [fizzy.h]: the functions
    [program_context] calls. Exceptions become error codes and messages; types
    and results are repacked. The casts between the opaque C types and the C++
    ones are identities. A value type is the enumerator of types.hpp, whose
    values the C constants have, and [FizzyValueTypeVoid] its absence. *)

From stdpp Require Import base list option numbers strings.
From S2P Require Import Prelude Memory FizzyLeb128 FizzyTypes FizzyExpr FizzyParser FizzyNumeric FizzyExecute FizzyInstantiate.

(** ** Errors *)

Inductive FizzyErrorCode :=
| FizzySuccess | FizzyErrorMalformedModule | FizzyErrorInvalidModule
| FizzyErrorInstantiationFailed | FizzyErrorMemoryAllocationFailed | FizzyErrorOther.

Record FizzyError := MkFizzyError { e_code : FizzyErrorCode; e_message : bytes }.

Definition error_message_size : nat := 256.

(** The string that a pointer to characters points to. *)
Fixpoint c_string (b : bytes) : bytes :=
  match b with [] => [] | c :: b => if c =? 0 then [] else c :: c_string b end.

(** ['.'] *)
Definition dot : Z := 46.

Definition truncating_strlcpy (dest src : bytes) : bytes * nat :=
  let src_len := length (c_string src) in
  let copy_len := (src_len `min` (length dest - 1))%nat in
  let dest := take copy_len src ++ drop copy_len dest in
  let dest :=
    if (copy_len <? src_len)%nat
    then <[(copy_len - 1)%nat := dot]> (<[(copy_len - 2)%nat := dot]> (<[(copy_len - 3)%nat := dot]> dest))
    else dest in
  (<[copy_len := 0]> dest, copy_len).

(** [error] is what the pointer given for errors points to, if it is not null. *)
Definition set_success (error : option FizzyError) : option FizzyError :=
  (fun e => MkFizzyError FizzySuccess (<[0%nat := 0]> (e_message e))) <$> error.

Definition set_error_code_and_message (code : FizzyErrorCode) (message : bytes) (error : FizzyError) : FizzyError :=
  MkFizzyError code (fst (truncating_strlcpy (e_message error) message)).

Definition set_error_from_current_exception (e : exn) (error : option FizzyError) : option FizzyError :=
  match e with
  | parser_error what => set_error_code_and_message FizzyErrorMalformedModule (str_bytes what ++ [0])
  | validation_error what => set_error_code_and_message FizzyErrorInvalidModule (str_bytes what ++ [0])
  | instantiate_error what => set_error_code_and_message FizzyErrorInstantiationFailed (str_bytes what ++ [0])
  | bad_alloc => set_error_code_and_message FizzyErrorMemoryAllocationFailed (str_bytes "memory allocation failed" ++ [0])
  | runtime_error what | bad_access what => set_error_code_and_message FizzyErrorOther (str_bytes what ++ [0])
  end <$> error.

(** ** Types and values *)

Record FizzyFunctionType := MkFizzyFunctionType { ft_output : option ValType; ft_inputs : list ValType }.
Record FizzyLimits := MkFizzyLimits { fl_min : Z; fl_max : Z; fl_has_max : bool }.
Record FizzyGlobalType := MkFizzyGlobalType { fg_value_type : ValType; fg_is_mutable : bool }.
Record FizzyExecutionResult := MkFizzyExecutionResult { fr_trapped : bool; fr_has_value : bool; fr_value : Z }.

Definition wrap_types (input_types output_types : list ValType) : FizzyFunctionType :=
  MkFizzyFunctionType (head output_types) input_types.
Definition wrap_function_type (type : FuncType) : FizzyFunctionType := wrap_types (inputs type) (outputs type).

Definition wrap_result (result : ExecutionResult) : FizzyExecutionResult :=
  match result with
  | Trap => MkFizzyExecutionResult true false 0
  | Void => MkFizzyExecutionResult false false 0
  | Result v => MkFizzyExecutionResult false true v
  end.
Definition unwrap_result (result : FizzyExecutionResult) : ExecutionResult :=
  if fr_trapped result then Trap else if negb (fr_has_value result) then Void else Result (fr_value result).

Definition wrap_limits (l : Limits) : FizzyLimits :=
  MkFizzyLimits (lim_min l) (default 0 (lim_max l)) (match lim_max l with Some _ => true | None => false end).
Definition unwrap_limits (l : FizzyLimits) : Limits :=
  MkLimits (fl_min l) (if fl_has_max l then Some (fl_max l) else None).

Definition wrap_global_type (t : GlobalType) : FizzyGlobalType := MkFizzyGlobalType (value_type t) (is_mutable t).
Definition unwrap_global_type (t : FizzyGlobalType) : GlobalType := MkGlobalType (fg_value_type t) (fg_is_mutable t).

(** The union of an import description and its tag. *)
Inductive FizzyImportDesc :=
| DescFunction (function_type : FizzyFunctionType)
| DescTable (table_limits : FizzyLimits)
| DescMemory (memory_limits : FizzyLimits)
| DescGlobal (global_type : FizzyGlobalType).
Record FizzyImportDescription := MkFizzyImportDescription { id_module : bytes; id_name : bytes; id_desc : FizzyImportDesc }.
Record FizzyExportDescription := MkFizzyExportDescription { ed_name : bytes; ed_kind : ExternalKind; ed_index : Z }.

(** A name that holds a zero is cut there. *)
Definition wrap_export (e : Export_) : FizzyExportDescription := MkFizzyExportDescription (c_string (exp_name e)) (exp_kind e) (exp_index e).

(** ** Modules *)

Section modules.
Context {S : Type}.

Definition wrap_import (import : Import_) (module : Module_) : M S FizzyImportDescription :=
  let* desc :=
    match imp_desc import with
    | ImportFunction function_type_index =>
        let* t := elem (typesec module) function_type_index in ret (DescFunction (wrap_function_type t))
    | ImportTable table => ret (DescTable (wrap_limits (tab_limits table)))
    | ImportMemory memory => ret (DescMemory (wrap_limits (mem_limits memory)))
    | ImportGlobal global => ret (DescGlobal (wrap_global_type global))
    end in
  ret (MkFizzyImportDescription (c_string (imp_module import)) (c_string (imp_name import)) desc).

Definition fizzy_get_type_count (module : Module_) : Z := u32 (zlen (typesec module)).
Definition fizzy_get_type (module : Module_) (type_idx : Z) : M S FizzyFunctionType :=
  let* t := elem (typesec module) type_idx in ret (wrap_function_type t).
Definition fizzy_get_import_count (module : Module_) : Z := u32 (zlen (importsec module)).
Definition fizzy_get_import_description (module : Module_) (import_idx : Z) : M S FizzyImportDescription :=
  let* import := elem (importsec module) import_idx in wrap_import import module.
Definition fizzy_get_function_type (module : Module_) (func_idx : Z) : M S FizzyFunctionType :=
  let* t := get_function_type module func_idx in ret (wrap_function_type t).
Definition fizzy_module_has_table (module : Module_) : bool := has_table module.
Definition fizzy_module_has_memory (module : Module_) : bool := has_memory module.
Definition fizzy_get_global_count (module : Module_) : Z := u32 (get_global_count module).
Definition fizzy_get_global_type (module : Module_) (global_idx : Z) : M S FizzyGlobalType :=
  let* t := get_global_type module global_idx in ret (wrap_global_type t).
Definition fizzy_get_export_count (module : Module_) : Z := u32 (zlen (exportsec module)).
Definition fizzy_get_export_description (module : Module_) (export_idx : Z) : M S FizzyExportDescription :=
  let* e := elem (exportsec module) export_idx in ret (wrap_export e).
Definition fizzy_module_has_start_function (module : Module_) : bool :=
  match startfunc module with Some _ => true | None => false end.

(** What [out_func_idx] points to stays as it is when there is no such export. *)
Definition fizzy_find_exported_function_index (module : Module_) (name : bytes) (out_func_idx : Z) : bool * Z :=
  match find_exported_function_index module name with
  | None => (false, out_func_idx)
  | Some i => (true, i)
  end.
End modules.

(** The state is what the pointer to the error points to. *)
Definition fizzy_validate (wasm_binary : bytes) : M (option FizzyError) bool := fun error =>
  match parse wasm_binary with
  | Ret _ _ => Ret true (set_success error)
  | Throw e _ => Ret false (set_error_from_current_exception e error)
  | Fault f => Fault f
  end.

Definition fizzy_parse (wasm_binary : bytes) : M (option FizzyError) (option Module_) := fun error =>
  match parse wasm_binary with
  | Ret module _ => Ret (Some module) (set_success error)
  | Throw e _ => Ret None (set_error_from_current_exception e error)
  | Fault f => Fault f
  end.

(** ** Instances *)

Section instances.
Context {hostfn : Type} `{Allocator} `{NanPattern}.

(** [hostfn] stands for a C function with its context. *)
Record FizzyExternalFunction := MkFizzyExternalFunction { xf_type : FizzyFunctionType; xf_function : hostfn }.
Record FizzyExternalTable := MkFizzyExternalTable { fx_table : option nat; fx_table_limits : FizzyLimits }.
Record FizzyExternalMemory := MkFizzyExternalMemory { fx_memory : option nat; fx_memory_limits : FizzyLimits }.
Record FizzyExternalGlobal := MkFizzyExternalGlobal { fx_value : option nat; fx_type : FizzyGlobalType }.
Record FizzyImportedFunction := MkFizzyImportedFunction { fi_module : bytes; fi_name : bytes; fi_external_function : FizzyExternalFunction }.
Record FizzyImportedGlobal := MkFizzyImportedGlobal { fi_global_module : bytes; fi_global_name : bytes; fi_external_global : FizzyExternalGlobal }.

Definition unwrap_external_function (f : FizzyExternalFunction) : ExternalFunction hostfn :=
  MkExternalFunction (HostFunction (xf_function f)) (ft_inputs (xf_type f)) (option_list (ft_output (xf_type f))).
Definition unwrap_external_functions (l : list FizzyExternalFunction) : list (ExternalFunction hostfn) := map unwrap_external_function l.

Definition unwrap_imported_function (f : FizzyImportedFunction) : ImportedFunction hostfn :=
  let type := xf_type (fi_external_function f) in
  MkImportedFunction (c_string (fi_module f)) (c_string (fi_name f)) (ft_inputs type) (ft_output type)
    (HostFunction (xf_function (fi_external_function f))).
Definition unwrap_imported_functions (l : list FizzyImportedFunction) : list (ImportedFunction hostfn) := map unwrap_imported_function l.

Definition unwrap_imported_global (g : FizzyImportedGlobal) : ImportedGlobal :=
  let type := fx_type (fi_external_global g) in
  MkImportedGlobal (c_string (fi_global_module g)) (c_string (fi_global_name g)) (fx_value (fi_external_global g)) (fg_value_type type) (fg_is_mutable type).
Definition unwrap_imported_globals (l : list FizzyImportedGlobal) : list ImportedGlobal := map unwrap_imported_global l.

Definition wrap_external_table (t : ExternalTable) : FizzyExternalTable := MkFizzyExternalTable (xt_table t) (wrap_limits (xt_limits t)).
Definition unwrap_external_table (t : FizzyExternalTable) : ExternalTable := MkExternalTable (fx_table t) (unwrap_limits (fx_table_limits t)).
Definition wrap_external_memory (y : ExternalMemory) : FizzyExternalMemory := MkFizzyExternalMemory (xm_data y) (wrap_limits (xm_limits y)).
Definition unwrap_external_memory (y : FizzyExternalMemory) : ExternalMemory := MkExternalMemory (fx_memory y) (unwrap_limits (fx_memory_limits y)).
Definition wrap_external_global (g : ExternalGlobal) : FizzyExternalGlobal := MkFizzyExternalGlobal (xg_value g) (wrap_global_type (xg_type g)).
Definition unwrap_external_global (g : FizzyExternalGlobal) : ExternalGlobal := MkExternalGlobal (fx_value g) (unwrap_global_type (fx_type g)).
Definition unwrap_external_globals (l : list FizzyExternalGlobal) : list ExternalGlobal := map unwrap_external_global l.

(** A pointer that may be null. *)
Definition unwrap_tables (t : option FizzyExternalTable) : list ExternalTable := map unwrap_external_table (option_list t).
Definition unwrap_memories (y : option FizzyExternalMemory) : list ExternalMemory := map unwrap_external_memory (option_list y).

(** The end of the [try] block of an instantiation. *)
Definition instance_or_null (error : option FizzyError) (r : exn + nat) (w : World hostfn) : run hostfn (option nat * option FizzyError) :=
  match r with
  | inr instance => Done (Some instance, set_success error) w
  | inl e => Done (None, set_error_from_current_exception e error) w
  end.

Definition fizzy_instantiate (fuel : nat) (module : Module_) (imported_functions : list FizzyExternalFunction)
    (imported_table : option FizzyExternalTable) (imported_memory : option FizzyExternalMemory) (imported_globals : list FizzyExternalGlobal)
    (memory_pages_limit : Z) (error : option FizzyError) (w : World hostfn) : run hostfn (option nat * option FizzyError) :=
  let functions := unwrap_external_functions imported_functions in
  let table := unwrap_tables imported_table in
  let memory := unwrap_memories imported_memory in
  let globals := unwrap_external_globals imported_globals in
  run_bind (instantiate fuel module functions table memory globals memory_pages_limit w) (instance_or_null error).

Definition fizzy_resolve_instantiate (fuel : nat) (module : Module_) (c_imported_functions : list FizzyImportedFunction)
    (imported_table : option FizzyExternalTable) (imported_memory : option FizzyExternalMemory) (c_imported_globals : list FizzyImportedGlobal)
    (memory_pages_limit : Z) (error : option FizzyError) (w : World hostfn) : run hostfn (option nat * option FizzyError) :=
  let imported_functions := unwrap_imported_functions c_imported_functions in
  let table := unwrap_tables imported_table in
  let memory := unwrap_memories imported_memory in
  let imported_globals := unwrap_imported_globals c_imported_globals in
  let resolved :=
    let* resolved_imports := resolve_imported_functions module imported_functions in
    let* resolved_globals := resolve_imported_globals module imported_globals in
    ret (resolved_imports, resolved_globals) in
  match resolved (w_store w) with
  | Ret (resolved_imports, resolved_globals) _ =>
      run_bind (instantiate fuel module resolved_imports table memory resolved_globals memory_pages_limit w) (instance_or_null error)
  | Throw e _ => Done (None, set_error_from_current_exception e error) w
  | Fault f => Crash f
  end.

(** The exports of an instance; [None] is the answer [false]. *)
Definition exported {A B} (find : nat -> Instance_ hostfn -> M (Store hostfn) (option A)) (wrap : A -> B) (instance : nat)
  : M (Store hostfn) (option B) :=
  let* s := gets s_instances in
  let* i := unptr (s !! instance) in
  let* r := find instance i in
  ret (wrap <$> r).

(** The context of an exported function is a copy of the function. *)
Definition wrap_external_function (f : ExternalFunction hostfn) : FizzyFunctionType * ExternalFunction hostfn :=
  (wrap_types (ef_input_types f) (ef_output_types f), f).
Definition fizzy_find_exported_function (instance : nat) (name : bytes) : M (Store hostfn) (option (FizzyFunctionType * ExternalFunction hostfn)) :=
  exported (fun self i => find_exported_function self i name) wrap_external_function instance.
Definition fizzy_find_exported_table (instance : nat) (name : bytes) : M (Store hostfn) (option FizzyExternalTable) :=
  exported (fun _ i => ret (find_exported_table i name)) wrap_external_table instance.
Definition fizzy_find_exported_memory (instance : nat) (name : bytes) : M (Store hostfn) (option FizzyExternalMemory) :=
  exported (fun _ i => find_exported_memory i name) wrap_external_memory instance.
Definition fizzy_find_exported_global (instance : nat) (name : bytes) : M (Store hostfn) (option FizzyExternalGlobal) :=
  exported (fun _ i => find_exported_global i name) wrap_external_global instance.

(** The memory of an instance, none when [fizzy_get_instance_memory_data]
    returns null. *)
Definition instance_memory (instance : nat) (s : Store hostfn) : option bytes :=
  (s_instances s !! instance ≫= i_memory) ≫= (fun a => s_memories s !! a).
Definition fizzy_get_instance_memory_size (instance : nat) (s : Store hostfn) : Z := zlen (default [] (instance_memory instance s)).
Definition fizzy_get_instance_module (instance : nat) (s : Store hostfn) : option Module_ := i_module <$> s_instances s !! instance.

(** ** Execution *)

Definition fizzy_create_execution_context (depth : Z) : ExecutionContext :=
  MkExecutionContext depth (ctx_ticks default_context) (ctx_metering_enabled default_context).
Definition fizzy_create_metered_execution_context (depth ticks : Z) : ExecutionContext := MkExecutionContext depth ticks true.

(** With a null context the ticks and the depth of the caller are not touched. *)
Definition fizzy_execute (fuel : nat) (instance : nat) (func_idx : Z) (args : option (list Z)) (with_context : bool) (w : World hostfn)
  : run hostfn FizzyExecutionResult :=
  run_bind (if with_context then execute_in fuel instance func_idx args w else execute_plain fuel instance func_idx args w)
    (fun r w => Done (wrap_result r) w).

(** The function behind an exported function: it runs in the instance it
    belongs to, in a new context when it gets none. *)
Definition call_exported (fuel : nat) (f : ExternalFunction hostfn) (caller : nat) (args : option (list Z)) (with_context : bool) (w : World hostfn)
  : run hostfn FizzyExecutionResult :=
  let w' := if with_context then w else MkWorld (w_store w) default_context in
  let restore (r : ExecutionResult) (w2 : World hostfn) :=
    Done (wrap_result r) (if with_context then w2 else MkWorld (w_store w2) (w_ctx w)) in
  match ef_function f with
  | WasmFunction j idx => run_bind (execute_in fuel j idx args w') restore
  | HostFunction h => CallHost h caller args w' (fun r w2 => restore r w2)
  end.
End instances.
Arguments FizzyExternalFunction : clear implicits.
Arguments FizzyImportedFunction : clear implicits.

(** ** Errors and messages *)

Lemma c_string_length b : (length (c_string b) <= length b)%nat.
Proof. induction b as [|c b IH]; [done|]. cbn. destruct (c =? 0); cbn; lia. Qed.

Lemma c_string_prefix b : exists rest, b = c_string b ++ rest.
Proof. induction b as [|c b [rest IH]]; [by exists []|]. cbn. destruct (c =? 0); [by exists (c :: b)|]. exists rest. by rewrite IH at 1. Qed.

Lemma c_string_nonzero b : Forall (fun c => c <> 0) (c_string b).
Proof. induction b as [|c b IH]; cbn; [constructor|]. destruct (c =? 0) eqn:E; [constructor|]. bool_to_prop. by constructor. Qed.

Lemma c_string_app l rest : Forall (fun c => c <> 0) l -> c_string (l ++ 0 :: rest) = l.
Proof. induction 1 as [|c l Hc Hl IH]; [done|]. cbn. rewrite (proj2 (Z.eqb_neq _ _)), IH; done. Qed.

(** What ends up in the buffer: the message, or its beginning and three dots. *)
Definition shortened (n : nat) (src : bytes) : bytes :=
  if (length src <? n)%nat then src else take (n - 4) src ++ [dot; dot; dot].

Lemma insert_at {A} (l1 l2 : list A) (x y : A) n : n = length l1 -> <[n := y]> (l1 ++ x :: l2) = l1 ++ y :: l2.
Proof. intros ->. rewrite insert_app_r_alt, Nat.sub_diag by lia. done. Qed.

(** Three dots over the last characters that fit. *)
Lemma three_dots (l rest : bytes) n :
  length l = n -> (3 <= n)%nat ->
  <[(n - 1)%nat := dot]> (<[(n - 2)%nat := dot]> (<[(n - 3)%nat := dot]> (l ++ rest))) = take (n - 3) l ++ [dot; dot; dot] ++ rest.
Proof.
  intros Hl Hn. rewrite <- (take_drop (n - 3) l) at 1. destruct (drop (n - 3) l) as [|a [|b [|c [|d l']]]] eqn:E;
    apply (f_equal length) in E; rewrite length_drop in E; cbn in E; try lia.
  assert (length (take (n - 3) l) = n - 3)%nat as Ht by (rewrite length_take; lia). rewrite <- !app_assoc. cbn [app].
  rewrite (insert_at (take (n - 3) l) (b :: c :: rest) a dot) by done.
  rewrite (cons_middle dot), app_assoc, (insert_at (take (n - 3) l ++ [dot]) (c :: rest) b dot) by (rewrite length_app; cbn; lia).
  rewrite (cons_middle dot (take (n - 3) l ++ [dot])), (app_assoc (take (n - 3) l ++ [dot])).
  rewrite (insert_at ((take (n - 3) l ++ [dot]) ++ [dot]) rest c dot) by (rewrite !length_app; cbn; lia). by rewrite <- !app_assoc.
Qed.

(** The copy stays in the buffer, ends with a zero and holds the message or its
    beginning with three dots; the answer is its length. *)
Lemma truncating_strlcpy_spec dest src :
  (4 <= length dest)%nat ->
  let r := truncating_strlcpy dest src in
  length (fst r) = length dest /\ c_string (fst r) = shortened (length dest) (c_string src) /\ snd r = length (c_string (fst r)).
Proof.
  intros HN. cbv zeta. unfold truncating_strlcpy. cbv zeta. set (n := length (c_string src)). set (k := (n `min` (length dest - 1))%nat).
  destruct (c_string_prefix src) as [rest Hrest]. assert (take k src = take k (c_string src)) as Hsrc.
  { rewrite Hrest at 1. rewrite take_app_le by (unfold k, n; lia). done. }
  rewrite Hsrc. destruct (drop k dest) as [|x d] eqn:Ed; [apply (f_equal length) in Ed; rewrite length_drop in Ed; cbn in Ed; unfold k in Ed; lia|].
  assert (length (x :: d) = length dest - k)%nat as Hd by (rewrite <- Ed, length_drop; done). cbn in Hd.
  assert (length (take k (c_string src)) = k) as Hk by (rewrite length_take; unfold k, n; lia).
  pose proof (c_string_nonzero src) as Hnz. unfold shortened. fold n. destruct (k <? n)%nat eqn:E; bool_to_prop.
  - apply Nat.ltb_lt in E. assert (k = length dest - 1)%nat as Ek by (unfold k in *; lia). rewrite (proj2 (Nat.ltb_ge _ _)) by lia.
    rewrite three_dots by lia. rewrite take_take. replace ((k - 3) `min` k)%nat with (k - 3)%nat by lia. rewrite app_assoc.
    assert (length (take (k - 3) (c_string src) ++ [dot; dot; dot]) = k) as Hk' by (rewrite length_app, length_take; cbn; unfold n in *; lia).
    cbn [fst snd]. rewrite (insert_at _ d x 0) by done. rewrite c_string_app.
    + split; [rewrite length_app, Hk'; cbn; lia|]. replace (length dest - 4)%nat with (k - 3)%nat by lia. done.
    + apply Forall_app. split; [by apply Forall_take|]. by repeat constructor.
  - apply Nat.ltb_ge in E. assert (k = n) as Ek by (unfold k in *; lia). rewrite (proj2 (Nat.ltb_lt _ _)) by (unfold k in *; lia).
    cbn [fst snd]. rewrite (insert_at _ d x 0) by done. rewrite Ek in *. unfold n. rewrite firstn_all, c_string_app by done.
    split; [rewrite length_app; fold n; cbn; lia|done].
Qed.

(** ** What goes through the interface and back *)

Lemma limits_round_trip l : unwrap_limits (wrap_limits l) = l.
Proof. by destruct l as [min [max|]]. Qed.

Lemma result_round_trip r : unwrap_result (wrap_result r) = r.
Proof. by destruct r. Qed.

Lemma global_type_round_trip t : unwrap_global_type (wrap_global_type t) = t.
Proof. by destruct t. Qed.

(** Every failure has its code, and the message a reader finds in the buffer. *)
Definition code_of (e : exn) : FizzyErrorCode :=
  match e with
  | parser_error _ => FizzyErrorMalformedModule
  | validation_error _ => FizzyErrorInvalidModule
  | instantiate_error _ => FizzyErrorInstantiationFailed
  | bad_alloc => FizzyErrorMemoryAllocationFailed
  | runtime_error _ | bad_access _ => FizzyErrorOther
  end.

Definition text_of (e : exn) : bytes :=
  match e with
  | parser_error what | validation_error what | instantiate_error what | runtime_error what | bad_access what => c_string (str_bytes what ++ [0])
  | bad_alloc => str_bytes "memory allocation failed"
  end.

(** Every exception that reaches the C interface is reported: the error gets the
    code of its kind and its 256-byte buffer keeps its size and holds a
    terminated string, the message itself, or, when it does not fit, its first
    252 characters and three dots. *)
Theorem error_reported e error :
  length (e_message error) = error_message_size ->
  exists error', set_error_from_current_exception e (Some error) = Some error' /\ e_code error' = code_of e /\
    length (e_message error') = error_message_size /\ c_string (e_message error') = shortened error_message_size (text_of e).
Proof.
  intros Hl. unfold set_error_from_current_exception, set_error_code_and_message.
  assert (forall src, let d := fst (truncating_strlcpy (e_message error) src) in
    length d = error_message_size /\ c_string d = shortened error_message_size (c_string src)) as Hs.
  { intros src. destruct (truncating_strlcpy_spec (e_message error) src) as (H1 & H2 & _); [rewrite Hl; unfold error_message_size; lia|].
    rewrite Hl in *. done. }
  destruct e; cbn [fmap option_fmap option_map]; (eexists; split; [done|]; split; [done|]; cbn [e_message]); apply Hs.
Qed.

Lemma error_reported_witness :
  let error := MkFizzyError FizzySuccess (replicate error_message_size 7) in
  length (e_message error) = error_message_size /\
  exists error', set_error_from_current_exception (parser_error "unexpected EOF") (Some error) = Some error' /\
    e_code error' = FizzyErrorMalformedModule /\ length (e_message error') = error_message_size /\
    c_string (e_message error') = shortened error_message_size (text_of (parser_error "unexpected EOF")).
Proof. split; [reflexivity|]. apply (error_reported (parser_error "unexpected EOF")). reflexivity. Defined.
