(* ===== verification/Protocol.v ===== *)
(** * Protocol data

    [protocol/account.{hpp,cpp}], [operation], [program], [transaction],
    [block]: accounts and their views, operations, transactions and blocks with
    their sizes, identifiers and validity checks. *)

From stdpp Require Import base list option numbers strings.
From S2P Require Import Prelude Memory Crypto.

(** ** Accounts: one prefix byte and a public key *)

Abbreviation account := bytes.

Definition account_length : nat := public_key_length + 1.

Inductive account_type := user | program | native_program | invalid.

#[export] Instance account_type_eq_dec : EqDecision account_type.
Proof. solve_decision. Defined.

(** [std::to_underlying] *)
Definition account_type_value (t : account_type) : Z :=
  match t with user => 0 | program => 1 | native_program => 2 | invalid => 3 end.

Definition user_account_prefix : Z := account_type_value user.
Definition program_account_prefix : Z := account_type_value program.
Definition native_program_account_prefix : Z := account_type_value native_program.

Definition account_prefix_to_type (prefix : Z) : account_type :=
  if prefix =? account_type_value user then user
  else if prefix =? account_type_value program then program
  else if prefix =? account_type_value native_program then native_program
  else invalid.

(** [at( 0 )] *)
Definition prefix_of (a : account) : Z := default 0 (head a).

(** [account::operator crypto::public_key] *)
Definition account_public_key (a : account) : bytes := drop 1 a.

Definition account_user (a : account) : bool := prefix_of a =? user_account_prefix.

(** [account::program]: the prefix byte is not zero. *)
Definition account_program (a : account) : bool := negb (prefix_of a =? 0).

Definition account_get_type (a : account) : account_type := account_prefix_to_type (prefix_of a).

(** [account_view::program]: the prefix byte has the low bit set. *)
Definition account_view_program (a : account) : bool :=
  negb (Z.land (prefix_of a) program_account_prefix =? 0).

Definition with_prefix (p : Z) (a : account) : account :=
  match a with _ :: k => p :: k | [] => [] end.

(** [user_account( const account& )], [program_account( const account& )] *)
Definition user_account (a : account) : account := with_prefix user_account_prefix a.
Definition program_account (a : account) : account := with_prefix program_account_prefix a.

(** [user_account( const crypto::public_key& )], [program_account( ... )] *)
Definition user_account_of_key (k : bytes) : account := user_account_prefix :: k.
Definition program_account_of_key (k : bytes) : account := program_account_prefix :: k.

(** [system_program]: the name, cut to the 32 bytes after the prefix. *)
Definition system_program (str : bytes) : account :=
  let length := Nat.min (length str) (account_length - 1) in
  native_program_account_prefix
    :: take length str ++ zero_bytes (account_length - 1 - length).

(** ** Operations *)

Record program_input := ProgramInput {
  arguments : list bytes;
  stdin : bytes
}.

Inductive operation :=
| upload_program (id : account) (bytecode : bytes)
| call_program (id : account) (input : program_input).

(** [upload_program::size], [call_program::size] *)
Definition operation_size (o : operation) : Z :=
  match o with
  | upload_program id bytecode => zlen id + zlen bytecode
  | call_program id input =>
      fold_left (fun n a => n + zlen a) (arguments input) (zlen id) + zlen (stdin input)
  end.

(** [upload_program::validate], [call_program::validate] *)
Definition operation_validate (o : operation) : bool :=
  match o with
  | upload_program id _ => account_program id
  | call_program id _ => account_program id
  end.

(** ** Transactions *)

Record authorization := Authorization {
  auth_signer : account;
  auth_signature : bytes
}.

(** [authorization::size] *)
Definition authorization_size (a : authorization) : Z :=
  zlen (auth_signer a) + zlen (auth_signature a).

Record transaction := Transaction {
  tx_id : digest;
  tx_network_id : digest;
  tx_resource_limit : Z;
  tx_payer : account;
  tx_payee : account;
  tx_nonce : Z;
  tx_operations : list operation;
  tx_authorizations : list authorization
}.

(** [transaction::size]: of the authorizations it adds the number. *)
Definition transaction_size (t : transaction) : Z :=
  let n := zlen (tx_id t) + zlen (tx_network_id t) + 8 + zlen (tx_payer t) + zlen (tx_payee t) + 8 in
  fold_left (fun n o => n + operation_size o) (tx_operations t) n + zlen (tx_authorizations t).

(** ** Programs: frames *)

Record program_frame := ProgramFrame {
  pf_arguments : list bytes;
  pf_stdin : bytes;
  pf_code : Z;
  pf_stdout : bytes;
  pf_stderr : bytes;
  pf_id : account;
  pf_depth : Z
}.

(** The [program_output] part of a frame. *)
Record program_output := ProgramOutput {
  po_code : Z;
  po_stdout : bytes;
  po_stderr : bytes
}.

Definition frame_output (f : program_frame) : program_output :=
  ProgramOutput (pf_code f) (pf_stdout f) (pf_stderr f).

Record transaction_receipt := TransactionReceipt {
  tr_id : digest;
  tr_reverted : bool;
  tr_payer : account;
  tr_payee : account;
  tr_frames : list program_frame;
  tr_resource_limit : Z;
  tr_resource_used : Z;
  tr_disk_storage_used : Z;
  tr_network_bandwidth_used : Z;
  tr_compute_bandwidth_used : Z
}.

(** ** Blocks *)

Record block := Block {
  b_id : digest;
  b_previous : digest;
  b_height : Z;
  b_timestamp : Z;
  b_state_merkle_root : digest;
  b_transactions : list transaction;
  b_signer : account;
  b_signature : bytes
}.

Record block_receipt := BlockReceipt {
  br_id : digest;
  br_height : Z;
  br_frames : list program_frame;
  br_disk_storage_used : Z;
  br_network_bandwidth_used : Z;
  br_compute_bandwidth_used : Z;
  br_state_merkle_root : digest;
  br_transaction_receipts : list transaction_receipt;
  br_disk_storage_charged : Z;
  br_network_bandwidth_charged : Z;
  br_compute_bandwidth_charged : Z
}.

(** [block::size] *)
Definition block_size (b : block) : Z :=
  let n := zlen (b_id b) + zlen (b_previous b) + 8 + 8 + zlen (b_state_merkle_root b) in
  fold_left (fun n t => n + transaction_size t) (b_transactions b) n
  + zlen (b_signer b) + zlen (b_signature b).

(** ** Identifiers and validity *)

Section ids.
Context `{Blake3} `{Signatures}.

(** [hasher_update] of a [std::uint64_t]. *)
Definition update_u64 (h : hasher) (z : Z) : hasher := hasher_update h (le_bytes 8 z).

(** [hasher_update] of an operation's fields: strings and vectors are absorbed
    byte after byte, with nothing in between. *)
Definition update_operation (h : hasher) (o : operation) : hasher :=
  match o with
  | upload_program id bytecode => hasher_update (hasher_update h id) bytecode
  | call_program id input =>
      hasher_update
        (fold_left hasher_update (arguments input) (hasher_update h id))
        (stdin input)
  end.

(** [make_id( const transaction& )] *)
Definition make_transaction_id (t : transaction) : digest :=
  let h := hasher_reset in
  let h := hasher_update h (tx_network_id t) in
  let h := update_u64 h (tx_resource_limit t) in
  let h := hasher_update h (tx_payer t) in
  let h := hasher_update h (tx_payee t) in
  let h := update_u64 h (tx_nonce t) in
  let h := fold_left update_operation (tx_operations t) h in
  hasher_finalize h.

(** [transaction::validate] *)
Definition transaction_validate (t : transaction) : bool :=
  if tx_resource_limit t =? 0 then false
  else if negb (bytes_eqb (make_transaction_id t) (tx_id t)) then false
  else forallb operation_validate (tx_operations t).

(** The part of a block's identifier a transaction contributes. *)
Definition update_transaction (h : hasher) (t : transaction) : hasher :=
  fold_left (fun h a => hasher_update h (auth_signer a)) (tx_authorizations t)
    (hasher_update h (tx_id t)).

(** [make_id( const block& )] *)
Definition make_block_id (b : block) : digest :=
  let h := hasher_reset in
  let h := hasher_update h (b_previous b) in
  let h := update_u64 h (b_height b) in
  let h := update_u64 h (b_timestamp b) in
  let h := hasher_update h (b_state_merkle_root b) in
  let h := fold_left update_transaction (b_transactions b) h in
  let h := hasher_update h (b_signer b) in
  hasher_finalize h.

(** [block::validate] *)
Definition block_validate (b : block) : bool :=
  if (b_height b =? 0) || (b_timestamp b =? 0) then false
  else if negb (bytes_eqb (make_block_id b) (b_id b)) then false
  else if negb (account_user (b_signer b)) then false
  else if negb (verify (account_public_key (b_signer b)) (b_signature b) (b_id b)) then false
  else forallb transaction_validate (b_transactions b).
End ids.

(** ** Properties *)

(** [account::program] and [account_view::program] answer differently for a
    native program: the prefix is not zero, its low bit is not set. *)
Theorem native_program_views_disagree name :
  account_program (system_program name) = true /\
  account_view_program (system_program name) = false.
Proof. done. Qed.

Lemma system_program_length name : length (system_program name) = account_length.
Proof.
  unfold system_program. cbn [length]. rewrite length_app, length_take.
  unfold zero_bytes. rewrite length_replicate. unfold account_length, public_key_length. lia.
Qed.

(** The account constructors agree with the account queries. *)
Theorem account_kinds a name :
  length a = account_length ->
  account_get_type (user_account a) = user /\ account_user (user_account a) = true /\
  account_get_type (program_account a) = program /\ account_program (program_account a) = true /\
  account_view_program (program_account a) = true /\
  account_get_type (system_program name) = native_program /\
  account_public_key (user_account a) = account_public_key a /\
  account_public_key (program_account a) = account_public_key a /\
  length (user_account a) = account_length /\ length (program_account a) = account_length /\
  length (system_program name) = account_length.
Proof.
  intros Ha. pose proof (system_program_length name). destruct a as [|x a]; [done|]. naive_solver.
Qed.

Lemma account_kinds_witness :
  length (zero_bytes 33) = account_length /\
  account_get_type (user_account (zero_bytes 33)) = user.
Proof.
  split; [reflexivity|]. exact (proj1 (account_kinds (zero_bytes 33) [] eq_refl)).
Defined.

Section id_proofs.
Context `{Blake3} `{Signatures}.

(** The bytes an operation contributes to the identifier. *)
Definition operation_preimage (o : operation) : bytes :=
  match o with
  | upload_program id bytecode => id ++ bytecode
  | call_program id input => id ++ concat (arguments input) ++ stdin input
  end.

Definition transaction_preimage (t : transaction) : bytes :=
  tx_network_id t ++ le_bytes 8 (tx_resource_limit t) ++ tx_payer t ++ tx_payee t ++
  le_bytes 8 (tx_nonce t) ++ concat (map operation_preimage (tx_operations t)).

Lemma fold_operations ops h :
  fold_left update_operation ops h = h ++ concat (map operation_preimage ops).
Proof.
  revert h; induction ops as [|o ops IH]; intros h; simpl; [by rewrite app_nil_r|].
  rewrite IH, app_assoc. f_equal. destruct o as [id bc|id inp]; simpl; unfold hasher_update.
  - by rewrite <- app_assoc.
  - rewrite fold_update_app. by rewrite <- !app_assoc.
Qed.

Lemma make_transaction_id_preimage t :
  make_transaction_id t = blake3 (transaction_preimage t).
Proof.
  unfold make_transaction_id, transaction_preimage, hasher_finalize. f_equal.
  rewrite fold_operations. unfold update_u64, hasher_update, hasher_reset.
  rewrite app_nil_l. by rewrite <- !app_assoc.
Qed.

(** Field sizes of a transaction as the C++ types fix them. *)
Definition transaction_sized (t : transaction) : Prop :=
  length (tx_network_id t) = digest_length /\ length (tx_payer t) = account_length /\
  length (tx_payee t) = account_length /\ u64_ok (tx_resource_limit t) /\ u64_ok (tx_nonce t).

Lemma le_bytes8_inj a b : u64_ok a -> u64_ok b -> le_bytes 8 a = le_bytes 8 b -> a = b.
Proof.
  intros Ha Hb Heq. apply (f_equal le_val) in Heq. rewrite !le_val_bytes in Heq.
  change (8 * Z.of_nat 8) with 64 in Heq. unfold u64_ok in *. rewrite !Z.mod_small in Heq; lia.
Qed.

(** C38. The identifier binds the payer, the payee, the nonce, the limit and the
    network: equal identifiers mean equal fields, or the two messages that
    were hashed collide. *)
Theorem transaction_id_binds_header t t' :
  transaction_sized t -> transaction_sized t' ->
  make_transaction_id t = make_transaction_id t' ->
  (tx_network_id t = tx_network_id t' /\ tx_resource_limit t = tx_resource_limit t' /\
   tx_payer t = tx_payer t' /\ tx_payee t = tx_payee t' /\ tx_nonce t = tx_nonce t' /\
   concat (map operation_preimage (tx_operations t))
   = concat (map operation_preimage (tx_operations t')))
  \/ collision_in [transaction_preimage t] [transaction_preimage t'].
Proof.
  intros (Hn & Hp & Hq & Hr & Hc) (Hn' & Hp' & Hq' & Hr' & Hc').
  rewrite !make_transaction_id_preimage. intros Heq.
  apply collision_in_single in Heq as [E|Hcol]; [left|by right].
  unfold transaction_preimage in E.
  apply app_inj_1 in E as [E1 E]; [|congruence].
  apply app_inj_1 in E as [E2 E]; [|by rewrite !length_le_bytes].
  apply app_inj_1 in E as [E3 E]; [|congruence].
  apply app_inj_1 in E as [E4 E]; [|congruence].
  apply app_inj_1 in E as [E5 E]; [|by rewrite !length_le_bytes].
  apply le_bytes8_inj in E2, E5; auto. done.
Qed.

(** The operations are not bound: bytes can move between the arguments and the
    standard input of a call (the signed identifier stays the same). *)
Theorem transaction_id_operation_malleable n r p q c id a s auths :
  let t x := Transaction [] n r p q c [call_program id x] auths in
  make_transaction_id (t (ProgramInput [a ++ s] [])) =
  make_transaction_id (t (ProgramInput [a] s)) /\
  transaction_validate (t (ProgramInput [a ++ s] [])) =
  transaction_validate (t (ProgramInput [a] s)).
Proof.
  assert (make_transaction_id (Transaction [] n r p q c [call_program id (ProgramInput [a ++ s] [])] auths)
    = make_transaction_id (Transaction [] n r p q c [call_program id (ProgramInput [a] s)] auths)) as E.
  { rewrite !make_transaction_id_preimage. unfold transaction_preimage. simpl.
    by rewrite !app_nil_r. }
  cbv zeta. split; [exact E|]. unfold transaction_validate.
  cbn [tx_resource_limit tx_id tx_operations]. by rewrite E.
Qed.

(** [transaction::size] counts an authorization as one byte, not as the 97
    bytes of [authorization::size]. *)
Theorem transaction_size_authorizations t a :
  length (auth_signer a) = account_length -> length (auth_signature a) = signature_length ->
  authorization_size a = 97 /\
  transaction_size (Transaction (tx_id t) (tx_network_id t) (tx_resource_limit t) (tx_payer t)
    (tx_payee t) (tx_nonce t) (tx_operations t) (a :: tx_authorizations t))
  = transaction_size t + 1.
Proof.
  intros H1 H2. split.
  - unfold authorization_size, zlen. by rewrite H1, H2.
  - unfold transaction_size. cbn [tx_id tx_network_id tx_resource_limit tx_payer tx_payee
      tx_nonce tx_operations tx_authorizations]. rewrite zlen_cons. lia.
Qed.

(** A block that validates names its own hash, is signed by a user account
    over that hash, and holds only valid transactions. *)
Theorem block_validate_spec b :
  block_validate b = true <->
  b_height b <> 0 /\ b_timestamp b <> 0 /\ make_block_id b = b_id b /\
  account_get_type (b_signer b) = user /\
  verify (account_public_key (b_signer b)) (b_signature b) (b_id b) = true /\
  Forall (fun t => tx_resource_limit t <> 0 /\ make_transaction_id t = tx_id t /\
                   Forall (fun o => operation_validate o = true) (tx_operations t))
         (b_transactions b).
Proof.
  unfold block_validate.
  assert (forall t, transaction_validate t = true <->
    tx_resource_limit t <> 0 /\ make_transaction_id t = tx_id t /\
    Forall (fun o => operation_validate o = true) (tx_operations t)) as Ht.
  { intros t. unfold transaction_validate.
    destruct (Z.eqb_spec (tx_resource_limit t) 0); [naive_solver|].
    destruct (bytes_eqb _ _) eqn:E; bool_to_prop; simpl; [|naive_solver].
    rewrite forallb_forall, List.Forall_forall. naive_solver. }
  assert (account_get_type (b_signer b) = user <-> account_user (b_signer b) = true) as ->.
  { unfold account_get_type, account_user, account_prefix_to_type, user_account_prefix.
    destruct (prefix_of (b_signer b) =? account_type_value user); [done|].
    split; [|done]. by repeat case_bool. }
  destruct (Z.eqb_spec (b_height b) 0); [naive_solver|].
  destruct (Z.eqb_spec (b_timestamp b) 0); [naive_solver|]. simpl.
  destruct (bytes_eqb _ _) eqn:E; bool_to_prop; simpl; [|naive_solver].
  destruct (account_user _); simpl; [|naive_solver].
  destruct (verify _ _ _); simpl; [|naive_solver].
  rewrite forallb_forall, List.Forall_forall. setoid_rewrite Ht. naive_solver.
Qed.
End id_proofs.

(** ** Concrete transactions *)

#[local] Existing Instance toy_hash.

Definition demo_transaction (input : program_input) : transaction :=
  Transaction zero_digest zero_digest 1000 (user_account_of_key (zero_bytes 32)) (zero_bytes 33) 1
    [call_program (system_program (str_bytes "coin")) input] [].

Lemma transaction_id_binds_header_witness :
  let t := demo_transaction (ProgramInput [[1; 2]] []) in
  let t' := demo_transaction (ProgramInput [[1]] [2]) in
  make_transaction_id t = make_transaction_id t' /\
  ((tx_network_id t = tx_network_id t' /\ tx_resource_limit t = tx_resource_limit t' /\
    tx_payer t = tx_payer t' /\ tx_payee t = tx_payee t' /\ tx_nonce t = tx_nonce t' /\
    concat (map operation_preimage (tx_operations t)) = concat (map operation_preimage (tx_operations t')))
   \/ collision_in [transaction_preimage t] [transaction_preimage t']).
Proof.
  cbv zeta. split; [reflexivity|].
  apply transaction_id_binds_header; [..|reflexivity];
    (repeat split; try reflexivity; unfold u64_ok; simpl; lia).
Defined.

Lemma transaction_size_authorizations_witness :
  let t := demo_transaction (ProgramInput [] []) in
  let a := Authorization (zero_bytes 33) (zero_bytes 64) in
  authorization_size a = 97 /\
  transaction_size (Transaction (tx_id t) (tx_network_id t) (tx_resource_limit t) (tx_payer t)
    (tx_payee t) (tx_nonce t) (tx_operations t) (a :: tx_authorizations t)) = transaction_size t + 1.
Proof. cbv zeta. exact (transaction_size_authorizations _ (Authorization (zero_bytes 33) (zero_bytes 64)) eq_refl eq_refl). Defined.
