(* ===== verification/Backend.v ===== *)
(** * State backends

    [state_db/backends]: the metadata of [abstract_backend], the in-memory
    [map_backend] with its iterators, and the interface the state deltas rely
    on. A backend reports, for every write, by how many bytes its contents
    grew. *)

From stdpp Require Import base list option numbers strings.
From Stdlib Require Import Sorting.Sorted.
From S2P Require Import Prelude OrdMap Crypto.

(** [state_db::null_id] *)
Definition state_node_id_size : nat := 32.
Definition null_id : bytes := zero_bytes state_node_id_size.

Abbreviation entries := (list (bytes * bytes)).

(** ** abstract_backend and map_backend *)

Record backend := Backend {
  bk_map : entries;
  bk_id : bytes;
  bk_revision : Z;
  bk_merkle_root : digest
}.

(** [map_backend( id, revision )], [map_backend()] *)
Definition new_backend (id : bytes) (revision : Z) : backend :=
  Backend [] id revision zero_digest.
Definition default_backend : backend := new_backend null_id 0.

Definition set_map (m : entries) (b : backend) : backend :=
  Backend m (bk_id b) (bk_revision b) (bk_merkle_root b).
Definition set_revision (r : Z) (b : backend) : backend :=
  Backend (bk_map b) (bk_id b) r (bk_merkle_root b).
Definition set_id (id : bytes) (b : backend) : backend :=
  Backend (bk_map b) id (bk_revision b) (bk_merkle_root b).
Definition set_merkle_root (d : digest) (b : backend) : backend :=
  Backend (bk_map b) (bk_id b) (bk_revision b) d.

(** [map_backend::put]: the change in size and the new contents. *)
Definition backend_put (key value : bytes) (b : backend) : Z * backend :=
  let size := zlen value in
  let size := match om_lower_bound key (bk_map b) with
              | (k, v) :: _ => if bytes_eqb key k then size - zlen v else size + zlen key
              | [] => size + zlen key
              end in
  (size, set_map (om_insert key value (bk_map b)) b).

(** [map_backend::get] *)
Definition backend_get (key : bytes) (b : backend) : option bytes := om_lookup key (bk_map b).

(** [map_backend::remove] *)
Definition backend_remove (key : bytes) (b : backend) : Z * backend :=
  match om_lookup key (bk_map b) with
  | Some v => (0 - (zlen key + zlen v), set_map (om_delete key (bk_map b)) b)
  | None => (0, b)
  end.

(** [map_backend::clear], [size], [empty] *)
Definition backend_clear (b : backend) : backend := set_map [] b.
Definition backend_size (b : backend) : Z := zlen (bk_map b).
Definition backend_empty (b : backend) : bool := backend_size b =? 0.

(** [start_write_batch], [end_write_batch], [store_metadata] do nothing in
    memory; [clone] copies the whole object. *)
Definition start_write_batch (b : backend) : backend := b.
Definition end_write_batch (b : backend) : backend := b.
Definition store_metadata (b : backend) : backend := b.
Definition backend_clone (b : backend) : backend := b.

(** ** Iterators

    [map_iterator] holds a [std::map] iterator behind a pointer that [release]
    resets. *)

Inductive map_iterator := it_null | it_end | it_at (key : bytes).

Definition map_begin (m : entries) : map_iterator :=
  match m with (k, _) :: _ => it_at k | [] => it_end end.
Definition map_end (m : entries) : map_iterator := it_end.

(** [map_iterator::valid] *)
Definition it_valid (it : map_iterator) : bool :=
  match it with it_at _ => true | _ => false end.

Definition invalid_iterator {S A} : M S A := throw (runtime_error "iterator operation is invalid").

(** [map_iterator::operator*] *)
Definition it_deref {S} (m : entries) (it : map_iterator) : M S (bytes * bytes) :=
  match it with
  | it_at k => match om_lookup k m with Some v => ret (k, v) | None => fail use_after_free end
  | _ => invalid_iterator
  end.

(** [map_iterator::release]: takes the entry out of the map. *)
Definition it_release {S} (m : entries) (it : map_iterator)
  : M S (bytes * bytes * entries * map_iterator) :=
  match it with
  | it_at k => match om_lookup k m with
               | Some v => ret (k, v, om_delete k m, it_null)
               | None => fail use_after_free
               end
  | _ => invalid_iterator
  end.

(** The key after [k] and the key before [k] in the map. *)
Fixpoint key_after (k : bytes) (m : entries) : option bytes :=
  match m with
  | [] => None
  | (k', _) :: m' => if bytes_ltb k k' then Some k' else key_after k m'
  end.
Fixpoint key_before (k : bytes) (m : entries) (acc : option bytes) : option bytes :=
  match m with
  | [] => acc
  | (k', _) :: m' => if bytes_ltb k' k then key_before k m' (Some k') else acc
  end.

(** [map_iterator::operator++], [operator--] *)
Definition it_next {S} (m : entries) (it : map_iterator) : M S map_iterator :=
  match it with
  | it_at k => ret (match key_after k m with Some k' => it_at k' | None => it_end end)
  | _ => invalid_iterator
  end.
Definition it_prev {S} (m : entries) (it : map_iterator) : M S map_iterator :=
  match it with
  | it_null => fail null_dereference
  | it_end => match last m with Some (k, _) => ret (it_at k) | None => invalid_iterator end
  | it_at k => match key_before k m None with
               | Some k' => ret (it_at k')
               | None => invalid_iterator
               end
  end.

(** [operator==( iterator, iterator )] *)
Definition it_eqb (x y : map_iterator) : bool :=
  match x, y with
  | it_at k, it_at k' => bytes_eqb k k'
  | _, _ => Bool.eqb (it_valid x) (it_valid y)
  end.

(** The draining loop [for( itr = begin(); itr != end(); itr = begin() )] whose
    body releases the entry and hands it to [f]. *)
Fixpoint drain {X} (fuel : nat) (m : entries) (f : bytes -> bytes -> X -> X) (x : X) : entries * X :=
  match fuel with
  | O => (m, x)
  | S fuel =>
      if it_eqb (map_begin m) (map_end m) then (m, x)
      else match it_release (S := unit) m (map_begin m) tt with
           | Ret (k, v, m', _) _ => drain fuel m' f (f k v x)
           | _ => (m, x)
           end
  end.

(** ** Laws *)

(** The bytes held: keys and values. *)
Definition total_size (m : entries) : Z := foldr (fun p n => zlen p.1 + zlen p.2 + n) 0 m.

Definition backend_wf (b : backend) : Prop := om_wf (bk_map b).

Lemma total_size_insert k v m :
  om_wf m ->
  total_size (om_insert k v m) =
  total_size m + match om_lookup k m with Some v' => zlen v - zlen v' | None => zlen k + zlen v end.
Proof.
  induction m as [|[k1 v1] m IH]; intros Hwf; simpl; [lia|].
  destruct (bytes_cmp k k1) eqn:E.
  - apply bytes_cmp_eq in E as ->. rewrite bytes_eqb_refl. simpl. lia.
  - rewrite (om_lower_bound_lookup k m) by (by eapply om_wf_tail).
    rewrite (proj2 (bytes_eqb_neq k k1)) by (by apply bytes_lt_ne).
    assert (om_lookup k m = None) as Hn.
    { destruct (om_lookup k m) as [w|] eqn:El; [|done]. apply om_lookup_elem in El.
      unfold om_wf in Hwf. simpl in Hwf. apply StronglySorted_inv in Hwf as [_ Hall].
      rewrite List.Forall_forall in Hall. exfalso. apply (bytes_lt_irrefl k).
      etrans; [exact E|]. apply Hall, list_elem_of_In, list_elem_of_fmap. by exists (k, w). }
    rewrite <- om_lower_bound_lookup by (by eapply om_wf_tail). rewrite Hn. simpl. lia.
  - apply bytes_cmp_gt in E.
    rewrite (proj2 (bytes_eqb_neq k k1)) by (intros ->; by eapply bytes_lt_irrefl).
    simpl. rewrite IH by (by eapply om_wf_tail). lia.
Qed.

Lemma total_size_delete k v m :
  om_wf m -> om_lookup k m = Some v ->
  total_size (om_delete k m) = total_size m - (zlen k + zlen v).
Proof.
  induction m as [|[k1 v1] m IH]; intros Hwf Hl; [done|]. simpl in *.
  destruct (bytes_eqb k k1) eqn:E; simpl.
  - bool_to_prop; subst. simplify_eq. fold (om_delete k1 m).
    rewrite om_delete_None by (by eapply om_head_not_in). lia.
  - fold (om_delete k m). rewrite IH; [lia|by eapply om_wf_tail|done].
Qed.

Lemma backend_put_spec k v b :
  backend_wf b ->
  let '(n, b') := backend_put k v b in
  n = total_size (bk_map b') - total_size (bk_map b) /\ backend_wf b' /\
  bk_map b' = om_insert k v (bk_map b) /\
  bk_id b' = bk_id b /\ bk_revision b' = bk_revision b /\ bk_merkle_root b' = bk_merkle_root b.
Proof.
  intros Hwf. unfold backend_put. simpl. rewrite total_size_insert by done.
  rewrite (om_lower_bound_lookup k (bk_map b)) by done.
  repeat split; [|by apply om_insert_wf].
  destruct (om_lower_bound k (bk_map b)) as [|[k' v'] ?]; [lia|].
  destruct (bytes_eqb k k'); lia.
Qed.

Lemma backend_remove_spec k b :
  backend_wf b ->
  let '(n, b') := backend_remove k b in
  n = total_size (bk_map b') - total_size (bk_map b) /\ backend_wf b' /\
  bk_map b' = om_delete k (bk_map b) /\
  bk_id b' = bk_id b /\ bk_revision b' = bk_revision b /\ bk_merkle_root b' = bk_merkle_root b.
Proof.
  intros Hwf. unfold backend_remove. destruct (om_lookup k (bk_map b)) as [w|] eqn:E; simpl.
  - rewrite (total_size_delete k w) by done. repeat split; [lia|by apply om_delete_wf].
  - rewrite om_delete_None by done. repeat split; [lia|done].
Qed.

(** A sequence of writes. *)
Inductive backend_op := op_put (k v : bytes) | op_remove (k : bytes).

Definition backend_run (b : backend) (o : backend_op) : Z * backend :=
  match o with op_put k v => backend_put k v b | op_remove k => backend_remove k b end.

Fixpoint backend_runs (b : backend) (os : list backend_op) : Z * backend :=
  match os with
  | [] => (0, b)
  | o :: os =>
      let '(n, b1) := backend_run b o in
      let '(n', b2) := backend_runs b1 os in (n + n', b2)
  end.

(** The contents after a sequence of writes, as a function of the key. *)
Fixpoint contents_after (f : bytes -> option bytes) (os : list backend_op) : bytes -> option bytes :=
  match os with
  | [] => f
  | op_put k v :: os => contents_after (fun x => if bytes_eqb x k then Some v else f x) os
  | op_remove k :: os => contents_after (fun x => if bytes_eqb x k then None else f x) os
  end.

Lemma contents_after_ext f g os x :
  (forall y, f y = g y) -> contents_after f os x = contents_after g os x.
Proof.
  revert f g; induction os as [|[k v|k] os IH]; intros f g Hfg; simpl; [done|..];
    apply IH; intros y; by rewrite Hfg.
Qed.

(** C31. [map_backend] implements a key-value store: after any sequence of writes
    every key reads as the last write left it, iteration stays in key order,
    and the sizes returned add up to the change in the bytes held. *)
Theorem map_backend_refines_store b os :
  backend_wf b ->
  let '(n, b') := backend_runs b os in
  backend_wf b' /\
  (forall k, backend_get k b' = contents_after (fun x => backend_get x b) os k) /\
  n = total_size (bk_map b') - total_size (bk_map b).
Proof.
  revert b; induction os as [|o os IH]; intros b Hwf; simpl; [repeat split; auto; lia|].
  assert (let '(n, b1) := backend_run b o in backend_wf b1 /\
          n = total_size (bk_map b1) - total_size (bk_map b) /\
          forall k, contents_after (fun x => backend_get x b1) os k =
                    contents_after (fun x => backend_get x b) (o :: os) k) as Hstep.
  { destruct o as [k v|k]; cbn [backend_run].
    - pose proof (backend_put_spec k v b Hwf). destruct (backend_put k v b) as [n b1].
      destruct H as (Hn & Hw & Hm & _). split; [exact Hw|]. split; [exact Hn|]. intros k'.
      cbn [contents_after]. apply contents_after_ext. intros y. unfold backend_get. by rewrite Hm, om_lookup_insert.
    - pose proof (backend_remove_spec k b Hwf). destruct (backend_remove k b) as [n b1].
      destruct H as (Hn & Hw & Hm & _). split; [exact Hw|]. split; [exact Hn|]. intros k'.
      cbn [contents_after]. apply contents_after_ext. intros y. unfold backend_get. by rewrite Hm, om_lookup_delete. }
  destruct (backend_run b o) as [n b1]. destruct Hstep as (Hw & Hn & Hc).
  specialize (IH b1 Hw). destruct (backend_runs b1 os) as [n' b2]. destruct IH as (Hw2 & Hg & Hn').
  split; [done|]. split; [|lia]. intros k. by rewrite Hg, Hc.
Qed.

Lemma map_backend_refines_store_witness :
  backend_wf default_backend /\
  (let '(n, b') := backend_runs default_backend [op_put [1] [2; 3]; op_put [0] [9]; op_remove [1]] in
   backend_wf b' /\
   (forall k, backend_get k b' =
      contents_after (fun x => backend_get x default_backend)
        [op_put [1] [2; 3]; op_put [0] [9]; op_remove [1]] k) /\
   n = total_size (bk_map b') - total_size (bk_map default_backend)).
Proof.
  split; [constructor|].
  exact (map_backend_refines_store default_backend
           [op_put [1] [2; 3]; op_put [0] [9]; op_remove [1]] om_wf_nil).
Defined.

(** The draining loop visits every entry once, in key order, and leaves the map
    empty. *)
Lemma drain_ok {X} fuel m (f : bytes -> bytes -> X -> X) x :
  om_wf m -> (length m <= fuel)%nat ->
  drain fuel m f x = ([], fold_left (fun x p => f p.1 p.2 x) m x).
Proof.
  revert m x; induction fuel as [|fuel IH]; intros m x Hwf Hf.
  { destruct m; [done|simpl in Hf; lia]. }
  destruct m as [|[k v] m]; [done|]. cbn [drain map_begin it_eqb it_valid map_end Bool.eqb].
  unfold it_release. cbn [om_lookup]. rewrite bytes_eqb_refl. unfold ret.
  assert (om_delete k ((k, v) :: m) = m) as ->.
  { unfold om_delete. simpl. rewrite bytes_eqb_refl. simpl. fold (om_delete k m).
    apply om_delete_None. by eapply om_head_not_in. }
  rewrite IH; [done|by eapply om_wf_tail|simpl in Hf; lia].
Qed.
