(* ===== verification/StateDelta.v ===== *)
(** * State deltas

    [state_db/state_delta.{hpp,cpp}]: a tree of positive deltas. A delta holds
    the objects written in it, the keys removed in it and a pointer to its
    parent; reading merges the deltas from the node to the root.

    [std::shared_ptr< state_delta >] is a pointer into a store that every node
    shares: writing through one pointer is seen by all holders of it. A backend
    is owned by one delta at a time ([commit] moves it), so it is kept inline;
    [None] is the null [_backend] that [commit] leaves behind. *)

From stdpp Require Import base gmap list option numbers strings.
From S2P Require Import Prelude OrdMap Crypto Backend.

Abbreviation ptr := nat.

Record state_delta := Delta {
  sd_parent : option ptr;
  sd_backend : option backend;
  sd_removed : oset;
  sd_merkle_root : option digest;
  sd_final : bool
}.

Record store := Store {
  st_next : ptr;
  st_deltas : gmap ptr state_delta
}.

Definition empty_store : store := Store 0 ∅.

(** ** The shared heap *)

Definition deref (p : ptr) : M store state_delta :=
  fun st => match st_deltas st !! p with Some d => Ret d st | None => Fault use_after_free end.

Definition store_set (p : ptr) (d : state_delta) (st : store) : store :=
  Store (st_next st) (<[p := d]> (st_deltas st)).

Definition write (p : ptr) (d : state_delta) : M store unit := modify (store_set p d).

(** [std::make_shared< state_delta >] *)
Definition alloc (d : state_delta) : M store ptr :=
  fun st => Ret (st_next st) (Store (S (st_next st)) (<[st_next st := d]> (st_deltas st))).

Definition with_backend (b : option backend) (d : state_delta) : state_delta :=
  Delta (sd_parent d) b (sd_removed d) (sd_merkle_root d) (sd_final d).
Definition with_removed (r : oset) (d : state_delta) : state_delta :=
  Delta (sd_parent d) (sd_backend d) r (sd_merkle_root d) (sd_final d).
Definition with_merkle_root (m : option digest) (d : state_delta) : state_delta :=
  Delta (sd_parent d) (sd_backend d) (sd_removed d) m (sd_final d).
Definition with_parent (q : option ptr) (d : state_delta) : state_delta :=
  Delta q (sd_backend d) (sd_removed d) (sd_merkle_root d) (sd_final d).

(** [state_delta::state_delta( path )]: a root over an empty map backend. *)
Definition new_delta : state_delta := Delta None (Some default_backend) [] None false.

(** [state_delta::root], [state_delta::removed] *)
Definition is_root (d : state_delta) : bool :=
  match sd_parent d with Some _ => false | None => true end.
Definition is_removed (k : bytes) (d : state_delta) : bool := om_mem k (sd_removed d).

(** [state_delta::get]. The recursion follows parent pointers; a parent is
    allocated before its child, so [S p] steps are enough. *)
Fixpoint sd_get_fuel (fuel : nat) (p : ptr) (k : bytes) : M store (option bytes) :=
  match fuel with
  | O => fail out_of_fuel
  | S fuel =>
      let* d := deref p in
      let* b := unptr (sd_backend d) in
      match backend_get k b with
      | Some v => ret (Some v)
      | None =>
          if is_root d || is_removed k d then ret None
          else let* q := unptr (sd_parent d) in sd_get_fuel fuel q k
      end
  end.

Definition sd_get (p : ptr) (k : bytes) : M store (option bytes) := sd_get_fuel (S p) p k.

Definition final_error {A} : M store A :=
  throw (runtime_error "cannot modify a final state delta").

(** [ssize( key ) + ssize( *value )] when there is a value. *)
Definition entry_size (k : bytes) (o : option bytes) : Z :=
  match o with Some v => zlen k + zlen v | None => 0 end.

(** [_parent->get( key )] for a delta that has a parent. *)
Definition parent_value (d : state_delta) (k : bytes) : M store (option bytes) :=
  match sd_parent d with Some q => sd_get q k | None => ret None end.

(** [state_delta::put] *)
Definition sd_put (p : ptr) (k v : bytes) : M store Z :=
  let* d := deref p in
  if sd_final d then final_error
  else
    let* pv := parent_value d k in
    let size := 0 - entry_size k pv in
    let* b := unptr (sd_backend d) in
    let '(n, b') := backend_put k v b in
    write p (with_backend (Some b') d) ;;;
    ret (size + n).

(** [state_delta::remove] *)
Definition sd_remove (p : ptr) (k : bytes) : M store Z :=
  let* d := deref p in
  if sd_final d then final_error
  else
    let* b := unptr (sd_backend d) in
    let '(size, b') := backend_remove k b in
    let d := with_backend (Some b') d in
    write p d ;;;
    let* pv := (if (size =? 0) && negb (is_root d) then parent_value d k else ret None) in
    let size := size - entry_size k pv in
    (if negb (size =? 0) then write p (with_removed (os_insert k (sd_removed d)) d) else ret tt) ;;;
    ret size.

(** [state_delta::squash], the two loops on the child and its parent. *)
Definition squash_removed (parent_root : bool) (k : bytes) (st : backend * oset) : backend * oset :=
  ((backend_remove k st.1).2, if parent_root then st.2 else os_insert k st.2).

Definition squash_object (parent_root : bool) (k v : bytes) (st : backend * oset) : backend * oset :=
  ((backend_put k v st.1).2, if parent_root then st.2 else om_delete k st.2).

Definition sd_squash (p : ptr) : M store unit :=
  let* d := deref p in
  match sd_parent d with
  | None => ret tt
  | Some q =>
      let* dp := deref q in
      let* pb := unptr (sd_backend dp) in
      let* cb := unptr (sd_backend d) in
      let r := is_root dp in
      let st := fold_left (fun st e => squash_removed r e.1 st) (sd_removed d) (pb, sd_removed dp) in
      let '(m', st) := drain (length (bk_map cb)) (bk_map cb) (squash_object r) st in
      write p (with_removed [] (with_backend (Some (set_map m' cb)) d)) ;;;
      write q (with_removed st.2 (with_backend (Some st.1) dp))
  end.

(** [state_delta::clear] *)
Definition sd_clear (p : ptr) : M store unit :=
  let* d := deref p in
  let* b := unptr (sd_backend d) in
  write p (with_removed [] (with_backend (Some (backend_clear b)) d)).

(** [state_delta::revision], [set_revision], [id] *)
Definition sd_revision (p : ptr) : M store Z :=
  let* d := deref p in let* b := unptr (sd_backend d) in ret (bk_revision b).
Definition sd_set_revision (p : ptr) (r : Z) : M store unit :=
  let* d := deref p in
  let* b := unptr (sd_backend d) in write p (with_backend (Some (set_revision r b)) d).
Definition sd_id (p : ptr) : M store bytes :=
  let* d := deref p in let* b := unptr (sd_backend d) in ret (bk_id b).

(** [state_delta::parent_id], [parent], [final], [finalize] *)
Definition sd_parent_id (p : ptr) : M store bytes :=
  let* d := deref p in
  match sd_parent d with Some q => sd_id q | None => ret null_id end.
Definition sd_get_parent (p : ptr) : M store (option ptr) :=
  let* d := deref p in ret (sd_parent d).
Definition sd_is_final (p : ptr) : M store bool := let* d := deref p in ret (sd_final d).
Definition sd_finalize (p : ptr) : M store unit :=
  let* d := deref p in
  write p (Delta (sd_parent d) (sd_backend d) (sd_removed d) (sd_merkle_root d) true).

(** The merge of [merkle_root]: both sequences are in key order; a removed key
    is a leaf followed by an empty one. *)
Fixpoint merge_leaves (objects : entries) : oset -> list bytes :=
  fix merge_removed (removed : oset) : list bytes :=
    match objects, removed with
    | [], _ => flat_map (fun e => [e.1; []]) removed
    | _, [] => flat_map (fun e => [e.1; e.2]) objects
    | (k, v) :: objects', (r, _) :: removed' =>
        if bytes_ltb k r then k :: v :: merge_leaves objects' removed
        else r :: [] :: merge_removed removed'
    end.

Section merkle.
Context `{Blake3}.

Definition delta_digest (b : backend) (removed : oset) : digest :=
  merkle_root false (merge_leaves (bk_map b) removed).

(** [state_delta::merkle_root]: computed once, then remembered. *)
Definition sd_get_merkle_root (p : ptr) : M store digest :=
  let* d := deref p in
  if negb (sd_final d) then throw (runtime_error "cannot return merkle root of non-final node")
  else
    match sd_merkle_root d with
    | Some m => ret m
    | None =>
        let* b := unptr (sd_backend d) in
        let m := delta_digest b (sd_removed d) in
        write p (with_merkle_root (Some m) d) ;;; ret m
    end.

(** The stack of [commit]: the nodes from [p] up to the root. *)
Fixpoint node_stack (fuel : nat) (p : ptr) : M store (list ptr) :=
  match fuel with
  | O => fail out_of_fuel
  | S fuel =>
      let* d := deref p in
      match sd_parent d with
      | None => ret [p]
      | Some q => let* rest := node_stack fuel q in ret (p :: rest)
      end
  end.

(** Writing one node of the stack into the root backend. *)
Definition apply_removed (removed : oset) (b : backend) : backend :=
  fold_left (fun b e => (backend_remove e.1 b).2) removed b.

Definition commit_node (b : backend) (p : ptr) : M store backend :=
  let* d := deref p in
  let* nb := unptr (sd_backend d) in
  let b := apply_removed (sd_removed d) b in
  let '(m', b) := drain (length (bk_map nb)) (bk_map nb) (fun k v b => (backend_put k v b).2) b in
  write p (with_backend (Some (set_map m' nb)) d) ;;; ret b.

Fixpoint commit_nodes (b : backend) (ps : list ptr) : M store backend :=
  match ps with
  | [] => ret b
  | p :: ps => let* b := commit_node b p in commit_nodes b ps
  end.

(** [state_delta::commit] *)
Definition sd_commit (p : ptr) : M store unit :=
  let* d := deref p in
  if is_root d then throw (runtime_error "cannot commit root")
  else
    let* stack := node_stack (S p) p in
    let* rp := unptr (last stack) in
    let* rd := deref rp in
    let* b := unptr (sd_backend rd) in
    write rp (with_backend None rd) ;;;
    let b := start_write_batch b in
    let* b := commit_nodes b (rev (removelast stack)) in
    let* revision := sd_revision p in
    let b := set_revision revision b in
    let* id := sd_id p in
    let b := set_id id b in
    let* root := sd_get_merkle_root p in
    let b := store_metadata (set_merkle_root root b) in
    let b := end_write_batch b in
    let* d := deref p in
    write p (with_parent None (with_backend (Some b) (with_removed [] d))).
End merkle.

(** [state_delta::make_child] *)
Definition sd_make_child (p : ptr) (id : bytes) : M store ptr :=
  let* d := deref p in
  let* b := unptr (sd_backend d) in
  alloc (Delta (Some p)
           (Some (new_backend (if bytes_eqb id null_id then bk_id b else id)
                    (u64 (bk_revision b + 1))))
           [] None false).

(** [state_delta::clone] *)
Definition sd_clone (p : ptr) (id : bytes) : M store ptr :=
  let* d := deref p in
  let* b := unptr (sd_backend d) in
  let b := backend_clone b in
  let b := if negb (bytes_eqb id null_id) then set_id id b else b in
  let b := match sd_merkle_root d with Some m => set_merkle_root m b | None => b end in
  alloc (Delta (sd_parent d) (Some b) (sd_removed d) (sd_merkle_root d) (sd_final d)).

(** ** Well-formed stores and the contents of a node *)

Definition delta_wf (p : ptr) (d : state_delta) : Prop :=
  (forall b, sd_backend d = Some b -> backend_wf b) /\ om_wf (sd_removed d) /\
  (forall q, sd_parent d = Some q -> (q < p)%nat).

Definition store_wf (st : store) : Prop :=
  forall p d, st_deltas st !! p = Some d -> (p < st_next st)%nat /\ delta_wf p d.

(** Every node from [p] to the root is there and has a backend. *)
Inductive live (st : store) : ptr -> Prop :=
| live_root p d b :
    st_deltas st !! p = Some d -> sd_backend d = Some b -> sd_parent d = None -> live st p
| live_child p d b q :
    st_deltas st !! p = Some d -> sd_backend d = Some b -> sd_parent d = Some q ->
    live st q -> live st p.

(** [reach st r p]: [p] is [r] or an ancestor of [r]. *)
Inductive reach (st : store) : ptr -> ptr -> Prop :=
| reach_refl p : reach st p p
| reach_step r d q p :
    st_deltas st !! r = Some d -> sd_parent d = Some q -> reach st q p -> reach st r p.

(** The object a node shows for a key: the nearest delta that wrote or removed
    the key decides. *)
Fixpoint view (fuel : nat) (m : gmap ptr state_delta) (p : ptr) (k : bytes) : option bytes :=
  match fuel with
  | O => None
  | S fuel =>
      match m !! p with
      | None => None
      | Some d =>
          match sd_backend d ≫= backend_get k with
          | Some v => Some v
          | None => if is_removed k d then None
                    else match sd_parent d with Some q => view fuel m q k | None => None end
          end
      end
  end.

Definition view_of (st : store) (p : ptr) (k : bytes) : option bytes :=
  view (S p) (st_deltas st) p k.

Lemma store_set_lookup_eq st p d : st_deltas (store_set p d st) !! p = Some d.
Proof. simpl. apply lookup_insert_eq. Qed.

Lemma store_set_lookup_ne st p q d :
  p <> q -> st_deltas (store_set p d st) !! q = st_deltas st !! q.
Proof. intros. simpl. by apply lookup_insert_ne. Qed.

Lemma deref_eq st p d : st_deltas st !! p = Some d -> deref p st = Ret d st.
Proof. unfold deref. by intros ->. Qed.

Lemma live_lookup st p : live st p -> exists d b, st_deltas st !! p = Some d /\ sd_backend d = Some b.
Proof. destruct 1; eauto. Qed.

Lemma live_parent st p d q :
  live st p -> st_deltas st !! p = Some d -> sd_parent d = Some q -> live st q.
Proof. destruct 1; intros; simplify_eq; done. Qed.

Lemma reach_le st r p : store_wf st -> reach st r p -> (p <= r)%nat.
Proof.
  intros Hwf. induction 1 as [|r d q p Hr Hq _ IH]; [done|].
  destruct (Hwf r d Hr) as (_ & _ & _ & Hlt). specialize (Hlt q Hq). lia.
Qed.

Lemma not_reach_lt st r p : store_wf st -> (r < p)%nat -> ~ reach st r p.
Proof. intros Hwf Hlt Hr%reach_le; [lia|done]. Qed.

Lemma not_reach_parent st r d q p :
  st_deltas st !! r = Some d -> sd_parent d = Some q -> ~ reach st r p -> ~ reach st q p.
Proof. intros Hr Hq Hn Hq'. apply Hn. by eapply reach_step. Qed.

(** Writes to a node are invisible to the nodes that do not descend from it. *)
Lemma view_frame fuel st p d r k :
  ~ reach st r p ->
  view fuel (<[p := d]> (st_deltas st)) r k = view fuel (st_deltas st) r k.
Proof.
  revert r; induction fuel as [|fuel IH]; intros r Hn; [done|]. simpl.
  rewrite lookup_insert_ne by (intros ->; apply Hn; constructor).
  destruct (st_deltas st !! r) as [dr|] eqn:Hr; [|done].
  destruct (sd_backend dr ≫= backend_get k); [done|].
  destruct (is_removed k dr); [done|]. destruct (sd_parent dr) as [q|] eqn:Hq; [|done].
  apply IH. by eapply not_reach_parent.
Qed.

Lemma view_fuel st p k n :
  store_wf st -> (p < n)%nat -> view n (st_deltas st) p k = view_of st p k.
Proof.
  intros Hwf. unfold view_of. revert n. induction p as [p IH] using lt_wf_ind. intros [|n] Hn; [lia|].
  simpl. destruct (st_deltas st !! p) as [d|] eqn:Hp; [|done].
  destruct (sd_backend d ≫= backend_get k); [done|]. destruct (is_removed k d); [done|].
  destruct (sd_parent d) as [q|] eqn:Hq; [|done].
  destruct (Hwf p d Hp) as (_ & _ & _ & Hlt). specialize (Hlt q Hq).
  rewrite (IH q Hlt n) by lia. destruct p as [|p]; [lia|].
  destruct (decide (S p = S q)) as [E|E]; [by injection E as ->|].
  symmetry. apply (IH q Hlt (S p)). lia.
Qed.

Lemma view_of_unfold st p d k :
  store_wf st -> st_deltas st !! p = Some d ->
  view_of st p k =
  match sd_backend d ≫= backend_get k with
  | Some v => Some v
  | None => if is_removed k d then None
            else match sd_parent d with Some q => view_of st q k | None => None end
  end.
Proof.
  intros Hwf Hp. unfold view_of at 1. cbn [view]. rewrite Hp.
  destruct (sd_backend d ≫= backend_get k); [done|]. destruct (is_removed k d); [done|].
  destruct (sd_parent d) as [q|] eqn:Hq; [|done].
  destruct (Hwf p d Hp) as (_ & _ & _ & Hlt). specialize (Hlt q Hq). by apply view_fuel.
Qed.

(** A node whose contents and descendants are untouched keeps the contents of
    its descendants. *)
Lemma view_of_descendants st st' p r x :
  reach st r p -> store_wf st -> store_wf st' ->
  (forall r', (p < r')%nat -> st_deltas st' !! r' = st_deltas st !! r') ->
  (forall x, view_of st' p x = view_of st p x) -> view_of st' r x = view_of st r x.
Proof.
  intros Hr Hwf Hwf'. induction Hr as [p|r d q p Hr Hq Hreach IH]; intros Hag Hv; [apply Hv|].
  destruct (Hwf r d Hr) as (_ & _ & _ & Hlt). specialize (Hlt q Hq).
  pose proof (reach_le _ _ _ Hwf Hreach).
  rewrite (view_of_unfold st r d x), (view_of_unfold st' r d x) by (done || rewrite Hag by lia; done).
  rewrite Hq. by rewrite IH.
Qed.

Lemma view_of_eq st p d b k :
  store_wf st -> st_deltas st !! p = Some d -> sd_backend d = Some b ->
  view_of st p k =
  match backend_get k b with
  | Some v => Some v
  | None => if is_removed k d then None
            else match sd_parent d with Some q => view_of st q k | None => None end
  end.
Proof.
  intros Hwf Hp Hb. rewrite (view_of_unfold st p d k) by done. by rewrite Hb.
Qed.

(** [state_delta::get] returns, without changing anything, the object shown by
    the chain of deltas; it terminates within the number of allocated nodes. *)
Lemma sd_get_fuel_ok st p k n :
  store_wf st -> live st p -> (p < n)%nat -> sd_get_fuel n p k st = Ret (view_of st p k) st.
Proof.
  intros Hwf Hl. revert n. induction Hl as [p d b Hp Hb Hq|p d b q Hp Hb Hq Hl IH]; intros [|n] Hn;
    try lia; cbn [sd_get_fuel]; rewrite (bind_Ret _ _ _ _ _ (deref_eq _ _ _ Hp)), Hb;
    unfold unptr at 1; rewrite (bind_Ret (ret b) _ st b st eq_refl);
    rewrite (view_of_eq st p d b k Hwf Hp Hb); (destruct (backend_get k b); [done|]);
    unfold is_root; rewrite Hq; simpl.
  - by destruct (is_removed k d).
  - destruct (is_removed k d); [done|]. rewrite (bind_Ret (ret q) _ st q st eq_refl).
    apply IH. destruct (Hwf p d Hp) as (_ & _ & _ & Hlt). specialize (Hlt q Hq). lia.
Qed.

Lemma sd_get_ok st p k :
  store_wf st -> live st p -> sd_get p k st = Ret (view_of st p k) st.
Proof. intros. apply sd_get_fuel_ok; auto. Qed.

(** *** Replacing a delta by one with the same parent *)

Lemma store_set_wf st p d d' :
  store_wf st -> st_deltas st !! p = Some d -> delta_wf p d' -> store_wf (store_set p d' st).
Proof.
  intros Hwf Hp Hd r dr. destruct (decide (p = r)) as [<-|Hne].
  - rewrite store_set_lookup_eq. intros [= <-]. simpl. split; [by destruct (Hwf p d Hp)|done].
  - rewrite store_set_lookup_ne by done. simpl. apply Hwf.
Qed.

Lemma store_set_live st p d d' b r :
  st_deltas st !! p = Some d -> sd_parent d' = sd_parent d -> sd_backend d' = Some b ->
  live st r -> live (store_set p d' st) r.
Proof.
  intros Hp Hpar Hb. induction 1 as [r dr br Hr Hbr Hq|r dr br q Hr Hbr Hq Hl IH].
  - destruct (decide (p = r)) as [<-|Hne].
    + assert (dr = d) as -> by congruence.
      exact (live_root _ p d' b (store_set_lookup_eq _ _ _) Hb (eq_trans Hpar Hq)).
    + eapply live_root; [by rewrite store_set_lookup_ne|done|done].
  - destruct (decide (p = r)) as [<-|Hne].
    + assert (dr = d) as -> by congruence.
      exact (live_child _ p d' b q (store_set_lookup_eq _ _ _) Hb (eq_trans Hpar Hq) IH).
    + eapply live_child; [by rewrite store_set_lookup_ne|done..].
Qed.

Lemma view_of_frame st p d r k :
  ~ reach st r p -> view_of (store_set p d st) r k = view_of st r k.
Proof. intros. unfold view_of. by apply view_frame. Qed.

Lemma view_of_parent_frame st p d d' q k :
  store_wf st -> st_deltas st !! p = Some d -> sd_parent d = Some q ->
  view_of (store_set p d' st) q k = view_of st q k.
Proof.
  intros Hwf Hp Hq. apply view_of_frame. apply not_reach_lt; [done|].
  destruct (Hwf p d Hp) as (_ & _ & _ & Hlt). by apply Hlt.
Qed.

Lemma delta_wf_backend st p d b :
  store_wf st -> st_deltas st !! p = Some d -> sd_backend d = Some b -> backend_wf b.
Proof. intros Hwf Hp. destruct (Hwf p d Hp) as (_ & Hb & _). apply Hb. Qed.

Lemma parent_value_ok st p d k :
  store_wf st -> live st p -> st_deltas st !! p = Some d ->
  parent_value d k st =
  Ret (match sd_parent d with Some q => view_of st q k | None => None end) st.
Proof.
  intros Hwf Hl Hp. unfold parent_value. destruct (sd_parent d) as [q|] eqn:Hq; [|done].
  apply sd_get_ok; [done|]. by eapply live_parent.
Qed.

(** ** Writing *)

Lemma with_backend_wf p d b : delta_wf p d -> backend_wf b -> delta_wf p (with_backend (Some b) d).
Proof. intros (_ & Hr & Hq) Hb. split; [|done]. simpl. by intros ? [= <-]. Qed.

Lemma with_removed_wf p d r : delta_wf p d -> om_wf r -> delta_wf p (with_removed r d).
Proof. intros (Hb & _ & Hq) Hr. by split. Qed.

#[local] Hint Resolve with_backend_wf with_removed_wf : core.

Lemma reach_parent_of st p d q r :
  reach st r p -> st_deltas st !! p = Some d -> sd_parent d = Some q -> reach st r q.
Proof.
  induction 1; intros; [by eapply reach_step; [..|constructor]|]. by eapply reach_step; eauto.
Qed.

Lemma reach_store_set st p d d' r x :
  st_deltas st !! p = Some d -> sd_parent d' = sd_parent d ->
  reach (store_set p d' st) r x -> reach st r x.
Proof.
  intros Hp Hpar. induction 1 as [|r dr q x Hr Hq Hrq IH]; [constructor|].
  destruct (decide (p = r)) as [<-|Hne].
  - rewrite store_set_lookup_eq in Hr. injection Hr as <-.
    eapply reach_step; [exact Hp| |exact IH]. congruence.
  - rewrite store_set_lookup_ne in Hr by done. by eapply reach_step.
Qed.

(** Two stores with the same nodes, parents, final flags and metadata of the
    backends. *)
Definition metadata (b : backend) : bytes * Z * digest := (bk_id b, bk_revision b, bk_merkle_root b).
Definition shape_of (d : state_delta) : option ptr * bool * option (bytes * Z * digest) :=
  (sd_parent d, sd_final d, metadata <$> sd_backend d).
Definition same_shape (st st' : store) : Prop :=
  st_next st' = st_next st /\
  forall r, shape_of <$> st_deltas st' !! r = shape_of <$> st_deltas st !! r.

#[export] Instance same_shape_preorder : PreOrder same_shape.
Proof.
  split; [by intros st|]. intros a b c [H1 H2] [H3 H4]. split; [congruence|].
  intros r. by rewrite H4.
Qed.

Lemma store_set_shape st p d d' :
  st_deltas st !! p = Some d -> shape_of d' = shape_of d -> same_shape st (store_set p d' st).
Proof.
  intros Hp Hs. split; [done|]. intros r. destruct (decide (p = r)) as [<-|Hne].
  - rewrite store_set_lookup_eq, Hp. simpl. by rewrite Hs.
  - by rewrite store_set_lookup_ne.
Qed.

Lemma shape_with_backend d b b' :
  sd_backend d = Some b -> metadata b' = metadata b -> shape_of (with_backend (Some b') d) = shape_of d.
Proof. intros Hb Hm. unfold shape_of. cbn [sd_parent sd_final sd_backend with_backend]. rewrite Hb. cbn [fmap option_fmap option_map]. by rewrite Hm. Qed.

Lemma backend_put_metadata k v b : metadata (backend_put k v b).2 = metadata b.
Proof. done. Qed.
Lemma backend_remove_metadata k b : metadata (backend_remove k b).2 = metadata b.
Proof. unfold backend_remove. by destruct (om_lookup k (bk_map b)). Qed.

Lemma same_shape_lookup st st' p d :
  same_shape st st' -> st_deltas st !! p = Some d ->
  exists d', st_deltas st' !! p = Some d' /\ sd_parent d' = sd_parent d /\ sd_final d' = sd_final d.
Proof.
  intros [_ H] Hp. specialize (H p). rewrite Hp in H. destruct (st_deltas st' !! p) as [d'|]; [|done].
  simpl in H. injection H as H1 H2. eauto.
Qed.

Lemma same_shape_sym st st' : same_shape st st' -> same_shape st' st.
Proof. intros [H1 H2]. split; [done|]. intros r. by rewrite H2. Qed.

Lemma same_shape_reach st st' r p : same_shape st st' -> reach st r p -> reach st' r p.
Proof.
  intros Hs. induction 1 as [|r d q p Hr Hq _ IH]; [constructor|].
  destruct (same_shape_lookup _ _ _ _ Hs Hr) as (d' & Hr' & Hq' & _).
  exact (reach_step _ r d' q p Hr' (eq_trans Hq' Hq) IH).
Qed.

(** What the parent of a delta shows. *)
Definition parent_view (st : store) (d : state_delta) (k : bytes) : option bytes :=
  match sd_parent d with Some q => view_of st q k | None => None end.

(** [put] on a live node that is not final: the new backend of the node, and the
    size it reports. *)
Lemma sd_put_eq st p d b k v :
  store_wf st -> live st p -> st_deltas st !! p = Some d -> sd_backend d = Some b ->
  sd_final d = false ->
  sd_put p k v st =
  Ret (0 - entry_size k (parent_view st d k) + (backend_put k v b).1)
      (store_set p (with_backend (Some (backend_put k v b).2) d) st).
Proof.
  intros Hwf Hl Hp Hb Hf. unfold sd_put. rewrite (bind_Ret _ _ _ _ _ (deref_eq _ _ _ Hp)), Hf.
  rewrite (bind_Ret _ _ _ _ _ (parent_value_ok st p d k Hwf Hl Hp)), Hb. cbn beta.
  unfold unptr. rewrite (bind_Ret (ret b) _ st b st eq_refl).
  destruct (backend_put k v b) as [n b'] eqn:E. done.
Qed.

(** Replacing the backend of [p] so that it shows [f] for keys and leaving the
    removed keys alone. *)
Lemma view_with_backend st p d b b' k :
  store_wf st -> st_deltas st !! p = Some d -> sd_backend d = Some b -> backend_wf b' ->
  view_of (store_set p (with_backend (Some b') d) st) p k =
  match backend_get k b' with
  | Some v => Some v
  | None => if is_removed k d then None else parent_view st d k
  end.
Proof.
  intros Hwf Hp Hb Hb'. destruct (Hwf p d Hp) as [_ Hd].
  rewrite (view_of_eq _ p (with_backend (Some b') d) b').
  - destruct (backend_get k b'); [done|]. cbn [is_removed with_backend sd_removed sd_parent].
    unfold is_removed. simpl. destruct (om_mem k (sd_removed d)); [done|].
    unfold parent_view. destruct (sd_parent d) as [q|] eqn:Hq; [|done].
    by eapply view_of_parent_frame.
  - eapply store_set_wf; eauto.
  - apply store_set_lookup_eq.
  - done.
Qed.

(** Writing an object: the node shows it, every other key of the node and every
    node that does not descend from it show what they showed. *)
Lemma sd_put_view st p d k v :
  store_wf st -> live st p -> st_deltas st !! p = Some d -> sd_final d = false ->
  exists n st', sd_put p k v st = Ret n st' /\ store_wf st' /\ same_shape st st' /\
    (forall r, live st r -> live st' r) /\
    (forall x, view_of st' p x = if bytes_eqb x k then Some v else view_of st p x) /\
    (forall r x, ~ reach st r p -> view_of st' r x = view_of st r x).
Proof.
  intros Hwf Hl Hp Hf. destruct (live_lookup st p Hl) as (d0 & b & Hp0 & Hb).
  assert (d0 = d) as -> by congruence.
  pose proof (delta_wf_backend _ _ _ _ Hwf Hp Hb) as Hbw.
  pose proof (backend_put_spec k v b Hbw) as Hput. destruct (Hwf p d Hp) as [_ Hd].
  rewrite (sd_put_eq st p d b k v) by done.
  destruct (backend_put k v b) as [n b'] eqn:E. destruct Hput as (Hn & Hbw' & Hm & _).
  simpl. eexists _, _. split; [done|]. split; [eapply store_set_wf; eauto|].
  split; [eapply store_set_shape; [done|]; apply (shape_with_backend d b b' Hb); by injection E as _ <-|].
  split; [intros; by eapply store_set_live|]. split.
  - intros x. rewrite (view_with_backend st p d b b') by done.
    rewrite (view_of_eq st p d b x) by done. unfold backend_get. rewrite Hm, om_lookup_insert.
    by destruct (bytes_eqb x k).
  - intros. by apply view_of_frame.
Qed.

(** The size [put] reports is the change in the bytes the node shows, when the
    key was not yet touched in this delta. *)
Theorem sd_put_size_exact st p d b k v n st' :
  store_wf st -> live st p -> st_deltas st !! p = Some d -> sd_backend d = Some b ->
  backend_get k b = None -> is_removed k d = false ->
  sd_put p k v st = Ret n st' ->
  n = entry_size k (view_of st' p k) - entry_size k (view_of st p k).
Proof.
  intros Hwf Hl Hp Hb Hk Hr Hput. destruct (sd_final d) eqn:Hf.
  { unfold sd_put in Hput. rewrite (bind_Ret _ _ _ _ _ (deref_eq _ _ _ Hp)), Hf in Hput. done. }
  pose proof (delta_wf_backend _ _ _ _ Hwf Hp Hb) as Hbw.
  destruct (sd_put_view st p d k v Hwf Hl Hp Hf) as (n' & st2 & Hput' & _ & _ & _ & Hv & _).
  rewrite Hput in Hput'. injection Hput' as <- <-.
  rewrite Hv, bytes_eqb_refl, (view_of_eq st p d b k) by done. rewrite Hk, Hr.
  rewrite (sd_put_eq st p d b k v) in Hput by done. injection Hput as <- _.
  unfold parent_view, backend_put. cbn [fst].
  unfold backend_get in Hk. rewrite (om_lower_bound_lookup k (bk_map b)) in Hk by done.
  destruct (om_lower_bound k (bk_map b)) as [|[k' v'] ?]; simpl.
  - lia.
  - destruct (bytes_eqb k k'); [done|lia].
Qed.

(** When the delta has already written the key and the parent holds it too, the
    parent's object is subtracted a second time. *)
Theorem sd_put_size_counts_parent_twice st p d b k v v1 pv n st' :
  store_wf st -> live st p -> st_deltas st !! p = Some d -> sd_backend d = Some b ->
  backend_get k b = Some v1 -> parent_view st d k = Some pv ->
  sd_put p k v st = Ret n st' ->
  n = entry_size k (view_of st' p k) - entry_size k (view_of st p k) - (zlen k + zlen pv).
Proof.
  intros Hwf Hl Hp Hb Hk Hpv Hput. destruct (sd_final d) eqn:Hf.
  { unfold sd_put in Hput. rewrite (bind_Ret _ _ _ _ _ (deref_eq _ _ _ Hp)), Hf in Hput. done. }
  pose proof (delta_wf_backend _ _ _ _ Hwf Hp Hb) as Hbw.
  destruct (sd_put_view st p d k v Hwf Hl Hp Hf) as (n' & st2 & Hput' & _ & _ & _ & Hv & _).
  rewrite Hput in Hput'. injection Hput' as <- <-.
  rewrite Hv, bytes_eqb_refl, (view_of_eq st p d b k) by done. rewrite Hk.
  rewrite (sd_put_eq st p d b k v) in Hput by done. injection Hput as <- _.
  rewrite Hpv. unfold backend_put. cbn [fst].
  unfold backend_get in Hk. rewrite (om_lower_bound_lookup k (bk_map b)) in Hk by done.
  destruct (om_lower_bound k (bk_map b)) as [|[k' v'] ?]; [done|].
  destruct (bytes_eqb k k'); [|done]. injection Hk as ->. simpl. lia.
Qed.

(** [remove] on a live node that is not final: the store it leaves and the size
    it reports. *)
Lemma sd_remove_eq st p d b k :
  store_wf st -> live st p -> st_deltas st !! p = Some d -> sd_backend d = Some b ->
  sd_final d = false ->
  let '(size, b') := backend_remove k b in
  let n := if size =? 0 then 0 - entry_size k (parent_view st d k) else size in
  let d1 := with_backend (Some b') d in
  let d2 := if n =? 0 then d1 else with_removed (os_insert k (sd_removed d)) d1 in
  sd_remove p k st = Ret n (store_set p d2 st).
Proof.
  intros Hwf Hl Hp Hb Hf. unfold sd_remove.
  rewrite (bind_Ret _ _ _ _ _ (deref_eq _ _ _ Hp)), Hf, Hb.
  unfold unptr. rewrite (bind_Ret (ret b) _ st b st eq_refl).
  pose proof (delta_wf_backend _ _ _ _ Hwf Hp Hb) as Hbw.
  pose proof (backend_remove_spec k b Hbw) as Hrm. destruct (Hwf p d Hp) as [_ Hd].
  destruct (backend_remove k b) as [size b'] eqn:E. destruct Hrm as (_ & Hbw' & _).
  cbv zeta. unfold write at 1.
  rewrite (bind_Ret (modify _) _ st tt (store_set p (with_backend (Some b') d) st)) by done.
  set (st1 := store_set p (with_backend (Some b') d) st).
  assert (store_wf st1) as Hwf1 by (eapply store_set_wf; eauto).
  assert (live st1 p) as Hl1 by (by eapply store_set_live).
  assert (parent_view st1 (with_backend (Some b') d) k = parent_view st d k) as Hpv.
  { unfold parent_view. simpl. destruct (sd_parent d) as [q|] eqn:Hq; [|done].
    by eapply view_of_parent_frame. }
  assert (forall d2, store_set p d2 st1 = store_set p d2 st) as Hset.
  { intros. unfold st1, store_set. simpl. f_equal. apply insert_insert_eq. }
  assert (forall x o, (let* pv := (fun s : store => Ret (A := option bytes) o s) in
      let size0 := x - entry_size k pv in
      (if negb (size0 =? 0)
       then write p (with_removed (os_insert k (sd_removed (with_backend (Some b') d)))
                       (with_backend (Some b') d))
       else ret tt) ;;; ret size0) st1 =
      Ret (x - entry_size k o)
        (store_set p (if x - entry_size k o =? 0 then with_backend (Some b') d
          else with_removed (os_insert k (sd_removed d)) (with_backend (Some b') d)) st)) as Hend.
  { intros x o. unfold bind at 1. destruct (x - entry_size k o =? 0); simpl; [done|].
    unfold write, bind, modify. by rewrite Hset. }
  destruct (size =? 0) eqn:Es; [apply Z.eqb_eq in Es as ->|].
  - unfold is_root. cbn [sd_parent with_backend andb]. rewrite <- Hpv.
    unfold parent_view. cbn [sd_parent with_backend].
    destruct (sd_parent d) as [q|] eqn:Hq; cbn [negb].
    + rewrite <- (Hend 0 (view_of st1 q k)). unfold bind at 1 4.
      assert (parent_value (with_backend (Some b') d) k st1 = Ret (view_of st1 q k) st1) as ->; [|done].
      rewrite (parent_value_ok st1 p (with_backend (Some b') d) k); [by simpl; rewrite Hq|done..|].
      apply store_set_lookup_eq.
    + apply (Hend 0 None).
  - pose proof (Hend size None) as He. cbn [entry_size] in He.
    rewrite Z.sub_0_r, Es in He. rewrite Es. exact He.
Qed.

Lemma backend_remove_get k x b :
  backend_wf b -> backend_get x (backend_remove k b).2 = if bytes_eqb x k then None else backend_get x b.
Proof.
  intros Hb. pose proof (backend_remove_spec k b Hb) as H. destruct (backend_remove k b) as [n b'].
  destruct H as (_ & _ & Hm & _). unfold backend_get. simpl. by rewrite Hm, om_lookup_delete.
Qed.

Lemma backend_put_get k v x b :
  backend_wf b ->
  backend_get x (backend_put k v b).2 = if bytes_eqb x k then Some v else backend_get x b.
Proof.
  intros Hb. pose proof (backend_put_spec k v b Hb) as H. destruct (backend_put k v b) as [n b'].
  destruct H as (_ & _ & Hm & _). unfold backend_get. simpl. by rewrite Hm, om_lookup_insert.
Qed.

Lemma backend_remove_wf k b : backend_wf b -> backend_wf (backend_remove k b).2.
Proof.
  intros Hb. pose proof (backend_remove_spec k b Hb) as H. destruct (backend_remove k b). by destruct H as (_ & ? & _).
Qed.

Lemma backend_put_wf k v b : backend_wf b -> backend_wf (backend_put k v b).2.
Proof.
  intros Hb. pose proof (backend_put_spec k v b Hb) as H. destruct (backend_put k v b). by destruct H as (_ & ? & _).
Qed.

#[local] Hint Resolve backend_remove_wf backend_put_wf : core.

(** Keys of the state database are compound keys and never empty. *)
Lemma entry_size_zero k o : k <> [] -> entry_size k o = 0 -> o = None.
Proof.
  destruct o as [v|]; [|done]. simpl. unfold zlen. destruct k; [done|]. simpl. lia.
Qed.

(** Removing an object: the node no longer shows the key, everything else is as
    it was, and the size reported is the size of the object that went away. *)
Lemma sd_remove_view st p d b k :
  store_wf st -> live st p -> st_deltas st !! p = Some d -> sd_backend d = Some b ->
  sd_final d = false -> k <> [] ->
  exists n st', sd_remove p k st = Ret n st' /\ store_wf st' /\ same_shape st st' /\
    (forall r, live st r -> live st' r) /\
    (forall x, view_of st' p x = if bytes_eqb x k then None else view_of st p x) /\
    (forall r x, ~ reach st r p -> view_of st' r x = view_of st r x) /\
    (is_removed k d = false -> n = 0 - entry_size k (view_of st p k)).
Proof.
  intros Hwf Hl Hp Hb Hf Hk. pose proof (sd_remove_eq st p d b k Hwf Hl Hp Hb Hf) as Heq.
  pose proof (delta_wf_backend _ _ _ _ Hwf Hp Hb) as Hbw. destruct (Hwf p d Hp) as [_ Hd].
  pose proof (backend_remove_get k) as Hget. pose proof (backend_remove_wf k b Hbw) as Hbw'.
  assert (Hsz : (backend_remove k b).1 = 0 - entry_size k (backend_get k b)).
  { unfold backend_remove, backend_get. by destruct (om_lookup k (bk_map b)). }
  specialize (Hget) with (b := b). destruct (backend_remove k b) as [size b'] eqn:E.
  simpl in Hget, Hbw', Hsz. cbv zeta in Heq.
  set (n := if size =? 0 then 0 - entry_size k (parent_view st d k) else size) in *.
  set (d2 := if n =? 0 then _ else _) in *.
  assert (sd_parent d2 = sd_parent d /\ sd_backend d2 = Some b' /\ delta_wf p d2) as (Hp2 & Hb2 & Hd2).
  { unfold d2. destruct (n =? 0); (split; [done|]; split; [done|]); [by apply with_backend_wf|].
    apply with_removed_wf; [by apply with_backend_wf|]. destruct Hd as (_ & ? & _).
    by apply om_insert_wf. }
  assert (shape_of (with_backend (Some b') d) = shape_of d) as Hshape.
  { apply (shape_with_backend d b b' Hb). pose proof (backend_remove_metadata k b) as Hm. by rewrite E in Hm. }
  exists n, (store_set p d2 st). split; [done|]. split; [by eapply store_set_wf|].
  split; [eapply store_set_shape; [done|]; rewrite <- Hshape; unfold d2; by destruct (n =? 0)|].
  split; [intros; by eapply store_set_live|].
  assert (forall x, parent_view (store_set p d2 st) d2 x = parent_view st d x) as Hpv.
  { intros x. unfold parent_view. rewrite Hp2. destruct (sd_parent d) as [q|] eqn:Hq; [|done].
    by eapply view_of_parent_frame. }
  split; [|split; [intros; by apply view_of_frame|]].
  - intros x. rewrite (view_of_eq _ p d2 b'); [|by eapply store_set_wf|apply store_set_lookup_eq|done].
    rewrite (Hget x Hbw), (view_of_eq st p d b x) by done. fold (parent_view (store_set p d2 st) d2 x).
    rewrite Hpv. fold (parent_view st d x).
    destruct (bytes_eqb x k) eqn:Ex.
    + apply bytes_eqb_eq in Ex as ->. unfold d2, is_removed, om_mem.
      destruct (n =? 0) eqn:En; simpl.
      * destruct (om_lookup k (sd_removed d)); [done|]. apply Z.eqb_eq in En.
        assert (size = 0) as Hs0. { unfold n in En. destruct (size =? 0) eqn:Es; [by apply Z.eqb_eq|done]. }
        unfold n in En. rewrite Hs0 in En. simpl in En. apply (entry_size_zero k); [done|lia].
      * unfold os_insert. by rewrite om_lookup_insert_eq.
    + unfold d2, is_removed, om_mem. destruct (n =? 0); simpl; [done|].
      unfold os_insert. rewrite om_lookup_insert, Ex. done.
  - intros Hr. rewrite (view_of_eq st p d b k) by done. rewrite Hr. fold (parent_view st d k).
    unfold n. rewrite Hsz. destruct (backend_get k b) as [v|] eqn:Ev; [|done].
    destruct (0 - entry_size k (Some v) =? 0) eqn:E0; [|done].
    apply Z.eqb_eq in E0. assert (Some v = None) as Habs; [|done].
    apply (entry_size_zero k); [done|lia].
Qed.

(** ** Merging a delta into another backend *)

Lemma apply_removed_ok l b :
  backend_wf b ->
  backend_wf (apply_removed l b) /\
  (forall x, backend_get x (apply_removed l b) = if om_mem x l then None else backend_get x b).
Proof.
  revert b; induction l as [|[k []] l IH]; intros b Hb; [by split|]. unfold apply_removed. simpl.
  destruct (IH (backend_remove k b).2 ltac:(auto)) as [Hw Hg]. split; [exact Hw|]. intros x.
  unfold apply_removed in Hg. rewrite Hg, backend_remove_get by done. unfold om_mem. simpl.
  destruct (bytes_eqb x k), (om_lookup x l); done.
Qed.

Definition apply_objects (m : entries) (b : backend) : backend :=
  fold_left (fun b e => (backend_put e.1 e.2 b).2) m b.

Lemma apply_objects_metadata m b : metadata (apply_objects m b) = metadata b.
Proof. revert b; induction m as [|e m IH]; intros b; [done|]. exact (IH _). Qed.
Lemma apply_removed_metadata l b : metadata (apply_removed l b) = metadata b.
Proof.
  revert b; induction l as [|e l IH]; intros b; [done|]. etrans; [exact (IH _)|]. apply backend_remove_metadata.
Qed.

Lemma apply_objects_ok m b :
  om_wf m -> backend_wf b ->
  backend_wf (apply_objects m b) /\
  (forall x, backend_get x (apply_objects m b)
             = match om_lookup x m with Some v => Some v | None => backend_get x b end).
Proof.
  intros Hm; revert b; induction m as [|[k v] m IH]; intros b Hb; [by split|].
  unfold apply_objects. simpl.
  destruct (IH ltac:(by eapply om_wf_tail) (backend_put k v b).2 ltac:(auto)) as [Hw Hg].
  split; [exact Hw|]. intros x. unfold apply_objects in Hg. rewrite Hg, backend_put_get by done.
  destruct (bytes_eqb x k) eqn:E; [|done]. apply bytes_eqb_eq in E as ->.
  by rewrite (om_head_not_in k v m Hm).
Qed.

(** What one delta makes of the contents [f] of its parent. *)
Definition layer (m : entries) (removed : oset) (f : option bytes) (x : bytes) : option bytes :=
  match om_lookup x m with Some v => Some v | None => if om_mem x removed then None else f end.

Lemma apply_delta_ok m removed b :
  om_wf m -> backend_wf b ->
  backend_wf (apply_objects m (apply_removed removed b)) /\
  (forall x, backend_get x (apply_objects m (apply_removed removed b))
             = layer m removed (backend_get x b) x).
Proof.
  intros Hm Hb. destruct (apply_removed_ok removed b Hb) as [Hw Hg].
  destruct (apply_objects_ok m (apply_removed removed b) Hm Hw) as [Hw' Hg'].
  split; [done|]. intros x. rewrite Hg'. unfold layer. by rewrite Hg.
Qed.

Lemma view_of_layer st p d b x :
  store_wf st -> st_deltas st !! p = Some d -> sd_backend d = Some b ->
  view_of st p x = layer (bk_map b) (sd_removed d) (parent_view st d x) x.
Proof. intros. by rewrite (view_of_eq st p d b x). Qed.

(** *** squash *)

Lemma squash_removed_fold r l b s :
  fold_left (fun st e => squash_removed r e.1 st) l (b, s) =
  (apply_removed l b, if r then s else fold_left (fun s e => os_insert e.1 s) l s).
Proof.
  revert b s; induction l as [|[k []] l IH]; intros b s; simpl; [by destruct r|].
  unfold squash_removed at 2. simpl. rewrite IH. by destruct r.
Qed.

Lemma squash_object_fold r m b s :
  fold_left (fun st e => squash_object r e.1 e.2 st) m (b, s) =
  (apply_objects m b, if r then s else fold_left (fun s e => om_delete e.1 s) m s).
Proof.
  revert b s; induction m as [|[k v] m IH]; intros b s; simpl; [by destruct r|].
  unfold squash_object at 2. simpl. rewrite IH. by destruct r.
Qed.

Lemma fold_os_insert (l : oset) s x :
  om_wf s -> om_wf (fold_left (fun s (e : bytes * unit) => os_insert e.1 s) l s) /\
  om_mem x (fold_left (fun s (e : bytes * unit) => os_insert e.1 s) l s) = om_mem x l || om_mem x s.
Proof.
  revert s; induction l as [|[k []] l IH]; intros s Hs; simpl; [by split|].
  destruct (IH (os_insert k s) ltac:(by apply om_insert_wf)) as [Hw Hm]. split; [done|].
  rewrite Hm. unfold om_mem, os_insert. rewrite om_lookup_insert. simpl.
  destruct (bytes_eqb x k), (om_lookup x l); done.
Qed.

Lemma fold_om_delete (m : entries) (s : oset) x :
  om_wf s -> om_wf (fold_left (fun s (e : bytes * bytes) => om_delete e.1 s) m s) /\
  om_mem x (fold_left (fun s (e : bytes * bytes) => om_delete e.1 s) m s)
  = negb (om_mem x m) && om_mem x s.
Proof.
  revert s; induction m as [|[k v] m IH]; intros s Hs; simpl; [by split|].
  destruct (IH (om_delete k s) ltac:(by apply om_delete_wf)) as [Hw Hm]. split; [done|].
  rewrite Hm. unfold om_mem. rewrite om_lookup_delete. simpl.
  destruct (bytes_eqb x k), (om_lookup x m); try done.
Qed.

(** The store [squash] leaves: the child is drained, the parent has absorbed it. *)
Lemma sd_squash_eq st p d q dp cb pb :
  store_wf st -> st_deltas st !! p = Some d -> sd_parent d = Some q ->
  st_deltas st !! q = Some dp -> sd_backend d = Some cb -> sd_backend dp = Some pb ->
  let s1 := fold_left (fun s (e : bytes * unit) => os_insert e.1 s) (sd_removed d) (sd_removed dp) in
  let s2 := fold_left (fun s (e : bytes * bytes) => om_delete e.1 s) (bk_map cb) s1 in
  sd_squash p st =
  Ret tt (store_set q
            (with_removed (if is_root dp then sd_removed dp else s2)
               (with_backend (Some (apply_objects (bk_map cb) (apply_removed (sd_removed d) pb))) dp))
            (store_set p (with_removed [] (with_backend (Some (set_map [] cb)) d)) st)).
Proof.
  intros Hwf Hp Hq Hdp Hcb Hpb s1 s2. unfold sd_squash.
  rewrite (bind_Ret _ _ _ _ _ (deref_eq _ _ _ Hp)), Hq.
  rewrite (bind_Ret _ _ _ _ _ (deref_eq _ _ _ Hdp)), Hpb, Hcb. unfold unptr.
  rewrite (bind_Ret (ret pb) _ st pb st eq_refl), (bind_Ret (ret cb) _ st cb st eq_refl). cbv zeta.
  rewrite squash_removed_fold. rewrite drain_ok; [|by eapply (delta_wf_backend st p d)|done].
  rewrite squash_object_fold. unfold s2, s1. by destruct (is_root dp).
Qed.

(** Squashing a node: afterwards its parent shows exactly what the node showed,
    and nodes above or beside them show what they showed. *)
Lemma sd_squash_view st p d q :
  store_wf st -> live st p -> st_deltas st !! p = Some d -> sd_parent d = Some q ->
  exists st', sd_squash p st = Ret tt st' /\ store_wf st' /\ same_shape st st' /\
    (forall r, live st r -> live st' r) /\
    (forall x, view_of st' q x = view_of st p x) /\
    (forall r x, ~ reach st r q -> view_of st' r x = view_of st r x).
Proof.
  intros Hwf Hl Hp Hq. destruct (live_lookup st p Hl) as (d0 & cb & Hp0 & Hcb).
  assert (d0 = d) as -> by congruence. clear Hp0.
  assert (live st q) as Hlq by (by eapply live_parent).
  destruct (live_lookup st q Hlq) as (dp & pb & Hdp & Hpb).
  assert ((q < p)%nat) as Hlt by (destruct (Hwf p d Hp) as (_ & _ & _ & H); auto).
  rewrite (sd_squash_eq st p d q dp cb pb) by done. eexists. split; [done|].
  pose proof (delta_wf_backend _ _ _ _ Hwf Hp Hcb) as Hcw.
  pose proof (delta_wf_backend _ _ _ _ Hwf Hdp Hpb) as Hpw.
  destruct (apply_delta_ok (bk_map cb) (sd_removed d) pb Hcw Hpw) as [Hbw Hget].
  set (nb := apply_objects _ _) in *.
  set (s1 := fold_left _ (sd_removed d) (sd_removed dp)).
  set (s2 := fold_left _ (bk_map cb) s1).
  set (d1 := with_removed [] _). set (st1 := store_set p d1 st). set (dq := with_removed _ _).
  destruct (Hwf p d Hp) as [_ Hd]. destruct (Hwf q dp Hdp) as [_ Hdq]. destruct (Hdq) as (_ & Hrw & _).
  assert (forall x, om_wf s1 /\ om_mem x s1 = om_mem x (sd_removed d) || om_mem x (sd_removed dp)) as H1.
  { intros x. by apply fold_os_insert. }
  assert (forall x, om_wf s2 /\ om_mem x s2 = negb (om_mem x (bk_map cb)) && om_mem x s1) as H2.
  { intros x. apply fold_om_delete. by destruct (H1 x). }
  assert (store_wf st1) as Hwf1.
  { eapply store_set_wf; eauto. apply with_removed_wf; [apply with_backend_wf; auto|]; constructor. }
  assert (st_deltas st1 !! q = Some dp) as Hdp1 by (unfold st1; rewrite store_set_lookup_ne by lia; done).
  assert (delta_wf q dq) as Hdqw.
  { apply with_removed_wf; [by apply with_backend_wf|]. destruct (is_root dp); [done|by destruct (H2 [])]. }
  split; [by eapply store_set_wf|]. split.
  { etrans; [eapply (store_set_shape st p d d1 Hp); apply (shape_with_backend d cb); done|].
    eapply store_set_shape; [done|]. apply (shape_with_backend dp pb nb Hpb). unfold nb.
    by rewrite apply_objects_metadata, apply_removed_metadata. }
  split.
  { intros r Hr. eapply store_set_live; [done|done|done|]. by eapply store_set_live. }
  split.
  - intros x. rewrite (view_of_layer _ q dq nb);
      [|by eapply store_set_wf|apply store_set_lookup_eq|done].
    assert (parent_view (store_set q dq st1) dq x = parent_view st dp x) as ->.
    { unfold parent_view. simpl. destruct (sd_parent dp) as [q'|] eqn:Hq'; [|done].
      rewrite (view_of_parent_frame st1 q dp) by done. apply view_of_frame. apply not_reach_lt; [done|].
      destruct Hdq as (_ & _ & Hlt'). specialize (Hlt' q' Hq'). lia. }
    rewrite (view_of_layer st p d cb) by done.
    assert (parent_view st d x = view_of st q x) as -> by (unfold parent_view; by rewrite Hq).
    rewrite (view_of_layer st q dp pb) by done.
    unfold layer at 1. unfold backend_get in Hget. rewrite Hget. unfold layer.
    unfold dq. cbn [sd_removed with_removed].
    destruct (om_lookup x (bk_map cb)) as [v|] eqn:Ecb; [done|].
    destruct (H1 x) as [_ H1x]. destruct (H2 x) as [_ H2x]. 
    assert (om_mem x (bk_map cb) = false) as Hm by (unfold om_mem; by rewrite Ecb).
    rewrite Hm in H2x. simpl in H2x.
    unfold is_root. destruct (sd_parent dp) as [q'|] eqn:Hq'.
    + rewrite H2x, H1x. destruct (om_mem x (sd_removed d)); simpl; [done|]. done.
    + destruct (om_mem x (sd_removed d)); [|done].
      unfold parent_view. rewrite Hq'. by destruct (om_mem x (sd_removed dp)).
  - intros r x Hr. rewrite view_of_frame; [apply view_of_frame|].
    + intros Hrp. apply Hr. by eapply reach_parent_of.
    + intros Hrq. apply Hr. by eapply (reach_store_set st p d d1).
Qed.

(** ** commit *)

Section commit.
Context `{Blake3}.

Lemma commit_nodes_app b l l' st :
  commit_nodes b (l ++ l') st = bind (commit_nodes b l) (fun b => commit_nodes b l') st.
Proof.
  revert b st; induction l as [|p l IH]; intros b st; [done|]. simpl.
  unfold bind. destruct (commit_node b p st) as [b' st'| |]; [|done..]. by rewrite IH.
Qed.

Lemma commit_node_eq b p d nb st :
  st_deltas st !! p = Some d -> sd_backend d = Some nb -> om_wf (bk_map nb) ->
  commit_node b p st =
  Ret (apply_objects (bk_map nb) (apply_removed (sd_removed d) b))
      (store_set p (with_backend (Some (set_map [] nb)) d) st).
Proof.
  intros Hp Hb Hw. unfold commit_node. rewrite (bind_Ret _ _ _ _ _ (deref_eq _ _ _ Hp)), Hb.
  unfold unptr. rewrite (bind_Ret (ret nb) _ st nb st eq_refl). cbv zeta. rewrite drain_ok by done.
  done.
Qed.

(** [rootp] is the root above [p]. *)
Inductive root_of (st : store) : ptr -> ptr -> Prop :=
| root_here p d : st_deltas st !! p = Some d -> sd_parent d = None -> root_of st p p
| root_above p d q rp :
    st_deltas st !! p = Some d -> sd_parent d = Some q -> root_of st q rp -> root_of st p rp.

Lemma live_root_of st p : live st p -> exists rp, root_of st p rp.
Proof.
  induction 1 as [p d b Hp Hb Hq|p d b q Hp Hb Hq Hl [rp IH]]; [by exists p; econstructor|].
  exists rp. by econstructor.
Qed.

Lemma root_of_le st p rp : store_wf st -> root_of st p rp -> (rp <= p)%nat.
Proof.
  intros Hwf. induction 1 as [|p d q rp Hp Hq _ IH]; [done|].
  destruct (Hwf p d Hp) as (_ & _ & _ & Hlt). specialize (Hlt q Hq). lia.
Qed.

Lemma root_of_root st p rp : root_of st p rp -> exists d, st_deltas st !! rp = Some d /\ sd_parent d = None.
Proof. induction 1; eauto. Qed.

(** Writing the nodes between the root and [p] into the root backend: it ends
    up with what [p] showed, [p] is drained, and nothing outside the chain has
    changed. *)
Lemma commit_chain st p rp :
  store_wf st -> live st p -> root_of st p rp ->
  exists stack,
    (forall n, (p < n)%nat -> node_stack n p st = Ret stack st) /\ last stack = Some rp /\
    forall st1 b, st_next st1 = st_next st ->
      (forall r, (rp < r <= p)%nat -> st_deltas st1 !! r = st_deltas st !! r) ->
      backend_wf b -> (forall x, backend_get x b = view_of st rp x) ->
      exists b' st', commit_nodes b (rev (removelast stack)) st1 = Ret b' st' /\
        backend_wf b' /\ (forall x, backend_get x b' = view_of st p x) /\
        st_next st' = st_next st1 /\ (store_wf st1 -> store_wf st') /\
        (forall r, (r <= rp)%nat \/ (p < r)%nat -> st_deltas st' !! r = st_deltas st1 !! r) /\
        (forall d nb, p <> rp -> st_deltas st !! p = Some d -> sd_backend d = Some nb ->
           st_deltas st' !! p = Some (with_backend (Some (set_map [] nb)) d)).
Proof.
  intros Hwf Hl Hr. induction Hr as [p d Hp Hq|p d q rp Hp Hq Hr IH].
  - exists [p]. split; [|split; [done|]].
    + intros [|n] Hn; [lia|]. simpl. rewrite (bind_Ret _ _ _ _ _ (deref_eq _ _ _ Hp)). by rewrite Hq.
    + intros st1 b Hn1 Hagree Hb Hg. exists b, st1. do 6 (split; [by auto|]). intros ?? Hne. by destruct Hne.
  - destruct (Hwf p d Hp) as (_ & _ & _ & Hlt). specialize (Hlt q Hq).
    pose proof (root_of_le _ _ _ Hwf Hr) as Hle.
    destruct (IH (live_parent _ _ _ _ Hl Hp Hq)) as (stack & Hstack & Hlast & Hrun).
    destruct (live_lookup st p Hl) as (d0 & nb & Hp0 & Hnb). assert (d0 = d) as -> by congruence.
    exists (p :: stack). split; [|split].
    + intros [|n] Hn; [lia|]. simpl. rewrite (bind_Ret _ _ _ _ _ (deref_eq _ _ _ Hp)), Hq.
      by rewrite (bind_Ret _ _ _ _ _ (Hstack n ltac:(lia))).
    + by destruct stack.
    + intros st1 b Hn1 Hagree Hb Hg. destruct stack as [|s0 stack]; [done|].
      change (removelast (p :: s0 :: stack)) with (p :: removelast (s0 :: stack)).
      simpl rev. rewrite commit_nodes_app.
      destruct (Hrun st1 b Hn1 ltac:(intros; apply Hagree; lia) Hb Hg)
        as (b1 & st2 & Hrun1 & Hb1 & Hg1 & Hn2 & Hwf2 & Hag2 & _).
      rewrite (bind_Ret _ _ _ _ _ Hrun1). cbn [commit_nodes].
      assert (st_deltas st2 !! p = Some d) as Hp2 by (rewrite Hag2, Hagree by lia; done).
      pose proof (delta_wf_backend _ _ _ _ Hwf Hp Hnb) as Hnw.
      rewrite (bind_Ret _ _ _ _ _ (commit_node_eq b1 p d nb st2 Hp2 Hnb Hnw)).
      destruct (apply_delta_ok (bk_map nb) (sd_removed d) b1 Hnw Hb1) as [Hbw Hget].
      eexists _, _. split; [done|]. split; [done|].
      split; [|split; [done|split; [|split]]].
      * intros x. rewrite Hget, Hg1, (view_of_layer st p d nb) by done.
        unfold parent_view. by rewrite Hq.
      * intros Hwf1. destruct (Hwf2 Hwf1 p d Hp2) as [_ Hdw].
        eapply store_set_wf; [by apply Hwf2|done|]. apply with_backend_wf; [done|]. constructor.
      * intros r Hr'. rewrite store_set_lookup_ne by lia. apply Hag2. lia.
      * intros d' nb' _ Hd' Hnb'. simplify_eq. apply store_set_lookup_eq.
Qed.

(** The digest [commit] stores: the remembered one; without it, the one of the
    delta whose objects have just been moved away. *)
Definition committed_digest (d : state_delta) (b : backend) : digest :=
  match sd_merkle_root d with
  | Some m => m
  | None => delta_digest (set_map [] b) (sd_removed d)
  end.

Lemma sd_revision_eq st p d b :
  st_deltas st !! p = Some d -> sd_backend d = Some b -> sd_revision p st = Ret (bk_revision b) st.
Proof.
  intros Hp Hb. unfold sd_revision. rewrite (bind_Ret _ _ _ _ _ (deref_eq _ _ _ Hp)). by rewrite Hb.
Qed.

Lemma sd_id_eq st p d b :
  st_deltas st !! p = Some d -> sd_backend d = Some b -> sd_id p st = Ret (bk_id b) st.
Proof.
  intros Hp Hb. unfold sd_id. rewrite (bind_Ret _ _ _ _ _ (deref_eq _ _ _ Hp)). by rewrite Hb.
Qed.

(** The delta [p] at the end of [commit]. *)
Definition committed (d : state_delta) (b b' : backend) : state_delta :=
  Delta None
    (Some (set_merkle_root (committed_digest d b) (set_id (bk_id b) (set_revision (bk_revision b) b'))))
    [] (Some (committed_digest d b)) true.

Lemma sd_commit_eq st p d b q rp rd rb :
  store_wf st -> live st p -> st_deltas st !! p = Some d -> sd_backend d = Some b ->
  sd_parent d = Some q -> sd_final d = true ->
  root_of st p rp -> st_deltas st !! rp = Some rd -> sd_backend rd = Some rb ->
  exists b' st1, sd_commit p st = Ret tt (store_set p (committed d b b') st1) /\
    backend_wf b' /\ (forall x, backend_get x b' = view_of st p x) /\ store_wf st1 /\
    st_next st1 = st_next st /\ is_Some (st_deltas st1 !! p) /\
    (forall r, (p < r)%nat -> st_deltas st1 !! r = st_deltas st !! r) /\
    st_deltas st1 !! rp = Some (with_backend None rd).
Proof.
  intros Hwf Hl Hp Hb Hq Hf Hroot Hrd Hrb.
  destruct (commit_chain st p rp Hwf Hl Hroot) as (stack & Hstack & Hlast & Hrun).
  destruct (root_of_root _ _ _ Hroot) as (rd' & Hrd' & Hrq). assert (rd' = rd) as -> by congruence.
  assert ((rp < p)%nat) as Hlt.
  { pose proof (root_of_le _ _ _ Hwf Hroot). destruct (decide (rp = p)) as [->|]; [congruence|lia]. }
  set (st0 := store_set rp (with_backend None rd) st).
  assert (store_wf st0) as Hwf0.
  { eapply store_set_wf; [done..|]. destruct (Hwf rp rd Hrd) as (_ & _ & Hrem & Hpar).
    split; [done|]. by split. }
  destruct (Hrun st0 rb) as (b' & st1 & Hc & Hbw & Hg & Hn & Hw1 & Hag & Hpd);
    [done|intros; unfold st0; by rewrite store_set_lookup_ne by lia|
     exact (delta_wf_backend _ _ _ _ Hwf Hrd Hrb)| |].
  { intros x. rewrite (view_of_layer st rp rd rb) by done. unfold layer, parent_view, backend_get.
    rewrite Hrq. destruct (om_lookup x (bk_map rb)); [done|]. by destruct (om_mem x (sd_removed rd)). }
  specialize (Hpd d b ltac:(lia) Hp Hb). specialize (Hw1 Hwf0).
  unfold sd_commit. rewrite (bind_Ret _ _ _ _ _ (deref_eq _ _ _ Hp)).
  unfold is_root at 1. rewrite Hq, (bind_Ret _ _ _ _ _ (Hstack (S p) ltac:(lia))), Hlast.
  unfold unptr at 1. rewrite (bind_Ret (ret rp) _ st rp st eq_refl).
  rewrite (bind_Ret _ _ _ _ _ (deref_eq _ _ _ Hrd)), Hrb.
  unfold unptr at 1. rewrite (bind_Ret (ret rb) _ st rb st eq_refl).
  rewrite (bind_Ret (write rp (with_backend None rd)) _ st tt st0 eq_refl). cbv zeta.
  unfold start_write_batch. rewrite (bind_Ret _ _ _ _ _ Hc).
  rewrite (bind_Ret _ _ _ _ _ (sd_revision_eq _ _ _ _ Hpd eq_refl)).
  rewrite (bind_Ret _ _ _ _ _ (sd_id_eq _ _ _ _ Hpd eq_refl)).
  unfold sd_get_merkle_root. rewrite bind_assoc, (bind_Ret _ _ _ _ _ (deref_eq _ _ _ Hpd)).
  cbn [sd_final with_backend sd_merkle_root sd_backend sd_removed]. rewrite Hf. cbn [negb].
  exists b'. unfold committed, committed_digest.
  destruct (sd_merkle_root d) as [m|] eqn:Em.
  - exists st1. rewrite (bind_Ret (ret m) _ st1 m st1 eq_refl).
    rewrite (bind_Ret _ _ _ _ _ (deref_eq _ _ _ Hpd)). split.
    + unfold write, modify, with_parent, with_removed, with_backend. simpl. by rewrite Em, Hf.
    + do 3 (split; [done|]). split; [exact Hn|].
      split; [eauto|]. split; [|rewrite Hag by lia; apply store_set_lookup_eq].
      intros r Hr. rewrite Hag by lia.
      unfold st0. by rewrite store_set_lookup_ne by lia.
  - eexists. unfold unptr. rewrite bind_assoc, (bind_Ret (ret _) _ st1 _ st1 eq_refl).
    rewrite bind_assoc, (bind_Ret (write _ _) _ st1 tt _ eq_refl).
    rewrite (bind_Ret (ret _) _ _ _ _ eq_refl).
    rewrite (bind_Ret _ _ _ _ _ (deref_eq _ _ _ (store_set_lookup_eq _ _ _))). split.
    + unfold write, modify, with_parent, with_removed, with_backend. simpl. rewrite Hf. done.
    + split; [done|]. split; [done|]. destruct (Hw1 p _ Hpd) as [_ Hdw]. split.
      { eapply store_set_wf; [done..|]. destruct Hdw as (? & ? & ?). by split. }
      split; [exact Hn|]. split; [rewrite store_set_lookup_eq; eauto|].
      split; [|rewrite store_set_lookup_ne, Hag by lia; apply store_set_lookup_eq].
      intros r Hr. rewrite store_set_lookup_ne by lia. rewrite Hag by lia.
      unfold st0. by rewrite store_set_lookup_ne by lia.
Qed.

(** C30. Committing a final node: it becomes the root, keeps its identity and
    revision, stores the remembered digest, and it and all its descendants
    show what they showed. *)
Theorem sd_commit_view st p d b q :
  store_wf st -> live st p -> st_deltas st !! p = Some d -> sd_backend d = Some b ->
  sd_parent d = Some q -> sd_final d = true ->
  exists st' d' b', sd_commit p st = Ret tt st' /\ store_wf st' /\
    st_deltas st' !! p = Some d' /\ is_root d' = true /\ sd_removed d' = [] /\
    sd_backend d' = Some b' /\ bk_id b' = bk_id b /\ bk_revision b' = bk_revision b /\
    bk_merkle_root b' = committed_digest d b /\
    (forall r x, reach st r p -> view_of st' r x = view_of st r x).
Proof.
  intros Hwf Hl Hp Hb Hq Hf. destruct (live_root_of st p Hl) as [rp Hroot].
  assert (exists rd rb, st_deltas st !! rp = Some rd /\ sd_backend rd = Some rb) as (rd & rb & Hrd & Hrb).
  { clear -Hl Hroot. induction Hroot as [p d Hp Hq|p d q rp Hp Hq Hr IH]; [by apply live_lookup|].
    apply IH. by eapply live_parent. }
  destruct (sd_commit_eq st p d b q rp rd rb) as (b' & st1 & Hc & Hbw & Hg & Hw1 & Hn & [d1 Hd1] & Hag & _);
    [done..|].
  assert (store_wf (store_set p (committed d b b') st1)) as Hw.
  { eapply store_set_wf; [done..|]. split; [|split; [constructor|done]].
    intros ? [= <-]. exact Hbw. }
  eexists _, _, _. split; [exact Hc|]. split; [done|]. split; [apply store_set_lookup_eq|].
  do 6 (split; [done|]). intros r x Hr.
  assert (forall x, view_of (store_set p (committed d b b') st1) p x = view_of st p x) as Hvp.
  { clear x. intros x. rewrite (view_of_layer _ p (committed d b b')
      (set_merkle_root (committed_digest d b) (set_id (bk_id b) (set_revision (bk_revision b) b'))));
      [|done|apply store_set_lookup_eq|done].
    rewrite <- Hg. unfold layer, parent_view, backend_get. simpl. by destruct (om_lookup x (bk_map b')). }
  apply (view_of_descendants st _ p r x Hr Hwf Hw); [|done].
  intros r' Hr'. rewrite store_set_lookup_ne by lia. by apply Hag.
Qed.
End commit.

(** ** The digest of a delta *)

Section digest.
Context `{Blake3}.

Lemma om_mem_lookup (r r' : oset) : (forall x, om_mem x r = om_mem x r') ->
  forall x, om_lookup x r = om_lookup x r'.
Proof.
  intros Hm x. specialize (Hm x). unfold om_mem in Hm.
  by destruct (om_lookup x r) as [[]|], (om_lookup x r') as [[]|].
Qed.

(** The digest is a function of what was written and what was removed, not of
    the order of the writes. *)
Theorem delta_digest_contents b b' r r' :
  backend_wf b -> backend_wf b' -> om_wf r -> om_wf r' ->
  (forall x, backend_get x b = backend_get x b') -> (forall x, om_mem x r = om_mem x r') ->
  delta_digest b r = delta_digest b' r'.
Proof.
  intros Hb Hb' Hr Hr' Hg Hm. unfold delta_digest.
  rewrite (om_ext (bk_map b) (bk_map b')) by done.
  by rewrite (om_ext r r') by (done || by apply om_mem_lookup).
Qed.

(** An object written with an empty value and a removed object have the same
    digest. *)
Theorem delta_digest_empty_value k b :
  delta_digest (set_map [(k, [])] b) [] = delta_digest (set_map [] b) [(k, tt)].
Proof. done. Qed.

Lemma merge_objects m : merge_leaves m [] = flat_map (fun e => [e.1; e.2]) m.
Proof. by destruct m as [|[k v] m]. Qed.

(** The entries the leaves of a digest are made of, in order. *)
Fixpoint merge_pairs (objects : entries) : oset -> entries :=
  fix merge_removed (removed : oset) : entries :=
    match objects, removed with
    | [], _ => map (fun e => (e.1, [])) removed
    | _, [] => objects
    | (k, v) :: objects', (r, _) :: removed' =>
        if bytes_ltb k r then (k, v) :: merge_pairs objects' removed
        else (r, []) :: merge_removed removed'
    end.

Lemma merge_leaves_cons k v objects r u removed :
  merge_leaves ((k, v) :: objects) ((r, u) :: removed) =
  if bytes_ltb k r then k :: v :: merge_leaves objects ((r, u) :: removed) else r :: [] :: merge_leaves ((k, v) :: objects) removed.
Proof. done. Qed.

Lemma merge_pairs_cons k v objects r u removed :
  merge_pairs ((k, v) :: objects) ((r, u) :: removed) =
  if bytes_ltb k r then (k, v) :: merge_pairs objects ((r, u) :: removed) else (r, []) :: merge_pairs ((k, v) :: objects) removed.
Proof. done. Qed.

Lemma merge_leaves_pairs objects removed :
  merge_leaves objects removed = flat_map (fun e => [e.1; e.2]) (merge_pairs objects removed).
Proof.
  revert removed. induction objects as [|[k v] objects IH]; intros removed.
  - destruct removed as [|r removed]; [done|]. cbn. f_equal. f_equal. induction removed as [|x removed IHr]; [done|]. cbn. by rewrite IHr.
  - induction removed as [|[r u] removed IHr]; [done|]. rewrite merge_leaves_cons, merge_pairs_cons.
    destruct (bytes_ltb k r); [by rewrite IH|by rewrite IHr].
Qed.

Lemma merge_pairs_permutation objects removed :
  merge_pairs objects removed ≡ₚ objects ++ map (fun e => (e.1, [])) removed.
Proof.
  revert removed. induction objects as [|[k v] objects IH]; intros removed; [by destruct removed|].
  induction removed as [|[r u] removed IHr]; [cbn; by rewrite app_nil_r|]. rewrite merge_pairs_cons. destruct (bytes_ltb k r).
  - by rewrite IH.
  - rewrite IHr. apply Permutation_middle.
Qed.

Lemma flatten_length (m : entries) : length (flat_map (fun e => [e.1; e.2]) m) = (2 * length m)%nat.
Proof. induction m as [|e m IH]; simpl; [done|]. rewrite IH. lia. Qed.

Lemma flatten_inj (m m' : entries) : flat_map (fun e => [e.1; e.2]) m = flat_map (fun e => [e.1; e.2]) m' -> m = m'.
Proof.
  revert m'. induction m as [|[k v] m IH]; intros [|[k' v'] m'] Heq; simpl in *; try done.
  injection Heq as -> -> Heq. by rewrite (IH m').
Qed.

(** What a delta says of a key as far as its digest goes: the value it writes,
    or the empty string for a key it removes. *)
Definition digest_entry (b : backend) (removed : oset) (k v : bytes) : Prop :=
  (k, v) ∈ bk_map b \/ v = [] /\ (k, tt) ∈ removed.

Lemma elem_of_merge_pairs b removed k v : (k, v) ∈ merge_pairs (bk_map b) removed <-> digest_entry b removed k v.
Proof.
  rewrite merge_pairs_permutation, elem_of_app. unfold digest_entry. f_equiv. split.
  - intros ([r []] & [= -> ->] & Hin)%list_elem_of_In%in_map_iff. split; [done|]. by apply list_elem_of_In.
  - intros [-> Hin]. apply list_elem_of_In, in_map_iff. exists (k, tt). split; [done|]. by apply list_elem_of_In.
Qed.

(** C35. Two deltas with as many entries each (objects written and keys removed
    together) and equal digests: they write the same objects, up to writing an
    empty object being the same as removing the key, or the two computations
    hash two messages that collide. Deltas that remove nothing write exactly
    the same objects. *)
Theorem delta_digest_binding b b' r r' :
  (length (bk_map b) + length r = length (bk_map b') + length r')%nat ->
  delta_digest b r = delta_digest b' r' ->
  ((forall k v, digest_entry b r k v <-> digest_entry b' r' k v) /\ (r = [] -> r' = [] -> bk_map b = bk_map b')) \/
  collision_in (merkle_messages (merge_leaves (bk_map b) r)) (merkle_messages (merge_leaves (bk_map b') r')).
Proof.
  intros Hlen Heq. apply merkle_root_binding in Heq as [Heq|]; [left|by right|].
  - rewrite !merge_leaves_pairs in Heq. apply flatten_inj in Heq. split.
    + intros k v. by rewrite <- !elem_of_merge_pairs, Heq.
    + intros -> ->. destruct (bk_map b), (bk_map b'); cbn in Heq; by repeat case_match.
  - rewrite !merge_leaves_pairs, !flatten_length, !merge_pairs_permutation, !length_app, !length_map. lia.
Qed.

(** The digest is computed once: the first call remembers it and leaves the
    contents alone, later calls return it. *)
Theorem sd_get_merkle_root_cached st p d b :
  st_deltas st !! p = Some d -> sd_backend d = Some b -> sd_final d = true ->
  sd_merkle_root d = None ->
  let st' := store_set p (with_merkle_root (Some (delta_digest b (sd_removed d))) d) st in
  sd_get_merkle_root p st = Ret (delta_digest b (sd_removed d)) st' /\
  sd_get_merkle_root p st' = Ret (delta_digest b (sd_removed d)) st'.
Proof.
  intros Hp Hb Hf Hm st'. unfold sd_get_merkle_root. split.
  - rewrite (bind_Ret _ _ _ _ _ (deref_eq _ _ _ Hp)), Hf, Hm, Hb. done.
  - rewrite (bind_Ret (deref p) _ st' _ _ (deref_eq st' p _ (store_set_lookup_eq _ _ _))).
    simpl. by rewrite Hf.
Qed.

Lemma committed_digest_objects_only d b :
  sd_merkle_root d = None -> sd_removed d = [] -> committed_digest d b = zero_digest.
Proof. unfold committed_digest. by intros -> ->. Qed.

(** [commit] asks for the digest after the objects were moved to the root
    backend: unless it was computed before, a delta without removals is
    committed with the all-zero digest, whatever it holds. *)
Theorem sd_commit_forgets_objects st p d b q :
  store_wf st -> live st p -> st_deltas st !! p = Some d -> sd_backend d = Some b ->
  sd_parent d = Some q -> sd_final d = true ->
  sd_merkle_root d = None -> sd_removed d = [] ->
  exists st' d' b', sd_commit p st = Ret tt st' /\ st_deltas st' !! p = Some d' /\
    sd_backend d' = Some b' /\ bk_merkle_root b' = zero_digest.
Proof.
  intros Hwf Hl Hp Hb Hq Hf Hm Hr.
  destruct (live_root_of st p Hl) as [rp Hroot].
  assert (exists rd rb, st_deltas st !! rp = Some rd /\ sd_backend rd = Some rb) as (rd & rb & Hrd & Hrb).
  { clear -Hl Hroot. induction Hroot as [p d Hp Hq|p d q rp Hp Hq Hr IH]; [by apply live_lookup|].
    apply IH. by eapply live_parent. }
  destruct (sd_commit_eq st p d b q rp rd rb) as (b' & st1 & Hc & _); [done..|].
  eexists _, _, _. split; [exact Hc|]. split; [apply store_set_lookup_eq|]. split; [done|].
  simpl. by apply committed_digest_objects_only.
Qed.
End digest.

(** ** Children and clones *)

Lemma alloc_wf st d :
  store_wf st -> delta_wf (st_next st) d ->
  store_wf (Store (S (st_next st)) (<[st_next st := d]> (st_deltas st))).
Proof.
  intros Hwf Hd r dr. simpl. destruct (decide (st_next st = r)) as [<-|Hne].
  - rewrite lookup_insert_eq. intros [= <-]. split; [lia|done].
  - rewrite lookup_insert_ne by done. intros Hr. destruct (Hwf r dr Hr). split; [lia|done].
Qed.

Lemma alloc_fresh st r : store_wf st -> live st r -> ~ reach st r (st_next st).
Proof.
  intros Hwf Hl Hr. apply reach_le in Hr; [|done]. destruct (live_lookup st r Hl) as (d & _ & Hd & _).
  destruct (Hwf r d Hd). lia.
Qed.

(** The delta [make_child] allocates under [p]. *)
Definition is_child (p : ptr) (b : backend) (id : bytes) (c : state_delta) : Prop :=
  sd_parent c = Some p /\ sd_final c = false /\ sd_removed c = [] /\
  exists cb, sd_backend c = Some cb /\ bk_revision cb = u64 (bk_revision b + 1) /\
    bk_id cb = (if bytes_eqb id null_id then bk_id b else id) /\ bk_map cb = [].

Lemma sd_make_child_run st p d b id :
  st_deltas st !! p = Some d -> sd_backend d = Some b ->
  exists c, sd_make_child p id st =
    Ret (st_next st) (Store (S (st_next st)) (<[st_next st := c]> (st_deltas st))) /\ is_child p b id c.
Proof.
  intros Hp Hb. unfold sd_make_child. rewrite (bind_Ret _ _ _ _ _ (deref_eq _ _ _ Hp)), Hb.
  unfold unptr. rewrite (bind_Ret (ret b) _ st b st eq_refl). unfold alloc. eexists. split; [done|].
  do 3 (split; [done|]). by eexists.
Qed.

Lemma alloc_live st d r :
  store_wf st -> live st r -> live (Store (S (st_next st)) (<[st_next st := d]> (st_deltas st))) r.
Proof.
  intros Hwf Hr. induction Hr as [r dr br H1 H2 H3|r dr br q H1 H2 H3 _ IH].
  - eapply live_root; [|done..]. simpl. rewrite lookup_insert_ne; [done|]. destruct (Hwf r dr H1). lia.
  - eapply live_child; [|done..]. simpl. rewrite lookup_insert_ne; [done|]. destruct (Hwf r dr H1). lia.
Qed.

Lemma alloc_view st d r x :
  store_wf st -> live st r ->
  view_of (Store (S (st_next st)) (<[st_next st := d]> (st_deltas st))) r x = view_of st r x.
Proof. intros Hwf Hl. unfold view_of. apply view_frame. by apply alloc_fresh. Qed.

(** A child is a new live node that shows what its parent shows; all other
    nodes stay as they were. *)
Lemma make_child_facts st p d c b id :
  store_wf st -> live st p -> st_deltas st !! p = Some d -> is_child p b id c ->
  let st' := Store (S (st_next st)) (<[st_next st := c]> (st_deltas st)) in
  store_wf st' /\ (forall r, live st r -> live st' r) /\ live st' (st_next st) /\
  (forall x, view_of st' (st_next st) x = view_of st p x) /\
  (forall r x, live st r -> view_of st' r x = view_of st r x).
Proof.
  intros Hwf Hl Hp (Hpar & Hf & Hr & cb & Hcb & _ & _ & Hm) st'. destruct (Hwf p d Hp) as [Hlt Hd].
  assert (store_wf st') as Hwf'.
  { apply alloc_wf; [done|]. split; [|split].
    - intros b' Hb'. rewrite Hcb in Hb'. injection Hb' as <-. unfold backend_wf. rewrite Hm. constructor.
    - rewrite Hr. constructor.
    - intros q Hq. by rewrite Hpar in Hq; injection Hq as <-. }
  assert (st_deltas st' !! st_next st = Some c) as Hcl by (simpl; apply lookup_insert_eq).
  split; [done|]. split; [by intros; apply alloc_live|]. split.
  { eapply live_child; [exact Hcl|done|done|]. by apply alloc_live. }
  split; [|by intros; apply alloc_view].
  intros x. rewrite (view_of_layer st' _ c cb) by done. unfold layer, parent_view. rewrite Hr, Hpar, Hm.
  cbn. by apply alloc_view.
Qed.

(** A clone has the parent and the contents of the original; from then on each
    is written on its own: writing the clone leaves the original as it was. *)
Theorem sd_clone_view st p d b id k v :
  store_wf st -> live st p -> st_deltas st !! p = Some d -> sd_backend d = Some b ->
  sd_final d = false ->
  exists st' st'' n, sd_clone p id st = Ret (st_next st) st' /\ store_wf st' /\
    (forall x, view_of st' (st_next st) x = view_of st p x) /\
    sd_put (st_next st) k v st' = Ret n st'' /\
    view_of st'' (st_next st) k = Some v /\
    (forall x, view_of st'' p x = view_of st p x).
Proof.
  intros Hwf Hl Hp Hb Hf. unfold sd_clone.
  rewrite (bind_Ret _ _ _ _ _ (deref_eq _ _ _ Hp)), Hb. unfold unptr.
  rewrite (bind_Ret (ret b) _ st b st eq_refl). unfold alloc. cbv zeta.
  set (cb := match sd_merkle_root d with Some m => _ | None => _ end). set (c := Delta _ _ _ _ _).
  destruct (Hwf p d Hp) as [Hlt Hd].
  assert (bk_map cb = bk_map b) as Hcm.
  { unfold cb, backend_clone. destruct (sd_merkle_root d), (bytes_eqb id null_id); done. }
  assert (backend_wf cb) as Hcw by (unfold backend_wf; rewrite Hcm; by eapply (delta_wf_backend st p d)).
  assert (delta_wf (st_next st) c) as Hc.
  { destruct Hd as (_ & Hr & Hq). split; [|split; [done|]].
    - by intros ? [= <-].
    - intros q Hq'. specialize (Hq q Hq'). lia. }
  set (st' := Store _ _). assert (store_wf st') as Hwf' by (by apply alloc_wf).
  assert (st_deltas st' !! st_next st = Some c) as Hcl by (simpl; apply lookup_insert_eq).
  assert (forall r, live st r -> live st' r) as Hlive by (intros; by apply alloc_live).
  assert (forall r x, live st r -> view_of st' r x = view_of st r x) as Hview by (intros; by apply alloc_view).
  assert (live st' (st_next st)) as Hlc.
  { destruct (sd_parent d) as [q|] eqn:Hq.
    - eapply live_child; [exact Hcl|done|reflexivity|]. apply Hlive. by eapply live_parent.
    - eapply live_root; [exact Hcl|done|reflexivity]. }
  destruct (sd_put_view st' (st_next st) c k v Hwf' Hlc Hcl Hf) as (n & st'' & Hput & _ & _ & _ & Hv & Hfr).
  exists st', st'', n. split; [done|]. split; [done|]. split; [|split; [done|split]].
  - intros x. rewrite (view_of_layer st' _ c cb), (view_of_layer st p d b) by done.
    rewrite Hcm. unfold parent_view. simpl. destruct (sd_parent d) as [q|] eqn:Hq; [|done].
    rewrite Hview; [done|]. by eapply live_parent.
  - by rewrite Hv, bytes_eqb_refl.
  - intros x. rewrite Hfr; [by apply Hview|]. apply not_reach_lt; [done|lia].
Qed.

(** ** Deciding well-formedness of a concrete store *)

#[export] Instance om_wf_dec {A} (m : list (bytes * A)) : Decision (om_wf m).
Proof.
  unfold om_wf. induction (m.*1) as [|k l IH]; [left; constructor|].
  destruct IH as [IH|IH]; [destruct (decide (Forall (bytes_lt k) l)) as [HF|HF]|].
  - left. by constructor.
  - right. by inversion 1.
  - right. by inversion 1.
Defined.

Definition delta_check (p : ptr) (d : state_delta) : Prop :=
  from_option (fun b => om_wf (bk_map b)) True (sd_backend d) /\ om_wf (sd_removed d) /\
  from_option (fun q => (q < p)%nat) True (sd_parent d).

#[export] Instance delta_check_dec p d : Decision (delta_check p d).
Proof. unfold delta_check. destruct (sd_backend d), (sd_parent d); simpl; apply _. Defined.

Definition store_check (st : store) : Prop :=
  map_Forall (fun p d => (p < st_next st)%nat /\ delta_check p d) (st_deltas st).

Lemma store_check_wf st : bool_decide (store_check st) = true -> store_wf st.
Proof.
  intros H%bool_decide_eq_true p d Hp. destruct (H p d Hp) as (Hlt & Hb & Hr & Hq).
  split; [done|]. split; [|split; [done|]].
  - intros b Eb. by rewrite Eb in Hb.
  - intros q Eq. by rewrite Eq in Hq.
Qed.

(** ** The store as nested maps

    Specification: a node is a finite map from keys to objects; writing and
    removing update the map of the node alone, making a child copies the map,
    squashing replaces the parent's map by the child's. *)

Inductive delta_op := op_put (k v : bytes) | op_remove (k : bytes).

Definition run_op (p : ptr) (o : delta_op) : M store Z :=
  match o with op_put k v => sd_put p k v | op_remove k => sd_remove p k end.

Fixpoint run_ops (p : ptr) (os : list delta_op) : M store unit :=
  match os with
  | [] => ret tt
  | o :: os => run_op p o ;;; run_ops p os
  end.

Definition apply_op (o : delta_op) (f : bytes -> option bytes) (x : bytes) : option bytes :=
  match o with
  | op_put k v => if bytes_eqb x k then Some v else f x
  | op_remove k => if bytes_eqb x k then None else f x
  end.

Definition apply_ops (os : list delta_op) (f : bytes -> option bytes) : bytes -> option bytes :=
  fold_left (fun f o => apply_op o f) os f.

(** A key that is removed is not empty: removing an empty key whose value in the
    parent is empty, too, has size zero and is forgotten. State nodes put the
    space in front of every key. *)
Definition op_ok (o : delta_op) : Prop := match o with op_put _ _ => True | op_remove k => k <> [] end.
Definition ops_ok (os : list delta_op) : Prop := Forall op_ok os.

Lemma apply_ops_ext os f g x : (forall x, f x = g x) -> apply_ops os f x = apply_ops os g x.
Proof.
  unfold apply_ops. revert f g. induction os as [|o os IH]; intros f g Hfg; simpl; [done|].
  apply IH. intros y. destruct o; simpl; by rewrite Hfg.
Qed.

Lemma run_op_view st p d o :
  store_wf st -> live st p -> st_deltas st !! p = Some d -> sd_final d = false -> op_ok o ->
  exists n st', run_op p o st = Ret n st' /\ store_wf st' /\ same_shape st st' /\
    (forall r, live st r -> live st' r) /\
    (forall x, view_of st' p x = apply_op o (view_of st p) x) /\
    (forall r x, ~ reach st r p -> view_of st' r x = view_of st r x).
Proof.
  intros Hwf Hl Hp Hf Hk. destruct o as [k v|k]; cbn [run_op apply_op].
  - by apply (sd_put_view st p d).
  - destruct (live_lookup st p Hl) as (d0 & b & Hp0 & Hb). assert (d0 = d) as -> by congruence.
    destruct (sd_remove_view st p d b k) as (n & st' & H1 & H2 & H3 & H4 & H5 & H6 & _); [done..|].
    by exists n, st'.
Qed.

Lemma run_ops_view st p d os :
  store_wf st -> live st p -> st_deltas st !! p = Some d -> sd_final d = false -> ops_ok os ->
  exists st', run_ops p os st = Ret tt st' /\ store_wf st' /\ same_shape st st' /\
    (forall r, live st r -> live st' r) /\
    (forall x, view_of st' p x = apply_ops os (view_of st p) x) /\
    (forall r x, ~ reach st r p -> view_of st' r x = view_of st r x).
Proof.
  intros Hwf Hl Hp Hf Hos. revert st d Hwf Hl Hp Hf.
  induction Hos as [|o os Ho Hos IH]; intros st d Hwf Hl Hp Hf.
  - exists st. split; [done|]. split; [done|]. split; [reflexivity|]. split; [done|]. by split.
  - destruct (run_op_view st p d o Hwf Hl Hp Hf Ho) as (n & st1 & Hr & Hwf1 & Hsh & Hlv & Hv & Hfr).
    destruct (same_shape_lookup _ _ _ _ Hsh Hp) as (d1 & Hp1 & _ & Hf1).
    destruct (IH st1 d1 Hwf1 (Hlv p Hl) Hp1 ltac:(congruence)) as (st2 & Hr2 & Hwf2 & Hsh2 & Hlv2 & Hv2 & Hfr2).
    exists st2. cbn [run_ops]. rewrite (bind_Ret _ _ _ _ _ Hr). split; [done|]. split; [done|].
    split; [by etrans|]. split; [by auto|]. split.
    + intros x. rewrite Hv2. unfold apply_ops. simpl. by apply apply_ops_ext.
    + intros r x Hn. rewrite Hfr2, Hfr; [done|done|].
      intros Hre. apply Hn. eapply same_shape_reach; [by apply same_shape_sym|done].
Qed.

(** C15. Any sequence of writes, and of removals of keys that are not empty, on a
    live node that is not final completes, [get] then returns what the same updates of a map give, and the
    nodes that do not descend from it read as before. *)
Theorem sd_refines_map st p d os x :
  store_wf st -> live st p -> st_deltas st !! p = Some d -> sd_final d = false -> ops_ok os ->
  exists st', run_ops p os st = Ret tt st' /\ store_wf st' /\
    sd_get p x st' = Ret (apply_ops os (view_of st p) x) st' /\
    (forall r, live st r -> ~ reach st r p -> sd_get r x st' = Ret (view_of st r x) st').
Proof.
  intros Hwf Hl Hp Hf Hos.
  destruct (run_ops_view st p d os Hwf Hl Hp Hf Hos) as (st' & Hr & Hwf' & _ & Hlv & Hv & Hfr).
  exists st'. split; [done|]. split; [done|]. split.
  - rewrite sd_get_ok by auto. by rewrite Hv.
  - intros r Hlr Hn. rewrite sd_get_ok by auto. by rewrite Hfr.
Qed.

(** C16. Writes through a child, and removals of keys that are not empty, are
    atomic for its parent: until the child is squashed the parent reads as
    before, and squashing applies them all. *)
Theorem child_writes_atomic st p d os x :
  store_wf st -> live st p -> st_deltas st !! p = Some d -> ops_ok os ->
  exists c st1 st2 st3,
    sd_make_child p null_id st = Ret c st1 /\
    run_ops c os st1 = Ret tt st2 /\ sd_get p x st2 = Ret (view_of st p x) st2 /\
    sd_squash c st2 = Ret tt st3 /\ store_wf st3 /\
    sd_get p x st3 = Ret (apply_ops os (view_of st p) x) st3.
Proof.
  intros Hwf Hl Hp Hos. destruct (live_lookup st p Hl) as (d0 & b & Hp0 & Hb).
  assert (d0 = d) as -> by congruence.
  destruct (sd_make_child_run st p d b null_id Hp Hb) as (c & Hrun & Hc).
  destruct (make_child_facts st p d c b null_id Hwf Hl Hp Hc) as (Hwf1 & Hlv1 & Hlc & Hvc & Hv1).
  set (st1 := Store _ _) in *. assert (st_deltas st1 !! st_next st = Some c) as Hcl by apply lookup_insert_eq.
  destruct Hc as (Hpar & Hfin & _).
  destruct (run_ops_view st1 (st_next st) c os Hwf1 Hlc Hcl Hfin Hos)
    as (st2 & Hr2 & Hwf2 & Hsh2 & Hlv2 & Hv2 & Hfr2).
  destruct (same_shape_lookup _ _ _ _ Hsh2 Hcl) as (c2 & Hc2 & Hpar2 & _).
  destruct (sd_squash_view st2 (st_next st) c2 p Hwf2 (Hlv2 _ Hlc) Hc2 ltac:(congruence))
    as (st3 & Hr3 & Hwf3 & _ & Hlv3 & Hv3 & _).
  exists (st_next st), st1, st2, st3. split; [done|]. split; [done|]. split.
  { rewrite sd_get_ok by auto. rewrite Hfr2, Hv1 by done || (apply not_reach_lt; [done|by destruct (Hwf p d Hp)]). done. }
  split; [done|]. split; [done|]. rewrite sd_get_ok by auto. rewrite Hv3, Hv2.
  f_equal. by apply apply_ops_ext.
Qed.

(** ** A concrete store *)

Definition demo_root : state_delta :=
  Delta None (Some (set_map [([1], [10; 11]); ([2], [])] default_backend)) [] None true.
Definition demo_child : state_delta :=
  Delta (Some 0%nat) (Some (set_map [([1], [12])] (new_backend (zero_bytes 31 ++ [1]) 1))) [([2], tt)] None false.
Definition demo_final : state_delta :=
  Delta (Some 0%nat) (Some (set_map [([1], [12])] (new_backend (zero_bytes 31 ++ [1]) 1))) [] None true.
Definition demo_store : store := Store 2 (<[1%nat := demo_child]> (<[0%nat := demo_root]> ∅)).
Definition demo_store_final : store := Store 2 (<[1%nat := demo_final]> (<[0%nat := demo_root]> ∅)).

Lemma demo_store_wf : store_wf demo_store.
Proof. apply store_check_wf. by vm_compute. Qed.
Lemma demo_store_final_wf : store_wf demo_store_final.
Proof. apply store_check_wf. by vm_compute. Qed.
Lemma demo_live : live demo_store 1.
Proof. eapply live_child; [reflexivity..|]. by eapply live_root. Qed.
Lemma demo_final_live : live demo_store_final 1.
Proof. eapply live_child; [reflexivity..|]. by eapply live_root. Qed.

Lemma sd_refines_map_witness :
  exists st', run_ops 1 [op_put [3] [7]; op_remove [1]] demo_store = Ret tt st' /\
    sd_get 1 [1] st' = Ret None st' /\ sd_get 0 [1] st' = Ret (Some [10; 11]) st'.
Proof.
  destruct (sd_refines_map demo_store 1 demo_child [op_put [3] [7]; op_remove [1]] [1]
    demo_store_wf demo_live eq_refl eq_refl) as (st' & Hr & _ & Hg & Ho).
  { repeat constructor; discriminate. }
  exists st'. split; [exact Hr|]. split; [exact Hg|].
  apply (Ho 0%nat); [by eapply live_root|]. apply not_reach_lt; [apply demo_store_wf|lia].
Defined.

Lemma child_writes_atomic_witness :
  exists c st1 st2 st3, sd_make_child 1 null_id demo_store = Ret c st1 /\
    run_ops c [op_put [3] [7]] st1 = Ret tt st2 /\ sd_get 1 [3] st2 = Ret None st2 /\
    sd_squash c st2 = Ret tt st3 /\ store_wf st3 /\ sd_get 1 [3] st3 = Ret (Some [7]) st3.
Proof.
  apply (child_writes_atomic demo_store 1 demo_child [op_put [3] [7]] [3]
    demo_store_wf demo_live eq_refl).
  repeat constructor; discriminate.
Defined.

Lemma sd_put_size_exact_witness :
  exists n st', sd_put 1 [3] [7; 8] demo_store = Ret n st' /\
    n = entry_size [3] (view_of st' 1 [3]) - entry_size [3] (view_of demo_store 1 [3]).
Proof.
  eexists _, _. split; [vm_compute; reflexivity|].
  apply (sd_put_size_exact demo_store 1 demo_child _ [3] [7; 8] _ _
    demo_store_wf demo_live eq_refl eq_refl); by vm_compute.
Defined.

Lemma sd_put_size_counts_parent_twice_witness :
  exists n st', sd_put 1 [1] [9] demo_store = Ret n st' /\
    n = entry_size [1] (view_of st' 1 [1]) - entry_size [1] (view_of demo_store 1 [1]) - 3.
Proof.
  eexists _, _. split; [vm_compute; reflexivity|].
  apply (sd_put_size_counts_parent_twice demo_store 1 demo_child _ [1] [9] [12] [10; 11] _ _
    demo_store_wf demo_live eq_refl eq_refl); by vm_compute.
Defined.

#[local] Existing Instance toy_hash.

Lemma sd_commit_view_witness :
  exists st' d' b', sd_commit 1 demo_store_final = Ret tt st' /\ store_wf st' /\
      st_deltas st' !! 1%nat = Some d' /\ is_root d' = true /\ sd_removed d' = [] /\
      sd_backend d' = Some b' /\ bk_id b' = zero_bytes 31 ++ [1] /\ bk_revision b' = 1 /\
      bk_merkle_root b' = committed_digest demo_final (set_map [([1], [12])] (new_backend (zero_bytes 31 ++ [1]) 1)) /\
      (forall r x, reach demo_store_final r 1 -> view_of st' r x = view_of demo_store_final r x).
Proof.
  exact (sd_commit_view demo_store_final 1 demo_final _ 0 demo_store_final_wf demo_final_live
    eq_refl eq_refl eq_refl eq_refl).
Defined.

Lemma sd_commit_forgets_objects_witness :
  exists st' d' b', sd_commit 1 demo_store_final = Ret tt st' /\ st_deltas st' !! 1%nat = Some d' /\
      sd_backend d' = Some b' /\ bk_merkle_root b' = zero_digest.
Proof.
  exact (sd_commit_forgets_objects demo_store_final 1 demo_final _ 0 demo_store_final_wf demo_final_live
    eq_refl eq_refl eq_refl eq_refl eq_refl eq_refl).
Defined.

Lemma delta_digest_binding_witness :
  let b := set_map [([1], [10; 11]); ([2], [])] default_backend in
  let b' := set_map [([1], [10; 11])] (new_backend (zero_bytes 31 ++ [1]) 1) in
  delta_digest b [] = delta_digest b' [([2], tt)] /\
  ((forall k v, digest_entry b [] k v <-> digest_entry b' [([2], tt)] k v) \/
   collision_in (merkle_messages (merge_leaves (bk_map b) [])) (merkle_messages (merge_leaves (bk_map b') [([2], tt)]))).
Proof.
  cbv zeta. split; [reflexivity|].
  destruct (delta_digest_binding (set_map [([1], [10; 11]); ([2], [])] default_backend)
    (set_map [([1], [10; 11])] (new_backend (zero_bytes 31 ++ [1]) 1)) [] [([2], tt)] eq_refl eq_refl) as [[H _]|H]; [left; exact H|right; exact H].
Defined.

Lemma sd_get_merkle_root_cached_witness :
  let m := delta_digest (set_map [([1], [12])] (new_backend (zero_bytes 31 ++ [1]) 1)) [] in
  let st' := store_set 1 (with_merkle_root (Some m) demo_final) demo_store_final in
  sd_get_merkle_root 1 demo_store_final = Ret m st' /\ sd_get_merkle_root 1 st' = Ret m st'.
Proof.
  exact (sd_get_merkle_root_cached demo_store_final 1 demo_final _ eq_refl eq_refl eq_refl eq_refl).
Defined.

Lemma sd_clone_view_witness :
  exists st' st'' n, sd_clone 1 (zero_bytes 31 ++ [7]) demo_store = Ret 2%nat st' /\ store_wf st' /\
    (forall x, view_of st' 2 x = view_of demo_store 1 x) /\
    sd_put 2 [1] [9] st' = Ret n st'' /\ view_of st'' 2 [1] = Some [9] /\
    (forall x, view_of st'' 1 x = view_of demo_store 1 x).
Proof.
  exact (sd_clone_view demo_store 1 demo_child _ (zero_bytes 31 ++ [7]) [1] [9]
    demo_store_wf demo_live eq_refl eq_refl eq_refl).
Defined.
