(* ===== verification/StateNode.v ===== *)
(** * Object spaces and state nodes

    [state_db/types.hpp], [state_node.{hpp,cpp}] and
    [temporary_state_node.cpp]: the key an object has in the backend, and the
    nodes through which the rest of the program reads and writes objects. A
    state node is its pointer to a delta; a temporary node loses the pointer
    when it is squashed. *)

From stdpp Require Import base gmap list option numbers strings.
From S2P Require Import Prelude OrdMap Memory Crypto Backend StateDelta.

(** ** Object spaces *)

Definition object_space_padding_size : nat := 3.
Definition address_size : nat := 32.

Record object_space := ObjectSpace {
  os_system : bool;
  os_padding : bytes;
  os_address : bytes;
  os_id : Z
}.

(** [object_space{}] *)
Definition default_space : object_space :=
  ObjectSpace false (zero_bytes object_space_padding_size) (zero_bytes address_size) 0.

(** [memory::as_bytes( space )]: the 40 bytes of the object, without gaps. *)
Definition space_bytes (s : object_space) : bytes :=
  (if os_system s then 1 else 0) :: os_padding s ++ os_address s ++ le_bytes 4 (os_id s).

(** [make_compound_key] *)
Definition make_compound_key (space : object_space) (key : bytes) : bytes :=
  space_bytes space ++ key.

(** The C++ type of the members. *)
Definition space_ok (s : object_space) : Prop :=
  length (os_padding s) = object_space_padding_size /\ length (os_address s) = address_size /\
  u32_ok (os_id s).

(** ** state_node *)

Definition sn_get (p : ptr) (space : object_space) (key : bytes) : M store (option bytes) :=
  sd_get p (make_compound_key space key).

(** [next] and [previous] return an empty optional. *)
Definition sn_next (p : ptr) (space : object_space) (key : bytes) : M store (option (bytes * bytes)) :=
  ret None.
Definition sn_previous (p : ptr) (space : object_space) (key : bytes) : M store (option (bytes * bytes)) :=
  ret None.

Definition sn_put (p : ptr) (space : object_space) (key value : bytes) : M store Z :=
  sd_put p (make_compound_key space key) value.

Definition sn_remove (p : ptr) (space : object_space) (key : bytes) : M store Z :=
  sd_remove p (make_compound_key space key).

(** [state_node::make_child], [clone]: the default argument of
    [state_delta::make_child] and [clone] is the null id. *)
Definition sn_make_child (p : ptr) : M store ptr := sd_make_child p null_id.
Definition sn_clone (p : ptr) : M store ptr := sd_clone p null_id.
Definition sn_id (p : ptr) : M store bytes := sd_id p.
Definition sn_parent_id (p : ptr) : M store bytes := sd_parent_id p.
Definition sn_revision (p : ptr) : M store Z := sd_revision p.

(** ** temporary_state_node *)

(** [temporary_state_node::squash]; the result is the node's [_delta]
    afterwards. *)
Definition tn_squash (t : option ptr) : M store (option ptr) :=
  match t with
  | None => throw (runtime_error "state node has already been squashed")
  | Some p =>
      let* q := sd_get_parent p in
      let* q := unptr q in
      let* f := sd_is_final q in
      if f then throw (runtime_error "parent state node is final")
      else sd_squash p ;;; ret None
  end.

(** ** Separation of the object spaces *)

Lemma space_bytes_length s : space_ok s -> length (space_bytes s) = 40%nat.
Proof.
  intros (Hp & Ha & _). unfold space_bytes. cbn [length].
  rewrite !length_app, length_le_bytes, Hp, Ha. done.
Qed.

Lemma space_bytes_inj s s' : space_ok s -> space_ok s' -> space_bytes s = space_bytes s' -> s = s'.
Proof.
  intros (Hp & Ha & Hi) (Hp' & Ha' & Hi') H. unfold space_bytes in H.
  injection H as Hb H. apply app_inj_1 in H as [H1 H]; [|by rewrite Hp, Hp'].
  apply app_inj_1 in H as [H2 H3]; [|by rewrite Ha, Ha'].
  apply (f_equal le_val) in H3.
  change (le_val (le_bytes 4 (os_id s)) = le_val (le_bytes 4 (os_id s'))) in H3.
  rewrite !le_val_bytes in H3. change (8 * Z.of_nat 4) with 32 in H3.
  rewrite !Z.mod_small in H3 by done.
  destruct s as [b ? ? ?], s' as [b' ? ? ?]; simpl in *; subst. f_equal. by destruct b, b'.
Qed.

(** Objects of different spaces, or under different keys of a space, never
    share a backend key: what one program's space holds cannot be reached
    through another space, whatever the keys. *)
Theorem make_compound_key_inj s s' k k' :
  space_ok s -> space_ok s' -> make_compound_key s k = make_compound_key s' k' -> s = s' /\ k = k'.
Proof.
  intros Hs Hs' H. apply app_inj_1 in H as [H ->]; [|by rewrite !space_bytes_length].
  split; [by apply space_bytes_inj|done].
Qed.

Lemma make_compound_key_inj_witness :
  exists s k, space_ok s /\ make_compound_key s k = make_compound_key s [7] /\ k = [7].
Proof.
  exists default_space, [7]. assert (space_ok default_space) as Hok by (by vm_compute).
  split; [done|]. split; [done|].
  exact (proj2 (make_compound_key_inj default_space default_space [7] [7] Hok Hok eq_refl)).
Defined.

