(* ===== verification/DeltaIndex.v ===== *)
(** * The index of state deltas and the database

    [state_db/delta_index.{hpp,cpp}], [permanent_state_node.cpp] and
    [database.{hpp,cpp}]: the forest of permanent nodes, its root, its head and
    its fork heads. The multi-index container is the list of its entries in
    insertion order, each under the identifier it was inserted with; both of
    its orders are recovered from it (identifiers are unique, and nodes with
    the same parent are kept in insertion order). The backends are map
    backends: no path is given. *)

From stdpp Require Import base gmap list option numbers strings.
From S2P Require Import Prelude OrdMap Memory Crypto Backend StateDelta StateNode.

(** [state_node_comparator_function], over shared pointers that may be null. *)
Definition comparator : Type := gset (option ptr) -> option ptr -> ptr -> option ptr.

(** [genesis_init_function]: it gets a state node over the root delta. *)
Definition genesis_init : Type := ptr -> M store unit.

Record delta_index := DeltaIndex {
  di_store : store;
  di_init : genesis_init;
  di_comp : comparator;
  di_entries : list (bytes * ptr);
  di_root : option ptr;
  di_head : option ptr;
  di_fork_heads : gset (option ptr);
  di_alive : bool
}.

(** The index a new [database] holds. *)
Definition new_index (st : store) : delta_index :=
  DeltaIndex st (fun _ => ret tt) (fun _ h _ => h) [] None None ∅ true.

Definition set_store (st : store) (i : delta_index) : delta_index :=
  DeltaIndex st (di_init i) (di_comp i) (di_entries i) (di_root i) (di_head i) (di_fork_heads i) (di_alive i).
Definition set_config (init : genesis_init) (comp : comparator) (i : delta_index) : delta_index :=
  DeltaIndex (di_store i) init comp (di_entries i) (di_root i) (di_head i) (di_fork_heads i) (di_alive i).
Definition set_entries (es : list (bytes * ptr)) (i : delta_index) : delta_index :=
  DeltaIndex (di_store i) (di_init i) (di_comp i) es (di_root i) (di_head i) (di_fork_heads i) (di_alive i).
Definition set_root (r : option ptr) (i : delta_index) : delta_index :=
  DeltaIndex (di_store i) (di_init i) (di_comp i) (di_entries i) r (di_head i) (di_fork_heads i) (di_alive i).
Definition set_head (h : option ptr) (i : delta_index) : delta_index :=
  DeltaIndex (di_store i) (di_init i) (di_comp i) (di_entries i) (di_root i) h (di_fork_heads i) (di_alive i).
Definition set_fork_heads (f : gset (option ptr)) (i : delta_index) : delta_index :=
  DeltaIndex (di_store i) (di_init i) (di_comp i) (di_entries i) (di_root i) (di_head i) f (di_alive i).

Definition on_store {A} (m : M store A) : M delta_index A := zoom di_store set_store m.

(** [_index.find( id )] *)
Fixpoint entry_find (id : bytes) (es : list (bytes * ptr)) : option ptr :=
  match es with
  | [] => None
  | (i, p) :: es => if bytes_eqb id i then Some p else entry_find id es
  end.

(** [_index.insert( ptr ).second]: the identifier must be new. *)
Definition index_insert (p : ptr) : M delta_index bool :=
  let* id := on_store (sd_id p) in
  let* es := gets di_entries in
  match entry_find id es with
  | Some _ => ret false
  | None => modify (set_entries (es ++ [(id, p)])) ;;; ret true
  end.

Definition not_open {A} : M delta_index A := throw (runtime_error "database is not open").

(** [delta_index::is_open] *)
Definition di_is_open : M delta_index bool :=
  gets (fun i => match di_root i, di_head i with Some _, Some _ => true | _, _ => false end).

Definition when_open {A} (m : M delta_index A) : M delta_index A :=
  let* o := di_is_open in if o then m else not_open.

Definition fifo_comparator : comparator := fun _ head_block _ => head_block.

(** [delta_index::open]: both overloads; [fifo] is the only algorithm. *)
Definition di_open_with (init : genesis_init) (comp : comparator) : M delta_index unit :=
  modify (set_config init comp) ;;;
  let* root := on_store (alloc new_delta) in
  let* r := on_store (sd_revision root) in
  (if r =? 0 then on_store (init root) else ret tt) ;;;
  on_store (sd_finalize root) ;;;
  index_insert root ;;;
  modify (fun i => set_fork_heads ({[Some root]} ∪ di_fork_heads i) i) ;;;
  modify (set_root (Some root)) ;;;
  modify (set_head (Some root)).

Definition di_open (init : genesis_init) : M delta_index unit := di_open_with init fifo_comparator.

(** [delta_index::close] *)
Definition di_close : M delta_index unit :=
  modify (fun i => set_head None (set_root None (set_fork_heads ∅ (set_entries [] i)))).

(** [delta_index::reset] *)
Definition di_reset : M delta_index unit :=
  when_open (
    let* root := gets di_root in
    let* root := unptr root in
    on_store (sd_clear root) ;;;
    let* init := gets di_init in
    let* comp := gets di_comp in
    di_open_with init comp).

(** [delta_index::get] *)
Definition di_get (id : bytes) : M delta_index (option ptr) :=
  when_open (let* es := gets di_entries in ret (entry_find id es)).

(** The loop of [delta_index::at_revision]; parents are allocated before their
    children, so [S p] steps are enough. *)
Fixpoint at_revision_loop (fuel : nat) (revision : Z) (p : ptr) : M store ptr :=
  match fuel with
  | O => fail out_of_fuel
  | S fuel =>
      let* r := sd_revision p in
      if revision <? r then
        let* q := sd_get_parent p in
        let* q := unptr q in
        at_revision_loop fuel revision q
      else ret p
  end.

(** [delta_index::at_revision] *)
Definition di_at_revision (revision : Z) (child_id : bytes) : M delta_index (option ptr) :=
  when_open (
    let* root := gets di_root in
    let* rp := unptr root in
    let* rr := on_store (sd_revision rp) in
    if revision <? rr then throw (runtime_error "cannot ask for node with revision less than root.")
    else if revision =? rr then ret root
    else
      let* delta := di_get child_id in
      let* head := gets di_head in
      let* p := unptr (match delta with Some p => Some p | None => head end) in
      let* q := on_store (at_revision_loop (S p) revision p) in
      ret (Some q)).

(** [delta_index::add] *)
Definition di_add (p : ptr) : M delta_index unit :=
  let* ok := index_insert p in
  if ok then ret tt else throw (runtime_error "could not add state delta").

(** [delta_index::finalize] *)
Definition di_finalize (p : ptr) : M delta_index unit :=
  when_open (
    let* head := gets di_head in
    let* hp := unptr head in
    let* pr := on_store (sd_revision p) in
    let* hr := on_store (sd_revision hp) in
    (if hr <? pr then modify (set_head (Some p))
     else if pr =? hr then
       let* comp := gets di_comp in
       let* forks := gets di_fork_heads in
       match comp forks head p with
       | Some new_head => modify (set_head (Some new_head))
       | None =>
           modify (set_fork_heads (forks ∖ {[head]})) ;;;
           let* q := on_store (sd_get_parent hp) in modify (set_head q)
       end
     else ret tt) ;;;
    let* q := on_store (sd_get_parent p) in
    modify (fun i => set_fork_heads (di_fork_heads i ∖ {[q]}) i) ;;;
    modify (fun i => set_fork_heads ({[di_head i]} ∪ di_fork_heads i) i)).

(** The entries whose parent has identifier [id], in insertion order, less the
    white list. *)
Fixpoint children_of (id : bytes) (whitelist : list bytes) (es : list (bytes * ptr)) : M store (list bytes) :=
  match es with
  | [] => ret []
  | (i, p) :: es =>
      let* pid := sd_parent_id p in
      let* rest := children_of id whitelist es in
      ret (if bytes_eqb pid id && negb (existsb (bytes_eqb i) whitelist) then i :: rest else rest)
  end.

(** The growing queue of [delta_index::remove]: [todo] is the part not yet
    visited, the result is the whole queue. A node is queued once, after its
    parent, so the number of entries bounds the loop. *)
Fixpoint remove_queue (fuel : nat) (head_id : bytes) (whitelist : list bytes) (todo : list bytes)
  : M delta_index (list bytes) :=
  match todo with
  | [] => ret []
  | id :: todo =>
      match fuel with
      | O => fail out_of_fuel
      | S fuel =>
          if bytes_eqb id head_id then throw (runtime_error "cannot discard an ancestor of head")
          else
            let* es := gets di_entries in
            let* cs := on_store (children_of id whitelist es) in
            let* rest := remove_queue fuel head_id whitelist (todo ++ cs) in
            ret (id :: rest)
      end
  end.

(** The erasing loop: the iterator is dereferenced after the element it points
    to was erased. *)
Fixpoint erase_ids (ids : list bytes) : M delta_index unit :=
  match ids with
  | [] => ret tt
  | id :: ids =>
      let* es := gets di_entries in
      match entry_find id es with
      | Some _ => fail use_after_free
      | None => erase_ids ids
      end
  end.

(** [delta_index::remove] *)
Definition di_remove (p : ptr) (whitelist : list bytes) : M delta_index unit :=
  when_open (
    let* id := on_store (sd_id p) in
    let* root := gets di_root in
    let* rp := unptr root in
    let* rid := on_store (sd_id rp) in
    if bytes_eqb id rid then throw (runtime_error "cannot discard root node")
    else
      let* head := gets di_head in
      let* hp := unptr head in
      let* head_id := on_store (sd_id hp) in
      let* es := gets di_entries in
      let* queue := remove_queue (S (length es)) head_id whitelist [id] in
      erase_ids queue ;;;
      let* q := on_store (sd_get_parent p) in
      modify (fun i => set_fork_heads (di_fork_heads i ∖ {[q]}) i)).

Section commit.
Context `{Blake3}.

(** [delta_index::commit]; [modify] keeps both orders up to date and does
    nothing else, as the identifier stays the same. *)
Definition di_commit (p : ptr) : M delta_index unit :=
  when_open (
    let* id := on_store (sd_id p) in
    let* old_root := gets di_root in
    let* rp := unptr old_root in
    let* rid := on_store (sd_id rp) in
    if bytes_eqb id rid then ret tt
    else
      modify (set_root (Some p)) ;;;
      let* es := gets di_entries in
      (match entry_find id es with
       | Some n => on_store (sd_commit n)
       | None => fail use_after_free
       end) ;;;
      let* nid := on_store (sd_id p) in
      di_remove rp [nid]).

(** ** permanent_state_node *)

(** [_index.lock()] *)
Definition index_lock {A} (m : M delta_index A) : M delta_index A :=
  let* alive := gets di_alive in if alive then m else not_open.

Definition pn_final (p : ptr) : M delta_index bool := on_store (sd_is_final p).

Definition pn_finalize (p : ptr) : M delta_index unit :=
  on_store (sd_finalize p) ;;; index_lock (di_finalize p).

Definition pn_merkle_root (p : ptr) : M delta_index digest := on_store (sd_get_merkle_root p).

Definition pn_discard (p : ptr) : M delta_index unit := index_lock (di_remove p []).

Definition pn_commit (p : ptr) : M delta_index unit :=
  index_lock (on_store (sd_commit p) ;;; di_commit p).

Definition pn_make_child (p : ptr) (child_id : bytes) : M delta_index ptr :=
  let* child := on_store (sd_make_child p child_id) in
  index_lock (di_add child ;;; ret child).

Definition pn_clone (p : ptr) (new_id : bytes) : M delta_index ptr :=
  let* c := on_store (sd_clone p new_id) in
  index_lock (di_add c ;;; ret c).
End commit.

(** ** database *)

Definition db_open (init : genesis_init) : M delta_index unit := di_open init.
Definition db_close : M delta_index unit := di_close.
Definition db_reset : M delta_index unit := di_reset.
Definition db_at_revision (revision : Z) (child_id : bytes) : M delta_index (option ptr) :=
  di_at_revision revision child_id.
Definition db_get (id : bytes) : M delta_index (option ptr) := di_get id.
Definition db_root : M delta_index (option ptr) := gets di_root.
Definition db_head : M delta_index (option ptr) := gets di_head.
Definition db_fork_heads : M delta_index (gset (option ptr)) := gets di_fork_heads.

(** ** Well-formed indices *)

Definition backend_of (st : store) (p : ptr) : option backend := st_deltas st !! p ≫= sd_backend.
Definition is_final (st : store) (p : ptr) : Prop :=
  exists d, st_deltas st !! p = Some d /\ sd_final d = true.

(** An entry is a live node under its own identifier. *)
Definition entry_ok (st : store) (e : bytes * ptr) : Prop :=
  live st e.2 /\ exists b, backend_of st e.2 = Some b /\ bk_id b = e.1.

(** The head is the node of greatest revision among the final nodes. *)
Definition longest (st : store) (es : list (bytes * ptr)) (h : ptr) : Prop :=
  forall id p b hb, (id, p) ∈ es -> is_final st p -> backend_of st p = Some b ->
    backend_of st h = Some hb -> bk_revision b <= bk_revision hb.

Record index_wf (i : delta_index) (r h : ptr) : Prop := {
  iw_store : store_wf (di_store i);
  iw_nodup : NoDup (di_entries i).*1;
  iw_entries : Forall (entry_ok (di_store i)) (di_entries i);
  iw_root : di_root i = Some r;
  iw_head : di_head i = Some h;
  iw_root_entry : exists id, (id, r) ∈ di_entries i;
  iw_head_entry : exists id, (id, h) ∈ di_entries i;
  iw_head_final : is_final (di_store i) h;
  iw_longest : longest (di_store i) (di_entries i) h;
  iw_alive : di_alive i = true
}.

Lemma on_store_Ret {A} (m : M store A) i a st :
  m (di_store i) = Ret a st -> on_store m i = Ret a (set_store st i).
Proof. unfold on_store, zoom. by intros ->. Qed.

Lemma on_store_read {A} (m : M store A) i a :
  m (di_store i) = Ret a (di_store i) -> on_store m i = Ret a i.
Proof. intros H. rewrite (on_store_Ret m i a _ H). by destruct i. Qed.

Lemma when_open_eq {A} (m : M delta_index A) i r h :
  index_wf i r h -> when_open m i = m i.
Proof.
  intros W. unfold when_open, di_is_open. rewrite bind_gets.
  by rewrite (iw_root _ _ _ W), (iw_head _ _ _ W).
Qed.

Lemma backend_of_eq st p b :
  backend_of st p = Some b -> exists d, st_deltas st !! p = Some d /\ sd_backend d = Some b.
Proof. unfold backend_of. destruct (st_deltas st !! p); [eauto|done]. Qed.

Lemma read_id st p b : backend_of st p = Some b -> sd_id p st = Ret (bk_id b) st.
Proof. intros (d & Hp & Hb)%backend_of_eq. by eapply sd_id_eq. Qed.

Lemma read_revision st p b : backend_of st p = Some b -> sd_revision p st = Ret (bk_revision b) st.
Proof. intros (d & Hp & Hb)%backend_of_eq. by eapply sd_revision_eq. Qed.

Lemma live_backend st p : live st p -> exists b, backend_of st p = Some b.
Proof. intros (d & b & Hp & Hb)%live_lookup. exists b. unfold backend_of. by rewrite Hp. Qed.

Lemma entry_find_Some id p es : entry_find id es = Some p -> (id, p) ∈ es.
Proof.
  induction es as [|[i q] es IH]; simpl; [done|]. case_bool; bool_to_prop; intros ?; simplify_eq.
  - constructor.
  - constructor. auto.
Qed.

Lemma entry_find_None id es : entry_find id es = None <-> id ∉ es.*1.
Proof.
  induction es as [|[i q] es IH]; simpl; [by split; [intros _ ?%elem_of_nil|]|].
  case_bool; bool_to_prop.
  - subst. split; [done|]. intros Hn. destruct Hn. constructor.
  - rewrite IH, not_elem_of_cons. naive_solver.
Qed.

Lemma entry_find_elem id p es : NoDup es.*1 -> (id, p) ∈ es -> entry_find id es = Some p.
Proof.
  intros Hnd He. destruct (entry_find id es) as [q|] eqn:E.
  - apply entry_find_Some in E. clear -Hnd He E. induction es as [|[i x] es IH]; [by apply elem_of_nil in He|].
    simpl in Hnd. apply NoDup_cons in Hnd as [Hn Hnd].
    apply elem_of_cons in He as [He|He], E as [E|E]; simplify_eq; auto.
    + destruct Hn. by apply (list_elem_of_fmap_2' fst _ (i, q)).
    + destruct Hn. by apply (list_elem_of_fmap_2' fst _ (i, p)).
  - apply entry_find_None in E. destruct E. by apply (list_elem_of_fmap_2' fst _ (id, p)).
Qed.

Section index_facts.
Context (i : delta_index) (r h : ptr) (W : index_wf i r h).

Lemma wf_entry id p : (id, p) ∈ di_entries i -> entry_ok (di_store i) (id, p).
Proof. intros He. pose proof (iw_entries _ _ _ W) as HF. by rewrite Forall_forall in HF; apply HF. Qed.

Lemma wf_entry_backend id p :
  (id, p) ∈ di_entries i -> exists b, backend_of (di_store i) p = Some b /\ bk_id b = id.
Proof. intros He. exact (proj2 (wf_entry id p He)). Qed.

Lemma wf_head_backend : exists b, backend_of (di_store i) h = Some b.
Proof. destruct (iw_head_entry _ _ _ W) as [id He]. destruct (wf_entry_backend id h He) as (b & ? & ?). eauto. Qed.

Lemma wf_root_backend : exists b, backend_of (di_store i) r = Some b.
Proof. destruct (iw_root_entry _ _ _ W) as [id He]. destruct (wf_entry_backend id r He) as (b & ? & ?). eauto. Qed.
End index_facts.

(** ** Finalizing a node *)

Definition finalized (d : state_delta) : state_delta :=
  Delta (sd_parent d) (sd_backend d) (sd_removed d) (sd_merkle_root d) true.

Lemma sd_finalize_eq st p d :
  st_deltas st !! p = Some d -> sd_finalize p st = Ret tt (store_set p (finalized d) st).
Proof. intros Hp. unfold sd_finalize. by rewrite (bind_Ret _ _ _ _ _ (deref_eq _ _ _ Hp)). Qed.

Section finalized.
Context (st : store) (p : ptr) (d : state_delta) (Hp : st_deltas st !! p = Some d).

Lemma finalized_lookup x :
  st_deltas (store_set p (finalized d) st) !! x =
  if bool_decide (x = p) then Some (finalized d) else st_deltas st !! x.
Proof using Type.
  case_bool_decide; [subst; apply store_set_lookup_eq|by apply store_set_lookup_ne].
Qed.

Lemma finalized_backend x : backend_of (store_set p (finalized d) st) x = backend_of st x.
Proof using Hp.
  unfold backend_of. rewrite finalized_lookup. case_bool_decide; [subst; by rewrite Hp|done].
Qed.

Lemma finalized_wf : store_wf st -> store_wf (store_set p (finalized d) st).
Proof using Hp. intros Hwf. eapply store_set_wf; [done..|]. by destruct (Hwf p d Hp). Qed.

Lemma finalized_live r : live st r -> live (store_set p (finalized d) st) r.
Proof using Hp.
  intros Hl. induction Hl as [r dr b Hr Hb Hq|r dr b q Hr Hb Hq Hl IH];
    destruct (decide (r = p)) as [->|Hne]; simplify_eq.
  - eapply (live_root _ p (finalized d)); [apply store_set_lookup_eq|done..].
  - eapply live_root; [by rewrite store_set_lookup_ne|done..].
  - eapply (live_child _ p (finalized d)); [apply store_set_lookup_eq|done..].
  - eapply live_child; [by rewrite store_set_lookup_ne|done..].
Qed.

Lemma finalized_final x : is_final (store_set p (finalized d) st) x <-> x = p \/ is_final st x.
Proof using Hp.
  unfold is_final. rewrite finalized_lookup. case_bool_decide; [subst; naive_solver|naive_solver].
Qed.

Lemma finalized_view r k : view_of (store_set p (finalized d) st) r k = view_of st r k.
Proof using Hp.
  unfold view_of. generalize (S r) as n. intros n. revert r. induction n as [|n IH]; intros r; [done|].
  cbn [view]. rewrite finalized_lookup. case_bool_decide as E; [subst; rewrite Hp; cbn|];
    [|destruct (st_deltas st !! r) as [dr|]; [|done]].
  - destruct (sd_backend d ≫= backend_get k); [done|]. unfold is_removed; cbn.
    destruct (om_mem k (sd_removed d)); [done|]. destruct (sd_parent d); [apply IH|done].
  - destruct (sd_backend dr ≫= backend_get k); [done|].
    destruct (is_removed k dr); [done|]. destruct (sd_parent dr); [apply IH|done].
Qed.
End finalized.

(** [delta_index::finalize] under the first-in-first-out rule: the node becomes
    head exactly when it is longer than the head. *)
Lemma di_finalize_run i h p d b hb :
  (forall m : M delta_index unit, when_open m i = m i) -> di_head i = Some h ->
  di_comp i = fifo_comparator ->
  st_deltas (di_store i) !! p = Some d -> sd_backend d = Some b ->
  backend_of (di_store i) h = Some hb ->
  let h' := if bk_revision hb <? bk_revision b then p else h in
  di_finalize p i =
  Ret tt (set_fork_heads ({[Some h']} ∪ (di_fork_heads i ∖ {[sd_parent d]})) (set_head (Some h') i)).
Proof.
  intros Ho Hhd Hc Hp Hb Hh h'. unfold di_finalize. rewrite Ho, bind_gets, Hhd. unfold unptr. rewrite bind_ret.
  rewrite (bind_Ret _ _ _ _ _ (on_store_read _ i _ (sd_revision_eq _ _ _ _ Hp Hb))).
  rewrite (bind_Ret _ _ _ _ _ (on_store_read _ i _ (read_revision _ _ _ Hh))).
  assert (forall m, m i = Ret tt (set_head (Some h') i) ->
    bind m (fun _ => let* q := on_store (sd_get_parent p) in
      modify (fun i => set_fork_heads (di_fork_heads i ∖ {[q]}) i) ;;;
      modify (fun i => set_fork_heads ({[di_head i]} ∪ di_fork_heads i) i)) i =
    Ret tt (set_fork_heads ({[Some h']} ∪ (di_fork_heads i ∖ {[sd_parent d]})) (set_head (Some h') i))) as Hk.
  { intros m Hm. rewrite (bind_Ret _ _ _ _ _ Hm).
    rewrite (bind_Ret _ _ _ _ _ (on_store_read (sd_get_parent p) (set_head (Some h') i) (sd_parent d)
      ltac:(unfold sd_get_parent; simpl; by rewrite (bind_Ret _ _ _ _ _ (deref_eq _ _ _ Hp))))). done. }
  apply Hk. unfold h'. assert (set_head (Some h) i = i) as Hsame.
  { destruct i; simpl in *. by rewrite Hhd. }
  destruct (bk_revision hb <? bk_revision b); [done|].
  destruct (bk_revision b =? bk_revision hb).
  - rewrite bind_gets, bind_gets, Hc. done.
  - unfold ret. by rewrite Hsame.
Qed.

(** Finalizing a node of the index: the index stays well formed, nothing the
    nodes show changes, and the head is again the longest final node, the older
    one on a tie. *)
Lemma pn_finalize_head i r h id p b hb :
  index_wf i r h -> di_comp i = fifo_comparator ->
  (id, p) ∈ di_entries i -> backend_of (di_store i) p = Some b -> backend_of (di_store i) h = Some hb ->
  exists i', pn_finalize p i = Ret tt i' /\
    index_wf i' r (if bk_revision hb <? bk_revision b then p else h) /\
    di_comp i' = di_comp i /\ di_entries i' = di_entries i /\
    (forall q x, view_of (di_store i') q x = view_of (di_store i) q x) /\
    exists d, st_deltas (di_store i) !! p = Some d /\ di_store i' = store_set p (finalized d) (di_store i).
Proof.
  intros W Hc He Hpb Hh. apply backend_of_eq in Hpb as (d & Hp & Hb).
  set (st' := store_set p (finalized d) (di_store i)). set (i1 := set_store st' i).
  assert (forall x, is_final st' x <-> x = p \/ is_final (di_store i) x) as Hfin by (by apply finalized_final).
  assert (forall x, backend_of st' x = backend_of (di_store i) x) as Hbk by (by apply finalized_backend).
  assert (backend_of (di_store i) p = Some b) as Hpb by (unfold backend_of; by rewrite Hp).
  set (h' := if bk_revision hb <? bk_revision b then p else h).
  assert (pn_finalize p i = Ret tt (set_fork_heads ({[Some h']} ∪ (di_fork_heads i ∖ {[sd_parent d]}))
    (set_head (Some h') i1))) as Hrun.
  { unfold pn_finalize.
    rewrite (bind_Ret _ _ _ _ _ (on_store_Ret _ i _ _ (sd_finalize_eq _ _ _ Hp))).
    unfold index_lock. rewrite bind_gets. simpl. rewrite (iw_alive _ _ _ W). fold st'. fold i1.
    assert (forall (m : M delta_index unit), when_open m i1 = m i1) as Ho.
    { intros m. unfold when_open, di_is_open. rewrite bind_gets. simpl.
      by rewrite (iw_root _ _ _ W), (iw_head _ _ _ W). }
    pose proof (di_finalize_run i1 h p (finalized d) b hb) as Hr. apply Hr; try done.
    - apply (iw_head _ _ _ W).
    - simpl. apply store_set_lookup_eq.
    - simpl. by rewrite Hbk. }
  eexists. split; [exact Hrun|]. split; [|split; [done|split; [done|]]].
  - destruct W as [Hst Hnd Hes Hro Hhe Hre Hhen Hhf Hlo Hal].
    constructor; simpl; try done.
    + by apply finalized_wf.
    + eapply Forall_impl; [exact Hes|]. intros [id' q] (Hl & bq & Hbq & Hid). split; simpl in *.
      * by apply finalized_live.
      * exists bq. by rewrite Hbk.
    + unfold h'. case_bool; [eauto|done].
    + apply Hfin. unfold h'. case_bool; [by left|by right].
    + intros id' q bq hb' Hq Hqf Hbq Hbh. rewrite Hbk in Hbq, Hbh.
      assert (q = p \/ is_final (di_store i) q) as [->|Hqf'] by (by apply Hfin).
      * assert (bq = b) as -> by congruence. unfold h' in Hbh.
        destruct (bk_revision hb <? bk_revision b) eqn:E; bool_to_prop; simplify_eq; lia.
      * specialize (Hlo id' q bq hb Hq Hqf' Hbq Hh). unfold h' in Hbh.
        destruct (bk_revision hb <? bk_revision b) eqn:E; bool_to_prop; simplify_eq; lia.
  - simpl. split; [by apply finalized_view|by exists d].
Qed.

(** ** Adding a child *)

Lemma index_insert_eq i p b :
  backend_of (di_store i) p = Some b ->
  index_insert p i =
  match entry_find (bk_id b) (di_entries i) with
  | Some _ => Ret false i
  | None => Ret true (set_entries (di_entries i ++ [(bk_id b, p)]) i)
  end.
Proof.
  intros Hb. unfold index_insert.
  rewrite (bind_Ret _ _ _ _ _ (on_store_read _ i _ (read_id _ _ _ Hb))), bind_gets.
  by destruct (entry_find _ _).
Qed.

(** A child under a new identifier: the node is in the index, one revision
    after its parent, not final, and shows what the parent shows; the head, the
    root and all other nodes stay. *)
Lemma pn_make_child_new i r h pid p b id :
  index_wf i r h -> (pid, p) ∈ di_entries i -> backend_of (di_store i) p = Some b ->
  id <> null_id -> id ∉ (di_entries i).*1 ->
  exists c i' cb, pn_make_child p id i = Ret c i' /\ index_wf i' r h /\
    di_entries i' = di_entries i ++ [(id, c)] /\
    backend_of (di_store i') c = Some cb /\ bk_revision cb = u64 (bk_revision b + 1) /\
    ~ is_final (di_store i') c /\
    (forall x, view_of (di_store i') c x = view_of (di_store i) p x) /\
    (forall q x, live (di_store i) q -> view_of (di_store i') q x = view_of (di_store i) q x) /\
    (forall q, live (di_store i) q -> live (di_store i') q /\ ~ reach (di_store i') q c /\
       st_deltas (di_store i') !! q = st_deltas (di_store i) !! q) /\ di_comp i' = di_comp i /\
    (exists d, st_deltas (di_store i') !! c = Some d /\ sd_parent d = Some p).
Proof.
  intros W He Hpb Hid Hnew. destruct (wf_entry _ _ _ W _ _ He) as [Hl _].
  destruct (backend_of_eq _ _ _ Hpb) as (d & Hp & Hb). pose proof (iw_store _ _ _ W) as Hwf.
  destruct (sd_make_child_run (di_store i) p d b id Hp Hb) as (c & Hrun & Hc).
  set (st := di_store i) in *. set (st' := Store _ _) in Hrun.
  destruct (make_child_facts st p d c b id Hwf Hl Hp Hc) as (Hwf' & Hlive & Hlc & Hvc & Hview).
  fold st' in Hwf', Hlive, Hlc, Hvc, Hview.
  destruct Hc as (Hpar & Hfin & _ & cb & Hcb & Hrev & Hcid & _).
  assert (st_deltas st' !! st_next st = Some c) as Hlk by apply lookup_insert_eq.
  assert (backend_of st' (st_next st) = Some cb) as Hbc by (unfold backend_of; by rewrite Hlk).
  assert (forall x, (x < st_next st)%nat -> st_deltas st' !! x = st_deltas st !! x) as Hag.
  { intros x Hx. simpl. apply lookup_insert_ne. lia. }
  assert (forall q bq, backend_of st q = Some bq -> st_deltas st' !! q = st_deltas st !! q) as Hold.
  { intros q bq (dq & Hq & _)%backend_of_eq. apply Hag. by destruct (Hwf q dq Hq). }
  rewrite (proj2 (bytes_eqb_neq id null_id) Hid) in Hcid.
  exists (st_next st), (set_entries (di_entries i ++ [(id, st_next st)]) (set_store st' i)), cb.
  split.
  { unfold pn_make_child. rewrite (bind_Ret _ _ _ _ _ (on_store_Ret _ i _ _ Hrun)).
    unfold index_lock. rewrite bind_gets. simpl. rewrite (iw_alive _ _ _ W).
    unfold di_add. rewrite bind_assoc.
    unfold bind. rewrite (index_insert_eq (set_store st' i) (st_next st) cb Hbc). simpl. rewrite Hcid.
    by rewrite (proj2 (entry_find_None id (di_entries i)) Hnew). }
  assert (forall q, is_final st' q -> q <> st_next st -> is_final st q) as Hfb.
  { intros q (dq & Hq & Hqf) Hne. exists dq. split; [|done]. simpl in Hq. by rewrite lookup_insert_ne in Hq. }
  split; [|split; [done|split; [exact Hbc|split; [done|split; [|split; [exact Hvc|split; [exact Hview|split; [|split; [done|by exists c]]]]]]]]].
  3:{ intros q Hq. assert (q < st_next st)%nat as Hlt by (destruct (live_lookup _ _ Hq) as (dq & bq & Hdq & _); by destruct (Hwf q dq Hdq)).
      split; [by apply Hlive|]. split; [by apply not_reach_lt|by apply Hag]. }
  2:{ intros (d' & Hd' & Hf'). simpl in Hd'. rewrite lookup_insert_eq in Hd'. congruence. }
  destruct W as [Hst Hnd Hes Hro Hhe Hre Hhen Hhf Hlo Hal].
  assert (forall id' q, (id', q) ∈ di_entries i -> st_deltas st' !! q = st_deltas st !! q) as Hent.
  { intros id' q Hq. rewrite Forall_forall in Hes. destruct (Hes _ Hq) as (_ & bq & Hbq & _). by eapply Hold. }
  constructor; cbn [di_store di_entries di_root di_head di_alive set_entries set_store]; try done.
  - rewrite fmap_app. apply NoDup_app. split; [done|]. split; [|apply NoDup_singleton].
    intros x Hx Hx'%list_elem_of_singleton. by subst.
  - apply Forall_app. split; [|constructor; [|constructor]].
    + eapply Forall_impl; [exact Hes|]. intros [id' q] (Hlq & bq & Hbq & Hidq). split; cbn [fst snd] in *; [auto|].
      exists bq. split; [|done]. unfold backend_of. by rewrite (Hold _ _ Hbq).
    + split; [exact Hlc|]. exists cb. by split.
  - destruct Hre as [rid Hre]. exists rid. apply elem_of_app. by left.
  - destruct Hhen as [hid Hhen]. exists hid. apply elem_of_app. by left.
  - destruct Hhf as (dh & Hh & Hhf). exists dh. split; [|done]. destruct Hhen as [hid Hhen]. by rewrite (Hent _ _ Hhen).
  - intros id' q bq hb Hq Hqf Hbq Hbh. apply elem_of_app in Hq as [Hq|Hq%list_elem_of_singleton].
    + destruct Hhen as [hid Hhen]. unfold backend_of in Hbq, Hbh. rewrite (Hent _ _ Hq) in Hbq.
      rewrite (Hent _ _ Hhen) in Hbh. apply (Hlo id' q bq hb Hq); [|done..].
      destruct Hqf as (dq & Hdq & Hqf). exists dq.
      rewrite (Hent _ _ Hq) in Hdq. by split.
    + injection Hq as -> ->. destruct Hqf as (dq & Hdq & Hqf). simpl in Hdq.
      rewrite lookup_insert_eq in Hdq. congruence.
Qed.

(** A child under an identifier the index already has (the null identifier
    stands for the parent's own) is refused; the index keeps its entries. *)
Lemma pn_make_child_duplicate i r h pid p b id :
  index_wf i r h -> (pid, p) ∈ di_entries i -> backend_of (di_store i) p = Some b ->
  id = null_id \/ id ∈ (di_entries i).*1 ->
  exists c st', sd_make_child p id (di_store i) = Ret c st' /\
    pn_make_child p id i = Throw (runtime_error "could not add state delta") (set_store st' i).
Proof.
  intros W He Hpb Hid. destruct (backend_of_eq _ _ _ Hpb) as (d & Hp & Hb).
  destruct (sd_make_child_run (di_store i) p d b id Hp Hb) as (c & Hrun & _ & _ & _ & cb & Hcb & _ & Hcid & _).
  set (st' := Store _ _) in Hrun.
  assert (backend_of st' (st_next (di_store i)) = Some cb) as Hbc.
  { unfold backend_of. simpl. by rewrite lookup_insert_eq. }
  exists (st_next (di_store i)), st'. split; [done|].
  unfold pn_make_child. rewrite (bind_Ret _ _ _ _ _ (on_store_Ret _ i _ _ Hrun)).
  unfold index_lock. rewrite bind_gets. simpl. rewrite (iw_alive _ _ _ W).
  unfold di_add. rewrite bind_assoc. unfold bind.
  rewrite (index_insert_eq (set_store st' i) _ cb Hbc). simpl.
  destruct (entry_find (bk_id cb) (di_entries i)) eqn:E; [done|].
  apply entry_find_None in E. destruct E. rewrite Hcid. destruct (wf_entry_backend _ _ _ W _ _ He) as (b' & Hb' & <-).
  assert (b' = b) as -> by congruence. case_bool; bool_to_prop.
  - by apply (list_elem_of_fmap_2' fst _ (bk_id b, p)).
  - by destruct Hid.
Qed.

(** ** Discarding and committing *)

Lemma remove_queue_head fuel head_id w id todo i q i' :
  remove_queue fuel head_id w (id :: todo) i = Ret q i' -> exists rest, q = id :: rest.
Proof.
  destruct fuel; [done|]. cbn [remove_queue]. case_bool; [done|]. intros Hq. inv_bind. eauto.
Qed.

Lemma deref_inv p st d st' : deref p st = Ret d st' -> st' = st /\ st_deltas st !! p = Some d.
Proof. unfold deref. destruct (st_deltas st !! p); [|done]. by intros [= <- <-]. Qed.

Lemma sd_id_state p st id st' : sd_id p st = Ret id st' -> st' = st.
Proof.
  intros (d & s & [-> _]%deref_inv & H)%bind_Ret_inv. unfold unptr in H.
  destruct (sd_backend d); [|done]. by injection H.
Qed.

Lemma children_of_state id w es st cs st' : children_of id w es st = Ret cs st' -> st' = st.
Proof.
  revert cs st'. induction es as [|[j p] es IH]; intros cs st'; [by intros [= _ <-]|]. cbn [children_of].
  intros (a & s1 & H1 & H2)%bind_Ret_inv. apply bind_Ret_inv in H2 as (b & s2 & H2 & [= _ <-]).
  apply bind_Ret_inv in H1 as (d & s3 & [-> _]%deref_inv & H1).
  assert (s1 = st) as ->; [|by eapply IH].
  destruct (sd_parent d) as [q|]; [by eapply sd_id_state|by injection H1].
Qed.

Lemma remove_queue_state fuel head_id w todo i q i' :
  remove_queue fuel head_id w todo i = Ret q i' -> i' = i.
Proof.
  revert todo q i'. induction fuel as [|fuel IH]; intros [|id todo] q i' Hq; try by injection Hq.
  - done.
  - cbn [remove_queue] in Hq. case_bool; [done|]. rewrite bind_gets in Hq.
    apply bind_Ret_inv in Hq as (cs & i1 & Hc & Hq). apply bind_Ret_inv in Hq as (rest & i2 & Hr & [= _ <-]).
    assert (i1 = i) as ->; [|by eapply IH]. unfold on_store, zoom in Hc.
    destruct (children_of _ _ _ _) as [cs' st'| |] eqn:E; [|done..]. injection Hc as _ <-.
    apply children_of_state in E as ->. by destruct i.
Qed.

(** [remove] never completes for a node of the index: it throws (the root, an
    ancestor of the head) or reads an erased element. *)
Theorem di_remove_never_returns i r h id p w i' :
  index_wf i r h -> (id, p) ∈ di_entries i -> di_remove p w i <> Ret tt i'.
Proof.
  intros W He Hrun. destruct (wf_entry_backend _ _ _ W _ _ He) as (b & Hb & Hid).
  destruct (wf_root_backend _ _ _ W) as (rb & Hrb). destruct (wf_head_backend _ _ _ W) as (hb & Hhb).
  unfold di_remove in Hrun. rewrite (when_open_eq _ _ _ _ W) in Hrun.
  rewrite (bind_Ret _ _ _ _ _ (on_store_read _ i _ (read_id _ _ _ Hb))), bind_gets in Hrun.
  rewrite (iw_root _ _ _ W) in Hrun. unfold unptr in Hrun. rewrite bind_ret in Hrun.
  rewrite (bind_Ret _ _ _ _ _ (on_store_read _ i _ (read_id _ _ _ Hrb))) in Hrun.
  case_bool; [done|]. rewrite bind_gets, (iw_head _ _ _ W), bind_ret in Hrun.
  rewrite (bind_Ret _ _ _ _ _ (on_store_read _ i _ (read_id _ _ _ Hhb))), bind_gets in Hrun.
  apply bind_Ret_inv in Hrun as (q & i1 & Hq & Hrun).
  pose proof (remove_queue_state _ _ _ _ _ _ _ Hq) as ->.
  apply remove_queue_head in Hq as [rest ->]. apply bind_Ret_inv in Hrun as (? & i2 & Hrun & _).
  cbn [erase_ids] in Hrun. rewrite bind_gets, Hid in Hrun.
  by rewrite (entry_find_elem id p) in Hrun by (done || apply (iw_nodup _ _ _ W)).
Qed.

Section commit_crash.
Context `{Blake3}.

(** [permanent_state_node::commit] commits the delta, which takes the backend
    of the root away, and then lets the index ask that root for its
    identifier: the commit of a final node other than the root dereferences a
    null pointer. *)
Theorem pn_commit_crashes i r h id p d q :
  index_wf i r h -> (id, p) ∈ di_entries i -> st_deltas (di_store i) !! p = Some d ->
  sd_parent d = Some q -> sd_final d = true -> root_of (di_store i) p r ->
  pn_commit p i = Fault null_dereference.
Proof.
  intros W He Hp Hq Hf Hroot. destruct (wf_entry _ _ _ W _ _ He) as [Hl _]. cbn [snd] in Hl.
  destruct (live_lookup _ _ Hl) as (d0 & b & Hp0 & Hb). assert (d0 = d) as -> by congruence.
  destruct (wf_root_backend _ _ _ W) as (rb & (rd & Hrd & Hrb)%backend_of_eq).
  destruct (sd_commit_eq (di_store i) p d b q r rd rb (iw_store _ _ _ W) Hl Hp Hb Hq Hf Hroot Hrd Hrb)
    as (b' & st1 & Hc & _ & _ & _ & _ & _ & _ & Hr1).
  assert (p <> r) as Hne.
  { intros ->. destruct (root_of_root _ _ _ Hroot) as (d' & Hd' & Hn). congruence. }
  unfold pn_commit, index_lock. rewrite bind_gets, (iw_alive _ _ _ W).
  rewrite (bind_Ret _ _ _ _ _ (on_store_Ret _ i _ _ Hc)).
  set (st' := store_set p _ st1). unfold di_commit, when_open, di_is_open. rewrite bind_gets.
  cbn [di_root di_head set_store]. rewrite (iw_root _ _ _ W), (iw_head _ _ _ W).
  assert (sd_id p st' = Ret (bk_id b) st') as Hid.
  { exact (sd_id_eq st' p _ _ (store_set_lookup_eq _ _ _) eq_refl). }
  rewrite (bind_Ret _ _ _ _ _ (on_store_read (sd_id p) (set_store st' i) _ Hid)), bind_gets.
  cbn [di_root set_store]. rewrite (iw_root _ _ _ W). unfold unptr. rewrite bind_ret.
  unfold bind at 1, on_store, zoom, sd_id, deref at 1. cbn [di_store set_store]. unfold bind at 1.
  unfold st'. rewrite store_set_lookup_ne by done. by rewrite Hr1.
Qed.
End commit_crash.

(** ** Nodes by revision *)

(** Along the chain, a child is one revision after its parent. *)
Inductive chain_revisions (st : store) : ptr -> Prop :=
| chain_root p d b : st_deltas st !! p = Some d -> sd_backend d = Some b -> sd_parent d = None ->
    chain_revisions st p
| chain_child p d b q db : st_deltas st !! p = Some d -> sd_backend d = Some b -> sd_parent d = Some q ->
    backend_of st q = Some db -> bk_revision b = bk_revision db + 1 ->
    chain_revisions st q -> chain_revisions st p.

Lemma at_revision_loop_ok st p b r rb rev n :
  store_wf st -> chain_revisions st p -> root_of st p r -> backend_of st p = Some b ->
  backend_of st r = Some rb -> bk_revision rb <= rev <= bk_revision b -> (p < n)%nat ->
  exists q qb, at_revision_loop n rev p st = Ret q st /\ reach st p q /\
    backend_of st q = Some qb /\ bk_revision qb = rev.
Proof.
  intros Hwf Hc. revert b n.
  induction Hc as [p d b0 Hp Hb Hq|p d b0 q db Hp Hb Hq Hdb Hrev Hc IH]; intros b [|n] Hroot Hpb Hrb Hle Hn; try lia;
    cbn [at_revision_loop]; rewrite (bind_Ret _ _ _ _ _ (read_revision _ _ _ Hpb)).
  - assert (p = r) as -> by (inversion Hroot; simplify_eq; done).
    assert (b = rb) as -> by congruence.
    rewrite (proj2 (Z.ltb_ge rev (bk_revision rb))) by lia.
    exists r, rb. split; [done|]. split; [constructor|]. split; [done|lia].
  - assert (b = b0) as -> by (unfold backend_of in Hpb; rewrite Hp in Hpb; simpl in Hpb; congruence).
    destruct (rev <? bk_revision b0) eqn:E; bool_to_prop.
    + assert (root_of st q r) as Hr' by (inversion Hroot; simplify_eq; done).
      destruct (Hwf p d Hp) as (_ & _ & _ & Hlt). specialize (Hlt q Hq).
      destruct (IH db n Hr' Hdb Hrb ltac:(lia) ltac:(lia)) as (x & xb & Hrun & Hre & Hxb & Hx).
      exists x, xb. split; [|split; [by eapply reach_step|done]].
      unfold sd_get_parent. rewrite bind_assoc, (bind_Ret _ _ _ _ _ (deref_eq _ _ _ Hp)), bind_ret, Hq.
      unfold unptr. by rewrite bind_ret.
    + exists p, b0. split; [done|]. split; [constructor|]. split; [done|lia].
Qed.

(** [at_revision] between the root's revision and the node's returns the
    ancestor of the node (of the head, when the identifier is unknown) that has
    the revision; a smaller revision than the root's is refused. *)
Theorem di_at_revision_ok i r h rev id p b rb :
  index_wf i r h -> (forall id p, (id, p) ∈ di_entries i -> chain_revisions (di_store i) p /\ root_of (di_store i) p r) ->
  p = (match entry_find id (di_entries i) with Some c => c | None => h end) ->
  backend_of (di_store i) p = Some b -> backend_of (di_store i) r = Some rb ->
  bk_revision rb <= rev <= bk_revision b ->
  exists q qb, di_at_revision rev id i = Ret (Some q) i /\ reach (di_store i) p q /\
    backend_of (di_store i) q = Some qb /\ bk_revision qb = rev.
Proof.
  intros W Hch Hpe Hpb Hrb Hle. unfold di_at_revision. rewrite (when_open_eq _ _ _ _ W), bind_gets.
  rewrite (iw_root _ _ _ W). unfold unptr at 1. rewrite bind_ret.
  rewrite (bind_Ret _ _ _ _ _ (on_store_read _ i _ (read_revision _ _ _ Hrb))).
  assert (exists id', (id', p) ∈ di_entries i) as [id' He].
  { destruct (entry_find id (di_entries i)) as [c|] eqn:E; subst.
    - exists id. by apply entry_find_Some.
    - apply (iw_head_entry _ _ _ W). }
  destruct (Hch id' p He) as [Hc Hroot]. pose proof (iw_store _ _ _ W) as Hwf.
  rewrite (proj2 (Z.ltb_ge rev (bk_revision rb))) by lia.
  destruct (at_revision_loop_ok _ p b r rb rev (S p) Hwf Hc Hroot Hpb Hrb Hle ltac:(lia))
    as (q & qb & Hrun & Hre & Hqb & Hrq).
  destruct (rev =? bk_revision rb) eqn:E; bool_to_prop.
  - exists r, rb. split; [done|]. split; [|done]. clear -Hroot. induction Hroot; [constructor|by eapply reach_step].
  - exists q, qb. split; [|done]. unfold di_get. rewrite (bind_Ret (when_open _) _ i (entry_find id (di_entries i)) i).
    2:{ by rewrite (when_open_eq _ _ _ _ W). }
    rewrite bind_gets, (iw_head _ _ _ W).
    assert (match entry_find id (di_entries i) with Some p0 => Some p0 | None => Some h end = Some p) as ->.
    { rewrite Hpe. by destruct (entry_find id (di_entries i)). }
    unfold unptr. rewrite bind_ret. by rewrite (bind_Ret _ _ _ _ _ (on_store_read _ i _ Hrun)).
Qed.

(** ** Opening and resetting *)

(** What [open] needs of the genesis function: on a live node that is not
    final it returns, and leaves the tree, the identifiers and the revisions
    alone. *)
Definition init_ok (init : genesis_init) : Prop :=
  forall st p d b, store_wf st -> live st p -> st_deltas st !! p = Some d -> sd_final d = false ->
    backend_of st p = Some b ->
    exists st' b', init p st = Ret tt st' /\ store_wf st' /\ same_shape st st' /\
      (forall r, live st r -> live st' r) /\ backend_of st' p = Some b' /\
      bk_id b' = bk_id b /\ bk_revision b' = bk_revision b.

(** Writing a list of objects, as the genesis function of the controller does. *)
Fixpoint write_all (es : entries) (p : ptr) : M store unit :=
  match es with
  | [] => ret tt
  | (k, v) :: es => sd_put p k v ;;; write_all es p
  end.

Lemma write_all_ok es : init_ok (write_all es).
Proof.
  induction es as [|[k v] es IH]; intros st p d b Hwf Hl Hp Hf Hb.
  { exists st, b. split; [done|]. split; [done|]. split; [reflexivity|]. by split. }
  destruct (backend_of_eq _ _ _ Hb) as (d0 & Hp0 & Hb0). assert (d0 = d) as -> by congruence.
  destruct (sd_put_view st p d k v Hwf Hl Hp Hf) as (n & st1 & Hput & Hwf1 & Hsh & Hlv & _).
  pose proof Hput as Hput'. rewrite (sd_put_eq st p d b k v) in Hput by done. injection Hput as _ Hst1.
  destruct (same_shape_lookup _ _ _ _ Hsh Hp) as (d1 & Hp1 & _ & Hf1).
  assert (backend_of st1 p = Some (backend_put k v b).2) as Hb1.
  { unfold backend_of. rewrite <- Hst1, store_set_lookup_eq. done. }
  destruct (IH st1 p d1 _ Hwf1 (Hlv p Hl) Hp1 ltac:(congruence) Hb1)
    as (st2 & b2 & Hr & Hwf2 & Hsh2 & Hlv2 & Hb2 & Hid & Hrev).
  exists st2, b2. cbn [write_all]. rewrite (bind_Ret _ _ _ _ _ Hput').
  split; [done|]. split; [done|]. split; [by etrans|]. split; [by auto|]. by rewrite Hid, Hrev.
Qed.

(** The store in which the genesis function runs, and the index that follows. *)
Definition fresh_store : store := Store 1 (<[0%nat := new_delta]> ∅).
Definition opened_index (init : genesis_init) (st : store) (d : state_delta) (b : backend) : delta_index :=
  DeltaIndex (store_set 0%nat (finalized d) st) init fifo_comparator [(bk_id b, 0%nat)] (Some 0%nat) (Some 0%nat)
    ({[Some 0%nat]} ∪ ∅) true.

Lemma fresh_store_wf : store_wf fresh_store.
Proof. apply store_check_wf. by vm_compute. Qed.
Lemma fresh_store_live : live fresh_store 0.
Proof. by eapply live_root. Qed.

Lemma db_open_run init st d b :
  init 0%nat fresh_store = Ret tt st -> st_deltas st !! 0%nat = Some d -> sd_backend d = Some b ->
  db_open init (new_index empty_store) = Ret tt (opened_index init st d b).
Proof.
  intros Hrun Hd Hb. unfold db_open, di_open, di_open_with. rewrite bind_modify.
  set (i0 := set_config init fifo_comparator (new_index empty_store)). set (st3 := store_set 0%nat (finalized d) st).
  assert (backend_of st3 0%nat = Some b) as Hb3 by (unfold st3, backend_of; by rewrite store_set_lookup_eq).
  rewrite (bind_Ret _ _ _ _ _ (on_store_Ret (alloc new_delta) i0 0%nat fresh_store eq_refl)).
  rewrite (bind_Ret _ _ _ _ _ (on_store_read (sd_revision 0) (set_store fresh_store i0) 0 eq_refl)). cbn [Z.eqb].
  rewrite (bind_Ret _ _ _ _ _ (on_store_Ret (init 0%nat) (set_store fresh_store i0) tt st Hrun)).
  rewrite (bind_Ret _ _ _ _ _ (on_store_Ret (sd_finalize 0) (set_store st i0) tt st3 (sd_finalize_eq st 0%nat d Hd))).
  unfold bind at 1. by rewrite (index_insert_eq (set_store st3 (set_store st i0)) 0%nat b Hb3).
Qed.

Lemma db_open_throws init e st :
  init 0%nat fresh_store = Throw e st -> exists i, db_open init (new_index empty_store) = Throw e i.
Proof.
  intros Hrun. unfold db_open, di_open, di_open_with. rewrite bind_modify.
  set (i0 := set_config init fifo_comparator (new_index empty_store)).
  rewrite (bind_Ret _ _ _ _ _ (on_store_Ret (alloc new_delta) i0 0%nat fresh_store eq_refl)).
  rewrite (bind_Ret _ _ _ _ _ (on_store_read (sd_revision 0) (set_store fresh_store i0) 0 eq_refl)). cbn [Z.eqb].
  eexists. unfold bind at 1, on_store at 1, zoom. cbn [di_store set_store]. by rewrite Hrun.
Qed.

Lemma opened_index_wf init st d b :
  store_wf st -> live st 0 -> st_deltas st !! 0%nat = Some d -> sd_backend d = Some b ->
  index_wf (opened_index init st d b) 0 0.
Proof.
  intros Hwf Hl Hd Hb.
  constructor; cbn [opened_index di_store di_entries di_root di_head di_alive]; try done.
  - by apply finalized_wf.
  - apply NoDup_singleton.
  - constructor; [|constructor]. split; cbn [fst snd]; [by apply finalized_live|]. exists b. split; [|done].
    unfold backend_of. by rewrite store_set_lookup_eq.
  - exists (bk_id b). constructor.
  - exists (bk_id b). constructor.
  - exists (finalized d). split; [apply store_set_lookup_eq|done].
  - intros id p b1 hb [= -> ->]%list_elem_of_singleton _ Hb1 Hh. simplify_eq. lia.
Qed.

(** Opening a fresh database: one final node, which is the root, the head and
    the only fork head. *)
Theorem db_open_ok init :
  init_ok init ->
  exists i r, db_open init (new_index empty_store) = Ret tt i /\ index_wf i r r /\
    di_fork_heads i = {[Some r]} /\ di_entries i = [(null_id, r)].
Proof.
  intros Hinit.
  destruct (Hinit fresh_store 0%nat new_delta default_backend fresh_store_wf fresh_store_live eq_refl eq_refl eq_refl)
    as (st2 & b2 & Hrun & Hwf2 & Hsh & Hlv & (d2 & Hp2 & Hbd2)%backend_of_eq & Hid & Hrev).
  exists (opened_index init st2 d2 b2), 0%nat. split; [by apply db_open_run|].
  split; [apply opened_index_wf; auto using fresh_store_live|]. cbn [opened_index di_fork_heads di_entries].
  rewrite Hid. split; [set_solver|done].
Qed.

Lemma db_open_ok_witness :
  exists i r, db_open (write_all [([1; 2], [3])]) (new_index empty_store) = Ret tt i /\ index_wf i r r /\
    di_fork_heads i = {[Some r]} /\ di_entries i = [(null_id, r)].
Proof. apply (db_open_ok (write_all [([1; 2], [3])])). apply write_all_ok. Defined.

(** The state a computation leaves, for concrete runs. *)
Definition run_state {S A} (m : M S A) (s : S) : S :=
  match m s with Ret _ s' | Throw _ s' => s' | Fault _ => s end.

(** [reset] clears the root and opens again, but never empties the container:
    the new root has the identifier of the old one, its insertion fails and the
    identifier keeps leading to the old, emptied root. *)
Theorem di_reset_keeps_old_root :
  let i := run_state (db_open (write_all [([1; 2], [3])]) ;;; db_reset) (new_index empty_store) in
  di_root i = Some 1%nat /\ db_get null_id i = Ret (Some 0%nat) i /\
  di_fork_heads i = {[Some 0%nat; Some 1%nat]} /\
  view_of (di_store i) 1 [1; 2] = Some [3] /\ view_of (di_store i) 0 [1; 2] = None.
Proof. vm_compute. do 4 (split; [reflexivity|]). reflexivity. Qed.

(** Of two finalized siblings only the first is a fork head: [finalize] inserts
    the head, not the node it was given. *)
Theorem fork_heads_miss_minority_fork :
  let a := zero_bytes 31 ++ [1] in
  let b := zero_bytes 31 ++ [2] in
  let i := run_state (db_open (write_all []) ;;;
             let* x := pn_make_child 0 a in let* y := pn_make_child 0 b in
             pn_finalize x ;;; pn_finalize y) (new_index empty_store) in
  is_final (di_store i) 2 /\ (forall d, In d [0; 1; 2]%nat -> forall s, st_deltas (di_store i) !! d = Some s -> sd_parent s <> Some 2%nat) /\
  di_fork_heads i = {[Some 1%nat]}.
Proof.
  split; [|split].
  - eexists. split; vm_compute; reflexivity.
  - intros d [<-|[<-|[<-|[]]]] s; vm_compute; intros [= <-]; discriminate.
  - vm_compute. reflexivity.
Qed.

(** ** A concrete index *)

Definition demo_id : bytes := zero_bytes 31 ++ [1].

Definition demo_index : delta_index :=
  DeltaIndex demo_store (fun _ => ret tt) fifo_comparator [(null_id, 0%nat); (demo_id, 1%nat)]
    (Some 0%nat) (Some 0%nat) {[Some 0%nat]} true.

Lemma demo_entries_ok st es :
  Forall (fun e => live st e.2) es ->
  forallb (fun e => match backend_of st e.2 with Some b => bytes_eqb (bk_id b) e.1 | None => false end) es = true ->
  Forall (entry_ok st) es.
Proof.
  intros HF. induction HF as [|e es Hl _ IH]; cbn [forallb]; [constructor|].
  intros [H1 H2]%andb_true_iff. constructor; [|by apply IH]. split; [done|].
  destruct (backend_of st e.2) as [b|]; [|done]. exists b. by apply bytes_eqb_eq in H1.
Qed.

Lemma demo_index_wf : index_wf demo_index 0 0.
Proof.
  constructor; cbn [di_store di_entries di_root di_head di_alive demo_index]; try done.
  - apply demo_store_wf.
  - apply (proj1 (bool_decide_eq_true _)). by vm_compute.
  - apply demo_entries_ok; [|by vm_compute].
    constructor; [by eapply live_root|]. constructor; [apply demo_live|constructor].
  - exists null_id. constructor.
  - exists null_id. constructor.
  - by exists demo_root.
  - intros id p b hb Hin (d & Hd & Hf) Hb Hh.
    apply elem_of_cons in Hin as [[= -> ->]|[= -> ->]%list_elem_of_singleton].
    + simplify_eq. lia.
    + vm_compute in Hd. injection Hd as <-. done.
Qed.

Lemma di_remove_never_returns_witness :
  di_remove 1 [] demo_index <> Ret tt demo_index.
Proof.
  apply (di_remove_never_returns demo_index 0 0 demo_id 1 [] demo_index demo_index_wf). right. constructor.
Defined.

Lemma di_at_revision_ok_witness :
  exists q qb, di_at_revision 0 demo_id demo_index = Ret (Some q) demo_index /\ reach demo_store 1 q /\
    backend_of demo_store q = Some qb /\ bk_revision qb = 0.
Proof.
  apply (di_at_revision_ok demo_index 0 0 0 demo_id 1 (set_map [([1], [12])] (new_backend demo_id 1))
    (set_map [([1], [10; 11]); ([2], [])] default_backend) demo_index_wf); [|reflexivity..|cbn; lia].
  intros id p [[= -> ->]|[= -> ->]%list_elem_of_singleton]%elem_of_cons.
  - split; [by eapply chain_root|by econstructor].
  - split; [eapply chain_child; [reflexivity..|by eapply chain_root]|].
    eapply root_above; [reflexivity..|by econstructor].
Defined.

Definition demo_index_final : delta_index :=
  DeltaIndex demo_store_final (fun _ => ret tt) fifo_comparator [(null_id, 0%nat); (demo_id, 1%nat)]
    (Some 0%nat) (Some 1%nat) {[Some 1%nat]} true.

Lemma demo_index_final_wf : index_wf demo_index_final 0 1.
Proof.
  constructor; cbn [di_store di_entries di_root di_head di_alive demo_index_final]; try done.
  - apply demo_store_final_wf.
  - apply (proj1 (bool_decide_eq_true _)). by vm_compute.
  - apply demo_entries_ok; [|by vm_compute].
    constructor; [by eapply live_root|]. constructor; [apply demo_final_live|constructor].
  - exists null_id. constructor.
  - exists demo_id. right. constructor.
  - by exists demo_final.
  - intros id p b hb Hin _ Hb Hh.
    apply elem_of_cons in Hin as [[= -> ->]|[= -> ->]%list_elem_of_singleton];
      vm_compute in Hb, Hh; simplify_eq; simpl; lia.
Qed.

#[local] Existing Instance toy_hash.

Lemma pn_commit_crashes_witness : pn_commit 1 demo_index_final = Fault null_dereference.
Proof.
  apply (pn_commit_crashes demo_index_final 0 1 demo_id 1 demo_final 0 demo_index_final_wf);
    [right; constructor|reflexivity..|]. eapply root_above; [reflexivity..|by econstructor].
Defined.
