(* ===== verification/ResourceMeter.v ===== *)
(** * Metering: sessions, the resource meter and the frame recorder

    [controller/resource_meter], [session], [frame_recorder] and the limits of
    [controller/state.hpp]. The meter and the recorder hold weak pointers to
    the session the transaction owns; a [metering] is the meter, the recorder
    and that session, absent once its owner has let it go. *)

From stdpp Require Import base list option numbers strings.
From S2P Require Import Prelude Errors Protocol.

Record resource_state := ResourceState {
  disk_storage : Z;
  network_bandwidth : Z;
  compute_bandwidth : Z
}.

Record resource_limits := ResourceLimits {
  disk_storage_limit : Z;
  disk_storage_cost : Z;
  network_bandwidth_limit : Z;
  network_bandwidth_cost : Z;
  compute_bandwidth_limit : Z;
  compute_bandwidth_cost : Z
}.

(** [session]: a [resource_session] and a [frame_recorder_session]. *)
Record session := Session {
  initial_resources : Z;
  session_remaining : Z;
  session_frames : list program_frame
}.

Definition new_session (initial : Z) : session := Session initial initial [].

(** [resource_session::use_resources], [used_resources] *)
Definition session_use (resources : Z) (s : session) : error_code * session :=
  if session_remaining s <? resources
  then (controller_error controller_errc.insufficient_resources, s)
  else (controller_error controller_errc.ok,
        Session (initial_resources s) (u64 (session_remaining s - resources)) (session_frames s)).
Definition session_used (s : session) : Z := u64 (initial_resources s - session_remaining s).

(** [frame_recorder_session::add] *)
Definition session_add (f : program_frame) (s : session) : session :=
  Session (initial_resources s) (session_remaining s) (session_frames s ++ [f]).

Record metering := Metering {
  mt_remaining : resource_state;
  mt_system_use : resource_state;
  mt_limits : resource_limits;
  mt_session : option session;
  mt_frames : list program_frame
}.

Definition set_remaining (r : resource_state) (m : metering) : metering :=
  Metering r (mt_system_use m) (mt_limits m) (mt_session m) (mt_frames m).
Definition set_system_use (r : resource_state) (m : metering) : metering :=
  Metering (mt_remaining m) r (mt_limits m) (mt_session m) (mt_frames m).
Definition set_session (s : option session) (m : metering) : metering :=
  Metering (mt_remaining m) (mt_system_use m) (mt_limits m) s (mt_frames m).
Definition set_frames (f : list program_frame) (m : metering) : metering :=
  Metering (mt_remaining m) (mt_system_use m) (mt_limits m) (mt_session m) f.

(** [resource_meter::set_resource_limits] *)
Definition set_resource_limits (r : resource_limits) (m : metering) : metering :=
  Metering (ResourceState (disk_storage_limit r) (network_bandwidth_limit r) (compute_bandwidth_limit r))
    (ResourceState 0 0 0) r (mt_session m) (mt_frames m).

(** [resource_meter::resource_meter] *)
Definition new_metering : metering :=
  set_resource_limits (ResourceLimits u64_max 0 u64_max 0 u64_max 0)
    (Metering (ResourceState 0 0 0) (ResourceState 0 0 0) (ResourceLimits 0 0 0 0 0 0) None []).

Definition ok_code : error_code := controller_error controller_errc.ok.

(** The middle of the three [use_] functions: the session pays, or the system
    does when there is no session. *)
Definition charge (cost amount : Z) (system_pays : resource_state -> resource_state) : M metering error_code :=
  let* s := gets mt_session in
  match s with
  | Some s =>
      assert_that (negb (cost =? 0)) ;;;
      if u64_max / cost <? amount then throw (runtime_error "rc overflow")
      else
        let '(e, s') := session_use (u64 (amount * cost)) s in
        modify (set_session (Some s')) ;;; ret e
  | None => modify (fun m => set_system_use (system_pays (mt_system_use m)) m) ;;; ret ok_code
  end.

Definition add_disk (n : Z) (r : resource_state) : resource_state :=
  ResourceState (u64 (disk_storage r + n)) (network_bandwidth r) (compute_bandwidth r).
Definition add_network (n : Z) (r : resource_state) : resource_state :=
  ResourceState (disk_storage r) (u64 (network_bandwidth r + n)) (compute_bandwidth r).
Definition add_compute (n : Z) (r : resource_state) : resource_state :=
  ResourceState (disk_storage r) (network_bandwidth r) (u64 (compute_bandwidth r + n)).

(** [resource_meter::use_disk_storage] *)
Definition use_disk_storage (amount : Z) : M metering error_code :=
  let* m := gets id in
  if disk_storage (mt_remaining m) <=? amount
  then ret (controller_error controller_errc.disk_storage_limit_exceeded)
  else
    checkc* charge (disk_storage_cost (mt_limits m)) amount (add_disk amount) in
    (modify (fun m => set_remaining (add_disk (- amount) (mt_remaining m)) m) ;;; ret ok_code).

(** [resource_meter::use_network_bandwidth] *)
Definition use_network_bandwidth (amount : Z) : M metering error_code :=
  let* m := gets id in
  if network_bandwidth (mt_remaining m) <=? amount
  then ret (controller_error controller_errc.network_bandwidth_limit_exceeded)
  else
    checkc* charge (network_bandwidth_cost (mt_limits m)) amount (add_network amount) in
    (modify (fun m => set_remaining (add_network (- amount) (mt_remaining m)) m) ;;; ret ok_code).

(** [resource_meter::use_compute_bandwidth] *)
Definition use_compute_bandwidth (ticks : Z) : M metering error_code :=
  let* m := gets id in
  if compute_bandwidth (mt_remaining m) <? ticks
  then ret (controller_error controller_errc.compute_bandwidth_limit_exceeded)
  else
    checkc* charge (compute_bandwidth_cost (mt_limits m)) ticks (add_compute ticks) in
    (modify (fun m => set_remaining (add_compute (- ticks) (mt_remaining m)) m) ;;; ret ok_code).

(** [remaining_disk_storage], [remaining_network_bandwidth],
    [remaining_compute_bandwidth]; a cost of zero divides by zero. *)
Definition remaining_of (remaining cost : Z) (m : metering) : option Z :=
  match mt_session m with
  | Some s => if cost =? 0 then None else Some (Z.min remaining (session_remaining s / cost))
  | None => Some remaining
  end.
Definition remaining_disk_storage (m : metering) : option Z :=
  remaining_of (disk_storage (mt_remaining m)) (disk_storage_cost (mt_limits m)) m.
Definition remaining_network_bandwidth (m : metering) : option Z :=
  remaining_of (network_bandwidth (mt_remaining m)) (network_bandwidth_cost (mt_limits m)) m.
Definition remaining_compute_bandwidth (m : metering) : option Z :=
  remaining_of (compute_bandwidth (mt_remaining m)) (compute_bandwidth_cost (mt_limits m)) m.

(** [frame_recorder::add] *)
Definition record_frame (f : program_frame) (m : metering) : metering :=
  set_frames (mt_frames m ++ [f]) (set_session (session_add f <$> mt_session m) m).

(** ** Accounting *)

(** The price of what was used between two meters. *)
Definition spent (l : resource_limits) (r r' : resource_state) : Z :=
  (disk_storage r - disk_storage r') * disk_storage_cost l
  + (network_bandwidth r - network_bandwidth r') * network_bandwidth_cost l
  + (compute_bandwidth r - compute_bandwidth r') * compute_bandwidth_cost l.

Definition resources_ok (r : resource_state) : Prop :=
  u64_ok (disk_storage r) /\ u64_ok (network_bandwidth r) /\ u64_ok (compute_bandwidth r).
Definition limits_ok (l : resource_limits) : Prop :=
  0 < disk_storage_cost l < 2 ^ 64 /\ 0 < network_bandwidth_cost l < 2 ^ 64 /\
  0 < compute_bandwidth_cost l < 2 ^ 64.
Definition session_ok (s : session) : Prop :=
  0 <= session_remaining s <= initial_resources s /\ u64_ok (initial_resources s).

Definition resources_le (r' r : resource_state) : Prop :=
  disk_storage r' <= disk_storage r /\ network_bandwidth r' <= network_bandwidth r /\
  compute_bandwidth r' <= compute_bandwidth r.

(** While a session is open: limits and session stay, nothing is ever given
    back, and the session has paid exactly the price of what was used. *)
Definition metered (m m' : metering) : Prop :=
  forall s, mt_session m = Some s -> session_ok s -> resources_ok (mt_remaining m) -> limits_ok (mt_limits m) ->
  exists s', mt_session m' = Some s' /\ session_ok s' /\ resources_ok (mt_remaining m') /\
    mt_limits m' = mt_limits m /\ initial_resources s' = initial_resources s /\
    resources_le (mt_remaining m') (mt_remaining m) /\
    session_remaining s - session_remaining s' = spent (mt_limits m) (mt_remaining m) (mt_remaining m').

#[export] Instance metered_preorder : PreOrder metered.
Proof.
  split.
  - intros m s Hs Hok Hr Hl. exists s. unfold resources_le, spent. repeat split; try done || lia; apply Hok || apply Hr.
  - intros a b c Hab Hbc s Hs Hok Hr Hl.
    destruct (Hab s Hs Hok Hr Hl) as (s1 & Hs1 & Hok1 & Hr1 & Hl1 & Hi1 & Hle1 & Hsp1).
    destruct (Hbc s1 Hs1 Hok1 Hr1 ltac:(by rewrite Hl1)) as (s2 & Hs2 & Hok2 & Hr2 & Hl2 & Hi2 & Hle2 & Hsp2).
    exists s2. do 3 (split; [done|]). split; [congruence|]. split; [congruence|]. split.
    + unfold resources_le in *. lia.
    + rewrite Hl1 in Hsp2. unfold spent in *. lia.
Qed.

(** The session half of a payment. *)
Lemma charge_session cost amount sys m s :
  mt_session m = Some s -> session_ok s -> 0 < cost -> u64_ok amount ->
  (u64_max / cost < amount /\ charge cost amount sys m = Throw (runtime_error "rc overflow") m) \/
  (session_remaining s < amount * cost /\
   charge cost amount sys m =
   Ret (controller_error controller_errc.insufficient_resources) (set_session (Some s) m)) \/
  (amount * cost <= session_remaining s /\
   charge cost amount sys m =
   Ret ok_code (set_session (Some (Session (initial_resources s) (session_remaining s - amount * cost)
                                     (session_frames s))) m)).
Proof.
  intros Hs (Hr & Hi) Hc Ha. unfold charge. rewrite (bind_Ret (gets mt_session) _ m (Some s) m) by (unfold gets; by rewrite Hs).
  assert ((cost =? 0) = false) as -> by (apply Z.eqb_neq; lia). cbn [negb assert_that].
  rewrite (bind_Ret (ret tt) _ m tt m eq_refl).
  destruct (u64_max / cost <? amount) eqn:E; bool_to_prop; [by left|right].
  assert (0 <= amount * cost <= u64_max) as Hm.
  { unfold u64_ok in Ha. split; [nia|]. pose proof (Z.mul_div_le u64_max cost Hc). nia. }
  rewrite u64_small by (unfold u64_ok, u64_max in *; lia). unfold session_use.
  destruct (session_remaining s <? amount * cost) eqn:E2; bool_to_prop; [left|right]; (split; [done|]).
  - done.
  - rewrite u64_small by (unfold u64_ok in *; lia). done.
Qed.

Lemma set_session_same s m : mt_session m = Some s -> set_session (Some s) m = m.
Proof. destruct m; simpl. by intros ->. Qed.

Lemma is_error_ok : is_error ok_code = false.
Proof. done. Qed.

(** What [metered] promises of the state after a step. *)
Definition paid (m : metering) (s : session) (m' : metering) : Prop :=
  exists s', mt_session m' = Some s' /\ session_ok s' /\ resources_ok (mt_remaining m') /\
    mt_limits m' = mt_limits m /\ initial_resources s' = initial_resources s /\
    resources_le (mt_remaining m') (mt_remaining m) /\
    session_remaining s - session_remaining s' = spent (mt_limits m) (mt_remaining m) (mt_remaining m').

Lemma preserves_metered {A} (f : M metering A) :
  (forall m s, mt_session m = Some s -> session_ok s -> resources_ok (mt_remaining m) ->
     limits_ok (mt_limits m) ->
     match f m with Ret _ m' | Throw _ m' => paid m s m' | Fault _ => True end) ->
  preserves metered f.
Proof.
  intros H m. specialize (H m). destruct (f m) as [a m'|e m'|]; [| |done]; intros s Hs Hok Hr Hl; by apply H.
Qed.

Lemma paid_nothing m s :
  mt_session m = Some s -> session_ok s -> resources_ok (mt_remaining m) -> limits_ok (mt_limits m) -> paid m s m.
Proof. intros Hs Hok Hr Hl. by apply (reflexivity (R := metered) m). Qed.

Section use.
(** The common shape of the three [use_] functions. *)
Context (cost : resource_limits -> Z) (part : resource_state -> Z)
  (add : Z -> resource_state -> resource_state) (err : controller_errc.t) (over : Z -> Z -> bool).

Definition use_generic (amount : Z) : M metering error_code :=
  let* m := gets id in
  if over (part (mt_remaining m)) amount then ret (controller_error err)
  else
    checkc* charge (cost (mt_limits m)) amount (add amount) in
    (modify (fun m => set_remaining (add (- amount) (mt_remaining m)) m) ;;; ret ok_code).

Context (over_ok : forall r a, over r a = false -> a <= r)
  (spent_add : forall l r n, 0 <= n <= part r -> resources_ok r ->
     spent l r (add (- n) r) = n * cost l /\ resources_ok (add (- n) r) /\ resources_le (add (- n) r) r)
  (cost_pos : forall l, limits_ok l -> 0 < cost l).

Lemma use_generic_metered amount : u64_ok amount -> preserves metered (use_generic amount).
Proof using over_ok spent_add cost_pos.
  intros Ha. apply preserves_metered. intros m s Hs Hok Hr Hl. unfold use_generic.
  rewrite (bind_Ret (gets id) _ m m m eq_refl).
  destruct (over _ amount) eqn:E; [by apply paid_nothing|]. apply over_ok in E.
  destruct (charge_session (cost (mt_limits m)) amount (add amount) m s Hs Hok (cost_pos _ Hl) Ha)
    as [[_ Hc]|[[_ Hc]|[Hle Hc]]].
  - unfold bind. rewrite Hc. by apply paid_nothing.
  - rewrite (bind_Ret _ _ _ _ _ Hc), (set_session_same s) by done. cbn. by apply paid_nothing.
  - rewrite (bind_Ret _ _ _ _ _ Hc). change (is_error ok_code) with false. cbv iota.
    unfold bind, modify, ret. cbn [mt_remaining set_session].
    destruct (spent_add (mt_limits m) (mt_remaining m) amount) as (Hsp & Hrok & Hrle); [unfold u64_ok in Ha; lia|done|].
    eexists. split; [done|]. destruct Hok as [Hrem Hini]. unfold u64_ok in Ha.
    pose proof (cost_pos _ Hl). split; [split; cbn; [nia|done]|].
    do 4 (split; [done|]). cbn. rewrite Hsp. lia.
Qed.
End use.

Lemma limits_ok_pos l : limits_ok l ->
  0 < disk_storage_cost l /\ 0 < network_bandwidth_cost l /\ 0 < compute_bandwidth_cost l.
Proof. unfold limits_ok. lia. Qed.

Ltac spent_tac :=
  intros [] [] n [Hn Hn'] (? & ? & ?); unfold u64_ok, spent, resources_ok, resources_le,
    add_disk, add_network, add_compute in *; cbn in *;
  rewrite !u64_small by (unfold u64_ok; lia); unfold u64_ok; repeat split; lia.

Lemma use_disk_metered amount : u64_ok amount -> preserves metered (use_disk_storage amount).
Proof.
  apply (use_generic_metered disk_storage_cost disk_storage add_disk
    controller_errc.disk_storage_limit_exceeded Z.leb).
  - intros. bool_to_prop. lia.
  - spent_tac.
  - intros l Hl. by apply limits_ok_pos in Hl as (? & ? & ?).
Qed.

Lemma use_network_metered amount : u64_ok amount -> preserves metered (use_network_bandwidth amount).
Proof.
  apply (use_generic_metered network_bandwidth_cost network_bandwidth add_network
    controller_errc.network_bandwidth_limit_exceeded Z.leb).
  - intros. bool_to_prop. lia.
  - spent_tac.
  - intros l Hl. by apply limits_ok_pos in Hl as (? & ? & ?).
Qed.

Lemma use_compute_metered amount : u64_ok amount -> preserves metered (use_compute_bandwidth amount).
Proof.
  apply (use_generic_metered compute_bandwidth_cost compute_bandwidth add_compute
    controller_errc.compute_bandwidth_limit_exceeded Z.ltb).
  - intros. bool_to_prop. lia.
  - spent_tac.
  - intros l Hl. by apply limits_ok_pos in Hl as (? & ? & ?).
Qed.

Lemma record_frame_metered f : preserves metered (modify (record_frame f)).
Proof.
  intros m s Hs Hok Hr Hl. exists (session_add f s). unfold record_frame. cbn. rewrite Hs.
  split; [done|]. split; [done|]. do 3 (split; [done|]). unfold resources_le, spent. split; lia.
Qed.

#[export] Hint Resolve use_disk_metered use_network_metered use_compute_metered record_frame_metered : preserve.

(** The three functions, as guarded computations. *)
Lemma charge_fault cost n f m x : charge cost n f m = Fault x -> x = assertion_failed.
Proof.
  unfold charge, bind, gets. destruct (mt_session m); [|done]. destruct (negb (cost =? 0)); cbn; [|by intros [= <-]].
  destruct (_ <? n); [done|]. by destruct (session_use _ _).
Qed.

Lemma use_generic_fault cost part add err over n m x :
  use_generic cost part add err over n m = Fault x -> x = assertion_failed.
Proof.
  unfold use_generic, bind at 1, gets. destruct (over _ _); [done|]. unfold bind at 1.
  destruct (charge _ _ _ _) as [e m'| |f] eqn:E; [|done|].
  - by destruct (is_error e).
  - intros [= <-]. by eapply charge_fault.
Qed.

Lemma metered_guarded {A} (f : M metering A) :
  preserves metered f -> (forall m x, f m = Fault x -> x = assertion_failed) ->
  guarded (fun _ => True) metered f.
Proof.
  intros Hp Hf m _. specialize (Hp m). specialize (Hf m). destruct (f m) as [| |x]; [done..|].
  by rewrite (Hf x).
Qed.

Lemma use_disk_guarded n : u64_ok n -> guarded (fun _ => True) metered (use_disk_storage n).
Proof.
  intros Hn. apply metered_guarded; [by apply use_disk_metered|].
  intros m x. exact (use_generic_fault disk_storage_cost disk_storage add_disk
    controller_errc.disk_storage_limit_exceeded Z.leb n m x).
Qed.
Lemma use_network_guarded n : u64_ok n -> guarded (fun _ => True) metered (use_network_bandwidth n).
Proof.
  intros Hn. apply metered_guarded; [by apply use_network_metered|].
  intros m x. exact (use_generic_fault network_bandwidth_cost network_bandwidth add_network
    controller_errc.network_bandwidth_limit_exceeded Z.leb n m x).
Qed.
Lemma use_compute_guarded n : u64_ok n -> guarded (fun _ => True) metered (use_compute_bandwidth n).
Proof.
  intros Hn. apply metered_guarded; [by apply use_compute_metered|].
  intros m x. exact (use_generic_fault compute_bandwidth_cost compute_bandwidth add_compute
    controller_errc.compute_bandwidth_limit_exceeded Z.ltb n m x).
Qed.

(** ** Without a session

    The system pays: no session appears, and the meter never rises. *)

Definition unpaid (m m' : metering) : Prop :=
  mt_session m = None -> resources_ok (mt_remaining m) ->
  mt_session m' = None /\ resources_ok (mt_remaining m') /\ resources_le (mt_remaining m') (mt_remaining m).

#[export] Instance unpaid_preorder : PreOrder unpaid.
Proof.
  split; [intros m H1 H2; split; [done|split; [done|unfold resources_le; lia]]|].
  intros a b c Hab Hbc Hs Hr. destruct (Hab Hs Hr) as (H1 & H2 & H3). destruct (Hbc H1 H2) as (H4 & H5 & H6).
  split; [done|]. split; [done|]. unfold resources_le in *. lia.
Qed.

Definition charged (m m' : metering) : Prop := metered m m' /\ unpaid m m'.

#[export] Instance charged_preorder : PreOrder charged.
Proof. split; [intros m; split; reflexivity|]. intros a b c [? ?] [? ?]. split; by etrans. Qed.

Lemma use_generic_unpaid cost part add err over n :
  (forall r a, over r a = false -> a <= r) ->
  (forall r n, 0 <= n <= part r -> resources_ok r -> resources_ok (add (- n) r) /\ resources_le (add (- n) r) r) ->
  u64_ok n -> preserves unpaid (use_generic cost part add err over n).
Proof.
  intros Hover Hadd Hn m. unfold use_generic. rewrite (bind_Ret (gets id) _ m m m eq_refl).
  destruct (over _ n) eqn:E; [cbn; reflexivity|]. apply Hover in E. unfold charge, bind, gets, id.
  destruct (mt_session m) as [s|] eqn:Es.
  - assert (forall m', unpaid m m') as Hm by (intros m' H; congruence). destruct (negb _); cbn; [|done].
    destruct (_ <? n); [apply Hm|]. destruct (session_use _ _) as [e s']. cbn. destruct (is_error e); apply Hm.
  - cbn. intros _ Hr. split; [done|]. cbn. apply Hadd; [unfold u64_ok in Hn; lia|done].
Qed.

Ltac unpaid_tac :=
  intros [] k [Hk Hk'] (? & ? & ?); unfold u64_ok, resources_ok, resources_le, add_disk, add_compute in *; cbn in *;
  rewrite !u64_small by (unfold u64_ok; lia); unfold u64_ok; repeat split; lia.

Lemma use_disk_charged n : u64_ok n -> guarded (fun _ => True) charged (use_disk_storage n).
Proof.
  intros Hn m _. pose proof (use_disk_guarded n Hn m I) as H1.
  assert (preserves unpaid (use_disk_storage n)) as H2.
  { apply (use_generic_unpaid disk_storage_cost disk_storage add_disk controller_errc.disk_storage_limit_exceeded Z.leb);
      [intros; bool_to_prop; lia|unpaid_tac|done]. }
  specialize (H2 m). by destruct (use_disk_storage n m).
Qed.

Lemma use_compute_charged n : u64_ok n -> guarded (fun _ => True) charged (use_compute_bandwidth n).
Proof.
  intros Hn m _. pose proof (use_compute_guarded n Hn m I) as H1.
  assert (preserves unpaid (use_compute_bandwidth n)) as H2.
  { apply (use_generic_unpaid compute_bandwidth_cost compute_bandwidth add_compute controller_errc.compute_bandwidth_limit_exceeded Z.ltb);
      [intros; bool_to_prop; lia|unpaid_tac|done]. }
  specialize (H2 m). by destruct (use_compute_bandwidth n m).
Qed.

Lemma record_frame_charged f m : charged m (record_frame f m).
Proof.
  split; [exact (record_frame_metered f m)|]. intros Hs Hr. unfold record_frame. cbn. rewrite Hs. split; [done|]. split; [done|].
  unfold resources_le. lia.
Qed.

(** ** The ticks that are left *)

(** The meter is in range; an open session can pay and the prices are not
    zero. *)
Definition meter_ok (m : metering) : Prop :=
  resources_ok (mt_remaining m) /\ compute_bandwidth (mt_remaining m) < 2 ^ 63 /\
  match mt_session m with Some s => session_ok s /\ limits_ok (mt_limits m) | None => True end.

Definition ticks_left (m : metering) : Z := default 0 (remaining_compute_bandwidth m).

Lemma remaining_ticks m : meter_ok m -> remaining_compute_bandwidth m = Some (ticks_left m) /\ 0 <= ticks_left m < 2 ^ 63.
Proof.
  intros ((_ & _ & Hr) & Hc & Hs). unfold ticks_left, remaining_compute_bandwidth, remaining_of. unfold u64_ok in Hr.
  destruct (mt_session m) as [s|]; [|split; [done|cbn [default]; unfold id; lia]]. destruct Hs as [[Hs _] Hl]. apply limits_ok_pos in Hl as (_ & _ & Hp).
  destruct (_ =? 0) eqn:E; [apply Z.eqb_eq in E; lia|]. split; [done|]. cbn.
  pose proof (Z.div_pos (session_remaining s) (compute_bandwidth_cost (mt_limits m)) ltac:(lia) Hp). lia.
Qed.

(** Whatever is charged, the meter stays in range and no tick is given back. *)
Lemma charged_drains m m' : charged m m' -> meter_ok m -> meter_ok m' /\ ticks_left m' <= ticks_left m.
Proof.
  intros [Hm Hu] (Hr & Hc & Hs). unfold meter_ok, ticks_left, remaining_compute_bandwidth, remaining_of.
  destruct (mt_session m) as [s|] eqn:Es.
  - destruct Hs as [Hs Hl]. destruct (Hm s Es Hs Hr Hl) as (s' & Es' & Hs' & Hr' & Hl' & _ & Hle & Hsp). rewrite Es', Hl'.
    destruct Hle as (Hd & Hn & Hcb). split; [split; [done|split; [lia|done]]|]. apply limits_ok_pos in Hl as (P1 & P2 & P3).
    destruct (_ =? 0); [done|]. cbn. assert (session_remaining s' <= session_remaining s) as Hle by (unfold spent in Hsp; nia).
    pose proof (Z.div_le_mono _ _ (compute_bandwidth_cost (mt_limits m)) P3 Hle). lia.
  - destruct (Hu Es Hr) as (Es' & Hr' & _ & _ & Hle). rewrite Es'. split; [split; [done|split; [lia|done]]|]. cbn. lia.
Qed.

(** A payment that succeeds takes its ticks. *)
Lemma use_compute_ticks n m e m' :
  meter_ok m -> u64_ok n -> use_compute_bandwidth n m = Ret e m' -> is_error e = false -> ticks_left m' <= ticks_left m - n.
Proof.
  intros (Hr & Hc & Hs) Hn H He. unfold use_compute_bandwidth in H. rewrite (bind_Ret (gets id) _ m m m eq_refl) in H.
  destruct (_ <? n) eqn:E; [by injection H as <- _|]. bool_to_prop. unfold id in *.
  assert (forall m0, ticks_left (set_remaining (add_compute (- n) (mt_remaining m)) m0) =
    default 0 (remaining_of (compute_bandwidth (mt_remaining m) - n) (compute_bandwidth_cost (mt_limits m0)) m0)) as Ht.
  { intros m0. unfold ticks_left, remaining_compute_bandwidth, remaining_of. cbn.
    destruct Hr as (_ & _ & Hr). unfold u64_ok in *. rewrite u64_small by (unfold u64_ok; lia). done. }
  unfold ticks_left at 2, remaining_compute_bandwidth, remaining_of. destruct (mt_session m) as [s|] eqn:Es.
  - destruct Hs as [Hs Hl]. apply limits_ok_pos in Hl as (_ & _ & Hp).
    destruct (charge_session (compute_bandwidth_cost (mt_limits m)) n (add_compute n) m s Es Hs Hp Hn) as [[_ Hch]|[[_ Hch]|[Hle Hch]]];
      unfold bind in H; rewrite Hch in H; [done|by injection H as <- _|].
    change (is_error ok_code) with false in H. unfold modify, ret in H. injection H as _ <-. rewrite Ht. unfold remaining_of. cbn. destruct (_ =? 0) eqn:E0; [apply Z.eqb_eq in E0; lia|].
    cbn. replace (session_remaining s - n * _) with (session_remaining s + (- n) * compute_bandwidth_cost (mt_limits m)) by lia.
    rewrite Z.div_add by lia. lia.
  - unfold charge, bind, gets in H. rewrite Es in H. unfold modify, ret in H. change (is_error ok_code) with false in H. injection H as _ <-. rewrite Ht. unfold remaining_of. cbn. rewrite Es. cbn. lia.
Qed.

(** ** Sequences of uses *)

Inductive usage := on_disk (n : Z) | on_network (n : Z) | on_compute (n : Z).
Definition usage_amount (u : usage) : Z := match u with on_disk n | on_network n | on_compute n => n end.

Definition use (u : usage) : M metering error_code :=
  match u with
  | on_disk n => use_disk_storage n
  | on_network n => use_network_bandwidth n
  | on_compute n => use_compute_bandwidth n
  end.

Fixpoint use_all (us : list usage) : M metering (list error_code) :=
  match us with
  | [] => ret []
  | u :: us => let* e := use u in let* es := use_all us in ret (e :: es)
  end.

Lemma use_all_metered us : Forall (fun u => u64_ok (usage_amount u)) us -> preserves metered (use_all us).
Proof.
  induction 1 as [|u us Hu _ IH]; cbn [use_all]; [apply preserves_ret, _|].
  apply preserves_bind; [apply _|destruct u; simpl in *; auto with preserve|].
  intros e. apply preserves_bind; [apply _|done|]. intros es. apply preserves_ret, _.
Qed.

(** With costs that are not zero nothing faults and the limits stay. *)
Lemma charge_runs cost n f m :
  0 < cost -> match charge cost n f m with
              | Ret _ m' | Throw _ m' => mt_limits m' = mt_limits m
              | Fault _ => False
              end.
Proof.
  intros Hc. unfold charge, bind, gets. destruct (mt_session m) as [s|]; [|done].
  assert ((cost =? 0) = false) as -> by (apply Z.eqb_neq; lia). cbn.
  destruct (_ <? n); [done|]. by destruct (session_use _ _).
Qed.

Lemma use_runs u m :
  limits_ok (mt_limits m) -> match use u m with
                             | Ret _ m' | Throw _ m' => mt_limits m' = mt_limits m
                             | Fault _ => False
                             end.
Proof.
  intros Hl. apply limits_ok_pos in Hl as (H1 & H2 & H3).
  assert (forall cost part add err over n, 0 < cost (mt_limits m) ->
    match use_generic cost part add err over n m with
    | Ret _ m' | Throw _ m' => mt_limits m' = mt_limits m
    | Fault _ => False
    end) as H.
  { intros cost part add err over n Hc. unfold use_generic, bind at 1, gets. destruct (over _ _); [done|].
    unfold bind at 1, id. pose proof (charge_runs (cost (mt_limits m)) n (add n) m Hc) as H.
    destruct (charge _ _ _ _) as [e m'| |]; [|done..]. by destruct (is_error e). }
  destruct u; [exact (H disk_storage_cost disk_storage add_disk _ Z.leb _ H1)
              |exact (H network_bandwidth_cost network_bandwidth add_network _ Z.leb _ H2)
              |exact (H compute_bandwidth_cost compute_bandwidth add_compute _ Z.ltb _ H3)].
Qed.

Lemma use_all_runs us m f : limits_ok (mt_limits m) -> use_all us m <> Fault f.
Proof.
  revert m. induction us as [|u us IH]; intros m Hl; [done|]. cbn [use_all]. unfold bind at 1.
  pose proof (use_runs u m Hl) as Hu. destruct (use u m) as [e m'| |]; [|done..].
  specialize (IH m'). rewrite Hu in IH. unfold bind. destruct (use_all us m') eqn:E; [done|done|].
  intros [= ->]. by apply IH.
Qed.

(** C32. Whatever a transaction asks for and whichever requests are refused: no
    assertion fails, and at the end its session has paid exactly the price of the resources taken from the
    meter, never more than the limit it was opened with, and the meter never
    grew. *)
Theorem session_accounting us limit m :
  Forall (fun u => u64_ok (usage_amount u)) us -> u64_ok limit -> limits_ok (mt_limits m) ->
  resources_ok (mt_remaining m) ->
  match use_all us (set_session (Some (new_session limit)) m) with
  | Ret _ m' | Throw _ m' =>
      exists s', mt_session m' = Some s' /\ 0 <= session_used s' <= limit /\
        session_used s' = spent (mt_limits m) (mt_remaining m) (mt_remaining m') /\
        resources_le (mt_remaining m') (mt_remaining m)
  | Fault _ => False
  end.
Proof.
  intros Hus Hl Hlim Hr. pose proof (use_all_runs us (set_session (Some (new_session limit)) m)) as Hnf. pose proof (use_all_metered us Hus (set_session (Some (new_session limit)) m)) as H.
  assert (session_ok (new_session limit)) as Hok by (unfold session_ok, u64_ok in *; simpl; lia).
  destruct (use_all us _) as [a m'|e m'|f]; [| |by apply (Hnf f)];
    destruct (H _ eq_refl Hok Hr Hlim) as (s' & Hs' & ([Hrem1 Hrem2] & _) & _ & _ & Hi & Hle & Hsp);
    exists s'; unfold session_used; rewrite Hi in *; cbn in *;
    rewrite u64_small by (unfold u64_ok in *; lia); repeat split; try done || lia; apply Hle.
Qed.

(** The limits are not exclusive in the same way: disk storage and network
    bandwidth can never be used up to the last byte, compute can. *)
Theorem meter_boundaries m :
  mt_session m = None ->
  use_disk_storage (disk_storage (mt_remaining m)) m = Ret (controller_error controller_errc.disk_storage_limit_exceeded) m /\
  use_network_bandwidth (network_bandwidth (mt_remaining m)) m
    = Ret (controller_error controller_errc.network_bandwidth_limit_exceeded) m /\
  exists m', use_compute_bandwidth (compute_bandwidth (mt_remaining m)) m = Ret ok_code m' /\
    compute_bandwidth (mt_remaining m') = 0.
Proof.
  intros Hs. unfold use_disk_storage, use_network_bandwidth, use_compute_bandwidth.
  rewrite !(bind_Ret (gets id) _ m m m eq_refl), !Z.leb_refl, Z.ltb_irrefl.
  split; [done|]. split; [done|].
  unfold charge, gets, bind. rewrite Hs. eexists. split; [done|].
  cbn. by rewrite Z.add_opp_diag_r.
Qed.

(** ** Concrete meters *)

Definition demo_limits : resource_limits := ResourceLimits 409600 10 1048576 5 100000000 1.
Definition demo_metering : metering := set_resource_limits demo_limits new_metering.

Lemma session_accounting_witness :
  match use_all [on_compute 3; on_disk 200; on_network 409601; on_disk 99999] (set_session (Some (new_session 5000)) demo_metering) with
  | Ret _ m' | Throw _ m' =>
      exists s', mt_session m' = Some s' /\ 0 <= session_used s' <= 5000 /\
        session_used s' = spent demo_limits (mt_remaining demo_metering) (mt_remaining m') /\
        resources_le (mt_remaining m') (mt_remaining demo_metering)
  | Fault _ => False
  end.
Proof.
  apply (session_accounting [on_compute 3; on_disk 200; on_network 409601; on_disk 99999] 5000 demo_metering).
  - repeat (constructor; [unfold u64_ok; simpl; lia|]). constructor.
  - unfold u64_ok. lia.
  - unfold limits_ok. simpl. lia.
  - unfold resources_ok, u64_ok. simpl. lia.
Defined.

Lemma meter_boundaries_witness :
  use_disk_storage 409600 demo_metering = Ret (controller_error controller_errc.disk_storage_limit_exceeded) demo_metering /\
  use_network_bandwidth 1048576 demo_metering
    = Ret (controller_error controller_errc.network_bandwidth_limit_exceeded) demo_metering /\
  exists m', use_compute_bandwidth 100000000 demo_metering = Ret ok_code m' /\
    compute_bandwidth (mt_remaining m') = 0.
Proof. exact (meter_boundaries demo_metering eq_refl). Defined.
