(* ===== verification/SystemInterface.v ===== *)
(** * The system interface of native programs

    [program/system_interface.hpp]: the virtual functions a native program
    calls, as a record of operations over the state of whoever implements
    them, and the laws a program may rely on. *)

From stdpp Require Import base list option numbers strings.
From S2P Require Import Prelude OrdMap Memory Errors Protocol.

(** [program::file_descriptor]: an enumeration over [int], so any value may
    arrive. *)
Abbreviation file_descriptor := Z.
Definition fd_stdin : file_descriptor := 0.
Definition fd_stdout : file_descriptor := 1.
Definition fd_stderr : file_descriptor := 2.

(** [read] is given the contents of the buffer and returns the error and the
    contents afterwards. *)
Record system_interface (S : Type) := SystemInterface {
  si_arguments : M S (list bytes);
  si_write : file_descriptor -> bytes -> M S error_code;
  si_read : file_descriptor -> bytes -> M S (error_code * bytes);
  si_get_object : Z -> bytes -> M S bytes;
  si_get_next_object : Z -> bytes -> M S (bytes * bytes);
  si_get_prev_object : Z -> bytes -> M S (bytes * bytes);
  si_put_object : Z -> bytes -> bytes -> M S error_code;
  si_remove_object : Z -> bytes -> M S error_code;
  si_check_authority : account -> M S (result bool);
  si_get_caller : M S bytes;
  si_call_program : account -> bytes -> list bytes -> M S (result program_output)
}.
Arguments si_arguments {S} _.
Arguments si_write {S} _ _ _.
Arguments si_read {S} _ _ _.
Arguments si_get_object {S} _ _ _.
Arguments si_get_next_object {S} _ _ _.
Arguments si_get_prev_object {S} _ _ _.
Arguments si_put_object {S} _ _ _ _.
Arguments si_remove_object {S} _ _ _.
Arguments si_check_authority {S} _ _.
Arguments si_get_caller {S} _.
Arguments si_call_program {S} _ _ _ _.

(** What an implementation promises about the objects of the running program:
    [slot s id k] is the object under key [k] of space [id], empty when there
    is none; [typed s] says that standard input holds bytes, with whatever else
    the implementation keeps while the program runs. Nothing is promised
    about two spaces under the same key. Checking the authority of a program
    runs that program, and what it may do to the objects is left open as
    [interference]. *)
Class SystemLaws {S} (sys : system_interface S) := {
  slot : S -> Z -> bytes -> bytes;
  interference : S -> S -> Prop;
  typed : S -> Prop;
  get_object_law id k s v s' :
    si_get_object sys id k s = Ret v s' -> v = slot s id k /\ (forall i x, slot s' i x = slot s i x);
  put_object_law id k v s e s' :
    si_put_object sys id k v s = Ret e s' ->
    slot s' id k = v /\ (forall i x, x <> k -> slot s' i x = slot s i x);
  read_law fd buf s e buf' s' :
    si_read sys fd buf s = Ret (e, buf') s' ->
    length buf' = length buf /\ (forall i x, slot s' i x = slot s i x) /\
    (typed s -> typed s' /\ (bytes_ok buf -> bytes_ok buf'));
  write_law fd buf s e s' :
    si_write sys fd buf s = Ret e s' -> forall i x, slot s' i x = slot s i x;
  get_caller_law s c s' :
    si_get_caller sys s = Ret c s' -> (forall i x, slot s' i x = slot s i x) /\ (typed s -> typed s');
  check_authority_law a s r s' :
    si_check_authority sys a s = Ret r s' ->
    if account_view_program a then interference s s' else forall i x, slot s' i x = slot s i x
}.

(** ** A system over a plain map

    An implementation small enough to run: one program, its objects, its
    standard input and output. Nobody is authorized. *)

Record plain_state := Plain {
  pl_objects : list (bytes * bytes);
  pl_stdin : bytes;
  pl_stdout : bytes
}.

Definition plain_key (id : Z) (k : bytes) : bytes := le_bytes 4 id ++ k.

Definition plain_system : system_interface plain_state := {|
  si_arguments := ret [];
  si_write fd buf := modify (fun s => Plain (pl_objects s) (pl_stdin s) (pl_stdout s ++ buf)) ;;;
                     ret (program_error program_errc.ok);
  si_read fd buf :=
    let* s := gets id in
    let n := Nat.min (length buf) (length (pl_stdin s)) in
    modify (fun s => Plain (pl_objects s) (drop n (pl_stdin s)) (pl_stdout s)) ;;;
    ret (program_error program_errc.ok, take n (pl_stdin s) ++ drop n buf);
  si_get_object i k := gets (fun s => default [] (om_lookup (plain_key i k) (pl_objects s)));
  si_get_next_object i k := ret ([], []);
  si_get_prev_object i k := ret ([], []);
  si_put_object i k v :=
    modify (fun s => Plain (om_insert (plain_key i k) v (pl_objects s)) (pl_stdin s) (pl_stdout s)) ;;;
    ret (program_error program_errc.ok);
  si_remove_object i k :=
    modify (fun s => Plain (om_delete (plain_key i k) (pl_objects s)) (pl_stdin s) (pl_stdout s)) ;;;
    ret (program_error program_errc.ok);
  si_check_authority a := ret (inl false);
  si_get_caller := ret [];
  si_call_program a stdin args := ret (inr (controller_error controller_errc.invalid_program))
|}.

Definition plain_slot (s : plain_state) (i : Z) (k : bytes) : bytes :=
  default [] (om_lookup (plain_key i k) (pl_objects s)).

#[export] Instance plain_laws : SystemLaws plain_system.
Proof.
  refine {| slot := plain_slot; interference := fun s s' => forall i x, plain_slot s' i x = plain_slot s i x;
    typed := fun s => bytes_ok (pl_stdin s) |}.
  - intros id k s v s' [= <- <-]. done.
  - intros id k v s e s' [= <- <-]. unfold plain_slot. cbn. rewrite om_lookup_insert_eq. split; [done|].
    intros i x Hx. rewrite om_lookup_insert_ne; [done|]. unfold plain_key. simpl. congruence.
  - intros fd buf s e buf' s' H. cbn [si_read plain_system] in H. unfold bind, gets, modify, ret, id in H.
    injection H as <- <- <-. cbn [pl_stdin pl_objects].
    split; [rewrite length_app, length_take, length_drop; lia|]. split; [done|].
    intros Ht. split; [by apply Forall_drop|]. intros Hb. apply Forall_app.
    split; [by apply Forall_take|by apply Forall_drop].
  - by intros fd buf s e s' [= <- <-].
  - by intros s c s' [= <- <-].
  - intros a s r s' [= <- <-]. by destruct (account_view_program a).
Defined.
