(* ===== verification/Coin.v ===== *)
(** * The coin program

    [program/coin.{hpp,cpp}]: the native token, written against the system
    interface. Its accounts and its supply are objects of the two spaces of the
    program; amounts are 64-bit little-endian integers. *)

From stdpp Require Import base list option numbers strings.
From S2P Require Import Prelude OrdMap Memory Errors Protocol SystemInterface.

Definition coin_name : bytes := str_bytes "Coin".
Definition coin_symbol : bytes := str_bytes "COIN".
Definition coin_decimals : Z := 8.

Definition supply_id : Z := 0.
Definition balance_id : Z := 1.

Inductive instruction :=
| authorize | name | symbol | decimals | total_supply | balance_of | transfer | mint | burn.

(** The [case] labels of [coin::run]. *)
Definition instruction_of (z : Z) : option instruction :=
  if z <? 0 then None
  else [authorize; name; symbol; decimals; total_supply; balance_of; transfer; mint; burn] !! Z.to_nat z.

Section coin.
Context {S : Type} (sys : system_interface S).

(** [coin::total_supply], [coin::balance_of] *)
Definition get_amount (id : Z) (key : bytes) : M S Z :=
  let* object := si_get_object sys id key in
  if zlen object =? 0 then ret 0
  else assert_that (zlen object =? 8) ;;; bit_cast 8 object.
Definition coin_total_supply : M S Z := get_amount supply_id [].
Definition coin_balance_of (a : bytes) : M S Z := get_amount balance_id a.

(** [system->read( file_descriptor::stdin, ... )], its error ignored. *)
Definition read_buffer (buf : bytes) : M S bytes :=
  let* r := si_read sys fd_stdin buf in ret (snd r).
Definition read_u64 : M S Z := let* b := read_buffer (zero_bytes 8) in ret (le_val b).

Definition write_out (buf : bytes) : M S error_code :=
  si_write sys fd_stdout buf ;;; ret (program_error program_errc.ok).

(** [!std::ranges::equal( from, caller ) && !system->check_authority( from )]:
    the second operand asks whether the expected holds a value. *)
Definition unauthorized (from : account) (caller : bytes) : M S bool :=
  if bytes_eqb from caller then ret false
  else
    let* authorized := si_check_authority sys from in
    ret (match authorized with inl _ => false | inr _ => true end).

(** The account variables of [coin::run] are not initialised: [uninit1] and
    [uninit2] are what their memory holds. *)
Context (uninit1 uninit2 : bytes).

Definition coin_transfer : M S error_code :=
  let* from := read_buffer uninit1 in
  let* to := read_buffer uninit2 in
  let* value := read_u64 in
  if bytes_eqb from to then ret (program_error program_errc.invalid_argument)
  else
    let* caller := si_get_caller sys in
    let* refused := unauthorized from caller in
    if refused then ret (program_error program_errc.unauthorized)
    else
      let* from_balance := coin_balance_of from in
      if from_balance <? value then ret (program_error program_errc.insufficient_balance)
      else
        let* to_balance := coin_balance_of to in
        let from_balance := u64 (from_balance - value) in
        let to_balance := u64 (to_balance + value) in
        si_put_object sys balance_id from (le_bytes 8 from_balance) ;;;
        si_put_object sys balance_id to (le_bytes 8 to_balance) ;;;
        ret (program_error program_errc.ok).

Definition coin_mint : M S error_code :=
  let* to := read_buffer uninit1 in
  let* value := read_u64 in
  let* supply := coin_total_supply in
  if u64_max - value <? supply then ret (program_error program_errc.overflow)
  else
    let* to_balance := coin_balance_of to in
    let supply := u64 (supply + value) in
    let to_balance := u64 (to_balance + value) in
    si_put_object sys supply_id [] (le_bytes 8 supply) ;;;
    si_put_object sys balance_id to (le_bytes 8 to_balance) ;;;
    ret (program_error program_errc.ok).

Definition coin_burn : M S error_code :=
  let* from := read_buffer uninit1 in
  let* value := read_u64 in
  let* caller := si_get_caller sys in
  let* refused := unauthorized from caller in
  if refused then ret (program_error program_errc.unauthorized)
  else
    let* from_balance := coin_balance_of from in
    if from_balance <? value then ret (program_error program_errc.insufficient_balance)
    else
      let* supply := coin_total_supply in
      if supply <? value then ret (program_error program_errc.insufficient_supply)
      else
        let supply := u64 (supply - value) in
        let from_balance := u64 (from_balance - value) in
        si_put_object sys supply_id [] (le_bytes 8 supply) ;;;
        si_put_object sys balance_id from (le_bytes 8 from_balance) ;;;
        ret (program_error program_errc.ok).

(** [coin::run] *)
Definition coin_run (arguments : list bytes) : M S error_code :=
  let* ins := read_buffer (zero_bytes 4) in
  match instruction_of (le_val ins) with
  | Some authorize => write_out [0]
  | Some name => write_out coin_name
  | Some symbol => write_out coin_symbol
  | Some decimals => write_out (le_bytes 4 coin_decimals)
  | Some total_supply => let* supply := coin_total_supply in write_out (le_bytes 8 supply)
  | Some balance_of =>
      let* a := read_buffer uninit1 in
      let* balance := coin_balance_of a in write_out (le_bytes 8 balance)
  | Some transfer => coin_transfer
  | Some mint => coin_mint
  | Some burn => coin_burn
  | None => ret (program_error program_errc.invalid_instruction)
  end.
End coin.

(** ** What the program does to the ledger *)

(** The amount an object holds. *)
Definition amount (o : bytes) : Z := if zlen o =? 0 then 0 else le_val (take 8 o).

Definition is_account (a : bytes) : Prop := length a = account_length.

Fixpoint zsum (l : list Z) : Z := match l with [] => 0 | x :: l => x + zsum l end.

Lemma zsum_update {A} (f g : A -> Z) l a :
  NoDup l -> a ∈ l -> (forall x, x ∈ l -> x <> a -> g x = f x) ->
  zsum (g <$> l) = zsum (f <$> l) - f a + g a.
Proof.
  induction 1 as [|x l Hx Hl IH]; intros Ha Hfg; [by apply elem_of_nil in Ha|].
  rewrite !fmap_cons. cbn [zsum].
  apply elem_of_cons in Ha as [->|Ha].
  - assert (g <$> l = f <$> l) as ->; [|lia]. apply list_fmap_ext. intros i y Hy.
    apply list_elem_of_lookup_2 in Hy. apply Hfg; [by right|]. intros ->. done.
  - rewrite IH; [|done|intros y Hy Hne; apply Hfg; [by right|done]].
    rewrite (Hfg x); [lia|by left|]. intros ->. done.
Qed.

Lemma zsum_nonneg {A} (f : A -> Z) l : (forall x, x ∈ l -> 0 <= f x) -> 0 <= zsum (f <$> l).
Proof.
  induction l as [|x l IH]; [done|]. rewrite fmap_cons. cbn [zsum]. intros H. pose proof (H x ltac:(by left)).
  assert (0 <= zsum (f <$> l)); [|lia]. apply IH. intros y Hy. apply H. by right.
Qed.

Lemma zsum_elem {A} (f : A -> Z) l a :
  (forall x, x ∈ l -> 0 <= f x) -> a ∈ l -> f a <= zsum (f <$> l).
Proof.
  induction l as [|x l IH]; intros H Ha; [by apply elem_of_nil in Ha|].
  rewrite fmap_cons. cbn [zsum].
  assert (0 <= zsum (f <$> l)) by (apply zsum_nonneg; intros; apply H; by right).
  apply elem_of_cons in Ha as [->|Ha]; [lia|].
  pose proof (H x ltac:(by left)). assert (f a <= zsum (f <$> l)); [|lia].
  apply IH; [|done]. intros. apply H. by right.
Qed.

Section ledger.
Context {S : Type} (sys : system_interface S) {laws : SystemLaws sys}.

Definition supply (s : S) : Z := amount (slot s supply_id []).
Definition balance (s : S) (a : bytes) : Z := amount (slot s balance_id a).
Definition same_slots (s s' : S) : Prop := forall i x, slot s' i x = slot s i x.

(** One instruction on the ledger: nothing, or one of the three movements. *)
Inductive moves (s s' : S) : error_code -> Prop :=
| moves_nothing e : same_slots s s' -> moves s s' e
| moves_transfer from to v :
    is_account from -> is_account to -> from <> to -> 0 <= v <= balance s from ->
    supply s' = supply s ->
    (forall a, is_account a -> balance s' a =
       if bytes_eqb a to then u64 (balance s to + v)
       else if bytes_eqb a from then u64 (balance s from - v) else balance s a) ->
    moves s s' (program_error program_errc.ok)
| moves_mint to v :
    is_account to -> 0 <= v <= u64_max - supply s -> supply s' = u64 (supply s + v) ->
    (forall a, is_account a -> balance s' a =
       if bytes_eqb a to then u64 (balance s to + v) else balance s a) ->
    moves s s' (program_error program_errc.ok)
| moves_burn from v :
    is_account from -> 0 <= v <= balance s from -> v <= supply s -> supply s' = u64 (supply s - v) ->
    (forall a, is_account a -> balance s' a =
       if bytes_eqb a from then u64 (balance s from - v) else balance s a) ->
    moves s s' (program_error program_errc.ok).

(** What may happen before the movement: reading, and the program whose
    authority is asked. *)
Definition disturbed (s s' : S) : Prop :=
  exists a b, same_slots s a /\ (same_slots a b \/ typed a /\ interference a b) /\ same_slots b s'.

#[local] Instance same_slots_equiv : Equivalence same_slots.
Proof.
  split; [by intros s i x|intros s s' H i x; by rewrite H|].
  intros a b c H1 H2 i x. by rewrite H2.
Qed.

Lemma same_disturbed s s' : same_slots s s' -> disturbed s s'.
Proof. intros H. exists s', s'. split; [done|]. split; [left|]; reflexivity. Qed.

Lemma same_supply s s' : same_slots s s' -> supply s' = supply s.
Proof. intros H. unfold supply. by rewrite H. Qed.
Lemma same_balance s s' a : same_slots s s' -> balance s' a = balance s a.
Proof. intros H. unfold balance. by rewrite H. Qed.

Lemma get_amount_ok id k s v s' :
  get_amount sys id k s = Ret v s' -> v = amount (slot s id k) /\ same_slots s s'.
Proof.
  unfold get_amount. intros (o & s1 & [-> Hs]%get_object_law & H)%bind_Ret_inv. unfold amount.
  destruct (zlen (slot s id k) =? 0); [by injection H as <- <-|].
  destruct (zlen (slot s id k) =? 8); [|done]. cbn [assert_that] in H.
  unfold bind, ret, bit_cast in H. destruct (zlen _ <? _); [done|]. by injection H as <- <-.
Qed.

Lemma read_buffer_ok buf s b s' :
  read_buffer sys buf s = Ret b s' ->
  length b = length buf /\ same_slots s s' /\ (typed s -> typed s' /\ (bytes_ok buf -> bytes_ok b)).
Proof.
  unfold read_buffer. intros ([e b'] & s1 & H & [= <- <-])%bind_Ret_inv. by apply read_law in H.
Qed.

Lemma read_u64_ok s v s' :
  read_u64 sys s = Ret v s' -> same_slots s s' /\ (typed s -> 0 <= v /\ typed s').
Proof.
  unfold read_u64. intros (b & s1 & (_ & Hs & Ht)%read_buffer_ok & [= <- <-])%bind_Ret_inv.
  split; [done|]. intros Hty. apply Ht in Hty as [Ht' Hb]. split; [|done]. apply le_val_range, Hb, zero_bytes_ok.
Qed.

Lemma get_caller_same s c s' : si_get_caller sys s = Ret c s' -> same_slots s s' /\ (typed s -> typed s').
Proof. intros H. exact (get_caller_law s c s' H). Qed.

Lemma write_out_same buf s e s' : write_out sys buf s = Ret e s' -> same_slots s s'.
Proof. unfold write_out. intros (? & s1 & H & [= _ <-])%bind_Ret_inv. exact (write_law _ _ _ _ _ H). Qed.

Lemma unauthorized_ok from caller s r s' :
  unauthorized sys from caller s = Ret r s' -> same_slots s s' \/ interference s s'.
Proof.
  unfold unauthorized. destruct (bytes_eqb from caller); [intros [= _ <-]; left; reflexivity|].
  intros (a & s1 & H%check_authority_law & [= _ <-])%bind_Ret_inv.
  destruct (account_view_program from); [by right|by left].
Qed.

Lemma amount_le_bytes z : amount (le_bytes 8 (u64 z)) = u64 z.
Proof.
  unfold amount, zlen. rewrite length_le_bytes. change (Z.of_nat 8 =? 0) with false. cbv iota.
  rewrite take_ge by (by rewrite length_le_bytes). rewrite le_val_bytes.
  change (8 * Z.of_nat 8) with 64. apply u64_small, u64_range.
Qed.

Lemma put_amount_ok id k z s e s' :
  si_put_object sys id k (le_bytes 8 (u64 z)) s = Ret e s' ->
  amount (slot s' id k) = u64 z /\ (forall i x, x <> k -> slot s' i x = slot s i x).
Proof. intros [H1 H2]%put_object_law. rewrite H1, amount_le_bytes. done. Qed.

Lemma account_not_nil a : is_account a -> a <> [].
Proof. by intros Ha ->. Qed.

(** The two writes that end a movement of [v] from or to accounts. *)
Lemma put_supply_balance z y a s e1 s1 e2 s2 :
  is_account a ->
  si_put_object sys supply_id [] (le_bytes 8 (u64 z)) s = Ret e1 s1 ->
  si_put_object sys balance_id a (le_bytes 8 (u64 y)) s1 = Ret e2 s2 ->
  supply s2 = u64 z /\
  (forall x, is_account x -> balance s2 x = if bytes_eqb x a then u64 y else balance s x).
Proof.
  intros Ha [H1 H1']%put_amount_ok [H2 H2']%put_amount_ok. split.
  - unfold supply. rewrite H2'; [done|]. by apply not_eq_sym, account_not_nil.
  - intros x Hx. unfold balance. case_bool; bool_to_prop; [by subst|].
    rewrite H2', H1' by (done || by apply account_not_nil). done.
Qed.

Lemma put_balances z y a b s e1 s1 e2 s2 :
  is_account a -> is_account b -> a <> b ->
  si_put_object sys balance_id a (le_bytes 8 (u64 z)) s = Ret e1 s1 ->
  si_put_object sys balance_id b (le_bytes 8 (u64 y)) s1 = Ret e2 s2 ->
  supply s2 = supply s /\
  (forall x, is_account x -> balance s2 x =
     if bytes_eqb x b then u64 y else if bytes_eqb x a then u64 z else balance s x).
Proof.
  intros Ha Hb Hab [H1 H1']%put_amount_ok [H2 H2']%put_amount_ok. split.
  - unfold supply. by rewrite H2', H1' by (by apply not_eq_sym, account_not_nil).
  - intros x Hx. unfold balance. case_bool; bool_to_prop; [by subst|].
    case_bool; bool_to_prop; [subst; by rewrite H2'|]. by rewrite H2', H1'.
Qed.

Context (uninit1 uninit2 : bytes) (Hu1 : is_account uninit1) (Hu2 : is_account uninit2).

Lemma disturbed_by s a b c : same_slots s a -> typed a -> same_slots a b \/ interference a b -> same_slots b c -> disturbed s c.
Proof. intros H1 Ht [H2|H2] H3; exists a, b; auto. Qed.

Lemma coin_transfer_moves s e s' :
  coin_transfer sys uninit1 uninit2 s = Ret e s' -> typed s ->
  exists s1, disturbed s s1 /\ moves s1 s' e.
Proof using Hu1 Hu2.
  unfold coin_transfer. intros (from & sa & (Hlf & Ha & Hta)%read_buffer_ok & H)%bind_Ret_inv Hty.
  apply bind_Ret_inv in H as (to & sb & (Hlt & Hb & Htb)%read_buffer_ok & H).
  apply bind_Ret_inv in H as (v & sc & [Hc Htc]%read_u64_ok & H).
  assert (is_account from /\ is_account to) as [Hfrom Hto] by (unfold is_account in *; lia).
  destruct (Htc ltac:(apply Htb, Hta, Hty)) as [Hv Hyc].
  assert (same_slots s sc) as Hsc by (etrans; [done|]; etrans; done).
  destruct (bytes_eqb from to) eqn:Eft.
  { injection H as <- <-. exists s. split; [apply same_disturbed; reflexivity|by constructor]. }
  apply bind_Ret_inv in H as (caller & sd & [Hd Hyd]%get_caller_same & H). specialize (Hyd Hyc).
  apply bind_Ret_inv in H as (refused & se & He%unauthorized_ok & H).
  assert (same_slots s sd) as Hsd by (by etrans).
  destruct refused.
  { injection H as <- <-. exists se. split; [by apply (disturbed_by s sd se se)|by constructor]. }
  apply bind_Ret_inv in H as (fb & sf & [-> Hf]%get_amount_ok & H).
  destruct (_ <? v) eqn:Ev.
  { injection H as <- <-. exists sf. split; [by apply (disturbed_by s sd se sf)|by constructor]. }
  apply bind_Ret_inv in H as (tb & sg & [-> Hg]%get_amount_ok & H).
  apply bind_Ret_inv in H as (e1 & sh & Hp1 & H). apply bind_Ret_inv in H as (e2 & si & Hp2 & [= <- <-]).
  exists se. split; [by apply (disturbed_by s sd se se)|]. bool_to_prop.
  destruct (put_balances _ _ from to sg e1 sh e2 si Hfrom Hto Eft Hp1 Hp2) as [Hsup Hbal].
  assert (same_slots se sg) as Hseg by (by etrans).
  apply (moves_transfer se si from to v); [done..|split; [done|exact Ev]| |].
  - by rewrite Hsup, (same_supply _ _ Hseg).
  - intros x Hx. rewrite (Hbal x Hx), (same_balance _ _ x Hseg). fold (balance sf to) (balance se from).
    by rewrite (same_balance _ _ to Hf).
Qed.

Lemma coin_mint_moves s e s' :
  coin_mint sys uninit1 s = Ret e s' -> typed s -> exists s1, disturbed s s1 /\ moves s1 s' e.
Proof using Hu1 Hu2.
  unfold coin_mint. intros (to & sa & (Hlf & Ha & Hta)%read_buffer_ok & H)%bind_Ret_inv Hty.
  apply bind_Ret_inv in H as (v & sb & [Hb Htb]%read_u64_ok & H).
  assert (is_account to) as Hto by (unfold is_account in *; lia).
  destruct (Htb ltac:(apply Hta, Hty)) as [Hv _].
  assert (same_slots s sb) as Hsb by (by etrans).
  apply bind_Ret_inv in H as (sup & sc & [-> Hc]%get_amount_ok & H). fold (supply sb) in H.
  exists sb. split; [by apply same_disturbed|]. destruct (_ <? supply sb) eqn:E; bool_to_prop.
  { injection H as <- <-. by constructor. }
  apply bind_Ret_inv in H as (tb & sd & [-> Hd]%get_amount_ok & H).
  apply bind_Ret_inv in H as (e1 & sh & Hp1 & H). apply bind_Ret_inv in H as (e2 & si & Hp2 & [= <- <-]).
  destruct (put_supply_balance _ _ to sd e1 sh e2 si Hto Hp1 Hp2) as [Hsup Hbal].
  apply (moves_mint sb si to v); [done|lia|done|].
  intros x Hx. rewrite (Hbal x Hx). assert (same_slots sb sd) as Hsd by (by etrans).
  fold (balance sc to). by rewrite (same_balance _ _ x Hsd), (same_balance _ _ to Hc).
Qed.

Lemma coin_burn_moves s e s' :
  coin_burn sys uninit1 s = Ret e s' -> typed s -> exists s1, disturbed s s1 /\ moves s1 s' e.
Proof using Hu1 Hu2.
  unfold coin_burn. intros (from & sa & (Hlf & Ha & Hta)%read_buffer_ok & H)%bind_Ret_inv Hty.
  apply bind_Ret_inv in H as (v & sb & [Hb Htb]%read_u64_ok & H).
  assert (is_account from) as Hfrom by (unfold is_account in *; lia).
  destruct (Htb ltac:(apply Hta, Hty)) as [Hv Hyb].
  apply bind_Ret_inv in H as (caller & sc & [Hc Hyc]%get_caller_same & H). specialize (Hyc Hyb).
  assert (same_slots s sc) as Hsc by (etrans; [done|]; by etrans).
  apply bind_Ret_inv in H as (refused & sd & Hd%unauthorized_ok & H).
  exists sd. split; [by apply (disturbed_by s sc sd sd)|].
  destruct refused; [injection H as <- <-; by constructor|].
  apply bind_Ret_inv in H as (fb & se & [-> He]%get_amount_ok & H). fold (balance sd from) in H.
  destruct (_ <? v) eqn:Ev; [injection H as <- <-; by constructor|].
  apply bind_Ret_inv in H as (sup & sf & [-> Hf]%get_amount_ok & H). fold (supply se) in H.
  assert (same_slots sd sf) as Hsf by (by etrans).
  destruct (_ <? v) eqn:Ev2 in H; [injection H as <- <-; by constructor|].
  apply bind_Ret_inv in H as (e1 & sh & Hp1 & H). apply bind_Ret_inv in H as (e2 & si & Hp2 & [= <- <-]).
  destruct (put_supply_balance _ _ from sf e1 sh e2 si Hfrom Hp1 Hp2) as [Hsup Hbal].
  rewrite (same_supply _ _ He) in *. bool_to_prop.
  apply (moves_burn sd si from v); [done|lia|lia|done|].
  intros x Hx. by rewrite (Hbal x Hx), (same_balance _ _ x Hsf).
Qed.

(** Every run of the program is one instruction on the ledger, possibly after
    the program whose authority was asked has run. *)
Lemma coin_run_moves args s e s' :
  coin_run sys uninit1 uninit2 args s = Ret e s' -> typed s ->
  exists s1, disturbed s s1 /\ moves s1 s' e.
Proof using Hu1 Hu2.
  unfold coin_run. intros (ins & sa & (_ & Ha & Hta)%read_buffer_ok & H)%bind_Ret_inv Hty.
  assert (forall s1, disturbed sa s1 -> disturbed s s1) as Hd.
  { intros s1 (a & b & H1 & H2 & H3). exists a, b. split; [by etrans|done]. }
  assert (same_slots sa s' -> exists s1, disturbed s s1 /\ moves s1 s' e) as Hq.
  { intros Hs. exists sa. split; [by apply same_disturbed|by constructor]. }
  destruct (Hta Hty) as [Hta' _].
  destruct (instruction_of _) as [[]|]; try (apply Hq; by apply write_out_same in H).
  - apply bind_Ret_inv in H as (v & sb & [_ Hb]%get_amount_ok & H%write_out_same). apply Hq. by etrans.
  - apply bind_Ret_inv in H as (a & sb & (_ & Hb & _)%read_buffer_ok & H).
    apply bind_Ret_inv in H as (v & sc & [_ Hc]%get_amount_ok & H%write_out_same). apply Hq. etrans; [done|]. by etrans.
  - destruct (coin_transfer_moves _ _ _ H Hta') as (s1 & H1 & H2). eauto.
  - destruct (coin_mint_moves _ _ _ H Hta') as (s1 & H1 & H2). eauto.
  - destruct (coin_burn_moves _ _ _ H Hta') as (s1 & H1 & H2). eauto.
  - injection H as <- <-. apply Hq. reflexivity.
Qed.

(** The ledger is balanced: finitely many accounts hold the whole supply. *)
Definition covers (s : S) (l : list bytes) : Prop :=
  NoDup l /\ Forall is_account l /\ (forall a, is_account a -> a ∉ l -> balance s a = 0) /\
  zsum (balance s <$> l) = supply s.
Definition balanced (s : S) : Prop :=
  (forall a, is_account a -> 0 <= balance s a) /\ supply s <= u64_max /\ exists l, covers s l.

Lemma covers_extend s l a : covers s l -> is_account a -> exists l', covers s l' /\ a ∈ l' /\ l ⊆ l'.
Proof.
  intros (Hnd & Hall & Hz & Hs) Ha. destruct (decide (a ∈ l)) as [Hin|Hin]; [by exists l|].
  exists (a :: l). split; [|split; [by left|intros x Hx; by right]].
  split; [by constructor|]. split; [by constructor|]. split.
  - intros b Hb Hn. apply Hz; [done|]. intros Hbl. apply Hn. by right.
  - rewrite fmap_cons. cbn [zsum]. rewrite (Hz a Ha Hin). lia.
Qed.

Lemma balanced_same s s' : same_slots s s' -> balanced s -> balanced s'.
Proof.
  intros H (Hpos & Hmax & l & Hnd & Hall & Hz & Hs).
  assert (forall a, balance s' a = balance s a) as Hb by (intros; by apply same_balance).
  split; [intros a Ha; rewrite Hb; auto|]. rewrite (same_supply _ _ H). split; [done|].
  exists l. split; [done|]. split; [done|]. split; [intros a Ha Hn; rewrite Hb; auto|].
  rewrite (same_supply _ _ H), <- Hs. f_equal. by apply list_fmap_ext.
Qed.

Lemma covers_nonneg s l x :
  (forall a, is_account a -> 0 <= balance s a) -> covers s l -> x ∈ l -> 0 <= balance s x.
Proof. intros Hpos (_ & Hall & _) Hx. rewrite Forall_forall in Hall. auto. Qed.

Lemma covers_le s l x :
  (forall a, is_account a -> 0 <= balance s a) -> covers s l -> x ∈ l -> balance s x <= supply s.
Proof.
  intros Hpos Hc Hx. pose proof Hc as (_ & _ & _ & <-). apply zsum_elem; [|done].
  intros. by eapply covers_nonneg.
Qed.

(** A movement that changes one account and the supply by the same amount. *)
Lemma balanced_one s s' a d :
  balanced s -> is_account a -> supply s' = supply s + d -> supply s' <= u64_max -> 0 <= balance s a + d ->
  (forall x, is_account x -> balance s' x = if bytes_eqb x a then balance s a + d else balance s x) ->
  balanced s'.
Proof.
  intros (Hpos & Hmax & l & Hc) Ha Hsup Hmax' Hge Hbal.
  destruct (covers_extend s l a Hc Ha) as (l' & Hc' & Hin & _). pose proof Hc' as (Hnd & Hall & Hz & Hs).
  split; [|split; [done|exists l'; split; [done|split; [done|split]]]].
  - intros x Hx. rewrite (Hbal x Hx). case_bool; [done|auto].
  - intros x Hx Hn. rewrite (Hbal x Hx). case_bool; bool_to_prop; [by subst|auto].
  - rewrite Forall_forall in Hall. rewrite (zsum_update (balance s) (balance s') l' a Hnd Hin).
    + rewrite Hs, Hsup, (Hbal a Ha), bytes_eqb_refl. lia.
    + intros x Hx Hne. rewrite (Hbal x (Hall x Hx)). case_bool; bool_to_prop; done.
Qed.

Lemma balanced_le s a : balanced s -> is_account a -> 0 <= balance s a <= supply s.
Proof.
  intros (Hpos & _ & l & Hc) Ha. destruct (covers_extend s l a Hc Ha) as (l' & Hc' & Hin & _).
  split; [auto|by eapply covers_le].
Qed.

Lemma balanced_transfer s s' from to v :
  balanced s -> is_account from -> is_account to -> from <> to -> 0 <= v <= balance s from ->
  supply s' = supply s ->
  (forall a, is_account a -> balance s' a =
       if bytes_eqb a to then u64 (balance s to + v)
       else if bytes_eqb a from then u64 (balance s from - v) else balance s a) ->
  balanced s'.
Proof.
  intros Hb Hf Ht Hne Hv Hsup Hbal. pose proof (balanced_le s from Hb Hf) as Hlf.
  pose proof (balanced_le s to Hb Ht) as Hlt. destruct Hb as (Hpos & Hmax & l0 & Hc0).
  destruct (covers_extend s l0 from Hc0 Hf) as (l1 & Hc1 & Hin1 & _).
  destruct (covers_extend s l1 to Hc1 Ht) as (l & Hc & Hint & Hsub). specialize (Hsub from Hin1).
  pose proof Hc as (Hnd & Hall & Hz & Hs).
  (* the sums with first one, then both accounts changed *)
  set (g := fun a => if bytes_eqb a from then balance s from - v else balance s a).
  assert (zsum (g <$> l) = supply s - v) as Hg.
  { rewrite (zsum_update (balance s) g l from Hnd Hsub).
    - unfold g. rewrite bytes_eqb_refl. lia.
    - intros x _ Hx. unfold g. case_bool; bool_to_prop; done. }
  assert (g to <= zsum (g <$> l)) as Hgt.
  { apply zsum_elem; [|done]. intros x Hx. unfold g. case_bool; [lia|]. by eapply covers_nonneg. }
  assert (g to = balance s to) as Hgto by (unfold g; case_bool; bool_to_prop; congruence).
  assert (forall a, is_account a -> balance s' a = if bytes_eqb a to then balance s to + v else g a) as Hbal'.
  { intros a Ha. rewrite (Hbal a Ha), !u64_small; [done|unfold u64_ok, u64_max in *; lia..]. }
  split; [|split; [lia|exists l; split; [done|split; [done|split]]]].
  - intros a Ha. rewrite (Hbal' a Ha). unfold g. case_bool; [lia|]. case_bool; [lia|auto].
  - intros a Ha Hn. rewrite (Hbal' a Ha). unfold g. case_bool; bool_to_prop; [by subst|].
    case_bool; bool_to_prop; [by subst|auto].
  - rewrite (zsum_update g (balance s') l to Hnd Hint).
    + rewrite Hg, Hgto, (Hbal' to Ht), bytes_eqb_refl, Hsup. lia.
    + intros x Hx Hxt. rewrite Forall_forall in Hall. rewrite (Hbal' x (Hall x Hx)).
      case_bool; bool_to_prop; done.
Qed.

Lemma moves_balanced s s' e : moves s s' e -> balanced s -> balanced s'.
Proof.
  intros Hm Hb. destruct Hm as [e Hs|from to v Hf Ht Hne Hv Hsup Hbal|to v Ht Hv Hsup Hbal|from v Hf Hv Hvs Hsup Hbal].
  - by eapply balanced_same.
  - exact (balanced_transfer s s' from to v Hb Hf Ht Hne Hv Hsup Hbal).
  - pose proof (balanced_le s to Hb Ht). apply (balanced_one s s' to v); [done|done| | |lia|].
    + rewrite Hsup. apply u64_small. unfold u64_ok, u64_max in *. lia.
    + rewrite Hsup. pose proof (u64_range (supply s + v)). unfold u64_ok, u64_max in *. lia.
    + intros x Hx. rewrite (Hbal x Hx). case_bool; [|done]. apply u64_small. unfold u64_ok, u64_max in *. lia.
  - pose proof (balanced_le s from Hb Hf). pose proof Hb as (_ & Hmax & _).
    apply (balanced_one s s' from (- v)); [done|done| | |lia|].
    + rewrite Hsup. apply u64_small. unfold u64_ok, u64_max in *. lia.
    + rewrite Hsup. pose proof (u64_range (supply s - v)). unfold u64_ok, u64_max in *. lia.
    + intros x Hx. rewrite (Hbal x Hx). case_bool; [|done]. apply u64_small. unfold u64_ok, u64_max in *. lia.
Qed.

(** Whatever the input and whatever instruction it names, the program keeps
    the ledger balanced: the accounts hold exactly the supply, amounts do not
    wrap, and coins appear and disappear only with the supply; provided the
    programs asked for authority keep it balanced. CoinSafety discharges the
    proviso for the execution context. *)
Lemma coin_run_balanced args s e s' :
  (forall a b, typed a -> interference a b -> balanced a -> balanced b) ->
  coin_run sys uninit1 uninit2 args s = Ret e s' -> typed s -> balanced s -> balanced s'.
Proof using Hu1 Hu2.
  intros Hi H Hty Hb. destruct (coin_run_moves args s e s' H Hty) as (s1 & (a & b & H1 & H2 & H3) & Hm).
  eapply moves_balanced; [exact Hm|]. apply (balanced_same _ _ H3). apply (balanced_same _ _ H1) in Hb.
  destruct H2 as [H2|[Ht H2]]; [by apply (balanced_same _ _ H2)|by eapply Hi].
Qed.

(** The three ways to change the ledger, as the caller sees them: an error
    code means that nothing moved. *)
Theorem coin_errors_move_nothing args s e s' :
  (forall a b, interference a b -> same_slots a b) ->
  coin_run sys uninit1 uninit2 args s = Ret e s' -> typed s -> is_error e = true -> same_slots s s'.
Proof using Hu1 Hu2.
  intros Hi H Hty He. destruct (coin_run_moves args s e s' H Hty) as (s1 & (a & b & H1 & H2 & H3) & Hm).
  assert (same_slots s s1) as Hs.
  { etrans; [exact H1|]. etrans; [|exact H3]. destruct H2 as [?|[_ ?]]; auto. }
  inversion Hm; subst; [by etrans|done..].
Qed.
End ledger.

(** ** Runs on the plain system *)

Definition alice : account := 0 :: replicate 32 1.
Definition bob : account := 0 :: replicate 32 2.
Definition ledger_of (z : Z) : list (bytes * bytes) :=
  om_insert (plain_key balance_id alice) (le_bytes 8 z)
    (om_insert (plain_key supply_id []) (le_bytes 8 z) []).
Definition input_of (ins : Z) (rest : bytes) : bytes := le_bytes 4 ins ++ rest.
Definition uninit_account : bytes := zero_bytes account_length.

Definition transfer_state : plain_state :=
  Plain (ledger_of 100) (input_of 6 (alice ++ bob ++ le_bytes 8 30)) [].

(** [check_authority] of the plain system answers no for every account, and the
    caller is nobody: [transfer] still moves the coins, and [mint] asks no one. *)
Theorem coin_ignores_refused_authority :
  (exists s', coin_run plain_system uninit_account uninit_account [] transfer_state
     = Ret (program_error program_errc.ok) s' /\
     balance plain_system s' alice = 70 /\ balance plain_system s' bob = 30) /\
  (exists s', coin_run plain_system uninit_account uninit_account []
       (Plain (ledger_of 100) (input_of 7 (bob ++ le_bytes 8 5)) [])
     = Ret (program_error program_errc.ok) s' /\
     supply plain_system s' = 105 /\ balance plain_system s' bob = 5).
Proof.
  split; eexists; (split; [vm_compute; reflexivity|]); split; vm_compute; reflexivity.
Qed.

Lemma transfer_state_balanced : balanced plain_system transfer_state.
Proof.
  assert (forall a, is_account a -> balance plain_system transfer_state a = if bytes_eqb a alice then 100 else 0) as Hb.
  { intros a Ha. unfold balance, slot. cbn [plain_laws]. unfold plain_slot, transfer_state, ledger_of.
    cbn [pl_objects]. rewrite om_lookup_insert.
    assert (bytes_eqb (plain_key balance_id a) (plain_key balance_id alice) = bytes_eqb a alice) as ->.
    { unfold plain_key, bytes_eqb. apply bool_decide_ext. split; [apply app_inv_head|congruence]. }
    destruct (bytes_eqb a alice); [by vm_compute|]. rewrite om_lookup_insert_ne; [by vm_compute|].
    unfold plain_key. simpl. discriminate. }
  split; [|split].
  - intros a Ha. rewrite Hb by done. by case_bool.
  - vm_compute. discriminate.
  - exists [alice]. split; [apply NoDup_singleton|]. split; [by repeat constructor|]. split.
    + intros a Ha Hn. rewrite Hb by done. case_bool; bool_to_prop; [subst|done]. destruct Hn. constructor.
    + by vm_compute.
Qed.

Lemma coin_run_balanced_sample :
  exists e s', coin_run plain_system uninit_account uninit_account [] transfer_state = Ret e s' /\
    balanced plain_system s'.
Proof.
  eexists _, _. split; [vm_compute; reflexivity|].
  eapply (coin_run_balanced plain_system uninit_account uninit_account eq_refl eq_refl [] transfer_state).
  - intros a b _ Hi. exact (balanced_same plain_system a b Hi).
  - vm_compute. reflexivity.
  - apply bytes_check. by vm_compute.
  - exact transfer_state_balanced.
Qed.

Lemma coin_errors_move_nothing_witness :
  exists e s', coin_run plain_system uninit_account uninit_account []
      (Plain (ledger_of 100) (input_of 6 (alice ++ bob ++ le_bytes 8 101)) []) = Ret e s' /\
    is_error e = true /\
    same_slots plain_system (Plain (ledger_of 100) (input_of 6 (alice ++ bob ++ le_bytes 8 101)) []) s'.
Proof.
  eexists _, _. split; [vm_compute; reflexivity|]. split; [reflexivity|].
  eapply (coin_errors_move_nothing plain_system uninit_account uninit_account eq_refl eq_refl []).
  - intros a b Hi. exact Hi.
  - vm_compute. reflexivity.
  - apply bytes_check. by vm_compute.
  - reflexivity.
Defined.

(** ** Composing with the effects of the system *)

Section coin_guarded.
Context {S : Type} (sys : system_interface S) (P : S -> Prop) (R : S -> S -> Prop).
Context `{!PreOrder R} `{!Stable P R}.
Context (Hread : forall fd b, guarded P R (si_read sys fd b))
  (Hwrite : forall fd b, guarded P R (si_write sys fd b))
  (Hget : forall i k, guarded P R (si_get_object sys i k))
  (Hput : forall i k v, guarded P R (si_put_object sys i k v))
  (Hauth : forall a, guarded P R (si_check_authority sys a))
  (Hcaller : guarded P R (si_get_caller sys)).

Lemma bit_cast_guarded n b : guarded P R (bit_cast n b).
Proof using PreOrder0. unfold bit_cast. guarded_auto. Qed.

Lemma get_amount_guarded i k : guarded P R (get_amount sys i k).
Proof using All. unfold get_amount. pose proof bit_cast_guarded. guarded_auto. Qed.

(** The program has no effect but those of the functions it calls. *)
Lemma coin_run_guarded u1 u2 args : guarded P R (coin_run sys u1 u2 args).
Proof using All.
  pose proof get_amount_guarded as Ha.
  assert (forall b, guarded P R (read_buffer sys b)) as Hb by (intros; unfold read_buffer; guarded_auto).
  assert (guarded P R (read_u64 sys)) as Hu by (unfold read_u64; guarded_auto).
  assert (forall b, guarded P R (write_out sys b)) as Hw by (intros; unfold write_out; guarded_auto).
  assert (forall a c, guarded P R (unauthorized sys a c)) as Hun by (intros; unfold unauthorized; guarded_auto).
  unfold coin_run, coin_transfer, coin_mint, coin_burn, coin_total_supply, coin_balance_of. guarded_auto.
Qed.
End coin_guarded.
