(* ===== verification/ModuleCache.v ===== *)
(** * The cache of parsed modules

    [vm/module_cache.{hpp,cpp}]: modules by identifier, the least recently used
    one evicted. The list of identifiers owns the bytes; the map's keys are
    spans into list nodes and its values hold list iterators, so list nodes
    have an identity here, and looking a key up reads the nodes the keys point
    to. The mutex is held for the length of each call. *)

From stdpp Require Import base gmap list option numbers strings.
From S2P Require Import Prelude.

Definition default_module_cache_size : nat := 32.

Section cache.
Context {module : Type}.

(** A value of [_module_map]: the node its key points into, the module, and
    the node the stored iterator points to. *)
Record cache_entry := CacheEntry {
  ce_key_node : nat;
  ce_module : module;
  ce_node : nat
}.

Record module_cache := ModuleCache {
  mc_next : nat;
  mc_lru : list (nat * bytes);
  mc_map : gmap bytes cache_entry;
  mc_size : nat
}.

Definition new_cache (size : nat) : module_cache := ModuleCache 0 [] ∅ size.

Definition set_lru (l : list (nat * bytes)) (c : module_cache) : module_cache :=
  ModuleCache (mc_next c) l (mc_map c) (mc_size c).
Definition set_mmap (m : gmap bytes cache_entry) (c : module_cache) : module_cache :=
  ModuleCache (mc_next c) (mc_lru c) m (mc_size c).

(** The keys of the map all point to nodes of the list. *)
Definition keys_live (c : module_cache) : bool :=
  bool_decide (map_Forall (fun _ e => ce_key_node e ∈ (mc_lru c).*1) (mc_map c)).

(** [_module_map.find( id )] *)
Definition cache_find (id : bytes) : M module_cache (option cache_entry) :=
  let* c := gets Datatypes.id in
  if keys_live c then ret (mc_map c !! id) else fail use_after_free.

(** [_lru_list.splice( begin, _lru_list, node )] *)
Definition splice_front (n : nat) (l : list (nat * bytes)) : option (list (nat * bytes)) :=
  match filter (fun e => e.1 = n) l with
  | e :: _ => Some (e :: filter (fun e => e.1 <> n) l)
  | [] => None
  end.

(** [module_cache::get_module] *)
Definition get_module (id : bytes) : M module_cache (option module) :=
  let* it := cache_find id in
  match it with
  | None => ret None
  | Some e =>
      let* l := gets mc_lru in
      (if bool_decide (fst <$> head l = Some (ce_node e)) then ret tt
       else match splice_front (ce_node e) l with
            | Some l' => modify (set_lru l')
            | None => fail use_after_free
            end) ;;;
      ret (Some (ce_module e))
  end.

(** The eviction of [put_module]. *)
Definition evict : M module_cache unit :=
  let* l := gets mc_lru in
  match last l with
  | None => fail out_of_bounds
  | Some (_, id) =>
      let* it := cache_find id in
      (match it with
       | Some _ => modify (fun c => set_mmap (delete id (mc_map c)) c)
       | None => ret tt
       end) ;;;
      modify (fun c => set_lru (removelast (mc_lru c)) c)
  end.

(** [module_cache::put_module]; [insert_or_assign] keeps the key that is
    there. *)
Definition put_module (id : bytes) (m : module) : M module_cache unit :=
  let* c := gets Datatypes.id in
  (if (mc_size c <=? length (mc_lru c))%nat then evict else ret tt) ;;;
  modify (fun c => ModuleCache (S (mc_next c)) ((mc_next c, id) :: mc_lru c) (mc_map c) (mc_size c)) ;;;
  let* it := cache_find id in
  modify (fun c =>
    let n := pred (mc_next c) in
    let key_node := match it with Some e => ce_key_node e | None => n end in
    set_mmap (<[id := CacheEntry key_node m n]> (mc_map c)) c).

(** The specification: a list with move-to-front and a bound. *)
Fixpoint lru_find (id : bytes) (l : list (bytes * module)) : option module :=
  match l with
  | [] => None
  | (i, m) :: l => if bytes_eqb id i then Some m else lru_find id l
  end.
Definition lru_touch (id : bytes) (l : list (bytes * module)) : list (bytes * module) :=
  match lru_find id l with
  | Some m => (id, m) :: filter (fun e => e.1 <> id) l
  | None => l
  end.
Definition lru_put (size : nat) (id : bytes) (m : module) (l : list (bytes * module)) : list (bytes * module) :=
  (id, m) :: (if (size <=? length l)%nat then removelast l else l).

(** ** Refinement

    [cache_models c l]: the cache is well formed, and [l] lists its modules,
    the most recently used first. *)
Definition node_models (m : gmap bytes cache_entry) (e : nat * bytes) (x : bytes * module) : Prop :=
  x.1 = e.2 /\ m !! e.2 = Some (CacheEntry e.1 x.2 e.1).

Record cache_models (c : module_cache) (l : list (bytes * module)) : Prop := {
  cm_size : (0 < mc_size c)%nat;
  cm_length : (length (mc_lru c) <= mc_size c)%nat;
  cm_nodes : NoDup (mc_lru c).*1;
  cm_ids : NoDup (mc_lru c).*2;
  cm_fresh : Forall (fun e => (e.1 < mc_next c)%nat) (mc_lru c);
  cm_list : Forall2 (node_models (mc_map c)) (mc_lru c) l;
  cm_map : forall id e, mc_map c !! id = Some e -> (ce_key_node e, id) ∈ mc_lru c
}.

Lemma elem_nodup {A B} (l : list (A * B)) a b b' : NoDup l.*1 -> (a, b) ∈ l -> (a, b') ∈ l -> b = b'.
Proof.
  induction l as [|[x y] l IH]; intros Hnd H1 H2; [by apply elem_of_nil in H1|].
  rewrite fmap_cons in Hnd. apply NoDup_cons in Hnd as [Hx Hnd].
  apply elem_of_cons in H1 as [H1|H1], H2 as [H2|H2]; simplify_eq; try done.
  - destruct Hx. by apply (list_elem_of_fmap_2' fst _ (x, b')).
  - destruct Hx. by apply (list_elem_of_fmap_2' fst _ (x, b)).
  - eauto.
Qed.

Lemma elem_nodup2 {A B} (l : list (A * B)) a a' b : NoDup l.*2 -> (a, b) ∈ l -> (a', b) ∈ l -> a = a'.
Proof.
  induction l as [|[x y] l IH]; intros Hnd H1 H2; [by apply elem_of_nil in H1|].
  rewrite fmap_cons in Hnd. apply NoDup_cons in Hnd as [Hx Hnd].
  apply elem_of_cons in H1 as [H1|H1], H2 as [H2|H2]; simplify_eq; try done.
  - destruct Hx. by apply (list_elem_of_fmap_2' snd _ (a', y)).
  - destruct Hx. by apply (list_elem_of_fmap_2' snd _ (a, y)).
  - eauto.
Qed.

Lemma cache_find_ok c l id :
  cache_models c l -> cache_find id c = Ret (mc_map c !! id) c.
Proof.
  intros W. unfold cache_find. rewrite (bind_Ret (gets Datatypes.id) _ c c c eq_refl).
  assert (keys_live c = true) as ->; [|done]. apply bool_decide_eq_true. intros i e Hi.
  apply (cm_map _ _ W) in Hi. by apply (list_elem_of_fmap_2' fst _ (ce_key_node e, i)).
Qed.

Lemma node_models_find m id lru l :
  Forall2 (node_models m) lru l ->
  lru_find id l = if bool_decide (id ∈ lru.*2) then ce_module <$> m !! id else None.
Proof.
  induction 1 as [|[n i] [i' x] lru l [Hi Hm] _ IH]; [done|]. cbn in Hi, Hm. subst i'.
  cbn [lru_find]. rewrite fmap_cons. case_bool; bool_to_prop.
  - subst. rewrite bool_decide_true by (by left). by rewrite Hm.
  - rewrite IH. rewrite (bool_decide_ext (id ∈ (n, i).2 :: lru.*2) (id ∈ lru.*2)); [done|].
    rewrite elem_of_cons. cbn. naive_solver.
Qed.

Lemma cache_lookup c l id :
  cache_models c l -> lru_find id l = ce_module <$> mc_map c !! id.
Proof.
  intros W. rewrite (node_models_find _ id _ _ (cm_list _ _ W)). case_bool_decide as Hn; [done|].
  destruct (mc_map c !! id) as [e|] eqn:E; [|done]. apply (cm_map _ _ W) in E.
  destruct Hn. by apply (list_elem_of_fmap_2' snd _ (ce_key_node e, id)).
Qed.

(** The entry of an identifier names its own node. *)
Lemma cache_entry_eq c l id e :
  cache_models c l -> mc_map c !! id = Some e ->
  (ce_node e, id) ∈ mc_lru c /\ e = CacheEntry (ce_node e) (ce_module e) (ce_node e).
Proof.
  intros W He. pose proof (cm_map _ _ W _ _ He) as Hin. pose proof (cm_list _ _ W) as HF.
  assert (exists m, mc_map c !! id = Some (CacheEntry (ce_key_node e) m (ce_key_node e))) as [m Hm].
  { clear -HF Hin. induction HF as [|[n i] x lru l [_ Hm] _ IH]; [by apply elem_of_nil in Hin|].
    apply elem_of_cons in Hin as [[= <- <-]|Hin]; [eauto|auto]. }
  rewrite He in Hm. injection Hm as ->. done.
Qed.

Lemma filter_node_models m n id lru l :
  Forall2 (node_models m) lru l -> (forall e, e ∈ lru -> e.1 <> n <-> e.2 <> id) ->
  Forall2 (node_models m) (filter (fun e => e.1 <> n) lru) (filter (fun x => x.1 <> id) l).
Proof.
  induction 1 as [|e x lru l [Hx Hm] _ IH]; intros Hiff; [constructor|].
  assert (Forall2 (node_models m) (filter (fun e => e.1 <> n) lru) (filter (fun x => x.1 <> id) l)) as IH'.
  { apply IH. intros. apply Hiff. by right. }
  specialize (Hiff e ltac:(by left)). destruct (decide (e.1 <> n)) as [Hn|Hn].
  - rewrite !filter_cons_True by (done || (rewrite Hx; by apply Hiff)). constructor; [by split|done].
  - rewrite !filter_cons_False by (done || (rewrite Hx; intros ?; apply Hn; by apply Hiff)). done.
Qed.

Lemma filter_node lru n id :
  NoDup lru.*1 -> (n, id) ∈ lru -> filter (fun e : nat * bytes => e.1 = n) lru = [(n, id)].
Proof.
  induction lru as [|[x y] lru IH]; intros Hnd Hin; [by apply elem_of_nil in Hin|].
  rewrite fmap_cons in Hnd. apply NoDup_cons in Hnd as [Hx Hnd].
  assert (forall a b, (a, b) ∈ lru -> a <> x) as Hne.
  { intros a b Hab ->. destruct Hx. by apply (list_elem_of_fmap_2' fst _ (x, b)). }
  apply elem_of_cons in Hin as [[= <- <-]|Hin].
  - rewrite filter_cons_True by done. f_equal. clear -Hne.
    induction lru as [|[a b] lru IH]; [done|]. rewrite filter_cons_False; [|cbn; eapply Hne; by left].
    apply IH. intros. eapply Hne. by right.
  - rewrite filter_cons_False by (cbn; intros ->; by eapply Hne). auto.
Qed.

Lemma filter_all {A} (P : A -> Prop) `{!forall x, Decision (P x)} (l : list A) : (forall x, x ∈ l -> P x) -> filter P l = l.
Proof.
  induction l as [|x l IH]; intros Hall; [done|]. rewrite filter_cons_True by (apply Hall; by left).
  f_equal. apply IH. intros. apply Hall. by right.
Qed.

Lemma map_pair_fst (l : list (nat * bytes)) n (Hn : NoDup l.*1) :
  NoDup (filter (fun e => e.1 <> n) l).*1.
Proof. eapply sublist_NoDup; [exact Hn|]. apply fmap_sublist, sublist_filter. Qed.

Lemma filter_not_in (l : list (nat * bytes)) n : n ∉ (filter (fun e => e.1 <> n) l).*1.
Proof. intros ([a b] & -> & [Ha _]%list_elem_of_filter)%list_elem_of_fmap. by apply Ha. Qed.

(** [get_module] returns the module of the identifier and makes it the most
    recently used one. *)
Theorem get_module_refines c l id :
  cache_models c l ->
  exists c', get_module id c = Ret (lru_find id l) c' /\ cache_models c' (lru_touch id l).
Proof.
  intros W. unfold get_module. rewrite (bind_Ret _ _ _ _ _ (cache_find_ok c l id W)).
  pose proof (cache_lookup c l id W) as Hl. unfold lru_touch.
  destruct (mc_map c !! id) as [e|] eqn:He; cbn in Hl; rewrite Hl; [|by exists c].
  destruct (cache_entry_eq c l id e W He) as [Hin Heq].
  destruct W as [Hsz Hlen Hnd Hid Hfr HF Hmap].
  assert (forall x, x ∈ mc_lru c -> x.1 <> ce_node e <-> x.2 <> id) as Hiff.
  { intros [n i] Hx. cbn. split.
    - intros Hne ->. apply Hne. by eapply (elem_nodup2 (mc_lru c)).
    - intros Hne ->. apply Hne. by eapply (elem_nodup (mc_lru c)). }
  pose proof (filter_node_models _ _ _ _ _ HF Hiff) as HF'.
  assert (Forall2 (node_models (mc_map c)) ((ce_node e, id) :: filter (fun x => x.1 <> ce_node e) (mc_lru c))
            ((id, ce_module e) :: filter (fun x => x.1 <> id) l)) as HF2.
  { constructor; [|done]. split; [done|]. cbn. by rewrite He, Heq. }
  rewrite (bind_Ret (gets mc_lru) _ c (mc_lru c) c eq_refl).
  assert (forall y, y ∈ (ce_node e, id) :: filter (fun x => x.1 <> ce_node e) (mc_lru c) <-> y ∈ mc_lru c) as Hperm.
  { intros [n i]. rewrite elem_of_cons, list_elem_of_filter. cbn. split.
    - intros [[= -> ->]|[_ ?]]; done.
    - intros Hy. destruct (decide (n = ce_node e)) as [->|Hn]; [left|by right].
      f_equal. by eapply (elem_nodup (mc_lru c)). }
  assert (cache_models (set_lru ((ce_node e, id) :: filter (fun x => x.1 <> ce_node e) (mc_lru c)) c)
            ((id, ce_module e) :: filter (fun x => x.1 <> id) l)) as W'.
  { constructor; cbn [mc_size mc_lru mc_next mc_map set_lru]; [done| | | | |done|].
    - assert (length (filter (fun x => x.1 <> ce_node e) (mc_lru c)) < length (mc_lru c))%nat; [|cbn; lia].
      apply (length_filter_lt _ _ (ce_node e, id)); [done|]. cbn. by intros ?.
    - rewrite fmap_cons. constructor; [apply filter_not_in|by apply map_pair_fst].
    - rewrite fmap_cons. constructor; [|eapply sublist_NoDup; [exact Hid|]; apply fmap_sublist, sublist_filter].
      intros ([a b] & Heq' & [Ha Hb]%list_elem_of_filter)%list_elem_of_fmap. cbn in Heq', Ha. subst b.
      apply Ha. by eapply (elem_nodup2 (mc_lru c)).
    - apply Forall_forall. intros y Hy. rewrite Forall_forall in Hfr. apply Hfr. by apply Hperm.
    - intros i x Hx. apply Hperm. by apply Hmap. }
  case_bool_decide as Hh.
  - exists c. split; [done|]. destruct (mc_lru c) as [|[n i] lru] eqn:Elru; [done|]. cbn in Hh. injection Hh as ->.
    inversion HF as [|? [i' m'] ? l' [Hx1 Hx2] HFt]; subst. cbn in Hx1, Hx2. subst i'.
    assert (i = id) as -> by (eapply (elem_nodup ((ce_node e, i) :: lru)); [exact Hnd|by left|done]).
    rewrite He in Hx2. injection Hx2 as Hx2. rewrite Heq in Hx2. injection Hx2 as <-.
    rewrite filter_cons_False by (cbn; by intros ?). rewrite filter_all.
    + constructor; rewrite ?Elru; try done. 
    + intros x Hx. destruct (list_elem_of_lookup_1 _ _ Hx) as [k Hk].
      destruct (Forall2_lookup_r _ _ _ _ _ HFt Hk) as ([a b] & Hk' & [-> _]). cbn.
      intros ->. apply NoDup_cons in Hid as [Hid _]. apply Hid.
      apply (list_elem_of_fmap_2' snd _ (a, id)); [|done]. by eapply list_elem_of_lookup_2.
  - unfold splice_front. rewrite (filter_node _ _ id Hnd Hin). eexists. split; [done|]. done.
Qed.

Lemma Forall2_weaken {A B} (R R' : A -> B -> Prop) l k :
  Forall2 R l k -> (forall x y, x ∈ l -> R x y -> R' x y) -> Forall2 R' l k.
Proof.
  induction 1 as [|x y l k Hxy _ IH]; intros Himp; constructor.
  - apply Himp; [by left|done].
  - apply IH. intros. apply Himp; [by right|done].
Qed.

Lemma evict_ok c l :
  cache_models c l -> mc_lru c <> [] ->
  exists c', evict c = Ret tt c' /\ cache_models c' (removelast l) /\ mc_size c' = mc_size c /\
    (length (mc_lru c') < mc_size c')%nat.
Proof.
  intros W Hne. unfold evict. rewrite (bind_Ret (gets mc_lru) _ c (mc_lru c) c eq_refl).
  destruct (exists_last Hne) as (lru & [n id0] & Elru). pose proof Elru as Elast.
  apply (f_equal last) in Elast. rewrite last_snoc in Elast. rewrite Elast.
  rewrite (bind_Ret _ _ _ _ _ (cache_find_ok c l id0 W)).
  destruct W as [Hsz Hlen Hnd Hid Hfr HF Hmap]. rewrite Elru in HF, Hnd, Hid, Hfr, Hlen.
  apply Forall2_app_inv_l in HF as (l1 & l2 & HF1 & HF2 & ->).
  inversion HF2 as [|? x ? ? [Hx1 Hx2] HF3]; subst. inversion HF3; subst. cbn in Hx1, Hx2.
  rewrite Hx2, removelast_last. rewrite fmap_app in Hnd. rewrite fmap_app in Hid.
  apply NoDup_app in Hnd as (Hnd & Hn1 & _). apply NoDup_app in Hid as (Hid & Hid1 & _).
  assert (forall a b, (a, b) ∈ lru -> b <> id0) as Hb.
  { intros a b Hab ->. apply (Hid1 id0); [by apply (list_elem_of_fmap_2' snd _ (a, id0))|by left]. }
  rewrite length_app in Hlen. cbn in Hlen.
  eexists. split; [done|]. cbn [mc_lru set_mmap]. rewrite Elru, removelast_last.
  split; [|split; [done|cbn; lia]].
  constructor; cbn [mc_size mc_lru mc_next mc_map set_lru set_mmap]; [done|lia|done|done| | |].
  - by apply Forall_app in Hfr as [? _].
  - eapply Forall2_weaken; [exact HF1|]. intros [a b] y Hin [Hy1 Hy2]. split; [done|].
    rewrite lookup_delete_ne; [done|]. apply not_eq_sym. by eapply Hb.
  - intros i e. rewrite lookup_delete_Some. intros [Hi He]. apply Hmap in He. rewrite Elru in He.
    apply elem_of_app in He as [He|He%list_elem_of_singleton]; [done|]. by injection He as _ ->.
Qed.

Lemma lru_find_not_in id (lru : list (nat * bytes)) l m :
  Forall2 (node_models m) lru l -> lru_find id l = None -> id ∉ lru.*2.
Proof.
  intros HF. rewrite (node_models_find m id lru l HF). case_bool_decide as Hin; [|done].
  intros Hn. exfalso. apply list_elem_of_fmap in Hin as ([a b] & -> & Hin). cbn in Hn.
  induction HF as [|e x lru l [_ Hx] _ IH]; [by apply elem_of_nil in Hin|].
  apply elem_of_cons in Hin as [<-|Hin]; [|auto]. cbn in Hx. by rewrite Hx in Hn.
Qed.

(** The insertion into a cache with room. *)
Lemma put_module_room c l id m :
  cache_models c l -> lru_find id l = None -> (length (mc_lru c) < mc_size c)%nat ->
  exists c', (modify (fun c => ModuleCache (S (mc_next c)) ((mc_next c, id) :: mc_lru c) (mc_map c) (mc_size c)) ;;;
    let* it := cache_find id in
    modify (fun c =>
      let n := pred (mc_next c) in
      let key_node := match it with Some e => ce_key_node e | None => n end in
      set_mmap (<[id := CacheEntry key_node m n]> (mc_map c)) c)) c = Ret tt c' /\
    cache_models c' ((id, m) :: l) /\ mc_size c' = mc_size c.
Proof.
  intros W Hnew Hroom. pose proof (cache_lookup c l id W) as Hl. rewrite Hnew in Hl.
  destruct W as [Hsz Hlen Hnd Hid Hfr HF Hmap]. pose proof (lru_find_not_in id _ _ _ HF Hnew) as Hni.
  assert (mc_map c !! id = None) as Hnone by (by destruct (mc_map c !! id)).
  set (c1 := ModuleCache (S (mc_next c)) ((mc_next c, id) :: mc_lru c) (mc_map c) (mc_size c)).
  assert (cache_find id c1 = Ret None c1) as Hf.
  { unfold cache_find. rewrite (bind_Ret (gets Datatypes.id) _ c1 c1 c1 eq_refl).
    assert (keys_live c1 = true) as ->; [|cbn; by rewrite Hnone]. apply bool_decide_eq_true. intros i e Hi.
    cbn in Hi |- *. right. apply Hmap in Hi. by apply (list_elem_of_fmap_2' fst _ (ce_key_node e, i)). }
  rewrite bind_modify. cbv beta. fold c1. rewrite (bind_Ret _ _ _ _ _ Hf).
  eexists. split; [done|]. split; [|done].
  constructor; cbn [mc_size mc_lru mc_next mc_map set_mmap c1 pred]; [done|cbn; lia| | | | |].
  - rewrite fmap_cons. constructor; [|done]. intros ([a b] & Heq & Hin)%list_elem_of_fmap. cbn in Heq. subst a.
    rewrite Forall_forall in Hfr. specialize (Hfr _ Hin). cbn in Hfr. lia.
  - rewrite fmap_cons. by constructor.
  - constructor; [cbn; lia|]. eapply Forall_impl; [exact Hfr|]. cbn. lia.
  - constructor; [split; [done|cbn; apply lookup_insert_eq]|].
    eapply Forall2_weaken; [exact HF|]. intros [a b] y Hin [Hy1 Hy2]. split; [done|].
    rewrite lookup_insert_ne; [done|]. cbn. intros <-. apply Hni.
    by apply (list_elem_of_fmap_2' snd _ (a, id)).
  - intros i e He. apply lookup_insert_Some in He as [[<- <-]|[Hi He]]; [by left|]. right. by apply Hmap.
Qed.

(** [put_module] of an identifier that is not in the cache: it becomes the
    most recently used; a full cache loses the least recently used one and
    nothing else, and never holds more than its size. *)
Theorem put_module_refines c l id m :
  cache_models c l -> lru_find id l = None ->
  exists c', put_module id m c = Ret tt c' /\ cache_models c' (lru_put (mc_size c) id m l) /\
    (length (lru_put (mc_size c) id m l) <= mc_size c)%nat.
Proof.
  intros W Hnew. unfold put_module. rewrite (bind_Ret (gets Datatypes.id) _ c c c eq_refl).
  unfold lru_put. rewrite <- (Forall2_length _ _ _ (cm_list _ _ W)).
  assert (forall c1 l1, cache_models c1 l1 -> (length l1 = length (mc_lru c1))%nat) as Hll.
  { intros c1 l1 W1. symmetry. apply (Forall2_length _ _ _ (cm_list _ _ W1)). }
  destruct (mc_size c <=? length (mc_lru c))%nat eqn:Efull.
  - apply Nat.leb_le in Efull. pose proof (cm_size _ _ W) as Hs.
    destruct (evict_ok c l W) as (c1 & He & W1 & Hs1 & Hr1); [intros E; rewrite E in Efull; cbn in Efull; lia|].
    rewrite (bind_Ret _ _ _ _ _ He).
    destruct (put_module_room c1 (removelast l) id m W1) as (c2 & Hp & W2 & Hs2); [|lia|].
    { clear -Hnew. induction l as [|[i x] l IH]; [done|]. cbn in Hnew |- *.
      destruct (bytes_eqb id i) eqn:E; [done|]. destruct l; [done|]. cbn [lru_find]. rewrite E. by apply IH. }
    exists c2. split; [exact Hp|]. split; [done|]. cbn. rewrite (Hll _ _ W1). lia.
  - apply Nat.leb_gt in Efull. rewrite (bind_Ret (ret tt) _ c tt c eq_refl).
    destruct (put_module_room c l id m W Hnew Efull) as (c2 & Hp & W2 & Hs2).
    exists c2. split; [exact Hp|]. split; [done|]. cbn. rewrite (Hll _ _ W). lia.
Qed.
End cache.
Arguments cache_entry : clear implicits.
Arguments module_cache : clear implicits.

(** ** A concrete cache *)

Definition demo_cache : module_cache nat :=
  ModuleCache 2 [(1%nat, [20]); (0%nat, [10])]
    (<[[20] := CacheEntry 1 200%nat 1]> (<[[10] := CacheEntry 0 100%nat 0]> ∅)) 2.

Lemma demo_cache_models : cache_models demo_cache [([20], 200%nat); ([10], 100%nat)].
Proof.
  constructor; cbn [mc_size mc_lru mc_next mc_map demo_cache]; [lia|cbn; lia| | | | |].
  - apply (proj1 (bool_decide_eq_true _)). by vm_compute.
  - apply (proj1 (bool_decide_eq_true _)). by vm_compute.
  - constructor; [cbn; lia|]. constructor; [cbn; lia|constructor].
  - constructor; [split; [done|by vm_compute]|]. constructor; [split; [done|by vm_compute]|constructor].
  - intros id e [[<- <-]|[_ [[<- <-]|[_ []%lookup_empty_Some]]%lookup_insert_Some]]%lookup_insert_Some.
    + by left.
    + right. by left.
Qed.

Lemma get_module_refines_witness :
  exists c', get_module [10] demo_cache = Ret (Some 100%nat) c' /\
    cache_models c' [([10], 100%nat); ([20], 200%nat)].
Proof. exact (get_module_refines demo_cache _ [10] demo_cache_models). Defined.

Lemma put_module_refines_witness :
  exists c', put_module [30] 300%nat demo_cache = Ret tt c' /\
    cache_models c' [([30], 300%nat); ([20], 200%nat)] /\ (2 <= 2)%nat.
Proof. exact (put_module_refines demo_cache _ [30] 300%nat demo_cache_models eq_refl). Defined.
