(* ===== verification/ProgramContext.v ===== *)
(** * Running a program in the virtual machine

    [vm/host_api.hpp], [vm/program_context.{hpp,cpp}] and
    [vm/virtual_machine.cpp]: the functions a WebAssembly program imports, the
    translation of its addresses, the metering around every host call, and the
    entry point. The interpreter (fizzy) is a library: what it makes of a
    module is a parameter. *)

From stdpp Require Import base list option numbers strings.
From S2P Require Import Prelude Memory Errors Protocol ModuleCache.

(** ** The linear memory of an instance

    A host function works on the state of the host and the memory of the
    instance; native pointers into the memory are offsets. Leaving the memory
    through such a pointer has no defined result. *)

Section memory.
Context {S : Type}.

Definition host {A} (m : M S A) : M (S * bytes) A := zoom fst (fun s p => (s, p.2)) m.

Definition mem_load (n : nat) (off : Z) : M (S * bytes) bytes :=
  let* p := gets id in
  if (0 <=? off) && (off + Z.of_nat n <=? zlen p.2) then ret (take n (drop (Z.to_nat off) p.2))
  else fail out_of_bounds.

Definition mem_store (off : Z) (b : bytes) : M (S * bytes) unit :=
  let* p := gets id in
  if off <? 0 then fail out_of_bounds
  else match splice (Z.to_nat off) b p.2 with
       | Some m => modify (fun p => (p.1, m))
       | None => fail out_of_bounds
       end.

Definition load_u32 (off : Z) : M (S * bytes) Z := let* b := mem_load 4 off in ret (le_val b).
Definition store_u32 (off z : Z) : M (S * bytes) unit := mem_store off (le_bytes 4 z).
End memory.

(** [io_vector]: a part of the memory. *)
Record io_vector := IoVector { iov_buf : Z; iov_len : Z }.

(** ** [vm::host_api] *)

Record host_api (S : Type) := HostApi {
  ha_wasi_args_get : Z -> Z -> M (S * bytes) (error_code * Z);
  ha_wasi_args_sizes_get : Z -> Z -> M (S * bytes) error_code;
  ha_wasi_fd_seek : Z -> Z -> Z -> Z -> M (S * bytes) error_code;
  ha_wasi_fd_write : Z -> list io_vector -> Z -> M (S * bytes) error_code;
  ha_wasi_fd_read : Z -> list io_vector -> Z -> M (S * bytes) error_code;
  ha_wasi_fd_close : Z -> M (S * bytes) error_code;
  ha_wasi_fd_fdstat_get : Z -> Z -> M (S * bytes) error_code;
  ha_wasi_proc_exit : Z -> M (S * bytes) unit;
  ha_get_caller : Z -> Z -> M (S * bytes) error_code;
  ha_get_object : Z -> Z -> Z -> Z -> Z -> M (S * bytes) error_code;
  ha_put_object : Z -> Z -> Z -> Z -> Z -> M (S * bytes) error_code;
  ha_check_authority : Z -> Z -> Z -> M (S * bytes) error_code;
  ha_get_meter_ticks : M S Z;
  ha_use_meter_ticks : Z -> M S error_code;
  ha_halts : error_code -> bool
}.
Arguments ha_wasi_args_get {S} _ _ _.
Arguments ha_wasi_args_sizes_get {S} _ _ _.
Arguments ha_wasi_fd_seek {S} _ _ _ _ _.
Arguments ha_wasi_fd_write {S} _ _ _ _.
Arguments ha_wasi_fd_read {S} _ _ _ _.
Arguments ha_wasi_fd_close {S} _ _.
Arguments ha_wasi_fd_fdstat_get {S} _ _ _.
Arguments ha_wasi_proc_exit {S} _ _.
Arguments ha_get_caller {S} _ _ _.
Arguments ha_get_object {S} _ _ _ _ _ _.
Arguments ha_put_object {S} _ _ _ _ _ _.
Arguments ha_check_authority {S} _ _ _ _.
Arguments ha_get_meter_ticks {S} _.
Arguments ha_use_meter_ticks {S} _ _.
Arguments ha_halts {S} _ _.

(** ** The interpreter *)

(** The functions [instantiate_module] offers. *)
Inductive host_function :=
| fn_args_get | fn_args_sizes_get | fn_fd_seek | fn_fd_write | fn_fd_read | fn_fd_close
| fn_fd_fdstat_get | fn_proc_exit | fn_get_caller | fn_get_object | fn_put_object | fn_check_authority.

Inductive value_type := type_i32 | type_i64 | type_void.

(** [FizzyExternalFunction]: a function type and the function behind it. *)
Record external_function := External {
  ext_args : list value_type;
  ext_result : value_type;
  ext_fn : host_function
}.

Definition wasi_args_get_fn : external_function :=
  External [type_i32; type_i32] type_i32 fn_args_get.
Definition wasi_args_sizes_get_fn : external_function :=
  External [type_i32; type_i32] type_i32 fn_args_sizes_get.
Definition wasi_fd_seek_fn : external_function :=
  External [type_i32; type_i64; type_i32; type_i32] type_i32 fn_fd_seek.
Definition wasi_fd_write_fn : external_function :=
  External [type_i32; type_i32; type_i32; type_i32] type_i32 fn_fd_write.
Definition wasi_fd_read_fn : external_function :=
  External [type_i32; type_i32; type_i32; type_i32] type_i32 fn_fd_read.
Definition wasi_fd_close_fn : external_function :=
  External [type_i32] type_i32 fn_fd_close.
Definition wasi_fd_fdstat_get_fn : external_function :=
  External [type_i32; type_i32] type_i32 fn_fd_fdstat_get.
Definition wasi_proc_exit_fn : external_function :=
  External [type_i32] type_void fn_proc_exit.
Definition respublica_get_caller_fn : external_function :=
  External [type_i32; type_i32] type_i32 fn_get_caller.
Definition respublica_get_object_fn : external_function :=
  External [type_i32; type_i32; type_i32; type_i32; type_i32] type_i32 fn_get_object.
Definition respublica_put_object_fn : external_function :=
  External [type_i32; type_i32; type_i32; type_i32; type_i32] type_i32 fn_put_object.
Definition respublica_check_authority_fn : external_function :=
  External [type_i32; type_i32; type_i32] type_i32 fn_check_authority.

(** [FizzyImportedFunction]: an external function and the module and name it
    is imported under. *)
Record imported_function := Imported {
  imp_module : string;
  imp_name : string;
  imp_external : external_function
}.

Definition host_funcs : list imported_function :=
  let wasi := "wasi_snapshot_preview1"%string in
  [Imported wasi "args_get" wasi_args_get_fn;
   Imported wasi "args_sizes_get" wasi_args_sizes_get_fn;
   Imported wasi "fd_seek" wasi_fd_seek_fn;
   Imported wasi "fd_write" wasi_fd_write_fn;
   Imported wasi "fd_read" wasi_fd_read_fn;
   Imported wasi "fd_close" wasi_fd_close_fn;
   Imported wasi "fd_fdstat_get" wasi_fd_fdstat_get_fn;
   Imported wasi "proc_exit" wasi_proc_exit_fn;
   Imported "env" "respublica_get_caller" respublica_get_caller_fn;
   Imported "env" "respublica_get_object" respublica_get_object_fn;
   Imported "env" "respublica_put_object" respublica_put_object_fn;
   Imported "env" "respublica_check_authority" respublica_check_authority_fn].

Definition memory_pages_limit : Z := 512.

(** [FizzyExecutionResult] *)
Record execution_result := ExecResult {
  er_trapped : bool;
  er_has_value : bool;
  er_value : Z
}.

(** The execution of a function of an instance, as the host sees it: it ends,
    or it calls an imported function with the ticks and the memory it has at
    that point and goes on with the result, the ticks and the memory the host
    leaves, or it takes the process down. Execution is metered, so it is
    finite. *)
Inductive execution :=
| exec_end (trapped : bool) (ticks : Z) (memory : option bytes)
| exec_call (fn : host_function) (args : list Z) (ticks : Z) (memory : option bytes)
    (k : execution_result -> Z -> option bytes -> execution)
| exec_crash (f : fault).

(** [FizzyInstance]: its memory, if it has one, and its exported start
    function. *)
Record instance := Instance {
  in_memory : option bytes;
  in_start : option (Z -> execution)
}.

(** Instantiation gives an instance or the null pointer. The start function of
    a module runs in it: it is not metered, and the host functions it calls run
    before [program_context] has the instance or a context. *)
Inductive instantiation :=
| inst_null
| inst_made (i : instance)
| inst_call (fn : host_function) (args : list Z) (k : execution_result -> instantiation)
| inst_crash (f : fault).

(** A parser gives a module, the null pointer or a crash. *)
Class Fizzy := {
  fizzy_module : Type;
  fizzy_parse : bytes -> fault + option fizzy_module;
  fizzy_resolve_instantiate : fizzy_module -> list imported_function -> Z -> instantiation
}.

(** A crash of the interpreter. One whose model runs out of fuel has not come
    to an end. *)
Definition crash {S A} (f : fault) : M S A := fail (match f with out_of_fuel => endless | _ => f end).

(** ** program_context *)

Record program_context (S : Type) := ProgramContext {
  pc_host : S;
  pc_memory : option bytes;
  pc_ticks : Z;          (* _ticks *)
  pc_fizzy_ticks : option Z;    (* the ticks of the execution context, an int64; none while it is null *)
  pc_error_code : error_code
}.
Arguments ProgramContext {S} _ _ _ _ _.
Arguments pc_host {S} _.
Arguments pc_memory {S} _.
Arguments pc_ticks {S} _.
Arguments pc_fizzy_ticks {S} _.
Arguments pc_error_code {S} _.

Section program_context.
Context {S : Type} (hapi : host_api S).
Abbreviation pc := (program_context S).

Definition set_host (s : S) (c : pc) : pc :=
  ProgramContext s (pc_memory c) (pc_ticks c) (pc_fizzy_ticks c) (pc_error_code c).
Definition set_ticks (t f : Z) (c : pc) : pc :=
  ProgramContext (pc_host c) (pc_memory c) t (Some f) (pc_error_code c).
Definition set_error_code (e : error_code) (c : pc) : pc :=
  ProgramContext (pc_host c) (pc_memory c) (pc_ticks c) (pc_fizzy_ticks c) e.
Definition set_machine (f : Z) (m : option bytes) (c : pc) : pc :=
  ProgramContext (pc_host c) m (pc_ticks c) (Some f) (pc_error_code c).

Definition on_host {A} (m : M S A) : M pc A := zoom pc_host set_host m.

(** A host function on the host state and the memory. *)
Definition on_memory {A} (m : M (S * bytes) A) : M pc A :=
  zoom (fun c => (pc_host c, default [] (pc_memory c)))
    (fun p c => ProgramContext p.1 (fmap (fun _ => p.2) (pc_memory c)) (pc_ticks c) (pc_fizzy_ticks c)
                  (pc_error_code c)) m.

(** [native_pointer]: the address, or null when the region leaves the
    memory. *)
Definition native_pointer (p size : Z) (c : pc) : option Z :=
  match pc_memory c with
  | None => None
  | Some m => if zlen m <? p + size then None else Some p
  end.

(** [make_iovs]: the size of the array is passed as a 32-bit integer. *)
Fixpoint iovs_loop (base : Z) (n : nat) : M pc (result (list io_vector)) :=
  match n with
  | O => ret (inl [])
  | Datatypes.S n =>
      let* buf := on_memory (load_u32 base) in
      let* len := on_memory (load_u32 (base + 4)) in
      let* address := gets (native_pointer buf len) in
      match address with
      | None => ret (inr (vm_error virtual_machine_errc.invalid_pointer))
      | Some a =>
          try* rest := iovs_loop (base + 8) n in
          ret (inl (IoVector a len :: rest))
      end
  end.

Definition make_iovs (iovs iovs_len : Z) : M pc (result (list io_vector)) :=
  let* p := gets (native_pointer iovs (u32 (4 * 2 * iovs_len))) in
  match p with
  | None => ret (inr (vm_error virtual_machine_errc.invalid_pointer))
  | Some p => iovs_loop p (Z.to_nat iovs_len)
  end.

(** The ticks the program has used since they were last paid for. *)
Definition used_ticks : M pc Z :=
  let* c := gets id in
  let* ticks := unptr (pc_fizzy_ticks c) in
  ret (u64 (pc_ticks c - u64 ticks)).

(** [with_meter_ticks]: the ticks the program has used are paid before the
    host function runs, and what the meter then allows is handed back. A
    lambda may also write a local variable of its caller, which holds [d]
    when the lambda does not run. *)
Definition with_meter_ticks_and {A} (d : A) (lambda : M pc (error_code * A)) : M pc (error_code * A) :=
  let* used := used_ticks in
  let* error := on_host (ha_use_meter_ticks hapi used) in
  if is_error error then ret (error, d)
  else
    let* r := lambda in
    let* t := on_host (ha_get_meter_ticks hapi) in
    modify (set_ticks t (i64 t)) ;;;
    ret r.
Definition with_meter_ticks (lambda : M pc error_code) : M pc error_code :=
  let* r := with_meter_ticks_and tt (let* e := lambda in ret (e, tt)) in ret (fst r).

Definition trap : execution_result := ExecResult true false 0.

(** A null pointer ends the call with a trap. *)
Definition with_pointer (p size : Z) (k : Z -> M pc execution_result) : M pc execution_result :=
  let* a := gets (native_pointer p size) in
  match a with None => ret trap | Some a => k a end.

(** The end of the handlers: a code that halts is remembered and traps,
    another one is the value of the call. *)
Definition finish (code : error_code) (k : M pc unit) : M pc execution_result :=
  if ha_halts hapi code then modify (set_error_code code) ;;; ret trap
  else k ;;; ret (ExecResult false true (u32 (ec_value code))).

Definition arg (args : list Z) (i : nat) : Z := default 0 (args !! i).

Fixpoint add_offsets (argv offset : Z) (n : nat) : M pc unit :=
  match n with
  | O => ret tt
  | Datatypes.S i =>
      add_offsets argv offset i ;;;
      let* v := on_memory (load_u32 (argv + 4 * Z.of_nat i)) in
      on_memory (store_u32 (argv + 4 * Z.of_nat i) (u32 (v + offset)))
  end.

Definition pc_wasi_args_get (args : list Z) : M pc execution_result :=
  with_pointer (arg args 0) 4 (fun argv =>
  with_pointer (arg args 1) 1 (fun argv_buf =>
    let* r := with_meter_ticks_and 0 (on_memory (ha_wasi_args_get hapi argv argv_buf)) in
    let argc := snd r in
    finish (fst r) (add_offsets argv (arg args 1) (Z.to_nat argc)))).

Definition pc_wasi_args_sizes_get (args : list Z) : M pc execution_result :=
  with_pointer (arg args 0) 4 (fun argc =>
  with_pointer (arg args 1) 4 (fun argv_buf_size =>
    let* code := with_meter_ticks (on_memory (ha_wasi_args_sizes_get hapi argc argv_buf_size)) in
    finish code (ret tt))).

Definition pc_wasi_fd_seek (args : list Z) : M pc execution_result :=
  with_pointer (arg args 2) 1 (fun whence =>
  with_pointer (arg args 3) 1 (fun new_offset =>
    let* code := with_meter_ticks (on_memory (ha_wasi_fd_seek hapi (arg args 0) (arg args 1) whence new_offset)) in
    finish code (ret tt))).

(** [wasi_fd_write] and [wasi_fd_read] differ in the host function alone. *)
Definition pc_wasi_fd_io (io : Z -> list io_vector -> Z -> M (S * bytes) error_code) (args : list Z)
  : M pc execution_result :=
  let* iovs := make_iovs (arg args 1) (arg args 2) in
  match iovs with
  | inr _ => ret trap
  | inl iovs =>
      with_pointer (arg args 3) 4 (fun nwritten =>
        let* code := with_meter_ticks (on_memory (io (arg args 0) iovs nwritten)) in
        finish code (ret tt))
  end.
Definition pc_wasi_fd_write (args : list Z) : M pc execution_result :=
  pc_wasi_fd_io (ha_wasi_fd_write hapi) args.
Definition pc_wasi_fd_read (args : list Z) : M pc execution_result :=
  pc_wasi_fd_io (ha_wasi_fd_read hapi) args.

Definition pc_wasi_fd_close (args : list Z) : M pc execution_result :=
  let* code := with_meter_ticks (on_memory (ha_wasi_fd_close hapi (arg args 0))) in
  finish code (ret tt).

Definition pc_wasi_fd_fdstat_get (args : list Z) : M pc execution_result :=
  with_pointer (arg args 1) 4 (fun buf_ptr =>
    let* code := with_meter_ticks (on_memory (ha_wasi_fd_fdstat_get hapi (arg args 0) buf_ptr)) in
    finish code (ret tt)).

(** The two's complement reading of a 32-bit value. *)
Definition i32 (z : Z) : Z := let r := u32 z in if r <? 2 ^ 31 then r else r - 2 ^ 32.

Definition pc_wasi_proc_exit (args : list Z) : M pc execution_result :=
  let exit_code := i32 (arg args 0) in
  let* code := with_meter_ticks (on_memory (ha_wasi_proc_exit hapi exit_code) ;;;
                                 ret (vm_error virtual_machine_errc.ok)) in
  if ha_halts hapi code then modify (set_error_code code) ;;; ret trap
  else modify (set_error_code (exit_error exit_code)) ;;; ret (ExecResult false false 0).

Definition pc_get_caller (args : list Z) : M pc execution_result :=
  with_pointer (arg args 1) 4 (fun ret_len =>
    let* n := on_memory (load_u32 ret_len) in
    with_pointer (arg args 0) n (fun ret_ptr =>
      let* code := with_meter_ticks (on_memory (ha_get_caller hapi ret_ptr ret_len)) in
      finish code (ret tt))).

Definition pc_get_object (args : list Z) : M pc execution_result :=
  with_pointer (arg args 1) (arg args 2) (fun key_ptr =>
  with_pointer (arg args 4) 4 (fun value_len =>
    let* n := on_memory (load_u32 value_len) in
    with_pointer (arg args 3) n (fun value_ptr =>
      let* code := with_meter_ticks
        (on_memory (ha_get_object hapi (arg args 0) key_ptr (arg args 2) value_ptr value_len)) in
      finish code (ret tt)))).

Definition pc_put_object (args : list Z) : M pc execution_result :=
  with_pointer (arg args 1) (arg args 2) (fun key_ptr =>
  with_pointer (arg args 3) (arg args 4) (fun value_ptr =>
    let* code := with_meter_ticks
      (on_memory (ha_put_object hapi (arg args 0) key_ptr (arg args 2) value_ptr (arg args 4))) in
    finish code (ret tt))).

Definition pc_check_authority (args : list Z) : M pc execution_result :=
  with_pointer (arg args 0) (arg args 1) (fun account_ptr =>
  with_pointer (arg args 2) 1 (fun value =>
    let* code := with_meter_ticks (on_memory (ha_check_authority hapi account_ptr (arg args 1) value)) in
    finish code (ret tt))).

(** The functions of the import table; all of them are [noexcept]. *)
Definition host_call (fn : host_function) (args : list Z) : M pc execution_result :=
  noexcept
    match fn with
    | fn_args_get => pc_wasi_args_get args
    | fn_args_sizes_get => pc_wasi_args_sizes_get args
    | fn_fd_seek => pc_wasi_fd_seek args
    | fn_fd_write => pc_wasi_fd_write args
    | fn_fd_read => pc_wasi_fd_read args
    | fn_fd_close => pc_wasi_fd_close args
    | fn_fd_fdstat_get => pc_wasi_fd_fdstat_get args
    | fn_proc_exit => pc_wasi_proc_exit args
    | fn_get_caller => pc_get_caller args
    | fn_get_object => pc_get_object args
    | fn_put_object => pc_put_object args
    | fn_check_authority => pc_check_authority args
    end.

(** [fizzy_execute]: a trap of a host function ends the execution. *)
Fixpoint execute (x : execution) : M pc bool :=
  match x with
  | exec_end trapped ticks memory => modify (set_machine ticks memory) ;;; ret trapped
  | exec_call fn args ticks memory k =>
      modify (set_machine ticks memory) ;;;
      let* r := host_call fn args in
      if er_trapped r then ret true
      else
        let* c := gets id in
        let* ticks := unptr (pc_fizzy_ticks c) in
        execute (k r ticks (pc_memory c))
  | exec_crash f => crash f
  end.

Context `{Fizzy}.

(** [program_context::instantiate_module] *)
Fixpoint run_instantiation (x : instantiation) : M pc (option instance) :=
  match x with
  | inst_null => ret None
  | inst_made i => ret (Some i)
  | inst_call fn args k => let* r := host_call fn args in run_instantiation (k r)
  | inst_crash f => crash f
  end.
Definition instantiate_module (m : fizzy_module) : M pc (option instance) :=
  run_instantiation (fizzy_resolve_instantiate m host_funcs memory_pages_limit).

(** [program_context::start] *)
Definition start (m : fizzy_module) : M pc error_code :=
  noexcept
    (let* instance := instantiate_module m in
     match instance with
     | None => ret (vm_error virtual_machine_errc.instantiate_failure)
     | Some i =>
         let* t := on_host (ha_get_meter_ticks hapi) in
         modify (fun c => set_machine (i64 t) (in_memory i) (set_ticks t (i64 t) c)) ;;;
         match in_start i with
         | None => ret (vm_error virtual_machine_errc.entry_point_not_found)
         | Some run =>
             let* trapped := execute (run (i64 t)) in
             let* used := used_ticks in
             checkc* on_host (ha_use_meter_ticks hapi used) in
             (let* c := gets id in
              if trapped && negb (is_error (pc_error_code c)) then ret (vm_error virtual_machine_errc.trapped)
              else ret (pc_error_code c))
         end
     end).

(** [parse_bytecode], [make_module] over the cache the machine keeps. *)
Context (get_cache : S -> module_cache fizzy_module) (set_cache : module_cache fizzy_module -> S -> S).

Definition parse_bytecode (bytecode : bytes) : M S (result fizzy_module) :=
  if zlen bytecode =? 0 then ret (inr (vm_error virtual_machine_errc.invalid_module))
  else match fizzy_parse bytecode with
       | inl f => crash f
       | inr None => ret (inr (vm_error virtual_machine_errc.invalid_module))
       | inr (Some m) => ret (inl m)
       end.

Definition make_module (bytecode id : bytes) : M S (result fizzy_module) :=
  noexcept
    (assert_that (negb (zlen id =? 0)) ;;;
     let* cached := zoom get_cache set_cache (get_module id) in
     match cached with
     | Some m => ret (inl m)
     | None =>
         try* m := parse_bytecode bytecode in
         zoom get_cache set_cache (put_module id m) ;;; ret (inl m)
     end).

(** [virtual_machine::run]: the program context lives for the call. *)
Definition vm_run (bytecode id : bytes) : M S error_code :=
  let* r := make_module bytecode id in
  match r with
  | inr e => ret e
  | inl m =>
      fun s => match start m (ProgramContext s None 0 None (vm_error virtual_machine_errc.ok)) with
               | Ret e c => Ret e (pc_host c)
               | Throw e c => Throw e (pc_host c)
               | Fault f => Fault f
               end
  end.
End program_context.

(** ** Composing with the effects of the host *)

Section host_guarded.
Context {S : Type} (P : S -> Prop) (R : S -> S -> Prop) `{!PreOrder R} `{!Stable P R}.

(** The same conditions on a host state paired with a memory. *)
Definition mem_P (p : S * bytes) : Prop := P p.1.
Definition mem_R (p p' : S * bytes) : Prop := R p.1 p'.1.

#[export] Instance mem_R_preorder : PreOrder mem_R.
Proof using PreOrder0.
  split; [intros p; unfold mem_R; reflexivity|]. intros a b c H1 H2. unfold mem_R in *. by etrans.
Qed.
#[export] Instance mem_stable : Stable mem_P mem_R.
Proof using Stable0. intros p p' Hp HR. exact (Stable0 _ _ Hp HR). Qed.

Lemma host_guarded {A} (m : M S A) : guarded P R m -> guarded mem_P mem_R (host m).
Proof using Type. by apply guarded_zoom. Qed.

Lemma mem_load_guarded n off : guarded mem_P mem_R (mem_load n off).
Proof using PreOrder0 Stable0. unfold mem_load. guarded_auto. Qed.
Lemma mem_store_guarded off b : guarded mem_P mem_R (mem_store off b).
Proof using PreOrder0 Stable0.
  unfold mem_store. guarded_auto. apply guarded_modify. intros s Hs. unfold mem_R. simpl. reflexivity.
Qed.
End host_guarded.
#[export] Hint Resolve host_guarded mem_load_guarded mem_store_guarded : guarded.

Section program_guarded.
Context {S : Type} (P : S -> Prop) (R : S -> S -> Prop) `{!PreOrder R} `{!Stable P R} (hapi : host_api S).
Abbreviation mp := (mem_P P).
Abbreviation mr := (mem_R R).
Context (Hargs : forall x y, guarded mp mr (ha_wasi_args_get hapi x y))
  (Hsizes : forall x y, guarded mp mr (ha_wasi_args_sizes_get hapi x y))
  (Hseek : forall a b c d, guarded mp mr (ha_wasi_fd_seek hapi a b c d))
  (Hwrite : forall a b c, guarded mp mr (ha_wasi_fd_write hapi a b c))
  (Hread : forall a b c, guarded mp mr (ha_wasi_fd_read hapi a b c))
  (Hclose : forall a, guarded mp mr (ha_wasi_fd_close hapi a))
  (Hstat : forall a b, guarded mp mr (ha_wasi_fd_fdstat_get hapi a b))
  (Hexit : forall a, guarded mp mr (ha_wasi_proc_exit hapi a))
  (Hcaller : forall a b, guarded mp mr (ha_get_caller hapi a b))
  (Hget : forall a b c d e, guarded mp mr (ha_get_object hapi a b c d e))
  (Hput : forall a b c d e, guarded mp mr (ha_put_object hapi a b c d e))
  (Hauth : forall a b c, guarded mp mr (ha_check_authority hapi a b c))
  (Hticks : guarded P R (ha_get_meter_ticks hapi))
  (Huse : forall t, guarded P R (ha_use_meter_ticks hapi t)).

Definition pc_P (c : program_context S) : Prop := P (pc_host c).
Definition pc_R (c c' : program_context S) : Prop := R (pc_host c) (pc_host c').

#[export] Instance pc_R_preorder : PreOrder pc_R.
Proof using PreOrder0.
  split; [intros p; unfold pc_R; reflexivity|]. intros a b c H1 H2. unfold pc_R in *. by etrans.
Qed.
#[export] Instance pc_stable : Stable pc_P pc_R.
Proof using Stable0. intros p p' Hp HR. exact (Stable0 _ _ Hp HR). Qed.

Lemma on_host_guarded {A} (m : M S A) : guarded P R m -> guarded pc_P pc_R (on_host m).
Proof using Type. by apply guarded_zoom. Qed.
Lemma on_memory_guarded {A} (m : M (S * bytes) A) : guarded mp mr m -> guarded pc_P pc_R (on_memory m).
Proof using Type. by apply guarded_zoom. Qed.
Lemma pc_modify_guarded f : (forall c, pc_host (f c) = pc_host c) -> guarded pc_P pc_R (modify f).
Proof using PreOrder0. intros Hf. apply guarded_modify. intros c _. unfold pc_R. rewrite Hf. reflexivity. Qed.
#[local] Hint Resolve on_host_guarded on_memory_guarded : guarded.

Lemma load_u32_guarded off : guarded pc_P pc_R (on_memory (load_u32 off)).
Proof using PreOrder0 Stable0. apply on_memory_guarded. unfold load_u32. guarded_auto. Qed.
Lemma store_u32_guarded off z : guarded pc_P pc_R (on_memory (store_u32 off z)).
Proof using PreOrder0 Stable0. apply on_memory_guarded. unfold store_u32. guarded_auto. Qed.
#[local] Hint Resolve load_u32_guarded store_u32_guarded : guarded.

Lemma iovs_loop_guarded base n : guarded pc_P pc_R (iovs_loop base n).
Proof using PreOrder0 Stable0. revert base; induction n; intros base; simpl; guarded_auto. Qed.
Lemma make_iovs_guarded a n : guarded pc_P pc_R (make_iovs a n).
Proof using PreOrder0 Stable0. unfold make_iovs. pose proof iovs_loop_guarded. guarded_auto. Qed.
#[local] Hint Resolve make_iovs_guarded : guarded.

Lemma used_ticks_guarded : guarded pc_P pc_R used_ticks.
Proof using PreOrder0 Stable0. unfold used_ticks. guarded_auto. Qed.
#[local] Hint Resolve used_ticks_guarded : guarded.

Lemma with_meter_ticks_and_guarded {A} (d : A) m :
  guarded pc_P pc_R m -> guarded pc_P pc_R (with_meter_ticks_and hapi d m).
Proof using PreOrder0 Stable0 Hticks Huse.
  intros Hm. unfold with_meter_ticks_and. guarded_auto. by apply pc_modify_guarded.
Qed.
Lemma with_meter_ticks_guarded m : guarded pc_P pc_R m -> guarded pc_P pc_R (with_meter_ticks hapi m).
Proof using PreOrder0 Stable0 Hticks Huse.
  intros Hm. unfold with_meter_ticks. guarded_auto. apply with_meter_ticks_and_guarded. guarded_auto.
Qed.

Lemma with_pointer_guarded p n k :
  (forall a, guarded pc_P pc_R (k a)) -> guarded pc_P pc_R (with_pointer p n k).
Proof using PreOrder0 Stable0. intros Hk. unfold with_pointer. guarded_auto. Qed.
Lemma finish_guarded code m : guarded pc_P pc_R m -> guarded pc_P pc_R (finish hapi code m).
Proof using PreOrder0 Stable0. intros Hm. unfold finish. guarded_auto. by apply pc_modify_guarded. Qed.

Lemma add_offsets_guarded argv o n : guarded pc_P pc_R (add_offsets argv o n).
Proof using PreOrder0 Stable0. induction n; simpl; guarded_auto. Qed.

Ltac handler :=
  repeat (first [apply with_pointer_guarded; intros | apply finish_guarded
                | apply with_meter_ticks_guarded | apply with_meter_ticks_and_guarded
                | solve [apply add_offsets_guarded] | progress guarded_auto
                | apply pc_modify_guarded; done]).

(** A host call has no effect but those of the host function it reaches. *)
Lemma host_call_guarded fn args : guarded pc_P pc_R (host_call hapi fn args).
Proof using All.
  unfold host_call. apply guarded_noexcept.
  destruct fn; unfold pc_wasi_args_get, pc_wasi_args_sizes_get, pc_wasi_fd_seek, pc_wasi_fd_write,
    pc_wasi_fd_read, pc_wasi_fd_io, pc_wasi_fd_close, pc_wasi_fd_fdstat_get, pc_wasi_proc_exit,
    pc_get_caller, pc_get_object, pc_put_object, pc_check_authority; handler.
Qed.

Lemma crash_guarded {A} f : guarded pc_P pc_R (crash (A := A) f).
Proof using Type. apply guarded_fail. by destruct f. Qed.

Lemma execute_guarded x : guarded pc_P pc_R (execute hapi x).
Proof using All.
  pose proof host_call_guarded. induction x as [tr t m|fn args t m k IH|f]; cbn [execute]; [| |apply crash_guarded].
  all: apply guarded_bind; [apply _|apply _| |intros _]; [by apply pc_modify_guarded|]; guarded_auto.
Qed.

Lemma run_instantiation_guarded x : guarded pc_P pc_R (run_instantiation hapi x).
Proof using All.
  pose proof host_call_guarded. induction x as [|i|fn args k IH|f]; cbn [run_instantiation]; [| | |apply crash_guarded]; guarded_auto.
Qed.

Context `{Fz : Fizzy}.

Lemma start_guarded m : guarded pc_P pc_R (start hapi m).
Proof using All.
  unfold start, instantiate_module. apply guarded_noexcept. pose proof execute_guarded. pose proof run_instantiation_guarded.
  repeat (progress guarded_auto || (apply pc_modify_guarded; done)).
Qed.

Context (get_cache : S -> module_cache fizzy_module)
  (set_cache : module_cache fizzy_module -> S -> S)
  (Hcache : forall s c, P s -> R s (set_cache c s)).

(** The cache calls never fail for lack of fuel. *)
Lemma cache_guarded {A} (m : M (module_cache fizzy_module) A) :
  guarded (fun _ => True) (fun _ _ => True) m -> guarded P R (zoom get_cache set_cache m).
Proof using Hcache. intros Hm. exact (guarded_zoom P R _ _ get_cache set_cache m (fun _ _ => I) (fun s c Hs _ => Hcache s c Hs) Hm). Qed.

#[local] Instance all_preorder {T} : PreOrder (fun _ _ : T => True).
Proof. split; by repeat intro. Qed.
#[local] Instance all_stable {T} : Stable (fun _ : T => True) (fun _ _ => True).
Proof. by repeat intro. Qed.

Lemma all_modify {T} (f : T -> T) : guarded (fun _ => True) (fun _ _ => True) (modify f).
Proof. by apply guarded_modify. Qed.
#[local] Hint Resolve all_modify : guarded.

Lemma cache_find_all (id : bytes) :
  guarded (fun _ => True) (fun _ _ => True) (cache_find (module := fizzy_module) id).
Proof. unfold cache_find. guarded_auto. Qed.
#[local] Hint Resolve cache_find_all : guarded.

Lemma make_module_guarded bytecode id : guarded P R (make_module get_cache set_cache bytecode id).
Proof using PreOrder0 Stable0 Hcache.
  assert (forall b, guarded P R (parse_bytecode b)) as Hparse.
  { intros b. unfold parse_bytecode, crash. guarded_auto. apply guarded_fail. by case_match. }
  unfold make_module. guarded_auto.
  - apply cache_guarded. unfold get_module. guarded_auto.
  - apply cache_guarded. unfold put_module, evict. guarded_auto.
Qed.

(** A run of the virtual machine has no effect but those of the host. *)
Lemma vm_run_guarded bytecode id : guarded P R (vm_run hapi get_cache set_cache bytecode id).
Proof using All.
  unfold vm_run. apply guarded_bind; [apply _|apply _|apply make_module_guarded|]. intros [m|e]; [|guarded_auto].
  intros s Hs. pose proof (start_guarded m (ProgramContext s None 0 None (vm_error virtual_machine_errc.ok)) Hs) as H.
  destruct (start hapi m _); done.
Qed.
End program_guarded.
