(* ===== verification/HostApi.v ===== *)
(** * The host functions of user programs

    [controller/host_api.{hpp,cpp}]: the functions the virtual machine offers a
    user program, in terms of the system interface the execution context
    implements and of its tick meter. *)

From stdpp Require Import base list option numbers strings.
From S2P Require Import Prelude Memory Errors Protocol SystemInterface ModuleCache ProgramContext.

(** The bits of [vm::wasi_fd_rights] in use. *)
Definition rights_fd_read : Z := Z.shiftl 1 1.
Definition rights_fd_write : Z := Z.shiftl 1 6.

Section host_api.
Context {S : Type} (sys : system_interface S) (get_ticks : M S Z) (use_ticks : Z -> M S error_code).

Definition success : error_code := wasi_error wasi_errc.success.
Definition badf : error_code := wasi_error wasi_errc.badf.

(** The loop of [wasi_args_get]; [index] stays zero. *)
Fixpoint args_loop (argv argv_buf index counter : Z) (args : list bytes) : M (S * bytes) unit :=
  match args with
  | [] => ret tt
  | a :: args =>
      store_u32 (argv + 4 * index) counter ;;;
      mem_store (argv_buf + counter) a ;;;
      args_loop argv argv_buf index (u32 (counter + zlen a)) args
  end.

Definition h_wasi_args_get (argv argv_buf : Z) : M (S * bytes) (error_code * Z) :=
  let* args := host (si_arguments sys) in
  let index := 0 in
  args_loop argv argv_buf index 0 args ;;;
  ret (success, index).

Fixpoint add_sizes (p : Z) (args : list bytes) : M (S * bytes) unit :=
  match args with
  | [] => ret tt
  | a :: args =>
      let* n := load_u32 p in
      store_u32 p (u32 (n + zlen a)) ;;; add_sizes p args
  end.

Definition h_wasi_args_sizes_get (argc argv_buf_size : Z) : M (S * bytes) error_code :=
  let* args := host (si_arguments sys) in
  store_u32 argc (u32 (zlen args)) ;;;
  store_u32 argv_buf_size 0 ;;;
  add_sizes argv_buf_size args ;;;
  ret success.

Definition h_wasi_fd_seek (fd offset whence newoffset : Z) : M (S * bytes) error_code := ret success.

Fixpoint h_wasi_fd_write (fd : Z) (iovs : list io_vector) (nwritten : Z) : M (S * bytes) error_code :=
  match iovs with
  | [] => ret success
  | iov :: iovs =>
      let* b := mem_load (Z.to_nat (iov_len iov)) (iov_buf iov) in
      let* e := host (si_write sys fd b) in
      if is_error e then ret badf
      else
        let* n := load_u32 nwritten in
        store_u32 nwritten (u32 (n + iov_len iov)) ;;;
        h_wasi_fd_write fd iovs nwritten
  end.

Fixpoint read_loop (fd : Z) (iovs : list io_vector) (nwritten : Z) : M (S * bytes) error_code :=
  match iovs with
  | [] => ret success
  | iov :: iovs =>
      let* b := mem_load (Z.to_nat (iov_len iov)) (iov_buf iov) in
      let* r := host (si_read sys fd b) in
      mem_store (iov_buf iov) (snd r) ;;;
      if is_error (fst r) then ret badf
      else
        let* n := load_u32 nwritten in
        store_u32 nwritten (u32 (n + iov_len iov)) ;;;
        read_loop fd iovs nwritten
  end.

Definition h_wasi_fd_read (fd : Z) (iovs : list io_vector) (nwritten : Z) : M (S * bytes) error_code :=
  store_u32 nwritten 0 ;;; read_loop fd iovs nwritten.

Definition h_wasi_fd_close (fd : Z) : M (S * bytes) error_code := ret success.

Definition h_wasi_fd_fdstat_get (fd flags : Z) : M (S * bytes) error_code :=
  if fd =? fd_stdin then
    let* f := load_u32 flags in store_u32 flags (Z.lor f rights_fd_read) ;;; ret success
  else if (fd =? fd_stdout) || (fd =? fd_stderr) then
    let* f := load_u32 flags in store_u32 flags (Z.lor f rights_fd_write) ;;; ret success
  else ret badf.

Definition h_wasi_proc_exit (exit_code : Z) : M (S * bytes) unit := ret tt.

(** Copying a value out: it must fit in the space the program announced. *)
Definition copy_out (value : bytes) (ret_ptr ret_len : Z) : M (S * bytes) error_code :=
  let* n := load_u32 ret_len in
  if n <? zlen value then ret (controller_error controller_errc.insufficient_space)
  else
    mem_store ret_ptr value ;;;
    store_u32 ret_len (u32 (zlen value)) ;;;
    ret (controller_error controller_errc.ok).

Definition h_get_caller (ret_ptr ret_len : Z) : M (S * bytes) error_code :=
  let* caller := host (si_get_caller sys) in copy_out caller ret_ptr ret_len.

Definition h_get_object (id key_ptr key_len ret_ptr ret_len : Z) : M (S * bytes) error_code :=
  let* key := mem_load (Z.to_nat key_len) key_ptr in
  let* object := host (si_get_object sys id key) in copy_out object ret_ptr ret_len.

Definition h_put_object (id key_ptr key_len value_ptr value_len : Z) : M (S * bytes) error_code :=
  let* key := mem_load (Z.to_nat key_len) key_ptr in
  let* value := mem_load (Z.to_nat value_len) value_ptr in
  host (si_put_object sys id key value).

Definition h_check_authority (account_ptr account_len value : Z) : M (S * bytes) error_code :=
  if negb (account_len =? Z.of_nat account_length) then ret (controller_error controller_errc.invalid_account)
  else
    let* a := mem_load (Z.to_nat account_len) account_ptr in
    let* authorized := host (si_check_authority sys a) in
    match authorized with
    | inl b => mem_store value [if b then 1 else 0] ;;; ret (controller_error controller_errc.ok)
    | inr e => ret e
    end.

(** [host_api::halts] *)
Definition h_halts (e : error_code) : bool :=
  bool_decide (ec_category e = controller_category) &&
  match controller_errc.of_condition (ec_value e) with
  | Some controller_errc.insufficient_resources
  | Some controller_errc.network_bandwidth_limit_exceeded
  | Some controller_errc.compute_bandwidth_limit_exceeded
  | Some controller_errc.disk_storage_limit_exceeded => true
  | _ => false
  end.

Definition controller_host_api : host_api S := {|
  ha_wasi_args_get := h_wasi_args_get;
  ha_wasi_args_sizes_get := h_wasi_args_sizes_get;
  ha_wasi_fd_seek := h_wasi_fd_seek;
  ha_wasi_fd_write := h_wasi_fd_write;
  ha_wasi_fd_read := h_wasi_fd_read;
  ha_wasi_fd_close := h_wasi_fd_close;
  ha_wasi_fd_fdstat_get := h_wasi_fd_fdstat_get;
  ha_wasi_proc_exit := h_wasi_proc_exit;
  ha_get_caller := h_get_caller;
  ha_get_object := h_get_object;
  ha_put_object := h_put_object;
  ha_check_authority := h_check_authority;
  ha_get_meter_ticks := get_ticks;
  ha_use_meter_ticks := use_ticks;
  ha_halts := h_halts
|}.
End host_api.

(** ** Composing with the effects of the system *)

Section host_api_guarded.
Context {S : Type} (sys : system_interface S) (get_ticks : M S Z) (use_ticks : Z -> M S error_code).
Context (P : S -> Prop) (R : S -> S -> Prop) `{!PreOrder R} `{!Stable P R}.
Context (Hargs : guarded P R (si_arguments sys))
  (Hread : forall fd b, guarded P R (si_read sys fd b))
  (Hwrite : forall fd b, guarded P R (si_write sys fd b))
  (Hget : forall i k, guarded P R (si_get_object sys i k))
  (Hput : forall i k v, guarded P R (si_put_object sys i k v))
  (Hauth : forall a, guarded P R (si_check_authority sys a))
  (Hcaller : guarded P R (si_get_caller sys))
  (Hticks : guarded P R get_ticks) (Huse : forall t, guarded P R (use_ticks t)).
Abbreviation mp := (mem_P P).
Abbreviation mr := (mem_R R).

Lemma h_load_guarded off : guarded mp mr (load_u32 off).
Proof using PreOrder0 Stable0. unfold load_u32. guarded_auto. Qed.
Lemma h_store_guarded off z : guarded mp mr (store_u32 off z).
Proof using PreOrder0 Stable0. unfold store_u32. guarded_auto. Qed.
#[local] Hint Resolve h_load_guarded h_store_guarded : guarded.

Lemma args_loop_guarded argv buf i c args : guarded mp mr (args_loop argv buf i c args).
Proof using PreOrder0 Stable0. revert c; induction args; intros; simpl; guarded_auto. Qed.
Lemma add_sizes_guarded p args : guarded mp mr (add_sizes p args).
Proof using PreOrder0 Stable0. induction args; simpl; guarded_auto. Qed.
Lemma fd_write_guarded fd iovs n : guarded mp mr (h_wasi_fd_write sys fd iovs n).
Proof using All. induction iovs; simpl; guarded_auto. Qed.
Lemma read_loop_guarded fd iovs n : guarded mp mr (read_loop sys fd iovs n).
Proof using All. induction iovs; simpl; guarded_auto. Qed.
Lemma copy_out_guarded v p n : guarded mp mr (copy_out v p n).
Proof using PreOrder0 Stable0. unfold copy_out. guarded_auto. Qed.
#[local] Hint Resolve args_loop_guarded add_sizes_guarded fd_write_guarded read_loop_guarded copy_out_guarded : guarded.

Context `{Fz : Fizzy}.

Ltac handlers :=
  try apply _; try done; simpl; intros;
  unfold h_wasi_args_get, h_wasi_args_sizes_get, h_wasi_fd_seek, h_wasi_fd_read, h_wasi_fd_close,
    h_wasi_fd_fdstat_get, h_wasi_proc_exit, h_get_caller, h_get_object, h_put_object, h_check_authority;
  guarded_auto.

(** A module has no effect but those of the system interface. *)
Lemma host_start_guarded m : guarded (pc_P P) (pc_R R) (start (controller_host_api sys get_ticks use_ticks) m).
Proof using All. apply start_guarded; handlers. Qed.

Context (get_cache : S -> module_cache fizzy_module) (set_cache : module_cache fizzy_module -> S -> S)
  (Hcache : forall s c, P s -> R s (set_cache c s)).

(** A user program has no effect but those of the system interface. *)
Lemma host_vm_run_guarded bytecode id :
  guarded P R (vm_run (controller_host_api sys get_ticks use_ticks) get_cache set_cache bytecode id).
Proof using All. apply vm_run_guarded; handlers. Qed.
End host_api_guarded.
