(* ===== verification/GuestMemory.v ===== *)
(** * The memory of a guest

    The host functions reach into the memory of the program that calls them
    through pointers [program_context] has translated. Every handler but
    [args_get] stays inside that memory, whatever the program passes it, as
    long as the array of buffers of [fd_read] and [fd_write] has fewer than
    2^29 entries. *)

From stdpp Require Import base list option numbers strings.
From S2P Require Import Prelude Memory Errors Protocol SystemInterface ModuleCache ProgramContext.
From S2P Require Import HostApi.

(** The faults a run is to be free of: leaving a buffer, and not coming to an
    end. *)
Definition lost (f : fault) : bool := match f with out_of_bounds | endless | out_of_fuel => true | _ => false end.

Section stays.
Context (bad : fault) {S : Type} (P : S -> Prop).

(** A computation that keeps [P] and does not end in the fault [bad]. *)
Definition stays {A} (m : M S A) : Prop := forall s, P s -> wp_but bad P m (fun _ s' => P s') s.
End stays.

Lemma noexcept_safely bad {S A} (m : M S A) (E : S -> Prop) Q s : lost bad = true -> wp_but bad E m Q s -> wp_but bad (fun _ => True) (noexcept m) Q s.
Proof. intros Hb. unfold wp_but, noexcept. destruct (m s); [done| |done]. by intros _ <-. Qed.

Section memory.
Context (bad : fault) {S : Type} (P : S -> Prop).
Implicit Types p : S * bytes.
Abbreviation safely := (wp_but bad (fun _ => True)).

Lemma mem_load_safely n off p (Q : bytes -> S * bytes -> Prop) :
  0 <= off -> off + Z.of_nat n <= zlen p.2 -> Q (take n (drop (Z.to_nat off) p.2)) p ->
  safely (mem_load n off) Q p.
Proof.
  intros H1 H2 HQ. unfold mem_load, wp_but, bind, gets, id.
  destruct (0 <=? off) eqn:E1, (off + Z.of_nat n <=? zlen p.2) eqn:E2; bool_to_prop; try lia. done.
Qed.

Lemma mem_store_safely off b p (Q : unit -> S * bytes -> Prop) :
  0 <= off -> off + zlen b <= zlen p.2 -> (forall m, zlen m = zlen p.2 -> Q tt (p.1, m)) ->
  safely (mem_store off b) Q p.
Proof.
  intros H1 H2 HQ. unfold mem_store, wp_but, bind, gets, id.
  destruct (off <? 0) eqn:E; bool_to_prop; [lia|]. unfold splice. unfold zlen in *.
  destruct (_ <=? _)%nat eqn:E2; [|apply Nat.leb_gt in E2; lia]. apply Nat.leb_le in E2. apply HQ.
  rewrite !length_app, length_take, length_drop. lia.
Qed.

Lemma load_u32_safely off p (Q : Z -> S * bytes -> Prop) :
  0 <= off -> off + 4 <= zlen p.2 -> Q (le_val (take 4 (drop (Z.to_nat off) p.2))) p -> safely (load_u32 off) Q p.
Proof. intros H1 H2 HQ. apply wp_bind. by apply mem_load_safely. Qed.

Lemma store_u32_safely off z p (Q : unit -> S * bytes -> Prop) :
  0 <= off -> off + 4 <= zlen p.2 -> (forall m, zlen m = zlen p.2 -> Q tt (p.1, m)) ->
  safely (store_u32 off z) Q p.
Proof. intros H1 H2 HQ. apply mem_store_safely; [done| |done]. unfold zlen at 1. rewrite length_le_bytes. lia. Qed.

Lemma host_safely {A} (m : M S A) p (Q : A -> S * bytes -> Prop) :
  stays bad P m -> P p.1 -> (forall a s', m p.1 = Ret a s' -> P s' -> Q a (s', p.2)) -> safely (host m) Q p.
Proof.
  intros Hm Hp HQ. unfold host, zoom, wp_but. specialize (Hm p.1 Hp). unfold wp_but in Hm.
  destruct (m p.1); [by apply HQ|done|done].
Qed.
End memory.

(** ** The host functions *)

(** A system whose functions respect the buffers they are given and end, from
    states with [P], which they keep. *)
Class BoundedSystem (bad : fault) {S} (P : S -> Prop) (sys : system_interface S) := {
  bs_arguments : stays bad P (si_arguments sys);
  bs_read fd b : stays bad P (si_read sys fd b);
  bs_write fd b : stays bad P (si_write sys fd b);
  bs_get_object i k : stays bad P (si_get_object sys i k);
  bs_put_object i k v : stays bad P (si_put_object sys i k v);
  bs_check_authority a : length a = account_length -> stays bad P (si_check_authority sys a);
  bs_get_caller : stays bad P (si_get_caller sys);
  bs_read_length fd b s e b' s' : si_read sys fd b s = Ret (e, b') s' -> length b' = length b
}.
#[local] Hint Resolve bs_arguments bs_read bs_write bs_get_object bs_put_object bs_check_authority bs_get_caller : core.

Section host.
Context (bad : fault) (Hbad : lost bad = true) {S : Type} (P : S -> Prop) (sys : system_interface S) `{Bs : !BoundedSystem bad P sys}.
Implicit Types p : S * bytes.
Abbreviation safely := (wp_but bad (fun _ => True)).
(** Safe in states with [P], which is kept. *)
Abbreviation safe m := (safely m (fun _ p' => P p'.1)).

(** A region of the memory. *)
Definition region (m : bytes) (off len : Z) : Prop := 0 <= off /\ 0 <= len /\ off + len <= zlen m.

Lemma add_sizes_safe p q args : P p.1 -> region p.2 q 4 -> safe (add_sizes q args) p.
Proof using Type.
  revert p. induction args as [|a args IH]; intros p HP Hr; [done|]. pose proof Hr as (H1 & _ & H2).
  apply wp_bind, load_u32_safely; [lia..|]. apply wp_bind, store_u32_safely; [lia..|].
  intros m Hm. apply IH; [done|]. unfold region in *. cbn. lia.
Qed.

Lemma args_sizes_safe p a b : P p.1 -> region p.2 a 4 -> region p.2 b 4 -> safe (h_wasi_args_sizes_get sys a b) p.
Proof using Bs.
  intros HP (A1 & _ & A2) (B1 & _ & B2). apply wp_bind, (host_safely bad P); [auto|done|]. intros args s' _ HP'.
  apply wp_bind, store_u32_safely; [done..|]. intros m Hm. cbn in Hm.
  apply wp_bind, store_u32_safely; [done|cbn; lia|]. intros m' Hm'. cbn in Hm'.
  apply wp_bind. eapply wp_post; [|apply add_sizes_safe; [done|unfold region; cbn; lia]]. done.
Qed.

Definition iov_ok (m : bytes) (v : io_vector) : Prop := region m (iov_buf v) (iov_len v).

Lemma iov_ok_length m m' v : zlen m' = zlen m -> iov_ok m v -> iov_ok m' v.
Proof using Type. unfold iov_ok, region. lia. Qed.

Lemma fd_write_safe fd iovs n p :
  P p.1 -> Forall (iov_ok p.2) iovs -> region p.2 n 4 -> safe (h_wasi_fd_write sys fd iovs n) p.
Proof using Bs.
  revert p. induction iovs as [|v iovs IH]; intros p HP HF Hn; [done|]. apply Forall_cons in HF as [(V1 & V2 & V3) HF].
  destruct Hn as (N1 & N2 & N3). cbn [h_wasi_fd_write].
  apply wp_bind, mem_load_safely; [lia|rewrite Z2Nat.id by lia; lia|].
  apply wp_bind, (host_safely bad P); [auto|done|]. intros e s' _ HP'. destruct (is_error e); [done|].
  apply wp_bind, load_u32_safely; [done..|]. apply wp_bind, store_u32_safely; [done..|]. intros m Hm. cbn in Hm.
  apply IH; [done| |unfold region; cbn; lia]. eapply Forall_impl; [exact HF|]. intros v'. by apply iov_ok_length.
Qed.

Lemma read_loop_safe fd iovs n p :
  P p.1 -> Forall (iov_ok p.2) iovs -> region p.2 n 4 -> safe (read_loop sys fd iovs n) p.
Proof using Bs.
  revert p. induction iovs as [|v iovs IH]; intros p HP HF Hn; [done|]. apply Forall_cons in HF as [(V1 & V2 & V3) HF].
  destruct Hn as (N1 & N2 & N3). cbn [read_loop].
  apply wp_bind, mem_load_safely; [lia|rewrite Z2Nat.id by lia; lia|].
  apply wp_bind, (host_safely bad P); [auto|done|]. intros [e b] s' Hr HP'. apply bs_read_length in Hr. cbn [fst snd].
  apply wp_bind, mem_store_safely; [done| |].
  { unfold zlen in *. rewrite Hr, length_take, length_drop. cbn [snd]. lia. }
  intros m Hm. cbn in Hm. destruct (is_error e); [done|].
  apply wp_bind, load_u32_safely; [done|cbn; lia|]. apply wp_bind, store_u32_safely; [done|cbn; lia|].
  intros m' Hm'. cbn in Hm'. apply IH; [done| |unfold region; cbn; lia].
  eapply Forall_impl; [exact HF|]. intros v'. apply iov_ok_length. cbn. lia.
Qed.

Lemma fd_read_safe fd iovs n p :
  P p.1 -> Forall (iov_ok p.2) iovs -> region p.2 n 4 -> safe (h_wasi_fd_read sys fd iovs n) p.
Proof using Bs.
  intros HP HF (N1 & N2 & N3). apply wp_bind, store_u32_safely; [done..|]. intros m Hm.
  apply read_loop_safe; [done| |unfold region; cbn; lia]. eapply Forall_impl; [exact HF|]. intros v. by apply iov_ok_length.
Qed.

Lemma fdstat_safe fd f p : P p.1 -> region p.2 f 4 -> safe (h_wasi_fd_fdstat_get fd f) p.
Proof using Type.
  intros HP (H1 & _ & H2). unfold h_wasi_fd_fdstat_get. destruct (fd =? fd_stdin); [|destruct (_ || _); [|done]].
  all: apply wp_bind, load_u32_safely; [done..|]; apply wp_bind, store_u32_safely; done.
Qed.

(** The space announced at [n] is the region that was checked. *)
Lemma copy_out_safe v a n p :
  P p.1 -> region p.2 n 4 -> region p.2 a (le_val (take 4 (drop (Z.to_nat n) p.2))) -> safe (copy_out v a n) p.
Proof using Type.
  intros HP (N1 & _ & N2) (A1 & A2 & A3). apply wp_bind, load_u32_safely; [done..|].
  destruct (_ <? zlen v) eqn:E; [done|]. bool_to_prop. apply wp_bind, mem_store_safely; [done|lia|].
  intros m Hm. cbn in Hm. apply wp_bind, store_u32_safely; [done|cbn; lia|done].
Qed.

Lemma get_caller_safe a n p :
  P p.1 -> region p.2 n 4 -> region p.2 a (le_val (take 4 (drop (Z.to_nat n) p.2))) -> safe (h_get_caller sys a n) p.
Proof using Bs. intros. apply wp_bind, (host_safely bad P); [auto|done|]. intros c s' _ HP'. by apply copy_out_safe. Qed.

Lemma get_object_safe i k kl a n p :
  P p.1 -> region p.2 k kl -> region p.2 n 4 -> region p.2 a (le_val (take 4 (drop (Z.to_nat n) p.2))) ->
  safe (h_get_object sys i k kl a n) p.
Proof using Bs.
  intros HP (K1 & K2 & K3) Hn Ha. apply wp_bind, mem_load_safely; [lia|rewrite Z2Nat.id; lia|].
  apply wp_bind, (host_safely bad P); [auto|done|]. intros c s' _ HP'. by apply copy_out_safe.
Qed.

Lemma put_object_safe i k kl v vl p : P p.1 -> region p.2 k kl -> region p.2 v vl -> safe (h_put_object sys i k kl v vl) p.
Proof using Bs.
  intros HP (K1 & K2 & K3) (V1 & V2 & V3). apply wp_bind, mem_load_safely; [lia|rewrite Z2Nat.id; lia|].
  apply wp_bind, mem_load_safely; [lia|rewrite Z2Nat.id; lia|]. apply (host_safely bad P); auto.
Qed.

Lemma check_authority_safe a al v p : P p.1 -> region p.2 a al -> region p.2 v 1 -> safe (h_check_authority sys a al v) p.
Proof using Bs.
  intros HP (A1 & A2 & A3) (V1 & V2 & V3). unfold h_check_authority. destruct (al =? Z.of_nat account_length) eqn:El; [|done].
  apply Z.eqb_eq in El. cbn [negb]. apply wp_bind, mem_load_safely; [lia|rewrite Z2Nat.id; lia|].
  apply wp_bind, (host_safely bad P); [apply bs_check_authority; unfold zlen in *; rewrite length_take, length_drop; lia|done|].
  intros [b|e] s' _ HP'; [|done]. apply wp_bind, mem_store_safely; [done|done|done].
Qed.

(** ** The handlers *)

Context (get_ticks : M S Z) (use_ticks : Z -> M S error_code)
  (Hticks : stays bad P get_ticks) (Huse : forall t, u64_ok t -> stays bad P (use_ticks t)).
Abbreviation hapi := (controller_host_api sys get_ticks use_ticks).
Implicit Types c : program_context S.
Abbreviation holds m := (safely m (fun _ c' => P (pc_host c'))).

Lemma on_host_safely {A} (m : M S A) c (Q : A -> program_context S -> Prop) :
  stays bad P m -> P (pc_host c) -> (forall a s, P s -> Q a (set_host s c)) -> safely (on_host m) Q c.
Proof using Type.
  intros Hm HP HQ. unfold on_host, zoom, wp_but. specialize (Hm (pc_host c) HP). unfold wp_but in Hm. destruct (m _); [auto|done|done].
Qed.

Lemma on_memory_safely {A} (m : M (S * bytes) A) c mem (Q : A -> program_context S -> Prop) :
  pc_memory c = Some mem -> safely m (fun a p => Q a (ProgramContext p.1 (Some p.2) (pc_ticks c) (pc_fizzy_ticks c) (pc_error_code c))) (pc_host c, mem) ->
  safely (on_memory m) Q c.
Proof using Type. intros Hc. unfold on_memory, zoom, wp_but. rewrite Hc. cbn. by destruct (m _). Qed.

Lemma with_pointer_safely a size k c (Q : execution_result -> program_context S -> Prop) :
  0 <= a -> 0 <= size -> Q trap c ->
  (forall mem, pc_memory c = Some mem -> region mem a size -> safely (k a) Q c) ->
  safely (with_pointer a size k) Q c.
Proof using Type.
  intros Ha Hs HQ Hk. apply wp_gets. unfold native_pointer. destruct (pc_memory c) as [m|] eqn:E; [|done].
  destruct (zlen m <? a + size) eqn:El; [done|]. bool_to_prop. apply (Hk m eq_refl). unfold region. lia.
Qed.

Lemma with_meter_safely (m : M (program_context S) error_code) c (k : error_code -> M (program_context S) execution_result) :
  P (pc_host c) -> (forall s, P s -> holds m (set_host s c)) -> (forall e c', P (pc_host c') -> holds (k e) c') ->
  holds (let* code := with_meter_ticks hapi m in k code) c.
Proof using All.
  intros HP Hm Hk. apply wp_bind. apply (wp_post _ (fun _ c' => P (pc_host c'))); [by auto|].
  unfold with_meter_ticks, with_meter_ticks_and, used_ticks. apply wp_bind, wp_bind, wp_bind, wp_gets. cbn [id].
  apply wp_bind. destruct (pc_fizzy_ticks c) as [z|]; [apply wp_ret, wp_ret|intros <-; done].
  apply wp_bind, on_host_safely; [apply Huse, u64_range|done|]. intros e s Hs. destruct (is_error e); [done|].
  apply wp_bind, wp_bind. eapply wp_post; [|by apply Hm]. intros a p Hp. by apply wp_ret, wp_bind, on_host_safely.
Qed.

(** The host function runs on the memory the handler has checked. *)
Lemma with_memory_safely (m : M (S * bytes) error_code) c mem (k : error_code -> M (program_context S) execution_result) :
  P (pc_host c) -> pc_memory c = Some mem -> (forall s, P s -> safe m (s, mem)) -> (forall e c', P (pc_host c') -> holds (k e) c') ->
  holds (let* code := with_meter_ticks hapi (on_memory m) in k code) c.
Proof using All.
  intros HP Hc Hm Hk. apply with_meter_safely; [done| |done]. intros s Hs. apply (on_memory_safely _ _ mem); [done|]. by apply Hm.
Qed.

Lemma finish_safe e c : P (pc_host c) -> holds (finish hapi e (ret tt)) c.
Proof using Type. intros HP. unfold finish. by destruct (ha_halts hapi e). Qed.

(** The arguments of a call are 32-bit integers; the offset of [fd_seek] is a
    64-bit one and is not used as an address. *)
Definition args_ok (args : list Z) : Prop := Forall (fun z => 0 <= z) args.

Lemma arg_nonneg args i : args_ok args -> 0 <= arg args i.
Proof using Type.
  intros HF. unfold arg. destruct (args !! i) eqn:E; [|done]. by apply (Forall_lookup_1 _ _ _ _ HF E).
Qed.

Lemma iovs_loop_safely mem n : forall base c (Q : result (list io_vector) -> program_context S -> Prop),
  bytes_ok mem -> pc_memory c = Some mem -> 0 <= base -> base + 8 * Z.of_nat n <= zlen mem ->
  (forall r c', pc_memory c' = Some mem -> pc_host c' = pc_host c -> match r with inl l => Forall (iov_ok mem) l | inr _ => True end -> Q r c') ->
  safely (iovs_loop base n) Q c.
Proof using Type.
  induction n as [|n IH]; intros base c Q Hb Hc H0 Hl HQ; [by apply wp_ret, HQ|]. cbn [iovs_loop].
  assert (forall l, bytes_ok l -> 0 <= le_val (take 4 l)) as Hpos.
  { intros l Hok. apply le_val_range. by apply Forall_take. }
  apply wp_bind, (on_memory_safely _ _ mem); [done|]. apply load_u32_safely; [lia|cbn; lia|]. cbn [fst snd].
  apply wp_bind, (on_memory_safely _ _ mem); [done|]. apply load_u32_safely; [lia|cbn; lia|]. cbn [fst snd].
  apply wp_gets. unfold native_pointer at 1. cbn [pc_memory].
  destruct (zlen mem <? _) eqn:El; [by apply HQ|]. bool_to_prop.
  apply wp_bind, IH; [done|done|lia|lia|]. intros [l|e] c' Hc' Hh Hr; apply wp_ret, HQ; try done.
  apply Forall_cons. split; [|done]. unfold iov_ok, region. cbn [iov_buf iov_len].
  pose proof (Hpos (drop (Z.to_nat base) mem) (Forall_drop _ _ _ Hb)).
  pose proof (Hpos (drop (Z.to_nat (base + 4)) mem) (Forall_drop _ _ _ Hb)). lia.
Qed.

Lemma make_iovs_safely mem iovs n c (Q : result (list io_vector) -> program_context S -> Prop) :
  bytes_ok mem -> pc_memory c = Some mem -> 0 <= iovs -> 0 <= n < 2 ^ 29 ->
  (forall r c', pc_memory c' = Some mem -> pc_host c' = pc_host c -> match r with inl l => Forall (iov_ok mem) l | inr _ => True end -> Q r c') ->
  safely (make_iovs iovs n) Q c.
Proof using Type.
  intros Hb Hc Hi Hn HQ. apply wp_gets. unfold native_pointer. rewrite Hc.
  replace (u32 (4 * 2 * n)) with (4 * 2 * n) by (symmetry; apply (wrap_small 32); lia). destruct (zlen mem <? _) eqn:El; [by apply HQ|]. bool_to_prop.
  apply (iovs_loop_safely mem); [done|done|done|rewrite Z2Nat.id; lia|done].
Qed.

Lemma fd_io_safe io args c :
  (forall fd iovs n p, P p.1 -> Forall (iov_ok p.2) iovs -> region p.2 n 4 -> safe (io fd iovs n) p) ->
  P (pc_host c) -> args_ok args -> arg args 2 < 2 ^ 29 -> (forall mem, pc_memory c = Some mem -> bytes_ok mem) ->
  holds (pc_wasi_fd_io hapi io args) c.
Proof using All.
  intros Hio HP Ha Hlen Hb. unfold pc_wasi_fd_io. pose proof (arg_nonneg args) as Hp. apply wp_bind.
  destruct (pc_memory c) as [mem|] eqn:Hc.
  - apply (make_iovs_safely mem); [by apply Hb|done|by apply Hp|split; [by apply Hp|done]|].
    intros [l|e] c' Hc' Hh Hr; [|apply wp_ret; by rewrite Hh]. apply with_pointer_safely; [by apply Hp|done|by rewrite Hh|]. intros mem' Hm' Hreg.
    assert (mem' = mem) as -> by congruence. apply (with_memory_safely _ _ mem); [by rewrite Hh|done|by auto|apply finish_safe].
  - unfold make_iovs. apply wp_gets. unfold native_pointer. rewrite Hc. by apply wp_ret.
Qed.

Definition memory_ok c : Prop := forall mem, pc_memory c = Some mem -> bytes_ok mem.

Lemma load_then_pointer mem n (q : Z) c (k : Z -> M (program_context S) execution_result) :
  bytes_ok mem -> pc_memory c = Some mem -> region mem n 4 -> 0 <= q ->
  P (pc_host c) -> (region mem q (le_val (take 4 (drop (Z.to_nat n) mem))) -> holds (k q) c) ->
  holds (let* z := on_memory (load_u32 n) in with_pointer q z k) c.
Proof using Type.
  intros Hb Hc (N1 & _ & N2) Hq HP Hk. apply wp_bind, (on_memory_safely _ _ mem); [done|].
  apply load_u32_safely; [done..|]. cbn [fst snd].
  replace (ProgramContext _ _ _ _ _) with c by (destruct c; cbn in *; by subst).
  apply with_pointer_safely; [done|apply le_val_range; by apply Forall_take, Forall_drop|done|].
  intros mem' Hm' Hr. assert (mem' = mem) as -> by congruence. by apply Hk.
Qed.

(** What a call of [fd_read] or [fd_write] must satisfy. *)
Definition call_ok (fn : host_function) (args : list Z) : Prop :=
  match fn with
  | fn_args_get => False
  | fn_fd_read | fn_fd_write => args_ok args /\ arg args 2 < 2 ^ 29
  | _ => args_ok args
  end.

Ltac pointer := apply with_pointer_safely; [auto|auto with zarith|done|intros ?mem ?Hm ?Hr].
Ltac handler := eapply with_memory_safely; [eassumption|eassumption|intros|apply finish_safe].
Ltac same_memory := repeat match goal with
  | H1 : pc_memory ?c = Some ?a, H2 : pc_memory ?c = Some ?b |- _ =>
      first [constr_eq a b; fail 1 | assert (b = a) as -> by congruence; clear H2]
  end.

Lemma host_call_safe fn args c : P (pc_host c) -> call_ok fn args -> memory_ok c -> holds (host_call hapi fn args) c.
Proof using All.
  intros HP Hok Hmem. apply (noexcept_safely bad _ (fun _ => True)); [done|].
  assert (args_ok args) as Ha by (destruct fn; cbn in Hok; tauto).
  assert (forall i, 0 <= arg args i) as Hp by (intros; by apply arg_nonneg).
  destruct fn; cbn in Hok.
  - done.
  - unfold pc_wasi_args_sizes_get. pointer. pointer. same_memory. handler. by apply args_sizes_safe.
  - unfold pc_wasi_fd_seek. pointer. pointer. same_memory. handler. done.
  - unfold pc_wasi_fd_write. apply fd_io_safe; [intros; by apply fd_write_safe|done|tauto|tauto|done].
  - unfold pc_wasi_fd_read. apply fd_io_safe; [intros; by apply fd_read_safe|done|tauto|tauto|done].
  - unfold pc_wasi_fd_close. apply with_meter_safely; [done|done|apply finish_safe].
  - unfold pc_wasi_fd_fdstat_get. pointer. handler. by apply fdstat_safe.
  - unfold pc_wasi_proc_exit. apply with_meter_safely; [done|done|]. intros e c' HP'. by destruct (ha_halts _ e).
  - unfold pc_get_caller. pointer. eapply load_then_pointer; [by apply Hmem|done..|]. intros Hr'.
    handler. by apply get_caller_safe.
  - unfold pc_get_object. pointer. pointer. same_memory. eapply load_then_pointer; [by apply Hmem|done..|].
    intros Hr'. handler. by apply get_object_safe.
  - unfold pc_put_object. pointer. pointer. same_memory. handler. by apply put_object_safe.
  - unfold pc_check_authority. pointer. pointer. same_memory. handler. by apply check_authority_safe.
Qed.

End host.

(** ** Where the host leaves the memory *)

Definition plain_context (m : bytes) : program_context plain_state :=
  ProgramContext (Plain [] [] []) (Some m) 100 (Some 100) (vm_error virtual_machine_errc.ok).

(** [plain_system] with one argument. *)
Definition plain_with_argument (a : bytes) : system_interface plain_state := {|
  si_arguments := ret [a];
  si_write := si_write plain_system; si_read := si_read plain_system;
  si_get_object := si_get_object plain_system; si_get_next_object := si_get_next_object plain_system;
  si_get_prev_object := si_get_prev_object plain_system; si_put_object := si_put_object plain_system;
  si_remove_object := si_remove_object plain_system; si_check_authority := si_check_authority plain_system;
  si_get_caller := si_get_caller plain_system; si_call_program := si_call_program plain_system
|}.

Definition no_ticks : M plain_state Z := ret 100.
Definition any_ticks (z : Z) : M plain_state error_code := ret (controller_error controller_errc.ok).

(** [args_get] checks one byte of the buffer it copies the arguments to: an
    argument longer than the rest of the memory is written past its end. And
    of the pointers it fills in it counts none. *)
Theorem args_get_leaves_memory :
  host_call (controller_host_api (plain_with_argument (zero_bytes 9)) no_ticks any_ticks) fn_args_get [0; 8]
    (plain_context (zero_bytes 16)) = Fault out_of_bounds /\
  (forall (sys : system_interface plain_state) p q s e argc s',
     h_wasi_args_get sys p q s = Ret (e, argc) s' -> argc = 0).
Proof.
  split; [by vm_compute|]. intros sys p q s e argc s' H. unfold h_wasi_args_get in H.
  apply bind_Ret_inv in H as (args & s1 & _ & H). cbv zeta in H.
  apply bind_Ret_inv in H as (? & s2 & _ & H). by injection H.
Qed.

(** The size of the array of buffers is computed modulo 2^32: with 2^29 entries
    it is zero, the check passes anywhere and the entries are read past the end
    of the memory. *)
Theorem make_iovs_wraps :
  make_iovs 0 (2 ^ 29) (plain_context (zero_bytes 16)) = Fault out_of_bounds.
Proof.
  unfold make_iovs. rewrite bind_gets. change (native_pointer _ _ _) with (Some 0). cbv beta iota.
  assert (exists n, Z.to_nat (2 ^ 29) = S (S (S n))) as [n ->] by (exists (Z.to_nat (2 ^ 29 - 3)); lia).
  reflexivity.
Qed.

(** ** Exit codes *)

(** A program that calls [proc_exit( n )] and then, as compiled programs do,
    runs into [unreachable]. *)
Definition exit_fizzy (n : Z) : Fizzy :=
  Build_Fizzy unit (fun _ => inr (Some tt)) (fun _ _ _ => inst_made (Instance None
    (Some (fun t => exec_call fn_proc_exit [n] t None (fun _ t m => exec_end true t m))))).

(** The exit code of a program is what [start] returns, except for zero: a
    program that exits successfully is reported as trapped. *)
Theorem exit_zero_reports_trap n :
  exists c, start (controller_host_api plain_system no_ticks any_ticks) (H := exit_fizzy n) tt
      (ProgramContext (Plain [] [] []) None 0 None (vm_error virtual_machine_errc.ok)) =
    Ret (if i32 n =? 0 then vm_error virtual_machine_errc.trapped else exit_error (i32 n)) c.
Proof.
  lazy -[i32]. destruct (i32 n); by eexists.
Qed.
