(* ===== verification/FizzyNode.v ===== *)
(** * The node on the interpreter

    [program_context] on the interpreter of FizzyExecute: the class [Fizzy] of
    ProgramContext, instantiated through the C interface of FizzyApi the way
    [program_context::instantiate_module] and [program_context::start] call it. *)

From stdpp Require Import base list option numbers strings.
From S2P Require Import Prelude Memory Errors Protocol SystemInterface ModuleCache ProgramContext HostApi GuestMemory.
From S2P Require Import FizzyLeb128 FizzyTypes FizzyExpr FizzyExprSafety FizzyCode FizzyExprCode FizzyParser FizzyParserSafety FizzyCertify FizzyNumeric FizzyExecute FizzyStore FizzyExecuteSafety FizzyInstantiate FizzyInstantiateSafety FizzyApi.

(** ** What crosses the interface *)

Definition valtype_of (t : ProgramContext.value_type) : option ValType :=
  match t with type_i32 => Some Ti32 | type_i64 => Some Ti64 | type_void => None end.

Definition c_function_type (e : external_function) : FizzyFunctionType :=
  MkFizzyFunctionType (valtype_of (ext_result e)) (omap valtype_of (ext_args e)).

Definition c_imported_function (f : imported_function) : FizzyImportedFunction host_function :=
  MkFizzyImportedFunction (str_bytes (ProgramContext.imp_module f) ++ [0]) (str_bytes (ProgramContext.imp_name f) ++ [0])
    (MkFizzyExternalFunction (c_function_type (imp_external f)) (ext_fn (imp_external f))).

(** The external function of each host function. *)
Definition external_of (fn : host_function) : external_function :=
  match fn with
  | fn_args_get => wasi_args_get_fn | fn_args_sizes_get => wasi_args_sizes_get_fn | fn_fd_seek => wasi_fd_seek_fn
  | fn_fd_write => wasi_fd_write_fn | fn_fd_read => wasi_fd_read_fn | fn_fd_close => wasi_fd_close_fn
  | fn_fd_fdstat_get => wasi_fd_fdstat_get_fn | fn_proc_exit => wasi_proc_exit_fn | fn_get_caller => respublica_get_caller_fn
  | fn_get_object => respublica_get_object_fn | fn_put_object => respublica_put_object_fn
  | fn_check_authority => respublica_check_authority_fn
  end.
Definition type_of (fn : host_function) : FuncType :=
  let t := c_function_type (external_of fn) in MkFuncType (ft_inputs t) (option_list (ft_output t)).

(** A handler reads the member of the union that the type names. *)
Definition read_value (t : ValType) (v : Z) : Z := match t with Ti32 | Tf32 => u32 v | Ti64 | Tf64 => u64 v end.

(** The arguments a handler finds behind the pointer. *)
Definition host_args (fn : host_function) (args : option (list Z)) : option (list Z) :=
  match args, inputs (type_of fn) with
  | None, _ :: _ => None
  | _, types => Some (zip_with read_value types (default [] args))
  end.

Definition answer (r : execution_result) : ExecutionResult :=
  unwrap_result (MkFizzyExecutionResult (er_trapped r) (er_has_value r) (er_value r)).

Section node.
Abbreviation world := (World host_function).
Abbreviation store := (Store host_function).

(** The memory after a host function: it writes through a pointer, so that the
    size stays, and a cell has eight bits. *)
Definition set_instance_memory (self : nat) (m : option bytes) (s : store) : store :=
  match s_instances s !! self ≫= i_memory, m with
  | Some a, Some b =>
      match s_memories s !! a with
      | Some old => if (length b =? length old)%nat then MkStore (s_instances s) (<[a := map u8 b]> (s_memories s)) (s_tables s) (s_values s) else s
      | None => s
      end
  | _, _ => s
  end.

Definition host_world (self : nat) (ticks : Z) (m : option bytes) (w : world) : world :=
  MkWorld (set_instance_memory self m (w_store w)) (set_context_ticks ticks (w_ctx w)).

Fixpoint to_execution (self : nat) (x : run host_function FizzyExecutionResult) : execution :=
  match x with
  | Done r w => exec_end (fr_trapped r) (ctx_ticks (w_ctx w)) (instance_memory self (w_store w))
  | Crash f => exec_crash f
  | CallHost fn _ args w k =>
      match host_args fn args with
      | None => exec_crash null_dereference
      | Some l => exec_call fn l (ctx_ticks (w_ctx w)) (instance_memory self (w_store w))
                    (fun r t m => to_execution self (k (answer r) (host_world self t m w)))
      end
  end.

(** [max_call_depth] *)
Definition max_call_depth : Z := 1024.

Definition start_name : bytes := str_bytes "_start".

Section interpreter.
Context `{Allocator} `{NanPattern} (start_fuel : nat).

(** Two units of fuel for a tick and for the call itself. *)
Definition fuel_for (ticks : Z) : nat := Z.to_nat (2 * Z.max 0 ticks + 2).

(** [fizzy_execute( _instance, start_func_idx, nullptr, _context )] *)
Definition start_execution (self : nat) (idx : Z) (s : store) (ticks : Z) : execution :=
  to_execution self (fizzy_execute (fuel_for ticks) self idx None true
    (MkWorld s (fizzy_create_metered_execution_context max_call_depth ticks))).

Definition start_of (module : Module_) (self : nat) (s : store) : option (Z -> execution) :=
  match fizzy_find_exported_function_index module start_name 0 with
  | (true, idx) => Some (start_execution self idx s)
  | (false, _) => None
  end.

(** The start function of a module calls the host with neither instance nor
    context, so that the host leaves the world as it is. *)
Fixpoint to_instantiation (module : Module_) (x : run host_function (option nat * option FizzyError)) : instantiation :=
  match x with
  | Done (None, _) _ => inst_null
  | Done (Some self, _) w => inst_made (Instance (instance_memory self (w_store w)) (start_of module self (w_store w)))
  | Crash f => inst_crash f
  | CallHost fn _ args w k =>
      match host_args fn args with
      | None => inst_crash null_dereference
      | Some l => inst_call fn l (fun r => to_instantiation module (k (answer r) w))
      end
  end.

(** An instance shares nothing with others. *)
Definition nothing : world := MkWorld (MkStore [] [] [] []) default_context.

Definition fizzy_error : FizzyError := MkFizzyError FizzySuccess (zero_bytes error_message_size).

Definition interpreter_instantiate (module : Module_) (host_funcs : list imported_function) (memory_pages_limit : Z) : instantiation :=
  to_instantiation module (FizzyApi.fizzy_resolve_instantiate start_fuel module (map c_imported_function host_funcs) None None []
    memory_pages_limit (Some fizzy_error) nothing).

(** The interpreter as the virtual machine uses it. A start function that takes
    more than [start_fuel] steps counts as one that does not end. *)
Definition interpreter : Fizzy := {|
  fizzy_module := Module_;
  ProgramContext.fizzy_parse bytecode :=
    match FizzyApi.fizzy_parse bytecode (Some fizzy_error) with
    | Ret m _ => inr m
    | Throw e _ => inl (terminate e)
    | Fault f => inl f
    end;
  ProgramContext.fizzy_resolve_instantiate := interpreter_instantiate
|}.
End interpreter.
End node.

(** ** What a program may import *)

(** [fn] is the host function under this name. *)
Definition names (i : Import_) (f : imported_function) : bool :=
  bytes_eqb (FizzyTypes.imp_module i) (str_bytes (ProgramContext.imp_module f)) &&
  bytes_eqb (FizzyTypes.imp_name i) (str_bytes (ProgramContext.imp_name f)).

Definition imports_only (allowed : host_function -> bool) (m : Module_) : bool :=
  forallb (fun i => match imp_desc i with
                    | ImportFunction _ => forallb (fun f => negb (names i f) || allowed (ext_fn (imp_external f))) host_funcs
                    | _ => true
                    end) (importsec m).

(** [_start], when it is exported, has no parameters. *)
Definition start_takes_nothing (m : Module_) : bool :=
  match find_exported_function_index m start_name with
  | None => true
  | Some i => match function_type_at m i with Some t => bool_decide (inputs t = []) | None => true end
  end.

Section imports.
Context (allowed : host_function -> bool).

Definition allowed_type (fn : host_function) : option FuncType := if allowed fn then Some (type_of fn) else None.

Definition offered : list (ImportedFunction host_function) := unwrap_imported_functions (map c_imported_function host_funcs).

(** The table has the type of each function and its name without the zero. *)
Lemma offered_spec f :
  f ∈ offered -> exists h, h ∈ host_funcs /\ if_module f = str_bytes (ProgramContext.imp_module h) /\ if_name f = str_bytes (ProgramContext.imp_name h) /\
    if_function f = HostFunction (ext_fn (imp_external h)) /\
    type_of (ext_fn (imp_external h)) = MkFuncType (if_inputs f) (option_list (if_output f)).
Proof.
  unfold offered, unwrap_imported_functions. rewrite map_map. intros (h & -> & Hh)%list_elem_of_fmap. exists h. split; [done|].
  revert h Hh. apply Forall_forall. by repeat constructor.
Qed.

Lemma find_imported_function_spec i (idx : Z) t (s : Store host_function) :
  (length (outputs t) <= 1)%nat -> imp_desc i = ImportFunction idx ->
  forallb (fun f => negb (names i f) || allowed (ext_fn (imp_external f))) host_funcs = true ->
  match find_imported_function (FizzyTypes.imp_module i) (FizzyTypes.imp_name i) t offered s with
  | Ret f s' => s' = s /\ exists h, ef_function f = HostFunction h /\ allowed_type h = Some (MkFuncType (ef_input_types f) (ef_output_types f))
  | Throw e s' => s' = s /\ refusal e
  | Fault _ => False
  end.
Proof.
  intros Hout Hi Hall. unfold find_imported_function. destruct (find _ offered) as [f|] eqn:Ef; [|split; [done|right; by eexists]].
  apply find_some in Ef as [Hin Hn]. apply list_elem_of_In, offered_spec in Hin as (h & Hh & Hm & Hname & Hf & Ht).
  assert (allowed (ext_fn (imp_external h)) = true) as Hok.
  { rewrite forallb_forall in Hall. specialize (Hall h ltac:(by apply list_elem_of_In)). unfold names in Hall. rewrite <- Hm, <- Hname in Hall.
    rewrite Hn in Hall. exact Hall. }
  destruct (negb _) eqn:E1; [split; [done|right; by eexists]|]. apply equal_types_spec in E1.
  assert (outputs t = option_list (if_output f) -> exists h0, if_function f = HostFunction h0 /\ allowed_type h0 = Some (MkFuncType (inputs t) (outputs t))) as Hgo.
  { intros Ho. exists (ext_fn (imp_external h)). split; [done|]. unfold allowed_type. rewrite Hok, Ht, E1, Ho. done. }
  destruct (outputs t) as [|o [|? ?]] eqn:Eo; [| |cbn in Hout; lia].
  - destruct (if_output f); [split; [done|right; by eexists]|]. split; [done|]. by apply Hgo.
  - destruct (bool_decide _) eqn:Eb; [|split; [done|right; by eexists]]. apply bool_decide_eq_true in Eb. split; [done|]. rewrite Eb in Hgo. by apply Hgo.
Qed.

Definition resolved (fs : list (ExternalFunction host_function)) : Prop :=
  forall f, f ∈ fs -> exists h, ef_function f = HostFunction h /\ allowed_type h = Some (MkFuncType (ef_input_types f) (ef_output_types f)).

Lemma resolve_functions_spec m imports (s : Store host_function) :
  module_wf m -> (forall i, i ∈ imports -> i ∈ importsec m) ->
  forallb (fun i => match imp_desc i with
                    | ImportFunction _ => forallb (fun f => negb (names i f) || allowed (ext_fn (imp_external f))) host_funcs
                    | _ => true
                    end) imports = true ->
  match resolve_functions m imports offered s with
  | Ret fs s' => s' = s /\ resolved fs
  | Throw e s' => s' = s /\ refusal e
  | Fault _ => False
  end.
Proof.
  intros Hwf. induction imports as [|i imports IH]; intros Hin Hall; cbn [resolve_functions]; [split; [done|]; intros f Hf; by apply not_elem_of_nil in Hf|].
  cbn [forallb] in Hall. apply andb_true_iff in Hall as [Hi Hall]. specialize (IH (fun j Hj => Hin j (list_elem_of_further _ _ _ Hj)) Hall).
  destruct (imp_desc i) as [idx| | |] eqn:Ed; try exact IH.
  pose proof (wf_imports _ Hwf i idx (Hin i (list_elem_of_here _ _)) Ed) as Hidx. destruct (at_idx_lt (typesec m) idx Hidx) as (t & Ht & Hti).
  unfold bind at 1, assert_that. rewrite (proj2 (Z.ltb_lt _ _)) by lia. cbn [ret]. unfold bind at 1, elem. rewrite Ht. cbn [ret].
  pose proof (find_imported_function_spec i idx t s (proj1 (Forall_forall _ _) (wf_types _ Hwf) t Hti) Ed Hi) as Hf. unfold bind at 1.
  destruct (find_imported_function _ _ _ _ s) as [f s1|e s1|]; [|done|done]. destruct Hf as [-> Hf]. unfold bind.
  destruct (resolve_functions m imports offered s) as [fs s2|e s2|]; [|done|done]. destruct IH as [-> IH]. split; [done|].
  intros g [->|Hg]%elem_of_cons; [done|by apply IH].
Qed.

(** No globals are offered. *)
Lemma resolve_globals_spec imports (s : Store host_function) :
  match resolve_globals imports [] s with
  | Ret gs s' => s' = s /\ gs = []
  | Throw e s' => s' = s /\ refusal e
  | Fault _ => False
  end.
Proof.
  induction imports as [|i imports IH]; cbn [resolve_globals]; [done|]. destruct (imp_desc i); try exact IH. split; [done|]. right. by eexists.
Qed.
End imports.

(** ** Instances without a start function *)

Section instances.
Context `{Allocator} `{NanPattern} (allowed : host_function -> bool) (start_fuel : nat).

Lemma nothing_ok : store_ok (allowed_type allowed) (w_store nothing).
Proof. constructor; cbn; try done. intros t e Ht. by apply not_elem_of_nil in Ht. Qed.

(** A module without a start function: the null pointer, or an instance in a
    well-formed store. *)
Lemma interpreter_instantiate_spec m limit :
  validated m -> startfunc m = None -> imports_only allowed m = true -> 0 <= limit ->
  match interpreter_instantiate start_fuel m host_funcs limit with
  | inst_null => True
  | inst_made i => exists self inst s, i = Instance (instance_memory self s) (start_of m self s) /\
      store_ok (allowed_type allowed) s /\ s_instances s !! self = Some inst /\ i_module inst = m /\ i_memory_pages_limit inst <= limit
  | _ => False
  end.
Proof.
  intros Hv Hstart Hall Hlim. unfold interpreter_instantiate, FizzyApi.fizzy_resolve_instantiate. cbv zeta. change (unwrap_imported_functions _) with offered.
  unfold bind at 1. unfold resolve_imported_functions, imports_only in *.
  pose proof (resolve_functions_spec allowed m (importsec m) (w_store nothing) (v_module _ Hv) (fun _ Hi => Hi) Hall) as Hr.
  destruct (resolve_functions _ _ _ _) as [fs s1|e s1|]; [|done|done]. destruct Hr as [-> Hr].
  unfold bind at 1, resolve_imported_globals. pose proof (resolve_globals_spec (importsec m) (w_store nothing)) as Hg. cbn [unwrap_imported_globals map].
  destruct (resolve_globals _ _ _) as [gs s2|e s2|]; [|done|done]. destruct Hg as [-> ->]. cbn [ret]. unfold instantiate. cbn [unwrap_tables unwrap_memories option_list map].
  assert (imports_ok (allowed_type allowed) (w_store nothing) fs [] [] [] limit) as Him.
  { constructor; [exact Hr| | | |done]; intros ? ? Hx; by apply not_elem_of_nil in Hx. }
  pose proof (make_instance_spec (allowed_type allowed) (w_store nothing) m fs [] [] [] limit nothing_ok Hv) as Hm. unfold tries in Hm.
  destruct (make_instance _ _ _ _ _ _ _) as [self s3|e s3|]; [|done|].
  - destruct (Hm Him) as (Hs & _ & inst & Hself & Hmod & _ & Hl). rewrite Hstart. cbn. by exists self, inst, s3.
  - destruct (Hm Him).
Qed.
End instances.

(** ** What the interpreter promises to the virtual machine *)

(** The memory of a guest: whole pages of bytes, as many as it may have. *)
Definition guest_memory (pages_limit : Z) (m : option bytes) : Prop :=
  forall b, m = Some b -> bytes_ok b /\ exists pages, zlen b = pages * PageSize /\ pages <= pages_limit.

(** A handler's answer to a call with so many ticks left. *)
Definition answer_fits (fn : host_function) (ticks : Z) (r : execution_result) (ticks' : Z) : Prop :=
  er_trapped r = false /\ er_has_value r = negb (length (outputs (type_of fn)) =? 0)%nat /\ 0 <= ticks' <= ticks.

Fixpoint execution_fits (allowed : host_function -> bool) (pages_limit : Z) (x : execution) : Prop :=
  match x with
  | exec_end _ _ m => guest_memory pages_limit m
  | exec_crash f => f = terminate bad_alloc
  | exec_call fn args ticks m k =>
      allowed fn = true /\ length args = length (inputs (type_of fn)) /\ Forall (fun v => 0 <= v) args /\ 0 <= ticks /\ guest_memory pages_limit m /\
      forall r t m', answer_fits fn ticks r t -> execution_fits allowed pages_limit (k r t m')
  end.

Section fits.
Context `{Allocator} `{NanPattern} (allowed : host_function -> bool) (self : nat) (inst : Instance_ host_function) (limit : Z).
Context (Hlimit : i_memory_pages_limit inst <= limit).
Abbreviation store_ok := (store_ok (allowed_type allowed)).

Lemma guest_memory_ok (s : Store host_function) : store_ok s -> s_instances s !! self = Some inst -> guest_memory limit (instance_memory self s).
Proof.
  intros Hs Hself b Hb. unfold instance_memory in Hb. rewrite Hself in Hb. cbn in Hb. destruct (i_memory inst) as [a|] eqn:Ea; [|done]. cbn in Hb.
  split; [by eapply (st_bytes _ _ Hs)|]. destruct (io_size _ _ _ (st_instances _ _ Hs _ _ Hself) a b Ea Hb) as (pages & Hp & Hl). exists pages. split; [done|lia].
Qed.

Lemma set_instance_memory_ok m (s : Store host_function) :
  store_ok s -> s_instances s !! self = Some inst -> store_ok (set_instance_memory self m s) /\ s_instances (set_instance_memory self m s) = s_instances s.
Proof.
  intros Hs Hself. unfold set_instance_memory. rewrite Hself. cbn. destruct (i_memory inst) as [a|] eqn:Ea, m as [b|]; try done.
  destruct (s_memories s !! a) as [old|] eqn:Eo; [|done]. destruct (length b =? length old)%nat eqn:El; [|done]. apply Nat.eqb_eq in El.
  split; [|done]. destruct (io_size _ _ _ (st_instances _ _ Hs _ _ Hself) a old Ea Eo) as (pages & Hp & Hl).
  eapply (store_set_memory _ s self inst a _ pages); [done|done|done| |done|].
  - unfold zlen in *. rewrite length_map. lia.
  - apply Forall_forall. intros v (x & -> & _)%list_elem_of_fmap. unfold byte_ok, u8. apply (wrap_range 8). lia.
Qed.

Lemma read_value_nonneg t v : 0 <= read_value t v.
Proof. destruct t; cbn; [apply (wrap_range 32)|apply (wrap_range 64)|apply (wrap_range 32)|apply (wrap_range 64)]; lia. Qed.

Lemma host_args_spec fn args : args_ok (type_of fn) args ->
  exists l, host_args fn args = Some l /\ length l = length (inputs (type_of fn)) /\ Forall (fun v => 0 <= v) l.
Proof.
  intros Ha. set (l := zip_with read_value (inputs (type_of fn)) (default [] args)). exists l. assert (host_args fn args = Some l) as ->.
  { unfold host_args, l. destruct args as [a|]; [done|]. unfold args_ok in Ha. by rewrite Ha. }
  split; [done|]. unfold l. split.
  - rewrite length_zip_with. unfold args_ok in Ha. destruct args as [a|]; [change (default [] (Some a)) with a; lia|]. by rewrite Ha.
  - apply Forall_forall. intros v (x & y & -> & _)%elem_of_zip_with. apply read_value_nonneg.
Qed.

(** A run of the interpreter is an execution that keeps the promise. *)
Lemma to_execution_fits (x : run host_function ExecutionResult) base Q :
  base !! self = Some inst ->
  run_ok (allowed_type allowed) true base (fun f => f = terminate bad_alloc) Q x ->
  (forall r w, Q r w -> store_ok (w_store w) /\ base `prefix_of` s_instances (w_store w)) ->
  execution_fits allowed limit (to_execution self (run_bind x (fun r w => Done (wrap_result r) w))).
Proof.
  intros Hbase Hx HQ. induction x as [r w|f|fn j args w k IH]; cbn [run_bind to_execution].
  - destruct (HQ r w Hx) as [Hs Hp]. apply guest_memory_ok; [done|by eapply prefix_lookup_Some].
  - exact Hx.
  - destruct Hx as (Hs & Hp & _ & Ht & t & Hty & Ha & Hk). unfold allowed_type in Hty. destruct (allowed fn) eqn:Eall; [|done]. injection Hty as <-.
    destruct (host_args_spec fn args Ha) as (l & -> & Hlen & Hpos). cbn [execution_fits]. split; [done|]. split; [done|]. split; [done|]. split; [by apply Ht|].
    assert (s_instances (w_store w) !! self = Some inst) as Hself by (by eapply prefix_lookup_Some).
    split; [by apply guest_memory_ok|]. intros r t' m' (Htr & Hval & Htick). apply IH, Hk.
    destruct (set_instance_memory_ok m' (w_store w) Hs Hself) as [Hs' Hi]. split; [split; [exact Hs'|split; [cbn; by rewrite Hi|done]]|]. split.
    + unfold answer, unwrap_result. cbn. rewrite Htr, Hval. destruct (length (outputs (type_of fn)) =? 0)%nat eqn:E; [by apply Nat.eqb_eq in E|].
      apply Nat.eqb_neq in E. cbn. by destruct fn.
    + intros _ _ _. done.
Qed.
End fits.

Section start.
Context `{Allocator} `{NanPattern} (allowed : host_function -> bool).

Lemma start_execution_fits self inst m limit s run ticks :
  store_ok (allowed_type allowed) s -> s_instances s !! self = Some inst -> i_module inst = m -> i_memory_pages_limit inst <= limit ->
  start_takes_nothing m = true -> start_of m self s = Some run -> 0 <= ticks -> execution_fits allowed limit (run ticks).
Proof.
  intros Hs Hself Hm Hlim Hnone Hrun Ht. unfold start_of, fizzy_find_exported_function_index in Hrun. unfold start_takes_nothing in Hnone.
  unfold find_exported_function_index in *. destruct (find_export m EFunction start_name) as [idx|] eqn:Eidx; [|done]. injection Hrun as <-.
  assert (exists t, function_type_at m idx = Some t) as [t Hty].
  { unfold find_export in Eidx. apply fmap_Some in Eidx as (e & [Hin He]%find_some & ->). apply andb_true_iff in He as [He _]. apply bool_decide_eq_true in He.
    pose proof (io_module _ _ _ (st_instances _ _ Hs _ _ Hself)) as Hwf. rewrite Hm in Hwf. destruct (wf_exports _ Hwf) as [_ Hex].
    apply list_elem_of_In in Hin. pose proof (proj1 (Forall_forall _ _) Hex e Hin) as Hv. unfold export_valid in Hv. rewrite He in Hv. by apply has_function_type. }
  rewrite Hty in Hnone. apply bool_decide_eq_true in Hnone. unfold start_execution, fizzy_execute, execute_in. cbn [ctx_metering_enabled w_ctx fizzy_create_metered_execution_context].
  eapply (to_execution_fits allowed self inst limit Hlim _ (s_instances s)); [done| |].
  - eapply run_ok_mono; [|intros r w Hq; exact Hq|eapply (proj2 (loop_execute_ok (allowed_type allowed) true False (s_instances s) (fuel_for ticks))); try done].
    + by intros f [->|[_ []]].
    + by rewrite Hm.
    + split; [done|]. right. split; [done|]. unfold fuel_for, ticks_of. cbn. lia.
  - intros r w ((K1 & K2 & _) & _). done.
Qed.
End start.

(** C8. What the interpreter makes of byte code shorter than 2^27 bytes is as the
    virtual machine expects it: a module without a start section and with a
    [_start] that takes no parameters is instantiated without a call of the host
    and without a crash; its memory consists of whole pages within the limit; and
    running it calls only functions it imports, with as many arguments as they
    take and with ticks left, and ends, as long as each host function that does
    not trap answers with a value exactly when its type has one and gives back
    no more ticks than it got ([answer_fits]); it may end by running out of
    memory for a frame, which terminates the node. *)
Theorem interpreter_keeps_promise `{Allocator} `{NanPattern} (allowed : host_function -> bool) start_fuel bytecode m rest :
  bytes_ok bytecode -> zlen bytecode < 2 ^ 27 -> parse bytecode = Ret m rest ->
  startfunc m = None -> start_takes_nothing m = true -> imports_only allowed m = true ->
  match interpreter_instantiate start_fuel m host_funcs memory_pages_limit with
  | inst_null => True
  | inst_made i => guest_memory memory_pages_limit (in_memory i) /\
      forall run ticks, in_start i = Some run -> 0 <= ticks -> execution_fits allowed memory_pages_limit (run ticks)
  | _ => False
  end.
Proof.
  intros Hb Hlen Hp Hst Hnone Himp. destruct (parse_certified_lemma bytecode m rest Hb Hlen Hp) as (H1 & H2 & H3).
  pose proof (interpreter_instantiate_spec allowed start_fuel m memory_pages_limit ltac:(by constructor) Hst Himp ltac:(by unfold memory_pages_limit)) as Hi.
  destruct (interpreter_instantiate _ _ _ _) as [|i|fn args k|f]; [done| |done|done].
  destruct Hi as (self & inst & s & -> & Hs & Hself & Hmod & Hlim). split; [by eapply guest_memory_ok|]. intros run ticks Hrun Ht.
  by eapply start_execution_fits.
Qed.

(** ** Running a program *)

(** What the host functions owe to a program that is run: with arguments and a
    memory as the interpreter passes them, a handler does not end in the fault
    [bad], keeps the context, and answers within its type without giving back
    more ticks than it got. [P] holds of the host throughout, and [Inv] is its
    relation to the ticks that were paid for. *)
Section running.
Context {S : Type} (hapi : host_api S) (allowed : host_function -> bool) (bad : fault) (P : S -> Prop) (Inv : S -> Z -> Prop)
  (Inv_P : forall s t, Inv s t -> P s).
Abbreviation avoids := (wp_but bad (fun _ => True)).

Definition handlers_fit : Prop := forall fn args ticks m c,
  allowed fn = true -> length args = length (inputs (type_of fn)) -> Forall (fun v => 0 <= v) args -> 0 <= ticks -> guest_memory memory_pages_limit m ->
  Inv (pc_host c) (pc_ticks c) ->
  avoids (host_call hapi fn args) (fun r c' => P (pc_host c') /\ exists t, pc_fizzy_ticks c' = Some t /\
    (er_trapped r = false -> answer_fits fn ticks r t /\ Inv (pc_host c') (pc_ticks c'))) (set_machine ticks m c).

Context (Hfit : handlers_fit) (Hbad : match bad with terminate _ => False | _ => True end).

Lemma execute_avoids x c :
  execution_fits allowed memory_pages_limit x -> Inv (pc_host c) (pc_ticks c) ->
  avoids (ProgramContext.execute hapi x) (fun _ c' => P (pc_host c') /\ is_Some (pc_fizzy_ticks c')) c.
Proof using Inv_P Hfit Hbad.
  revert c. induction x as [trapped t m|fn args t m k IH|f]; intros c Hx Hinv; cbn [ProgramContext.execute].
  - split; [by eapply Inv_P|by eexists].
  - destruct Hx as (Hall & Hlen & Hpos & Ht & Hm & Hk). apply wp_bind. cbn. apply wp_bind. eapply wp_post; [|by apply Hfit].
    intros r c' (HP & t' & Hf & Hr). destruct (er_trapped r) eqn:Etr; [apply wp_ret; split; [done|by eexists]|]. destruct (Hr eq_refl) as [Hans Hinv'].
    apply wp_gets. cbn [id]. apply wp_bind. rewrite Hf. apply wp_ret. apply IH; [|done]. by apply Hk.
  - cbn in Hx. subst f. unfold wp_but, crash, fail. intros <-. exact Hbad.
Qed.

Context `{Allocator} `{NanPattern} (start_fuel : nat).
Context (Hget : forall s, P s -> avoids (ha_get_meter_ticks hapi) (fun t s' => 0 <= i64 t /\ Inv s' t) s).
Context (Huse : forall t s, u64_ok t -> P s -> avoids (ha_use_meter_ticks hapi t) (fun _ _ => True) s).

Lemma on_host_avoids {A} (m : M S A) c (Q : A -> program_context S -> Prop) Q' :
  avoids m Q' (pc_host c) -> (forall a s, Q' a s -> Q a (set_host s c)) -> avoids (on_host m) Q c.
Proof using Type. intros Hm HQ. unfold on_host, zoom, wp_but in *. destruct (m _); [by apply HQ|done|done]. Qed.

Lemma noexcept_avoids {T A} (p : M T A) Q s : avoids p Q s -> avoids (noexcept p) Q s.
Proof using Hbad. unfold wp_but, noexcept. destruct (p s) as [a s'|e s'|f]; [exact (fun H => H)| |exact (fun H => H)]. intros _ Heq. pose proof Hbad as Hb. rewrite <- Heq in Hb. exact Hb. Qed.

Lemma used_ticks_avoids c (Q : Z -> program_context S -> Prop) :
  is_Some (pc_fizzy_ticks c) -> (forall z, u64_ok z -> Q z c) -> avoids used_ticks Q c.
Proof using Type. intros [t Ht] HQ. unfold used_ticks. apply wp_gets. cbn [id]. rewrite Ht. apply wp_bind, wp_ret, wp_ret, HQ, u64_range. Qed.

Lemma start_avoids m c :
  validated m -> startfunc m = None -> start_takes_nothing m = true -> imports_only allowed m = true -> P (pc_host c) ->
  avoids (start hapi (H := interpreter start_fuel) m) (fun _ _ => True) c.
Proof using Inv_P Hfit Hbad Hget Huse.
  intros Hv Hst Hnone Himp HP. unfold start. apply noexcept_avoids, wp_bind. unfold instantiate_module. cbn [ProgramContext.fizzy_resolve_instantiate interpreter].
  pose proof (interpreter_instantiate_spec allowed start_fuel m memory_pages_limit Hv Hst Himp ltac:(by unfold memory_pages_limit)) as Hi.
  destruct (interpreter_instantiate start_fuel m host_funcs memory_pages_limit) as [|i|fn args k|f]; [done| |done|done].
  destruct Hi as (self & inst & s & -> & Hs & Hself & Hmod & Hlim). apply wp_ret. apply wp_bind.
  eapply on_host_avoids; [by apply Hget|]. intros t s' [Ht Hinv]. apply wp_modify. cbn [in_start].
  destruct (start_of m self s) as [run|] eqn:Erun; [|done]. apply wp_bind.
  eapply wp_post; [|eapply execute_avoids; [by eapply start_execution_fits|exact Hinv]].
  intros trapped c' [HP' Hc']. apply wp_bind, used_ticks_avoids; [done|]. intros used Hused. apply wp_bind. eapply on_host_avoids; [by apply Huse|].
  intros e s2 _. destruct (is_error e); [done|]. apply wp_gets. by destruct (_ && _).
Qed.
End running.

(** ** Programs *)

Definition wasi : bytes := str_bytes "wasi_snapshot_preview1".

(** [_start] calls [proc_exit( 3 )]. *)
Definition exit_binary : bytes :=
  wasm_prefix ++ [1; 8; 2; 0x60; 1; 0x7f; 0; 0x60; 0; 0] ++ ([2; 36; 1; 22] ++ wasi ++ [9] ++ str_bytes "proc_exit" ++ [0; 0]) ++ [3; 2; 1; 1] ++
  ([7; 10; 1; 6] ++ start_name ++ [0; 1]) ++ [10; 8; 1; 6; 0; 0x41; 3; 0x10; 0; 0x0b].

(** The start function of the module calls [fd_close( 0 )]. *)
Definition start_section_binary : bytes :=
  wasm_prefix ++ [1; 9; 2; 0x60; 1; 0x7f; 1; 0x7f; 0x60; 0; 0] ++ ([2; 35; 1; 22] ++ wasi ++ [8] ++ str_bytes "fd_close" ++ [0; 0]) ++ [3; 2; 1; 1] ++
  [8; 1; 1] ++ [10; 9; 1; 7; 0; 0x41; 0; 0x10; 0; 0x1a; 0x0b].

(** [_start] has a parameter. *)
Definition parameter_binary : bytes :=
  wasm_prefix ++ [1; 5; 1; 0x60; 1; 0x7f; 0] ++ [3; 2; 1; 0] ++ ([7; 10; 1; 6] ++ start_name ++ [0; 0]) ++ [10; 4; 1; 2; 0; 0x0b].

(** The start function of the module is a loop that does not end. *)
Definition endless_binary : bytes :=
  wasm_prefix ++ [1; 4; 1; 0x60; 0; 0] ++ [3; 2; 1; 0] ++ [8; 1; 0] ++ [10; 9; 1; 7; 0; 0x03; 0x40; 0x0c; 0; 0x0b; 0x0b].

(** The virtual machine on a program, with a host that is [plain_system]. *)
Definition run_binary (start_fuel : nat) (bytecode : bytes) : outcome (program_context plain_state) error_code :=
  match parse bytecode with
  | Ret m _ =>
      start (controller_host_api plain_system no_ticks any_ticks) (H := interpreter (H := roomy) (H0 := canonical_nan) start_fuel) m
        (ProgramContext (SystemInterface.Plain [] [] []) None 0 None (vm_error virtual_machine_errc.ok))
  | _ => Fault assertion_failed
  end.

(** [_start] stores an object through pointers past the end of its memory. *)
Definition wild_binary : bytes :=
  wasm_prefix ++ [1; 13; 2; 0x60; 5; 0x7f; 0x7f; 0x7f; 0x7f; 0x7f; 1; 0x7f; 0x60; 0; 0] ++
  ([2; 29; 1; 3] ++ str_bytes "env" ++ [21] ++ str_bytes "respublica_put_object" ++ [0; 0]) ++ [3; 2; 1; 1] ++ [5; 3; 1; 0; 1] ++
  ([7; 10; 1; 6] ++ start_name ++ [0; 1]) ++
  [10; 18; 1; 16; 0; 0x41; 0; 0x41; 0x7f; 0x41; 0xe4; 0; 0x41; 0; 0x41; 1; 0x10; 0; 0x1a; 0x0b].

(** What came out: an error code, or a fault. *)
Definition ending (o : outcome (program_context plain_state) error_code) : fault + error_code :=
  match o with Ret e _ => inr e | Throw e _ => inl (terminate e) | Fault f => inl f end.

(** The interpreter and the host in concert. *)
Example programs_run :
  ending (run_binary 0 exit_binary) = inr (exit_error 3) /\
  ending (run_binary 0 wild_binary) = inr (vm_error virtual_machine_errc.trapped).
Proof. by vm_compute. Qed.

(** The loop of the endless start function comes back to where it was. *)
Section endless.
Context (self : nat) (inst : Instance_ host_function) (idx : Z) (w : World host_function).
Definition endless_code : Code := MkCode 0 0 [3; 12; 0; 0; 0; 0; 0; 0; 0; 0; 0; 0; 0; 0; 11; 11].
Definition endless_frame : frame host_function := MkFrameState w (MkOperandStack [] [] small_storage_size) 0.

Lemma endless_loop n : loop (H := roomy) (H0 := canonical_nan) n false self inst idx endless_code endless_frame = Crash out_of_fuel.
Proof. induction n as [n IH] using lt_wf_ind. destruct n as [|[|n]]; [done|done|]. transitivity (loop (H := roomy) (H0 := canonical_nan) n false self inst idx endless_code endless_frame); [done|]. apply IH. lia. Qed.
End endless.

Definition endless_module : Module_ := match parse endless_binary with Ret m _ => m | _ => empty_module end.

Definition endless_store : Store host_function :=
  match make_instance (H := roomy) endless_module [] [] [] [] memory_pages_limit (w_store nothing) with Ret _ s => s | _ => w_store nothing end.

Lemma endless_start n : execute (H := roomy) (H0 := canonical_nan) n false 0 0 None (MkWorld endless_store default_context) = Crash out_of_fuel.
Proof.
  destruct n as [|n]; [done|]. cbn [execute]. unfold run_step.
  assert (exists inst w w', enter (H := roomy) 0 0 None (MkWorld endless_store default_context) = Ret (Enter inst endless_code (endless_frame w)) w') as (inst & w & w' & ->).
  { eexists _, _, _. by vm_compute. }
  apply endless_loop.
Qed.

Lemma endless_instantiation n : interpreter_instantiate (H := roomy) (H0 := canonical_nan) n endless_module host_funcs memory_pages_limit = inst_crash out_of_fuel.
Proof.
  assert (make_instance (H := roomy) endless_module [] [] [] [] memory_pages_limit (w_store nothing) = Ret 0%nat endless_store) as Hmake by (by vm_compute).
  assert (startfunc endless_module = Some 0) as Hst by (by vm_compute).
  unfold interpreter_instantiate, FizzyApi.fizzy_resolve_instantiate. cbv zeta.
  rewrite (bind_Ret _ _ _ [] (w_store nothing)) by (by vm_compute). rewrite (bind_Ret _ _ _ [] (w_store nothing)) by (by vm_compute). cbn [ret].
  unfold instantiate. change (unwrap_tables None) with (@nil ExternalTable). change (unwrap_memories None) with (@nil ExternalMemory).
  rewrite Hmake, Hst. replace (0 <? _) with true by (by vm_compute). unfold execute_plain. cbn [w_store]. by rewrite endless_start.
Qed.

(** The three programs on the node: the start function that calls the host
    takes it down, the one that does not return hangs it however long one waits,
    and so does the [_start] with a parameter take it down. *)
Example start_sections_run :
  (forall n, ending (run_binary (10 + n) start_section_binary) = inl null_dereference) /\
  (forall n, ending (run_binary n endless_binary) = inl endless) /\
  (forall n, ending (run_binary n parameter_binary) = inl null_dereference).
Proof.
  split; [|split].
  - intros n. by vm_compute.
  - intros n. unfold run_binary. destruct (parse endless_binary) as [m rest| |] eqn:E; [|by vm_compute in E..].
    assert (m = endless_module) as -> by (unfold endless_module; by rewrite E). unfold start, instantiate_module. cbn [ProgramContext.fizzy_resolve_instantiate interpreter].
    unfold noexcept, bind at 1. rewrite endless_instantiation. done.
  - intros n. by vm_compute.
Qed.

(** The context [virtual_machine::run] makes. *)
Definition fresh_context {S} (s : S) : program_context S := ProgramContext s None 0 None (vm_error virtual_machine_errc.ok).

(** The functions that are called without a pointer. *)
Definition no_pointer (fn : host_function) : bool := match fn with fn_fd_close | fn_proc_exit => true | _ => false end.

Lemma host_call_fresh {S} (hapi : host_api S) fn args s :
  host_call hapi fn args (fresh_context s) = if no_pointer fn then Fault null_dereference else Ret trap (fresh_context s).
Proof. by destruct fn. Qed.

(** C40. The start section of a module runs while [program_context] has neither an
    instance nor a context. Whatever the module, the host and its state: when the
    first host function its start function calls is [fd_close] or [proc_exit], the
    node dereferences the null context; the other ten find no memory and answer
    with a trap. *)
Theorem start_section_takes_node_down {S} (hapi : host_api S) `{Allocator} `{NanPattern} start_fuel m fn args k (s : S) :
  interpreter_instantiate start_fuel m host_funcs memory_pages_limit = inst_call fn args k ->
  (no_pointer fn = true -> start hapi (H := interpreter start_fuel) m (fresh_context s) = Fault null_dereference) /\
  (no_pointer fn = false -> instantiate_module hapi (H := interpreter start_fuel) m (fresh_context s) = run_instantiation hapi (k trap) (fresh_context s)).
Proof.
  intros Hi. unfold start, instantiate_module. cbn [ProgramContext.fizzy_resolve_instantiate interpreter]. rewrite Hi. cbn [run_instantiation].
  split; intros Hn; [unfold noexcept, bind at 1 2|unfold bind]; by rewrite host_call_fresh, Hn.
Qed.

(** What instantiation comes to first. *)
Definition first_call (i : instantiation) : option (host_function * list Z) := match i with inst_call fn args _ => Some (fn, args) | _ => None end.

Definition start_section_module : Module_ := match parse start_section_binary with Ret m _ => m | _ => empty_module end.

Lemma start_section_takes_node_down_witness :
  exists args k, interpreter_instantiate (H := roomy) (H0 := canonical_nan) 10 start_section_module host_funcs memory_pages_limit = inst_call fn_fd_close args k /\
    start (controller_host_api plain_system no_ticks any_ticks) (H := interpreter (H := roomy) (H0 := canonical_nan) 10) start_section_module
      (fresh_context (SystemInterface.Plain [] [] [])) = Fault null_dereference.
Proof.
  destruct (interpreter_instantiate (H := roomy) (H0 := canonical_nan) 10 start_section_module host_funcs memory_pages_limit) as [|i|fn args k|f] eqn:E;
    pose proof (f_equal first_call E) as Hf; vm_compute in Hf; try discriminate Hf.
  injection Hf as <- _. exists args, k. split; [reflexivity|].
  exact (proj1 (start_section_takes_node_down (controller_host_api plain_system no_ticks any_ticks) (H := roomy) (H0 := canonical_nan) 10 start_section_module fn_fd_close args k
    (SystemInterface.Plain [] [] []) E) eq_refl).
Defined.

Definition wild_module : Module_ := match parse wild_binary with Ret m _ => m | _ => empty_module end.

Lemma wild_parses : bytes_ok wild_binary /\ zlen wild_binary < 2 ^ 27 /\ parse wild_binary = Ret wild_module [].
Proof. split; [apply bytes_check; by vm_compute|]. by vm_compute. Qed.

Lemma interpreter_keeps_promise_witness :
  startfunc wild_module = None /\ start_takes_nothing wild_module = true /\ imports_only (fun _ => true) wild_module = true /\
  match interpreter_instantiate (H := roomy) (H0 := canonical_nan) 0 wild_module host_funcs memory_pages_limit with
  | inst_null => True
  | inst_made i => guest_memory memory_pages_limit (in_memory i) /\
      forall run ticks, in_start i = Some run -> 0 <= ticks -> execution_fits (fun _ => true) memory_pages_limit (run ticks)
  | _ => False
  end.
Proof.
  assert (startfunc wild_module = None) as H1 by (by vm_compute). assert (start_takes_nothing wild_module = true) as H2 by (by vm_compute).
  assert (imports_only (fun _ => true) wild_module = true) as H3 by (by vm_compute). destruct wild_parses as (Hb & Hl & Hp).
  split; [exact H1|]. split; [exact H2|]. split; [exact H3|].
  exact (interpreter_keeps_promise (H := roomy) (H0 := canonical_nan) (fun _ => true) 0 wild_binary wild_module [] Hb Hl Hp H1 H2 H3).
Defined.
