(* ===== verification/GuestSafety.v ===== *)
(** * Guest programs on the node

    The interpreter of FizzyNode under the host functions of HostApi, over any
    system that respects buffers and whose meter does not rise: the handlers
    keep what the interpreter needs from them, so that a program of any byte
    code stays in its memory, and so does the host on its behalf. NodeSafety
    shows that the execution context is such a system. *)

From stdpp Require Import base list option numbers strings.
From S2P Require Import Prelude Memory Errors Protocol SystemInterface ModuleCache ProgramContext HostApi GuestMemory.
From S2P Require Import FizzyLeb128 FizzyTypes FizzyParser FizzyParserSafety FizzyCertify FizzyNumeric FizzyExecute FizzyInstantiate FizzyInstantiateSafety FizzyApi FizzyNode.

(** ** The values of handlers *)

Section answers.
Context {S : Type} (hapi : host_api S).

(** Whatever a computation answers is a trap or has a value as [v] says. *)
Definition answers {T} (v : bool) (m : M T execution_result) : Prop :=
  forall c r c', m c = Ret r c' -> er_trapped r = true \/ er_has_value r = v.

Lemma answers_bind {T A} v (m : M T A) k : (forall a, answers v (k a)) -> answers v (bind m k).
Proof. intros Hk c r c' (a & c1 & _ & H)%bind_Ret_inv. by apply (Hk a c1 r c'). Qed.

Lemma answers_ret {T} v r : er_trapped r = true \/ er_has_value r = v -> answers (T := T) v (ret r).
Proof. by intros Hr c r' c' [= <- _]. Qed.

Lemma answers_noexcept {T} v (m : M T execution_result) : answers v m -> answers v (noexcept m).
Proof. intros Hm c r c' H. unfold noexcept in H. destruct (m c) eqn:E; [|done|done]. injection H as <- <-. exact (Hm c _ _ E). Qed.

Lemma answers_pointer v p n k : (forall a, answers v (k a)) -> answers v (with_pointer (S := S) p n k).
Proof. intros Hk. unfold with_pointer. apply answers_bind. intros [a|]; [apply Hk|]. apply answers_ret. by left. Qed.

Lemma answers_finish code k : answers true (finish hapi code k).
Proof.
  unfold finish. destruct (ha_halts hapi code); apply answers_bind; intros _; apply answers_ret; [by left|by right].
Qed.

(** Every handler but [proc_exit] has a value. *)
Lemma host_call_answers fn args : answers (negb (length (outputs (type_of fn)) =? 0)%nat) (host_call hapi fn args).
Proof.
  unfold host_call. apply answers_noexcept.
  destruct fn; change (negb _) with true || change (negb _) with false;
    unfold pc_wasi_args_get, pc_wasi_args_sizes_get, pc_wasi_fd_seek, pc_wasi_fd_write, pc_wasi_fd_read, pc_wasi_fd_io, pc_wasi_fd_close,
      pc_wasi_fd_fdstat_get, pc_wasi_proc_exit, pc_get_caller, pc_get_object, pc_put_object, pc_check_authority;
    repeat first [apply answers_finish | apply answers_pointer; intros ? | apply answers_bind; intros ?
                 | apply answers_ret; (by left) || (by right) | case_match].
Qed.
End answers.

(** ** The meter *)

(** What the ticks of the host are worth: [meter s] are left in a state [s]
    with [P]. *)
Class Metered {S} (P : S -> Prop) (get_ticks : M S Z) (use_ticks : Z -> M S error_code) := {
  meter : S -> Z;
  meter_range s : P s -> 0 <= meter s < 2 ^ 63;
  get_ticks_law s : P s -> get_ticks s = Ret (meter s) s;
  use_ticks_law t s : P s -> u64_ok t -> match use_ticks t s with
                      | Ret e s' => P s' /\ meter s' <= meter s /\ (is_error e = false -> meter s' <= meter s - t)
                      | Throw _ s' => P s' /\ meter s' <= meter s
                      | Fault f => lost f = false
                      end
}.

Section meter.
Context {S : Type} (P : S -> Prop) (sys : system_interface S) (get_ticks : M S Z) (use_ticks : Z -> M S error_code)
  `{Mt : !Metered P get_ticks use_ticks}.
Abbreviation hapi := (controller_host_api sys get_ticks use_ticks).

(** [P] stays and nothing raises the meter. *)
Definition spends (s s' : S) : Prop := (P s -> P s') /\ (P s -> meter s' <= meter s).

#[export] Instance spends_preorder : PreOrder spends.
Proof. split; [intros s; split; [done|lia]|]. intros s s' s'' [H1 H2] [H3 H4]. split; [auto|]. intros H. specialize (H2 H). specialize (H4 (H1 H)). lia. Qed.
#[export] Instance spends_stable : Stable P spends.
Proof. intros s s' HP [H _]. auto. Qed.

Context (ticks : Z).

(** A context in the middle of a call with [ticks] left. *)
Definition J (c : program_context S) : Prop :=
  P (pc_host c) /\ meter (pc_host c) <= pc_ticks c < 2 ^ 63 /\ exists x, pc_fizzy_ticks c = Some x /\ 0 <= x <= ticks.
Definition RJ (c c' : program_context S) : Prop := (J c -> J c') /\ spends (pc_host c) (pc_host c').

#[export] Instance RJ_preorder : PreOrder RJ.
Proof.
  split; [intros c; split; [done|reflexivity]|]. intros c c' c'' [H1 H2] [H3 H4]. split; [auto|by etrans].
Qed.
#[export] Instance J_stable : Stable J RJ.
Proof. intros c c' H HR. by apply HR. Qed.

Lemma modify_J f : (forall c, J c -> RJ c (f c)) -> guarded J RJ (modify f).
Proof. intros Hf. by apply guarded_modify. Qed.

Lemma on_memory_J {A} (m : M (S * bytes) A) : guarded (mem_P P) (mem_R spends) m -> guarded J RJ (on_memory m).
Proof.
  intros Hm c Hc. specialize (Hm (pc_host c, default [] (pc_memory c)) (proj1 Hc)). unfold on_memory, zoom.
  assert (forall p : S * bytes, spends (pc_host c) p.1 -> RJ c (ProgramContext p.1 (fmap (fun _ => p.2) (pc_memory c)) (pc_ticks c) (pc_fizzy_ticks c) (pc_error_code c))) as Hr.
  { intros p Hp. split; [|exact Hp]. intros (H0 & (H1 & H2) & H3). destruct Hp as [Hp1 Hp2]. specialize (Hp2 H0). split; [by apply Hp1|]. split; [cbn; lia|exact H3]. }
  destruct (m _); [by apply Hr|by apply Hr|done].
Qed.

Lemma i64_small z : 0 <= z < 2 ^ 63 -> i64 z = z.
Proof. intros Hz. unfold i64. rewrite u64_small by (unfold u64_ok; lia). cbv zeta. by rewrite (proj2 (Z.ltb_lt _ _)) by lia. Qed.

Lemma used_range (c : program_context S) x : 0 <= u64 (pc_ticks c - u64 x).
Proof. apply (wrap_range 64). lia. Qed.

Lemma used_exact a x : 0 <= x <= a -> a < 2 ^ 63 -> u64 (a - u64 x) = a - x.
Proof. intros Hx Ha. rewrite (u64_small x) by (unfold u64_ok; lia). apply u64_small. unfold u64_ok. lia. Qed.

(** The computation in the middle runs after the ticks were paid for; what the
    meter then allows is no more than the program had. *)
Lemma with_meter_J {A} (d : A) (m : M (program_context S) (error_code * A)) : guarded J RJ m -> guarded J RJ (with_meter_ticks_and hapi d m).
Proof using Mt.
  intros Hm c Hc. pose proof Hc as (HP & (H1 & H2) & x & Hx & Hxr). unfold with_meter_ticks_and, used_ticks. rewrite bind_assoc, bind_gets. cbn [id]. rewrite Hx.
  rewrite bind_assoc. cbn [unptr]. rewrite !bind_ret. unfold bind at 1, on_host at 1, zoom at 1. cbn [ha_use_meter_ticks controller_host_api].
  pose proof (use_ticks_law (u64 (pc_ticks c - u64 x)) (pc_host c) HP (u64_range _)) as Hu.
  assert (forall s, P s -> meter s <= meter (pc_host c) -> RJ c (set_host s c)) as Hset.
  { intros s Hs Hms. split; [|by split]. intros _. split; [done|]. split; [cbn; lia|]. by exists x. }
  destruct (use_ticks _ _) as [e s1|e s1|f]; [|destruct Hu; by apply Hset|by intros ->]. destruct Hu as (Hu0 & Hu1 & Hu2).
  destruct (is_error e); [by apply Hset|]. specialize (Hu2 eq_refl). pose proof (proj1 (Hset s1 Hu0 Hu1) Hc) as Hc1. specialize (Hm _ Hc1).
  unfold bind at 1. destruct (m (set_host s1 c)) as [r c2|e2 c2|f]; [|by eapply (transitivity (Hset s1 Hu0 Hu1))|done].
  unfold bind at 1, on_host, zoom. cbn [ha_get_meter_ticks controller_host_api].
  destruct (proj1 Hm Hc1) as [HP2 _]. rewrite (get_ticks_law _ HP2). unfold bind, modify, ret.
  destruct Hm as [_ [_ Hm]]. specialize (Hm Hu0). pose proof (meter_range (pc_host c2) HP2) as Hr. cbn in Hm. split.
  2:{ split; [done|]. intros _. cbn. lia. }
  intros _. split; [done|]. split; [cbn; lia|]. exists (meter (pc_host c2)). cbn. rewrite i64_small by lia. split; [done|]. pose proof (used_range c x) as Hur.
  destruct (Z_le_gt_dec x (pc_ticks c)); [rewrite used_exact in Hu2 by lia|]; lia.
Qed.

Lemma with_meter_ticks_J m : guarded J RJ m -> guarded J RJ (with_meter_ticks hapi m).
Proof using Mt.
  intros Hm. unfold with_meter_ticks. apply guarded_bind; [apply _|apply _| |intros; apply guarded_ret; apply _].
  apply with_meter_J. apply guarded_bind; [apply _|apply _|exact Hm|]. intros. apply guarded_ret; apply _.
Qed.
(** The system spends, too. *)
Class Spending := {
  sp_arguments : guarded P spends (si_arguments sys);
  sp_read fd b : guarded P spends (si_read sys fd b);
  sp_write fd b : guarded P spends (si_write sys fd b);
  sp_get i k : guarded P spends (si_get_object sys i k);
  sp_put i k v : guarded P spends (si_put_object sys i k v);
  sp_authority a : guarded P spends (si_check_authority sys a);
  sp_caller : guarded P spends (si_get_caller sys)
}.
Context `{Sp : !Spending}.
#[local] Hint Resolve sp_arguments sp_read sp_write sp_get sp_put sp_authority sp_caller on_memory_J : guarded.

Abbreviation spending := (guarded (mem_P P) (mem_R spends)).
Lemma load_spends n off : spending (mem_load n off).
Proof. apply mem_load_guarded; apply _. Qed.
Lemma store_spends off b : spending (mem_store off b).
Proof. apply mem_store_guarded; apply _. Qed.
Lemma load_u32_spends off : spending (load_u32 off).
Proof. apply h_load_guarded; apply _. Qed.
Lemma store_u32_spends off z : spending (store_u32 off z).
Proof. apply h_store_guarded; apply _. Qed.
#[local] Hint Resolve load_spends store_spends load_u32_spends store_u32_spends : guarded.

Lemma args_loop_spends argv buf i c args : spending (args_loop argv buf i c args).
Proof. apply args_loop_guarded; apply _. Qed.
Lemma add_sizes_spends p args : spending (add_sizes p args).
Proof. apply add_sizes_guarded; apply _. Qed.
Lemma fd_write_spends fd iovs n : spending (h_wasi_fd_write sys fd iovs n).
Proof using Sp. induction iovs; cbn; guarded_auto. Qed.
Lemma read_loop_spends fd iovs n : spending (read_loop sys fd iovs n).
Proof using Sp. induction iovs; cbn; guarded_auto. Qed.
Lemma copy_out_spends v p n : spending (copy_out v p n).
Proof. apply copy_out_guarded; apply _. Qed.
#[local] Hint Resolve args_loop_spends add_sizes_spends fd_write_spends read_loop_spends copy_out_spends : guarded.

Lemma iovs_loop_J base n : guarded J RJ (iovs_loop base n).
Proof. revert base; induction n; intros base; simpl; guarded_auto. Qed.
Lemma add_offsets_J argv o n : guarded J RJ (add_offsets argv o n).
Proof. induction n; simpl; guarded_auto. Qed.
#[local] Hint Resolve iovs_loop_J add_offsets_J : guarded.

Lemma set_error_J e : guarded J RJ (modify (set_error_code e)).
Proof. apply modify_J. intros c Hc. split; [done|]. by split. Qed.

Lemma finish_J code m : guarded J RJ m -> guarded J RJ (finish hapi code m).
Proof. intros Hm. unfold finish. guarded_auto. apply set_error_J. Qed.

Lemma host_call_J fn args : guarded J RJ (host_call hapi fn args).
Proof using Sp Mt.
  unfold host_call. apply guarded_noexcept.
  destruct fn; unfold pc_wasi_args_get, pc_wasi_args_sizes_get, pc_wasi_fd_seek, pc_wasi_fd_write, pc_wasi_fd_read, pc_wasi_fd_io, make_iovs,
    pc_wasi_fd_close, pc_wasi_fd_fdstat_get, pc_wasi_proc_exit, pc_get_caller, pc_get_object, pc_put_object, pc_check_authority, with_pointer;
    repeat first [apply finish_J | apply with_meter_ticks_J | apply with_meter_J | apply set_error_J | progress guarded_auto | apply on_memory_J];
    cbn; unfold h_wasi_args_get, h_wasi_args_sizes_get, h_wasi_fd_seek, h_wasi_fd_read, h_wasi_fd_close,
      h_wasi_fd_fdstat_get, h_wasi_proc_exit, h_get_caller, h_get_object, h_put_object, h_check_authority; guarded_auto.
Qed.
End meter.

(** ** Programs stay in their memory *)

(** The host functions that check what they touch. *)
Definition bounded_function (fn : host_function) : bool :=
  match fn with fn_args_get | fn_fd_read | fn_fd_write => false | _ => true end.

Section guest.
Context (bad : fault) (Hbad : lost bad = true) {S : Type} (P : S -> Prop).
Context (sys : system_interface S) (get_ticks : M S Z) (use_ticks : Z -> M S error_code).
Context `{Bs : !BoundedSystem bad P sys} `{Mt : !Metered P get_ticks use_ticks} `{Sp : !Spending P sys get_ticks use_ticks}.
Context `{Allocator} `{NanPattern} (start_fuel : nat).
Abbreviation hapi := (controller_host_api sys get_ticks use_ticks).

(** The ticks that were paid for cover the meter. *)
Definition covered (s : S) (t : Z) : Prop := P s /\ meter s <= t < 2 ^ 63.

Lemma get_ticks_stays : stays bad P get_ticks.
Proof. intros s Hs. unfold wp_but. by rewrite (get_ticks_law s Hs). Qed.

Lemma use_ticks_stays t : u64_ok t -> stays bad P (use_ticks t).
Proof using Mt Hbad.
  intros Ht s Hs. unfold wp_but. pose proof (use_ticks_law t s Hs Ht) as H1. destruct (use_ticks t s); [by destruct H1..|]. intros ->. by rewrite Hbad in H1.
Qed.

Lemma controller_handlers_fit : handlers_fit hapi bounded_function bad P covered.
Proof using Bs Mt Sp Hbad.
  intros fn args ticks m c Hall Hlen Hpos Ht Hm Hinv.
  assert (J P get_ticks use_ticks ticks (set_machine ticks m c)) as HJ.
  { destruct Hinv as [HP Hc]. split; [exact HP|]. split; [exact Hc|]. exists ticks. cbn. split; [done|lia]. }
  pose proof (host_call_J P sys get_ticks use_ticks ticks fn args _ HJ) as Hj.
  assert (call_ok fn args) as Hcall by (by destruct fn). assert (GuestMemory.memory_ok (set_machine ticks m c)) as Hmem by (intros b Hb; by apply Hm).
  pose proof (host_call_safe bad Hbad P sys get_ticks use_ticks get_ticks_stays use_ticks_stays fn args _ (proj1 HJ) Hcall Hmem) as Hs.
  pose proof (host_call_answers hapi fn args (set_machine ticks m c)) as Ha. unfold wp_but in *.
  destruct (host_call _ _ _ _) as [r c'|e c'|f]; [|done|exact Hs]. split; [exact Hs|]. destruct (proj1 Hj HJ) as (HP' & Hc & x & Hx & Hxr). exists x. split; [done|].
  intros Htr. split; [|split; [exact HP'|exact Hc]]. split; [done|]. split; [|done]. destruct (Ha r c' eq_refl) as [?|?]; [congruence|done].
Qed.

(** A module that imports only functions that check what they touch and that has
    neither a start section nor a [_start] with parameters. *)
Record tame (m : Module_) : Prop := {
  tm_valid : validated m;
  tm_start_section : startfunc m = None;
  tm_start : start_takes_nothing m = true;
  tm_imports : imports_only bounded_function m = true
}.

(** Whatever the module is and whatever pointers it passes to the host, running
    it never reads or writes outside its memory, on the side of the interpreter
    or of the host, and ends. *)
Lemma tame_start_safe m c : tame m -> P (pc_host c) -> start hapi (H := interpreter start_fuel) m c <> Fault bad.
Proof using Bs Mt Sp Hbad.
  intros [Hv Hst Hnone Himp] HP.
  assert (match bad with terminate _ => False | _ => True end) as Hb by (by destruct bad).
  pose proof (start_avoids hapi bounded_function bad P covered (fun s t => @proj1 _ _) controller_handlers_fit Hb start_fuel) as Ha.
  assert (wp_but bad (fun _ => True) (start hapi (H := interpreter start_fuel) m) (fun _ _ => True) c) as Hw.
  { apply Ha; [| |done..].
    - intros s Hs. cbn. unfold wp_but. rewrite (get_ticks_law s Hs). pose proof (meter_range s Hs). split; [rewrite i64_small; lia|]. unfold covered. split; [done|lia].
    - intros t s Ht Hs. cbn. eapply wp_mono; [..|by apply use_ticks_stays]; done. }
  unfold wp_but in Hw. destruct (start _ _ c); [done|done|congruence].
Qed.
End guest.
