(* ===== verification/ExecutionContext.v ===== *)
(** * The execution context

    [controller/execution_context.{hpp,cpp}], [program_stack.{hpp,cpp}] and
    [controller/state.{hpp,cpp}]: applying blocks and transactions to a state
    node, running programs on a bounded stack, and the system interface those
    programs call. *)

From stdpp Require Import base gmap list option numbers strings.
From S2P Require Import Prelude OrdMap Memory Errors Crypto Protocol Backend StateDelta StateNode.
From S2P Require Import ResourceMeter SystemInterface Coin ModuleCache ProgramContext HostApi.

(** ** [controller/state.cpp] *)

Definition system_space (id : Z) : object_space :=
  ObjectSpace true (zero_bytes object_space_padding_size) (zero_bytes address_size) id.
Definition space_metadata : object_space := system_space 0.
Definition space_program_data : object_space := system_space 1.
Definition space_transaction_nonce : object_space := system_space 2.

Definition genesis_key `{Blake3} : bytes := hash (str_bytes "object_key::genesis_key").

Record head_info := HeadInfo {
  hi_id : digest;
  hi_height : Z;
  hi_previous : digest;
  hi_last_irreversible_block : Z;
  hi_state_merkle_root : digest;
  hi_time : Z
}.

(** ** The program stack *)

Record stack_frame := Frame {
  fr_program_id : account;
  fr_arguments : list bytes;
  fr_stdin : bytes;
  fr_stdout : bytes;
  fr_stderr : bytes;
  fr_stdin_offset : nat
}.

Definition default_stack_limit : nat := 32.

(** ** Costs and limits *)

(** Every constant of [compute_cost] is one. *)
Definition compute_cost : Z := 1.

Definition default_account_resources : Z := 1000000000.

(** [execution_context::resource_limits] *)
Definition default_limits : resource_limits := ResourceLimits 409600 10 1048576 5 100000000 1.

Inductive tolerance := relaxed | strict.
Inductive intent := read_only | block_application | transaction_application | block_proposal.

#[export] Instance tolerance_eq_dec : EqDecision tolerance.
Proof. solve_decision. Defined.
#[export] Instance intent_eq_dec : EqDecision intent.
Proof. solve_decision. Defined.
#[export] Instance error_category_eq_dec : EqDecision error_category.
Proof. solve_decision. Defined.

(** A [state_node_ptr]: a permanent or a temporary node. *)
Record state_node := Node { node_permanent : bool; node_ptr : ptr }.

Section context.
Context `{B3 : Blake3} `{Sig : Signatures} `{Fz : Fizzy}.

(** The state of an [execution_context], with the database it works on and
    the cache of its virtual machine. [_block] and [_operation] are never
    read. *)
Record context := Context_ {
  cx_store : store;
  cx_node : option state_node;
  cx_stack : list stack_frame;
  cx_meter : metering;
  cx_intent : intent;
  cx_transaction : option transaction;
  cx_verified : list account;
  cx_cache : module_cache fizzy_module
}.

Definition set_cstore (st : store) (c : context) : context :=
  Context_ st (cx_node c) (cx_stack c) (cx_meter c) (cx_intent c) (cx_transaction c) (cx_verified c) (cx_cache c).
Definition set_node (n : option state_node) (c : context) : context :=
  Context_ (cx_store c) n (cx_stack c) (cx_meter c) (cx_intent c) (cx_transaction c) (cx_verified c) (cx_cache c).
Definition set_stack (s : list stack_frame) (c : context) : context :=
  Context_ (cx_store c) (cx_node c) s (cx_meter c) (cx_intent c) (cx_transaction c) (cx_verified c) (cx_cache c).
Definition set_meter (m : metering) (c : context) : context :=
  Context_ (cx_store c) (cx_node c) (cx_stack c) m (cx_intent c) (cx_transaction c) (cx_verified c) (cx_cache c).
Definition set_transaction (t : option transaction) (c : context) : context :=
  Context_ (cx_store c) (cx_node c) (cx_stack c) (cx_meter c) (cx_intent c) t (cx_verified c) (cx_cache c).
Definition set_verified (v : list account) (c : context) : context :=
  Context_ (cx_store c) (cx_node c) (cx_stack c) (cx_meter c) (cx_intent c) (cx_transaction c) v (cx_cache c).
Definition set_cache (m : module_cache fizzy_module) (c : context) : context :=
  Context_ (cx_store c) (cx_node c) (cx_stack c) (cx_meter c) (cx_intent c) (cx_transaction c) (cx_verified c) m.

Definition new_context (st : store) (cache : module_cache fizzy_module) (i : intent) : context :=
  Context_ st None [] new_metering i None [] cache.

Definition on_cstore {A} (m : M store A) : M context A := zoom cx_store set_cstore m.
Definition on_meter {A} (m : M metering A) : M context A := zoom cx_meter set_meter m.

(** [assert( _state_node )] and the use of it. *)
Definition the_node : M context state_node :=
  let* n := gets cx_node in
  match n with Some n => ret n | None => fail assertion_failed end.

(** [program_stack::push_frame], [peek_frame], [pop_frame]; the top frame is
    the head of the list. *)
Definition push_frame (f : stack_frame) : M context error_code :=
  let* s := gets cx_stack in
  if (default_stack_limit <=? length s)%nat then ret (controller_error controller_errc.stack_overflow)
  else modify (set_stack (f :: s)) ;;; ret ok_code.
Definition peek_frame : M context stack_frame :=
  let* s := gets cx_stack in
  match s with f :: _ => ret f | [] => throw (runtime_error "stack is empty") end.
Definition set_top (f : stack_frame) : M context unit :=
  modify (fun c => set_stack (f :: tail (cx_stack c)) c).
(** [frame_guard::~frame_guard] *)
Definition pop_frame (c : context) : context := set_stack (tail (cx_stack c)) c.

Definition use_compute : M context unit := on_meter (use_compute_bandwidth compute_cost) ;;; ret tt.

(** ** The system interface *)

Definition ctx_arguments : M context (list bytes) :=
  let* s := gets cx_stack in
  if (length s =? 0)%nat then throw (runtime_error "stack is empty")
  else use_compute ;;; let* f := peek_frame in ret (fr_arguments f).

Definition ctx_write (fd : file_descriptor) (buffer : bytes) : M context error_code :=
  use_compute ;;;
  if fd =? fd_stdout then
    let* f := peek_frame in
    set_top (Frame (fr_program_id f) (fr_arguments f) (fr_stdin f) (fr_stdout f ++ buffer) (fr_stderr f)
               (fr_stdin_offset f)) ;;; ret ok_code
  else if fd =? fd_stderr then
    let* f := peek_frame in
    set_top (Frame (fr_program_id f) (fr_arguments f) (fr_stdin f) (fr_stdout f) (fr_stderr f ++ buffer)
               (fr_stdin_offset f)) ;;; ret ok_code
  else ret (controller_error controller_errc.bad_file_descriptor).

Definition ctx_read (fd : file_descriptor) (buffer : bytes) : M context (error_code * bytes) :=
  use_compute ;;;
  if fd =? fd_stdin then
    let* f := peek_frame in
    let len := Nat.min (length buffer) (length (fr_stdin f) - fr_stdin_offset f) in
    let data := take len (drop (fr_stdin_offset f) (fr_stdin f)) in
    set_top (Frame (fr_program_id f) (fr_arguments f) (fr_stdin f) (fr_stdout f) (fr_stderr f)
               (fr_stdin_offset f + len)) ;;;
    ret (ok_code, data ++ drop len buffer)
  else ret (controller_error controller_errc.bad_file_descriptor, buffer).

(** The object whose representation is [b]. *)
Definition space_of_bytes (b : bytes) : object_space :=
  ObjectSpace (negb (default 0 (head b) =? 0)) (take 3 (drop 1 b)) (take 32 (drop 4 b))
    (le_val (take 4 (drop 36 b))).

(** [create_object_space]: the whole account, 33 bytes, is copied to the
    32-byte address, which starts at offset 4 of the object. *)
Definition create_object_space (id : Z) : M context object_space :=
  let space := ObjectSpace false (zero_bytes object_space_padding_size) (zero_bytes address_size) id in
  let* f := peek_frame in
  match splice 4 (fr_program_id f) (space_bytes space) with
  | Some b => ret (space_of_bytes b)
  | None => fail out_of_bounds
  end.

Definition ctx_get_object (id : Z) (key : bytes) : M context bytes :=
  let* n := the_node in
  use_compute ;;;
  let* space := create_object_space id in
  let* r := on_cstore (sn_get (node_ptr n) space key) in
  ret (default [] r).

Definition ctx_get_next_object (id : Z) (key : bytes) : M context (bytes * bytes) :=
  let* n := the_node in
  use_compute ;;;
  let* space := create_object_space id in
  let* r := on_cstore (sn_next (node_ptr n) space key) in
  ret (default ([], []) r).

Definition ctx_get_prev_object (id : Z) (key : bytes) : M context (bytes * bytes) :=
  let* n := the_node in
  use_compute ;;;
  let* space := create_object_space id in
  let* r := on_cstore (sn_previous (node_ptr n) space key) in
  ret (default ([], []) r).

(** The size is converted to [std::uint64_t] for the meter. *)
Definition ctx_put_object (id : Z) (key value : bytes) : M context error_code :=
  let* n := the_node in
  use_compute ;;;
  let* space := create_object_space id in
  let* size := on_cstore (sn_put (node_ptr n) space key value) in
  on_meter (use_disk_storage (u64 size)).

Definition ctx_remove_object (id : Z) (key : bytes) : M context error_code :=
  let* n := the_node in
  use_compute ;;;
  let* space := create_object_space id in
  let* size := on_cstore (sn_remove (node_ptr n) space key) in
  on_meter (use_disk_storage (u64 size)).

Definition ctx_get_caller : M context bytes :=
  use_compute ;;;
  let* s := gets cx_stack in
  if (length s =? 1)%nat then ret []
  else let* f := peek_frame in ret (fr_program_id f).

(** The second loop of [check_authority], from the first authorization that
    was not verified yet. *)
Fixpoint verify_authorizations (t : transaction) (a : account) (auths : list authorization)
  : M context (result bool) :=
  match auths with
  | [] => ret (inl false)
  | auth :: auths =>
      if negb (verify (account_public_key (auth_signer auth)) (auth_signature auth) (tx_id t))
      then ret (inr (controller_error controller_errc.invalid_signature))
      else
        modify (fun c => set_verified (cx_verified c ++ [auth_signer auth]) c) ;;;
        if bytes_eqb a (auth_signer auth) then ret (inl true) else verify_authorizations t a auths
  end.

(** [authorize_instruction] *)
Definition authorize_instruction : Z := 0.

Section system.
(** [run_program], for the programs a program calls. *)
Context (run : tolerance -> account -> bytes -> list bytes -> M context (result program_frame)).

Definition ctx_check_authority (a : account) : M context (result bool) :=
  the_node ;;;
  use_compute ;;;
  let* i := gets cx_intent in
  if bool_decide (i = read_only) then ret (inr (controller_error controller_errc.read_only_context))
  else if account_view_program a then
    try* output := run strict a (le_bytes 4 authorize_instruction) [] in
    match pf_stdout output with
    | [b] => ret (inl (negb (b =? 0)))
    | _ => ret (inr (controller_error controller_errc.unexpected_object))
    end
  else
    let* t := gets cx_transaction in
    match t with
    | None => throw (runtime_error "transaction required for check authority")
    | Some t =>
        let* verified := gets cx_verified in
        if existsb (fun v => bytes_eqb v a) verified then ret (inl true)
        else verify_authorizations t a (drop (length verified) (tx_authorizations t))
    end.

Definition ctx_call_program (a : account) (stdin : bytes) (args : list bytes)
  : M context (result program_output) :=
  use_compute ;;;
  try* f := run relaxed a stdin args in ret (inl (frame_output f)).

Definition ctx_system : system_interface context := {|
  si_arguments := ctx_arguments;
  si_write := ctx_write;
  si_read := ctx_read;
  si_get_object := ctx_get_object;
  si_get_next_object := ctx_get_next_object;
  si_get_prev_object := ctx_get_prev_object;
  si_put_object := ctx_put_object;
  si_remove_object := ctx_remove_object;
  si_check_authority := ctx_check_authority;
  si_get_caller := ctx_get_caller;
  si_call_program := ctx_call_program
|}.

(** [get_meter_ticks], [use_meter_ticks] (its parameter is an
    [std::uint64_t]); a division by zero is undefined. *)
Definition ctx_get_meter_ticks : M context Z :=
  let* m := gets cx_meter in unptr (remaining_compute_bandwidth m).
Definition ctx_use_meter_ticks (ticks : Z) : M context error_code :=
  on_meter (use_compute_bandwidth (u64 ticks)).

(** The contents of the uninitialised locals of [coin::run]. *)
Context (uninit1 uninit2 : bytes).

(** [program_registry] holds the coin program alone. *)
Definition execute_native_program (a : account) : M context error_code :=
  noexcept
    (if bytes_eqb a (system_program (str_bytes "coin")) then
       let* f := peek_frame in coin_run ctx_system uninit1 uninit2 (fr_arguments f)
     else ret (controller_error controller_errc.invalid_program)).

Definition execute_user_program (a : account) : M context error_code :=
  noexcept
    (let* n := gets cx_node in
     let* n := unptr n in
     let* data := on_cstore (sn_get (node_ptr n) space_program_data a) in
     match data with
     | None => ret (controller_error controller_errc.invalid_program)
     | Some data =>
         assert_that (Z.of_nat digest_length <=? zlen data) ;;;
         vm_run (controller_host_api ctx_system ctx_get_meter_ticks ctx_use_meter_ticks)
           cx_cache set_cache (drop digest_length data) (take digest_length data)
     end).
End system.

Context (uninit1 uninit2 : bytes).

(** The frame [run_program] returns and records. *)
Definition finish_program (a : account) (stdin : bytes) (args : list bytes) (code : error_code)
  : M context (result program_frame) :=
  let* s := gets cx_stack in
  let* f := peek_frame in
  let frame := ProgramFrame args stdin (ec_value code) (fr_stdout f) (fr_stderr f) a (zlen s) in
  set_top (Frame (fr_program_id f) (fr_arguments f) (fr_stdin f) [] [] (fr_stdin_offset f)) ;;;
  on_meter (modify (record_frame frame)) ;;;
  ret (inl frame).

(** [run_program]. Every nested run is one frame deeper and the stack holds at
    most [default_stack_limit] frames, so a fuel of one more than the free
    frames is never used up. *)
Fixpoint run_program (fuel : nat) (t : tolerance) (a : account) (stdin : bytes) (args : list bytes)
  : M context (result program_frame) :=
  match fuel with
  | O => fail out_of_fuel
  | S fuel =>
      the_node ;;;
      check* push_frame (Frame a args stdin [] [] 0) in
      finally
        (let run := run_program fuel in
         let after (category : error_category) (code : error_code) : M context (result program_frame) :=
           if bool_decide (t = relaxed) && is_error code && negb (bool_decide (ec_category code = category))
           then ret (inr code)
           else if bool_decide (t = strict) && is_error code then ret (inr code)
           else finish_program a stdin args code in
         match account_get_type a with
         | program => let* code := execute_user_program run a in after vm_program_category code
         | native_program =>
             let* code := execute_native_program run uninit1 uninit2 a in after program_category code
         | _ => ret (inr (controller_error controller_errc.invalid_program))
         end) pop_frame
  end.

Definition program_fuel : nat := S default_stack_limit.
Definition run (t : tolerance) (a : account) (stdin : bytes) (args : list bytes) : M context (result program_frame) :=
  run_program program_fuel t a stdin args.
Definition check_authority (a : account) : M context (result bool) := ctx_check_authority run a.

(** ** Accounts *)

Definition account_resources (a : account) : Z := default_account_resources.
Definition consume_account_resources (a : account) (resources : Z) : M context error_code := ret ok_code.

Definition account_nonce (a : account) : M context Z :=
  let* n := the_node in
  let* nonce_bytes := on_cstore (sn_get (node_ptr n) space_transaction_nonce a) in
  match nonce_bytes with Some b => bit_cast 8 b | None => ret 0 end.

Definition set_account_nonce (a : account) (nonce : Z) : M context error_code :=
  let* n := the_node in
  let* size := on_cstore (sn_put (node_ptr n) space_transaction_nonce a (le_bytes 8 nonce)) in
  on_meter (use_disk_storage (u64 size)).

Definition network_id : digest := hash (str_bytes "respublica").

(** [execution_context::head]; the two fields it does not name keep their
    default, zero. *)
Definition ctx_head : M context head_info :=
  let* n := the_node in
  if node_permanent n then
    let* id := on_cstore (sn_id (node_ptr n)) in
    let* height := on_cstore (sn_revision (node_ptr n)) in
    let* previous := on_cstore (sn_parent_id (node_ptr n)) in
    let* root := on_cstore (sd_get_merkle_root (node_ptr n)) in
    ret (HeadInfo id height previous 0 root 0)
  else throw (runtime_error "head state node unexpectedly temporary").

(** ** Operations *)

Definition authorized_or_error (m : M context (result bool)) (k : M context error_code) : M context error_code :=
  let* r := m in
  match r with
  | inl true => k
  | inl false => ret (controller_error controller_errc.authorization_failure)
  | inr e => ret e
  end.

Definition apply_upload_program (id : account) (bytecode : bytes) : M context error_code :=
  let* n := gets cx_node in
  let* n := unptr n in
  let* existing := on_cstore (sn_get (node_ptr n) space_program_data id) in
  authorized_or_error
    (match existing with
     | Some _ => check_authority id
     | None => check_authority (user_account id)
     end)
    (on_cstore (sn_put (node_ptr n) space_program_data id (hash bytecode ++ bytecode)) ;;; ret ok_code).

Definition apply_call_program (id : account) (input : program_input) : M context error_code :=
  let* r := run strict id (stdin input) (arguments input) in
  match r with inl _ => ret ok_code | inr e => ret e end.

Definition apply_operation (o : operation) : M context error_code :=
  match o with
  | upload_program id bytecode => apply_upload_program id bytecode
  | call_program id input => apply_call_program id input
  end.

Fixpoint apply_operations (os : list operation) : M context error_code :=
  match os with
  | [] => ret ok_code
  | o :: os => checkc* apply_operation o in apply_operations os
  end.

(** ** Transactions *)

(** The operations on a temporary child of the block's node, squashed into it
    when all of them succeed. *)
Definition apply_in_child (block_node : state_node) (os : list operation) : M context error_code :=
  let* child := on_cstore (sn_make_child (node_ptr block_node)) in
  modify (set_node (Some (Node false child))) ;;;
  checkc* apply_operations os in
  (on_cstore (tn_squash (Some child)) ;;; ret ok_code).

(** An account must be authorized: the shape of the two checks. *)
Definition require_authority {A} (a : account) (k : M context (result A)) : M context (result A) :=
  try* authorized := check_authority a in
  if (authorized : bool) then k else ret (inr (controller_error controller_errc.authorization_failure)).

Definition nonzero (a : account) : bool := existsb (fun b => negb (b =? 0)) a.

(** [execution_context::apply( const transaction& )] after the nonce check. *)
Definition execute_transaction (t : transaction) (initial : resource_state)
  : M context (result transaction_receipt) :=
  check* on_meter (use_network_bandwidth (u64 (transaction_size t))) in
  (let* block_node := the_node in
   let* error := apply_in_child block_node (tx_operations t) in
   modify (set_node (Some block_node)) ;;;
   let* m := gets cx_meter in
   let* s := unptr (mt_session m) in
   let used := session_used s in
   let remaining := mt_remaining m in
   let frames := mt_frames m in
   on_meter (modify (fun m => set_session None (set_frames [] m))) ;;;
   check* consume_account_resources (tx_payer t) used in
   ret (inl (TransactionReceipt (tx_id t) (is_error error) (tx_payer t) (tx_payee t) frames
               (tx_resource_limit t) used
               (u64 (disk_storage initial - disk_storage remaining))
               (u64 (network_bandwidth initial - network_bandwidth remaining))
               (u64 (compute_bandwidth initial - compute_bandwidth remaining))))).

(** The account whose nonce a transaction uses. *)
Definition nonce_account (t : transaction) : account :=
  if nonzero (tx_payee t) then tx_payee t else tx_payer t.

(** The checks of a transaction, in order. *)
Definition check_transaction (t : transaction) (initial : resource_state)
  : M context (result transaction_receipt) :=
  if account_resources (tx_payer t) <? tx_resource_limit t
  then ret (inr (controller_error controller_errc.insufficient_resources))
  else
    require_authority (tx_payer t)
      ((if nonzero (tx_payee t) then require_authority (tx_payee t) else fun k => k)
        (let* nonce := account_nonce (nonce_account t) in
         if negb (u64 (nonce + 1) =? tx_nonce t)
         then ret (inr (controller_error controller_errc.invalid_nonce))
         else
           check* set_account_nonce (nonce_account t) (tx_nonce t) in
           execute_transaction t initial)).

(** [execution_context::apply( const transaction& )]. [payer_session] dies
    with the call, and the weak pointers to it expire. *)
Definition close_session (c : context) : context := set_meter (set_session None (cx_meter c)) c.

Definition apply_transaction (t : transaction) : M context (result transaction_receipt) :=
  the_node ;;;
  modify (set_transaction (Some t)) ;;;
  modify (set_verified []) ;;;
  let* m := gets cx_meter in
  let initial := mt_remaining m in
  on_meter (modify (set_session (Some (new_session (tx_resource_limit t))))) ;;;
  finally (check_transaction t initial) close_session.

(** ** Blocks *)

Fixpoint apply_transactions (ts : list transaction) : M context (result (list transaction_receipt)) :=
  match ts with
  | [] => ret (inl [])
  | t :: ts =>
      try* r := apply_transaction t in
      try* rs := apply_transactions ts in
      ret (inl (r :: rs))
  end.

(** [execution_context::apply( const block& )]; the receipt's merkle root is
    filled in by the controller. *)
Definition apply_block (b : block) : M context (result block_receipt) :=
  let* n := the_node in
  on_meter (modify (set_resource_limits default_limits)) ;;;
  let* m := gets cx_meter in
  let start := mt_remaining m in
  let* key := on_cstore (sn_get (node_ptr n) space_metadata genesis_key) in
  match key with
  | None => throw (runtime_error "genesis address not found")
  | Some key =>
      if negb (bytes_eqb key (account_public_key (b_signer b)))
      then ret (inr (controller_error controller_errc.invalid_signature))
      else
        try* receipts := apply_transactions (b_transactions b) in
        let* m := gets cx_meter in
        let used := mt_remaining m in
        let disk := u64 (disk_storage start - disk_storage used) in
        let network := u64 (network_bandwidth start - network_bandwidth used) in
        let compute := u64 (compute_bandwidth start - compute_bandwidth used) in
        on_meter (modify (set_frames [])) ;;;
        ret (inl (BlockReceipt (b_id b) (b_height b) (mt_frames m) disk network compute zero_digest receipts
                    disk network compute))
  end.
End context.
