(* ===== verification/Samples.v ===== *)
(** * Sample configurations

    Concrete instances of what the program calls (a signature scheme, a
    WebAssembly interpreter) and concrete states to evaluate the definitions
    on: a genesis node with a block node above it, accounts, transactions. *)

From stdpp Require Import base gmap list option numbers strings.
From S2P Require Import Prelude OrdMap Memory Errors Crypto Protocol Backend StateDelta StateNode.
From S2P Require Import ResourceMeter ModuleCache ProgramContext ExecutionContext.

(** A signature is the key and the message. *)
Lemma toy_correct (sk d : bytes) : bytes_eqb (sk ++ d) (sk ++ d) = true.
Proof. apply bytes_eqb_refl. Qed.

Definition toy_signatures : Signatures :=
  Build_Signatures bytes id (fun sk d => sk ++ d) (fun pk s d => bytes_eqb s (pk ++ d)) toy_correct.

(** A module is its first byte. [1] writes the object under the key [[0]] with
    the value [[0; 0]], [2] traps, [3] calls [proc_exit( 3 )]; every other one
    ends at once. *)
Definition toy_start (code ticks : Z) : execution :=
  if code =? 1 then
    exec_call fn_put_object [0; 0; 1; 0; 2] (ticks - 7) (Some (zero_bytes 16))
      (fun r t m => exec_end (er_trapped r) t m)
  else if code =? 2 then exec_end true ticks None
  else if code =? 3 then
    exec_call fn_proc_exit [3] (ticks - 1) (Some (zero_bytes 16)) (fun r t m => exec_end true t m)
  else exec_end false ticks None.

Definition toy_fizzy : Fizzy :=
  Build_Fizzy Z (fun b => inr (match b with [] => None | c :: _ => Some c end))
    (fun code _ _ => inst_made (Instance (Some (zero_bytes 16)) (Some (toy_start code)))).

#[global] Existing Instances toy_hash toy_signatures toy_fizzy | 100.

Definition alice_key : bytes := 7 :: zero_bytes 31.
Definition alice : account := user_account_of_key alice_key.
Definition alice_program : account := program_account_of_key alice_key.
Definition no_account : account := zero_bytes account_length.

Definition signed (nonce : Z) (os : list operation) : transaction :=
  let id := u8 nonce :: zero_bytes 31 in
  Transaction id network_id 1000000 alice no_account nonce os [Authorization alice (alice_key ++ id)].

Definition coin_call (ins : Z) (input : bytes) : operation :=
  call_program (system_program (str_bytes "coin")) (ProgramInput [] (le_bytes 4 ins ++ input)).

(** Mints fifty coins for alice; the second transaction then fails. *)
Definition mint_transaction : transaction := signed 1 [coin_call 7 (alice ++ le_bytes 8 50)].
Definition failing_transaction : transaction :=
  signed 1 [coin_call 7 (alice ++ le_bytes 8 50); coin_call 99 []].

Definition sample_root : state_delta :=
  Delta None (Some (set_map [(make_compound_key space_metadata genesis_key, alice_key)] (new_backend null_id 0))) [] None true.
Definition sample_child : state_delta :=
  Delta (Some 0%nat) (Some (new_backend (1 :: zero_bytes 31) 1)) [] None false.
Definition sample_store : store := Store 2 (<[1%nat := sample_child]> (<[0%nat := sample_root]> ∅)).
Definition sample_node : state_node := Node true 1.

Lemma sample_store_wf : store_wf sample_store.
Proof. apply store_check_wf. by vm_compute. Qed.
Lemma sample_live : live sample_store 1.
Proof. eapply live_child; [reflexivity..|]. by eapply live_root. Qed.

Definition sample_context : context :=
  set_meter (set_resource_limits default_limits new_metering)
    (set_node (Some sample_node) (new_context sample_store (new_cache 32) block_application)).

(** The result of a computation, and the objects a node shows after it. *)
Definition result_of {S A} (o : outcome S A) : option A := match o with Ret a _ => Some a | _ => None end.
Definition state_of {S A} (o : outcome S A) (s : S) : S := match o with Ret _ s | Throw _ s => s | Fault _ => s end.
