(* ===== verification/ExecutionSafety.v ===== *)
(** * What running programs can do

    Proofs about the execution context: program runs terminate on the bounded
    stack, leave the stack as they found it, write only objects of their own
    spaces in the current state node and pay for what they use. *)

From stdpp Require Import base gmap list option numbers strings.
From S2P Require Import Prelude OrdMap Memory Errors Crypto Protocol Backend StateDelta StateNode.
From S2P Require Import ResourceMeter SystemInterface Coin ModuleCache ProgramContext HostApi.
From S2P Require Import ExecutionContext Samples.

(** ** Writing in one node

    [writes prot p st st']: from a well-formed store with [p] live, only the
    delta [p] has changed, and not even that when it is final, the tree has not
    changed, and the objects under the keys [prot] read as before in [p]. *)

Definition writes (prot : bytes -> Prop) (p : ptr) (st st' : store) : Prop :=
  store_wf st -> live st p ->
  store_wf st' /\ same_shape st st' /\ (forall r, live st r -> live st' r) /\
  (forall r, r <> p -> st_deltas st' !! r = st_deltas st !! r) /\
  (forall d, st_deltas st !! p = Some d -> sd_final d = true -> st_deltas st' !! p = Some d) /\
  (forall k, prot k -> view_of st' p k = view_of st p k).

#[export] Instance writes_preorder prot p : PreOrder (writes prot p).
Proof.
  split.
  - intros st Hwf Hl. split; [done|]. split; [reflexivity|]. done.
  - intros a b c Hab Hbc Hwf Hl. destruct (Hab Hwf Hl) as (Hwf1 & Hs1 & Hl1 & Ho1 & Hf1 & Hv1).
    destruct (Hbc Hwf1 (Hl1 p Hl)) as (Hwf2 & Hs2 & Hl2 & Ho2 & Hf2 & Hv2).
    split; [done|]. split; [by etrans|]. split; [by auto|]. split; [|split].
    + intros r Hr. by rewrite Ho2, Ho1.
    + by auto.
    + intros k Hk. by rewrite Hv2, Hv1.
Qed.

Lemma writes_weaken (prot prot' : bytes -> Prop) p st st' :
  (forall k, prot' k -> prot k) -> writes prot p st st' -> writes prot' p st st'.
Proof.
  intros Hp H Hwf Hl. destruct (H Hwf Hl) as (H1 & H2 & H3 & H4 & H5 & H6). eauto 10.
Qed.

Definition node_ok (p : ptr) (st : store) : Prop := store_wf st /\ live st p.

#[export] Instance node_ok_stable prot p : Stable (node_ok p) (writes prot p).
Proof. intros st st' [Hwf Hl] Hw. destruct (Hw Hwf Hl) as (H1 & _ & H3 & _). split; auto. Qed.

Section store_ops.
Context (prot : bytes -> Prop) (p : ptr).

Lemma sd_get_guarded k : guarded (node_ok p) (writes prot p) (sd_get p k).
Proof. intros st [Hwf Hl]. rewrite sd_get_ok by done. reflexivity. Qed.

Lemma sd_put_guarded k v : ~ prot k -> guarded (node_ok p) (writes prot p) (sd_put p k v).
Proof.
  intros Hk st [Hwf Hl]. destruct (live_lookup st p Hl) as (d & b & Hp & Hb).
  destruct (sd_final d) eqn:Hf.
  { unfold sd_put. rewrite (bind_Ret _ _ _ _ _ (deref_eq _ _ _ Hp)), Hf. cbn. reflexivity. }
  destruct (sd_put_view st p d k v Hwf Hl Hp Hf) as (n & st' & Hput & Hwf' & Hsh & Hlv & Hv & _).
  pose proof Hput as Hput'. rewrite (sd_put_eq st p d b k v) in Hput' by done. injection Hput' as _ Hst.
  rewrite Hput. intros _ _. split; [done|]. split; [done|]. split; [done|]. split; [|split; [congruence|]].
  - intros r Hr. rewrite <- Hst. by apply store_set_lookup_ne.
  - intros x Hx. rewrite Hv. case_bool; bool_to_prop; [by subst|done].
Qed.

Lemma sd_remove_guarded k : k <> [] -> ~ prot k -> guarded (node_ok p) (writes prot p) (sd_remove p k).
Proof.
  intros Hne Hk st [Hwf Hl]. destruct (live_lookup st p Hl) as (d & b & Hp & Hb).
  destruct (sd_final d) eqn:Hf.
  { unfold sd_remove. rewrite (bind_Ret _ _ _ _ _ (deref_eq _ _ _ Hp)), Hf. cbn. reflexivity. }
  destruct (sd_remove_view st p d b k) as (n & st' & Hrm & Hwf' & Hsh & Hlv & Hv & _); [done..|].
  pose proof (sd_remove_eq st p d b k Hwf Hl Hp Hb Hf) as Heq.
  destruct (backend_remove k b) as [size b'] eqn:E. cbv zeta in Heq.
  rewrite Hrm in Heq. injection Heq as _ Hst.
  rewrite Hrm. intros _ _. split; [done|]. split; [done|]. split; [done|]. split; [|split; [congruence|]].
  - intros r Hr. rewrite Hst. by apply store_set_lookup_ne.
  - intros x Hx. rewrite Hv. case_bool; bool_to_prop; [by subst|done].
Qed.
End store_ops.

(** Keys of system spaces start with the byte one. *)
Definition system_key (k : bytes) : Prop := head k = Some 1.

Lemma compound_system s k : head (make_compound_key s k) = Some (if os_system s then 1 else 0).
Proof. done. Qed.

Lemma compound_not_nil s k : make_compound_key s k <> [].
Proof. done. Qed.

(** ** Inside one frame *)

Definition stack_kept (l l' : list stack_frame) : Prop :=
  match l, l' with
  | [], [] => True
  | f :: t, f' :: t' => t' = t /\ fr_program_id f' = fr_program_id f
  | _, _ => False
  end.

#[export] Instance stack_kept_preorder : PreOrder stack_kept.
Proof.
  split; [by intros [|f t]|]. intros [|f t] [|f' t'] [|f'' t'']; simpl; try done.
  intros [-> ->] [-> ->]. done.
Qed.

Lemma stack_kept_length l l' : stack_kept l l' -> length l' = length l.
Proof. destruct l, l'; simpl; try done. by intros [-> _]. Qed.

Section safety.
Context `{B3 : Blake3} `{Sig : Signatures} `{Fz : Fizzy}.

(** What a program may do to its context: write unprotected objects of the
    current node, change its own frame, use the meter and the cache. *)
Record inside (prot : bytes -> Prop) (c c' : context) : Prop := {
  in_node : cx_node c' = cx_node c;
  in_intent : cx_intent c' = cx_intent c;
  in_transaction : cx_transaction c' = cx_transaction c;
  in_stack : stack_kept (cx_stack c) (cx_stack c');
  in_meter : metered (cx_meter c) (cx_meter c');
  in_unpaid : unpaid (cx_meter c) (cx_meter c');
  in_store : forall n, cx_node c = Some n -> writes prot (node_ptr n) (cx_store c) (cx_store c')
}.

#[export] Instance inside_preorder prot : PreOrder (inside prot).
Proof.
  split.
  - intros c. constructor; try done; reflexivity.
  - intros a b c [H1 H2 H3 H4 H5 H5' H6] [G1 G2 G3 G4 G5 G5' G6]. constructor; try congruence.
    + by etrans.
    + by etrans.
    + by etrans.
    + intros n Hn. etrans; [by apply H6|]. apply G6. congruence.
Qed.

Lemma inside_weaken (prot prot' : bytes -> Prop) c c' :
  (forall k, prot' k -> prot k) -> inside prot c c' -> inside prot' c c'.
Proof.
  intros Hp [H1 H2 H3 H4 H5 H5' H6]. constructor; try done. intros n Hn. eapply writes_weaken; eauto.
Qed.

(** One system call does not reach the cache of modules; running a program
    does. *)
Definition quiet (prot : bytes -> Prop) (c c' : context) : Prop := inside prot c c' /\ cx_cache c' = cx_cache c.

#[export] Instance quiet_preorder prot : PreOrder (quiet prot).
Proof. split; [intros c; split; [reflexivity|done]|]. intros a b c [? ?] [? ?]. split; [by etrans|congruence]. Qed.

#[export] Instance quiet_stable (P : context -> Prop) prot `{HS : !Stable P (inside prot)} : Stable P (quiet prot).
Proof. intros c c' Hc [Hi _]. by eapply HS. Qed.

Record ready (c : context) : Prop := {
  rd_store : store_wf (cx_store c);
  rd_node : exists n, cx_node c = Some n /\ live (cx_store c) (node_ptr n);
  rd_stack : (length (cx_stack c) <= default_stack_limit)%nat
}.

(** [fuel] covers the free frames of the stack. *)
Definition fueled (fuel : nat) (c : context) : Prop :=
  ready c /\ (program_fuel <= fuel + length (cx_stack c))%nat.

Lemma ready_inside prot c c' : ready c -> inside prot c c' -> ready c'.
Proof.
  intros [Hwf (n & Hn & Hl) Hs] Hi. destruct (in_store _ _ _ Hi n Hn Hwf Hl) as (Hwf' & _ & Hl' & _).
  constructor; [done| |].
  - exists n. rewrite (in_node _ _ _ Hi). auto.
  - by rewrite (stack_kept_length _ _ (in_stack _ _ _ Hi)).
Qed.

#[export] Instance ready_stable prot : Stable ready (inside prot).
Proof. intros c c'. apply ready_inside. Qed.
#[export] Instance fueled_stable prot fuel : Stable (fueled fuel) (inside prot).
Proof.
  intros c c' [Hr Hf] Hi. split; [by eapply ready_inside|].
  by rewrite (stack_kept_length _ _ (in_stack _ _ _ Hi)).
Qed.

Section ops.
Context (prot : bytes -> Prop) (P : context -> Prop) `{!Stable P (quiet prot)}
  (P_ready : forall c, P c -> ready c).
(** No space that can be made for the running program holds a protected key. *)
Context (prot_space : forall c id sp k, P c -> create_object_space id c = Ret sp c -> ~ prot (make_compound_key sp k)).

Lemma quiet_meter c m : charged (cx_meter c) m -> quiet prot c (set_meter m c).
Proof using Type. intros [Hm Hu]. split; [|done]. constructor; try done; reflexivity. Qed.

Lemma on_meter_guarded {A} (m : M metering A) :
  guarded (fun _ => True) charged m -> guarded P (quiet prot) (on_meter m).
Proof using Type.
  intros Hm. apply (guarded_zoom P (quiet prot) (fun _ => True) charged); [done| |done].
  intros c m' _ Hm'. by apply quiet_meter.
Qed.

Lemma use_compute_ctx_guarded : guarded P (quiet prot) use_compute.
Proof using Stable0.
  unfold use_compute. apply guarded_bind; [apply _|apply _| |intros; guarded_auto].
  apply on_meter_guarded, use_compute_charged. unfold u64_ok, compute_cost. lia.
Qed.

Lemma peek_guarded : guarded P (quiet prot) peek_frame.
Proof using Stable0. unfold peek_frame. guarded_auto. Qed.
Lemma the_node_guarded : guarded P (quiet prot) the_node.
Proof using Stable0. unfold the_node. guarded_auto. Qed.
#[local] Hint Resolve use_compute_ctx_guarded peek_guarded the_node_guarded : guarded.

(** [peek_frame] and then a change of the top frame that keeps its
    program. *)
Lemma with_top_guarded {A} (g : stack_frame -> stack_frame) (h : stack_frame -> A) :
  (forall f, fr_program_id (g f) = fr_program_id f) ->
  guarded P (quiet prot) (let* f := peek_frame in set_top (g f) ;;; ret (h f)).
Proof using Type.
  intros Hg c Hc. unfold peek_frame, bind at 2, gets, bind at 1.
  destruct (cx_stack c) as [|f t] eqn:E; cbn; [reflexivity|]. rewrite E. cbn.
  split; [|done]. constructor; try done; cbn; rewrite ?E; cbn; [auto|reflexivity..].
Qed.

Lemma write_guarded fd b : guarded P (quiet prot) (ctx_write fd b).
Proof using Stable0.
  unfold ctx_write. apply guarded_bind; [apply _|apply _|auto with guarded|]. intros _.
  destruct (fd =? fd_stdout).
  { apply (with_top_guarded (fun f => Frame _ _ _ (fr_stdout f ++ b) _ _) (fun _ => ok_code)). done. }
  destruct (fd =? fd_stderr); [|guarded_auto].
  apply (with_top_guarded (fun f => Frame _ _ _ _ (fr_stderr f ++ b) _) (fun _ => ok_code)). done.
Qed.

Lemma read_guarded fd b : guarded P (quiet prot) (ctx_read fd b).
Proof using Stable0.
  unfold ctx_read. apply guarded_bind; [apply _|apply _|auto with guarded|]. intros _.
  destruct (fd =? fd_stdin); [|guarded_auto]. cbv zeta.
  apply (with_top_guarded (fun f => Frame _ _ _ _ _ (fr_stdin_offset f + Nat.min (length b) (length (fr_stdin f) - fr_stdin_offset f)))
    (fun f => (ok_code, take (Nat.min (length b) (length (fr_stdin f) - fr_stdin_offset f))
       (drop (fr_stdin_offset f) (fr_stdin f)) ++ drop (Nat.min (length b) (length (fr_stdin f) - fr_stdin_offset f)) b))).
  done.
Qed.

Lemma arguments_guarded : guarded P (quiet prot) ctx_arguments.
Proof using Stable0. unfold ctx_arguments. guarded_auto. Qed.
Lemma get_caller_guarded : guarded P (quiet prot) ctx_get_caller.
Proof using Stable0. unfold ctx_get_caller. guarded_auto. Qed.

(** The spaces of programs are not system spaces, and making one has no
    effect. *)
Lemma create_object_space_cases id c :
  (exists sp, create_object_space id c = Ret sp c /\ os_system sp = false) \/
  (exists e, create_object_space id c = Throw e c) \/ create_object_space id c = Fault out_of_bounds.
Proof using Type.
  unfold create_object_space, peek_frame. cbv zeta. rewrite bind_assoc, bind_gets.
  destruct (cx_stack c) as [|f t]; [right; left; by eexists|]. rewrite bind_ret.
  destruct (splice 4 (fr_program_id f) _) as [b|] eqn:E; [left|by right; right].
  exists (space_of_bytes b). split; [done|]. unfold splice in E.
  destruct (_ <=? _)%nat in E; [|done]. injection E as <-. done.
Qed.

(** A store operation on the current node under a key of the running
    program's space. *)
Lemma node_op_guarded {A B} id (op : ptr -> object_space -> M store A) (k : A -> M context B) :
  (forall p sp, (forall k, ~ prot (make_compound_key sp k)) -> guarded (node_ok p) (writes prot p) (op p sp)) ->
  (forall a, guarded P (quiet prot) (k a)) ->
  guarded P (quiet prot)
    (let* n := the_node in
     use_compute ;;;
     let* space := create_object_space id in
     let* r := on_cstore (op (node_ptr n) space) in k r).
Proof using Stable0 P_ready prot_space.
  intros Hop Hk c Hc. unfold the_node, bind at 2, gets, bind at 1.
  destruct (rd_node _ (P_ready c Hc)) as (n & Hn & Hl). rewrite Hn. unfold ret at 1.
  revert c Hc Hn Hl. cut (guarded (fun c => P c /\ cx_node c = Some n) (quiet prot)
    (use_compute ;;; let* space := create_object_space id in
     let* r := on_cstore (op (node_ptr n) space) in k r)); [intros H c ? ? ?; by apply H|].
  assert (Stable (fun c => P c /\ cx_node c = Some n) (quiet prot)) as HS.
  { intros c c' [HP Hn] Hi. split; [by eapply stable|]. by rewrite (in_node _ _ _ (proj1 Hi)). }
  apply guarded_bind; [apply _|apply _|intros c [Hc _]; by apply use_compute_ctx_guarded|]. intros _ c [Hc Hn].
  unfold bind at 1.
  destruct (create_object_space_cases id c) as [(sp & E & Hsp)|[[e E]|E]]; rewrite E; [|reflexivity|done].
  destruct (rd_node _ (P_ready c Hc)) as (n' & Hn' & Hl). assert (n' = n) as -> by congruence.
  pose proof (Hop (node_ptr n) sp (fun k => prot_space c id sp k Hc E) (cx_store c) (conj (rd_store _ (P_ready c Hc)) Hl)) as Ho.
  assert (forall st, writes prot (node_ptr n) (cx_store c) st -> quiet prot c (set_cstore st c)) as Hin.
  { intros st Hw. split; [|done]. constructor; try done; try reflexivity. intros n0 Hn0. by simplify_eq. }
  unfold bind, on_cstore, zoom. destruct (op _ sp _) as [a st|e st|f]; [|by apply Hin|done].
  specialize (Hin st Ho). specialize (Hk a (set_cstore st c) (stable _ _ Hc Hin)).
  destruct (k a _); [by etrans|by etrans|done].
Qed.

Lemma get_object_guarded id k : guarded P (quiet prot) (ctx_get_object id k).
Proof using Stable0 P_ready prot_space.
  apply (node_op_guarded id (fun p sp => sn_get p sp k)); [|intros; guarded_auto].
  intros p sp _. apply sd_get_guarded.
Qed.
Lemma get_next_guarded id k : guarded P (quiet prot) (ctx_get_next_object id k).
Proof using Stable0 P_ready prot_space.
  apply (node_op_guarded id (fun p sp => sn_next p sp k)); intros; unfold sn_next; guarded_auto.
Qed.
Lemma get_prev_guarded id k : guarded P (quiet prot) (ctx_get_prev_object id k).
Proof using Stable0 P_ready prot_space.
  apply (node_op_guarded id (fun p sp => sn_previous p sp k)); intros; unfold sn_previous; guarded_auto.
Qed.
Lemma put_object_guarded id k v : guarded P (quiet prot) (ctx_put_object id k v).
Proof using Stable0 P_ready prot_space.
  apply (node_op_guarded id (fun p sp => sn_put p sp k v)).
  - intros p sp Hs. by apply sd_put_guarded.
  - intros n. by apply on_meter_guarded, use_disk_charged.
Qed.
Lemma remove_object_guarded id k : guarded P (quiet prot) (ctx_remove_object id k).
Proof using Stable0 P_ready prot_space.
  apply (node_op_guarded id (fun p sp => sn_remove p sp k)).
  - intros p sp Hs. by apply sd_remove_guarded; [apply compound_not_nil|].
  - intros n. by apply on_meter_guarded, use_disk_charged.
Qed.

Lemma verify_guarded t a auths : guarded P (quiet prot) (verify_authorizations t a auths).
Proof using Stable0.
  induction auths; simpl; guarded_auto. apply guarded_modify.
  intros c _. split; [|done]. constructor; try done; reflexivity.
Qed.

(** The programs that are run for the running one may do more: [R]. *)
Context (R : context -> context -> Prop) `{!PreOrder R} `{!Stable P R} (quiet_R : forall c c', P c -> quiet prot c c' -> R c c').
Context (run : tolerance -> account -> bytes -> list bytes -> M context (result program_frame))
  (run_guarded : forall t a b l, bytes_ok b -> guarded P R (run t a b l)).

Lemma guarded_quiet {A} (m : M context A) : guarded P (quiet prot) m -> guarded P R m.
Proof using quiet_R. intros Hm c Hc. specialize (Hm c Hc). destruct (m c); [by apply quiet_R..|done]. Qed.

Lemma check_authority_guarded a : guarded P R (ctx_check_authority run a).
Proof using Stable0 PreOrder0 Stable1 quiet_R run_guarded.
  unfold ctx_check_authority. pose proof (fun t a l => guarded_quiet _ (verify_guarded t a l)). pose proof (guarded_quiet _ the_node_guarded).
  pose proof (guarded_quiet _ use_compute_ctx_guarded). pose proof (le_bytes_ok 4 authorize_instruction). guarded_auto.
Qed.

Lemma get_ticks_guarded : guarded P (quiet prot) ctx_get_meter_ticks.
Proof using Stable0. unfold ctx_get_meter_ticks. guarded_auto. Qed.
Lemma use_ticks_guarded n : guarded P (quiet prot) (ctx_use_meter_ticks n).
Proof using Type. by apply on_meter_guarded, use_compute_charged. Qed.

Lemma execute_native_guarded u1 u2 a : guarded P R (execute_native_program run u1 u2 a).
Proof using All.
  unfold execute_native_program. pose proof (guarded_quiet _ peek_guarded). guarded_auto. apply coin_run_guarded; try apply _; simpl; intros.
  - apply guarded_quiet, read_guarded.
  - apply guarded_quiet, write_guarded.
  - apply guarded_quiet, get_object_guarded.
  - apply guarded_quiet, put_object_guarded.
  - apply check_authority_guarded.
  - apply guarded_quiet, get_caller_guarded.
Qed.

Lemma node_read_guarded (n : state_node) k :
  guarded (fun c => P c /\ cx_node c = Some n) (quiet prot) (on_cstore (sd_get (node_ptr n) k)).
Proof using P_ready.
  intros c [Hc Hn]. destruct (rd_node _ (P_ready c Hc)) as (n' & Hn' & Hl). assert (n' = n) as -> by congruence.
  unfold on_cstore, zoom. rewrite sd_get_ok; [|apply (rd_store _ (P_ready c Hc))|done].
  destruct c. cbn. reflexivity.
Qed.

Context (cache_R : forall c x, P c -> R c (set_cache x c)).

Lemma execute_user_guarded a : guarded P R (execute_user_program run a).
Proof using All.
  unfold execute_user_program. apply guarded_noexcept. intros c Hc.
  destruct (rd_node _ (P_ready c Hc)) as (n & Hn & Hl). unfold bind at 1, gets. rewrite Hn. cbn [unptr].
  rewrite bind_ret. pose proof (node_read_guarded n (make_compound_key space_program_data a) c (conj Hc Hn)) as Hg.
  unfold bind at 1. unfold sn_get. destruct (on_cstore _ c) as [data c1| |]; [|by apply quiet_R|done].
  apply (quiet_R _ _ Hc) in Hg. assert (P c1) as Hc1 by (by eapply stable).
  cut (guarded P R (match data with
    | Some data => assert_that (Z.of_nat digest_length <=? zlen data) ;;;
        vm_run (controller_host_api (ctx_system run) ctx_get_meter_ticks ctx_use_meter_ticks)
          cx_cache set_cache (drop digest_length data) (take digest_length data)
    | None => ret (controller_error controller_errc.invalid_program) end)).
  { intros Hk. specialize (Hk c1 Hc1). destruct data; cbv beta in *;
      match goal with |- match ?o with _ => _ end => destruct o end; try done; by etrans. }
  guarded_auto. apply host_vm_run_guarded; try apply _; simpl; intros.
  - apply guarded_quiet, arguments_guarded.
  - apply guarded_quiet, read_guarded.
  - apply guarded_quiet, write_guarded.
  - apply guarded_quiet, get_object_guarded.
  - apply guarded_quiet, put_object_guarded.
  - apply check_authority_guarded.
  - apply guarded_quiet, get_caller_guarded.
  - apply guarded_quiet, get_ticks_guarded.
  - apply guarded_quiet, use_ticks_guarded.
  - by apply cache_R.
Qed.
End ops.

(** ** Program runs *)

Context (uninit1 uninit2 : bytes).
Abbreviation run_program := (run_program uninit1 uninit2).

(** What [run_program] does inside the frame it has pushed. *)
Definition run_after (t : tolerance) (a : account) (stdin : bytes) (args : list bytes) (category : error_category) (code : error_code)
  : M context (result program_frame) :=
  if bool_decide (t = relaxed) && is_error code && negb (bool_decide (ec_category code = category)) then ret (inr code)
  else if bool_decide (t = strict) && is_error code then ret (inr code)
  else finish_program a stdin args code.
Definition run_body (fuel : nat) (t : tolerance) (a : account) (stdin : bytes) (args : list bytes) : M context (result program_frame) :=
  match account_get_type a with
  | program => let* code := execute_user_program (run_program fuel) a in run_after t a stdin args vm_program_category code
  | native_program =>
      let* code := execute_native_program (run_program fuel) uninit1 uninit2 a in run_after t a stdin args program_category code
  | _ => ret (inr (controller_error controller_errc.invalid_program))
  end.

Lemma fueled_0 c : ~ fueled 0 c.
Proof. intros [Hr Hf]. pose proof (rd_stack _ Hr). unfold program_fuel in Hf. lia. Qed.

Lemma run_program_cases fuel t a b l c :
  fueled (S fuel) c ->
  run_program (S fuel) t a b l c = Ret (inr (controller_error controller_errc.stack_overflow)) c \/
  fueled fuel (set_stack (Frame a l b [] [] 0 :: cx_stack c) c) /\
  run_program (S fuel) t a b l c = finally (run_body fuel t a b l) pop_frame (set_stack (Frame a l b [] [] 0 :: cx_stack c) c).
Proof.
  intros [Hr Hf]. cbn [ExecutionContext.run_program]. destruct (rd_node _ Hr) as (n & Hn & Hl).
  unfold the_node. rewrite bind_assoc, bind_gets, Hn, bind_ret. unfold push_frame. rewrite bind_assoc, bind_gets.
  destruct (default_stack_limit <=? length (cx_stack c))%nat eqn:Elim; [left; by rewrite bind_ret|right].
  apply Nat.leb_gt in Elim. rewrite bind_assoc, bind_modify, bind_ret. split; [|done].
  split; [|cbn; lia]. destruct Hr as [Hwf _ _]. constructor; [done|by exists n|cbn; lia].
Qed.

Section run.
Context (prot : bytes -> Prop) (prot_system : forall k, prot k -> system_key k).

Lemma finish_program_guarded (P : context -> Prop) `{!Stable P (quiet prot)} a b l e :
  guarded P (quiet prot) (finish_program a b l e).
Proof using Type.
  unfold finish_program. apply guarded_bind; [apply _|apply _|guarded_auto|]. intros st.
  intros c Hc. unfold peek_frame. rewrite bind_assoc, bind_gets.
  destruct (cx_stack c) as [|f t] eqn:E; [simpl; reflexivity|]. rewrite bind_ret. cbv zeta.
  unfold set_top. rewrite bind_modify. unfold bind, on_meter, zoom, modify, ret.
  split; [|done]. constructor; try done; cbn; rewrite ?E; cbn; [auto|apply record_frame_charged..].
Qed.

(** A run of a program: it never runs out of fuel, the stack is what it was,
    and the context has changed as a program may change it. *)
Definition returns (c c' : context) : Prop := inside prot c c' /\ cx_stack c' = cx_stack c.

Lemma pop_inside c f c2 :
  inside prot (set_stack (f :: cx_stack c) c) c2 ->
  returns c (pop_frame c2).
Proof using Type.
  intros [H1 H2 H3 H4 H5 H5' H6]. cbn in *. destruct (cx_stack c2) as [|f' t] eqn:E; [done|].
  destruct H4 as [-> _]. assert (cx_stack (pop_frame c2) = cx_stack c) as Hs by (cbn; by rewrite E).
  split; [|done]. constructor; try done. rewrite Hs. reflexivity.
Qed.

(** The spaces of programs are not system spaces. *)
Lemma space_unprotected (P : context -> Prop) c id sp k : P c -> create_object_space id c = Ret sp c -> ~ prot (make_compound_key sp k).
Proof using prot_system.
  intros _ E Hp. apply prot_system in Hp. unfold system_key in Hp. rewrite compound_system in Hp.
  destruct (create_object_space_cases id c) as [(sp' & E' & Hsp)|[[e E']|E']]; rewrite E in E'; [|done..].
  injection E' as <-. by rewrite Hsp in Hp.
Qed.

Lemma run_program_guarded fuel t a b l :
  guarded (fueled fuel) returns (run_program fuel t a b l).
Proof using B3 prot_system.
  revert t a b l. induction fuel as [|fuel IH]; intros t a b l c Hc; [by destruct (fueled_0 c)|].
  destruct (run_program_cases fuel t a b l c Hc) as [->|[Hc1 ->]]; [split; [reflexivity|done]|].
  cut (guarded (fueled fuel) (inside prot) (run_body fuel t a b l)).
  { intros H. specialize (H _ Hc1). unfold finally.
    destruct (run_body _ _ _ _ _ _) as [r c2|e c2|f]; [by eapply pop_inside|by eapply pop_inside|done]. }
  assert (forall t a b l, guarded (fueled fuel) (inside prot) (run_program fuel t a b l)) as IH'.
  { intros t' a' b' l' c' Hc'. specialize (IH t' a' b' l' c' Hc').
    destruct (run_program fuel t' a' b' l' c'); [by destruct IH..|done]. }
  assert (forall e, guarded (fueled fuel) (inside prot) (finish_program a b l e)) as Hfin.
  { intros e c2 Hc2. pose proof (finish_program_guarded (fueled fuel) a b l e c2 Hc2) as H. destruct (finish_program _ _ _ _ _); [by destruct H..|done]. }
  unfold run_body, run_after. destruct (account_get_type a); guarded_auto.
  - eapply (execute_user_guarded prot); [apply _|by intros ? []|apply space_unprotected|apply _..|by intros ? ? ? []|done|].
    intros c2 x _. constructor; try done; reflexivity.
  - eapply (execute_native_guarded prot); [apply _|by intros ? []|apply space_unprotected|apply _..|by intros ? ? ? []|done].
Qed.

Lemma ready_fueled c : ready c -> fueled program_fuel c.
Proof using Type. intros Hr. split; [done|lia]. Qed.

Lemma run_guarded t a b l : guarded ready returns (run uninit1 uninit2 t a b l).
Proof using B3 prot_system.
  intros c Hc. exact (run_program_guarded program_fuel t a b l c (ready_fueled c Hc)).
Qed.

Lemma run_inside t a b l : guarded ready (inside prot) (run uninit1 uninit2 t a b l).
Proof using B3 prot_system.
  intros c Hc. pose proof (run_guarded t a b l c Hc) as H.
  destruct (run uninit1 uninit2 t a b l c); [by destruct H..|done].
Qed.

Lemma check_authority_inside a : guarded ready (inside prot) (check_authority uninit1 uninit2 a).
Proof using B3 prot_system.
  eapply (check_authority_guarded prot); [apply _..|by intros ? ? ? []|]. intros. by apply run_inside.
Qed.
End run.

(** C17. What a run of a program on a ready context leaves, whichever interpreter
    runs it: when it returns, with or without an error, or throws, the context
    is ready again, the stack is exactly the caller's, the current node is the
    same, the meter and the session agree, and every object of a system space
    (programs, nonces, metadata) reads as before. Otherwise the C++ program has
    faulted; the nesting of programs is bounded by the stack, so that the run
    does not stop for lack of the model's fuel. (The interpreter may not come
    back, from the start section of a module, which is the fault [endless];
    NodeSafety says when it does.) *)
Theorem run_program_safe t a b l c :
  ready c ->
  match run uninit1 uninit2 t a b l c with
  | Ret _ c' | Throw _ c' =>
      ready c' /\ cx_stack c' = cx_stack c /\ cx_node c' = cx_node c /\
      metered (cx_meter c) (cx_meter c') /\
      (forall n k, cx_node c = Some n -> system_key k ->
         view_of (cx_store c') (node_ptr n) k = view_of (cx_store c) (node_ptr n) k)
  | Fault f => f <> out_of_fuel
  end.
Proof.
  intros Hc. pose proof (run_guarded system_key (fun _ H => H) t a b l c Hc) as H.
  assert (forall c', returns system_key c c' -> ready c' /\ cx_stack c' = cx_stack c /\ cx_node c' = cx_node c /\
      metered (cx_meter c) (cx_meter c') /\
      (forall n k, cx_node c = Some n -> system_key k ->
         view_of (cx_store c') (node_ptr n) k = view_of (cx_store c) (node_ptr n) k)) as Hall.
  { intros c' [Hi Hs]. split; [by eapply ready_inside|]. split; [done|]. split; [apply Hi|]. split; [apply Hi|].
    intros n k Hn Hk. destruct (rd_node _ Hc) as (n' & Hn' & Hl). assert (n' = n) as -> by congruence.
    by apply (in_store _ _ _ Hi n Hn (rd_store _ Hc) Hl). }
  destruct (run uninit1 uninit2 t a b l c); auto.
Qed.

Lemma run_program_full fuel t a b l c :
  ready c -> length (cx_stack c) = default_stack_limit ->
  run_program (S fuel) t a b l c = Ret (inr (controller_error controller_errc.stack_overflow)) c.
Proof.
  intros Hr Hlen. cbn [ExecutionContext.run_program].
  destruct (rd_node _ Hr) as (n & Hn & _). unfold the_node. rewrite bind_assoc, bind_gets, Hn, bind_ret.
  unfold push_frame at 1. rewrite bind_assoc, bind_gets, Hlen. rewrite Nat.leb_refl, bind_ret. done.
Qed.

(** On a full stack a program is refused and nothing changes. *)
Theorem run_program_overflow t a b l c :
  ready c -> length (cx_stack c) = default_stack_limit ->
  run uninit1 uninit2 t a b l c = Ret (inr (controller_error controller_errc.stack_overflow)) c.
Proof. exact (run_program_full default_stack_limit t a b l c). Qed.
End safety.

(** ** Evaluated *)

Lemma sample_ready : ready sample_context.
Proof.
  constructor; [exact sample_store_wf| |cbn; unfold default_stack_limit; lia].
  exists sample_node. split; [done|exact sample_live].
Qed.

Lemma run_program_safe_witness :
  ready sample_context /\
  match run [] [] strict (system_program (str_bytes "coin")) (le_bytes 4 1) [] sample_context with
  | Ret _ c' | Throw _ c' => cx_stack c' = [] /\ cx_node c' = Some sample_node
  | Fault f => f <> out_of_fuel
  end.
Proof.
  split; [exact sample_ready|].
  pose proof (run_program_safe [] [] strict (system_program (str_bytes "coin")) (le_bytes 4 1) []
    sample_context sample_ready) as H.
  destruct (run _ _ _ _ _ _ _) as [r c'|e c'|f]; [by destruct H as (_ & H1 & H2 & _)..|exact H].
Defined.

Definition full_context : context :=
  set_stack (replicate default_stack_limit (Frame alice_program [] [] [] [] 0)) sample_context.

Lemma run_program_overflow_witness :
  run [] [] relaxed alice_program [] [] full_context =
  Ret (inr (controller_error controller_errc.stack_overflow)) full_context.
Proof.
  apply (run_program_overflow [] [] relaxed alice_program [] [] full_context); [|reflexivity].
  constructor; [exact sample_store_wf| |cbn; unfold default_stack_limit; lia].
  exists sample_node. split; [done|exact sample_live].
Defined.
