(* ===== verification/Transactions.v ===== *)
(** * Transactions

    What [execution_context::apply] does to the block's state node: the
    operations of a transaction are applied in a child node and reach the
    block's node together or not at all, every applied transaction raises the
    nonce of its account by one, and what it used is what it paid. *)

From stdpp Require Import base gmap list option numbers strings.
From S2P Require Import Prelude OrdMap Memory Errors Crypto Protocol Backend StateDelta StateNode.
From S2P Require Import ResourceMeter SystemInterface Coin ModuleCache ProgramContext HostApi.
From S2P Require Import ExecutionContext Samples ExecutionSafety.

(** The keys of the nonces and of the metadata: no program and no operation
    writes them. *)
Definition nonce_key (a : account) : bytes := make_compound_key space_transaction_nonce a.
Definition is_nonce_key (k : bytes) : Prop := exists a, k = nonce_key a.
Definition is_metadata_key (k : bytes) : Prop := exists x, k = make_compound_key space_metadata x.
Definition protected (k : bytes) : Prop := is_nonce_key k \/ is_metadata_key k.

Lemma protected_system k : protected k -> system_key k.
Proof. by intros [[a ->]|[a ->]]. Qed.

(** Keys of two of the system's spaces differ. *)
Lemma compound_space_ne s s' x y :
  length (space_bytes s) = length (space_bytes s') -> space_bytes s <> space_bytes s' ->
  make_compound_key s x <> make_compound_key s' y.
Proof. intros Hl Hne H. unfold make_compound_key in H. by apply app_inj_1 in H as [H _]. Qed.

Lemma program_data_not_protected a : ~ protected (make_compound_key space_program_data a).
Proof. intros [[x Hx]|[x Hx]]; revert Hx; by apply compound_space_ne. Qed.

Lemma nonce_not_metadata a : ~ is_metadata_key (nonce_key a).
Proof. intros [x Hx]. revert Hx. by apply compound_space_ne. Qed.

(** Changing one delta does not show in nodes that do not descend from it. *)
Lemma view_of_agree st st' c r k :
  (forall x, x <> c -> st_deltas st' !! x = st_deltas st !! x) -> ~ reach st r c ->
  view_of st' r k = view_of st r k.
Proof.
  intros Hag. unfold view_of. generalize (S r) as n. intros n. revert r.
  induction n as [|n IH]; intros r Hn; [done|]. cbn [view].
  rewrite Hag by (intros ->; apply Hn; constructor).
  destruct (st_deltas st !! r) as [d|] eqn:Hr; [|done].
  destruct (sd_backend d ≫= backend_get k); [done|]. destruct (is_removed k d); [done|].
  destruct (sd_parent d) as [q|] eqn:Hq; [|done]. apply IH. by eapply not_reach_parent.
Qed.

(** A store in which the live nodes are still there, with their parents, final
    flags and metadata; nodes may have been added and objects written. *)
Record grown (st st' : store) : Prop := {
  gr_wf : store_wf st';
  gr_live : forall r, live st r -> live st' r;
  gr_shape : forall r, live st r -> shape_of <$> st_deltas st' !! r = shape_of <$> st_deltas st !! r
}.

Lemma grown_refl st : store_wf st -> grown st st.
Proof. by constructor. Qed.

Lemma grown_trans a b c : grown a b -> grown b c -> grown a c.
Proof.
  intros [_ Hl1 Hs1] [Hw Hl2 Hs2]. constructor; [done|by auto|]. intros r Hr. rewrite Hs2, Hs1; auto.
Qed.

Lemma grown_same_shape st st' :
  store_wf st' -> same_shape st st' -> (forall r, live st r -> live st' r) -> grown st st'.
Proof. intros Hw [_ Hs] Hl. by constructor. Qed.

Lemma grown_lookup st st' r d :
  grown st st' -> live st r -> st_deltas st !! r = Some d ->
  exists d', st_deltas st' !! r = Some d' /\ shape_of d' = shape_of d.
Proof.
  intros Hg Hl Hd. pose proof (gr_shape _ _ Hg r Hl) as H. rewrite Hd in H.
  destruct (st_deltas st' !! r) as [d'|]; [|done]. apply (inj Some) in H. eauto.
Qed.

Lemma grown_reach st st' r p : grown st st' -> live st r -> reach st' r p -> reach st r p.
Proof.
  intros Hg Hl Hre. induction Hre as [|r d q p Hr Hq _ IH]; [constructor|].
  destruct (live_lookup _ _ Hl) as (d0 & b & Hd0 & _). destruct (grown_lookup _ _ _ _ Hg Hl Hd0) as (d' & Hd' & Hs).
  assert (d' = d) as -> by congruence. assert (sd_parent d0 = Some q) as Hq0.
  { change (sd_parent d0) with (shape_of d0).1.1. by rewrite <- Hs. }
  eapply reach_step; [done|done|]. apply IH. by eapply live_parent.
Qed.

Section transactions.
Context `{B3 : Blake3} `{Sig : Signatures} `{Fz : Fizzy} (uninit1 uninit2 : bytes).

Abbreviation apply_operation := (apply_operation uninit1 uninit2).
Abbreviation apply_operations := (apply_operations uninit1 uninit2).
Abbreviation apply_in_child := (apply_in_child uninit1 uninit2).
Abbreviation apply_transaction := (apply_transaction uninit1 uninit2).
Abbreviation check_authority := (check_authority uninit1 uninit2).

(** ** Operations *)

Definition ready_at (n : state_node) (c : context) : Prop := ready c /\ cx_node c = Some n.

#[export] Instance ready_at_stable prot n : Stable (ready_at n) (inside prot).
Proof.
  intros c c' [Hr Hn] Hi. split; [by eapply ready_inside|]. by rewrite (in_node _ _ _ Hi).
Qed.

Lemma on_node_guarded {A} prot n (op : M store A) :
  guarded (node_ok (node_ptr n)) (writes prot (node_ptr n)) op ->
  guarded (ready_at n) (inside prot) (on_cstore op).
Proof.
  intros Hop c [Hr Hn]. destruct (rd_node _ Hr) as (n' & Hn' & Hl). assert (n' = n) as -> by congruence.
  specialize (Hop (cx_store c) (conj (rd_store _ Hr) Hl)).
  assert (forall st, writes prot (node_ptr n) (cx_store c) st -> inside prot c (set_cstore st c)) as Hin.
  { intros st Hw. constructor; try done. intros n0 Hn0. by simplify_eq. }
  unfold on_cstore, zoom. destruct (op _); auto.
Qed.

Lemma apply_upload_guarded id code :
  guarded ready (inside protected) (apply_upload_program uninit1 uninit2 id code).
Proof.
  intros c Hc. destruct (rd_node _ Hc) as (n & Hn & _). unfold apply_upload_program.
  rewrite bind_gets, Hn. unfold unptr. rewrite bind_ret.
  assert (forall a, guarded (ready_at n) (inside protected) (check_authority a)) as Ha.
  { intros a c' [Hc' _]. by apply (check_authority_inside uninit1 uninit2 protected protected_system). }
  revert c Hc Hn. cut (guarded (ready_at n) (inside protected) (
    let* existing := on_cstore (sn_get (node_ptr n) space_program_data id) in
    authorized_or_error (match existing with Some _ => check_authority id | None => check_authority (user_account id) end)
      (on_cstore (sn_put (node_ptr n) space_program_data id (hash code ++ code)) ;;; ret ok_code))).
  { intros H c Hr Hn. by apply H. }
  unfold authorized_or_error. guarded_auto.
  - apply on_node_guarded, sd_get_guarded.
  - apply on_node_guarded, sd_put_guarded, program_data_not_protected.
Qed.

Lemma apply_operation_guarded o : guarded ready (inside protected) (apply_operation o).
Proof.
  destruct o as [id code|id input]; [apply apply_upload_guarded|].
  cbn [ExecutionContext.apply_operation]. unfold apply_call_program. guarded_auto.
  apply (run_inside uninit1 uninit2 protected protected_system).
Qed.

Lemma apply_operations_guarded os : guarded ready (inside protected) (apply_operations os).
Proof.
  induction os as [|o os IH]; cbn [ExecutionContext.apply_operations]; [guarded_auto|].
  pose proof (apply_operation_guarded o). guarded_auto.
Qed.

(** ** The child node *)

(** A context at the node [n] of a block that is still open. *)
Record open_block (n : state_node) (c : context) : Prop := {
  ob_ready : ready c;
  ob_node : cx_node c = Some n;
  ob_open : exists d, st_deltas (cx_store c) !! node_ptr n = Some d /\ sd_final d = false
}.

(** The block is still open, the tree has only grown, the nodes beside the
    block's read as before, and so does the metadata of the block's. *)
Record kept (n : state_node) (c c' : context) : Prop := {
  kp_block : open_block n c';
  kp_grown : grown (cx_store c) (cx_store c');
  kp_beside : forall r k, live (cx_store c) r -> ~ reach (cx_store c) r (node_ptr n) ->
    view_of (cx_store c') r k = view_of (cx_store c) r k;
  kp_metadata : forall k, is_metadata_key k ->
    view_of (cx_store c') (node_ptr n) k = view_of (cx_store c) (node_ptr n) k
}.

(** The part of it that an exception leaves, too. *)
Definition beside (n : state_node) (c c' : context) : Prop :=
  grown (cx_store c) (cx_store c') /\
  forall r k, live (cx_store c) r -> ~ reach (cx_store c) r (node_ptr n) ->
    view_of (cx_store c') r k = view_of (cx_store c) r k.

Lemma kept_beside n c c' : kept n c c' -> beside n c c'.
Proof. by intros [_ Hg Hb _]. Qed.

Lemma beside_trans n a b c : beside n a b -> beside n b c -> beside n a c.
Proof.
  intros [Hg1 Hb1] [Hg2 Hb2]. split; [by eapply grown_trans|].
  intros r k Hl Hr. rewrite Hb2, Hb1; [done|done|done|by apply Hg1|]. intros Hre. apply Hr. by eapply grown_reach.
Qed.

Lemma beside_store n a b c : beside n a b -> cx_store c = cx_store b -> beside n a c.
Proof. unfold beside. by intros H ->. Qed.

Lemma kept_trans n a b c : kept n a b -> kept n b c -> kept n a c.
Proof.
  intros H1 H2. destruct (beside_trans n a b c) as [Hg Hb]; [by apply kept_beside..|]. constructor; [apply H2|done|done|].
  intros k Hk. by rewrite (kp_metadata _ _ _ H2), (kp_metadata _ _ _ H1).
Qed.

(** Going on from a state the block's node was kept in. *)
Lemma wp_after {A} n c c1 (m : M context A) (Q Q' : A -> context -> Prop) :
  kept n c c1 -> (forall a c', Q a c' -> Q' a c') -> wp (beside n c1) m Q c1 -> wp (beside n c) m Q' c1.
Proof. intros Hk HQ. apply wp_mono; [done|]. intros c'. apply beside_trans. by apply kept_beside. Qed.

Lemma kept_store n c c' : open_block n c' -> cx_store c' = cx_store c -> kept n c c'.
Proof.
  intros Ho Hs. constructor; [done| |by rewrite Hs..]. rewrite Hs. apply grown_refl. rewrite <- Hs.
  apply (rd_store _ (ob_ready _ _ Ho)).
Qed.

(** What the operations of a transaction may have done to the block's node. *)
Record applied (n : state_node) (c c' : context) : Prop := {
  ap_kept : kept n c (set_node (Some n) c');
  ap_intent : cx_intent c' = cx_intent c;
  ap_transaction : cx_transaction c' = cx_transaction c;
  ap_meter : metered (cx_meter c) (cx_meter c');
  ap_nonce : forall k, is_nonce_key k ->
    view_of (cx_store c') (node_ptr n) k = view_of (cx_store c) (node_ptr n) k
}.

Lemma tn_squash_run st child p d dp :
  store_wf st -> live st child -> st_deltas st !! child = Some d -> sd_parent d = Some p ->
  st_deltas st !! p = Some dp -> sd_final dp = false ->
  exists st', tn_squash (Some child) st = Ret None st' /\ store_wf st' /\ same_shape st st' /\
    (forall r, live st r -> live st' r) /\ (forall x, view_of st' p x = view_of st child x) /\
    (forall r x, ~ reach st r p -> view_of st' r x = view_of st r x).
Proof.
  intros Hwf Hl Hc Hp Hdp Hf.
  destruct (sd_squash_view st child d p Hwf Hl Hc Hp) as (st' & Hs & H).
  exists st'. split; [|exact H]. unfold tn_squash, sd_get_parent, sd_is_final.
  rewrite bind_assoc, (bind_Ret _ _ _ _ _ (deref_eq _ _ _ Hc)), bind_ret, Hp. unfold unptr. rewrite bind_ret.
  rewrite bind_assoc, (bind_Ret _ _ _ _ _ (deref_eq _ _ _ Hdp)), bind_ret, Hf.
  by rewrite (bind_Ret _ _ _ _ _ Hs).
Qed.

(** The context in which the operations run: the child is live, shows what the
    block's node shows, and the store has only grown. *)
Lemma make_child_run n c :
  open_block n c ->
  exists child st1 cd, sn_make_child (node_ptr n) (cx_store c) = Ret child st1 /\
    store_wf st1 /\ live st1 child /\ (forall r, live (cx_store c) r -> live st1 r) /\
    st_deltas st1 !! child = Some cd /\ sd_parent cd = Some (node_ptr n) /\
    (forall r, live (cx_store c) r -> r <> child /\ st_deltas st1 !! r = st_deltas (cx_store c) !! r) /\
    (forall x, view_of st1 child x = view_of (cx_store c) (node_ptr n) x) /\
    (forall r x, live (cx_store c) r -> view_of st1 r x = view_of (cx_store c) r x) /\
    (forall r, live (cx_store c) r -> ~ reach st1 r child).
Proof.
  intros [Hr Hn (d & Hp & _)]. destruct (rd_node _ Hr) as (n' & Hn' & Hl). assert (n' = n) as -> by congruence.
  pose proof (rd_store _ Hr) as Hwf. destruct (live_lookup _ _ Hl) as (d0 & b & Hp0 & Hb).
  assert (d0 = d) as -> by congruence. unfold sn_make_child.
  destruct (sd_make_child_run (cx_store c) (node_ptr n) d b null_id Hp Hb) as (cd & Hrun & Hcd).
  destruct (make_child_facts _ _ _ cd b null_id Hwf Hl Hp Hcd) as (Hwf1 & Hlv & Hlc & Hvc & Hv).
  set (st1 := Store _ _) in *. destruct Hcd as (Hpar & _).
  assert (forall r, live (cx_store c) r -> (r < st_next (cx_store c))%nat) as Hlt.
  { intros r Hlr. destruct (live_lookup _ _ Hlr) as (dr & br & Hdr & _). by destruct (Hwf r dr Hdr). }
  exists (st_next (cx_store c)), st1, cd. split; [done|]. split; [done|]. split; [done|]. split; [done|].
  split; [apply lookup_insert_eq|]. split; [done|]. split; [|split; [done|split; [done|]]].
  - intros r Hlr. specialize (Hlt r Hlr). split; [lia|]. apply lookup_insert_ne. lia.
  - intros r Hlr. specialize (Hlt r Hlr). by apply not_reach_lt.
Qed.

(** The state after operations in the child, seen from the block's node. *)
Lemma child_inside n c child st1 cd c2 :
  open_block n c -> store_wf st1 -> live st1 child ->
  (forall r, live (cx_store c) r -> live st1 r) ->
  st_deltas st1 !! child = Some cd -> sd_parent cd = Some (node_ptr n) ->
  (forall r, live (cx_store c) r -> r <> child /\ st_deltas st1 !! r = st_deltas (cx_store c) !! r) ->
  (forall r x, live (cx_store c) r -> view_of st1 r x = view_of (cx_store c) r x) ->
  (forall r, live (cx_store c) r -> ~ reach st1 r child) ->
  inside protected (set_node (Some (Node false child)) (set_cstore st1 c)) c2 ->
  store_wf (cx_store c2) /\ live (cx_store c2) child /\
  (exists cd2, st_deltas (cx_store c2) !! child = Some cd2 /\ sd_parent cd2 = Some (node_ptr n)) /\
  (exists d2, st_deltas (cx_store c2) !! node_ptr n = Some d2 /\ sd_final d2 = false) /\
  (forall r, live (cx_store c) r -> live (cx_store c2) r) /\
  (forall r x, live (cx_store c) r -> view_of (cx_store c2) r x = view_of (cx_store c) r x) /\
  (forall k, protected k -> view_of (cx_store c2) child k = view_of st1 child k) /\
  grown (cx_store c) (cx_store c2).
Proof.
  intros [Hr Hn (d & Hp & Hf)] Hwf1 Hlc Hlv Hcd Hpar Hold Hv Hnr Hi.
  destruct (rd_node _ Hr) as (n' & Hn' & Hl). assert (n' = n) as -> by congruence.
  destruct (in_store _ _ _ Hi _ eq_refl Hwf1 Hlc) as (Hwf2 & Hsh & Hl2 & Ho2 & _ & Hpr).
  cbn [cx_store set_node set_cstore node_ptr] in Hsh, Hl2, Ho2, Hpr.
  destruct (same_shape_lookup _ _ _ _ Hsh Hcd) as (cd2 & Hcd2 & Hpar2 & _).
  destruct (Hold _ Hl) as [Hne Hpe].
  split; [done|]. split; [by apply Hl2|]. split; [exists cd2; split; [done|congruence]|].
  split; [exists d; split; [|done]; rewrite Ho2, Hpe by done; done|].
  split; [by auto|]. split; [|split; [done|]].
  - intros r x Hlr. rewrite (view_of_agree st1 (cx_store c2) child r x); [by apply Hv|done|by apply Hnr].
  - constructor; [done|by auto|]. intros r Hlr. destruct (Hold r Hlr) as [Hrc Hre]. by rewrite Ho2, Hre.
Qed.

Lemma apply_in_child_wp n c os :
  open_block n c ->
  wp (beside n c) (apply_in_child n os)
    (fun e c' => applied n c c' /\
       (is_error e = true -> forall k, view_of (cx_store c') (node_ptr n) k = view_of (cx_store c) (node_ptr n) k)) c.
Proof.
  intros Hob. destruct (make_child_run n c Hob) as (child & st1 & cd & Hrun & Hwf1 & Hlc & Hlv & Hcd & Hpar & Hold & Hvc & Hv & Hnr).
  unfold ExecutionContext.apply_in_child. apply wp_bind.
  apply (wp_run _ _ _ child (set_cstore st1 c)); [unfold on_cstore, zoom; by rewrite Hrun|].
  apply wp_modify. set (c1 := set_node _ _). pose proof Hob as [Hr Hn _].
  assert (ready c1) as Hr1 by (constructor; [done|by exists (Node false child)|apply (rd_stack _ Hr)]).
  apply wp_bind. eapply wp_guarded; [apply apply_operations_guarded|exact Hr1| |].
  { intros c2 Hi.
    destruct (child_inside n c child st1 cd c2 Hob Hwf1 Hlc Hlv Hcd Hpar Hold Hv Hnr Hi)
      as (_ & _ & _ & _ & _ & Hv2 & _ & Hgr2). split; [done|]. intros; by apply Hv2. }
  intros e c2 Hi.
  destruct (child_inside n c child st1 cd c2 Hob Hwf1 Hlc Hlv Hcd Hpar Hold Hv Hnr Hi)
    as (Hwf2 & Hlc2 & (cd2 & Hcd2 & Hpar2) & (d2 & Hp2 & Hf2) & Hl2 & Hv2 & Hpr2 & Hgr2).
  destruct (rd_node _ Hr) as (n' & Hn' & Hl). assert (n' = n) as -> by congruence.
  pose proof (rd_stack _ (ready_inside _ _ _ Hr1 Hi)) as Hs2.
  assert (forall st3, store_wf st3 -> same_shape (cx_store c2) st3 -> (forall r, live (cx_store c2) r -> live st3 r) ->
    open_block n (set_node (Some n) (set_cstore st3 c2))) as Hopen.
  { intros st3 Hwf3 Hsh3 Hl3. constructor; [constructor; [done|exists n; split; [done|cbn; auto]|done]|done|].
    destruct (same_shape_lookup _ _ _ _ Hsh3 Hp2) as (d3 & Hd3 & _ & Hf3). exists d3. split; [done|congruence]. }
  destruct (is_error e) eqn:Ee.
  - apply wp_ret. split; [|intros _ k; by apply Hv2].
    constructor; [|apply Hi|apply Hi|apply Hi|intros; by apply Hv2].
    constructor; [|done|intros; by apply Hv2..].
    replace (set_node (Some n) c2) with (set_node (Some n) (set_cstore (cx_store c2) c2)) by (by destruct c2).
    apply Hopen; [done|reflexivity|done].
  - destruct (tn_squash_run (cx_store c2) child (node_ptr n) cd2 d2 Hwf2 Hlc2 Hcd2 Hpar2 Hp2 Hf2)
      as (st3 & Hsq & Hwf3 & Hsh3 & Hl3 & Hvp & Hvo).
    apply wp_bind. apply (wp_run _ _ _ None (set_cstore st3 c2)); [unfold on_cstore, zoom; by rewrite Hsq|].
    apply wp_ret. split; [|done].
    constructor; [|apply Hi|apply Hi|apply Hi|intros k Hk; cbn [cx_store set_cstore]; rewrite Hvp, Hpr2, Hvc; [done|by left]].
    constructor; cbn [cx_store set_cstore set_node].
    + by apply Hopen.
    + eapply grown_trans; [done|]. by apply grown_same_shape.
    + intros r k Hlr Hnr'. rewrite Hvo; [by apply Hv2|]. intros Hre. apply Hnr'. by eapply grown_reach.
    + intros k Hk. rewrite Hvp, Hpr2, Hvc; [done|by right].
Qed.

(** ** The checks *)

(** Only the meter and the list of verified signatures have changed. *)
Record paying (c c' : context) : Prop := {
  py_store : cx_store c' = cx_store c;
  py_node : cx_node c' = cx_node c;
  py_stack : cx_stack c' = cx_stack c;
  py_intent : cx_intent c' = cx_intent c;
  py_transaction : cx_transaction c' = cx_transaction c;
  py_meter : metered (cx_meter c) (cx_meter c')
}.

#[export] Instance paying_preorder : PreOrder paying.
Proof.
  split; [intros c; constructor; done|].
  intros a b c [] []. constructor; try congruence. by etrans.
Qed.
#[export] Instance paying_stable : Stable (fun _ => True) paying.
Proof. by repeat intro. Qed.

Lemma on_meter_paying {A} (m : M metering A) :
  guarded (fun _ => True) metered m -> guarded (fun _ => True) paying (on_meter m).
Proof.
  intros Hm. apply (guarded_zoom _ _ (fun _ => True) metered); [done| |done]. intros c m' _ Hm'. by constructor.
Qed.

Lemma use_compute_paying : guarded (fun _ => True) paying use_compute.
Proof.
  unfold use_compute. apply guarded_bind; [apply _|apply _| |intros; guarded_auto].
  apply on_meter_paying, use_compute_guarded. unfold u64_ok, compute_cost. lia.
Qed.

(** Asking for the authority of a user runs no program. *)
Lemma check_authority_user run a :
  account_view_program a = false -> guarded (fun _ => True) paying (ctx_check_authority run a).
Proof.
  intros Ha. unfold ctx_check_authority, the_node. rewrite Ha.
  pose proof use_compute_paying.
  assert (forall t auths, guarded (fun _ => True) paying (verify_authorizations t a auths)) as Hv.
  { intros t auths. induction auths; simpl; guarded_auto. apply guarded_modify. intros c _. by constructor. }
  guarded_auto.
Qed.

Lemma open_block_paying n c c' : open_block n c -> paying c c' -> open_block n c'.
Proof.
  intros [Hr Hn Ho] Hp. constructor.
  - destruct Hr as [Hwf Hnode Hs]. constructor; rewrite ?(py_store _ _ Hp), ?(py_node _ _ Hp), ?(py_stack _ _ Hp); done.
  - by rewrite (py_node _ _ Hp).
  - by rewrite (py_store _ _ Hp).
Qed.

(** The nonce a node shows for an account. *)
Definition nonce_of (st : store) (p : ptr) (a : account) : Z :=
  match view_of st p (nonce_key a) with Some b => le_val (take 8 b) | None => 0 end.

Lemma open_block_live n c : open_block n c -> live (cx_store c) (node_ptr n).
Proof. intros [Hr Hn _]. destruct (rd_node _ Hr) as (n' & Hn' & Hl). congruence. Qed.

Lemma account_nonce_wp n c a :
  open_block n c ->
  wp (beside n c) (account_nonce a) (fun z c' => c' = c /\ z = nonce_of (cx_store c) (node_ptr n) a) c.
Proof.
  intros Hob. unfold account_nonce, the_node. apply wp_bind, wp_gets. rewrite (ob_node _ _ Hob). apply wp_ret.
  apply wp_bind. apply (wp_run _ _ _ (view_of (cx_store c) (node_ptr n) (nonce_key a)) c).
  { unfold on_cstore, zoom, sn_get. fold (nonce_key a).
    rewrite sd_get_ok; [by destruct c|apply (rd_store _ (ob_ready _ _ Hob))|by apply open_block_live]. }
  unfold nonce_of. destruct (view_of _ _ _) as [b|]; [|by apply wp_ret].
  unfold bit_cast. destruct (_ <? _); [apply wp_throw, kept_beside; by apply kept_store|by apply wp_ret].
Qed.

Lemma set_account_nonce_wp n c a z :
  open_block n c ->
  wp (beside n c) (set_account_nonce a z) (fun _ c' => kept n c c' /\ cx_transaction c' = cx_transaction c /\
    cx_intent c' = cx_intent c /\ metered (cx_meter c) (cx_meter c') /\
    (forall x, view_of (cx_store c') (node_ptr n) x =
       if bytes_eqb x (nonce_key a) then Some (le_bytes 8 z) else view_of (cx_store c) (node_ptr n) x)) c.
Proof.
  intros Hob. pose proof (open_block_live _ _ Hob) as Hl. pose proof Hob as [Hr Hn (d & Hp & Hf)].
  unfold set_account_nonce, the_node. apply wp_bind, wp_gets. rewrite Hn. apply wp_ret. apply wp_bind.
  destruct (sd_put_view (cx_store c) (node_ptr n) d (nonce_key a) (le_bytes 8 z) (rd_store _ Hr) Hl Hp Hf)
    as (size & st' & Hput & Hwf' & Hsh & Hlv & Hv & Hfr).
  apply (wp_run _ _ _ size (set_cstore st' c)); [unfold on_cstore, zoom, sn_put; fold (nonce_key a); by rewrite Hput|].
  assert (open_block n (set_cstore st' c)) as Hob'.
  { constructor; [constructor; [done|exists n; split; [done|cbn; auto]|apply (rd_stack _ Hr)]|done|].
    destruct (same_shape_lookup _ _ _ _ Hsh Hp) as (d' & Hd' & _ & Hf'). exists d'. split; [done|congruence]. }
  assert (kept n c (set_cstore st' c)) as Hk.
  { constructor; [done|by apply grown_same_shape|intros r k _ Hnr; by apply Hfr|]. intros k Hk. cbn [cx_store set_cstore].
    rewrite Hv. case_bool; bool_to_prop; [|done]. subst. by destruct (nonce_not_metadata a). }
  eapply wp_guarded; [apply on_meter_paying, use_disk_guarded, u64_range|done|..].
  { intros c' Hpay. eapply beside_store; [by apply kept_beside|apply Hpay]. }
  intros e c' Hpay. split; [|rewrite (py_store _ _ Hpay); by destruct Hpay].
  eapply kept_trans; [exact Hk|]. apply kept_store; [by eapply open_block_paying|apply Hpay].
Qed.

(** ** Execution *)

(** How a receipt follows from the meter at the end. *)
Definition accounted (t : transaction) (initial : resource_state) (m : metering) (rc : transaction_receipt) : Prop :=
  exists m1 s1, metered m m1 /\ mt_session m1 = Some s1 /\ tr_resource_used rc = session_used s1 /\
    tr_resource_limit rc = tx_resource_limit t /\
    tr_disk_storage_used rc = u64 (disk_storage initial - disk_storage (mt_remaining m1)) /\
    tr_network_bandwidth_used rc = u64 (network_bandwidth initial - network_bandwidth (mt_remaining m1)) /\
    tr_compute_bandwidth_used rc = u64 (compute_bandwidth initial - compute_bandwidth (mt_remaining m1)).

Record executed (n : state_node) (t : transaction) (initial : resource_state) (c : context)
    (rc : transaction_receipt) (c' : context) : Prop := {
  ex_nonce : forall k, is_nonce_key k ->
    view_of (cx_store c') (node_ptr n) k = view_of (cx_store c) (node_ptr n) k;
  ex_reverted : tr_reverted rc = true -> forall k,
    view_of (cx_store c') (node_ptr n) k = view_of (cx_store c) (node_ptr n) k;
  ex_accounted : accounted t initial (cx_meter c) rc
}.

Lemma execute_transaction_wp n c t initial :
  open_block n c ->
  wp (beside n c) (execute_transaction uninit1 uninit2 t initial)
    (fun r c' => kept n c c' /\ forall rc, r = inl rc -> executed n t initial c rc c') c.
Proof.
  intros Hob. unfold execute_transaction. apply wp_bind.
  eapply wp_guarded; [apply on_meter_paying, use_network_guarded, u64_range|done| |].
  { intros c1 Hpay. eapply beside_store; [apply kept_beside; by apply kept_store|apply Hpay]. }
  intros e c1 Hpay.
  pose proof (open_block_paying _ _ _ Hob Hpay) as Hob1.
  pose proof (kept_store n c c1 Hob1 (py_store _ _ Hpay)) as Hk1.
  destruct (is_error e); [by apply wp_ret|].
  unfold the_node. apply wp_bind, wp_gets. rewrite (ob_node _ _ Hob1). apply wp_ret.
  apply wp_bind. eapply wp_after; [exact Hk1| |by apply apply_in_child_wp]. cbv beta. intros err c2 [Hap Hrev].
  apply wp_modify, wp_gets. apply wp_bind. cbn [cx_meter set_node].
  destruct (mt_session (cx_meter c2)) as [s1|] eqn:Hs; [|done]. apply wp_ret. cbv zeta.
  unfold wp_but, bind, on_meter, zoom, modify, consume_account_resources, ret. cbn [is_error ec_value ok_code].
  cbn -[view_of u64 session_used]. split.
  { pose proof (kept_trans _ _ _ _ Hk1 (ap_kept _ _ _ Hap)) as [[[? ? ?] ? ?] Hg Hb Hmd].
    constructor; [constructor; [constructor|..]; done|done|done|done]. }
  intros rc [= <-]. constructor; cbn -[view_of u64 session_used].
  - intros k Hk. rewrite (ap_nonce _ _ _ Hap k Hk). by rewrite (py_store _ _ Hpay).
  - intros He k. rewrite (Hrev He k). by rewrite (py_store _ _ Hpay).
  - exists (cx_meter c2), s1. split; [etrans; [exact (py_meter _ _ Hpay)|exact (ap_meter _ _ _ Hap)]|]. done.
Qed.

(** ** Whole transactions *)

(** Neither account asked is a program. *)
Definition user_accounts (t : transaction) : Prop :=
  account_view_program (tx_payer t) = false /\ account_view_program (tx_payee t) = false.

Record transaction_effect (n : state_node) (t : transaction) (c : context)
    (rc : transaction_receipt) (c' : context) : Prop := {
  te_next : u64 (nonce_of (cx_store c) (node_ptr n) (nonce_account t) + 1) = tx_nonce t;
  te_nonce : view_of (cx_store c') (node_ptr n) (nonce_key (nonce_account t)) = Some (le_bytes 8 (tx_nonce t));
  te_other_nonces : forall k, is_nonce_key k -> k <> nonce_key (nonce_account t) ->
    view_of (cx_store c') (node_ptr n) k = view_of (cx_store c) (node_ptr n) k;
  te_reverted : tr_reverted rc = true -> user_accounts t -> forall k, k <> nonce_key (nonce_account t) ->
    view_of (cx_store c') (node_ptr n) k = view_of (cx_store c) (node_ptr n) k;
  te_accounted : accounted t (mt_remaining (cx_meter c))
    (set_session (Some (new_session (tx_resource_limit t))) (cx_meter c)) rc
}.

Lemma accounted_trans t i m m1 rc : metered m m1 -> accounted t i m1 rc -> accounted t i m rc.
Proof. intros H (m2 & s2 & Hm & ?). exists m2, s2. split; [by etrans|done]. Qed.

(** The part of the checks after the authorizations. *)
Lemma nonce_and_execute_wp n c t initial :
  open_block n c ->
  wp (beside n c)
     (let* nonce := account_nonce (nonce_account t) in
      if negb (u64 (nonce + 1) =? tx_nonce t)
      then ret (inr (controller_error controller_errc.invalid_nonce))
      else check* set_account_nonce (nonce_account t) (tx_nonce t) in
           execute_transaction uninit1 uninit2 t initial)
    (fun r c' => kept n c c' /\ forall rc, r = inl rc ->
      u64 (nonce_of (cx_store c) (node_ptr n) (nonce_account t) + 1) = tx_nonce t /\
      view_of (cx_store c') (node_ptr n) (nonce_key (nonce_account t)) = Some (le_bytes 8 (tx_nonce t)) /\
      (forall k, k <> nonce_key (nonce_account t) -> is_nonce_key k \/ tr_reverted rc = true ->
         view_of (cx_store c') (node_ptr n) k = view_of (cx_store c) (node_ptr n) k) /\
      accounted t initial (cx_meter c) rc) c.
Proof.
  intros Hob. apply wp_bind. eapply wp_post; [|by apply account_nonce_wp]. cbv beta. intros z c0 [-> ->].
  destruct (_ =? tx_nonce t) eqn:En; cbn [negb]; [|apply wp_ret; split; [by apply kept_store|done]].
  apply Z.eqb_eq in En. apply wp_bind. eapply wp_post; [|by apply set_account_nonce_wp]. cbv beta.
  intros e c1 (Hk1 & Ht & Hi & Hm & Hv). destruct (is_error e); [by apply wp_ret|].
  eapply wp_after; [exact Hk1| |apply (execute_transaction_wp n); apply Hk1]. cbv beta. intros r c2 [Hk2 Hex].
  split; [by eapply kept_trans|]. intros rc Hrc. destruct (Hex rc Hrc) as [Hno Hrev Hacc].
  split; [done|]. split; [|split].
  - rewrite Hno by (by eexists). by rewrite Hv, bytes_eqb_refl.
  - intros k Hne Hk. assert (view_of (cx_store c2) (node_ptr n) k = view_of (cx_store c1) (node_ptr n) k) as ->
      by (destruct Hk; auto). rewrite Hv. case_bool; bool_to_prop; done.
  - by eapply accounted_trans.
Qed.

(** What asking for an authority may do: an account program runs in the
    block's own node. *)
Record passing (n : state_node) (c c' : context) : Prop := {
  ps_kept : kept n c c';
  ps_nonce : forall k, is_nonce_key k ->
    view_of (cx_store c') (node_ptr n) k = view_of (cx_store c) (node_ptr n) k;
  ps_meter : metered (cx_meter c) (cx_meter c')
}.

Lemma passing_trans n a b c : passing n a b -> passing n b c -> passing n a c.
Proof.
  intros [Hk1 Hn1 Hm1] [Hk2 Hn2 Hm2]. constructor; [by eapply kept_trans| |by etrans].
  intros k Hk. by rewrite Hn2, Hn1.
Qed.

Lemma passing_paying n c c' : open_block n c -> paying c c' -> passing n c c'.
Proof.
  intros Ho Hp. constructor; [apply kept_store; [by eapply open_block_paying|apply Hp]| |apply Hp].
  by rewrite (py_store _ _ Hp).
Qed.

Lemma passing_inside n c c' : open_block n c -> inside protected c c' -> passing n c c'.
Proof.
  intros Hob Hi. pose proof (open_block_live _ _ Hob) as Hl. pose proof Hob as [Hr Hn (d & Hd & Hf)].
  destruct (in_store _ _ _ Hi n Hn (rd_store _ Hr) Hl) as (Hwf & Hsh & Hlv & Ho & _ & Hpr).
  constructor; [|intros k Hk; apply Hpr; by left|apply Hi]. constructor; [|by apply grown_same_shape|..].
  - constructor; [by eapply ready_inside|by rewrite (in_node _ _ _ Hi)|].
    destruct (same_shape_lookup _ _ _ _ Hsh Hd) as (d' & Hd' & _ & Hf'). exists d'. split; [done|congruence].
  - intros r k _ Hnr. by apply (view_of_agree _ _ (node_ptr n)).
  - intros k Hk. apply Hpr. by right.
Qed.

Lemma require_authority_wp {A} n c a (E : context -> Prop) (k : M context (result A)) (Q : result A -> context -> Prop) :
  open_block n c -> (forall c', passing n c c' -> E c') ->
  (forall e c', passing n c c' -> Q (inr e) c') ->
  (forall c', passing n c c' -> (account_view_program a = false -> cx_store c' = cx_store c) -> wp E k Q c') ->
  wp E (require_authority uninit1 uninit2 a k) Q c.
Proof.
  intros Hob HE HQ Hk. unfold require_authority. apply wp_bind.
  apply (wp_post _ (fun _ c' => passing n c c' /\ (account_view_program a = false -> cx_store c' = cx_store c))).
  { intros r c' [Hp Hs]. destruct r as [[]|e]; [by apply Hk|apply wp_ret; auto..]. }
  destruct (account_view_program a) eqn:Ea.
  - eapply wp_guarded; [apply (check_authority_inside uninit1 uninit2 protected protected_system)|apply Hob| |];
      [intros c' Hi; by apply HE, passing_inside|].
    intros r c' Hi. split; [by apply passing_inside|done].
  - eapply wp_guarded; [by apply check_authority_user|done| |]; [intros c' Hp; by apply HE, passing_paying|].
    intros r c' Hp. split; [|intros _; apply Hp].
    by apply passing_paying.
Qed.

Lemma apply_transaction_wp n c t :
  open_block n c ->
  wp (beside n c) (apply_transaction t)
    (fun r c' => kept n c c' /\ forall rc, r = inl rc -> transaction_effect n t c rc c') c.
Proof.
  intros Hob. unfold ExecutionContext.apply_transaction, the_node.
  apply wp_bind, wp_gets. rewrite (ob_node _ _ Hob). apply wp_ret. apply wp_modify, wp_modify, wp_gets.
  cbn [cx_meter set_verified set_transaction]. cbv zeta. apply wp_bind.
  set (m1 := set_session (Some (new_session (tx_resource_limit t))) (cx_meter c)).
  set (c0 := set_verified [] (set_transaction (Some t) c)).
  apply (wp_run _ _ _ tt (set_meter m1 c0)); [done|]. set (c1 := set_meter m1 c0).
  assert (open_block n c1) as Hob1 by (destruct Hob as [[? ? ?] ? ?]; constructor; [constructor|..]; done).
  assert (forall c', kept n c1 c' -> kept n c (close_session c')) as Hclose.
  { intros c' [[[? ? ?] ? ?] Hg Hb Hmd]. constructor; [constructor; [constructor|..]; done|done|done|done]. }
  apply wp_finally. unfold check_transaction.
  destruct (_ <? tx_resource_limit t); [apply wp_ret; split; [by apply Hclose, kept_store|done]|].
  set (Q := fun r c' => kept n c (close_session c') /\
    forall rc, r = inl rc -> transaction_effect n t c rc (close_session c')).
  assert (forall c2, passing n c1 c2 -> (user_accounts t -> cx_store c2 = cx_store c1) ->
    wp (beside n c1) (let* nonce := account_nonce (nonce_account t) in
      if negb (u64 (nonce + 1) =? tx_nonce t)
      then ret (inr (controller_error controller_errc.invalid_nonce))
      else check* set_account_nonce (nonce_account t) (tx_nonce t) in
           execute_transaction uninit1 uninit2 t (mt_remaining (cx_meter c))) Q c2) as Hrest.
  { intros c2 [Hk2 Hn2 Hm2] Hu. eapply wp_after; [exact Hk2| |apply nonce_and_execute_wp; apply Hk2]. cbv beta.
    intros r c3 [Hk3 Hpost]. split; [by eapply Hclose, kept_trans|]. intros rc Hrc.
    destruct (Hpost rc Hrc) as (Hnext & Hnonce & Hsame & Hacc). change (cx_store c1) with (cx_store c) in *.
    constructor; cbn [cx_store close_session set_meter].
    - unfold nonce_of in *. by rewrite <- Hn2 by (by eexists).
    - done.
    - intros k Hk Hne. by rewrite Hsame, Hn2 by auto.
    - intros Hrev Hus k Hne. by rewrite Hsame, (Hu Hus) by auto.
    - by eapply accounted_trans. }
  assert (forall e c', passing n c1 c' -> Q (inr e) c') as HQ by (intros e c' Hp; split; [by apply Hclose, Hp|done]).
  change (fun s' => beside n c (close_session s')) with (beside n c1).
  apply (require_authority_wp n); [done|intros c' Hp; apply kept_beside, Hp|done|]. intros c2 Hp2 Hs2.
  destruct (nonzero (tx_payee t)); [|apply Hrest; [done|intros [? _]; auto]].
  apply (require_authority_wp n); [apply Hp2|intros c' Hp; by eapply kept_beside, kept_trans; [apply Hp2|apply Hp]|intros e c' Hp; apply HQ; by eapply passing_trans|]. intros c3 Hp3 Hs3.
  apply Hrest; [by eapply passing_trans|]. intros [? ?]. rewrite Hs3, Hs2; done.
Qed.

(** ** What applying a transaction guarantees *)

Lemma apply_transaction_effect n c t rc c' :
  open_block n c -> apply_transaction t c = Ret (inl rc) c' -> kept n c c' /\ transaction_effect n t c rc c'.
Proof.
  intros Hob Hrun. pose proof (apply_transaction_wp n c t Hob) as H. unfold wp_but in H. rewrite Hrun in H.
  destruct H as [Hk H]. auto.
Qed.

(** C1. Applying a transaction to an open block node, whichever interpreter runs
    its programs: when the call returns, whether the transaction is accepted or
    refused, the block's node stays open and what any node that does not descend
    from it shows stays the same; so it does when an exception ends the call.
    When the transaction is reverted and neither its payer nor its payee is a
    program (the authority of a program is asked by running it on the block's
    node itself), the block's node shows the objects it showed before, the nonce
    apart. Otherwise the C++ program has faulted, and not for lack of the model's
    fuel. *)
Theorem transaction_atomic n c t :
  open_block n c ->
  match apply_transaction t c with
  | Ret r c' =>
      open_block n c' /\
      (forall r k, live (cx_store c) r -> ~ reach (cx_store c) r (node_ptr n) ->
         view_of (cx_store c') r k = view_of (cx_store c) r k) /\
      (forall rc, r = inl rc -> tr_reverted rc = true -> user_accounts t ->
         forall k, k <> nonce_key (nonce_account t) ->
         view_of (cx_store c') (node_ptr n) k = view_of (cx_store c) (node_ptr n) k)
  | Throw _ c' =>
      forall r k, live (cx_store c) r -> ~ reach (cx_store c) r (node_ptr n) ->
        view_of (cx_store c') r k = view_of (cx_store c) r k
  | Fault f => f <> out_of_fuel
  end.
Proof.
  intros Hob. pose proof (apply_transaction_wp n c t Hob) as H. unfold wp_but in H.
  destruct (apply_transaction t c) as [r c'| |]; [|by destruct H|done]. destruct H as [[Hk _ Hb] H].
  split; [done|]. split; [done|]. intros rc Hrc. apply (te_reverted _ _ _ _ _ (H rc Hrc)).
Qed.

(** ** Nonces of a block *)

Lemma nonce_key_inj a b : nonce_key a = nonce_key b -> a = b.
Proof. unfold nonce_key, make_compound_key. apply app_inj_1. done. Qed.

Definition same_nonce_account (a : account) (t : transaction) : bool := bytes_eqb (nonce_account t) a.
(** How many transactions of [ts] use the nonce of [a]. *)
Definition nonce_uses (a : account) (ts : list transaction) : Z :=
  zlen (filter (fun t => same_nonce_account a t = true) ts).

Lemma nonce_uses_cons a t ts :
  nonce_uses a (t :: ts) = (if same_nonce_account a t then 1 else 0) + nonce_uses a ts.
Proof.
  unfold nonce_uses. destruct (same_nonce_account a t) eqn:E.
  - rewrite filter_cons_True by done. by rewrite zlen_cons.
  - rewrite filter_cons_False by (by rewrite E). lia.
Qed.

Lemma u64_add_l x y : u64 (u64 x + y) = u64 (x + y).
Proof. unfold u64, wrap. apply Zplus_mod_idemp_l. Qed.

Lemma nonce_step n t c rc c' a :
  transaction_effect n t c rc c' ->
  u64 (nonce_of (cx_store c') (node_ptr n) a) =
  u64 (nonce_of (cx_store c) (node_ptr n) a + if same_nonce_account a t then 1 else 0).
Proof.
  intros Te. unfold same_nonce_account. case_bool; bool_to_prop.
  - subst a. unfold nonce_of at 1. rewrite (te_nonce _ _ _ _ _ Te).
    rewrite take_ge by (by rewrite length_le_bytes). rewrite le_val_bytes.
    rewrite <- (te_next _ _ _ _ _ Te). unfold u64, wrap. by rewrite !Zmod_mod.
  - rewrite Z.add_0_r. unfold nonce_of. rewrite (te_other_nonces _ _ _ _ _ Te); [done|by eexists|].
    intros Hk%nonce_key_inj. congruence.
Qed.

Lemma apply_transactions_effect n ts : forall c rs c',
  open_block n c -> apply_transactions uninit1 uninit2 ts c = Ret (inl rs) c' ->
  open_block n c' /\ length rs = length ts /\
  (forall a, u64 (nonce_of (cx_store c') (node_ptr n) a) =
     u64 (nonce_of (cx_store c) (node_ptr n) a + nonce_uses a ts)) /\
  (forall i t, ts !! i = Some t ->
     tx_nonce t = u64 (nonce_of (cx_store c) (node_ptr n) (nonce_account t) +
                       nonce_uses (nonce_account t) (take (S i) ts))).
Proof.
  induction ts as [|t ts IH]; intros c rs c' Hob Hrun; cbn [ExecutionContext.apply_transactions] in Hrun.
  { injection Hrun as <- <-. split; [done|]. split; [done|]. split; [intros a; by rewrite Z.add_0_r|done]. }
  apply bind_Ret_inv in Hrun as ([rc|e] & c1 & H1 & Hrun); [|done].
  apply bind_Ret_inv in Hrun as ([rs'|e] & c2 & H2 & Hrun); [|done]. injection Hrun as <- <-.
  destruct (apply_transaction_effect n c t rc c1 Hob H1) as [Hk Te].
  destruct (IH c1 rs' c2 (kp_block _ _ _ Hk) H2) as (Hob2 & Hlen & Hno & Hseq).
  assert (forall a z, u64 (nonce_of (cx_store c1) (node_ptr n) a + z) =
    u64 (nonce_of (cx_store c) (node_ptr n) a + ((if same_nonce_account a t then 1 else 0) + z))) as Hs.
  { intros a z. rewrite <- u64_add_l, (nonce_step n t c rc c1 a Te), u64_add_l. f_equal. lia. }
  split; [done|]. split; [cbn; lia|]. split.
  - intros a. by rewrite Hno, nonce_uses_cons, Hs.
  - intros [|i] t' Ht; cbn [lookup list_lookup] in Ht.
    + injection Ht as <-. cbn [take]. rewrite nonce_uses_cons. unfold same_nonce_account at 1.
      rewrite bytes_eqb_refl. symmetry. exact (te_next _ _ _ _ _ Te).
    + rewrite (Hseq i t' Ht), Hs. cbn [take]. by rewrite (nonce_uses_cons _ t).
Qed.

(** C14. The transactions of a block that is applied carry consecutive nonces: the
    one at position [i] has the account's nonce before the block plus the
    number of the account's transactions up to it, and at the end the state
    holds the nonce of the last one. *)
Theorem block_nonces_consecutive n ts c rs c' :
  open_block n c -> apply_transactions uninit1 uninit2 ts c = Ret (inl rs) c' ->
  length rs = length ts /\
  (forall a, u64 (nonce_of (cx_store c') (node_ptr n) a) =
     u64 (nonce_of (cx_store c) (node_ptr n) a + nonce_uses a ts)) /\
  (forall i t, ts !! i = Some t ->
     tx_nonce t = u64 (nonce_of (cx_store c) (node_ptr n) (nonce_account t) +
                       nonce_uses (nonce_account t) (take (S i) ts))).
Proof. intros Hob Hrun. by destruct (apply_transactions_effect n ts c rs c' Hob Hrun) as (_ & ?). Qed.

Lemma nonce_uses_app a l l' : nonce_uses a (l ++ l') = nonce_uses a l + nonce_uses a l'.
Proof. unfold nonce_uses. by rewrite filter_app, zlen_app. Qed.

Lemma nonce_uses_le a l : 0 <= nonce_uses a l <= zlen l.
Proof.
  induction l as [|t l IH]; [done|]. rewrite nonce_uses_cons, zlen_cons. destruct (same_nonce_account a t); lia.
Qed.

(** C13. No transaction is applied twice in a block, however often the block lists
    it: two applied transactions of one account have different nonces. *)
Theorem block_no_replay n ts c rs c' i j t t' :
  open_block n c -> apply_transactions uninit1 uninit2 ts c = Ret (inl rs) c' -> zlen ts < 2 ^ 64 ->
  ts !! i = Some t -> ts !! j = Some t' -> (i < j)%nat -> nonce_account t = nonce_account t' ->
  tx_nonce t <> tx_nonce t'.
Proof.
  intros Hob Hrun Hlen Hi Hj Hij Ha. destruct (apply_transactions_effect n ts c rs c' Hob Hrun) as (_ & _ & _ & Hseq).
  rewrite (Hseq i t Hi), (Hseq j t' Hj), <- Ha. set (a := nonce_account t).
  assert (take (S j) ts = take (S i) ts ++ drop (S i) (take j ts) ++ [t']) as Htk.
  { rewrite (take_S_r _ _ _ Hj). rewrite app_assoc. f_equal.
    rewrite <- (take_drop (S i) (take j ts)) at 1. by rewrite take_take, Nat.min_l by lia. }
  assert (nonce_uses a [t'] = 1) as H1.
  { rewrite nonce_uses_cons. unfold same_nonce_account, a. by rewrite Ha, bytes_eqb_refl. }
  rewrite Htk, !nonce_uses_app, H1. pose proof (nonce_uses_le a (drop (S i) (take j ts))) as Hd.
  assert (1 + zlen (drop (S i) (take j ts)) <= zlen ts) as Hz.
  { unfold zlen. rewrite length_drop, length_take. pose proof (lookup_lt_Some _ _ _ Hj). lia. }
  unfold u64, wrap. intros Heq. set (x := nonce_uses a (drop (S i) (take j ts))) in *.
  set (y := nonce_of _ _ _ + nonce_uses a (take (S i) ts)) in *.
  assert ((x + 1) `mod` 2 ^ 64 = 0) as Hx.
  { replace (x + 1) with ((y + (x + 1)) - y) by lia. rewrite Zminus_mod.
    replace (nonce_of (cx_store c) (node_ptr n) a + (nonce_uses a (take (S i) ts) + (x + 1))) with (y + (x + 1)) in Heq by (unfold y; lia).
    rewrite <- Heq. by rewrite Z.sub_diag. }
  rewrite Z.mod_small in Hx by lia. lia.
Qed.

(** ** What a transaction pays *)

(** C29. The receipt of a transaction is exact: the resources used are the price of
    the disk, network and compute it reports, and no more than its limit. *)
Theorem transaction_pays_what_it_uses n c t rc c' :
  open_block n c -> u64_ok (tx_resource_limit t) -> resources_ok (mt_remaining (cx_meter c)) ->
  limits_ok (mt_limits (cx_meter c)) -> apply_transaction t c = Ret (inl rc) c' ->
  let l := mt_limits (cx_meter c) in
  tr_resource_used rc = tr_disk_storage_used rc * disk_storage_cost l
    + tr_network_bandwidth_used rc * network_bandwidth_cost l
    + tr_compute_bandwidth_used rc * compute_bandwidth_cost l /\
  0 <= tr_resource_used rc <= tx_resource_limit t.
Proof.
  intros Hob Hlim Hres Hl Hrun l.
  destruct (te_accounted _ _ _ _ _ (proj2 (apply_transaction_effect n c t rc c' Hob Hrun)))
    as (m1 & s1 & Hm & Hs & Hu & _ & Hd & Hn & Hc).
  destruct (Hm (new_session (tx_resource_limit t))) as (s' & Hs' & [Hr' Hi'] & Hr1 & Hl1 & Hini & Hle & Hsp);
    [done|split; [unfold new_session, u64_ok in *; cbn; lia|done]|done|done|].
  assert (s' = s1) as -> by congruence. cbn in Hini, Hsp, Hle, Hl1. fold l in Hsp.
  destruct Hres as (R1 & R2 & R3), Hr1 as (S1 & S2 & S3), Hle as (L1 & L2 & L3). unfold u64_ok in *.
  rewrite Hu, Hd, Hn, Hc. unfold session_used. rewrite Hini in *.
  rewrite !u64_small by (unfold u64_ok; lia). unfold spent in Hsp. lia.
Qed.

(** ** Blocks *)

Lemma apply_transactions_wp n ts c :
  open_block n c -> wp (beside n c) (apply_transactions uninit1 uninit2 ts) (fun _ c' => kept n c c') c.
Proof.
  revert c. induction ts as [|t ts IH]; intros c Hob; cbn [ExecutionContext.apply_transactions].
  { apply wp_ret. by apply kept_store. }
  apply wp_bind. eapply wp_post; [|by apply apply_transaction_wp]. cbv beta. intros [rc|e] c1 [Hk _]; [|by apply wp_ret].
  apply wp_bind. eapply wp_after; [exact Hk| |apply IH; apply Hk]. cbv beta. intros [rs|e] c2 Hk2; apply wp_ret; by eapply kept_trans.
Qed.

Lemma open_block_meter n m c : open_block n c -> open_block n (set_meter m c).
Proof. intros [[? ? ?] ? ?]. constructor; [constructor|..]; done. Qed.

(** Where a block's signer is looked up. *)
Definition genesis_object : bytes := make_compound_key space_metadata genesis_key.

Lemma genesis_object_metadata : is_metadata_key genesis_object.
Proof. by eexists. Qed.

(** A block is applied only when it is signed with the key of the genesis. *)
Lemma apply_block_wp n b c :
  open_block n c ->
  wp (beside n c) (apply_block uninit1 uninit2 b)
    (fun r c' => kept n c c' /\ forall rc, r = inl rc ->
       view_of (cx_store c) (node_ptr n) genesis_object = Some (account_public_key (b_signer b))) c.
Proof.
  intros Hob. unfold apply_block, the_node. apply wp_bind, wp_gets. rewrite (ob_node _ _ Hob). apply wp_ret.
  apply wp_bind. set (m := set_resource_limits default_limits (cx_meter c)).
  apply (wp_run _ _ _ tt (set_meter m c)); [done|]. apply wp_gets. cbv zeta.
  pose proof (open_block_meter n m c Hob) as Hob1. apply wp_bind.
  fold genesis_object. set (v := view_of (cx_store c) (node_ptr n) genesis_object).
  apply (wp_run _ _ _ v (set_meter m c)).
  { unfold on_cstore, zoom, sn_get. fold genesis_object.
    by rewrite (sd_get_ok _ _ _ (rd_store _ (ob_ready _ _ Hob1)) (open_block_live _ _ Hob1)). }
  pose proof (kept_store n c (set_meter m c) Hob1 eq_refl) as Hk1.
  destruct v as [key|]; [|by apply wp_throw, kept_beside].
  destruct (bytes_eqb key (account_public_key (b_signer b))) eqn:Ek; cbn [negb]; [|by apply wp_ret].
  bool_to_prop. apply wp_bind. eapply wp_after; [exact Hk1| |by apply apply_transactions_wp]. cbv beta.
  intros [rs|e] c2 Hk2; [|apply wp_ret; split; [by eapply kept_trans|done]].
  apply wp_gets, wp_bind. apply (wp_run _ _ _ tt (set_meter (set_frames [] (cx_meter c2)) c2)); [done|].
  apply wp_ret. split; [|by rewrite Ek]. eapply kept_trans; [exact Hk1|]. eapply kept_trans; [exact Hk2|].
  apply kept_store; [by apply open_block_meter, Hk2|done].
Qed.
End transactions.

(** ** Evaluated *)

Lemma sample_open : open_block sample_node sample_context.
Proof.
  constructor; [exact sample_ready|done|]. by exists sample_child.
Qed.

Definition sample_after (t : transaction) : context := state_of (apply_transaction [] [] t sample_context) sample_context.

(** A reverted transaction leaves no coins behind. *)
Lemma transaction_atomic_witness :
  exists rc, apply_transaction [] [] failing_transaction sample_context = Ret (inl rc) (sample_after failing_transaction) /\
    tr_reverted rc = true /\ open_block sample_node (sample_after failing_transaction) /\
    forall k, k <> nonce_key alice ->
      view_of (cx_store (sample_after failing_transaction)) 1 k = view_of sample_store 1 k.
Proof.
  eexists. split; [vm_compute; reflexivity|].
  pose proof (transaction_atomic [] [] sample_node sample_context failing_transaction sample_open) as H.
  assert (exists rc, apply_transaction [] [] failing_transaction sample_context =
    Ret (inl rc) (sample_after failing_transaction) /\ tr_reverted rc = true) as (rc & E & Hrc)
    by (eexists; split; [vm_compute; reflexivity|reflexivity]).
  split; [reflexivity|]. rewrite E in H. destruct H as (Ho & _ & Hrev). split; [exact Ho|].
  intros k Hk. exact (Hrev rc eq_refl Hrc (conj eq_refl eq_refl) k Hk).
Defined.

Definition two_transactions : list transaction := [mint_transaction; signed 2 []].
Definition sample_block_state : context :=
  state_of (apply_transactions [] [] two_transactions sample_context) sample_context.

Definition sample_receipts : list transaction_receipt :=
  match result_of (apply_transactions [] [] two_transactions sample_context) with Some (inl rs) => rs | _ => [] end.

Lemma block_nonces_consecutive_witness :
  apply_transactions [] [] two_transactions sample_context = Ret (inl sample_receipts) sample_block_state /\
  length sample_receipts = 2%nat /\ u64 (nonce_of (cx_store sample_block_state) 1 alice) = 2.
Proof.
  assert (apply_transactions [] [] two_transactions sample_context = Ret (inl sample_receipts) sample_block_state) as E
    by (vm_compute; reflexivity).
  destruct (block_nonces_consecutive [] [] sample_node two_transactions sample_context sample_receipts
    sample_block_state sample_open E) as (Hl & Hn & _).
  split; [exact E|]. split; [exact Hl|]. change 1%nat with (node_ptr sample_node). rewrite (Hn alice). vm_compute. reflexivity.
Defined.

Lemma block_no_replay_witness :
  tx_nonce mint_transaction <> tx_nonce (signed 2 []).
Proof.
  eapply (block_no_replay [] [] sample_node two_transactions sample_context _ sample_block_state 0 1
    mint_transaction (signed 2 []) sample_open); [vm_compute; reflexivity|vm_compute; reflexivity|reflexivity..| |reflexivity].
  lia.
Defined.

Lemma transaction_pays_witness :
  exists rc, apply_transaction [] [] mint_transaction sample_context = Ret (inl rc) (sample_after mint_transaction) /\
    tr_resource_used rc = tr_disk_storage_used rc * 10 + tr_network_bandwidth_used rc * 5
      + tr_compute_bandwidth_used rc * 1.
Proof.
  eexists. split; [vm_compute; reflexivity|].
  eapply (transaction_pays_what_it_uses [] [] sample_node sample_context mint_transaction _ (sample_after mint_transaction) sample_open).
  - done.
  - done.
  - done.
  - vm_compute. reflexivity.
Defined.
