(* ===== verification/SystemCalls.v ===== *)
(** * What programs may expect of the execution context

    The execution context keeps the promises of the system interface, so what
    is proved of a native program over that interface holds of it inside a
    block. The object spaces of different programs are disjoint, and the
    sizes [put] and [remove] report reach the meter as 64-bit unsigned
    numbers. *)

From stdpp Require Import base gmap list option numbers strings.
From S2P Require Import Prelude OrdMap Memory Errors Crypto Protocol Backend StateDelta StateNode.
From S2P Require Import ResourceMeter SystemInterface Coin ModuleCache ProgramContext HostApi.
From S2P Require Import ExecutionContext Samples ExecutionSafety Transactions.

(** ** The spaces of programs *)

(** The space [create_object_space] makes for the program [a]
    ([create_object_space_eq]). *)
Definition program_space (a : account) (id : Z) : option object_space :=
  space_of_bytes <$> splice 4 a (space_bytes (ObjectSpace false (zero_bytes object_space_padding_size) (zero_bytes address_size) id)).

Definition account_ok (a : account) : Prop := length a = account_length /\ bytes_ok a.

Lemma space_of_bytes_length b : length b = 40%nat -> length (space_bytes (space_of_bytes b)) = 40%nat.
Proof.
  intros Hb. unfold space_of_bytes, space_bytes. cbn [os_system os_padding os_address os_id].
  change (length (?x :: ?l)) with (S (length l)). rewrite !length_app, length_le_bytes, !length_take, !length_drop. lia.
Qed.

Lemma program_space_length a id s : program_space a id = Some s -> length (space_bytes s) = 40%nat.
Proof.
  unfold program_space. destruct (splice _ _ _) as [b|] eqn:E; [|done]. intros [= <-].
  apply space_of_bytes_length. by rewrite (splice_length _ _ _ _ E).
Qed.

(** Keys of two spaces of programs are different as soon as what follows the
    space is. *)
Lemma program_key_ne a id s a' id' s' k k' :
  program_space a id = Some s -> program_space a' id' = Some s' -> k <> k' ->
  make_compound_key s k <> make_compound_key s' k'.
Proof.
  intros Hs Hs' Hne H. apply app_inj_1 in H as [_ H]; [done|].
  by rewrite (program_space_length _ _ _ Hs), (program_space_length _ _ _ Hs').
Qed.

Lemma space_of_bytes_eq b :
  length b = 40%nat -> bytes_ok b -> head b = Some 0 -> space_bytes (space_of_bytes b) = b.
Proof.
  intros Hl Hok Hh. destruct b as [|x b]; [done|]. injection Hh as ->. unfold space_bytes, space_of_bytes.
  cbn [os_system os_padding os_address os_id head default]. change (negb (0 =? 0)) with false. cbv iota. f_equal.
  assert (length (take 4 (drop 36 (0 :: b))) = 4%nat) as H4 by (rewrite length_take, length_drop; lia).
  pose proof (le_bytes_val (take 4 (drop 36 (0 :: b))) ltac:(by apply Forall_take, Forall_drop)) as Hv.
  rewrite H4 in Hv. rewrite Hv.
  change (drop 1 (0 :: b)) with b. change (drop 4 (0 :: b)) with (drop 3 b). change (drop 36 (0 :: b)) with (drop 35 b).
  rewrite (take_ge (drop 35 b)) by (rewrite length_drop; cbn in Hl; lia).
  rewrite <- (take_drop 3 b) at 4. f_equal. rewrite <- (take_drop 32 (drop 3 b)) at 2. by rewrite drop_drop.
Qed.

(** The bytes of the space: the address field and the low byte of the id hold
    the account, the other bytes of the id follow. *)
Lemma program_space_bytes a id :
  account_ok a ->
  exists s, program_space a id = Some s /\ space_bytes s = zero_bytes 4 ++ a ++ le_bytes 3 (id / 256).
Proof.
  intros [Hl Hok]. set (b := zero_bytes 4 ++ a ++ le_bytes 3 (id / 256)).
  exists (space_of_bytes b). split.
  - unfold program_space, splice. rewrite Hl. reflexivity.
  - apply space_of_bytes_eq; [unfold b; rewrite !length_app, length_le_bytes, Hl; done| |done].
    unfold b. rewrite !Forall_app. split; [by apply zero_bytes_ok|]. split; [done|apply le_bytes_ok].
Qed.

Lemma program_key_eq a a' id id' s s' k k' :
  account_ok a -> account_ok a' -> program_space a id = Some s -> program_space a' id' = Some s' ->
  0 <= id < 2 ^ 32 -> 0 <= id' < 2 ^ 32 ->
  (make_compound_key s k = make_compound_key s' k' <-> a = a' /\ k = k' /\ id / 256 = id' / 256).
Proof.
  intros Ha Ha' Hs Hs' Hid Hid'.
  destruct (program_space_bytes a id Ha) as (s0 & Hs0 & Hb), (program_space_bytes a' id' Ha') as (s1 & Hs1 & Hb').
  simplify_eq. unfold make_compound_key. rewrite Hb, Hb'. split.
  - intros H. apply app_inj_1 in H as [H ->]; [|by rewrite !length_app, !length_le_bytes, (proj1 Ha), (proj1 Ha')].
    apply app_inv_head in H. apply app_inj_1 in H as [-> H]; [|by rewrite (proj1 Ha), (proj1 Ha')].
    split; [done|]. split; [done|]. apply (f_equal le_val) in H. rewrite !le_val_bytes in H.
    change (8 * Z.of_nat 3) with 24 in H.
    rewrite !Z.mod_small in H by (split; [apply Z.div_pos; lia|apply Z.div_lt_upper_bound; lia]). done.
  - intros (-> & -> & ->). done.
Qed.

(** ** Reading and writing, seen through the views *)

Lemma sd_get_fuel_view n : forall p k st v st',
  sd_get_fuel n p k st = Ret v st' -> v = view n (st_deltas st) p k /\ st' = st.
Proof.
  induction n as [|n IH]; intros p k st v st' H; [done|]. cbn [sd_get_fuel] in H.
  apply bind_Ret_inv in H as (d & st1 & Hd & H). unfold deref in Hd.
  destruct (st_deltas st !! p) as [d0|] eqn:Hp; [|done]. injection Hd as -> <-.
  apply bind_Ret_inv in H as (b & st1 & Hb & H). destruct (sd_backend d) as [b0|] eqn:Hbd; [|done].
  injection Hb as -> <-. cbn [view]. rewrite Hp, Hbd. cbn [mbind option_bind].
  destruct (backend_get k b) as [w|]; [by injection H as <- <-|]. unfold is_root in H.
  destruct (is_removed k d); [rewrite orb_true_r in H; by injection H as <- <-|]. rewrite orb_false_r in H.
  destruct (sd_parent d) as [q|]; [|by injection H as <- <-].
  apply bind_Ret_inv in H as (q' & st1 & Hq & H). injection Hq as <- <-. by apply IH.
Qed.

Lemma sd_get_view p k st v st' : sd_get p k st = Ret v st' -> v = view_of st p k /\ st' = st.
Proof. apply sd_get_fuel_view. Qed.

Lemma view_put n : forall st p d b k v r x,
  st_deltas st !! p = Some d -> sd_backend d = Some b -> x <> k ->
  view n (st_deltas (store_set p (with_backend (Some (backend_put k v b).2) d) st)) r x =
  view n (st_deltas st) r x.
Proof.
  induction n as [|n IH]; intros st p d b k v r x Hp Hb Hx; [done|]. cbn [view].
  destruct (decide (p = r)) as [<-|Hne].
  - rewrite store_set_lookup_eq, Hp, Hb. cbn [sd_backend with_backend mbind option_bind].
    unfold backend_get at 1. cbn [backend_put snd bk_map set_map].
    rewrite om_lookup_insert_ne by congruence. fold (backend_get x b).
    destruct (backend_get x b); [done|]. unfold is_removed. cbn [sd_removed sd_parent with_backend].
    destruct (om_mem x (sd_removed d)); [done|]. destruct (sd_parent d); [by apply IH|done].
  - rewrite store_set_lookup_ne by done. destruct (st_deltas st !! r) as [dr|]; [|done].
    destruct (sd_backend dr ≫= backend_get x); [done|]. destruct (is_removed x dr); [done|].
    destruct (sd_parent dr); [by apply IH|done].
Qed.

Lemma sd_put_Ret p k v st n st' :
  sd_put p k v st = Ret n st' ->
  view_of st' p k = Some v /\ forall r x, x <> k -> view_of st' r x = view_of st r x.
Proof.
  intros H. unfold sd_put in H. apply bind_Ret_inv in H as (d & st1 & Hd & H). unfold deref in Hd.
  destruct (st_deltas st !! p) as [d0|] eqn:Hp; [|done]. injection Hd as -> <-.
  destruct (sd_final d); [done|]. apply bind_Ret_inv in H as (pv & st1 & Hpv & H).
  assert (st1 = st) as ->.
  { unfold parent_value in Hpv. destruct (sd_parent d); [|by injection Hpv as _ <-]. by apply sd_get_view in Hpv as [_ ->]. }
  apply bind_Ret_inv in H as (b & st1 & Hb & H). destruct (sd_backend d) as [b0|] eqn:Hbd; [|done].
  injection Hb as -> <-. destruct (backend_put k v b) as [m b'] eqn:E. unfold write in H. rewrite bind_modify in H.
  injection H as _ <-. assert (b' = (backend_put k v b).2) as -> by (by rewrite E). split.
  - unfold view_of. cbn [view]. rewrite store_set_lookup_eq. cbn [sd_backend with_backend mbind option_bind].
    unfold backend_get. cbn [backend_put snd bk_map set_map]. by rewrite om_lookup_insert_eq.
  - intros r x Hx. by apply view_put.
Qed.

Section laws.
Context `{B3 : Blake3} `{Sig : Signatures} `{Fz : Fizzy}.
Context (run : tolerance -> account -> bytes -> list bytes -> M context (result program_frame)).

(** The backend key of an object of the running program. *)
Definition object_key (c : context) (id : Z) (k : bytes) : option bytes :=
  match cx_stack c with
  | f :: _ => (fun s => make_compound_key s k) <$> program_space (fr_program_id f) id
  | [] => None
  end.

(** The object the running program sees. *)
Definition ctx_slot (c : context) (id : Z) (k : bytes) : bytes :=
  default [] (n ← cx_node c; key ← object_key c id k; view_of (cx_store c) (node_ptr n) key).

Definition stdin_typed (c : context) : Prop :=
  match cx_stack c with f :: _ => bytes_ok (fr_stdin f) | [] => True end.

(** The objects of the running program read the same. *)
Definition same_objects (c c' : context) : Prop :=
  cx_store c' = cx_store c /\ cx_node c' = cx_node c /\
  (fr_program_id <$> head (cx_stack c')) = (fr_program_id <$> head (cx_stack c)).

Lemma same_objects_key c c' id k : same_objects c c' -> object_key c' id k = object_key c id k.
Proof using Type.
  intros (_ & _ & H). unfold object_key. destruct (cx_stack c), (cx_stack c'); cbn in H; try done.
  by injection H as ->.
Qed.

Lemma same_objects_slot c c' i x : same_objects c c' -> ctx_slot c' i x = ctx_slot c i x.
Proof using Type.
  intros H. unfold ctx_slot. rewrite (same_objects_key c c' i x H). destruct H as (-> & -> & _). done.
Qed.

#[export] Instance same_objects_preorder : PreOrder same_objects.
Proof using Type. split; [done|]. intros a b c (A1 & A2 & A3) (B1 & B2 & B3'). split; [congruence|]. split; congruence. Qed.

Lemma on_meter_objects {A} (m : M metering A) c r c' : on_meter m c = Ret r c' ->
  same_objects c c' /\ cx_stack c' = cx_stack c.
Proof using Type. unfold on_meter, zoom. destruct (m _); [|done..]. by intros [= <- <-]. Qed.

Lemma use_compute_objects c r c' : use_compute c = Ret r c' -> same_objects c c' /\ cx_stack c' = cx_stack c.
Proof using Type.
  unfold use_compute. intros H. apply bind_Ret_inv in H as (e & c1 & H1 & H).
  injection H as _ <-. by apply on_meter_objects in H1.
Qed.

Lemma the_node_Ret c n c' : the_node c = Ret n c' -> c' = c /\ cx_node c = Some n.
Proof using Type. unfold the_node, bind, gets. destruct (cx_node c); [|done]. by intros [= -> ->]. Qed.

Lemma create_space_Ret id c s c' : create_object_space id c = Ret s c' ->
  c' = c /\ forall k, object_key c id k = Some (make_compound_key s k).
Proof using Type.
  unfold create_object_space, peek_frame. cbv zeta. rewrite bind_assoc, bind_gets. unfold object_key, program_space.
  destruct (cx_stack c) as [|f t]; [done|]. rewrite bind_ret. destruct (splice _ _ _); [|done]. by intros [= <- <-].
Qed.

Lemma create_object_space_eq id c f t :
  cx_stack c = f :: t ->
  create_object_space id c = match program_space (fr_program_id f) id with Some s => Ret s c | None => Fault out_of_bounds end.
Proof using Type.
  intros Hst. unfold create_object_space, peek_frame. cbv zeta. rewrite bind_assoc, bind_gets, Hst, bind_ret. unfold program_space.
  by destruct (splice _ _ _).
Qed.

(** The shape of the operations on objects. *)
Lemma node_op_Ret {A B} id (op : ptr -> object_space -> M store A) (k : A -> M context B) c r c' :
  (let* n := the_node in use_compute ;;; let* space := create_object_space id in
   let* a := on_cstore (op (node_ptr n) space) in k a) c = Ret r c' ->
  exists n space c1 a st, cx_node c = Some n /\ same_objects c c1 /\ cx_stack c1 = cx_stack c /\
    (forall x, object_key c id x = Some (make_compound_key space x)) /\
    op (node_ptr n) space (cx_store c) = Ret a st /\ k a (set_cstore st c1) = Ret r c'.
Proof using Type.
  intros H. apply bind_Ret_inv in H as (n & c0 & Hn & H). apply the_node_Ret in Hn as [-> Hn].
  apply bind_Ret_inv in H as (u & c1 & Hu & H). apply use_compute_objects in Hu as [Hs Hst].
  apply bind_Ret_inv in H as (space & c2 & Hsp & H). apply create_space_Ret in Hsp as [-> Hk].
  apply bind_Ret_inv in H as (a & c2 & Ho & H). unfold on_cstore, zoom in Ho. rewrite (proj1 Hs) in Ho.
  destruct (op _ _ _) as [a' st| |] eqn:E; [|done..]. injection Ho as -> <-.
  exists n, space, c1, a, st. split; [done|]. split; [done|]. split; [done|]. split; [|done].
  intros x. by rewrite <- (same_objects_key c c1 id x Hs).
Qed.

Lemma ctx_get_law id k c v c' :
  ctx_get_object id k c = Ret v c' -> v = ctx_slot c id k /\ forall i x, ctx_slot c' i x = ctx_slot c i x.
Proof using Type.
  intros H. apply (node_op_Ret id (fun p s => sn_get p s k)) in H as (n & s & c1 & o & st & Hn & Hs & Hst & Hk & Hop & H).
  apply sd_get_view in Hop as [-> ->]. injection H as <- <-. split.
  - unfold ctx_slot. rewrite Hn. cbn [mbind option_bind]. by rewrite Hk.
  - intros i x. apply same_objects_slot. split; [done|apply Hs].
Qed.

Lemma ctx_put_law id k v c e c' :
  ctx_put_object id k v c = Ret e c' ->
  ctx_slot c' id k = v /\ forall i x, x <> k -> ctx_slot c' i x = ctx_slot c i x.
Proof using Type.
  intros H. apply (node_op_Ret id (fun p s => sn_put p s k v)) in H as (n & s & c1 & o & st & Hn & Hs & Hst & Hk & Hop & H).
  apply sd_put_Ret in Hop as [Hput Hsame]. apply on_meter_objects in H as [(H1 & H2 & H3) H4]. cbn in H1, H2, H3, H4.
  assert (forall i x, object_key c' i x = object_key c i x) as Hkey by (intros; unfold object_key; by rewrite H4, Hst).
  assert (cx_node c' = Some n) as Hn' by (by rewrite H2, (proj1 (proj2 Hs))).
  unfold ctx_slot. rewrite Hn', Hn, H1. cbn [mbind option_bind]. split.
  - rewrite Hkey, Hk. cbn [mbind option_bind]. by rewrite Hput.
  - intros i x Hx. rewrite Hkey. destruct (object_key c i x) as [key|] eqn:Ek; [|done]. cbn [mbind option_bind].
    rewrite Hsame; [done|]. specialize (Hk k). unfold object_key in Hk, Ek.
    destruct (cx_stack c) as [|f t]; [done|].
    destruct (program_space (fr_program_id f) i) as [s1|] eqn:E1; [|done].
    destruct (program_space (fr_program_id f) id) as [s2|] eqn:E2; [|done].
    apply (inj Some) in Ek as <-. apply (inj Some) in Hk as <-. by eapply program_key_ne.
Qed.

Lemma with_top_Ret {A} (g : stack_frame -> stack_frame) (h : stack_frame -> A) c r c' :
  (forall f, fr_program_id (g f) = fr_program_id f) ->
  (let* f := peek_frame in set_top (g f) ;;; ret (h f)) c = Ret r c' ->
  same_objects c c' /\ exists f t, cx_stack c = f :: t /\ cx_stack c' = g f :: t /\ r = h f.
Proof using Type.
  intros Hg. unfold peek_frame. rewrite bind_assoc, bind_gets. destruct (cx_stack c) as [|f t] eqn:E; [done|].
  rewrite bind_ret. unfold set_top. rewrite bind_modify. intros [= <- <-]. cbn. rewrite E. cbn.
  split; [split; [done|split; [done|]]|by eauto]. cbn. rewrite E. cbn. by rewrite Hg.
Qed.

Lemma ctx_read_law fd buf c e buf' c' :
  ctx_read fd buf c = Ret (e, buf') c' ->
  length buf' = length buf /\ (forall i x, ctx_slot c' i x = ctx_slot c i x) /\
  (stdin_typed c -> stdin_typed c' /\ (bytes_ok buf -> bytes_ok buf')).
Proof using Type.
  unfold ctx_read. intros H. apply bind_Ret_inv in H as (u & c1 & Hu & H). apply use_compute_objects in Hu as [Hs Hst].
  assert (stdin_typed c -> stdin_typed c1) as Ht by (unfold stdin_typed; by rewrite Hst).
  destruct (fd =? fd_stdin).
  2:{ injection H as <- <- <-. split; [done|]. split; [intros; by apply same_objects_slot|auto]. }
  cbv zeta in H. set (len f := Nat.min (length buf) (length (fr_stdin f) - fr_stdin_offset f)).
  apply (with_top_Ret
    (fun f => Frame (fr_program_id f) (fr_arguments f) (fr_stdin f) (fr_stdout f) (fr_stderr f) (fr_stdin_offset f + len f))
    (fun f => (ok_code, take (len f) (drop (fr_stdin_offset f) (fr_stdin f)) ++ drop (len f) buf))) in H
    as (Hs1 & f & t & Hc1 & Hc' & [= _ ->]); [|done].
  split; [rewrite length_app, length_take, !length_drop; unfold len; lia|].
  split; [intros; apply same_objects_slot; by etrans|]. intros Hty. specialize (Ht Hty).
  unfold stdin_typed in *. rewrite Hc1 in Ht. rewrite Hc'. split; [done|]. intros Hb.
  apply Forall_app. split; [by apply Forall_take, Forall_drop|by apply Forall_drop].
Qed.

Lemma ctx_write_law fd buf c e c' :
  ctx_write fd buf c = Ret e c' -> forall i x, ctx_slot c' i x = ctx_slot c i x.
Proof using Type.
  unfold ctx_write. intros H i x. apply bind_Ret_inv in H as (u & c1 & Hu & H). apply use_compute_objects in Hu as [Hs _].
  apply same_objects_slot. etrans; [exact Hs|]. destruct (fd =? fd_stdout); [|destruct (fd =? fd_stderr)].
  - eapply (with_top_Ret (fun f => Frame _ _ _ (fr_stdout f ++ buf) _ _) (fun _ => ok_code)) in H as [H _]; done.
  - eapply (with_top_Ret (fun f => Frame _ _ _ _ (fr_stderr f ++ buf) _) (fun _ => ok_code)) in H as [H _]; done.
  - by injection H as _ <-.
Qed.

Lemma ctx_caller_law c r c' : ctx_get_caller c = Ret r c' -> same_objects c c' /\ cx_stack c' = cx_stack c /\
  r = if (length (cx_stack c) =? 1)%nat then [] else default [] (fr_program_id <$> head (cx_stack c)).
Proof using Type.
  unfold ctx_get_caller. intros H. apply bind_Ret_inv in H as (u & c1 & Hu & H). apply use_compute_objects in Hu as [Hs Hst].
  rewrite bind_gets, Hst in H. destruct (length (cx_stack c) =? 1)%nat; [by injection H as <- <-|].
  unfold peek_frame in H. rewrite bind_assoc, bind_gets, Hst in H. destruct (cx_stack c) as [|f t]; [done|].
  rewrite bind_ret in H. injection H as <- <-. done.
Qed.

(** What asking for the authority of a program may do is what running it
    does. *)
Definition authority_run (c c' : context) : Prop :=
  exists a r, account_view_program a = true /\ ctx_check_authority run a c = Ret r c'.

(** The laws, with an invariant [Inv] that reading and asking for the caller
    keep. *)
Section invariant.
Context (Inv : context -> Prop) (Inv_read : forall fd buf c r c', ctx_read fd buf c = Ret r c' -> Inv c -> Inv c')
  (Inv_caller : forall c r c', ctx_get_caller c = Ret r c' -> Inv c -> Inv c').

Definition ctx_laws_with : SystemLaws (ctx_system run).
Proof using Inv_read Inv_caller.
  refine {| slot := ctx_slot; interference := authority_run; typed := fun c => stdin_typed c /\ Inv c |}.
  - apply ctx_get_law.
  - apply ctx_put_law.
  - intros fd buf c e buf' c' H. pose proof (Inv_read _ _ _ _ _ H) as Hi. apply ctx_read_law in H as (H1 & H2 & H3).
    split; [done|]. split; [done|]. intros [Ht HI]. destruct (H3 Ht). auto.
  - apply ctx_write_law.
  - intros c r c' H. pose proof (Inv_caller _ _ _ H) as Hi. apply ctx_caller_law in H as (H & Hst & _).
    split; [intros i x; by apply same_objects_slot|]. intros [Ht HI]. split; [|auto]. unfold stdin_typed. by rewrite Hst.
  - intros a c r c' H. cbn in H. destruct (account_view_program a) eqn:Ea; [by exists a, r|].
    pose proof (check_authority_user run a Ea c I) as Hp. rewrite H in Hp.
    intros i x. apply same_objects_slot. split; [apply Hp|]. split; [apply Hp|]. by rewrite (py_stack _ _ Hp).
Defined.
End invariant.

#[export] Instance ctx_laws : SystemLaws (ctx_system run) := ctx_laws_with (fun _ => True) (fun _ _ _ _ _ _ _ => I) (fun _ _ _ _ _ => I).
End laws.

Section calls.
Context `{B3 : Blake3} `{Sig : Signatures} `{Fz : Fizzy}.

(** C25. The execution context implements the system interface, for any way to run
    nested programs: the object a program sees under a key is what the current
    state node shows under the key of the program's space. *)
Theorem ctx_system_lawful (run : tolerance -> account -> bytes -> list bytes -> M context (result program_frame)) :
  exists L : SystemLaws (ctx_system run),
    forall c f t n id s k, cx_stack c = f :: t -> cx_node c = Some n ->
      create_object_space id c = Ret s c ->
      slot c id k = default [] (view_of (cx_store c) (node_ptr n) (make_compound_key s k)).
Proof.
  exists (ctx_laws run). intros c f t n id s k Hst Hn Hs. cbn [slot ctx_laws ctx_laws_with]. unfold ctx_slot.
  apply create_space_Ret in Hs as [_ Hs]. by rewrite Hn, (Hs k).
Qed.

(** C33. Programs cannot reach each other's objects: the spaces that
    [create_object_space] makes for two running programs, for any 32-bit ids,
    lead to the same backend key only for the same program, the same key and
    ids that are the same up to their low byte. *)
Theorem program_spaces_isolated c c' f f' t t' id id' k k' :
  cx_stack c = f :: t -> cx_stack c' = f' :: t' -> account_ok (fr_program_id f) -> account_ok (fr_program_id f') ->
  0 <= id < 2 ^ 32 -> 0 <= id' < 2 ^ 32 ->
  exists s s', create_object_space id c = Ret s c /\ create_object_space id' c' = Ret s' c' /\
    (make_compound_key s k = make_compound_key s' k' <-> fr_program_id f = fr_program_id f' /\ k = k' /\ id / 256 = id' / 256).
Proof.
  intros Hst Hst' Ha Ha' Hid Hid'. destruct (program_space_bytes _ id Ha) as (s & Hs & _), (program_space_bytes _ id' Ha') as (s' & Hs' & _).
  exists s, s'. rewrite (create_object_space_eq id c f t Hst), Hs, (create_object_space_eq id' c' f' t' Hst'), Hs'.
  do 2 (split; [done|]). by apply program_key_eq.
Qed.

(** [get_caller] of a called program is the program itself: it reads the top
    of the stack, which is the frame of the program that asks. *)
Theorem get_caller_is_self c f g t r c' :
  cx_stack c = f :: g :: t -> ctx_get_caller c = Ret r c' -> r = fr_program_id f.
Proof. intros Hst H. apply ctx_caller_law in H as (_ & _ & ->). by rewrite Hst. Qed.

(** ** Sizes *)

Lemma charge_disk cost amount sys m r m' :
  charge cost amount sys m = Ret r m' -> mt_remaining m' = mt_remaining m.
Proof.
  unfold charge. rewrite bind_gets. destruct (mt_session m) as [s|].
  - intros H. apply bind_Ret_inv in H as (u & m1 & Ha & H). unfold assert_that in Ha. destruct (negb _); [|done].
    injection Ha as _ <-. destruct (_ <? amount); [done|]. destruct (session_use _ s). rewrite bind_modify in H.
    by injection H as _ <-.
  - rewrite bind_modify. by intros [= _ <-].
Qed.

Lemma use_compute_disk c r c' :
  use_compute c = Ret r c' ->
  disk_storage (mt_remaining (cx_meter c')) = disk_storage (mt_remaining (cx_meter c)).
Proof.
  unfold use_compute. intros H. apply bind_Ret_inv in H as (e & c1 & H1 & H). injection H as _ <-.
  unfold on_meter, zoom, use_compute_bandwidth in H1. unfold bind at 1, gets, id in H1.
  destruct (_ <? compute_cost); [by injection H1 as _ <-|]. unfold bind at 1 in H1.
  destruct (charge _ _ _ _) as [e' m'| |] eqn:E; [|done..]. apply charge_disk in E.
  destruct (is_error e'); unfold bind, modify, ret in H1; injection H1 as _ <-; cbn; by rewrite E.
Qed.

(** A size below zero is more than any meter has left. *)
Lemma use_disk_negative n m :
  - 2 ^ 63 <= n < 0 -> 0 <= disk_storage (mt_remaining m) < 2 ^ 63 ->
  use_disk_storage (u64 n) m = Ret (controller_error controller_errc.disk_storage_limit_exceeded) m.
Proof.
  intros Hn Hd. unfold use_disk_storage. rewrite bind_gets. unfold id.
  assert (u64 n = n + 2 ^ 64) as ->.
  { unfold wrap. symmetry. apply Z.mod_unique with (-1); lia. }
  destruct (_ <=? _) eqn:E; bool_to_prop; [done|lia].
Qed.

(** Removing an object that is there always reports that the disk storage
    limit is exceeded, and removes it all the same. *)
Theorem remove_object_reports_limit c n f t d s id k v e c' :
  ready c -> cx_node c = Some n -> cx_stack c = f :: t -> program_space (fr_program_id f) id = Some s ->
  st_deltas (cx_store c) !! node_ptr n = Some d -> sd_final d = false ->
  is_removed (make_compound_key s k) d = false ->
  view_of (cx_store c) (node_ptr n) (make_compound_key s k) = Some v -> 40 + zlen k + zlen v < 2 ^ 63 ->
  0 <= disk_storage (mt_remaining (cx_meter c)) < 2 ^ 63 ->
  ctx_remove_object id k c = Ret e c' ->
  e = controller_error controller_errc.disk_storage_limit_exceeded /\
  view_of (cx_store c') (node_ptr n) (make_compound_key s k) = None.
Proof.
  intros Hr Hn Hst Hs Hd Hf Hrm Hv Hsize Hdisk H. destruct (rd_node _ Hr) as (n' & Hn' & Hl).
  assert (n' = n) as -> by congruence. destruct (live_lookup _ _ Hl) as (d' & b & Hd' & Hb).
  assert (d' = d) as -> by congruence.
  destruct (sd_remove_view (cx_store c) (node_ptr n) d b (make_compound_key s k) (rd_store _ Hr) Hl Hd Hb Hf)
    as (z & st & Hrun & _ & _ & _ & Hview & _ & Hz); [done|]. specialize (Hz Hrm). rewrite Hv in Hz. cbn [entry_size] in Hz.
  unfold ctx_remove_object in H. apply bind_Ret_inv in H as (n0 & c0 & H0 & H). apply the_node_Ret in H0 as [-> H0].
  assert (n0 = n) as -> by congruence. apply bind_Ret_inv in H as (u & c1 & Hu & H).
  pose proof (use_compute_disk _ _ _ Hu) as Hdisk1. apply use_compute_objects in Hu as [Hs1 Hst1].
  apply bind_Ret_inv in H as (s' & c2 & Hsp & H). apply create_space_Ret in Hsp as [-> Hk].
  specialize (Hk k). unfold object_key in Hk. rewrite Hst1, Hst, Hs in Hk. apply (inj Some) in Hk.
  apply bind_Ret_inv in H as (z' & c2 & Ho & H). unfold on_cstore, zoom, sn_remove in Ho.
  rewrite <- Hk, (proj1 Hs1), Hrun in Ho. injection Ho as <- <-.
  unfold on_meter, zoom in H. cbn [cx_meter set_cstore] in H. rewrite use_disk_negative in H; [|split|by rewrite Hdisk1].
  - injection H as <- <-. split; [done|]. cbn [cx_store set_cstore set_meter]. by rewrite Hview, bytes_eqb_refl.
  - rewrite Hz. unfold make_compound_key. rewrite zlen_app. unfold zlen at 1. rewrite (program_space_length _ _ _ Hs). lia.
  - rewrite Hz. unfold make_compound_key. rewrite zlen_app. pose proof (zlen_nonneg k). pose proof (zlen_nonneg v).
    unfold zlen at 1. rewrite (program_space_length _ _ _ Hs). lia.
Qed.

Lemma nonce_key_length a : account_ok a -> zlen (nonce_key a) = 73.
Proof. intros [Ha _]. unfold nonce_key, make_compound_key. rewrite zlen_app. unfold zlen at 2. by rewrite Ha. Qed.

(** An account that has a nonce before a block can have one transaction in it:
    the second update of the nonce in the block's node is charged a negative
    size, which exceeds every limit. *)
Theorem second_nonce_update_refused n c a z d b v0 v1 e c' :
  open_block n c -> account_ok a -> st_deltas (cx_store c) !! node_ptr n = Some d -> sd_backend d = Some b ->
  backend_get (nonce_key a) b = Some v1 -> length v1 = 8%nat ->
  parent_view (cx_store c) d (nonce_key a) = Some v0 -> length v0 = 8%nat ->
  0 <= disk_storage (mt_remaining (cx_meter c)) < 2 ^ 63 ->
  set_account_nonce a z c = Ret e c' -> e = controller_error controller_errc.disk_storage_limit_exceeded.
Proof.
  intros Hob Ha Hd Hb Hv1 Hl1 Hv0 Hl0 Hdisk H. pose proof (open_block_live _ _ Hob) as Hl.
  pose proof Hob as [Hr Hn (d' & Hd' & Hf)]. assert (d' = d) as -> by congruence.
  unfold set_account_nonce in H. apply bind_Ret_inv in H as (n0 & c0 & H0 & H). apply the_node_Ret in H0 as [-> H0].
  assert (n0 = n) as -> by congruence. apply bind_Ret_inv in H as (size & c1 & Ho & H).
  unfold on_cstore, zoom, sn_put in Ho. fold (nonce_key a) in Ho.
  rewrite (sd_put_eq _ _ d b) in Ho; [|apply (rd_store _ Hr)|done..].
  pose proof (delta_wf_backend _ _ _ _ (rd_store _ Hr) Hd Hb) as Hbw.
  assert ((backend_put (nonce_key a) (le_bytes 8 z) b).1 = 0) as Hput.
  { unfold backend_put. cbn [fst]. unfold backend_get in Hv1. rewrite (om_lower_bound_lookup _ (bk_map b)) in Hv1 by done.
    destruct (om_lower_bound _ _) as [|[k' v'] ?]; [done|]. destruct (bytes_eqb (nonce_key a) k'); [|done].
    injection Hv1 as ->. unfold zlen. by rewrite length_le_bytes, Hl1. }
  rewrite Hput, Hv0 in Ho. cbn [entry_size] in Ho. rewrite nonce_key_length in Ho by done.
  unfold zlen in Ho. rewrite Hl0 in Ho. generalize dependent (store_set (node_ptr n)
    (with_backend (Some (backend_put (nonce_key a) (le_bytes 8 z) b).2) d) (cx_store c)). intros st Ho.
  injection Ho as <- <-. unfold on_meter, zoom in H. cbn [cx_meter set_cstore] in H.
  rewrite use_disk_negative in H; [by injection H as <- _|lia|done].
Qed.
End calls.

(** ** Evaluated *)

Lemma alice_program_ok : account_ok alice_program.
Proof. split; [done|]. apply bytes_check. by vm_compute. Qed.
Lemma alice_ok : account_ok alice.
Proof. split; [done|]. apply bytes_check. by vm_compute. Qed.

Definition two_frames : context :=
  set_stack [Frame alice_program [] [] [] [] 0; Frame (system_program (str_bytes "coin")) [] [] [] [] 0] sample_context.

(** The ids 0 and 1 of a program are one space. *)
Lemma program_spaces_isolated_witness :
  exists s s', create_object_space 0 two_frames = Ret s two_frames /\ create_object_space 1 two_frames = Ret s' two_frames /\
    make_compound_key s [5] = make_compound_key s' [5].
Proof.
  destruct (program_spaces_isolated two_frames two_frames _ _ _ _ 0 1 [5] [5] eq_refl eq_refl alice_program_ok alice_program_ok)
    as (s & s' & H1 & H2 & H3); [lia|lia|].
  exists s, s'. split; [exact H1|]. split; [exact H2|]. apply H3. split; [reflexivity|]. split; reflexivity.
Defined.

Lemma get_caller_is_self_witness :
  exists r c', ctx_get_caller two_frames = Ret r c' /\ r = alice_program.
Proof.
  eexists _, _. split; [vm_compute; reflexivity|].
  eapply (get_caller_is_self two_frames _ _ _ _ _ eq_refl). vm_compute. reflexivity.
Defined.

(** A block node in which alice's program has an object and alice a nonce, over
    a genesis in which she had one. *)
Definition used_space : object_space := default default_space (program_space alice_program 0).
Definition used_objects : list (bytes * bytes) :=
  om_insert (nonce_key alice) (le_bytes 8 2) [(make_compound_key used_space [5], [9])].
Definition used_root : state_delta :=
  Delta None (Some (set_map [(nonce_key alice, le_bytes 8 1)] (new_backend null_id 0))) [] None true.
Definition used_child : state_delta :=
  Delta (Some 0%nat) (Some (set_map used_objects (new_backend (1 :: zero_bytes 31) 1))) [] None false.
Definition used_store : store := Store 2 (<[1%nat := used_child]> (<[0%nat := used_root]> ∅)).
Definition used_context : context :=
  set_stack [Frame alice_program [] [] [] [] 0] (set_cstore used_store sample_context).

Lemma used_ready : ready used_context.
Proof.
  constructor; [apply store_check_wf; by vm_compute| |cbn; unfold default_stack_limit; lia].
  exists sample_node. split; [done|]. eapply live_child; [reflexivity..|]. by eapply live_root.
Qed.

Lemma remove_object_reports_limit_witness :
  exists e c', ctx_remove_object 0 [5] used_context = Ret e c' /\
    e = controller_error controller_errc.disk_storage_limit_exceeded /\
    view_of (cx_store c') 1 (make_compound_key used_space [5]) = None.
Proof.
  eexists _, _. split; [vm_compute; reflexivity|].
  eapply (remove_object_reports_limit used_context sample_node _ _ used_child used_space 0 [5] [9] _ _ used_ready
    eq_refl eq_refl); [by vm_compute|done|done|by vm_compute|by vm_compute|by vm_compute|by vm_compute|].
  vm_compute. reflexivity.
Defined.

Lemma second_nonce_update_refused_witness :
  exists e c', set_account_nonce alice 3 used_context = Ret e c' /\
    e = controller_error controller_errc.disk_storage_limit_exceeded.
Proof.
  eexists _, _. split; [vm_compute; reflexivity|].
  eapply (second_nonce_update_refused sample_node used_context alice 3 used_child _ (le_bytes 8 1) (le_bytes 8 2));
    [|exact alice_ok|done|done|by vm_compute|done|by vm_compute|done|by vm_compute|vm_compute; reflexivity].
  constructor; [exact used_ready|done|by exists used_child].
Defined.
