(* ===== verification/CoinSafety.v ===== *)
(** * The coins of a node

    The coin program inside the execution context: no program, however it is
    called and whichever programs it calls, can make or destroy coins. The coin
    program keeps its ledger balanced over any lawful system (Coin); here the
    system is the execution context, and the programs it runs to ask for their
    authority are arbitrary. *)

From stdpp Require Import base gmap list option numbers strings.
From S2P Require Import Prelude OrdMap Memory Errors Crypto Protocol Backend StateDelta StateNode.
From S2P Require Import ResourceMeter SystemInterface Coin ModuleCache ProgramContext HostApi.
From S2P Require Import ExecutionContext Samples ExecutionSafety Transactions SystemCalls.

Definition coin_program : account := system_program (str_bytes "coin").

(** The backend keys of the coin program. *)
Definition coin_key (k : bytes) : Prop := exists id s x, program_space coin_program id = Some s /\ k = make_compound_key s x.

(** The keys a user program cannot write: those of the system and the coins. *)
Definition guarded_key (k : bytes) : Prop := system_key k \/ coin_key k.

(** The fifth byte of a key of a program is the prefix of its account. *)
Lemma space_bytes_lookup b : length b = 40%nat -> space_bytes (space_of_bytes b) !! 4%nat = b !! 4%nat.
Proof.
  intros Hb. do 40 (destruct b as [|? b]; [done|]). destruct b; [|done]. reflexivity.
Qed.

Lemma program_space_prefix a id s : a <> [] -> program_space a id = Some s -> space_bytes s !! 4%nat = head a.
Proof.
  intros Ha Hs. unfold program_space in Hs. destruct (splice _ _ _) as [b|] eqn:E; [|done]. injection Hs as <-.
  pose proof (splice_length _ _ _ _ E) as Hl. rewrite space_bytes_lookup by (by rewrite Hl). unfold splice in E.
  destruct (_ <=? _)%nat in E; [|done]. injection E as <-. by destruct a.
Qed.

Lemma program_key_prefix a id s k : a <> [] -> program_space a id = Some s -> make_compound_key s k !! 4%nat = head a.
Proof.
  intros Ha Hs. unfold make_compound_key. rewrite lookup_app_l by (rewrite (program_space_length _ _ _ Hs); lia).
  by apply (program_space_prefix a id).
Qed.

Section coin.
Context `{B3 : Blake3} `{Sig : Signatures} `{Fz : Fizzy}.

(** The ledger of the coin program, as its objects read in the current node. *)
Definition as_coin (c : context) : context := set_stack [Frame coin_program [] [] [] [] 0] c.
Definition no_run : tolerance -> account -> bytes -> list bytes -> M context (result program_frame) :=
  fun _ _ _ _ => ret (inr (controller_error controller_errc.invalid_program)).
Definition coin_balanced (c : context) : Prop := balanced (ctx_system no_run) (as_coin c).

Lemma as_coin_key c id x k : object_key (as_coin c) id x = Some k -> coin_key k.
Proof.
  unfold object_key. cbn [cx_stack as_coin set_stack fr_program_id]. intros Hk. apply bind_Some in Hk as (s & E & Hk). injection Hk as <-. by exists id, s, x.
Qed.

Lemma coin_balanced_same c c' :
  cx_node c' = cx_node c ->
  (forall n k, cx_node c = Some n -> coin_key k -> view_of (cx_store c') (node_ptr n) k = view_of (cx_store c) (node_ptr n) k) ->
  coin_balanced c -> coin_balanced c'.
Proof.
  intros Hn Hv. apply balanced_same. intros i x. cbn [slot ctx_laws ctx_laws_with]. unfold ctx_slot. cbn [cx_node as_coin set_stack cx_store].
  rewrite Hn. destruct (cx_node c) as [n|] eqn:En; [|done]. cbn [mbind option_bind].
  change (object_key (as_coin c') i x) with (object_key (as_coin c) i x).
  destruct (object_key (as_coin c) i x) as [k|] eqn:Ek; [|done]. cbn [mbind option_bind]. rewrite Hv; [done|done|by eapply as_coin_key].
Qed.

(** What a run may do: what programs may do, without unbalancing the coins. *)
Definition conserves (c c' : context) : Prop := inside system_key c c' /\ (ready c -> coin_balanced c -> coin_balanced c').

#[export] Instance conserves_preorder : PreOrder conserves.
Proof.
  split; [intros c; split; [reflexivity|done]|]. intros a b c [H1 H2] [H3 H4]. split; [by etrans|].
  intros Hr Hb. apply H4; [by eapply ready_inside|by apply H2].
Qed.

#[export] Instance conserves_stable (P : context -> Prop) `{!Stable P (inside system_key)} : Stable P conserves.
Proof. intros c c' Hc [H _]. by eapply stable. Qed.

Lemma inside_conserves (prot : bytes -> Prop) c c' :
  (forall k, guarded_key k -> prot k) -> ready c -> inside prot c c' -> conserves c c'.
Proof.
  intros Hp Hr Hi. split; [eapply inside_weaken; [|exact Hi]; intros k Hk; apply Hp; by left|]. intros _.
  apply coin_balanced_same; [apply Hi|]. intros n k Hn Hk. destruct (rd_node _ Hr) as (n' & Hn' & Hl).
  assert (n' = n) as -> by congruence. apply (in_store _ _ _ Hi n Hn (rd_store _ Hr) Hl). apply Hp. by right.
Qed.

(** The frame on top is that of the program [a]. *)
Definition running (a : account) (fuel : nat) (c : context) : Prop :=
  fueled fuel c /\ exists f t, cx_stack c = f :: t /\ fr_program_id f = a.

#[export] Instance running_stable a fuel prot : Stable (running a fuel) (inside prot).
Proof.
  intros c c' [Hf (f & t & Hst & Ha)] Hi. split; [by eapply stable|]. pose proof (in_stack _ _ _ Hi) as Hk. rewrite Hst in Hk.
  destruct (cx_stack c') as [|f' t'] eqn:E; [done|]. destruct Hk as [-> Hid]. exists f', t. split; [done|congruence].
Qed.

Lemma running_ready a fuel c : running a fuel c -> ready c.
Proof. by intros [[Hr _] _]. Qed.

(** A user program's spaces hold neither system keys nor coins. *)
Lemma user_space_guarded a fuel c id sp k :
  account_get_type a = program -> running a fuel c -> create_object_space id c = Ret sp c -> ~ guarded_key (make_compound_key sp k).
Proof.
  intros Ha [_ (f & t & Hst & Hid)] Hsp. rewrite (create_object_space_eq id c f t Hst), Hid in Hsp.
  assert (exists a', a = 1 :: a') as [a' Ea].
  { unfold account_get_type, account_prefix_to_type, prefix_of in Ha. destruct a as [|x a']; [done|]. cbn in Ha. exists a'.
    repeat (case_bool; [bool_to_prop; try done; by subst|]). done. }
  subst a. destruct (program_space _ id) as [s|] eqn:Es; [|done]. injection Hsp as ->.
  intros [Hs|(id' & s' & x & Hs' & E)].
  - unfold system_key in Hs. rewrite compound_system in Hs. unfold program_space in Es. destruct (splice _ _ _) as [b|] eqn:Eb; [|done].
    injection Es as <-. unfold splice in Eb. destruct (_ <=? _)%nat in Eb; [|done]. by injection Eb as <-.
  - pose proof (program_key_prefix (fr_program_id f) id sp k ltac:(by rewrite Ea) Es) as H1. rewrite Ea, E, (program_key_prefix coin_program id' s' x ltac:(by vm_compute) Hs') in H1. by vm_compute in H1.
Qed.

Context (uninit1 uninit2 : bytes) (Hu1 : is_account uninit1) (Hu2 : is_account uninit2).
Abbreviation run_program := (run_program uninit1 uninit2).

Section frame.
Context (fuel : nat) (IH : forall t a b l, bytes_ok b -> guarded (fueled fuel) conserves (run_program fuel t a b l)).

Lemma nested a : forall t a' b l, bytes_ok b -> guarded (running a fuel) conserves (run_program fuel t a' b l).
Proof using IH. intros t a' b l Hb c [Hc _]. by apply IH. Qed.

Lemma finish_conserves a b l e : guarded (running a fuel) conserves (finish_program a b l e).
Proof.
  intros c Hc. pose proof (finish_program_guarded (fun _ => True) (running a fuel) a b l e c Hc) as H.
  destruct (finish_program a b l e c); [apply (inside_conserves (fun _ => True)); [done|by eapply running_ready|apply H]..|done].
Qed.

Lemma user_conserves a : account_get_type a = program -> guarded (running a fuel) conserves (execute_user_program (run_program fuel) a).
Proof using B3 IH.
  intros Ha. eapply (execute_user_guarded guarded_key).
  - apply _.
  - apply running_ready.
  - intros c id sp k Hc E. by eapply user_space_guarded.
  - apply _.
  - apply _.
  - intros c c' Hc [Hi _]. apply (inside_conserves guarded_key); [done|by eapply running_ready|done].
  - apply nested.
  - intros c x Hc. apply (inside_conserves guarded_key); [done|by eapply running_ready|]. constructor; try done; reflexivity.
Qed.

(** While the coin program runs, its objects are what the ledger reads. *)
Lemma running_coin c :
  running coin_program fuel c -> forall i x, ctx_slot c i x = ctx_slot (as_coin c) i x.
Proof.
  intros [_ (f & t & Hst & Hid)] i x. symmetry. apply same_objects_slot. split; [done|]. split; [done|]. rewrite Hst. cbn. by f_equal.
Qed.

Definition coin_laws : SystemLaws (ctx_system (run_program fuel)).
Proof.
  refine (ctx_laws_with (run_program fuel) (running coin_program fuel) _ _).
  - intros fd buf c r c' H Hc. pose proof (read_guarded (fun _ => True) (running coin_program fuel) fd buf c Hc) as Hg. rewrite H in Hg. exact (stable _ _ Hc Hg).
  - intros c r c' H Hc. pose proof (get_caller_guarded (fun _ => True) (running coin_program fuel) c Hc) as Hg. rewrite H in Hg. exact (stable _ _ Hc Hg).
Defined.

Lemma authority_conserves a : guarded (running coin_program fuel) conserves (ctx_check_authority (run_program fuel) a).
Proof using B3 IH.
  eapply (check_authority_guarded (fun _ => True)).
  - apply _.
  - apply _.
  - apply _.
  - intros c c' Hc [Hi _]. apply (inside_conserves (fun _ => True)); [done|by eapply running_ready|done].
  - apply nested.
Qed.

Lemma coin_conserves args c e c' :
  running coin_program fuel c -> stdin_typed c -> coin_run (ctx_system (run_program fuel)) uninit1 uninit2 args c = Ret e c' ->
  inside system_key c c' -> coin_balanced c -> coin_balanced c'.
Proof using B3 Hu1 Hu2 IH.
  intros Hc Ht Hrun Hin Hb. assert (running coin_program fuel c') as Hc' by (by eapply stable).
  assert (forall d, running coin_program fuel d -> balanced (laws := coin_laws) (ctx_system (run_program fuel)) d <-> coin_balanced d) as Hsame.
  { intros d Hd. split; apply (balanced_same (laws := coin_laws) (ctx_system (run_program fuel))); intros i x; cbn [slot coin_laws ctx_laws_with];
      [symmetry|]; by apply running_coin. }
  apply (proj1 (Hsame c' Hc')). eapply (coin_run_balanced (laws := coin_laws) _ uninit1 uninit2 Hu1 Hu2); [|exact Hrun|by split|by apply Hsame].
  intros x y [_ Hx] (a & r & _ & Ha) Hbx. pose proof (authority_conserves a x Hx) as Hg. rewrite Ha in Hg. destruct Hg as [Hi Hg].
  assert (running coin_program fuel y) as Hy by (by eapply stable). apply (proj2 (Hsame y Hy)), Hg; [by eapply running_ready|].
  by apply (proj1 (Hsame x Hx)).
Qed.

Lemma native_conserves a c :
  running a fuel c -> stdin_typed c ->
  match execute_native_program (run_program fuel) uninit1 uninit2 a c with
  | Ret _ c' | Throw _ c' => conserves c c'
  | Fault f => f <> out_of_fuel
  end.
Proof using B3 Hu1 Hu2 IH.
  intros Hc Ht. assert (guarded (running a fuel) (inside system_key) (execute_native_program (run_program fuel) uninit1 uninit2 a)) as Hg.
  { eapply (execute_native_guarded system_key); [apply _|apply running_ready| |apply _|apply _|by intros ? ? ? []|].
    - intros d id sp k Hd E. by eapply (space_unprotected system_key).
    - intros t a' b l Hb d Hd. pose proof (nested a t a' b l Hb d Hd) as H. destruct (run_program fuel t a' b l d); [by destruct H..|done]. }
  specialize (Hg c Hc). unfold execute_native_program in *. destruct (bytes_eqb a (system_program (str_bytes "coin"))) eqn:E.
  - apply bytes_eqb_eq in E. fold coin_program in E. subst a. pose proof Hc as [_ (f & t & Hst & Hid)]. unfold noexcept in *. unfold peek_frame in *.
    rewrite bind_assoc, bind_gets, Hst, bind_ret in Hg |- *. destruct (coin_run _ _ _ _ c) as [e c'|e c'|f'] eqn:Er; [|done|done].
    split; [done|]. intros _. by eapply coin_conserves.
  - split; [done|]. done.
Qed.

Lemma after_conserves t a b l category code : guarded (running a fuel) conserves (run_after t a b l category code).
Proof. pose proof (finish_conserves a b l code). unfold run_after. guarded_auto. Qed.

Lemma body_conserves t a b l c :
  running a fuel c -> stdin_typed c ->
  match run_body uninit1 uninit2 fuel t a b l c with
  | Ret _ c' | Throw _ c' => conserves c c'
  | Fault f => f <> out_of_fuel
  end.
Proof using B3 Hu1 Hu2 IH.
  intros Hc Ht. unfold run_body. destruct (account_get_type a) eqn:Ea; [cbn; reflexivity| | |cbn; reflexivity].
  - apply (guarded_bind (running a fuel) conserves); [by apply user_conserves|intros; apply after_conserves|done].
  - unfold bind. pose proof (native_conserves a c Hc Ht) as Hn.
    destruct (execute_native_program _ _ _ _ _) as [e c2|e c2|f]; [|done|done].
    assert (running a fuel c2) as Hc2 by (exact (stable _ _ Hc Hn)). pose proof (after_conserves t a b l program_category e c2 Hc2) as H. cbv beta in *.
    destruct (run_after _ _ _ _ _ _ c2); [by etrans..|done].
Qed.
End frame.

Lemma run_program_conserves fuel t a b l : bytes_ok b -> guarded (fueled fuel) conserves (run_program fuel t a b l).
Proof using B3 Hu1 Hu2.
  revert t a b l. induction fuel as [|fuel IH]; intros t a b l Hb c Hc; [by destruct (fueled_0 c)|].
  pose proof (run_program_guarded uninit1 uninit2 system_key (fun _ H => H) (S fuel) t a b l c Hc) as Hin.
  destruct (run_program_cases uninit1 uninit2 fuel t a b l c Hc) as [E|[Hc1 E]]; rewrite E in Hin |- *; [reflexivity|].
  set (c1 := set_stack _ c) in *. assert (running a fuel c1) as Hr1 by (split; [done|by eexists _, _]).
  pose proof (body_conserves fuel IH t a b l c1 Hr1 Hb) as Hbody. unfold finally in *.
  destruct (run_body _ _ _ _ _ _ _ _) as [r c2|e c2|f]; [..|done].
  all: destruct Hin as [Hin _]; split; [exact Hin|]; intros Hr Hcb; apply (proj2 Hbody); [by eapply running_ready|exact Hcb].
Qed.

(** C18. Coins are conserved by everything a program does: whichever program is
    run on a ready context, user program or native one, with standard input that
    holds bytes, and whichever programs run on its behalf, when the run returns,
    with or without an error, or throws, and the ledger of the coin program was
    balanced in the current node, it is balanced: the accounts hold exactly the
    supply, no amount is negative and none has wrapped. [uninit1] and [uninit2]
    are the two account variables [coin::run] leaves uninitialised. *)
Theorem coin_conservation t a b l c :
  ready c -> bytes_ok b -> coin_balanced c ->
  match run uninit1 uninit2 t a b l c with
  | Ret _ c' | Throw _ c' => coin_balanced c'
  | Fault _ => True
  end.
Proof using B3 Hu1 Hu2.
  intros Hc Hb Hcb. pose proof (run_program_conserves program_fuel t a b l Hb c (ready_fueled c Hc)) as H. unfold run.
  destruct (run_program program_fuel t a b l c); [by apply H..|done].
Qed.
End coin.

(** ** Evaluated *)

Lemma coin_key_not_system k : coin_key k -> ~ system_key k.
Proof.
  intros (id & s & x & Hs & ->). unfold system_key. rewrite compound_system. unfold program_space in Hs.
  destruct (splice _ _ _) as [b|] eqn:E; [|done]. injection Hs as <-. unfold splice in E. destruct (_ <=? _)%nat in E; [|done].
  by injection E as <-.
Qed.

(** Before the first coin is made there are none. *)
Lemma no_coins_balanced c :
  (forall n k, cx_node c = Some n -> coin_key k -> view_of (cx_store c) (node_ptr n) k = None) -> coin_balanced c.
Proof.
  intros H. assert (forall i x, ctx_slot (as_coin c) i x = []) as Hs.
  { intros i x. unfold ctx_slot. cbn [cx_node as_coin set_stack cx_store]. destruct (cx_node c) as [n|]; [|done]. cbn [mbind option_bind].
    destruct (object_key (as_coin c) i x) as [k|] eqn:Ek; [|done]. cbn [mbind option_bind]. rewrite H; [done|done|by eapply as_coin_key]. }
  assert (forall a, balance (ctx_system no_run) (as_coin c) a = 0) as Hb by (intros a; unfold balance; cbn [slot ctx_laws ctx_laws_with]; by rewrite Hs).
  assert (supply (ctx_system no_run) (as_coin c) = 0) as Hsup by (unfold supply; cbn [slot ctx_laws ctx_laws_with]; by rewrite Hs).
  split; [intros a _; by rewrite Hb|]. rewrite Hsup. split; [done|]. exists []. split; [apply NoDup_nil_2|]. split; [done|]. by rewrite Hsup.
Qed.

Lemma sample_view k : view_of sample_store 1 k = if bytes_eqb k (make_compound_key space_metadata genesis_key) then Some alice_key else None.
Proof.
  transitivity (match (if bytes_eqb k (make_compound_key space_metadata genesis_key) then Some alice_key else None) with Some v => Some v | None => None end);
    [reflexivity|by case_bool].
Qed.

Lemma sample_balanced : coin_balanced sample_context.
Proof.
  apply no_coins_balanced. intros n k Hn Hk. injection Hn as <-. apply coin_key_not_system in Hk.
  change (view_of sample_store 1 k = None). rewrite sample_view. case_bool; bool_to_prop; [|done]. subst. by destruct Hk.
Qed.

(** Fifty coins are minted for alice, through the coin program. *)
Lemma coin_conservation_witness :
  ready sample_context /\
  match run uninit_account uninit_account strict coin_program (le_bytes 4 7 ++ alice ++ le_bytes 8 50) [] sample_context with
  | Ret _ c' | Throw _ c' => coin_balanced c' /\ supply (ctx_system no_run) (as_coin c') = 50
  | Fault _ => False
  end.
Proof.
  split; [exact sample_ready|].
  pose proof (coin_conservation uninit_account uninit_account eq_refl eq_refl strict coin_program (le_bytes 4 7 ++ alice ++ le_bytes 8 50) []
    sample_context sample_ready ltac:(apply bytes_check; by vm_compute) sample_balanced) as H.
  destruct (run _ _ _ _ _ _ sample_context) as [r c'|e c'|f] eqn:E; vm_compute in E; [|done|done].
  split; [exact H|]. injection E as _ <-. by vm_compute.
Defined.
