(* ===== verification/NodeSafety.v ===== *)
(** * Programs on a node

    The execution context with the interpreter of FizzyNode: the programs a node
    runs stay in their memory and come to an end, however they call each other
    through the authority they ask for. What GuestSafety asks of the system a
    program runs on, that it respects buffers and that its meter does not rise,
    is proved here of the execution context itself, together with the programs
    it runs in turn. *)

From stdpp Require Import base gmap list option numbers strings.
From S2P Require Import Prelude OrdMap Memory Errors Crypto Protocol Backend StateDelta StateNode.
From S2P Require Import ResourceMeter SystemInterface Coin ModuleCache ProgramContext HostApi GuestMemory.
From S2P Require Import FizzyLeb128 FizzyTypes FizzyParser FizzyParserSafety FizzyCertify FizzyNumeric FizzyExecute FizzyInstantiate FizzyInstantiateSafety FizzyApi FizzyNode GuestSafety.
From S2P Require Import ExecutionContext Samples ExecutionSafety SystemCalls.

(** ** The coin program *)

Section coin_stays.
Context (bad : fault) (Hbad : lost bad = true) {S : Type} (P : S -> Prop) (sys : system_interface S) `{Bs : !BoundedSystem bad P sys}.
Context (uninit1 uninit2 : bytes) (Hu1 : is_account uninit1) (Hu2 : is_account uninit2).

Lemma stays_ret {A} (a : A) : stays bad P (ret a).
Proof. by intros s Hs. Qed.
Lemma stays_throw {A} e : stays bad P (throw (A := A) e).
Proof. by intros s Hs. Qed.
Lemma stays_fail {A} f : lost f = false -> stays bad P (fail (A := A) f).
Proof using Hbad. intros Hf s Hs. unfold wp_but, fail. congruence. Qed.
Lemma stays_bind {A B} (m : M S A) (k : A -> M S B) : stays bad P m -> (forall a, stays bad P (k a)) -> stays bad P (bind m k).
Proof. intros Hm Hk s Hs. apply wp_bind. eapply wp_mono; [|done|by apply Hm]. intros a s' Hs'. by apply Hk. Qed.
Lemma stays_assert b : stays bad P (assert_that b).
Proof using Hbad. destruct b; [apply stays_ret|by apply stays_fail]. Qed.

(** What is read has the length of the buffer. *)
Lemma stays_read {B} b (k : bytes -> M S B) :
  (forall b', length b' = length b -> stays bad P (k b')) -> stays bad P (let* x := read_buffer sys b in k x).
Proof using Bs.
  intros Hk s Hs. apply wp_bind. unfold read_buffer. apply wp_bind. pose proof (bs_read fd_stdin b s Hs) as Hr. unfold wp_but in *.
  destruct (si_read sys fd_stdin b s) as [[e b'] s'|e s'|f] eqn:E; [|done|done]. cbn. apply Hk; [by apply bs_read_length in E|done].
Qed.

Lemma stays_bit_cast n b : stays bad P (bit_cast n b).
Proof. unfold bit_cast. case_match; [apply stays_throw|apply stays_ret]. Qed.
Lemma stays_amount i k : stays bad P (get_amount sys i k).
Proof using Hbad Bs.
  apply stays_bind; [apply bs_get_object|]. intros o. destruct (_ =? 0); [apply stays_ret|]. apply stays_bind; [apply stays_assert|]. intros _. apply stays_bit_cast.
Qed.
Lemma stays_write b : stays bad P (write_out sys b).
Proof using Bs. apply stays_bind; [apply bs_write|]. intros _. apply stays_ret. Qed.
Lemma stays_u64 {B} (k : Z -> M S B) : (forall z, stays bad P (k z)) -> stays bad P (let* z := read_u64 sys in k z).
Proof using Bs. intros Hk. apply stays_bind; [|done]. unfold read_u64. apply stays_read. intros. apply stays_ret. Qed.
Lemma stays_unauthorized a c : is_account a -> stays bad P (unauthorized sys a c).
Proof using Bs.
  intros Ha. unfold unauthorized. destruct (bytes_eqb a c); [apply stays_ret|]. apply stays_bind; [by apply bs_check_authority|]. intros. apply stays_ret.
Qed.

Lemma coin_run_stays args : stays bad P (coin_run sys uninit1 uninit2 args).
Proof using Hbad Bs Hu1 Hu2.
  unfold coin_run, coin_transfer, coin_mint, coin_burn, coin_total_supply, coin_balance_of. apply stays_read. intros ins _.
  destruct (instruction_of _) as [[]|];
    repeat first [apply stays_write | apply stays_ret | apply stays_read; intros ? ? | apply stays_u64; intros ?
                 | apply stays_unauthorized; unfold is_account in *; congruence
                 | apply stays_bind; [first [apply stays_amount | apply bs_get_caller | apply bs_put_object | apply stays_unauthorized; unfold is_account in *; congruence]|intros]
                 | case_match].
Qed.
End coin_stays.

(** ** The modules of a cache *)

Lemma lru_find_Forall {A} (T : A -> Prop) (l : list (bytes * A)) id m : Forall (fun e => T e.2) l -> lru_find id l = Some m -> T m.
Proof.
  induction 1 as [|[i y] l Hy _ IH]; [done|]. cbn. destruct (bytes_eqb id i); [|done]. intros H. by injection H as <-.
Qed.

Lemma lru_put_Forall {A} (T : A -> Prop) (l : list (bytes * A)) n id m : Forall (fun e => T e.2) l -> T m -> Forall (fun e => T e.2) (lru_put n id m l).
Proof.
  intros Hl Hm. constructor; [done|]. destruct (_ <=? _)%nat; [|done].
  induction Hl as [|e l He Hl IH]; [constructor|]. destruct l; [constructor|]. by constructor.
Qed.

Lemma lru_touch_Forall {A} (T : A -> Prop) (l : list (bytes * A)) id : Forall (fun e => T e.2) l -> Forall (fun e => T e.2) (lru_touch id l).
Proof.
  intros Hl. unfold lru_touch. destruct (lru_find id l) as [m|] eqn:E; [|done]. constructor; [exact (lru_find_Forall T l id m Hl E)|].
  rewrite Forall_forall in Hl |- *. intros x [_ Hx]%list_elem_of_filter. by apply Hl.
Qed.

(** ** What a node keeps *)

Section node.
Context `{B3 : Blake3} `{Sig : Signatures} `{Al : Allocator} `{Nan : NanPattern} (start_fuel : nat).
#[local] Instance node_fizzy : Fizzy := interpreter start_fuel.

(** A program without a start section, without parameters of [_start], that does
    not import [args_get], [fd_read] or [fd_write], the three host functions that
    use sizes they have not checked. *)
Definition gentle (m : Module_) : bool :=
  bool_decide (startfunc m = None) && start_takes_nothing m && imports_only bounded_function m.

(** A stored program: its hash and its byte code. *)
Definition program_ok (data : bytes) : Prop :=
  bytes_ok (drop digest_length data) /\ zlen (drop digest_length data) < 2 ^ 27 /\
  forall m rest, parse (drop digest_length data) = Ret m rest -> gentle m = true.

Definition programs_ok (c : context) : Prop :=
  forall n a data, cx_node c = Some n ->
    view_of (cx_store c) (node_ptr n) (make_compound_key space_program_data a) = Some data -> program_ok data.

(** The modules of the cache. *)
Definition cache_ok (x : module_cache fizzy_module) : Prop :=
  exists l, cache_models x l /\ Forall (fun e : bytes * fizzy_module => tame e.2) l.

Lemma parse_tame data m rest : program_ok data -> parse (drop digest_length data) = Ret m rest -> tame m.
Proof.
  intros (Hb & Hl & Hg) Hp. destruct (parse_certified_lemma _ m rest Hb Hl Hp) as (H1 & H2 & H3). specialize (Hg m rest Hp).
  unfold gentle in Hg. apply andb_true_iff in Hg as [[Hs%bool_decide_eq_true Ht]%andb_true_iff Hi]. by constructor.
Qed.

(** The cache after a call of [make_module], and the module it gives. *)
Lemma make_module_tame c data :
  program_ok data -> cache_ok (cx_cache c) ->
  match make_module cx_cache set_cache (drop digest_length data) (take digest_length data) c with
  | Ret r c' => (exists x, c' = set_cache x c /\ cache_ok x) /\ match r with inl m => tame m | inr _ => True end
  | Throw _ _ => False
  | Fault f => lost f = false
  end.
Proof.
  intros Hd (l & Hm & Hl). unfold make_module, noexcept. set (id := take digest_length data). set (code := drop digest_length data).
  unfold bind at 1. destruct (negb (zlen id =? 0)) eqn:En; cbn [assert_that]; [|done]. cbn [ret].
  unfold bind at 1, zoom at 1. destruct (get_module_refines _ l id Hm) as (x & -> & Hx).
  destruct (lru_find id l) as [m|] eqn:Ef.
  - assert (tame m) as Ht by (exact (lru_find_Forall _ _ _ _ Hl Ef)).
    split; [|exact Ht]. exists x. split; [done|]. exists (lru_touch id l). split; [done|]. by apply lru_touch_Forall.
  - unfold lru_touch in Hx. rewrite Ef in Hx. unfold bind at 1. unfold parse_bytecode.
    assert (cache_ok x) as Hok by (by exists l). destruct (zlen code =? 0); [split; [by exists x|done]|].
    cbn [ProgramContext.fizzy_parse node_fizzy interpreter]. unfold FizzyApi.fizzy_parse.
    pose proof (parse_well_formed_lemma code (proj1 Hd)) as Hp. destruct (parse code) as [m rest|e rest|f] eqn:Ep; cbn [ret crash].
    + assert (tame m) as Ht by (by eapply parse_tame). unfold bind, zoom. cbn [cx_cache set_cache].
      destruct (put_module_refines x l id m Hx Ef) as (x' & -> & Hx' & _). split; [|exact Ht]. exists x'. split; [done|].
      eexists. split; [exact Hx'|]. by apply lru_put_Forall.
    + split; [by exists x|done].
    + destruct Hp as [-> _]. done.
Qed.

(** ** The invariant of a run *)

(** What a run needs and what it leaves. *)
Definition kept (fuel : nat) (c : context) : Prop :=
  fueled fuel c /\ programs_ok c /\ meter_ok (cx_meter c) /\ cache_ok (cx_cache c).

Definition reaches (c c' : context) : Prop := inside system_key c c' /\ (cache_ok (cx_cache c) -> cache_ok (cx_cache c')).

(** The account of the running program has the length of an account. *)
Definition frame_ok (c : context) : Prop :=
  match cx_stack c with f :: _ => length (fr_program_id f) = account_length | [] => True end.

Definition working (fuel : nat) (c : context) : Prop := kept fuel c /\ frame_ok c.

#[export] Instance reaches_preorder : PreOrder reaches.
Proof. split; [intros c; split; [reflexivity|done]|]. intros a b c [? ?] [? ?]. split; [by etrans|auto]. Qed.

Lemma programs_inside c c' : ready c -> inside system_key c c' -> programs_ok c -> programs_ok c'.
Proof.
  intros Hr Hi Hp n a data Hn Hv. rewrite (in_node _ _ _ Hi) in Hn. destruct (rd_node _ Hr) as (n' & Hn' & Hl).
  assert (n' = n) as -> by congruence. apply (Hp n a data Hn). rewrite <- Hv. symmetry. apply (in_store _ _ _ Hi n Hn (rd_store _ Hr) Hl). done.
Qed.

Lemma inside_ticks prot c c' : inside prot c c' -> meter_ok (cx_meter c) -> meter_ok (cx_meter c') /\ ticks_left (cx_meter c') <= ticks_left (cx_meter c).
Proof. intros Hi. apply charged_drains. split; apply Hi. Qed.

#[export] Instance kept_stable fuel : Stable (kept fuel) reaches.
Proof.
  intros c c' (Hf & Hp & Hm & Hc) [Hi Hcache]. split; [by eapply stable|]. split; [by eapply (programs_inside c); [apply Hf|..]|].
  split; [by apply (inside_ticks _ c c' Hi)|auto].
Qed.

Lemma frame_inside prot c c' : inside prot c c' -> frame_ok c -> frame_ok c'.
Proof.
  intros Hi. pose proof (in_stack _ _ _ Hi) as Hs. unfold frame_ok. destruct (cx_stack c), (cx_stack c'); try done. destruct Hs as [_ ->]. done.
Qed.

#[export] Instance working_stable fuel : Stable (working fuel) reaches.
Proof. intros c c' [Hk Hf] Hr. split; [by eapply stable|by eapply frame_inside; [apply Hr|]]. Qed.

Lemma quiet_reaches c c' : quiet system_key c c' -> reaches c c'.
Proof. intros [Hi Hc]. split; [done|]. by rewrite Hc. Qed.

#[export] Instance kept_quiet fuel : Stable (kept fuel) (quiet system_key).
Proof. intros c c' Hc Hq. exact (stable _ _ Hc (quiet_reaches _ _ Hq)). Qed.
#[export] Instance working_quiet fuel : Stable (working fuel) (quiet system_key).
Proof. intros c c' Hc Hq. exact (stable _ _ Hc (quiet_reaches _ _ Hq)). Qed.

Lemma kept_ready fuel c : kept fuel c -> ready c.
Proof. by intros [[Hr _] _]. Qed.
Lemma working_ready fuel c : working fuel c -> ready c.
Proof. by intros [[[Hr _] _] _]. Qed.

(** ** The faults of system calls *)

(** From states with [P], nothing is lost. *)
Definition tidy {S A} (P : S -> Prop) (m : M S A) : Prop := forall c f, P c -> m c = Fault f -> lost f = false.

Lemma tidy_bind {S A B} (P : S -> Prop) (m : M S A) (k : A -> M S B) :
  tidy P m -> (forall a c, P c -> forall c', m c = Ret a c' -> forall f, k a c' = Fault f -> lost f = false) -> tidy P (bind m k).
Proof.
  intros Hm Hk c f Hc. unfold bind. destruct (m c) as [a c'|e c'|g] eqn:E; [|done|]; [by eapply Hk|]. intros H. injection H as <-. by eapply Hm.
Qed.

Lemma tidy_then {S A B} (m : M S A) (k : A -> M S B) : tidy (fun _ => True) m -> (forall a, tidy (fun _ => True) (k a)) -> tidy (fun _ => True) (bind m k).
Proof. intros Hm Hk. apply tidy_bind; [done|]. intros a c _ c' _ f. by apply Hk. Qed.

Lemma tidy_calm {S A} (m : M S A) : (forall s f, m s <> Fault f) -> tidy (fun _ => True) m.
Proof. intros Hm c f _ H. by destruct (Hm c f). Qed.

Lemma tidy_weaken {S A} (P : S -> Prop) (m : M S A) : tidy (fun _ => True) m -> tidy P m.
Proof. intros Hm c f _. by apply Hm. Qed.

Lemma disk_tidy n : tidy (fun _ => True) (use_disk_storage n).
Proof.
  intros m f _ H. by rewrite (use_generic_fault disk_storage_cost disk_storage add_disk controller_errc.disk_storage_limit_exceeded Z.leb n m f H).
Qed.
Lemma compute_tidy n : tidy (fun _ => True) (use_compute_bandwidth n).
Proof.
  intros m f _ H. by rewrite (use_generic_fault compute_bandwidth_cost compute_bandwidth add_compute controller_errc.compute_bandwidth_limit_exceeded Z.ltb n m f H).
Qed.
Lemma on_meter_tidy {A} (m : M metering A) : tidy (fun _ => True) m -> tidy (fun _ => True) (on_meter m).
Proof. intros Hm c f _. unfold on_meter, zoom. destruct (m (cx_meter c)) eqn:E; [done|done|]. intros H. injection H as <-. by eapply Hm. Qed.

Lemma use_compute_tidy : tidy (fun _ => True) use_compute.
Proof. apply tidy_then; [apply on_meter_tidy, compute_tidy|]. intros _. by apply tidy_calm. Qed.
Lemma peek_tidy : tidy (fun _ => True) peek_frame.
Proof. apply tidy_calm. intros c f. unfold peek_frame, bind, gets. by destruct (cx_stack c). Qed.
Lemma the_node_tidy : tidy (fun _ => True) the_node.
Proof. intros c f _. unfold the_node, bind, gets. destruct (cx_node c); [done|]. intros H. by injection H as <-. Qed.

Lemma arguments_tidy : tidy (fun _ => True) ctx_arguments.
Proof.
  apply tidy_then; [by apply tidy_calm|]. intros s. destruct (_ =? 0)%nat; [by apply tidy_calm|].
  apply tidy_then; [apply use_compute_tidy|]. intros _. apply tidy_then; [apply peek_tidy|]. intros f. by apply tidy_calm.
Qed.
Lemma write_tidy fd b : tidy (fun _ => True) (ctx_write fd b).
Proof.
  apply tidy_then; [apply use_compute_tidy|]. intros _.
  destruct (_ =? _); [|destruct (_ =? _); [|by apply tidy_calm]]; (apply tidy_then; [apply peek_tidy|]; intros f; by apply tidy_calm).
Qed.
Lemma read_tidy fd b : tidy (fun _ => True) (ctx_read fd b).
Proof.
  apply tidy_then; [apply use_compute_tidy|]. intros _.
  destruct (_ =? _); [|by apply tidy_calm]. apply tidy_then; [apply peek_tidy|]. intros f. by apply tidy_calm.
Qed.
Lemma caller_tidy : tidy (fun _ => True) ctx_get_caller.
Proof.
  apply tidy_then; [apply use_compute_tidy|]. intros _. apply tidy_then; [by apply tidy_calm|]. intros s.
  destruct (_ =? 1)%nat; [by apply tidy_calm|]. apply tidy_then; [apply peek_tidy|]. intros f. by apply tidy_calm.
Qed.

(** The address of an account fits in a space. *)
Lemma create_space_tidy id c : frame_ok c -> (exists sp, create_object_space id c = Ret sp c) \/ (exists e, create_object_space id c = Throw e c).
Proof.
  intros Hf. unfold frame_ok in Hf. destruct (cx_stack c) as [|f t] eqn:Hst.
  - right. unfold create_object_space, peek_frame, bind, gets. rewrite Hst. by eexists.
  - left. rewrite (create_object_space_eq id c f t Hst). unfold program_space, splice. rewrite Hf. eexists. cbn. reflexivity.
Qed.

Lemma node_op_tidy {A B} fuel id (op : ptr -> object_space -> M StateDelta.store A) (k : A -> M context B) :
  (forall p sp st f, node_ok p st -> op p sp st = Fault f -> lost f = false) -> (forall a, tidy (fun _ => True) (k a)) ->
  tidy (working fuel) (let* n := the_node in use_compute ;;; let* space := create_object_space id in let* r := on_cstore (op (node_ptr n) space) in k r).
Proof.
  intros Hop Hk. apply tidy_bind; [apply tidy_weaken, the_node_tidy|]. intros n c Hc c0 Hn. unfold the_node, bind, gets in Hn.
  destruct (cx_node c) as [n'|] eqn:En; [|done]. injection Hn as -> <-. intros f. unfold bind at 1.
  pose proof (use_compute_ctx_guarded system_key (working fuel) c Hc) as Hu. destruct (use_compute c) as [[] c1|e c1|g] eqn:Eu; [|done|].
  2:{ intros H. injection H as <-. by apply (use_compute_tidy c g). }
  assert (working fuel c1) as Hc1 by (exact (stable _ _ Hc Hu)). unfold bind at 1.
  destruct (create_space_tidy id c1 (proj2 Hc1)) as [[sp ->]|[e ->]]; [|done]. unfold bind, on_cstore, zoom.
  assert (node_ok (node_ptr n) (cx_store c1)) as Hno.
  { destruct (rd_node _ (working_ready fuel c1 Hc1)) as (n1 & Hn1 & Hl). rewrite (in_node _ _ _ (proj1 Hu)), En in Hn1. injection Hn1 as <-.
    split; [apply (working_ready fuel c1 Hc1)|done]. }
  destruct (op _ sp _) as [a st|e st|g] eqn:Eo; [by apply Hk|done|]. intros H. injection H as <-. by eapply Hop.
Qed.

Lemma get_object_tidy fuel id k : tidy (working fuel) (ctx_get_object id k).
Proof.
  apply (node_op_tidy fuel id (fun p sp => sn_get p sp k)); [|intros; by apply tidy_calm].
  intros p sp st f [Hwf Hl]. unfold sn_get. by rewrite sd_get_ok.
Qed.

Lemma put_object_tidy fuel id k v : tidy (working fuel) (ctx_put_object id k v).
Proof.
  apply (node_op_tidy fuel id (fun p sp => sn_put p sp k v)); [|intros; apply on_meter_tidy, disk_tidy].
  intros p sp st f [Hwf Hl]. destruct (live_lookup st p Hl) as (d & b & Hp & Hb). unfold sn_put. destruct (sd_final d) eqn:Hf.
  - unfold sd_put. rewrite (bind_Ret _ _ _ _ _ (deref_eq _ _ _ Hp)), Hf. done.
  - destruct (sd_put_view st p d (make_compound_key sp k) v Hwf Hl Hp Hf) as (n & st' & Hput & _). by rewrite Hput.
Qed.

Lemma verify_tidy t a l : tidy (fun _ => True) (verify_authorizations t a l).
Proof.
  induction l as [|x l IH]; [by apply tidy_calm|]. cbn. destruct (negb _); [by apply tidy_calm|]. apply tidy_then; [by apply tidy_calm|]. intros _.
  destruct (bytes_eqb _ _); [by apply tidy_calm|done].
Qed.

(** ** One frame *)

Lemma guarded_stays {S A} bad (P : S -> Prop) (R : S -> S -> Prop) `{!Stable P R} (m : M S A) : lost bad = true -> guarded P R m -> tidy P m -> stays bad P m.
Proof.
  intros Hb Hg Ht s Hs. specialize (Hg s Hs). unfold wp_but. destruct (m s) as [a s'|e s'|f] eqn:E; [by eapply stable..|].
  intros ->. by rewrite (Ht s bad Hs E) in Hb.
Qed.

(** The virtual machine from a context, with a module. *)
Definition start_in (hapi : host_api context) (m : fizzy_module) : M context error_code := fun c =>
  match start hapi m (ProgramContext c None 0 None (vm_error virtual_machine_errc.ok)) with
  | Ret e pc => Ret e (pc_host pc)
  | Throw e pc => Throw e (pc_host pc)
  | Fault f => Fault f
  end.

Lemma execute_user_eq run a c n :
  ready c -> cx_node c = Some n -> live (cx_store c) (node_ptr n) ->
  execute_user_program run a c = noexcept
    (match view_of (cx_store c) (node_ptr n) (make_compound_key space_program_data a) with
     | None => ret (controller_error controller_errc.invalid_program)
     | Some data =>
         assert_that (Z.of_nat digest_length <=? zlen data) ;;;
         vm_run (controller_host_api (ctx_system run) ctx_get_meter_ticks ctx_use_meter_ticks)
           cx_cache set_cache (drop digest_length data) (take digest_length data)
     end) c.
Proof.
  intros Hr Hn Hl. unfold execute_user_program, noexcept.
  rewrite bind_gets, Hn. cbn [unptr]. rewrite bind_ret. unfold bind at 1, on_cstore, zoom, sn_get.
  rewrite sd_get_ok by (done || apply Hr). by replace (set_cstore (cx_store c) c) with c by (by destruct c).
Qed.

(** A user program: it is not there, it does not parse, or it is started with a
    tame module. *)
Lemma execute_user_cases fuel run a c :
  kept fuel c ->
  exists x, cache_ok x /\
    ((exists e, execute_user_program run a c = Ret e (set_cache x c)) \/
     (exists f, execute_user_program run a c = Fault f /\ lost f = false) \/
     (exists m, tame m /\ execute_user_program run a c =
        noexcept (start_in (controller_host_api (ctx_system run) ctx_get_meter_ticks ctx_use_meter_ticks) m) (set_cache x c))).
Proof.
  intros (Hf & Hp & _ & Hc). destruct (rd_node _ (proj1 Hf)) as (n & Hn & Hl).
  rewrite (execute_user_eq run a c n (proj1 Hf) Hn Hl). assert (set_cache (cx_cache c) c = c) as Hsame by (by destruct c).
  destruct (view_of _ _ _) as [data|] eqn:Ev.
  2:{ exists (cx_cache c). split; [done|]. left. eexists. by rewrite Hsame. }
  specialize (Hp n a data Hn Ev). unfold assert_that. destruct (_ <=? _).
  2:{ exists (cx_cache c). split; [done|]. right; left. by exists assertion_failed. }
  unfold noexcept. rewrite bind_ret. unfold vm_run, bind. pose proof (make_module_tame c data Hp Hc) as Hm.
  destruct (make_module _ _ _ _ c) as [[m|e] c'|e c'|f]; [..|done|].
  - destruct Hm as [(x & -> & Hx) Ht]. exists x. split; [done|]. right; right. by exists m.
  - destruct Hm as [(x & -> & Hx) _]. exists x. split; [done|]. left. by eexists.
  - exists (cx_cache c). split; [done|]. right; left. by exists f.
Qed.

Lemma cache_reaches c x : cache_ok x -> reaches c (set_cache x c).
Proof. intros Hx. split; [constructor; try done; reflexivity|by intros _]. Qed.

Context (uninit1 uninit2 : bytes) (Hu1 : is_account uninit1) (Hu2 : is_account uninit2).
Abbreviation run_program := (run_program uninit1 uninit2).

Section frame.
Context (fuel : nat) (run_reaches : forall t a b l, guarded (kept fuel) reaches (run_program fuel t a b l))
  (run_tidy : forall t a b l, length a = account_length -> tidy (kept fuel) (run_program fuel t a b l)).
Abbreviation sys := (ctx_system (run_program fuel)).
Abbreviation hapi := (controller_host_api sys ctx_get_meter_ticks ctx_use_meter_ticks).

Section calls.
Context (P : context -> Prop) `{!Stable P reaches} (P_kept : forall c, P c -> kept fuel c).

#[local] Instance P_quiet : Stable P (quiet system_key).
Proof using Stable0. intros c c' Hc Hq. exact (stable _ _ Hc (quiet_reaches _ _ Hq)). Qed.

Lemma call_reaches {A} (m : M context A) : guarded P (quiet system_key) m -> guarded P reaches m.
Proof using Type. intros Hm c Hc. specialize (Hm c Hc). destruct (m c); [by apply quiet_reaches..|done]. Qed.

Lemma authority_reaches a : guarded P reaches (ctx_check_authority (run_program fuel) a).
Proof using run_reaches P_kept Stable0.
  eapply (check_authority_guarded system_key); [apply _..|intros c c' _; apply quiet_reaches|]. intros t a' b l _ c Hc. by apply run_reaches, P_kept.
Qed.

Lemma space_free c id sp k : P c -> create_object_space id c = Ret sp c -> ~ system_key (make_compound_key sp k).
Proof using Type. intros Hc. by apply (space_unprotected system_key (fun _ H => H) P). Qed.

Lemma P_ready c : P c -> ready c.
Proof using P_kept. intros Hc. by eapply kept_ready, P_kept. Qed.

Lemma arguments_reaches : guarded P reaches ctx_arguments.
Proof using Stable0. apply call_reaches, (arguments_guarded system_key P). Qed.
Lemma read_reaches fd b : guarded P reaches (ctx_read fd b).
Proof using Stable0. apply call_reaches, (read_guarded system_key P). Qed.
Lemma write_reaches fd b : guarded P reaches (ctx_write fd b).
Proof using Stable0. apply call_reaches, (write_guarded system_key P). Qed.
Lemma get_reaches i k : guarded P reaches (ctx_get_object i k).
Proof using Stable0 P_kept. apply call_reaches, (get_object_guarded system_key P); [apply P_ready|apply space_free]. Qed.
Lemma put_reaches i k v : guarded P reaches (ctx_put_object i k v).
Proof using Stable0 P_kept. apply call_reaches, (put_object_guarded system_key P); [apply P_ready|apply space_free]. Qed.
Lemma caller_reaches : guarded P reaches ctx_get_caller.
Proof using Stable0. apply call_reaches, (get_caller_guarded system_key P). Qed.
Lemma get_ticks_reaches : guarded P reaches ctx_get_meter_ticks.
Proof using Stable0. apply call_reaches, (get_ticks_guarded system_key P). Qed.
Lemma use_ticks_reaches t : guarded P reaches (ctx_use_meter_ticks t).
Proof using Stable0. apply call_reaches, (use_ticks_guarded system_key P). Qed.

(** Whatever module is started, the run stays inside. *)
Lemma start_reaches m : guarded P reaches (start_in hapi m).
Proof using run_reaches P_kept Stable0.
  intros c Hc. unfold start_in.
  assert (guarded (pc_P P) (pc_R reaches) (start hapi m)) as H.
  { apply host_start_guarded; try apply _; cbn; intros;
      [apply arguments_reaches|apply read_reaches|apply write_reaches|apply get_reaches|apply put_reaches|apply authority_reaches
      |apply caller_reaches|apply get_ticks_reaches|apply use_ticks_reaches]. }
  specialize (H (ProgramContext c None 0 None (vm_error virtual_machine_errc.ok)) Hc). by destruct (start hapi m _).
Qed.
End calls.

Lemma working_kept c : working fuel c -> kept fuel c.
Proof. by intros [H _]. Qed.

Lemma authority_tidy a : length a = account_length -> tidy (working fuel) (ctx_check_authority (run_program fuel) a).
Proof using run_tidy.
  intros Ha c f Hc. unfold ctx_check_authority, bind at 1. pose proof (the_node_guarded system_key (working fuel) c Hc) as H0.
  destruct (the_node c) as [n c0|e c0|g] eqn:E0; [|done|intros H; injection H as <-; by apply (the_node_tidy c g)].
  assert (working fuel c0) as Hc0 by (exact (stable _ _ Hc H0)). unfold bind at 1. pose proof (use_compute_ctx_guarded system_key (working fuel) c0 Hc0) as H1.
  destruct (use_compute c0) as [u c1|e c1|g] eqn:E1; [|done|intros H; injection H as <-; by apply (use_compute_tidy c0 g)].
  assert (working fuel c1) as Hc1 by (exact (stable _ _ Hc0 H1)). rewrite bind_gets. destruct (bool_decide _); [done|].
  destruct (account_view_program a).
  - unfold bind. destruct (run_program fuel _ a _ _ c1) as [[o|e] c2|e c2|g] eqn:E2; [|done|done|].
    + cbn. destruct (pf_stdout o) as [|b [|b' l]]; done.
    + intros H. injection H as <-. by apply (run_tidy _ _ _ _ Ha c1 g (proj1 Hc1)) in E2.
  - rewrite bind_gets. destruct (cx_transaction c1) as [t|]; [|done]. rewrite bind_gets. destruct (existsb _ _); [done|]. by apply verify_tidy.
Qed.

(** What GuestSafety asks of the system. *)
#[local] Instance node_bounded bad (Hbad : lost bad = true) : BoundedSystem bad (working fuel) sys.
Proof using run_reaches run_tidy.
  constructor; cbn.
  - apply (guarded_stays bad _ reaches); [done|apply (arguments_reaches (working fuel))|apply tidy_weaken, arguments_tidy].
  - intros fd b. apply (guarded_stays bad _ reaches); [done|apply (read_reaches (working fuel))|apply tidy_weaken, read_tidy].
  - intros fd b. apply (guarded_stays bad _ reaches); [done|apply (write_reaches (working fuel))|apply tidy_weaken, write_tidy].
  - intros i k. apply (guarded_stays bad _ reaches); [done|apply (get_reaches (working fuel) working_kept)|apply get_object_tidy].
  - intros i k v. apply (guarded_stays bad _ reaches); [done|apply (put_reaches (working fuel) working_kept)|apply put_object_tidy].
  - intros a Ha. apply (guarded_stays bad _ reaches); [done|apply (authority_reaches (working fuel) working_kept)|by apply authority_tidy].
  - apply (guarded_stays bad _ reaches); [done|apply (caller_reaches (working fuel))|apply tidy_weaken, caller_tidy].
  - intros fd b c e b' c' H. exact (proj1 (ctx_read_law fd b c e b' c' H)).
Qed.

#[local] Instance node_metered : Metered (working fuel) ctx_get_meter_ticks ctx_use_meter_ticks.
Proof.
  refine {| meter c := ticks_left (cx_meter c) |}.
  - intros c Hc. apply remaining_ticks, Hc.
  - intros c Hc. destruct (remaining_ticks (cx_meter c)) as [Ht _]; [apply Hc|]. unfold ctx_get_meter_ticks. rewrite bind_gets, Ht. done.
  - intros t c Hc Ht. pose proof (use_ticks_reaches (working fuel) t c Hc) as Hg. assert (meter_ok (cx_meter c)) as Hm by apply Hc.
    unfold ctx_use_meter_ticks, on_meter, zoom in *. rewrite u64_small in * by done.
    destruct (use_compute_bandwidth t (cx_meter c)) as [e m'|e m'|f] eqn:E.
    + split; [exact (stable _ _ Hc Hg)|]. split; [by apply (inside_ticks _ _ _ (proj1 Hg))|]. intros He. by apply (use_compute_ticks t (cx_meter c) e m').
    + split; [exact (stable _ _ Hc Hg)|]. by apply (inside_ticks _ _ _ (proj1 Hg)).
    + by apply (compute_tidy t (cx_meter c) f).
Defined.

Lemma reaches_spends {A} (m : M context A) :
  guarded (working fuel) reaches m -> guarded (working fuel) (spends (working fuel) ctx_get_meter_ticks ctx_use_meter_ticks) m.
Proof.
  intros Hm c Hc. specialize (Hm c Hc). assert (forall c', reaches c c' -> spends (working fuel) ctx_get_meter_ticks ctx_use_meter_ticks c c') as H.
  { intros c' Hr. split; [intros; exact (stable _ _ Hc Hr)|]. intros _. cbn. apply (inside_ticks _ _ _ (proj1 Hr)), Hc. }
  destruct (m c); [by apply H..|done].
Qed.

#[local] Instance node_spending : Spending (working fuel) sys ctx_get_meter_ticks ctx_use_meter_ticks.
Proof using run_reaches.
  constructor; cbn; intros; apply reaches_spends;
    [apply (arguments_reaches (working fuel))|apply (read_reaches (working fuel))|apply (write_reaches (working fuel))
    |apply (get_reaches (working fuel) working_kept)|apply (put_reaches (working fuel) working_kept)
    |apply (authority_reaches (working fuel) working_kept)|apply (caller_reaches (working fuel))].
Qed.

(** A user program. *)
Lemma user_reaches a : guarded (kept fuel) reaches (execute_user_program (run_program fuel) a).
Proof using run_reaches.
  intros c Hc. destruct (execute_user_cases fuel (run_program fuel) a c Hc) as (x & Hx & [[e ->]|[(f & -> & Hf)|(m & _ & ->)]]).
  - by apply cache_reaches.
  - by intros ->.
  - pose proof (cache_reaches c x Hx) as Hr. assert (kept fuel (set_cache x c)) as Hk by (exact (stable _ _ Hc Hr)).
    pose proof (start_reaches (kept fuel) (fun c H => H) m (set_cache x c) Hk) as H. unfold noexcept. destruct (start_in hapi m _); [by etrans|done|done].
Qed.

Lemma user_tidy a : tidy (working fuel) (execute_user_program (run_program fuel) a).
Proof using run_reaches run_tidy.
  intros c f [Hc Hfr]. destruct (execute_user_cases fuel (run_program fuel) a c Hc) as (x & Hx & [[e ->]|[(g & -> & Hg)|(m & Ht & ->)]]).
  - done.
  - intros H. by injection H as <-.
  - assert (working fuel (set_cache x c)) as Hw by (split; [exact (stable _ _ Hc (cache_reaches c x Hx))|done]). unfold noexcept, start_in.
    destruct (start _ _ _) as [e p|e p|g] eqn:E; [done|intros H; by injection H as <-|]. intros H. injection H as <-.
    destruct (lost g) eqn:Eg; [|done]. exfalso. revert E.
    apply (tame_start_safe g Eg (working fuel) sys ctx_get_meter_ticks ctx_use_meter_ticks (Bs := node_bounded g Eg) start_fuel m); done.
Qed.

(** The native program. *)
Lemma native_reaches a : guarded (kept fuel) reaches (execute_native_program (run_program fuel) uninit1 uninit2 a).
Proof using B3 run_reaches.
  eapply (execute_native_guarded system_key); [apply _|apply kept_ready|by intros c id sp k _; apply (space_unprotected system_key (fun _ H => H) (fun _ => True))
    |apply _..|intros c c' _; apply quiet_reaches|intros t a' b l _; apply run_reaches].
Qed.

Lemma native_tidy a : tidy (working fuel) (execute_native_program (run_program fuel) uninit1 uninit2 a).
Proof using B3 run_reaches run_tidy Hu1 Hu2.
  intros c f Hc. unfold execute_native_program, noexcept. destruct (bytes_eqb _ _); [|done]. unfold bind.
  destruct (peek_frame c) as [fr c1|e c1|g] eqn:Ep; [|intros H; by injection H as <-|intros H; injection H as <-; by apply (peek_tidy c g)].
  assert (c1 = c) as -> by (unfold peek_frame, bind, gets in Ep; destruct (cx_stack c); [done|by injection Ep]).
  destruct (coin_run _ _ _ _ c) as [e c2|e c2|g] eqn:E; [done|intros H; by injection H as <-|]. intros H. injection H as <-.
  destruct (lost g) eqn:Eg; [|done]. exfalso.
  pose proof (coin_run_stays g Eg (working fuel) sys (Bs := node_bounded g Eg) uninit1 uninit2 Hu1 Hu2 (fr_arguments fr) c Hc) as Hs.
  unfold wp_but in Hs. rewrite E in Hs. done.
Qed.

Lemma after_reaches t a b l category code : guarded (kept fuel) reaches (run_after t a b l category code).
Proof.
  pose proof (fun e => call_reaches (kept fuel) _ (finish_program_guarded system_key (kept fuel) a b l e)). unfold run_after. guarded_auto.
Qed.

Lemma after_tidy t a b l category code : tidy (fun _ => True) (run_after t a b l category code).
Proof.
  unfold run_after. destruct (_ && _); [by apply tidy_calm|]. destruct (_ && _); [by apply tidy_calm|].
  apply tidy_then; [by apply tidy_calm|]. intros s. apply tidy_then; [apply peek_tidy|]. intros f. by apply tidy_calm.
Qed.

Lemma body_reaches t a b l : guarded (kept fuel) reaches (run_body uninit1 uninit2 fuel t a b l).
Proof using B3 run_reaches.
  unfold run_body. pose proof after_reaches. pose proof user_reaches. pose proof native_reaches. destruct (account_get_type a); guarded_auto.
Qed.

Lemma body_tidy t a b l : tidy (working fuel) (run_body uninit1 uninit2 fuel t a b l).
Proof using B3 run_reaches run_tidy Hu1 Hu2.
  unfold run_body. destruct (account_get_type a); [by apply tidy_weaken, tidy_calm|..|by apply tidy_weaken, tidy_calm].
  all: apply tidy_bind; [apply user_tidy || apply native_tidy|]; intros code c _ c' _ f; by apply after_tidy.
Qed.
End frame.

(** A frame on top of a context that keeps. *)
Lemma kept_push fuel c a l b : kept (Datatypes.S fuel) c -> fueled fuel (set_stack (Frame a l b [] [] 0 :: cx_stack c) c) ->
  kept fuel (set_stack (Frame a l b [] [] 0 :: cx_stack c) c).
Proof. intros (_ & H) Hf. by split. Qed.

Lemma run_program_reaches fuel t a b l : guarded (kept fuel) reaches (run_program fuel t a b l).
Proof using B3.
  revert t a b l. induction fuel as [|fuel IH]; intros t a b l c Hc; [by destruct (fueled_0 c (proj1 Hc))|].
  pose proof (run_program_guarded uninit1 uninit2 system_key (fun _ H => H) (Datatypes.S fuel) t a b l c (proj1 Hc)) as Hin.
  destruct (run_program_cases uninit1 uninit2 fuel t a b l c (proj1 Hc)) as [E|[Hc1 E]]; rewrite E in Hin |- *; [reflexivity|].
  pose proof (body_reaches fuel IH t a b l _ (kept_push fuel c a l b Hc Hc1)) as Hb. unfold finally in *.
  destruct (run_body _ _ _ _ _ _ _ _) as [r c2|e c2|f]; [..|done].
  all: split; [apply Hin|apply Hb].
Qed.

Lemma run_program_tidy fuel t a b l : length a = account_length -> tidy (kept fuel) (run_program fuel t a b l).
Proof using B3 Hu1 Hu2.
  revert t a b l. induction fuel as [|fuel IH]; intros t a b l Ha c f Hc; [by destruct (fueled_0 c (proj1 Hc))|].
  destruct (run_program_cases uninit1 uninit2 fuel t a b l c (proj1 Hc)) as [->|[Hc1 ->]]; [done|].
  pose proof (body_tidy fuel (run_program_reaches fuel) IH t a b l) as Hb. unfold finally.
  destruct (run_body _ _ _ _ _ _ _ _) as [r c2|e c2|g] eqn:E; [done|done|]. intros H. injection H as <-. eapply Hb; [|exact E].
  split; [by apply kept_push|exact Ha].
Qed.

(** C4. Programs stay in their memory and come to an end. On a ready context whose
    meter is in range, where every program stored in the current node is of less
    than 2^27 bytes and, when it parses, has no start section, no parameters of
    [_start] and no import of [args_get], [fd_read] or [fd_write], and where the
    cache holds such modules alone, any program can be run, natively or in the
    interpreter, with any input, and whatever pointers its code passes to the
    host: neither the interpreter nor a host function nor the coin program, nor
    any of the programs that are run in turn for their authority, reads or writes
    outside the memory it works on, and the run ends (a fault is not [endless] or
    a lack of fuel). The context it leaves is as good, and no tick of the meter
    has been given back. *)
Theorem guest_stays_in_memory t a b l c :
  ready c -> length a = account_length -> programs_ok c -> meter_ok (cx_meter c) -> cache_ok (cx_cache c) ->
  match run uninit1 uninit2 t a b l c with
  | Ret _ c' | Throw _ c' =>
      ready c' /\ programs_ok c' /\ meter_ok (cx_meter c') /\ cache_ok (cx_cache c') /\
      ticks_left (cx_meter c') <= ticks_left (cx_meter c)
  | Fault f => f <> out_of_bounds /\ f <> endless /\ f <> out_of_fuel
  end.
Proof using B3 Hu1 Hu2.
  intros Hr Ha Hp Hm Hc. assert (kept program_fuel c) as Hk by (split; [by apply ready_fueled|done]).
  pose proof (run_program_reaches program_fuel t a b l c Hk) as Hre. pose proof (run_program_tidy program_fuel t a b l Ha c) as Ht. unfold run.
  assert (forall c', reaches c c' -> ready c' /\ programs_ok c' /\ meter_ok (cx_meter c') /\ cache_ok (cx_cache c') /\
    ticks_left (cx_meter c') <= ticks_left (cx_meter c)) as H.
  { intros c' Hr'. destruct (stable _ _ Hk Hr') as ([Hr1 _] & Hp1 & Hm1 & Hc1). do 4 (split; [done|]). by apply (inside_ticks _ _ _ (proj1 Hr')). }
  destruct (run_program program_fuel t a b l c) as [r c'|e c'|f]; [by apply H..|]. specialize (Ht f Hk eq_refl). by destruct f.
Qed.
End node.

(** ** Evaluated *)

(** A node whose program stores an object through pointers past the end of its
    memory. *)
Definition wild_data : bytes := zero_bytes digest_length ++ wild_binary.
Definition wild_root : state_delta :=
  Delta None (Some (set_map [(make_compound_key space_program_data alice_program, wild_data)] (new_backend null_id 0))) [] None true.
Definition wild_store : StateDelta.store := StateDelta.Store 2 (<[1%nat := sample_child]> (<[0%nat := wild_root]> ∅)).

Lemma wild_store_wf : store_wf wild_store.
Proof. apply store_check_wf. by vm_compute. Qed.
Lemma wild_live : live wild_store 1.
Proof. eapply live_child; [reflexivity..|]. by eapply live_root. Qed.

Lemma wild_view k : view_of wild_store 1 k = if bytes_eqb k (make_compound_key space_program_data alice_program) then Some wild_data else None.
Proof.
  transitivity (match (if bytes_eqb k (make_compound_key space_program_data alice_program) then Some wild_data else None) with Some v => Some v | None => None end);
    [reflexivity|by case_bool].
Qed.

Abbreviation wild_fizzy := (node_fizzy (Al := roomy) (Nan := canonical_nan) 0).
Definition wild_context : context (Fz := wild_fizzy) :=
  set_meter (Fz := wild_fizzy) (set_resource_limits (ResourceLimits 1000 1 1000 1 100 1) new_metering)
    (set_node (Fz := wild_fizzy) (Some sample_node) (new_context (Fz := wild_fizzy) wild_store (new_cache 32) block_application)).

Lemma wild_ready : ready wild_context.
Proof.
  constructor; [exact wild_store_wf| |cbn; unfold default_stack_limit; lia]. exists sample_node. split; [done|exact wild_live].
Qed.

Lemma wild_programs_ok : programs_ok (Al := roomy) (Nan := canonical_nan) 0 wild_context.
Proof.
  intros n a data Hn Hv. injection Hn as <-. change (view_of wild_store 1 (make_compound_key space_program_data a) = Some data) in Hv. rewrite wild_view in Hv.
  destruct (bytes_eqb _ _); [|done]. injection Hv as <-. destruct wild_parses as (Hb & Hl & Hp).
  split; [exact Hb|]. split; [exact Hl|]. intros m rest Hm. change (parse wild_binary = Ret m rest) in Hm. rewrite Hp in Hm. injection Hm as <- _. by vm_compute.
Qed.

Lemma new_cache_ok size : (0 < size)%nat -> cache_ok (Al := roomy) (Nan := canonical_nan) 0 (new_cache size).
Proof.
  intros Hs. exists []. split; [|constructor]. constructor; cbn; [lia|lia|apply NoDup_nil_2|apply NoDup_nil_2|constructor|constructor|]. by intros id e H.
Qed.

(** The wild program traps, and the node goes on. *)
Lemma guest_stays_in_memory_witness :
  match run (Fz := wild_fizzy) uninit_account uninit_account relaxed alice_program [] [] wild_context with
  | Ret r c' => r = inr (vm_error virtual_machine_errc.trapped) /\ programs_ok (Al := roomy) (Nan := canonical_nan) 0 c' /\
      ticks_left (cx_meter c') <= ticks_left (cx_meter wild_context)
  | _ => False
  end.
Proof.
  pose proof (guest_stays_in_memory (Al := roomy) (Nan := canonical_nan) 0 uninit_account uninit_account eq_refl eq_refl relaxed alice_program [] [] wild_context
    wild_ready eq_refl wild_programs_ok ltac:(split; [by vm_compute|split; [by vm_compute|done]]) (new_cache_ok 32 ltac:(lia))) as H.
  destruct (run _ _ _ _ _ _ wild_context) as [r c'|e c'|f] eqn:E; pose proof (f_equal result_of E) as Er; vm_compute in Er; [|done|done].
  injection Er as <-. destruct H as (_ & Hp & _ & _ & Ht). split; [by vm_compute|]. by split.
Defined.
