(* ===== verification/Controller.v ===== *)
(** * The controller

    [controller/controller.{hpp,cpp}]: the node's front door. It opens the
    database with the genesis objects, checks and applies blocks and
    transactions, moves the irreversible block and runs programs for readers.
    Log lines are left out; [index_to] and the liveness of a block only choose
    among them. *)

From stdpp Require Import base gmap list option numbers strings.
From S2P Require Import Prelude OrdMap Memory Errors Crypto Protocol Backend StateDelta StateNode.
From S2P Require Import DeltaIndex ResourceMeter SystemInterface Coin ModuleCache ProgramContext.
From S2P Require Import HostApi ExecutionContext Samples ExecutionSafety Transactions.

(** [state::genesis_entry] *)
Record genesis_entry := GenesisEntry {
  ge_space : object_space;
  ge_key : bytes;
  ge_value : bytes
}.

Section controller.
Context `{B3 : Blake3} `{Sig : Signatures} `{Fz : Fizzy} (uninit1 uninit2 : bytes).

Record controller := Controller {
  ct_db : delta_index;
  ct_cache : module_cache fizzy_module;
  ct_read_compute_bandwidth_limit : Z
}.

Definition new_controller (read_compute_bandwidth_limit : Z) : controller :=
  Controller (new_index empty_store) (new_cache default_module_cache_size) read_compute_bandwidth_limit.

Definition set_db (i : delta_index) (ct : controller) : controller :=
  Controller i (ct_cache ct) (ct_read_compute_bandwidth_limit ct).
Definition on_db {A} (m : M delta_index A) : M controller A := zoom ct_db set_db m.
Definition on_node {A} (m : M store A) : M controller A := on_db (on_store m).

(** A call on an [execution_context] made for it, with its state node set. *)
Definition in_context {A} (i : intent) (n : option state_node) (m : M context A) : M controller A :=
  zoom (fun ct => set_node n (new_context (di_store (ct_db ct)) (ct_cache ct) i))
    (fun c ct => Controller (set_store (cx_store c) (ct_db ct)) (cx_cache c) (ct_read_compute_bandwidth_limit ct)) m.

Definition fail_with {A} (e : controller_errc.t) : M controller (result A) := ret (inr (controller_error e)).

(** ** [controller::open], [close] *)

Fixpoint write_genesis (data : list genesis_entry) (root : ptr) : M store unit :=
  match data with
  | [] => ret tt
  | e :: data =>
      let* existing := sn_get root (ge_space e) (ge_key e) in
      match existing with
      | Some _ => throw (runtime_error "encountered unexpected object in initial state")
      | None => sn_put root (ge_space e) (ge_key e) (ge_value e) ;;; write_genesis data root
      end
  end.

Definition initialize_genesis (data : list genesis_entry) (root : ptr) : M store unit :=
  write_genesis data root ;;;
  let* key := sn_get root space_metadata genesis_key in
  match key with
  | None => throw (runtime_error "could not find genesis public key in database")
  | Some _ => ret tt
  end.

(** The path is not used; [fifo] is the only algorithm. The revision and the
    identifier of the head are read for the log. *)
Definition ctl_open (data : list genesis_entry) (reset : bool) : M controller unit :=
  on_db (db_open (initialize_genesis data)) ;;;
  (if reset then on_db db_reset else ret tt) ;;;
  let* head := on_db db_head in
  let* head := unptr head in
  on_node (sn_revision head) ;;;
  on_node (sn_id head) ;;;
  ret tt.

Definition ctl_close : M controller unit := on_db db_close.

(** ** Blocks *)

(** Times are nanoseconds since the epoch, as [system_clock] counts them. *)
Definition time_delta : Z := 5 * 10 ^ 9.
Definition milliseconds (t : Z) : Z := Z.quot t (10 ^ 6).

Definition default_irreversible_threshold : Z := 60.

(** A block whose parent the index does not have. *)
Definition orphan_block (b : block) : M controller (result block_receipt) :=
  let* root := on_db db_root in
  let* root := unptr root in
  let* revision := on_node (sn_revision root) in
  if b_height b <? revision then fail_with controller_errc.pre_irreversibility_block
  else
    let* id := on_node (sn_id root) in
    if negb (bytes_eqb (b_id b) id) then fail_with controller_errc.unknown_previous_block
    else fail_with controller_errc.ok.

(** The checks against the parent; the result is the lower bound of the
    timestamp. *)
Definition check_parent (b : block) (parent : ptr) : M controller (result Z) :=
  if bytes_eqb (b_previous b) zero_digest then
    if negb (b_height b =? 1) then fail_with controller_errc.unexpected_height else ret (inl 0)
  else
    let* root := on_db (pn_merkle_root parent) in
    if negb (bytes_eqb (b_state_merkle_root b) root) then fail_with controller_errc.state_merkle_mismatch
    else
      let* info := in_context read_only (Some (Node true parent)) ctx_head in
      if negb (b_height b =? u64 (hi_height info + 1)) then fail_with controller_errc.unexpected_height
      else ret (inl (hi_time info)).

Definition receipt_with_root (r : block_receipt) (root : digest) : block_receipt :=
  BlockReceipt (br_id r) (br_height r) (br_frames r) (br_disk_storage_used r) (br_network_bandwidth_used r)
    (br_compute_bandwidth_used r) root (br_transaction_receipts r) (br_disk_storage_charged r)
    (br_network_bandwidth_charged r) (br_compute_bandwidth_charged r).

(** The block was applied: it becomes final, and the block
    [default_irreversible_threshold] below it irreversible. *)
Definition finish_block (b : block) (node : ptr) (receipt : block_receipt) : M controller (result block_receipt) :=
  let* revision := on_node (sn_revision node) in
  let irreversible :=
    if default_irreversible_threshold <? revision then u64 (revision - default_irreversible_threshold) else 0 in
  on_db (pn_finalize node) ;;;
  let* root := on_db (pn_merkle_root node) in
  let* db_root := on_db db_root in
  let* db_root := unptr db_root in
  let* root_revision := on_node (sn_revision db_root) in
  (if root_revision <? irreversible then
     let* q := on_db (db_at_revision irreversible (b_id b)) in
     let* q := unptr q in
     on_db (pn_commit q)
   else ret tt) ;;;
  ret (inl (receipt_with_root receipt root)).

(** A block whose node was made: the checks that need the parent, and the
    application. *)
Definition connect_block (b : block) (current_time : Z) (parent node : ptr) : M controller (result block_receipt) :=
  let time_upper_bound := milliseconds (current_time + time_delta) in
  try* time_lower_bound := check_parent b parent in
  if (u64 time_upper_bound <? b_timestamp b) || (b_timestamp b <=? time_lower_bound)
  then fail_with controller_errc.timestamp_out_of_bounds
  else
    try* receipt := in_context block_application (Some (Node true node)) (apply_block uninit1 uninit2 b) in
    finish_block b node receipt.

(** [controller::process( block )] *)
Definition process_block (b : block) (current_time : Z) : M controller (result block_receipt) :=
  if negb (block_validate b) then fail_with controller_errc.malformed_block
  else
    let* block_node := on_db (db_get (b_id b)) in
    let* parent_node := on_db (db_get (b_previous b)) in
    match block_node, parent_node with
    | Some _, _ => fail_with controller_errc.ok
    | None, None => orphan_block b
    | None, Some parent =>
        let* final := on_db (pn_final parent) in
        if negb final then fail_with controller_errc.unknown_previous_block
        else
          let* node := on_db (pn_make_child parent (b_id b)) in
          connect_block b current_time parent node
    end.

(** ** Transactions *)

(** [controller::process( transaction )]: on a temporary child of the head. *)
Definition process_transaction (t : transaction) : M controller (result transaction_receipt) :=
  if negb (transaction_validate t) then fail_with controller_errc.malformed_transaction
  else if negb (bytes_eqb network_id (tx_network_id t)) then fail_with controller_errc.network_id_mismatch
  else
    let* head := on_db db_head in
    let* head := unptr head in
    let* child := on_node (sn_make_child head) in
    in_context transaction_application (Some (Node false child))
      (on_meter (modify (set_resource_limits default_limits)) ;;; apply_transaction uninit1 uninit2 t).

(** ** Readers *)

Definition at_head {A} (m : M context A) : M controller A :=
  let* head := on_db db_head in
  in_context read_only (Node true <$> head) m.

Definition ctl_head : M controller head_info := at_head ctx_head.
Definition ctl_resource_limits : M controller resource_limits := at_head (ret default_limits).
Definition ctl_account_resources (a : account) : M controller Z := at_head (ret (account_resources a)).
Definition ctl_account_nonce (a : account) : M controller Z := at_head (account_nonce a).

Definition read_program (a : account) (input : program_input) : M controller (result program_output) :=
  let* limit := gets ct_read_compute_bandwidth_limit in
  at_head
    (on_meter (modify (set_resource_limits (ResourceLimits 0 0 0 0 limit 0))) ;;;
     try* output := run uninit1 uninit2 relaxed a (stdin input) (arguments input) in
     ret (inl (frame_output output))).
End controller.
