(* ===== verification/Chain.v ===== *)
(** * What the controller does to the chain

    Proofs about [controller::process]: what an accepted block must have
    satisfied and how it extends the tree, that transactions and readers leave
    the chain alone, and what becomes of refused blocks. *)

From stdpp Require Import base gmap list option numbers strings.
From S2P Require Import Prelude OrdMap Memory Errors Crypto Protocol Backend StateDelta StateNode.
From S2P Require Import DeltaIndex ResourceMeter SystemInterface Coin ModuleCache ProgramContext.
From S2P Require Import HostApi ExecutionContext Samples ExecutionSafety Transactions Controller.

(** ** Remembering a digest

    Reading a merkle root may store it in the node; nothing else changes. *)

Definition contents (d : state_delta) : option ptr * option backend * oset * bool :=
  (sd_parent d, sd_backend d, sd_removed d, sd_final d).

Definition cached (st st' : store) : Prop :=
  st_next st' = st_next st /\ forall r, contents <$> st_deltas st' !! r = contents <$> st_deltas st !! r.

#[export] Instance cached_preorder : PreOrder cached.
Proof.
  split; [by intros st|]. intros a b c [H1 H2] [H3 H4]. split; [congruence|]. intros r. by rewrite H4.
Qed.

Lemma cached_lookup st st' r d :
  cached st st' -> st_deltas st !! r = Some d -> exists d', st_deltas st' !! r = Some d' /\ contents d' = contents d.
Proof.
  intros [_ H] Hd. specialize (H r). rewrite Hd in H. destruct (st_deltas st' !! r) as [d'|]; [|done].
  apply (inj Some) in H. eauto.
Qed.

Lemma cached_sym st st' : cached st st' -> cached st' st.
Proof. intros [H1 H2]. split; [done|]. intros r. by rewrite H2. Qed.

Lemma cached_wf st st' : cached st st' -> store_wf st -> store_wf st'.
Proof.
  intros Hc Hwf p d Hd. destruct (cached_lookup _ _ _ _ (cached_sym _ _ Hc) Hd) as (d0 & Hd0 & Heq).
  destruct (Hwf p d0 Hd0) as [Hlt Hw]. injection Heq as H1 H2 H3 H4. rewrite (proj1 Hc). split; [done|].
  unfold delta_wf in *. by rewrite <- H1, <- H2, <- H3.
Qed.

Lemma cached_live st st' r : cached st st' -> live st r -> live st' r.
Proof.
  intros Hc Hl. induction Hl as [p d b Hp Hb Hq|p d b q Hp Hb Hq _ IH];
    destruct (cached_lookup _ _ _ _ Hc Hp) as (d' & Hd' & Heq); injection Heq as H1 H2 H3 H4.
  - apply (live_root _ _ d' b); congruence.
  - apply (live_child _ _ d' b q); congruence.
Qed.

Lemma cached_grown st st' : cached st st' -> store_wf st -> grown st st'.
Proof.
  intros Hc Hwf. constructor; [by eapply cached_wf|intros r; by apply cached_live|].
  intros r Hl. destruct (live_lookup _ _ Hl) as (d & b & Hd & _). destruct (cached_lookup _ _ _ _ Hc Hd) as (d' & Hd' & Heq).
  rewrite Hd, Hd'. unfold shape_of. injection Heq as H1 H2 _ H4. cbn. by rewrite H1, H2, H4.
Qed.

Lemma cached_view st st' r k : cached st st' -> view_of st' r k = view_of st r k.
Proof.
  intros Hc. unfold view_of. generalize (S r) as n. intros n. revert r. induction n as [|n IH]; intros r; [done|].
  cbn [view]. destruct Hc as [_ H]. specialize (H r). destruct (st_deltas st !! r) as [d|], (st_deltas st' !! r) as [d'|]; try done.
  injection H as H1 H2 H3 _. unfold is_removed. rewrite H1, H2, H3.
  destruct (sd_backend d ≫= backend_get k); [done|]. destruct (om_mem k (sd_removed d)); [done|].
  destruct (sd_parent d); [apply IH|done].
Qed.

Lemma deref_cached p : preserves cached (deref p).
Proof. intros st. unfold deref. by destruct (st_deltas st !! p). Qed.
#[export] Hint Resolve deref_cached : preserve.

Lemma sd_id_cached p : preserves cached (sd_id p).
Proof. unfold sd_id. auto with preserve typeclass_instances. Qed.
Lemma sd_revision_cached p : preserves cached (sd_revision p).
Proof. unfold sd_revision. auto with preserve typeclass_instances. Qed.
Lemma sd_parent_id_cached p : preserves cached (sd_parent_id p).
Proof.
  unfold sd_parent_id. apply preserves_bind; [apply _|apply deref_cached|]. intros d.
  destruct (sd_parent d); [apply sd_id_cached|apply preserves_ret; apply _].
Qed.

Section chain.
Context `{B3 : Blake3} `{Sig : Signatures} `{Fz : Fizzy} (uninit1 uninit2 : bytes).
Abbreviation process_block := (process_block uninit1 uninit2).

Lemma merkle_root_cached p : preserves cached (sd_get_merkle_root p).
Proof.
  intros st. unfold sd_get_merkle_root, bind at 1, deref. destruct (st_deltas st !! p) as [d|] eqn:Hp; [|done].
  destruct (negb (sd_final d)); [cbn; reflexivity|]. destruct (sd_merkle_root d); [cbn; reflexivity|].
  destruct (sd_backend d) as [b|] eqn:Hb; [|done]. unfold unptr. rewrite bind_ret. unfold write. rewrite bind_modify.
  split; [done|]. intros r. destruct (decide (p = r)) as [<-|Hne].
  - rewrite store_set_lookup_eq, Hp. cbn. unfold contents. cbn. by rewrite Hb.
  - by rewrite store_set_lookup_ne.
Qed.

(** ** The index over a store that has grown *)

Lemma shape_backend st st' p b :
  grown st st' -> live st p -> backend_of st p = Some b ->
  exists b', backend_of st' p = Some b' /\ metadata b' = metadata b.
Proof.
  intros Hg Hl (d & Hd & Hb)%backend_of_eq. destruct (grown_lookup _ _ _ _ Hg Hl Hd) as (d' & Hd' & Hs).
  unfold backend_of. rewrite Hd'. unfold shape_of in Hs. rewrite Hb in Hs. cbn [fmap option_fmap option_map mbind option_bind] in *.
  destruct (sd_backend d') as [b'|]; [|done]. injection Hs as _ _ H1 H2 H3. exists b'. split; [done|].
  unfold metadata. by rewrite H1, H2, H3.
Qed.

Lemma shape_final st st' p : grown st st' -> live st p -> (is_final st' p <-> is_final st p).
Proof.
  intros Hg Hl. destruct (live_lookup _ _ Hl) as (d & b & Hd & _). destruct (grown_lookup _ _ _ _ Hg Hl Hd) as (d' & Hd' & Hs).
  injection Hs as _ Hf _. unfold is_final. rewrite Hd, Hd'. split; intros (x & [= <-] & Hx); eexists; (split; [done|congruence]).
Qed.

Lemma index_wf_grown i r h st :
  index_wf i r h -> grown (di_store i) st -> index_wf (set_store st i) r h.
Proof.
  intros W Hg. pose proof (wf_entry i r h W) as He. destruct W as [Hst Hnd Hes Hro Hhe Hre Hhen Hhf Hlo Hal].
  constructor; cbn [di_store di_entries di_root di_head di_alive set_store]; try done.
  - apply Hg.
  - eapply Forall_impl; [exact Hes|]. intros [id p] (Hl & b & Hb & Hid). split; [by apply Hg|].
    destruct (shape_backend _ _ _ _ Hg Hl Hb) as (b' & Hb' & [= H1 _ _]). exists b'. split; [done|congruence].
  - destruct Hhen as [hid Hhen]. apply (shape_final (di_store i)); [done|apply (He _ _ Hhen)|done].
  - intros id p b hb Hp Hf Hb Hh. destruct Hhen as [hid Hhen].
    destruct (He _ _ Hp) as (Hlp & b0 & Hb0 & _), (He _ _ Hhen) as (Hlh & hb0 & Hh0 & _). cbn [snd] in *.
    destruct (shape_backend _ _ _ _ Hg Hlp Hb0) as (b1 & Hb1 & [= _ H2 _]).
    destruct (shape_backend _ _ _ _ Hg Hlh Hh0) as (b2 & Hb2 & [= _ H4 _]). simplify_eq.
    rewrite H2, H4. apply (Hlo id p b0 hb0); [done|by apply (shape_final _ _ _ Hg Hlp)|done|done].
Qed.

(** ** Reading *)

(** The controller has at most remembered digests. *)
Definition reads (ct ct' : controller) : Prop :=
  exists st, cached (di_store (ct_db ct)) st /\ ct_db ct' = set_store st (ct_db ct).

Lemma set_store_same i : set_store (di_store i) i = i.
Proof. by destruct i. Qed.

#[export] Instance reads_preorder : PreOrder reads.
Proof.
  split.
  - intros ct. exists (di_store (ct_db ct)). split; [reflexivity|]. by rewrite set_store_same.
  - intros a b c (st & H1 & H2) (st' & H3 & H4). rewrite H2 in H3, H4. exists st'. split; [by etrans|done].
Qed.

Lemma on_node_reads {A} (m : M store A) : preserves cached m -> preserves reads (on_node m).
Proof.
  intros Hm ct. unfold on_node, on_db, on_store, zoom. specialize (Hm (di_store (ct_db ct))).
  destruct (m _); [by eexists..|done].
Qed.

Lemma in_context_reads {A} i n (m : M context A) :
  preserves (fun c c' => cached (cx_store c) (cx_store c')) m -> preserves reads (in_context i n m).
Proof.
  intros Hm ct. unfold in_context, zoom.
  specialize (Hm (set_node n (new_context (di_store (ct_db ct)) (ct_cache ct) i))).
  destruct (m _); [by eexists..|done].
Qed.

Definition store_cached (c c' : context) : Prop := cached (cx_store c) (cx_store c').
#[export] Instance store_cached_preorder : PreOrder store_cached.
Proof. split; [intros c; red; reflexivity|]. intros a b c H1 H2. red. by etrans. Qed.

Lemma on_cstore_cached {A} (m : M store A) : preserves cached m -> preserves store_cached (on_cstore m).
Proof. apply preserves_zoom. done. Qed.

Lemma ctx_head_cached : preserves store_cached ctx_head.
Proof.
  pose proof (fun p => on_cstore_cached _ (sd_id_cached p)). pose proof (fun p => on_cstore_cached _ (sd_revision_cached p)).
  pose proof (fun p => on_cstore_cached _ (sd_parent_id_cached p)). pose proof (fun p => on_cstore_cached _ (merkle_root_cached p)).
  unfold ctx_head, the_node. apply preserves_bind; [apply _| |].
  { apply preserves_bind; [apply _|apply preserves_gets; apply _|]. intros [n|]; auto with preserve typeclass_instances. }
  intros n. destruct (node_permanent n); [|apply preserves_throw; apply _].
  unfold sn_id, sn_revision, sn_parent_id.
  repeat (apply preserves_bind; [apply _|auto|intros]). apply preserves_ret; apply _.
Qed.

Lemma check_parent_reads b p : preserves reads (check_parent b p).
Proof.
  unfold check_parent, fail_with. destruct (bytes_eqb _ _).
  { destruct (negb _); apply preserves_ret; apply _. }
  apply preserves_bind; [apply _|apply (on_node_reads (sd_get_merkle_root p)), merkle_root_cached|]. intros root.
  destruct (negb _); [apply preserves_ret; apply _|].
  apply preserves_bind; [apply _|apply in_context_reads, ctx_head_cached|]. intros info.
  destruct (negb _); apply preserves_ret; apply _.
Qed.

(** ** A block that gets a node *)

Lemma on_db_Ret {A} (m : M delta_index A) ct a i : m (ct_db ct) = Ret a i -> on_db m ct = Ret a (set_db i ct).
Proof. unfold on_db, zoom. by intros ->. Qed.

Lemma set_db_same ct : set_db (ct_db ct) ct = ct.
Proof. by destruct ct. Qed.

Lemma db_get_eq ct r h id :
  index_wf (ct_db ct) r h -> on_db (db_get id) ct = Ret (entry_find id (di_entries (ct_db ct))) ct.
Proof.
  intros W. rewrite (on_db_Ret _ _ (entry_find id (di_entries (ct_db ct))) (ct_db ct)); [by rewrite set_db_same|].
  unfold db_get, di_get. by rewrite (when_open_eq _ _ _ _ W).
Qed.

Lemma pn_final_eq ct p d :
  st_deltas (di_store (ct_db ct)) !! p = Some d -> on_db (pn_final p) ct = Ret (sd_final d) ct.
Proof.
  intros Hd. rewrite (on_db_Ret _ _ (sd_final d) (ct_db ct)); [by rewrite set_db_same|].
  apply on_store_read. unfold sd_is_final. by rewrite (bind_Ret _ _ _ _ _ (deref_eq _ _ _ Hd)).
Qed.

(** The node of a new block [b] over [p]. *)
Record new_node (i : delta_index) (r h p : ptr) (pb : backend) (b : block) (node : ptr) (i1 : delta_index) : Prop := {
  nn_wf : index_wf i1 r h;
  nn_comp : di_comp i1 = di_comp i;
  nn_entries : di_entries i1 = di_entries i ++ [(b_id b, node)];
  nn_revision : exists nb, backend_of (di_store i1) node = Some nb /\ bk_revision nb = u64 (bk_revision pb + 1);
  nn_open : ~ is_final (di_store i1) node;
  nn_view : forall x, view_of (di_store i1) node x = view_of (di_store i) p x;
  nn_others : forall q x, live (di_store i) q -> view_of (di_store i1) q x = view_of (di_store i) q x;
  nn_live : forall q, live (di_store i) q -> live (di_store i1) q /\ ~ reach (di_store i1) q node /\
    st_deltas (di_store i1) !! q = st_deltas (di_store i) !! q;
  nn_parent : exists d, st_deltas (di_store i1) !! node = Some d /\ sd_parent d = Some p
}.

(** What [process] has found out when it makes the node. *)
Definition connectable (ct : controller) (b : block) (p : ptr) : Prop :=
  block_validate b = true /\ entry_find (b_id b) (di_entries (ct_db ct)) = None /\
  entry_find (b_previous b) (di_entries (ct_db ct)) = Some p /\ is_final (di_store (ct_db ct)) p /\ b_id b <> null_id.

Lemma process_block_connect ct b now r h p pb :
  index_wf (ct_db ct) r h -> connectable ct b p -> backend_of (di_store (ct_db ct)) p = Some pb ->
  exists node i1, new_node (ct_db ct) r h p pb b node i1 /\
    process_block b now ct = connect_block uninit1 uninit2 b now p node (set_db i1 ct).
Proof.
  intros W (Hv & Hnew & Hprev & (d & Hd & Hf) & Hid) Hpb.
  destruct (pn_make_child_new (ct_db ct) r h (b_previous b) p pb (b_id b) W) as
    (node & i1 & nb & Hrun & W1 & He & Hnb & Hrev & Hop & Hvc & Hv1 & Hl1 & Hc1 & Hpar1);
    [by apply entry_find_Some|done|done|by apply entry_find_None|].
  exists node, i1. split; [constructor; eauto|]. unfold Controller.process_block. rewrite Hv. cbn [negb].
  rewrite (bind_Ret _ _ _ _ _ (db_get_eq ct r h (b_id b) W)), (bind_Ret _ _ _ _ _ (db_get_eq ct r h (b_previous b) W)).
  rewrite Hnew, Hprev, (bind_Ret _ _ _ _ _ (pn_final_eq ct p d Hd)), Hf. cbn [negb].
  by rewrite (bind_Ret _ _ _ _ _ (on_db_Ret _ _ _ _ Hrun)).
Qed.

Lemma new_node_live i r h p pb b node i1 : new_node i r h p pb b node i1 -> live (di_store i1) node.
Proof.
  intros Nn. apply (wf_entry _ _ _ (nn_wf _ _ _ _ _ _ _ _ Nn) (b_id b) node).
  rewrite (nn_entries _ _ _ _ _ _ _ _ Nn). apply elem_of_app. right. constructor.
Qed.

Lemma on_node_read {A} (m : M store A) ct a :
  m (di_store (ct_db ct)) = Ret a (di_store (ct_db ct)) -> on_node m ct = Ret a ct.
Proof.
  intros H. unfold on_node. rewrite (on_db_Ret _ _ a (ct_db ct)); [by rewrite set_db_same|]. by apply on_store_read.
Qed.

(** A child changes nothing of the nodes that are there. *)
Lemma sd_make_child_grown st p id :
  store_wf st -> live st p ->
  exists child st1, sd_make_child p id st = Ret child st1 /\ grown st st1 /\ live st1 child /\
    ~ is_final st1 child /\ (forall q, live st q -> ~ reach st1 q child) /\
    (forall q x, live st q -> view_of st1 q x = view_of st q x).
Proof.
  intros Hwf Hl. destruct (live_lookup _ _ Hl) as (d & b & Hd & Hb).
  destruct (sd_make_child_run st p d b id Hd Hb) as (cd & Hrun & Hcd).
  destruct (make_child_facts _ _ _ cd b id Hwf Hl Hd Hcd) as (Hwf1 & Hlv & Hlc & Hvc & Hv).
  exists (st_next st). eexists. split; [exact Hrun|]. destruct Hcd as (_ & Hf & _).
  assert (forall q, live st q -> (q < st_next st)%nat) as Hlt.
  { intros q Hq. destruct (live_lookup _ _ Hq) as (dq & bq & Hdq & _). by destruct (Hwf q dq Hdq). }
  split; [|split; [done|split; [|split; [|done]]]].
  - constructor; [done|done|]. intros q Hq. specialize (Hlt q Hq). cbn. by rewrite lookup_insert_ne by lia.
  - intros (d' & Hd' & Hf'). cbn in Hd'. rewrite lookup_insert_eq in Hd'. congruence.
  - intros q Hq. by apply not_reach_lt; [|apply Hlt].
Qed.

(** Every other block is refused before it gets a node, or for its null
    identifier. *)
Lemma orphan_block_eq ct b r h : index_wf (ct_db ct) r h -> exists e, orphan_block b ct = Ret (inr e) ct.
Proof.
  intros W. destruct (wf_root_backend _ _ _ W) as [rb Hrb]. unfold orphan_block.
  rewrite (bind_Ret _ _ ct (Some r) ct); [|by rewrite (on_db_Ret _ _ (Some r) (ct_db ct)); [rewrite set_db_same|unfold db_root, gets; rewrite (iw_root _ _ _ W)]].
  unfold unptr. rewrite bind_ret, (bind_Ret _ _ _ _ _ (on_node_read _ _ _ (read_revision _ _ _ Hrb))).
  destruct (_ <? _); [by eexists|]. rewrite (bind_Ret _ _ _ _ _ (on_node_read _ _ _ (read_id _ _ _ Hrb))).
  destruct (negb _); by eexists.
Qed.

Lemma process_block_cases ct b now r h :
  index_wf (ct_db ct) r h ->
  (exists e, process_block b now ct = Ret (inr e) ct) \/
  (exists e st, process_block b now ct = Throw e (set_db (set_store st (ct_db ct)) ct) /\
     grown (di_store (ct_db ct)) st /\
     forall q x, live (di_store (ct_db ct)) q -> view_of st q x = view_of (di_store (ct_db ct)) q x) \/
  exists p pb node i1, connectable ct b p /\ backend_of (di_store (ct_db ct)) p = Some pb /\
    new_node (ct_db ct) r h p pb b node i1 /\
    process_block b now ct = connect_block uninit1 uninit2 b now p node (set_db i1 ct).
Proof.
  intros W. destruct (block_validate b) eqn:Hv.
  2:{ left. unfold Controller.process_block. rewrite Hv. by eexists. }
  destruct (entry_find (b_id b) (di_entries (ct_db ct))) as [q|] eqn:Hnew.
  { left. unfold Controller.process_block. rewrite Hv. cbn [negb].
    rewrite (bind_Ret _ _ _ _ _ (db_get_eq ct r h (b_id b) W)), (bind_Ret _ _ _ _ _ (db_get_eq ct r h (b_previous b) W)), Hnew.
    by eexists. }
  destruct (entry_find (b_previous b) (di_entries (ct_db ct))) as [p|] eqn:Hprev.
  2:{ left. unfold Controller.process_block. rewrite Hv. cbn [negb].
      rewrite (bind_Ret _ _ _ _ _ (db_get_eq ct r h (b_id b) W)), (bind_Ret _ _ _ _ _ (db_get_eq ct r h (b_previous b) W)).
      rewrite Hnew, Hprev. by eapply orphan_block_eq. }
  pose proof (entry_find_Some _ _ _ Hprev) as Hin. destruct (wf_entry _ _ _ W _ _ Hin) as (Hl & pb & Hpb & _).
  destruct (live_lookup _ _ Hl) as (d & b0 & Hd & _). cbn [snd] in *.
  destruct (decide (sd_final d = true /\ b_id b <> null_id)) as [[Hf Hid]|Hno].
  { right. right. assert (connectable ct b p) as Hcn by (repeat split; [done..|by exists d|done]).
    destruct (process_block_connect ct b now r h p pb W Hcn Hpb) as (node & i1 & Nn & Heq). by exists p, pb, node, i1. }
  unfold Controller.process_block. rewrite Hv. cbn [negb].
  rewrite (bind_Ret _ _ _ _ _ (db_get_eq ct r h (b_id b) W)), (bind_Ret _ _ _ _ _ (db_get_eq ct r h (b_previous b) W)).
  rewrite Hnew, Hprev, (bind_Ret _ _ _ _ _ (pn_final_eq ct p d Hd)).
  destruct (sd_final d) eqn:Hf; cbn [negb]; [|left; by eexists].
  right. left. assert (b_id b = null_id) as Hid by (destruct (decide (b_id b = null_id)); tauto).
  destruct (pn_make_child_duplicate (ct_db ct) r h (b_previous b) p pb (b_id b) W Hin Hpb) as (c & st & Hmk & Hdup); [by left|].
  destruct (sd_make_child_grown _ p (b_id b) (iw_store _ _ _ W) Hl) as (c' & st' & Hmk' & Hg & _ & _ & _ & Hvw).
  rewrite Hmk in Hmk'. injection Hmk' as <- <-.
  eexists _, st. split; [|done]. unfold bind at 1, on_db, zoom. by rewrite Hdup.
Qed.

(** A state of the controller in which the tree has grown and the nodes other
    than [node] and its descendants read as before. *)
Definition extended (node : ptr) (ct ct' : controller) : Prop :=
  exists st, ct_db ct' = set_store st (ct_db ct) /\ grown (di_store (ct_db ct)) st /\
    forall q x, live (di_store (ct_db ct)) q -> ~ reach (di_store (ct_db ct)) q node ->
      view_of st q x = view_of (di_store (ct_db ct)) q x.

Lemma extended_trans node a b c : extended node a b -> extended node b c -> extended node a c.
Proof.
  intros (st & Hb & Hg & Hv) (st' & Hc & Hg' & Hv'). rewrite Hb in *. exists st'. split; [done|].
  split; [by eapply grown_trans|]. intros q x Hl Hr. cbn [di_store set_store] in Hv'. rewrite Hv', Hv; [done|done|done|by apply Hg|].
  intros Hre. apply Hr. by eapply grown_reach.
Qed.

Lemma reads_extended node ct ct' : store_wf (di_store (ct_db ct)) -> reads ct ct' -> extended node ct ct'.
Proof.
  intros Hwf (st & Hc & He). exists st. split; [done|]. split; [by apply cached_grown|]. intros q x _ _. by apply cached_view.
Qed.

Lemma extended_wf node ct ct' r h : extended node ct ct' -> index_wf (ct_db ct) r h -> index_wf (ct_db ct') r h.
Proof. intros (st & -> & Hg & _) W. by apply index_wf_grown. Qed.

Lemma reads_Ret {A} (m : M controller A) ct a ct' : preserves reads m -> m ct = Ret a ct' -> reads ct ct'.
Proof. intros Hm H. specialize (Hm ct). by rewrite H in Hm. Qed.

Lemma in_block_open ct node :
  store_wf (di_store (ct_db ct)) -> live (di_store (ct_db ct)) node -> ~ is_final (di_store (ct_db ct)) node ->
  forall i perm, open_block (Node perm node)
    (set_node (Some (Node perm node)) (new_context (di_store (ct_db ct)) (ct_cache ct) i)).
Proof.
  intros Hwf Hl Hf i perm. constructor; [constructor; [done|by eexists|cbn; unfold default_stack_limit; lia]|done|].
  destruct (live_lookup _ _ Hl) as (d & b & Hd & _). exists d. split; [done|]. destruct (sd_final d) eqn:E; [|done].
  destruct Hf. by exists d.
Qed.

(** The metadata a node shows is the same. *)
Definition metadata_kept (node : ptr) (ct ct' : controller) : Prop :=
  forall k, is_metadata_key k -> view_of (di_store (ct_db ct')) node k = view_of (di_store (ct_db ct)) node k.

Lemma in_context_extended {A} i perm node (m : M context A) (Q : A -> store -> Prop) ct :
  (forall c, open_block (Node perm node) c ->
     wp (beside (Node perm node) c) m (fun a c' => kept (Node perm node) c c' /\ Q a (cx_store c)) c) ->
  store_wf (di_store (ct_db ct)) -> live (di_store (ct_db ct)) node -> ~ is_final (di_store (ct_db ct)) node ->
  wp (extended node ct) (in_context i (Some (Node perm node)) m)
    (fun a ct' => extended node ct ct' /\ metadata_kept node ct ct' /\ Q a (di_store (ct_db ct))) ct.
Proof.
  intros Hm Hwf Hl Hf. specialize (Hm _ (in_block_open ct node Hwf Hl Hf i perm)).
  unfold in_context, zoom, wp_but in *. destruct (m _) as [a' c'|e c'|]; [|by exists (cx_store c')|done].
  destruct Hm as [[_ Hg Hb Hmd] HQ]. split; [by exists (cx_store c')|]. by split.
Qed.

(** How a block with a node ends: it was refused, or it passed the checks, was
    applied and is being finished. *)
Record passed (b : block) (now : Z) (p node : ptr) (ct ct2 : controller) : Prop := {
  pa_parent : exists lower ct1, check_parent b p ct = Ret (inl lower) ct1 /\
    lower < b_timestamp b <= u64 (milliseconds (now + time_delta));
  pa_extended : extended node ct ct2;
  pa_metadata : metadata_kept node ct ct2;
  pa_signer : view_of (di_store (ct_db ct)) node genesis_object = Some (account_public_key (b_signer b))
}.

Lemma reads_view ct ct' q k : reads ct ct' -> view_of (di_store (ct_db ct')) q k = view_of (di_store (ct_db ct)) q k.
Proof. intros (st & Hc & ->). by apply cached_view. Qed.

(** The node of a block that is being applied. *)
Definition open_node (node : ptr) (ct : controller) : Prop :=
  store_wf (di_store (ct_db ct)) /\ live (di_store (ct_db ct)) node /\ ~ is_final (di_store (ct_db ct)) node.

Lemma extended_open node ct ct' : extended node ct ct' -> open_node node ct -> open_node node ct'.
Proof.
  intros (st & E & Hg & _) (Hwf & Hl & Hf). unfold open_node. rewrite E. cbn [di_store set_store].
  split; [apply Hg|]. split; [by apply Hg|]. intros Hfin. apply Hf. by apply (shape_final _ _ _ Hg Hl).
Qed.

Lemma apply_block_extended b node ct :
  open_node node ct ->
  wp (extended node ct) (in_context block_application (Some (Node true node)) (apply_block uninit1 uninit2 b))
    (fun r ct' => extended node ct ct' /\ metadata_kept node ct ct' /\ forall rc, r = inl rc ->
       view_of (di_store (ct_db ct)) node genesis_object = Some (account_public_key (b_signer b))) ct.
Proof.
  intros (Hwf & Hl & Hf).
  apply (in_context_extended _ _ _ _ (fun r st => forall rc, r = inl rc ->
    view_of st node genesis_object = Some (account_public_key (b_signer b)))); [|done..].
  intros c Hob. by apply (apply_block_wp uninit1 uninit2 (Node true node)).
Qed.

Lemma connect_block_cases ct b now p node r h :
  index_wf (ct_db ct) r h -> live (di_store (ct_db ct)) node -> ~ is_final (di_store (ct_db ct)) node ->
  match connect_block uninit1 uninit2 b now p node ct with
  | Ret (inr _) ct' => extended node ct ct'
  | Ret (inl rc) ct' =>
      exists receipt ct2, passed b now p node ct ct2 /\ finish_block b node receipt ct2 = Ret (inl rc) ct'
  | Throw e ct' => extended node ct ct' \/
      exists receipt ct2, passed b now p node ct ct2 /\ finish_block b node receipt ct2 = Throw e ct'
  | Fault _ => True
  end.
Proof.
  intros W Hl Hf. unfold connect_block. cbv zeta. pose proof (check_parent_reads b p ct) as Hr. unfold bind at 1.
  destruct (check_parent b p ct) as [[lower|e] ct1|e ct1|] eqn:Hc; [|by apply reads_extended; [apply W|]| |done].
  2:{ left. apply reads_extended; [apply W|done]. }
  pose proof (reads_extended node _ _ (iw_store _ _ _ W) Hr) as Hx.
  destruct (_ || _) eqn:Ht; [done|]. apply orb_false_iff in Ht as [Ht1 Ht2]. bool_to_prop.
  pose proof (apply_block_extended b node ct1 (extended_open _ _ _ Hx (conj (iw_store _ _ _ W) (conj Hl Hf)))) as Ha.
  unfold wp_but in Ha. unfold bind. destruct (in_context _ _ _ ct1) as [res ct2|e ct2|]; [|by left; eapply extended_trans|done].
  destruct Ha as (Hx2 & Hm2 & Hs2). pose proof (extended_trans _ _ _ _ Hx Hx2) as Hx'. destruct res as [receipt|e]; [|done].
  assert (passed b now p node ct ct2) as Hp.
  { constructor; [by exists lower, ct1|done| |].
    - intros k Hk. rewrite Hm2 by done. by apply reads_view.
    - rewrite <- (Hs2 _ eq_refl). symmetry. by apply reads_view. }
  destruct (finish_block b node receipt ct2) as [[rc|e] ct'|e ct'|] eqn:Hfb; [by eauto| |by eauto|done].
  unfold finish_block in Hfb. repeat (apply bind_Ret_inv in Hfb as (? & ? & _ & Hfb)). done.
Qed.

(** A receipt is only given for a block that gets a node. *)
Lemma process_block_accepted ct b now r h rc ct' :
  index_wf (ct_db ct) r h -> process_block b now ct = Ret (inl rc) ct' ->
  exists p pb node i1 receipt ct2, connectable ct b p /\ backend_of (di_store (ct_db ct)) p = Some pb /\
    new_node (ct_db ct) r h p pb b node i1 /\ passed b now p node (set_db i1 ct) ct2 /\
    finish_block b node receipt ct2 = Ret (inl rc) ct'.
Proof.
  intros W H. destruct (process_block_cases ct b now r h W) as [(e & He)|[(e & st & He & _)|(p & pb & node & i1 & Hcn & Hpb & Nn & Heq)]];
    [congruence..|].
  exists p, pb, node, i1. pose proof (connect_block_cases (set_db i1 ct) b now p node r h (nn_wf _ _ _ _ _ _ _ _ Nn)
    (new_node_live _ _ _ _ _ _ _ _ Nn) (nn_open _ _ _ _ _ _ _ _ Nn)) as Hc.
  rewrite <- Heq, H in Hc. destruct Hc as (receipt & ct2 & Hp & Hfb). by exists receipt, ct2.
Qed.

(** The state in which [node] has become final: the head follows the longest
    chain, nothing else changes. *)
Record settled (r h node : ptr) (ct ct' : controller) : Prop := {
  sl_wf : index_wf (ct_db ct') r h;
  sl_comp : di_comp (ct_db ct') = di_comp (ct_db ct);
  sl_entries : di_entries (ct_db ct') = di_entries (ct_db ct);
  sl_view : forall q x, view_of (di_store (ct_db ct')) q x = view_of (di_store (ct_db ct)) q x;
  sl_delta : forall q d, st_deltas (di_store (ct_db ct)) !! q = Some d ->
    exists d', st_deltas (di_store (ct_db ct')) !! q = Some d' /\ sd_parent d' = sd_parent d /\
      sd_backend d' = sd_backend d /\ sd_final d' = bool_decide (q = node) || sd_final d
}.

Lemma settled_backend r h node ct ct' q b :
  settled r h node ct ct' -> backend_of (di_store (ct_db ct)) q = Some b -> backend_of (di_store (ct_db ct')) q = Some b.
Proof.
  intros Hs (d & Hd & Hb)%backend_of_eq. destruct (sl_delta _ _ _ _ _ Hs q d Hd) as (d' & Hd' & _ & Hb' & _).
  unfold backend_of. rewrite Hd'. cbn. congruence.
Qed.

Lemma settled_final r h node ct ct' q :
  settled r h node ct ct' -> live (di_store (ct_db ct)) q ->
  is_final (di_store (ct_db ct')) q <-> q = node \/ is_final (di_store (ct_db ct)) q.
Proof.
  intros Hs Hl. destruct (live_lookup _ _ Hl) as (d & b & Hd & _).
  destruct (sl_delta _ _ _ _ _ Hs q d Hd) as (d' & Hd' & _ & _ & Hf). unfold is_final. rewrite Hd, Hd'. split.
  - intros (x & [= <-] & Hx). rewrite Hf in Hx. apply orb_true_iff in Hx as [Hx%bool_decide_eq_true|Hx]; eauto.
  - intros Hx. exists d'. split; [done|]. rewrite Hf. apply orb_true_iff.
    destruct Hx as [Hx|(x & [= <-] & Hx)]; [left; by apply bool_decide_eq_true|by right].
Qed.

Lemma merkle_root_final st p d b :
  st_deltas st !! p = Some d -> sd_final d = true -> sd_backend d = Some b ->
  exists root st', sd_get_merkle_root p st = Ret root st' /\ cached st st'.
Proof.
  intros Hp Hf Hb. pose proof (merkle_root_cached p st) as H.
  unfold sd_get_merkle_root in *. rewrite (bind_Ret _ _ _ _ _ (deref_eq _ _ _ Hp)), Hf, Hb in *. cbn [negb] in *.
  destruct (sd_merkle_root d); eexists _, _; (split; [done|exact H]).
Qed.

(** The height above which finishing a block commits an older one. *)
Definition irreversible_revision (revision : Z) : Z :=
  if default_irreversible_threshold <? revision then u64 (revision - default_irreversible_threshold) else 0.

Lemma finish_block_settled ct b node receipt r h hb nb rb id :
  index_wf (ct_db ct) r h -> di_comp (ct_db ct) = fifo_comparator -> (id, node) ∈ di_entries (ct_db ct) ->
  backend_of (di_store (ct_db ct)) node = Some nb -> backend_of (di_store (ct_db ct)) h = Some hb ->
  backend_of (di_store (ct_db ct)) r = Some rb ->
  exists root ct2, settled r (if bk_revision hb <? bk_revision nb then node else h) node ct ct2 /\
    finish_block b node receipt ct =
      ((if bk_revision rb <? irreversible_revision (bk_revision nb) then
          let* q := on_db (db_at_revision (irreversible_revision (bk_revision nb)) (b_id b)) in
          let* q := unptr q in
          on_db (pn_commit q)
        else ret tt) ;;; ret (inl (receipt_with_root receipt root))) ct2.
Proof.
  intros W Hcomp He Hnb Hhb Hrb.
  destruct (pn_finalize_head (ct_db ct) r h id node nb hb W Hcomp He Hnb Hhb) as (i1 & Hrun & W1 & Hc1 & Hes & Hv & d & Hd & Est).
  pose proof Hnb as (d0 & Hd0 & Hbd)%backend_of_eq. assert (d0 = d) as -> by congruence.
  destruct (merkle_root_final (di_store i1) node (finalized d) nb) as (root & st & Hm & Hc);
    [rewrite Est; apply store_set_lookup_eq|done|done|].
  pose proof (cached_grown _ _ Hc (iw_store _ _ _ W1)) as Hg. pose proof (index_wf_grown _ _ _ _ W1 Hg) as W2.
  set (ct2 := set_db (set_store st i1) (set_db i1 ct)).
  set (h' := if bk_revision hb <? bk_revision nb then node else h) in *.
  assert (settled r h' node ct ct2) as Hs.
  { constructor; [exact W2|exact Hc1|exact Hes|intros q x; unfold ct2; cbn [ct_db set_db di_store set_store];
      by rewrite (cached_view _ _ _ _ Hc)|].
    intros q dq Hq. assert (exists d1, st_deltas (di_store i1) !! q = Some d1 /\
      (sd_parent d1, sd_backend d1, sd_final d1) = (sd_parent dq, sd_backend dq, bool_decide (q = node) || sd_final dq))
      as (d1 & Hq1 & [= Hp1 Hb1 Hf1]).
    { rewrite Est. destruct (decide (q = node)) as [->|Hne].
      - exists (finalized d). rewrite store_set_lookup_eq. assert (dq = d) as -> by congruence. by rewrite bool_decide_true.
      - exists dq. rewrite store_set_lookup_ne by done. by rewrite bool_decide_false. }
    destruct (cached_lookup _ _ _ _ Hc Hq1) as (d2 & Hq2 & [= Hp2 Hb2 _ Hf2]). exists d2. split; [done|]. split; [congruence|].
    split; congruence. }
  exists root, ct2. split; [done|]. unfold finish_block.
  rewrite (bind_Ret _ _ _ _ _ (on_node_read _ ct _ (read_revision _ _ _ Hnb))). cbv zeta. fold (irreversible_revision (bk_revision nb)).
  rewrite (bind_Ret _ _ _ _ _ (on_db_Ret _ _ _ _ Hrun)).
  rewrite (bind_Ret _ _ (set_db i1 ct) root ct2); [|by apply on_db_Ret, on_store_Ret].
  rewrite (bind_Ret _ _ ct2 (Some r) ct2); [|rewrite (on_db_Ret _ _ (Some r) (ct_db ct2)); [by rewrite set_db_same|];
    unfold db_root, gets; by rewrite (iw_root _ _ _ (sl_wf _ _ _ _ _ Hs))].
  unfold unptr. rewrite bind_ret.
  by rewrite (bind_Ret _ _ _ _ _ (on_node_read _ ct2 _ (read_revision _ _ _ (settled_backend _ _ _ _ _ _ _ Hs Hrb)))).
Qed.

(** Near the root, that is all. *)
Lemma finish_block_near ct b node receipt r h hb nb rb id :
  index_wf (ct_db ct) r h -> di_comp (ct_db ct) = fifo_comparator -> (id, node) ∈ di_entries (ct_db ct) ->
  backend_of (di_store (ct_db ct)) node = Some nb -> backend_of (di_store (ct_db ct)) h = Some hb ->
  backend_of (di_store (ct_db ct)) r = Some rb -> 0 <= bk_revision nb < 2 ^ 64 -> 0 <= bk_revision rb ->
  bk_revision nb <= default_irreversible_threshold + bk_revision rb ->
  exists root ct', finish_block b node receipt ct = Ret (inl (receipt_with_root receipt root)) ct' /\
    settled r (if bk_revision hb <? bk_revision nb then node else h) node ct ct'.
Proof.
  intros W Hcomp He Hnb Hhb Hrb Hrange Hr0 Hnear.
  destruct (finish_block_settled ct b node receipt r h hb nb rb id W Hcomp He Hnb Hhb Hrb) as (root & ct2 & Hs & Heq).
  exists root, ct2. split; [|done]. rewrite Heq, (proj2 (Z.ltb_ge _ _)); [done|]. unfold irreversible_revision.
  unfold default_irreversible_threshold in *. destruct (60 <? bk_revision nb) eqn:E; [|done]. bool_to_prop.
  rewrite u64_small by (unfold u64_ok; lia). lia.
Qed.

(** ** Accepted blocks *)

(** What the parent's header check demands, when it passes. *)
Lemma check_parent_inv b p ct lower ct1 pb :
  backend_of (di_store (ct_db ct)) p = Some pb ->
  check_parent b p ct = Ret (inl lower) ct1 ->
  lower = 0 /\
  if bytes_eqb (b_previous b) zero_digest then b_height b = 1
  else b_height b = u64 (bk_revision pb + 1) /\
    exists ct0, on_db (pn_merkle_root p) ct = Ret (b_state_merkle_root b) ct0.
Proof.
  intros Hpb H. unfold check_parent in H. destruct (bytes_eqb (b_previous b) zero_digest).
  { destruct (b_height b =? 1) eqn:E; [|done]. bool_to_prop. by injection H as <- _. }
  apply bind_Ret_inv in H as (root & ct0 & Hm & H). destruct (bytes_eqb (b_state_merkle_root b) root) eqn:E; [|done].
  bool_to_prop. subst root. cbn [negb] in H. apply bind_Ret_inv in H as (info & ct2 & Hh & H).
  pose proof (reads_Ret _ _ _ _ (on_node_reads _ (merkle_root_cached p)) Hm) as (st & Hc & E0).
  assert (backend_of (di_store (ct_db ct0)) p = Some pb) as Hpb0.
  { rewrite E0. apply backend_of_eq in Hpb as (d & Hd & Hb). destruct (cached_lookup _ _ _ _ Hc Hd) as (d' & Hd' & Heq).
    injection Heq as _ H2 _ _. unfold backend_of. cbn [di_store set_store]. rewrite Hd'. cbn. congruence. }
  unfold in_context, zoom, ctx_head, the_node in Hh. rewrite bind_assoc, bind_gets in Hh. cbn [cx_node set_node] in Hh.
  rewrite bind_ret in Hh. cbn [node_permanent] in Hh.
  destruct ((_ : M context head_info) _) as [info' c'| |] eqn:Ei in Hh; [|done..]. injection Hh as <- <-.
  apply bind_Ret_inv in Ei as (id & c1 & H1 & Ei). apply bind_Ret_inv in Ei as (rev & c2 & H2 & Ei).
  apply bind_Ret_inv in Ei as (pid & c3 & _ & Ei). apply bind_Ret_inv in Ei as (rt & c4 & _ & Ei). injection Ei as <- _.
  unfold on_cstore, zoom, sn_id, sn_revision in H1, H2. cbn [node_ptr cx_store set_node new_context] in H1.
  rewrite (read_id _ _ _ Hpb0) in H1. injection H1 as _ <-. cbn [cx_store set_cstore node_ptr set_node new_context] in H2.
  rewrite (read_revision _ _ _ Hpb0) in H2. injection H2 as <- _. cbn [hi_height hi_time] in H.
  destruct (b_height b =? _) eqn:E; [|done]. bool_to_prop. injection H as <- _. split; [done|]. split; [done|]. by exists ct0.
Qed.

(** C10. A block gets a receipt only when it is well formed and signed, its node is
    new, its parent is known and final and it is not from the future. When its
    previous identifier is not zero, its height is that of the parent and one,
    and it names the merkle root of the parent's state; when it is zero, which
    names the root, its height is one and the merkle root it names is not looked
    at. *)
Theorem process_block_checks ct b now rc ct' r h :
  index_wf (ct_db ct) r h -> process_block b now ct = Ret (inl rc) ct' ->
  block_validate b = true /\ entry_find (b_id b) (di_entries (ct_db ct)) = None /\
  0 < b_timestamp b <= u64 (milliseconds (now + time_delta)) /\
  exists p pb, entry_find (b_previous b) (di_entries (ct_db ct)) = Some p /\
    is_final (di_store (ct_db ct)) p /\ backend_of (di_store (ct_db ct)) p = Some pb /\
    if bytes_eqb (b_previous b) zero_digest then b_height b = 1
    else b_height b = u64 (bk_revision pb + 1) /\
      exists i1 ct0, on_db (pn_merkle_root p) (set_db i1 ct) = Ret (b_state_merkle_root b) ct0 /\
        st_deltas (di_store i1) !! p = st_deltas (di_store (ct_db ct)) !! p.
Proof.
  intros W H. destruct (process_block_accepted ct b now r h rc ct' W H) as
    (p & pb & node & i1 & receipt & ct2 & Hcn & Hpb & Nn & [(lower & ct1 & Hc & Ht) _ _ _] & _).
  pose proof Hcn as (Hv & Hnew & Hprev & Hfin & Hid).
  destruct (wf_entry _ _ _ W _ _ (entry_find_Some _ _ _ Hprev)) as [Hl _]. cbn [snd] in *.
  destruct (nn_live _ _ _ _ _ _ _ _ Nn p Hl) as (_ & _ & Hsame).
  destruct (check_parent_inv b p (set_db i1 ct) lower ct1 pb) as [-> Hcp]; [unfold backend_of in *; cbn; by rewrite Hsame|done|].
  split; [done|]. split; [done|]. split; [done|]. exists p, pb. do 3 (split; [done|]).
  destruct (bytes_eqb _ _); [done|]. destruct Hcp as [Hh (ct0 & Hm)]. split; [done|]. by exists i1, ct0.
Qed.

(** C9. An accepted block extends the tree: the index gains its node and stays well
    formed, the node is final, the head is the longest final node again (the
    older one on a tie), and every node that was there shows what it showed. *)
Theorem process_block_extends ct b now rc ct' r h p pb rb hb :
  index_wf (ct_db ct) r h -> di_comp (ct_db ct) = fifo_comparator ->
  entry_find (b_previous b) (di_entries (ct_db ct)) = Some p ->
  backend_of (di_store (ct_db ct)) p = Some pb -> backend_of (di_store (ct_db ct)) r = Some rb ->
  backend_of (di_store (ct_db ct)) h = Some hb -> 0 <= bk_revision rb ->
  u64 (bk_revision pb + 1) <= default_irreversible_threshold + bk_revision rb ->
  process_block b now ct = Ret (inl rc) ct' ->
  exists node,
    index_wf (ct_db ct') r (if bk_revision hb <? u64 (bk_revision pb + 1) then node else h) /\
    di_entries (ct_db ct') = di_entries (ct_db ct) ++ [(b_id b, node)] /\
    is_final (di_store (ct_db ct')) node /\
    (forall q x, live (di_store (ct_db ct)) q ->
       view_of (di_store (ct_db ct')) q x = view_of (di_store (ct_db ct)) q x).
Proof.
  intros W Hcomp Hprev Hpb Hrb Hhb Hr0 Hnear H.
  destruct (process_block_accepted ct b now r h rc ct' W H) as
    (p' & pb' & node & i1 & receipt & ct2 & Hcn & Hpb' & Nn & [_ Hx _ _] & Hfb).
  assert (p' = p) as -> by (destruct Hcn as (_ & _ & Hp' & _); congruence). assert (pb' = pb) as -> by congruence.
  exists node. pose proof (nn_wf _ _ _ _ _ _ _ _ Nn) as W1. destruct (nn_revision _ _ _ _ _ _ _ _ Nn) as (nb & Hnb & Hrev).
  pose proof (new_node_live _ _ _ _ _ _ _ _ Nn) as Hln.
  assert ((b_id b, node) ∈ di_entries i1) as Hnode by (rewrite (nn_entries _ _ _ _ _ _ _ _ Nn); apply elem_of_app; right; constructor).
  pose proof (extended_wf _ _ _ _ _ Hx W1) as W2. destruct Hx as (st & E2 & Hg & Hvx). cbn [ct_db set_db] in *.
  assert (forall q b0, live (di_store (ct_db ct)) q -> backend_of (di_store (ct_db ct)) q = Some b0 ->
    exists b1, backend_of (di_store (ct_db ct2)) q = Some b1 /\ metadata b1 = metadata b0) as Hback.
  { intros q b0 Hlq Hb0. destruct (nn_live _ _ _ _ _ _ _ _ Nn q Hlq) as (Hl1 & _ & Hs1). rewrite E2.
    apply (shape_backend _ _ _ _ Hg Hl1). unfold backend_of in *. by rewrite Hs1. }
  destruct (iw_root_entry _ _ _ W) as [rid Hrid], (iw_head_entry _ _ _ W) as [hid Hhid].
  destruct (wf_entry _ _ _ W _ _ Hrid) as [Hlr _], (wf_entry _ _ _ W _ _ Hhid) as [Hlh _]. cbn [snd] in *.
  destruct (Hback r rb Hlr Hrb) as (rb2 & Hrb2 & [= _ Hrr _]). destruct (Hback h hb Hlh Hhb) as (hb2 & Hhb2 & [= _ Hhr _]).
  destruct (shape_backend _ _ _ _ Hg Hln Hnb) as (nb2 & Hnb2 & [= _ Hnr _]).
  destruct (finish_block_near ct2 b node receipt r h hb2 nb2 rb2 (b_id b) W2) as (root & ct3 & Hrun3 & Hs3);
    [by rewrite E2, <- Hcomp, <- (nn_comp _ _ _ _ _ _ _ _ Nn)|by rewrite E2|by rewrite E2|done|done| |lia| |].
  { rewrite Hnr, Hrev. apply u64_range. }
  { rewrite Hnr, Hrev, Hrr. done. }
  assert (ct3 = ct') as -> by congruence. pose proof Hs3 as [W3 _ He3 Hv3 _].
  rewrite Hhr, Hnr, Hrev in W3. split; [done|]. split; [by rewrite He3, E2; apply Nn|].
  split; [apply (settled_final _ _ _ _ _ _ Hs3); [rewrite E2; by apply Hg|by left]|].
  intros q x Hlq. destruct (nn_live _ _ _ _ _ _ _ _ Nn q Hlq) as (Hl1 & Hnr1 & _).
  rewrite Hv3, E2. cbn [di_store set_store]. rewrite Hvx by done. by apply Nn.
Qed.

(** ** Refused blocks *)

(** A block that was refused after its node was made (for its height, its
    merkle root, its timestamp or one of its transactions) leaves the node in
    the index: offered again, at any time, it is reported as applied. *)
Theorem refused_block_reported_applied ct b now now' r h p e ct' :
  index_wf (ct_db ct) r h -> connectable ct b p -> process_block b now ct = Ret (inr e) ct' ->
  process_block b now' ct' = Ret (inr (controller_error controller_errc.ok)) ct'.
Proof.
  intros W Hcn H. pose proof Hcn as (Hv & Hnew & Hprev & Hfin & Hid).
  destruct (wf_entry _ _ _ W _ _ (entry_find_Some _ _ _ Hprev)) as (_ & pb & Hpb & _). cbn [snd] in *.
  destruct (process_block_connect ct b now r h p pb W Hcn Hpb) as (node & i1 & Nn & Heq). rewrite Heq in H.
  pose proof (nn_wf _ _ _ _ _ _ _ _ Nn) as W1.
  assert ((b_id b, node) ∈ di_entries i1) as Hnode by (rewrite (nn_entries _ _ _ _ _ _ _ _ Nn); apply elem_of_app; right; constructor).
  pose proof (connect_block_cases (set_db i1 ct) b now p node r h W1 (new_node_live _ _ _ _ _ _ _ _ Nn) (nn_open _ _ _ _ _ _ _ _ Nn)) as Hx.
  rewrite H in Hx.
  pose proof (extended_wf _ _ _ _ _ Hx W1) as W2. destruct Hx as (st & E2 & _).
  assert (entry_find (b_id b) (di_entries (ct_db ct')) = Some node) as Hfind.
  { rewrite E2. by apply (entry_find_elem _ _ _ (iw_nodup _ _ _ W1)). }
  unfold Controller.process_block. rewrite Hv. cbn [negb].
  rewrite (bind_Ret _ _ _ _ _ (db_get_eq ct' r h (b_id b) W2)), (bind_Ret _ _ _ _ _ (db_get_eq ct' r h (b_previous b) W2)).
  by rewrite Hfind.
Qed.

(** ** Transactions outside blocks *)

(** The index, its head and its root are the same, the tree has only grown, and
    every node shows what it showed. *)
Definition untouched (ct ct' : controller) : Prop :=
  exists st, ct_db ct' = set_store st (ct_db ct) /\ grown (di_store (ct_db ct)) st /\
    forall q x, live (di_store (ct_db ct)) q -> view_of st q x = view_of (di_store (ct_db ct)) q x.

Lemma untouched_refl ct : store_wf (di_store (ct_db ct)) -> untouched ct ct.
Proof. intros Hwf. exists (di_store (ct_db ct)). rewrite set_store_same. split; [done|]. split; [by apply grown_refl|done]. Qed.

Lemma untouched_child ct ct' child st1 :
  grown (di_store (ct_db ct)) st1 -> (forall q, live (di_store (ct_db ct)) q -> ~ reach st1 q child) ->
  (forall q x, live (di_store (ct_db ct)) q -> view_of st1 q x = view_of (di_store (ct_db ct)) q x) ->
  extended child (set_db (set_store st1 (ct_db ct)) ct) ct' -> untouched ct ct'.
Proof.
  intros Hg Hnr Hv (st2 & E2 & Hg2 & Hv2). exists st2. split; [by rewrite E2|]. split; [by eapply grown_trans|].
  intros q x Hq. rewrite Hv2; [by apply Hv|by apply Hg|by apply Hnr].
Qed.

Lemma db_head_eq ct r h : index_wf (ct_db ct) r h -> on_db db_head ct = Ret (Some h) ct.
Proof.
  intros W. rewrite (on_db_Ret _ _ (Some h) (ct_db ct)); [by rewrite set_db_same|].
  unfold db_head, gets. by rewrite (iw_head _ _ _ W).
Qed.

Lemma process_transaction_wp ct t r h :
  index_wf (ct_db ct) r h ->
  wp (untouched ct) (process_transaction uninit1 uninit2 t) (fun _ ct' => untouched ct ct') ct.
Proof.
  intros W. pose proof (untouched_refl ct (iw_store _ _ _ W)) as Hr. unfold process_transaction.
  destruct (negb (transaction_validate t)); [done|]. destruct (negb _); [done|].
  apply wp_bind, (wp_run _ _ _ _ _ (db_head_eq ct r h W)). unfold unptr. apply wp_bind, wp_ret.
  destruct (iw_head_entry _ _ _ W) as [hid Hhid]. destruct (wf_entry _ _ _ W _ _ Hhid) as [Hlh _]. cbn [snd] in Hlh.
  destruct (sd_make_child_grown _ h null_id (iw_store _ _ _ W) Hlh) as (child & st1 & Hrun & Hg & Hlc & Hf & Hnr & Hv).
  apply wp_bind. eapply wp_run; [by apply on_db_Ret, on_store_Ret|].
  eapply wp_mono; [| |apply (in_context_extended _ _ child _ (fun _ _ => True)); [|apply Hg|exact Hlc|exact Hf]].
  { intros _ ct' [Hx _]. by eapply untouched_child. }
  { intros ct' Hx. by eapply untouched_child. }
  intros c Hob. set (m := set_resource_limits default_limits (cx_meter c)).
  assert (kept (Node false child) c (set_meter m c)) as Hk1 by (apply kept_store; [by apply open_block_meter|done]).
  apply wp_bind. apply (wp_run _ _ _ tt (set_meter m c)); [done|].
  eapply wp_after; [exact Hk1| |by apply apply_transaction_wp, open_block_meter]. cbv beta. intros r0 c' [Hk _].
  split; [by eapply kept_trans|done].
Qed.

(** Processing a transaction outside a block ends and changes nothing of the
    chain, also when an exception leaves it: the index, its head and root are
    the same, and so is what every node shows. *)
Theorem process_transaction_leaves_chain ct t r h :
  index_wf (ct_db ct) r h ->
  match process_transaction uninit1 uninit2 t ct with
  | Ret _ ct' | Throw _ ct' =>
      index_wf (ct_db ct') r h /\ di_entries (ct_db ct') = di_entries (ct_db ct) /\
      di_fork_heads (ct_db ct') = di_fork_heads (ct_db ct) /\
      forall q x, live (di_store (ct_db ct)) q -> view_of (di_store (ct_db ct')) q x = view_of (di_store (ct_db ct)) q x
  | Fault f => f <> out_of_fuel
  end.
Proof.
  intros W. pose proof (process_transaction_wp ct t r h W) as H. unfold wp_but in H.
  destruct (process_transaction _ _ t ct); [..|done]; destruct H as (st & -> & Hg & Hv);
    (split; [by apply index_wf_grown|done]).
Qed.
End chain.

(** ** A sample chain *)

Definition sample_genesis : list genesis_entry := [GenesisEntry space_metadata genesis_key alice_key].
Definition opened : controller :=
  state_of (ctl_open sample_genesis false (new_controller 1000)) (new_controller 1000).

(** A block of alice, and a transaction with its proper identifier. *)
Definition sealed (previous : digest) (height time : Z) (root : digest) (ts : list transaction) : block :=
  let b id sg := Block id previous height time root ts alice sg in
  let id := make_block_id (b [] []) in b id (alice_key ++ id).
Definition identified (t : transaction) : transaction :=
  let id := make_transaction_id t in
  Transaction id (tx_network_id t) (tx_resource_limit t) (tx_payer t) (tx_payee t) (tx_nonce t) (tx_operations t)
    (map (fun a => Authorization (auth_signer a) (account_public_key (auth_signer a) ++ id)) (tx_authorizations t)).

Definition noon : Z := 10 ^ 12.
Definition first_block : block := sealed zero_digest 1 1000 zero_digest [identified mint_transaction].
Definition after_first : controller := state_of (process_block [] [] first_block noon opened) opened.

(** The merkle root of the head, as the next block must name it. *)
Definition head_root (ct : controller) : digest :=
  default [] (result_of (pn_merkle_root (default 0%nat (di_head (ct_db ct))) (ct_db ct))).

(** [n] empty blocks, with timestamps that go down. *)
Fixpoint empty_blocks (n : nat) (previous : digest) (height : Z) (ct : controller) : outcome controller Z :=
  match n with
  | O => Ret (height - 1) ct
  | S n =>
      let b := sealed previous height (10000 - height) (head_root ct) [] in
      match process_block [] [] b noon ct with
      | Ret (inl _) ct' => empty_blocks n (b_id b) (height + 1) ct'
      | Ret (inr _) ct' => Ret (height - 1) ct'
      | Throw e ct' => Throw e ct'
      | Fault f => Fault f
      end
  end.

(** Sixty blocks can be applied; the next one takes the node down. *)
Example sixty_blocks_run :
  result_of (empty_blocks 60 zero_digest 1 opened) = Some 60 /\
  empty_blocks 61 zero_digest 1 opened = Fault null_dereference.
Proof. split; vm_compute; reflexivity. Qed.

(** The time of the parent is always zero: the second block is accepted with an
    earlier timestamp than the first. *)
Theorem timestamps_may_decrease :
  let b2 := sealed (b_id first_block) 2 1 (head_root after_first) [] in
  b_timestamp b2 < b_timestamp first_block /\
  exists rc ct, process_block [] [] b2 noon after_first = Ret (inl rc) ct.
Proof. split; [vm_compute; reflexivity|]. eexists _, _. vm_compute. reflexivity. Qed.

(** Any reader can stop the node: a program that writes an object runs on the
    final head, the exception leaves a [noexcept] function. *)
Theorem read_program_terminates :
  read_program (zero_bytes 33) (zero_bytes 33) (system_program (str_bytes "coin"))
    (ProgramInput [] (le_bytes 4 7 ++ alice ++ le_bytes 8 5)) after_first =
  Fault (terminate (runtime_error "cannot modify a final state delta")).
Proof. vm_compute. reflexivity. Qed.

Lemma opened_entries : di_entries (ct_db opened) = [(null_id, 0%nat)].
Proof. vm_compute. reflexivity. Qed.

Lemma opened_final : is_final (di_store (ct_db opened)) 0.
Proof. eexists. split; vm_compute; reflexivity. Qed.

Lemma opened_wf : index_wf (ct_db opened) 0 0.
Proof.
  assert (live (di_store (ct_db opened)) 0) as Hl by (eapply live_root; vm_compute; reflexivity).
  constructor; rewrite ?opened_entries; try (vm_compute; reflexivity).
  - apply store_check_wf. by vm_compute.
  - apply NoDup_singleton.
  - constructor; [|constructor]. split; [exact Hl|]. eexists. split; vm_compute; reflexivity.
  - exists null_id. constructor.
  - exists null_id. constructor.
  - exact opened_final.
  - intros id p b hb Hp _ Hb Hh. apply list_elem_of_singleton in Hp as [= -> ->]. assert (b = hb) as -> by congruence. lia.
Qed.

Definition opened_backend : backend :=
  default default_backend (backend_of (di_store (ct_db opened)) 0).
Definition first_receipt : block_receipt :=
  match result_of (process_block [] [] first_block noon opened) with
  | Some (inl rc) => rc
  | _ => BlockReceipt [] 0 [] 0 0 0 [] [] 0 0 0
  end.

Lemma first_block_run : process_block [] [] first_block noon opened = Ret (inl first_receipt) after_first.
Proof. vm_compute. reflexivity. Qed.

Lemma process_block_checks_witness :
  process_block [] [] first_block noon opened = Ret (inl first_receipt) after_first /\
  block_validate first_block = true /\ 0 < b_timestamp first_block <= u64 (milliseconds (noon + time_delta)).
Proof.
  split; [exact first_block_run|].
  destruct (process_block_checks [] [] opened first_block noon first_receipt after_first 0 0 opened_wf first_block_run)
    as (Hv & _ & Ht & _). split; [exact Hv|exact Ht].
Defined.

Lemma process_block_extends_witness :
  exists node, index_wf (ct_db after_first) 0 node /\ is_final (di_store (ct_db after_first)) node.
Proof.
  destruct (process_block_extends [] [] opened first_block noon first_receipt after_first 0 0 0
    opened_backend opened_backend opened_backend opened_wf) as (node & W & _ & Hf & _);
    [vm_compute; reflexivity..|vm_compute; discriminate|vm_compute; discriminate|exact first_block_run|].
  exists node. split; [exact W|exact Hf].
Defined.

(** A block from the future. *)
Definition late_block : block := sealed zero_digest 1 (10 ^ 9) zero_digest [].
Definition after_late : controller := state_of (process_block [] [] late_block noon opened) opened.

Lemma late_block_run : process_block [] [] late_block noon opened =
  Ret (inr (controller_error controller_errc.timestamp_out_of_bounds)) after_late.
Proof. vm_compute. reflexivity. Qed.

Lemma refused_block_reported_applied_witness :
  process_block [] [] late_block noon opened =
    Ret (inr (controller_error controller_errc.timestamp_out_of_bounds)) after_late /\
  process_block [] [] late_block (10 ^ 18) after_late = Ret (inr (controller_error controller_errc.ok)) after_late.
Proof.
  split; [exact late_block_run|].
  apply (refused_block_reported_applied [] [] opened late_block noon (10 ^ 18) 0 0 0
    (controller_error controller_errc.timestamp_out_of_bounds) after_late opened_wf); [|exact late_block_run].
  split; [vm_compute; reflexivity|]. split; [vm_compute; reflexivity|]. split; [vm_compute; reflexivity|].
  split; [exact opened_final|]. vm_compute. discriminate.
Defined.

Definition after_transaction : controller :=
  state_of (process_transaction [] [] (identified mint_transaction) opened) opened.
Definition transaction_answer : result transaction_receipt :=
  default (inr ok_code) (result_of (process_transaction [] [] (identified mint_transaction) opened)).

Lemma transaction_run :
  process_transaction [] [] (identified mint_transaction) opened = Ret transaction_answer after_transaction.
Proof. vm_compute. reflexivity. Qed.

Lemma process_transaction_leaves_chain_witness :
  process_transaction [] [] (identified mint_transaction) opened = Ret transaction_answer after_transaction /\
  index_wf (ct_db after_transaction) 0 0 /\ di_entries (ct_db after_transaction) = di_entries (ct_db opened).
Proof.
  pose proof (process_transaction_leaves_chain [] [] opened (identified mint_transaction) 0 0 opened_wf) as H.
  rewrite transaction_run in H. destruct H as (W & He & _). split; [exact transaction_run|]. split; [exact W|exact He].
Defined.
