(* ===== verification/History.v ===== *)
(** * The history of a controller

    The controller as a state machine: whatever blocks are offered, accepted,
    refused or interrupted by an exception, whatever transactions and readers
    come, the chain keeps its shape, final blocks never change, and only the
    key of the genesis signs; it can be extended up to height 60 and no
    further. *)

From stdpp Require Import base gmap list option numbers strings relations.
From S2P Require Import Prelude OrdMap Memory Errors Crypto Protocol Backend StateDelta StateNode.
From S2P Require Import DeltaIndex ResourceMeter SystemInterface Coin ModuleCache ProgramContext.
From S2P Require Import HostApi ExecutionContext Samples ExecutionSafety Transactions Controller Chain.

Section history.
Context `{B3 : Blake3} `{Sig : Signatures} `{Fz : Fizzy} (uninit1 uninit2 : bytes).
Abbreviation process_block := (process_block uninit1 uninit2).

(** ** The shape of the chain *)

(** The place of a node: it is the root, or one revision after a final node of
    the index. *)
Definition linked (i : delta_index) (r p : ptr) : Prop :=
  exists d b, st_deltas (di_store i) !! p = Some d /\ sd_backend d = Some b /\
    match sd_parent d with
    | None => p = r /\ bk_revision b = 0
    | Some q => p <> r /\ (exists id, (id, q) ∈ di_entries i) /\ is_final (di_store i) q /\
        exists qb, backend_of (di_store i) q = Some qb /\ bk_revision b = bk_revision qb + 1
    end.

Record chain_ok (key : bytes) (ct : controller) (r h : ptr) : Prop := {
  co_index : index_wf (ct_db ct) r h;
  co_comp : di_comp (ct_db ct) = fifo_comparator;
  co_root_id : (null_id, r) ∈ di_entries (ct_db ct);
  co_linked : forall id p, (id, p) ∈ di_entries (ct_db ct) -> linked (ct_db ct) r p;
  co_genesis : forall id p, (id, p) ∈ di_entries (ct_db ct) -> is_final (di_store (ct_db ct)) p ->
    view_of (di_store (ct_db ct)) p genesis_object = Some key
}.

(** No final node is above the threshold at which the root has to move. *)
Definition short (ct : controller) : Prop :=
  forall id p b, (id, p) ∈ di_entries (ct_db ct) -> is_final (di_store (ct_db ct)) p ->
    backend_of (di_store (ct_db ct)) p = Some b -> bk_revision b <= default_irreversible_threshold.

(** The index only gains entries; a final node keeps its parent, its metadata
    and every object it shows. *)
Record remembers (ct ct' : controller) : Prop := {
  rm_entries : exists l, di_entries (ct_db ct') = di_entries (ct_db ct) ++ l;
  rm_final : forall id p d, (id, p) ∈ di_entries (ct_db ct) ->
    st_deltas (di_store (ct_db ct)) !! p = Some d -> sd_final d = true ->
    exists d', st_deltas (di_store (ct_db ct')) !! p = Some d' /\ shape_of d' = shape_of d /\
      forall x, view_of (di_store (ct_db ct')) p x = view_of (di_store (ct_db ct)) p x
}.

#[export] Instance remembers_preorder : PreOrder remembers.
Proof.
  split.
  - intros ct. constructor; [exists []; by rewrite app_nil_r|]. intros id p d _ Hd _. by exists d.
  - intros a b c [[l1 E1] F1] [[l2 E2] F2]. constructor; [exists (l1 ++ l2); by rewrite E2, E1, app_assoc|].
    intros id p d Hp Hd Hf. destruct (F1 id p d Hp Hd Hf) as (d1 & Hd1 & Hs1 & Hv1).
    destruct (F2 id p d1) as (d2 & Hd2 & Hs2 & Hv2); [rewrite E1; apply elem_of_app; by left|done|by injection Hs1 as _ -> _|].
    exists d2. split; [done|]. split; [congruence|]. intros x. by rewrite Hv2.
Qed.

Section chain_facts.
Context (key : bytes) (ct : controller) (r h : ptr) (C : chain_ok key ct r h).

Lemma co_entry id p : (id, p) ∈ di_entries (ct_db ct) -> live (di_store (ct_db ct)) p.
Proof using C. intros He. apply (wf_entry _ _ _ (co_index _ _ _ _ C) _ _ He). Qed.

(** Everything above an indexed node is indexed and final. *)
Lemma linked_reach id p x :
  (id, p) ∈ di_entries (ct_db ct) -> reach (di_store (ct_db ct)) p x ->
  x = p \/ is_final (di_store (ct_db ct)) x /\ exists id', (id', x) ∈ di_entries (ct_db ct).
Proof using C.
  intros He Hre. revert id He. induction Hre as [|p d q x Hp Hq _ IH]; intros id He; [by left|]. right.
  destruct (co_linked _ _ _ _ C _ _ He) as (d0 & b & Hd0 & _ & Hlk). assert (d0 = d) as -> by congruence.
  rewrite Hq in Hlk. destruct Hlk as (_ & [qid Hqe] & Hqf & _). destruct (IH qid Hqe) as [->|H]; [by eauto|done].
Qed.

Lemma linked_chain id p :
  (id, p) ∈ di_entries (ct_db ct) ->
  chain_revisions (di_store (ct_db ct)) p /\ root_of (di_store (ct_db ct)) p r /\
  exists b, backend_of (di_store (ct_db ct)) p = Some b /\ 0 <= bk_revision b.
Proof using C.
  revert id. induction (lt_wf p) as [p _ IH]. intros id He.
  destruct (co_linked _ _ _ _ C _ _ He) as (d & b & Hd & Hb & Hlk).
  assert (backend_of (di_store (ct_db ct)) p = Some b) as Hpb by (unfold backend_of; by rewrite Hd).
  destruct (sd_parent d) as [q|] eqn:Hq.
  - destruct Hlk as (_ & [qid Hqe] & _ & qb & Hqb & Hrev).
    destruct (iw_store _ _ _ (co_index _ _ _ _ C) p d Hd) as (_ & _ & _ & Hlt).
    destruct (IH q (Hlt q Hq) qid Hqe) as (Hc & Hro & qb' & Hqb' & H0). assert (qb' = qb) as -> by congruence.
    split; [by eapply chain_child|]. split; [by eapply root_above|]. exists b. split; [done|lia].
  - destruct Hlk as [-> H0]. split; [by eapply chain_root|]. split; [by eapply root_here|]. exists b. split; [done|lia].
Qed.

Lemma co_root_revision : exists rb, backend_of (di_store (ct_db ct)) r = Some rb /\ bk_revision rb = 0.
Proof using C.
  destruct (iw_root_entry _ _ _ (co_index _ _ _ _ C)) as [rid Hr].
  destruct (co_linked _ _ _ _ C _ _ Hr) as (d & b & Hd & Hb & Hlk). exists b. split; [unfold backend_of; by rewrite Hd|].
  destruct (sd_parent d); [by destruct Hlk|apply Hlk].
Qed.
End chain_facts.

(** ** Calls that leave the index alone *)

Lemma grown_linked i r p st :
  (forall id q, (id, q) ∈ di_entries i -> live (di_store i) q) -> live (di_store i) p ->
  grown (di_store i) st -> linked i r p -> linked (set_store st i) r p.
Proof.
  intros Hlv Hl Hg (d & b & Hd & Hb & Hlk). destruct (grown_lookup _ _ _ _ Hg Hl Hd) as (d' & Hd' & Hs).
  unfold shape_of in Hs. rewrite Hb in Hs. destruct (sd_backend d') as [b'|] eqn:Hb'; [|by injection Hs].
  injection Hs as Hp _ _ Hr _. exists d', b'. split; [done|]. split; [done|]. rewrite Hp.
  destruct (sd_parent d) as [q|]; [|by rewrite Hr]. destruct Hlk as (Hne & [qid Hqe] & Hqf & qb & Hqb & Hrev).
  split; [done|]. split; [by exists qid|]. split; [by apply (shape_final _ _ _ Hg (Hlv _ _ Hqe))|].
  destruct (shape_backend _ _ _ _ Hg (Hlv _ _ Hqe) Hqb) as (qb' & Hqb' & [= _ Hqr _]). exists qb'. split; [done|congruence].
Qed.

Lemma grown_chain key ct ct' st r h :
  chain_ok key ct r h -> ct_db ct' = set_store st (ct_db ct) -> grown (di_store (ct_db ct)) st ->
  (forall id q x, (id, q) ∈ di_entries (ct_db ct) -> is_final (di_store (ct_db ct)) q ->
     view_of st q x = view_of (di_store (ct_db ct)) q x) ->
  chain_ok key ct' r h /\ remembers ct ct' /\ (short ct -> short ct').
Proof.
  intros C E Hg Hv. pose proof (co_entry _ _ _ _ C) as Hlv. split; [|split].
  - constructor; rewrite E; cbn [di_store di_entries set_store].
    + apply index_wf_grown; [apply C|done].
    + apply C.
    + apply C.
    + intros id p He. apply grown_linked; [done|by eapply Hlv|done|by eapply C].
    + intros id p He Hf. apply (shape_final _ _ _ Hg (Hlv _ _ He)) in Hf. rewrite (Hv id) by done. by eapply C.
  - constructor; rewrite E; [exists []; by rewrite app_nil_r|]. intros id p d He Hd Hf.
    destruct (grown_lookup _ _ _ _ Hg (Hlv _ _ He) Hd) as (d' & Hd' & Hs). exists d'. split; [done|]. split; [done|].
    intros x. apply (Hv id); [done|by exists d].
  - intros Hsh id p b. rewrite E. cbn [di_store di_entries set_store]. intros He Hf Hb.
    apply (shape_final _ _ _ Hg (Hlv _ _ He)) in Hf. destruct (live_backend _ _ (Hlv _ _ He)) as [b0 Hb0].
    destruct (shape_backend _ _ _ _ Hg (Hlv _ _ He) Hb0) as (b' & Hb' & [= _ Hr _]).
    assert (b' = b) as -> by congruence. rewrite Hr. by eapply Hsh.
Qed.

Lemma untouched_chain key ct ct' r h :
  chain_ok key ct r h -> untouched ct ct' -> chain_ok key ct' r h /\ remembers ct ct' /\ (short ct -> short ct').
Proof.
  intros C (st & E & Hg & Hv). apply (grown_chain key ct ct' st); [done..|].
  intros id q x He _. apply Hv. by eapply co_entry.
Qed.

(** Work in an open node is not seen by final ones. *)
Lemma extended_chain key ct ct' r h node :
  chain_ok key ct r h -> ~ is_final (di_store (ct_db ct)) node -> extended node ct ct' ->
  chain_ok key ct' r h /\ remembers ct ct' /\ (short ct -> short ct').
Proof.
  intros C Hn (st & E & Hg & Hv). apply (grown_chain key ct ct' st); [done..|].
  intros id q x He Hf. apply Hv; [by eapply co_entry|]. intros Hre.
  destruct (linked_reach _ _ _ _ C _ _ _ He Hre) as [->|[Hf' _]]; done.
Qed.

(** ** Blocks *)

(** The node of a block: it joins the index, open. *)
Lemma new_node_chain key ct r h b p pb node i1 :
  chain_ok key ct r h -> short ct -> connectable ct b p -> backend_of (di_store (ct_db ct)) p = Some pb ->
  new_node (ct_db ct) r h p pb b node i1 ->
  chain_ok key (set_db i1 ct) r h /\ remembers ct (set_db i1 ct) /\ short (set_db i1 ct) /\
  exists nb, backend_of (di_store i1) node = Some nb /\ bk_revision nb = bk_revision pb + 1.
Proof.
  intros C Hsh (_ & _ & Hprev & Hpf & _) Hpb Nn. pose proof (entry_find_Some _ _ _ Hprev) as Hpe.
  pose proof (nn_wf _ _ _ _ _ _ _ _ Nn) as W1. pose proof (nn_entries _ _ _ _ _ _ _ _ Nn) as He1.
  assert (forall id q, (id, q) ∈ di_entries (ct_db ct) -> st_deltas (di_store i1) !! q = st_deltas (di_store (ct_db ct)) !! q)
    as Hold by (intros id q Hq; apply (nn_live _ _ _ _ _ _ _ _ Nn); by eapply co_entry).
  assert (forall id q, (id, q) ∈ di_entries (ct_db ct) -> is_final (di_store i1) q <-> is_final (di_store (ct_db ct)) q)
    as Hfin by (intros id q Hq; unfold is_final; by rewrite (Hold id q Hq)).
  assert (forall id q, (id, q) ∈ di_entries i1 -> is_final (di_store i1) q -> (id, q) ∈ di_entries (ct_db ct)) as Hback.
  { intros id q Hq Hf. rewrite He1 in Hq. apply elem_of_app in Hq as [Hq|[= -> ->]%list_elem_of_singleton]; [done|].
    by destruct (nn_open _ _ _ _ _ _ _ _ Nn). }
  destruct (nn_revision _ _ _ _ _ _ _ _ Nn) as (nb & Hnb & Hrev).
  destruct (linked_chain _ _ _ _ C _ _ Hpe) as (_ & _ & pb' & Hpb' & Hp0). assert (pb' = pb) as -> by congruence.
  pose proof (Hsh _ _ _ Hpe Hpf Hpb) as Hp60. unfold default_irreversible_threshold in Hp60.
  rewrite u64_small in Hrev by (unfold u64_ok; lia).
  split; [constructor; cbn [ct_db set_db]|split; [constructor|split; [|by exists nb]]].
  - done.
  - rewrite (nn_comp _ _ _ _ _ _ _ _ Nn). apply C.
  - rewrite He1. apply elem_of_app. left. apply C.
  - intros id q Hq. rewrite He1 in Hq. apply elem_of_app in Hq as [Hq|[= -> ->]%list_elem_of_singleton].
    + destruct (co_linked _ _ _ _ C _ _ Hq) as (d & bq & Hd & Hbq & Hlk). exists d, bq. rewrite (Hold _ _ Hq).
      split; [done|]. split; [done|]. destruct (sd_parent d) as [x|]; [|done].
      destruct Hlk as (Hne & [xid Hx] & Hxf & xb & Hxb & Hxr). split; [done|].
      split; [exists xid; rewrite He1; apply elem_of_app; by left|]. split; [by apply (Hfin xid)|].
      exists xb. unfold backend_of in *. by rewrite (Hold _ _ Hx).
    + destruct (nn_parent _ _ _ _ _ _ _ _ Nn) as (d & Hd & Hpar). apply backend_of_eq in Hnb as (d' & Hd' & Hb).
      assert (d' = d) as -> by congruence. exists d, nb. split; [done|]. split; [done|]. rewrite Hpar. split.
      { intros ->. destruct (iw_root_entry _ _ _ (co_index _ _ _ _ C)) as [rid Hr].
        destruct (nn_live _ _ _ _ _ _ _ _ Nn r) as (_ & Hnr & _); [by eapply co_entry|]. by apply Hnr, reach_refl. }
      split; [exists (b_previous b); rewrite He1; apply elem_of_app; by left|]. split; [by apply (Hfin (b_previous b))|].
      exists pb. unfold backend_of in *. by rewrite (Hold _ _ Hpe).
  - intros id q Hq Hf. pose proof (Hback _ _ Hq Hf) as Hq0. rewrite (nn_others _ _ _ _ _ _ _ _ Nn) by (by eapply co_entry).
    eapply C; [done|by apply (Hfin id)].
  - by exists [(b_id b, node)].
  - intros id q d Hq Hd _. exists d. rewrite <- Hd. split; [by eapply Hold|]. split; [done|].
    intros x. apply Nn. by eapply co_entry.
  - intros id q bq Hq Hf Hbq. pose proof (Hback _ _ Hq Hf) as Hq0. apply (Hsh id q bq Hq0); [by apply (Hfin id)|].
    unfold backend_of in *. by rewrite <- (Hold _ _ Hq0).
Qed.

(** The node becomes final. *)
Lemma settled_chain key ct ct' r h h' id node :
  chain_ok key ct r h -> (id, node) ∈ di_entries (ct_db ct) ->
  view_of (di_store (ct_db ct)) node genesis_object = Some key -> settled r h' node ct ct' ->
  chain_ok key ct' r h' /\ remembers ct ct'.
Proof.
  intros C Hn Hk Hs. pose proof (co_entry _ _ _ _ C) as Hlv.
  assert (forall i q, (i, q) ∈ di_entries (ct_db ct) ->
    is_final (di_store (ct_db ct')) q <-> q = node \/ is_final (di_store (ct_db ct)) q) as Hfin
    by (intros i q Hq; eapply settled_final; [done|by eapply Hlv]).
  split.
  - constructor; rewrite ?(sl_entries _ _ _ _ _ Hs).
    + apply Hs.
    + rewrite (sl_comp _ _ _ _ _ Hs). apply C.
    + apply C.
    + intros i q Hq. destruct (co_linked _ _ _ _ C _ _ Hq) as (d & b & Hd & Hb & Hlk).
      destruct (sl_delta _ _ _ _ _ Hs q d Hd) as (d' & Hd' & Hp' & Hb' & _). exists d', b.
      split; [done|]. split; [congruence|]. rewrite Hp'. destruct (sd_parent d) as [x|]; [|done].
      destruct Hlk as (Hne & [xid Hx] & Hxf & xb & Hxb & Hxr). split; [done|].
      split; [exists xid; by rewrite (sl_entries _ _ _ _ _ Hs)|]. split; [apply (Hfin xid); auto|].
      exists xb. split; [by eapply settled_backend|done].
    + intros i q Hq Hf. rewrite (sl_view _ _ _ _ _ Hs). apply (Hfin i) in Hf as [->|Hf]; [done| |done]. by eapply C.
  - constructor; [exists []; by rewrite (sl_entries _ _ _ _ _ Hs), app_nil_r|]. intros i q d Hq Hd Hf.
    destruct (sl_delta _ _ _ _ _ Hs q d Hd) as (d' & Hd' & Hp' & Hb' & Hf'). exists d'. split; [done|]. split.
    + unfold shape_of. by rewrite Hp', Hb', Hf', Hf, orb_true_r.
    + intros x. apply Hs.
Qed.

Lemma settled_short ct ct' r h node nb :
  (forall id q, (id, q) ∈ di_entries (ct_db ct) -> live (di_store (ct_db ct)) q) -> short ct -> settled r h node ct ct' ->
  backend_of (di_store (ct_db ct)) node = Some nb -> bk_revision nb <= default_irreversible_threshold -> short ct'.
Proof.
  intros Hlv Hsh Hs Hnb Hle id q b Hq Hf Hb. rewrite (sl_entries _ _ _ _ _ Hs) in Hq.
  destruct (live_backend _ _ (Hlv _ _ Hq)) as [b0 Hb0].
  assert (b0 = b) as -> by (pose proof (settled_backend _ _ _ _ _ _ _ Hs Hb0); congruence).
  apply (settled_final _ _ _ _ _ _ Hs (Hlv _ _ Hq)) in Hf as [->|Hf]; [congruence|by eapply Hsh].
Qed.

(** Above the threshold an older block has to be committed, and that stops the
    program. *)
Lemma finish_block_far key ct b node receipt r h nb :
  chain_ok key ct r h -> (b_id b, node) ∈ di_entries (ct_db ct) ->
  view_of (di_store (ct_db ct)) node genesis_object = Some key ->
  backend_of (di_store (ct_db ct)) node = Some nb -> default_irreversible_threshold < bk_revision nb < 2 ^ 64 ->
  finish_block b node receipt ct = Fault null_dereference.
Proof.
  intros C He Hk Hnb Hfar. pose proof (co_index _ _ _ _ C) as W.
  destruct (wf_head_backend _ _ _ W) as [hb Hhb]. destruct (co_root_revision _ _ _ _ C) as (rb & Hrb & Hr0).
  destruct (finish_block_settled ct b node receipt r h hb nb rb (b_id b) W (co_comp _ _ _ _ C) He Hnb Hhb Hrb)
    as (root & ct2 & Hs & ->).
  set (h' := if _ <? _ then node else h) in Hs. destruct (settled_chain key ct ct2 r h h' (b_id b) node C He Hk Hs) as [C2 _].
  unfold default_irreversible_threshold in *. unfold irreversible_revision, default_irreversible_threshold.
  rewrite (proj2 (Z.ltb_lt 60 _)), u64_small by (unfold u64_ok; lia).
  set (rev := bk_revision nb - 60). rewrite (proj2 (Z.ltb_lt _ rev)) by lia.
  pose proof (co_index _ _ _ _ C2) as W2. rewrite <- (sl_entries _ _ _ _ _ Hs) in He.
  destruct (di_at_revision_ok (ct_db ct2) r h' rev (b_id b) node nb rb W2) as (q & qb & Hat & Hre & Hqb & Hrev).
  { intros i x Hx. destruct (linked_chain _ _ _ _ C2 _ _ Hx) as (H1 & H2 & _). done. }
  { by rewrite (entry_find_elem _ _ _ (iw_nodup _ _ _ W2) He). }
  { by eapply settled_backend. } { by eapply settled_backend. } { lia. }
  rewrite bind_assoc, (bind_Ret _ _ ct2 (Some q) ct2); [|rewrite (on_db_Ret (db_at_revision rev (b_id b)) _ _ _ Hat); by rewrite set_db_same].
  unfold unptr. rewrite bind_assoc, bind_ret. unfold bind, on_db, zoom.
  destruct (linked_reach _ _ _ _ C2 _ _ _ He Hre) as [->|[(d & Hd & Hf) [qid Hq]]].
  { pose proof (settled_backend _ _ _ _ _ _ _ Hs Hnb). assert (qb = nb) as -> by congruence. lia. }
  destruct (co_linked _ _ _ _ C2 _ _ Hq) as (d' & b' & Hd' & Hb' & Hlk). assert (d' = d) as -> by congruence.
  assert (b' = qb) as -> by (unfold backend_of in Hqb; rewrite Hd in Hqb; cbn in Hqb; congruence).
  destruct (sd_parent d) as [x|] eqn:Hx; [|lia].
  rewrite (pn_commit_crashes (ct_db ct2) r h' qid q d x W2 Hq Hd Hx Hf); [done|].
  by destruct (linked_chain _ _ _ _ C2 _ _ Hq) as (_ & ? & _).
Qed.

(** A block that passed its checks: it becomes final, or the program stops. *)
Lemma passed_chain key ct b now p pb node i1 receipt ct2 r h :
  chain_ok key ct r h -> short ct -> connectable ct b p -> backend_of (di_store (ct_db ct)) p = Some pb ->
  new_node (ct_db ct) r h p pb b node i1 -> passed b now p node (set_db i1 ct) ct2 ->
  account_public_key (b_signer b) = key /\
  (finish_block b node receipt ct2 = Fault null_dereference \/
   exists root ct' h', finish_block b node receipt ct2 = Ret (inl (receipt_with_root receipt root)) ct' /\
     chain_ok key ct' r h' /\ short ct' /\ remembers ct ct').
Proof.
  intros C Hsh Hcn Hpb Nn [_ Hx Hmd Hsg].
  destruct (new_node_chain key ct r h b p pb node i1 C Hsh Hcn Hpb Nn) as (C1 & R1 & Sh1 & nb & Hnb & Hrev).
  destruct (extended_chain key _ _ r h node C1 (nn_open _ _ _ _ _ _ _ _ Nn) Hx) as (C2 & R2 & Sh2). specialize (Sh2 Sh1).
  pose proof Hcn as (_ & _ & Hprev & Hpf & _). pose proof (entry_find_Some _ _ _ Hprev) as Hpe.
  assert (view_of (di_store i1) node genesis_object = Some key) as Hk1
    by (rewrite (nn_view _ _ _ _ _ _ _ _ Nn); by eapply C).
  cbn [ct_db set_db] in Hsg. split; [congruence|].
  assert (view_of (di_store (ct_db ct2)) node genesis_object = Some key) as Hk2
    by (rewrite (Hmd _ genesis_object_metadata); exact Hk1).
  destruct Hx as (st & E2 & Hg & _). cbn [ct_db set_db] in *.
  assert ((b_id b, node) ∈ di_entries (ct_db ct2)) as He2.
  { rewrite E2. cbn [di_entries set_store]. rewrite (nn_entries _ _ _ _ _ _ _ _ Nn). apply elem_of_app. right. constructor. }
  destruct (shape_backend _ _ _ _ Hg (new_node_live _ _ _ _ _ _ _ _ Nn) Hnb) as (nb2 & Hnb2 & [= _ Hr2 _]).
  assert (backend_of (di_store (ct_db ct2)) node = Some nb2) as Hnb2' by (by rewrite E2).
  destruct (linked_chain _ _ _ _ C _ _ Hpe) as (_ & _ & pb' & Hpb' & Hp0). assert (pb' = pb) as -> by congruence.
  pose proof (Hsh _ _ _ Hpe Hpf Hpb) as Hp60. unfold default_irreversible_threshold in Hp60.
  destruct (decide (bk_revision nb2 <= default_irreversible_threshold)) as [Hle|Hgt].
  - right. destruct (wf_head_backend _ _ _ (co_index _ _ _ _ C2)) as [hb Hhb].
    destruct (co_root_revision _ _ _ _ C2) as (rb & Hrb & Hr0).
    destruct (finish_block_near ct2 b node receipt r h hb nb2 rb (b_id b) (co_index _ _ _ _ C2) (co_comp _ _ _ _ C2) He2 Hnb2' Hhb Hrb)
      as (root & ct' & Hrun & Hs); [lia..|].
    set (h' := if _ <? _ then node else h) in Hs. exists root, ct', h'. split; [done|].
    destruct (settled_chain key ct2 ct' r h h' (b_id b) node C2 He2 Hk2 Hs) as [C3 R3]. split; [done|].
    split; [eapply settled_short; [by apply (co_entry _ _ _ _ C2)|done..]|]. etrans; [exact R1|]. by etrans.
  - left. apply (finish_block_far key ct2 b node receipt r h nb2); [done..|]. unfold default_irreversible_threshold in *. lia.
Qed.

(** What processing a block does to the chain, however it ends. *)
Lemma process_block_chain key ct b now r h :
  chain_ok key ct r h -> short ct ->
  match process_block b now ct with
  | Ret res ct' => (exists h', chain_ok key ct' r h' /\ short ct' /\ remembers ct ct') /\
      forall rc, res = inl rc -> account_public_key (b_signer b) = key
  | Throw _ ct' => exists h', chain_ok key ct' r h' /\ short ct' /\ remembers ct ct'
  | Fault _ => True
  end.
Proof.
  intros C Hsh. destruct (process_block_cases uninit1 uninit2 ct b now r h (co_index _ _ _ _ C))
    as [(e & ->)|[(e & st & -> & Hg & Hv)|(p & pb & node & i1 & Hcn & Hpb & Nn & ->)]].
  - split; [|done]. by exists h.
  - exists h. destruct (untouched_chain key ct (set_db (set_store st (ct_db ct)) ct) r h C) as (H1 & H2 & H3); [by exists st|auto].
  - destruct (new_node_chain key ct r h b p pb node i1 C Hsh Hcn Hpb Nn) as (C1 & R1 & Sh1 & _).
    pose proof (connect_block_cases uninit1 uninit2 (set_db i1 ct) b now p node r h (nn_wf _ _ _ _ _ _ _ _ Nn)
      (new_node_live _ _ _ _ _ _ _ _ Nn) (nn_open _ _ _ _ _ _ _ _ Nn)) as Hc.
    assert (forall ct', extended node (set_db i1 ct) ct' -> exists h', chain_ok key ct' r h' /\ short ct' /\ remembers ct ct') as Hext.
    { intros ct' Hx. destruct (extended_chain key _ _ r h node C1 (nn_open _ _ _ _ _ _ _ _ Nn) Hx) as (C2 & R2 & Sh2).
      exists h. split; [done|]. split; [auto|by etrans]. }
    destruct (connect_block _ _ b now p node _) as [[rc|e] ct'|e ct'|]; [|split; [by apply Hext|done]| |done].
    + destruct Hc as (receipt & ct2 & Hp & Hf).
      destruct (passed_chain key ct b now p pb node i1 receipt ct2 r h C Hsh Hcn Hpb Nn Hp) as [Hs [Hx|(root & ct3 & h' & Hx & H)]];
        [congruence|]. rewrite Hf in Hx. injection Hx as -> ->. eauto.
    + destruct Hc as [Hx|(receipt & ct2 & Hp & Hf)]; [by apply Hext|].
      destruct (passed_chain key ct b now p pb node i1 receipt ct2 r h C Hsh Hcn Hpb Nn Hp) as [Hs [Hx|(root & ct3 & h' & Hx & H)]];
        congruence.
Qed.

(** ** Readers *)

(** What runs on a final node changes no delta. *)
Lemma writes_final prot p st st' :
  writes prot p st st' -> store_wf st -> live st p -> is_final st p -> cached st st'.
Proof.
  intros Hw Hwf Hl (d & Hd & Hf). destruct (Hw Hwf Hl) as (_ & [Hn _] & _ & Ho & Hfd & _). split; [done|].
  intros x. destruct (decide (x = p)) as [->|Hne]; [by rewrite (Hfd d Hd Hf), Hd|by rewrite Ho].
Qed.

Lemma reads_untouched ct ct' : store_wf (di_store (ct_db ct)) -> reads ct ct' -> untouched ct ct'.
Proof.
  intros Hwf (st & Hc & E). exists st. split; [done|]. split; [by apply cached_grown|]. intros q x _. by apply cached_view.
Qed.

Definition head_context (ct : controller) (h : ptr) : context :=
  set_node (Some (Node true h)) (new_context (di_store (ct_db ct)) (ct_cache ct) read_only).

Lemma at_head_wp {A} (m : M context A) ct r h :
  index_wf (ct_db ct) r h ->
  wp (fun c' => cached (di_store (ct_db ct)) (cx_store c')) m (fun _ c' => cached (di_store (ct_db ct)) (cx_store c')) (head_context ct h) ->
  wp (untouched ct) (at_head m) (fun _ ct' => untouched ct ct') ct.
Proof.
  intros W Hm. unfold at_head. apply wp_bind, (wp_run _ _ _ _ _ (db_head_eq ct r h W)).
  unfold in_context, zoom, wp_but in *. cbn [fmap option_fmap option_map]. fold (head_context ct h).
  destruct (m _) as [a c'|e c'|]; [| |done]; apply reads_untouched; [apply W|by eexists|apply W|by eexists].
Qed.

Lemma guarded_head_wp {A} (m : M context A) ct r h meter :
  index_wf (ct_db ct) r h -> guarded ready (inside protected) m ->
  wp (fun c' => cached (di_store (ct_db ct)) (cx_store c')) m (fun _ c' => cached (di_store (ct_db ct)) (cx_store c'))
    (set_meter meter (head_context ct h)).
Proof.
  intros W Hm. destruct (iw_head_entry _ _ _ W) as [hid Hh]. destruct (wf_entry _ _ _ W _ _ Hh) as [Hl _]. cbn [snd] in Hl.
  set (c := set_meter meter (head_context ct h)).
  assert (ready c) as Hr by (constructor; [apply W|by eexists|cbn; unfold default_stack_limit; lia]).
  assert (forall c', inside protected c c' -> cached (di_store (ct_db ct)) (cx_store c')) as Hc.
  { intros c' Hi. eapply writes_final; [apply (in_store _ _ _ Hi _ eq_refl)|apply W|exact Hl|apply W]. }
  eapply wp_guarded; [exact Hm|exact Hr|exact Hc|by auto].
Qed.

Lemma account_nonce_guarded a : guarded ready (inside protected) (account_nonce a).
Proof.
  intros c Hc. destruct (rd_node _ Hc) as (n & Hn & Hl). unfold account_nonce, the_node.
  rewrite bind_assoc, bind_gets, Hn, bind_ret. unfold bind, on_cstore, zoom, sn_get.
  rewrite (sd_get_ok _ _ _ (rd_store _ Hc) Hl). replace (set_cstore (cx_store c) c) with c by (by destruct c).
  assert (inside protected c c) as Hr by reflexivity.
  destruct (view_of _ _ _) as [b|]; [|exact Hr]. unfold bit_cast. by destruct (_ <? _).
Qed.

Lemma read_program_wp a input ct r h :
  index_wf (ct_db ct) r h ->
  wp (untouched ct) (read_program uninit1 uninit2 a input) (fun _ ct' => untouched ct ct') ct.
Proof.
  intros W. unfold read_program. apply wp_gets. eapply at_head_wp; [exact W|]. apply wp_bind.
  eapply wp_run; [done|]. eapply guarded_head_wp; [exact W|].
  pose proof (run_inside uninit1 uninit2 protected protected_system relaxed a (stdin input) (arguments input)). guarded_auto.
Qed.

(** [execution_context::head] on a final node. *)
Lemma ctx_head_run c p d b :
  cx_node c = Some (Node true p) -> live (cx_store c) p -> st_deltas (cx_store c) !! p = Some d ->
  sd_backend d = Some b -> sd_final d = true ->
  exists prev root st', ctx_head c = Ret (HeadInfo (bk_id b) (bk_revision b) prev 0 root 0) (set_cstore st' c) /\
    sd_get_merkle_root p (cx_store c) = Ret root st' /\ cached (cx_store c) st'.
Proof.
  intros Hn Hl Hd Hb Hf. destruct (merkle_root_final (cx_store c) p d b Hd Hf Hb) as (root & st' & Hm & Hc).
  assert (backend_of (cx_store c) p = Some b) as Hpb by (unfold backend_of; by rewrite Hd).
  assert (exists prev, sd_parent_id p (cx_store c) = Ret prev (cx_store c)) as [prev Hprev].
  { unfold sd_parent_id. rewrite (bind_Ret _ _ _ _ _ (deref_eq _ _ _ Hd)). destruct (sd_parent d) as [q|] eqn:Hq; [|by eexists].
    destruct (live_backend _ _ (live_parent _ _ _ _ Hl Hd Hq)) as [qb Hqb]. exists (bk_id qb). by apply read_id. }
  assert (forall A (m : M store A) a, m (cx_store c) = Ret a (cx_store c) -> on_cstore m c = Ret a c) as Hread.
  { intros A m a Hr. unfold on_cstore, zoom. rewrite Hr. by destruct c. }
  exists prev, root, st'. split; [|done]. unfold ctx_head, the_node. rewrite bind_assoc, bind_gets, Hn, bind_ret.
  cbn [node_permanent node_ptr].
  rewrite (bind_Ret _ _ _ _ _ (Hread _ (sn_id p) _ (read_id _ _ _ Hpb))).
  rewrite (bind_Ret _ _ _ _ _ (Hread _ (sn_revision p) _ (read_revision _ _ _ Hpb))).
  rewrite (bind_Ret _ _ _ _ _ (Hread _ (sn_parent_id p) _ Hprev)).
  rewrite (bind_Ret _ _ c root (set_cstore st' c)); [done|]. unfold on_cstore, zoom. by rewrite Hm.
Qed.

Lemma ctl_head_wp ct r h :
  index_wf (ct_db ct) r h -> wp (untouched ct) ctl_head (fun _ ct' => untouched ct ct') ct.
Proof.
  intros W. eapply at_head_wp; [exact W|]. destruct (iw_head_entry _ _ _ W) as [hid Hh].
  destruct (wf_entry _ _ _ W _ _ Hh) as [Hl _]. destruct (live_lookup _ _ Hl) as (d & b & Hd & Hb). cbn [snd] in *.
  destruct (iw_head_final _ _ _ W) as (d' & Hd' & Hf). assert (d' = d) as -> by congruence.
  destruct (ctx_head_run (head_context ct h) h d b) as (prev & root & st & Hrun & _ & Hc); [done..|].
  by apply (wp_run _ _ _ _ _ Hrun).
Qed.

(** ** The controller as a state machine *)

(** The calls of the controller's interface, after it was opened. *)
Inductive call :=
| call_process_block (b : block) (now : Z)
| call_process_transaction (t : transaction)
| call_read_program (a : account) (input : program_input)
| call_head
| call_resource_limits
| call_account_resources (a : account)
| call_account_nonce (a : account).

Definition perform (c : call) : M controller unit :=
  match c with
  | call_process_block b now => process_block b now ;;; ret tt
  | call_process_transaction t => process_transaction uninit1 uninit2 t ;;; ret tt
  | call_read_program a input => read_program uninit1 uninit2 a input ;;; ret tt
  | call_head => ctl_head ;;; ret tt
  | call_resource_limits => ctl_resource_limits ;;; ret tt
  | call_account_resources a => ctl_account_resources a ;;; ret tt
  | call_account_nonce a => ctl_account_nonce a ;;; ret tt
  end.

(** A call returns, with or without an error code, or an exception leaves it. A
    fault ends the history. *)
Inductive step (ct ct' : controller) : Prop :=
| step_returns c : perform c ct = Ret tt ct' -> step ct ct'
| step_throws c e : perform c ct = Throw e ct' -> step ct ct'.

(** A call other than a block leaves the chain alone. *)
Definition offers_block (c : call) : bool := match c with call_process_block _ _ => true | _ => false end.

Lemma perform_untouched c ct r h :
  index_wf (ct_db ct) r h -> offers_block c = false ->
  wp (untouched ct) (perform c) (fun _ ct' => untouched ct ct') ct.
Proof.
  intros W Hc. assert (untouched ct ct) as Hr by (apply untouched_refl, W).
  destruct c as [b now|t|a input| | |a|a]; cbn [perform]; [done|apply wp_bind; unfold wp_but at 2..].
  - by eapply process_transaction_wp.
  - by eapply read_program_wp.
  - by eapply ctl_head_wp.
  - eapply at_head_wp; [exact W|]. by apply wp_ret.
  - eapply at_head_wp; [exact W|]. by apply wp_ret.
  - eapply at_head_wp; [exact W|]. refine (guarded_head_wp _ _ _ _ (cx_meter (head_context ct h)) W _). apply account_nonce_guarded.
Qed.

Lemma step_chain key ct ct' r h :
  chain_ok key ct r h -> short ct -> step ct ct' -> exists h', chain_ok key ct' r h' /\ short ct' /\ remembers ct ct'.
Proof.
  intros C Hsh Hst.
  assert (exists c, match perform c ct with Ret _ ct1 | Throw _ ct1 => ct1 = ct' | Fault _ => False end) as [c Hc]
    by (destruct Hst as [c H|c e H]; exists c; by rewrite H).
  destruct (offers_block c) eqn:Ho.
  - destruct c as [b now| | | | | |]; try done. pose proof (process_block_chain key ct b now r h C Hsh) as H. unfold perform, bind in Hc.
    destruct (process_block b now ct); [|by subst|done]. cbn in Hc. subst. apply H.
  - exists h. assert (untouched ct ct') as Hu.
    { pose proof (perform_untouched c ct r h (co_index _ _ _ _ C)) as H. unfold wp_but in H.
      destruct (perform c ct); [..|done]; subst; by apply H. }
    destruct (untouched_chain key ct ct' r h C Hu) as (H1 & H2 & H3). auto.
Qed.

Lemma steps_chain key ct ct' r h :
  chain_ok key ct r h -> short ct -> rtc step ct ct' ->
  exists h', chain_ok key ct' r h' /\ short ct' /\ remembers ct ct'.
Proof.
  intros C Hsh Hst. revert h C Hsh. induction Hst as [ct|ct ct1 ct' H1 _ IH]; intros h C Hsh; [by exists h|].
  destruct (step_chain key ct ct1 r h C Hsh H1) as (h1 & C1 & Sh1 & R1). destruct (IH h1 C1 Sh1) as (h' & C' & Sh' & R').
  exists h'. split; [done|]. split; [done|by etrans].
Qed.

(** ** Opening *)

Definition genesis_key_of (e : genesis_entry) : bytes := make_compound_key (ge_space e) (ge_key e).

(** What the genesis data says of a key. *)
Fixpoint genesis_lookup (x : bytes) (data : list genesis_entry) : option bytes :=
  match data with
  | [] => None
  | e :: data => if bytes_eqb x (genesis_key_of e) then Some (ge_value e) else genesis_lookup x data
  end.

(** The objects are written one after the other; one that is there already is
    refused. *)
Definition writable (data : list genesis_entry) (st : store) (p : ptr) : Prop :=
  NoDup (map genesis_key_of data) /\ Forall (fun k => view_of st p k = None) (map genesis_key_of data).

Lemma write_genesis_run data st p d b :
  store_wf st -> live st p -> st_deltas st !! p = Some d -> sd_final d = false -> sd_backend d = Some b ->
  (writable data st p /\ exists st' d' b', write_genesis data p st = Ret tt st' /\ store_wf st' /\ live st' p /\
     st_deltas st' !! p = Some d' /\ sd_parent d' = sd_parent d /\ sd_backend d' = Some b' /\ bk_id b' = bk_id b /\
     bk_revision b' = bk_revision b /\
     forall x, view_of st' p x = match genesis_lookup x data with Some v => Some v | None => view_of st p x end) \/
  (~ writable data st p /\ exists st', write_genesis data p st =
     Throw (runtime_error "encountered unexpected object in initial state") st').
Proof.
  revert st d b. induction data as [|e data IH]; intros st d b Hwf Hl Hd Hf Hb.
  { left. split; [split; constructor|]. by exists st, d, b. }
  cbn [write_genesis]. unfold sn_get. fold (genesis_key_of e). rewrite (bind_Ret _ _ _ _ _ (sd_get_ok _ _ _ Hwf Hl)).
  destruct (view_of st p (genesis_key_of e)) as [v|] eqn:He.
  { right. split; [|by eexists]. intros [_ Hall]. apply Forall_cons in Hall as [Hall _]. congruence. }
  destruct (sd_put_view st p d (genesis_key_of e) (ge_value e) Hwf Hl Hd Hf) as (n & st1 & Hput & Hwf1 & Hsh & Hlv & Hv & _).
  pose proof Hput as Hput'. rewrite (sd_put_eq st p d b) in Hput' by done. injection Hput' as _ Hst1.
  destruct (same_shape_lookup _ _ _ _ Hsh Hd) as (d1 & Hd1 & Hp1 & Hf1). unfold sn_put. fold (genesis_key_of e).
  rewrite (bind_Ret _ _ _ _ _ Hput).
  assert (sd_backend d1 = Some (backend_put (genesis_key_of e) (ge_value e) b).2) as Hb1.
  { rewrite <- Hst1, store_set_lookup_eq in Hd1. by injection Hd1 as <-. }
  assert (writable (e :: data) st p <-> writable data st1 p) as Hw.
  { unfold writable. cbn [map]. rewrite NoDup_cons, Forall_cons. setoid_rewrite Forall_forall. setoid_rewrite Hv. split.
    - intros [[Hn Hnd] [_ Hall]]. split; [done|]. intros x Hx. case_bool; bool_to_prop; [by subst|auto].
    - intros [Hnd Hall]. assert (genesis_key_of e ∉ map genesis_key_of data) as Hn.
      { intros Hin. specialize (Hall _ Hin). rewrite bytes_eqb_refl in Hall. done. }
      split; [done|]. split; [done|]. intros x Hx. specialize (Hall x Hx). by case_bool. }
  destruct (IH st1 d1 _ Hwf1 (Hlv p Hl) Hd1 ltac:(congruence) Hb1) as
    [[Hok (st2 & d2 & b2 & Hrun & Hwf2 & Hl2 & Hd2 & Hp2 & Hb2 & Hid & Hrev & Hv2)]|[Hno Hrun]]; rewrite Hw; [left|by right].
  split; [done|]. exists st2, d2, b2. do 4 (split; [done|]). split; [congruence|]. do 3 (split; [done|]).
  intros x. rewrite Hv2, Hv. cbn [genesis_lookup]. destruct (genesis_lookup x data) as [v|] eqn:Ex; [|by case_bool].
  case_bool; [|done]. bool_to_prop. subst. destruct Hok as [_ Hall]. exfalso.
  enough (genesis_key_of e ∈ map genesis_key_of data) as Hin.
  { rewrite Forall_forall in Hall. specialize (Hall _ Hin). rewrite Hv, bytes_eqb_refl in Hall. done. }
  clear -Ex. induction data as [|e' data IH]; [done|]. cbn [genesis_lookup map] in *.
  destruct (bytes_eqb _ _) eqn:E; bool_to_prop; [rewrite E; left|right; auto].
Qed.

Lemma fresh_view x : view_of fresh_store 0 x = None.
Proof. done. Qed.

(** The genesis function on the fresh database. *)
Lemma initialize_genesis_cases data :
  (NoDup (map genesis_key_of data) /\
   ((exists key st d b, genesis_lookup genesis_object data = Some key /\
       initialize_genesis data 0 fresh_store = Ret tt st /\ store_wf st /\ live st 0 /\ st_deltas st !! 0%nat = Some d /\
       sd_parent d = None /\ sd_backend d = Some b /\ bk_id b = null_id /\ bk_revision b = 0 /\
       forall x, view_of st 0 x = genesis_lookup x data) \/
    (genesis_lookup genesis_object data = None /\ exists st, initialize_genesis data 0 fresh_store =
       Throw (runtime_error "could not find genesis public key in database") st))) \/
  (~ NoDup (map genesis_key_of data) /\ exists st, initialize_genesis data 0 fresh_store =
     Throw (runtime_error "encountered unexpected object in initial state") st).
Proof.
  destruct (write_genesis_run data fresh_store 0 new_delta default_backend fresh_store_wf fresh_store_live eq_refl eq_refl eq_refl)
    as [[[Hnd _] (st & d & b & Hrun & Hwf & Hl & Hd & Hp & Hb & Hid & Hrev & Hv)]|[Hno [st Hrun]]]; unfold initialize_genesis.
  - left. split; [done|]. assert (forall x, view_of st 0 x = genesis_lookup x data) as Hview.
    { intros x. rewrite Hv, fresh_view. by destruct (genesis_lookup x data). }
    rewrite (bind_Ret _ _ _ _ _ Hrun). unfold sn_get. fold genesis_object.
    rewrite (bind_Ret _ _ _ _ _ (sd_get_ok _ _ _ Hwf Hl)), Hview.
    destruct (genesis_lookup genesis_object data) as [key|]; [|right; by eauto]. left. exists key, st, d, b. by rewrite Hid, Hrev.
  - right. split; [|exists st; unfold bind; by rewrite Hrun]. intros Hnd. apply Hno. split; [done|].
    apply Forall_forall. intros x _. apply fresh_view.
Qed.

(** Opening the controller with what the genesis function did. *)
Lemma ctl_open_run data limit st d b :
  initialize_genesis data 0 fresh_store = Ret tt st -> st_deltas st !! 0%nat = Some d -> sd_backend d = Some b ->
  ctl_open data false (new_controller limit) =
  Ret tt (set_db (opened_index (initialize_genesis data) st d b) (new_controller limit)).
Proof.
  intros Hrun Hd Hb. unfold ctl_open. set (ct := set_db _ _).
  rewrite (bind_Ret _ _ _ _ _ (on_db_Ret _ (new_controller limit) _ _ (db_open_run _ _ _ _ Hrun Hd Hb))). fold ct.
  rewrite bind_ret, (bind_Ret _ _ ct (Some 0%nat) ct) by done. unfold unptr. rewrite bind_ret.
  assert (backend_of (di_store (ct_db ct)) 0%nat = Some b) as Hpb.
  { cbn [ct ct_db set_db opened_index di_store]. unfold backend_of. by rewrite store_set_lookup_eq. }
  rewrite (bind_Ret _ _ _ _ _ (on_node_read _ ct _ (read_revision _ _ _ Hpb))).
  by rewrite (bind_Ret _ _ _ _ _ (on_node_read _ ct _ (read_id _ _ _ Hpb))).
Qed.

Lemma ctl_open_throws data limit e st :
  initialize_genesis data 0 fresh_store = Throw e st -> exists ct, ctl_open data false (new_controller limit) = Throw e ct.
Proof.
  intros Hrun. destruct (db_open_throws _ _ _ Hrun) as [i Hi]. unfold ctl_open.
  exists (set_db i (new_controller limit)). unfold bind at 1, on_db at 1, zoom. cbn [ct_db new_controller]. by rewrite Hi.
Qed.

Lemma opened_chain data limit key st d b :
  genesis_lookup genesis_object data = Some key -> store_wf st -> live st 0 -> st_deltas st !! 0%nat = Some d ->
  sd_parent d = None -> sd_backend d = Some b -> bk_id b = null_id -> bk_revision b = 0 -> (forall x, view_of st 0 x = genesis_lookup x data) ->
  let ct := set_db (opened_index (initialize_genesis data) st d b) (new_controller limit) in
  chain_ok key ct 0 0 /\ short ct /\ forall x, view_of (di_store (ct_db ct)) 0 x = genesis_lookup x data.
Proof.
  intros Hk Hwf Hl Hd Hp Hb Hid Hr Hv ct.
  assert (forall x, view_of (di_store (ct_db ct)) 0 x = genesis_lookup x data) as Hv'.
  { intros x. cbn [ct ct_db set_db opened_index di_store]. by rewrite finalized_view. }
  assert (backend_of (di_store (ct_db ct)) 0%nat = Some b) as Hpb.
  { cbn [ct ct_db set_db opened_index di_store]. unfold backend_of. by rewrite store_set_lookup_eq. }
  split; [constructor|split; [|done]].
  - by apply opened_index_wf.
  - done.
  - cbn. rewrite Hid. constructor.
  - intros id p [= -> ->]%list_elem_of_singleton. exists (finalized d), b. split; [apply store_set_lookup_eq|].
    split; [done|]. cbn [finalized sd_parent]. by rewrite Hp.
  - intros id p [= -> ->]%list_elem_of_singleton _. by rewrite Hv'.
  - intros id p b' [= -> ->]%list_elem_of_singleton _ Hb'. assert (b' = b) as -> by congruence. rewrite Hr. done.
Qed.

Lemma ctl_open_chain data limit ct :
  ctl_open data false (new_controller limit) = Ret tt ct ->
  exists key, genesis_lookup genesis_object data = Some key /\ chain_ok key ct 0 0 /\ short ct /\
    forall x, view_of (di_store (ct_db ct)) 0 x = genesis_lookup x data.
Proof.
  intros Ho. destruct (initialize_genesis_cases data) as
    [[_ [(key & st & d & b & Hk & Hrun & Hwf & Hl & Hd & Hp & Hb & Hid & Hr & Hv)|[_ [st Hrun]]]]|[_ [st Hrun]]];
    [|destruct (ctl_open_throws data limit _ _ Hrun); congruence..].
  rewrite (ctl_open_run data limit st d b Hrun Hd Hb) in Ho. injection Ho as <-. exists key. split; [done|].
  by eapply opened_chain.
Qed.

(** C36. Opening succeeds exactly when no two genesis objects share a key and the
    genesis key is among them; then the root is the whole chain and shows the
    genesis objects and nothing else. Otherwise it throws. *)
Theorem ctl_open_spec data limit :
  match bool_decide (NoDup (map genesis_key_of data)), genesis_lookup genesis_object data with
  | true, Some key => exists ct, ctl_open data false (new_controller limit) = Ret tt ct /\
      di_entries (ct_db ct) = [(null_id, 0%nat)] /\ index_wf (ct_db ct) 0 0 /\
      forall x, view_of (di_store (ct_db ct)) 0 x = genesis_lookup x data
  | true, None => exists ct, ctl_open data false (new_controller limit) =
      Throw (runtime_error "could not find genesis public key in database") ct
  | false, _ => exists ct, ctl_open data false (new_controller limit) =
      Throw (runtime_error "encountered unexpected object in initial state") ct
  end.
Proof.
  destruct (initialize_genesis_cases data) as
    [[Hnd [(key & st & d & b & Hk & Hrun & Hwf & Hl & Hd & Hp & Hb & Hid & Hr & Hv)|[Hk [st Hrun]]]]|[Hnd [st Hrun]]].
  - rewrite bool_decide_true, Hk by done. eexists. split; [by apply ctl_open_run|].
    destruct (opened_chain data limit key st d b Hk Hwf Hl Hd Hp Hb Hid Hr Hv) as ([W _ _ _ _] & _ & Hv').
    split; [cbn; by rewrite Hid|done].
  - rewrite bool_decide_true, Hk by done. by eapply ctl_open_throws.
  - rewrite bool_decide_false by done. by eapply ctl_open_throws.
Qed.

(** ** What holds throughout a history *)

(** A controller after [data] was opened, without the reset flag, and calls were
    made. With the flag the database is made anew at once and its head is not in
    its index ([reset_loses_head]). *)
Definition reachable (data : list genesis_entry) (limit : Z) (ct : controller) : Prop :=
  exists ct0, ctl_open data false (new_controller limit) = Ret tt ct0 /\ rtc step ct0 ct.

Lemma reachable_chain data limit ct :
  reachable data limit ct ->
  exists key h, genesis_lookup genesis_object data = Some key /\ chain_ok key ct 0 h /\ short ct /\
    forall x, view_of (di_store (ct_db ct)) 0 x = genesis_lookup x data.
Proof.
  intros (ct0 & Ho & Hst). destruct (ctl_open_chain data limit ct0 Ho) as (key & Hk & C0 & Sh0 & Hv0).
  destruct (steps_chain key ct0 ct 0 0 C0 Sh0 Hst) as (h & C & Sh & [_ HF]). exists key, h. do 3 (split; [done|]).
  intros x. destruct (iw_head_final _ _ _ (co_index _ _ _ _ C0)) as (d & Hd & Hf).
  destruct (HF _ _ d (co_root_id _ _ _ _ C0) Hd Hf) as (_ & _ & _ & Hv). by rewrite Hv.
Qed.

(** C3. In every history of a database that was opened without the reset flag the
    index stays a tree of blocks: the head is the longest final node, every node
    is the root or stands one revision above a final node of the index, the root
    shows the genesis objects, and no final node is more than 60 blocks above
    it. *)
Theorem history_invariant data limit ct :
  reachable data limit ct ->
  exists h, index_wf (ct_db ct) 0 h /\
    (forall id p, (id, p) ∈ di_entries (ct_db ct) -> linked (ct_db ct) 0 p) /\
    (forall x, view_of (di_store (ct_db ct)) 0 x = genesis_lookup x data) /\
    forall id p b, (id, p) ∈ di_entries (ct_db ct) -> is_final (di_store (ct_db ct)) p ->
      backend_of (di_store (ct_db ct)) p = Some b -> 0 <= bk_revision b <= default_irreversible_threshold.
Proof.
  intros H. destruct (reachable_chain data limit ct H) as (key & h & _ & C & Sh & Hv). exists h.
  split; [apply C|]. split; [apply C|]. split; [done|]. intros id p b He Hf Hb.
  destruct (linked_chain _ _ _ _ C _ _ He) as (_ & _ & b' & Hb' & H0). assert (b' = b) as -> by congruence.
  split; [done|by eapply Sh].
Qed.

(** C2. History is immutable, on a database that was opened without the reset flag:
    whatever is called after a block became final (more blocks, refused ones,
    transactions, readers, with or without exceptions), the index keeps the
    block, the node keeps its parent and its metadata and shows the same
    objects, and the head is never lower. *)
Theorem history_immutable data limit ct ct' :
  reachable data limit ct -> rtc step ct ct' ->
  remembers ct ct' /\
  forall h h' b b', di_head (ct_db ct) = Some h -> di_head (ct_db ct') = Some h' ->
    backend_of (di_store (ct_db ct)) h = Some b -> backend_of (di_store (ct_db ct')) h' = Some b' ->
    bk_revision b <= bk_revision b'.
Proof.
  intros H Hst. destruct (reachable_chain data limit ct H) as (key & h0 & _ & C & Sh & _).
  destruct (steps_chain key ct ct' 0 h0 C Sh Hst) as (h1 & C' & _ & R). split; [done|]. intros h h' b b' Hh Hh' Hb Hb'.
  assert (h0 = h) as -> by (pose proof (iw_head _ _ _ (co_index _ _ _ _ C)); congruence).
  assert (h1 = h') as -> by (pose proof (iw_head _ _ _ (co_index _ _ _ _ C')); congruence).
  destruct (iw_head_entry _ _ _ (co_index _ _ _ _ C)) as [hid Hhe]. destruct (iw_head_final _ _ _ (co_index _ _ _ _ C)) as (d & Hd & Hf).
  destruct R as [[l El] RF]. destruct (RF _ _ d Hhe Hd Hf) as (d' & Hd' & Hs & _).
  pose proof Hb as (d0 & Hd0 & Hbd)%backend_of_eq. assert (d0 = d) as -> by congruence.
  unfold shape_of in Hs. rewrite Hbd in Hs. destruct (sd_backend d') as [b1|] eqn:Hb1; [|by injection Hs].
  injection Hs as _ Hf' _ Hr _. rewrite <- Hr.
  apply (iw_longest _ _ _ (co_index _ _ _ _ C') hid h b1 b'); [rewrite El; apply elem_of_app; by left| | |done].
  - exists d'. split; [done|congruence].
  - unfold backend_of. by rewrite Hd'.
Qed.

(** C11. Every block that is accepted in a history, after the database was opened
    without the reset flag, is signed with the key the genesis names. *)
Theorem accepted_blocks_signed data limit ct b now rc ct' :
  reachable data limit ct -> process_block b now ct = Ret (inl rc) ct' ->
  genesis_lookup genesis_object data = Some (account_public_key (b_signer b)) /\
  verify (account_public_key (b_signer b)) (b_signature b) (b_id b) = true.
Proof.
  intros H Hrun. destruct (reachable_chain data limit ct H) as (key & h & Hk & C & Sh & _).
  pose proof (process_block_chain key ct b now 0 h C Sh) as Hc. rewrite Hrun in Hc. destruct Hc as [_ Hs].
  split; [by rewrite (Hs rc eq_refl)|].
  destruct (process_block_accepted uninit1 uninit2 ct b now 0 h rc ct' (co_index _ _ _ _ C) Hrun)
    as (p & pb & node & i1 & receipt & ct2 & (Hv & _) & _).
  unfold block_validate in Hv. repeat (case_bool; [done|]). bool_to_prop. done.
Qed.

(** ** Progress *)

(** A block without transactions, signed with the genesis key. *)
Lemma apply_block_empty n b c :
  open_block n c -> b_transactions b = [] ->
  view_of (cx_store c) (node_ptr n) genesis_object = Some (account_public_key (b_signer b)) ->
  exists rc m, apply_block uninit1 uninit2 b c = Ret (inl rc) (set_meter m c).
Proof.
  intros Hob Hts Hk. unfold apply_block, the_node. rewrite bind_assoc, bind_gets, (ob_node _ _ Hob), bind_ret.
  set (c1 := set_meter (set_resource_limits default_limits (cx_meter c)) c).
  rewrite (bind_Ret _ _ c tt c1) by done. rewrite bind_gets. cbv zeta. unfold sn_get. fold genesis_object.
  rewrite (bind_Ret _ _ c1 (view_of (cx_store c) (node_ptr n) genesis_object) c1).
  2:{ unfold on_cstore, zoom. cbn [cx_store c1 set_meter].
      by rewrite (sd_get_ok _ _ _ (rd_store _ (ob_ready _ _ Hob)) (open_block_live _ _ Hob)). }
  rewrite Hk, bytes_eqb_refl, Hts. cbn [negb]. cbn [apply_transactions]. rewrite bind_ret. eexists _, _. reflexivity.
Qed.

(** The digest of a node depends on its delta alone. *)
Lemma merkle_root_delta st st' p m st1 :
  st_deltas st' !! p = st_deltas st !! p -> sd_get_merkle_root p st = Ret m st1 ->
  exists st2, sd_get_merkle_root p st' = Ret m st2.
Proof.
  intros Hs. unfold sd_get_merkle_root, bind, deref. rewrite Hs. destruct (st_deltas st !! p) as [d|]; [|done].
  destruct (negb (sd_final d)); [done|]. destruct (sd_merkle_root d); [intros [= -> _]; by exists st'|].
  unfold unptr. destruct (sd_backend d); [|done]. intros [= <- _]. eexists. reflexivity.
Qed.

Lemma check_parent_ok b p ct d pb ct0 :
  live (di_store (ct_db ct)) p -> st_deltas (di_store (ct_db ct)) !! p = Some d -> sd_backend d = Some pb ->
  sd_final d = true -> b_height b = u64 (bk_revision pb + 1) -> (b_previous b = zero_digest -> b_height b = 1) ->
  on_db (pn_merkle_root p) ct = Ret (b_state_merkle_root b) ct0 ->
  exists ct1, check_parent b p ct = Ret (inl 0) ct1.
Proof.
  intros Hl Hd Hb Hf Hh Hz Hm. unfold check_parent. destruct (bytes_eqb _ _) eqn:Ez; bool_to_prop.
  { rewrite (Hz Ez), Z.eqb_refl. by eexists. }
  rewrite (bind_Ret _ _ _ _ _ Hm), bytes_eqb_refl. cbn [negb].
  pose proof (reads_Ret _ _ _ _ (on_node_reads _ (merkle_root_cached p)) Hm) as (st & Hc & E0).
  destruct (cached_lookup _ _ _ _ Hc Hd) as (d' & Hd' & [= _ Hb' _ Hf']).
  set (c := set_node (Some (Node true p)) (new_context (di_store (ct_db ct0)) (ct_cache ct0) read_only)).
  destruct (ctx_head_run c p d' pb) as (prev & root & st' & Hrun & _ & _);
    [done|cbn; rewrite E0; by eapply cached_live|cbn; by rewrite E0|congruence|congruence|].
  unfold bind at 1, in_context, zoom. fold c. rewrite Hrun. cbn [hi_height hi_time]. rewrite Hh, Z.eqb_refl. by eexists.
Qed.

(** A well-formed empty block on the head [h]. *)
Record next_block (ct : controller) (h : ptr) (hb : backend) (b : block) (now : Z) : Prop := {
  nb_valid : block_validate b = true;
  nb_new : entry_find (b_id b) (di_entries (ct_db ct)) = None;
  nb_id : b_id b <> null_id;
  nb_empty : b_transactions b = [];
  nb_previous : b_previous b = bk_id hb;
  nb_height : b_height b = bk_revision hb + 1;
  nb_root : exists ct0, on_db (pn_merkle_root h) ct = Ret (b_state_merkle_root b) ct0;
  nb_time : 0 < b_timestamp b <= u64 (milliseconds (now + time_delta))
}.

Lemma next_block_parent key ct h hb b now node i1 :
  chain_ok key ct 0 h -> backend_of (di_store (ct_db ct)) h = Some hb -> bk_revision hb <= default_irreversible_threshold ->
  next_block ct h hb b now -> new_node (ct_db ct) 0 h h hb b node i1 ->
  exists ct1, check_parent b h (set_db i1 ct) = Ret (inl 0) ct1.
Proof.
  intros C Hhb Hlow [_ _ _ _ Hprev Hht [ct0 Hroot] _] Nn. unfold default_irreversible_threshold in Hlow.
  pose proof (co_index _ _ _ _ C) as W. destruct (iw_head_entry _ _ _ W) as [hid Hhe].
  destruct (wf_entry _ _ _ W _ _ Hhe) as (Hlh & hb' & Hhb' & Hhid). cbn [fst snd] in *.
  assert (hb' = hb) as -> by congruence. subst hid.
  destruct (linked_chain _ _ _ _ C _ _ Hhe) as (_ & _ & hb' & Hhb2 & H0). assert (hb' = hb) as -> by congruence.
  destruct (nn_live _ _ _ _ _ _ _ _ Nn h Hlh) as (Hlh1 & _ & Hsame).
  destruct (iw_head_final _ _ _ W) as (d & Hd & Hf). pose proof Hhb as (d0 & Hd0 & Hbd)%backend_of_eq.
  assert (d0 = d) as -> by congruence.
  assert (exists ct2, on_db (pn_merkle_root h) (set_db i1 ct) = Ret (b_state_merkle_root b) ct2) as [ct2 Hm].
  { unfold on_db, pn_merkle_root, on_store, zoom in Hroot. destruct (sd_get_merkle_root h _) as [m st| |] eqn:Em in Hroot; [|done..].
    injection Hroot as -> _. destruct (merkle_root_delta _ (di_store i1) _ _ _ Hsame Em) as [st' Em'].
    eexists. by apply on_db_Ret, on_store_Ret. }
  apply (check_parent_ok b h (set_db i1 ct) d hb ct2); [done|cbn; by rewrite Hsame|done|done| | |done].
  { rewrite u64_small by (unfold u64_ok; lia). done. }
  intros Hz. rewrite Hprev in Hz. change zero_digest with null_id in Hz.
  pose proof (entry_find_elem _ _ _ (iw_nodup _ _ _ W) Hhe) as Hfh. rewrite Hz in Hfh.
  rewrite (entry_find_elem _ _ _ (iw_nodup _ _ _ W) (co_root_id _ _ _ _ C)) in Hfh. injection Hfh as <-.
  destruct (co_root_revision _ _ _ _ C) as (rb & Hrb & Hr0). assert (rb = hb) as -> by congruence. lia.
Qed.

Lemma empty_block_applied b node ct :
  open_node node ct -> b_transactions b = [] ->
  view_of (di_store (ct_db ct)) node genesis_object = Some (account_public_key (b_signer b)) ->
  exists rc ct', in_context block_application (Some (Node true node)) (apply_block uninit1 uninit2 b) ct = Ret (inl rc) ct' /\
    ct_db ct' = ct_db ct.
Proof.
  intros (Hwf & Hl & Hf) Hts Hk.
  destruct (apply_block_empty (Node true node) b _ (in_block_open ct node Hwf Hl Hf block_application true) Hts Hk) as (rc & m & Hrun).
  eexists rc, _. unfold in_context, zoom. rewrite Hrun. split; [done|]. cbn. apply set_store_same.
Qed.

(** An empty block on the head passes all checks; what is left is to make it
    final. *)
Lemma next_block_applied ct h hb b now :
  chain_ok (account_public_key (b_signer b)) ct 0 h -> short ct -> backend_of (di_store (ct_db ct)) h = Some hb -> next_block ct h hb b now ->
  exists rc ct2 node nb hb2,
    process_block b now ct = finish_block b node rc ct2 /\ chain_ok (account_public_key (b_signer b)) ct2 0 h /\
    di_entries (ct_db ct2) = di_entries (ct_db ct) ++ [(b_id b, node)] /\
    view_of (di_store (ct_db ct2)) node genesis_object = Some (account_public_key (b_signer b)) /\
    backend_of (di_store (ct_db ct2)) node = Some nb /\ bk_revision nb = bk_revision hb + 1 /\
    backend_of (di_store (ct_db ct2)) h = Some hb2 /\ bk_revision hb2 = bk_revision hb /\ 0 <= bk_revision hb <= default_irreversible_threshold.
Proof.
  intros C Sh Hhb Hnb. pose proof Hnb as [Hv Hnew Hid Hts Hprev Hht _ Ht]. pose proof (co_index _ _ _ _ C) as W.
  destruct (iw_head_entry _ _ _ W) as [hid Hhe]. destruct (wf_entry _ _ _ W _ _ Hhe) as (Hlh & hb' & Hhb' & Hhid).
  cbn [fst snd] in *. assert (hb' = hb) as -> by congruence. subst hid. pose proof (Sh _ _ _ Hhe (iw_head_final _ _ _ W) Hhb) as Hlow.
  assert (connectable ct b h) as Hcn.
  { split; [done|]. split; [done|]. split; [rewrite Hprev; by apply (entry_find_elem _ _ _ (iw_nodup _ _ _ W))|]. split; [apply W|done]. }
  destruct (process_block_connect uninit1 uninit2 ct b now 0 h h hb W Hcn Hhb) as (node & i1 & Nn & ->).
  destruct (new_node_chain _ ct 0 h b h hb node i1 C Sh Hcn Hhb Nn) as (C1 & _ & _ & nb & Hnbk & Hrev).
  destruct (next_block_parent _ ct h hb b now node i1 C Hhb Hlow Hnb Nn) as [ct1 Hc].
  pose proof (nn_wf _ _ _ _ _ _ _ _ Nn) as W1. pose proof (new_node_live _ _ _ _ _ _ _ _ Nn) as Hln.
  pose proof (reads_Ret _ _ _ _ (check_parent_reads b h) Hc) as Hr.
  pose proof (reads_extended node (set_db i1 ct) _ (iw_store _ _ _ W1) Hr) as Hx.
  assert (view_of (di_store (ct_db ct1)) node genesis_object = Some (account_public_key (b_signer b))) as Hk.
  { rewrite (reads_view _ _ _ _ Hr). cbn [ct_db set_db]. rewrite (nn_view _ _ _ _ _ _ _ _ Nn). eapply C; [done|apply W]. }
  destruct (empty_block_applied b node ct1) as (rc & ct2 & Ha & Edb);
    [by eapply extended_open; [exact Hx|split; [apply W1|split; [done|apply Nn]]]|done|done|].
  unfold connect_block. cbv zeta. rewrite (bind_Ret _ _ _ _ _ Hc), (proj2 (Z.ltb_ge _ _)), (proj2 (Z.leb_gt _ _)) by lia.
  cbn [orb]. rewrite (bind_Ret _ _ _ _ _ Ha).
  destruct (extended_chain _ _ _ 0 h node C1 (nn_open _ _ _ _ _ _ _ _ Nn) Hx) as (C2 & _ & _). destruct Hx as (st & E & Hg & _).
  cbn [ct_db set_db] in *. destruct (shape_backend _ _ _ _ Hg Hln Hnbk) as (nb2 & Hnb2 & [= _ Hr2 _]).
  destruct (nn_live _ _ _ _ _ _ _ _ Nn h Hlh) as (Hlh1 & _ & Hsame).
  destruct (shape_backend _ _ h hb Hg Hlh1) as (hb2 & Hhb2 & [= _ Hrh2 _]); [unfold backend_of in *; by rewrite Hsame|].
  destruct (linked_chain _ _ _ _ C _ _ Hhe) as (_ & _ & hb' & Hhb3 & H0). assert (hb' = hb) as -> by congruence.
  exists rc, ct2, node, nb2, hb2. split; [done|]. split; [destruct C2; by constructor; rewrite Edb|]. rewrite Edb. split; [rewrite E; apply Nn|].
  split; [done|]. rewrite E. cbn. split; [done|]. split; [lia|]. split; [done|]. split; [done|]. by split.
Qed.

(** C12. The chain can go on: in every history of a database that was opened
    without the reset flag and whose head is below height 60, an empty block on
    the head, signed with the genesis key, with the right height and merkle root
    and a timestamp that is not in the future, is accepted and becomes the
    head. *)
Theorem empty_block_accepted data limit ct h hb b now :
  reachable data limit ct -> di_head (ct_db ct) = Some h -> backend_of (di_store (ct_db ct)) h = Some hb ->
  bk_revision hb < default_irreversible_threshold -> next_block ct h hb b now ->
  genesis_lookup genesis_object data = Some (account_public_key (b_signer b)) ->
  exists rc ct' node, process_block b now ct = Ret (inl rc) ct' /\ di_head (ct_db ct') = Some node /\
    di_entries (ct_db ct') = di_entries (ct_db ct) ++ [(b_id b, node)].
Proof.
  intros H Hh Hhb Hlow Hnb Hkey. destruct (reachable_chain data limit ct H) as (key & h0 & Hk & C & Sh & _). rewrite Hkey in Hk. injection Hk as <-.
  assert (h0 = h) as -> by (pose proof (iw_head _ _ _ (co_index _ _ _ _ C)); congruence).
  destruct (next_block_applied ct h hb b now C Sh Hhb Hnb) as (rc & ct2 & node & nb & hb2 & -> & C2 & He & _ & Hnb2 & Hr & Hhb2 & Hrh & H0).
  destruct (co_root_revision _ _ _ _ C2) as (rb & Hrb & Hr0). unfold default_irreversible_threshold in *.
  destruct (finish_block_near ct2 b node rc 0 h hb2 nb rb (b_id b)) as (root & ct3 & Hrun & Hs);
    unfold default_irreversible_threshold; [apply C2|apply C2|rewrite He; apply elem_of_app; right; constructor|done|done|done|lia..|].
  rewrite (proj2 (Z.ltb_lt _ _)) in Hs by lia. eexists _, ct3, node. split; [exact Hrun|]. split; [apply (iw_head _ _ _ (sl_wf _ _ _ _ _ Hs))|].
  by rewrite (sl_entries _ _ _ _ _ Hs).
Qed.

(** C39. Where the chain ends: in every history of a database that was opened
    without the reset flag, once the head is at height 60, the next block takes
    the node down. Any empty block on the head that would have been accepted
    below that height (signed with the genesis key, with the right height and
    merkle root and a timestamp that is not in the future) makes
    [process_block] dereference a null pointer: the block is final by then, the
    first one becomes irreversible, and its commit asks the old root for its id
    after its backend was taken away. *)
Theorem chain_stops_above_60 data limit ct h hb b now :
  reachable data limit ct -> di_head (ct_db ct) = Some h -> backend_of (di_store (ct_db ct)) h = Some hb ->
  bk_revision hb = default_irreversible_threshold -> next_block ct h hb b now ->
  genesis_lookup genesis_object data = Some (account_public_key (b_signer b)) ->
  process_block b now ct = Fault null_dereference.
Proof.
  intros H Hh Hhb Hhigh Hnb Hkey. destruct (reachable_chain data limit ct H) as (key & h0 & Hk & C & Sh & _). rewrite Hkey in Hk. injection Hk as <-.
  assert (h0 = h) as -> by (pose proof (iw_head _ _ _ (co_index _ _ _ _ C)); congruence).
  destruct (next_block_applied ct h hb b now C Sh Hhb Hnb) as (rc & ct2 & node & nb & hb2 & -> & C2 & He & Hg & Hnb2 & Hr & _).
  apply (finish_block_far _ ct2 b node rc 0 h nb C2); [rewrite He; apply elem_of_app; right; constructor|done|done|].
  unfold default_irreversible_threshold in *. lia.
Qed.
End history.

(** ** A sample history *)

Lemma opened_run : ctl_open sample_genesis false (new_controller 1000) = Ret tt opened.
Proof. vm_compute. reflexivity. Qed.

Lemma first_step : step [] [] opened after_first.
Proof. apply (step_returns [] [] _ _ (call_process_block first_block noon)). unfold perform, bind. by rewrite first_block_run. Qed.

Lemma opened_reachable : reachable [] [] sample_genesis 1000 opened.
Proof. exists opened. split; [exact opened_run|constructor]. Qed.

Lemma after_first_reachable : reachable [] [] sample_genesis 1000 after_first.
Proof. exists opened. split; [exact opened_run|exact (rtc_once _ _ first_step)]. Qed.

Lemma history_invariant_witness :
  exists h, index_wf (ct_db after_first) 0 h /\
    forall x, view_of (di_store (ct_db after_first)) 0 x = genesis_lookup x sample_genesis.
Proof.
  destruct (history_invariant [] [] sample_genesis 1000 after_first after_first_reachable) as (h & W & _ & Hv & _).
  exists h. split; [exact W|exact Hv].
Defined.

Lemma history_immutable_witness : remembers opened after_first.
Proof.
  exact (proj1 (history_immutable [] [] sample_genesis 1000 opened after_first opened_reachable (rtc_once _ _ first_step))).
Defined.

Lemma accepted_blocks_signed_witness :
  process_block [] [] first_block noon opened = Ret (inl first_receipt) after_first /\
  genesis_lookup genesis_object sample_genesis = Some (account_public_key (b_signer first_block)).
Proof.
  split; [exact first_block_run|].
  exact (proj1 (accepted_blocks_signed [] [] sample_genesis 1000 opened first_block noon first_receipt after_first
    opened_reachable first_block_run)).
Defined.

(** An empty block on the first one. *)
Definition second_block : block := sealed (b_id first_block) 2 2000 (head_root after_first) [].
Definition after_first_head : ptr := default 0%nat (di_head (ct_db after_first)).
Definition after_first_backend : backend := default default_backend (backend_of (di_store (ct_db after_first)) after_first_head).

Lemma second_block_next : next_block after_first after_first_head after_first_backend second_block noon.
Proof.
  constructor; try (vm_compute; reflexivity).
  - vm_compute. discriminate.
  - eexists. vm_compute. reflexivity.
  - by vm_compute.
Qed.

Lemma empty_block_accepted_witness :
  exists rc ct' node, process_block [] [] second_block noon after_first = Ret (inl rc) ct' /\
    di_head (ct_db ct') = Some node.
Proof.
  destruct (empty_block_accepted [] [] sample_genesis 1000 after_first after_first_head after_first_backend second_block noon
    after_first_reachable) as (rc & ct' & node & Hrun & Hh & _);
    [vm_compute; reflexivity|vm_compute; reflexivity|vm_compute; reflexivity|exact second_block_next|vm_compute; reflexivity|].
  exists rc, ct', node. split; [exact Hrun|exact Hh].
Defined.

(** Opened with the reset flag, the database forgets its head: the old root keeps
    its place in the index, emptied, and a valid first block, which names it,
    finds no genesis key. *)
Definition reset_opened : controller := state_of (ctl_open sample_genesis true (new_controller 1000)) (new_controller 1000).

Example reset_loses_head :
  ctl_open sample_genesis true (new_controller 1000) = Ret tt reset_opened /\
  di_head (ct_db reset_opened) = Some 1%nat /\ di_entries (ct_db reset_opened) = [(null_id, 0%nat)] /\
  process_block [] [] (sealed zero_digest 1 1000 (head_root reset_opened) []) noon reset_opened =
    Throw (runtime_error "genesis address not found")
      (state_of (process_block [] [] (sealed zero_digest 1 1000 (head_root reset_opened) []) noon reset_opened) reset_opened).
Proof. split; [|split; [|split]]; by vm_compute. Qed.

(** Sixty empty blocks, and one more. *)
Lemma empty_blocks_steps n previous height ct r ct' :
  empty_blocks n previous height ct = Ret r ct' -> rtc (step [] []) ct ct'.
Proof.
  revert previous height ct. induction n as [|n IH]; intros previous height ct H; [by injection H as _ <-|]. cbn [empty_blocks] in H. cbv zeta in H.
  set (b := sealed _ _ _ _ _) in H. destruct (process_block [] [] b noon ct) as [[rc|e] ct1|e ct1|f] eqn:E; [| |done|done].
  - apply rtc_l with ct1; [|by eapply IH]. apply (step_returns [] [] _ _ (call_process_block b noon)). unfold perform, bind. by rewrite E.
  - injection H as _ <-. apply rtc_once, (step_returns [] [] _ _ (call_process_block b noon)). unfold perform, bind. by rewrite E.
Qed.

Lemma result_state {S A} (o : outcome S A) s a : result_of o = Some a -> o = Ret a (state_of o s).
Proof. destruct o; [|done|done]. by intros [= ->]. Qed.

Definition after_sixty : controller := state_of (empty_blocks 60 zero_digest 1 opened) opened.
Definition sixtieth : ptr := default 0%nat (di_head (ct_db after_sixty)).
Definition sixtieth_backend : backend := default default_backend (backend_of (di_store (ct_db after_sixty)) sixtieth).
Definition last_block : block := sealed (bk_id sixtieth_backend) 61 1 (head_root after_sixty) [].

Lemma after_sixty_reachable : reachable [] [] sample_genesis 1000 after_sixty.
Proof.
  exists opened. split; [exact opened_run|]. apply (empty_blocks_steps 60 zero_digest 1 opened 60). apply result_state. by vm_compute.
Qed.

Lemma last_block_next : next_block after_sixty sixtieth sixtieth_backend last_block noon.
Proof.
  constructor; try (vm_compute; reflexivity).
  - vm_compute. discriminate.
  - exists (state_of (on_db (pn_merkle_root sixtieth) after_sixty) after_sixty). apply result_state. by vm_compute.
  - by vm_compute.
Qed.

Lemma chain_stops_above_60_witness :
  bk_revision sixtieth_backend = 60 /\ process_block [] [] last_block noon after_sixty = Fault null_dereference.
Proof.
  split; [by vm_compute|].
  apply (chain_stops_above_60 [] [] sample_genesis 1000 after_sixty sixtieth sixtieth_backend last_block noon after_sixty_reachable);
    [vm_compute; reflexivity|vm_compute; reflexivity|vm_compute; reflexivity|exact last_block_next|vm_compute; reflexivity].
Defined.
